(* ===== verification/_CoqProject ===== *)
-Q . S2P
Prelude.v
Code.v
Base64.v
Base64Spec.v
RefCount.v
Heap.v
PacketBuf.v
PacketSpec.v
PacketStore.v
ZObject.v
CLib.v
CharSet.v
Misc.v
Dump.v
UrlParse.v
StreamApi.v
StreamLine.v
StreamBuf.v
Stream.v
StreamStack.v
StreamClose.v
StreamIO.v
StreamCtl.v
Blob.v
BlobSpec.v
StreamBlob.v
StreamTee.v
StreamFd.v
Zlib.v
CodeGzip.v
StreamGzip.v
StreamGzipSpec.v
SockAddr.v
Socket.v
Registry.v
Log.v
Source.v
Connect.v
Listen.v
Random.v
MemTrace.v
MemTraceTable.v
MemTraceSpec.v
Crypt.v
Thread.v
ThreadSpec.v
Process.v
ProcessSpec.v
Supervise.v
SuperviseSpec.v
Ssl.v
SslSpec.v
StreamSsl.v
StreamSslSpec.v
Poll.v
LogSend.v
Io.v
