(* ===== verification/Prelude.v ===== *)
(** * libzorpll: a verification development

    libzorpll is the low level library of the Zorp firewall: codecs, packet buffers,
    an object system, streams that are stacked on each other, event sources for the
    main loop of GLib, SSL sessions, a thread pool, process management, memory tracing, logging, and small utilities.  This development models the
    parts of it that compute, in the order in which they depend on each other, and
    proves what each of them promises.  Paths below are relative to src/src.

    ** Conventions

    A C function becomes a Rocq function with the same name.  It returns an
    [outcome]: [Done] with its results (the changed structures come back as values),
    or [Fault] with what went wrong: an access outside a block, a use after free, a
    failed g_assert, a signed overflow, or a loop that ran out of its iteration bound.
    Memory is a list of bytes per block ([load], [store], [load_range], [memmove]
    check every access); freshly allocated memory holds arbitrary bytes ([FreshMem]).
    Where pointers are shared between structures (packet buffers and their parts) the
    blocks live in a heap (Heap.v).  Unsigned integers are reduced with [u8], [u16],
    [u32], [u64]; a conversion to a signed type is [s32].  C strings are the bytes in
    front of the NUL.  GString and GHashTable are lists of bytes and finite maps.
    Loops that are not structural take fuel, and the theorems prove that the fuel the
    functions give them is enough, for every input or for the inputs named; where a
    loop of the source does not end, an example or a theorem shows [OutOfFuel] for
    every bound.  Calls of z_log and the trace macros are left out everywhere.

    ** The files

    - Prelude.v: outcomes, machine integers, memory blocks, shared list facts, the
      tactics [outcome_inv] and [decide_lia] and the hint database zorp.
    - Code.v (code.c, zorp/code.h): the result buffer of a codec, its growth, reading,
      pushing back and dropping; the class [CodeMethods] of the virtual transform and
      finish methods and the class [CodeLaws], which says that a codec implements an
      abstract machine from bytes to bytes; sessions of feeding and reading are proved
      against these laws only.
    - Base64.v (code_base64.c): the encoder and the decoder, the proofs that they
      satisfy [CodeLaws], and that they make progress.  Base64Spec.v: the reference
      encoding, the round trip, the totality of the decoder, and the inputs on which
      the encoder leaves its buffer.
    - Zlib.v: zlib as a class with the laws its documentation gives, and a small codec that
      satisfies them.  CodeGzip.v (code_gzip.c, code_cipher.c): the codecs over zlib and over
      a cipher of OpenSSL.
    - RefCount.v (zorp/misc.h): the reference counters and the life of a counted object.
    - Heap.v: blocks, pointers, regions of bytes.  PacketBuf.v (packetbuf.c): the packet
      buffer; PacketSpec.v: what its operations do to the contents of a packet, for
      owned and borrowed buffers, both byte orders and both kinds of machine; parts
      share the memory of their parent, and dangle when the parent moves.
      PacketStore.v: packets behind pointers, with their reference counts, for the
      streams that keep lists of them.
    - ZObject.v (zobject.c): class descriptors, the subclass test, inherited methods.
    - CLib.v: the functions of the C library the sources call, in the C locale.
    - CharSet.v, Misc.v, Dump.v (misc.c): character sets and the state machine that
      parses them; times, escaping, port ranges, case insensitive keys; the dumps of
      buffers into the log.
    - UrlParse.v (zurlparse.c): the URL parser with its error location.
    - StreamApi.v (zorp/stream.h): statuses, conditions and control functions, and the
      classes [ZStreamOps], [ZStreamLaws], [ZStreamWriteOps] and [ZStreamWriteLaws] by
      which a stream knows the one below it.
    - StreamLine.v (streamline.c): line based reading over a child stream that is known
      only by these classes; [line_step] is the
      specification of a read in terms of the bytes still to come, and the main
      theorem is a simulation; a scripted child makes it executable.
    - StreamBuf.v (streambuf.c): the buffered stream over such a child; [buf_spec] is its
      specification as a queue of bytes with an error, and the main theorem says that
      any session of writes, flushes and shutdowns is a run of it.
    - Stream.v (stream.c): the base stream.  Streams live in a [world] that maps their
      numbers to their fields, so that parents, children and callbacks refer to each
      other as they do in memory; releasing, stacking, closing, sources, control calls
      and contexts are functions on worlds.  The control messages that a class answers
      itself are a parameter ([own_ctrl]), as is what it reads, writes and saves.  The class decides
      which close and free functions run: a tee closes and releases its fork as well, a gzip stream
      ends its compressor, a stream over a descriptor shuts its channel down (the shutdowns are parameters,
      [channel_shutdown] and [gzip_shutdown]), and a gzip stream with a header asserts that its child blocks.
      StreamStack.v: well-formed stacks ([seg]: each counter is the number of the
      references that are there; [umbrella]: each stream is active in the directions
      that none above it claims), pushing and popping.  StreamClose.v: closing,
      attaching and detaching, for stacks without gzip streams (whose shutdown writes into the
      stream below).  StreamIO.v: reading, writing in chunks, and putting
      back.  StreamCtl.v: conditions, the functions of a source, and contexts.
    - Blob.v (blob.c): blobs in memory and in files, the accounts of a blob system, its
      swapping and its management thread.  BlobSpec.v: blobs as arrays of bytes; a system
      with exact accounts ([system_ok]) keeps them under every operation; at the end, a blob in a file
      over calls that move only a part of the bytes, and runs in which the code does something else.  StreamBlob.v (streamblob.c): a blob as a
      file with a position.  StreamTee.v (streamtee.c): copying to a second stream.
    - StreamFd.v (streamfd.c): streams over descriptors.  The channel of GLib is the class
      [GIOChannel], with the laws of GLib's documentation, and [Unbuffered] for a channel that holds nothing back; the stream has the two interfaces of StreamApi.v, so that the streams
      above run over it.
    - StreamGzip.v (streamgzip.c): compressing streams over any child and the zlib of Zlib.v, and
      the gzip header.  StreamGzipSpec.v: reading, writing, and both together; at the end, runs
      in which the code does something else.
    - SockAddr.v (sockaddr.c): the addresses, their texts, equality and clones.  Socket.v
      (socket.c, cap.c): the choice of a port, binding, accepting and connecting over the
      answers of the system.
    - Registry.v (registry.c): the tables of named entries.
    - Log.v (log.c): the logspec, its matcher and parser, the verbosity, and the caches
      of tag levels with their coherence and their exclusive use by threads.
    - Source.v (source.c, socketsource.c): the prepare, check and dispatch functions of
      the event sources, with the time as an argument.
    - Connect.v (connect.c) and Listen.v (listen.c): connectors and listeners as state
      machines.  The functions are state transformers with a trace of what other
      parties see (sockets closed, callbacks called, data destroyed); a step relation
      lets the owner and the main loop come between the parts that hold the lock.
    - Random.v (random.c): bounded sequences over the bytes of RAND_bytes.
    - MemTrace.v (memtrace.c): the traced allocator, over an allocator that gives any
      free addresses: canaries, the table of the blocks with its hash chains and its free
      list.  MemTraceTable.v: the table as a finite map.  MemTraceSpec.v: the program sees
      what it would see without tracing, and what is reported.
    - Crypt.v (crypt.c): the MD5 based hashes of passwords, over any digest.
    - Thread.v (thread.c): the pool as a step relation between the threads and the
      program, with the queue of jobs and the callbacks; ThreadSpec.v: its invariants.
    - Process.v and ProcessSpec.v (process.c): settings, users and groups, the change of
      the credentials, results and pid files.  Supervise.v and SuperviseSpec.v
      (process.c): z_process_start and the supervisor, over the answers of fork, waitpid,
      kill and time.
    - Ssl.v and SslSpec.v (ssl.c): the verification of certificates with revocation lists, the
      set-up of sessions, the cache of the trusted authorities, the report of errors and the BIO.
      StreamSsl.v and StreamSslSpec.v (streamssl.c): streams over an SSL object ([SslOps],
      [SslLaws]) and a child; such a stream is again an instance of [ZStreamLaws].
    - Io.v (io.c): the modes of descriptors and their type of service.
    - Poll.v (poll.c): iterations of the main loop over a GMainContext (the class [MainContext] with
      [MainContextLaws]: its sources have priorities, and a wakeup of the context ends a poll under way or
      keeps the next one from waiting), and how the loop is woken and told to quit.
    - LogSend.v (log.c): the text of a message, the connection to the system log, the
      settings, the set-up over Log.v, and the indentation of traces.

    ** What the theorems show

    Codecs: any session of the decoder ends with its verdict and its bytes, whatever
    the chunks and the reads; the encoder produces the reference encoding whenever it
    does not leave its buffer, and on aligned buffers it does not; decoding undoes
    encoding.  Packets: each reader and writer has its functional specification, with
    the failing cases; arrays of integers are read back as written.  Objects and
    counters: no use after the last release, and resolving a class keeps the meaning
    of every call.  Text: the parsers of character sets, logspecs, port ranges and URLs
    return for every input except the ones that are named, and invert the printers.
    Streams: reading lines never leaves the buffer, loses no byte, and returns lines as
    specified, for every combination of flags; a buffered stream delivers every byte it
    accepted once and in order.  Stacks: pushing and popping keep the counters exact;
    a stack that was attached is freed as a whole whatever the order in which it is
    closed and detached, and where it holds a tee, examples show what becomes of the fork; chunks are read and written completely, and data that was put
    back is read first; a saved context is put back.  Blobs: reads and writes act on the
    contents alone, wherever the blobs are and whenever they are moved, as long as each system call on the file of a
    blob moves all the bytes it is given ([full_io], a premise of each of these theorems: the loops of blob.c do not move the
    pointer to the data, and [short_io_spec] says what a blob in a file holds after calls that move less); space is accounted
    exactly, and who waits for it gets it.  Sockets: an address is well formed however it
    is made, and its text determines it; a port is chosen from the range or group it has to
    come from, except for the ones at the upper end, where it is shown what happens.  Connectors and
    listeners: in every interleaving nothing is used after it was freed, callbacks are called
    as often as they may and not after a cancel, and each socket is closed or handed out once.
    Descriptors: every byte arrives once and in order, whatever poll answers, over a channel
    without a buffer of its own.  Gzip: what is
    written is what is read, behind the header and in front of the trailer, and no read ends early, for single calls below 4 GB
    (beyond, the code cuts the length to 32 bits) and a child that takes all of a write or fails; data
    behind the end of a stream makes the codec loop.  Event sources: the main loop sleeps
    until they are ready and no longer.  Log: the caches never disagree with the
    logspec as long as levels fit a byte; a message never leaves its buffer unless the name of
    the program fills it.  Tracing: a program that stays in its blocks sees no
    difference, over an allocator whose calloc and realloc succeed, and when canaries are on and blocks are not
    given back, misuse of a pointer or a byte that was changed next to a block is
    detected when the block is freed or reallocated.  Hashes of
    passwords follow the reference algorithm, and a password verifies against its own hash.  The
    pool runs each job once, between the callbacks that start and stop it, never has more threads than
    allowed, and drains its queue.  In its first thirty starts, after which it leaves the table of
    the times, the supervisor never starts the program more often than
    the limit allows, and hands out the result of the first start once.  Certificates: one is accepted exactly
    when the policy allows it, where the policy is that of the code and
    the runs show where it differs from the documented one.  SSL streams lose no byte, and
    a call that has to wait for the other direction leaves the child waiting for that direction and is resumed from there, if
    only that call is made meanwhile.  The main loop misses no wakeup, and ends when it is told to.

    ** Bounds

    Lengths are bounded where the source computes them in an int (a growth beyond 2^30
    bytes, texts beyond 2^31), and the theorems say so.  The fuel of a parser is a
    multiple of the length of its text; that of z_code_grow is 32, the width of an int;
    that of a line read is the number of bytes the child has still to deliver.  Loops
    over a stack take the number of streams of the world ([height]): no stream occurs
    twice in a stack.  The loops around write and read take one more than the bytes they
    move, that over a range of ports one more than there are ports.  The write loop of a gzip stream has no
    bound that the code knows: its results are those of every large enough fuel ([settles]).  Blobs are bounded by
    2^60 bytes, and the memory and the disk of a system by 2^62.  The search in the table of the
    traced allocator takes one more than its entries; the table has n entries, where the source has 300000.  The loop
    over the bits of the length of a password takes 32 rounds, the width of an int.  The supervisor takes as much fuel as there are answers of fork, its waiting
    as there are answers of waitpid.  The room for descriptors of the main loop is made in 32 rounds for up to 2^30 of them, and never for
    more.

    ** Not modelled

    Because they are system calls or calls of other libraries: zlib, OpenSSL and GLib themselves, stack
    dumps (signal handlers that print registers and memory maps), the access to errno, detaching from the terminal, limits and the title of a process, and the branches for
    Windows.  Where the modelled code calls other code, that is a parameter with the documented laws: [Zlib], [EVP_Cipher],
    [GIOChannel], [X509Ops], [SslOps], [MainContext], and the answers of the system calls, one after the
    other.  Locks and the interleaving of threads are modelled for connectors, listeners, the thread
    pool, the main loop (what others call while it polls) and the caches of the log; other operations on shared state run one after
    the other. *)

From stdpp Require Export base numbers list strings gmap.
From Stdlib Require Export ZArith Lia.
From Stdlib Require Export Ascii.
Open Scope Z_scope.

(** ** Outcomes

    A C function either returns ([Done]) or does something from which it does
    not return a value: it touches memory outside the block it was given, uses
    a block after it was freed, trips a [g_assert], performs a signed
    overflow, frees what it does not own, waits for another thread ([Blocked]), or never
    returns.  [OutOfFuel] is the value of a loop whose iteration bound was exceeded. *)

Inductive fault : Set :=
| OutOfBounds
| UseAfterFree
| AssertFailed
| SignedOverflow
| BadFree
| Blocked
| OutOfFuel.

Inductive outcome (A : Type) : Type :=
| Done (a : A)
| Fault (f : fault).
Arguments Done {A} a.
Arguments Fault {A} f.

#[global] Instance fault_eq_dec : EqDecision fault.
Proof. solve_decision. Defined.

#[global] Instance outcome_eq_dec {A} `{EqDecision A} : EqDecision (outcome A).
Proof. solve_decision. Defined.

#[global] Instance outcome_ret : MRet outcome := fun A a => Done a.
#[global] Instance outcome_bind : MBind outcome := fun A B k m =>
  match m with Done a => k a | Fault f => Fault f end.
#[global] Instance outcome_fmap : FMap outcome := fun A B g m =>
  match m with Done a => Done (g a) | Fault f => Fault f end.

(** [guard_or f P k] is the statement "if [P] fails, fault with [f]". *)
Definition require (P : Prop) `{Decision P} (f : fault) : outcome unit :=
  if decide P then Done tt else Fault f.

Lemma bind_Done {A B} (m : outcome A) (k : A → outcome B) b :
  (m ≫= k) = Done b ↔ ∃ a, m = Done a ∧ k a = Done b.
Proof. destruct m; cbn; naive_solver. Qed.

Lemma Done_bind {A B} (a : A) (k : A → outcome B) : (Done a ≫= k) = k a.
Proof. reflexivity. Qed.

Lemma bind_assoc {A B C} (m : outcome A) (k : A → outcome B) (h : B → outcome C) :
  ((m ≫= k) ≫= h) = (m ≫= λ a, k a ≫= h).
Proof. by destruct m. Qed.

Lemma require_Done P `{Decision P} f u : require P f = Done u ↔ P.
Proof. unfold require. case_decide; destruct u; naive_solver. Qed.

Lemma require_true (P : Prop) `{Decision P} f : P → require P f = Done tt.
Proof. intros. unfold require. by rewrite decide_True. Qed.

(** [returns m Q]: the computation returns, and what it returns satisfies [Q]; with the
    rules to go through a computation step by step. *)
Definition returns {A} (m : outcome A) (Q : A → Prop) : Prop :=
  match m with Done a => Q a | Fault _ => False end.

Lemma returns_Done {A} (m : outcome A) Q : returns m Q ↔ ∃ a, m = Done a ∧ Q a.
Proof. destruct m; cbn; naive_solver. Qed.

Lemma returns_ret {A} (a : A) (Q : A → Prop) : Q a → returns (Done a) Q.
Proof. done. Qed.

Lemma returns_bind {A B} (m : outcome A) (k : A → outcome B) Q :
  returns m (λ a, returns (k a) Q) → returns (m ≫= k) Q.
Proof. by destruct m. Qed.

Lemma returns_mono {A} (m : outcome A) (P Q : A → Prop) :
  returns m P → (∀ a, P a → Q a) → returns m Q.
Proof. destruct m; cbn; auto. Qed.

Lemma returns_require (P : Prop) `{Decision P} f (Q : unit → Prop) :
  P → Q tt → returns (require P f) Q.
Proof. intros. by rewrite require_true. Qed.

(** A computation that does what is said, or waits for a call that never returns. *)
Definition safe {A} (m : outcome A) (Q : A → Prop) : Prop :=
  match m with Done a => Q a | Fault f => f = Blocked end.

Lemma safe_ret {A} (a : A) (Q : A → Prop) : Q a → safe (Done a) Q.
Proof. done. Qed.

Lemma safe_bind {A B} (m : outcome A) (k : A → outcome B) Q : safe m (λ a, safe (k a) Q) → safe (m ≫= k) Q.
Proof. by destruct m. Qed.

Lemma safe_mono {A} (m : outcome A) (P Q : A → Prop) : safe m P → (∀ a, P a → Q a) → safe m Q.
Proof. destruct m; cbn; auto. Qed.

Lemma returns_safe {A} (m : outcome A) Q : returns m Q → safe m Q.
Proof. by destruct m. Qed.

(** A computation with an iteration bound returns the same for every bound that is large enough. *)
Definition settles {A} (f : nat → outcome A) (Q : A → Prop) : Prop :=
  ∃ n a, (∀ m, (n ≤ m)%nat → f m = Done a) ∧ Q a.

Lemma settles_returns {A} (m : outcome A) Q : returns m Q → settles (λ _, m) Q.
Proof. intros (a & -> & Ha)%returns_Done. by exists 0%nat, a. Qed.

Lemma settles_bind {A B} (f : nat → outcome A) (k : nat → A → outcome B) P Q :
  settles f P → (∀ a, P a → settles (λ n, k n a) Q) → settles (λ n, f n ≫= k n) Q.
Proof.
  intros (n & a & Hf & Ha) Hk. destruct (Hk a Ha) as (n' & b & Hk' & Hb). exists (n `max` n')%nat, b. split; [|done].
  intros m Hm. rewrite Hf by lia. apply Hk'. lia.
Qed.

Lemma settles_mono {A} (f : nat → outcome A) (P Q : A → Prop) : settles f P → (∀ a, P a → Q a) → settles f Q.
Proof. intros (n & a & Hf & Ha) HPQ. exists n, a. auto. Qed.

Lemma settles_S {A} (f : nat → outcome A) Q : settles (λ n, f (S n)) Q → settles f Q.
Proof.
  intros (n & a & Hf & Ha). exists (S n), a. split; [|done]. intros m Hm. destruct m as [|m]; [lia|]. apply Hf. lia.
Qed.

Lemma settles_enough {A} (f : nat → outcome A) Q : settles f Q → ∃ n, returns (f n) Q.
Proof. intros (n & a & Hf & Ha). exists n. by rewrite Hf. Qed.

(** [outcome_inv H] opens a computation that is known to return. *)
Ltac outcome_inv H :=
  repeat lazymatch type of H with
         | (_ ≫= _) = Done _ =>
             apply bind_Done in H;
             let x := fresh "x" in let Hx := fresh "Hx" in
             destruct H as (x & Hx & H); cbv beta in H
         end.

(** Decides the conditions that linear arithmetic settles. *)
Tactic Notation "decide_lia" :=
  repeat first [rewrite decide_True by lia | rewrite decide_False by lia].
Tactic Notation "decide_lia" "in" hyp(H) :=
  repeat first [rewrite decide_True in H by lia | rewrite decide_False in H by lia].

(** ** Machine integers *)

Definition u8 (x : Z) : Z := x `mod` 2 ^ 8.
Definition u16 (x : Z) : Z := x `mod` 2 ^ 16.
Definition u32 (x : Z) : Z := x `mod` 2 ^ 32.
Definition u64 (x : Z) : Z := x `mod` 2 ^ 64.
Definition s32 (x : Z) : Z := (x + 2 ^ 31) `mod` 2 ^ 32 - 2 ^ 31.
Definition s64 (x : Z) : Z := (x + 2 ^ 63) `mod` 2 ^ 64 - 2 ^ 63.
Definition INT_MAX : Z := 2 ^ 31 - 1.

Definition is_byte (x : Z) : Prop := 0 ≤ x < 256.
Abbreviation bytes l := (Forall is_byte l).

#[global] Instance is_byte_dec x : Decision (is_byte x).
Proof. unfold is_byte. apply _. Defined.

Lemma u8_small x : is_byte x → u8 x = x.
Proof. intros. apply Z.mod_small. unfold is_byte in *. lia. Qed.

Lemma u8_byte x : is_byte (u8 x).
Proof. unfold u8, is_byte. pose proof (Z.mod_pos_bound x (2 ^ 8)). lia. Qed.

Lemma u64_small x : 0 ≤ x < 2 ^ 64 → u64 x = x.
Proof. apply Z.mod_small. Qed.

Lemma s32_small x : - 2 ^ 31 ≤ x < 2 ^ 31 → s32 x = x.
Proof. intros. unfold s32. rewrite Z.mod_small; lia. Qed.

Lemma u64_range x : 0 ≤ u64 x < 2 ^ 64.
Proof. apply Z.mod_pos_bound. lia. Qed.

(** Checking a decidable fact on every byte. *)
Definition all_bytes : list Z := seqZ 0 256.

Lemma all_bytes_1 (P : Z → bool) :
  forallb P all_bytes = true → ∀ a, is_byte a → P a = true.
Proof.
  intros HP a Ha. rewrite forallb_forall in HP. apply HP.
  apply list_elem_of_In, elem_of_seqZ. unfold is_byte in Ha. lia.
Qed.

(** The same together with a number below [n] (the high bits of a byte, say). *)
Lemma all_bytes_below n (P : Z → Z → bool) :
  forallb (λ a, forallb (P a) (seqZ 0 n)) all_bytes = true →
  ∀ a h, is_byte a → 0 ≤ h < n → P a h = true.
Proof.
  intros HP a h Ha Hh. apply (all_bytes_1 (λ a, forallb (P a) (seqZ 0 n))) with (a := a) in HP; [|done].
  rewrite forallb_forall in HP. apply HP. apply list_elem_of_In, elem_of_seqZ. lia.
Qed.

(** ** Byte strings *)

(** The bytes of a Rocq string, to write concrete inputs readably. *)
Definition str (s : string) : list Z :=
  (λ a, Z.of_nat (Ascii.nat_of_ascii a)) <$> String.list_ascii_of_string s.

(** A character constant. *)
Definition chr (a : Ascii.ascii) : Z := Z.of_nat (Ascii.nat_of_ascii a).
Arguments chr a%_char.

(** ** Memory blocks

    A block is the list of the bytes that were allocated.  Every access is
    checked against the block. *)

Abbreviation zlen l := (Z.of_nat (length l)).

Definition load (b : list Z) (i : Z) : outcome Z :=
  if decide (0 ≤ i < zlen b) then Done (b !!! Z.to_nat i) else Fault OutOfBounds.

Definition store (b : list Z) (i v : Z) : outcome (list Z) :=
  if decide (0 ≤ i < zlen b) then Done (<[Z.to_nat i := v]> b) else Fault OutOfBounds.

Definition load_range (b : list Z) (i n : Z) : outcome (list Z) :=
  if decide (0 ≤ i ∧ 0 ≤ n ∧ i + n ≤ zlen b)
  then Done (take (Z.to_nat n) (drop (Z.to_nat i) b)) else Fault OutOfBounds.

Definition store_range (b : list Z) (i : Z) (l : list Z) : outcome (list Z) :=
  if decide (0 ≤ i ∧ i + zlen l ≤ zlen b)
  then Done (take (Z.to_nat i) b ++ l ++ drop (Z.to_nat i + length l) b)
  else Fault OutOfBounds.

(** [memmove(b + dst, b + src, n)] inside one block. *)
Definition memmove (b : list Z) (dst src n : Z) : outcome (list Z) :=
  l ← load_range b src n; store_range b dst l.

Lemma load_Done b i v : load b i = Done v ↔ 0 ≤ i ∧ b !! Z.to_nat i = Some v.
Proof.
  unfold load. case_decide as Hd.
  - destruct (lookup_lt_is_Some_2 b (Z.to_nat i)) as [w Hw]; [lia|].
    rewrite (list_lookup_total_correct _ _ _ Hw). naive_solver.
  - split; [done|]. intros [? ?%lookup_lt_Some]. lia.
Qed.

Lemma store_Done b i v b' :
  store b i v = Done b' ↔ 0 ≤ i < zlen b ∧ b' = <[Z.to_nat i := v]> b.
Proof. unfold store. case_decide; naive_solver. Qed.

Lemma load_range_Done b i n l :
  load_range b i n = Done l ↔
  (0 ≤ i ∧ 0 ≤ n ∧ i + n ≤ zlen b) ∧ l = take (Z.to_nat n) (drop (Z.to_nat i) b).
Proof. unfold load_range. case_decide; naive_solver. Qed.

Lemma store_range_Done b i l b' :
  store_range b i l = Done b' ↔
  (0 ≤ i ∧ i + zlen l ≤ zlen b) ∧
  b' = take (Z.to_nat i) b ++ l ++ drop (Z.to_nat i + length l) b.
Proof. unfold store_range. case_decide; naive_solver. Qed.

Lemma store_length b i v b' : store b i v = Done b' → length b' = length b.
Proof. intros [_ ->]%store_Done. apply length_insert. Qed.

Lemma store_range_length b i l b' : store_range b i l = Done b' → length b' = length b.
Proof.
  intros [? ->]%store_range_Done. rewrite !length_app, length_take, length_drop. lia.
Qed.

Lemma load_range_length b i n l : load_range b i n = Done l → zlen l = n.
Proof. intros [? ->]%load_range_Done. rewrite length_take, length_drop. lia. Qed.

Lemma memmove_length b d s n b' : memmove b d s n = Done b' → length b' = length b.
Proof. intros H. unfold memmove in H. outcome_inv H. by eapply store_range_length. Qed.

Lemma load_range_ok b i n :
  0 ≤ i → 0 ≤ n → i + n ≤ zlen b →
  load_range b i n = Done (take (Z.to_nat n) (drop (Z.to_nat i) b)).
Proof. intros. by apply load_range_Done. Qed.

Lemma store_range_ok b i l :
  0 ≤ i → i + zlen l ≤ zlen b →
  store_range b i l = Done (take (Z.to_nat i) b ++ l ++ drop (Z.to_nat i + length l) b).
Proof. intros. by apply store_range_Done. Qed.

(** A move that stays inside the block, and what it leaves. *)
Lemma memmove_ok b dst src n :
  0 ≤ dst → 0 ≤ src → 0 ≤ n → dst + n ≤ zlen b → src + n ≤ zlen b →
  memmove b dst src n =
  Done (take (Z.to_nat dst) b ++ take (Z.to_nat n) (drop (Z.to_nat src) b)
        ++ drop (Z.to_nat dst + Z.to_nat n) b).
Proof.
  intros. unfold memmove. rewrite load_range_ok by lia. rewrite Done_bind.
  assert (Hl : length (take (Z.to_nat n) (drop (Z.to_nat src) b)) = Z.to_nat n)
    by (rewrite length_take, length_drop; lia).
  rewrite store_range_ok by lia. by rewrite Hl.
Qed.

Lemma memmove_Fault b dst src n : src + n > zlen b → memmove b dst src n = Fault OutOfBounds.
Proof.
  intros. unfold memmove, load_range. by rewrite decide_False by lia.
Qed.

(** Memory that was allocated and not yet written holds arbitrary bytes. *)
Class FreshMem := fresh_byte : nat → Z.

(** A memory for concrete runs. *)
Definition zero_mem : FreshMem := λ _, 0.

Definition fresh_bytes `{FreshMem} (from n : nat) : list Z := fresh_byte <$> seq from n.

(** [g_realloc]: the old contents up to the new size, then fresh bytes. *)
Definition realloc `{FreshMem} (b : list Z) (n : Z) : list Z :=
  take (Z.to_nat n) b ++ fresh_bytes (length b) (Z.to_nat n - length b).

Lemma realloc_length `{FreshMem} b n : 0 ≤ n → zlen (realloc b n) = n.
Proof.
  intros. unfold realloc, fresh_bytes.
  rewrite length_app, length_take, length_fmap, length_seq. lia.
Qed.

Lemma realloc_lookup `{FreshMem} b n i :
  (i < length b)%nat → zlen b ≤ n → realloc b n !! i = b !! i.
Proof.
  intros. unfold realloc. rewrite (take_ge b (Z.to_nat n)) by lia. by rewrite lookup_app_l.
Qed.

Lemma realloc_take `{FreshMem} b n k :
  (k ≤ length b)%nat → zlen b ≤ n → take k (realloc b n) = take k b.
Proof. intros. unfold realloc. rewrite (take_ge b (Z.to_nat n)) by lia. by apply take_app_le. Qed.

(** ** Generic list facts *)

Lemma take_S_insert {A} (l : list A) k x :
  (k < length l)%nat → take (S k) (<[k := x]> l) = take k l ++ [x].
Proof.
  intros. rewrite (take_S_r _ _ x) by (by apply list_lookup_insert_eq).
  f_equal. by apply take_insert_ge.
Qed.

Lemma take_min_zlen {A} (l : list A) n :
  take (Z.to_nat (Z.min n (zlen l))) l = take (Z.to_nat n) l.
Proof.
  destruct (decide (n ≤ zlen l)); [by rewrite Z.min_l|].
  rewrite !take_ge by lia. done.
Qed.

Lemma drop_min_zlen {A} (l : list A) n :
  drop (Z.to_nat (Z.min n (zlen l))) l = drop (Z.to_nat n) l.
Proof.
  destruct (decide (n ≤ zlen l)); [by rewrite Z.min_l|].
  rewrite !drop_ge by lia. done.
Qed.

(** Pieces of one size. *)
Lemma length_bind_const {A B} (f : A → list B) (l : list A) n :
  (∀ x, length (f x) = n) → length (l ≫= f) = (n * length l)%nat.
Proof.
  intros Hf. induction l as [|x l IH]; cbn; [lia|].
  rewrite length_app, Hf. change (mbind f l) with (l ≫= f) in *. rewrite IH. lia.
Qed.

Lemma zlen_nonneg {A} (l : list A) : 0 ≤ zlen l.
Proof. lia. Qed.

Create HintDb zorp.
#[export] Hint Resolve u8_byte zlen_nonneg : zorp.
#[export] Hint Resolve store_length store_range_length memmove_length : zorp.
