(* ===== verification/Code.v ===== *)
(** * ZCode, the base class of the encoders and decoders (src/code.c, src/zorp/code.h)

    The result buffer of a ZCode, how it grows, and the operations that read
    results out of it, push data back into it and drop data from it.  A
    derived class is described by the interface [CodeMethods]: the virtual
    methods [transform] and [finish] together with the access to the
    embedded ZCode. *)

From S2P Require Import Prelude.
Open Scope Z_scope.

Record ZCode := mkZCode {
  zc_buf : list Z;          (* the bytes of the allocated block *)
  zc_buf_len : Z;           (* gsize *)
  zc_buf_used : Z;          (* gsize *)
  zc_error_counter : Z      (* gint *)
}.

Definition zc_with_buf (b : list Z) (s : ZCode) : ZCode :=
  mkZCode b (zc_buf_len s) (zc_buf_used s) (zc_error_counter s).
Definition zc_with_used (u : Z) (s : ZCode) : ZCode :=
  mkZCode (zc_buf s) (zc_buf_len s) u (zc_error_counter s).
Definition zc_with_errors (e : Z) (s : ZCode) : ZCode :=
  mkZCode (zc_buf s) (zc_buf_len s) (zc_buf_used s) e.

#[global] Instance ZCode_eq_dec : EqDecision ZCode.
Proof. solve_decision. Defined.

Definition ZCODE_BUFSIZE_DEFAULT : Z := 256.

Section code.
Context `{FreshMem}.

(** ** Growing the buffer *)

(** The loop of z_code_grow: [newlen] is a gint, so doubling it past
    [INT_MAX] is a signed overflow. *)
Fixpoint grow_loop (fuel : nat) (newlen reqlen : Z) : outcome Z :=
  match fuel with
  | O => Fault OutOfFuel
  | S fuel =>
      if decide (newlen < reqlen)
      then _ ← require (newlen * 2 ≤ INT_MAX) SignedOverflow;
           grow_loop fuel (newlen * 2) reqlen
      else Done newlen
  end.

(** 32 rounds are enough: see [grow_loop_no_fuel]. *)
Definition z_code_grow (self : ZCode) (reqlen : Z) : outcome ZCode :=
  let newlen := s32 (zc_buf_len self) in
  let newlen := if decide (newlen ≤ 0) then 1 else newlen in
  newlen ← grow_loop 33 newlen reqlen;
  Done (mkZCode (realloc (zc_buf self) newlen) newlen
                (zc_buf_used self) (zc_error_counter self)).

(** ** Operations on the results *)

Definition z_code_unget_result (self : ZCode) (from : list Z) : outcome ZCode :=
  let fromlen := zlen from in
  if decide (fromlen > 0) then
    self ← z_code_grow self (s32 (u64 (zc_buf_used self + fromlen)));
    b ← memmove (zc_buf self) fromlen 0 (zc_buf_used self);
    b ← store_range b 0 from;
    Done (zc_with_buf b (zc_with_used (u64 (zc_buf_used self + fromlen)) self))
  else Done self.

Definition z_code_get_result (self : ZCode) (tolen : Z) : outcome (list Z * ZCode) :=
  let res := if decide (tolen < zc_buf_used self) then tolen else zc_buf_used self in
  if decide (res > 0) then
    to ← load_range (zc_buf self) 0 res;
    let used := zc_buf_used self - res in
    b ← memmove (zc_buf self) 0 res (used + 1);
    Done (to, zc_with_buf b (zc_with_used used self))
  else Done ([], self).

Definition z_code_peek_result (self : ZCode) : list Z := zc_buf self.

Definition z_code_get_result_length (self : ZCode) : Z := zc_buf_used self.

Definition z_code_flush_result (self : ZCode) (flush_length : Z) : outcome ZCode :=
  if decide (flush_length = 0 ∨ zc_buf_used self < flush_length)
  then Done (zc_with_used 0 self)
  else if decide (flush_length ≤ zc_buf_used self) then
    b ← memmove (zc_buf self) 0 flush_length (zc_buf_used self - flush_length);
    Done (zc_with_buf b (zc_with_used (zc_buf_used self - flush_length) self))
  else Done self.

Definition z_code_init (bufsize : Z) : ZCode :=
  let len := if decide (bufsize ≤ 0) then ZCODE_BUFSIZE_DEFAULT else bufsize in
  mkZCode (replicate (Z.to_nat len) 0) len 0 0.

Definition z_code_new (bufsize : Z) : ZCode := z_code_init bufsize.

Definition z_code_get_errors (self : ZCode) : Z := zc_error_counter self.

Definition z_code_clear_errors (self : ZCode) : ZCode := zc_with_errors 0 self.

(** The results that have not been read yet. *)
Definition zc_results (s : ZCode) : list Z := take (Z.to_nat (zc_buf_used s)) (zc_buf s).

(** ** Well-formedness *)

Record zc_wf (s : ZCode) : Prop := {
  wf_len : zlen (zc_buf s) = zc_buf_len s;
  wf_len_range : 0 < zc_buf_len s ≤ INT_MAX;
  wf_used : 0 ≤ zc_buf_used s ≤ zc_buf_len s
}.

Lemma z_code_init_wf bufsize : bufsize ≤ INT_MAX → zc_wf (z_code_init bufsize).
Proof.
  unfold z_code_init, ZCODE_BUFSIZE_DEFAULT.
  intros. case_decide; split; cbn -[Z.to_nat replicate];
    rewrite ?length_replicate; unfold INT_MAX in *; lia.
Qed.

Lemma z_code_init_results bufsize : zc_results (z_code_init bufsize) = [].
Proof. reflexivity. Qed.

(** *** The growth loop *)

Lemma grow_loop_Done fuel n r m :
  0 < n → grow_loop fuel n r = Done m → n ≤ m ∧ r ≤ m ∧ (m < 2 * r ∨ m = n).
Proof.
  revert n. induction fuel as [|fuel IH]; intros n Hn; cbn; [done|].
  case_decide; [|intros [= <-]; lia].
  intros Hg. outcome_inv Hg. apply require_Done in Hx.
  apply IH in Hg; lia.
Qed.

(** The loop stops within 32 rounds: it either reaches [reqlen] or runs into
    the end of the gint range. *)
Lemma grow_loop_no_fuel fuel n r :
  0 < n → 2 ^ 31 ≤ n * 2 ^ Z.of_nat fuel → grow_loop (S fuel) n r ≠ Fault OutOfFuel.
Proof.
  revert n. induction fuel as [|fuel IH]; intros n Hn Hf.
  - cbn. case_decide; [|done]. unfold require.
    rewrite decide_False; [done|]. unfold INT_MAX. cbn in Hf. lia.
  - change (grow_loop (S (S fuel)) n r) with
      (if decide (n < r)
       then _ ← require (n * 2 ≤ INT_MAX) SignedOverflow; grow_loop (S fuel) (n * 2) r
       else Done n).
    case_decide; [|done]. unfold require. case_decide; [|done].
    cbn -[grow_loop]. apply IH; [lia|].
    rewrite Nat2Z.inj_succ, Z.pow_succ_r in Hf by lia. lia.
Qed.

Lemma grow_loop_returns n r :
  0 < n ≤ INT_MAX → r ≤ 2 ^ 30 → ∃ m, grow_loop 33 n r = Done m.
Proof.
  intros Hn Hr. destruct (grow_loop 33 n r) as [m|f] eqn:E; [by exists m|].
  assert (Hff : f = SignedOverflow ∨ f = OutOfFuel).
  { clear Hr Hn. revert n E. generalize 33%nat as fuel.
    induction fuel as [|fuel IH]; intros n; cbn; [intros [= <-]; by right|].
    case_decide; [|done]. unfold require. case_decide; cbn; [apply IH|].
    intros [= <-]. by left. }
  exfalso. destruct Hff as [-> | ->].
  - revert n Hn E. generalize 33%nat as fuel.
    induction fuel as [|fuel IH]; intros n Hn; cbn; [done|].
    case_decide; [|done]. rewrite require_true by (unfold INT_MAX in *; lia).
    cbn. apply IH. unfold INT_MAX in *. lia.
  - revert E. apply grow_loop_no_fuel; [lia|]. cbn. lia.
Qed.

Lemma grow_loop_range fuel n r m :
  n ≤ INT_MAX → grow_loop fuel n r = Done m → m ≤ INT_MAX.
Proof.
  revert n. induction fuel as [|fuel IH]; intros n Hn; cbn; [done|].
  case_decide; [|intros [= <-]; lia].
  intros Hg. outcome_inv Hg. apply require_Done in Hx. by apply IH in Hg.
Qed.

(** Doubling keeps the divisors of the size. *)
Lemma grow_loop_divide fuel d n r m : (d | n) → grow_loop fuel n r = Done m → (d | m).
Proof.
  revert n. induction fuel as [|fuel IH]; intros n Hn; cbn; [done|].
  case_decide; [|by intros [= <-]].
  intros Hg. outcome_inv Hg. apply IH in Hg; [done|]. by apply Z.divide_mul_l.
Qed.

Lemma z_code_grow_divide d s r s' :
  0 < zc_buf_len s ≤ INT_MAX → (d | zc_buf_len s) → z_code_grow s r = Done s' →
  (d | zc_buf_len s').
Proof.
  intros Hr Hd Hg. unfold z_code_grow in Hg. unfold INT_MAX in Hr.
  rewrite s32_small, decide_False in Hg by lia. outcome_inv Hg. injection Hg as <-.
  by eapply grow_loop_divide.
Qed.

(** What a successful z_code_grow leaves: at least [reqlen] bytes, the old
    block as its prefix. *)
Lemma z_code_grow_Done s r s' :
  zc_wf s → z_code_grow s r = Done s' →
  zc_wf s' ∧ zc_buf_len s ≤ zc_buf_len s' ∧ r ≤ zc_buf_len s' ∧
  zc_buf s' = realloc (zc_buf s) (zc_buf_len s') ∧
  zc_buf_used s' = zc_buf_used s ∧ zc_error_counter s' = zc_error_counter s.
Proof.
  intros [Hl Hr Hu] Hg. unfold z_code_grow in Hg.
  assert (zc_buf_len s < 2 ^ 31) by (unfold INT_MAX in Hr; lia).
  rewrite s32_small, decide_False in Hg by lia. outcome_inv Hg.
  injection Hg as <-. cbn.
  assert (x ≤ INT_MAX) by (eapply grow_loop_range; [|done]; lia).
  apply grow_loop_Done in Hx; [|lia].
  split_and!; try lia; [|done..].
  split; cbn; rewrite ?realloc_length; lia.
Qed.

Lemma z_code_grow_returns s r :
  zc_wf s → r ≤ 2 ^ 30 → ∃ s', z_code_grow s r = Done s'.
Proof.
  intros [Hl Hr Hu] Hg. unfold z_code_grow.
  assert (zc_buf_len s < 2 ^ 31) by (unfold INT_MAX in Hr; lia).
  rewrite s32_small, decide_False by lia.
  destruct (grow_loop_returns (zc_buf_len s) r) as [m ->]; [done..|].
  rewrite Done_bind. eauto.
Qed.

(** Growing keeps the results and the byte that follows them. *)
Lemma z_code_grow_keeps s r s' :
  zc_wf s → z_code_grow s r = Done s' →
  zc_results s' = zc_results s ∧
  (zc_buf_used s < zc_buf_len s →
   zc_buf s' !! Z.to_nat (zc_buf_used s) = zc_buf s !! Z.to_nat (zc_buf_used s)).
Proof.
  intros Hwf Hg. destruct (z_code_grow_Done _ _ _ Hwf Hg) as (Hwf' & ? & ? & Hb & Hu & _).
  destruct Hwf. unfold zc_results. rewrite Hb, Hu. split.
  - apply realloc_take; lia.
  - intros. apply realloc_lookup; lia.
Qed.

(** *** Reading, pushing back, dropping *)

Lemma zc_results_length s : zc_wf s → zlen (zc_results s) = zc_buf_used s.
Proof. intros [? ? ?]. unfold zc_results. rewrite length_take. lia. Qed.

(** Moving the unread results (and the byte that follows them) to the front. *)
Lemma zc_shift_results b used res k :
  0 < res → res ≤ used → used ≤ zlen b → k = used - res ∨ k = used - res + 1 →
  res + k ≤ zlen b →
  ∃ b', memmove b 0 res k = Done b' ∧ length b' = length b ∧
        take (Z.to_nat (used - res)) b' =
          drop (Z.to_nat res) (take (Z.to_nat used) b) ∧
        (k = used - res + 1 → b' !! Z.to_nat (used - res) = b !! Z.to_nat used).
Proof.
  intros Hres Hle Hu Hk Hkl. rewrite memmove_ok by lia. eexists; split; [done|].
  assert (Hl : length (take (Z.to_nat k) (drop (Z.to_nat res) b)) = Z.to_nat k)
    by (rewrite length_take, length_drop; lia).
  split_and!.
  - rewrite !length_app, Hl, length_take, length_drop. lia.
  - change (take (Z.to_nat 0) b) with (@nil Z). rewrite app_nil_l.
    rewrite take_app_le by (rewrite Hl; lia).
    rewrite take_take, Nat.min_l by lia.
    rewrite take_drop_commute. do 2 f_equal. lia.
  - intros ->. change (take (Z.to_nat 0) b) with (@nil Z). rewrite app_nil_l.
    rewrite lookup_app_l by (rewrite Hl; lia).
    rewrite lookup_take_lt by lia. rewrite lookup_drop. f_equal. lia.
Qed.

(** Reading: as long as a byte is allocated behind the results, the oldest
    results are returned, and the byte behind them stays behind them. *)
Lemma z_code_get_result_ok s n :
  zc_wf s → 0 ≤ n → zc_buf_used s < zc_buf_len s →
  ∃ s', z_code_get_result s n = Done (take (Z.to_nat n) (zc_results s), s') ∧
        zc_wf s' ∧ zc_results s' = drop (Z.to_nat n) (zc_results s) ∧
        zc_buf_len s' = zc_buf_len s ∧
        zc_buf s' !! Z.to_nat (zc_buf_used s') = zc_buf s !! Z.to_nat (zc_buf_used s).
Proof.
  intros Hwf Hn Hlt. pose proof (zc_results_length s Hwf) as Hrl. destruct Hwf as [Hl Hr Hu].
  unfold z_code_get_result. set (res := if decide (n < zc_buf_used s) then n else _).
  assert (Hres : res = Z.min n (zc_buf_used s)) by (unfold res; case_decide; lia).
  clearbody res. rewrite <- (take_min_zlen _ n), <- (drop_min_zlen _ n), Hrl, <- Hres.
  case_decide as Hpos.
  - rewrite load_range_ok by lia. rewrite Done_bind.
    destruct (zc_shift_results (zc_buf s) (zc_buf_used s) res (zc_buf_used s - res + 1))
      as (b' & -> & Hb' & Ht & Hp); [lia..|].
    rewrite Done_bind. exists (zc_with_buf b' (zc_with_used (zc_buf_used s - res) s)).
    split; [|split_and!; [split; cbn; lia|exact Ht|done|by apply Hp]].
    do 2 f_equal. unfold zc_results. rewrite drop_0, take_take. f_equal. lia.
  - replace res with 0 by lia. rewrite drop_0. eexists. by split_and!.
Qed.

(** When the block is full, the byte behind the results is outside of it. *)
Lemma z_code_get_result_full s n :
  zc_wf s → 0 < n → 0 < zc_buf_used s → zc_buf_used s = zc_buf_len s →
  z_code_get_result s n = Fault OutOfBounds.
Proof.
  intros [Hl Hr Hu] Hn Hpos Hfull. unfold z_code_get_result.
  set (res := if decide (n < zc_buf_used s) then n else _).
  assert (0 < res ≤ zc_buf_used s) by (unfold res; case_decide; lia).
  clearbody res. rewrite decide_True by lia.
  rewrite load_range_ok by lia. rewrite Done_bind.
  by rewrite memmove_Fault by lia.
Qed.

(** The same, for a read that is known to return. *)
Lemma z_code_get_result_Done s n to s' :
  zc_wf s → 0 ≤ n → z_code_get_result s n = Done (to, s') →
  to = take (Z.to_nat n) (zc_results s) ∧ zc_wf s' ∧
  zc_results s' = drop (Z.to_nat n) (zc_results s) ∧
  zc_buf_len s' = zc_buf_len s ∧ zc_error_counter s' = zc_error_counter s ∧
  zc_buf s' !! Z.to_nat (zc_buf_used s') = zc_buf s !! Z.to_nat (zc_buf_used s).
Proof.
  intros Hwf Hn Hg. pose proof Hwf as [Hl Hr Hu].
  assert (zc_error_counter s' = zc_error_counter s).
  { revert Hg. unfold z_code_get_result.
    case_decide; [|by intros [= _ <-]]. intros Hg. outcome_inv Hg. by injection Hg as _ <-. }
  destruct (decide (zc_buf_used s < zc_buf_len s)) as [Hlt|Hge].
  { destruct (z_code_get_result_ok s n) as (t & Ht & Hw & ?); [done..|].
    rewrite Hg in Ht. injection Ht as -> ->. naive_solver. }
  destruct (decide (0 < n)) as [Hpos|Hpos].
  - by rewrite z_code_get_result_full in Hg by (done || lia).
  - assert (n = 0) as -> by lia. unfold z_code_get_result in Hg.
    rewrite (decide_True (P := 0 < _)), decide_False in Hg by lia.
    injection Hg as <- <-. by rewrite take_0, drop_0.
Qed.

Lemma z_code_unget_result_ok s from :
  zc_wf s → zc_buf_used s + zlen from ≤ 2 ^ 30 →
  ∃ s', z_code_unget_result s from = Done s' ∧ zc_wf s' ∧
        zc_results s' = from ++ zc_results s.
Proof.
  intros Hwf Hle. unfold z_code_unget_result. pose proof Hwf as [Hl Hr Hu].
  case_decide as Hpos.
  - rewrite u64_small, s32_small by lia.
    destruct (z_code_grow_returns s (zc_buf_used s + zlen from) Hwf) as [g Hg]; [lia|].
    destruct (z_code_grow_Done _ _ _ Hwf Hg) as ([Hgl Hgr Hgu] & ? & ? & _ & Huse & _).
    destruct (z_code_grow_keeps _ _ _ Hwf Hg) as [Hres _].
    rewrite Hg, Done_bind, memmove_ok, Done_bind, store_range_ok, Done_bind by
      (rewrite ?length_app, ?length_take, ?length_drop; lia).
    eexists; split; [done|]. rewrite Huse, u64_small by lia.
    split; [split; cbn; rewrite ?length_app, ?length_drop, ?length_app, ?length_take, ?length_drop; lia|].
    rewrite <- Hres. unfold zc_results; cbn.
    change (take (Z.to_nat 0) ?l) with (@nil Z). rewrite app_nil_l.
    replace (Z.to_nat (zc_buf_used s + zlen from)) with
      (length from + Z.to_nat (zc_buf_used s))%nat by lia.
    rewrite take_app_add. f_equal.
    rewrite drop_app_length' by (rewrite length_take; lia).
    rewrite take_app_length' by (rewrite length_take, length_drop; lia).
    by rewrite drop_0, Huse.
  - destruct from; [|cbn in Hpos; lia]. by exists s.
Qed.

Lemma z_code_flush_result_ok s n :
  zc_wf s → 0 ≤ n →
  ∃ s', z_code_flush_result s n = Done s' ∧ zc_wf s' ∧
        zc_results s' = if decide (n = 0) then [] else drop (Z.to_nat n) (zc_results s).
Proof.
  intros Hwf Hn. pose proof (zc_results_length s Hwf) as Hrl.
  pose proof Hwf as [Hl Hr Hu]. unfold z_code_flush_result.
  destruct (decide (n = 0 ∨ zc_buf_used s < n)) as [Hd|Hd].
  - exists (zc_with_used 0 s). split_and!; [done|split; cbn; lia|].
    case_decide; [done|]. rewrite drop_ge by lia. done.
  - rewrite decide_True by lia. rewrite (decide_False (P := n = 0)) by lia.
    destruct (zc_shift_results (zc_buf s) (zc_buf_used s) n (zc_buf_used s - n))
      as (b' & -> & Hb' & Ht & _); [lia..|].
    rewrite Done_bind. eexists; split; [done|].
    split; [split; cbn; lia|]. exact Ht.
Qed.

End code.

(** ** The interface of the derived classes *)

(** The virtual methods of a class [C] derived from ZCode.  The methods return
    a gboolean beside the new object; [finish] may be NULL. *)
Class CodeMethods (C : Type) := {
  code_super : C → ZCode;
  code_set_super : ZCode → C → C;
  code_transform : C → list Z → outcome (bool * C);
  code_finish : option (C → outcome (bool * C))
}.

Definition z_code_transform {C} `{CodeMethods C} (self : C) (from : list Z)
  : outcome (bool * C) := code_transform self from.

Definition z_code_finish {C} `{CodeMethods C} (self : C) : outcome (bool * C) :=
  match code_finish with Some finish => finish self | None => Done (true, self) end.

(** z_code_get_result on the embedded ZCode. *)
Definition code_read {C} `{CodeMethods C} (self : C) (n : Z) : outcome (list Z * C) :=
  r ← z_code_get_result (code_super self) n;
  Done (r.1, code_set_super r.2 self).

(** The abstract specification of a codec: a machine that consumes one byte at
    a time, emits bytes, and may refuse a byte ([None]). *)
Record Machine := {
  m_state : Type;
  m_init : m_state;
  m_step : m_state → Z → option (list Z * m_state);
  m_end : m_state → bool * list Z
}.

Fixpoint m_run (M : Machine) (a : m_state M) (bs : list Z)
  : bool * list Z * m_state M :=
  match bs with
  | [] => (true, [], a)
  | b :: bs =>
      match m_step M a b with
      | None => (false, [], a)
      | Some (o, a) => let '(ok, o', a) := m_run M a bs in (ok, o ++ o', a)
      end
  end.

Definition m_all (M : Machine) (bs : list Z) : bool * list Z :=
  let '(ok, o, a) := m_run M (m_init M) bs in
  (ok && (m_end M a).1, o ++ (m_end M a).2).

Lemma m_run_app M a bs1 bs2 ok a' :
  m_run M a bs1 = (true, ok, a') →
  m_run M a (bs1 ++ bs2) = let '(r, o2, a2) := m_run M a' bs2 in (r, ok ++ o2, a2).
Proof.
  revert a ok. induction bs1 as [|b bs1 IH]; cbn; intros a o.
  - intros [= <- <-]. by destruct (m_run M a bs2) as [[? ?] ?].
  - destruct (m_step M a b) as [[o1 a1]|]; [|done].
    destruct (m_run M a1 bs1) as [[r1 o2] a2] eqn:E. intros [= -> <- ->].
    rewrite (IH _ _ E). destruct (m_run M a' bs2) as [[? ?] ?]. by rewrite app_assoc.
Qed.

(** What a derived class promises: its objects represent a state of the machine
    together with the results that have not been read. *)
Class CodeLaws (C : Type) `{CodeMethods C} (M : Machine) := {
  code_rep : C → m_state M → list Z → Prop;
  transform_law c a out bs ok c' :
    code_rep c a out → bytes bs → z_code_transform c bs = Done (ok, c') →
    ∃ o a', m_run M a bs = (ok, o, a') ∧ code_rep c' a' (out ++ o);
  finish_law c a out ok c' :
    code_rep c a out → z_code_finish c = Done (ok, c') →
    ok = (m_end M a).1 ∧ code_rep c' (m_init M) (out ++ (m_end M a).2);
  read_law c a out n to c' :
    code_rep c a out → 0 ≤ n → code_read c n = Done (to, c') →
    to = take (Z.to_nat n) out ∧ code_rep c' a (drop (Z.to_nat n) out)
}.

(** *** A client of the interface: feeding and reading in any order *)

Inductive command : Type := Feed (bs : list Z) | Read (n : Z).

Definition fed (cs : list command) : list Z :=
  cs ≫= λ c, match c with Feed bs => bs | Read _ => [] end.

Definition command_ok (k : command) : Prop :=
  match k with Feed bs => bytes bs | Read n => 0 ≤ n end.

Lemma fed_bytes cs : Forall command_ok cs → bytes (fed cs).
Proof.
  induction 1 as [|[bs|n] cs Hk _ IH]; [constructor|by apply Forall_app|exact IH].
Qed.

Section client.
Context {C : Type} `{CodeMethods C}.

(** The flag says that every transform returned TRUE so far. *)
Fixpoint session (c : C) (cs : list command) : outcome (bool * list Z * C) :=
  match cs with
  | [] => Done (true, [], c)
  | Feed bs :: cs =>
      r ← z_code_transform c bs;
      r2 ← session r.2 cs;
      Done (r.1 && r2.1.1, r2.1.2, r2.2)
  | Read n :: cs =>
      r ← code_read c n;
      r2 ← session r.2 cs;
      Done (r2.1.1, r.1 ++ r2.1.2, r2.2)
  end.

(** Feed and read, then finish and read what is left. *)
Definition whole_session (c : C) (cs : list command) (n : Z) : outcome (bool * list Z) :=
  r ← session c cs;
  f ← z_code_finish r.2;
  t ← code_read f.2 n;
  Done (r.1.1 && f.1, r.1.2 ++ t.1).

Context (M : Machine) `{!CodeLaws C M}.

Lemma session_run cs : ∀ c a out to c',
  code_rep c a out → Forall command_ok cs →
  session c cs = Done (true, to, c') →
  ∃ o a' out', m_run M a (fed cs) = (true, o, a') ∧ code_rep c' a' out' ∧
               to ++ out' = out ++ o.
Proof.
  induction cs as [|[bs|n] cs IH]; cbn [session]; intros c a out to c' Hrep Hcs Hs.
  - injection Hs as <- <-. exists [], a, out. by rewrite app_nil_r.
  - outcome_inv Hs. destruct x as [ok c1], x0 as [[ok2 to2] c2]. cbn in *.
    injection Hs as [-> ->]%andb_true_iff -> ->. inversion_clear Hcs as [|? ? Hk Hks]. cbn in Hk.
    destruct (transform_law _ _ _ _ _ _ Hrep Hk Hx) as (o & a1 & Hrun & Hrep1).
    destruct (IH _ _ _ _ _ Hrep1 Hks Hx0) as (o2 & a2 & out2 & Hrun2 & Hrep2 & Heq).
    exists (o ++ o2), a2, out2. split_and!; [|done|by rewrite Heq, app_assoc].
    change (fed (Feed bs :: cs)) with (bs ++ fed cs).
    rewrite (m_run_app _ _ _ _ _ _ Hrun). fold (fed cs). by rewrite Hrun2.
  - outcome_inv Hs. destruct x as [to1 c1], x0 as [[ok2 to2] c2]. cbn in *.
    injection Hs as -> <- ->. inversion_clear Hcs as [|? ? Hk Hks]. cbn in Hk.
    destruct (read_law _ _ _ _ _ _ Hrep Hk Hx) as [-> Hrep1].
    destruct (IH _ _ _ _ _ Hrep1 Hks Hx0) as (o & a1 & out1 & Hrun & Hrep2 & Heq).
    exists o, a1, out1. split_and!; [done..|].
    by rewrite <- app_assoc, Heq, app_assoc, take_drop.
Qed.

(** A prefix of an accepted input is accepted. *)
Lemma m_run_prefix a bs1 bs2 : (m_run M a (bs1 ++ bs2)).1.1 = true → (m_run M a bs1).1.1 = true.
Proof.
  revert a. induction bs1 as [|b bs1 IH]; intros a; cbn; [done|].
  destruct (m_step M a b) as [[o1 a1]|]; [|done]. specialize (IH a1).
  destruct (m_run M a1 (bs1 ++ bs2)) as [[? ?] ?], (m_run M a1 bs1) as [[? ?] ?]. exact IH.
Qed.

(** The flag of a session is the verdict of the machine on what was fed. *)
Lemma session_flag cs : ∀ c a out ok to c',
  code_rep c a out → Forall command_ok cs → session c cs = Done (ok, to, c') →
  ok = (m_run M a (fed cs)).1.1.
Proof.
  induction cs as [|[bs|n] cs IH]; cbn [session]; intros c a out ok to c' Hrep Hcs Hs.
  - by injection Hs as <- _ _.
  - outcome_inv Hs. destruct x as [ok1 c1], x0 as [[ok2 to2] c2]. cbn in *.
    injection Hs as <- <- <-. inversion_clear Hcs as [|? ? Hk Hks]. cbn in Hk.
    destruct (transform_law _ _ _ _ _ _ Hrep Hk Hx) as (o & a1 & Hrun & Hrep1).
    change (fed (Feed bs :: cs)) with (bs ++ fed cs).
    pose proof (IH _ _ _ _ _ _ Hrep1 Hks Hx0) as ->. fold (fed cs).
    destruct ok1; cbn [andb].
    + rewrite (m_run_app _ _ _ _ _ _ Hrun). by destruct (m_run M a1 (fed cs)) as [[? ?] ?].
    + destruct (m_run M a (bs ++ fed cs)).1.1 eqn:E; [|done].
      apply m_run_prefix in E. by rewrite Hrun in E.
  - outcome_inv Hs. destruct x as [to1 c1], x0 as [[ok2 to2] c2]. cbn in *.
    injection Hs as <- <- <-. inversion_clear Hcs as [|? ? Hk Hks]. cbn in Hk.
    destruct (read_law _ _ _ _ _ _ Hrep Hk Hx) as [-> Hrep1].
    by apply (IH _ _ _ _ _ _ Hrep1 Hks Hx0).
Qed.

Lemma whole_session_spec cs c n ok to :
  code_rep c (m_init M) [] → Forall command_ok cs → 0 ≤ n →
  whole_session c cs n = Done (ok, to) →
  ok = (m_all M (fed cs)).1 ∧
  (ok = true → zlen (m_all M (fed cs)).2 ≤ n → to = (m_all M (fed cs)).2).
Proof.
  intros Hrep Hcs Hn Hs. unfold whole_session in Hs. outcome_inv Hs.
  destruct x as [[ok1 to1] c1], x0 as [ok2 c2], x1 as [to3 c3]. cbn [fst snd] in *.
  injection Hs as <- <-. pose proof (session_flag _ _ _ _ _ _ _ Hrep Hcs Hx) as Hf.
  unfold m_all. destruct ok1.
  - destruct (session_run _ _ _ _ _ _ Hrep Hcs Hx) as (o & a & out & Hrun & Hrep1 & Heq).
    rewrite Hrun. cbn [fst snd andb].
    destruct (finish_law _ _ _ _ _ Hrep1 Hx0) as [-> Hrep2]. split; [done|].
    destruct (read_law _ _ _ _ _ _ Hrep2 Hn Hx1) as [-> _]. intros _ Hlen.
    rewrite take_ge; [by rewrite app_assoc, Heq|].
    rewrite length_app in *. apply (f_equal length) in Heq.
    rewrite !length_app in Heq. cbn in Heq. lia.
  - destruct (m_run M (m_init M) (fed cs)) as [[? ?] ?]. cbn in Hf |- *. by subst.
Qed.
End client.

(** ** Theorems about the result buffer *)

Lemma grow_loop_power fuel : ∀ n r m, 0 < n → grow_loop fuel n r = Done m →
  ∃ k, 0 ≤ k ∧ m = n * 2 ^ k ∧ (k = 0 ∨ n * 2 ^ (k - 1) < r).
Proof.
  induction fuel as [|fuel IH]; intros n r m Hn; cbn; [done|].
  case_decide; [|intros [= <-]; exists 0; lia].
  intros Hg. outcome_inv Hg. destruct (IH (n * 2) r m ltac:(lia) Hg) as (k & Hk & -> & Hor).
  exists (k + 1). replace (k + 1 - 1) with k by lia.
  rewrite Z.pow_add_r by lia. split_and!; [lia|ring|]. right.
  destruct Hor as [->|Hor]; [lia|].
  destruct (decide (k = 0)) as [->|]; [cbn; lia|].
  replace (2 ^ k) with (2 * 2 ^ (k - 1)) by (rewrite <- Z.pow_succ_r by lia; f_equal; lia).
  lia.
Qed.

(** Growing a buffer to at most 2^30 bytes returns; the new size is the
    smallest power-of-two multiple of the old size that is large enough, and the
    results and the counters are those of before. *)
Theorem z_code_grow_spec `{FreshMem} (s : ZCode) (reqlen : Z) :
  zc_wf s → reqlen ≤ 2 ^ 30 →
  ∃ s' k, z_code_grow s reqlen = Done s' ∧ zc_wf s' ∧ zc_results s' = zc_results s ∧
    0 ≤ k ∧ zc_buf_len s' = zc_buf_len s * 2 ^ k ∧ reqlen ≤ zc_buf_len s' ∧
    (k = 0 ∨ zc_buf_len s * 2 ^ (k - 1) < reqlen).
Proof.
  intros Hwf Hr. destruct (z_code_grow_returns s reqlen Hwf Hr) as [s' Hg].
  destruct (z_code_grow_Done _ _ _ Hwf Hg) as (Hwf' & _ & Hle & _).
  destruct (z_code_grow_keeps _ _ _ Hwf Hg) as [Hres _].
  pose proof Hg as Hg'. unfold z_code_grow in Hg'. destruct Hwf as [Hl Hlr Hu].
  unfold INT_MAX in Hlr.
  rewrite s32_small, decide_False in Hg' by lia. outcome_inv Hg'. injection Hg' as <-.
  destruct (grow_loop_power _ (zc_buf_len s) _ _ ltac:(lia) Hx) as (k & ? & ? & ?). cbn in *.
  eexists _, k. by split_and!.
Qed.

Lemma z_code_grow_spec_witness :
  ∃ s' k, z_code_grow (H := zero_mem) (z_code_init 3) 20 = Done s' ∧ zc_wf s' ∧
    zc_results s' = [] ∧ 0 ≤ k ∧ zc_buf_len s' = 3 * 2 ^ k ∧ 20 ≤ zc_buf_len s' ∧
    (k = 0 ∨ 3 * 2 ^ (k - 1) < 20).
Proof.
  apply (z_code_grow_spec (H := zero_mem) (z_code_init 3) 20);
    [apply z_code_init_wf|]; by vm_compute.
Defined.

(** Reading up to [n] bytes returns the oldest results and keeps the rest in
    order, unless the block is full to the last byte, when the read leaves the
    block. *)
Theorem z_code_get_result_spec (s : ZCode) (n : Z) :
  zc_wf s → 0 ≤ n →
  (zc_buf_used s < zc_buf_len s ∨ n = 0 →
   ∃ s', z_code_get_result s n = Done (take (Z.to_nat n) (zc_results s), s') ∧ zc_wf s' ∧
     zc_results s' = drop (Z.to_nat n) (zc_results s)) ∧
  (zc_buf_used s = zc_buf_len s → 0 < n → z_code_get_result s n = Fault OutOfBounds).
Proof.
  intros Hwf Hn. split.
  - intros [Hlt| ->].
    + destruct (z_code_get_result_ok s n) as (s' & ? & ? & ? & _); eauto.
    + exists s. rewrite take_0, drop_0. split_and!; [|done..].
      unfold z_code_get_result. destruct Hwf. by rewrite (decide_False (P := _ > 0)) by (case_decide; lia).
  - intros Hfull Hpos. apply z_code_get_result_full; [done..| |done]. destruct Hwf. lia.
Qed.

Lemma z_code_get_result_spec_witness :
  (∃ s', z_code_get_result (mkZCode [1; 2; 3; 4] 4 3 0) 2 = Done ([1; 2], s') ∧ zc_wf s' ∧
     zc_results s' = [3]) ∧
  z_code_get_result (mkZCode [1; 2] 2 2 0) 1 = Fault OutOfBounds.
Proof.
  split.
  - apply (z_code_get_result_spec (mkZCode [1; 2; 3; 4] 4 3 0) 2); [split; by vm_compute|done|].
    by left.
  - apply (z_code_get_result_spec (mkZCode [1; 2] 2 2 0) 1); [split; by vm_compute|done..].
Defined.

(** Pushing back what was read restores the results, for a buffer that is
    not full to the last byte. *)
Theorem z_code_unget_get `{FreshMem} (s : ZCode) (n : Z) :
  zc_wf s → 0 ≤ n → zc_buf_used s < zc_buf_len s → zc_buf_used s ≤ 2 ^ 30 →
  ∃ to s1 s2, z_code_get_result s n = Done (to, s1) ∧
    z_code_unget_result s1 to = Done s2 ∧ zc_wf s2 ∧ zc_results s2 = zc_results s.
Proof.
  intros Hwf Hn Hlt Hsz. destruct (z_code_get_result_ok s n) as (s1 & Hg & Hwf1 & Hr1 & _); [done..|].
  pose proof (zc_results_length _ Hwf) as L0. pose proof (zc_results_length _ Hwf1) as L1.
  rewrite Hr1 in L1. rewrite <- (take_drop (Z.to_nat n) (zc_results s)), length_app in L0.
  destruct (z_code_unget_result_ok s1 (take (Z.to_nat n) (zc_results s))) as (s2 & Hu & Hwf2 & Hr2);
    [done|lia|].
  eexists _, s1, s2. split_and!; [done..|]. by rewrite Hr2, Hr1, take_drop.
Qed.

Lemma z_code_unget_get_witness :
  ∃ to s1 s2, z_code_get_result (mkZCode [1; 2; 3; 4] 4 3 0) 2 = Done (to, s1) ∧
    z_code_unget_result (H := zero_mem) s1 to = Done s2 ∧ zc_wf s2 ∧ zc_results s2 = [1; 2; 3].
Proof.
  apply (z_code_unget_get (H := zero_mem) (mkZCode [1; 2; 3; 4] 4 3 0) 2); done.
Defined.
