(* ===== verification/Base64.v ===== *)
(** * The base64 encoder and decoder (src/src/code_base64.c)

    Both classes keep the byte they are assembling in the result buffer, behind
    the results ([buf[buf_used]]), and the position inside a group in [phase].
    The first part translates the code; the second gives the machines that
    describe the two directions on bytes; the rest shows that the code
    implements the machines ([CodeLaws]), when it stays inside its buffer, and
    that decoding inverts encoding. *)

From S2P Require Import Prelude Code.
Open Scope Z_scope.

(** ** The encoder *)

Record ZCodeBase64Encode := mkEnc {
  e_super : ZCode;
  e_phase : Z;
  e_linepos : Z;
  e_linelen : Z
}.

Definition e_with_super (s : ZCode) (e : ZCodeBase64Encode) : ZCodeBase64Encode :=
  mkEnc s (e_phase e) (e_linepos e) (e_linelen e).
Definition e_with_phase (p : Z) (e : ZCodeBase64Encode) : ZCodeBase64Encode :=
  mkEnc (e_super e) p (e_linepos e) (e_linelen e).
Definition e_with_linepos (l : Z) (e : ZCodeBase64Encode) : ZCodeBase64Encode :=
  mkEnc (e_super e) (e_phase e) l (e_linelen e).

(** [buf[buf_used] = v], and the same followed by [buf_used++]. *)
Definition zc_put (v : Z) (s : ZCode) : outcome ZCode :=
  b ← store (zc_buf s) (zc_buf_used s) v; Done (zc_with_buf b s).

Definition zc_push (v : Z) (s : ZCode) : outcome ZCode :=
  s ← zc_put v s; Done (zc_with_used (zc_buf_used s + 1) s).

(** [buf[buf_used]]. *)
Definition zc_partial (s : ZCode) : outcome Z := load (zc_buf s) (zc_buf_used s).

Definition base64_encode_xlat : list Z :=
  str "ABCDEFGHIJKLMNOPQRSTUVWXYZabcdefghijklmnopqrstuvwxyz0123456789+/".

Section encode.
Context `{FreshMem}.

Definition z_code_base64_encode_fix (self : ZCodeBase64Encode) (closure : bool)
  : outcome ZCodeBase64Encode :=
  c ← (if closure then Done (chr "=")
       else v ← zc_partial (e_super self);
            Done (base64_encode_xlat !!! Z.to_nat (Z.land v 63)));
  s ← zc_push c (e_super self);
  let self := e_with_super s self in
  if decide (e_linelen self ≠ 0) then
    let linepos := e_linepos self in
    _ ← require (linepos + 1 ≤ INT_MAX) SignedOverflow;
    let self := e_with_linepos (linepos + 1) self in
    if decide (e_linelen self ≤ linepos) then
      s ← zc_push 13 (e_super self);
      s ← zc_push 10 s;
      Done (e_with_linepos 0 (e_with_super s self))
    else Done self
  else Done self.

Definition z_code_calculate_growing (old_size orig_size line_length : Z) : Z :=
  let new_size := old_size in
  let new_coded_size := u64 (orig_size * 4 + 2) / 3 in
  let new_size := u64 (new_size + new_coded_size) in
  if decide (line_length ≠ 0)
  then u64 (new_size + u64 (2 * (new_size + line_length - 1)) / line_length)
  else new_size.

(** [buf[buf_used] = v] and [buf[buf_used] |= v] on the embedded ZCode. *)
Definition enc_put (v : Z) (self : ZCodeBase64Encode) : outcome ZCodeBase64Encode :=
  s ← zc_put v (e_super self); Done (e_with_super s self).

Definition enc_or (v : Z) (self : ZCodeBase64Encode) : outcome ZCodeBase64Encode :=
  p ← zc_partial (e_super self); enc_put (Z.lor p v) self.

Definition enc_and (v : Z) (self : ZCodeBase64Encode) : outcome ZCodeBase64Encode :=
  p ← zc_partial (e_super self); enc_put (Z.land p v) self.

(** The body of the loop of z_code_base64_encode_transform. *)
Definition encode_step (self : ZCodeBase64Encode) (c : Z) : outcome ZCodeBase64Encode :=
  self ← (if decide (e_phase self = 0) then
            self ← enc_put (Z.shiftr c 2) self;
            self ← z_code_base64_encode_fix self false;
            enc_put (Z.shiftl (Z.land c 3) 4) self
          else if decide (e_phase self = 1) then
            self ← enc_or (Z.shiftr c 4) self;
            self ← z_code_base64_encode_fix self false;
            enc_put (Z.shiftl (Z.land c 15) 2) self
          else if decide (e_phase self = 2) then
            self ← enc_or (Z.shiftr c 6) self;
            self ← z_code_base64_encode_fix self false;
            self ← enc_put (Z.land c 63) self;
            z_code_base64_encode_fix self false
          else Done self);
  Done (e_with_phase ((e_phase self + 1) `rem` 3) self).

Fixpoint encode_loop (self : ZCodeBase64Encode) (from : list Z) : outcome ZCodeBase64Encode :=
  match from with
  | [] => Done self
  | c :: from => self ← encode_step self c; encode_loop self from
  end.

Definition z_code_base64_encode_transform (self : ZCodeBase64Encode) (from : list Z)
  : outcome (bool * ZCodeBase64Encode) :=
  s ← z_code_grow (e_super self)
        (s32 (z_code_calculate_growing (zc_buf_used (e_super self)) (zlen from)
                (u64 (e_linelen self))));
  self ← encode_loop (e_with_super s self) from;
  Done (true, self).

Definition z_code_base64_encode_finish (self : ZCodeBase64Encode)
  : outcome (bool * ZCodeBase64Encode) :=
  self ← (if decide (e_phase self = 0) then Done self
          else if decide (e_phase self = 1) then
            self ← enc_and 48 self;
            self ← z_code_base64_encode_fix self false;
            self ← z_code_base64_encode_fix self true;
            z_code_base64_encode_fix self true
          else if decide (e_phase self = 2) then
            self ← enc_and 60 self;
            self ← z_code_base64_encode_fix self false;
            z_code_base64_encode_fix self true
          else Done self);
  s ← (if decide (e_linepos self ≠ 0) then
         s ← zc_push 13 (e_super self); zc_push 10 s
       else Done (e_super self));
  Done (true, mkEnc s 0 0 (e_linelen self)).

Definition z_code_base64_encode_init (bufsize linelen : Z) : ZCodeBase64Encode :=
  mkEnc (z_code_init bufsize) 0 0 linelen.

Definition z_code_base64_encode_new (bufsize linelen : Z) : ZCodeBase64Encode :=
  z_code_base64_encode_init bufsize linelen.

#[export] Instance encode_methods : CodeMethods ZCodeBase64Encode := {
  code_super := e_super;
  code_set_super := e_with_super;
  code_transform := z_code_base64_encode_transform;
  code_finish := Some z_code_base64_encode_finish
}.
End encode.

(** ** The decoder *)

Record ZCodeBase64Decode := mkDec {
  d_super : ZCode;
  d_phase : Z;
  d_error_tolerant : bool
}.

Definition d_with_super (s : ZCode) (d : ZCodeBase64Decode) : ZCodeBase64Decode :=
  mkDec s (d_phase d) (d_error_tolerant d).
Definition d_with_phase (p : Z) (d : ZCodeBase64Decode) : ZCodeBase64Decode :=
  mkDec (d_super d) p (d_error_tolerant d).

(** The rows of the table of z_code_base64_decode_transform:
    -3 error, -2 end of stream, -1 ignore, other: value. *)
Definition base64_decode_xlat : list Z :=
  [-3;-3;-3;-3;-3;-3;-3;-3;-3;-1;-1;-3;-3;-1;-3;-3] ++
  [-3;-3;-3;-3;-3;-3;-3;-3;-3;-3;-3;-3;-3;-3;-3;-3] ++
  [-1;-3;-3;-3;-3;-3;-3;-3;-3;-3;-3;62;-3;-3;-3;63] ++
  [52;53;54;55;56;57;58;59;60;61;-3;-3;-3;-2;-3;-3] ++
  [-3;0;1;2;3;4;5;6;7;8;9;10;11;12;13;14] ++
  [15;16;17;18;19;20;21;22;23;24;25;-3;-3;-3;-3;-3] ++
  [-3;26;27;28;29;30;31;32;33;34;35;36;37;38;39;40] ++
  [41;42;43;44;45;46;47;48;49;50;51;-3;-3;-3;-3;-3] ++
  replicate 128 (-3).

Section decode.
Context `{FreshMem}.

Definition dec_put (v : Z) (self : ZCodeBase64Decode) : outcome ZCodeBase64Decode :=
  s ← zc_put (u8 v) (d_super self); Done (d_with_super s self).

(** [buf[buf_used++] |= v]. *)
Definition dec_or_push (v : Z) (self : ZCodeBase64Decode) : outcome ZCodeBase64Decode :=
  p ← zc_partial (d_super self);
  s ← zc_push (u8 (Z.lor p v)) (d_super self); Done (d_with_super s self).

(** [super.error_counter++] and return FALSE. *)
Definition dec_error (self : ZCodeBase64Decode) : outcome (bool * ZCodeBase64Decode) :=
  let n := zc_error_counter (d_super self) in
  _ ← require (n + 1 ≤ INT_MAX) SignedOverflow;
  Done (false, d_with_super (zc_with_errors (n + 1) (d_super self)) self).

(** One value of the alphabet, in a phase below 4. *)
Definition decode_value (value : Z) (self : ZCodeBase64Decode) : outcome ZCodeBase64Decode :=
  self ← (if decide (d_phase self = 0) then dec_put (Z.shiftl value 2) self
          else if decide (d_phase self = 1) then
            self ← dec_or_push (Z.shiftr value 4) self;
            dec_put (Z.shiftl value 4) self
          else if decide (d_phase self = 2) then
            self ← dec_or_push (Z.shiftr value 2) self;
            dec_put (Z.shiftl value 6) self
          else if decide (d_phase self = 3) then dec_or_push value self
          else Done self);
  Done (d_with_phase ((d_phase self + 1) `rem` 4) self).

(** The body of the loop; the flag says that the loop goes on. *)
Definition decode_step (self : ZCodeBase64Decode) (c : Z) : outcome (bool * ZCodeBase64Decode) :=
  let value := base64_decode_xlat !!! Z.to_nat c in
  if decide (value = -1) then Done (true, self)
  else if decide (value = -2) then
    if decide (d_phase self = 0 ∨ d_phase self = 1) then
      if d_error_tolerant self then Done (true, self) else dec_error self
    else if decide (d_phase self = 2) then Done (true, d_with_phase 4 self)
    else if decide (d_phase self = 3 ∨ d_phase self = 4) then Done (true, d_with_phase 0 self)
    else Done (true, self)
  else if decide (value < 0 ∨ 63 < value) then
    if d_error_tolerant self then Done (true, self) else dec_error self
  else if decide (d_phase self = 4) then
    if d_error_tolerant self
    then self ← decode_value value (d_with_phase 0 self); Done (true, self)
    else dec_error self
  else self ← decode_value value self; Done (true, self).

Fixpoint decode_loop (self : ZCodeBase64Decode) (from : list Z)
  : outcome (bool * ZCodeBase64Decode) :=
  match from with
  | [] => Done (true, self)
  | c :: from =>
      r ← decode_step self c;
      if r.1 : bool then decode_loop r.2 from else Done (false, r.2)
  end.

Definition z_code_base64_decode_transform (self : ZCodeBase64Decode) (from : list Z)
  : outcome (bool * ZCodeBase64Decode) :=
  s ← z_code_grow (d_super self)
        (s32 (u64 (zc_buf_used (d_super self) + u64 (zlen from * 3 + 3) / 4 + 16)));
  decode_loop (d_with_super s self) from.

Definition z_code_base64_decode_finish (self : ZCodeBase64Decode)
  : outcome (bool * ZCodeBase64Decode) :=
  if decide (d_phase self ≠ 0) then
    let self := d_with_phase 0 self in
    if d_error_tolerant self then Done (true, self) else Done (false, self)
  else Done (true, self).

Definition z_code_base64_decode_init (bufsize : Z) (error_tolerant : bool) : ZCodeBase64Decode :=
  mkDec (z_code_init bufsize) 0 error_tolerant.

Definition z_code_base64_decode_new (bufsize : Z) (error_tolerant : bool) : ZCodeBase64Decode :=
  z_code_base64_decode_init bufsize error_tolerant.

#[export] Instance decode_methods : CodeMethods ZCodeBase64Decode := {
  code_super := d_super;
  code_set_super := d_with_super;
  code_transform := z_code_base64_decode_transform;
  code_finish := Some z_code_base64_decode_finish
}.
End decode.

(** ** The byte behind the results *)

Lemma zc_put_ok v s :
  zc_wf s → zc_buf_used s < zc_buf_len s → ∃ s', zc_put v s = Done s'.
Proof.
  intros [Hl ? ?] ?. unfold zc_put, store. rewrite decide_True by lia.
  rewrite Done_bind. eauto.
Qed.

Lemma zc_put_Done v s s' :
  zc_wf s → zc_put v s = Done s' →
  zc_wf s' ∧ zc_results s' = zc_results s ∧
  zc_buf s' !! Z.to_nat (zc_buf_used s') = Some v ∧
  zc_buf_used s' = zc_buf_used s ∧ zc_buf_len s' = zc_buf_len s ∧
  zc_error_counter s' = zc_error_counter s ∧ zc_buf_used s < zc_buf_len s.
Proof.
  intros [Hl Hr Hu] Hp. unfold zc_put in Hp. outcome_inv Hp. injection Hp as <-.
  apply store_Done in Hx as [Hi ->]. cbn. split_and!; try done; try lia.
  - split; cbn; rewrite ?length_insert; lia.
  - unfold zc_results; cbn. by rewrite take_insert_ge by lia.
  - apply list_lookup_insert_eq. lia.
Qed.

Lemma zc_push_ok v s :
  zc_wf s → zc_buf_used s < zc_buf_len s → ∃ s', zc_push v s = Done s'.
Proof.
  intros Hwf Hlt. unfold zc_push. destruct (zc_put_ok v s Hwf Hlt) as [s' ->].
  rewrite Done_bind. eauto.
Qed.

Lemma zc_push_Done v s s' :
  zc_wf s → zc_push v s = Done s' →
  zc_wf s' ∧ zc_results s' = zc_results s ++ [v] ∧
  zc_buf_used s' = zc_buf_used s + 1 ∧ zc_buf_len s' = zc_buf_len s ∧
  zc_error_counter s' = zc_error_counter s ∧ zc_buf_used s < zc_buf_len s.
Proof.
  intros Hwf Hp. unfold zc_push in Hp. outcome_inv Hp. injection Hp as <-.
  destruct (zc_put_Done _ _ _ Hwf Hx) as ([Hl Hr Hu] & Hres & Hv & Hus & Hlen & He & Hlt).
  cbn. split_and!; try lia; try (by rewrite ?Hus).
  - split; cbn; lia.
  - rewrite <- Hres. unfold zc_results; cbn.
    replace (Z.to_nat (zc_buf_used x + 1)) with (S (Z.to_nat (zc_buf_used x))) by lia.
    by apply take_S_r.
Qed.

Lemma zc_partial_Done s p :
  zc_wf s → zc_partial s = Done p ↔ zc_buf s !! Z.to_nat (zc_buf_used s) = Some p.
Proof. intros [? ? ?]. unfold zc_partial. rewrite load_Done. naive_solver. Qed.

(** ** The machines *)

Definition xl (v : Z) : Z := base64_encode_xlat !!! Z.to_nat (Z.land v 63).

(** One character of output at line position [lp]. *)
Definition emit (linelen lp c : Z) : list Z * Z :=
  if decide (linelen ≠ 0)
  then if decide (linelen ≤ lp) then ([c; 13; 10], 0) else ([c], lp + 1)
  else ([c], lp).

Fixpoint emits (linelen lp : Z) (cs : list Z) : list Z * Z :=
  match cs with
  | [] => ([], lp)
  | c :: cs =>
      let '(o, lp) := emit linelen lp c in
      let '(o', lp) := emits linelen lp cs in (o ++ o', lp)
  end.

Record enc_state := mkES { es_phase : Z; es_acc : Z; es_lp : Z }.

(** The sextets that a byte completes in a phase, and the bits it leaves. *)
Definition enc_bits (phase acc c : Z) : list Z * Z :=
  if decide (phase = 0) then ([Z.shiftr c 2], Z.shiftl (Z.land c 3) 4)
  else if decide (phase = 1) then ([Z.lor acc (Z.shiftr c 4)], Z.shiftl (Z.land c 15) 2)
  else ([Z.lor acc (Z.shiftr c 6); Z.land c 63], 0).

Definition enc_step (linelen : Z) (a : enc_state) (c : Z) : option (list Z * enc_state) :=
  let '(vs, acc) := enc_bits (es_phase a) (es_acc a) c in
  let '(o, lp) := emits linelen (es_lp a) (xl <$> vs) in
  Some (o, mkES ((es_phase a + 1) `rem` 3) acc lp).

(** The characters that close the last group. *)
Definition enc_tail (phase acc : Z) : list Z :=
  if decide (phase = 1) then [xl (Z.land acc 48); chr "="; chr "="]
  else if decide (phase = 2) then [xl (Z.land acc 60); chr "="]
  else [].

Definition enc_end (linelen : Z) (a : enc_state) : bool * list Z :=
  let '(o, lp) := emits linelen (es_lp a) (enc_tail (es_phase a) (es_acc a)) in
  (true, o ++ if decide (lp ≠ 0) then [13; 10] else []).

Definition enc_machine (linelen : Z) : Machine :=
  {| m_state := enc_state; m_init := mkES 0 0 0;
     m_step := enc_step linelen; m_end := enc_end linelen |}.

Record dec_state := mkDS { ds_phase : Z; ds_acc : Z }.

(** What a value of the alphabet does in a phase below 4. *)
Definition dec_bits (phase acc v : Z) : list Z * Z :=
  if decide (phase = 0) then ([], u8 (Z.shiftl v 2))
  else if decide (phase = 1) then ([u8 (Z.lor acc (Z.shiftr v 4))], u8 (Z.shiftl v 4))
  else if decide (phase = 2) then ([u8 (Z.lor acc (Z.shiftr v 2))], u8 (Z.shiftl v 6))
  else ([u8 (Z.lor acc v)], 0).

(** The class of an input character. *)
Inductive dec_class := Ignored | Closing | Value (v : Z) | Illegal.

Definition classify (c : Z) : dec_class :=
  let v := base64_decode_xlat !!! Z.to_nat c in
  if decide (v = -1) then Ignored else if decide (v = -2) then Closing
  else if decide (v < 0 ∨ 63 < v) then Illegal else Value v.

Definition dec_step (tolerant : bool) (a : dec_state) (c : Z) : option (list Z * dec_state) :=
  match classify c with
  | Ignored => Some ([], a)
  | Illegal => if tolerant then Some ([], a) else None
  | Closing =>
      if decide (ds_phase a ≤ 1) then (if tolerant then Some ([], a) else None)
      else Some ([], mkDS (if decide (ds_phase a = 2) then 4 else 0) 0)
  | Value v =>
      if bool_decide (ds_phase a = 4) && negb tolerant then None
      else
        let ph := if decide (ds_phase a = 4) then 0 else ds_phase a in
        let '(o, acc) := dec_bits ph (ds_acc a) v in
        Some (o, mkDS ((ph + 1) `rem` 4) acc)
  end.

Definition dec_machine (tolerant : bool) : Machine :=
  {| m_state := dec_state; m_init := mkDS 0 0;
     m_step := dec_step tolerant;
     m_end := λ a, (tolerant || bool_decide (ds_phase a = 0), []) |}.

(** ** The decoder implements its machine *)

Section decoder_laws.
Context `{FreshMem} (tolerant : bool).

Definition dec_rep (d : ZCodeBase64Decode) (a : dec_state) (out : list Z) : Prop :=
  zc_wf (d_super d) ∧ zc_results (d_super d) = out ∧ d_error_tolerant d = tolerant ∧
  d_phase d = ds_phase a ∧ 0 ≤ ds_phase a ≤ 4 ∧
  (1 ≤ ds_phase a ≤ 3 →
   zc_buf (d_super d) !! Z.to_nat (zc_buf_used (d_super d)) = Some (ds_acc a)).

Lemma dec_put_Done v d d' :
  zc_wf (d_super d) → dec_put v d = Done d' →
  zc_wf (d_super d') ∧ zc_results (d_super d') = zc_results (d_super d) ∧
  zc_buf (d_super d') !! Z.to_nat (zc_buf_used (d_super d')) = Some (u8 v) ∧
  d_phase d' = d_phase d ∧ d_error_tolerant d' = d_error_tolerant d ∧
  zc_buf_used (d_super d') = zc_buf_used (d_super d) ∧
  zc_buf_len (d_super d') = zc_buf_len (d_super d) ∧
  zc_error_counter (d_super d') = zc_error_counter (d_super d).
Proof.
  intros Hwf Hp. unfold dec_put in Hp. outcome_inv Hp. injection Hp as <-.
  destruct (zc_put_Done _ _ _ Hwf Hx) as (? & ? & ? & ? & ? & ? & _). cbn. naive_solver.
Qed.

Lemma dec_or_push_Done v d d' p :
  zc_wf (d_super d) →
  zc_buf (d_super d) !! Z.to_nat (zc_buf_used (d_super d)) = Some p →
  dec_or_push v d = Done d' →
  zc_wf (d_super d') ∧
  zc_results (d_super d') = zc_results (d_super d) ++ [u8 (Z.lor p v)] ∧
  d_phase d' = d_phase d ∧ d_error_tolerant d' = d_error_tolerant d ∧
  zc_buf_used (d_super d') = zc_buf_used (d_super d) + 1 ∧
  zc_buf_len (d_super d') = zc_buf_len (d_super d) ∧
  zc_error_counter (d_super d') = zc_error_counter (d_super d).
Proof.
  intros Hwf Hpp Hp. unfold dec_or_push in Hp.
  rewrite (proj2 (zc_partial_Done _ p Hwf) Hpp), Done_bind in Hp.
  outcome_inv Hp. injection Hp as <-.
  destruct (zc_push_Done _ _ _ Hwf Hx) as (? & ? & ? & ? & ? & _). cbn. naive_solver.
Qed.

(** The facts about an operation on the buffer, and the goals they settle. *)
Ltac dec_op H :=
  let Hw := fresh "Hw" in
  pose proof H as (Hw & ? & ?); destruct_and?.
Ltac dec_op_end :=
  unfold dec_rep; cbn [d_super d_phase d_error_tolerant d_with_phase ds_phase ds_acc length];
  split_and!; repeat case_match; try lia; try congruence; try done;
  try (let Hc := fresh in intros [Hc _]; vm_compute in Hc; by destruct Hc).

Lemma decode_value_Done v d a out d' :
  dec_rep d a out → ds_phase a ≠ 4 → decode_value v d = Done d' →
  let '(o, acc) := dec_bits (ds_phase a) (ds_acc a) v in
  dec_rep d' (mkDS ((ds_phase a + 1) `rem` 4) acc) (out ++ o) ∧
  zc_buf_used (d_super d') = zc_buf_used (d_super d) + zlen o ∧
  zc_buf_len (d_super d') = zc_buf_len (d_super d) ∧
  zc_error_counter (d_super d') = zc_error_counter (d_super d).
Proof.
  destruct a as [ph acc]; cbn [ds_phase ds_acc].
  intros (Hwf & Hres & Ht & Hph & Hr & Hacc) H4 Hv. cbn [ds_phase ds_acc] in *.
  unfold decode_value in Hv. outcome_inv Hv. injection Hv as <-.
  rewrite Hph in Hx. unfold dec_bits.
  assert (ph = 0 ∨ ph = 1 ∨ ph = 2 ∨ ph = 3) as [-> | [-> | [-> | ->]]] by lia;
    decide_lia; decide_lia in Hx; outcome_inv Hx.
  - dec_op (dec_put_Done _ _ _ Hwf Hx). rewrite app_nil_r. dec_op_end.
  - dec_op (dec_or_push_Done _ _ _ acc Hwf (Hacc ltac:(lia)) Hx0).
    dec_op (dec_put_Done _ _ _ Hw Hx). dec_op_end.
  - dec_op (dec_or_push_Done _ _ _ acc Hwf (Hacc ltac:(lia)) Hx0).
    dec_op (dec_put_Done _ _ _ Hw Hx). dec_op_end.
  - dec_op (dec_or_push_Done _ _ _ acc Hwf (Hacc ltac:(lia)) Hx). dec_op_end.
Qed.

(** Four characters make three bytes: a potential that grows by at most three
    with every character. *)
Definition dec_potential (d : ZCodeBase64Decode) : Z :=
  4 * zc_buf_used (d_super d) +
  (if decide (d_phase d = 0) then 0 else if decide (d_phase d = 4) then 2 else 4 - d_phase d).

(** What [n] characters do to the counters. *)
Definition dec_counts (d d' : ZCodeBase64Decode) (ok : bool) (n : Z) : Prop :=
  zc_buf_used (d_super d) ≤ zc_buf_used (d_super d') ∧
  dec_potential d' ≤ dec_potential d + 3 * n ∧
  zc_buf_len (d_super d') = zc_buf_len (d_super d) ∧
  zc_error_counter (d_super d') =
    zc_error_counter (d_super d) + (if ok then 0 else 1).

Lemma dec_rep_phase d a out ph acc :
  dec_rep d a out → ph = 0 ∨ ph = 4 → dec_rep (d_with_phase ph d) (mkDS ph acc) out.
Proof. intros (? & ? & ? & ? & ? & ?) ?. unfold dec_rep; cbn. split_and!; try done; lia. Qed.

Lemma dec_error_Done d a out r :
  dec_rep d a out → dec_error d = Done r →
  r.1 = false ∧ dec_rep r.2 a out ∧ dec_counts d r.2 false 1.
Proof.
  intros Hrep He. unfold dec_error in He. outcome_inv He. injection He as <-.
  destruct Hrep as ([] & ? & ? & ? & ? & ?). unfold dec_rep, dec_counts, dec_potential; cbn.
  split_and!; try done; try lia; by split.
Qed.

Lemma dec_bits_length ph acc v : zlen (dec_bits ph acc v).1 = if decide (ph = 0) then 0 else 1.
Proof. unfold dec_bits. repeat case_decide; cbn; lia. Qed.

Lemma dec_potential_value d d' ph o :
  0 ≤ ph ≤ 4 → ph ≠ 4 → d_phase d = ph → d_phase d' = (ph + 1) `rem` 4 →
  zc_buf_used (d_super d') = zc_buf_used (d_super d) + o →
  o = (if decide (ph = 0) then 0 else 1) →
  dec_potential d' ≤ dec_potential d + 3.
Proof.
  intros Hr H4 Hp Hp' Hu Ho. unfold dec_potential. rewrite Hp, Hp', Hu, Ho.
  assert (ph = 0 ∨ ph = 1 ∨ ph = 2 ∨ ph = 3) as [-> | [-> | [-> | ->]]] by lia;
    match goal with |- context [Z.rem ?a 4] => let r := eval compute in (Z.rem a 4) in
      change (Z.rem a 4) with r end; decide_lia; lia.
Qed.

Lemma decode_step_Done d a out c ok d' :
  dec_rep d a out → decode_step d c = Done (ok, d') →
  dec_counts d d' ok 1 ∧
  match dec_step tolerant a c with
  | Some (o, a') => ok = true ∧ dec_rep d' a' (out ++ o)
  | None => ok = false ∧ dec_rep d' a out
  end.
Proof.
  intros Hrep Hs. pose proof Hrep as (Hwf & Hres & Ht & Hph & Hr & Hacc).
  unfold decode_step in Hs. rewrite Ht, Hph in Hs. unfold dec_step, classify.
  set (v := base64_decode_xlat !!! Z.to_nat c) in *. clearbody v.
  assert (Hsame : dec_counts d d true 1) by (unfold dec_counts; lia).
  assert (Hphase : ∀ ph n, 0 ≤ n → ph = 0 ∨ ph = 4 ∧ ds_phase a = 2 →
            dec_counts d (d_with_phase ph d) true n).
  { intros ph n Hn Hp. unfold dec_counts, dec_potential; cbn. rewrite Hph.
    repeat case_decide; lia. }
  assert (Herr : dec_error d = Done (ok, d') →
            dec_counts d d' ok 1 ∧ ok = false ∧ dec_rep d' a out).
  { intros He. destruct (dec_error_Done _ _ _ _ Hrep He) as (E & ? & ?).
    cbn in E. by subst ok. }
  assert (Hval : ∀ d0 a0, dec_rep d0 a0 out → ds_phase a0 ≠ 4 → dec_counts d d0 true 0 →
            (self ← decode_value v d0; Done (true, self)) = Done (ok, d') →
            dec_counts d d' ok 1 ∧ ok = true ∧
            dec_rep d' (mkDS ((ds_phase a0 + 1) `rem` 4) (dec_bits (ds_phase a0) (ds_acc a0) v).2)
              (out ++ (dec_bits (ds_phase a0) (ds_acc a0) v).1)).
  { intros d0 a0 Hr0 H4 Hc Hv. outcome_inv Hv. injection Hv as <- <-.
    pose proof (decode_value_Done _ _ _ _ _ Hr0 H4 Hx) as Hd.
    pose proof (dec_bits_length (ds_phase a0) (ds_acc a0) v).
    destruct (dec_bits _ _ v) as [o acc]. destruct Hd as ((? & ? & ? & Hp' & Hr' & ?) & ? & ? & ?).
    cbn [fst snd ds_phase] in *. split_and!; [|done..].
    destruct Hr0 as (_ & _ & _ & Hp0 & ? & _).
    assert (dec_potential x ≤ dec_potential d0 + 3) 
      by by apply (dec_potential_value _ _ (ds_phase a0) (zlen o)).
    unfold dec_counts in *. case_decide; lia. }
  repeat (case_decide; decide_lia); destruct tolerant; cbn [andb negb];
    rewrite ?bool_decide_true, ?bool_decide_false by done; cbn [andb negb];
    try (injection Hs as <- <-; rewrite ?app_nil_r);
    try (split_and!; eauto using dec_rep_phase with lia; done); try (by apply Herr); try lia.
  - specialize (Hval (d_with_phase 0 d) (mkDS 0 (ds_acc a))). cbn [ds_phase ds_acc] in Hval.
    destruct (dec_bits _ _ v). apply Hval; eauto using dec_rep_phase with lia.
  - specialize (Hval d a). destruct (dec_bits _ _ v). apply Hval; unfold dec_counts; eauto; lia.
  - specialize (Hval d a). destruct (dec_bits _ _ v). apply Hval; unfold dec_counts; eauto; lia.
Qed.

Lemma decode_loop_Done from : ∀ d a out ok d',
  dec_rep d a out → decode_loop d from = Done (ok, d') →
  ∃ o a', m_run (dec_machine tolerant) a from = (ok, o, a') ∧ dec_rep d' a' (out ++ o) ∧
          dec_counts d d' ok (zlen from).
Proof.
  induction from as [|c from IH]; cbn [decode_loop m_run]; intros d a out ok d' Hrep Hl.
  - injection Hl as <- <-. exists [], a. rewrite app_nil_r. split_and!; [done..|].
    unfold dec_counts. cbn. lia.
  - outcome_inv Hl. destruct x as [ok1 d1]. cbn [fst snd] in Hl.
    destruct (decode_step_Done _ _ _ _ _ _ Hrep Hx) as [Hc Hstep].
    change (m_step (dec_machine tolerant) a c) with (dec_step tolerant a c).
    destruct (dec_step tolerant a c) as [[o a1]|]; destruct Hstep as [-> Hrep1].
    + destruct (IH _ _ _ _ _ Hrep1 Hl) as (o2 & a2 & Hrun & Hrep2 & Hc2).
      exists (o ++ o2), a2. rewrite Hrun, app_assoc. split_and!; [done..|].
      revert Hc Hc2. unfold dec_counts. cbn [length]. lia.
    + injection Hl as <- <-. exists [], a. rewrite app_nil_r. split_and!; [done..|].
      revert Hc. unfold dec_counts. cbn [length]. lia.
Qed.

Lemma dec_rep_grow d a out r s :
  dec_rep d a out → z_code_grow (d_super d) r = Done s →
  dec_rep (d_with_super s d) a out ∧ zc_buf_used s = zc_buf_used (d_super d) ∧
  zc_error_counter s = zc_error_counter (d_super d) ∧ r ≤ zc_buf_len s.
Proof.
  intros (Hwf & Hres & Ht & Hph & Hr & Hacc) Hg.
  destruct (z_code_grow_Done _ _ _ Hwf Hg) as (Hwf' & ? & ? & _ & Hu & ?).
  destruct (z_code_grow_keeps _ _ _ Hwf Hg) as [Hk1 Hk2].
  unfold dec_rep; cbn. split_and!; try lia; try done; [congruence|].
  intros Hp. specialize (Hacc Hp). rewrite Hu, Hk2; [done|].
  apply lookup_lt_Some in Hacc. destruct Hwf. lia.
Qed.

Lemma dec_transform_law d a out bs ok d' :
  dec_rep d a out → bytes bs → z_code_transform d bs = Done (ok, d') →
  ∃ o a', m_run (dec_machine tolerant) a bs = (ok, o, a') ∧ dec_rep d' a' (out ++ o).
Proof.
  revert d a out bs ok d'.
  intros c a out bs ok c' Hrep Hbs Ht. unfold z_code_transform, code_transform in Ht.
  cbn [decode_methods] in Ht. unfold z_code_base64_decode_transform in Ht. outcome_inv Ht.
  destruct (dec_rep_grow _ _ _ _ _ Hrep Hx) as (Hrep1 & _).
  destruct (decode_loop_Done _ _ _ _ _ _ Hrep1 Ht) as (o & a' & ? & ? & _). eauto.
Qed.

Lemma dec_finish_law d a out ok d' :
  dec_rep d a out → z_code_finish d = Done (ok, d') →
  ok = (m_end (dec_machine tolerant) a).1 ∧
  dec_rep d' (m_init (dec_machine tolerant)) (out ++ (m_end (dec_machine tolerant) a).2).
Proof.
  revert d a out ok d'.
  intros c a out ok c' Hrep Hf. unfold z_code_finish in Hf. cbn in Hf. cbn.
  pose proof Hrep as (_ & _ & Ht & Hph & _). rewrite app_nil_r.
  unfold z_code_base64_decode_finish in Hf.
  cbn [d_error_tolerant d_with_phase] in Hf. rewrite Hph, Ht in Hf.
  case_decide as Hp; [destruct tolerant|]; injection Hf as <- <-; cbn [orb].
  + eauto using dec_rep_phase.
  + rewrite bool_decide_false by done. eauto using dec_rep_phase.
  + rewrite bool_decide_true, orb_true_r by lia. split; [done|].
    revert Hrep. unfold dec_rep; cbn. intuition lia.
Qed.

Lemma dec_read_law d a out n to d' :
  dec_rep d a out → 0 ≤ n → code_read d n = Done (to, d') →
  to = take (Z.to_nat n) out ∧ dec_rep d' a (drop (Z.to_nat n) out).
Proof.
  revert d a out n to d'.
  intros c a out n to c' (Hwf & Hres & Ht & Hph & Hr & Hacc) Hn Hread.
  unfold code_read in Hread. outcome_inv Hread. destruct x as [t s]. injection Hread as <- <-.
  destruct (z_code_get_result_Done _ _ _ _ Hwf Hn Hx) as (-> & ? & ? & ? & ? & Hp).
  rewrite Hres in *. split; [done|]. unfold dec_rep; cbn.
  cbn in Hp. rewrite Hp. split_and!; done || lia.
Qed.

#[export] Instance decode_laws : CodeLaws ZCodeBase64Decode (dec_machine tolerant) := {|
  code_rep := (dec_rep : _ → m_state (dec_machine tolerant) → _);
  transform_law := dec_transform_law;
  finish_law := dec_finish_law;
  read_law := dec_read_law
|}.

(** *** The decoder stays inside its buffer *)

Lemma dec_put_ok v d :
  zc_wf (d_super d) → zc_buf_used (d_super d) < zc_buf_len (d_super d) →
  ∃ d', dec_put v d = Done d'.
Proof.
  intros Hwf Hlt. unfold dec_put. destruct (zc_put_ok (u8 v) _ Hwf Hlt) as [s ->].
  rewrite Done_bind. eauto.
Qed.

Lemma dec_or_push_ok v d :
  zc_wf (d_super d) → zc_buf_used (d_super d) < zc_buf_len (d_super d) →
  ∃ d' p, dec_or_push v d = Done d' ∧
    zc_buf (d_super d) !! Z.to_nat (zc_buf_used (d_super d)) = Some p.
Proof.
  intros Hwf Hlt. unfold dec_or_push.
  destruct (lookup_lt_is_Some_2 (zc_buf (d_super d)) (Z.to_nat (zc_buf_used (d_super d))))
    as [p Hp]; [destruct Hwf; lia|].
  rewrite (proj2 (zc_partial_Done _ p Hwf) Hp), Done_bind.
  destruct (zc_push_ok (u8 (Z.lor p v)) _ Hwf Hlt) as [s ->].
  rewrite Done_bind. eauto.
Qed.

Lemma decode_value_ok v d :
  zc_wf (d_super d) → zc_buf_used (d_super d) + 1 < zc_buf_len (d_super d) →
  ∃ d', decode_value v d = Done d'.
Proof.
  intros Hwf Hlt. unfold decode_value.
  assert (Hboth : ∀ x y, ∃ d', (self ← dec_or_push x d; dec_put y self) = Done d').
  { intros x y. destruct (dec_or_push_ok x d Hwf) as (d' & p & Hd & Hp); [lia|].
    rewrite Hd, Done_bind. dec_op (dec_or_push_Done _ _ _ p Hwf Hp Hd).
    apply dec_put_ok; [done|lia]. }
  repeat case_decide.
  - destruct (dec_put_ok (Z.shiftl v 2) d Hwf) as [d' ->]; [lia|]. rewrite Done_bind. eauto.
  - destruct (Hboth (Z.shiftr v 4) (Z.shiftl v 4)) as [d' ->]. rewrite Done_bind. eauto.
  - destruct (Hboth (Z.shiftr v 2) (Z.shiftl v 6)) as [d' ->]. rewrite Done_bind. eauto.
  - destruct (dec_or_push_ok v d Hwf) as (d' & p & -> & _); [lia|]. rewrite Done_bind. eauto.
  - rewrite Done_bind. eauto.
Qed.

Lemma decode_step_ok d a out c :
  dec_rep d a out → zc_buf_used (d_super d) + 1 < zc_buf_len (d_super d) →
  zc_error_counter (d_super d) < INT_MAX → ∃ ok d', decode_step d c = Done (ok, d').
Proof.
  intros (Hwf & _) Hlt He. unfold decode_step.
  assert (Herr : ∃ ok d', dec_error d = Done (ok, d')).
  { unfold dec_error. rewrite require_true, Done_bind by lia. eauto. }
  repeat case_decide; eauto; destruct (d_error_tolerant d); eauto.
  - destruct (decode_value_ok (base64_decode_xlat !!! Z.to_nat c) (d_with_phase 0 d)) as [d' ->];
      [done..|]. rewrite Done_bind. eauto.
  - destruct (decode_value_ok (base64_decode_xlat !!! Z.to_nat c) d) as [d' ->];
      [done..|]. rewrite Done_bind. eauto.
  - destruct (decode_value_ok (base64_decode_xlat !!! Z.to_nat c) d) as [d' ->];
      [done..|]. rewrite Done_bind. eauto.
Qed.

Lemma dec_potential_used d :
  0 ≤ d_phase d ≤ 4 → 4 * zc_buf_used (d_super d) ≤ dec_potential d ≤ 4 * zc_buf_used (d_super d) + 3.
Proof. unfold dec_potential. repeat case_decide; lia. Qed.

Lemma decode_loop_ok from : ∀ d a out,
  dec_rep d a out → dec_potential d + 3 * zlen from + 4 < 4 * zc_buf_len (d_super d) →
  zc_error_counter (d_super d) < INT_MAX →
  ∃ ok d', decode_loop d from = Done (ok, d').
Proof.
  induction from as [|c from IH]; intros d a out Hrep Hlt He; cbn [decode_loop length] in *; [eauto|].
  assert (0 ≤ d_phase d ≤ 4) by (destruct Hrep as (_ & _ & _ & -> & ? & _); lia).
  pose proof (dec_potential_used d ltac:(done)).
  destruct (decode_step_ok d a out c Hrep) as (ok & d1 & Hs); [lia..|].
  rewrite Hs, Done_bind; cbn [fst snd].
  destruct (decode_step_Done _ _ _ _ _ _ Hrep Hs) as [(? & ? & ? & ?) Hstep].
  destruct ok; [|eauto].
  destruct (dec_step tolerant a c) as [[o a1]|]; destruct Hstep as [? Hrep1]; [|done].
  apply (IH _ _ _ Hrep1); lia.
Qed.

(** A transform never leaves the buffer, and afterwards the buffer is not
    full, so that a read does not leave it either. *)
Lemma decode_transform_ok d a out from :
  dec_rep d a out → zc_error_counter (d_super d) < INT_MAX →
  zc_buf_used (d_super d) + zlen from ≤ 2 ^ 30 - 32 →
  ∃ ok d', z_code_base64_decode_transform d from = Done (ok, d') ∧
    zc_buf_used (d_super d') < zc_buf_len (d_super d') ∧
    zc_buf_used (d_super d') ≤ zc_buf_used (d_super d) + zlen from + 1 ∧
    zc_error_counter (d_super d') ≤ zc_error_counter (d_super d) + 1.
Proof.
  intros Hrep He Hsz. pose proof Hrep as ([Hl Hr Hu] & _ & _ & Hph & Hpr & _).
  unfold z_code_base64_decode_transform.
  assert (0 ≤ zlen from * 3 + 3 < 2 ^ 64) by lia.
  rewrite (u64_small (zlen from * 3 + 3)), u64_small, s32_small by
    (Z.to_euclidean_division_equations; lia).
  set (r := zc_buf_used (d_super d) + (zlen from * 3 + 3) / 4 + 16).
  assert (r ≤ 2 ^ 30) by (unfold r; Z.to_euclidean_division_equations; lia).
  destruct (z_code_grow_returns (d_super d) r) as [s Hg]; [by destruct Hrep|done|].
  destruct (dec_rep_grow _ _ _ _ _ Hrep Hg) as (Hrep1 & Hus & Hes & Hlen).
  rewrite Hg, Done_bind.
  pose proof (dec_potential_used (d_with_super s d)) as Hpot. cbn in Hpot.
  assert (4 * zc_buf_used s + 3 * zlen from + 64 ≤ 4 * r)
    by (unfold r; Z.to_euclidean_division_equations; lia).
  destruct (decode_loop_ok from _ _ _ Hrep1) as (ok & d' & Hd); cbn; [lia..|].
  destruct (decode_loop_Done _ _ _ _ _ _ Hrep1 Hd) as (o & a' & _ & Hrep' & (? & ? & Hl' & He')).
  destruct Hrep' as (_ & _ & _ & Hp' & ? & _).
  pose proof (dec_potential_used d'). cbn in *.
  exists ok, d'. split_and!; [done|lia|lia|]. rewrite He'. destruct ok; lia.
Qed.
End decoder_laws.

(** ** The encoder implements its machine *)

Section encoder_laws.
Context `{FreshMem} (linelen : Z).

Definition enc_rep (e : ZCodeBase64Encode) (a : enc_state) (out : list Z) : Prop :=
  zc_wf (e_super e) ∧ zc_results (e_super e) = out ∧ e_linelen e = linelen ∧
  e_phase e = es_phase a ∧ 0 ≤ es_phase a ≤ 2 ∧ e_linepos e = es_lp a ∧
  (es_phase a ≠ 0 →
   zc_buf (e_super e) !! Z.to_nat (zc_buf_used (e_super e)) = Some (es_acc a)).

(** What the operations on the buffer leave: the results grew by [o], and the
    other fields are those of [e] except for the line position [lp]. *)
Record enc_after (e e' : ZCodeBase64Encode) (o : list Z) (lp : Z) : Prop := {
  ea_wf : zc_wf (e_super e');
  ea_results : zc_results (e_super e') = zc_results (e_super e) ++ o;
  ea_linelen : e_linelen e' = e_linelen e;
  ea_phase : e_phase e' = e_phase e;
  ea_linepos : e_linepos e' = lp;
  ea_len : zc_buf_len (e_super e') = zc_buf_len (e_super e);
  ea_used : zc_buf_used (e_super e') = zc_buf_used (e_super e) + zlen o
}.

Definition enc_partial (e : ZCodeBase64Encode) : option Z :=
  zc_buf (e_super e) !! Z.to_nat (zc_buf_used (e_super e)).

Lemma enc_put_Done v e e' :
  zc_wf (e_super e) → enc_put v e = Done e' →
  enc_after e e' [] (e_linepos e) ∧ enc_partial e' = Some v.
Proof.
  intros Hwf Hp. unfold enc_put in Hp. outcome_inv Hp. injection Hp as <-.
  destruct (zc_put_Done _ _ _ Hwf Hx) as (? & ? & ? & ? & ? & ? & ?).
  split; [|done]. split; cbn; rewrite ?app_nil_r; done || lia.
Qed.

Lemma enc_or_Done v e e' p :
  zc_wf (e_super e) → enc_partial e = Some p → enc_or v e = Done e' →
  enc_after e e' [] (e_linepos e) ∧ enc_partial e' = Some (Z.lor p v).
Proof.
  intros Hwf Hp Ho. unfold enc_or in Ho.
  rewrite (proj2 (zc_partial_Done _ p Hwf) Hp), Done_bind in Ho. by apply enc_put_Done.
Qed.

Lemma enc_and_Done v e e' p :
  zc_wf (e_super e) → enc_partial e = Some p → enc_and v e = Done e' →
  enc_after e e' [] (e_linepos e) ∧ enc_partial e' = Some (Z.land p v).
Proof.
  intros Hwf Hp Ho. unfold enc_and in Ho.
  rewrite (proj2 (zc_partial_Done _ p Hwf) Hp), Done_bind in Ho. by apply enc_put_Done.
Qed.

Lemma enc_after_push e c s :
  zc_wf (e_super e) → zc_push c (e_super e) = Done s →
  enc_after e (e_with_super s e) [c] (e_linepos e).
Proof.
  intros Hwf Hp. destruct (zc_push_Done _ _ _ Hwf Hp) as (? & ? & ? & ? & ? & ?).
  split; cbn; done || lia.
Qed.

Lemma enc_after_trans e1 e2 e3 o1 o2 l1 l2 :
  enc_after e1 e2 o1 l1 → enc_after e2 e3 o2 l2 → enc_after e1 e3 (o1 ++ o2) l2.
Proof.
  intros [] []. split; try done; try congruence; [|rewrite length_app; lia].
  rewrite app_assoc. congruence.
Qed.

Lemma enc_after_linepos e e' o l l' :
  enc_after e e' o l → enc_after e (e_with_linepos l' e') o l'.
Proof. intros []. by split. Qed.

Lemma fix_Done e closure c e' :
  zc_wf (e_super e) →
  (if closure : bool then c = chr "=" else ∃ v, enc_partial e = Some v ∧ c = xl v) →
  z_code_base64_encode_fix e closure = Done e' →
  enc_after e e' (emit (e_linelen e) (e_linepos e) c).1 (emit (e_linelen e) (e_linepos e) c).2.
Proof.
  intros Hwf Hc Hf. unfold z_code_base64_encode_fix in Hf.
  outcome_inv Hf. assert (x = c) as ->.
  { destruct closure; [by injection Hx as <-|]. destruct Hc as (v & Hv & ->).
    rewrite (proj2 (zc_partial_Done _ v Hwf) Hv), Done_bind in Hx. by injection Hx as <-. }
  pose proof (enc_after_push _ _ _ Hwf Hx0) as Ha. cbn [e_linelen e_with_super] in Hf.
  unfold emit. case_decide; [|injection Hf as <-; exact Ha].
  outcome_inv Hf. cbn [e_linelen e_linepos e_with_linepos e_with_super] in Hf.
  case_decide; [|injection Hf as <-; by apply (enc_after_linepos _ _ _ _ _ Ha)].
  outcome_inv Hf. injection Hf as <-. cbn [e_super e_with_linepos e_with_super] in Hx2.
  pose proof (enc_after_push _ _ _ (ea_wf _ _ _ _ Ha) Hx2) as Hb.
  pose proof (enc_after_push _ _ _ (ea_wf _ _ _ _ Hb) Hx3) as Hd.
  apply (enc_after_linepos _ _ _ _ 0
    (enc_after_trans _ _ _ _ _ _ _ Ha (enc_after_trans _ _ _ _ _ _ _ Hb Hd))).
Qed.

(** A character pushed after others. *)
Lemma emits_after e e1 e2 cs c :
  let '(o, lp) := emits (e_linelen e) (e_linepos e) cs in
  enc_after e e1 o lp →
  enc_after e1 e2 (emit (e_linelen e1) (e_linepos e1) c).1
                  (emit (e_linelen e1) (e_linepos e1) c).2 →
  let '(o, lp) := emits (e_linelen e) (e_linepos e) (cs ++ [c]) in
  enc_after e e2 o lp.
Proof.
  assert (Hsnoc : ∀ ll lp, emits ll lp (cs ++ [c]) =
    ((emits ll lp cs).1 ++ (emit ll (emits ll lp cs).2 c).1, (emit ll (emits ll lp cs).2 c).2)).
  { intros ll. induction cs as [|d cs IH]; intros lp; cbn.
    - destruct (emit ll lp c). by rewrite app_nil_r.
    - destruct (emit ll lp d) as [o1 l1]. rewrite IH. destruct (emits ll l1 cs) as [o2 l2].
      cbn. by rewrite app_assoc. }
  rewrite Hsnoc. destruct (emits _ _ cs) as [o lp]. cbn [fst snd]. intros H1 H2.
  rewrite (ea_linelen _ _ _ _ H1), (ea_linepos _ _ _ _ H1) in H2.
  by apply (enc_after_trans _ _ _ _ _ _ _ H1 H2).
Qed.

Lemma emits_one e e1 c :
  enc_after e e1 (emit (e_linelen e) (e_linepos e) c).1 (emit (e_linelen e) (e_linepos e) c).2 →
  let '(o, lp) := emits (e_linelen e) (e_linepos e) [c] in enc_after e e1 o lp.
Proof. cbn. destruct (emit _ _ c). by rewrite app_nil_r. Qed.

(** An operation on the partial byte in front of or behind a push. *)
Lemma enc_after_nil_l e1 e2 e3 o l :
  enc_after e1 e2 [] (e_linepos e1) → enc_after e2 e3 o l → enc_after e1 e3 o l.
Proof. intros H1 H2. by apply (enc_after_trans _ _ _ _ _ _ _ H1 H2). Qed.

Lemma enc_after_nil_r e1 e2 e3 o l :
  enc_after e1 e2 o l → enc_after e2 e3 [] (e_linepos e2) → enc_after e1 e3 o l.
Proof.
  intros H1 H2. pose proof (enc_after_trans _ _ _ _ _ _ _ H1 H2) as H3.
  by rewrite app_nil_r, (ea_linepos _ _ _ _ H1) in H3.
Qed.

(** Put a value, push it, and leave the rest bits: phases 0 and 1. *)
Lemma put_fix_put_Done e e' (m : outcome ZCodeBase64Encode) v w :
  (∀ e1, m = Done e1 → enc_after e e1 [] (e_linepos e) ∧ enc_partial e1 = Some v) →
  (e1 ← m; e2 ← z_code_base64_encode_fix e1 false; enc_put w e2) = Done e' →
  (let '(o, lp) := emits (e_linelen e) (e_linepos e) [xl v] in enc_after e e' o lp) ∧
  enc_partial e' = Some w.
Proof.
  intros Hm Hs. outcome_inv Hs. destruct (Hm _ Hx) as [H1 Hp1].
  pose proof (fix_Done x false (xl v) x0 (ea_wf _ _ _ _ H1)
    (ex_intro _ v (conj Hp1 eq_refl)) Hx0) as H2.
  destruct (enc_put_Done _ _ _ (ea_wf _ _ _ _ H2) Hs) as [H3 Hp3].
  split; [|done]. apply emits_one. rewrite (ea_linelen _ _ _ _ H1), (ea_linepos _ _ _ _ H1) in H2.
  eauto using enc_after_nil_l, enc_after_nil_r.
Qed.

Lemma enc_after_rep e e' a o lp ph acc out :
  enc_rep e a out → enc_after e e' o lp → 0 ≤ ph ≤ 2 →
  (ph ≠ 0 → enc_partial e' = Some acc) →
  enc_rep (e_with_phase ph e') (mkES ph acc lp) (out ++ o).
Proof.
  intros (_ & Hres & Hll & _ & _ & _ & _) [] ? ?. unfold enc_rep; cbn.
  split_and!; try done; try lia; congruence.
Qed.

Lemma encode_step_Done e a out c e' :
  enc_rep e a out → encode_step e c = Done e' →
  ∃ o a', enc_step linelen a c = Some (o, a') ∧ enc_rep e' a' (out ++ o) ∧
    zc_buf_len (e_super e') = zc_buf_len (e_super e) ∧
    zc_buf_used (e_super e') = zc_buf_used (e_super e) + zlen o.
Proof.
  intros Hrep Hs. pose proof Hrep as (Hwf & Hres & Hll & Hph & Hr & Hlp & Hacc).
  unfold encode_step in Hs. outcome_inv Hs. injection Hs as <-.
  unfold enc_step. destruct a as [ph acc lp]. cbn [es_phase es_acc es_lp] in *.
  rewrite Hph in Hx. rewrite <- Hll, <- Hlp. unfold enc_bits.
  assert (ph = 0 ∨ ph = 1 ∨ ph = 2) as [-> | [-> | ->]] by lia; decide_lia; decide_lia in Hx.
  - apply (put_fix_put_Done e _ _ (Z.shiftr c 2)) in Hx as [He Hp]; [|by intros; apply enc_put_Done].
    cbn [fmap list_fmap]. destruct (emits _ _ _) as [o l]. eexists _, _; split; [done|].
    rewrite (ea_phase _ _ _ _ He), Hph.
    split; [by apply (enc_after_rep e _ _ _ _ _ _ _ Hrep)|]. by destruct He.
  - apply (put_fix_put_Done e _ _ (Z.lor acc (Z.shiftr c 4))) in Hx as [He Hp];
      [|intros; apply enc_or_Done; auto].
    cbn [fmap list_fmap]. destruct (emits _ _ _) as [o l]. eexists _, _; split; [done|].
    rewrite (ea_phase _ _ _ _ He), Hph.
    split; [by apply (enc_after_rep e _ _ _ _ _ _ _ Hrep)|]. by destruct He.
  - outcome_inv Hx.
    destruct (enc_or_Done _ _ _ acc Hwf (Hacc ltac:(lia)) Hx0) as [H1 Hp1].
    pose proof (fix_Done x0 false (xl (Z.lor acc (Z.shiftr c 6))) x1 (ea_wf _ _ _ _ H1)
      (ex_intro _ _ (conj Hp1 eq_refl)) Hx1) as H2.
    destruct (enc_put_Done _ _ _ (ea_wf _ _ _ _ H2) Hx2) as [H3 Hp3].
    pose proof (fix_Done x2 false (xl (Z.land c 63)) x (ea_wf _ _ _ _ H3)
      (ex_intro _ _ (conj Hp3 eq_refl)) Hx) as H4.
    rewrite (ea_linelen _ _ _ _ H1), (ea_linepos _ _ _ _ H1) in H2.
    pose proof (emits_one _ _ _ (enc_after_nil_l _ _ _ _ _ H1 H2)) as H5.
    pose proof (emits_after e x1 x [xl (Z.lor acc (Z.shiftr c 6))] (xl (Z.land c 63))) as H6.
    cbn [fmap list_fmap app] in *. destruct (emits _ _ [_]) as [o1 l1].
    rewrite (ea_linelen _ _ _ _ H3), (ea_linepos _ _ _ _ H3) in H4.
    specialize (H6 H5 (enc_after_nil_l _ _ _ _ _ H3 H4)).
    destruct (emits _ _ _) as [o l]. eexists _, _; split; [done|].
    rewrite (ea_phase _ _ _ _ H6), Hph.
    split; [by apply (enc_after_rep e _ _ _ _ _ _ _ Hrep)|]. by destruct H6.
Qed.

Lemma encode_loop_Done from : ∀ e a out e',
  enc_rep e a out → encode_loop e from = Done e' →
  ∃ o a', m_run (enc_machine linelen) a from = (true, o, a') ∧ enc_rep e' a' (out ++ o) ∧
    zc_buf_len (e_super e') = zc_buf_len (e_super e) ∧
    zc_buf_used (e_super e') = zc_buf_used (e_super e) + zlen o.
Proof.
  induction from as [|c from IH]; cbn [encode_loop m_run]; intros e a out e' Hrep Hl.
  - injection Hl as <-. exists [], a. rewrite app_nil_r. cbn. split_and!; done || lia.
  - outcome_inv Hl. destruct (encode_step_Done _ _ _ _ _ Hrep Hx) as (o & a1 & Hs & Hrep1 & ? & ?).
    destruct (IH _ _ _ _ Hrep1 Hl) as (o2 & a2 & Hrun & Hrep2 & ? & ?).
    change (m_step (enc_machine linelen) a c) with (enc_step linelen a c).
    rewrite Hs, Hrun. exists (o ++ o2), a2. rewrite <- app_assoc in Hrep2.
    rewrite length_app. split_and!; done || lia.
Qed.

Lemma enc_rep_grow e a out r s :
  enc_rep e a out → z_code_grow (e_super e) r = Done s →
  enc_rep (e_with_super s e) a out ∧ zc_buf_used s = zc_buf_used (e_super e) ∧
  zc_buf_len (e_super e) ≤ zc_buf_len s ∧ r ≤ zc_buf_len s.
Proof.
  intros (Hwf & Hres & Hll & Hph & Hr & Hlp & Hacc) Hg.
  destruct (z_code_grow_Done _ _ _ Hwf Hg) as (Hwf' & ? & ? & _ & Hu & ?).
  destruct (z_code_grow_keeps _ _ _ Hwf Hg) as [Hk1 Hk2].
  unfold enc_rep; cbn. split_and!; try lia; try done; [congruence|].
  intros Hp. specialize (Hacc Hp). rewrite Hu, Hk2; [done|].
  apply lookup_lt_Some in Hacc. destruct Hwf. lia.
Qed.

(** Masking the partial byte and pushing the closing characters. *)
Lemma encode_tail_Done e a out e' :
  enc_rep e a out →
  (if decide (e_phase e = 0) then Done e
   else if decide (e_phase e = 1) then
     e1 ← enc_and 48 e; e2 ← z_code_base64_encode_fix e1 false;
     e3 ← z_code_base64_encode_fix e2 true; z_code_base64_encode_fix e3 true
   else if decide (e_phase e = 2) then
     e1 ← enc_and 60 e; e2 ← z_code_base64_encode_fix e1 false;
     z_code_base64_encode_fix e2 true
   else Done e) = Done e' →
  let '(o, lp) := emits (e_linelen e) (e_linepos e) (enc_tail (es_phase a) (es_acc a)) in
  enc_after e e' o lp.
Proof.
  intros (Hwf & Hres & Hll & Hph & Hr & Hlp & Hacc) Hs. rewrite Hph in Hs. unfold enc_tail.
  assert (Hfirst : ∀ m e1 e2, es_phase a ≠ 0 → enc_and m e = Done e1 →
            z_code_base64_encode_fix e1 false = Done e2 →
            let '(o, lp) := emits (e_linelen e) (e_linepos e) [xl (Z.land (es_acc a) m)] in
            enc_after e e2 o lp).
  { intros m e1 e2 Hne H1 H2. destruct (enc_and_Done _ _ _ _ Hwf (Hacc Hne) H1) as [Ha Hp].
    apply emits_one. apply (enc_after_nil_l _ _ _ _ _ Ha).
    rewrite <- (ea_linelen _ _ _ _ Ha), <- (ea_linepos _ _ _ _ Ha).
    apply (fix_Done e1 false); [apply (ea_wf _ _ _ _ Ha)|eauto|done]. }
  assert (Hnext : ∀ cs e2 e3, (let '(o, lp) := emits (e_linelen e) (e_linepos e) cs in enc_after e e2 o lp) →
            z_code_base64_encode_fix e2 true = Done e3 →
            let '(o, lp) := emits (e_linelen e) (e_linepos e) (cs ++ [chr "="]) in enc_after e e3 o lp).
  { intros cs e2 e3 H1 H2. pose proof (emits_after e e2 e3 cs (chr "=")) as H3.
    destruct (emits _ _ cs) as [o1 l1]. apply H3; [done|].
    apply (fix_Done e2 true); [apply (ea_wf _ _ _ _ H1)|done|done]. }
  assert (es_phase a = 0 ∨ es_phase a = 1 ∨ es_phase a = 2) as [E|[E|E]] by lia;
    rewrite !E in *; decide_lia; decide_lia in Hs.
  - injection Hs as <-. cbn. split; cbn; rewrite ?app_nil_r; done || lia.
  - outcome_inv Hs. apply (Hnext [_; _] x1 e'); [|done]. apply (Hnext [_] x0 x1); [|done].
    by apply (Hfirst _ x).
  - outcome_inv Hs. apply (Hnext [_] x0 e'); [|done]. by apply (Hfirst _ x).
Qed.

Lemma enc_transform_law e a out bs ok e' :
  enc_rep e a out → bytes bs → z_code_transform e bs = Done (ok, e') →
  ∃ o a', m_run (enc_machine linelen) a bs = (ok, o, a') ∧ enc_rep e' a' (out ++ o).
Proof.
  revert e a out bs ok e'.
  intros e a out bs ok e' Hrep Hbs Ht. unfold z_code_transform, code_transform in Ht.
  cbn [encode_methods] in Ht. unfold z_code_base64_encode_transform in Ht. outcome_inv Ht.
  injection Ht as <- <-. destruct (enc_rep_grow _ _ _ _ _ Hrep Hx) as (Hrep1 & _).
  destruct (encode_loop_Done _ _ _ _ _ Hrep1 Hx0) as (o & a' & ? & ? & _). eauto.
Qed.

Lemma enc_finish_law e a out ok e' :
  enc_rep e a out → z_code_finish e = Done (ok, e') →
  ok = (m_end (enc_machine linelen) a).1 ∧
  enc_rep e' (m_init (enc_machine linelen)) (out ++ (m_end (enc_machine linelen) a).2).
Proof.
  revert e a out ok e'.
  intros e a out ok e' Hrep Hf. unfold z_code_finish in Hf.
  cbn [encode_methods code_finish] in Hf.
  unfold z_code_base64_encode_finish in Hf. outcome_inv Hf. injection Hf as <- <-.
  pose proof (encode_tail_Done _ _ _ _ Hrep Hx) as Ha.
  destruct Hrep as (Hwf & Hres & Hll & Hph & Hr & Hlp & Hacc).
  cbn [m_end enc_machine]. unfold enc_end. rewrite Hll, Hlp in Ha.
  destruct (emits linelen _ _) as [o lp]. split; [done|]. cbn [snd].
  rewrite (ea_linepos _ _ _ _ Ha) in Hx0. case_decide; outcome_inv Hx0.
  + pose proof (enc_after_push _ _ _ (ea_wf _ _ _ _ Ha) Hx1) as Hb.
    pose proof (enc_after_push _ _ _ (ea_wf _ _ _ _ Hb) Hx0) as Hd.
    pose proof (enc_after_trans _ _ _ _ _ _ _ Ha (enc_after_trans _ _ _ _ _ _ _ Hb Hd)) as [].
    unfold enc_rep; cbn in *. split_and!; try done; try lia; congruence.
  + injection Hx0 as <-. destruct Ha. rewrite app_nil_r. unfold enc_rep; cbn in *.
    split_and!; try done; try lia; congruence.
Qed.

Lemma enc_read_law e a out n to e' :
  enc_rep e a out → 0 ≤ n → code_read e n = Done (to, e') →
  to = take (Z.to_nat n) out ∧ enc_rep e' a (drop (Z.to_nat n) out).
Proof.
  revert e a out n to e'.
  intros e a out n to e' (Hwf & Hres & Hll & Hph & Hr & Hlp & Hacc) Hn Hread.
  unfold code_read in Hread. outcome_inv Hread. destruct x as [t s]. injection Hread as <- <-.
  destruct (z_code_get_result_Done _ _ _ _ Hwf Hn Hx) as (-> & ? & ? & ? & ? & Hp).
  cbn in *. rewrite Hres in *. split; [done|]. unfold enc_rep; cbn. rewrite Hp.
  split_and!; done || lia.
Qed.

#[export] Instance encode_laws : CodeLaws ZCodeBase64Encode (enc_machine linelen) := {|
  code_rep := (enc_rep : _ → m_state (enc_machine linelen) → _);
  transform_law := enc_transform_law;
  finish_law := enc_finish_law;
  read_law := enc_read_law
|}.
End encoder_laws.

(** ** The encoder stays inside its buffer

    This holds without line breaks, when the size of the buffer is a multiple
    of four and the results are not read in between. *)

Section encoder_progress.
Context `{FreshMem}.

(** The phase, the results and the size of the buffer keep step. *)
Definition enc_aligned (e : ZCodeBase64Encode) : Prop :=
  (4 | zc_buf_len (e_super e)) ∧ (4 | zc_buf_used (e_super e) - e_phase e).

Lemma enc_put_ok v e :
  zc_wf (e_super e) → zc_buf_used (e_super e) < zc_buf_len (e_super e) →
  ∃ e', enc_put v e = Done e'.
Proof.
  intros Hwf Hlt. unfold enc_put. destruct (zc_put_ok v _ Hwf Hlt) as [s ->].
  rewrite Done_bind. eauto.
Qed.

Lemma fix_ok e closure :
  zc_wf (e_super e) → e_linelen e = 0 → zc_buf_used (e_super e) < zc_buf_len (e_super e) →
  ∃ c e', z_code_base64_encode_fix e closure = Done e' ∧
    enc_after e e' [c] (e_linepos e).
Proof.
  intros Hwf Hll Hlt.
  destruct (lookup_lt_is_Some_2 (zc_buf (e_super e)) (Z.to_nat (zc_buf_used (e_super e))))
    as [p Hp]; [destruct Hwf; lia|].
  set (c := if closure then chr "=" else xl p).
  assert (Hf : ∃ e', z_code_base64_encode_fix e closure = Done e').
  { unfold z_code_base64_encode_fix.
    destruct (zc_push_ok c _ Hwf Hlt) as [s Hs].
    assert (Hc : (if closure then Done (chr "=") else
                    v ← zc_partial (e_super e);
                    Done (base64_encode_xlat !!! Z.to_nat (Z.land v 63))) = Done c)
      by (subst c; destruct closure; [done|];
          by rewrite (proj2 (zc_partial_Done _ p Hwf) Hp)).
    rewrite Hc, Done_bind, Hs, Done_bind.
    cbn [e_linelen e_with_super]. rewrite decide_False by lia. eauto. }
  destruct Hf as [e' Hf]. exists c, e'. split; [done|].
  assert (Hc : if closure then c = chr "=" else ∃ v, enc_partial e = Some v ∧ c = xl v)
    by (destruct closure; [done|by exists p]).
  pose proof (fix_Done _ _ _ _ Hwf Hc Hf) as Ha. unfold emit in Ha.
  by rewrite decide_False in Ha by lia.
Qed.

Lemma put_fix_put_ok e m v w :
  e_linelen e = 0 → zc_buf_used (e_super e) + 1 < zc_buf_len (e_super e) →
  (∃ e1, m = Done e1 ∧ enc_after e e1 [] (e_linepos e) ∧ enc_partial e1 = Some v) →
  ∃ e', (e1 ← m; e2 ← z_code_base64_encode_fix e1 false; enc_put w e2) = Done e'.
Proof.
  intros Hll Hlt (e1 & -> & [Hw1 _ Hll1 _ _ Hl1 Hu1] & _). rewrite Done_bind.
  cbn [length] in Hu1.
  destruct (fix_ok e1 false) as (c & e2 & -> & [Hw2 _ _ _ _ Hl2 Hu2]); [done|lia..|].
  rewrite Done_bind. cbn [length] in Hu2. apply enc_put_ok; [done|lia].
Qed.

Lemma encode_step_ok e a out c :
  enc_rep 0 e a out → zc_buf_used (e_super e) + 1 < zc_buf_len (e_super e) →
  ∃ e', encode_step e c = Done e'.
Proof.
  intros (Hwf & Hres & Hll & Hph & Hr & Hlp & Hacc) Hlt. unfold encode_step. rewrite Hph.
  assert (Hput : ∀ v, ∃ e1, enc_put v e = Done e1 ∧ enc_after e e1 [] (e_linepos e) ∧
                            enc_partial e1 = Some v).
  { intros v. destruct (enc_put_ok v e Hwf) as [e1 H1]; [lia|].
    exists e1. split; [done|]. by apply enc_put_Done. }
  assert (Hor : ∀ v, es_phase a ≠ 0 →
            ∃ e1, enc_or v e = Done e1 ∧ enc_after e e1 [] (e_linepos e) ∧
                  enc_partial e1 = Some (Z.lor (es_acc a) v)).
  { intros v Hne. unfold enc_or. rewrite (proj2 (zc_partial_Done _ _ Hwf) (Hacc Hne)), Done_bind.
    apply Hput. }
  assert (es_phase a = 0 ∨ es_phase a = 1 ∨ es_phase a = 2) as [E|[E|E]] by lia;
    rewrite !E in *; decide_lia.
  - destruct (put_fix_put_ok e (enc_put (Z.shiftr c 2) e) (Z.shiftr c 2) (Z.shiftl (Z.land c 3) 4))
      as [e' ->]; auto. rewrite Done_bind. eauto.
  - destruct (put_fix_put_ok e (enc_or (Z.shiftr c 4) e) (Z.lor (es_acc a) (Z.shiftr c 4))
                (Z.shiftl (Z.land c 15) 2)) as [e' ->]; auto. rewrite Done_bind. eauto.
  - destruct (Hor (Z.shiftr c 6)) as (e1 & -> & [Hw1 _ Hll1 _ _ Hl1 Hu1] & _); [done|].
    rewrite Done_bind. cbn [length] in Hu1.
    destruct (fix_ok e1 false) as (x & e2 & -> & [Hw2 _ Hll2 _ _ Hl2 Hu2]); [done|lia..|].
    rewrite Done_bind. cbn [length] in Hu2.
    destruct (enc_put_ok (Z.land c 63) e2) as [e3 H3]; [done|lia|]. rewrite H3, Done_bind.
    apply enc_put_Done in H3 as [[Hw3 _ Hll3 _ _ Hl3 Hu3] _]; [|done]. cbn [length] in Hu3.
    destruct (fix_ok e3 false) as (y & e4 & -> & _); [done|lia..|]. rewrite Done_bind. eauto.
Qed.

Lemma encode_loop_ok from : ∀ e a out,
  enc_rep 0 e a out → enc_aligned e →
  zc_buf_used (e_super e) - e_phase e + (4 * (e_phase e + zlen from) + 2) / 3
    ≤ zc_buf_len (e_super e) →
  ∃ e', encode_loop e from = Done e' ∧ enc_aligned e'.
Proof.
  induction from as [|c from IH]; cbn [encode_loop length]; intros e a out Hrep Hal Hlen; [eauto|].
  pose proof Hrep as (_ & _ & _ & Hph & Hr & _ & _).
  destruct (encode_step_ok e a out c Hrep) as [e1 H1];
    [Z.to_euclidean_division_equations; lia|].
  rewrite H1, Done_bind.
  destruct (encode_step_Done _ _ _ _ _ _ Hrep H1) as (o & a1 & Hs & Hrep1 & Hl1 & Hu1).
  assert (Hp1 : e_phase e1 = if decide (e_phase e = 2) then 0 else e_phase e + 1).
  { destruct Hrep1 as (_ & _ & _ & -> & _). revert Hs. unfold enc_step.
    destruct (enc_bits _ _ _), (emits _ _ _). intros [= _ <-]. cbn [es_phase]. rewrite Hph.
    assert (es_phase a = 0 ∨ es_phase a = 1 ∨ es_phase a = 2) as [E|[E|E]] by lia; by rewrite E. }
  assert (Ho : zlen o = if decide (e_phase e = 2) then 2 else 1).
  { revert Hs. unfold enc_step, enc_bits. rewrite Hph.
    assert (es_phase a = 0 ∨ es_phase a = 1 ∨ es_phase a = 2) as [E|[E|E]] by lia;
      rewrite E; decide_lia; cbn; by intros [= <- _]. }
  destruct Hal as [Hal1 Hal2].
  apply (IH _ _ _ Hrep1).
  - split; [by rewrite Hl1|]. rewrite Hu1, Hp1, Ho. case_decide;
      destruct Hal2 as [k Hk]; [exists (k + 1)|exists k]; lia.
  - rewrite Hl1, Hu1, Hp1, Ho. case_decide; Z.to_euclidean_division_equations; lia.
Qed.

Lemma z_code_calculate_growing_0 used n :
  0 ≤ used → 0 ≤ n → used + 2 * n ≤ 2 ^ 30 →
  z_code_calculate_growing used n 0 = used + (4 * n + 2) / 3.
Proof.
  intros. unfold z_code_calculate_growing. rewrite decide_False by lia.
  rewrite (u64_small (n * 4 + 2)) by lia.
  rewrite u64_small by (Z.to_euclidean_division_equations; lia).
  f_equal. f_equal. lia.
Qed.

Lemma encode_transform_ok e a out from :
  enc_rep 0 e a out → enc_aligned e → zc_buf_used (e_super e) + 2 * zlen from ≤ 2 ^ 30 - 8 →
  ∃ e', z_code_base64_encode_transform e from = Done (true, e') ∧ enc_aligned e'.
Proof.
  intros Hrep [Hal1 Hal2] Hsz. pose proof Hrep as (Hwf & _ & Hll & Hph & Hr & _ & Hacc).
  destruct Hwf as [Hl Hlr Hu]. unfold z_code_base64_encode_transform.
  rewrite Hll. change (u64 0) with 0. rewrite z_code_calculate_growing_0 by lia.
  rewrite s32_small by (Z.to_euclidean_division_equations; lia).
  set (r := zc_buf_used (e_super e) + (4 * zlen from + 2) / 3).
  assert (r ≤ 2 ^ 30) by (unfold r; Z.to_euclidean_division_equations; lia).
  destruct (z_code_grow_returns (e_super e) r) as [s Hg]; [by destruct Hrep|done|].
  destruct (enc_rep_grow _ _ _ _ _ _ Hrep Hg) as (Hrep1 & Hus & Hle & Hlen).
  pose proof (z_code_grow_divide 4 _ _ _ Hlr Hal1 Hg) as Hal1'.
  rewrite Hg, Done_bind.
  destruct (encode_loop_ok from _ _ _ Hrep1) as (e' & He & Hal'); cbn.
  - split; [done|]. cbn. by rewrite Hus.
  - rewrite Hus, Hph. rewrite Hph in Hal2. unfold r in Hlen. clear Hg Hrep Hrep1.
    assert (es_phase a = 0 ∨ 0 < es_phase a ∧ zc_buf_used (e_super e) + 1 ≤ zc_buf_len s) as [E|[E1 E2]].
    { destruct (decide (es_phase a = 0)); [by left|right]. split; [lia|].
      specialize (Hacc ltac:(done)). apply lookup_lt_Some in Hacc. lia. }
    + rewrite E in *. Z.to_euclidean_division_equations; lia.
    + destruct Hal1' as [k1 Hk1], Hal2 as [k2 Hk2]. rewrite Hk1 in *.
      replace (zc_buf_used (e_super e)) with (k2 * 4 + es_phase a) in * by lia.
      assert (es_phase a = 1 ∨ es_phase a = 2) as [E|E] by lia; rewrite E in *;
        Z.to_euclidean_division_equations; lia.
  - rewrite He, Done_bind. eauto.
Qed.

Lemma encode_finish_ok e a out :
  enc_rep 0 e a out → enc_aligned e → es_lp a = 0 →
  ∃ e', z_code_base64_encode_finish e = Done (true, e').
Proof.
  intros (Hwf & Hres & Hll & Hph & Hr & Hlp & Hacc) [[k1 Hk1] [k2 Hk2]] Hlp0.
  unfold z_code_base64_encode_finish. rewrite Hph in *.
  assert (Htail : ∀ e2 lp, enc_after e e2 lp (e_linepos e) →
    ∃ e', (s ← (if decide (e_linepos e2 ≠ 0) then s ← zc_push 13 (e_super e2); zc_push 10 s
                else Done (e_super e2)); Done (true, mkEnc s 0 0 (e_linelen e2))) = Done (true, e')).
  { intros e2 lp Ha. rewrite (ea_linepos _ _ _ _ Ha), Hlp, Hlp0, decide_False, Done_bind by lia.
    eauto. }
  assert (Hand : ∀ m, es_phase a ≠ 0 → zc_buf_used (e_super e) < zc_buf_len (e_super e) ∧
            ∃ e1, enc_and m e = Done e1 ∧ enc_after e e1 [] (e_linepos e)).
  { intros m Hne. specialize (Hacc Hne). pose proof (lookup_lt_Some _ _ _ Hacc).
    assert (zc_buf_used (e_super e) < zc_buf_len (e_super e)) by (destruct Hwf; lia).
    split; [done|]. unfold enc_and. rewrite (proj2 (zc_partial_Done _ _ Hwf) Hacc), Done_bind.
    destruct (enc_put_ok (Z.land (es_acc a) m) e Hwf) as [e1 He1]; [done|].
    exists e1. split; [done|]. by apply enc_put_Done in He1 as [? _]. }
  assert (Hfix : ∀ e1 o cl, enc_after e e1 o (e_linepos e) →
            zc_buf_used (e_super e) + zlen o < zc_buf_len (e_super e) →
            ∃ c e2, z_code_base64_encode_fix e1 cl = Done e2 ∧ enc_after e e2 (o ++ [c]) (e_linepos e)).
  { intros e1 o cl Ha Hlt. pose proof Ha as [Hw1 _ Hll1 _ Hlp1 Hl1 Hu1].
    destruct (fix_ok e1 cl) as (c & e2 & H2 & Ha2); [done|lia..|].
    exists c, e2. split; [done|]. rewrite Hlp1 in Ha2. eapply enc_after_trans; done. }
  assert (es_phase a = 0 ∨ es_phase a = 1 ∨ es_phase a = 2) as [E|[E|E]] by lia;
    rewrite !E in *; decide_lia.
  - rewrite Done_bind. apply (Htail _ []). split; rewrite ?app_nil_r; cbn; done || lia.
  - destruct (Hand 48) as (Hlt & e1 & -> & Hb1); [done|]. rewrite Done_bind.
    destruct (Hfix _ _ false Hb1) as (c1 & e2 & -> & Hb2); [cbn; lia|]. rewrite Done_bind.
    destruct (Hfix _ _ true Hb2) as (c2 & e3 & -> & Hb3); [cbn; lia|]. rewrite Done_bind.
    destruct (Hfix _ _ true Hb3) as (c3 & e4 & -> & Hb4); [cbn; lia|]. rewrite Done_bind.
    by eapply Htail.
  - destruct (Hand 60) as (Hlt & e1 & -> & Hb1); [done|]. rewrite Done_bind.
    destruct (Hfix _ _ false Hb1) as (c1 & e2 & -> & Hb2); [cbn; lia|]. rewrite Done_bind.
    destruct (Hfix _ _ true Hb2) as (c2 & e3 & -> & Hb3); [cbn; lia|]. rewrite Done_bind.
    by eapply Htail.
Qed.
End encoder_progress.
