(* ===== verification/Base64Spec.v ===== *)
(** * What base64 coding computes (src/src/code_base64.c)

    A reference encoder on lists, line wrapping, the equality of the machines of
    [Base64] with them, the round trip, and the theorems about the C functions
    that follow. *)

From S2P Require Import Prelude Code Base64.
Open Scope Z_scope.

(** Three bytes make four characters; the last group is padded. *)
Fixpoint b64_encode (bs : list Z) : list Z :=
  match bs with
  | [] => []
  | [a] => [xl (Z.shiftr a 2); xl (Z.shiftl (Z.land a 3) 4); chr "="; chr "="]
  | [a; b] => [xl (Z.shiftr a 2); xl (Z.lor (Z.shiftl (Z.land a 3) 4) (Z.shiftr b 4));
               xl (Z.shiftl (Z.land b 15) 2); chr "="]
  | a :: b :: c :: bs =>
      [xl (Z.shiftr a 2); xl (Z.lor (Z.shiftl (Z.land a 3) 4) (Z.shiftr b 4));
       xl (Z.lor (Z.shiftl (Z.land b 15) 2) (Z.shiftr c 6)); xl (Z.land c 63)]
      ++ b64_encode bs
  end.

(** Lines: characters pass through [emit]; an unfinished line is closed. *)
Definition wrap_from (linelen lp : Z) (cs : list Z) : list Z :=
  let '(o, lp) := emits linelen lp cs in o ++ (if decide (lp ≠ 0) then [13; 10] else []).

Definition wrap (linelen : Z) (cs : list Z) : list Z := wrap_from linelen 0 cs.

(** Without a line length there are no lines, and nothing is added at the end. *)
Lemma wrap_none cs : wrap 0 cs = cs.
Proof.
  unfold wrap, wrap_from. assert (emits 0 0 cs = (cs, 0)) as ->; [|by rewrite app_nil_r].
  induction cs as [|c cs IH]; [done|]. cbn [emits]. unfold emit. rewrite decide_False by (intros H; by apply H).
  by rewrite IH.
Qed.

(** Induction by groups of three. *)
Lemma list_ind3 (P : list Z → Prop) :
  P [] → (∀ a, P [a]) → (∀ a b, P [a; b]) →
  (∀ a b c l, P l → P (a :: b :: c :: l)) → ∀ l, P l.
Proof.
  intros H0 H1 H2 H3. fix IH 1. intros [|a [|b [|c l]]]; [done|apply H1|apply H2|].
  apply H3, IH.
Qed.

Lemma emits_app ll cs1 cs2 lp :
  emits ll lp (cs1 ++ cs2) =
  ((emits ll lp cs1).1 ++ (emits ll (emits ll lp cs1).2 cs2).1,
   (emits ll (emits ll lp cs1).2 cs2).2).
Proof.
  revert lp. induction cs1 as [|c cs1 IH]; intros lp; cbn.
  - by destruct (emits ll lp cs2).
  - destruct (emit ll lp c) as [o1 l1]. rewrite IH.
    destruct (emits ll l1 cs1) as [o2 l2]. cbn. by rewrite app_assoc.
Qed.

Lemma wrap_from_app ll lp cs1 cs2 :
  wrap_from ll lp (cs1 ++ cs2) =
  (emits ll lp cs1).1 ++ wrap_from ll (emits ll lp cs1).2 cs2.
Proof.
  unfold wrap_from. rewrite emits_app. by destruct (emits ll (emits ll lp cs1).2 cs2) as [o l]; cbn; rewrite app_assoc.
Qed.

(** Masking the leftover bits changes nothing. *)
Lemma enc_mask_1 a : is_byte a → Z.land (Z.shiftl (Z.land a 3) 4) 48 = Z.shiftl (Z.land a 3) 4.
Proof.
  intros Ha. apply Z.eqb_eq. revert a Ha. apply (all_bytes_1 (λ a,
    Z.land (Z.shiftl (Z.land a 3) 4) 48 =? Z.shiftl (Z.land a 3) 4)). by vm_compute.
Qed.

Lemma enc_mask_2 a : is_byte a → Z.land (Z.shiftl (Z.land a 15) 2) 60 = Z.shiftl (Z.land a 15) 2.
Proof.
  intros Ha. apply Z.eqb_eq. revert a Ha. apply (all_bytes_1 (λ a,
    Z.land (Z.shiftl (Z.land a 15) 2) 60 =? Z.shiftl (Z.land a 15) 2)). by vm_compute.
Qed.

(** The characters that the machine produces, before wrapping. *)
Fixpoint enc_raw (phase acc : Z) (bs : list Z) : list Z :=
  match bs with
  | [] => enc_tail phase acc
  | c :: bs =>
      (xl <$> (enc_bits phase acc c).1) ++
      enc_raw ((phase + 1) `rem` 3) (enc_bits phase acc c).2 bs
  end.

Lemma enc_raw_b64 bs : bytes bs → ∀ acc, enc_raw 0 acc bs = b64_encode bs.
Proof.
  induction bs as [|a|a b|a b c bs IH] using list_ind3; intros Hbs acc; [done|..].
  - rewrite Forall_singleton in Hbs.
    change (enc_raw 0 acc [a]) with
      [xl (Z.shiftr a 2); xl (Z.land (Z.shiftl (Z.land a 3) 4) 48); chr "="; chr "="].
    by rewrite enc_mask_1.
  - rewrite Forall_cons, Forall_singleton in Hbs; destruct Hbs as [? Hb].
    change (enc_raw 0 acc [a; b]) with
      [xl (Z.shiftr a 2); xl (Z.lor (Z.shiftl (Z.land a 3) 4) (Z.shiftr b 4));
       xl (Z.land (Z.shiftl (Z.land b 15) 2) 60); chr "="].
    by rewrite enc_mask_2.
  - apply Forall_cons in Hbs as [_ Hbs]. apply Forall_cons in Hbs as [_ Hbs].
    apply Forall_cons in Hbs as [_ Hbs]. cbn [b64_encode]. rewrite <- (IH Hbs 0). reflexivity.
Qed.

(** The machine computes the wrapped characters. *)
Lemma enc_machine_raw ll bs : ∀ st,
  let '(ok, o, a) := m_run (enc_machine ll) st bs in
  ok = true ∧ o ++ (enc_end ll a).2 = wrap_from ll (es_lp st) (enc_raw (es_phase st) (es_acc st) bs).
Proof.
  induction bs as [|c bs IH]; intros st.
  - cbn. unfold enc_end, wrap_from. by destruct (emits _ _ _).
  - cbn [m_run enc_raw]. change (m_step (enc_machine ll) st c) with (enc_step ll st c).
    unfold enc_step. destruct (enc_bits _ _ _) as [vs acc]. cbn [fst snd].
    rewrite wrap_from_app. destruct (emits ll _ _) as [o l]. cbn [fst snd].
    specialize (IH (mkES ((es_phase st + 1) `rem` 3) acc l)).
    destruct (m_run _ _ bs) as [[ok o2] a]. destruct IH as [-> IH]. split; [done|].
    by rewrite <- app_assoc, IH.
Qed.

Lemma enc_machine_all ll bs :
  bytes bs → m_all (enc_machine ll) bs = (true, wrap ll (b64_encode bs)).
Proof.
  intros Hbs. unfold m_all. pose proof (enc_machine_raw ll bs (mkES 0 0 0)) as H.
  cbn [m_init enc_machine]. destruct (m_run _ _ bs) as [[ok o] a]. destruct H as [-> H].
  cbn [m_end enc_machine]. rewrite H. cbn [es_lp es_phase es_acc].
  rewrite enc_raw_b64 by done. unfold enc_end. by destruct (emits _ _ _).
Qed.

Lemma emits_0 lp cs : emits 0 lp cs = (cs, lp).
Proof. induction cs as [|c cs IH]; [done|]. cbn [emits]. change (emit 0 lp c) with ([c], lp). cbv beta iota. by rewrite IH. Qed.

Lemma wrap_0 cs : wrap 0 cs = cs.
Proof. unfold wrap, wrap_from. rewrite emits_0. cbn. by rewrite app_nil_r. Qed.

(** Without line breaks the line position stays 0. *)
Lemma enc_run_lp0 bs : ∀ st,
  es_lp st = 0 → es_lp (m_run (enc_machine 0) st bs).2 = 0.
Proof.
  induction bs as [|c bs IH]; intros st Hlp; [done|].
  cbn [m_run]. change (m_step (enc_machine 0) st c) with (enc_step 0 st c).
  unfold enc_step. destruct (enc_bits _ _ _) as [vs acc]. rewrite emits_0.
  specialize (IH (mkES ((es_phase st + 1) `rem` 3) acc (es_lp st)) Hlp).
  by destruct (m_run _ _ bs) as [[ok o2] a].
Qed.

(** A byte makes at most two characters. *)
Lemma enc_run_length bs : ∀ st, zlen (m_run (enc_machine 0) st bs).1.2 ≤ 2 * zlen bs.
Proof.
  induction bs as [|c bs IH]; intros st; [done|].
  cbn [m_run]. change (m_step (enc_machine 0) st c) with (enc_step 0 st c).
  unfold enc_step. destruct (enc_bits (es_phase st) (es_acc st) c) as [vs acc] eqn:Eb.
  rewrite emits_0. specialize (IH (mkES ((es_phase st + 1) `rem` 3) acc (es_lp st))).
  destruct (m_run _ _ bs) as [[ok o2] a]. cbn [fst snd] in *.
  rewrite length_app, length_fmap. cbn [length].
  assert (zlen vs ≤ 2) by (revert Eb; unfold enc_bits; repeat case_decide; intros [= <- _]; done).
  lia.
Qed.

(** The lines: [linelen + 1] characters and CRLF, while there are more. *)
Lemma emits_line ll l : ∀ lp, 0 ≤ lp → 0 < ll → l ≠ [] → lp + zlen l ≤ ll + 1 →
  emits ll lp l =
  if decide (lp + zlen l = ll + 1) then (l ++ [13; 10], 0) else (l, lp + zlen l).
Proof.
  induction l as [|c l IH]; [done|]. intros lp H0 Hll _ Hle. cbn [emits length] in *.
  unfold emit. rewrite decide_True by lia. destruct l as [|d l].
  - cbn in *. repeat case_decide; try lia; done.
  - rewrite (decide_False (P := ll ≤ lp)) by (cbn in Hle; lia).
    rewrite IH by (done || lia). repeat case_decide; cbn in *; try lia; [done|]. f_equal. lia.
Qed.

Lemma wrap_line ll l cs : 0 < ll → zlen l = ll + 1 → wrap ll (l ++ cs) = l ++ [13; 10] ++ wrap ll cs.
Proof.
  intros Hll Hl. unfold wrap. rewrite wrap_from_app.
  rewrite emits_line by (destruct l; cbn in *; (done || lia)).
  rewrite decide_True by lia. cbn. by rewrite <- app_assoc.
Qed.

Lemma wrap_last ll l : 0 < ll → 0 < zlen l ≤ ll → wrap ll l = l ++ [13; 10].
Proof.
  intros Hll Hl. unfold wrap, wrap_from.
  rewrite emits_line by (destruct l; cbn in *; (done || lia)).
  rewrite decide_False by lia. cbn. by rewrite decide_True by lia.
Qed.

(** ** Decoding inverts encoding *)

Lemma classify_xl v : 0 ≤ v < 64 → classify (xl v) = Value v.
Proof.
  intros Hv.
  assert (Hc : ∀ w, is_byte w → (match classify (xl w) with Value u => (u =? w) || (64 <=? w) | _ => 64 <=? w end) = true).
  { apply all_bytes_1. by vm_compute. }
  specialize (Hc v ltac:(unfold is_byte; lia)). destruct (classify (xl v)); try lia.
  f_equal. lia.
Qed.

Lemma dec_step_value t ph acc v :
  0 ≤ v < 64 → ph ≠ 4 →
  dec_step t (mkDS ph acc) (xl v) =
  Some ((dec_bits ph acc v).1, mkDS ((ph + 1) `rem` 4) (dec_bits ph acc v).2).
Proof.
  intros Hv Hp. unfold dec_step. rewrite classify_xl by done. cbn [ds_phase ds_acc].
  rewrite bool_decide_false, decide_False by done. cbn [andb]. by destruct (dec_bits ph acc v).
Qed.

(** The high bits of a byte. *)
Lemma byte_shiftr b : is_byte b → 0 ≤ Z.shiftr b 4 < 16 ∧ 0 ≤ Z.shiftr b 6 < 4.
Proof.
  intros Hb. rewrite !Z.shiftr_div_pow2 by lia. unfold is_byte in Hb.
  split; Z.to_euclidean_division_equations; lia.
Qed.

(** The four sextets of a group are sextets. *)
Lemma sextet_ranges a b : is_byte a → is_byte b →
  0 ≤ Z.shiftr a 2 < 64 ∧ 0 ≤ Z.land a 63 < 64 ∧ 0 ≤ Z.shiftl (Z.land a 3) 4 < 64 ∧
  0 ≤ Z.shiftl (Z.land a 15) 2 < 64 ∧
  0 ≤ Z.lor (Z.shiftl (Z.land a 3) 4) (Z.shiftr b 4) < 64 ∧
  0 ≤ Z.lor (Z.shiftl (Z.land a 15) 2) (Z.shiftr b 6) < 64.
Proof.
  intros Ha Hb. destruct (byte_shiftr b Hb) as [Hb4 Hb6].
  set (ok v := (0 <=? v) && (v <? 64)).
  assert (H1 : ok (Z.shiftr a 2) && ok (Z.land a 63) && ok (Z.shiftl (Z.land a 3) 4) &&
    ok (Z.shiftl (Z.land a 15) 2) = true).
  { revert a Ha. apply all_bytes_1. by vm_compute. }
  assert (H2 : ok (Z.lor (Z.shiftl (Z.land a 3) 4) (Z.shiftr b 4)) = true).
  { clear H1. revert Ha Hb4. generalize (Z.shiftr b 4) as h. intros h Ha. revert a h Ha.
    apply all_bytes_below. by vm_compute. }
  assert (H3 : ok (Z.lor (Z.shiftl (Z.land a 15) 2) (Z.shiftr b 6)) = true).
  { clear H1 H2. revert Ha Hb6. generalize (Z.shiftr b 6) as h. intros h Ha. revert a h Ha.
    apply all_bytes_below. by vm_compute. }
  unfold ok in *. lia.
Qed.

(** The three bytes come back. *)
Lemma group_byte a : is_byte a →
  u8 (Z.lor (u8 (Z.shiftl (Z.shiftr a 2) 2)) (Z.shiftr (Z.shiftl (Z.land a 3) 4) 4)) = a ∧
  u8 (Z.lor (Z.shiftl (Z.shiftr a 4) 4) (Z.shiftr (Z.shiftl (Z.land a 15) 2) 2)) = a ∧
  u8 (Z.lor (Z.shiftl (Z.shiftr a 6) 6) (Z.land a 63)) = a.
Proof.
  intros Ha. rewrite <- !Z.eqb_eq, <- !andb_true_iff. revert a Ha.
  apply all_bytes_1. by vm_compute.
Qed.

Lemma group_bytes_4 a b : is_byte a → is_byte b →
  u8 (Z.lor (u8 (Z.shiftl (Z.shiftr a 2) 2))
        (Z.shiftr (Z.lor (Z.shiftl (Z.land a 3) 4) (Z.shiftr b 4)) 4)) = a ∧
  u8 (Z.shiftl (Z.lor (Z.shiftl (Z.land a 3) 4) (Z.shiftr b 4)) 4) = Z.shiftl (Z.shiftr b 4) 4.
Proof.
  intros Ha Hb. destruct (byte_shiftr b Hb) as [Hh _].
  rewrite <- !Z.eqb_eq, <- !andb_true_iff.
  revert Ha Hh. generalize (Z.shiftr b 4) as h. intros h Ha. revert a h Ha.
  apply all_bytes_below. by vm_compute.
Qed.

Lemma group_bytes_6 a b : is_byte a → is_byte b →
  u8 (Z.lor (Z.shiftl (Z.shiftr a 4) 4)
        (Z.shiftr (Z.lor (Z.shiftl (Z.land a 15) 2) (Z.shiftr b 6)) 2)) = a ∧
  u8 (Z.shiftl (Z.lor (Z.shiftl (Z.land a 15) 2) (Z.shiftr b 6)) 6) = Z.shiftl (Z.shiftr b 6) 6.
Proof.
  intros Ha Hb. destruct (byte_shiftr b Hb) as [_ Hh].
  rewrite <- !Z.eqb_eq, <- !andb_true_iff.
  revert Ha Hh. generalize (Z.shiftr b 6) as h. intros h Ha. revert a h Ha.
  apply all_bytes_below. by vm_compute.
Qed.

Lemma m_run_cons M st c bs o st' :
  m_step M st c = Some (o, st') →
  m_run M st (c :: bs) = let '(ok, o', a) := m_run M st' bs in (ok, o ++ o', a).
Proof. intros H. cbn. by rewrite H. Qed.

(** The steps of the decoder, phase by phase. *)
Lemma dec_run_0 t acc v bs : 0 ≤ v < 64 →
  m_run (dec_machine t) (mkDS 0 acc) (xl v :: bs) =
  m_run (dec_machine t) (mkDS 1 (u8 (Z.shiftl v 2))) bs.
Proof.
  intros. rewrite (m_run_cons (dec_machine t) _ _ _ [] (mkDS 1 (u8 (Z.shiftl v 2))));
    [by destruct (m_run _ _ bs) as [[? ?] ?]|by apply dec_step_value].
Qed.

Lemma dec_run_1 t acc v bs : 0 ≤ v < 64 →
  m_run (dec_machine t) (mkDS 1 acc) (xl v :: bs) =
  let '(ok, o, a) := m_run (dec_machine t) (mkDS 2 (u8 (Z.shiftl v 4))) bs in
  (ok, u8 (Z.lor acc (Z.shiftr v 4)) :: o, a).
Proof.
  intros. by rewrite (m_run_cons (dec_machine t) _ _ _ [u8 (Z.lor acc (Z.shiftr v 4))]
    (mkDS 2 (u8 (Z.shiftl v 4)))) by by apply dec_step_value.
Qed.

Lemma dec_run_2 t acc v bs : 0 ≤ v < 64 →
  m_run (dec_machine t) (mkDS 2 acc) (xl v :: bs) =
  let '(ok, o, a) := m_run (dec_machine t) (mkDS 3 (u8 (Z.shiftl v 6))) bs in
  (ok, u8 (Z.lor acc (Z.shiftr v 2)) :: o, a).
Proof.
  intros. by rewrite (m_run_cons (dec_machine t) _ _ _ [u8 (Z.lor acc (Z.shiftr v 2))]
    (mkDS 3 (u8 (Z.shiftl v 6)))) by by apply dec_step_value.
Qed.

Lemma dec_run_3 t acc v bs : 0 ≤ v < 64 →
  m_run (dec_machine t) (mkDS 3 acc) (xl v :: bs) =
  let '(ok, o, a) := m_run (dec_machine t) (mkDS 0 0) bs in (ok, u8 (Z.lor acc v) :: o, a).
Proof.
  intros. by rewrite (m_run_cons (dec_machine t) _ _ _ [u8 (Z.lor acc v)] (mkDS 0 0))
    by by apply dec_step_value.
Qed.

Lemma dec_run_close_2 t acc :
  m_run (dec_machine t) (mkDS 2 acc) [chr "="; chr "="] = (true, [], mkDS 0 0).
Proof. reflexivity. Qed.

Lemma dec_run_close_3 t acc :
  m_run (dec_machine t) (mkDS 3 acc) [chr "="] = (true, [], mkDS 0 0).
Proof. reflexivity. Qed.

Lemma dec_run_b64 t bs : bytes bs → ∀ acc,
  ∃ acc', m_run (dec_machine t) (mkDS 0 acc) (b64_encode bs) = (true, bs, mkDS 0 acc').
Proof.
  induction bs as [|a|a b|a b c bs IH] using list_ind3; intros Hbs acc; [by exists acc|..].
  - rewrite Forall_singleton in Hbs.
    destruct (sextet_ranges a a) as (? & ? & ? & _), (group_byte a) as (G & _); [done..|].
    cbn [b64_encode]. exists 0. by rewrite dec_run_0, dec_run_1, dec_run_close_2, G.
  - rewrite Forall_cons, Forall_singleton in Hbs. destruct Hbs as [Ha Hb].
    destruct (sextet_ranges a b) as (? & ? & ? & ? & ? & ?),
      (sextet_ranges b b) as (_ & _ & _ & ? & _); [done..|].
    destruct (group_bytes_4 a b) as (G1 & G2), (group_byte b) as (_ & G3 & _); [done..|].
    cbn [b64_encode]. exists 0.
    by rewrite dec_run_0, dec_run_1, dec_run_2, dec_run_close_3, G1, G2, G3.
  - rewrite !Forall_cons in Hbs. destruct Hbs as (Ha & Hb & Hc & Hbs).
    destruct (sextet_ranges a b) as (? & ? & ? & ? & ? & ?),
      (sextet_ranges b c) as (? & ? & ? & ? & ? & ?),
      (sextet_ranges c c) as (? & ? & ? & ? & ? & ?); [done..|].
    destruct (group_bytes_4 a b) as (G1 & G2), (group_bytes_6 b c) as (G3 & G4),
      (group_byte c) as (_ & _ & G5); [done..|].
    destruct (IH Hbs 0) as [acc' Hrun]. exists acc'. cbn [b64_encode app].
    by rewrite dec_run_0, dec_run_1, dec_run_2, dec_run_3, Hrun, G1, G2, G3, G4, G5.
Qed.

(** Line breaks are skipped. *)
Lemma dec_run_emits t ll cs : ∀ lp st r,
  m_run (dec_machine t) st ((emits ll lp cs).1 ++ r) = m_run (dec_machine t) st (cs ++ r).
Proof.
  induction cs as [|c cs IH]; intros lp st r; [done|]. cbn [emits].
  assert (H13 : ∀ st0 r0, m_run (dec_machine t) st0 (13 :: 10 :: r0) = m_run (dec_machine t) st0 r0).
  { intros st0 r0.
    do 2 rewrite (m_run_cons (dec_machine t) st0 _ _ [] st0) by by destruct st0.
    by destruct (m_run (dec_machine t) st0 r0) as [[? ?] ?]. }
  assert (Hc : ∀ lp', m_run (dec_machine t) st (c :: (emits ll lp' cs).1 ++ r) =
                      m_run (dec_machine t) st (c :: cs ++ r)).
  { intros lp'. cbn [m_run]. destruct (m_step _ st c) as [[o1 st1]|]; [|done]. by rewrite IH. }
  change ((c :: cs) ++ r) with (c :: cs ++ r).
  unfold emit. repeat case_decide; cbn [fst];
    try (rewrite <- (Hc (lp + 1)); by destruct (emits ll (lp + 1) cs)).
  - rewrite <- (Hc 0). destruct (emits ll 0 cs) as [o2 l2]. cbn [fst app m_run].
    destruct (m_step _ st c) as [[o1 st1]|]; [|done]. by rewrite <- H13.
  - rewrite <- (Hc lp). by destruct (emits ll lp cs).
Qed.

Lemma dec_all_wrap t ll bs :
  bytes bs → m_all (dec_machine t) (wrap ll (b64_encode bs)) = (true, bs).
Proof.
  intros Hbs. destruct (dec_run_b64 t bs Hbs 0) as [acc' Hrun].
  assert (Hw : m_run (dec_machine t) (mkDS 0 0) (wrap ll (b64_encode bs)) = (true, bs, mkDS 0 acc')).
  { unfold wrap, wrap_from. destruct (emits ll 0 (b64_encode bs)) as [o lp] eqn:E.
    change o with (o, lp).1. rewrite <- E, dec_run_emits.
    rewrite (m_run_app _ _ _ _ _ _ Hrun).
    assert (Hcl : m_run (dec_machine t) (mkDS 0 acc') (if decide (lp ≠ 0) then [13; 10] else []) =
                  (true, [], mkDS 0 acc')) by by case_decide.
    by rewrite Hcl, app_nil_r. }
  unfold m_all. cbn [m_init dec_machine]. rewrite Hw. cbn. rewrite app_nil_r.
  by destruct t.
Qed.

(** ** The C functions *)

Section functions.
Context `{FreshMem}.

Lemma enc_rep_new bufsize linelen :
  bufsize ≤ INT_MAX → enc_rep linelen (z_code_base64_encode_new bufsize linelen) (mkES 0 0 0) [].
Proof. intros Hb. unfold enc_rep. pose proof (z_code_init_wf bufsize Hb). cbn. split_and!; done. Qed.

Lemma dec_rep_new bufsize t :
  bufsize ≤ INT_MAX → dec_rep t (z_code_base64_decode_new bufsize t) (mkDS 0 0) [].
Proof.
  intros Hb. unfold dec_rep. pose proof (z_code_init_wf bufsize Hb). cbn. split_and!; done || lia.
Qed.

Lemma enc_start bufsize linelen :
  bufsize ≤ INT_MAX →
  code_rep (M := enc_machine linelen) (z_code_base64_encode_new bufsize linelen)
    (m_init (enc_machine linelen)) [].
Proof. apply enc_rep_new. Qed.

Lemma dec_start bufsize t :
  bufsize ≤ INT_MAX →
  code_rep (M := dec_machine t) (z_code_base64_decode_new bufsize t) (m_init (dec_machine t)) [].
Proof. apply dec_rep_new. Qed.

(** *** The decoder in a session *)

Definition fed_size (cs : list command) : Z := zlen (fed cs) + zlen cs.

Lemma dec_session_ok t cs : ∀ d a out,
  dec_rep t d a out → Forall command_ok cs →
  zc_buf_used (d_super d) < zc_buf_len (d_super d) →
  zc_error_counter (d_super d) + zlen cs < INT_MAX →
  zc_buf_used (d_super d) + fed_size cs ≤ 2 ^ 30 - 32 →
  ∃ ok to d' a' out', session d cs = Done (ok, to, d') ∧ dec_rep t d' a' out' ∧
    zc_buf_used (d_super d') < zc_buf_len (d_super d').
Proof.
  induction cs as [|[bs|n] cs IH]; intros d a out Hrep Hcs Hlt He Hsz; cbn [session].
  - eauto 10.
  - unfold fed_size in Hsz. change (fed (Feed bs :: cs)) with (bs ++ fed cs) in Hsz.
    rewrite length_app in Hsz. cbn [length] in *. inversion_clear Hcs as [|? ? Hk Hks].
    destruct (decode_transform_ok t d a out bs Hrep) as (ok & d1 & H1 & Hlt1 & Hu1 & He1); [lia..|].
    assert (Hrep1 : ∃ a1 out1, dec_rep t d1 a1 out1).
    { destruct (dec_transform_law _ _ _ _ _ _ _ Hrep Hk H1) as (o & a1 & _ & Hr).
      exists a1, (out ++ o). exact Hr. }
    destruct Hrep1 as (a1 & out1 & Hrep1).
    destruct (IH d1 a1 out1 Hrep1 Hks) as (ok2 & to & d2 & a2 & out2 & H2 & ? & ?);
      [lia..|unfold fed_size; lia|].
    change (z_code_transform d bs) with (z_code_base64_decode_transform d bs).
    rewrite H1, Done_bind. cbn [snd fst]. rewrite H2, Done_bind. eauto 10.
  - change (fed (Read n :: cs)) with (fed cs) in Hsz. unfold fed_size in Hsz.
    change (fed (Read n :: cs)) with (fed cs) in Hsz. cbn [length] in *.
    inversion_clear Hcs as [|? ? Hk Hks]. pose proof Hrep as (Hwf & _).
    destruct (z_code_get_result_ok (d_super d) n Hwf Hk Hlt) as (s & Hg & Hws & Hrs & Hls & _).
    assert (Hus : zc_buf_used s ≤ zc_buf_used (d_super d)).
    { pose proof (zc_results_length _ Hwf). pose proof (zc_results_length _ Hws) as Hl2.
      rewrite Hrs, length_drop in Hl2. lia. }
    assert (Hread : code_read d n = Done (take (Z.to_nat n) (zc_results (d_super d)), d_with_super s d)).
    { unfold code_read. cbn [code_super decode_methods]. by rewrite Hg. }
    destruct (dec_read_law _ _ _ _ _ _ _ Hrep Hk Hread) as [_ Hrep1].
    assert (He1 : zc_error_counter s = zc_error_counter (d_super d))
      by by destruct (z_code_get_result_Done _ _ _ _ Hwf Hk Hg) as (_ & _ & _ & _ & ? & _).
    destruct (IH (d_with_super s d) a _ Hrep1 Hks) as (ok2 & to & d2 & a2 & out2 & H2 & ? & ?);
      cbn; [lia|lia|unfold fed_size; lia|].
    rewrite Hread, Done_bind. cbn [snd fst]. rewrite H2, Done_bind. eauto 10.
Qed.

Lemma dec_whole_session_ok t bufsize cs n :
  bufsize ≤ INT_MAX → Forall command_ok cs → 0 ≤ n → fed_size cs ≤ 2 ^ 30 - 32 →
  ∃ ok to, whole_session (z_code_base64_decode_new bufsize t) cs n = Done (ok, to).
Proof.
  intros Hb Hcs Hn Hsz. pose proof (dec_rep_new bufsize t Hb) as Hrep.
  destruct (dec_session_ok t cs _ _ _ Hrep Hcs) as (ok & to & d & a & out & Hs & Hrep' & Hlt).
  - cbn. unfold ZCODE_BUFSIZE_DEFAULT. case_decide; lia.
  - unfold fed_size, INT_MAX in *. cbn. lia.
  - cbn. lia.
  - unfold whole_session. rewrite Hs, Done_bind. cbn [snd fst].
    assert (Hf : ∃ ok2 d2, z_code_finish d = Done (ok2, d2) ∧ d_super d2 = d_super d).
    { unfold z_code_finish. cbn [decode_methods code_finish].
      unfold z_code_base64_decode_finish. cbn [d_error_tolerant d_with_phase].
      case_decide; [destruct (d_error_tolerant d)|]; eauto. }
    destruct Hf as (ok2 & d2 & Hf & Hd2). rewrite Hf, Done_bind. cbn [snd fst].
    unfold code_read. cbn [code_super decode_methods]. rewrite Hd2.
    destruct (z_code_get_result_ok (d_super d) n) as (s & Hg & _); [by destruct Hrep'|done..|].
    rewrite Hg, !Done_bind. eauto.
Qed.

(** *** The encoder fed without reads *)

Lemma enc_session_ok chunks : ∀ e a out,
  enc_rep 0 e a out → enc_aligned e → es_lp a = 0 → Forall (Forall is_byte) chunks →
  zc_buf_used (e_super e) + 2 * zlen (concat chunks) ≤ 2 ^ 30 - 8 →
  ∃ e' a' o, session e (Feed <$> chunks) = Done (true, [], e') ∧ enc_rep 0 e' a' (out ++ o) ∧
    m_run (enc_machine 0) a (concat chunks) = (true, o, a') ∧ enc_aligned e' ∧ es_lp a' = 0.
Proof.
  induction chunks as [|bs chunks IH]; intros e a out Hrep Hal Hlp Hbs Hsz; cbn [fmap list_fmap session].
  - exists e, a, []. by rewrite app_nil_r.
  - cbn [concat] in *. rewrite length_app in Hsz. inversion_clear Hbs as [|? ? Hb Hbs'].
    destruct (encode_transform_ok e a out bs Hrep Hal) as (e1 & H1 & Hal1); [lia|].
    destruct (enc_transform_law _ _ _ _ _ _ _ Hrep Hb H1) as (o & a1 & Hrun & Hrep1).
    assert (Hlp1 : es_lp a1 = 0).
    { pose proof (enc_run_lp0 bs a Hlp) as E. by rewrite Hrun in E. }
    assert (Hu1 : zc_buf_used (e_super e1) ≤ zc_buf_used (e_super e) + 2 * zlen bs).
    { pose proof (zc_results_length _ (proj1 Hrep)) as E0.
      pose proof (zc_results_length _ (proj1 Hrep1)) as E1.
      destruct Hrep as (_ & E2 & _), Hrep1 as (_ & E & _).
      rewrite E2 in E0. rewrite E, length_app in E1.
      pose proof (enc_run_length bs a) as Hlen. rewrite Hrun in Hlen. cbn in Hlen. lia. }
    destruct (IH e1 a1 _ Hrep1 Hal1 Hlp1 Hbs') as (e2 & a2 & o2 & H2 & Hrep2 & Hrun2 & ? & ?); [lia|].
    change (z_code_transform e bs) with (z_code_base64_encode_transform e bs).
    exists e2, a2, (o ++ o2). rewrite H1, Done_bind. cbn [snd fst]. rewrite H2, Done_bind.
    rewrite (m_run_app _ _ _ _ _ _ Hrun), Hrun2, app_assoc. by split_and!.
Qed.
End functions.

(** ** Theorems *)

(** With no line length and a buffer size that is a multiple of four (or the
    default), feeding any chunks to the encoder and finishing never leaves the
    buffer, every transform returns TRUE, and the results are the base64
    encoding of the concatenated chunks, however the input was cut. *)
Theorem encode_chunks_correct `{FreshMem} (bufsize : Z) (chunks : list (list Z)) :
  bufsize ≤ INT_MAX → (4 | bufsize) → Forall (Forall is_byte) chunks →
  2 * zlen (concat chunks) ≤ 2 ^ 30 - 8 →
  ∃ e e', session (z_code_base64_encode_new bufsize 0) (Feed <$> chunks) = Done (true, [], e) ∧
    z_code_finish e = Done (true, e') ∧
    zc_results (e_super e') = b64_encode (concat chunks).
Proof.
  intros Hb H4 Hbs Hsz. pose proof (enc_rep_new bufsize 0 Hb) as Hrep.
  destruct (enc_session_ok chunks _ _ _ Hrep) as (e & a & o & Hs & Hrep' & Hrun & Hal & Hlp).
  - split; cbn; [|exists 0; lia]. unfold ZCODE_BUFSIZE_DEFAULT. case_decide; [by exists 64|done].
  - done.
  - done.
  - cbn. lia.
  - destruct (encode_finish_ok e a o Hrep' Hal Hlp) as [e' Hf]. exists e, e'. split_and!; [done..|].
    assert (Hbytes : bytes (concat chunks)) by by apply Forall_concat.
    destruct (enc_finish_law _ _ _ _ _ _ Hrep' Hf) as [_ (_ & -> & _)].
    pose proof (enc_machine_all 0 _ Hbytes) as Hall. unfold m_all in Hall.
    cbn [m_init enc_machine] in Hall. rewrite Hrun, wrap_0 in Hall. by injection Hall.
Qed.

Lemma encode_chunks_correct_witness :
  ∃ e e', session (H := @encode_methods zero_mem) (z_code_base64_encode_new 4 0)
            (Feed <$> [str "he"; []; str "llo"]) = Done (true, [], e) ∧
    z_code_finish (H := @encode_methods zero_mem) e = Done (true, e') ∧
    zc_results (e_super e') = str "aGVsbG8=".
Proof.
  apply (@encode_chunks_correct zero_mem 4 [str "he"; []; str "llo"]).
  - by vm_compute.
  - by exists 1.
  - repeat constructor; by vm_compute.
  - by vm_compute.
Defined.

(** C19: Whatever the line length, the buffer size, the chunks and the reads in
    between: if a session of the encoder returns, every call returned TRUE and
    what was read is the base64 encoding of all that was fed, wrapped into
    lines, the last one closed by CRLF too; with the line length 0 it is the
    encoding itself, without a CRLF at the end, other than tests/test_base64.c
    expects (see [encode_no_line_end]). *)
Theorem encode_session_correct `{FreshMem} (bufsize linelen n : Z) (cs : list command) ok to :
  bufsize ≤ INT_MAX → Forall command_ok cs → 0 ≤ n →
  whole_session (z_code_base64_encode_new bufsize linelen) cs n = Done (ok, to) →
  ok = true ∧
  (zlen (wrap linelen (b64_encode (fed cs))) ≤ n →
   to = wrap linelen (b64_encode (fed cs)) ∧ (linelen = 0 → to = b64_encode (fed cs))).
Proof.
  intros Hb Hcs Hn Hs.
  pose proof (fed_bytes cs Hcs) as Hbytes.
  destruct (whole_session_spec (enc_machine linelen) cs _ n ok to (enc_start _ _ Hb) Hcs Hn Hs)
    as [-> Hto].
  rewrite (enc_machine_all linelen _ Hbytes) in *. split; [done|]. intros Hle.
  rewrite (Hto eq_refl Hle). cbn [fst snd]. split; [done|]. intros ->. apply wrap_none.
Qed.

Lemma encode_session_correct_witness :
  whole_session (H := @encode_methods zero_mem) (z_code_base64_encode_new 64 3)
    [Feed (str "he"); Read 1; Feed (str "llo")] 100 =
    Done (true, str "aGVs" ++ [13; 10] ++ str "bG8=" ++ [13; 10]) ∧
  wrap 3 (b64_encode (str "hello")) = str "aGVs" ++ [13; 10] ++ str "bG8=" ++ [13; 10].
Proof.
  split; [by vm_compute|].
  symmetry. refine (proj1 (proj2 (@encode_session_correct zero_mem 64 3 100
    [Feed (str "he"); Read 1; Feed (str "llo")] true _ _ _ _ _) _)); try by vm_compute.
  repeat constructor; by vm_compute.
Defined.

(** C1: The decoder never touches memory outside its buffer: a session of at most
    2^30 bytes and calls returns for every mode, input, chunking and reads in
    between; it reports success exactly when the decoding machine accepts the
    input that was fed, and then the bytes read are those that machine emits. *)
Theorem decode_session_total `{FreshMem} (bufsize n : Z) (tolerant : bool) (cs : list command) :
  bufsize ≤ INT_MAX → Forall command_ok cs → 0 ≤ n → fed_size cs ≤ 2 ^ 30 - 32 →
  ∃ ok to, whole_session (z_code_base64_decode_new bufsize tolerant) cs n = Done (ok, to) ∧
    ok = (m_all (dec_machine tolerant) (fed cs)).1 ∧
    (ok = true → zlen (m_all (dec_machine tolerant) (fed cs)).2 ≤ n →
     to = (m_all (dec_machine tolerant) (fed cs)).2).
Proof.
  intros Hb Hcs Hn Hsz.
  destruct (dec_whole_session_ok tolerant bufsize cs n Hb Hcs Hn Hsz) as (ok & to & Hs).
  exists ok, to. split; [done|].
  by apply (whole_session_spec (dec_machine tolerant) cs _ n ok to (dec_start _ _ Hb) Hcs Hn Hs).
Qed.

Lemma decode_session_total_witness :
  ∃ ok to, whole_session (H := @decode_methods zero_mem) (z_code_base64_decode_new 1 false)
             [Feed (str "aGV"); Read 1; Feed (str "sbG8!")] 100 = Done (ok, to) ∧
    ok = (m_all (dec_machine false) (str "aGVsbG8!")).1 ∧
    (ok = true → zlen (m_all (dec_machine false) (str "aGVsbG8!")).2 ≤ 100 →
     to = (m_all (dec_machine false) (str "aGVsbG8!")).2).
Proof.
  apply (@decode_session_total zero_mem 1 100 false
    [Feed (str "aGV"); Read 1; Feed (str "sbG8!")]); try by vm_compute.
  repeat constructor; by vm_compute.
Defined.

(** C18: Decoding inverts encoding: fed the base64 text of [bs], wrapped at any
    line length, cut into any chunks and read at any moments, the decoder (strict
    or tolerant) accepts and returns [bs]. *)
Theorem decode_encode_roundtrip `{FreshMem} (bufsize linelen n : Z) (tolerant : bool)
    (cs : list command) (bs : list Z) :
  bufsize ≤ INT_MAX → Forall command_ok cs → fed_size cs ≤ 2 ^ 30 - 32 → bytes bs →
  fed cs = wrap linelen (b64_encode bs) → zlen bs ≤ n →
  whole_session (z_code_base64_decode_new bufsize tolerant) cs n = Done (true, bs).
Proof.
  intros Hb Hcs Hsz Hbs Hfed Hn. assert (0 ≤ n) by lia.
  destruct (dec_whole_session_ok tolerant bufsize cs n) as (ok & to & Hs); [done..|].
  destruct (whole_session_spec (dec_machine tolerant) cs _ n ok to (dec_start _ _ Hb) Hcs)
    as [-> Hto]; [done..|].
  rewrite Hfed, dec_all_wrap in * by done. by rewrite Hs, Hto.
Qed.

Lemma decode_encode_roundtrip_witness :
  whole_session (H := @decode_methods zero_mem) (z_code_base64_decode_new 1 false)
    [Feed (str "aGVs"); Read 2; Feed ([13; 10] ++ str "bG8=" ++ [13; 10])] 5 =
  Done (true, str "hello").
Proof.
  apply (@decode_encode_roundtrip zero_mem 1 3); try by vm_compute.
  - repeat constructor; by vm_compute.
  - repeat constructor; by vm_compute.
Defined.

(** *** Where the encoder leaves its buffer

    Finishing never grows the buffer; a transform grows it by the size of the
    new output, without room for the partial byte when the results were read in
    between; and reading moves one byte more than there are when the buffer is
    full. *)

Example encode_finish_overflow :
  whole_session (H := @encode_methods zero_mem) (z_code_base64_encode_new 1 0)
    [Feed (str "h")] 100 = Fault OutOfBounds.
Proof. by vm_compute. Qed.

Example encode_read_transform_overflow :
  session (H := @encode_methods zero_mem) (z_code_base64_encode_new 0 0)
    [Feed (replicate 190 65); Read 1; Feed (str "abc")] = Fault OutOfBounds.
Proof. by vm_compute. Qed.

Example encode_read_full_overflow :
  session (H := @encode_methods zero_mem) (z_code_base64_encode_new 4 0)
    [Feed (str "abc"); Read 1] = Fault OutOfBounds.
Proof. by vm_compute. Qed.

(** A line holds one character more than [linelen]. *)
Example encode_line_length :
  whole_session (H := @encode_methods zero_mem) (z_code_base64_encode_new 64 4)
    [Feed (str "abcdef")] 100 =
  Done (true, str "YWJjZ" ++ [13; 10] ++ str "GVm" ++ [13; 10]).
Proof. by vm_compute. Qed.

(** The first case of tests/test_base64.c: the encoder without a line length.  The test
    expects [aW5neW9tYmluZ3lvbQ==] with a CRLF behind it. *)
Example encode_no_line_end :
  whole_session (H := @encode_methods zero_mem) (z_code_base64_encode_new 0 0)
    [Feed (str "ingyombingyom")] 1024 = Done (true, str "aW5neW9tYmluZ3lvbQ==").
Proof. by vm_compute. Qed.
