(* ===== verification/RefCount.v ===== *)
(** * Reference counts (src/src/zorp/misc.h)

    The atomic counter ZRefCount and the plain counters of z_incref/z_decref,
    with their sanity checks, and the discipline they implement: what is counted
    is freed by the release of its last reference and by no other. *)

From S2P Require Import Prelude.
Open Scope Z_scope.

Definition MAX_REF : Z := 512 * 1024.

Definition z_incref (ref : Z) : outcome Z :=
  _ ← require (ref < MAX_REF ∧ ref > 0) AssertFailed; Done (ref + 1).

Definition z_decref (ref : Z) : outcome Z :=
  _ ← require (ref < MAX_REF ∧ ref > 0) AssertFailed; Done (ref - 1).

(** ZRefCount is its counter. *)
Definition z_refcount_inc (counter : Z) : outcome Z :=
  _ ← require (counter < MAX_REF ∧ counter > 0) AssertFailed; Done (counter + 1).

(** The gboolean says that the counter reached zero. *)
Definition z_refcount_dec (counter : Z) : outcome (bool * Z) :=
  _ ← require (counter < MAX_REF ∧ counter > 0) AssertFailed;
  Done (bool_decide (counter - 1 = 0), counter - 1).

Definition z_refcount_set (value : Z) : Z := value.

(** ** The life of a counted object

    The references are taken and released one at a time (the counter is atomic),
    in any order; the state is the counter, or [None] once the object was freed,
    which any further use would touch. *)

Inductive ref_op : Set := Ref | Unref.

Definition ref_step (s : option Z) (op : ref_op) : outcome (option Z) :=
  match s with
  | None => Fault UseAfterFree
  | Some n =>
      match op with
      | Ref => n ← z_refcount_inc n; Done (Some n)
      | Unref => '(zero, n) ← z_refcount_dec n; Done (if zero : bool then None else Some n)
      end
  end.

Fixpoint ref_run (s : option Z) (ops : list ref_op) : outcome (option Z) :=
  match ops with
  | [] => Done s
  | op :: ops => s ← ref_step s op; ref_run s ops
  end.

(** The number of references held after some operations on an object with
    [n] of them. *)
Fixpoint held (n : Z) (ops : list ref_op) : Z :=
  match ops with
  | [] => n
  | Ref :: ops => held (n + 1) ops
  | Unref :: ops => held (n - 1) ops
  end.

(** Only who holds a reference takes or releases one, and never as many as
    [MAX_REF] are held. *)
Definition disciplined (n : Z) (ops : list ref_op) : Prop :=
  ∀ k, (k < length ops)%nat → 0 < held n (take k ops) < MAX_REF.

Lemma disciplined_cons n op ops :
  disciplined n (op :: ops) ↔ 0 < n < MAX_REF ∧ disciplined (held n [op]) ops.
Proof.
  split.
  - intros Hd. split; [apply (Hd 0%nat); cbn; lia|]. intros k Hk.
    specialize (Hd (S k)). cbn [length take] in Hd. destruct op; apply Hd; lia.
  - intros [Hn Hd] [|k] Hk; [exact Hn|]. cbn [length] in Hk.
    specialize (Hd k ltac:(lia)). by destruct op.
Qed.

Lemma held_disciplined_nonneg ops : ∀ n, 0 < n → disciplined n ops → 0 ≤ held n ops.
Proof.
  induction ops as [|op ops IH]; intros n Hn Hd; [cbn; lia|].
  apply disciplined_cons in Hd as [_ Hd]. destruct ops as [|op2 ops].
  - destruct op; cbn; lia.
  - pose proof (proj1 (disciplined_cons _ _ _) Hd) as [? _].
    destruct op; cbn [held] in *; apply IH; done || lia.
Qed.

(** Along any disciplined sequence of references and releases no assertion
    trips, the object is never used after it was freed, it is freed exactly when
    the last reference is released, and the counter is the number of references
    held. *)
Theorem refcount_spec (n : Z) (ops : list ref_op) :
  0 < n → disciplined n ops →
  ref_run (Some n) ops = Done (if decide (held n ops = 0) then None else Some (held n ops)).
Proof.
  revert n. induction ops as [|op ops IH]; intros n Hn Hd.
  { cbn. by rewrite decide_False by lia. }
  pose proof (held_disciplined_nonneg _ _ Hn Hd) as Hnn.
  apply disciplined_cons in Hd as [Hr Hd]. cbn [ref_run ref_step].
  destruct op; cbn [held] in *; unfold z_refcount_inc, z_refcount_dec;
    rewrite require_true, !Done_bind by lia.
  - apply IH; [lia|done].
  - destruct (decide (n - 1 = 0)) as [Hz|Hz].
    + rewrite bool_decide_true by done. destruct ops as [|op ops]; cbn [held].
      * by rewrite decide_True by lia.
      * apply disciplined_cons in Hd as [? _]. lia.
    + rewrite bool_decide_false by done. apply IH; [lia|done].
Qed.

Lemma refcount_spec_witness :
  ref_run (Some 1) [Ref; Unref; Ref; Ref; Unref; Unref; Unref] = Done None.
Proof.
  apply (refcount_spec 1 [Ref; Unref; Ref; Ref; Unref; Unref; Unref]); [done|].
  intros k Hk. do 7 (destruct k as [|k]; [done|]). cbn in Hk. lia.
Defined.
