(* ===== verification/Heap.v ===== *)
(** * A heap of blocks

    What the structures of the library that share memory point to (a ZPktBuf and
    its parts).  A pointer is NULL or a position in a block; a block that was
    freed or reallocated is gone, and its number is never used again, so that
    every use of a dangling pointer shows up as [UseAfterFree]. *)

From S2P Require Import Prelude.
Open Scope Z_scope.

Record heap := mkHeap {
  h_blocks : gmap nat (list Z);
  h_next : nat                   (* the first number that was never used *)
}.

Definition empty_heap : heap := mkHeap ∅ 0.

Inductive ptr : Set := Null | At (b : nat) (off : Z).

#[global] Instance ptr_eq_dec : EqDecision ptr.
Proof. solve_decision. Defined.

Definition ptr_add (p : ptr) (n : Z) : ptr :=
  match p with Null => Null | At b off => At b (off + n) end.

(** Every block has a number below [h_next]. *)
Definition heap_wf (h : heap) : Prop := ∀ b, is_Some (h_blocks h !! b) → (b < h_next h)%nat.

Definition h_block (h : heap) (b : nat) : outcome (list Z) :=
  match h_blocks h !! b with Some l => Done l | None => Fault UseAfterFree end.

Definition h_set (h : heap) (b : nat) (l : list Z) : heap :=
  mkHeap (<[b := l]> (h_blocks h)) (h_next h).

(** Reading and writing [n] bytes; with [n = 0] no memory is touched. *)
Definition h_read (h : heap) (p : ptr) (n : Z) : outcome (list Z) :=
  if decide (n = 0) then Done [] else
  match p with
  | Null => Fault OutOfBounds
  | At b off => l ← h_block h b; load_range l off n
  end.

Definition h_write (h : heap) (p : ptr) (bs : list Z) : outcome heap :=
  if decide (bs = []) then Done h else
  match p with
  | Null => Fault OutOfBounds
  | At b off => l ← h_block h b; l ← store_range l off bs; Done (h_set h b l)
  end.

Definition h_alloc (h : heap) (l : list Z) : heap * ptr :=
  (mkHeap (<[h_next h := l]> (h_blocks h)) (S (h_next h)), At (h_next h) 0).

(** [g_free]: only the start of a live block can be freed; NULL is ignored. *)
Definition h_free (h : heap) (p : ptr) : outcome heap :=
  match p with
  | Null => Done h
  | At b off =>
      _ ← h_block h b;
      _ ← require (off = 0) BadFree;
      Done (mkHeap (delete b (h_blocks h)) (h_next h))
  end.

(** [g_realloc]: a new block with the old contents; the old one is gone. *)
Definition h_realloc `{FreshMem} (h : heap) (p : ptr) (n : Z) : outcome (heap * ptr) :=
  match p with
  | Null => Done (h_alloc h (realloc [] n))
  | At b off =>
      l ← h_block h b;
      _ ← require (off = 0) BadFree;
      let h := mkHeap (delete b (h_blocks h)) (h_next h) in
      Done (h_alloc h (realloc l n))
  end.

(** ** Lemmas *)

Lemma h_block_Done h b l : h_block h b = Done l ↔ h_blocks h !! b = Some l.
Proof. unfold h_block. destruct (h_blocks h !! b); naive_solver. Qed.

Lemma h_alloc_wf h l : heap_wf h → heap_wf (h_alloc h l).1.
Proof.
  intros Hwf b. cbn. rewrite lookup_insert_is_Some. intros [->|[_ Hb]]; [lia|].
  apply Hwf in Hb. lia.
Qed.

Lemma h_delete_wf h b : heap_wf h → heap_wf (mkHeap (delete b (h_blocks h)) (h_next h)).
Proof. intros Hwf c. cbn. rewrite lookup_delete_is_Some. intros [_ Hc]. by apply Hwf. Qed.

Lemma h_set_wf h b l l' : heap_wf h → h_blocks h !! b = Some l' → heap_wf (h_set h b l).
Proof.
  intros Hwf Hb c. cbn. rewrite lookup_insert_is_Some. intros [->|[_ Hc]]; apply Hwf; eauto.
Qed.

(** ** Regions of blocks *)

(** [l] with the bytes from [i] on overwritten by [bs]. *)
Definition splice (l : list Z) (i : nat) (bs : list Z) : list Z :=
  take i l ++ bs ++ drop (i + length bs) l.

Lemma splice_length l i bs : (i + length bs ≤ length l)%nat → length (splice l i bs) = length l.
Proof. intros. unfold splice. rewrite !length_app, length_take, length_drop. lia. Qed.

Lemma splice_app_l l k i bs :
  (i + length bs ≤ length l)%nat → splice (l ++ k) i bs = splice l i bs ++ k.
Proof.
  intros. unfold splice. rewrite take_app_le, drop_app_le by lia. by rewrite <- !app_assoc.
Qed.

Lemma splice_app_r l k i bs : splice (l ++ k) (length l + i) bs = l ++ splice k i bs.
Proof.
  unfold splice. rewrite take_app_add, <- Nat.add_assoc, drop_app_add. by rewrite <- app_assoc.
Qed.

Lemma splice_extend l k i bs :
  (i ≤ length l)%nat → (i + length bs = length (l ++ k))%nat ∨ k = [] →
  splice (l ++ k) i bs = splice l i bs.
Proof.
  intros Hi [Hk| ->]; [|by rewrite app_nil_r].
  unfold splice. rewrite take_app_le by lia. rewrite !drop_ge; [done|..];
    rewrite length_app in Hk; rewrite ?length_app; lia.
Qed.

Lemma store_range_splice l i bs :
  0 ≤ i → i + zlen bs ≤ zlen l → store_range l i bs = Done (splice l (Z.to_nat i) bs).
Proof. intros. by rewrite store_range_ok. Qed.

(** The bytes at a pointer are [m], and the pointer is the start of its block
    if it is [owned]. *)
Definition region (h : heap) (p : ptr) (owned : bool) (m : list Z) : Prop :=
  match p with
  | Null => m = []
  | At b off => ∃ pre post, h_blocks h !! b = Some (pre ++ m ++ post) ∧
                  zlen pre = off ∧ (owned = true → pre = [])
  end.

Lemma region_read h p o m i n :
  region h p o m → 0 ≤ i → 0 ≤ n → i + n ≤ zlen m →
  h_read h (ptr_add p i) n = Done (take (Z.to_nat n) (drop (Z.to_nat i) m)).
Proof.
  intros Hr Hi Hn Hle. unfold h_read. case_decide as Hz; [by subst|].
  destruct p as [|b off]; cbn [region ptr_add] in *; [subst; cbn in *; lia|].
  destruct Hr as (pre & post & Hb & Hoff & _).
  rewrite (proj2 (h_block_Done _ _ _) Hb), Done_bind.
  rewrite load_range_ok by (rewrite ?length_app; lia). f_equal.
  replace (Z.to_nat (off + i)) with (length pre + Z.to_nat i)%nat by lia.
  rewrite drop_app_add, drop_app_le, take_app_le by (rewrite ?length_drop; lia). done.
Qed.

(** Outside of the block of [p] a write changes nothing. *)
Definition same_elsewhere (p : ptr) (h h' : heap) : Prop :=
  ∀ b, match p with Null => True | At b0 _ => b ≠ b0 end → h_blocks h' !! b = h_blocks h !! b.

Lemma region_write h p o m i bs :
  heap_wf h → region h p o m → 0 ≤ i → i + zlen bs ≤ zlen m →
  ∃ h', h_write h (ptr_add p i) bs = Done h' ∧ heap_wf h' ∧
        region h' p o (splice m (Z.to_nat i) bs) ∧ same_elsewhere p h h'.
Proof.
  intros Hwf Hr Hi Hle. unfold h_write. case_decide as Hz.
  { subst. exists h. split_and!; [done..| |done]. unfold splice. cbn [length app].
    by rewrite Nat.add_0_r, take_drop. }
  destruct p as [|b off]; cbn [region ptr_add] in *.
  { subst. destruct bs; [done|cbn in *; lia]. }
  destruct Hr as (pre & post & Hb & Hoff & Ho).
  rewrite (proj2 (h_block_Done _ _ _) Hb), Done_bind.
  rewrite store_range_splice by (rewrite ?length_app; lia). rewrite Done_bind.
  eexists; split; [done|]. split; [by eapply h_set_wf|]. split.
  - exists pre, post. split_and!; [|done..]. cbn. rewrite lookup_insert_eq. f_equal.
    replace (Z.to_nat (off + i)) with (length pre + Z.to_nat i)%nat by lia.
    rewrite splice_app_r, splice_app_l by lia. done.
  - intros c Hc. cbn. by rewrite lookup_insert_ne.
Qed.

(** Reallocating the start of a block keeps its first bytes. *)
Lemma region_realloc `{FreshMem} h p m n :
  heap_wf h → region h p true m → zlen m ≤ n →
  ∃ h' p' r, h_realloc h p n = Done (h', p') ∧ heap_wf h' ∧
    region h' p' true (m ++ r) ∧ zlen (m ++ r) = n.
Proof.
  intros Hwf Hr Hn.
  assert (Hre : ∀ post, ∃ r, realloc (m ++ post) n = m ++ r ∧ zlen (m ++ r) = n).
  { intros post. exists (drop (length m) (realloc (m ++ post) n)).
    assert (Ht : take (length m) (realloc (m ++ post) n) = m).
    { unfold realloc. destruct (decide (n ≤ zlen (m ++ post))).
      - rewrite take_app_le by (rewrite length_take, length_app in *; lia).
        rewrite take_take, Nat.min_l by lia. by rewrite take_app_length.
      - rewrite length_app in *. rewrite (take_ge (m ++ post)) by (rewrite length_app; lia).
        rewrite <- app_assoc. by rewrite take_app_length. }
    pose proof (realloc_length (m ++ post) n ltac:(lia)) as Hl.
    rewrite <- (take_drop (length m) (realloc (m ++ post) n)), Ht in Hl.
    split; [|done]. by rewrite <- (take_drop (length m) (realloc (m ++ post) n)) at 1; rewrite Ht. }
  destruct p as [|b off]; cbn [region h_realloc] in *.
  - subst m. destruct (Hre []) as (r & Hr & Hl). rewrite app_nil_r in Hr.
    exists (h_alloc h (realloc [] n)).1, (At (h_next h) 0), r.
    split_and!; [done|by apply h_alloc_wf| |done].
    exists [], []. cbn. rewrite lookup_insert_eq, app_nil_r. by rewrite Hr.
  - destruct Hr as (pre & post & Hb & Hoff & Ho). rewrite (Ho eq_refl) in *. cbn in Hoff, Hb.
    rewrite (proj2 (h_block_Done _ _ _) Hb), Done_bind, require_true, Done_bind by done.
    destruct (Hre post) as (r & Hr & Hl). eexists _, _, r. split; [done|].
    split; [by apply h_alloc_wf, h_delete_wf|]. split; [|done].
    exists [], []. cbn. rewrite lookup_insert_eq, app_nil_r. by rewrite Hr.
Qed.

(** Writing two pieces one behind the other is writing both. *)
Lemma splice_splice l i x y :
  (i + length x + length y ≤ length l)%nat →
  splice (splice l i x) (i + length x) y = splice l i (x ++ y).
Proof.
  intros Hle. unfold splice at 1 3. rewrite length_app.
  assert (Ht : take (i + length x) (splice l i x) = take i l ++ x).
  { unfold splice. rewrite app_assoc, take_app_length'; [done|].
    rewrite length_app, length_take. lia. }
  assert (Hd : drop (i + length x + length y) (splice l i x) = drop (i + (length x + length y)) l).
  { assert (Hl : length (take i l ++ x) = (i + length x)%nat) by (rewrite length_app, length_take; lia).
    unfold splice. rewrite (app_assoc (take i l)), (drop_app_ge (take i l ++ x)) by lia.
    rewrite Hl, drop_drop. f_equal. lia. }
  by rewrite Ht, Hd, <- !app_assoc.
Qed.

Lemma splice_nil l i : splice l i [] = l.
Proof. unfold splice. cbn. by rewrite Nat.add_0_r, take_drop. Qed.
