(* ===== verification/PacketBuf.v ===== *)
(** * Packet buffers (src/src/packetbuf.c, src/src/zorp/packetbuf.h)

    A ZPktBuf is a pointer into the heap with a capacity, a length and a
    position; parts of a packet ([z_pktbuf_part]) point into the block of their
    parent.  The operations are translated first; then they are shown to
    implement an abstract packet, a list of bytes with a position. *)

From S2P Require Import Prelude Heap RefCount.
Open Scope Z_scope.

Record ZPktBuf := mkPktBuf {
  pb_ref_cnt : Z;
  pb_allocated : Z;
  pb_length : Z;
  pb_pos : Z;
  pb_borrowed : bool;            (* the flag Z_PB_BORROWED *)
  pb_data : ptr
}.

#[global] Instance ZPktBuf_eq_dec : EqDecision ZPktBuf.
Proof. solve_decision. Defined.

Definition pb_with_length (l : Z) (p : ZPktBuf) : ZPktBuf :=
  mkPktBuf (pb_ref_cnt p) (pb_allocated p) l (pb_pos p) (pb_borrowed p) (pb_data p).
Definition pb_with_pos (i : Z) (p : ZPktBuf) : ZPktBuf :=
  mkPktBuf (pb_ref_cnt p) (pb_allocated p) (pb_length p) i (pb_borrowed p) (pb_data p).
Definition pb_with_data (d : ptr) (a : Z) (p : ZPktBuf) : ZPktBuf :=
  mkPktBuf (pb_ref_cnt p) a (pb_length p) (pb_pos p) (pb_borrowed p) d.
Definition pb_with_ref (r : Z) (p : ZPktBuf) : ZPktBuf :=
  mkPktBuf r (pb_allocated p) (pb_length p) (pb_pos p) (pb_borrowed p) (pb_data p).

(** ** Attributes *)

Definition z_pktbuf_data (p : ZPktBuf) : ptr := pb_data p.
Definition z_pktbuf_current (p : ZPktBuf) : ptr := ptr_add (pb_data p) (pb_pos p).
Definition z_pktbuf_end (p : ZPktBuf) : ptr := ptr_add (pb_data p) (pb_length p).
Definition z_pktbuf_size (p : ZPktBuf) : Z := pb_allocated p.
Definition z_pktbuf_free_size (p : ZPktBuf) : Z := u64 (pb_allocated p - pb_length p).
Definition z_pktbuf_length (p : ZPktBuf) : Z := pb_length p.
Definition z_pktbuf_pos (p : ZPktBuf) : Z := pb_pos p.
Definition z_pktbuf_available (p : ZPktBuf) : Z := u64 (pb_length p - pb_pos p).

(** ** Instances *)

Definition z_pktbuf_new : ZPktBuf := mkPktBuf (z_refcount_set 1) 0 0 0 false Null.

Definition z_pktbuf_part (parent : ZPktBuf) (pos len : Z) : ZPktBuf :=
  let rest := u64 (pb_length parent - pos) in
  let n := if decide (len < rest) then len else rest in
  mkPktBuf (z_refcount_set 1) n n 0 true (ptr_add (pb_data parent) pos).

Definition z_pktbuf_ref (p : ZPktBuf) : outcome ZPktBuf :=
  n ← z_refcount_inc (pb_ref_cnt p); Done (pb_with_ref n p).

(** The result is [None] once the packet itself is freed. *)
Definition z_pktbuf_unref (h : heap) (p : option ZPktBuf) : outcome (heap * option ZPktBuf) :=
  match p with
  | None => Done (h, None)
  | Some p =>
      '(zero, n) ← z_refcount_dec (pb_ref_cnt p);
      let p := pb_with_ref n p in
      if zero : bool then
        h ← (if decide (pb_data p ≠ Null ∧ pb_borrowed p = false)
             then h_free h (pb_data p) else Done h);
        Done (h, None)
      else Done (h, Some p)
  end.

Section packetbuf.
Context `{FreshMem}.

(** The byte order of the machine, as G_BYTE_ORDER. *)
Definition G_LITTLE_ENDIAN : Z := 1234.
Definition G_BIG_ENDIAN : Z := 4321.
Context (G_HOST_ENDIAN : Z).

(** ** The buffer as a whole *)

Definition z_pktbuf_resize (h : heap) (p : ZPktBuf) (size : Z) : outcome (heap * ZPktBuf) :=
  '(h, p) ← (if decide (pb_allocated p < size) then
               _ ← require (pb_borrowed p = false) AssertFailed;
               '(h, d) ← h_realloc h (pb_data p) size;
               Done (h, pb_with_data d size p)
             else Done (h, p));
  let p := if decide (size < pb_length p) then pb_with_length size p else p in
  let p := if decide (size < pb_pos p) then pb_with_pos size p else p in
  Done (h, p).

Definition z_pktbuf_copy (h : heap) (p : ZPktBuf) (data : list Z) : outcome (heap * ZPktBuf) :=
  let length := zlen data in
  '(h, p) ← z_pktbuf_resize h p length;
  let p := if decide (length < pb_pos p) then pb_with_pos length p else p in
  let p := pb_with_length length p in
  h ← h_write h (pb_data p) data;
  Done (h, p).

Definition z_pktbuf_relocate (h : heap) (p : ZPktBuf) (data : ptr) (length : Z)
    (is_borrowed : bool) : outcome (heap * ZPktBuf) :=
  h ← (if decide (pb_data p ≠ Null ∧ pb_borrowed p = false)
       then h_free h (pb_data p) else Done h);
  let pos := if decide (length < pb_pos p) then length else pb_pos p in
  Done (h, mkPktBuf (pb_ref_cnt p) length length pos is_borrowed data).

Definition z_pktbuf_set_available (h : heap) (p : ZPktBuf) (size : Z)
  : outcome (heap * ZPktBuf) :=
  if decide (u64 (pb_pos p + size) ≤ pb_length p) then Done (h, p)
  else
    let p := pb_with_length (u64 (pb_pos p + size)) p in
    z_pktbuf_resize h p (u64 (pb_pos p + size)).

Definition z_pktbuf_append (h : heap) (p : ZPktBuf) (data : list Z) : outcome (heap * ZPktBuf) :=
  '(h, p) ← z_pktbuf_resize h p (u64 (pb_length p + zlen data));
  h ← h_write h (ptr_add (pb_data p) (pb_length p)) data;
  Done (h, pb_with_length (u64 (pb_length p + zlen data)) p).

Definition z_pktbuf_insert (h : heap) (p : ZPktBuf) (pos : Z) (data : list Z)
  : outcome (heap * ZPktBuf) :=
  let length := zlen data in
  '(h, p) ← z_pktbuf_resize h p (u64 (pb_length p + length));
  tail ← h_read h (ptr_add (pb_data p) pos) (u64 (pb_length p - pos));
  h ← h_write h (ptr_add (pb_data p) (pos + length)) tail;
  h ← h_write h (ptr_add (pb_data p) pos) data;
  Done (h, pb_with_length (u64 (pb_length p + length)) p).

Definition z_pktbuf_data_equal (h : heap) (lhs rhs : ZPktBuf) : outcome bool :=
  if decide (pb_length lhs = pb_length rhs) then
    l ← h_read h (pb_data lhs) (pb_length rhs);
    r ← h_read h (pb_data rhs) (pb_length rhs);
    Done (bool_decide (l = r))
  else Done false.

(** ** The position *)

Inductive GSeekType : Set := G_SEEK_CUR | G_SEEK_SET | G_SEEK_END.

(** [pos] is a gssize; sums with a gsize are computed in 64 bits. *)
Definition z_pktbuf_seek (p : ZPktBuf) (whence : GSeekType) (pos : Z) : outcome (bool * ZPktBuf) :=
  match whence with
  | G_SEEK_CUR =>
      if decide (pb_length p < u64 (pb_pos p + pos)) then Done (false, p)
      else
        let sum := s64 (pb_pos p) + pos in
        _ ← require (- 2 ^ 63 ≤ sum < 2 ^ 63) SignedOverflow;
        if decide (sum < 0) then Done (false, p)
        else Done (true, pb_with_pos (u64 (pb_pos p + pos)) p)
  | G_SEEK_SET =>
      if decide (s64 (pb_length p) < pos ∨ pos < 0) then Done (false, p)
      else Done (true, pb_with_pos pos p)
  | G_SEEK_END =>
      if decide (pos > 0) then Done (false, p)
      else
        _ ← require (- pos < 2 ^ 63) SignedOverflow;
        if decide (s64 (pb_length p) < - pos) then Done (false, p)
        else Done (true, pb_with_pos (u64 (pb_length p + pos)) p)
  end.

(** ** Integers in memory *)

(** The [n] bytes of [v], least significant first, and back. *)
Fixpoint le_bytes (n : nat) (v : Z) : list Z :=
  match n with O => [] | S n => v `mod` 256 :: le_bytes n (v / 256) end.

Fixpoint le_value (bs : list Z) : Z :=
  match bs with [] => 0 | b :: bs => b + 256 * le_value bs end.

(** An n-byte access by the machine, and GUINT<n>_SWAP_LE_BE. *)
Definition host_bytes (n : nat) (v : Z) : list Z :=
  if decide (G_HOST_ENDIAN = G_LITTLE_ENDIAN) then le_bytes n v else reverse (le_bytes n v).

Definition host_value (bs : list Z) : Z :=
  if decide (G_HOST_ENDIAN = G_LITTLE_ENDIAN) then le_value bs else le_value (reverse bs).

Definition swap_bytes (n : nat) (v : Z) : Z := le_value (reverse (le_bytes n v)).

(** ** Reading

    The result is the gboolean, the value stored through [res] (if it is not
    NULL) and the new packet. *)

Definition z_pktbuf_get_u8 (h : heap) (p : ZPktBuf) (res : bool)
  : outcome (bool * option Z * ZPktBuf) :=
  if decide (z_pktbuf_available p < 1) then Done (false, None, p)
  else
    v ← (if res then bs ← h_read h (z_pktbuf_current p) 1; Done (Some (le_value bs)) else Done None);
    Done (true, v, pb_with_pos (u64 (pb_pos p + 1)) p).

(** The body of z_pktbuf_get_u16, _u32 and _u64, for [n] bytes. *)
Definition get_uint (n : nat) (h : heap) (p : ZPktBuf) (e : Z) (res : bool)
  : outcome (bool * option Z * ZPktBuf) :=
  if decide (z_pktbuf_available p < Z.of_nat n) then Done (false, None, p)
  else
    v ← (if res then
           bs ← h_read h (z_pktbuf_current p) (Z.of_nat n);
           Done (Some (if decide (e = G_HOST_ENDIAN) then host_value bs
                       else swap_bytes n (host_value bs)))
         else Done None);
    Done (true, v, pb_with_pos (u64 (pb_pos p + Z.of_nat n)) p).

Definition z_pktbuf_get_u16 := get_uint 2.
Definition z_pktbuf_get_u32 := get_uint 4.
Definition z_pktbuf_get_u64 := get_uint 8.

Definition z_pktbuf_get_boolean (h : heap) (p : ZPktBuf) (res : bool)
  : outcome (bool * option bool * ZPktBuf) :=
  if decide (z_pktbuf_available p < 1) then Done (false, None, p)
  else
    v ← (if res then bs ← h_read h (z_pktbuf_current p) 1;
                     Done (Some (bool_decide (le_value bs ≠ 0))) else Done None);
    Done (true, v, pb_with_pos (u64 (pb_pos p + 1)) p).

Definition z_pktbuf_get_boolean16 (h : heap) (p : ZPktBuf) (res : bool)
  : outcome (bool * option bool * ZPktBuf) :=
  if decide (z_pktbuf_available p < 2) then Done (false, None, p)
  else
    v ← (if res then bs ← h_read h (z_pktbuf_current p) 2;
                     Done (Some (bool_decide (host_value bs ≠ 0))) else Done None);
    Done (true, v, pb_with_pos (u64 (pb_pos p + 2)) p).

Definition z_pktbuf_get_u8s (h : heap) (p : ZPktBuf) (n : Z) (res : bool)
  : outcome (bool * option (list Z) * ZPktBuf) :=
  if decide (z_pktbuf_available p < n) then Done (false, None, p)
  else
    v ← (if res then bs ← h_read h (z_pktbuf_current p) n; Done (Some bs) else Done None);
    Done (true, v, pb_with_pos (u64 (pb_pos p + n)) p).

(** The values of an array of [w]-byte integers in memory. *)
Fixpoint host_values (w count : nat) (bs : list Z) : list Z :=
  match count with
  | O => []
  | S count => host_value (take w bs) :: host_values w count (drop w bs)
  end.

(** The swapping loop of the array readers: [i] is a guint, [n] a gsize, so
    that the loop never ends for an [n] of 2^32 or more. *)
Fixpoint swap_read_loop (fuel : nat) (w : nat) (h : heap) (cur : ptr) (i n : Z)
  : outcome (list Z) :=
  if decide (n ≤ i) then Done []
  else match fuel with
       | O => Fault OutOfFuel
       | S fuel =>
           bs ← h_read h (ptr_add cur i) (Z.of_nat w);
           rest ← swap_read_loop fuel w h cur (u32 (i + Z.of_nat w)) n;
           Done (swap_bytes w (host_value bs) :: rest)
       end.

(** The body of z_pktbuf_get_u16s, _u32s and _u64s, for [w = 2^k] bytes. *)
Definition get_uints (k : Z) (h : heap) (p : ZPktBuf) (e n : Z) (res : bool)
  : outcome (bool * option (list Z) * ZPktBuf) :=
  let w := Z.to_nat (2 ^ k) in
  let n := u64 (Z.shiftl n k) in
  if decide (z_pktbuf_available p < n) then Done (false, None, p)
  else
    v ← (if res then
           if decide (e = G_HOST_ENDIAN)
           then bs ← h_read h (z_pktbuf_current p) n;
                Done (Some (host_values w (Z.to_nat (Z.shiftr n k)) bs))
           else l ← swap_read_loop (Z.to_nat (Z.shiftr n k)) w h (z_pktbuf_current p) 0 n;
                Done (Some l)
         else Done None);
    Done (true, v, pb_with_pos (u64 (pb_pos p + n)) p).

Definition z_pktbuf_get_u16s := get_uints 1.
Definition z_pktbuf_get_u32s := get_uints 2.
Definition z_pktbuf_get_u64s := get_uints 3.

(** ** Writing *)

Definition z_pktbuf_put_u8 (h : heap) (p : ZPktBuf) (d : Z) : outcome (heap * ZPktBuf) :=
  '(h, p) ← z_pktbuf_set_available h p 1;
  h ← h_write h (z_pktbuf_current p) [d];
  Done (h, pb_with_pos (u64 (pb_pos p + 1)) p).

(** The body of z_pktbuf_put_u16, _u32 and _u64. *)
Definition put_uint (n : nat) (h : heap) (p : ZPktBuf) (e d : Z) : outcome (heap * ZPktBuf) :=
  '(h, p) ← z_pktbuf_set_available h p (Z.of_nat n);
  h ← h_write h (z_pktbuf_current p)
        (host_bytes n (if decide (e = G_HOST_ENDIAN) then d else swap_bytes n d));
  Done (h, pb_with_pos (u64 (pb_pos p + Z.of_nat n)) p).

Definition z_pktbuf_put_u16 := put_uint 2.
Definition z_pktbuf_put_u32 := put_uint 4.
Definition z_pktbuf_put_u64 := put_uint 8.

Definition z_pktbuf_put_boolean (h : heap) (p : ZPktBuf) (res : bool) : outcome (heap * ZPktBuf) :=
  '(h, p) ← z_pktbuf_set_available h p 1;
  h ← h_write h (z_pktbuf_current p) [if res then 1 else 0];
  Done (h, pb_with_pos (u64 (pb_pos p + 1)) p).

(** [res = None] is a NULL pointer: the room is made, nothing is written. *)
Definition z_pktbuf_put_u8s (h : heap) (p : ZPktBuf) (n : Z) (res : option (list Z))
  : outcome (heap * ZPktBuf) :=
  '(h, p) ← z_pktbuf_set_available h p n;
  h ← (match res with
       | Some d => d ← load_range d 0 n; h_write h (z_pktbuf_current p) d
       | None => Done h
       end);
  Done (h, pb_with_pos (u64 (pb_pos p + n)) p).

Fixpoint swap_write_loop (fuel : nat) (w : nat) (h : heap) (cur : ptr) (i n : Z) (res : list Z)
  : outcome heap :=
  if decide (n ≤ i) then Done h
  else match fuel with
       | O => Fault OutOfFuel
       | S fuel =>
           d ← load res (i / Z.of_nat w);
           h ← h_write h (ptr_add cur i) (host_bytes w (swap_bytes w d));
           swap_write_loop fuel w h cur (u32 (i + Z.of_nat w)) n res
       end.

(** The body of z_pktbuf_put_u16s, _u32s and _u64s; [res] holds values of
    [w = 2^k] bytes. *)
Definition put_uints (k : Z) (h : heap) (p : ZPktBuf) (e n : Z) (res : option (list Z))
  : outcome (heap * ZPktBuf) :=
  let w := Z.to_nat (2 ^ k) in
  let n := u64 (Z.shiftl n k) in
  '(h, p) ← z_pktbuf_set_available h p n;
  h ← (match res with
       | Some d =>
           if decide (e = G_HOST_ENDIAN)
           then d ← load_range d 0 (Z.shiftr n k);
                h_write h (z_pktbuf_current p) (d ≫= host_bytes w)
           else swap_write_loop (Z.to_nat (Z.shiftr n k)) w h (z_pktbuf_current p) 0 n d
       | None => Done h
       end);
  Done (h, pb_with_pos (u64 (pb_pos p + n)) p).

Definition z_pktbuf_put_u16s := put_uints 1.
Definition z_pktbuf_put_u32s := put_uints 2.
Definition z_pktbuf_put_u64s := put_uints 3.
End packetbuf.
