(* ===== verification/PacketSpec.v ===== *)
(** * The abstract packet, and that ZPktBuf implements it (src/src/packetbuf.c)

    A packet is a list of bytes with a position in it.  [pb_wf h p c] says that
    [p] is a well-formed ZPktBuf in the heap [h] whose content is [c]. *)

From S2P Require Import Prelude Heap PacketBuf.
Open Scope Z_scope.

(** ** The specification *)

(** Writing at the position overwrites what is there and extends the end. *)
Definition pk_put (c : list Z) (pos : Z) (bs : list Z) : list Z * Z :=
  (splice c (Z.to_nat pos) bs, pos + zlen bs).

(** Reading succeeds when enough bytes are left. *)
Definition pk_get (c : list Z) (pos n : Z) : option (list Z * Z) :=
  if decide (pos + n ≤ zlen c)
  then Some (take (Z.to_nat n) (drop (Z.to_nat pos) c), pos + n) else None.

(** The target of a seek, if it lies in the packet. *)
Definition pk_seek (c : list Z) (pos : Z) (whence : GSeekType) (d : Z) : option Z :=
  let target := match whence with
                | G_SEEK_CUR => pos + d | G_SEEK_SET => d | G_SEEK_END => zlen c + d end in
  if decide (0 ≤ target ≤ zlen c) then Some target else None.

(** The bytes of an [n]-byte integer in the order [e] (G_BIG_ENDIAN or
    G_LITTLE_ENDIAN), whatever the machine. *)
Definition endian_bytes (n : nat) (e v : Z) : list Z :=
  if decide (e = G_LITTLE_ENDIAN) then le_bytes n v else reverse (le_bytes n v).

Definition endian_value (e : Z) (bs : list Z) : Z :=
  if decide (e = G_LITTLE_ENDIAN) then le_value bs else le_value (reverse bs).

(** ** Well-formed packets *)

Definition pb_owned (p : ZPktBuf) : bool := negb (pb_borrowed p).

Definition pb_wf (h : heap) (p : ZPktBuf) (c : list Z) : Prop :=
  heap_wf h ∧ zlen c = pb_length p ∧ 0 ≤ pb_pos p ≤ pb_length p ∧ pb_allocated p < 2 ^ 62 ∧
  ∃ r, region h (pb_data p) (pb_owned p) (c ++ r) ∧ zlen (c ++ r) = pb_allocated p.

Lemma z_pktbuf_new_wf : pb_wf empty_heap z_pktbuf_new [].
Proof.
  split_and!; try done. { intros b [? Hb]. cbn in Hb. by rewrite lookup_empty in Hb. }
  by exists [].
Qed.

Lemma pb_wf_len h p c : pb_wf h p c → zlen c = pb_length p ∧ 0 ≤ pb_pos p ≤ zlen c ∧ zlen c < 2 ^ 62.
Proof.
  intros (? & Hl & ? & ? & r & _ & Hr). rewrite length_app in Hr. lia.
Qed.

Lemma pb_wf_pos h p c i : pb_wf h p c → 0 ≤ i ≤ zlen c → pb_wf h (pb_with_pos i p) c.
Proof. intros (? & ? & ? & ? & ?) ?. split_and!; cbn; try done; lia. Qed.

Lemma z_pktbuf_available_ok h p c : pb_wf h p c → z_pktbuf_available p = zlen c - pb_pos p.
Proof. intros Hwf. apply pb_wf_len in Hwf. unfold z_pktbuf_available. rewrite u64_small; lia. Qed.

Section implementation.
Context `{FreshMem}.

(** *** Making room *)

Definition can_hold (p : ZPktBuf) (n : Z) : Prop := n ≤ pb_allocated p ∨ pb_borrowed p = false.

(** What [z_pktbuf_resize] does to the region, whatever [length] says. *)
Lemma z_pktbuf_resize_ok h p m size :
  heap_wf h → region h (pb_data p) (pb_owned p) m → zlen m = pb_allocated p →
  0 ≤ size → can_hold p size →
  ∃ h' p' r, z_pktbuf_resize h p size = Done (h', p') ∧ heap_wf h' ∧
    region h' (pb_data p') (pb_owned p') (m ++ r) ∧ zlen (m ++ r) = pb_allocated p' ∧
    pb_allocated p' = Z.max (pb_allocated p) size ∧
    pb_length p' = Z.min (pb_length p) size ∧ pb_pos p' = Z.min (pb_pos p) size ∧
    pb_borrowed p' = pb_borrowed p ∧ pb_ref_cnt p' = pb_ref_cnt p.
Proof.
  intros Hwf Hr Hm Hs Hh. unfold z_pktbuf_resize.
  assert (Hclip : ∀ h0 q, heap_wf h0 → ∀ r, region h0 (pb_data q) (pb_owned q) (m ++ r) →
    zlen (m ++ r) = pb_allocated q → pb_allocated q = Z.max (pb_allocated p) size →
    pb_length q = pb_length p → pb_pos q = pb_pos p → pb_borrowed q = pb_borrowed p →
    pb_ref_cnt q = pb_ref_cnt p →
    let q1 := if decide (size < pb_length q) then pb_with_length size q else q in
    let q2 := if decide (size < pb_pos q1) then pb_with_pos size q1 else q1 in
    ∃ h' p' r, Done (h0, q2) = Done (h', p') ∧ heap_wf h' ∧
      region h' (pb_data p') (pb_owned p') (m ++ r) ∧ zlen (m ++ r) = pb_allocated p' ∧
      pb_allocated p' = Z.max (pb_allocated p) size ∧
      pb_length p' = Z.min (pb_length p) size ∧ pb_pos p' = Z.min (pb_pos p) size ∧
      pb_borrowed p' = pb_borrowed p ∧ pb_ref_cnt p' = pb_ref_cnt p).
  { intros h0 q Hwf0 r0 Hr0 Hl0 Ha0 Hlen Hpos Hbo Href. eexists h0, _, r0. split; [done|].
    destruct (decide (size < pb_length q)); cbn; case_decide; cbn in *; split_and!; try done; lia. }
  case_decide as Hsize.
  - destruct Hh as [Hh|Hh]; [lia|]. rewrite require_true, Done_bind by done.
    unfold pb_owned in Hr. rewrite Hh in Hr. cbn in Hr.
    destruct (region_realloc h (pb_data p) m size Hwf Hr) as (h' & d & r & -> & Hwf' & Hr' & Hl'); [lia|].
    rewrite !Done_bind. eapply (Hclip h' (pb_with_data d size p) Hwf' r); cbn; try done; [|lia].
    unfold pb_owned. cbn. by rewrite Hh.
  - rewrite Done_bind. apply (Hclip h p Hwf []); rewrite ?app_nil_r; try done. lia.
Qed.

Lemma z_pktbuf_set_available_ok h p c n :
  pb_wf h p c → 0 ≤ n → pb_pos p + n < 2 ^ 62 → can_hold p (pb_pos p + n) →
  ∃ h' p' r, z_pktbuf_set_available h p n = Done (h', p') ∧ pb_wf h' p' (c ++ r) ∧
    zlen (c ++ r) = Z.max (zlen c) (pb_pos p + n) ∧ pb_pos p' = pb_pos p ∧
    pb_borrowed p' = pb_borrowed p ∧ pb_ref_cnt p' = pb_ref_cnt p.
Proof.
  intros Hwf Hn Hsz Hh. pose proof (pb_wf_len _ _ _ Hwf) as (Hl & Hp & Hc).
  unfold z_pktbuf_set_available. cbv zeta. rewrite u64_small by lia. case_decide.
  { exists h, p, []. rewrite app_nil_r. split_and!; try done; lia. }
  destruct Hwf as (Hhw & _ & _ & Ha & r & Hr & Hlr).
  cbn [pb_pos pb_with_length]. rewrite u64_small by lia.
  destruct (z_pktbuf_resize_ok h (pb_with_length (pb_pos p + n) p) (c ++ r) (pb_pos p + n))
    as (h' & p' & r' & -> & Hwf' & Hr' & Hlr' & Ha' & Hlen' & Hpos' & Hbo' & Href'); try done; [lia|].
  cbn in Ha', Hlen', Hpos', Hbo', Href'. rewrite <- app_assoc in Hr', Hlr'.
  set (k := Z.to_nat (pb_pos p + n - zlen c)).
  exists h', p', (take k (r ++ r')). split; [done|].
  assert (Hk : zlen (take k (r ++ r')) = pb_pos p + n - zlen c).
  { rewrite length_take. rewrite length_app in Hlr'. unfold k. lia. }
  split; [|rewrite length_app; split_and!; try done; lia].
  split_and!; [done|rewrite length_app; lia|lia|lia|lia|].
  exists (drop k (r ++ r')). by rewrite <- app_assoc, take_drop.
Qed.

(** A borrowed block is never reallocated. *)
Lemma z_pktbuf_set_available_borrowed h p c n :
  pb_wf h p c → 0 ≤ n → pb_pos p + n < 2 ^ 62 → ¬ can_hold p (pb_pos p + n) →
  z_pktbuf_set_available h p n = Fault AssertFailed.
Proof.
  intros Hwf Hn Hsz Hh. pose proof (pb_wf_len _ _ _ Hwf) as (Hl & Hp & Hc).
  destruct Hwf as (_ & _ & _ & _ & r & _ & Hlr). rewrite length_app in Hlr.
  unfold can_hold in Hh. unfold z_pktbuf_set_available. rewrite u64_small by lia.
  cbn [pb_pos pb_with_length]. rewrite u64_small, decide_False by lia.
  unfold z_pktbuf_resize. cbn.
  rewrite decide_True by lia. unfold require. rewrite decide_False by tauto. done.
Qed.

(** *** Reading and writing at the position *)

Lemma pb_wf_read h p c n :
  pb_wf h p c → 0 ≤ n → pb_pos p + n ≤ zlen c →
  h_read h (z_pktbuf_current p) n = Done (take (Z.to_nat n) (drop (Z.to_nat (pb_pos p)) c)).
Proof.
  intros Hwf Hn Hle. pose proof (pb_wf_len _ _ _ Hwf) as (Hl & Hp & Hc).
  destruct Hwf as (_ & _ & _ & _ & r & Hr & Hlr). unfold z_pktbuf_current.
  rewrite (region_read _ _ _ _ _ _ Hr) by (rewrite ?length_app; lia).
  by rewrite drop_app_le, take_app_le by (rewrite ?length_drop; lia).
Qed.

Lemma pb_wf_write h p c i bs :
  pb_wf h p c → 0 ≤ i → i + zlen bs ≤ zlen c →
  ∃ h', h_write h (ptr_add (pb_data p) i) bs = Done h' ∧
    pb_wf h' p (splice c (Z.to_nat i) bs) ∧ same_elsewhere (pb_data p) h h'.
Proof.
  intros (Hhw & Hl & Hp & Ha & r & Hr & Hlr) Hi Hle.
  destruct (region_write _ _ _ _ i bs Hhw Hr Hi) as (h' & Hw & Hhw' & Hr' & Hsame);
    [rewrite length_app; lia|].
  rewrite splice_app_l in Hr' by lia.
  assert (Hsl : length (splice c (Z.to_nat i) bs) = length c) by (apply splice_length; lia).
  exists h'. split; [done|]. split; [|done]. unfold pb_wf. split_and!; try done; try lia.
  exists r. split; [done|]. by rewrite length_app, Hsl, <- length_app.
Qed.

(** The common part of the writers: make room, write, move on. *)
Lemma put_ok h p c n bs (k : heap → ZPktBuf → outcome heap) :
  pb_wf h p c → zlen bs = n → pb_pos p + n < 2 ^ 62 → can_hold p (pb_pos p + n) →
  (∀ h' p' c', pb_wf h' p' c' → pb_pos p' = pb_pos p → pb_pos p + n ≤ zlen c' →
     ∃ h'', k h' p' = Done h'' ∧ pb_wf h'' p' (splice c' (Z.to_nat (pb_pos p)) bs)) →
  ∃ h' p', ('(h, p) ← z_pktbuf_set_available h p n; h ← k h p;
            Done (h, pb_with_pos (u64 (pb_pos p + n)) p)) = Done (h', p') ∧
    pb_wf h' p' (pk_put c (pb_pos p) bs).1 ∧ pb_pos p' = (pk_put c (pb_pos p) bs).2 ∧
    pb_borrowed p' = pb_borrowed p ∧ pb_ref_cnt p' = pb_ref_cnt p.
Proof.
  intros Hwf Hn Hsz Hh Hk. pose proof (pb_wf_len _ _ _ Hwf) as (Hl & Hp & Hc).
  destruct (z_pktbuf_set_available_ok h p c n Hwf) as
    (h1 & p1 & r & -> & Hwf1 & Hlr & Hp1 & Hb1 & Hr1); [lia..|done|].
  rewrite Done_bind.
  destruct (Hk _ _ _ Hwf1) as (h2 & -> & Hwf2); [lia..|].
  rewrite Done_bind, Hp1, u64_small by lia.
  eexists _, _; split; [done|]. cbn. rewrite Hn. split_and!; try done.
  rewrite splice_extend in Hwf2; [|lia|].
  - apply pb_wf_pos; [done|]. unfold splice. rewrite !length_app, length_take. lia.
  - rewrite length_app in *. destruct r; [by right|left; cbn in *; lia].
Qed.
End implementation.

(** ** Integers in memory *)

Lemma le_bytes_length n v : length (le_bytes n v) = n.
Proof. revert v. induction n as [|n IH]; intros v; cbn; [done|by rewrite IH]. Qed.

Lemma le_bytes_bytes n v : bytes (le_bytes n v).
Proof.
  revert v. induction n as [|n IH]; intros v; cbn; [constructor|]. constructor; [|apply IH].
  apply (Z.mod_pos_bound v 256). lia.
Qed.

Lemma le_value_le_bytes n v : le_value (le_bytes n v) = v `mod` 256 ^ Z.of_nat n.
Proof.
  revert v. induction n as [|n IH]; intros v; cbn [le_bytes le_value].
  - by rewrite Z.mod_1_r.
  - rewrite IH, Nat2Z.inj_succ, Z.pow_succ_r by lia.
    rewrite Z.rem_mul_r by lia. lia.
Qed.

Lemma le_bytes_le_value bs : bytes bs → le_bytes (length bs) (le_value bs) = bs.
Proof.
  induction 1 as [|b bs Hb Hbs IH]; [done|]. cbn [length le_value le_bytes].
  unfold is_byte in Hb. rewrite (Z.mul_comm 256), Z.mod_add, Z.div_add by lia.
  by rewrite Z.mod_small, Z.div_small, Z.add_0_l, IH by lia.
Qed.

Lemma le_value_range bs : bytes bs → 0 ≤ le_value bs < 256 ^ zlen bs.
Proof.
  induction 1 as [|b bs Hb Hbs IH]; cbn [le_value length]; [lia|].
  unfold is_byte in Hb. rewrite Nat2Z.inj_succ, Z.pow_succ_r by lia. lia.
Qed.

Definition endian_ok (e : Z) : Prop := e = G_LITTLE_ENDIAN ∨ e = G_BIG_ENDIAN.

(** The stored bytes and the read value depend on the requested order only. *)
Lemma host_bytes_endian host n e d :
  endian_ok host → endian_ok e →
  host_bytes host n (if decide (e = host) then d else swap_bytes n d) = endian_bytes n e d.
Proof.
  unfold endian_ok, host_bytes, endian_bytes, swap_bytes.
  assert (Hr : le_bytes n (le_value (reverse (le_bytes n d))) = reverse (le_bytes n d)).
  { rewrite <- (le_bytes_length n d) at 1. rewrite <- length_reverse.
    apply le_bytes_le_value, Forall_reverse, le_bytes_bytes. }
  unfold G_LITTLE_ENDIAN, G_BIG_ENDIAN.
  intros [->| ->] [->| ->]; decide_lia; by rewrite ?Hr, ?reverse_involutive.
Qed.

Lemma host_value_endian host e bs :
  endian_ok host → endian_ok e → bytes bs →
  (if decide (e = host) then host_value host bs
   else swap_bytes (length bs) (host_value host bs)) = endian_value e bs.
Proof.
  unfold endian_ok, host_value, endian_value, swap_bytes, G_LITTLE_ENDIAN, G_BIG_ENDIAN.
  intros [->| ->] [->| ->] Hbs; decide_lia; try done.
  - by rewrite le_bytes_le_value.
  - rewrite <- (length_reverse bs) at 1. rewrite le_bytes_le_value by by apply Forall_reverse.
    by rewrite reverse_involutive.
Qed.

Lemma endian_bytes_length n e v : length (endian_bytes n e v) = n.
Proof. unfold endian_bytes. case_decide; by rewrite ?length_reverse, le_bytes_length. Qed.

Lemma endian_bytes_bytes n e v : bytes (endian_bytes n e v).
Proof.
  unfold endian_bytes. case_decide; [apply le_bytes_bytes|].
  apply Forall_reverse, le_bytes_bytes.
Qed.

Lemma endian_value_bytes n e v :
  0 ≤ v < 256 ^ Z.of_nat n → endian_value e (endian_bytes n e v) = v.
Proof.
  intros Hv. unfold endian_value, endian_bytes. case_decide;
    by rewrite ?reverse_involutive, le_value_le_bytes, Z.mod_small.
Qed.

(** ** The operations *)

Section operations.
Context `{FreshMem} (host : Z) (Hhost : endian_ok host).

(** Writers: the packet of the specification, or the assertion for a borrowed
    block that is too small. *)
Definition writes (m : outcome (heap * ZPktBuf)) (h : heap) (p : ZPktBuf) (c bs : list Z) : Prop :=
  (can_hold p (pb_pos p + zlen bs) →
   ∃ h' p', m = Done (h', p') ∧ pb_wf h' p' (pk_put c (pb_pos p) bs).1 ∧
     pb_pos p' = (pk_put c (pb_pos p) bs).2 ∧ pb_borrowed p' = pb_borrowed p ∧
     pb_ref_cnt p' = pb_ref_cnt p) ∧
  (¬ can_hold p (pb_pos p + zlen bs) → m = Fault AssertFailed).

Lemma put_writes h p c n bs (k : heap → ZPktBuf → outcome heap) :
  pb_wf h p c → zlen bs = n → pb_pos p + n < 2 ^ 62 →
  (∀ h' p' c', pb_wf h' p' c' → pb_pos p' = pb_pos p → pb_pos p + n ≤ zlen c' →
     ∃ h'', k h' p' = Done h'' ∧ pb_wf h'' p' (splice c' (Z.to_nat (pb_pos p)) bs)) →
  writes ('(h, p) ← z_pktbuf_set_available h p n; h ← k h p;
          Done (h, pb_with_pos (u64 (pb_pos p + n)) p)) h p c bs.
Proof.
  intros Hwf Hn Hsz Hk. split; rewrite Hn; intros Hh.
  - destruct (put_ok h p c n bs k) as (h' & p' & ? & ?); eauto.
  - rewrite (z_pktbuf_set_available_borrowed _ _ _ _ Hwf) by (done || lia). done.
Qed.

Lemma write_here h p c bs :
  pb_wf h p c → pb_pos p + zlen bs ≤ zlen c →
  ∃ h', h_write h (z_pktbuf_current p) bs = Done h' ∧
        pb_wf h' p (splice c (Z.to_nat (pb_pos p)) bs).
Proof.
  intros Hwf Hle. pose proof (pb_wf_len _ _ _ Hwf) as (Hl & Hp & Hc).
  destruct (pb_wf_write h p c (pb_pos p) bs Hwf) as (h' & ? & ? & _); [lia..|]. eauto.
Qed.

Lemma put_uint_writes n h p c e d :
  endian_ok e → pb_wf h p c → pb_pos p + Z.of_nat n < 2 ^ 62 →
  writes (put_uint host n h p e d) h p c (endian_bytes n e d).
Proof.
  intros He Hwf Hsz. unfold put_uint.
  apply (put_writes h p c (Z.of_nat n) (endian_bytes n e d)
    (λ h p, h_write h (z_pktbuf_current p)
       (host_bytes host n (if decide (e = host) then d else swap_bytes n d)))); try done.
  - by rewrite endian_bytes_length.
  - intros h' p' c' Hwf' Hp' Hle'. rewrite host_bytes_endian, <- Hp' by done.
    apply write_here; [done|]. rewrite endian_bytes_length. lia.
Qed.

Lemma put_u8_writes h p c d :
  pb_wf h p c → pb_pos p + 1 < 2 ^ 62 → writes (z_pktbuf_put_u8 h p d) h p c [d].
Proof.
  intros Hwf Hsz.
  apply (put_writes h p c 1 [d] (λ h p, h_write h (z_pktbuf_current p) [d])); try done.
  intros h' p' c' Hwf' Hp' Hle'. rewrite <- Hp'. apply write_here; [done|cbn; lia].
Qed.

Lemma get_uint_reads n h p c e :
  endian_ok e → pb_wf h p c → bytes c → Z.of_nat n < 2 ^ 62 →
  get_uint host n h p e true =
  Done (match pk_get c (pb_pos p) (Z.of_nat n) with
        | Some (bs, pos') => (true, Some (endian_value e bs), pb_with_pos pos' p)
        | None => (false, None, p)
        end).
Proof.
  intros He Hwf Hbs Hn. pose proof (pb_wf_len _ _ _ Hwf) as (Hl & Hp & Hc).
  unfold get_uint, pk_get. rewrite (z_pktbuf_available_ok _ _ _ Hwf).
  destruct (decide (pb_pos p + Z.of_nat n ≤ zlen c)).
  - rewrite decide_False by lia. rewrite (pb_wf_read _ _ _ _ Hwf) by lia.
    rewrite !Done_bind, u64_small by lia. do 4 f_equal.
    rewrite <- (host_value_endian host e) by (try done; by apply Forall_take, Forall_drop).
    case_decide; [done|]. f_equal. rewrite length_take, length_drop. lia.
  - by rewrite decide_True by lia.
Qed.

Lemma seek_target h p c whence d :
  pb_wf h p c → - 2 ^ 63 < d < 2 ^ 63 →
  z_pktbuf_seek p whence d =
  Done (match pk_seek c (pb_pos p) whence d with
        | Some pos' => (true, pb_with_pos pos' p)
        | None => (false, p)
        end).
Proof.
  intros Hwf Hd. pose proof (pb_wf_len _ _ _ Hwf) as (Hl & Hp & Hc).
  assert (Hs : ∀ x, 0 ≤ x < 2 ^ 63 → s64 x = x)
    by (intros x Hx; unfold s64; rewrite Z.mod_small; lia).
  unfold z_pktbuf_seek, pk_seek. rewrite <- Hl. destruct whence.
  - destruct (decide (0 ≤ pb_pos p + d)).
    + rewrite u64_small, Hs by lia. destruct (decide (pb_pos p + d ≤ zlen c)); decide_lia.
      * by rewrite require_true, Done_bind by lia; decide_lia.
      * done.
    + assert (Hu : u64 (pb_pos p + d) = pb_pos p + d + 2 ^ 64).
      { unfold u64. rewrite <- (Z_mod_plus_full _ 1). apply Z.mod_small. lia. }
      rewrite Hu. decide_lia. done.
  - rewrite Hs by lia. destruct (decide (0 ≤ d ≤ zlen c)); decide_lia; done.
  - destruct (decide (d > 0)); decide_lia; [done|].
    rewrite require_true, Done_bind, Hs by lia.
    destruct (decide (0 ≤ zlen c + d)); decide_lia; [|done]. by rewrite u64_small by lia.
Qed.

(** *** Arrays *)

(** The write loop puts the remaining values behind those already written. *)
Lemma swap_write_loop_ok w e n all fuel : ∀ h p c i vs pre,
  endian_ok e → e ≠ host → (0 < w)%nat → pb_wf h p c → all = pre ++ vs →
  n = Z.of_nat w * (zlen pre + zlen vs) → n < 2 ^ 32 → pb_pos p + n ≤ zlen c →
  i = Z.of_nat w * zlen pre → (length vs ≤ fuel)%nat →
  ∃ h', swap_write_loop host fuel w h (z_pktbuf_current p) i n all = Done h' ∧
        pb_wf h' p (splice c (Z.to_nat (pb_pos p + i)) (vs ≫= endian_bytes w e)).
Proof.
  induction fuel as [|fuel IH]; intros h p c i [|v vs] pre He Hne Hw Hwf Hall Hn Hlt Hle Hi Hf;
    pose proof (pb_wf_len _ _ _ Hwf) as (Hl & Hp & Hc); cbn [length] in *; try lia;
    [exists h; rewrite splice_nil; split; [|done]; cbn [swap_write_loop];
     rewrite decide_True by nia; done..|].
  cbn [swap_write_loop]. rewrite decide_False by nia. subst i.
  rewrite (Z.mul_comm (Z.of_nat w) (zlen pre)), Z.div_mul by lia.
  rewrite (proj2 (load_Done all (zlen pre) v)), Done_bind
    by (split; [lia|]; by rewrite Nat2Z.id, Hall, list_lookup_middle).
  assert (Hhb : host_bytes host w (swap_bytes w v) = endian_bytes w e v)
    by (rewrite <- (host_bytes_endian host) by done; by rewrite decide_False).
  assert (Hcur : ptr_add (z_pktbuf_current p) (zlen pre * Z.of_nat w) =
                 ptr_add (pb_data p) (pb_pos p + zlen pre * Z.of_nat w))
    by (unfold z_pktbuf_current; destruct (pb_data p); cbn; f_equal; lia).
  rewrite Hhb, Hcur.
  destruct (pb_wf_write h p c (pb_pos p + zlen pre * Z.of_nat w) (endian_bytes w e v) Hwf)
    as (h1 & -> & Hwf1 & _); [nia|rewrite endian_bytes_length; nia|].
  rewrite Done_bind. set (c1 := splice c _ _) in *.
  assert (Hc1 : length c1 = length c) by (apply splice_length; rewrite endian_bytes_length; nia).
  destruct (IH h1 p c1 (u32 (zlen pre * Z.of_nat w + Z.of_nat w)) vs (pre ++ [v]))
    as (h2 & Hl2 & Hwf2); try done; rewrite ?length_app; cbn [length]; try nia.
  - by rewrite <- app_assoc.
  - unfold u32. rewrite Z.mod_small; nia.
  - exists h2. split; [done|].
    change ((v :: vs) ≫= endian_bytes w e) with (endian_bytes w e v ++ (vs ≫= endian_bytes w e)).
    unfold c1 in Hwf2. unfold u32 in Hwf2. rewrite Z.mod_small in Hwf2 by nia.
    rewrite <- splice_splice; rewrite endian_bytes_length.
    + replace (Z.to_nat (pb_pos p + zlen pre * Z.of_nat w) + w)%nat with
        (Z.to_nat (pb_pos p + (zlen pre * Z.of_nat w + Z.of_nat w))) by lia. done.
    + rewrite length_bind_const with (n := w); [nia|]. intros; apply endian_bytes_length.
Qed.

(** The values of an array in the order [e]. *)
Fixpoint endian_values (e : Z) (w count : nat) (bs : list Z) : list Z :=
  match count with
  | O => []
  | S count => endian_value e (take w bs) :: endian_values e w count (drop w bs)
  end.

Lemma swap_read_loop_ok w e n h p c fuel : ∀ i j count,
  endian_ok e → e ≠ host → (0 < w)%nat → pb_wf h p c → bytes c →
  n = Z.of_nat w * (j + Z.of_nat count) → n < 2 ^ 32 → pb_pos p + n ≤ zlen c →
  0 ≤ j → i = Z.of_nat w * j → (count ≤ fuel)%nat →
  swap_read_loop host fuel w h (z_pktbuf_current p) i n =
  Done (endian_values e w count (drop (Z.to_nat (pb_pos p + i)) c)).
Proof.
  induction fuel as [|fuel IH]; intros i j [|count] He Hne Hw Hwf Hbs Hn Hlt Hle Hj Hi Hf;
    pose proof (pb_wf_len _ _ _ Hwf) as (Hl & Hp & Hc); cbn [swap_read_loop endian_values]; try lia;
    [by rewrite decide_True by nia..|].
  rewrite decide_False by nia.
  assert (Hrd : h_read h (ptr_add (z_pktbuf_current p) i) (Z.of_nat w) =
                Done (take w (drop (Z.to_nat (pb_pos p + i)) c))).
  { pose proof (pb_wf_read h (pb_with_pos (pb_pos p + i) p) c (Z.of_nat w)) as Hr.
    rewrite Nat2Z.id in Hr. cbn [pb_pos pb_with_pos] in Hr. rewrite <- Hr; [|apply pb_wf_pos; [done|nia]|lia|cbn; nia].
    f_equal. unfold z_pktbuf_current. cbn. destruct (pb_data p); cbn; f_equal; lia. }
  rewrite Hrd, Done_bind, (IH _ (j + 1) count); try done; try nia.
  - rewrite Done_bind. f_equal. f_equal.
    + rewrite <- (host_value_endian host e) by (try done; by apply Forall_take, Forall_drop).
      rewrite decide_False by done. f_equal. rewrite length_take, length_drop. nia.
    + rewrite drop_drop. f_equal. f_equal. unfold u32. rewrite Z.mod_small; nia.
  - unfold u32. rewrite Z.mod_small; nia.
Qed.

Lemma host_values_endian w count bs :
  bytes bs → (w * count ≤ length bs)%nat → host_values host w count bs = endian_values host w count bs.
Proof.
  revert bs. induction count as [|count IH]; intros bs Hbs Hlen; [done|].
  cbn [host_values endian_values]. f_equal.
  apply IH; [by apply Forall_drop|]. rewrite length_drop. lia.
Qed.

Lemma endian_values_take e w count bs m :
  (w * count ≤ m)%nat → endian_values e w count (take m bs) = endian_values e w count bs.
Proof.
  revert bs m. induction count as [|count IH]; intros bs m Hm; cbn; [done|].
  rewrite take_take, Nat.min_l by lia. f_equal. rewrite skipn_firstn_comm. apply IH. lia.
Qed.

Lemma endian_values_concat e w vs tl :
  Forall (λ v, 0 ≤ v < 256 ^ Z.of_nat w) vs →
  endian_values e w (length vs) ((vs ≫= endian_bytes w e) ++ tl) = vs.
Proof.
  induction 1 as [|v vs Hv Hvs IH]; [done|]. cbn [length endian_values].
  change ((v :: vs) ≫= endian_bytes w e) with (endian_bytes w e v ++ (vs ≫= endian_bytes w e)).
  rewrite <- app_assoc, take_app_length', drop_app_length' by by rewrite endian_bytes_length.
  by rewrite endian_value_bytes, IH.
Qed.

(** The width of the elements, and the size of the array in bytes. *)
Definition array_ok (k : Z) (e count : Z) : Prop :=
  0 ≤ k ∧ 0 ≤ count ∧ count * 2 ^ k < 2 ^ 61 ∧ (e = host ∨ count * 2 ^ k < 2 ^ 32).

Lemma array_size k e count :
  array_ok k e count →
  u64 (Z.shiftl count k) = count * 2 ^ k ∧ Z.shiftr (count * 2 ^ k) k = count ∧
  Z.of_nat (Z.to_nat (2 ^ k)) = 2 ^ k ∧ (0 < Z.to_nat (2 ^ k))%nat.
Proof.
  intros (Hk & Hc & Hs & _). pose proof (Z.pow_pos_nonneg 2 k ltac:(lia) Hk).
  rewrite Z.shiftl_mul_pow2, u64_small by lia.
  rewrite Z.shiftr_div_pow2, Z.div_mul by lia. split_and!; lia.
Qed.

Lemma put_uints_writes k h p c e vs :
  array_ok k e (zlen vs) → endian_ok e → pb_wf h p c →
  pb_pos p + zlen vs * 2 ^ k < 2 ^ 62 →
  writes (put_uints host k h p e (zlen vs) (Some vs)) h p c
    (vs ≫= endian_bytes (Z.to_nat (2 ^ k)) e).
Proof.
  intros Ha He Hwf Hsz. destruct (array_size _ _ _ Ha) as (Hu & Hsh & Hw & Hw0).
  destruct Ha as (Hk & Hc & Hs & Ho). unfold put_uints. cbv zeta. rewrite Hu.
  set (w := Z.to_nat (2 ^ k)) in *.
  assert (Hlen : zlen (vs ≫= endian_bytes w e) = zlen vs * 2 ^ k).
  { rewrite length_bind_const with (n := w); [nia|]. intros; apply endian_bytes_length. }
  apply (put_writes h p c (zlen vs * 2 ^ k) (vs ≫= endian_bytes w e) (λ h p,
    if decide (e = host)
    then d ← load_range vs 0 (Z.shiftr (zlen vs * 2 ^ k) k);
         h_write h (z_pktbuf_current p) (d ≫= host_bytes host w)
    else swap_write_loop host (Z.to_nat (Z.shiftr (zlen vs * 2 ^ k) k)) w h (z_pktbuf_current p) 0
           (zlen vs * 2 ^ k) vs)); try done.
  intros h' p' c' Hwf' Hp' Hle'. rewrite Hsh, Nat2Z.id, <- Hp'. case_decide as Hee.
  - rewrite load_range_ok, Done_bind by lia. rewrite drop_0, take_ge by lia.
    assert (Hb : vs ≫= host_bytes host w = vs ≫= endian_bytes w e).
    { clear -Hee Hhost. subst e. induction vs as [|v vs IH]; [done|].
      change (host_bytes host w v ++ (vs ≫= host_bytes host w) =
              endian_bytes w host v ++ (vs ≫= endian_bytes w host)).
      rewrite IH, <- (host_bytes_endian host w host) by done. by rewrite decide_True. }
    rewrite Hb. apply write_here; [done|lia].
  - destruct (swap_write_loop_ok w e (zlen vs * 2 ^ k) vs (length vs) h' p' c' 0 vs [])
      as (h2 & Hl2 & Hwf2); try done; cbn [length]; try lia.
    exists h2. split; [done|]. by rewrite Z.add_0_r in Hwf2.
Qed.

Lemma get_uints_reads k h p c e count :
  array_ok k e count → endian_ok e → pb_wf h p c → bytes c →
  get_uints host k h p e count true =
  Done (match pk_get c (pb_pos p) (count * 2 ^ k) with
        | Some (bs, pos') =>
            (true, Some (endian_values e (Z.to_nat (2 ^ k)) (Z.to_nat count) bs), pb_with_pos pos' p)
        | None => (false, None, p)
        end).
Proof.
  intros Ha He Hwf Hbs. destruct (array_size _ _ _ Ha) as (Hu & Hsh & Hw & Hw0).
  pose proof (pb_wf_len _ _ _ Hwf) as (Hl & Hp & Hc).
  destruct Ha as (Hk & Hc0 & Hs & Ho). unfold get_uints, pk_get. cbv zeta. rewrite Hu, Hsh.
  rewrite (z_pktbuf_available_ok _ _ _ Hwf). set (w := Z.to_nat (2 ^ k)) in *.
  destruct (decide (pb_pos p + count * 2 ^ k ≤ zlen c)); decide_lia; [|done].
  case_decide as Hee.
  - rewrite (pb_wf_read _ _ _ _ Hwf) by lia.
    rewrite !Done_bind, u64_small by lia. do 4 f_equal. rewrite Hee.
    apply host_values_endian; [by apply Forall_take, Forall_drop|].
    rewrite length_take, length_drop. nia.
  - rewrite (swap_read_loop_ok w e (count * 2 ^ k) h p c _ 0 0 (Z.to_nat count)); try done; try nia.
    rewrite !Done_bind, u64_small, Z.add_0_r by lia. do 4 f_equal.
    symmetry. apply endian_values_take. nia.
Qed.

(** *** The buffer as a whole *)

(** Looking at a packet as if its length were [n]. *)
Lemma pb_wf_extend h p c n :
  pb_wf h p c → zlen c ≤ n ≤ pb_allocated p →
  ∃ r, pb_wf h (pb_with_length n p) (c ++ r) ∧ zlen (c ++ r) = n.
Proof.
  intros (Hhw & Hl & Hp & Ha & r & Hr & Hlr) Hn.
  set (k := Z.to_nat (n - zlen c)). exists (take k r).
  assert (Hk : zlen (c ++ take k r) = n)
    by (rewrite length_app, length_take in *; unfold k; lia).
  split; [|done]. unfold pb_wf; cbn. split_and!; try done; try lia.
  exists (drop k r). by rewrite <- app_assoc, take_drop.
Qed.

Lemma z_pktbuf_grow_ok h p c n :
  pb_wf h p c → zlen c ≤ n < 2 ^ 62 → can_hold p n →
  ∃ h' p', z_pktbuf_resize h p n = Done (h', p') ∧ pb_wf h' p' c ∧ n ≤ pb_allocated p' ∧
    pb_pos p' = pb_pos p ∧ pb_length p' = pb_length p.
Proof.
  intros Hwf Hn Hh. pose proof (pb_wf_len _ _ _ Hwf) as (Hl & Hp & Hc).
  destruct Hwf as (Hhw & _ & _ & Ha & r & Hr & Hlr).
  destruct (z_pktbuf_resize_ok h p (c ++ r) n) as
    (h' & p' & r' & -> & Hwf' & Hr' & Hlr' & Ha' & Hlen' & Hpos' & _); try done; [lia|].
  rewrite <- app_assoc in *.
  exists h', p'. split; [done|]. split; [|lia]. split_and!; try done; try lia.
  by exists (r ++ r').
Qed.

Lemma append_ok h p c data :
  pb_wf h p c → zlen c + zlen data < 2 ^ 62 → can_hold p (zlen c + zlen data) →
  ∃ h' p', z_pktbuf_append h p data = Done (h', p') ∧ pb_wf h' p' (c ++ data) ∧
    pb_pos p' = pb_pos p.
Proof.
  intros Hwf Hsz Hh. pose proof (pb_wf_len _ _ _ Hwf) as (Hl & Hp & Hc).
  unfold z_pktbuf_append. rewrite <- Hl, u64_small by lia.
  destruct (z_pktbuf_grow_ok h p c (zlen c + zlen data) Hwf) as (h1 & p1 & -> & Hwf1 & Ha1 & Hp1 & Hl1);
    [lia|done|]. rewrite Done_bind.
  destruct (pb_wf_extend h1 p1 c (zlen c + zlen data) Hwf1) as (r & Hwf2 & Hlr); [lia|].
  destruct (pb_wf_write _ _ _ (zlen c) data Hwf2) as (h2 & Hw & Hwf3 & _); [lia..|].
  cbn in Hw. rewrite Hl1, <- Hl, Hw, Done_bind, u64_small by lia.
  eexists _, _. split; [done|]. split; [|done].
  rewrite length_app in Hlr. unfold splice in Hwf3.
  rewrite take_app_length', (drop_ge (c ++ r)), app_nil_r in Hwf3 by (rewrite ?length_app; lia).
  done.
Qed.

Lemma insert_ok h p c i data :
  pb_wf h p c → 0 ≤ i ≤ zlen c → zlen c + zlen data < 2 ^ 62 → can_hold p (zlen c + zlen data) →
  ∃ h' p', z_pktbuf_insert h p i data = Done (h', p') ∧
    pb_wf h' p' (take (Z.to_nat i) c ++ data ++ drop (Z.to_nat i) c) ∧ pb_pos p' = pb_pos p.
Proof.
  intros Hwf Hi Hsz Hh. pose proof (pb_wf_len _ _ _ Hwf) as (Hl & Hp & Hc).
  unfold z_pktbuf_insert. cbv zeta. rewrite <- Hl, u64_small by lia.
  destruct (z_pktbuf_grow_ok h p c (zlen c + zlen data) Hwf) as (h1 & p1 & -> & Hwf1 & Ha1 & Hp1 & Hl1);
    [lia|done|]. rewrite Done_bind, Hl1, <- Hl, (u64_small (zlen c - i)) by lia.
  pose proof (pb_wf_read h1 (pb_with_pos i p1) c (zlen c - i)) as Hrd.
  unfold z_pktbuf_current in Hrd. cbn [pb_pos pb_data pb_with_pos] in Hrd.
  rewrite Hrd, Done_bind by (try (by apply pb_wf_pos); lia).
  rewrite take_ge by (rewrite length_drop; lia). set (tl := drop (Z.to_nat i) c).
  assert (Htl : zlen tl = zlen c - i) by (unfold tl; rewrite length_drop; lia).
  destruct (pb_wf_extend h1 p1 c (zlen c + zlen data) Hwf1) as (r & Hwf2 & Hlr); [lia|].
  destruct (pb_wf_write _ _ _ (i + zlen data) tl Hwf2) as (h2 & Hw & Hwf3 & _); [lia..|].
  cbn in Hw. rewrite Hw, Done_bind.
  set (c2 := splice (c ++ r) _ tl) in *.
  assert (Hc2 : length c2 = length (c ++ r)) by (apply splice_length; lia).
  destruct (pb_wf_write _ _ _ i data Hwf3) as (h3 & Hw3 & Hwf4 & _); [lia..|].
  cbn in Hw3. rewrite Hw3, Done_bind, u64_small by lia.
  eexists _, _. split; [done|]. split; [|done].
  enough (splice c2 (Z.to_nat i) data = take (Z.to_nat i) c ++ data ++ tl) as <- by done.
  unfold splice. f_equal; [|f_equal]; unfold c2, splice.
  - rewrite take_app_le by (rewrite length_take; lia). rewrite take_take, Nat.min_l by lia.
    by rewrite take_app_le by lia.
  - rewrite drop_app_length' by (rewrite length_take; lia).
    rewrite (drop_ge (c ++ r)), app_nil_r by lia. done.
Qed.

Lemma copy_ok h p c data :
  pb_wf h p c → zlen data < 2 ^ 62 → can_hold p (zlen data) →
  ∃ h' p', z_pktbuf_copy h p data = Done (h', p') ∧ pb_wf h' p' data ∧
    pb_pos p' = Z.min (pb_pos p) (zlen data).
Proof.
  intros Hwf Hsz Hh. pose proof (pb_wf_len _ _ _ Hwf) as (Hl & Hp & Hc).
  destruct Hwf as (Hhw & _ & _ & Ha & r & Hr & Hlr). unfold z_pktbuf_copy. cbv zeta.
  destruct (z_pktbuf_resize_ok h p (c ++ r) (zlen data)) as
    (h1 & p1 & r1 & -> & Hwf1 & Hr1 & Hlr1 & Ha1 & Hlen1 & Hpos1 & _); try done; [lia|].
  rewrite Done_bind. rewrite (decide_False (P := _ < pb_pos p1)) by lia.
  destruct (region_write h1 (pb_data p1) _ _ 0 data Hwf1 Hr1) as (h2 & Hw & Hwf2 & Hr2 & _); [lia..|].
  assert (Hp0 : ptr_add (pb_data p1) 0 = pb_data p1) by (destruct (pb_data p1); cbn; f_equal; lia).
  rewrite Hp0 in Hw. cbn [pb_data pb_with_length]. rewrite Hw, Done_bind.
  eexists _, _. split; [done|]. cbn. split; [|lia]. split_and!; cbn; try done; try lia.
  exists (drop (length data) ((c ++ r) ++ r1)). split; [done|].
  rewrite length_app, length_drop. lia.
Qed.
End operations.

(** A packet that owns one block, to state concrete inputs. *)
Definition block_heap (b : list Z) : heap := mkHeap {[0%nat := b]} 1.
Definition block_packet (b : list Z) (pos : Z) : ZPktBuf :=
  mkPktBuf 1 (zlen b) (zlen b) pos false (At 0 0).

Lemma block_packet_wf b pos :
  0 ≤ pos ≤ zlen b → zlen b < 2 ^ 62 → pb_wf (block_heap b) (block_packet b pos) b.
Proof.
  intros. split_and!; cbn; try done; try lia.
  - intros k. cbn. rewrite lookup_singleton_is_Some. lia.
  - exists []. rewrite app_nil_r. split; [|done]. exists [], [].
    cbn. by rewrite lookup_singleton_eq, app_nil_r.
Qed.

(** ** Theorems *)

(** z_pktbuf_put_u16, _u32 and _u64 overwrite the packet at its position with
    the bytes of the value in the requested order, on a machine of either byte
    order, extend it if needed and move the position behind; only a borrowed
    buffer that is too small trips the assertion. *)
Theorem put_uint_spec `{FreshMem} (host : Z) (n : nat) (h : heap) (p : ZPktBuf) (c : list Z) (e d : Z) :
  endian_ok host → endian_ok e → pb_wf h p c → pb_pos p + Z.of_nat n < 2 ^ 62 →
  (can_hold p (pb_pos p + Z.of_nat n) →
   ∃ h' p', put_uint host n h p e d = Done (h', p') ∧
     pb_wf h' p' (pk_put c (pb_pos p) (endian_bytes n e d)).1 ∧
     pb_pos p' = pb_pos p + Z.of_nat n) ∧
  (¬ can_hold p (pb_pos p + Z.of_nat n) → put_uint host n h p e d = Fault AssertFailed).
Proof.
  intros Hhost He Hwf Hsz.
  pose proof (put_uint_writes host Hhost n h p c e d He Hwf Hsz) as [Hok Hbad].
  rewrite endian_bytes_length in *. split; [|done].
  intros Hh. destruct (Hok Hh) as (h' & p' & ? & ? & Hp' & _). exists h', p'.
  split_and!; [done..|]. rewrite Hp'. cbn. by rewrite endian_bytes_length.
Qed.

Lemma put_uint_spec_witness :
  (∃ h' p', z_pktbuf_put_u32 (H := zero_mem) G_LITTLE_ENDIAN (block_heap [9; 9; 9]) (block_packet [9; 9; 9] 1)
      G_BIG_ENDIAN 258 = Done (h', p') ∧ pb_wf h' p' [9; 0; 0; 1; 2] ∧ pb_pos p' = 1 + 4) ∧
  z_pktbuf_put_u32 (H := zero_mem) G_LITTLE_ENDIAN (block_heap [9; 9; 9])
    (z_pktbuf_part (block_packet [9; 9; 9] 0) 1 2) G_BIG_ENDIAN 258 = Fault AssertFailed.
Proof.
  split.
  - apply (put_uint_spec (H := zero_mem) G_LITTLE_ENDIAN 4 (block_heap [9; 9; 9])
      (block_packet [9; 9; 9] 1) [9; 9; 9] G_BIG_ENDIAN 258); [by left|by right| |done|by right].
    by apply block_packet_wf.
  - apply (put_uint_spec (H := zero_mem) G_LITTLE_ENDIAN 4 (block_heap [9; 9; 9])
      (z_pktbuf_part (block_packet [9; 9; 9] 0) 1 2) [9; 9] G_BIG_ENDIAN 258);
      [by left|by right| |done|by intros [?|?]].
    destruct (block_packet_wf [9; 9; 9] 0) as (? & _); [done..|].
    split_and!; try done. exists []. split; [|done]. by exists [9], [].
Defined.

(** z_pktbuf_get_u16, _u32 and _u64 return FALSE and change nothing when the
    rest of the packet is too short, and otherwise the value of the next bytes in
    the requested order, on a machine of either byte order; they never leave the
    buffer. *)
Theorem get_uint_spec (host : Z) (n : nat) (h : heap) (p : ZPktBuf) (c : list Z) (e : Z) :
  endian_ok host → endian_ok e → pb_wf h p c → bytes c → Z.of_nat n < 2 ^ 62 →
  get_uint host n h p e true =
  Done (match pk_get c (pb_pos p) (Z.of_nat n) with
        | Some (bs, pos') => (true, Some (endian_value e bs), pb_with_pos pos' p)
        | None => (false, None, p)
        end).
Proof. intros. by apply get_uint_reads. Qed.

Lemma get_uint_spec_witness :
  z_pktbuf_get_u16 G_BIG_ENDIAN (block_heap [7; 1; 2]) (block_packet [7; 1; 2] 1) G_LITTLE_ENDIAN true =
    Done (true, Some 513, block_packet [7; 1; 2] 3) ∧
  z_pktbuf_get_u16 G_BIG_ENDIAN (block_heap [7; 1; 2]) (block_packet [7; 1; 2] 2) G_LITTLE_ENDIAN true =
    Done (false, None, block_packet [7; 1; 2] 2).
Proof.
  split.
  - apply (get_uint_spec G_BIG_ENDIAN 2 (block_heap [7; 1; 2]) (block_packet [7; 1; 2] 1) [7; 1; 2]
      G_LITTLE_ENDIAN); [by right|by left|by apply block_packet_wf|by repeat constructor|done].
  - apply (get_uint_spec G_BIG_ENDIAN 2 (block_heap [7; 1; 2]) (block_packet [7; 1; 2] 2) [7; 1; 2]
      G_LITTLE_ENDIAN); [by right|by left|by apply block_packet_wf|by repeat constructor|done].
Defined.

(** C22: An array of integers written with z_pktbuf_put_u16s, _u32s or _u64s is read
    back by the corresponding getter after seeking to where it was written, in
    either byte order on a machine of either byte order. *)
Theorem put_get_uints_roundtrip `{FreshMem} (host k : Z) (h : heap) (p : ZPktBuf) (c : list Z)
    (e : Z) (vs : list Z) :
  endian_ok host → endian_ok e → array_ok host k e (zlen vs) → pb_wf h p c → bytes c →
  Forall (λ v, 0 ≤ v < 256 ^ 2 ^ k) vs →
  pb_pos p + zlen vs * 2 ^ k < 2 ^ 62 → can_hold p (pb_pos p + zlen vs * 2 ^ k) →
  ∃ h1 p1 p2, put_uints host k h p e (zlen vs) (Some vs) = Done (h1, p1) ∧
    z_pktbuf_seek p1 G_SEEK_SET (pb_pos p) = Done (true, p2) ∧
    get_uints host k h1 p2 e (zlen vs) true = Done (true, Some vs, p1).
Proof.
  intros Hhost He Ha Hwf Hbs Hvs Hsz Hh.
  destruct (array_size host _ _ _ Ha) as (_ & _ & Hw & _).
  pose proof (put_uints_writes host Hhost k h p c e vs Ha He Hwf Hsz) as [Hok _].
  set (w := Z.to_nat (2 ^ k)) in *. set (bs := vs ≫= endian_bytes w e) in *.
  assert (Hlen : zlen bs = zlen vs * 2 ^ k).
  { unfold bs. rewrite length_bind_const with (n := w); [nia|]. intros; apply endian_bytes_length. }
  rewrite Hlen in Hok. destruct (Hok Hh) as (h1 & p1 & Hput & Hwf1 & Hp1 & _).
  cbn in Hp1. rewrite Hlen in Hp1.
  pose proof (pb_wf_len _ _ _ Hwf) as (Hl & Hp & Hc).
  pose proof (pb_wf_len _ _ _ Hwf1) as (Hl1 & Hp1' & Hc1). cbn [pk_put fst] in *.
  set (c1 := splice c _ bs) in *.
  exists h1, p1, (pb_with_pos (pb_pos p) p1). split; [done|]. split.
  - rewrite (seek_target h1 p1 c1) by (done || lia). unfold pk_seek. by rewrite decide_True by lia.
  - assert (Hb1 : bytes c1).
    { unfold c1, splice. apply Forall_app_2; [by apply Forall_take|].
      apply Forall_app_2; [|by apply Forall_drop].
      apply Forall_bind, Forall_true. intros; apply endian_bytes_bytes. }
    assert (Hwf2 : pb_wf h1 (pb_with_pos (pb_pos p) p1) c1) by (apply pb_wf_pos; [done|lia]).
    rewrite (get_uints_reads host Hhost k h1 _ c1) by done.
    unfold pk_get. cbn [pb_pos pb_with_pos]. rewrite decide_True by lia. do 4 f_equal.
    + fold w. rewrite Nat2Z.id, endian_values_take by nia.
      unfold c1, splice. rewrite drop_app_length' by (rewrite length_take; lia).
      apply endian_values_concat. by rewrite Hw.
    + rewrite <- Hp1. by destruct p1.
Qed.

Lemma put_get_uints_roundtrip_witness :
  ∃ h1 p1 p2, put_uints (H := zero_mem) G_LITTLE_ENDIAN 1 (block_heap [9]) (block_packet [9] 1)
      G_BIG_ENDIAN 2 (Some [258; 65535]) = Done (h1, p1) ∧
    z_pktbuf_seek p1 G_SEEK_SET 1 = Done (true, p2) ∧
    get_uints G_LITTLE_ENDIAN 1 h1 p2 G_BIG_ENDIAN 2 true = Done (true, Some [258; 65535], p1).
Proof.
  apply (put_get_uints_roundtrip (H := zero_mem) G_LITTLE_ENDIAN 1 (block_heap [9]) (block_packet [9] 1)
    [9] G_BIG_ENDIAN [258; 65535]); try done.
  - by left.
  - by right.
  - by split_and!; [..|right].
  - by apply block_packet_wf.
  - by repeat constructor.
  - by repeat constructor.
  - by right.
Defined.

(** A seek moves the position to its target if the target lies in the packet;
    otherwise it returns FALSE and changes nothing. *)
Theorem z_pktbuf_seek_spec (h : heap) (p : ZPktBuf) (c : list Z) (whence : GSeekType) (d : Z) :
  pb_wf h p c → - 2 ^ 63 < d < 2 ^ 63 →
  z_pktbuf_seek p whence d =
  Done (match pk_seek c (pb_pos p) whence d with
        | Some pos' => (true, pb_with_pos pos' p)
        | None => (false, p)
        end).
Proof. intros. by eapply seek_target. Qed.

Lemma z_pktbuf_seek_spec_witness :
  z_pktbuf_seek (block_packet [1; 2; 3] 1) G_SEEK_CUR (-1) = Done (true, block_packet [1; 2; 3] 0) ∧
  z_pktbuf_seek (block_packet [1; 2; 3] 1) G_SEEK_CUR (-2) = Done (false, block_packet [1; 2; 3] 1).
Proof.
  split.
  - apply (z_pktbuf_seek_spec (block_heap [1; 2; 3]) (block_packet [1; 2; 3] 1) [1; 2; 3]
      G_SEEK_CUR (-1)); [by apply block_packet_wf|done].
  - apply (z_pktbuf_seek_spec (block_heap [1; 2; 3]) (block_packet [1; 2; 3] 1) [1; 2; 3]
      G_SEEK_CUR (-2)); [by apply block_packet_wf|done].
Defined.

(** C21: z_pktbuf_insert puts the data in front of offset [i], z_pktbuf_append behind
    the last byte, and z_pktbuf_copy in the place of the content; each stays
    inside the buffer it has grown. *)
Theorem insert_append_copy_spec `{FreshMem} (h : heap) (p : ZPktBuf) (c data : list Z) (i : Z) :
  pb_wf h p c → 0 ≤ i ≤ zlen c → zlen c + zlen data < 2 ^ 62 → pb_borrowed p = false →
  (∃ h' p', z_pktbuf_insert h p i data = Done (h', p') ∧ pb_pos p' = pb_pos p ∧
     pb_wf h' p' (take (Z.to_nat i) c ++ data ++ drop (Z.to_nat i) c)) ∧
  (∃ h' p', z_pktbuf_append h p data = Done (h', p') ∧ pb_pos p' = pb_pos p ∧
     pb_wf h' p' (c ++ data)) ∧
  (∃ h' p', z_pktbuf_copy h p data = Done (h', p') ∧ pb_pos p' = Z.min (pb_pos p) (zlen data) ∧
     pb_wf h' p' data).
Proof.
  intros Hwf Hi Hsz Hb. split_and!.
  - destruct (insert_ok h p c i data) as (h' & p' & ? & ? & ?); try done; [by right|eauto].
  - destruct (append_ok h p c data) as (h' & p' & ? & ? & ?); try done; [by right|eauto].
  - destruct (copy_ok h p c data) as (h' & p' & ? & ? & ?); try done; [lia|by right|eauto].
Qed.

Lemma insert_append_copy_spec_witness :
  ∃ h' p', z_pktbuf_insert (H := zero_mem) (block_heap [1; 2; 3]) (block_packet [1; 2; 3] 2) 1 [8; 9]
    = Done (h', p') ∧ pb_pos p' = 2 ∧ pb_wf h' p' [1; 8; 9; 2; 3].
Proof.
  apply (insert_append_copy_spec (H := zero_mem) (block_heap [1; 2; 3]) (block_packet [1; 2; 3] 2)
    [1; 2; 3] [8; 9] 1); try done. by apply block_packet_wf.
Defined.

(** *** Parts share the block of their parent *)

Lemma part_wf h p c pos len :
  pb_wf h p c → 0 ≤ pos ≤ zlen c → 0 ≤ len →
  pb_wf h (z_pktbuf_part p pos len) (take (Z.to_nat len) (drop (Z.to_nat pos) c)).
Proof.
  intros Hwf Hpos Hlen. pose proof (pb_wf_len _ _ _ Hwf) as (Hl & Hp & Hc).
  destruct Hwf as (Hhw & _ & _ & Ha & r & Hr & Hlr).
  unfold z_pktbuf_part. rewrite u64_small by lia.
  set (n := if decide _ then _ else _).
  assert (Hn : n = Z.min len (pb_length p - pos)) by (unfold n; case_decide; lia).
  assert (Htk : zlen (take (Z.to_nat len) (drop (Z.to_nat pos) c)) = n)
    by (rewrite length_take, length_drop; lia).
  clearbody n. split_and!; cbn; try done; try lia. exists []. rewrite app_nil_r. split; [|done].
  destruct (pb_data p) as [|b off]; cbn [region ptr_add] in *.
  - apply app_eq_nil in Hr as [-> _]. by rewrite drop_nil, take_nil.
  - destruct Hr as (pre & post & Hb & Hoff & _).
    exists (pre ++ take (Z.to_nat pos) c), (drop (Z.to_nat len) (drop (Z.to_nat pos) c) ++ r ++ post).
    split_and!; [|rewrite length_app, length_take; lia|done].
    rewrite Hb. f_equal. rewrite <- !app_assoc. f_equal.
    rewrite <- (take_drop (Z.to_nat pos) c) at 1. rewrite <- app_assoc. f_equal.
    rewrite <- (take_drop (Z.to_nat len) (drop _ c)) at 1. by rewrite <- !app_assoc.
Qed.

(** A part shows the bytes of its parent, and an integer written through the
    part, where it fits, overwrites the same bytes of the parent. *)
Theorem part_aliases `{FreshMem} (host : Z) (n : nat) (h : heap) (parent : ZPktBuf) (c : list Z)
    (pos len e d : Z) :
  endian_ok host → endian_ok e → pb_wf h parent c → 0 ≤ pos → pos + len ≤ zlen c →
  Z.of_nat n ≤ len →
  pb_wf h (z_pktbuf_part parent pos len) (take (Z.to_nat len) (drop (Z.to_nat pos) c)) ∧
  ∃ h' part', put_uint host n h (z_pktbuf_part parent pos len) e d = Done (h', part') ∧
    pb_wf h' part' (splice (take (Z.to_nat len) (drop (Z.to_nat pos) c)) 0 (endian_bytes n e d)) ∧
    pb_wf h' parent (splice c (Z.to_nat pos) (endian_bytes n e d)).
Proof.
  intros Hhost He Hwf Hpos Hle Hn. pose proof (pb_wf_len _ _ _ Hwf) as (Hl & Hp & Hc).
  pose proof (part_wf h parent c pos len Hwf) as Hpw. specialize (Hpw ltac:(lia) ltac:(lia)).
  split; [done|].
  assert (Hcan : can_hold (z_pktbuf_part parent pos len) (0 + Z.of_nat n)).
  { left. unfold z_pktbuf_part. rewrite u64_small by lia. cbn. case_decide; lia. }
  pose proof (put_uint_writes host Hhost n h _ _ e d He Hpw) as [Hok _]; [cbn; lia|].
  cbn [pb_pos z_pktbuf_part] in Hok. rewrite endian_bytes_length in Hok.
  destruct (Hok Hcan) as (h' & part' & Hput & Hwf' & _). exists h', part'. split; [done|].
  split; [exact Hwf'|].
  destruct (pb_wf_write h parent c pos (endian_bytes n e d) Hwf) as (h2 & Hw & Hwf2 & _);
    [lia|rewrite endian_bytes_length; lia|].
  enough (h' = h2) as -> by done.
  revert Hput. unfold put_uint, z_pktbuf_set_available. cbv zeta.
  unfold z_pktbuf_part. cbn [pb_pos pb_length]. rewrite (u64_small (pb_length parent - pos)) by lia.
  assert (Hm : (if decide (len < pb_length parent - pos) then len else pb_length parent - pos) = len)
    by (case_decide; lia).
  rewrite Hm, u64_small, (decide_True (P := 0 + Z.of_nat n ≤ len)), Done_bind by lia.
  rewrite host_bytes_endian by done. unfold z_pktbuf_current. cbn [pb_data pb_pos].
  assert (Hp0 : ptr_add (ptr_add (pb_data parent) pos) 0 = ptr_add (pb_data parent) pos)
    by (destruct (pb_data parent); cbn; f_equal; lia).
  rewrite Hp0, Hw, Done_bind. by intros [= <- _].
Qed.

Lemma part_aliases_witness :
  ∃ h' part', put_uint (H := zero_mem) G_LITTLE_ENDIAN 2 (block_heap [1; 2; 3; 4])
      (z_pktbuf_part (block_packet [1; 2; 3; 4] 0) 1 2) G_BIG_ENDIAN 2055 = Done (h', part') ∧
    pb_wf h' part' [8; 7] ∧ pb_wf h' (block_packet [1; 2; 3; 4] 0) [1; 8; 7; 4].
Proof.
  apply (part_aliases (H := zero_mem) G_LITTLE_ENDIAN 2 (block_heap [1; 2; 3; 4])
    (block_packet [1; 2; 3; 4] 0) [1; 2; 3; 4] 1 2 G_BIG_ENDIAN 2055); try done.
  - by left.
  - by right.
  - by apply block_packet_wf.
Defined.

(** Growing the parent beyond its capacity moves its block: reading through a
    part taken before uses freed memory. *)
Theorem part_dangles `{FreshMem} (h : heap) (parent : ZPktBuf) (c : list Z) (pos len size : Z) :
  pb_wf h parent c → pb_borrowed parent = false → 0 ≤ pos < zlen c → 0 < len →
  pb_allocated parent < size < 2 ^ 62 →
  ∃ h' p', z_pktbuf_resize h parent size = Done (h', p') ∧ pb_wf h' p' c ∧
    z_pktbuf_get_u8 h' (z_pktbuf_part parent pos len) true = Fault UseAfterFree.
Proof.
  intros Hwf Hb Hpos Hlen Hsize. pose proof (pb_wf_len _ _ _ Hwf) as (Hl & Hp & Hc).
  assert (Hal : zlen c ≤ pb_allocated parent).
  { destruct Hwf as (_ & _ & _ & _ & r & _ & Hlr). rewrite length_app in Hlr. lia. }
  destruct (z_pktbuf_grow_ok h parent c size Hwf) as (h' & p' & Hg & Hwf' & _); [lia|by right|].
  exists h', p'. split; [done|]. split; [done|].
  revert Hg. unfold z_pktbuf_resize. rewrite decide_True, require_true, Done_bind by (lia || done).
  destruct Hwf as (Hhw & _ & _ & _ & r & Hr & _). unfold z_pktbuf_get_u8, z_pktbuf_available.
  destruct (pb_data parent) as [|b off] eqn:Hd; cbn [region] in Hr.
  { apply app_eq_nil in Hr as [-> _]. cbn in Hpos. lia. }
  destruct Hr as (pre & post & Hbl & Hoff & Hown). unfold pb_owned in Hown. rewrite Hb in Hown.
  rewrite (Hown eq_refl) in *. cbn in Hoff. subst off. cbn [h_realloc].
  rewrite (proj2 (h_block_Done _ _ _) Hbl), Done_bind, require_true, !Done_bind by done.
  intros [= Hh' _].
  assert (Hgone : h_blocks h' !! b = None).
  { rewrite <- Hh'. cbn. rewrite lookup_insert_ne; [apply lookup_delete_eq|].
    assert (b < h_next h)%nat by (apply Hhw; eauto). lia. }
  unfold z_pktbuf_part. rewrite Hd. cbn [pb_length pb_pos]. rewrite (u64_small (pb_length parent - pos)) by lia.
  set (m := if decide (len < _) then _ else _).
  assert (Hm : 0 < m < 2 ^ 62) by (unfold m; case_decide; lia). clearbody m.
  rewrite u64_small, decide_False by lia.
  assert (Hrd : ∀ i, h_read h' (At b i) 1 = Fault UseAfterFree)
    by (intros i; unfold h_read; rewrite decide_False by lia; unfold h_block; by rewrite Hgone).
  unfold z_pktbuf_current. cbn [pb_data pb_pos ptr_add]. by rewrite Hrd.
Qed.

Lemma part_dangles_witness :
  ∃ h' p', z_pktbuf_resize (H := zero_mem) (block_heap [1; 2; 3]) (block_packet [1; 2; 3] 0) 4
      = Done (h', p') ∧ pb_wf h' p' [1; 2; 3] ∧
    z_pktbuf_get_u8 h' (z_pktbuf_part (block_packet [1; 2; 3] 0) 1 2) true = Fault UseAfterFree.
Proof.
  apply (part_dangles (H := zero_mem) (block_heap [1; 2; 3]) (block_packet [1; 2; 3] 0) [1; 2; 3] 1 2 4);
    try done. by apply block_packet_wf.
Defined.
