(* ===== verification/PacketStore.v ===== *)
(** * Packets behind pointers

    The streams keep lists of pointers to packets that are shared by reference
    counting.  A store holds the packets that are alive, by their numbers; a number is
    never used again, so that a packet that was freed cannot be touched unnoticed.
    [store_rep] relates a store to the contents and the reference counts of its
    packets, and each operation is shown to act on those. *)

From S2P Require Import Prelude Heap RefCount PacketBuf.
From stdpp Require Import fin_maps.
Open Scope Z_scope.

Record store := mkStore {
  st_heap : heap;
  st_packets : gmap nat ZPktBuf;
  st_next : nat
}.

Definition empty_store : store := mkStore empty_heap ∅ 0.

Definition pkt_get (st : store) (i : nat) : outcome ZPktBuf :=
  match st_packets st !! i with Some p => Done p | None => Fault UseAfterFree end.

Definition pkt_put (st : store) (i : nat) (h : heap) (p : ZPktBuf) : store :=
  mkStore h (<[i := p]> (st_packets st)) (st_next st).

(** The packet [p] gets the next number. *)
Definition pkt_add (st : store) (h : heap) (p : ZPktBuf) : store * nat :=
  (mkStore h (<[st_next st := p]> (st_packets st)) (S (st_next st)), st_next st).

Section ops.
Context `{FreshMem}.

(** z_pktbuf_new() and z_pktbuf_copy(packet, buf, count). *)
Definition pkt_new_copy (st : store) (data : list Z) : outcome (store * nat) :=
  '(h, p) ← z_pktbuf_copy (st_heap st) z_pktbuf_new data;
  Done (pkt_add st h p).

(** z_pktbuf_new() and z_pktbuf_relocate(packet, buf, len, FALSE). *)
Definition pkt_new_relocate (st : store) (buf : ptr) (len : Z) : outcome (store * nat) :=
  '(h, p) ← z_pktbuf_relocate (st_heap st) z_pktbuf_new buf len false;
  Done (pkt_add st h p).

Definition pkt_ref (st : store) (i : nat) : outcome store :=
  p ← pkt_get st i; p ← z_pktbuf_ref p; Done (pkt_put st i (st_heap st) p).

Definition pkt_unref (st : store) (i : nat) : outcome store :=
  p ← pkt_get st i;
  '(h, p) ← z_pktbuf_unref (st_heap st) (Some p);
  Done (match p with
        | Some p => pkt_put st i h p
        | None => mkStore h (delete i (st_packets st)) (st_next st)
        end).

(** The bytes [packet->data + off] to [packet->length]. *)
Definition pkt_tail (st : store) (i : nat) (off : Z) : outcome (list Z) :=
  p ← pkt_get st i; h_read (st_heap st) (ptr_add (pb_data p) off) (u64 (pb_length p - off)).

(** The first [count] bytes of [packet->data]. *)
Definition pkt_head (st : store) (i : nat) (count : Z) : outcome (list Z) :=
  p ← pkt_get st i; h_read (st_heap st) (pb_data p) count.

(** Dropping the first [count] bytes: the memmove and the g_realloc of z_stream_read. *)
Definition pkt_consume (st : store) (i : nat) (count : Z) : outcome store :=
  p ← pkt_get st i;
  l ← h_read (st_heap st) (ptr_add (pb_data p) count) (u64 (pb_length p - count));
  h ← h_write (st_heap st) (pb_data p) l;
  '(h, d) ← h_realloc h (pb_data p) (u64 (pb_length p - count));
  Done (pkt_put st i h (pb_with_length (u64 (pb_length p - count)) (pb_with_data d (pb_allocated p) p))).
End ops.

(** ** What a store holds *)

Definition ptr_block (p : ptr) : option nat :=
  match p with Null => None | At b _ => Some b end.

(** An unshared packet with the contents [c]. *)
Definition holds (h : heap) (p : ZPktBuf) (c : list Z) : Prop :=
  pb_borrowed p = false ∧ pb_length p = zlen c ∧ zlen c < 2 ^ 62 ∧
  ∃ r, region h (pb_data p) true (c ++ r).

(** [A] gives the reference count and the contents of each packet that is alive. *)
Record store_rep (st : store) (A : gmap nat (Z * list Z)) : Prop := {
  rep_heap : heap_wf (st_heap st);
  rep_next i : is_Some (st_packets st !! i) → (i < st_next st)%nat;
  rep_holds i p : st_packets st !! i = Some p →
    ∃ c, A !! i = Some (pb_ref_cnt p, c) ∧ holds (st_heap st) p c;
  rep_dom i : st_packets st !! i = None → A !! i = None;
  rep_disjoint i j p q b :
    st_packets st !! i = Some p → st_packets st !! j = Some q →
    ptr_block (pb_data p) = Some b → ptr_block (pb_data q) = Some b → i = j
}.

Lemma empty_store_rep : store_rep empty_store ∅.
Proof. by split; [intros b [? ?]|intros i [? ?]|..]. Qed.

Lemma rep_get st A i n c :
  store_rep st A → A !! i = Some (n, c) →
  ∃ p, pkt_get st i = Done p ∧ st_packets st !! i = Some p ∧ pb_ref_cnt p = n ∧
       holds (st_heap st) p c.
Proof.
  intros Hr Hi. unfold pkt_get. destruct (st_packets st !! i) as [p|] eqn:Hp.
  - destruct (rep_holds _ _ Hr _ _ Hp) as (c' & Hc & Hh). rewrite Hi in Hc. simplify_eq. eauto.
  - apply (rep_dom _ _ Hr) in Hp. congruence.
Qed.

(** A packet only depends on its own block. *)
Lemma holds_frame h h' p c :
  (∀ b, ptr_block (pb_data p) = Some b → h_blocks h' !! b = h_blocks h !! b) →
  holds h p c → holds h' p c.
Proof.
  intros Hb (Hbo & Hl & Hs & r & Hr). split_and!; [done..|]. exists r.
  destruct (pb_data p) as [|b off]; [done|]. cbn in *. by rewrite (Hb b eq_refl).
Qed.

(** The block of a packet is alive. *)
Lemma holds_block h p c b : holds h p c → ptr_block (pb_data p) = Some b → is_Some (h_blocks h !! b).
Proof.
  intros (_ & _ & _ & r & Hr) Hb. destruct (pb_data p) as [|b' off]; [done|].
  cbn in *. simplify_eq. destruct Hr as (? & ? & -> & _). eauto.
Qed.

(** Putting a packet at [i] whose block is its own: what was there, or a new one. *)
Lemma rep_put st A i h p n c (next : nat) :
  store_rep st A → heap_wf h → (i < next)%nat → (st_next st ≤ next)%nat →
  holds h p c → pb_ref_cnt p = n →
  (∀ j q b, j ≠ i → st_packets st !! j = Some q → ptr_block (pb_data q) = Some b →
     h_blocks h !! b = h_blocks (st_heap st) !! b ∧ ptr_block (pb_data p) ≠ Some b) →
  store_rep (mkStore h (<[i := p]> (st_packets st)) next) (<[i := (n, c)]> A).
Proof.
  intros Hr Hwf Hi Hle Hh <- Hfr. split; cbn; [done|..].
  - intros j [->|[? Hj]]%lookup_insert_is_Some; [done|]. apply (rep_next _ _ Hr) in Hj. lia.
  - intros j q [[<- <-]|[Hij Hq]]%lookup_insert_Some; [rewrite lookup_insert_eq; eauto|].
    rewrite lookup_insert_ne by done. destruct (rep_holds _ _ Hr _ _ Hq) as (c' & Hc & Hh').
    exists c'. split; [done|]. eapply holds_frame; [|done]. intros b Hb. by eapply Hfr.
  - intros j [Hj Hij]%lookup_insert_None. rewrite lookup_insert_ne by done. by apply (rep_dom _ _ Hr).
  - intros j k q1 q2 b [[<- <-]|[Hj Hq1]]%lookup_insert_Some [[<- <-]|[Hk Hq2]]%lookup_insert_Some Hb1 Hb2.
    + done.
    + by destruct (Hfr k q2 b) as [_ []].
    + by destruct (Hfr j q1 b) as [_ []].
    + by eapply (rep_disjoint _ _ Hr).
Qed.

Lemma rep_delete st A i h :
  store_rep st A → heap_wf h →
  (∀ j q b, j ≠ i → st_packets st !! j = Some q → ptr_block (pb_data q) = Some b →
     h_blocks h !! b = h_blocks (st_heap st) !! b) →
  store_rep (mkStore h (delete i (st_packets st)) (st_next st)) (delete i A).
Proof.
  intros Hr Hwf Hfr. split; cbn; [done|..].
  - intros j [_ Hj]%lookup_delete_is_Some. by apply (rep_next _ _ Hr).
  - intros j q [Hij Hq]%lookup_delete_Some. rewrite lookup_delete_ne by done.
    destruct (rep_holds _ _ Hr _ _ Hq) as (c' & Hc & Hh'). exists c'. split; [done|].
    eapply holds_frame; [|done]. intros b Hb. by eapply Hfr.
  - intros j [->|Hj]%lookup_delete_None; [by rewrite lookup_delete_eq|].
    apply lookup_delete_None. right. by apply (rep_dom _ _ Hr).
  - intros j k q1 q2 b [_ Hq1]%lookup_delete_Some [_ Hq2]%lookup_delete_Some.
    by apply (rep_disjoint _ _ Hr).
Qed.

(** The blocks of different packets are different. *)
Lemma rep_other st A i p j q b :
  store_rep st A → st_packets st !! i = Some p → j ≠ i → st_packets st !! j = Some q →
  ptr_block (pb_data q) = Some b → ptr_block (pb_data p) ≠ Some b.
Proof. intros Hr Hp Hij Hq Hb Hb'. apply Hij. by eapply (rep_disjoint _ _ Hr). Qed.

(** The block of a packet has a number below the next one of the heap. *)
Lemma rep_block_lt st A i p b :
  store_rep st A → st_packets st !! i = Some p → ptr_block (pb_data p) = Some b →
  (b < h_next (st_heap st))%nat.
Proof.
  intros Hr Hp Hb. apply (rep_heap _ _ Hr).
  destruct (rep_holds _ _ Hr _ _ Hp) as (c & _ & Hh). by eapply holds_block.
Qed.

(** A new number is unused. *)
Lemma rep_fresh st A : store_rep st A → A !! st_next st = None.
Proof.
  intros Hr. apply (rep_dom _ _ Hr). apply eq_None_not_Some. intros Hs%(rep_next _ _ Hr). lia.
Qed.

Section ops_ok.
Context `{FreshMem}.

Lemma copy_new_ok h data :
  heap_wf h → zlen data < 2 ^ 62 →
  ∃ h' p, z_pktbuf_copy h z_pktbuf_new data = Done (h', p) ∧ heap_wf h' ∧ holds h' p data ∧
    pb_ref_cnt p = 1 ∧ (∀ b, (b < h_next h)%nat → h_blocks h' !! b = h_blocks h !! b) ∧
    (∀ b, ptr_block (pb_data p) = Some b → b = h_next h).
Proof.
  intros Hwf Hl. unfold z_pktbuf_copy, z_pktbuf_resize. cbn [pb_allocated z_pktbuf_new].
  destruct (decide (0 < zlen data)) as [Hd|Hd].
  - cbn [h_realloc pb_data z_pktbuf_new pb_borrowed]. rewrite require_true, !Done_bind by done. cbn.
    repeat (rewrite (decide_False (P := zlen data < 0)) by lia; cbn). unfold h_write.
    rewrite decide_False by (intros ->; cbn in *; lia). unfold h_block. cbn. rewrite lookup_insert_eq, Done_bind.
    pose proof (realloc_length [] (zlen data) ltac:(lia)) as Hr.
    rewrite store_range_ok, !Done_bind by lia. cbn [take Z.to_nat app Nat.add].
    rewrite drop_ge, app_nil_r by lia. eexists _, _. split; [done|]. cbn. split_and!; try done.
    + apply (h_set_wf _ _ _ (realloc [] (zlen data))); [by apply (h_alloc_wf h)|].
      cbn. by rewrite lookup_insert_eq.
    + split_and!; cbn; try done. exists [], [], []. by rewrite !app_nil_r, lookup_insert_eq.
    + intros b Hb. rewrite !lookup_insert_ne by lia. done.
    + intros b ?. by simplify_eq.
  - assert (data = []) as -> by (destruct data; [done|cbn in *; lia]). cbn.
    eexists _, _. split; [done|]. split; [done|].
    split; [|done]. split_and!; [done..|]. by exists [].
Qed.

Lemma pkt_new_copy_ok st A data :
  store_rep st A → zlen data < 2 ^ 62 →
  ∃ st', pkt_new_copy st data = Done (st', st_next st) ∧
    store_rep st' (<[st_next st := (1, data)]> A) ∧ st_next st' = S (st_next st).
Proof.
  intros Hr Hl. unfold pkt_new_copy.
  destruct (copy_new_ok (st_heap st) data (rep_heap _ _ Hr) Hl) as
    (h' & p & -> & Hwf & Hh & Hn & Hfr & Hb). rewrite Done_bind. eexists. split; [done|].
  split; [|done]. apply rep_put; try done; [lia..|]. intros j q b _ Hq Hqb.
  pose proof (rep_block_lt _ _ _ _ _ Hr Hq Hqb). split; [by apply Hfr|]. intros Hpb%Hb. lia.
Qed.

(** The buffer that is handed over is the start of a block of no other packet. *)
Lemma pkt_new_relocate_ok st A buf data r :
  store_rep st A → zlen data < 2 ^ 62 → region (st_heap st) buf true (data ++ r) →
  (∀ j q b, st_packets st !! j = Some q → ptr_block (pb_data q) = Some b → ptr_block buf ≠ Some b) →
  ∃ st', pkt_new_relocate st buf (zlen data) = Done (st', st_next st) ∧
    store_rep st' (<[st_next st := (1, data)]> A) ∧ st_next st' = S (st_next st).
Proof.
  intros Hr Hl Hreg Hdis. unfold pkt_new_relocate, z_pktbuf_relocate. cbn. eexists. split; [done|].
  split; [|done]. apply rep_put; try done; [by apply (rep_heap _ _ Hr)|lia..| |].
  - split_and!; try done. by exists r.
  - intros j q b _ Hq Hqb. split; [done|]. by eapply Hdis.
Qed.

Lemma pkt_ref_ok st A i n c :
  store_rep st A → A !! i = Some (n, c) → 0 < n < MAX_REF →
  ∃ st', pkt_ref st i = Done st' ∧ store_rep st' (<[i := (n + 1, c)]> A) ∧ st_next st' = st_next st.
Proof.
  intros Hr Hi Hn. destruct (rep_get _ _ _ _ _ Hr Hi) as (p & Hp & Hsp & Hc & Hh).
  unfold pkt_ref, z_pktbuf_ref, z_refcount_inc.
  rewrite Hp, Done_bind, Hc, require_true, !Done_bind by lia. eexists. split; [done|]. split; [|done].
  apply rep_put; try done; [by apply (rep_heap _ _ Hr)|apply (rep_next _ _ Hr); eauto|].
  intros j q b Hj Hq Hb. split; [done|]. cbn. by eapply rep_other.
Qed.

Lemma holds_region h p c : holds h p c → ∃ r, region h (pb_data p) true (c ++ r).
Proof. by intros (_ & _ & _ & ?). Qed.

Lemma h_free_owned h p c :
  heap_wf h → holds h p c →
  ∃ h', (if decide (pb_data p ≠ Null ∧ pb_borrowed p = false) then h_free h (pb_data p) else Done h)
    = Done h' ∧ heap_wf h' ∧
    (∀ b, ptr_block (pb_data p) ≠ Some b → h_blocks h' !! b = h_blocks h !! b).
Proof.
  intros Hwf (Hb & _ & _ & r & Hr). destruct (pb_data p) as [|b off].
  - rewrite decide_False by naive_solver. by exists h.
  - rewrite decide_True by done. destruct Hr as (pre & post & Hl & Ho & Hpre).
    rewrite Hpre in * by done. cbn in Ho. cbn. rewrite (proj2 (h_block_Done _ _ _) Hl), Done_bind.
    rewrite require_true, Done_bind by done. eexists. split; [done|]. split; [by apply h_delete_wf|].
    intros b' Hb'. cbn in *. apply lookup_delete_ne. congruence.
Qed.

(** Releasing a reference; the last one frees the packet and its buffer. *)
Lemma pkt_unref_ok st A i n c :
  store_rep st A → A !! i = Some (n, c) → 0 < n < MAX_REF →
  ∃ st', pkt_unref st i = Done st' ∧ st_next st' = st_next st ∧
    store_rep st' (if decide (n = 1) then delete i A else <[i := (n - 1, c)]> A).
Proof.
  intros Hr Hi Hn. destruct (rep_get _ _ _ _ _ Hr Hi) as (p & Hp & Hsp & Hc & Hh).
  unfold pkt_unref, z_pktbuf_unref, z_refcount_dec.
  rewrite Hp, Done_bind, Hc, require_true, !Done_bind by lia.
  destruct (decide (n = 1)) as [->|Hn1].
  - rewrite bool_decide_true by lia. cbn [pb_data pb_borrowed pb_with_ref].
    destruct (h_free_owned _ _ _ (rep_heap _ _ Hr) Hh) as (h' & -> & Hwf & Hfr). rewrite !Done_bind.
    eexists. split; [done|]. split; [done|]. apply rep_delete; [done..|].
    intros j q b Hj Hq Hb. apply Hfr. by eapply rep_other.
  - rewrite bool_decide_false by lia. rewrite Done_bind. eexists. split; [done|]. split; [done|].
    apply rep_put; try done; [by apply (rep_heap _ _ Hr)|apply (rep_next _ _ Hr); eauto|].
    intros j q b Hj Hq Hb. split; [done|]. cbn. by eapply rep_other.
Qed.

Lemma pkt_tail_ok st A i n c off :
  store_rep st A → A !! i = Some (n, c) → 0 ≤ off ≤ zlen c →
  pkt_tail st i off = Done (drop (Z.to_nat off) c).
Proof.
  intros Hr Hi Ho. destruct (rep_get _ _ _ _ _ Hr Hi) as (p & Hp & _ & _ & Hb & Hl & Hs & r & Hreg).
  unfold pkt_tail. rewrite Hp, Done_bind, Hl, u64_small by lia.
  rewrite (region_read _ _ _ _ off (zlen c - off) Hreg) by (rewrite ?length_app; lia). f_equal.
  rewrite drop_app_le by lia. apply take_app_length'. rewrite length_drop. lia.
Qed.

Lemma pkt_head_ok st A i n c count :
  store_rep st A → A !! i = Some (n, c) → 0 ≤ count ≤ zlen c →
  pkt_head st i count = Done (take (Z.to_nat count) c).
Proof.
  intros Hr Hi Ho. destruct (rep_get _ _ _ _ _ Hr Hi) as (p & Hp & _ & _ & Hb & Hl & Hs & r & Hreg).
  unfold pkt_head. rewrite Hp, Done_bind.
  assert (Hp0 : ptr_add (pb_data p) 0 = pb_data p) by (destruct (pb_data p); cbn; f_equal; lia).
  rewrite <- Hp0, (region_read _ _ _ _ 0 count Hreg) by (rewrite ?length_app; lia).
  change (Z.to_nat 0) with 0%nat. rewrite drop_0, take_app_le by lia. done.
Qed.

Lemma pkt_consume_ok st A i n c count :
  store_rep st A → A !! i = Some (n, c) → 0 ≤ count < zlen c →
  ∃ st', pkt_consume st i count = Done st' ∧ st_next st' = st_next st ∧
    store_rep st' (<[i := (n, drop (Z.to_nat count) c)]> A).
Proof.
  intros Hr Hi Ho. destruct (rep_get _ _ _ _ _ Hr Hi) as (p & Hp & Hsp & Hc & Hb & Hl & Hs & r & Hreg).
  set (c' := drop (Z.to_nat count) c). assert (Hc' : zlen c' = zlen c - count) by (unfold c'; rewrite length_drop; lia).
  pose proof (pkt_tail_ok st A i n c count Hr Hi ltac:(lia)) as Ht. unfold pkt_tail in Ht.
  rewrite Hp, Done_bind in Ht. unfold pkt_consume. rewrite Hp, Done_bind, Ht, Done_bind, Hl, u64_small by lia.
  destruct (region_write _ _ _ _ 0 c' (rep_heap _ _ Hr) Hreg) as (h1 & Hw & Hwf1 & Hr1 & Hse);
    [lia|rewrite length_app; lia|].
  assert (Hp0 : ptr_add (pb_data p) 0 = pb_data p) by (destruct (pb_data p); cbn; f_equal; lia).
  rewrite Hp0 in Hw. fold c'. rewrite Hw, Done_bind.
  (* the block of the packet *)
  destruct (pb_data p) as [|b off] eqn:Hpd.
  { cbn in Hreg. destruct c; [cbn in *; lia|done]. }
  destruct Hr1 as (pre & post & Hblk & Hoff & Hpre). rewrite Hpre in * by done. cbn in Hoff, Hblk.
  cbn [h_realloc]. rewrite (proj2 (h_block_Done _ _ _) Hblk), Done_bind, require_true, !Done_bind by done.
  eexists. split; [done|]. split; [done|].
  apply rep_put; try done; [by apply h_alloc_wf, h_delete_wf|apply (rep_next _ _ Hr); eauto|..].
  - split_and!; cbn; [done|lia|lia|]. exists [], [], []. cbn. rewrite lookup_insert_eq, !app_nil_r.
    split; [|done]. f_equal. unfold realloc, splice. change (Z.to_nat 0) with 0%nat.
    rewrite !take_0. cbn [app Nat.add]. rewrite <- app_assoc, take_app_length' by lia.
    replace (_ - _)%nat with 0%nat by (rewrite !length_app; lia). cbn. by rewrite app_nil_r.
  - intros j q b' Hj Hq Hqb. pose proof (rep_block_lt _ _ _ _ _ Hr Hq Hqb) as Hlt.
    pose proof (rep_other _ _ _ _ _ _ _ Hr Hsp Hj Hq Hqb) as Hne. rewrite Hpd in Hne. cbn in Hne.
    assert (Hnx : h_next h1 = h_next (st_heap st)).
    { unfold h_write in Hw. case_decide; [by injection Hw as <-|].
      outcome_inv Hw. by injection Hw as <-. }
    cbn. rewrite Hnx. split; [|intros ?; simplify_eq; lia].
    rewrite lookup_insert_ne, lookup_delete_ne by (congruence || lia). apply Hse. congruence.
Qed.
End ops_ok.

(** ** Releasing several packets *)

Definition release (A : gmap nat (Z * list Z)) (i : nat) : gmap nat (Z * list Z) :=
  match A !! i with
  | Some (n, c) => if decide (n = 1) then delete i A else <[i := (n - 1, c)]> A
  | None => A
  end.

Definition retain (A : gmap nat (Z * list Z)) (i : nat) : gmap nat (Z * list Z) :=
  match A !! i with Some (n, c) => <[i := (n + 1, c)]> A | None => A end.

(** A packet is alive with these contents, and its counter does not overflow. *)
Definition alive (A : gmap nat (Z * list Z)) (i : nat) (c : list Z) : Prop :=
  ∃ n, A !! i = Some (n, c) ∧ 0 < n < MAX_REF.

Lemma release_other A i j : i ≠ j → release A i !! j = A !! j.
Proof.
  intros. unfold release. destruct (A !! i) as [[n c]|]; [|done].
  case_decide; [by rewrite lookup_delete_ne|by rewrite lookup_insert_ne].
Qed.

Lemma release_same A i :
  release A i !! i =
  match A !! i with Some (n, c) => if decide (n = 1) then None else Some (n - 1, c) | None => None end.
Proof.
  unfold release. destruct (A !! i) as [[n c]|] eqn:Hi; [|done].
  case_decide; [by rewrite lookup_delete_eq|by rewrite lookup_insert_eq].
Qed.

Lemma release_alive A i j c : i ≠ j → alive A j c → alive (release A i) j c.
Proof. intros Hij (n & Hn & ?). exists n. by rewrite release_other. Qed.

Lemma retain_other A i j : i ≠ j → retain A i !! j = A !! j.
Proof.
  intros. unfold retain. destruct (A !! i) as [[n c]|]; [by rewrite lookup_insert_ne|done].
Qed.

(** A reference that is taken and given back changes nothing. *)
Lemma release_retain A i c : alive A i c → release (retain A i) i = A.
Proof.
  intros (n & Hn & ?). unfold release, retain. rewrite Hn, lookup_insert_eq.
  rewrite decide_False by lia. rewrite insert_insert_eq.
  replace (n + 1 - 1) with n by lia. by apply insert_id.
Qed.

Lemma alive_retain A i c n : A !! i = Some (n, c) → 0 < n < MAX_REF - 1 → alive (retain A i) i c.
Proof. intros Hi ?. exists (n + 1). unfold retain. rewrite Hi, lookup_insert_eq. split; [done|lia]. Qed.

Lemma foldl_release_other A l i : i ∉ l → foldl release A l !! i = A !! i.
Proof.
  revert A. induction l as [|j l IH]; intros A Hi; [done|]. cbn.
  rewrite IH by set_solver. apply release_other. set_solver.
Qed.

Lemma foldl_release_once A l i : NoDup l → i ∈ l → foldl release A l !! i = release A i !! i.
Proof.
  revert A. induction l as [|j l IH]; intros A Hnd Hi; [set_solver|].
  apply NoDup_cons in Hnd as [Hj Hnd]. cbn. destruct (decide (i = j)) as [->|Hij].
  - by apply foldl_release_other.
  - rewrite IH by set_solver. by rewrite !release_same, release_other.
Qed.

Section release_ok.
Context `{FreshMem}.

Lemma pkt_release_ok st A i c :
  store_rep st A → alive A i c →
  returns (pkt_unref st i) (λ st', store_rep st' (release A i) ∧ st_next st' = st_next st).
Proof.
  intros Hr (n & Hi & Hn). destruct (pkt_unref_ok _ _ _ _ _ Hr Hi Hn) as (st' & -> & Hnx & Hr').
  unfold release. rewrite Hi. by split.
Qed.

Lemma pkt_retain_ok st A i c :
  store_rep st A → alive A i c →
  returns (pkt_ref st i) (λ st', store_rep st' (retain A i) ∧ st_next st' = st_next st).
Proof.
  intros Hr (n & Hi & Hn). destruct (pkt_ref_ok _ _ _ _ _ Hr Hi Hn) as (st' & -> & Hr' & Hnx).
  unfold retain. rewrite Hi. by split.
Qed.

Lemma alive_get st A i c :
  store_rep st A → alive A i c → ∃ p, pkt_get st i = Done p ∧ pb_length p = zlen c ∧ zlen c < 2 ^ 62.
Proof.
  intros Hr (n & Hi & _). destruct (rep_get _ _ _ _ _ Hr Hi) as (p & Hp & _ & _ & _ & Hl & Hc & _). eauto.
Qed.

Lemma alive_tail st A i c off :
  store_rep st A → alive A i c → 0 ≤ off ≤ zlen c → pkt_tail st i off = Done (drop (Z.to_nat off) c).
Proof. intros Hr (n & Hi & _) ?. by eapply pkt_tail_ok. Qed.
End release_ok.
