(* ===== verification/ZObject.v ===== *)
(** * The object system (src/src/zobject.c, src/src/zorp/zobject.h)

    Class descriptors are static structures that point to their super class;
    the table of a class may leave methods NULL, and [z_object_resolve_funcs]
    fills them from the super class when the class is first instantiated.  The
    descriptors live in a store, since resolving changes them in place. *)

From S2P Require Import Prelude RefCount.
Open Scope Z_scope.

(** A class is known by its number in the store; so is a method (a function
    pointer). *)
Record ZClass := mkClass {
  cl_isa : option nat;                       (* super.isa *)
  cl_funcs_resolved : bool;
  cl_super_class : option nat;
  cl_name : string;
  cl_size : Z;
  cl_funcs : option (list (option nat))      (* the methods; NULL is [None] *)
}.

Abbreviation class_store := (gmap nat ZClass).

(** The number of [ZClass__class], the class of class descriptors. *)
Definition ZClass__class : nat := 0%nat.

Record ZObject := mkObject { ob_ref_cnt : Z; ob_isa : nat }.

Definition cl_with_funcs (ms : list (option nat)) (c : ZClass) : ZClass :=
  mkClass (cl_isa c) (cl_funcs_resolved c) (cl_super_class c) (cl_name c) (cl_size c) (Some ms).
Definition cl_with_resolved (c : ZClass) : ZClass :=
  mkClass (cl_isa c) true (cl_super_class c) (cl_name c) (cl_size c) (cl_funcs c).
Definition cl_with_isa (i : nat) (c : ZClass) : ZClass :=
  mkClass (Some i) (cl_funcs_resolved c) (cl_super_class c) (cl_name c) (cl_size c) (cl_funcs c).

(** Following a pointer to a class, and to its method table. *)
Definition get_class (st : class_store) (c : nat) : outcome ZClass :=
  match st !! c with Some cl => Done cl | None => Fault OutOfBounds end.

Definition get_funcs (cl : ZClass) : outcome (list (option nat)) :=
  match cl_funcs cl with Some ms => Done ms | None => Fault OutOfBounds end.

(** ** Subclasses *)

(** The loop of z_object_is_subclass; a cycle of super classes never ends. *)
Fixpoint subclass_loop (fuel : nat) (st : class_store) (class : nat) (p : option nat)
  : outcome bool :=
  match p with
  | None => Done false
  | Some c =>
      if decide (c = class) then Done true
      else match fuel with
           | O => Fault OutOfFuel
           | S fuel => cl ← get_class st c; subclass_loop fuel st class (cl_super_class cl)
           end
  end.

Definition z_object_is_subclass (st : class_store) (class subclass : nat) : outcome bool :=
  subclass_loop (S (size st)) st class (Some subclass).

Definition z_object_is_compatible (st : class_store) (self : option ZObject) (class : nat)
  : outcome bool :=
  match self with
  | None => Done false
  | Some o => z_object_is_subclass st class (ob_isa o)
  end.

Definition z_object_is_instance (self : option ZObject) (class : nat) : bool :=
  match self with None => false | Some o => bool_decide (ob_isa o = class) end.

(** ** Resolving methods *)

(** The loop over the methods of the super class, from index [i]. *)
Fixpoint inherit_loop (count : nat) (i : nat) (super ms : list (option nat))
  : outcome (list (option nat)) :=
  match count with
  | O => Done ms
  | S count =>
      match ms !! i, super !! i with
      | Some None, Some m => inherit_loop count (S i) super (<[i := m]> ms)
      | Some (Some _), _ => inherit_loop count (S i) super ms
      | _, _ => Fault OutOfBounds
      end
  end.

Fixpoint z_object_resolve_funcs (fuel : nat) (st : class_store) (class : nat)
  : outcome class_store :=
  match fuel with
  | O => Fault OutOfFuel
  | S fuel =>
      cl ← get_class st class;
      if cl_funcs_resolved cl then Done st
      else
        st ← match cl_super_class cl with
             | None => Done st
             | Some s =>
                 st ← z_object_resolve_funcs fuel st s;
                 scl ← get_class st s;
                 super ← get_funcs scl;
                 if decide (super = []) then Done st
                 else
                   cl ← get_class st class;
                   ms ← get_funcs cl;
                   ms ← inherit_loop (length super) 0 super ms;
                   Done (<[class := cl_with_funcs ms cl]> st)
             end;
        cl ← get_class st class;
        Done (<[class := cl_with_resolved cl]> st)
  end.

(** ** Instances *)

Definition z_object_new (st : class_store) (class : nat) : outcome (class_store * ZObject) :=
  cl ← get_class st class;
  let st := match cl_isa cl with
            | None => <[class := cl_with_isa ZClass__class cl]> st
            | Some _ => st
            end in
  st ← (if cl_funcs_resolved cl then Done st else z_object_resolve_funcs (S (size st)) st class);
  Done (st, mkObject (z_refcount_set 1) class).

Definition z_object_new_compatible (st : class_store) (class compat : nat)
  : outcome (class_store * ZObject) :=
  ok ← z_object_is_subclass st compat class;
  if ok : bool then z_object_new st class else Fault AssertFailed.

Definition z_object_ref (self : option ZObject) : outcome (option ZObject) :=
  match self with
  | None => Done None
  | Some o => n ← z_refcount_inc (ob_ref_cnt o); Done (Some (mkObject n (ob_isa o)))
  end.

(** The result: the object, unless it was freed, and the [free_fn] (the first
    method of its class) that was called if it was. *)
Definition z_object_unref (st : class_store) (self : option ZObject)
  : outcome (option ZObject * option (option nat)) :=
  match self with
  | None => Done (None, None)
  | Some o =>
      '(zero, n) ← z_refcount_dec (ob_ref_cnt o);
      if zero : bool then
        cl ← get_class st (ob_isa o);
        ms ← get_funcs cl;
        match ms with
        | [] => Fault OutOfBounds
        | m :: _ => Done (None, Some m)
        end
      else Done (Some (mkObject n (ob_isa o)), None)
  end.

(** ** Well-formed class stores *)

(** [rank] witnesses that the super classes do not form a cycle; a class has a
    table, and at least the methods of its super class. *)
Record class_wf (st : class_store) (rank : nat → nat) : Prop := {
  cw_rank c cl : st !! c = Some cl → (rank c < size st)%nat;
  cw_funcs c cl : st !! c = Some cl → is_Some (cl_funcs cl);
  cw_super c cl s : st !! c = Some cl → cl_super_class cl = Some s →
    ∃ scl ms sms, st !! s = Some scl ∧ (rank s < rank c)%nat ∧
      cl_funcs cl = Some ms ∧ cl_funcs scl = Some sms ∧ (length sms ≤ length ms)%nat
}.

(** The super class relation. *)
Definition super_rel (st : class_store) (c s : nat) : Prop :=
  ∃ cl, st !! c = Some cl ∧ cl_super_class cl = Some s.

Lemma subclass_loop_spec st rank class fuel : ∀ c cl,
  class_wf st rank → st !! c = Some cl → (rank c < fuel)%nat →
  ∃ b, subclass_loop fuel st class (Some c) = Done b ∧ (b = true ↔ rtc (super_rel st) c class).
Proof.
  induction fuel as [|fuel IH]; intros c cl Hwf Hc Hr; [lia|]. cbn [subclass_loop].
  case_decide as Heq; [subst; exists true; split; [done|]; split; [intros _; apply rtc_refl|done]|].
  unfold get_class. rewrite Hc, Done_bind.
  assert (Hinv : rtc (super_rel st) c class → ∃ s, cl_super_class cl = Some s ∧ rtc (super_rel st) s class).
  { intros Hrtc. inversion Hrtc as [|? s ? (cl' & Hc' & Hs) Hrest]; subst; [done|].
    rewrite Hc in Hc'. injection Hc' as <-. eauto. }
  destruct (cl_super_class cl) as [s|] eqn:Hs.
  - destruct (cw_super _ _ Hwf c cl s Hc Hs) as (scl & ms & sms & Hscl & Hrk & _).
    destruct (IH s scl Hwf Hscl ltac:(lia)) as (b & Hb & Hiff).
    exists b. split; [done|]. rewrite Hiff. split.
    + intros Hrtc. eapply rtc_l; [|done]. by exists cl.
    + intros Hrtc. by destruct (Hinv Hrtc) as (s' & [= <-] & ?).
  - exists false. destruct fuel; (split; [done|]); split; try done;
      intros Hrtc; by destruct (Hinv Hrtc) as (? & ? & ?).
Qed.

(** ** Method resolution *)

(** The method that a call through class [c] means: the first one that is not
    NULL on the way up. *)
Fixpoint virtual (fuel : nat) (st : class_store) (c i : nat) : option nat :=
  match fuel with
  | O => None
  | S fuel =>
      match st !! c with
      | None => None
      | Some cl =>
          match cl_funcs cl ≫= (.!! i) with
          | Some (Some m) => Some m
          | Some None => cl_super_class cl ≫= λ s, virtual fuel st s i
          | None => None
          end
      end
  end.

Lemma virtual_fuel st rank f1 : ∀ f2 c i,
  class_wf st rank → (rank c < f1)%nat → (rank c < f2)%nat → virtual f1 st c i = virtual f2 st c i.
Proof.
  induction f1 as [|f1 IH]; intros [|f2] c i Hwf H1 H2; [lia..|]. cbn [virtual].
  destruct (st !! c) as [cl|] eqn:Hc; [|done].
  destruct (cl_funcs cl ≫= (.!! i)) as [[m|]|]; [done| |done].
  destruct (cl_super_class cl) as [s|] eqn:Hs; [|done]. cbn.
  destruct (cw_super _ _ Hwf c cl s Hc Hs) as (? & ? & ? & ? & ? & _). apply IH; done || lia.
Qed.

(** The table of a resolved class holds the methods that calls mean. *)
Definition table_ok (n : nat) (st : class_store) (c : nat) (ms : list (option nat)) : Prop :=
  ∀ i x, ms !! i = Some x → x = virtual n st c i.

Definition resolved_ok (st : class_store) : Prop :=
  ∀ c cl ms, st !! c = Some cl → cl_funcs_resolved cl = true → cl_funcs cl = Some ms →
    table_ok (size st) st c ms.

Lemma inherit_loop_spec super : ∀ count i ms,
  (i + count = length super)%nat → (length super ≤ length ms)%nat →
  ∃ ms', inherit_loop count i super ms = Done ms' ∧ length ms' = length ms ∧
    ∀ j, ms' !! j = if decide (i ≤ j < length super)%nat
                    then (match ms !! j with Some None => super !! j | x => x end)
                    else ms !! j.
Proof.
  induction count as [|count IH]; intros i ms Hi Hlen; cbn [inherit_loop].
  { exists ms. split_and!; [done..|]. intros j. by rewrite decide_False by lia. }
  destruct (lookup_lt_is_Some_2 ms i) as [x Hx]; [lia|].
  destruct (lookup_lt_is_Some_2 super i) as [y Hy]; [lia|].
  rewrite Hx, Hy. destruct x as [m|].
  - destruct (IH (S i) ms) as (ms' & -> & Hl & Hms); [lia..|]. exists ms'. split_and!; [done..|].
    intros j. rewrite Hms. destruct (decide (j = i)) as [->|].
    + rewrite decide_False, decide_True by lia. by rewrite Hx.
    + by repeat case_decide; try lia.
  - destruct (IH (S i) (<[i := y]> ms)) as (ms' & -> & Hl & Hms); [lia|by rewrite length_insert|].
    rewrite length_insert in Hl. exists ms'. split_and!; [done..|].
    intros j. rewrite Hms. destruct (decide (j = i)) as [->|].
    + rewrite decide_False, decide_True by lia. rewrite list_lookup_insert_eq by lia. by rewrite Hx, Hy.
    + rewrite list_lookup_insert_ne by done. by repeat case_decide; try lia.
Qed.

(** Replacing a table by what its calls mean changes no call. *)
Lemma update_table st rank c cl cl' ms ms' :
  class_wf st rank → st !! c = Some cl → cl_funcs cl = Some ms → length ms' = length ms →
  cl_super_class cl' = cl_super_class cl → cl_funcs cl' = Some ms' →
  table_ok (size st) st c ms' →
  class_wf (<[c := cl']> st) rank ∧ size (<[c := cl']> st) = size st ∧
  ∀ f c0 i, (rank c0 < f)%nat → virtual f (<[c := cl']> st) c0 i = virtual f st c0 i.
Proof.
  intros Hwf Hc Hms Hlen Hsup Hms' Hok. pose proof (cw_rank _ _ Hwf _ _ Hc) as Hrk.
  assert (Hsize : size (<[c := cl']> st) = size st) by (apply map_size_insert_Some; eauto).
  split; [|split; [done|]].
  - split.
    + intros d dl Hd. rewrite Hsize. destruct (decide (d = c)) as [->|Hne]; [done|].
      rewrite lookup_insert_ne in Hd by done. by eapply cw_rank.
    + intros d dl Hd. destruct (decide (d = c)) as [->|Hne].
      * rewrite lookup_insert_eq in Hd. injection Hd as <-. eauto.
      * rewrite lookup_insert_ne in Hd by done. by eapply cw_funcs.
    + intros d dl s Hd Hs.
      assert (Hd0 : ∃ dl0 dms0 dms, st !! d = Some dl0 ∧ cl_super_class dl0 = Some s ∧
                cl_funcs dl0 = Some dms0 ∧ cl_funcs dl = Some dms ∧ length dms = length dms0).
      { destruct (decide (d = c)) as [->|Hne].
        - rewrite lookup_insert_eq in Hd. injection Hd as <-. exists cl, ms, ms'.
          split_and!; congruence.
        - rewrite lookup_insert_ne in Hd by done.
          destruct (cw_funcs _ _ Hwf _ _ Hd) as [dms Hdms]. exists dl, dms, dms. by split_and!. }
      destruct Hd0 as (dl0 & dms0 & dms & Hd0 & Hs0 & Hf0 & Hf & Hl0).
      destruct (cw_super _ _ Hwf d dl0 s Hd0 Hs0) as (sl & m1 & sms & Hsl & Hr & Hm1 & Hsm & Hle).
      rewrite Hf0 in Hm1. injection Hm1 as <-.
      destruct (decide (s = c)) as [->|Hne].
      * rewrite Hc in Hsl. injection Hsl as <-. rewrite Hms in Hsm. injection Hsm as <-.
        exists cl', dms, ms'. rewrite lookup_insert_eq. split_and!; done || lia.
      * exists sl, dms, sms. rewrite lookup_insert_ne by done. split_and!; done || lia.
  - induction f as [|f IH]; intros c0 i Hf; [done|]. cbn [virtual].
    destruct (decide (c0 = c)) as [->|Hne].
    + rewrite lookup_insert_eq, Hc, Hms, Hms', Hsup. cbn.
      assert (Hv : virtual (S f) st c i = virtual (size st) st c i) by (eapply virtual_fuel; done || lia).
      cbn [virtual] in Hv. rewrite Hc, Hms in Hv. cbn in Hv.
      assert (Hsupeq : (cl_super_class cl ≫= λ s, virtual f (<[c := cl']> st) s i) =
                       (cl_super_class cl ≫= λ s, virtual f st s i)).
      { destruct (cl_super_class cl) as [s|] eqn:Hs; [|done]. cbn. apply IH.
        destruct (cw_super _ _ Hwf c cl s Hc Hs) as (? & ? & ? & ? & ? & _). lia. }
      rewrite Hsupeq. destruct (ms' !! i) as [x|] eqn:Hx.
      * pose proof (lookup_lt_Some _ _ _ Hx) as Hlt.
        apply Hok in Hx. rewrite <- Hv in Hx. subst x.
        destruct (ms !! i) as [[m|]|] eqn:Hm; [done| |].
        -- by destruct (cl_super_class cl ≫= _).
        -- apply lookup_ge_None in Hm. lia.
      * apply lookup_ge_None in Hx. by rewrite lookup_ge_None_2 by lia.
    + rewrite lookup_insert_ne by done. destruct (st !! c0) as [c0l|] eqn:Hc0; [|done].
      destruct (cl_funcs c0l ≫= (.!! i)) as [[m|]|]; [done| |done].
      destruct (cl_super_class c0l) as [s|] eqn:Hs; [|done]. cbn. apply IH.
      destruct (cw_super _ _ Hwf c0 c0l s Hc0 Hs) as (? & ? & ? & ? & ? & _). lia.
Qed.

(** z_object_is_subclass ends, and answers whether the class is the subclass
    itself or one of its direct or indirect super classes. *)
Theorem is_subclass_spec (st : class_store) (rank : nat → nat) (class subclass : nat) :
  class_wf st rank → is_Some (st !! subclass) →
  ∃ b, z_object_is_subclass st class subclass = Done b ∧
    (b = true ↔ rtc (super_rel st) subclass class).
Proof.
  intros Hwf [cl Hc]. apply (subclass_loop_spec st rank class (S (size st)) subclass cl Hwf Hc).
  pose proof (cw_rank _ _ Hwf _ _ Hc). lia.
Qed.

(** A store of three classes in a chain, to state concrete inputs: the second
    overrides the first method of the root and adds one, the third leaves all
    three to its super classes. *)
Definition demo_classes : class_store :=
  {[1%nat := mkClass None false None "ZObject" 16 (Some [Some 10%nat; Some 11%nat]);
    2%nat := mkClass None false (Some 1%nat) "ZStream" 32 (Some [Some 20%nat; None; Some 22%nat]);
    3%nat := mkClass None false (Some 2%nat) "ZStreamFD" 48 (Some [None; None; None])]}.

Lemma demo_classes_wf : class_wf demo_classes (λ c, Nat.pred c).
Proof.
  assert (Hall : ∀ (P : nat → ZClass → Prop), map_Forall P demo_classes →
    ∀ c cl, demo_classes !! c = Some cl → P c cl) by done.
  split.
  - apply (Hall (λ c _, (Nat.pred c < size demo_classes)%nat)).
    apply (bool_decide_unpack (map_Forall (λ c _, (Nat.pred c < size demo_classes)%nat) demo_classes)).
    by vm_compute.
  - apply (Hall (λ _ cl, is_Some (cl_funcs cl))).
    apply (bool_decide_unpack (map_Forall (λ _ cl, is_Some (cl_funcs cl)) demo_classes)).
    by vm_compute.
  - intros c cl s Hc. unfold demo_classes in Hc.
    rewrite !lookup_insert_Some, lookup_singleton_Some in Hc.
    destruct Hc as [[<- <-]|[_ [[<- <-]|[_ [<- <-]]]]]; cbn; try done;
      intros [= <-]; eexists _, _, _;
      refine (conj eq_refl (conj _ (conj eq_refl (conj eq_refl _)))); cbn; lia.
Qed.

Lemma is_subclass_spec_witness :
  ∃ b, z_object_is_subclass demo_classes 1 3 = Done b ∧ (b = true ↔ rtc (super_rel demo_classes) 3%nat 1%nat).
Proof.
  apply (is_subclass_spec demo_classes (λ c, Nat.pred c) 1 3 demo_classes_wf). vm_compute; eauto.
Defined.

(** The inherited table holds what calls mean. *)
Lemma inherit_table_ok st rank class cl s scl ms sms ms' :
  class_wf st rank → resolved_ok st → st !! class = Some cl → cl_super_class cl = Some s →
  st !! s = Some scl → cl_funcs_resolved scl = true → cl_funcs scl = Some sms →
  cl_funcs cl = Some ms → length ms' = length ms →
  (∀ j, ms' !! j = if decide (0 ≤ j < length sms)%nat
                   then (match ms !! j with Some None => sms !! j | x => x end) else ms !! j) →
  table_ok (size st) st class ms'.
Proof.
  intros Hwf Hok Hc Hs Hscl Hres Hsms Hms Hlen Hlook i x Hx.
  pose proof (cw_rank _ _ Hwf _ _ Hc) as Hrk.
  destruct (cw_super _ _ Hwf class cl s Hc Hs) as (? & ? & ? & _ & Hrs & _).
  destruct (size st) as [|n] eqn:Hn; [lia|]. cbn [virtual]. rewrite Hc, Hms, Hs. cbn.
  rewrite Hlook in Hx. destruct (ms !! i) as [[m|]|] eqn:Hm.
  - case_decide; by injection Hx as <-.
  - assert (Hv : virtual n st s i = virtual (size st) st s i) by (eapply virtual_fuel; [done|lia..]).
    case_decide as Hi.
    + pose proof (Hok s scl sms Hscl Hres Hsms i x Hx) as ->. by rewrite Hv.
    + injection Hx as <-. rewrite Hv, Hn. cbn [virtual]. rewrite Hscl, Hsms. cbn.
      by rewrite lookup_ge_None_2 by lia.
  - by case_decide.
Qed.

Lemma resolve_funcs_ok rank fuel : ∀ st class cl,
  class_wf st rank → resolved_ok st → st !! class = Some cl → (rank class < fuel)%nat →
  ∃ st' cl', z_object_resolve_funcs fuel st class = Done st' ∧ class_wf st' rank ∧
    resolved_ok st' ∧ size st' = size st ∧
    (∀ f c i, (rank c < f)%nat → virtual f st' c i = virtual f st c i) ∧
    st' !! class = Some cl' ∧ cl_funcs_resolved cl' = true ∧
    (∀ c, (rank class < rank c)%nat → st' !! c = st !! c).
Proof.
  induction fuel as [|fuel IH]; intros st class cl Hwf Hok Hc Hr; [lia|].
  cbn [z_object_resolve_funcs]. unfold get_class, get_funcs. rewrite Hc, Done_bind.
  destruct (cl_funcs_resolved cl) eqn:Hres; [by exists st, cl|].
  destruct (cw_funcs _ _ Hwf _ _ Hc) as [ms Hms].
  (* what remains once the table is as calls mean it *)
  assert (Hfin : ∀ st1 ms', class_wf st1 rank → resolved_ok st1 → size st1 = size st →
    (∀ f c i, (rank c < f)%nat → virtual f st1 c i = virtual f st c i) →
    (∀ c, (rank class < rank c)%nat → st1 !! c = st !! c) →
    st1 !! class = Some cl → length ms' = length ms → table_ok (size st1) st1 class ms' →
    class_wf (<[class := cl_with_resolved (cl_with_funcs ms' cl)]> st1) rank ∧
    resolved_ok (<[class := cl_with_resolved (cl_with_funcs ms' cl)]> st1) ∧
    size (<[class := cl_with_resolved (cl_with_funcs ms' cl)]> st1) = size st ∧
    (∀ f c i, (rank c < f)%nat →
       virtual f (<[class := cl_with_resolved (cl_with_funcs ms' cl)]> st1) c i = virtual f st c i) ∧
    (∀ c, (rank class < rank c)%nat →
       <[class := cl_with_resolved (cl_with_funcs ms' cl)]> st1 !! c = st !! c)).
  { intros st1 ms' Hwf1 Hok1 Hsz1 Hv1 Hfr1 Hc1 Hlen Htab.
    destruct (update_table st1 rank class cl (cl_with_resolved (cl_with_funcs ms' cl)) ms ms')
      as (Hwf2 & Hsz2 & Hv2); try done.
    split_and!; [done| |by rewrite Hsz2| |].
    - intros c dl dms Hd Hdr Hdf i x Hx. rewrite Hsz2, Hv2 by (eapply (cw_rank _ _ Hwf2) in Hd; lia).
      destruct (decide (c = class)) as [->|Hne].
      + rewrite lookup_insert_eq in Hd. injection Hd as <-. injection Hdf as <-. by apply Htab.
      + rewrite lookup_insert_ne in Hd by done. by apply (Hok1 c dl dms Hd Hdr Hdf).
    - intros f c i Hf. by rewrite Hv2, Hv1.
    - intros c Hlt. rewrite lookup_insert_ne by (intros ->; lia). by apply Hfr1. }
  assert (Hsz : (rank class < size st)%nat) by by eapply cw_rank.
  destruct (cl_super_class cl) as [s|] eqn:Hs.
  - destruct (cw_super _ _ Hwf class cl s Hc Hs) as (scl & ? & ? & Hscl & Hrk & _).
    destruct (IH st s scl Hwf Hok Hscl) as (st1 & scl1 & -> & Hwf1 & Hok1 & Hsz1 & Hv1 & Hs1 & Hres1 & Hfr1);
      [lia|]. rewrite Done_bind.
    assert (Hc1 : st1 !! class = Some cl) by by rewrite Hfr1.
    destruct (cw_super _ _ Hwf1 class cl s Hc1 Hs) as (scl' & ms0 & sms & Hscl1 & _ & Hms0 & Hsms & Hle).
    rewrite Hs1 in Hscl1. injection Hscl1 as <-. rewrite Hms in Hms0. injection Hms0 as <-.
    rewrite Hs1, Done_bind, Hsms, Done_bind.
    destruct (inherit_loop_spec sms (length sms) 0 ms) as (ms' & Hloop & Hlen & Hlook); [lia|done|].
    assert (Htab : table_ok (size st1) st1 class ms').
    { apply (inherit_table_ok st1 rank class cl s scl1 ms sms ms'); done. }
    assert (Hfr : ∀ c, (rank class < rank c)%nat → st1 !! c = st !! c) by (intros; apply Hfr1; lia).
    destruct (Hfin st1 ms' Hwf1 Hok1 Hsz1 Hv1 Hfr Hc1 Hlen Htab) as (? & ? & ? & ? & ?).
    case_decide as Hnil.
    + subst sms. cbn in Hloop. injection Hloop as <-. rewrite Done_bind.
      rewrite Hc1, Done_bind.
      assert (Hcl : cl_with_resolved cl = cl_with_resolved (cl_with_funcs ms cl))
        by (destruct cl; cbn in *; by subst).
      rewrite Hcl. eexists _, _. split; [done|]. rewrite lookup_insert_eq. by split_and!.
    + rewrite Hc1, Done_bind, Hms, Done_bind, Hloop, !Done_bind.
      rewrite lookup_insert_eq, Done_bind, insert_insert_eq.
      eexists _, _. split; [done|]. rewrite lookup_insert_eq. by split_and!.
  - rewrite Done_bind, Hc, Done_bind.
    assert (Hcl : cl_with_resolved cl = cl_with_resolved (cl_with_funcs ms cl))
      by (destruct cl; cbn in *; by subst).
    rewrite Hcl. destruct (Hfin st ms) as (? & ? & ? & ? & ?); try done.
    { intros i x Hx. destruct (size st) as [|n]; [lia|]. cbn. rewrite Hc, Hms. cbn. rewrite Hx, Hs.
      by destruct x. }
    eexists _, _. split; [done|]. rewrite lookup_insert_eq. by split_and!.
Qed.

(** Resolving keeps the set of classes. *)
Lemma resolve_dom fuel : ∀ st class st',
  z_object_resolve_funcs fuel st class = Done st' → dom st' = dom st.
Proof.
  assert (Hins : ∀ (m : class_store) c x cl, get_class m c = Done cl → dom (<[c := x]> m) = dom m).
  { intros m c x cl Hg. rewrite dom_insert_L. unfold get_class in Hg.
    destruct (m !! c) eqn:E; [|done]. apply elem_of_dom_2 in E. set_solver. }
  induction fuel as [|fuel IH]; intros st class st'; cbn; [done|].
  intros Hr. outcome_inv Hr. destruct (cl_funcs_resolved x); [by injection Hr as <-|].
  outcome_inv Hr. injection Hr as <-. rewrite (Hins _ _ _ _ Hx1).
  destruct (cl_super_class x) as [s|]; [|by injection Hx0 as <-].
  outcome_inv Hx0. apply IH in Hx2. case_decide; [injection Hx0 as <-; done|].
  outcome_inv Hx0. injection Hx0 as <-. by rewrite (Hins _ _ _ _ Hx5).
Qed.

(** Resolving a class ends and only fills in tables: no call of any class
    changes its meaning, the table of the class then holds the method that each
    call means (its own, or that of the nearest super class that has one), and
    its super classes are resolved as well. *)
Theorem resolve_funcs_spec (st : class_store) (rank : nat → nat) (class : nat) :
  class_wf st rank → resolved_ok st → is_Some (st !! class) →
  ∃ st' cl' ms', z_object_resolve_funcs (S (size st)) st class = Done st' ∧
    class_wf st' rank ∧ resolved_ok st' ∧
    (∀ c i, virtual (size st) st' c i = virtual (size st) st c i) ∧
    st' !! class = Some cl' ∧ cl_funcs_resolved cl' = true ∧ cl_funcs cl' = Some ms' ∧
    (∀ i x, ms' !! i = Some x → x = virtual (size st) st class i).
Proof.
  intros Hwf Hok [cl Hc]. pose proof (cw_rank _ _ Hwf _ _ Hc) as Hrk.
  destruct (resolve_funcs_ok rank (S (size st)) st class cl Hwf Hok Hc) as
    (st' & cl' & Hst & Hwf' & Hok' & Hsz & Hv & Hc' & Hres & _); [lia|].
  destruct (cw_funcs _ _ Hwf' _ _ Hc') as [ms' Hms'].
  assert (Hall : ∀ c i, virtual (size st) st' c i = virtual (size st) st c i).
  { intros c i. destruct (st !! c) as [dl|] eqn:Hd; [by apply Hv, (cw_rank _ _ Hwf _ dl)|].
    destruct (size st) as [|n] eqn:Hn; [done|]. cbn. rewrite Hd.
    destruct (st' !! c) as [dl'|] eqn:Hd'; [|done]. exfalso.
    assert (Hdom : dom st' = dom st) by by eapply resolve_dom.
    assert (c ∈ dom st) as [? Hc2]%elem_of_dom by (rewrite <- Hdom; apply elem_of_dom; eauto).
    by rewrite Hd in Hc2. }
  exists st', cl', ms'. split_and!; try done.
  intros i x Hx. rewrite <- Hall, <- Hsz. by apply (Hok' class cl' ms').
Qed.

Lemma demo_classes_resolved_ok : resolved_ok demo_classes.
Proof.
  intros c cl ms Hc Hr. unfold demo_classes in Hc.
  rewrite !lookup_insert_Some, lookup_singleton_Some in Hc.
  by destruct Hc as [[<- <-]|[_ [[<- <-]|[_ [<- <-]]]]].
Qed.

Lemma resolve_funcs_spec_witness :
  ∃ st' cl' ms', z_object_resolve_funcs 4 demo_classes 3 = Done st' ∧
    class_wf st' (λ c, Nat.pred c) ∧ resolved_ok st' ∧
    (∀ c i, virtual 3 st' c i = virtual 3 demo_classes c i) ∧
    st' !! 3%nat = Some cl' ∧ cl_funcs_resolved cl' = true ∧ cl_funcs cl' = Some ms' ∧
    (∀ i x, ms' !! i = Some x → x = virtual 3 demo_classes 3 i).
Proof.
  apply (resolve_funcs_spec demo_classes (λ c, Nat.pred c) 3 demo_classes_wf demo_classes_resolved_ok).
  vm_compute; eauto.
Defined.

Example demo_resolved :
  (st ← z_object_resolve_funcs 4 demo_classes 3; cl ← get_class st 3; get_funcs cl) =
  Done [Some 20%nat; Some 11%nat; Some 22%nat].
Proof. by vm_compute. Qed.
