(* ===== verification/CLib.v ===== *)
(** * C library functions the sources call

    Strings are lists of bytes without NUL: the end of the list is the
    terminator.  The functions behave as in the C locale. *)

From S2P Require Import Prelude.
Open Scope Z_scope.

(** ** Characters *)

Definition isdigit (c : Z) : bool := (48 <=? c) && (c <=? 57).
Definition isspace (c : Z) : bool := (c =? 32) || ((9 <=? c) && (c <=? 13)).
Definition islower (c : Z) : bool := (97 <=? c) && (c <=? 122).
Definition isupper (c : Z) : bool := (65 <=? c) && (c <=? 90).
Definition isprint (c : Z) : bool := (32 <=? c) && (c <=? 126).
Definition toupper (c : Z) : Z := if islower c then c - 32 else c.
Definition tolower (c : Z) : Z := if isupper c then c + 32 else c.

Definition isxdigit (c : Z) : bool :=
  isdigit c || ((97 <=? c) && (c <=? 102)) || ((65 <=? c) && (c <=? 70)).

(** The two digits that [%02X] prints for a byte. *)
Definition hexdigit (d : Z) : Z := if decide (d < 10) then 48 + d else 55 + d.
Definition hex2 (b : Z) : list Z := [hexdigit (b / 16); hexdigit (b `mod` 16)].

(** [strcmp(a, b) == 0] and [strcasecmp(a, b) == 0]. *)
Definition str_eq (a b : list Z) : bool := bool_decide (a = b).
Definition strcaseeq (a b : list Z) : bool := bool_decide ((tolower <$> a) = (tolower <$> b)).

(** A C string holds no NUL. *)
Definition nonul (s : list Z) : Prop := Forall (λ c, c ≠ 0) s.

(** The character at the front, or the terminator. *)
Definition cur (s : list Z) : Z := match s with [] => 0 | c :: _ => c end.

(** ** Numbers *)

Fixpoint skip_spaces (s : list Z) : list Z :=
  match s with
  | c :: r => if isspace c then skip_spaces r else s
  | [] => []
  end.

(** The digits in front: their value (continuing [acc]) and the rest. *)
Fixpoint digits (acc : Z) (s : list Z) : Z * list Z :=
  match s with
  | c :: r => if isdigit c then digits (acc * 10 + (c - 48)) r else (acc, s)
  | [] => (acc, [])
  end.

Definition LONG_MAX : Z := 2 ^ 63 - 1.
Definition LONG_MIN : Z := - 2 ^ 63.
Definition ULONG_MAX : Z := 2 ^ 64 - 1.

(** An optional sign: whether it is a minus, and the rest. *)
Definition sign (s : list Z) : bool * list Z :=
  match s with
  | c :: r => if c =? 45 then (true, r) else if c =? 43 then (false, r) else (false, s)
  | [] => (false, [])
  end.

(** [strtol(s, &end, 10)]: the value and [end]; without digits 0 and [s]. *)
Definition strtol (s : list Z) : Z * list Z :=
  let '(neg, r) := sign (skip_spaces s) in
  if isdigit (cur r) then
    let '(v, r) := digits 0 r in
    (Z.max LONG_MIN (Z.min LONG_MAX (if neg then - v else v)), r)
  else (0, s).

(** [strtoul(s, &end, 10)]: a minus negates modulo 2^64. *)
Definition strtoul (s : list Z) : Z * list Z :=
  let '(neg, r) := sign (skip_spaces s) in
  if isdigit (cur r) then
    let '(v, r) := digits 0 r in
    (if decide (v > ULONG_MAX) then ULONG_MAX else u64 (if neg then - v else v), r)
  else (0, s).

(** ** Decimal numerals *)

(** The numeral of a number below [10 ^ fuel]. *)
Fixpoint dec_digits (fuel : nat) (v : Z) : list Z :=
  match fuel with
  | O => []
  | S fuel => (if decide (v < 10) then [] else dec_digits fuel (v / 10)) ++ [48 + v `mod` 10]
  end.

(** Twenty digits are enough for 64 bits. *)
Definition print_dec (v : Z) : list Z := dec_digits 20 v.

Lemma digits_app acc s r :
  Forall (λ c, isdigit c = true) s →
  digits acc (s ++ r) = digits ((digits acc s).1) r.
Proof.
  intros Hs. revert acc. induction Hs as [|c s Hc _ IH]; intros acc; [done|].
  cbn [app digits]. by rewrite Hc, IH.
Qed.

Lemma digits_stop acc r : isdigit (cur r) = false → digits acc r = (acc, r).
Proof. destruct r as [|c r]; cbn; [done|]. by intros ->. Qed.

Lemma isdigit_mod v : isdigit (48 + v `mod` 10) = true.
Proof. unfold isdigit. pose proof (Z.mod_pos_bound v 10). lia. Qed.

Lemma dec_digits_digits fuel : ∀ v, Forall (λ c, isdigit c = true) (dec_digits fuel v).
Proof.
  induction fuel as [|fuel IH]; intros v; cbn; [constructor|].
  apply Forall_app_2; [case_decide; [constructor|apply IH]|]. by constructor; [apply isdigit_mod|].
Qed.

Lemma dec_digits_value fuel : ∀ v,
  0 ≤ v < 10 ^ Z.of_nat fuel → (digits 0 (dec_digits fuel v)).1 = v.
Proof.
  induction fuel as [|fuel IH]; intros v Hv; [cbn in *; lia|]. cbn [dec_digits].
  rewrite Nat2Z.inj_succ, Z.pow_succ_r in Hv by lia.
  rewrite digits_app by (case_decide; [constructor|apply dec_digits_digits]).
  cbn [digits]. rewrite isdigit_mod. cbn [fst].
  case_decide; [cbn; rewrite Z.mod_small; lia|].
  rewrite IH by (Z.to_euclidean_division_equations; lia).
  Z.to_euclidean_division_equations; lia.
Qed.

Lemma dec_digits_nonempty fuel v : dec_digits (S fuel) v ≠ [].
Proof. cbn. by intros [_ ?]%app_eq_nil. Qed.

(** A numeral starts with a digit, so that nothing is skipped in front of it. *)
Lemma print_dec_cons v : ∃ c s, print_dec v = c :: s ∧ isdigit c = true.
Proof.
  destruct (print_dec v) as [|c s] eqn:E; [by apply dec_digits_nonempty in E|].
  exists c, s. split; [done|]. pose proof (dec_digits_digits 20 v) as Hf.
  unfold print_dec in E. rewrite E in Hf. by inversion Hf.
Qed.

Lemma digit_facts c : isdigit c = true → isspace c = false ∧ (c =? 45) = false ∧ (c =? 43) = false.
Proof. unfold isdigit, isspace. lia. Qed.

Lemma strtol_print v r :
  0 ≤ v < 10 ^ 18 → isdigit (cur r) = false → strtol (print_dec v ++ r) = (v, r).
Proof.
  intros Hv Hr. destruct (print_dec_cons v) as (c & s & E & Hc).
  destruct (digit_facts c Hc) as (Hs & Hm & Hp). unfold strtol.
  assert (Hsk : sign (skip_spaces (print_dec v ++ r)) = (false, print_dec v ++ r))
    by (rewrite E; cbn [app skip_spaces]; rewrite Hs; cbn [sign]; by rewrite Hm, Hp).
  assert (Hcur : isdigit (cur (print_dec v ++ r)) = true) by by rewrite E.
  rewrite Hsk, Hcur. unfold print_dec.
  rewrite digits_app by apply dec_digits_digits. rewrite dec_digits_value, digits_stop by (done || lia).
  f_equal. unfold LONG_MAX, LONG_MIN. lia.
Qed.

Lemma strtoul_print v r :
  0 ≤ v < 10 ^ 18 → isdigit (cur r) = false → strtoul (print_dec v ++ r) = (v, r).
Proof.
  intros Hv Hr. destruct (print_dec_cons v) as (c & s & E & Hc).
  destruct (digit_facts c Hc) as (Hs & Hm & Hp). unfold strtoul.
  assert (Hsk : sign (skip_spaces (print_dec v ++ r)) = (false, print_dec v ++ r))
    by (rewrite E; cbn [app skip_spaces]; rewrite Hs; cbn [sign]; by rewrite Hm, Hp).
  assert (Hcur : isdigit (cur (print_dec v ++ r)) = true) by by rewrite E.
  rewrite Hsk, Hcur. unfold print_dec.
  rewrite digits_app by apply dec_digits_digits. rewrite dec_digits_value, digits_stop by (done || lia).
  unfold ULONG_MAX. rewrite decide_False, u64_small by lia. done.
Qed.

(** [strtol] and [strtoul] stop inside the string. *)
Lemma digits_suffix s : ∀ acc, (digits acc s).2 `suffix_of` s.
Proof.
  induction s as [|c s IH]; intros acc; cbn; [done|].
  destruct (isdigit c); cbn; [|done]. by apply suffix_cons_r.
Qed.

Lemma skip_spaces_suffix s : skip_spaces s `suffix_of` s.
Proof. induction s as [|c s IH]; cbn; [done|]. destruct (isspace c); [by apply suffix_cons_r|done]. Qed.

Lemma sign_suffix s : (sign s).2 `suffix_of` s.
Proof.
  destruct s as [|c s]; cbn; [done|].
  destruct (c =? 45), (c =? 43); cbn; (done || by apply suffix_cons_r).
Qed.

Lemma number_suffix s : (digits 0 (sign (skip_spaces s)).2).2 `suffix_of` s.
Proof.
  etrans; [apply digits_suffix|]. etrans; [apply sign_suffix|]. apply skip_spaces_suffix.
Qed.

Lemma strtol_suffix s : (strtol s).2 `suffix_of` s.
Proof.
  pose proof (number_suffix s) as H. unfold strtol.
  destruct (sign (skip_spaces s)) as [neg r]. cbn [snd] in H.
  destruct (isdigit (cur r)); [|done]. by destruct (digits 0 r).
Qed.

Lemma strtoul_suffix s : (strtoul s).2 `suffix_of` s.
Proof.
  pose proof (number_suffix s) as H. unfold strtoul.
  destruct (sign (skip_spaces s)) as [neg r]. cbn [snd] in H.
  destruct (isdigit (cur r)); [|done]. by destruct (digits 0 r).
Qed.

Lemma suffix_Forall {A} (P : A → Prop) (l k : list A) : l `suffix_of` k → Forall P k → Forall P l.
Proof. by intros [pre ->] [_ ?]%Forall_app. Qed.
