(* ===== verification/CharSet.v ===== *)
(** * Character sets (src/src/misc.c, src/src/zorp/misc.h)

    A ZCharSet is a bitmap of 256 bits; z_charset_parse fills it from a text like
    ["a-z0-9_"], with a backslash in front of a character that is meant
    literally. *)

From S2P Require Import Prelude CLib.
Open Scope Z_scope.

(** The eight words of the mask. *)
Abbreviation ZCharSet := (list Z).

Definition z_charset_init : ZCharSet := replicate 8 0.

Definition z_charset_enable (self : ZCharSet) (chr : Z) : ZCharSet :=
  let ndx := Z.to_nat (Z.shiftr (u8 chr) 5) in
  let bit := Z.shiftl 1 (Z.land (u8 chr) 31) in
  alter (λ w, Z.lor w bit) ndx self.

Definition z_charset_is_enabled (self : ZCharSet) (chr : Z) : bool :=
  let ndx := Z.to_nat (Z.shiftr (u8 chr) 5) in
  let bit := Z.shiftl 1 (Z.land (u8 chr) 31) in
  bool_decide (Z.land (self !!! ndx) bit ≠ 0).

(** ** Parsing *)

Inductive parse_state : Set :=
| PARSE_STATE_START | PARSE_STATE_DASH | PARSE_STATE_END | PARSE_STATE_ESCAPE.

#[global] Instance parse_state_eq_dec : EqDecision parse_state.
Proof. solve_decision. Defined.

Record parser := mkParser {
  pr_set : ZCharSet;
  pr_i : Z;                      (* guint *)
  pr_state : parse_state;
  pr_old : parse_state;
  pr_start : Z                   (* guchar start_pos *)
}.

(** [for (j = start; j <= end; j++)] with a guchar [j]: the loop never ends when
    the end is 255. *)
Fixpoint enable_loop (fuel : nat) (self : ZCharSet) (j end_pos : Z) : outcome ZCharSet :=
  if decide (j ≤ end_pos) then
    match fuel with
    | O => Fault OutOfFuel
    | S fuel => enable_loop fuel (z_charset_enable self j) (u8 (j + 1)) end_pos
    end
  else Done self.

(** The character at index [i] of the string, or the terminator. *)
Definition char_at (s : list Z) (i : Z) : Z := cur (drop (Z.to_nat i) s).

Definition is_backslash (c : Z) : bool := c =? 92.

(** One round of the loop of z_charset_parse, on the character [c]. *)
Definition parse_step (p : parser) (c : Z) : outcome parser :=
  let escape := is_backslash c && negb (bool_decide (pr_old p = PARSE_STATE_ESCAPE)) in
  match pr_state p with
  | PARSE_STATE_START =>
      Done (if escape : bool
            then mkParser (pr_set p) (pr_i p) PARSE_STATE_ESCAPE PARSE_STATE_START (pr_start p)
            else mkParser (pr_set p) (u32 (pr_i p + 1)) PARSE_STATE_DASH PARSE_STATE_START c)
  | PARSE_STATE_DASH =>
      Done (if escape : bool
            then mkParser (pr_set p) (u32 (pr_i p - 1)) PARSE_STATE_END (pr_old p) (pr_start p)
            else mkParser (pr_set p) (u32 (if c =? 45 then pr_i p + 1 else pr_i p - 1))
                   PARSE_STATE_END PARSE_STATE_DASH (pr_start p))
  | PARSE_STATE_END =>
      if escape : bool
      then Done (mkParser (pr_set p) (pr_i p) PARSE_STATE_ESCAPE PARSE_STATE_END (pr_start p))
      else
        set ← enable_loop 256 (pr_set p) (pr_start p) c;
        Done (mkParser set (u32 (pr_i p + 1)) PARSE_STATE_START PARSE_STATE_END (pr_start p))
  | PARSE_STATE_ESCAPE =>
      Done (mkParser (pr_set p) (u32 (pr_i p + 1)) (pr_old p) PARSE_STATE_ESCAPE (pr_start p))
  end.

Fixpoint parse_loop (fuel : nat) (s : list Z) (p : parser) : outcome parser :=
  if decide (char_at s (pr_i p) = 0) then Done p
  else match fuel with
       | O => Fault OutOfFuel
       | S fuel => p ← parse_step p (char_at s (pr_i p)); parse_loop fuel s p
       end.

(** Three rounds a character, and two more, are enough: see [parse_loop_ends]. *)
Definition z_charset_parse (self : ZCharSet) (interval_str : list Z) : outcome (bool * ZCharSet) :=
  p ← parse_loop (3 * length interval_str + 3) interval_str
        (mkParser self 0 PARSE_STATE_START PARSE_STATE_START 0);
  let '(set, st) := if decide (pr_state p = PARSE_STATE_DASH)
                    then (z_charset_enable (pr_set p) (pr_start p), PARSE_STATE_START)
                    else (pr_set p, pr_state p) in
  Done (bool_decide (st = PARSE_STATE_START), set).

(** [str] holds [len] characters or, for a negative [len], a C string. *)
Definition z_charset_is_string_valid (self : ZCharSet) (s : list Z) (len : Z) : bool :=
  let len := if decide (len < 0) then zlen s else len in
  forallb (z_charset_is_enabled self) (take (Z.to_nat len) s).

(** ** The set of characters of a mask *)

Definition cs_wf (self : ZCharSet) : Prop := length self = 8%nat.

Lemma enable_wf self c : cs_wf self → cs_wf (z_charset_enable self c).
Proof. intros Hw. unfold cs_wf, z_charset_enable. by rewrite length_alter. Qed.

Lemma is_enabled_testbit self c :
  is_byte c → z_charset_is_enabled self c = Z.testbit (self !!! Z.to_nat (Z.shiftr c 5)) (Z.land c 31).
Proof.
  intros Hc. unfold z_charset_is_enabled. rewrite u8_small by done.
  set (w := self !!! _). set (k := Z.land c 31).
  assert (Hk : 0 ≤ k) by (apply Z.land_nonneg; right; lia).
  assert (Heq : Z.land w (Z.shiftl 1 k) = if Z.testbit w k then Z.shiftl 1 k else 0).
  { apply Z.bits_inj'. intros n Hn. rewrite Z.land_spec, Z.shiftl_spec by done.
    destruct (decide (n = k)) as [->|Hne].
    - rewrite Z.sub_diag. cbn. destruct (Z.testbit w k) eqn:E.
      + rewrite Z.shiftl_spec, Z.sub_diag by done. done.
      + by rewrite Z.bits_0.
    - assert (Hz : Z.testbit 1 (n - k) = false).
      { destruct (decide (n < k)); [by apply Z.testbit_neg_r; lia|].
        change 1 with (2 ^ 0). rewrite Z.pow2_bits_false; [done|lia]. }
      rewrite Hz, andb_false_r. destruct (Z.testbit w k); [|by rewrite Z.bits_0].
      by rewrite Z.shiftl_spec, Hz by done. }
  rewrite Heq. destruct (Z.testbit w k).
  - apply bool_decide_eq_true_2. rewrite Z.shiftl_1_l. pose proof (Z.pow_pos_nonneg 2 k). lia.
  - apply bool_decide_eq_false_2. intros Hx. by apply Hx.
Qed.

(** Two bytes with the same word and the same bit are the same byte. *)
Lemma word_bit_inj c d :
  is_byte c → is_byte d → Z.shiftr c 5 = Z.shiftr d 5 → Z.land c 31 = Z.land d 31 → c = d.
Proof.
  intros Hc Hd Hs Hl. change 31 with (Z.ones 5) in Hl.
  rewrite !Z.land_ones in Hl by lia. rewrite !Z.shiftr_div_pow2 in Hs by lia.
  unfold is_byte in *. Z.to_euclidean_division_equations; lia.
Qed.

Lemma enable_spec self c d :
  cs_wf self → is_byte c → is_byte d →
  z_charset_is_enabled (z_charset_enable self c) d = z_charset_is_enabled self d || bool_decide (c = d).
Proof.
  intros Hw Hc Hd. rewrite !is_enabled_testbit by done. unfold z_charset_enable.
  rewrite u8_small by done.
  assert (Hb : ∀ x, is_byte x → 0 ≤ Z.shiftr x 5 < 8 ∧ 0 ≤ Z.land x 31).
  { intros x Hx. rewrite Z.shiftr_div_pow2 by lia. unfold is_byte in Hx.
    split; [Z.to_euclidean_division_equations; lia|apply Z.land_nonneg; lia]. }
  pose proof (Hb c Hc) as [Hc5 Hck]. pose proof (Hb d Hd) as [Hd5 Hdk].
  destruct (decide (Z.shiftr c 5 = Z.shiftr d 5)) as [He|He].
  - rewrite He, list_lookup_total_alter_eq by (unfold cs_wf in Hw; lia).
    rewrite Z.lor_spec. f_equal. rewrite Z.shiftl_1_l, Z.pow2_bits_eqb by done.
    destruct (decide (c = d)) as [->|Hne].
    + rewrite bool_decide_true by done. by apply Z.eqb_refl.
    + rewrite bool_decide_false by done. apply Z.eqb_neq. intros Hl. by apply Hne, word_bit_inj.
  - rewrite list_lookup_total_alter_ne by lia.
    rewrite bool_decide_false by congruence. by rewrite orb_false_r.
Qed.

(** What the range loop adds. *)
Lemma enable_loop_spec fuel : ∀ self j e,
  cs_wf self → 0 ≤ j → is_byte e → e ≠ 255 → e < j + Z.of_nat fuel →
  ∃ self', enable_loop fuel self j e = Done self' ∧ cs_wf self' ∧
    ∀ d, is_byte d → z_charset_is_enabled self' d =
                     z_charset_is_enabled self d || bool_decide (j ≤ d ≤ e).
Proof.
  induction fuel as [|fuel IH]; intros self j e Hw Hj He Hne Hf; cbn [enable_loop].
  - rewrite decide_False by lia. exists self. split_and!; [done..|].
    intros d Hd. by rewrite bool_decide_false, orb_false_r by lia.
  - destruct (decide (j ≤ e)) as [Hle|Hgt].
    + unfold is_byte in He. rewrite u8_small by (unfold is_byte; lia).
      destruct (IH (z_charset_enable self j) (j + 1) e) as (self' & -> & Hw' & Hs');
        [by apply enable_wf|lia|done|done|lia|].
      exists self'. split_and!; [done..|]. intros d Hd.
      rewrite Hs', enable_spec by (try done; unfold is_byte; lia).
      rewrite <- orb_assoc. f_equal. destruct (decide (j = d)) as [->|].
      * rewrite (bool_decide_true (d = d)) by done. cbn. symmetry.
        apply bool_decide_eq_true_2. lia.
      * rewrite (bool_decide_false (j = d)) by done. cbn. apply bool_decide_ext. lia.
    + exists self. split_and!; [done..|]. intros d Hd.
      by rewrite bool_decide_false, orb_false_r by lia.
Qed.

(** ** The parser ends *)

(** A bound on the rounds that are left for a string of [n] characters. *)
Definition rounds (n : Z) (p : parser) : Z :=
  let r := 3 * (n - pr_i p) in
  match pr_state p with
  | PARSE_STATE_START => r + 2
  | PARSE_STATE_DASH => r + 4
  | PARSE_STATE_END => r
  | PARSE_STATE_ESCAPE => if decide (pr_old p = PARSE_STATE_START) then r + 1 else r - 1
  end.

Record parser_ok (n : Z) (p : parser) : Prop := {
  po_set : cs_wf (pr_set p);
  po_i : 0 ≤ pr_i p ≤ n;
  po_dash : pr_state p = PARSE_STATE_DASH → 1 ≤ pr_i p;
  po_escape : pr_state p = PARSE_STATE_ESCAPE →
    pr_i p < n ∧ (pr_old p = PARSE_STATE_START ∨ pr_old p = PARSE_STATE_END);
  po_start : 0 ≤ pr_start p
}.

Lemma parse_step_ok n p c :
  parser_ok n p → pr_i p < n < 2 ^ 31 → is_byte c → c ≠ 255 →
  ∃ p', parse_step p c = Done p' ∧ parser_ok n p' ∧ rounds n p' < rounds n p.
Proof.
  intros [Hs Hi Hd He Ht] Hn Hc Hne.
  assert (Hu : ∀ x, 0 ≤ x ≤ n → u32 x = x) by (intros; apply Z.mod_small; lia).
  unfold parse_step. set (esc := is_backslash c && _). unfold is_byte in Hc.
  destruct p as [set i st old start]; cbn [pr_set pr_i pr_state pr_old pr_start] in *.
  assert (Hgo : ∀ set' i' st' old' start', cs_wf set' → 0 ≤ i' ≤ n → 0 ≤ start' →
    (st' = PARSE_STATE_DASH → 1 ≤ i') →
    (st' = PARSE_STATE_ESCAPE → i' < n ∧ (old' = PARSE_STATE_START ∨ old' = PARSE_STATE_END)) →
    rounds n (mkParser set' i' st' old' start') < rounds n (mkParser set i st old start) →
    ∃ p', Done (mkParser set' i' st' old' start') = Done p' ∧ parser_ok n p' ∧
          rounds n p' < rounds n (mkParser set i st old start)) by (intros; eexists; by split).
  destruct st.
  - destruct esc; (apply Hgo; rewrite ?Hu by lia; try done; try lia);
      [intros _; split; [lia|by left]|..]; unfold rounds; cbn -[Z.mul]; case_decide || idtac; done || lia.
  - specialize (Hd eq_refl).
    destruct esc; (apply Hgo; try destruct (c =? 45); rewrite ?Hu by lia; try done; try lia);
      unfold rounds; cbn -[Z.mul]; lia.
  - destruct esc.
    + apply Hgo; try done; [intros _; split; [lia|by right]|]. unfold rounds; cbn -[Z.mul].
      case_decide; done || lia.
    + destruct (enable_loop_spec 256 set start c) as (set' & -> & Hs' & _); [done..|lia|].
      rewrite Done_bind. apply Hgo; rewrite ?Hu by lia; try done; try lia.
      unfold rounds; cbn -[Z.mul]; lia.
  - destruct (He eq_refl) as [Hlt [-> | ->]]; (apply Hgo; rewrite ?Hu by lia; try done; try lia);
      unfold rounds; cbn -[Z.mul]; case_decide; done || lia.
Qed.

Definition clean (s : list Z) : Prop := Forall (λ c, 0 < c < 255) s.

Lemma char_at_clean s i :
  clean s → 0 ≤ i ≤ zlen s → char_at s i ≠ 0 → i < zlen s ∧ is_byte (char_at s i) ∧ char_at s i ≠ 255.
Proof.
  intros Hs Hi Hc. unfold char_at in *. destruct (drop (Z.to_nat i) s) as [|c r] eqn:E; [done|].
  assert (length (drop (Z.to_nat i) s) = S (length r)) by by rewrite E.
  rewrite length_drop in *. pose proof (Forall_drop _ (Z.to_nat i) _ Hs) as Hd. rewrite E in Hd.
  inversion_clear Hd as [|? ? Hb _]. cbn. unfold is_byte. cbn in *. lia.
Qed.

Lemma parse_loop_ends s fuel : ∀ p,
  clean s → zlen s < 2 ^ 31 → parser_ok (zlen s) p → rounds (zlen s) p < Z.of_nat fuel →
  ∃ p', parse_loop fuel s p = Done p' ∧ parser_ok (zlen s) p' ∧ char_at s (pr_i p') = 0.
Proof.
  induction fuel as [|fuel IH]; intros p Hs Hn Hp Hr; cbn [parse_loop].
  - case_decide as Hz; [by exists p|]. exfalso.
    destruct (char_at_clean s (pr_i p) Hs (po_i _ _ Hp) Hz) as (Hlt & Hb & Hne).
    destruct (parse_step_ok _ p _ Hp ltac:(lia) Hb Hne) as (p' & _ & Hp' & Hr').
    assert (0 ≤ rounds (zlen s) p').
    { unfold rounds. destruct Hp' as [? ? ? He ?]. destruct (pr_state p'); try lia.
      specialize (He eq_refl). case_decide; lia. }
    lia.
  - case_decide as Hz; [by exists p|].
    destruct (char_at_clean s (pr_i p) Hs (po_i _ _ Hp) Hz) as (Hlt & Hb & Hne).
    destruct (parse_step_ok _ p _ Hp ltac:(lia) Hb Hne) as (p' & -> & Hp' & Hr').
    rewrite Done_bind. apply IH; done || lia.
Qed.

Lemma parse_loop_start s self :
  clean s → zlen s < 2 ^ 31 → cs_wf self →
  ∃ p', parse_loop (3 * length s + 3) s (mkParser self 0 PARSE_STATE_START PARSE_STATE_START 0) = Done p' ∧
    parser_ok (zlen s) p' ∧ char_at s (pr_i p') = 0.
Proof.
  intros Hs Hn Hw. apply parse_loop_ends; [done..| |].
  - split; cbn; done || lia.
  - unfold rounds. cbn -[Z.mul]. lia.
Qed.

(** ** What the parser accepts *)

(** A round of the loop as a relation. *)
Definition round (s : list Z) (p p' : parser) : Prop :=
  char_at s (pr_i p) ≠ 0 ∧ parse_step p (char_at s (pr_i p)) = Done p'.

Lemma round_intro s set i st old start c p' :
  char_at s i = c → c ≠ 0 → parse_step (mkParser set i st old start) c = Done p' →
  round s (mkParser set i st old start) p'.
Proof. intros Hc Hz Hp. split; cbn [pr_i]; by rewrite Hc. Qed.

Lemma parse_loop_rounds s fuel : ∀ p p', parse_loop fuel s p = Done p' → rtc (round s) p p'.
Proof.
  induction fuel as [|fuel IH]; intros p p'; cbn [parse_loop]; case_decide as Hz;
    try done; try (intros [= <-]; apply rtc_refl).
  intros Hl. outcome_inv Hl. eapply rtc_l; [by split|]. by apply IH.
Qed.

(** The rounds are deterministic, so that where they end is unique. *)
Lemma rounds_end s p q1 q2 :
  rtc (round s) p q1 → rtc (round s) p q2 →
  char_at s (pr_i q1) = 0 → char_at s (pr_i q2) = 0 → q1 = q2.
Proof.
  intros H1. revert q2. induction H1 as [p|p p1 q1 [Hz Hs] _ IH]; intros q2 H2 E1 E2.
  - inversion H2 as [|? ? ? [Hz _] _]; by subst.
  - inversion H2 as [|? p2 ? [Hz2 Hs2] Hrest]; subst; [done|].
    rewrite Hs in Hs2. injection Hs2 as <-. by apply IH.
Qed.

(** An item of the text: a character or a range. *)
Inductive item : Set := Single (c : Z) | Range (a b : Z).

(** A backslash marks the characters that are not meant as syntax. *)
Definition esc (c : Z) : list Z := if is_backslash c || (c =? 45) then [92; c] else [c].

Definition print_item (it : item) : list Z :=
  match it with Single c => esc c | Range a b => esc a ++ [45] ++ esc b end.

Definition in_item (d : Z) (it : item) : bool :=
  match it with Single c => bool_decide (c = d) | Range a b => bool_decide (a ≤ d ≤ b) end.

(** The last item may be a lone backslash; elsewhere one is misread (see
    [charset_backslash_misread]), and a range that ends in 255 never ends. *)
Definition item_ok (last : bool) (it : item) : Prop :=
  match it with
  | Single c => 0 < c < 255 ∧ (last = false → c ≠ 92)
  | Range a b => 0 < a < 255 ∧ 0 < b < 255
  end.

Lemma char_at_app pre c r : char_at (pre ++ c :: r) (zlen pre) = c.
Proof. unfold char_at. rewrite Nat2Z.id, drop_app_length. done. Qed.

Lemma char_at_app' pre x c r i : i = zlen (pre ++ x) → char_at (pre ++ x ++ c :: r) i = c.
Proof. intros ->. rewrite app_assoc. apply char_at_app. Qed.

(** The state before an escape was read. *)
Abbreviation fresh_old o := (o ≠ PARSE_STATE_ESCAPE).

Section items.
Context (s : list Z) (Hlen : zlen s < 2 ^ 31).

(** The character [c] of the text, possibly escaped, read from [START] or [END]. *)
Lemma read_esc set pre c r st old start :
  s = pre ++ esc c ++ r → 0 < c < 255 → fresh_old old →
  st = PARSE_STATE_START ∨ st = PARSE_STATE_END →
  ∃ i old', rtc (round s) (mkParser set (zlen pre) st old start) (mkParser set i st old' start) ∧
    char_at s i = c ∧ zlen pre + zlen (esc c) = i + 1 ∧ 0 ≤ i ∧
    (is_backslash c && negb (bool_decide (old' = PARSE_STATE_ESCAPE))) = false.
Proof.
  intros Hs Hc Ho Hst. unfold esc in Hs. destruct (is_backslash c || (c =? 45)) eqn:Hsyn; cbn [app] in Hs.
  - assert (Hc0 : char_at s (zlen pre) = 92) by (rewrite Hs; apply char_at_app).
    assert (Hc1 : char_at s (zlen pre + 1) = c).
    { rewrite Hs. apply (char_at_app' pre [92] c r). rewrite length_app. cbn. lia. }
    assert (Hpre : zlen pre + 2 ≤ zlen s) by (rewrite Hs, !length_app; cbn; lia).
    exists (zlen pre + 1), PARSE_STATE_ESCAPE. split; [|split_and!; [done|unfold esc; rewrite Hsyn; cbn; lia|lia|]].
    + assert (Hu : u32 (zlen pre + 1) = zlen pre + 1) by (apply Z.mod_small; lia).
      assert (Hbs : is_backslash 92 && negb (bool_decide (old = PARSE_STATE_ESCAPE)) = true)
        by by rewrite bool_decide_false.
      destruct Hst as [-> | ->];
        (eapply rtc_l; [eapply round_intro; [exact Hc0|done|]; unfold parse_step;
                        cbn [pr_old pr_state]; rewrite Hbs; reflexivity|]);
        apply rtc_once; (eapply round_intro; [exact Hc0|done|]);
        unfold parse_step; cbn [pr_state pr_i pr_set pr_old pr_start]; by rewrite Hu.
    + by rewrite bool_decide_true, andb_false_r.
  - exists (zlen pre), old. split; [apply rtc_refl|]. apply orb_false_iff in Hsyn as [Hb Hd].
    split_and!; [rewrite Hs; apply char_at_app|unfold esc; rewrite Hb, Hd; cbn; lia|lia|by rewrite Hb].
Qed.

Lemma esc_length c : 1 ≤ zlen (esc c) ≤ 2.
Proof. unfold esc. destruct (is_backslash c || (c =? 45)); cbn; lia. Qed.

(** A character read from [START] becomes the start of a range. *)
Lemma run_start set pre c r old start :
  s = pre ++ esc c ++ r → 0 < c < 255 → fresh_old old →
  rtc (round s) (mkParser set (zlen pre) PARSE_STATE_START old start)
    (mkParser set (zlen (pre ++ esc c)) PARSE_STATE_DASH PARSE_STATE_START c) ∧
  char_at s (zlen (pre ++ esc c) - 1) = c.
Proof.
  intros Hs Hc Ho.
  destruct (read_esc set pre c r PARSE_STATE_START old start Hs Hc Ho) as (i & old' & Hr & Hci & Hi & H0 & He);
    [by left|]. rewrite length_app.
  replace (Z.of_nat (length pre + length (esc c)) - 1) with i by lia. split; [|done].
  assert (zlen pre + zlen (esc c) ≤ zlen s) by (rewrite Hs, !length_app; lia).
  etrans; [exact Hr|]. apply rtc_once. eapply round_intro; [exact Hci|lia|].
  unfold parse_step. cbn [pr_state pr_old pr_i pr_set]. rewrite He.
  assert (Hu : u32 (i + 1) = Z.of_nat (length pre + length (esc c)))
    by (unfold u32; rewrite Z.mod_small; lia).
  by rewrite Hu.
Qed.

(** The range from the start character to [c], whose escapes were read. *)
Lemma run_end set pre c r old start :
  s = pre ++ esc c ++ r → 0 < c < 255 → fresh_old old → cs_wf set → 0 ≤ start →
  ∃ set', rtc (round s) (mkParser set (zlen pre) PARSE_STATE_END old start)
    (mkParser set' (zlen (pre ++ esc c)) PARSE_STATE_START PARSE_STATE_END start) ∧ cs_wf set' ∧
    ∀ d, is_byte d → z_charset_is_enabled set' d = z_charset_is_enabled set d || bool_decide (start ≤ d ≤ c).
Proof.
  intros Hs Hc Ho Hw Hst.
  destruct (read_esc set pre c r PARSE_STATE_END old start Hs Hc Ho) as (i & old' & Hr & Hci & Hi & H0 & He);
    [by right|]. rewrite length_app.
  assert (zlen pre + zlen (esc c) ≤ zlen s) by (rewrite Hs, !length_app; lia).
  destruct (enable_loop_spec 256 set start c) as (set' & Hl & Hw' & Hm); [done..|unfold is_byte; lia|lia|lia|].
  exists set'. split; [|done]. etrans; [exact Hr|]. apply rtc_once.
  eapply round_intro; [exact Hci|lia|].
  unfold parse_step. cbn [pr_state pr_old pr_i pr_set pr_start]. rewrite He, Hl, Done_bind.
  assert (Hu : u32 (i + 1) = Z.of_nat (length pre + length (esc c)))
    by (unfold u32; rewrite Z.mod_small; lia).
  by rewrite Hu.
Qed.

(** A whole item, followed by [x]. *)
Lemma run_item set pre it x r old start :
  s = pre ++ print_item it ++ x :: r → x ≠ 45 → 0 < x < 255 → item_ok false it → fresh_old old →
  cs_wf set →
  ∃ set' start', rtc (round s) (mkParser set (zlen pre) PARSE_STATE_START old start)
    (mkParser set' (zlen (pre ++ print_item it)) PARSE_STATE_START PARSE_STATE_END start') ∧
    cs_wf set' ∧ ∀ d, is_byte d → z_charset_is_enabled set' d = z_charset_is_enabled set d || in_item d it.
Proof.
  intros Hs Hx Hx0 Hit Ho Hw. destruct it as [c|a b]; cbn [print_item item_ok] in *.
  - destruct Hit as [Hc Hnb]. specialize (Hnb eq_refl).
    destruct (run_start set pre c (x :: r) old start Hs Hc Ho) as [Hr1 Hcc].
    assert (Hcx : char_at s (zlen (pre ++ esc c)) = x) by (rewrite Hs; by apply char_at_app').
    pose proof (esc_length c) as Hel.
    assert (Hle : zlen (pre ++ esc c) + 1 ≤ zlen s) by (rewrite Hs, !length_app; cbn; lia).
    assert (Hlast : zlen (pre ++ esc c) = zlen pre + zlen (esc c)) by (rewrite length_app; lia).
    set (i := zlen (pre ++ esc c)) in *.
    assert (Hu : u32 (i - 1) = i - 1) by (unfold u32; rewrite Z.mod_small; lia).
    assert (Hu2 : u32 (i - 1 + 1) = i) by (unfold u32; rewrite Z.mod_small; lia).
    assert (Hback : ∃ old', rtc (round s) (mkParser set i PARSE_STATE_DASH PARSE_STATE_START c)
              (mkParser set (i - 1) PARSE_STATE_END old' c)).
    { destruct (is_backslash x) eqn:Hbx; eexists; apply rtc_once; (eapply round_intro; [exact Hcx|lia|]);
        unfold parse_step; cbn [pr_state pr_old pr_i pr_set pr_start]; rewrite Hbx; cbn;
        rewrite ?(proj2 (Z.eqb_neq x 45)) by done; by rewrite Hu. }
    destruct Hback as [old' Hr2].
    destruct (enable_loop_spec 256 set c c) as (set' & Hl & Hw' & Hm); [done|lia|unfold is_byte; lia|lia|lia|].
    exists set', c. split; [|split; [done|]].
    + etrans; [exact Hr1|]. etrans; [exact Hr2|]. apply rtc_once.
      eapply round_intro; [exact Hcc|lia|]. unfold parse_step.
      cbn [pr_state pr_old pr_i pr_set pr_start]. unfold is_backslash.
      rewrite (proj2 (Z.eqb_neq c 92)) by done. cbn [andb]. by rewrite Hl, Done_bind, Hu2.
    + intros d Hd. rewrite Hm by done. f_equal. apply bool_decide_ext. lia.
  - destruct Hit as [Ha Hb]. rewrite <- !app_assoc in Hs. cbn [app] in Hs.
    destruct (run_start set pre a (45 :: esc b ++ x :: r) old start Hs Ha Ho) as [Hr1 _].
    assert (Hcd : char_at s (zlen (pre ++ esc a)) = 45) by (rewrite Hs; by apply char_at_app').
    assert (Hle : zlen (pre ++ esc a) + 1 ≤ zlen s) by (rewrite Hs, !length_app; cbn; lia).
    assert (Hu : u32 (zlen (pre ++ esc a) + 1) = zlen ((pre ++ esc a) ++ [45])).
    { unfold u32. rewrite Z.mod_small; rewrite ?(length_app _ [45]); cbn; lia. }
    destruct (run_end set ((pre ++ esc a) ++ [45]) b (x :: r) PARSE_STATE_DASH a) as (set' & Hr3 & Hw' & Hm);
      [by rewrite Hs, <- !app_assoc|done..|lia|].
    exists set', a. split; [|done].
    etrans; [exact Hr1|].
    eapply rtc_l; [eapply round_intro; [exact Hcd|lia|]; unfold parse_step;
      cbn -[u32 Z.add]; rewrite Hu; reflexivity|].
    replace (pre ++ esc a ++ [45] ++ esc b) with (((pre ++ esc a) ++ [45]) ++ esc b)
      by by rewrite <- !app_assoc.
    exact Hr3.
Qed.

(** The last item, and the end of the string. *)
Lemma run_last set pre it old start :
  s = pre ++ print_item it → item_ok true it → fresh_old old → cs_wf set →
  ∃ p, rtc (round s) (mkParser set (zlen pre) PARSE_STATE_START old start) p ∧ pr_i p = zlen s ∧
    ((pr_state p = PARSE_STATE_START ∧ cs_wf (pr_set p) ∧
      ∀ d, is_byte d → z_charset_is_enabled (pr_set p) d = z_charset_is_enabled set d || in_item d it) ∨
     (pr_state p = PARSE_STATE_DASH ∧ pr_set p = set ∧ it = Single (pr_start p) ∧ 0 < pr_start p < 255)).
Proof.
  intros Hs Hit Ho Hw. destruct it as [c|a b]; cbn [print_item item_ok] in *.
  - destruct Hit as [Hc _].
    destruct (run_start set pre c [] old start) as [Hr1 _]; [by rewrite app_nil_r|done..|].
    eexists. split; [exact Hr1|]. cbn. split; [by rewrite Hs|by right].
  - destruct Hit as [Ha Hb].
    destruct (run_start set pre a ([45] ++ esc b) old start Hs Ha Ho) as [Hr1 _].
    assert (Hcd : char_at s (zlen (pre ++ esc a)) = 45) by (rewrite Hs; by apply char_at_app').
    assert (Hle : zlen (pre ++ esc a) + 1 ≤ zlen s) by (rewrite Hs, !length_app; cbn; lia).
    assert (Hu : u32 (zlen (pre ++ esc a) + 1) = zlen ((pre ++ esc a) ++ [45])).
    { unfold u32. rewrite Z.mod_small; rewrite ?(length_app _ [45]); cbn; lia. }
    destruct (run_end set ((pre ++ esc a) ++ [45]) b [] PARSE_STATE_DASH a) as (set' & Hr3 & Hw' & Hm);
      [by rewrite Hs, app_nil_r, <- !app_assoc|done..|lia|].
    eexists. split; [etrans; [exact Hr1|]; eapply rtc_l;
      [eapply round_intro; [exact Hcd|lia|]; unfold parse_step; cbn -[u32 Z.add]; rewrite Hu; reflexivity|];
      exact Hr3|]. cbn.
    split; [by rewrite Hs, <- !app_assoc|by left].
Qed.
End items.

Definition print_items (items : list item) : list Z := items ≫= print_item.

Fixpoint items_ok (items : list item) : Prop :=
  match items with
  | [] => True
  | it :: items => item_ok (bool_decide (items = [])) it ∧ items_ok items
  end.

#[global] Instance item_eq_dec : EqDecision item.
Proof. solve_decision. Defined.

Definition in_items (d : Z) (items : list item) : bool := existsb (in_item d) items.

Lemma esc_head c r : 0 < c < 255 → ∃ x r', esc c ++ r = x :: r' ∧ x ≠ 45 ∧ 0 < x < 255.
Proof.
  intros Hc. unfold esc. destruct (is_backslash c || (c =? 45)) eqn:E; cbn.
  - exists 92, (c :: r). by split_and!.
  - exists c, r. apply orb_false_iff in E as [_ E]. split_and!; done || lia.
Qed.

Lemma esc_clean c : 0 < c < 255 → clean (esc c).
Proof. intros. unfold esc, clean. destruct (_ || _); rewrite ?Forall_cons; split_and!; done || lia. Qed.

Lemma print_item_clean last it : item_ok last it → clean (print_item it).
Proof.
  destruct it; cbn; intros [? ?]; [by apply esc_clean|]. unfold clean.
  apply Forall_app_2; [by apply esc_clean|].
  apply Forall_cons; split; [lia|by apply esc_clean].
Qed.

Lemma print_items_clean items : items_ok items → clean (print_items items).
Proof.
  induction items as [|it items IH]; [constructor|]. intros [Hit Hits].
  apply Forall_app_2; [by eapply print_item_clean|by apply IH].
Qed.

Lemma run_items s items : zlen s < 2 ^ 31 → ∀ set pre old start,
  s = pre ++ print_items items → items_ok items → fresh_old old → cs_wf set →
  ∃ p, rtc (round s) (mkParser set (zlen pre) PARSE_STATE_START old start) p ∧ pr_i p = zlen s ∧
    ((pr_state p = PARSE_STATE_START ∧ cs_wf (pr_set p) ∧
      ∀ d, is_byte d → z_charset_is_enabled (pr_set p) d = z_charset_is_enabled set d || in_items d items) ∨
     (pr_state p = PARSE_STATE_DASH ∧ cs_wf (pr_set p) ∧ 0 < pr_start p < 255 ∧
      ∀ d, is_byte d → z_charset_is_enabled (pr_set p) d || bool_decide (pr_start p = d) =
                       z_charset_is_enabled set d || in_items d items)).
Proof.
  intros Hlen. induction items as [|it items IH]; intros set pre old start Hs Hok Ho Hw.
  - eexists. split; [apply rtc_refl|]. cbn. change (print_items []) with (@nil Z) in Hs.
    rewrite app_nil_r in Hs. split; [by rewrite Hs|]. left. split_and!; [done..|].
    intros d Hd. by rewrite orb_false_r.
  - destruct Hok as [Hit Hits]. change (print_items (it :: items)) with (print_item it ++ print_items items) in Hs.
    destruct items as [|it2 items].
    + change (print_items []) with (@nil Z) in Hs. rewrite app_nil_r in Hs.
      rewrite bool_decide_true in Hit by done.
      destruct (run_last s Hlen set pre it old start Hs Hit Ho Hw) as (p & Hr & Hi & Hcase).
      exists p. split; [done|]. split; [done|]. unfold in_items. cbn [existsb].
      destruct Hcase as [(Hst & Hw' & Hm)|(Hst & Hset & Hit' & Hc)]; [left|right]; (split; [done|]).
      * split; [done|]. intros d Hd. rewrite orb_false_r. by apply Hm.
      * rewrite Hset. split_and!; [done|lia|lia|]. intros d Hd. by rewrite Hit', orb_false_r.
    + rewrite bool_decide_false in Hit by done.
      assert (Hhd : ∃ x r, print_items (it2 :: items) = x :: r ∧ x ≠ 45 ∧ 0 < x < 255).
      { change (print_items (it2 :: items)) with (print_item it2 ++ print_items items).
        destruct Hits as [Hit2 _]. destruct it2 as [c|a b]; cbn in Hit2 |- *;
          [apply esc_head; by destruct Hit2|]. rewrite <- app_assoc. apply esc_head. by destruct Hit2. }
      destruct Hhd as (x & r & Hx & Hx45 & Hx0). rewrite Hx in Hs.
      destruct (run_item s Hlen set pre it x r old start Hs Hx45 Hx0 Hit Ho Hw)
        as (set' & start' & Hr & Hw' & Hm).
      destruct (IH set' (pre ++ print_item it) PARSE_STATE_END start') as (p & Hr2 & Hi & Hcase);
        [by rewrite Hx, Hs, <- app_assoc|done..|].
      exists p. split; [by etrans|]. split; [done|].
      destruct Hcase as [(Hst & Hw2 & Hm2)|(Hst & Hw2 & Hc & Hm2)]; [left|right]; split_and!; try done; try lia;
        intros d Hd; change (in_items d (it :: it2 :: items)) with
          (in_item d it || in_items d (it2 :: items)); by rewrite Hm2, Hm, orb_assoc.
Qed.

(** ** Theorems *)

(** Parsing ends and reports failure or success, for every text without NUL and
    without the character 255, and whatever it returns is a bitmap. *)
Theorem z_charset_parse_ends (self : ZCharSet) (s : list Z) :
  cs_wf self → clean s → zlen s < 2 ^ 31 →
  ∃ ok set, z_charset_parse self s = Done (ok, set) ∧ cs_wf set.
Proof.
  intros Hw Hs Hn. destruct (parse_loop_start s self Hs Hn Hw) as (p & Hp & [Hset _ _ _ _] & _).
  unfold z_charset_parse. rewrite Hp, Done_bind. case_decide; eexists _, _; (split; [done|]);
    [by apply enable_wf|done].
Qed.

Lemma z_charset_parse_ends_witness :
  ∃ ok set, z_charset_parse z_charset_init (str "a-") = Done (ok, set) ∧ cs_wf set.
Proof. apply (z_charset_parse_ends z_charset_init (str "a-")); [done|by repeat constructor|done]. Defined.

(** A text of characters and ranges, in which a dash or a backslash is meant
    literally behind a backslash, is parsed successfully into the set of those
    characters and ranges added to the set parsed into. *)
Theorem z_charset_parse_print (self : ZCharSet) (items : list item) :
  cs_wf self → items_ok items → zlen (print_items items) < 2 ^ 31 →
  ∃ set, z_charset_parse self (print_items items) = Done (true, set) ∧
    ∀ d, is_byte d → z_charset_is_enabled set d = z_charset_is_enabled self d || in_items d items.
Proof.
  intros Hw Hok Hlen. pose proof (print_items_clean items Hok) as Hclean.
  destruct (parse_loop_start _ self Hclean Hlen Hw) as (p & Hp & _ & Hend).
  destruct (run_items _ items Hlen self [] PARSE_STATE_START 0 eq_refl Hok) as (q & Hq & Hqi & Hcase); [done..|].
  assert (Hqe : char_at (print_items items) (pr_i q) = 0)
    by (rewrite Hqi; unfold char_at; by rewrite drop_ge by lia).
  pose proof (rounds_end _ _ _ _ (parse_loop_rounds _ _ _ _ Hp) Hq Hend Hqe) as ->.
  unfold z_charset_parse. rewrite Hp, Done_bind.
  destruct Hcase as [(Hst & Hwq & Hm)|(Hst & Hwq & Hc & Hm)]; rewrite Hst.
  - rewrite decide_False by done. eexists. by split.
  - rewrite decide_True by done. eexists. split; [done|]. intros d Hd.
    rewrite enable_spec by (try done; unfold is_byte; lia). by apply Hm.
Qed.

Lemma z_charset_parse_print_witness :
  ∃ set, z_charset_parse z_charset_init (str "a-c\-_-\\") = Done (true, set) ∧
    ∀ d, is_byte d → z_charset_is_enabled set d =
      z_charset_is_enabled z_charset_init d || in_items d [Range 97 99; Single 45; Range 95 92].
Proof.
  apply (z_charset_parse_print z_charset_init [Range 97 99; Single 45; Range 95 92]); [done| |done].
  cbn. split_and!; done || lia.
Defined.

(** An escaped backslash that is not the last item is read again, as an escape:
    the text for a backslash and a [b] becomes the range between them. *)
Example charset_backslash_misread :
  (r ← z_charset_parse z_charset_init (str "\\b");
   Done (r.1, z_charset_is_enabled r.2 97, z_charset_is_enabled z_charset_init 97)) =
  Done (true, true, false).
Proof. by vm_compute. Qed.

(** A range that ends in the character 255 is never left. *)
Example charset_range_255_loops :
  z_charset_parse z_charset_init [97; 45; 255] = Fault OutOfFuel.
Proof. by vm_compute. Qed.
