(* ===== verification/Misc.v ===== *)
(** * Small utilities (src/src/misc.c)

    Time values, the dump formatters, string escaping, port ranges, and the
    functions of case insensitive hash tables. *)

From S2P Require Import Prelude CLib.
Open Scope Z_scope.

(** ** Time values *)

Record GTimeVal := mkTimeVal { tv_sec : Z; tv_usec : Z }.

Definition G_USEC_PER_SEC : Z := 1000000.

Definition g_time_val_compare (t1 t2 : GTimeVal) : Z :=
  if decide (tv_sec t1 < tv_sec t2) then -1
  else if decide (tv_sec t2 < tv_sec t1) then 1
  else if decide (tv_usec t1 < tv_usec t2) then -1
  else if decide (tv_usec t2 < tv_usec t1) then 1
  else 0.

(** A glong operation: out of range it overflows. *)
Definition slong (x : Z) : outcome Z :=
  _ ← require (- 2 ^ 63 ≤ x < 2 ^ 63) SignedOverflow; Done x.

Definition g_time_val_diff (t1 t2 : GTimeVal) : outcome Z :=
  s ← slong (tv_sec t1 - tv_sec t2);
  us ← slong (s * G_USEC_PER_SEC);
  d ← slong (tv_usec t1 - tv_usec t2);
  slong (us + d).

Definition g_time_val_subtract (x y : GTimeVal) : outcome GTimeVal :=
  '(sec, usec) ← (if decide (tv_usec x < tv_usec y)
                  then u ← slong (tv_usec x + 1000000); s ← slong (tv_sec x - 1); Done (s, u)
                  else Done (tv_sec x, tv_usec x));
  usec ← slong (usec - tv_usec y);
  sec ← slong (sec - tv_sec y);
  Done (mkTimeVal sec usec).

(** Microseconds since the epoch, of a normalized value. *)
Definition tv_micros (t : GTimeVal) : Z := tv_sec t * G_USEC_PER_SEC + tv_usec t.
Definition tv_ok (t : GTimeVal) : Prop :=
  0 ≤ tv_usec t < G_USEC_PER_SEC ∧ - 2 ^ 40 ≤ tv_sec t ≤ 2 ^ 40.

Lemma slong_ok x : - 2 ^ 63 ≤ x < 2 ^ 63 → slong x = Done x.
Proof. intros. unfold slong. by rewrite require_true. Qed.

Lemma compare_micros x y :
  tv_ok x → tv_ok y →
  g_time_val_compare x y = (if decide (tv_micros x < tv_micros y) then -1
                            else if decide (tv_micros y < tv_micros x) then 1 else 0).
Proof.
  destruct x as [xs xu], y as [ys yu]. unfold tv_ok, tv_micros, G_USEC_PER_SEC, g_time_val_compare. cbn.
  intros [Hx Hxs] [Hy Hys]. repeat case_decide; lia || done.
Qed.

Lemma diff_micros x y :
  tv_ok x → tv_ok y → g_time_val_diff x y = Done (tv_micros x - tv_micros y).
Proof.
  destruct x as [xs xu], y as [ys yu]. unfold tv_ok, tv_micros, g_time_val_diff, G_USEC_PER_SEC. cbn -[Z.mul slong].
  intros [Hx Hxs] [Hy Hys]. do 4 (rewrite slong_ok, ?Done_bind by lia). f_equal. lia.
Qed.

(** On normalized times compare is the order of the instants, diff their
    distance in microseconds, and subtract of an earlier time the normalized
    interval. *)
Theorem time_val_spec (x y : GTimeVal) :
  tv_ok x → tv_ok y →
  (g_time_val_compare x y = (if decide (tv_micros x < tv_micros y) then -1
                             else if decide (tv_micros y < tv_micros x) then 1 else 0)) ∧
  g_time_val_diff x y = Done (tv_micros x - tv_micros y) ∧
  ∃ r, g_time_val_subtract x y = Done r ∧ 0 ≤ tv_usec r < G_USEC_PER_SEC ∧
       tv_micros r = tv_micros x - tv_micros y ∧
       (tv_micros y ≤ tv_micros x → 0 ≤ tv_sec r).
Proof.
  intros Hx Hy. split; [by apply compare_micros|]. split; [by apply diff_micros|].
  destruct x as [xs xu], y as [ys yu]. unfold tv_ok, tv_micros, G_USEC_PER_SEC, g_time_val_subtract in *.
  cbn -[slong] in *.
  case_decide; rewrite ?slong_ok, ?Done_bind by lia; cbn -[slong];
    repeat (rewrite slong_ok, ?Done_bind by lia);
    (eexists; split; [reflexivity|]); cbn; lia.
Qed.

Lemma time_val_spec_witness :
  ∃ r, g_time_val_subtract (mkTimeVal 10 100) (mkTimeVal 8 300) = Done r ∧
    0 ≤ tv_usec r < G_USEC_PER_SEC ∧ tv_micros r = 1999800 ∧ (8000300 ≤ 10000100 → 0 ≤ tv_sec r).
Proof.
  apply (time_val_spec (mkTimeVal 10 100) (mkTimeVal 8 300)); by repeat split.
Defined.

(** ** Escaping

    The source is the block that holds the C string (with its NUL); the result
    is the new block. *)

Fixpoint strlen (s : list Z) : outcome Z :=
  match s with
  | [] => Fault OutOfBounds
  | c :: s => if decide (c = 0) then Done 0 else n ← strlen s; Done (n + 1)
  end.

(** [len] of the two functions: a negative one means up to the NUL. *)
Definition given_len (s : list Z) (len : Z) : outcome Z :=
  if decide (len < 0)
  then n ← strlen s; _ ← require (n + 1 ≤ INT_MAX) SignedOverflow; Done (n + 1)
  else Done len.

(** [res[j++] = c]. *)
Definition put_char (res : list Z) (j c : Z) : outcome (list Z * Z) :=
  res ← store res j c; Done (res, j + 1).

Fixpoint escape_loop (fuel : nat) (s res : list Z) (len i j : Z) : outcome (list Z) :=
  if decide (i < len) then
    c ← load s i;
    if decide (c = 0) then Done res
    else match fuel with
         | O => Fault OutOfFuel
         | S fuel =>
             '(res, j) ← (if decide (c = chr " ") then
                            '(res, j) ← put_char res j (chr "%"); put_char res j (chr "_")
                          else if decide (c = chr "%") then
                            '(res, j) ← put_char res j (chr "%"); put_char res j (chr "%")
                          else put_char res j c);
             escape_loop fuel s res len (i + 1) j
         end
  else Done res.

Definition z_str_escape (s : list Z) (len : Z) : outcome (list Z) :=
  len ← given_len s len;
  _ ← require (len * 2 ≤ INT_MAX) SignedOverflow;
  escape_loop (Z.to_nat len) s (replicate (Z.to_nat (len * 2)) 0) len 0 0.

Fixpoint compress_loop (fuel : nat) (s res : list Z) (len i j : Z) : outcome (list Z) :=
  if decide (i < len) then
    c ← load s i;
    if decide (c = 0) then Done res
    else match fuel with
         | O => Fault OutOfFuel
         | S fuel =>
             d ← (if decide (c = chr "%") then load s (i + 1) else Done 0);
             if decide (c = chr "%" ∧ d = chr "%") then
               '(res, j) ← put_char res j (chr "%");
               compress_loop fuel s res len (i + 2) j
             else if decide (c = chr "%" ∧ d = chr "_") then
               '(res, j) ← put_char res j (chr " ");
               compress_loop fuel s res len (i + 2) j
             else
               '(res, j) ← put_char res j c;
               compress_loop fuel s res len (i + 1) j
         end
  else Done res.

Definition z_str_compress (s : list Z) (len : Z) : outcome (list Z) :=
  len ← given_len s len;
  compress_loop (Z.to_nat len) s (replicate (Z.to_nat len) 0) len 0 0.

(** The specification: a space is written [%_] and a percent sign [%%]. *)
Definition escape_char (c : Z) : list Z :=
  if decide (c = chr " ") then [chr "%"; chr "_"]
  else if decide (c = chr "%") then [chr "%"; chr "%"] else [c].

Definition escaped (s : list Z) : list Z := s ≫= escape_char.

Lemma strlen_app s tl : nonul s → strlen (s ++ 0 :: tl) = Done (zlen s).
Proof.
  induction 1 as [|c s Hc _ IH]; [done|]. cbn [app strlen]. rewrite decide_False by done.
  rewrite IH, Done_bind. cbn [length]. f_equal. lia.
Qed.

Lemma put_char_ok out z c :
  put_char (out ++ replicate (S z) 0) (zlen out) c = Done ((out ++ [c]) ++ replicate z 0, zlen (out ++ [c])).
Proof.
  unfold put_char, store.
  rewrite decide_True by (rewrite length_app, length_replicate; lia).
  rewrite Done_bind, Nat2Z.id, length_app. cbn [replicate].
  rewrite insert_app_r_alt by lia. rewrite Nat.sub_diag. cbn.
  rewrite <- app_assoc. do 2 f_equal. lia.
Qed.

Lemma load_middle pre c r i : i = zlen pre → load (pre ++ c :: r) i = Done c.
Proof. intros ->. apply load_Done. split; [lia|]. by rewrite Nat2Z.id, list_lookup_middle. Qed.

Lemma escape_char_length c : (1 ≤ length (escape_char c) ≤ 2)%nat.
Proof. unfold escape_char. repeat case_decide; cbn; lia. Qed.

Lemma escape_loop_ok tl len rest : ∀ fuel pre out z,
  nonul rest → zlen pre + zlen rest < len → (length rest ≤ fuel)%nat →
  escape_loop fuel (pre ++ rest ++ 0 :: tl) (out ++ replicate (2 * length rest + z) 0) len
    (zlen pre) (zlen out) =
  Done (out ++ escaped rest ++ replicate (2 * length rest + z - length (escaped rest)) 0).
Proof.
  induction rest as [|c rest IH]; intros fuel pre out z Hs Hlen Hf.
  - assert (Hl : load (pre ++ [] ++ 0 :: tl) (zlen pre) = Done 0) by by apply load_middle.
    cbn [length] in *. destruct fuel; cbn [escape_loop]; rewrite decide_True by lia;
      rewrite Hl, Done_bind, decide_True by done; cbn; by rewrite Nat.sub_0_r.
  - inversion_clear Hs as [|? ? Hc Hs']. destruct fuel as [|fuel]; [cbn in Hf; lia|].
    cbn [length] in *. cbn [escape_loop]. rewrite decide_True by lia.
    assert (Hl : load (pre ++ (c :: rest) ++ 0 :: tl) (zlen pre) = Done c)
      by by apply (load_middle pre c (rest ++ 0 :: tl)).
    rewrite Hl, Done_bind, (decide_False (P := c = 0)) by done.
    change (escaped (c :: rest)) with (escape_char c ++ escaped rest).
    assert (Hstep : ∀ e w, e = escape_char c → (2 * S (length rest) + z)%nat = (length e + w)%nat →
      escape_loop fuel (pre ++ (c :: rest) ++ 0 :: tl) ((out ++ e) ++ replicate w 0) len
        (zlen pre + 1) (zlen (out ++ e)) =
      Done (out ++ (escape_char c ++ escaped rest) ++
            replicate (2 * S (length rest) + z - length (escape_char c ++ escaped rest)) 0)).
    { intros e w -> Hw. pose proof (escape_char_length c).
      replace w with (2 * length rest + (z + 2 - length (escape_char c)))%nat by lia.
      replace (pre ++ (c :: rest) ++ 0 :: tl) with ((pre ++ [c]) ++ rest ++ 0 :: tl)
        by by rewrite <- app_assoc.
      replace (zlen pre + 1) with (zlen (pre ++ [c])) by (rewrite length_app; cbn; lia).
      rewrite IH; [|done|rewrite length_app; cbn; lia|lia].
      rewrite <- !app_assoc. do 4 f_equal. rewrite length_app. f_equal. lia. }
    assert (Hk : (2 * S (length rest) + z = S (S (2 * length rest + z)))%nat) by lia.
    destruct (decide (c = chr " ")) as [Hsp|Hsp]; [|destruct (decide (c = chr "%")) as [Hpc|Hpc]].
    + rewrite Hk at 1. rewrite put_char_ok, Done_bind, put_char_ok, Done_bind.
      rewrite <- (app_assoc out [_]). apply Hstep; [|cbn; lia].
      unfold escape_char. by rewrite decide_True.
    + rewrite Hk at 1. rewrite put_char_ok, Done_bind, put_char_ok, Done_bind.
      rewrite <- (app_assoc out [_]). apply Hstep; [|cbn; lia].
      unfold escape_char. by rewrite decide_False, decide_True.
    + rewrite Hk at 1. rewrite put_char_ok, Done_bind. apply Hstep; [|cbn; lia].
      unfold escape_char. by rewrite !decide_False.
Qed.

Lemma load_second pre c d r i : i = zlen pre + 1 → load (pre ++ c :: d :: r) i = Done d.
Proof.
  intros ->. replace (pre ++ c :: d :: r) with ((pre ++ [c]) ++ d :: r) by by rewrite <- app_assoc.
  apply load_middle. rewrite length_app. cbn. lia.
Qed.

Lemma compress_loop_ok tl len rest : ∀ fuel pre out z,
  nonul rest → zlen pre + zlen (escaped rest) < len → (length (escaped rest) ≤ fuel)%nat →
  compress_loop fuel (pre ++ escaped rest ++ 0 :: tl) (out ++ replicate (length rest + z) 0) len
    (zlen pre) (zlen out) = Done (out ++ rest ++ replicate z 0).
Proof.
  induction rest as [|c rest IH]; intros fuel pre out z Hs Hlen Hf.
  - assert (Hl : load (pre ++ [] ++ 0 :: tl) (zlen pre) = Done 0) by by apply load_middle.
    cbn [length escaped] in *. change (escaped []) with (@nil Z) in *. cbn in Hlen.
    destruct fuel; cbn [compress_loop]; rewrite decide_True by lia;
      by rewrite Hl, Done_bind, decide_True.
  - inversion_clear Hs as [|? ? Hc Hs'].
    change (escaped (c :: rest)) with (escape_char c ++ escaped rest) in *.
    rewrite length_app in *. pose proof (escape_char_length c).
    destruct fuel as [|fuel]; [lia|]. cbn [compress_loop]. rewrite decide_True by lia.
    assert (Hstep : ∀ i, i = zlen (pre ++ escape_char c) →
      compress_loop fuel (pre ++ (escape_char c ++ escaped rest) ++ 0 :: tl)
        ((out ++ [c]) ++ replicate (length rest + z) 0) len i (zlen (out ++ [c])) =
      Done (out ++ (c :: rest) ++ replicate z 0)).
    { intros i ->. rewrite <- app_assoc, (app_assoc pre).
      rewrite IH; [by rewrite <- app_assoc|done|rewrite length_app; lia|lia]. }
    change (length (c :: rest) + z)%nat with (S (length rest + z)).
    set (txt := pre ++ (escape_char c ++ escaped rest) ++ 0 :: tl) in *.
    assert (Htxt : txt = pre ++ (escape_char c ++ escaped rest) ++ 0 :: tl) by done.
    clearbody txt. rewrite length_app in Hstep. unfold escape_char in *.
    destruct (decide (c = chr " ")) as [Hsp|Hsp]; [|destruct (decide (c = chr "%")) as [Hpc|Hpc]].
    + assert (H1 : load txt (zlen pre) = Done (chr "%")) by (rewrite Htxt; by apply load_middle).
      assert (H2 : load txt (zlen pre + 1) = Done (chr "_")) by (rewrite Htxt; by apply load_second).
      rewrite H1, Done_bind, (decide_False (P := chr "%" = 0)), (decide_True (P := chr "%" = chr "%")) by done.
      rewrite H2, Done_bind, decide_False, decide_True by (done || by intros [_ ?]).
      rewrite put_char_ok, Done_bind, <- Hsp. apply Hstep. cbn. lia.
    + assert (H1 : load txt (zlen pre) = Done (chr "%")) by (rewrite Htxt; by apply load_middle).
      assert (H2 : load txt (zlen pre + 1) = Done (chr "%")) by (rewrite Htxt; by apply load_second).
      rewrite H1, Done_bind, (decide_False (P := chr "%" = 0)), (decide_True (P := chr "%" = chr "%")) by done.
      rewrite H2, Done_bind, decide_True by done.
      rewrite put_char_ok, Done_bind, <- Hpc. apply Hstep. cbn. lia.
    + assert (H1 : load txt (zlen pre) = Done c) by (rewrite Htxt; by apply load_middle).
      rewrite H1, Done_bind, (decide_False (P := c = 0)), (decide_False (P := c = chr "%")), Done_bind by done.
      rewrite !decide_False by (by intros [? _]).
      rewrite put_char_ok, Done_bind. apply Hstep. cbn. lia.
Qed.

(** Escaping a C string never leaves its buffer, escapes every space and
    percent sign, ends the result with NUL, and compressing the result gives the
    string back. *)
Theorem str_escape_compress (s tl : list Z) :
  nonul s → zlen s < 2 ^ 28 →
  ∃ z1 z2, z_str_escape (s ++ 0 :: tl) (-1) = Done (escaped s ++ replicate (S z1) 0) ∧
    z_str_compress (escaped s ++ replicate (S z1) 0) (-1) = Done (s ++ replicate (S z2) 0).
Proof.
  intros Hs Hlen.
  assert (Hel : (length (escaped s) ≤ 2 * length s)%nat ∧ (length s ≤ length (escaped s))%nat).
  { clear. induction s as [|c s IH]; [cbn; lia|].
    change (escaped (c :: s)) with (escape_char c ++ escaped s). rewrite length_app.
    pose proof (escape_char_length c). cbn [length]. lia. }
  assert (Hes : nonul (escaped s)).
  { clear -Hs. induction Hs as [|c s Hc _ IH]; [constructor|].
    change (escaped (c :: s)) with (escape_char c ++ escaped s). apply Forall_app_2; [|done].
    unfold escape_char. repeat case_decide; repeat constructor; done. }
  exists (2 * length s + 1 - length (escaped s))%nat, (length (escaped s) - length s)%nat. split.
  - unfold z_str_escape, given_len, INT_MAX. rewrite decide_True, strlen_app, !Done_bind by done.
    rewrite require_true, !Done_bind, require_true, Done_bind by lia.
    pose proof (escape_loop_ok tl (zlen s + 1) s (Z.to_nat (zlen s + 1)) [] [] 2 Hs) as He.
    replace (Z.to_nat ((zlen s + 1) * 2)) with (2 * length s + 2)%nat by lia.
    cbn [app length] in He. change (Z.of_nat 0) with 0 in He. rewrite He by lia.
    do 3 f_equal. lia.
  - unfold z_str_compress, given_len, INT_MAX. cbn [replicate].
    rewrite decide_True, strlen_app, !Done_bind by done.
    rewrite require_true, !Done_bind by lia.
    set (tl2 := replicate _ 0).
    pose proof (compress_loop_ok tl2 (zlen (escaped s) + 1) s (Z.to_nat (zlen (escaped s) + 1)) [] []
      (length (escaped s) + 1 - length s) Hs) as Hc.
    replace (Z.to_nat (zlen (escaped s) + 1)) with (length s + (length (escaped s) + 1 - length s))%nat in * by lia.
    cbn [app length] in Hc. change (Z.of_nat 0) with 0 in Hc. rewrite Hc by lia.
    do 2 f_equal. change (0 :: replicate (length (escaped s) - length s) 0) with
      (replicate (S (length (escaped s) - length s)) 0). f_equal. lia.
Qed.

Lemma str_escape_compress_witness :
  ∃ z1 z2, z_str_escape (str "50% off" ++ [0]) (-1) = Done (str "50%%%_off" ++ replicate (S z1) 0) ∧
    z_str_compress (str "50%%%_off" ++ replicate (S z1) 0) (-1) = Done (str "50% off" ++ replicate (S z2) 0).
Proof. apply (str_escape_compress (str "50% off") []); [by repeat constructor|done]. Defined.

(** With an explicit length there may be no room for a NUL. *)
Example str_escape_unterminated : z_str_escape (str "  ") 2 = Done (str "%_%_").
Proof. by vm_compute. Qed.

(** ** Port ranges

    The text is read with strtol; the loop ends because every round that does not
    return consumes the comma behind a range. *)

Fixpoint port_loop (fuel : nat) (tmp : list Z) (port : Z) : outcome bool :=
  match tmp with
  | [] => Done false
  | _ =>
      match fuel with
      | O => Fault OutOfFuel
      | S fuel =>
          let '(portl, tmp) := strtol tmp in
          let '(porth, tmp) := if cur tmp =? chr "-" then strtol (drop 1 tmp) else (portl, tmp) in
          if negb (cur tmp =? 0) && negb (cur tmp =? chr ",") then Done false
          else
            let tmp := if cur tmp =? 0 then tmp else drop 1 tmp in
            if negb (cur tmp =? 0) && (cur tmp <=? chr "0") && (chr "9" <=? cur tmp) then Done false
            else if (portl <=? port) && (port <=? porth) then Done true
            else port_loop fuel tmp port
      end
  end.

Definition z_port_enabled (port_range : list Z) (port : Z) : outcome bool :=
  if zlen port_range =? 0 then Done false
  else port_loop (length port_range) port_range port.

(** A port or a range of ports, as the format of the argument says. *)
Inductive port_item := Port (p : Z) | PortRange (lo hi : Z).

Definition port_item_ok (it : port_item) : Prop :=
  match it with
  | Port p => 0 ≤ p < 10 ^ 18
  | PortRange lo hi => 0 ≤ lo < 10 ^ 18 ∧ 0 ≤ hi < 10 ^ 18
  end.

Definition print_port (it : port_item) : list Z :=
  match it with
  | Port p => print_dec p
  | PortRange lo hi => print_dec lo ++ chr "-" :: print_dec hi
  end.

Definition in_port (port : Z) (it : port_item) : bool :=
  match it with
  | Port p => port =? p
  | PortRange lo hi => (lo <=? port) && (port <=? hi)
  end.

Fixpoint print_ports (its : list port_item) : list Z :=
  match its with
  | [] => []
  | [it] => print_port it
  | it :: its => print_port it ++ chr "," :: print_ports its
  end.

Lemma port_loop_ends fuel : ∀ tmp port,
  nonul tmp → (length tmp ≤ fuel)%nat → ∃ b, port_loop fuel tmp port = Done b.
Proof.
  induction fuel as [|fuel IH]; intros tmp port Hn Hf.
  - destruct tmp; [by eexists|cbn in Hf; lia].
  - cbn [port_loop]. destruct tmp as [|c tmp]; [by eexists|].
    set (s := c :: tmp) in *. pose proof (strtol_suffix s) as H1.
    destruct (strtol s) as [portl t1]. cbn [snd] in H1.
    assert (H2 : (if Z.eqb (cur t1) (chr "-") then strtol (drop 1 t1) else (portl, t1)).2
                 `suffix_of` s).
    { destruct (Z.eqb _ _); [|done]. etrans; [apply strtol_suffix|].
      etrans; [|exact H1]. by exists (take 1 t1); rewrite take_drop. }
    destruct (if Z.eqb _ _ then _ else _) as [porth t2]. cbn [snd] in H2.
    pose proof (suffix_length _ _ H2) as Hl. pose proof (suffix_Forall _ _ _ H2 Hn) as Hn2.
    destruct t2 as [|d t2]; cbn.
    { destruct (_ && _); [by eexists|]. destruct fuel; by eexists. }
    inversion_clear Hn2 as [|? ? Hd Hn3]. apply Z.eqb_neq in Hd. rewrite Hd.
    destruct (negb (d =? chr ","))%Z; [by eexists|]. cbn. rewrite drop_0.
    repeat case_match; try (by eexists). apply IH; [done|]. cbn in Hl, Hf. lia.
Qed.

Lemma print_dec_nonempty v : ∃ c s, print_dec v = c :: s.
Proof. destruct (print_dec_cons v) as (c & s & E & _). by exists c, s. Qed.

(** One round on a printed item: the item decides, or the loop goes on behind it. *)
Lemma port_loop_item fuel it r port :
  port_item_ok it → r = [] ∨ (∃ r', r = chr "," :: r') →
  port_loop (S fuel) (print_port it ++ r) port =
  if in_port port it then Done true
  else port_loop fuel (drop 1 r) port.
Proof.
  intros Hit Hr.
  assert (Hd : isdigit (cur r) = false) by (destruct Hr as [->|[? ->]]; done).
  assert (Hm : Z.eqb (cur r) (chr "-") = false) by (destruct Hr as [->|[? ->]]; done).
  assert (Hc : negb (Z.eqb (cur r) 0) && negb (Z.eqb (cur r) (chr ",")) = false)
    by (destruct Hr as [->|[? ->]]; done).
  assert (Ht : (if Z.eqb (cur r) 0 then r else drop 1 r) = drop 1 r)
    by (destruct Hr as [->|[? ->]]; done).
  assert (Hne : ∀ s, negb (Z.eqb (cur s) 0) && Z.leb (cur s) (chr "0") && Z.leb (chr "9") (cur s) = false).
  { intros s. change (chr "0") with 48. change (chr "9") with 57. lia. }
  assert (Hstart : ∃ c s, print_port it ++ r = c :: s).
  { destruct it as [p|lo hi]; cbn [print_port].
    - destruct (print_dec_nonempty p) as (c & s & ->). by eexists _, _.
    - destruct (print_dec_nonempty lo) as (c & s & ->). by eexists _, _. }
  destruct Hstart as (c & s & E). cbn [port_loop]. rewrite E, <- E.
  destruct it as [p|lo hi]; cbn [print_port port_item_ok] in *.
  - rewrite strtol_print by done. rewrite Hm, Hc, Ht, Hne. cbn [in_port].
    replace (port =? p)%Z with ((p <=? port) && (port <=? p))%Z by lia.
    by destruct ((p <=? port) && (port <=? p))%Z.
  - rewrite <- app_assoc, strtol_print by (done || lia). cbn [app cur drop Z.eqb].
    change (Z.eqb (chr "-") (chr "-")) with true. cbv iota. rewrite drop_0.
    rewrite strtol_print by (done || lia). by rewrite Hc, Ht, Hne.
Qed.

Lemma port_loop_items its : ∀ fuel port,
  its ≠ [] → Forall port_item_ok its → (length its ≤ fuel)%nat →
  port_loop fuel (print_ports its) port = Done (existsb (in_port port) its).
Proof.
  induction its as [|it its IH]; intros fuel port Hne Hok Hf; [done|].
  inversion_clear Hok as [|? ? Hit Hits]. destruct fuel as [|fuel]; [cbn in Hf; lia|].
  destruct its as [|it2 its].
  - cbn [print_ports existsb]. rewrite <- (app_nil_r (print_port it)).
    rewrite port_loop_item by auto. destruct (in_port port it); [done|]. by destruct fuel.
  - change (print_ports (it :: it2 :: its)) with
      (print_port it ++ chr "," :: print_ports (it2 :: its)).
    rewrite port_loop_item by eauto. cbn [existsb]. destruct (in_port port it); [done|].
    cbn [drop orb]. rewrite drop_0. apply IH; [done|done|]. cbn [length] in *. lia.
Qed.

Lemma print_ports_length its : (length its ≤ length (print_ports its))%nat.
Proof.
  assert (Hp : ∀ it, (1 ≤ length (print_port it))%nat).
  { intros [p|lo hi]; cbn [print_port]; rewrite ?length_app; [destruct (print_dec_nonempty p) as (? & ? & ->)|
      destruct (print_dec_nonempty lo) as (? & ? & ->)]; cbn; lia. }
  induction its as [|it its IH]; [done|]. specialize (Hp it).
  destruct its as [|it2 its]; [cbn in *; lia|].
  change (print_ports (it :: it2 :: its)) with (print_port it ++ chr "," :: print_ports (it2 :: its)).
  rewrite length_app. cbn [length] in *. lia.
Qed.

(** The port check returns for every text, and on a text in the documented
    format (ports and ranges of ports separated by commas) it answers whether the
    port is in one of the ranges; the empty text enables nothing. *)
Theorem z_port_enabled_spec (port : Z) :
  (∀ s, nonul s → ∃ b, z_port_enabled s port = Done b) ∧
  (∀ its, Forall port_item_ok its →
     z_port_enabled (print_ports its) port = Done (existsb (in_port port) its)).
Proof.
  unfold z_port_enabled. split.
  - intros s Hs. destruct (zlen s =? 0)%Z; [by eexists|]. by apply port_loop_ends.
  - intros its Hok. pose proof (print_ports_length its).
    destruct its as [|it its]; [done|].
    rewrite (proj2 (Z.eqb_neq _ 0)) by (cbn [length] in *; lia).
    by apply port_loop_items.
Qed.

Lemma z_port_enabled_spec_witness :
  z_port_enabled (print_ports [Port 80; PortRange 6000 6010]) 6003 = Done true.
Proof.
  apply (proj2 (z_port_enabled_spec 6003) [Port 80; PortRange 6000 6010]).
  repeat (apply Forall_cons; split); [| |done]; cbn; lia.
Defined.

(** The format is checked neither behind a comma nor for missing numbers. *)
Example z_port_enabled_lenient :
  z_port_enabled (str "1,-5") 3 = Done false ∧ z_port_enabled (str "-1-5") 3 = Done true ∧
  z_port_enabled (str "7,") 3 = Done false ∧ z_port_enabled (str "-") 0 = Done true.
Proof. by vm_compute. Qed.

(** ** Case insensitive hash tables

    g_strcasecmp is the library's comparison: zero for strings that differ in case
    only. *)

(** A gchar is signed; toupper leaves the values below 0 alone. *)
Definition upper_gchar (c : Z) : Z := if decide (c < 128) then toupper c else c - 256.

Definition z_casestr_hash (key : list Z) : Z :=
  let h := u32 (upper_gchar (cur key)) in
  if h =? 0 then h
  else foldl (λ h c, u32 (u32 (Z.shiftl h 5) - h + upper_gchar c)) h (drop 1 key).

Section CaseStr.
Context (g_strcasecmp : list Z → list Z → Z)
        (g_strcasecmp_eq : ∀ a b, g_strcasecmp a b = 0 ↔ tolower <$> a = tolower <$> b).

Definition z_casestr_equal (k1 k2 : list Z) : bool := g_strcasecmp k1 k2 =? 0.

Lemma upper_tolower c d : tolower c = tolower d → upper_gchar c = upper_gchar d.
Proof using.
  unfold tolower, upper_gchar, toupper, isupper, islower. intros.
  repeat case_match; repeat case_decide; lia.
Qed.

Lemma z_casestr_equal_true a b : z_casestr_equal a b = true ↔ tolower <$> a = tolower <$> b.
Proof. unfold z_casestr_equal. by rewrite Z.eqb_eq. Qed.

(** The equality and the hash function for tables with case insensitive keys
    fit together: the equality is an equivalence, and equal keys have equal
    hashes. *)
Theorem z_casestr_hash_equal (a b c : list Z) :
  z_casestr_equal a a = true ∧
  (z_casestr_equal a b = true → z_casestr_equal b a = true ∧
     z_casestr_hash a = z_casestr_hash b ∧
     (z_casestr_equal b c = true → z_casestr_equal a c = true)).
Proof.
  rewrite !z_casestr_equal_true. split; [done|]. intros Hab. split_and!; [done| |congruence].
  unfold z_casestr_hash. destruct a as [|x a], b as [|y b]; try done.
  cbn in Hab. injection Hab as Hxy Hab. cbn [cur drop]. rewrite !drop_0.
  rewrite (upper_tolower x y) by done. destruct (Z.eqb _ 0); [done|].
  generalize (u32 (upper_gchar y)) as h. revert b Hab.
  induction a as [|x' a IH]; intros [|y' b] Hab h; try done.
  cbn in Hab. injection Hab as Hxy' Hab. cbn. rewrite (upper_tolower x' y') by done. by apply IH.
Qed.
End CaseStr.

Definition casecmp (a b : list Z) : Z := if decide (tolower <$> a = tolower <$> b) then 0 else 1.

Lemma casecmp_eq a b : casecmp a b = 0 ↔ tolower <$> a = tolower <$> b.
Proof. unfold casecmp. case_decide; naive_solver. Qed.

Lemma z_casestr_hash_equal_witness :
  z_casestr_hash (str "Content-Length") = z_casestr_hash (str "CONTENT-length").
Proof.
  apply (z_casestr_hash_equal casecmp casecmp_eq _ _ []). by vm_compute.
Defined.
