(* ===== verification/Dump.v ===== *)
(** * Data dumps (src/src/misc.c)

    z_format_data_dump and z_format_text_dump write a buffer to the log, as lines of
    hexadecimal bytes and as lines of text.  A dump is the list of the lines that
    are sent to z_log. *)

From S2P Require Import Prelude CLib.
Open Scope Z_scope.

(** ** Hexadecimal dump *)

(** [g_snprintf(line + e, n, ...)] of a text: at most [n - 1] characters and a NUL; a
    negative [n] is a huge unsigned number. *)
Definition snprintf (line : list Z) (e n : Z) (text : list Z) : outcome (list Z) :=
  if decide (n = 0) then Done line
  else if decide (n < 0) then store_range line e (text ++ [0])
  else store_range line e (take (Z.to_nat (n - 1)) text ++ [0]).

Fixpoint hex_loop (fuel : nat) (line : list Z) (linelen e i j : Z) (buf : list Z) (len : Z)
    : outcome (list Z * Z * Z) :=
  if decide (j < 16 ∧ u32 (i + j) < len) then
    match fuel with
    | O => Fault OutOfFuel
    | S fuel =>
        c ← load buf (u32 (i + j));
        line ← snprintf line e (linelen - e) (hex2 c ++ [chr " "]);
        hex_loop fuel line linelen (e + 3) i (j + 1) buf len
    end
  else Done (line, e, j).

Fixpoint pad_loop (fuel : nat) (line : list Z) (linelen e j : Z) : outcome (list Z * Z) :=
  if decide (j < 16) then
    match fuel with
    | O => Fault OutOfFuel
    | S fuel =>
        line ← snprintf line e (linelen - e) (str "   ");
        pad_loop fuel line linelen (e + 3) (j + 1)
    end
  else Done (line, e).

Fixpoint char_loop (fuel : nat) (line : list Z) (linelen e i j : Z) (buf : list Z) (len : Z)
    : outcome (list Z * Z * Z) :=
  if decide (j < 16 ∧ u32 (i + j) < len ∧ u32 e < linelen) then
    match fuel with
    | O => Fault OutOfFuel
    | S fuel =>
        c ← load buf (u32 (i + j));
        line ← store line e (if isprint c then c else chr ".");
        char_loop fuel line linelen (e + 1) i (j + 1) buf len
    end
  else Done (line, e, j).

Definition z_hexdump (line : list Z) (linelen i : Z) (buf : list Z) (len : Z) : outcome (list Z * Z) :=
  '(line, e, j) ← hex_loop 16 line linelen 0 i 0 buf len;
  '(line, e) ← pad_loop 16 line linelen e j;
  line ← snprintf line e (linelen - e) (str " ");
  '(line, e, j) ← char_loop 16 line linelen (e + 1) i 0 buf len;
  line ← store line e 0;
  Done (line, j).

(** What printing a character array as a string shows. *)
Fixpoint cstring (b : list Z) : list Z :=
  match b with
  | c :: b => if decide (c = 0) then [] else c :: cstring b
  | [] => []
  end.

Fixpoint dump_loop (fuel : nat) (line : list Z) (i : Z) (buf : list Z) (len : Z)
    : outcome (list (Z * list Z)) :=
  if decide (i < len) then
    match fuel with
    | O => Fault OutOfFuel
    | S fuel =>
        '(line, j) ← z_hexdump line 1024 i buf len;
        rest ← dump_loop fuel line (u32 (i + j)) buf len;
        Done ((i, cstring line) :: rest)
    end
  else Done [].

Definition z_format_data_dump `{FreshMem} (buf : list Z) (len : Z) : outcome (list (Z * list Z)) :=
  dump_loop (Z.to_nat len) (fresh_bytes 0 1024) 0 buf len.

(** ** Text dump *)

Definition ends_text (c : Z) : bool :=
  bool_decide (c = 0) || bool_decide (c = 13) || bool_decide (c = 10).

(** [nl]: the length of the text in front of a NUL, CR or LF. *)
Fixpoint text_length (buf : list Z) (len : nat) : outcome Z :=
  match len with
  | O => Done 0
  | S len =>
      c ← load buf 0;
      if ends_text c then Done 0 else n ← text_length (drop 1 buf) len; Done (n + 1)
  end.

(** Steps over the character [c] if it comes next. *)
Definition skip_char (c : Z) (buf : list Z) (len : Z) : outcome (list Z * Z) :=
  if decide (0 < len)
  then d ← load buf 0; if decide (d = c) then Done (drop 1 buf, len - 1) else Done (buf, len)
  else Done (buf, len).

Fixpoint z_format_text_dump (fuel : nat) (buf : list Z) (len : Z) : outcome (list (list Z)) :=
  if decide (0 < len) then
    match fuel with
    | O => Fault OutOfFuel
    | S fuel =>
        nl ← text_length buf (Z.to_nat len);
        let i := if decide (nl < len) then nl else u32 (nl - 1) in
        let i := if decide (1024 ≤ i) then 1023 else i in
        line ← load_range buf 0 i;
        '(buf, len) ← skip_char 13 (drop (Z.to_nat nl) buf) (len - nl);
        '(buf, len) ← skip_char 10 buf len;
        rest ← z_format_text_dump fuel buf len;
        Done (cstring line :: rest)
    end
  else Done [].

(** ** The lines of a hexadecimal dump *)

Definition printable (c : Z) : Z := if isprint c then c else chr ".".

(** The bytes, blanks up to column 49, and the characters. *)
Definition hexline (chunk : list Z) : list Z :=
  (chunk ≫= λ c, hex2 c ++ [chr " "]) ++ replicate (3 * (16 - length chunk)) (chr " ")
  ++ chr " " :: (printable <$> chunk).

(** The buffer in pieces of 16 bytes, each with its offset. *)
Definition hexlines (buf : list Z) : list (Z * list Z) :=
  (λ k, (16 * Z.of_nat k, hexline (take 16 (drop (16 * k) buf)))) <$>
    seq 0 ((length buf + 15) / 16).

(** [line] starts with [out], and has room behind it. *)
Definition line_has (line out : list Z) : Prop :=
  length line = 1024%nat ∧ take (length out) line = out.

Lemma snprintf_ok line out text :
  line_has line out → (length out + length text < 1024)%nat →
  ∃ line', snprintf line (zlen out) (1024 - zlen out) text = Done line' ∧ line_has line' (out ++ text).
Proof.
  intros [Hl Ho] Hlt. unfold snprintf. rewrite decide_False, decide_False by lia.
  rewrite (take_ge text) by lia.
  rewrite store_range_ok by (rewrite ?length_app; cbn; lia).
  eexists. split; [done|]. rewrite !Nat2Z.id, Ho. split.
  - rewrite !length_app, length_drop, ?length_app. cbn. lia.
  - rewrite <- (app_assoc text), (app_assoc out). by rewrite take_app_length.
Qed.

Lemma store_line_ok line out c :
  line_has line out → (length out < 1024)%nat →
  ∃ line', store line (zlen out) c = Done line' ∧ line_has line' (out ++ [c]).
Proof.
  intros [Hl Ho] Hlt. unfold store. rewrite decide_True by lia. eexists. split; [done|].
  split; [by rewrite length_insert|]. rewrite Nat2Z.id, length_app, Nat.add_1_r.
  rewrite take_S_insert by lia. by rewrite Ho.
Qed.

Lemma cstring_line line out : line_has line (out ++ [0]) → Forall (λ c, c ≠ 0) out → cstring line = out.
Proof.
  intros [_ Ht] Hn. rewrite <- (take_drop (length (out ++ [0])) line), Ht.
  generalize (drop (length (out ++ [0])) line) as tl. intros tl. clear -Hn.
  induction Hn as [|c out Hc _ IH]; [done|]. cbn. rewrite decide_False by done. by rewrite IH.
Qed.

Lemma pad_loop_ok fuel : ∀ line out (j : nat),
  line_has line out → length out = (3 * j)%nat → (j ≤ 16)%nat → (16 - j ≤ fuel)%nat →
  ∃ line', pad_loop fuel line 1024 (zlen out) (Z.of_nat j) = Done (line', 48) ∧
    line_has line' (out ++ replicate (3 * (16 - j)) (chr " ")).
Proof.
  induction fuel as [|fuel IH]; intros line out j Hl Ho Hj Hf; cbn [pad_loop].
  - rewrite decide_False by lia. exists line. replace (16 - j)%nat with 0%nat by lia. cbn.
    rewrite app_nil_r. split; [do 2 f_equal; lia|done].
  - case_decide as Hd.
    + destruct (snprintf_ok line out (str "   ") Hl) as (line2 & Hs & Hl2); [cbn; lia|].
      rewrite Hs, Done_bind.
      destruct (IH line2 (out ++ str "   ") (S j) Hl2) as (line3 & Hh & Hl3);
        [rewrite length_app; cbn; lia|lia|lia|].
      exists line3. split; [rewrite <- Hh; rewrite length_app; cbn [length str]; f_equal; cbn; lia|].
      rewrite <- app_assoc in Hl3.
      by replace (3 * (16 - j))%nat with (3 + 3 * (16 - S j))%nat by lia.
    + exists line. replace (16 - j)%nat with 0%nat by lia. cbn.
      rewrite app_nil_r. split; [do 2 f_equal; lia|done].
Qed.

Section Chunk.
(** The piece of the buffer that a call of z_hexdump writes. *)
Context (pre chunk post : list Z).
Context (Hc16 : (length chunk ≤ 16)%nat) (Hpost : (length chunk < 16)%nat → post = []).
Context (Hsmall : zlen pre + 16 < 2 ^ 32) (Hbytes : bytes chunk).
Let buf := pre ++ chunk ++ post.
Let len := zlen buf.
Let i := zlen pre.

(** The loops stop at the end of the piece. *)
Lemma chunk_guard (j : nat) :
  (j ≤ length chunk)%nat →
  (Z.of_nat j < 16 ∧ u32 (i + Z.of_nat j) < len) ↔ (j < length chunk)%nat.
Proof.
  intros Hj. unfold i, len, buf. unfold u32. rewrite Z.mod_small by lia. rewrite !length_app.
  destruct (decide (length chunk < 16)%nat) as [Hlt|].
  - rewrite Hpost by done. cbn. lia.
  - lia.
Qed.

Lemma chunk_load (j : nat) c :
  chunk !! j = Some c → load buf (u32 (i + Z.of_nat j)) = Done c.
Proof.
  intros Hj. pose proof (lookup_lt_Some _ _ _ Hj). unfold u32, i, buf.
  rewrite Z.mod_small by lia. apply load_Done. split; [lia|].
  replace (Z.to_nat (zlen pre + Z.of_nat j)) with (length pre + j)%nat by lia.
  rewrite lookup_app_r, lookup_app_l by lia. rewrite <- Hj. f_equal. lia.
Qed.

Lemma hex_loop_ok fuel : ∀ line out (j : nat),
  line_has line out → length out = (3 * j)%nat → (j ≤ length chunk)%nat →
  (length chunk - j ≤ fuel)%nat →
  ∃ line', hex_loop fuel line 1024 (zlen out) i (Z.of_nat j) buf len =
    Done (line', 3 * zlen chunk, zlen chunk) ∧
    line_has line' (out ++ (drop j chunk ≫= λ c, hex2 c ++ [chr " "])).
Proof.
  induction fuel as [|fuel IH]; intros line out j Hl Ho Hj Hf; cbn [hex_loop].
  - rewrite decide_False by (rewrite chunk_guard by done; lia).
    exists line. rewrite drop_ge by lia. cbn. rewrite app_nil_r. split; [do 2 f_equal; [f_equal|]; lia|done].
  - destruct (decide (j < length chunk)%nat) as [Hlt|Hge].
    + rewrite decide_True by by apply chunk_guard.
      destruct (lookup_lt_is_Some_2 chunk j Hlt) as [c Hc]. rewrite (chunk_load _ _ Hc), Done_bind.
      destruct (snprintf_ok line out (hex2 c ++ [chr " "]) Hl) as (line2 & Hs & Hl2); [cbn; lia|].
      rewrite Hs, Done_bind.
      destruct (IH line2 (out ++ hex2 c ++ [chr " "]) (S j) Hl2) as (line3 & Hh & Hl3);
        [rewrite length_app; cbn; lia|lia|lia|].
      exists line3. rewrite <- app_assoc in Hl3. split; [|by rewrite (drop_S _ _ _ Hc)].
      rewrite <- Hh. rewrite length_app. cbn [length hex2 app]. f_equal; lia.
    + rewrite decide_False by (rewrite chunk_guard by done; lia).
      exists line. rewrite drop_ge by lia. cbn. rewrite app_nil_r. split; [do 2 f_equal; [f_equal|]; lia|done].
Qed.

Lemma char_loop_ok fuel : ∀ line out (j : nat),
  line_has line out → length out = (49 + j)%nat → (j ≤ length chunk)%nat →
  (length chunk - j ≤ fuel)%nat →
  ∃ line', char_loop fuel line 1024 (zlen out) i (Z.of_nat j) buf len =
    Done (line', 49 + zlen chunk, zlen chunk) ∧
    line_has line' (out ++ (printable <$> drop j chunk)).
Proof.
  induction fuel as [|fuel IH]; intros line out j Hl Ho Hj Hf; cbn [char_loop].
  - rewrite decide_False by (pose proof (chunk_guard j Hj); intros (? & ? & _); lia).
    exists line. rewrite drop_ge by lia. cbn. rewrite app_nil_r. split; [do 2 f_equal; [f_equal|]; lia|done].
  - destruct (decide (j < length chunk)%nat) as [Hlt|Hge].
    + rewrite decide_True.
      2: { pose proof (proj2 (chunk_guard j Hj) Hlt). split_and!; try tauto.
           unfold u32. rewrite Z.mod_small; lia. }
      destruct (lookup_lt_is_Some_2 chunk j Hlt) as [c Hc]. rewrite (chunk_load _ _ Hc), Done_bind.
      destruct (store_line_ok line out (printable c) Hl) as (line2 & Hs & Hl2); [lia|].
      unfold printable in Hs. rewrite Hs, Done_bind.
      destruct (IH line2 (out ++ [printable c]) (S j) Hl2) as (line3 & Hh & Hl3);
        [rewrite length_app; cbn; lia|lia|lia|].
      exists line3. rewrite <- app_assoc in Hl3. split; [|by rewrite (drop_S _ _ _ Hc)].
      rewrite <- Hh. rewrite length_app. cbn [length]. f_equal; lia.
    + rewrite decide_False by (pose proof (chunk_guard j Hj); intros (? & ? & _); lia).
      exists line. rewrite drop_ge by lia. cbn. rewrite app_nil_r. split; [do 2 f_equal; [f_equal|]; lia|done].
Qed.
End Chunk.

Lemma hexline_nonul chunk : bytes chunk → Forall (λ c, c ≠ 0) (hexline chunk).
Proof.
  intros Hb. unfold hexline. repeat (apply Forall_app; split).
  - induction chunk as [|c chunk IH]; [constructor|]. inversion_clear Hb as [|? ? Hc Hb'].
    cbn [mbind list_bind]. apply Forall_app_2; [|by apply IH].
    apply Forall_app_2; [|by repeat constructor].
    unfold is_byte in Hc. unfold hex2, hexdigit.
    repeat constructor; case_decide; try lia; Z.to_euclidean_division_equations; lia.
  - by apply Forall_replicate.
  - constructor; [done|]. apply Forall_fmap, Forall_true. intros c. cbn.
    unfold printable, isprint. case_match; [|done]. change (chr ".") with 46. lia.
Qed.

Lemma z_hexdump_ok (pre chunk post line : list Z) :
  (length chunk ≤ 16)%nat → ((length chunk < 16)%nat → post = []) → zlen pre + 16 < 2 ^ 32 →
  bytes chunk → length line = 1024%nat →
  ∃ line', z_hexdump line 1024 (zlen pre) (pre ++ chunk ++ post) (zlen (pre ++ chunk ++ post)) =
    Done (line', zlen chunk) ∧ length line' = 1024%nat ∧ cstring line' = hexline chunk.
Proof.
  intros Hc Hp Hs Hb Hl. unfold z_hexdump.
  assert (H0 : line_has line []) by done.
  destruct (hex_loop_ok pre chunk post Hc Hp Hs 16 line [] 0 H0) as (l1 & E1 & H1); [done|lia|lia|].
  cbn [length app] in E1. change (Z.of_nat 0) with 0 in E1. rewrite E1, Done_bind. cbn [app] in H1.
  rewrite drop_0 in H1. set (hx := chunk ≫= _) in H1.
  assert (Hhx : length hx = (3 * length chunk)%nat) by by apply length_bind_const.
  destruct (pad_loop_ok 16 l1 hx (length chunk) H1 Hhx) as (l2 & E2 & H2); [lia|lia|].
  replace (3 * zlen chunk) with (zlen hx) by lia. rewrite E2, Done_bind.
  set (pd := hx ++ replicate _ _) in H2.
  assert (Hpd : length pd = 48%nat) by (unfold pd; rewrite length_app, length_replicate; lia).
  destruct (snprintf_ok l2 pd (str " ") H2) as (l3 & E3 & H3); [cbn; lia|].
  rewrite Hpd in E3. change (Z.of_nat 48) with 48 in E3. rewrite E3, Done_bind.
  destruct (char_loop_ok pre chunk post Hc Hp Hs 16 l3 (pd ++ str " ") 0 H3) as (l4 & E4 & H4);
    [rewrite length_app, Hpd; done|lia|lia|].
  rewrite length_app, Hpd in E4. change (Z.of_nat (48 + length (str " "))) with (48 + 1) in E4.
  change (Z.of_nat 0) with 0 in E4. rewrite E4, Done_bind. rewrite drop_0 in H4.
  assert (Hall : (pd ++ str " ") ++ (printable <$> chunk) = hexline chunk).
  { unfold hexline, pd, hx. by rewrite <- !app_assoc. }
  rewrite Hall in H4.
  assert (Hlen : length (hexline chunk) = (49 + length chunk)%nat)
    by (rewrite <- Hall, !length_app, Hpd, length_fmap; cbn; lia).
  destruct (store_line_ok l4 (hexline chunk) 0 H4) as (l5 & E5 & H5); [lia|].
  replace (zlen (hexline chunk)) with (49 + zlen chunk) in E5 by lia. rewrite E5, Done_bind.
  exists l5. split; [done|]. split; [apply H5|]. apply cstring_line; [done|]. by apply hexline_nonul.
Qed.

(** The dump of what follows [k] lines. *)
Lemma dump_loop_ok fuel : ∀ (k : nat) line buf,
  length line = 1024%nat → bytes buf → zlen buf < 2 ^ 32 - 16 →
  ((length buf + 15) / 16 - k ≤ fuel)%nat → (k ≤ (length buf + 15) / 16)%nat →
  dump_loop fuel line (Z.of_nat (Nat.min (16 * k) (length buf))) buf (zlen buf) =
  Done ((λ k, (16 * Z.of_nat k, hexline (take 16 (drop (16 * k) buf)))) <$>
    seq k ((length buf + 15) / 16 - k)).
Proof.
  induction fuel as [|fuel IH]; intros k line buf Hl Hb Hlen Hf Hk; cbn [dump_loop].
  - pose proof (Nat.div_mod_eq (length buf + 15) 16).
    pose proof (Nat.mod_upper_bound (length buf + 15) 16).
    rewrite decide_False by lia.
    by replace ((length buf + 15) / 16 - k)%nat with 0%nat by lia.
  - pose proof (Nat.div_mod_eq (length buf + 15) 16).
    pose proof (Nat.mod_upper_bound (length buf + 15) 16).
    destruct (decide (16 * k < length buf)%nat) as [Hlt|Hge].
    + rewrite decide_True by lia. rewrite Nat.min_l by lia.
      set (pre := take (16 * k) buf). set (chunk := take 16 (drop (16 * k) buf)).
      set (post := drop 16 (drop (16 * k) buf)).
      assert (Hbuf : buf = pre ++ chunk ++ post) by (unfold pre, chunk, post; by rewrite !take_drop).
      assert (Hpre : length pre = (16 * k)%nat) by (unfold pre; rewrite length_take; lia).
      assert (Hch : length chunk = Nat.min 16 (length buf - 16 * k))
        by (unfold chunk; by rewrite length_take, length_drop).
      destruct (z_hexdump_ok pre chunk post line) as (line' & Hh & Hl' & Hc).
      * lia.
      * intros. apply drop_ge. rewrite length_drop. lia.
      * lia.
      * apply Forall_take, Forall_drop, Hb.
      * done.
      * rewrite <- Hbuf, Hpre in Hh. rewrite Hh, Done_bind.
        replace (u32 (Z.of_nat (16 * k) + zlen chunk))
          with (Z.of_nat (Nat.min (16 * S k) (length buf)))
          by (unfold u32; rewrite Z.mod_small; lia).
        rewrite IH, Done_bind by (done || lia).
        replace ((length buf + 15) / 16 - k)%nat with (S ((length buf + 15) / 16 - S k)) by lia.
        cbn [seq fmap list_fmap]. rewrite Hc. do 3 f_equal. lia.
    + rewrite decide_False by lia. by replace ((length buf + 15) / 16 - k)%nat with 0%nat by lia.
Qed.

(** The dump of a buffer ends, stays inside the buffer and the line, and logs one
    line per 16 bytes, in order: the offset, the bytes in hexadecimal padded to a
    fixed column, and the characters with the unprintable ones as dots. *)
Theorem z_format_data_dump_spec `{FreshMem} (buf : list Z) :
  bytes buf → zlen buf < 2 ^ 32 - 16 →
  z_format_data_dump buf (zlen buf) = Done (hexlines buf).
Proof.
  intros Hb Hl. unfold z_format_data_dump, hexlines.
  pose proof (dump_loop_ok (length buf) 0 (fresh_bytes 0 1024) buf) as Hd.
  rewrite Nat2Z.id. rewrite Nat.sub_0_r in Hd. apply Hd; try done; try lia.
  pose proof (Nat.div_mod_eq (length buf + 15) 16).
  pose proof (Nat.mod_upper_bound (length buf + 15) 16). lia.
Qed.

Lemma z_format_data_dump_spec_witness :
  z_format_data_dump (H := zero_mem) (str "GET / HTTP/1.1" ++ [13; 10; 0]) 17 =
  Done [(0, str "47 45 54 20 2F 20 48 54 54 50 2F 31 2E 31 0D 0A  GET / HTTP/1.1..");
        (16, str "00                                               .")].
Proof.
  apply (z_format_data_dump_spec (H := zero_mem) (str "GET / HTTP/1.1" ++ [13; 10; 0])).
  - by apply (bool_decide_unpack _); vm_compute.
  - done.
Defined.

(** ** Text dumps *)

Lemma load_head c r : load (c :: r) 0 = Done c.
Proof. by apply load_Done. Qed.

Lemma text_length_ok t r : ∀ n,
  Forall (λ c, ends_text c = false) t →
  (n = 0%nat ∧ r = [] ∨ n ≠ 0%nat ∧ ∃ c r', r = c :: r' ∧ ends_text c = true) →
  text_length (t ++ r) (length t + n) = Done (zlen t).
Proof.
  intros n Ht Hr. induction Ht as [|c t Hc _ IH].
  - destruct Hr as [[-> ->]|(Hn & c & r' & -> & Hc)]; [done|].
    destruct n; [done|]. cbn [app length plus text_length]. by rewrite load_head, Done_bind, Hc.
  - cbn [app length plus text_length]. rewrite load_head, Done_bind, Hc. cbn [drop]. rewrite drop_0, IH, Done_bind. f_equal. lia.
Qed.

Lemma cstring_text t : Forall (λ c, ends_text c = false) t → cstring t = t.
Proof.
  induction 1 as [|c t Hc _ IH]; [done|]. cbn. rewrite decide_False, IH; [done|].
  intros ->. by vm_compute in Hc.
Qed.

(** Cutting the text in front of the first NUL, CR or LF. *)
Lemma split_text buf :
  ∃ t r, buf = t ++ r ∧ Forall (λ c, ends_text c = false) t ∧
         (r = [] ∨ ∃ c r', r = c :: r' ∧ ends_text c = true).
Proof.
  induction buf as [|c buf (t & r & -> & Ht & Hr)]; [exists [], []; by auto|].
  destruct (ends_text c) eqn:E.
  - exists [], (c :: t ++ r). eauto 10.
  - exists (c :: t), r. auto.
Qed.

(** What is shown of a text of a buffer. *)
Definition shown (t : list Z) (ended : bool) : list Z :=
  take 1023 (if ended then t else removelast t).

(** One round of the dump: it shows the text and goes on behind the line end. *)
Lemma text_dump_step fuel t r :
  Forall (λ c, ends_text c = false) t → zlen (t ++ r) < 2 ^ 32 →
  (r = [] ∧ t ≠ [] ∨ ∃ c r', r = c :: r' ∧ ends_text c = true) →
  z_format_text_dump (S fuel) (t ++ r) (zlen (t ++ r)) =
  ('(buf, len) ← skip_char 13 r (zlen r);
   '(buf, len) ← skip_char 10 buf len;
   rest ← z_format_text_dump fuel buf len;
   Done (shown t (negb (bool_decide (r = []))) :: rest)).
Proof.
  intros Ht Hlen Hr. cbn [z_format_text_dump].
  assert (Hpos : (0 < length (t ++ r))%nat).
  { destruct Hr as [[-> Ht2]|(c & r' & -> & _)]; rewrite length_app; [|cbn; lia].
    destruct t; [done|cbn; lia]. }
  rewrite decide_True by lia. rewrite Nat2Z.id, length_app in *.
  rewrite text_length_ok by (try done; destruct Hr as [[-> _]|(c & r' & -> & ?)]; cbn; eauto 10).
  rewrite Done_bind.
  set (i := if decide (1024 ≤ _) then _ else _).
  assert (Hi : load_range (t ++ r) 0 i = Done (shown t (negb (bool_decide (r = []))))).
  { unfold i, shown. destruct Hr as [[-> Ht2]|(c & r' & -> & _)].
    - rewrite (decide_False (P := zlen t < _)) by (cbn; lia). rewrite bool_decide_true by done.
      cbn [negb length]. rewrite app_nil_r, Nat.add_0_r in *.
      assert (Hu : u32 (zlen t - 1) = zlen t - 1) by (unfold u32; rewrite Z.mod_small; lia).
      rewrite Hu, removelast_firstn_len. 
      case_decide; rewrite load_range_ok by lia; f_equal; change (Z.to_nat 0) with 0%nat; rewrite drop_0.
      + change firstn with (@take Z). rewrite take_take. f_equal. lia.
      + change firstn with (@take Z). rewrite take_take. f_equal. lia.
    - rewrite (decide_True (P := zlen t < _)) by (cbn; lia). rewrite bool_decide_false by done.
      cbn [negb]. case_decide; rewrite load_range_ok by (rewrite ?length_app; lia);
        f_equal; change (Z.to_nat 0) with 0%nat; rewrite drop_0.
      + by rewrite take_app_le by lia.
      + by rewrite Nat2Z.id, take_app_length, take_ge by lia. }
  rewrite Hi, Done_bind, Nat2Z.id, drop_app_length.
  replace (Z.of_nat (length t + length r) - zlen t) with (zlen r) by lia.
  assert (Hs : ∀ b, cstring (shown t b) = shown t b).
  { intros b. apply cstring_text. unfold shown. apply Forall_take.
    destruct b; [done|]. rewrite removelast_firstn_len. by apply Forall_take. }
  destruct (skip_char 13 r (zlen r)) as [[b1 n1]|]; [|done]. rewrite !Done_bind.
  destruct (skip_char 10 b1 n1) as [[b2 n2]|]; [|done]. rewrite !Done_bind.
  by rewrite Hs.
Qed.

Definition skip1 (c : Z) (buf : list Z) : list Z :=
  match buf with d :: b => if decide (d = c) then b else buf | [] => [] end.

Lemma skip_char_ok c buf : skip_char c buf (zlen buf) = Done (skip1 c buf, zlen (skip1 c buf)).
Proof.
  unfold skip_char. destruct buf as [|d b]; [done|]. rewrite decide_True by (cbn; lia).
  rewrite load_head, Done_bind. cbn [skip1]. case_decide; [|done]. cbn [drop length]. rewrite drop_0.
  do 2 f_equal. lia.
Qed.

Lemma skip1_suffix c buf : skip1 c buf `suffix_of` buf.
Proof. destruct buf as [|d b]; cbn; [done|]. case_decide; [by apply suffix_cons_r|done]. Qed.

Lemma skip1_elem c buf d : d ∈ buf → d ≠ c → d ∈ skip1 c buf.
Proof. destruct buf as [|e b]; cbn; [done|]. case_decide; set_solver. Qed.

(** What is left behind a text. *)
Lemma text_dump_rest fuel t r :
  Forall (λ c, ends_text c = false) t → zlen (t ++ r) < 2 ^ 32 →
  (r = [] ∧ t ≠ [] ∨ ∃ c r', r = c :: r' ∧ ends_text c = true) →
  z_format_text_dump (S fuel) (t ++ r) (zlen (t ++ r)) =
  (let next := skip1 10 (skip1 13 r) in
   rest ← z_format_text_dump fuel next (zlen next);
   Done (shown t (negb (bool_decide (r = []))) :: rest)).
Proof.
  intros. rewrite text_dump_step by done. rewrite skip_char_ok, Done_bind.
  cbv beta iota. rewrite skip_char_ok, Done_bind. done.
Qed.

Lemma text_dump_ends fuel : ∀ buf,
  0 ∉ buf → zlen buf < 2 ^ 32 → (length buf ≤ fuel)%nat →
  ∃ lines, z_format_text_dump fuel buf (zlen buf) = Done lines.
Proof.
  induction fuel as [|fuel IH]; intros buf Hn Hl Hf.
  - destruct buf; [by eexists|cbn in Hf; lia].
  - destruct (decide (buf = [])) as [->|Hne]; [by eexists|].
    destruct (split_text buf) as (t & r & -> & Ht & Hr). rewrite length_app in *.
    assert (Hsuf : skip1 10 (skip1 13 r) `suffix_of` r)
      by (etrans; apply skip1_suffix).
    pose proof (suffix_length _ _ Hsuf) as Hlen.
    assert (Hlt : (length (skip1 10 (skip1 13 r)) < length t + length r)%nat).
    { destruct Hr as [->|(c & r' & -> & Hc)]; [destruct t; [done|cbn; lia]|].
      assert (c ≠ 0) by (intros ->; apply Hn; set_solver).
      pose proof (suffix_length _ _ (skip1_suffix 10 r')).
      unfold ends_text in Hc. cbn [skip1 length]. repeat case_decide; subst; cbn [skip1 length];
        repeat case_decide; cbn [length]; try lia. by destruct_or?; naive_solver. }
    rewrite <- length_app. rewrite text_dump_rest; [|done|rewrite length_app; lia|].
    2: { destruct Hr as [->|?]; [left; split; [done|]|by right]. rewrite app_nil_r in Hne. done. }
    destruct (IH (skip1 10 (skip1 13 r))) as [lines Hd].
    + destruct Hsuf as [k Hk]. intros ?. apply Hn. rewrite Hk. set_solver.
    + lia.
    + lia.
    + cbn zeta. rewrite Hd, Done_bind. by eexists.
Qed.

Lemma text_dump_loops fuel : ∀ buf,
  0 ∈ buf → zlen buf < 2 ^ 32 → z_format_text_dump fuel buf (zlen buf) = Fault OutOfFuel.
Proof.
  induction fuel as [|fuel IH]; intros buf Hin Hl.
  - destruct buf; [by apply not_elem_of_nil in Hin|]. cbn [z_format_text_dump].
    by rewrite decide_True by (cbn; lia).
  - destruct (split_text buf) as (t & r & -> & Ht & Hr).
    assert (Hr0 : 0 ∈ r).
    { apply elem_of_app in Hin as [Hin|]; [|done]. rewrite Forall_forall in Ht. by apply Ht in Hin. }
    destruct Hr as [->|Hr]; [by apply not_elem_of_nil in Hr0|].
    rewrite text_dump_rest by eauto. cbn zeta. rewrite IH; [done| |].
    + by do 2 (apply skip1_elem; [|done]).
    + assert (Hsuf : skip1 10 (skip1 13 r) `suffix_of` r) by (etrans; apply skip1_suffix).
      apply suffix_length in Hsuf. rewrite length_app in Hl. lia.
Qed.

(** A text with its line ends: LF alone, or CR and LF. *)
Definition eol (crlf : bool) : list Z := if crlf then [13; 10] else [10].
Definition text_of (ls : list (list Z * bool)) (last : list Z) : list Z :=
  (ls ≫= λ l, l.1 ++ eol l.2) ++ last.

Definition line_ok (l : list Z) : Prop :=
  Forall (λ c, ends_text c = false) l ∧ (length l ≤ 1023)%nat.

Lemma text_dump_lines fuel : ∀ ls last,
  Forall (λ l, line_ok l.1) ls → line_ok last → zlen (text_of ls last) < 2 ^ 32 →
  (length ls < fuel)%nat →
  z_format_text_dump fuel (text_of ls last) (zlen (text_of ls last)) =
  Done (ls.*1 ++ (if decide (last = []) then [] else [removelast last])).
Proof.
  induction fuel as [|fuel IH]; intros ls last Hls [Hlast Hlen] Hl Hf; [lia|].
  destruct ls as [|[l b] ls].
  - unfold text_of in *. cbn [mbind list_bind app fmap list_fmap] in *.
    case_decide as Hd; [by subst|]. rewrite <- (app_nil_r last) at 1 2.
    rewrite text_dump_rest; [|done|by rewrite app_nil_r|by auto]. cbn zeta. cbn [skip1].
    assert (H0 : z_format_text_dump fuel [] (zlen (@nil Z)) = Done []) by by destruct fuel.
    rewrite H0, Done_bind. cbn. unfold shown. rewrite take_ge; [done|].
    rewrite removelast_firstn_len, length_firstn. lia.
  - inversion_clear Hls as [|? ? [Hlok Hllen] Hls']. cbn in Hlok, Hllen.
    assert (Htxt : text_of ((l, b) :: ls) last = l ++ eol b ++ text_of ls last).
    { unfold text_of. cbn. by rewrite <- !app_assoc. }
    rewrite Htxt in *. rewrite text_dump_rest; [|done|done|].
    2: { right. destruct b; cbn; eauto. }
    assert (Hsk : skip1 10 (skip1 13 (eol b ++ text_of ls last)) = text_of ls last)
      by by destruct b.
    cbn zeta. rewrite Hsk, IH; [|done|done| |cbn in Hf; lia].
    2: { rewrite !length_app in Hl. lia. }
    rewrite Done_bind. cbn. unfold shown. rewrite bool_decide_false by by destruct b.
    cbn. by rewrite take_ge.
Qed.

(** The text dump of a buffer ends if and only if the buffer holds no NUL (with one
    it logs empty lines for ever); a text of lines ended by LF or CRLF is logged line
    by line, except that an unended last line loses its last character. *)
Theorem z_format_text_dump_spec (buf : list Z) :
  zlen buf < 2 ^ 32 →
  (0 ∉ buf → ∃ lines, z_format_text_dump (length buf) buf (zlen buf) = Done lines) ∧
  (0 ∈ buf → ∀ fuel, z_format_text_dump fuel buf (zlen buf) = Fault OutOfFuel) ∧
  (∀ ls last, buf = text_of ls last → Forall (λ l, line_ok l.1) ls → line_ok last →
     z_format_text_dump (S (length ls)) buf (zlen buf) =
     Done (ls.*1 ++ (if decide (last = []) then [] else [removelast last]))).
Proof.
  intros Hl. split_and!.
  - intros Hn. by apply text_dump_ends.
  - intros Hin fuel. by apply text_dump_loops.
  - intros ls last -> ? ?. apply text_dump_lines; by auto with lia.
Qed.

Lemma z_format_text_dump_spec_witness :
  z_format_text_dump 3 (str "HELO x" ++ [13; 10] ++ str "DATA" ++ [10] ++ str "tail") 17 =
    Done [str "HELO x"; str "DATA"; str "tai"].
Proof.
  refine (proj2 (proj2 (z_format_text_dump_spec _ _)) [(str "HELO x", true); (str "DATA", false)]
    (str "tail") _ _ _); [by vm_compute|done| |]; by apply (bool_decide_unpack _); vm_compute.
Defined.
