(* ===== verification/StreamApi.v ===== *)
(** * The vocabulary of the streams (src/src/zorp/stream.h)

    Statuses, conditions, control functions and flags that all streams share, and the
    interfaces by which a stream knows the one below it. *)

From S2P Require Import Prelude.
Open Scope Z_scope.

(** ** Streams as seen by their parents *)

Inductive GIOStatus : Set :=
| G_IO_STATUS_ERROR | G_IO_STATUS_NORMAL | G_IO_STATUS_EOF | G_IO_STATUS_AGAIN.

#[global] Instance GIOStatus_eq_dec : EqDecision GIOStatus.
Proof. solve_decision. Defined.

(** [child_read c timeout count]: the status, the bytes read, the new state; and
    the bytes that the stream still has to deliver. *)
Class ZStreamOps (C : Type) := {
  child_read : C → Z → Z → GIOStatus * list Z * C;
  to_come : C → list Z
}.

Class ZStreamLaws (C : Type) `{ZStreamOps C} := {
  read_normal c t n l c' :
    0 < n → child_read c t n = (G_IO_STATUS_NORMAL, l, c') →
    l ≠ [] ∧ zlen l ≤ n ∧ to_come c = l ++ to_come c';
  read_eof c t n l c' :
    child_read c t n = (G_IO_STATUS_EOF, l, c') → to_come c = [] ∧ to_come c' = [];
  read_again c t n l c' :
    child_read c t n = (G_IO_STATUS_AGAIN, l, c') → to_come c' = to_come c
}.

(** The other direction, for the streams that write to their child.  The errors of a
    stream are values of [E]; [written] is what the stream has taken so far. *)
Class ZStreamWriteOps (C E : Type) := {
  child_write : C → list Z → GIOStatus * Z * option E * C;
  child_set_timeout : C → Z → C;
  child_set_nonblock : C → bool → C;
  child_shutdown : C → Z → GIOStatus * option E * C;
  written : C → list Z
}.

(** A write takes a prefix and says how long it is, or takes nothing; the other calls
    take nothing. *)
Class ZStreamWriteLaws (C E : Type) `{ZStreamWriteOps C E} := {
  write_normal c l n err c' :
    child_write c l = (G_IO_STATUS_NORMAL, n, err, c') →
    0 ≤ n ≤ zlen l ∧ written c' = written c ++ take (Z.to_nat n) l;
  write_nothing c l st n err c' :
    child_write c l = (st, n, err, c') → st ≠ G_IO_STATUS_NORMAL → written c' = written c;
  written_set_timeout c t : written (child_set_timeout c t) = written c;
  written_set_nonblock c b : written (child_set_nonblock c b) = written c;
  written_shutdown c i st err c' : child_shutdown c i = (st, err, c') → written c' = written c
}.

(** Bits of a word of flags. *)
Definition has (f k : Z) : bool := negb (Z.land f k =? 0).
Definition set_flag (f k : Z) : Z := Z.lor f k.
Definition clear_flag (f k : Z) : Z := Z.land f (Z.lnot k).

(** GIOCondition bits. *)
Definition G_IO_IN : Z := 1.
Definition G_IO_PRI : Z := 2.
Definition G_IO_OUT : Z := 4.

(** The control functions of all streams; the selector in a call and its flag. *)
Definition ZST_CTRL_GET_FD : Z := 0x01.
Definition ZST_CTRL_SET_COND_READ : Z := 0x02.
Definition ZST_CTRL_SET_COND_WRITE : Z := 0x03.
Definition ZST_CTRL_SET_COND_PRI : Z := 0x04.
Definition ZST_CTRL_SET_CALLBACK_READ : Z := 0x06.
Definition ZST_CTRL_SET_CALLBACK_WRITE : Z := 0x07.
Definition ZST_CTRL_SET_CALLBACK_PRI : Z := 0x08.
Definition ZST_CTRL_SET_TIMEOUT_BLOCK : Z := 0x0A.
Definition ZST_CTRL_GET_COND_READ : Z := 0x0C.
Definition ZST_CTRL_GET_COND_WRITE : Z := 0x0D.
Definition ZST_CTRL_GET_COND_PRI : Z := 0x0E.
Definition ZST_CTRL_GET_CALLBACK_READ : Z := 0x10.
Definition ZST_CTRL_GET_CALLBACK_WRITE : Z := 0x11.
Definition ZST_CTRL_GET_CALLBACK_PRI : Z := 0x12.
Definition ZST_CTRL_SET_NONBLOCK : Z := 0x14.
Definition ZST_CTRL_GET_NONBLOCK : Z := 0x15.
Definition ZST_CTRL_GET_BROKEN : Z := 0x16.
Definition ZST_CTRL_SET_CLOSEONEXEC : Z := 0x17.
Definition ZST_CTRL_GET_KEEPALIVE : Z := 0x18.
Definition ZST_CTRL_SET_KEEPALIVE : Z := 0x19.

(** Which directions a shutdown closes. *)
Definition SHUT_RD : Z := 0.
Definition SHUT_WR : Z := 1.
Definition SHUT_RDWR : Z := 2.

Definition ZST_CTRL_MSG (x : Z) : Z := Z.land x 0xFFFF.
Definition ZST_CTRL_MSG_FORWARD : Z := 0x80000000.

(** The flag of a ZStreamGzip whose data has the header of the gzip program. *)
Definition Z_SGZ_GZIP_HEADER : Z := 0x0002.

(** What the application waits for. *)
Record watch := mkWatch { want_read : bool; want_pri : bool; want_write : bool }.

(** ** Flags *)

Lemma has_set f k m : has (set_flag f k) m = has f m || has k m.
Proof.
  unfold has, set_flag. rewrite Z.land_lor_distr_l.
  destruct (Z.eqb_spec (Z.lor (Z.land f m) (Z.land k m)) 0) as [E|E].
  - apply Z.lor_eq_0_iff in E as [-> ->]. done.
  - destruct (Z.eqb_spec (Z.land f m) 0) as [Ef|]; [|done].
    destruct (Z.eqb_spec (Z.land k m) 0) as [Ek|]; [|by rewrite orb_true_r].
    by rewrite Ef, Ek in E.
Qed.

Lemma has_0 f : has f 0 = false.
Proof. unfold has. by rewrite Z.land_0_r. Qed.

Lemma has_set_same f k m : has k m = true → has (set_flag f k) m = true.
Proof. intros Hk. by rewrite has_set, Hk, orb_true_r. Qed.

Lemma has_set_other f k m : has k m = false → has (set_flag f k) m = has f m.
Proof. intros Hk. by rewrite has_set, Hk, orb_false_r. Qed.

Lemma has_clear_same f k m : Z.land (Z.lnot k) m = 0 → has (clear_flag f k) m = false.
Proof. unfold clear_flag, has. intros Hk. rewrite <- Z.land_assoc, Hk. apply has_0. Qed.

Lemma has_clear_other f k m : Z.land (Z.lnot k) m = m → has (clear_flag f k) m = has f m.
Proof. unfold clear_flag, has. intros Hk. by rewrite <- Z.land_assoc, Hk. Qed.

