(* ===== verification/StreamLine.v ===== *)
(** * Line based streams (src/src/streamline.c)

    A ZStreamLine sits on a child stream and cuts the bytes it reads into lines.
    The child is a parameter with the promises of a stream ([ZStreamOps] and
    [ZStreamLaws]); what its methods log is left out. *)

From S2P Require Import Prelude CLib StreamApi.
Open Scope Z_scope.

(** ** State *)

Definition ZRL_EOL_NL : Z := 0x1.
Definition ZRL_EOL_CRLF : Z := 0x2.
Definition ZRL_EOL_NUL : Z := 0x4.
Definition ZRL_EOL_FATAL : Z := 0x8.
Definition ZRL_NUL_NONFATAL : Z := 0x10.
Definition ZRL_TRUNCATE : Z := 0x20.
Definition ZRL_SPLIT : Z := 0x40.
Definition ZRL_SINGLE_READ : Z := 0x80.
Definition ZRL_POLL_PARTIAL : Z := 0x100.
Definition ZRL_RETURN_EOL : Z := 0x200.
Definition ZRL_SAVED_FLAGS_MASK : Z := 0x0000FFFF.
Definition ZRL_IGNORE_TILL_EOL : Z := 0x00010000.
Definition ZRL_LINE_AVAIL_SET : Z := 0x00020000.
Definition ZRL_LINE_AVAIL : Z := 0x00040000.
Definition ZRL_ERROR : Z := 0x00080000.
Definition ZRL_EOF : Z := 0x00100000.

Record ZStreamLine := mkLine {
  flags : Z;
  buffer : list Z;
  bufsize : Z; pos : Z; end_ : Z; oldpos : Z;
  child_cond : Z;
  (* of the ZStream *)
  bytes_recvd : Z;
  timeout : Z
}.

Definition set_flags (s : ZStreamLine) (f : Z) : ZStreamLine :=
  mkLine f (buffer s) (bufsize s) (pos s) (end_ s) (oldpos s) (child_cond s) (bytes_recvd s) (timeout s).
Definition set_window (s : ZStreamLine) (b : list Z) (p e o : Z) : ZStreamLine :=
  mkLine (flags s) b (bufsize s) p e o (child_cond s) (bytes_recvd s) (timeout s).
Definition set_child_cond (s : ZStreamLine) (c : Z) : ZStreamLine :=
  mkLine (flags s) (buffer s) (bufsize s) (pos s) (end_ s) (oldpos s) c (bytes_recvd s) (timeout s).
Definition count_recvd (s : ZStreamLine) (n : Z) : ZStreamLine :=
  mkLine (flags s) (buffer s) (bufsize s) (pos s) (end_ s) (oldpos s) (child_cond s)
    (u64 (bytes_recvd s + n)) (timeout s).

Definition z_stream_line_new `{FreshMem} (size f t : Z) : ZStreamLine :=
  mkLine f (fresh_bytes 0 (Z.to_nat size)) size 0 0 0 0 0 t.

(** ** Looking for lines *)

(** [memchr(b + i, c, n)], as an index into the block. *)
Definition memchr (b : list Z) (i c n : Z) : outcome (option Z) :=
  l ← load_range b i n;
  Done ((λ x : nat * Z, i + Z.of_nat x.1) <$> list_find (eq c) l).

Definition eol_char (f : Z) : Z := if has f ZRL_EOL_NUL then 0 else 10.

Definition z_stream_line_have_line (self : ZStreamLine) : outcome (bool * ZStreamLine) :=
  if has (flags self) ZRL_LINE_AVAIL_SET then Done (has (flags self) ZRL_LINE_AVAIL, self)
  else
    eol ← memchr (buffer self) (pos self) (eol_char (flags self)) (u64 (end_ self - pos self));
    let f := set_flag (flags self) ZRL_LINE_AVAIL_SET in
    let f := match eol with
             | Some _ => set_flag f ZRL_LINE_AVAIL
             | None => clear_flag f ZRL_LINE_AVAIL
             end in
    Done (has f ZRL_LINE_AVAIL, set_flags self f).

Definition z_stream_line_buf_empty (self : ZStreamLine) : bool := pos self =? end_ self.

Inductive line_error : Set :=
| EmbeddedNul | BadCRLF | LineTooLong | StoredError | ChildError | BufferTooSmall.

(** The results behind pointers: [*line], an index into the buffer, and [*length]. *)
Record line_out := mkOut { o_line : option Z; o_length : Z }.

Definition no_line : line_out := mkOut None 0.

(** The length of a line without its end, and the length of the end. *)
Definition strip_eol (self : ZStreamLine) (eol length : Z) : outcome (Z * Z * option line_error) :=
  let f := flags self in
  if has f ZRL_EOL_NL || has f ZRL_EOL_NUL then Done (u64 (length - 1), 1, None)
  else if has f ZRL_EOL_CRLF then
    cr ← (if 1 <=? eol then c ← load (buffer self) (eol - 1); Done (c =? 13) else Done false);
    if cr : bool then Done (u64 (length - 2), 2, None)
    else if has f ZRL_EOL_FATAL then Done (u64 (length - 1), 1, Some BadCRLF)
    else Done (u64 (length - 1), 1, None)
  else Done (length, 0, None).

Definition z_stream_line_get_from_buf (self : ZStreamLine) (o : line_out)
    : outcome (GIOStatus * ZStreamLine * line_out * option line_error) :=
  let avail := u64 (end_ self - pos self) in
  let f := flags self in
  eol ← memchr (buffer self) (pos self) (eol_char f) avail;
  let eol := if has f ZRL_EOF then Some (end_ self - 1) else eol in
  match eol with
  | Some eol =>
      let line := pos self in
      let length := u64 (eol - pos self + 1) in
      let self := set_window self (buffer self) (u64 (pos self + length)) (end_ self) (pos self) in
      nul ← (if has f ZRL_EOL_NUL then Done None else memchr (buffer self) line 0 length);
      if bool_decide (nul ≠ None) && negb (has f ZRL_NUL_NONFATAL)
      then Done (G_IO_STATUS_ERROR, self, mkOut (Some line) length, Some EmbeddedNul)
      else if has f ZRL_EOF
      then Done (G_IO_STATUS_NORMAL, self, mkOut (Some line) length, None)
      else
        '(length, eol_len, err) ← strip_eol self eol length;
        match err with
        | Some e => Done (G_IO_STATUS_ERROR, self, mkOut (Some line) length, Some e)
        | None =>
            let length := if has f ZRL_RETURN_EOL then u64 (length + eol_len) else length in
            Done (G_IO_STATUS_NORMAL, self, mkOut (Some line) length, None)
        end
  | None =>
      if pos self =? 0 then Done (G_IO_STATUS_AGAIN, self, o, None)
      else
        b ← memmove (buffer self) 0 (pos self) avail;
        Done (G_IO_STATUS_AGAIN, set_window self b 0 avail 0, mkOut (o_line o) 0, None)
  end.

(** [maybe_another_line]: the end of a truncated line is thrown away. *)
Fixpoint take_line (fuel : nat) (self : ZStreamLine) (o : line_out)
    : outcome (GIOStatus * ZStreamLine * line_out * option line_error) :=
  '(rc, self, o, err) ← z_stream_line_get_from_buf self o;
  if bool_decide (rc = G_IO_STATUS_NORMAL) && has (flags self) ZRL_IGNORE_TILL_EOL
  then match fuel with
       | O => Fault OutOfFuel
       | S fuel => take_line fuel (set_flags self (clear_flag (flags self) ZRL_IGNORE_TILL_EOL)) o
       end
  else Done (rc, self, o, err).

Section Child.
Context {C : Type} `{ZStreamOps C}.

Abbreviation get_result := (GIOStatus * ZStreamLine * C * line_out * option line_error)%type.

(** What is done about a full buffer. *)
Definition full_buffer (self : ZStreamLine) (c : C) : ZStreamLine + get_result :=
  let f := flags self in
  if has f ZRL_IGNORE_TILL_EOL then inl (set_window self (buffer self) 0 0 0)
  else if has f ZRL_TRUNCATE then
    let self := set_window (count_recvd self (bufsize self)) (buffer self) 0 0 0 in
    inr (G_IO_STATUS_NORMAL, set_flags self (set_flag f ZRL_IGNORE_TILL_EOL), c,
         mkOut (Some 0) (bufsize self), None)
  else if has f ZRL_SPLIT then
    inr (G_IO_STATUS_AGAIN, set_window (count_recvd self (bufsize self)) (buffer self) 0 0 0, c,
         mkOut (Some 0) (bufsize self), None)
  else inr (G_IO_STATUS_ERROR, set_flags self (set_flag f ZRL_ERROR), c, no_line, Some LineTooLong).

(** The loop of z_stream_line_get_internal. *)
Fixpoint get_loop (fuel : nat) (self : ZStreamLine) (c : C) (o : line_out) : outcome get_result :=
  let avail := u64 (bufsize self - end_ self) in
  match (if avail =? 0 then full_buffer self c else inl self) with
  | inr r => Done r
  | inl self =>
      let avail := u64 (bufsize self - end_ self) in
      let '(rc, data, c) := child_read c (timeout self) avail in
      (* behind a read that added bytes or found the end of the file *)
      let after_read self :=
        '(rc, self, o, err) ← take_line 1 self o;
        match rc with
        | G_IO_STATUS_NORMAL => Done (rc, count_recvd self (o_length o), c, o, None)
        | G_IO_STATUS_AGAIN =>
            if has (flags self) ZRL_SINGLE_READ then Done (rc, self, c, no_line, None)
            else match fuel with
                 | O => Fault OutOfFuel
                 | S fuel => get_loop fuel self c o
                 end
        | _ => Done (rc, self, c, no_line, err)
        end in
      match rc with
      | G_IO_STATUS_EOF =>
          if has (flags self) ZRL_EOF || (pos self =? end_ self)
          then Done (G_IO_STATUS_EOF, self, c, o, None)
          else after_read (set_flags self (set_flag (flags self) ZRL_EOF))
      | G_IO_STATUS_NORMAL =>
          b ← store_range (buffer self) (end_ self) data;
          after_read (set_window self b (pos self) (u64 (end_ self + zlen data)) (oldpos self))
      | G_IO_STATUS_AGAIN => Done (G_IO_STATUS_AGAIN, self, c, no_line, None)
      | G_IO_STATUS_ERROR =>
          Done (G_IO_STATUS_ERROR, set_flags self (set_flag (flags self) ZRL_ERROR), c, o, Some ChildError)
      end
  end.

Definition z_stream_line_get_internal (fuel : nat) (self : ZStreamLine) (c : C) (o : line_out)
    : outcome get_result :=
  if has (flags self) ZRL_ERROR then Done (G_IO_STATUS_ERROR, self, c, o, Some StoredError)
  else if has (flags self) ZRL_EOF then Done (G_IO_STATUS_EOF, self, c, o, None)
  else
    let self := set_child_cond (set_flags self (clear_flag (flags self) ZRL_LINE_AVAIL_SET)) 0 in
    if end_ self =? pos self
    then get_loop fuel (set_window self (buffer self) 0 0 0) c no_line
    else
      '(rc, self, o, err) ← z_stream_line_get_from_buf self o;
      match rc with
      | G_IO_STATUS_NORMAL => Done (rc, count_recvd self (o_length o), c, o, None)
      | G_IO_STATUS_ERROR =>
          Done (rc, set_flags self (set_flag (flags self) ZRL_ERROR), c, o, err)
      | _ => get_loop fuel self c no_line
      end.

(** The bytes a result points to. *)
Definition line_bytes (self : ZStreamLine) (o : line_out) : outcome (list Z) :=
  match o_line o with
  | Some line => load_range (buffer self) line (o_length o)
  | None => Done []
  end.

(** z_stream_line_get; finding the ZStreamLine of the stack is not part of the model. *)
Definition z_stream_line_get (fuel : nat) (self : ZStreamLine) (c : C) : outcome get_result :=
  z_stream_line_get_internal fuel self c no_line.

(** [length] is the size of the caller's buffer; the result holds the bytes copied. *)
Definition z_stream_line_get_copy (fuel : nat) (self : ZStreamLine) (c : C) (length : Z)
    : outcome (GIOStatus * ZStreamLine * C * list Z * option line_error) :=
  if length =? 0 then Done (G_IO_STATUS_AGAIN, self, c, [], None)
  else
    '(res, self, c, o, err) ← z_stream_line_get_internal fuel self c no_line;
    if bool_decide (res = G_IO_STATUS_NORMAL)
       || (bool_decide (res = G_IO_STATUS_AGAIN) && (0 <? o_length o))
    then
      if length <? o_length o then
        if has (flags self) ZRL_SPLIT then
          let self := if end_ self =? 0
                      then set_window self (buffer self) length (o_length o) (oldpos self)
                      else set_window self (buffer self) (u64 (oldpos self + length)) (end_ self) (oldpos self) in
          copied ← line_bytes self (mkOut (o_line o) length);
          Done (G_IO_STATUS_AGAIN, self, c, copied, err)
        else Done (G_IO_STATUS_ERROR, self, c, [], None)
      else
        copied ← line_bytes self o;
        Done (res, self, c, copied, err)
    else Done (res, self, c, [], err).

Definition z_stream_line_read_method (self : ZStreamLine) (c : C) (count : Z)
    : outcome (GIOStatus * list Z * ZStreamLine * C) :=
  let avail := u64 (end_ self - pos self) in
  if avail =? 0 then
    let '(res, l, c) := child_read c (timeout self) count in
    Done (res, l, set_child_cond self 0, c)
  else
    let n := Z.min count avail in
    l ← load_range (buffer self) (pos self) n;
    let p := u64 (pos self + n) in
    let self := if p =? end_ self then set_window self (buffer self) 0 0 (pos self)
                else set_window self (buffer self) p (end_ self) (pos self) in
    Done (G_IO_STATUS_NORMAL, l, set_flags self (clear_flag (flags self) ZRL_LINE_AVAIL_SET), c).
End Child.

(** Ungetting the [data] of a packet: FALSE leaves everything as it was. *)
Definition z_stream_line_unget_packet_method (self : ZStreamLine) (data : list Z)
    : outcome (bool * ZStreamLine) :=
  let avail_before := pos self in
  let avail_after := u64 (bufsize self - end_ self) in
  let n := zlen data in
  if n <? u64 (avail_before + avail_after) then
    if n <? avail_before then
      b ← store_range (buffer self) (pos self - n) data;
      Done (true, set_window self b (pos self - n) (end_ self) (oldpos self))
    else
      b ← memmove (buffer self) n (pos self) (end_ self - pos self);
      b ← store_range b 0 data;
      Done (true, set_window self b 0 (u64 (end_ self - pos self + n)) (oldpos self))
  else Done (false, self).

(** ** Control, polling and extra state *)

Definition ZST_LINE_OFS : Z := Z.shiftl 76 8.
Definition ZST_LINE_GET_TRUNCATE : Z := Z.lor 0x01 ZST_LINE_OFS.
Definition ZST_LINE_GET_SPLIT : Z := Z.lor 0x02 ZST_LINE_OFS.
Definition ZST_LINE_GET_SINGLE_READ : Z := Z.lor 0x03 ZST_LINE_OFS.
Definition ZST_LINE_GET_POLL_PARTIAL : Z := Z.lor 0x04 ZST_LINE_OFS.
Definition ZST_LINE_GET_NUL_NONFATAL : Z := Z.lor 0x05 ZST_LINE_OFS.
Definition ZST_LINE_GET_RETURN_EOL : Z := Z.lor 0x06 ZST_LINE_OFS.
Definition ZST_LINE_SET_TRUNCATE : Z := Z.lor 0x11 ZST_LINE_OFS.
Definition ZST_LINE_SET_SPLIT : Z := Z.lor 0x12 ZST_LINE_OFS.
Definition ZST_LINE_SET_SINGLE_READ : Z := Z.lor 0x13 ZST_LINE_OFS.
Definition ZST_LINE_SET_POLL_PARTIAL : Z := Z.lor 0x14 ZST_LINE_OFS.
Definition ZST_LINE_SET_NUL_NONFATAL : Z := Z.lor 0x15 ZST_LINE_OFS.
Definition ZST_LINE_SET_RETURN_EOL : Z := Z.lor 0x16 ZST_LINE_OFS.

(** A control call is answered here, with the value behind its pointer, or passed to
    z_stream_ctrl_method with the given function selector. *)
Inductive ctrl_result :=
| CtrlDone (ret : bool) (self : ZStreamLine) (value : Z)
| CtrlSuper (function : Z).

Definition ctrl_set (self : ZStreamLine) (value vlen k : Z) : ctrl_result :=
  if vlen =? 4
  then CtrlDone true
         (set_flags self (if value =? 0 then clear_flag (flags self) k else set_flag (flags self) k)) value
  else CtrlDone false self value.

Definition ctrl_get (self : ZStreamLine) (value vlen k : Z) : ctrl_result :=
  if vlen =? 4
  then CtrlDone true self (if has (flags self) k then 1 else 0)
  else CtrlDone false self value.

Definition z_stream_line_ctrl_method (self : ZStreamLine) (function value vlen : Z) : ctrl_result :=
  let msg := ZST_CTRL_MSG function in
  if msg =? ZST_LINE_SET_TRUNCATE then ctrl_set self value vlen ZRL_TRUNCATE
  else if msg =? ZST_LINE_SET_NUL_NONFATAL then ctrl_set self value vlen ZRL_NUL_NONFATAL
  else if msg =? ZST_LINE_SET_SPLIT then ctrl_set self value vlen ZRL_SPLIT
  else if msg =? ZST_LINE_SET_SINGLE_READ then ctrl_set self value vlen ZRL_SINGLE_READ
  else if msg =? ZST_LINE_SET_POLL_PARTIAL then ctrl_set self value vlen ZRL_POLL_PARTIAL
  else if msg =? ZST_LINE_SET_RETURN_EOL then ctrl_set self value vlen ZRL_RETURN_EOL
  else if msg =? ZST_LINE_GET_TRUNCATE then ctrl_get self value vlen ZRL_TRUNCATE
  else if msg =? ZST_LINE_GET_SPLIT then ctrl_get self value vlen ZRL_SPLIT
  else if msg =? ZST_LINE_GET_NUL_NONFATAL then ctrl_get self value vlen ZRL_NUL_NONFATAL
  else if msg =? ZST_LINE_GET_SINGLE_READ then ctrl_get self value vlen ZRL_SINGLE_READ
  else if msg =? ZST_LINE_GET_POLL_PARTIAL then ctrl_get self value vlen ZRL_POLL_PARTIAL
  else if msg =? ZST_LINE_GET_RETURN_EOL then ctrl_get self value vlen ZRL_RETURN_EOL
  else if (msg =? ZST_CTRL_SET_CALLBACK_READ) || (msg =? ZST_CTRL_SET_CALLBACK_WRITE)
          || (msg =? ZST_CTRL_SET_CALLBACK_PRI)
  then CtrlSuper function
  else CtrlSuper (Z.lor ZST_CTRL_MSG_FORWARD function).

(** The read and priority callbacks of the child only note what it can do. *)
Definition z_stream_line_read_callback (self : ZStreamLine) : bool * ZStreamLine :=
  (true, set_child_cond self (Z.lor (child_cond self) G_IO_IN)).
Definition z_stream_line_pri_callback (self : ZStreamLine) : bool * ZStreamLine :=
  (true, set_child_cond self (Z.lor (child_cond self) G_IO_PRI)).

(** The result, and the conditions set on the child: read and write.  The timeout
    is always set to -1. *)
Definition z_stream_line_watch_prepare (self : ZStreamLine) (w : watch)
    : outcome (bool * bool * bool * ZStreamLine) :=
  let child_readable := has (child_cond self) G_IO_IN in
  '(ret, child_enable, self) ←
    (if want_read w then
       if has (flags self) ZRL_POLL_PARTIAL then
         if z_stream_line_buf_empty self && negb child_readable
         then Done (false, true, self) else Done (true, false, self)
       else
         '(line, self) ← z_stream_line_have_line self;
         if negb line && negb child_readable
         then Done (false, true, self) else Done (true, false, self)
     else Done (false, false, self));
  let ret := ret || (want_pri w && has (child_cond self) G_IO_PRI) in
  Done (ret, child_enable, want_write w, self).

Definition z_stream_line_watch_check (self : ZStreamLine) (w : watch) : outcome (bool * ZStreamLine) :=
  let child_readable := has (child_cond self) G_IO_IN in
  '(ret, self) ←
    (if want_read w then
       if has (flags self) ZRL_POLL_PARTIAL
       then Done (negb (z_stream_line_buf_empty self) || child_readable, self)
       else '(line, self) ← z_stream_line_have_line self; Done (line || child_readable, self)
     else Done (false, self));
  Done (ret || (want_pri w && has (child_cond self) G_IO_PRI), self).

Definition z_stream_line_extra_save_method (self : ZStreamLine) : Z :=
  Z.land (flags self) ZRL_SAVED_FLAGS_MASK.

Definition z_stream_line_extra_restore_method (self : ZStreamLine) (extra : Z) : ZStreamLine :=
  set_flags self (Z.lor (Z.land (flags self) (Z.lnot ZRL_SAVED_FLAGS_MASK))
                        (Z.land extra ZRL_SAVED_FLAGS_MASK)).

(** The flags that an application sets. *)
Definition mode (f : Z) : Z := Z.land f ZRL_SAVED_FLAGS_MASK.

Lemma has_mode f g k : Z.land ZRL_SAVED_FLAGS_MASK k = k → mode f = mode g → has f k = has g k.
Proof.
  intros Hk Hm. unfold has, mode in *. rewrite <- Hk, !Z.land_assoc. by rewrite Hm.
Qed.

Lemma mode_set f k : mode k = 0 → mode (set_flag f k) = mode f.
Proof. unfold mode, set_flag. intros Hk. by rewrite Z.land_lor_distr_l, Hk, Z.lor_0_r. Qed.

Lemma mode_clear f k :
  Z.land (Z.lnot k) ZRL_SAVED_FLAGS_MASK = ZRL_SAVED_FLAGS_MASK → mode (clear_flag f k) = mode f.
Proof. unfold mode, clear_flag. intros Hk. by rewrite <- Z.land_assoc, Hk. Qed.

(** Evaluates the tests of flags that were set or cleared. *)
Ltac flag_simpl :=
  cbn [flags set_flags set_window set_child_cond count_recvd];
  repeat first
    [ rewrite has_set_same by done | rewrite has_set_other by done
    | rewrite has_clear_same by done | rewrite has_clear_other by done
    | rewrite mode_set by done | rewrite mode_clear by done ].

(** ** The buffer *)

Definition buffered (s : ZStreamLine) : list Z :=
  take (Z.to_nat (end_ s - pos s)) (drop (Z.to_nat (pos s)) (buffer s)).

(** The window lies in the buffer, and does not start inside a CR LF pair. *)
Record line_wf (s : ZStreamLine) : Prop := {
  wf_pos : 0 ≤ pos s ≤ end_ s;
  wf_end : end_ s ≤ bufsize s;
  wf_size : zlen (buffer s) = bufsize s;
  wf_bound : 0 < bufsize s < 2 ^ 63;
  wf_cut : 0 < pos s < end_ s → buffer s !! Z.to_nat (pos s - 1) = Some 13 →
           buffer s !! Z.to_nat (pos s) ≠ Some 10
}.

Lemma buffered_length s : line_wf s → zlen (buffered s) = end_ s - pos s.
Proof. intros []. unfold buffered. rewrite length_take, length_drop. lia. Qed.

Lemma buffered_load s : line_wf s → load_range (buffer s) (pos s) (end_ s - pos s) = Done (buffered s).
Proof. intros []. rewrite load_range_ok by lia. done. Qed.

(** Reading a part of the window. *)
Lemma buffered_drop s : line_wf s →
  ∃ tl, drop (Z.to_nat (pos s)) (buffer s) = buffered s ++ tl.
Proof. intros _. exists (drop (Z.to_nat (end_ s - pos s)) (drop (Z.to_nat (pos s)) (buffer s))). unfold buffered. by rewrite take_drop. Qed.

Lemma buffered_prefix s l r :
  line_wf s → buffered s = l ++ r → load_range (buffer s) (pos s) (zlen l) = Done l.
Proof.
  intros Hw Hb. pose proof (buffered_length s Hw) as Hl. rewrite Hb, length_app in Hl.
  destruct (buffered_drop s Hw) as [tl Htl]. destruct Hw.
  rewrite load_range_ok by lia. rewrite Htl, Hb, <- app_assoc, Nat2Z.id. by rewrite take_app_length.
Qed.

Lemma u64_avail s : line_wf s → u64 (end_ s - pos s) = end_ s - pos s.
Proof. intros []. apply u64_small. lia. Qed.

Lemma list_find_first (e : Z) body rest :
  e ∉ body → list_find (eq e) (body ++ e :: rest) = Some (length body, e).
Proof.
  intros Hn. apply list_find_Some. split_and!; [by rewrite list_lookup_middle|done|].
  intros j y Hj Hlt Hy. subst y. rewrite lookup_app_l in Hj by done. by apply list_elem_of_lookup_2 in Hj.
Qed.

Lemma list_find_absent (e : Z) l : e ∉ l → list_find (eq e) l = None.
Proof. intros Hn. apply list_find_None, Forall_forall. intros x Hx ->. done. Qed.

(** Advancing the window over [n] bytes. *)
Definition adv (s : ZStreamLine) (n : Z) : ZStreamLine :=
  set_window s (buffer s) (pos s + n) (end_ s) (pos s).

Lemma adv_wf s l r :
  line_wf s → buffered s = l ++ r → l ≠ [] → last l ≠ Some 13 →
  line_wf (adv s (zlen l)) ∧ buffered (adv s (zlen l)) = r.
Proof.
  intros Hw Hb Hne Hlast. pose proof (buffered_length s Hw) as Hl. rewrite Hb, length_app in Hl.
  destruct (buffered_drop s Hw) as [tl Htl]. destruct Hw as [Hp He Hs Hbd Hc]. split.
  - split; cbn; try lia. intros Hlt Hcr. exfalso. apply Hlast.
    rewrite last_lookup. replace (Z.to_nat (pos s + zlen l - 1)) with (Z.to_nat (pos s) + Nat.pred (length l))%nat in Hcr.
    2: { destruct l; [done|cbn [length]; lia]. }
    rewrite <- lookup_drop, Htl, Hb, <- app_assoc, lookup_app_l in Hcr; [done|].
    destruct l; [done|cbn [length]; lia].
  - unfold buffered, adv. cbn [end_ pos buffer set_window].
    replace (Z.to_nat (pos s + zlen l)) with (Z.to_nat (pos s) + length l)%nat by lia.
    rewrite <- drop_drop, Htl, Hb, <- app_assoc, drop_app_length.
    replace (Z.to_nat (end_ s - (pos s + zlen l))) with (length r) by lia.
    by rewrite take_app_length.
Qed.

(** ** The line in front of the buffer *)

Definition ends_cr (body : list Z) : bool := bool_decide (last body = Some 13).

(** Whether the line [body] ended by [e] is refused. *)
Definition line_check (f : Z) (body : list Z) (e : Z) : option line_error :=
  if negb (has f ZRL_EOL_NUL) && bool_decide (0 ∈ body ++ [e]) && negb (has f ZRL_NUL_NONFATAL)
  then Some EmbeddedNul
  else if negb (has f ZRL_EOL_NL || has f ZRL_EOL_NUL) && has f ZRL_EOL_CRLF && negb (ends_cr body)
          && has f ZRL_EOL_FATAL
  then Some BadCRLF
  else None.

(** What of it is returned. *)
Definition line_shown (f : Z) (body : list Z) (e : Z) : list Z :=
  if has f ZRL_RETURN_EOL then body ++ [e]
  else if has f ZRL_EOL_NL || has f ZRL_EOL_NUL then body
  else if has f ZRL_EOL_CRLF then if ends_cr body then removelast body else body
  else body ++ [e].

Lemma line_shown_prefix f body e : ∃ r, body ++ [e] = line_shown f body e ++ r.
Proof.
  unfold line_shown. repeat case_match; try (by exists []; rewrite app_nil_r); try (by exists [e]).
  unfold ends_cr in *. rewrite bool_decide_eq_true in *. destruct body as [|x body] using rev_ind; [done|].
  rewrite removelast_last, <- app_assoc. by eexists.
Qed.

Lemma strip_eol_ok s body rest e :
  line_wf s → buffered s = body ++ e :: rest → e = eol_char (flags s) →
  strip_eol s (pos s + zlen body) (zlen body + 1) =
  Done (if has (flags s) ZRL_EOL_NL || has (flags s) ZRL_EOL_NUL then (zlen body, 1, None)
        else if has (flags s) ZRL_EOL_CRLF then
          if ends_cr body then (zlen body - 1, 2, None)
          else (zlen body, 1, if has (flags s) ZRL_EOL_FATAL then Some BadCRLF else None)
        else (zlen body + 1, 0, None)).
Proof.
  intros Hw Hb He. pose proof (buffered_length s Hw) as Hl. rewrite Hb, length_app in Hl. cbn in Hl.
  destruct (buffered_drop s Hw) as [tl Htl]. rewrite Hb, <- app_assoc in Htl.
  destruct Hw as [Hp Hend Hs Hbd Hc].
  assert (Hu : ∀ x, 0 ≤ x ≤ end_ s → u64 x = x) by (intros; apply u64_small; lia).
  unfold strip_eol. destruct (has (flags s) ZRL_EOL_NL || has (flags s) ZRL_EOL_NUL) eqn:En.
  { rewrite Hu by lia. do 3 f_equal. lia. }
  destruct (has (flags s) ZRL_EOL_CRLF); [|done].
  assert (Hcr : (if 1 <=? pos s + zlen body
                 then c ← load (buffer s) (pos s + zlen body - 1); Done (c =? 13)
                 else Done false) = Done (ends_cr body)).
  { unfold ends_cr. destruct body as [|x body _] using rev_ind.
    - cbn [length] in *. rewrite Z.add_0_r. destruct (Z.leb_spec 1 (pos s)) as [H1|]; [|done].
      destruct (lookup_lt_is_Some_2 (buffer s) (Z.to_nat (pos s - 1))) as [y Hy]; [lia|].
      rewrite (proj2 (load_Done _ _ y)) by (split; [lia|done]). rewrite Done_bind.
      destruct (Z.eqb_spec y 13) as [->|]; [|done]. exfalso.
      apply orb_false_iff in En as [_ En]. unfold eol_char in He. rewrite En in He. subst e.
      apply Hc; [lia|done|]. rewrite <- (Nat.add_0_r (Z.to_nat (pos s))), <- lookup_drop, Htl. done.
    - rewrite length_app in *. cbn [length] in *. rewrite (proj2 (Z.leb_le _ _)) by lia.
      rewrite (proj2 (load_Done _ _ x)), Done_bind, last_snoc.
      + destruct (Z.eqb_spec x 13) as [->|]; [by rewrite bool_decide_true|].
        rewrite bool_decide_false; [done|congruence].
      + split; [lia|].
        replace (Z.to_nat (pos s + Z.of_nat (length body + 1) - 1)) with (Z.to_nat (pos s) + length body)%nat by lia.
        rewrite <- lookup_drop, Htl, <- !app_assoc. cbn [app]. by rewrite list_lookup_middle. }
  rewrite Hcr, Done_bind. destruct (ends_cr body) eqn:Ecr.
  - assert (1 ≤ zlen body) by (destruct body; [done|cbn [length]; lia]).
    rewrite Hu by lia. do 3 f_equal. lia.
  - destruct (has (flags s) ZRL_EOL_FATAL); rewrite Hu by lia; do 3 f_equal; lia.
Qed.

Lemma memchr_prefix s l r c :
  line_wf s → buffered s = l ++ r →
  memchr (buffer s) (pos s) c (zlen l) = Done ((λ x : nat * Z, pos s + Z.of_nat x.1) <$> list_find (eq c) l).
Proof. intros Hw Hb. unfold memchr. by rewrite (buffered_prefix s l r Hw Hb), Done_bind. Qed.

Lemma memchr_window s c :
  line_wf s →
  memchr (buffer s) (pos s) c (u64 (end_ s - pos s)) =
  Done ((λ x : nat * Z, pos s + Z.of_nat x.1) <$> list_find (eq c) (buffered s)).
Proof.
  intros Hw. rewrite u64_avail, <- buffered_length by done.
  apply (memchr_prefix s (buffered s) []); [done|]. by rewrite app_nil_r.
Qed.

Lemma list_find_elem (c : Z) l (g : nat * Z → Z) :
  bool_decide (g <$> list_find (eq c) l ≠ None) = bool_decide (c ∈ l).
Proof.
  apply bool_decide_ext. destruct (list_find (eq c) l) as [[i y]|] eqn:E; cbn.
  - apply list_find_Some in E as (Hi & -> & _). apply list_elem_of_lookup_2 in Hi. done.
  - apply list_find_None in E. rewrite Forall_forall in E. split; [done|].
    intros Hin. by destruct (E c Hin).
Qed.

(** The test for NUL characters. *)
Lemma nul_test s l r f :
  line_wf s → buffered s = l ++ r →
  ∃ nul, (if has f ZRL_EOL_NUL then Done None else memchr (buffer s) (pos s) 0 (zlen l)) = Done nul ∧
    bool_decide (nul ≠ None) = negb (has f ZRL_EOL_NUL) && bool_decide (0 ∈ l).
Proof.
  intros Hw Hb. destruct (has f ZRL_EOL_NUL); [by exists None|].
  rewrite (memchr_prefix s l r) by done. eexists. split; [done|]. cbn [negb andb].
  apply list_find_elem.
Qed.

Lemma line_bytes_prefix s l r :
  line_wf s → buffered s = l ++ r → load_range (buffer s) (pos s) (zlen l) = Done l.
Proof. apply buffered_prefix. Qed.

Lemma get_from_buf_line s o body rest e :
  line_wf s → has (flags s) ZRL_EOF = false → e = eol_char (flags s) →
  buffered s = body ++ e :: rest → e ∉ body →
  ∃ len, z_stream_line_get_from_buf s o =
    Done (if line_check (flags s) body e then G_IO_STATUS_ERROR else G_IO_STATUS_NORMAL,
          adv s (zlen body + 1), mkOut (Some (pos s)) len, line_check (flags s) body e) ∧
    (line_check (flags s) body e = None →
     line_bytes s (mkOut (Some (pos s)) len) = Done (line_shown (flags s) body e)).
Proof.
  intros Hw Heof He Hb Hn. unfold z_stream_line_get_from_buf.
  rewrite memchr_window, <- He, Hb, list_find_first, Done_bind, Heof by done. cbn [fmap option_fmap option_map fst].
  pose proof (buffered_length s Hw) as Hl. rewrite Hb, length_app in Hl. cbn [length] in Hl.
  assert (Hp := wf_pos s Hw). assert (Hbd := wf_bound s Hw). assert (Hed := wf_end s Hw).
  assert (Hu : ∀ x, 0 ≤ x ≤ end_ s → u64 x = x) by (intros; apply u64_small; lia).
  assert (Hb' : buffered s = (body ++ [e]) ++ rest) by by rewrite <- app_assoc.
  assert (Hz : zlen (body ++ [e]) = zlen body + 1) by (rewrite length_app; cbn; lia).
  replace (u64 (pos s + zlen body - pos s + 1)) with (zlen (body ++ [e])) by (rewrite Hu; lia).
  destruct (nul_test s (body ++ [e]) rest (flags s) Hw Hb') as (nul & Hnul & Hnz).
  cbn [flags set_window buffer]. rewrite Hnul, Done_bind, Hnz.
  rewrite (Hu (pos s + zlen (body ++ [e]))) by lia.
  unfold line_check. destruct (_ && negb (has (flags s) ZRL_NUL_NONFATAL)).
  { eexists. rewrite Hz. split; [done|done]. }
  assert (Hst : strip_eol (set_window s (buffer s) (pos s + zlen (body ++ [e])) (end_ s) (pos s))
                  (pos s + zlen body) (zlen (body ++ [e])) = strip_eol s (pos s + zlen body) (zlen body + 1))
    by by rewrite Hz.
  rewrite Hst, (strip_eol_ok s body rest e) by done. rewrite Hz. clear Hst Hnul Hnz.
  unfold line_shown, adv, line_bytes. cbn [flags set_window].
  assert (Hfull : load_range (buffer s) (pos s) (zlen body + 1) = Done (body ++ [e]))
    by (rewrite <- Hz; by apply (buffered_prefix s _ rest)).
  assert (Hbody : load_range (buffer s) (pos s) (zlen body) = Done body)
    by by apply (buffered_prefix s _ (e :: rest)).
  destruct (has (flags s) ZRL_EOL_NL || has (flags s) ZRL_EOL_NUL) eqn:En; cbn [negb andb].
  { rewrite Done_bind. destruct (has (flags s) ZRL_RETURN_EOL);
      (eexists; split; [reflexivity|]); intros _; cbn [o_line o_length]; rewrite ?Hu by lia; done. }
  destruct (has (flags s) ZRL_EOL_CRLF); cbn [andb].
  2: { rewrite Done_bind. destruct (has (flags s) ZRL_RETURN_EOL);
      (eexists; split; [reflexivity|]); intros _; cbn [o_line o_length]; rewrite ?Hu, ?Z.add_0_r by lia; done. }
  destruct (ends_cr body) eqn:Ecr; cbn [negb andb].
  - rewrite Done_bind. assert (Hne : ∃ b x, body = b ++ [x]).
    { destruct body as [|x b] using rev_ind; [done|eauto]. }
    destruct Hne as (b & x & Hbx). assert (Hzb : zlen body - 1 = zlen b) by (rewrite Hbx, length_app; cbn; lia).
    destruct (has (flags s) ZRL_RETURN_EOL);
      (eexists; split; [reflexivity|]); intros _; cbn [o_line o_length].
    + rewrite Hu by lia. replace (zlen body - 1 + 2) with (zlen body + 1) by lia. done.
    + rewrite Hzb, Hbx, removelast_last. apply (buffered_prefix s b ([x] ++ e :: rest)); [done|].
      by rewrite Hb, Hbx, <- app_assoc.
  - destruct (has (flags s) ZRL_EOL_FATAL); rewrite Done_bind; [by eexists|].
    destruct (has (flags s) ZRL_RETURN_EOL);
      (eexists; split; [reflexivity|]); intros _; cbn [o_line o_length]; rewrite ?Hu by lia; done.
Qed.

(** Everything of a state but its window. *)
Definition same_conf (s s' : ZStreamLine) : Prop :=
  bufsize s' = bufsize s ∧ timeout s' = timeout s.

Lemma get_from_buf_more s o :
  line_wf s → has (flags s) ZRL_EOF = false → eol_char (flags s) ∉ buffered s →
  ∃ s' o', z_stream_line_get_from_buf s o = Done (G_IO_STATUS_AGAIN, s', o', None) ∧
    line_wf s' ∧ buffered s' = buffered s ∧ pos s' = 0 ∧ flags s' = flags s ∧ same_conf s s' ∧
    (o_length o = 0 ∨ pos s ≠ 0 → o_length o' = 0).
Proof.
  intros Hw Heof Hn. unfold z_stream_line_get_from_buf.
  rewrite memchr_window, list_find_absent, Done_bind, Heof by done. cbn [fmap option_fmap option_map].
  pose proof (buffered_length s Hw) as Hl. pose proof Hw as [Hp He Hs Hbd Hc].
  destruct (Z.eqb_spec (pos s) 0) as [E|E].
  - exists s, o. split; [done|]. split; [done|]. unfold same_conf. tauto.
  - rewrite u64_avail by done. unfold memmove. rewrite buffered_load, Done_bind by done.
    rewrite store_range_ok, Done_bind by lia.
    eexists _, _. split; [reflexivity|]. cbn [flags set_window end_ pos].
    rewrite <- Hl. split; [|split; [|by repeat split]].
    + split; cbn [set_window pos end_ bufsize buffer]; try lia.
      rewrite !length_app, length_take, length_drop. lia.
    + unfold buffered at 1. cbn [set_window pos end_ buffer].
      change (Z.to_nat 0) with 0%nat. rewrite take_0, drop_0. cbn [app].
      replace (Z.to_nat (zlen (buffered s) - 0)) with (length (buffered s)) by lia.
      by rewrite take_app_length.
Qed.

Lemma adv_all_wf s : line_wf s → line_wf (adv s (zlen (buffered s))) ∧ buffered (adv s (zlen (buffered s))) = [].
Proof.
  intros Hw. pose proof (buffered_length s Hw) as Hl. destruct Hw as [Hp He Hs Hbd Hc]. split.
  - split; cbn [adv set_window pos end_ bufsize buffer]; lia.
  - unfold buffered, adv. cbn [set_window pos end_ buffer]. fold (buffered s). rewrite Hl.
    by replace (Z.to_nat (end_ s - (pos s + (end_ s - pos s)))) with 0%nat by lia.
Qed.

(** What is refused at the end of the file. *)
Definition tail_check (f : Z) (l : list Z) : option line_error :=
  if negb (has f ZRL_EOL_NUL) && bool_decide (0 ∈ l) && negb (has f ZRL_NUL_NONFATAL)
  then Some EmbeddedNul else None.

Lemma get_from_buf_eof s o :
  line_wf s → has (flags s) ZRL_EOF = true →
  ∃ len, z_stream_line_get_from_buf s o =
    Done (if tail_check (flags s) (buffered s) then G_IO_STATUS_ERROR else G_IO_STATUS_NORMAL,
          adv s (zlen (buffered s)), mkOut (Some (pos s)) len, tail_check (flags s) (buffered s)) ∧
    line_bytes s (mkOut (Some (pos s)) len) = Done (buffered s).
Proof.
  intros Hw Heof. unfold z_stream_line_get_from_buf.
  rewrite memchr_window, Done_bind, Heof by done.
  pose proof (buffered_length s Hw) as Hl. assert (Hp := wf_pos s Hw). assert (Hbd := wf_bound s Hw).
  assert (He := wf_end s Hw).
  assert (Hu : ∀ x, 0 ≤ x ≤ end_ s → u64 x = x) by (intros; apply u64_small; lia).
  replace (u64 (end_ s - 1 - pos s + 1)) with (zlen (buffered s)) by (rewrite Hu; lia).
  destruct (nul_test s (buffered s) [] (flags s) Hw) as (nul & Hnul & Hnz); [by rewrite app_nil_r|].
  cbn [flags set_window buffer]. rewrite Hnul, Done_bind, Hnz.
  rewrite (Hu (pos s + zlen (buffered s))) by lia.
  unfold tail_check. exists (zlen (buffered s)). split.
  - by destruct (_ && _ && _).
  - unfold line_bytes. cbn [o_line o_length]. apply (buffered_prefix s _ []); [done|by rewrite app_nil_r].
Qed.

(** ** What a call means for the bytes that are still to be read

    [skips e ign p ign' p']: while the end of an overlong line is thrown away
    ([ign]), some of the bytes of [p] are dropped. *)
Inductive skips (e : Z) : bool → list Z → bool → list Z → Prop :=
| skip_none ign p : skips e ign p ign p
| skip_junk junk p : e ∉ junk → skips e true (junk ++ p) true p
| skip_end junk p : e ∉ junk → skips e true (junk ++ e :: p) false p
| skip_eof junk : e ∉ junk → skips e true junk false [].

Lemma skips_app e ign p ign' p' t :
  skips e ign p ign' p' → ign = ign' ∨ p' ≠ [] ∨ e ∈ p → skips e ign (p ++ t) ign' (p' ++ t).
Proof.
  intros H Hc. inversion H; subst.
  - constructor.
  - rewrite <- app_assoc. by constructor.
  - rewrite <- app_assoc. by constructor.
  - naive_solver.
Qed.

Lemma skips_trans e i p i1 p1 i2 p2 : skips e i p i1 p1 → skips e i1 p1 i2 p2 → skips e i p i2 p2.
Proof.
  intros H1 H2. inversion H1; subst; try done; inversion H2; subst; try by constructor.
  - rewrite app_assoc. constructor. set_solver.
  - rewrite app_assoc. constructor. set_solver.
  - constructor. set_solver.
Qed.

(** A call of z_stream_line_get_internal: [n] is the size of the buffer, [p] and [p']
    are the bytes to be read before and after it, [shown] is the line. *)
Inductive line_step (f n : Z) (ign : bool) (p : list Z) :
  GIOStatus → list Z → option line_error → bool → list Z → Prop :=
(** the next line, without its end *)
| ls_line body rest :
    skips (eol_char f) ign p false (body ++ eol_char f :: rest) → eol_char f ∉ body →
    line_check f body (eol_char f) = None →
    line_step f n ign p G_IO_STATUS_NORMAL (line_shown f body (eol_char f)) None false rest
(** the last line of the file, not ended *)
| ls_tail l :
    skips (eol_char f) ign p false l → eol_char f ∉ l → tail_check f l = None → (l = [] → ign = true) →
    line_step f n ign p G_IO_STATUS_NORMAL l None false []
(** the front of a line longer than the buffer; the rest of the line will be ignored *)
| ls_truncate l rest :
    skips (eol_char f) ign p false (l ++ rest) → eol_char f ∉ l → zlen l = n →
    has f ZRL_TRUNCATE = true →
    line_step f n ign p G_IO_STATUS_NORMAL l None true rest
(** the front of a line longer than the buffer; the rest is still to be read *)
| ls_split l rest :
    skips (eol_char f) ign p false (l ++ rest) → eol_char f ∉ l → zlen l = n →
    has f ZRL_TRUNCATE = false → has f ZRL_SPLIT = true →
    line_step f n ign p G_IO_STATUS_AGAIN l None false rest
| ls_again ign' p' :
    skips (eol_char f) ign p ign' p' → line_step f n ign p G_IO_STATUS_AGAIN [] None ign' p'
| ls_eof ign' :
    skips (eol_char f) ign p ign' [] → line_step f n ign p G_IO_STATUS_EOF [] None ign' []
(** errors *)
| ls_refused ign' body rest err l :
    skips (eol_char f) ign p ign' (body ++ eol_char f :: rest) → eol_char f ∉ body →
    line_check f body (eol_char f) = Some err →
    line_step f n ign p G_IO_STATUS_ERROR l (Some err) ign' rest
| ls_refused_tail ign' t err l :
    skips (eol_char f) ign p ign' t → tail_check f t = Some err →
    line_step f n ign p G_IO_STATUS_ERROR l (Some err) ign' []
| ls_too_long l rest :
    skips (eol_char f) ign p false (l ++ rest) → eol_char f ∉ l → zlen l = n →
    has f ZRL_TRUNCATE = false → has f ZRL_SPLIT = false →
    line_step f n ign p G_IO_STATUS_ERROR [] (Some LineTooLong) false (l ++ rest)
| ls_child ign' p' l : line_step f n ign p G_IO_STATUS_ERROR l (Some ChildError) ign' p'.

Lemma line_step_skips f n ign p ign1 p1 rc l err ign' p' :
  skips (eol_char f) ign p ign1 p1 → line_step f n ign1 p1 rc l err ign' p' →
  (ign1 = true → ign = true) →
  line_step f n ign p rc l err ign' p'.
Proof.
  intros Hs Hl Hi. inversion Hl; subst;
    try (econstructor; try done; by eapply skips_trans).
  apply ls_tail; try done; [by eapply skips_trans|naive_solver].
Qed.

(** The flags that the application set, and what they mean. *)
Lemma eol_char_mode f g : mode f = mode g → eol_char f = eol_char g.
Proof. intros Hm. unfold eol_char. by rewrite (has_mode f g ZRL_EOL_NUL). Qed.

Lemma line_check_mode f g body e : mode f = mode g → line_check f body e = line_check g body e.
Proof.
  intros Hm. unfold line_check.
  by rewrite (has_mode f g ZRL_EOL_NUL), (has_mode f g ZRL_NUL_NONFATAL), (has_mode f g ZRL_EOL_NL),
    (has_mode f g ZRL_EOL_CRLF), (has_mode f g ZRL_EOL_FATAL).
Qed.

Lemma tail_check_mode f g l : mode f = mode g → tail_check f l = tail_check g l.
Proof.
  intros Hm. unfold tail_check. by rewrite (has_mode f g ZRL_EOL_NUL), (has_mode f g ZRL_NUL_NONFATAL).
Qed.

Lemma line_shown_mode f g body e : mode f = mode g → line_shown f body e = line_shown g body e.
Proof.
  intros Hm. unfold line_shown.
  by rewrite (has_mode f g ZRL_RETURN_EOL), (has_mode f g ZRL_EOL_NUL), (has_mode f g ZRL_EOL_NL),
    (has_mode f g ZRL_EOL_CRLF).
Qed.

(** What a result points to. *)
Definition shows (s : ZStreamLine) (o : line_out) (l : list Z) : Prop :=
  o_length o = zlen l ∧ (l = [] ∨ line_bytes s o = Done l).

Lemma shows_bytes s s' o l :
  line_bytes s o = Done l → o_line o ≠ None → buffer s' = buffer s → shows s' o l.
Proof.
  unfold shows, line_bytes. intros H Ho Hb. destruct (o_line o); [|done]. rewrite Hb.
  pose proof (load_range_length _ _ _ _ H). auto.
Qed.

(** Advancing over an ended line. *)
Lemma adv_line s body rest e :
  line_wf s → e = eol_char (flags s) → buffered s = body ++ e :: rest →
  line_wf (adv s (zlen body + 1)) ∧ buffered (adv s (zlen body + 1)) = rest ∧
  pos (adv s (zlen body + 1)) ≠ 0.
Proof.
  intros Hw He Hb. replace (zlen body + 1) with (zlen (body ++ [e])) by (rewrite length_app; cbn; lia).
  pose proof (wf_pos s Hw).
  destruct (adv_wf s (body ++ [e]) rest Hw) as [H1 H2].
  - by rewrite <- app_assoc.
  - by intros [_ ?]%app_eq_nil.
  - rewrite last_snoc. unfold eol_char in He. destruct (has _ _); subst e; congruence.
  - split; [done|]. split; [done|]. cbn [adv set_window pos]. rewrite length_app. cbn [length]. lia.
Qed.

(** The window does not depend on the flags. *)
Lemma set_flags_wf s f : line_wf s → line_wf (set_flags s f).
Proof. intros []. by split. Qed.

Lemma split_first (e : Z) l : e ∈ l → ∃ body rest, l = body ++ e :: rest ∧ e ∉ body.
Proof. apply list_elem_of_split_l. Qed.

Lemma take_line_S n s o :
  take_line (S n) s o =
  ('(rc, s, o, err) ← z_stream_line_get_from_buf s o;
   if bool_decide (rc = G_IO_STATUS_NORMAL) && has (flags s) ZRL_IGNORE_TILL_EOL
   then take_line n (set_flags s (clear_flag (flags s) ZRL_IGNORE_TILL_EOL)) o
   else Done (rc, s, o, err)).
Proof. reflexivity. Qed.

Lemma take_line_0 s o :
  take_line 0 s o =
  ('(rc, s, o, err) ← z_stream_line_get_from_buf s o;
   if bool_decide (rc = G_IO_STATUS_NORMAL) && has (flags s) ZRL_IGNORE_TILL_EOL
   then Fault OutOfFuel else Done (rc, s, o, err)).
Proof. reflexivity. Qed.

(** What take_line leaves, by status. *)
Definition took (s : ZStreamLine) (o : line_out) (rc : GIOStatus) (s' : ZStreamLine) (o' : line_out)
    (err : option line_error) : Prop :=
  let e := eol_char (flags s) in
  let ign := has (flags s) ZRL_IGNORE_TILL_EOL in
  let ign' := has (flags s') ZRL_IGNORE_TILL_EOL in
  match rc with
  | G_IO_STATUS_NORMAL =>
      err = None ∧ ign' = false ∧ ∃ body, skips e ign (buffered s) false (body ++ e :: buffered s') ∧
        e ∉ body ∧ line_check (flags s) body e = None ∧ shows s' o' (line_shown (flags s) body e)
  | G_IO_STATUS_AGAIN =>
      err = None ∧ skips e ign (buffered s) ign' (buffered s') ∧ (ign = ign' ∨ e ∈ buffered s) ∧
        e ∉ buffered s' ∧ pos s' = 0 ∧ (o_length o = 0 → o_length o' = 0)
  | G_IO_STATUS_ERROR =>
      ∃ body x, err = Some x ∧ skips e ign (buffered s) ign' (body ++ e :: buffered s') ∧
        e ∉ body ∧ line_check (flags s) body e = Some x
  | G_IO_STATUS_EOF => False
  end.

Lemma take_line_once s o :
  line_wf s → has (flags s) ZRL_EOF = false → has (flags s) ZRL_IGNORE_TILL_EOL = false →
  (o_length o = 0 ∨ pos s ≠ 0) →
  ∃ rc s' o' err, (∀ fuel, take_line fuel s o = Done (rc, s', o', err)) ∧
    line_wf s' ∧ flags s' = flags s ∧ same_conf s s' ∧ took s (mkOut None 0) rc s' o' err.
Proof.
  intros Hw Heof Hign Ho. set (e := eol_char (flags s)).
  destruct (decide (e ∈ buffered s)) as [Hin|Hout].
  - destruct (split_first e (buffered s) Hin) as (body & rest & Hb & Hnb).
    destruct (get_from_buf_line s o body rest e Hw Heof eq_refl Hb Hnb) as (len & Hg & Hsh).
    destruct (adv_line s body rest e Hw eq_refl Hb) as (Hw' & Hb' & _).
    eexists _, _, _, _. split; [|split; [exact Hw'|]].
    { intros fuel. destruct fuel; cbn [take_line]; rewrite Hg, Done_bind; cbn [adv flags set_window];
        rewrite Hign, andb_false_r; reflexivity. }
    split; [done|]. split; [by split|]. unfold took. rewrite Hb', Hign.
    replace (has (flags (adv s _)) ZRL_IGNORE_TILL_EOL) with false by (by cbn).
    destruct (line_check (flags s) body e) as [x|] eqn:Ec.
    + exists body, x. rewrite Hb. split_and!; try done. constructor.
    + split; [done|]. split; [done|]. exists body. rewrite Hb. split; [constructor|]. split; [done|]. split; [done|].
      apply (shows_bytes s); [by apply Hsh|done|done].
  - destruct (get_from_buf_more s o Hw Heof Hout) as (s' & o' & Hg & Hw' & Hb' & Hp & Hf & Hc & Hol).
    exists G_IO_STATUS_AGAIN, s', o', None. split.
    { intros fuel. destruct fuel; cbn [take_line]; by rewrite Hg, Done_bind. }
    split; [done|]. split; [done|]. split; [done|]. unfold took. rewrite Hf, Hb', Hign.
    split; [done|]. split; [constructor|]. split; [by left|]. split; [done|]. split; [done|]. auto.
Qed.

Lemma take_line_ok s o :
  line_wf s → has (flags s) ZRL_EOF = false → o_length o = 0 →
  ∃ rc s' o' err, take_line 1 s o = Done (rc, s', o', err) ∧
    line_wf s' ∧ mode (flags s') = mode (flags s) ∧ has (flags s') ZRL_EOF = false ∧
    has (flags s') ZRL_ERROR = has (flags s) ZRL_ERROR ∧ same_conf s s' ∧
    (has (flags s) ZRL_IGNORE_TILL_EOL = false → has (flags s') ZRL_IGNORE_TILL_EOL = false) ∧
    took s o rc s' o' err.
Proof.
  intros Hw Heof Ho. set (e := eol_char (flags s)).
  destruct (has (flags s) ZRL_IGNORE_TILL_EOL) eqn:Hign.
  2: { destruct (take_line_once s o Hw Heof Hign) as (rc & s' & o' & err & Ht & Hw' & Hf & Hc & Htk); [by left|].
       exists rc, s', o', err. rewrite Ht, Hf. split_and!; try done; try by rewrite Hign.
       all: try apply Hc.
       unfold took in *. destruct rc; try done. rewrite ?Hf in *. destruct Htk as (?&?&?&?&?&?); split_and!; auto. }
  destruct (decide (e ∈ buffered s)) as [Hin|Hout].
  - destruct (split_first e (buffered s) Hin) as (junk & rest & Hb & Hnj).
    destruct (get_from_buf_line s o junk rest e Hw Heof eq_refl Hb Hnj) as (len & Hg & _).
    destruct (adv_line s junk rest e Hw eq_refl Hb) as (Hw1 & Hb1 & Hp1).
    rewrite take_line_S, Hg, Done_bind. cbn [adv flags set_window]. rewrite Hign, andb_true_r.
    destruct (line_check (flags s) junk e) as [x|] eqn:Ec.
    { rewrite bool_decide_false by done. eexists _, _, _, _. split; [done|]. fold (adv s (zlen junk + 1)).
      split; [done|]. cbn [adv flags set_window]. split_and!; try done; try (by rewrite Hign).
      unfold took. cbn [adv flags set_window]. exists junk, x. fold (adv s (zlen junk + 1)).
      rewrite Hb1, Hb, Hign. split_and!; try done. constructor. }
    rewrite bool_decide_true by done. fold (adv s (zlen junk + 1)).
    set (s1 := set_flags (adv s (zlen junk + 1)) _).
    assert (Hf1 : flags s1 = clear_flag (flags s) ZRL_IGNORE_TILL_EOL) by done.
    assert (Hm1 : mode (flags s1) = mode (flags s)) by (rewrite Hf1; by flag_simpl).
    destruct (take_line_once s1 (mkOut (Some (pos s)) len)) as (rc & s' & o' & err & Ht & Hw' & Hf & Hc & Htk).
    { by apply set_flags_wf. } { rewrite Hf1. by flag_simpl. } { rewrite Hf1. by flag_simpl. } { by right. }
    exists rc, s', o', err. rewrite Ht, Hf. split_and!; try done.
    { rewrite Hf1. by flag_simpl. } { rewrite Hf1. by flag_simpl. }
    all: try apply Hc.
    unfold took in Htk |- *.
    assert (Hi1 : has (flags s1) ZRL_IGNORE_TILL_EOL = false) by (rewrite Hf1; by flag_simpl).
    assert (Hi' : has (flags s') ZRL_IGNORE_TILL_EOL = false) by by rewrite Hf.
    rewrite (eol_char_mode _ _ Hm1) in Htk. fold e in Htk |- *. change (buffered s1) with (buffered (adv s (zlen junk + 1))) in Htk.
    rewrite Hi1, Hi', Hb1 in Htk. rewrite Hi', Hign, Hb.
    assert (Hsk : skips e true (junk ++ e :: rest) false rest) by by constructor.
    destruct rc; try done.
    + destruct Htk as (body & x & -> & Hs2 & Hnb & Hck). exists body, x.
      rewrite (line_check_mode _ _ _ _ Hm1) in Hck. split_and!; try done. by eapply skips_trans.
    + destruct Htk as (-> & _ & body & Hs2 & Hnb & Hck & Hsh).
      rewrite (line_check_mode _ _ _ _ Hm1) in Hck. rewrite (line_shown_mode _ _ _ _ Hm1) in Hsh.
      split; [done|]. split; [done|]. exists body. split_and!; try done. by eapply skips_trans.
    + destruct Htk as (-> & Hs2 & _ & Hn2 & Hp & Hol).
      split; [done|]. split; [by eapply skips_trans|]. split; [right; set_solver|].
      split_and!; try done. intros _. by apply Hol.
  - destruct (get_from_buf_more s o Hw Heof Hout) as (s' & o' & Hg & Hw' & Hb' & Hp & Hf & Hc & Hol).
    rewrite take_line_S, Hg, Done_bind. cbn [bool_decide andb].
    eexists _, _, _, _. split; [done|]. rewrite Hf. split_and!; try done; try apply Hc.
    unfold took. rewrite Hf, Hb', Hign. split; [done|]. split; [constructor|]. split; [by left|].
    split_and!; try done. auto.
Qed.

(** At the end of the file the buffer is the last line. *)
Lemma take_line_eof s o :
  line_wf s → has (flags s) ZRL_EOF = true →
  let ign := has (flags s) ZRL_IGNORE_TILL_EOL in
  ∃ rc s' o' err, take_line 1 s o = Done (rc, s', o', err) ∧
    line_wf s' ∧ buffered s' = [] ∧ mode (flags s') = mode (flags s) ∧ same_conf s s' ∧
    match tail_check (flags s) (buffered s) with
    | Some x => rc = G_IO_STATUS_ERROR ∧ err = Some x ∧ has (flags s') ZRL_IGNORE_TILL_EOL = ign
    | None => rc = G_IO_STATUS_NORMAL ∧ err = None ∧ has (flags s') ZRL_IGNORE_TILL_EOL = false ∧
              shows s' o' (if ign then [] else buffered s)
    end.
Proof.
  intros Hw Heof ign. destruct (get_from_buf_eof s o Hw Heof) as (len & Hg & Hsh).
  destruct (adv_all_wf s Hw) as [Hw1 Hb1]. rewrite take_line_S, Hg, Done_bind. cbn [adv flags set_window].
  fold ign. destruct (tail_check (flags s) (buffered s)) as [x|] eqn:Ec.
  { rewrite bool_decide_false by done. eexists _, _, _, _. split; [done|]. fold (adv s (zlen (buffered s))).
    split_and!; try done. }
  rewrite bool_decide_true by done. cbn [andb]. fold (adv s (zlen (buffered s))).
  destruct ign eqn:Eign.
  - set (s1 := set_flags (adv s (zlen (buffered s))) _).
    assert (Hf1 : flags s1 = clear_flag (flags s) ZRL_IGNORE_TILL_EOL) by done.
    assert (Hw2 : line_wf s1) by by apply set_flags_wf.
    assert (Hb2 : buffered s1 = []) by done.
    destruct (get_from_buf_eof s1 (mkOut (Some (pos s)) len) Hw2) as (len2 & Hg2 & Hsh2).
    { rewrite Hf1. by flag_simpl. }
    assert (Htc : tail_check (flags s1) (buffered s1) = None).
    { rewrite Hb2. unfold tail_check. rewrite bool_decide_false by set_solver. by rewrite andb_false_r. }
    rewrite take_line_0, Hg2, Done_bind, Htc. cbn [adv flags set_window].
    assert (Hi : has (flags s1) ZRL_IGNORE_TILL_EOL = false) by (rewrite Hf1; by flag_simpl).
    rewrite Hi, andb_false_r. eexists _, _, _, _. split; [done|].
    destruct (adv_all_wf s1 Hw2) as [Hw3 Hb3]. split; [done|]. split; [done|].
    split; [cbn [adv flags set_window]; rewrite Hf1; by flag_simpl|].
    split; [done|]. split_and!; try done. rewrite Hb2 in Hsh2. by apply (shows_bytes s1).
  - eexists _, _, _, _. split; [done|]. split_and!; try done. by apply (shows_bytes s).
Qed.

Lemma line_step_mode f g n ign p rc l err ign' p' :
  mode f = mode g → line_step f n ign p rc l err ign' p' → line_step g n ign p rc l err ign' p'.
Proof.
  intros Hm H. pose proof (eol_char_mode f g Hm) as He.
  inversion H as [body rest H1 H2 H3|? H1 H2 H3|? ? H1 H2 H3 H4|? ? H1 H2 H3 H4 H5|? ? H1|? H1
                 |? ? ? ? ? H1 H2 H3|? ? ? ? H1 H2|? ? H1 H2 H3 H4 H5|]; subst; rewrite ?He in *;
    rewrite ?(line_check_mode f g _ _ Hm), ?(tail_check_mode f g _ Hm),
      ?(has_mode f g ZRL_TRUNCATE ltac:(done) Hm), ?(has_mode f g ZRL_SPLIT ltac:(done) Hm) in *.
  - rewrite (line_shown_mode f g _ _ Hm). by apply ls_line.
  - by apply ls_tail.
  - by apply ls_truncate.
  - by apply ls_split.
  - by apply ls_again.
  - by apply ls_eof.
  - by eapply ls_refused.
  - by eapply ls_refused_tail.
  - by apply ls_too_long.
  - apply ls_child.
Qed.

Lemma count_recvd_wf s n : line_wf s → line_wf (count_recvd s n).
Proof. intros []. by split. Qed.

Lemma empty_window_wf s : line_wf s → line_wf (set_window s (buffer s) 0 0 0).
Proof. intros []. split; cbn [set_window pos end_ bufsize buffer]; (done || lia). Qed.

Lemma full_buffered s : line_wf s → pos s = 0 → end_ s = bufsize s → buffered s = buffer s.
Proof.
  intros [] Hp He. unfold buffered. rewrite Hp, He. change (Z.to_nat 0) with 0%nat. rewrite drop_0.
  apply take_ge. lia.
Qed.

(** Appending the bytes of a read. *)
Lemma window_append s l :
  line_wf s → pos s = 0 → end_ s + zlen l ≤ bufsize s →
  ∃ b, store_range (buffer s) (end_ s) l = Done b ∧
    let s1 := set_window s b (pos s) (u64 (end_ s + zlen l)) (oldpos s) in
    line_wf s1 ∧ buffered s1 = buffered s ++ l.
Proof.
  intros Hw Hp0 Hl. pose proof Hw as [Hp He Hs Hb Hc].
  rewrite store_range_ok by lia. eexists. split; [done|]. cbn zeta.
  rewrite u64_small by lia. split.
  - split; cbn [set_window pos end_ bufsize buffer]; try lia.
    rewrite !length_app, length_take, length_drop. lia.
  - unfold buffered. cbn [set_window pos end_ buffer]. rewrite Hp0.
    change (Z.to_nat 0) with 0%nat. rewrite !drop_0. rewrite !Z.sub_0_r.
    rewrite app_assoc, take_app_le by (rewrite length_app, length_take; lia).
    rewrite take_ge; [done|]. rewrite length_app, length_take. lia.
Qed.

Section Refinement.
Context {C : Type} `{ZStreamLaws C}.

(** The promise of a call that starts in [s] and [c]. *)
Definition call_ok (s : ZStreamLine) (c : C)
    (r : outcome (GIOStatus * ZStreamLine * C * line_out * option line_error)) : Prop :=
  ∃ rc s' c' o' err shown, r = Done (rc, s', c', o', err) ∧
    line_wf s' ∧ mode (flags s') = mode (flags s) ∧ same_conf s s' ∧
    line_step (flags s) (bufsize s) (has (flags s) ZRL_IGNORE_TILL_EOL) (buffered s ++ to_come c)
      rc shown err (has (flags s') ZRL_IGNORE_TILL_EOL) (buffered s' ++ to_come c') ∧
    (rc ≠ G_IO_STATUS_ERROR → shows s' o' shown ∧
       (has (flags s') ZRL_IGNORE_TILL_EOL = true → eol_char (flags s') ∉ buffered s')).

(** Work done before, that only dropped bytes to be ignored. *)
Lemma call_ok_before s c s1 c1 r :
  mode (flags s1) = mode (flags s) → same_conf s s1 →
  skips (eol_char (flags s)) (has (flags s) ZRL_IGNORE_TILL_EOL) (buffered s ++ to_come c)
    (has (flags s1) ZRL_IGNORE_TILL_EOL) (buffered s1 ++ to_come c1) →
  (has (flags s1) ZRL_IGNORE_TILL_EOL = true → has (flags s) ZRL_IGNORE_TILL_EOL = true) →
  call_ok s1 c1 r → call_ok s c r.
Proof.
  intros Hm [Hc1 Hc2] Hs Hi (rc & s' & c' & o' & err & shown & -> & Hw & Hm' & [Hd1 Hd2] & Hl & Hsh).
  exists rc, s', c', o', err, shown. split; [done|]. split; [done|]. split; [congruence|].
  split; [split; congruence|]. split; [|done].
  eapply line_step_skips; [exact Hs| |done]. rewrite <- Hc1. by apply (line_step_mode (flags s1)).
Qed.

Lemma full_buffer_ok s c :
  line_wf s → pos s = 0 → eol_char (flags s) ∉ buffered s → has (flags s) ZRL_EOF = false →
  match (if u64 (bufsize s - end_ s) =? 0 then full_buffer s c else inl s) with
  | inr r => call_ok s c (Done r)
  | inl s1 =>
      line_wf s1 ∧ flags s1 = flags s ∧ same_conf s s1 ∧ pos s1 = 0 ∧ end_ s1 < bufsize s1 ∧
      eol_char (flags s1) ∉ buffered s1 ∧
      skips (eol_char (flags s)) (has (flags s) ZRL_IGNORE_TILL_EOL) (buffered s ++ to_come c)
        (has (flags s) ZRL_IGNORE_TILL_EOL) (buffered s1 ++ to_come c)
  end.
Proof.
  intros Hw Hp Hn Heof. pose proof Hw as [Hps He Hs Hb _].
  assert (Hwe := empty_window_wf s Hw).
  rewrite u64_small by lia. destruct (Z.eqb_spec (bufsize s - end_ s) 0) as [E|E].
  2: { split; [done|]. split; [done|]. split; [done|]. split; [done|]. split; [lia|]. split; [done|]. constructor. }
  pose proof (full_buffered s Hw Hp ltac:(lia)) as Hfull.
  assert (Hlen : zlen (buffered s) = bufsize s) by (rewrite Hfull; lia).
  assert (Hall : load_range (buffer s) 0 (bufsize s) = Done (buffered s))
    by (rewrite load_range_ok by lia; rewrite Hfull; change (Z.to_nat 0) with 0%nat;
        rewrite drop_0, take_ge by lia; done).
  unfold full_buffer. destruct (has (flags s) ZRL_IGNORE_TILL_EOL) eqn:Ei.
  { cbn [set_window flags pos end_ bufsize]. split; [done|]. split; [done|]. split; [done|]. split; [done|].
    split; [lia|]. split; [apply not_elem_of_nil|]. cbn [app buffered]. by constructor. }
  destruct (has (flags s) ZRL_TRUNCATE) eqn:Et; [|destruct (has (flags s) ZRL_SPLIT) eqn:Es].
  - eexists _, _, _, _, _, (buffered s). split; [reflexivity|].
    split; [by apply set_flags_wf, (empty_window_wf (count_recvd s _)), count_recvd_wf|].
    cbn [flags set_flags set_window count_recvd]. split; [by flag_simpl|]. split; [done|].
    assert (Hi : has (set_flag (flags s) ZRL_IGNORE_TILL_EOL) ZRL_IGNORE_TILL_EOL = true) by by flag_simpl.
    rewrite Ei, Hi. split.
    + cbn [buffered app]. apply ls_truncate; try done. constructor.
    + intros _. split; [|intros _; apply not_elem_of_nil]. split; [done|]. right.
      unfold line_bytes. cbn [o_line o_length bufsize buffer set_flags set_window count_recvd]. done.
  - eexists _, _, _, _, _, (buffered s). split; [reflexivity|].
    split; [by apply (empty_window_wf (count_recvd s _)), count_recvd_wf|].
    cbn [flags set_window count_recvd]. split; [done|]. split; [done|]. rewrite Ei. split.
    + cbn [buffered app]. apply ls_split; try done. constructor.
    + intros _. split; [|done]. split; [done|]. right.
      unfold line_bytes. cbn [o_line o_length bufsize buffer set_flags set_window count_recvd]. done.
  - eexists _, _, _, _, _, []. split; [reflexivity|]. split; [by apply set_flags_wf|].
    cbn [flags set_flags]. split; [by flag_simpl|]. split; [done|]. split; [|done].
    assert (Hi : has (set_flag (flags s) ZRL_ERROR) ZRL_IGNORE_TILL_EOL = false) by by flag_simpl.
    rewrite Ei, Hi. change (buffered (set_flags s _)) with (buffered s).
    apply ls_too_long; try done. constructor.
Qed.

(** Behind a read: the line is returned, refused, or not complete. *)
Lemma took_ok s c o rc s' o' err :
  line_wf s → o_length o = 0 →
  line_wf s' → mode (flags s') = mode (flags s) → same_conf s s' →
  (has (flags s) ZRL_IGNORE_TILL_EOL = false → has (flags s') ZRL_IGNORE_TILL_EOL = false) →
  took s o rc s' o' err →
  match rc with
  | G_IO_STATUS_NORMAL => call_ok s c (Done (rc, count_recvd s' (o_length o'), c, o', None))
  | G_IO_STATUS_AGAIN =>
      call_ok s c (Done (rc, s', c, no_line, None)) ∧
      (∀ r, call_ok s' c r → call_ok s c r)
  | _ => call_ok s c (Done (rc, s', c, no_line, err))
  end.
Proof.
  intros Hw Ho Hw' Hm [Hc1 Hc2] Hi Htk. unfold took in Htk.
  set (e := eol_char (flags s)) in *. set (ign := has (flags s) ZRL_IGNORE_TILL_EOL) in *.
  destruct rc; try done.
  - destruct Htk as (body & x & -> & Hs & Hnb & Hck). eexists _, _, _, _, _, []. split; [reflexivity|].
    split; [done|]. split; [done|]. split; [done|]. split; [|done].
    eapply ls_refused; [|done|exact Hck]. change (eol_char (flags s)) with e.
    replace (body ++ e :: buffered s' ++ to_come c) with ((body ++ e :: buffered s') ++ to_come c) by by rewrite <- app_assoc.
    apply skips_app; [done|]. right. left. by intros [_ ?]%app_eq_nil.
  - destruct Htk as (-> & Hi' & body & Hs & Hnb & Hck & Hsh). eexists _, _, _, _, _, _. split; [reflexivity|].
    split; [by apply count_recvd_wf|]. split; [done|]. split; [done|]. cbn [flags count_recvd]. split.
    + rewrite Hi'. change (buffered (count_recvd s' _)) with (buffered s'). apply ls_line; [|done|done].
      replace (body ++ eol_char (flags s) :: buffered s' ++ to_come c)
        with ((body ++ e :: buffered s') ++ to_come c) by by rewrite <- app_assoc.
      apply skips_app; [done|]. right. left. by intros [_ ?]%app_eq_nil.
    + rewrite Hi'. done.
  - destruct Htk as (-> & Hs & Hside & Hn & Hp & Hol).
    assert (Hs' : skips e ign (buffered s ++ to_come c) (has (flags s') ZRL_IGNORE_TILL_EOL)
                    (buffered s' ++ to_come c)) by (apply skips_app; naive_solver).
    split.
    + eexists _, _, _, _, _, []. split; [reflexivity|]. split; [done|]. split; [done|]. split; [done|]. split.
      * by apply ls_again.
      * intros _. split; [split; [done|by left]|]. intros _. by rewrite (eol_char_mode _ _ Hm).
    + intros r. apply call_ok_before; try done. fold ign. destruct ign; [done|]. by rewrite Hi.
Qed.

Lemma get_loop_ok fuel : ∀ s c o,
  line_wf s → has (flags s) ZRL_EOF = false → pos s = 0 → o_length o = 0 →
  eol_char (flags s) ∉ buffered s → (length (to_come c) < fuel)%nat →
  call_ok s c (get_loop fuel s c o).
Proof.
  induction fuel as [|fuel IH]; intros s c o Hw Heof Hp Ho Hn Hf; [lia|]. cbn [get_loop].
  pose proof (full_buffer_ok s c Hw Hp Hn Heof) as Hfb.
  destruct (if u64 (bufsize s - end_ s) =? 0 then full_buffer s c else inl s) as [s1|r]; [|done].
  destruct Hfb as (Hw1 & Hf1 & Hc1 & Hp1 & Hroom & Hn1 & Hs1).
  apply (call_ok_before s c s1 c); [by rewrite Hf1|done|by rewrite Hf1|by rewrite Hf1|].
  pose proof Hw1 as [Hps1 He1 Hsz1 Hb1 _].
  rewrite (u64_small (bufsize s1 - end_ s1)) by lia. rewrite <- Hf1 in Heof. clear Hw Hp Hn Hs1.
  destruct (child_read c (timeout s1) (bufsize s1 - end_ s1)) as [[rc data] c1] eqn:Hrd.
  destruct rc.
  - (* error *)
    eexists _, _, _, _, _, []. split; [reflexivity|]. split; [by apply set_flags_wf|].
    cbn [flags set_flags]. split; [by flag_simpl|]. split; [done|]. split; [apply ls_child|done].
  - (* data *)
    destruct (read_normal c (timeout s1) (bufsize s1 - end_ s1) data c1 ltac:(lia) Hrd) as (Hne & Hlen & Hcome).
    destruct (window_append s1 data Hw1 Hp1) as (b & Hst & Hw2 & Hb2); [lia|]. cbn zeta in Hw2, Hb2.
    rewrite Hst, Done_bind. set (s2 := set_window s1 b _ _ _) in *.
    apply (call_ok_before s1 c s2 c1); [done|done| |done|].
    { rewrite Hb2, <- app_assoc, <- Hcome. constructor. }
    destruct (take_line_ok s2 o Hw2 Heof Ho) as (rc & s' & o' & err & Ht & Hw' & Hm' & Heof' & _ & Hc' & Hi' & Htk).
    rewrite Ht, Done_bind. pose proof (took_ok s2 c1 o rc s' o' err Hw2 Ho Hw' Hm' Hc' Hi' Htk) as Hr.
    destruct rc; try done. destruct (has (flags s') ZRL_SINGLE_READ); [apply (proj1 Hr)|]. apply (proj2 Hr).
    destruct Htk as (_ & _ & _ & Hn' & Hp' & Hol).
    apply IH; try done; [by apply Hol|by rewrite (eol_char_mode _ _ Hm')|].
    rewrite Hcome, length_app in Hf. destruct data; [done|cbn in Hf; lia].
  - (* end of file *)
    destruct (read_eof _ _ _ _ _ Hrd) as [Hcome Hcome1]. rewrite Heof, Hp1. cbn [orb].
    destruct (Z.eqb_spec 0 (end_ s1)) as [E|E].
    + assert (Hb0 : buffered s1 = []) by (unfold buffered; by rewrite Hp1, <- E).
      eexists _, _, _, _, _, []. split; [reflexivity|]. split; [done|]. split; [done|]. split; [done|].
      rewrite Hcome, Hcome1, Hb0. split; [apply ls_eof; constructor|]. intros _.
      split; [split; [done|by left]|]. intros _. apply not_elem_of_nil.
    + set (s2 := set_flags s1 _).
      assert (Hf2 : flags s2 = set_flag (flags s1) ZRL_EOF) by done.
      assert (Hm2 : mode (flags s2) = mode (flags s1)) by (rewrite Hf2; by flag_simpl).
      assert (Hi2 : has (flags s2) ZRL_IGNORE_TILL_EOL = has (flags s1) ZRL_IGNORE_TILL_EOL)
        by (rewrite Hf2; by flag_simpl).
      assert (Hb2 : buffered s2 = buffered s1) by done.
      apply (call_ok_before s1 c s2 c); [done|done|rewrite Hi2, Hb2; constructor|by rewrite Hi2|].
      destruct (take_line_eof s2 o) as (rc & s' & o' & err & Ht & Hw' & Hb' & Hm' & Hc' & Hr).
      { by apply set_flags_wf. } { rewrite Hf2. by flag_simpl. }
      rewrite Ht, Done_bind.
      assert (Hne : buffered s2 ≠ []).
      { intros Hnil. pose proof (buffered_length s1 Hw1) as Hl. rewrite <- Hb2, Hnil in Hl. cbn in Hl. lia. }
      assert (Hn2 : eol_char (flags s2) ∉ buffered s2) by (rewrite (eol_char_mode _ _ Hm2); by rewrite Hb2).
      destruct (tail_check (flags s2) (buffered s2)) as [x|] eqn:Ec.
      * destruct Hr as (-> & -> & Hi'). eexists _, _, _, _, _, []. split; [reflexivity|].
        split; [done|]. split; [done|]. split; [done|]. split; [|done].
        rewrite Hcome, Hcome1, Hb', Hi', !app_nil_r. eapply ls_refused_tail; [constructor|done].
      * destruct Hr as (-> & -> & Hi' & Hsh). eexists _, _, _, _, _, _. split; [reflexivity|].
        split; [by apply count_recvd_wf|]. split; [done|]. split; [done|]. cbn [flags count_recvd].
        rewrite Hcome, Hcome1, Hi'. change (buffered (count_recvd s' _)) with (buffered s').
        rewrite Hb', !app_nil_r. split; [|intros _; by split].
        destruct (has (flags s2) ZRL_IGNORE_TILL_EOL).
        -- apply ls_tail; [by constructor|apply not_elem_of_nil| |done].
           unfold tail_check. rewrite bool_decide_false by apply not_elem_of_nil. by rewrite andb_false_r.
        -- apply ls_tail; [constructor|done|done|done].
  - (* nothing yet *)
    pose proof (read_again _ _ _ _ _ Hrd) as Hcome.
    eexists _, _, _, _, _, []. split; [reflexivity|]. split; [done|]. split; [done|]. split; [done|].
    rewrite Hcome. split; [apply ls_again; constructor|]. intros _. split; [split; [done|by left]|]. done.
Qed.

(** C20: Reading a line refines the specification by the bytes still to be read: from
    any state of the buffer a call of z_stream_line_get ends, stays inside the buffer,
    and returns the next line without its end, the unended last line, the front of a
    line that is longer than the buffer (whose rest is then dropped up to its end, or
    kept), AGAIN or EOF without losing a byte, or one of the errors. *)
Theorem z_stream_line_get_refines (s : ZStreamLine) (c : C) (fuel : nat) :
  line_wf s → has (flags s) ZRL_ERROR = false → has (flags s) ZRL_EOF = false →
  (has (flags s) ZRL_IGNORE_TILL_EOL = true → eol_char (flags s) ∉ buffered s) →
  (length (to_come c) < fuel)%nat →
  ∃ rc s' c' o err shown, z_stream_line_get fuel s c = Done (rc, s', c', o, err) ∧
    line_wf s' ∧ mode (flags s') = mode (flags s) ∧
    line_step (flags s) (bufsize s) (has (flags s) ZRL_IGNORE_TILL_EOL) (buffered s ++ to_come c)
      rc shown err (has (flags s') ZRL_IGNORE_TILL_EOL) (buffered s' ++ to_come c') ∧
    (rc ≠ G_IO_STATUS_ERROR →
       (o_length o = zlen shown ∧ (shown = [] ∨ line_bytes s' o = Done shown)) ∧
       (has (flags s') ZRL_IGNORE_TILL_EOL = true → eol_char (flags s') ∉ buffered s')).
Proof.
  intros Hw Herr Heof Hign Hf.
  cut (call_ok s c (z_stream_line_get fuel s c)).
  { intros (rc & s' & c' & o' & err & shown & Hr & Hw' & Hm & _ & Hl & Hsh).
    by exists rc, s', c', o', err, shown. }
  unfold z_stream_line_get, z_stream_line_get_internal. rewrite Herr, Heof.
  set (s1 := set_child_cond _ 0).
  assert (Hf1 : flags s1 = clear_flag (flags s) ZRL_LINE_AVAIL_SET) by done.
  assert (Hm1 : mode (flags s1) = mode (flags s)) by (rewrite Hf1; by flag_simpl).
  assert (Hi1 : has (flags s1) ZRL_IGNORE_TILL_EOL = has (flags s) ZRL_IGNORE_TILL_EOL)
    by (rewrite Hf1; by flag_simpl).
  assert (Heof1 : has (flags s1) ZRL_EOF = false) by (rewrite Hf1; by flag_simpl).
  assert (Hw1 : line_wf s1) by (destruct Hw; by split).
  assert (Hb1 : buffered s1 = buffered s) by done.
  apply (call_ok_before s c s1 c); [done|done|rewrite Hi1, Hb1; constructor|by rewrite Hi1|].
  rewrite <- Hi1, <- Hb1, <- (eol_char_mode _ _ Hm1) in Hign. clearbody s1.
  destruct (Z.eqb_spec (end_ s1) (pos s1)) as [E|E].
  - assert (Hb0 : buffered s1 = []) by (unfold buffered; rewrite E, Z.sub_diag; by apply take_0).
    set (s2 := set_window s1 _ 0 0 0). assert (Hb2 : buffered s2 = []) by done.
    apply (call_ok_before s1 c s2 c); [done|done|rewrite Hb0, Hb2; constructor|done|].
    apply get_loop_ok; try done; [by apply empty_window_wf|rewrite Hb2; apply not_elem_of_nil].
  - destruct (has (flags s1) ZRL_IGNORE_TILL_EOL) eqn:Ei.
    + (* the buffered end of a long line is not complete *)
      specialize (Hign eq_refl).
      destruct (get_from_buf_more s1 no_line Hw1 Heof1 Hign) as (s' & o' & Hg & Hw' & Hb' & Hp & Hf' & Hc & Hol).
      rewrite Hg, Done_bind. apply (call_ok_before s1 c s' c); try done.
      * by rewrite Hf'.
      * rewrite Hf', Hb'. constructor.
      * apply get_loop_ok; try done; [by rewrite Hf'|]. by rewrite Hf', Hb'.
    + destruct (take_line_once s1 no_line Hw1 Heof1 Ei) as (rc & s' & o' & err & Ht & Hw' & Hf' & Hc & Htk); [by left|].
      assert (Hg : z_stream_line_get_from_buf s1 no_line = Done (rc, s', o', err)).
      { specialize (Ht 0%nat). rewrite take_line_0 in Ht. outcome_inv Ht. destruct x as [[[rc2 s2] o2] err2].
        rewrite Hx. destruct (_ && _); [done|]. done. }
      rewrite Hg, Done_bind.
      pose proof (took_ok s1 c no_line rc s' o' err Hw1 eq_refl Hw' ltac:(by rewrite Hf') Hc
        ltac:(by rewrite Hf') Htk) as Hr.
      destruct rc; try done.
      * (* the error is remembered *)
        destruct Hr as (? & ? & ? & ? & ? & shown & [= <- <- <- <- <-] & ? & ? & ? & Hl & _).
        eexists _, _, _, _, _, shown. split; [reflexivity|]. split; [by apply set_flags_wf|].
        cbn [flags set_flags]. split; [by flag_simpl|]. split; [done|]. split; [|done].
        assert (Hsi : has (set_flag (flags s') ZRL_ERROR) ZRL_IGNORE_TILL_EOL = has (flags s') ZRL_IGNORE_TILL_EOL)
          by by flag_simpl.
        by rewrite Hsi.
      * apply (proj2 Hr). destruct Htk as (_ & _ & _ & Hn' & Hp' & Hol).
        apply get_loop_ok; try done; [by rewrite Hf'|by rewrite Hf'].
Qed.
End Refinement.

(** ** A concrete child

    What the peer does, as a list of events; the end of the list is the end of the
    stream. *)

Inductive event := Chunk (l : list Z) | Nothing | Broken.

Fixpoint script_read (c : list event) (n : Z) : GIOStatus * list Z * list event :=
  match c with
  | [] => (G_IO_STATUS_EOF, [], [])
  | Chunk [] :: c => script_read c n
  | Chunk l :: r =>
      if n <=? 0 then (G_IO_STATUS_AGAIN, [], c)
      else (G_IO_STATUS_NORMAL, take (Z.to_nat n) l, Chunk (drop (Z.to_nat n) l) :: r)
  | Nothing :: c => (G_IO_STATUS_AGAIN, [], c)
  | Broken :: c => (G_IO_STATUS_ERROR, [], c)
  end.

Definition script_to_come (c : list event) : list Z :=
  c ≫= λ ev, match ev with Chunk l => l | _ => [] end.

#[export] Instance script_ops : ZStreamOps (list event) :=
  {| child_read c _ n := script_read c n; to_come := script_to_come |}.

#[export] Instance script_laws : ZStreamLaws (list event).
Proof.
  split; cbn; intros c _ n l c'.
  - intros Hn. induction c as [|[[|x k]| |] c IH]; cbn; try done.
    rewrite (proj2 (Z.leb_gt n 0)) by lia. intros [= <- <-].
    change (script_to_come (Chunk (x :: k) :: c)) with ((x :: k) ++ script_to_come c).
    change (script_to_come (Chunk ?a :: c)) with (a ++ script_to_come c).
    split; [|split].
    + destruct (Z.to_nat n) eqn:E; [lia|done].
    + rewrite length_take. lia.
    + by rewrite app_assoc, take_drop.
  - induction c as [|[[|x k]| |] c IH]; cbn; try done.
    + by intros [= <- <-].
    + by destruct (n <=? 0).
  - induction c as [|[[|x k]| |] c IH]; cbn; try done.
    + by destruct (n <=? 0); intros [=]; subst.
    + by intros [= <- <-].
Qed.

(** The lines that a peer's data gives, until something else than a line comes. *)
Fixpoint read_lines (fuel : nat) (s : ZStreamLine) (c : list event) : outcome (list (list Z) * GIOStatus) :=
  match fuel with
  | O => Fault OutOfFuel
  | S fuel =>
      '(rc, s, c, o, _) ← z_stream_line_get 1000 s c;
      if decide (rc = G_IO_STATUS_NORMAL)
      then l ← line_bytes s o; '(ls, rc) ← read_lines fuel s c; Done (l :: ls, rc)
      else Done ([], rc)
  end.

(** Data as in tests/test_readline.c. *)
Example readline_test :
  read_lines 20 (z_stream_line_new (H := zero_mem) 10 (ZRL_EOL_NL + ZRL_TRUNCATE) 0)
    [Chunk (str "1"); Chunk [10]; Chunk (str "2" ++ 10 :: str "3" ++ [10]); Chunk (str "0123");
     Chunk (str "4567" ++ [10]); Chunk (str "0123456789"); Chunk (str "abc" ++ 10 :: str "Aabc" ++ 10 :: str "abcdef" ++ [10]);
     Chunk (str "tail")] =
  Done ([str "1"; str "2"; str "3"; str "01234567"; str "0123456789"; str "Aabc"; str "abcdef"; str "tail"],
        G_IO_STATUS_EOF).
Proof. by vm_compute. Qed.

Lemma z_stream_line_get_refines_witness :
  let s := z_stream_line_new (H := zero_mem) 8 (ZRL_EOL_CRLF + ZRL_SPLIT) 0 in
  let c := [Chunk (str "QUIT" ++ [13]); Chunk (10 :: str "x")] in
  ∃ rc s' c' o err shown, z_stream_line_get 10 s c = Done (rc, s', c', o, err) ∧
    line_wf s' ∧ mode (flags s') = mode (flags s) ∧
    line_step (flags s) (bufsize s) (has (flags s) ZRL_IGNORE_TILL_EOL) (buffered s ++ to_come c)
      rc shown err (has (flags s') ZRL_IGNORE_TILL_EOL) (buffered s' ++ to_come c') ∧
    (rc ≠ G_IO_STATUS_ERROR →
       (o_length o = zlen shown ∧ (shown = [] ∨ line_bytes s' o = Done shown)) ∧
       (has (flags s') ZRL_IGNORE_TILL_EOL = true → eol_char (flags s') ∉ buffered s')).
Proof.
  intros s c. apply (z_stream_line_get_refines s c 10).
  - split; cbn; try lia; try done.
  - done.
  - done.
  - done.
  - cbn. lia.
Defined.

(** A line end whose carriage return was read as data: the length wraps around. *)
Example line_length_underflow :
  let s := mkLine ZRL_EOL_CRLF (str "a" ++ [13; 10]) 3 0 3 0 0 0 0 in
  ('(_, _, s, c) ← z_stream_line_read_method s (C := list event) [] 2;
   '(rc, _, _, o, _) ← z_stream_line_get 10 s c; Done (rc, o_length o)) =
  Done (G_IO_STATUS_NORMAL, 2 ^ 64 - 1).
Proof. by vm_compute. Qed.

(** ** Ungetting *)

(** Ungetting a packet puts its bytes in front of the bytes to be read, inside the
    buffer, if the free space is larger than the packet, and else changes nothing. *)
Theorem unget_packet_spec (s : ZStreamLine) (data : list Z) :
  line_wf s →
  (zlen data < pos s + (bufsize s - end_ s) ∧
   ∃ s', z_stream_line_unget_packet_method s data = Done (true, s') ∧
     buffered s' = data ++ buffered s ∧ 0 ≤ pos s' ≤ end_ s' ∧ end_ s' ≤ bufsize s' ∧
     zlen (buffer s') = bufsize s' ∧ bufsize s' = bufsize s ∧ flags s' = flags s) ∨
  (pos s + (bufsize s - end_ s) ≤ zlen data ∧
   z_stream_line_unget_packet_method s data = Done (false, s)).
Proof.
  intros Hw. pose proof (buffered_length s Hw) as Hl. pose proof (buffered_load s Hw) as Hld.
  pose proof Hw as [Hp He Hs Hb _].
  unfold z_stream_line_unget_packet_method. rewrite (u64_small (bufsize s - end_ s)), u64_small by lia.
  destruct (Z.ltb_spec (zlen data) (pos s + (bufsize s - end_ s))) as [Hfit|]; [left|right; auto].
  split; [done|]. destruct (Z.ltb_spec (zlen data) (pos s)) as [Hlt|Hge].
  - rewrite store_range_ok, Done_bind by lia. eexists. split; [reflexivity|].
    cbn [set_window pos end_ bufsize buffer flags].
    assert (Hlen : length (take (Z.to_nat (pos s - zlen data)) (buffer s)) = Z.to_nat (pos s - zlen data))
      by (rewrite length_take; lia).
    split; [|split; [lia|split; [lia|split; [|done]]]].
    2: { rewrite !length_app, length_drop, Hlen. lia. }
    unfold buffered at 1. cbn [set_window pos end_ buffer].
    rewrite drop_app_length' by done.
    replace (Z.to_nat (end_ s - (pos s - zlen data))) with (length data + Z.to_nat (end_ s - pos s))%nat by lia.
    rewrite take_app_add. do 2 f_equal. unfold buffered. do 2 f_equal. lia.
  - unfold memmove. rewrite Hld, Done_bind. rewrite store_range_ok, Done_bind by lia.
    rewrite store_range_ok, Done_bind by (rewrite ?length_app, ?length_take, ?length_drop; lia).
    eexists. split; [reflexivity|]. cbn [set_window pos end_ bufsize buffer flags].
    rewrite u64_small by lia. split; [|split; [lia|split; [lia|split; [|done]]]].
    2: { rewrite !length_app, length_take, !length_drop, !length_app, length_take, length_drop. lia. }
    unfold buffered at 1. cbn [set_window pos end_ buffer].
    change (Z.to_nat 0) with 0%nat. rewrite take_0, drop_0. cbn [app plus].
    rewrite drop_app_length' by (rewrite length_take; lia).
    replace (Z.to_nat (end_ s - pos s + zlen data - 0)) with (length data + length (buffered s))%nat by lia.
    rewrite take_app_add. by rewrite take_app_length.
Qed.

Lemma unget_packet_spec_witness :
  let s := mkLine ZRL_EOL_NL (str "0123456789") 10 4 6 0 0 0 0 in
  ∃ s', z_stream_line_unget_packet_method s (str "abcdef") = Done (true, s') ∧
     buffered s' = str "abcdef45".
Proof.
  intros s. destruct (unget_packet_spec s (str "abcdef")) as [[_ (s' & Hu & Hb & _)]|[Hc _]].
  - split; cbn; (lia || done).
  - exists s'. split; [exact Hu|]. rewrite Hb. by vm_compute.
  - exfalso. cbn in Hc. lia.
Defined.

(** A packet that fills the buffer exactly is refused. *)
Example unget_exact_fit :
  let s := mkLine ZRL_EOL_NL (str "0123") 4 2 2 0 0 0 0 in
  z_stream_line_unget_packet_method s (str "wxyz") = Done (false, s).
Proof. by vm_compute. Qed.

(** ** Polling *)

(** While the answer to "is there a line" is not remembered, prepare and check
    agree: they answer whether the application can go on (a complete line, or in
    partial mode any byte, is buffered, or the child has data), and prepare waits for
    the child to become readable exactly if it cannot. *)
Theorem watch_spec (s : ZStreamLine) (w : watch) :
  line_wf s → has (flags s) ZRL_LINE_AVAIL_SET = false →
  let ready := has (child_cond s) G_IO_IN ||
               (if has (flags s) ZRL_POLL_PARTIAL then bool_decide (buffered s ≠ [])
                else bool_decide (eol_char (flags s) ∈ buffered s)) in
  let pri := want_pri w && has (child_cond s) G_IO_PRI in
  (∃ s', z_stream_line_watch_prepare s w =
     Done ((want_read w && ready) || pri, want_read w && negb ready, want_write w, s')) ∧
  (∃ s', z_stream_line_watch_check s w = Done ((want_read w && ready) || pri, s')).
Proof.
  intros Hw Hset ready pri.
  assert (Hempty : z_stream_line_buf_empty s = negb (bool_decide (buffered s ≠ []))).
  { unfold z_stream_line_buf_empty. pose proof (buffered_length s Hw) as Hl. destruct (Z.eqb_spec (pos s) (end_ s)) as [E|E].
    - rewrite bool_decide_false; [done|]. intros Hne. destruct (buffered s); [done|cbn in Hl; lia].
    - rewrite bool_decide_true; [done|]. intros Hnil. rewrite Hnil in Hl. cbn in Hl. lia. }
  assert (Hline : ∃ s1, z_stream_line_have_line s = Done (bool_decide (eol_char (flags s) ∈ buffered s), s1) ∧
                    child_cond s1 = child_cond s).
  { unfold z_stream_line_have_line. rewrite Hset, memchr_window, Done_bind by done.
    refine (ex_intro _ _ (conj (f_equal Done (f_equal2 pair _ eq_refl)) eq_refl)).
    rewrite <- (list_find_elem (eol_char (flags s)) (buffered s) (λ x, pos s + Z.of_nat x.1)).
    destruct (list_find _ _) as [y|]; cbn [fmap option_fmap option_map].
    - rewrite bool_decide_true by done. by flag_simpl.
    - rewrite bool_decide_false by naive_solver. by flag_simpl. }
  destruct Hline as (s1 & Hline & Hcc).
  unfold z_stream_line_watch_prepare, z_stream_line_watch_check, ready, pri.
  destruct (want_read w); [|by split; eexists].
  destruct (has (flags s) ZRL_POLL_PARTIAL).
  - rewrite Hempty. destruct (bool_decide (buffered s ≠ [])), (has (child_cond s) G_IO_IN);
      cbn [negb andb orb]; rewrite ?Done_bind; by split; eexists.
  - rewrite Hline, !Done_bind.
    destruct (bool_decide (eol_char (flags s) ∈ buffered s)), (has (child_cond s) G_IO_IN);
      cbn [negb andb orb]; rewrite ?Done_bind, ?Hcc; by split; eexists.
Qed.

Lemma watch_spec_witness :
  (∃ s', z_stream_line_watch_check (mkLine ZRL_EOL_NL (str "ab" ++ [10; 0]) 4 0 3 0 0 0 0)
           (mkWatch true false false) = Done (true, s')).
Proof.
  refine (proj2 (watch_spec (mkLine ZRL_EOL_NL (str "ab" ++ [10; 0]) 4 0 3 0 0 0 0)
                   (mkWatch true false false) _ _)); [|done].
  split; cbn; (lia || done).
Defined.

(** The remembered answer is not forgotten when a complete line is put back. *)
Example watch_after_unget :
  let s := mkLine ZRL_EOL_NL (str "0123456789") 10 4 6 0 0 0 0 in
  ('(_, s) ← z_stream_line_watch_check s (mkWatch true false false);
   '(_, s) ← z_stream_line_unget_packet_method s (str "ab" ++ [10]);
   '(ret, _) ← z_stream_line_watch_check s (mkWatch true false false);
   Done (ret, bool_decide (10 ∈ buffered s))) = Done (false, true).
Proof. by vm_compute. Qed.

(** ** Control calls *)

(** The options of a line stream: how they are set, how they are read, their flag. *)
Definition line_options : list (Z * Z * Z) :=
  [(ZST_LINE_SET_TRUNCATE, ZST_LINE_GET_TRUNCATE, ZRL_TRUNCATE);
   (ZST_LINE_SET_NUL_NONFATAL, ZST_LINE_GET_NUL_NONFATAL, ZRL_NUL_NONFATAL);
   (ZST_LINE_SET_SPLIT, ZST_LINE_GET_SPLIT, ZRL_SPLIT);
   (ZST_LINE_SET_SINGLE_READ, ZST_LINE_GET_SINGLE_READ, ZRL_SINGLE_READ);
   (ZST_LINE_SET_POLL_PARTIAL, ZST_LINE_GET_POLL_PARTIAL, ZRL_POLL_PARTIAL);
   (ZST_LINE_SET_RETURN_EOL, ZST_LINE_GET_RETURN_EOL, ZRL_RETURN_EOL)].

(** Goes through the options, and evaluates the selector of a call. *)
Ltac option_cases H :=
  unfold line_options in H; repeat (apply elem_of_cons in H as [H|H]);
  [injection H as -> -> ->..|by apply not_elem_of_nil in H].

Ltac eval_tests :=
  cbv zeta; repeat match goal with
    | |- context [Z.eqb ?a ?b] =>
        let v := eval vm_compute in (Z.eqb a b) in change (Z.eqb a b) with v; cbv iota
    end.

(** Setting an option changes what reading it returns and what no other option
    returns; a value of the wrong size is refused; and the options survive being saved
    and restored into another stream, whose state flags stay. *)
Theorem line_options_spec (s : ZStreamLine) (value : Z) :
  (∀ set get flag, (set, get, flag) ∈ line_options →
     (∀ vlen, vlen ≠ 4 → z_stream_line_ctrl_method s set value vlen = CtrlDone false s value) ∧
     ∃ s', z_stream_line_ctrl_method s set value 4 = CtrlDone true s' value ∧
       (∀ set2 get2 flag2 v, (set2, get2, flag2) ∈ line_options →
          z_stream_line_ctrl_method s' get2 v 4 =
          CtrlDone true s' (if decide (flag2 = flag) then (if decide (value = 0) then 0 else 1)
                            else if has (flags s) flag2 then 1 else 0))) ∧
  (∀ t, let t' := z_stream_line_extra_restore_method t (z_stream_line_extra_save_method s) in
     mode (flags t') = mode (flags s) ∧
     ∀ k, mode k = 0 → has (flags t') k = has (flags t) k).
Proof.
  split.
  - intros set get flag Hin. split.
    + intros vlen Hv. apply Z.eqb_neq in Hv.
      assert (Hs : ∀ k, ctrl_set s value vlen k = CtrlDone false s value)
        by (intros k; unfold ctrl_set; by rewrite Hv).
      option_cases Hin; unfold z_stream_line_ctrl_method; eval_tests; by rewrite Hs.
    + exists (set_flags s (if Z.eqb value 0 then clear_flag (flags s) flag else set_flag (flags s) flag)).
      split; [option_cases Hin; reflexivity|].
      intros set2 get2 flag2 v Hin2. set (s' := set_flags s _).
      assert (Hg : z_stream_line_ctrl_method s' get2 v 4 = CtrlDone true s' (if has (flags s') flag2 then 1 else 0))
        by (option_cases Hin2; reflexivity).
      rewrite Hg. f_equal. unfold s'. cbn [flags set_flags].
      assert (Hcase : (if decide (flag2 = flag) then has flag flag2 = true ∧ Z.land (Z.lnot flag) flag2 = 0
                       else has flag flag2 = false ∧ Z.land (Z.lnot flag) flag2 = flag2))
        by (option_cases Hin; option_cases Hin2; by vm_compute).
      destruct (decide (flag2 = flag)); destruct Hcase as [H1 H2];
        destruct (Z.eqb_spec value 0), (decide (value = 0)); try done;
        rewrite ?has_set_same, ?has_set_other, ?has_clear_same, ?has_clear_other by done; done.
  - intros t t'. unfold t', z_stream_line_extra_restore_method, z_stream_line_extra_save_method.
    cbn [flags set_flags]. split.
    + unfold mode. rewrite Z.land_lor_distr_l, <- !Z.land_assoc.
      change (Z.land (Z.lnot ZRL_SAVED_FLAGS_MASK) ZRL_SAVED_FLAGS_MASK) with 0.
      rewrite Z.land_0_r, !Z.land_diag. done.
    + intros k Hk. unfold has. f_equal. f_equal. unfold mode in Hk. rewrite Z.land_comm in Hk.
      rewrite Z.land_lor_distr_l, <- !Z.land_assoc, Hk, !Z.land_0_r, Z.lor_0_r.
      f_equal. apply Z.bits_inj'. intros n Hn. rewrite Z.land_spec, Z.lnot_spec by done.
      pose proof (f_equal (λ x, Z.testbit x n) Hk) as Hb. cbv beta in Hb. rewrite Z.land_spec, Z.bits_0 in Hb.
      destruct (Z.testbit ZRL_SAVED_FLAGS_MASK n), (Z.testbit k n); done.
Qed.

Lemma line_options_spec_witness :
  z_stream_line_ctrl_method (mkLine ZRL_EOL_NL [] 0 0 0 0 0 0 0) ZST_LINE_SET_SPLIT 1 8 =
  CtrlDone false (mkLine ZRL_EOL_NL [] 0 0 0 0 0 0 0) 1.
Proof.
  apply (proj1 (proj1 (line_options_spec (mkLine ZRL_EOL_NL [] 0 0 0 0 0 0 0) 1)
    ZST_LINE_SET_SPLIT ZST_LINE_GET_SPLIT ZRL_SPLIT ltac:(by right; right; left)) 8).
  done.
Defined.
