(* ===== verification/StreamBuf.v ===== *)
(** * Buffered streams (src/src/streambuf.c)

    A ZStreamBuf takes every write at once, keeps the data in a list of packets, and
    hands it to its child when the child can take it.  An error of the child is kept and
    returned by the next write.  The child is a parameter with the promises of
    [ZStreamWriteLaws]; the packets live in a store (PacketStore.v). *)

From S2P Require Import Prelude Heap RefCount PacketBuf PacketStore StreamApi.
Open Scope Z_scope.

Definition MAX_BUF_LEN : Z := 262144.
Definition Z_SBF_IMMED_FLUSH : Z := 0x0001.

Section streambuf.
Context `{FreshMem} {C E : Type} `{ZStreamWriteOps C E}.

(** Errors are never changed, so that a copy of one is the same value. *)
Record ZStreamBuf := mkBuf {
  sb_flags : Z;
  sb_buf_threshold : Z;
  sb_pending_pos : Z;
  sb_flush_error : option E;
  sb_current_size : Z;
  sb_buffers : list nat;         (* the packets, by their numbers *)
  sb_timeout : Z                 (* super.timeout *)
}.

Definition sb_with (pos size : Z) (bufs : list nat) (s : ZStreamBuf) : ZStreamBuf :=
  mkBuf (sb_flags s) (sb_buf_threshold s) pos (sb_flush_error s) size bufs (sb_timeout s).
Definition sb_with_error (e : option E) (s : ZStreamBuf) : ZStreamBuf :=
  mkBuf (sb_flags s) (sb_buf_threshold s) (sb_pending_pos s) e (sb_current_size s)
        (sb_buffers s) (sb_timeout s).

(** The stream with the packets it can see, and its child. *)
Record buf_state := mkBufState { bs_store : store; bs_buf : ZStreamBuf; bs_child : C }.

Definition bs_with_child (c : C) (w : buf_state) : buf_state :=
  mkBufState (bs_store w) (bs_buf w) c.

(** z_stream_buf_new, with what z_stream_buf_set_child does to the child: it is made
    non-blocking.  A threshold that is too large is refused. *)
Definition z_stream_buf_new (c : C) (threshold flags timeout : Z) : option (ZStreamBuf * C) :=
  if threshold <=? MAX_BUF_LEN
  then Some (mkBuf flags threshold 0 None 0 [] timeout, child_set_nonblock c true)
  else None.

Definition z_stream_buf_space_avail_internal (self : ZStreamBuf) : bool :=
  sb_current_size self <? sb_buf_threshold self.

Definition z_stream_buf_space_avail (self : ZStreamBuf) : bool :=
  bool_decide (is_Some (sb_flush_error self)) || z_stream_buf_space_avail_internal self.

(** The loop of z_stream_buf_flush_internal: [i] more calls of the child at most. *)
Fixpoint flush_loop (i : nat) (w : buf_state) : outcome buf_state :=
  let self := bs_buf w in
  match sb_buffers self, i with
  | packet :: rest, S i =>
      p ← pkt_get (bs_store w) packet;
      data ← pkt_tail (bs_store w) packet (sb_pending_pos self);
      let '(res, write_len, local_error, c) := child_write (bs_child w) data in
      match res with
      | G_IO_STATUS_NORMAL =>
          let pos := u64 (sb_pending_pos self + write_len) in
          if pb_length p <=? pos then
            st ← pkt_unref (bs_store w) packet;
            flush_loop i (mkBufState st
              (sb_with 0 (u64 (sb_current_size self - pb_length p)) rest self) c)
          else
            flush_loop i (mkBufState (bs_store w)
              (sb_with pos (sb_current_size self) (sb_buffers self) self) c)
      | G_IO_STATUS_AGAIN => Done (bs_with_child c w)
      | _ => Done (mkBufState (bs_store w) (sb_with_error local_error self) c)
      end
  | _, _ => Done w
  end.

Definition z_stream_buf_flush_internal (w : buf_state) : outcome buf_state := flush_loop 10 w.

(** The packet is kept by the list only if the result is G_IO_STATUS_NORMAL. *)
Definition z_stream_write_packet_internal (w : buf_state) (packet : nat)
    : outcome (GIOStatus * option E * buf_state) :=
  let self := bs_buf w in
  match sb_flush_error self with
  | Some e => Done (G_IO_STATUS_ERROR, Some e, w)
  | None =>
      p ← pkt_get (bs_store w) packet;
      let self := sb_with (sb_pending_pos self) (u64 (sb_current_size self + pb_length p))
                          (sb_buffers self ++ [packet]) self in
      let w := mkBufState (bs_store w) self (bs_child w) in
      w ← (if has (sb_flags self) Z_SBF_IMMED_FLUSH
           then z_stream_buf_flush_internal w else Done w);
      Done (G_IO_STATUS_NORMAL, None, w)
  end.

(** The result with the number of bytes written. *)
Definition z_stream_buf_write_method (w : buf_state) (buf : list Z)
    : outcome (GIOStatus * option Z * option E * buf_state) :=
  let c := child_set_timeout (bs_child w) (sb_timeout (bs_buf w)) in
  '(st, packet) ← pkt_new_copy (bs_store w) buf;
  '(ret, local_error, w) ← z_stream_write_packet_internal (mkBufState st (bs_buf w) c) packet;
  match ret with
  | G_IO_STATUS_NORMAL => Done (G_IO_STATUS_NORMAL, Some (zlen buf), None, w)
  | _ => Done (ret, None, local_error, w)
  end.

Definition bs_with_store (st : store) (w : buf_state) : buf_state :=
  mkBufState st (bs_buf w) (bs_child w).

Definition z_stream_write_packet (w : buf_state) (packet : nat)
    : outcome (GIOStatus * option E * buf_state) :=
  st ← pkt_ref (bs_store w) packet;
  '(res, error, w) ← z_stream_write_packet_internal (bs_with_store st w) packet;
  st ← pkt_unref (bs_store w) packet;
  Done (res, error, bs_with_store st w).

(** What z_stream_write_buf is given: bytes to copy, or a buffer to keep. *)
Inductive write_source := CopyOf (data : list Z) | Keep (buf : ptr) (buflen : Z).

Definition z_stream_write_buf (w : buf_state) (src : write_source)
    : outcome (GIOStatus * option E * buf_state) :=
  '(st, packet) ← match src with
                  | CopyOf data => pkt_new_copy (bs_store w) data
                  | Keep buf buflen => pkt_new_relocate (bs_store w) buf buflen
                  end;
  st ← pkt_ref st packet;
  '(res, error, w) ← z_stream_write_packet_internal (bs_with_store st w) packet;
  st ← pkt_unref (bs_store w) packet;
  Done (res, error, bs_with_store st w).

Definition z_stream_buf_shutdown_method (w : buf_state) (i : Z)
    : outcome (GIOStatus * option E * buf_state) :=
  w ← (if (i =? SHUT_WR) || (i =? SHUT_RDWR) then
         let c := child_set_timeout (bs_child w) (sb_timeout (bs_buf w)) in
         z_stream_buf_flush_internal (bs_with_child (child_set_nonblock c false) w)
       else Done w);
  let '(res, error, c) := child_shutdown (bs_child w) i in
  Done (res, error, bs_with_child c w).

(** The function with which z_stream_ctrl_method is called. *)
Definition z_stream_buf_ctrl_method (function : Z) : Z :=
  let msg := ZST_CTRL_MSG function in
  if (msg =? ZST_CTRL_SET_CALLBACK_READ) || (msg =? ZST_CTRL_SET_CALLBACK_WRITE)
     || (msg =? ZST_CTRL_SET_CALLBACK_PRI) || (msg =? ZST_CTRL_SET_COND_READ)
     || (msg =? ZST_CTRL_SET_COND_WRITE) || (msg =? ZST_CTRL_SET_COND_PRI)
  then function else Z.lor ZST_CTRL_MSG_FORWARD function.

(** The callback for a child that can be written. *)
Definition z_stream_buf_write_callback (w : buf_state) : outcome (bool * buf_state) :=
  w ← z_stream_buf_flush_internal w; Done (true, w).

(** The result, and the conditions set on the child: read, priority, write.  The
    timeout is always set to -1. *)
Definition z_stream_buf_watch_prepare (self : ZStreamBuf) (s : watch) : bool * bool * bool * bool :=
  (want_write s && z_stream_buf_space_avail_internal self,
   want_read s, want_pri s,
   negb (sb_current_size self =? 0) && bool_decide (sb_flush_error self = None)).

Definition z_stream_buf_watch_check (self : ZStreamBuf) (s : watch) : bool :=
  want_write s && z_stream_buf_space_avail_internal self.

(** The write callback of the application is a function of the condition and of user
    data; the stream holds user data for reading and for writing. *)
Definition z_stream_buf_watch_dispatch {U : Type} (s : watch) (write_cb : Z → U → bool)
    (user_data_read user_data_write : U) : bool :=
  if want_write s then write_cb G_IO_OUT user_data_read else true.

(** Reading goes to the child, and so do its read and priority callbacks, which call
    those of the application. *)
Definition z_stream_buf_read_method {R : Type} `{ZStreamOps R} (self : ZStreamBuf) (c : R) (count : Z)
    : GIOStatus * list Z * R := child_read c (sb_timeout self) count.

Definition z_stream_buf_read_callback {U : Type} (read_cb : Z → U → bool) (poll_cond : Z)
    (user_data_read : U) : bool := read_cb poll_cond user_data_read.

Definition z_stream_buf_pri_callback {U : Type} (pri_cb : Z → U → bool) (poll_cond : Z)
    (user_data_pri : U) : bool := pri_cb poll_cond user_data_pri.

(** Freeing: the packets are released. *)
Fixpoint free_buffers (st : store) (bufs : list nat) : outcome store :=
  match bufs with [] => Done st | i :: bufs => st ← pkt_unref st i; free_buffers st bufs end.

Definition z_stream_buf_free_method (w : buf_state) : outcome store :=
  free_buffers (bs_store w) (sb_buffers (bs_buf w)).
End streambuf.
Arguments ZStreamBuf : clear implicits.
Arguments buf_state : clear implicits.

(** ** The invariant

    [A] is what the store holds and [cs] the contents of the packets in the list: they
    are alive and different, the size is their total length, and the position lies
    inside the first one. *)

Section invariant.
Context {C E : Type} `{ZStreamWriteOps C E}.

Definition pos_ok (pos : Z) (cs : list (list Z)) : Prop :=
  match cs with [] => pos = 0 | c :: _ => 0 ≤ pos ∧ (pos = 0 ∨ pos < zlen c) end.

Record buf_ok (w : buf_state C E) (A : gmap nat (Z * list Z)) (cs : list (list Z)) : Prop := {
  ok_store : store_rep (bs_store w) A;
  ok_bufs : Forall2 (alive A) (sb_buffers (bs_buf w)) cs;
  ok_nodup : NoDup (sb_buffers (bs_buf w));
  ok_size : sb_current_size (bs_buf w) = zlen (concat cs);
  ok_bound : zlen (concat cs) < 2 ^ 62;
  ok_pos : pos_ok (sb_pending_pos (bs_buf w)) cs
}.

(** The bytes that wait for the child. *)
Definition pending (w : buf_state C E) (cs : list (list Z)) : list Z :=
  drop (Z.to_nat (sb_pending_pos (bs_buf w))) (concat cs).

(** The settings never change. *)
Definition buf_conf (b : ZStreamBuf E) : Z * Z * Z := (sb_flags b, sb_buf_threshold b, sb_timeout b).

(** [k] packets are gone from the list and released, and the child has taken what is no
    longer pending. *)
Definition flushed (w : buf_state C E) A cs (k : nat) (w' : buf_state C E) : Prop :=
  buf_ok w' (foldl release A (take k (sb_buffers (bs_buf w)))) (drop k cs) ∧
  sb_buffers (bs_buf w') = drop k (sb_buffers (bs_buf w)) ∧
  buf_conf (bs_buf w') = buf_conf (bs_buf w) ∧
  ∃ sent, written (bs_child w') = written (bs_child w) ++ sent ∧
          pending w cs = sent ++ pending w' (drop k cs).

Lemma buf_ok_child w A cs c : buf_ok w A cs → buf_ok (bs_with_child c w) A cs.
Proof. by intros []. Qed.

Lemma buf_ok_error w A cs e c :
  buf_ok w A cs → buf_ok (mkBufState (bs_store w) (sb_with_error e (bs_buf w)) c) A cs.
Proof. by intros []. Qed.

(** A packet that is not in the list can be released or changed. *)
Lemma Forall2_alive_other A A' bufs cs :
  (∀ j, j ∈ bufs → A' !! j = A !! j) → Forall2 (alive A) bufs cs → Forall2 (alive A') bufs cs.
Proof.
  intros HA. induction 1 as [|i c bufs cs (n & Hn & Hb) _ IH]; constructor.
  - exists n. rewrite HA by left. done.
  - apply IH. intros j Hj. apply HA. by right.
Qed.

Lemma pending_cons w A c cs :
  buf_ok w A (c :: cs) →
  pending w (c :: cs) = drop (Z.to_nat (sb_pending_pos (bs_buf w))) c ++ concat cs.
Proof.
  intros Hok. pose proof (ok_pos _ _ _ Hok) as Hp. cbn in Hp.
  unfold pending. cbn [concat]. by rewrite drop_app_le by lia.
Qed.
End invariant.

Section flush.
Context {C E : Type} `{ZStreamWriteLaws C E}.

(** The first packet is finished. *)
Lemma finish_packet_ok (w : buf_state C E) A c cs packet rest st :
  buf_ok w A (c :: cs) → sb_buffers (bs_buf w) = packet :: rest →
  store_rep st (release A packet) → ∀ c' : C,
  buf_ok (mkBufState st
    (sb_with 0 (u64 (sb_current_size (bs_buf w) - zlen c)) rest (bs_buf w)) c')
    (release A packet) cs.
Proof.
  intros Hok Hb Hst c'. destruct Hok as [Hs Hbufs Hnd Hsz Hbd Hp]. rewrite Hb in *.
  apply NoDup_cons in Hnd as [Hni Hnd]. inversion Hbufs as [|? ? ? ? Hal Hrest]; subst.
  cbn [concat] in *. rewrite length_app in *. split; cbn; try done.
  - eapply Forall2_alive_other; [|done]. intros j Hj. apply release_other. congruence.
  - rewrite Hsz, u64_small by lia. lia.
  - lia.
  - destruct cs; cbn; [done|lia].
Qed.

Lemma flush_loop_ok `{FreshMem} i : ∀ (w : buf_state C E) A cs,
  buf_ok w A cs → returns (flush_loop i w) (λ w', ∃ k, flushed w A cs k w').
Proof.
  assert (Hstay : ∀ (w : buf_state C E) A cs w', buf_ok w A cs → buf_ok w' A cs →
    sb_buffers (bs_buf w') = sb_buffers (bs_buf w) → buf_conf (bs_buf w') = buf_conf (bs_buf w) →
    sb_pending_pos (bs_buf w') = sb_pending_pos (bs_buf w) →
    written (bs_child w') = written (bs_child w) → ∃ k, flushed w A cs k w').
  { intros w A cs w' Hok Hok' Hb Hc Hp Hw. exists 0%nat. unfold flushed, pending.
    rewrite !drop_0, Hp, Hw. split_and!; try done. exists []. by rewrite app_nil_r. }
  induction i as [|i IH]; intros w A cs Hok; cbn [flush_loop].
  { destruct (sb_buffers (bs_buf w)) eqn:Hb; cbn; by eapply Hstay. }
  destruct (sb_buffers (bs_buf w)) as [|packet rest] eqn:Hb; [by eapply Hstay|].
  pose proof (ok_bufs _ _ _ Hok) as Hal. rewrite Hb in Hal.
  inversion Hal as [|? c ? cs' Hc Hrest]; subst cs; clear Hal. subst.
  destruct (alive_get _ _ _ _ (ok_store _ _ _ Hok) Hc) as (p & -> & Hlen & Hclt). rewrite Done_bind.
  pose proof (ok_pos _ _ _ Hok) as Hpos. cbn in Hpos.
  rewrite (alive_tail _ _ _ _ _ (ok_store _ _ _ Hok) Hc) by lia. rewrite Done_bind.
  set (pos := sb_pending_pos (bs_buf w)) in *. set (data := drop (Z.to_nat pos) c).
  assert (Hdata : zlen data = zlen c - pos) by (unfold data; rewrite length_drop; lia).
  destruct (child_write (bs_child w) data) as [[[res n] err] ch] eqn:Hw.
  destruct res.
  1, 3, 4: assert (Hsame : written ch = written (bs_child w)) by (by eapply write_nothing).
  - eapply (Hstay w); [done|by apply buf_ok_error|done..].
  - eapply (Hstay w); [done|by apply buf_ok_error|done..].
  - eapply (Hstay w); [done|by apply buf_ok_child|done..].
  - pose proof (write_normal _ _ _ _ _ Hw) as [Hn Hwr]. rewrite u64_small, Hlen by lia.
    pose proof (pending_cons _ _ _ _ Hok) as Hpend. fold pos data in Hpend.
    destruct (zlen c <=? pos + n) eqn:Hcmp.
    + apply Z.leb_le in Hcmp. apply returns_bind.
      eapply returns_mono; [by eapply pkt_release_ok, Hc; apply (ok_store _ _ _ Hok)|].
      intros st [Hst Hnx]. pose proof (finish_packet_ok w A c cs' packet rest st Hok Hb Hst ch) as Hok'.
      eapply returns_mono; [by apply IH|]. intros w' (k & Hok'' & Hb' & Hcf & sent & Hws & Hps).
      exists (S k). unfold flushed. rewrite Hb. split_and!; try done.
      exists (take (Z.to_nat n) data ++ sent). rewrite Hws, app_assoc. cbn. rewrite Hwr. split; [done|].
      unfold pending in Hps at 1. cbn in Hps. rewrite drop_0 in Hps.
      rewrite Hpend, Hps, (take_ge data) by lia. by rewrite <- app_assoc.
    + apply Z.leb_gt in Hcmp.
      assert (Hok' : buf_ok (mkBufState (bs_store w)
        (sb_with (pos + n) (sb_current_size (bs_buf w)) (sb_buffers (bs_buf w)) (bs_buf w)) ch) A (c :: cs')).
      { destruct Hok as [? ? ? ? ? ?]. split; cbn; try done. cbn in *. lia. }
      rewrite <- Hb. eapply returns_mono; [by apply IH|]. intros w' (k & Hok'' & Hb' & Hcf & sent & Hws & Hps).
      exists k. split_and!; [done..|]. exists (take (Z.to_nat n) data ++ sent).
      rewrite Hws, app_assoc. cbn. rewrite Hwr. split; [done|].
      rewrite (pending_cons _ _ _ _ Hok') in Hps. cbn in Hps. rewrite Hpend, <- app_assoc, <- Hps.
      rewrite app_assoc. f_equal. unfold data. rewrite Z2Nat.inj_add, <- drop_drop by lia.
      by rewrite take_drop.
Qed.
End flush.

(** ** Sessions

    What the application and the main loop do with the stream, in any order: the three
    ways to write (a packet is made by the application first), the write callback that
    flushes, and a shutdown.  The buffer is only touched under its lock, so that calls
    of several threads run one after the other. *)

Inductive buf_op : Set :=
| OpWrite (data : list Z)
| OpWriteBuf (data : list Z)
| OpPacket (data : list Z)
| OpFlush
| OpShutdown (i : Z).

Definition op_data (op : buf_op) : option (list Z) :=
  match op with
  | OpWrite data | OpWriteBuf data | OpPacket data => Some data
  | _ => None
  end.

Section session.
Context `{FreshMem} {C E : Type} `{ZStreamWriteOps C E}.

Definition is_normal (res : GIOStatus) : bool := bool_decide (res = G_IO_STATUS_NORMAL).

(** The boolean says whether a write was accepted. *)
Definition buf_do (w : buf_state C E) (op : buf_op) : outcome (bool * buf_state C E) :=
  match op with
  | OpWrite data => '(ret, _, _, w) ← z_stream_buf_write_method w data; Done (is_normal ret, w)
  | OpWriteBuf data => '(ret, _, w) ← z_stream_write_buf w (CopyOf data); Done (is_normal ret, w)
  | OpPacket data =>
      '(st, packet) ← pkt_new_copy (bs_store w) data;
      '(ret, _, w) ← z_stream_write_packet (bs_with_store st w) packet;
      Done (is_normal ret, w)
  | OpFlush => '(_, w) ← z_stream_buf_write_callback w; Done (true, w)
  | OpShutdown i => '(_, _, w) ← z_stream_buf_shutdown_method w i; Done (true, w)
  end.

Fixpoint buf_run (w : buf_state C E) (ops : list buf_op) : outcome (list bool * buf_state C E) :=
  match ops with
  | [] => Done ([], w)
  | op :: ops =>
      '(b, w) ← buf_do w op; '(bs, w) ← buf_run w ops; Done (b :: bs, w)
  end.

(** The bytes that wait for the child, read from the store. *)
Fixpoint packets_bytes (st : store) (bufs : list nat) : outcome (list Z) :=
  match bufs with
  | [] => Done []
  | i :: bufs => l ← pkt_tail st i 0; r ← packets_bytes st bufs; Done (l ++ r)
  end.

Definition pending_bytes (w : buf_state C E) : outcome (list Z) :=
  l ← packets_bytes (bs_store w) (sb_buffers (bs_buf w));
  Done (drop (Z.to_nat (sb_pending_pos (bs_buf w))) l).
End session.

(** ** The specification

    A buffered stream is a queue of bytes with an error: a write is appended, unless
    there is an error, which is the result then; any step may move bytes from the front
    of the queue to the output, and find an error in doing so. *)

Record buf_spec (E : Type) := mkSpec { sp_out : list Z; sp_queue : list Z; sp_error : option E }.
Arguments mkSpec {E}.
Arguments sp_out {E}.
Arguments sp_queue {E}.
Arguments sp_error {E}.

Inductive spec_step {E} (op : buf_op) : bool → buf_spec E → buf_spec E → Prop :=
| spec_accept data out q sent q' e' :
    op_data op = Some data → q ++ data = sent ++ q' →
    spec_step op true (mkSpec out q None) (mkSpec (out ++ sent) q' e')
| spec_refuse data out q e :
    op_data op = Some data → spec_step op false (mkSpec out q (Some e)) (mkSpec out q (Some e))
| spec_send out q e sent q' e' :
    op_data op = None → q = sent ++ q' →
    spec_step op true (mkSpec out q e) (mkSpec (out ++ sent) q' e').

Inductive spec_run {E} : list buf_op → list bool → buf_spec E → buf_spec E → Prop :=
| spec_run_nil s : spec_run [] [] s s
| spec_run_cons op ops b bs s1 s2 s3 :
    spec_step op b s1 s2 → spec_run ops bs s2 s3 → spec_run (op :: ops) (b :: bs) s1 s3.

(** The data of the writes that were accepted. *)
Fixpoint accepted (ops : list buf_op) (bs : list bool) : list Z :=
  match ops, bs with
  | op :: ops, b :: bs =>
      (if b then default [] (op_data op) else []) ++ accepted ops bs
  | _, _ => []
  end.

(** All that was accepted is in the output or in the queue, once and in order. *)
Lemma spec_run_fifo {E} ops bs (s s' : buf_spec E) :
  spec_run ops bs s s' →
  sp_out s' ++ sp_queue s' = sp_out s ++ sp_queue s ++ accepted ops bs ∧ sp_out s `prefix_of` sp_out s'.
Proof.
  induction 1 as [s|op ops b bs s1 s2 s3 Hs _ [IH Hp]]; [by rewrite app_nil_r|].
  destruct Hs as [data out q sent q' e' Hd Hq|data out q e Hd|out q e sent q' e' Hd ->];
    cbn in *; rewrite ?Hd; cbn.
  - split; [|by eapply prefix_app_l]. rewrite IH, <- !app_assoc. f_equal.
    by rewrite !app_assoc, Hq.
  - done.
  - split; [|by eapply prefix_app_l]. by rewrite IH, <- !app_assoc.
Qed.

Definition op_size (op : buf_op) : Z := zlen (default [] (op_data op)).

Section refinement.
Context `{FreshMem} {C E : Type} `{ZStreamWriteLaws C E}.
Implicit Types w : buf_state C E.

Definition abs (w : buf_state C E) (cs : list (list Z)) : buf_spec E :=
  mkSpec (written (bs_child w)) (pending w cs) (sb_flush_error (bs_buf w)).

Lemma packets_bytes_ok st A bufs cs :
  store_rep st A → Forall2 (alive A) bufs cs → packets_bytes st bufs = Done (concat cs).
Proof.
  intros Hr. induction 1 as [|i c bufs cs Hc _ IH]; [done|]. cbn.
  rewrite (alive_tail _ _ _ _ _ Hr Hc) by lia. by rewrite Done_bind, IH, Done_bind, drop_0.
Qed.

Lemma pending_bytes_ok w A cs : buf_ok w A cs → pending_bytes w = Done (pending w cs).
Proof.
  intros Hok. unfold pending_bytes.
  by rewrite (packets_bytes_ok _ _ _ _ (ok_store _ _ _ Hok) (ok_bufs _ _ _ Hok)).
Qed.

(** *** Appending a packet *)

Definition appended (w : buf_state C E) (packet : nat) (c : list Z) : buf_state C E :=
  mkBufState (bs_store w)
    (sb_with (sb_pending_pos (bs_buf w)) (u64 (sb_current_size (bs_buf w) + zlen c))
             (sb_buffers (bs_buf w) ++ [packet]) (bs_buf w)) (bs_child w).

Lemma appended_ok w A cs packet c :
  buf_ok w A cs → alive A packet c → packet ∉ sb_buffers (bs_buf w) →
  zlen (concat cs) + zlen c < 2 ^ 62 → buf_ok (appended w packet c) A (cs ++ [c]).
Proof.
  intros [Hs Hb Hn Hsz Hbd Hp] Hc Hi Hlt.
  assert (Hl : zlen (concat (cs ++ [c])) = zlen (concat cs) + zlen c)
    by (rewrite concat_app, length_app; cbn; rewrite app_nil_r; lia).
  split; cbn; [done| | | |lia|].
  - apply Forall2_app; [done|]. by repeat constructor.
  - apply NoDup_app. split; [done|]. split; [set_solver|apply NoDup_singleton].
  - rewrite Hsz, u64_small; lia.
  - destruct cs as [|c0 cs]; cbn in *; [lia|done].
Qed.

Lemma pending_appended w A cs packet c :
  buf_ok w A cs → pending (appended w packet c) (cs ++ [c]) = pending w cs ++ c.
Proof.
  intros [_ _ _ _ _ Hp]. unfold pending. cbn. rewrite concat_app. cbn. rewrite app_nil_r.
  apply drop_app_le. destruct cs as [|c0 cs]; cbn in *; [by rewrite Hp|]. rewrite length_app. lia.
Qed.

Lemma write_packet_internal_ok w A cs packet c :
  buf_ok w A cs → alive A packet c → packet ∉ sb_buffers (bs_buf w) →
  zlen (concat cs) + zlen c < 2 ^ 62 →
  returns (z_stream_write_packet_internal w packet) (λ '(ret, err, w'),
    match sb_flush_error (bs_buf w) with
    | Some e => ret = G_IO_STATUS_ERROR ∧ err = Some e ∧ w' = w
    | None => ret = G_IO_STATUS_NORMAL ∧ err = None ∧
        ∃ k, flushed (appended w packet c) A (cs ++ [c]) k w'
    end).
Proof.
  intros Hok Hc Hi Hlt. unfold z_stream_write_packet_internal.
  destruct (sb_flush_error (bs_buf w)) as [e|]; [done|].
  destruct (alive_get _ _ _ _ (ok_store _ _ _ Hok) Hc) as (p & -> & Hlen & _). rewrite Done_bind, Hlen.
  fold (appended w packet c). pose proof (appended_ok _ _ _ _ _ Hok Hc Hi Hlt) as Hok'.
  apply returns_bind. destruct (has _ _).
  - eapply returns_mono; [by apply flush_loop_ok|]. intros w' Hk. by apply returns_ret.
  - cbn. split_and!; try done. exists 0%nat. unfold flushed. rewrite !drop_0.
    split_and!; try done. exists []. by rewrite app_nil_r.
Qed.

(** What a step of the application or of the main loop gives. *)
Definition did w cs op : bool * buf_state C E → Prop := λ '(b, w'),
  ∃ A' cs', buf_ok w' A' cs' ∧ buf_conf (bs_buf w') = buf_conf (bs_buf w) ∧
    spec_step op b (abs w cs) (abs w' cs') ∧ zlen (concat cs') ≤ zlen (concat cs) + op_size op.

Lemma concat_drop_le k (cs : list (list Z)) : zlen (concat (drop k cs)) ≤ zlen (concat cs).
Proof.
  rewrite <- (take_drop k cs) at 2. rewrite concat_app, length_app. lia.
Qed.

(** A write that was accepted, whatever has been done to the store and the timeout. *)
Lemma did_accept w w0 A cs op data packet k w' A' :
  op_data op = Some data → sb_flush_error (bs_buf w) = None →
  bs_buf w0 = bs_buf w → written (bs_child w0) = written (bs_child w) → buf_ok w0 A cs →
  flushed (appended w0 packet data) A (cs ++ [data]) k w' →
  ∀ w'', buf_ok w'' A' (drop k (cs ++ [data])) → bs_buf w'' = bs_buf w' → bs_child w'' = bs_child w' →
  did w cs op (true, w'').
Proof.
  intros Hd He Hb Hc Hok0 (Hok & _ & Hcf & sent & Hw & Hp) w'' Hok'' Hb'' Hc''.
  exists A', (drop k (cs ++ [data])). split_and!; [done|by rewrite Hb'', Hcf; cbn; rewrite Hb| |].
  - unfold abs. rewrite He. rewrite (pending_appended _ _ _ _ _ Hok0) in Hp. cbn in Hw.
    unfold pending in *. rewrite Hb'', Hc'', Hw, Hc. rewrite Hb in Hp.
    by eapply spec_accept.
  - unfold op_size. rewrite Hd. cbn. pose proof (concat_drop_le k (cs ++ [data])) as Hl.
    rewrite concat_app, length_app in Hl. cbn in Hl. rewrite app_nil_r in Hl. lia.
Qed.

Lemma did_refuse w A cs op data e w' A' :
  buf_ok w A cs → op_data op = Some data → sb_flush_error (bs_buf w) = Some e →
  buf_ok w' A' cs → bs_buf w' = bs_buf w → written (bs_child w') = written (bs_child w) →
  did w cs op (false, w').
Proof.
  intros Hok Hd He Hok' Hb Hc. exists A', cs. split_and!; [done|by rewrite Hb| |unfold op_size; lia].
  unfold abs, pending. rewrite Hb, Hc, He. by eapply spec_refuse.
Qed.

(** *** Packets made for a write *)

Lemma buf_ok_new w A cs st data :
  buf_ok w A cs → store_rep st (<[st_next (bs_store w) := (1, data)]> A) →
  buf_ok (bs_with_store st w) (<[st_next (bs_store w) := (1, data)]> A) cs ∧
  st_next (bs_store w) ∉ sb_buffers (bs_buf w).
Proof.
  intros [Hs Hb Hn Hsz Hbd Hp] Hst.
  assert (Hni : st_next (bs_store w) ∉ sb_buffers (bs_buf w)).
  { intros [i Hi]%list_elem_of_lookup_1.
    destruct (Forall2_lookup_l _ _ _ _ _ Hb Hi) as (c & _ & n & Hc & _). by rewrite (rep_fresh _ _ Hs) in Hc. }
  split; [|done]. split; cbn; try done.
  eapply Forall2_alive_other; [|done]. intros j Hj. apply lookup_insert_ne. congruence.
Qed.

(** Releasing a packet that is not in the list, or of which the list has its own reference. *)
Lemma buf_ok_unref w A cs packet n data :
  buf_ok w A cs → A !! packet = Some (n, data) → 0 < n < MAX_REF →
  (packet ∈ sb_buffers (bs_buf w) → n ≠ 1) →
  returns (pkt_unref (bs_store w) packet) (λ st, buf_ok (bs_with_store st w) (release A packet) cs).
Proof.
  intros [Hs Hb Hnd Hsz Hbd Hp] Hi Hn Hin.
  eapply returns_mono; [by eapply (pkt_release_ok _ _ _ data); [|exists n]|]. intros st [Hst _].
  split; cbn; try done. clear Hsz Hbd Hp Hnd.
  induction Hb as [|j c bufs cs (m & Hj & Hm) _ IH]; constructor.
  - destruct (decide (packet = j)) as [->|Hne]; [|by apply release_alive; [|exists m]].
    rewrite Hi in Hj. simplify_eq. eexists. rewrite release_same, Hi.
    rewrite decide_False by set_solver. split; [done|]. specialize (Hin ltac:(set_solver)). lia.
  - apply IH. intros ?. apply Hin. by right.
Qed.

(** The packet of a write that holds a reference of its own, after the flush: it has two
    references if it is still in the list, and one if the flush has finished it. *)
Lemma held_after_flush A packet data bufs k :
  A !! packet = Some (1, data) → NoDup (bufs ++ [packet]) →
  let A' := foldl release (retain A packet) (take k (bufs ++ [packet])) in
  ∃ n, A' !! packet = Some (n, data) ∧ 0 < n < MAX_REF ∧
       (packet ∈ drop k (bufs ++ [packet]) → n ≠ 1).
Proof.
  intros Hi Hnd A'. assert (Hr : retain A packet !! packet = Some (2, data))
    by (unfold retain; by rewrite Hi, lookup_insert_eq).
  rewrite <- (take_drop k (bufs ++ [packet])) in Hnd. apply NoDup_app in Hnd as (Hnd & Hdis & _).
  destruct (decide (packet ∈ take k (bufs ++ [packet]))) as [Hin|Hin].
  - exists 1. unfold A'. rewrite foldl_release_once, release_same, Hr by done. split_and!; [done..|].
    intros Hd. by destruct (Hdis _ Hin).
  - exists 2. unfold A'. rewrite foldl_release_other by done. by split_and!.
Qed.

(** What z_stream_write_packet does with a packet of which the caller gives away its
    only reference. *)
Lemma write_packet_ok w A cs op packet data :
  op_data op = Some data → buf_ok w A cs → A !! packet = Some (1, data) →
  packet ∉ sb_buffers (bs_buf w) → zlen (concat cs) + zlen data < 2 ^ 62 →
  returns (z_stream_write_packet w packet) (λ '(ret, _, w'), did w cs op (is_normal ret, w')).
Proof.
  intros Hd Hok Hi Hni Hlt. assert (Hal : alive A packet data) by by exists 1.
  unfold z_stream_write_packet. apply returns_bind.
  eapply returns_mono; [by eapply (pkt_retain_ok (bs_store w)); [apply (ok_store _ _ _ Hok)|]|].
  intros st [Hst _]. set (w0 := bs_with_store st w).
  assert (Hok0 : buf_ok w0 (retain A packet) cs).
  { destruct Hok. split; cbn; try done. eapply Forall2_alive_other; [|done].
    intros j Hj. apply retain_other. congruence. }
  apply returns_bind. eapply returns_mono.
  { apply (write_packet_internal_ok w0 (retain A packet) cs packet data); try done.
    by eapply alive_retain. }
  intros [[ret err] w'] Hres. cbn in Hres. destruct (sb_flush_error (bs_buf w)) as [e|] eqn:He.
  - destruct Hres as (-> & -> & ->). apply returns_bind.
    eapply returns_mono; [apply (buf_ok_unref w0 _ cs packet 2 data Hok0)|].
    { unfold retain. by rewrite Hi, lookup_insert_eq. } { done. } { done. }
    intros st' Hst'. rewrite (release_retain _ _ data) in Hst' by done.
    apply returns_ret. by eapply did_refuse.
  - destruct Hres as (-> & -> & k & Hfl). apply returns_bind.
    assert (Hnd : NoDup (sb_buffers (bs_buf w) ++ [packet])).
    { apply NoDup_app. split; [apply (ok_nodup _ _ _ Hok)|]. split; [set_solver|apply NoDup_singleton]. }
    destruct (held_after_flush A packet data _ k Hi Hnd) as (n & Hn & Hb & Hin).
    destruct Hfl as (Hokf & Hbuf & Hrest). eapply returns_mono.
    { eapply (buf_ok_unref w' _ _ packet n data); [exact Hokf|done|done|]. by rewrite Hbuf. }
    intros st' Hst'. apply returns_ret.
    refine (did_accept w w0 (retain A packet) cs op data packet k w' _ Hd He eq_refl eq_refl Hok0
              (conj Hokf (conj Hbuf Hrest)) _ Hst' eq_refl eq_refl).
Qed.

Lemma write_method_ok w A cs data :
  buf_ok w A cs → zlen (concat cs) + zlen data < 2 ^ 62 →
  returns (z_stream_buf_write_method w data)
    (λ '(ret, _, _, w'), did w cs (OpWrite data) (is_normal ret, w')).
Proof.
  intros Hok Hlt. unfold z_stream_buf_write_method.
  destruct (pkt_new_copy_ok _ _ data (ok_store _ _ _ Hok)) as (st & -> & Hst & _); [lia|].
  rewrite Done_bind. destruct (buf_ok_new _ _ _ _ _ Hok Hst) as [Hok0 Hni].
  set (w0 := mkBufState st (bs_buf w) (child_set_timeout (bs_child w) (sb_timeout (bs_buf w)))).
  assert (Hok1 : buf_ok w0 (<[st_next (bs_store w) := (1, data)]> A) cs)
    by apply (buf_ok_child _ _ _ _ Hok0).
  assert (Hwr : written (bs_child w0) = written (bs_child w)) by apply written_set_timeout.
  apply returns_bind. eapply returns_mono.
  { eapply (write_packet_internal_ok w0 _ cs _ data Hok1); [|done..].
    exists 1. by rewrite lookup_insert_eq. }
  intros [[ret err] w'] Hres. cbn in Hres. destruct (sb_flush_error (bs_buf w)) as [e|] eqn:He.
  - destruct Hres as (-> & -> & ->). by eapply did_refuse.
  - destruct Hres as (-> & -> & k & Hfl).
    refine (did_accept w w0 _ cs (OpWrite data) data _ k w' _ eq_refl He eq_refl Hwr Hok1 Hfl _ _ eq_refl eq_refl).
    apply Hfl.
Qed.

(** A flush with nothing else, and a shutdown. *)
Lemma did_flush w w0 A cs op k w' c' :
  op_data op = None → bs_buf w0 = bs_buf w → written (bs_child w0) = written (bs_child w) →
  flushed w0 A cs k w' → written c' = written (bs_child w') →
  did w cs op (true, bs_with_child c' w').
Proof.
  intros Hd Hb Hc (Hok & _ & Hcf & sent & Hw & Hp) Hc'. eexists _, (drop k cs).
  split_and!; [by apply buf_ok_child|by rewrite <- Hb| |].
  - unfold abs, pending in *. cbn in *. rewrite Hc', Hw, Hc. rewrite Hb in Hp. by eapply spec_send.
  - unfold op_size. rewrite Hd. pose proof (concat_drop_le k cs). cbn. lia.
Qed.

Lemma flush_ok w A cs :
  buf_ok w A cs → returns (z_stream_buf_flush_internal w) (λ w', ∃ k, flushed w A cs k w').
Proof. apply flush_loop_ok. Qed.

Lemma shutdown_ok w A cs i :
  buf_ok w A cs →
  returns (z_stream_buf_shutdown_method w i) (λ '(_, _, w'), did w cs (OpShutdown i) (true, w')).
Proof.
  intros Hok. unfold z_stream_buf_shutdown_method. apply returns_bind.
  assert (Hend : ∀ w0 k w', bs_buf w0 = bs_buf w → written (bs_child w0) = written (bs_child w) →
    flushed w0 A cs k w' →
    returns (let '(res, error, c) := child_shutdown (bs_child w') i in Done (res, error, bs_with_child c w'))
      (λ '(_, _, w''), did w cs (OpShutdown i) (true, w''))).
  { intros w0 k w' Hb Hc Hfl. destruct (child_shutdown (bs_child w') i) as [[res err] c'] eqn:Hs.
    cbn. eapply did_flush; [done..|]. by eapply written_shutdown. }
  destruct (_ || _).
  - eapply returns_mono; [by apply flush_ok, buf_ok_child|]. intros w' [k Hfl].
    eapply Hend; [..|exact Hfl]; [done|]. cbn. by rewrite written_set_nonblock, written_set_timeout.
  - apply returns_ret. eapply (Hend w 0%nat); [done..|]. unfold flushed. rewrite !drop_0.
    split_and!; try done. exists []. by rewrite app_nil_r.
Qed.

Lemma buf_do_ok w A cs op :
  buf_ok w A cs → zlen (concat cs) + op_size op < 2 ^ 62 → returns (buf_do w op) (did w cs op).
Proof.
  intros Hok Hlt. destruct op as [data|data|data| |i]; cbn [buf_do]; apply returns_bind.
  - eapply returns_mono; [by eapply write_method_ok|]. by intros [[[ret n] err] w'].
  - unfold z_stream_write_buf, op_size in *. cbn in Hlt.
    destruct (pkt_new_copy_ok _ _ data (ok_store _ _ _ Hok)) as (st & Hnew & Hst & _); [lia|].
    rewrite Hnew, Done_bind. destruct (buf_ok_new _ _ _ _ _ Hok Hst) as [Hok0 Hni].
    eapply returns_mono.
    { eapply (write_packet_ok (bs_with_store st w) _ cs (OpWriteBuf data) (st_next (bs_store w)) data);
        [done|exact Hok0|by rewrite lookup_insert_eq|done|done]. }
    by intros [[ret err] w'].
  - unfold op_size in *. cbn in Hlt.
    destruct (pkt_new_copy_ok _ _ data (ok_store _ _ _ Hok)) as (st & Hnew & Hst & _); [lia|].
    rewrite Hnew. apply returns_ret. destruct (buf_ok_new _ _ _ _ _ Hok Hst) as [Hok0 Hni].
    apply returns_bind. eapply returns_mono.
    { eapply (write_packet_ok (bs_with_store st w) _ cs (OpPacket data) (st_next (bs_store w)) data);
        [done|exact Hok0|by rewrite lookup_insert_eq|done|done]. }
    by intros [[ret err] w'].
  - unfold z_stream_buf_write_callback. apply returns_bind.
    eapply returns_mono; [by eapply flush_ok|]. intros w' [k Hfl]. apply returns_ret. cbn.
    replace w' with (bs_with_child (bs_child w') w') by by destruct w'.
    by eapply did_flush.
  - eapply returns_mono; [by eapply shutdown_ok|]. by intros [[ret err] w'].
Qed.
End refinement.

(** ** Freeing, and a child that takes everything *)

Section eager.
Context `{FreshMem} {C E : Type} `{ZStreamWriteLaws C E}.

Lemma free_buffers_ok bufs : ∀ st A cs,
  store_rep st A → Forall2 (alive A) bufs cs → NoDup bufs →
  returns (free_buffers st bufs) (λ st', store_rep st' (foldl release A bufs)).
Proof.
  induction bufs as [|i bufs IH]; intros st A cs Hst Hal Hnd; [done|]. cbn.
  inversion Hal as [|? c ? cs' Hc Hrest]; subst. apply NoDup_cons in Hnd as [Hi Hnd].
  apply returns_bind. eapply returns_mono; [by eapply pkt_release_ok|]. intros st' [Hst' _].
  eapply IH; [done| |done]. eapply Forall2_alive_other; [|done].
  intros j Hj. apply release_other. congruence.
Qed.

(** A child that takes everything. *)
Definition eager : Prop := ∀ (c : C) l, ∃ c', child_write c l = (G_IO_STATUS_NORMAL, zlen l, None (A := E), c').

Lemma flush_eager i : ∀ (w : buf_state C E) A cs,
  buf_ok w A cs → eager →
  returns (flush_loop i w) (λ w', ∃ A', buf_ok w' A' (drop i cs) ∧
    written (bs_child w') = written (bs_child w) ++
      drop (Z.to_nat (sb_pending_pos (bs_buf w))) (concat (take i cs)) ∧
    (i ≠ 0%nat ∨ sb_pending_pos (bs_buf w) = 0 → sb_pending_pos (bs_buf w') = 0)).
Proof.
  induction i as [|i IH]; intros w A cs Hok He; cbn [flush_loop].
  { assert (Hw : ∃ A', buf_ok w A' (drop 0 cs) ∧ written (bs_child w) = written (bs_child w) ++
      drop (Z.to_nat (sb_pending_pos (bs_buf w))) (concat (take 0 cs)) ∧
      (0%nat ≠ 0%nat ∨ sb_pending_pos (bs_buf w) = 0 → sb_pending_pos (bs_buf w) = 0)).
    { exists A. rewrite drop_0, take_0. cbn. rewrite drop_nil, app_nil_r. naive_solver. }
    by destruct (sb_buffers (bs_buf w)). }
  pose proof (ok_bufs _ _ _ Hok) as Hal. pose proof (ok_pos _ _ _ Hok) as Hpos.
  destruct (sb_buffers (bs_buf w)) as [|packet rest] eqn:Hb.
  { inversion Hal; subst. exists A. cbn in *. by rewrite drop_nil, app_nil_r. }
  inversion Hal as [|? c ? cs' Hc Hrest]; subst cs; clear Hal. subst. cbn in Hpos.
  destruct (alive_get _ _ _ _ (ok_store _ _ _ Hok) Hc) as (p & -> & Hlen & Hclt). rewrite Done_bind.
  rewrite (alive_tail _ _ _ _ _ (ok_store _ _ _ Hok) Hc) by lia. rewrite Done_bind.
  set (pos := sb_pending_pos (bs_buf w)) in *. set (data := drop (Z.to_nat pos) c).
  assert (Hdata : zlen data = zlen c - pos) by (unfold data; rewrite length_drop; lia).
  destruct (He (bs_child w) data) as [ch Hch]. rewrite Hch, u64_small, Hlen by lia.
  replace (zlen c <=? pos + zlen data) with true by lia.
  destruct (write_normal _ _ _ _ _ Hch) as [_ Hw]. rewrite take_ge in Hw by lia.
  apply returns_bind. eapply returns_mono; [by eapply pkt_release_ok, Hc; apply (ok_store _ _ _ Hok)|].
  intros st [Hst Hnx]. pose proof (finish_packet_ok w A c cs' packet rest st Hok Hb Hst ch) as Hok'.
  eapply returns_mono; [exact (IH _ _ _ Hok' He)|]. intros w' (A' & Hok'' & Hw' & Hp').
  exists A'. cbn [drop take concat]. split_and!; [done| |].
  - rewrite Hw'. cbn. rewrite Hw, drop_0, drop_app_le by lia. by rewrite <- app_assoc.
  - intros _. apply Hp'. by right.
Qed.
End eager.

(** ** A child for concrete runs

    It follows a script: how many bytes a write takes, or that it would block, or that
    it fails; behind the script it takes everything. *)

Inductive answer : Set := Takes (n : Z) | Blocks | Fails (e : nat).

Record script_child := mkScriptChild { sc_out : list Z; sc_script : list answer }.

#[global] Instance script_child_ops : ZStreamWriteOps script_child nat := {|
  child_write c l :=
    match sc_script c with
    | [] => (G_IO_STATUS_NORMAL, zlen l, None, mkScriptChild (sc_out c ++ l) [])
    | Takes n :: s =>
        let n := Z.min (Z.max 0 n) (zlen l) in
        (G_IO_STATUS_NORMAL, n, None, mkScriptChild (sc_out c ++ take (Z.to_nat n) l) s)
    | Blocks :: s => (G_IO_STATUS_AGAIN, 0, None, mkScriptChild (sc_out c) s)
    | Fails e :: s => (G_IO_STATUS_ERROR, 0, Some e, mkScriptChild (sc_out c) s)
    end;
  child_set_timeout c _ := c;
  child_set_nonblock c _ := c;
  child_shutdown c _ := (G_IO_STATUS_NORMAL, None, c);
  written := sc_out
|}.

#[global] Instance script_child_laws : ZStreamWriteLaws script_child nat.
Proof.
  split; cbn; try done.
  - intros [out [|[n| |e] s]] l m err c'; cbn; intros ?; simplify_eq; cbn; [|split; [lia|done]].
    split; [lia|]. by rewrite take_ge by lia.
  - intros [out [|[n| |e] s]] l st m err c'; cbn; intros ? ?; by simplify_eq.
  - by intros c i st err c' ?; simplify_eq.
Qed.

Definition new_buf (threshold flags : Z) (script : list answer) : buf_state script_child nat :=
  mkBufState empty_store (mkBuf flags threshold 0 None 0 [] 0) (mkScriptChild [] script).

(** Two writes, a flush that is interrupted, and the rest. *)
Example buf_session : let _ := zero_mem in
  returns (buf_run (new_buf 4096 0 [Takes 2; Blocks])
            [OpWrite (str "abc"); OpPacket (str "de"); OpFlush; OpWriteBuf (str "f"); OpFlush])
    (λ '(bs, w), bs = [true; true; true; true; true] ∧ sc_out (bs_child w) = str "abcdef").
Proof. vm_compute. by split. Qed.

(** ** Theorems *)

Section theorems.
Context `{FreshMem} {C E : Type} `{ZStreamWriteLaws C E}.
Implicit Types w : buf_state C E.

Definition ops_size (ops : list buf_op) : Z := foldr (λ op n, op_size op + n) 0 ops.

Lemma op_size_nonneg op : 0 ≤ op_size op.
Proof. unfold op_size. lia. Qed.

Lemma ops_size_nonneg ops : 0 ≤ ops_size ops.
Proof.
  induction ops as [|op ops IH]; [done|]. cbn [ops_size foldr] in *. fold (ops_size ops).
  pose proof (op_size_nonneg op). lia.
Qed.

Lemma buf_run_ok ops : ∀ w A cs,
  buf_ok w A cs → zlen (concat cs) + ops_size ops < 2 ^ 62 →
  returns (buf_run w ops) (λ '(bs, w'), ∃ A' cs', buf_ok w' A' cs' ∧
    buf_conf (bs_buf w') = buf_conf (bs_buf w) ∧ spec_run ops bs (abs w cs) (abs w' cs')).
Proof.
  induction ops as [|op ops IH]; intros w A cs Hok Hlt; cbn [buf_run].
  { exists A, cs. split_and!; [done..|constructor]. }
  cbn [ops_size foldr] in Hlt. fold (ops_size ops) in Hlt. pose proof (ops_size_nonneg ops).
  apply returns_bind. eapply returns_mono; [eapply buf_do_ok; [done|lia]|].
  intros [b w'] (A' & cs' & Hok' & Hcf' & Hst & Hle).
  apply returns_bind. eapply returns_mono; [eapply IH; [done|lia]|].
  intros [bs w''] (A'' & cs'' & Hok'' & Hcf'' & Hrun). apply returns_ret.
  exists A'', cs''. split_and!; [done|by rewrite Hcf''|]. by econstructor.
Qed.

Lemma new_buf_ok c c' b threshold flags timeout :
  z_stream_buf_new (E := E) c threshold flags timeout = Some (b, c') →
  buf_ok (mkBufState empty_store b c') ∅ [] ∧ written c' = written c ∧
  sb_flush_error b = None ∧ threshold ≤ MAX_BUF_LEN.
Proof.
  unfold z_stream_buf_new. destruct (threshold <=? MAX_BUF_LEN) eqn:Ht; [|done].
  intros ?; simplify_eq. apply Z.leb_le in Ht. split_and!; [|apply written_set_nonblock|done..].
  split; cbn; try done; [apply empty_store_rep|constructor].
Qed.
End theorems.

(** C15: Any session of writes (of the three kinds), flushes and shutdowns on a new
    buffered stream returns, whatever its child does; it is a run of the specification,
    a queue of bytes with an error; and what the child was given followed by what is
    still in the packets is what was accepted, once and in order. *)
Theorem streambuf_refines `{FreshMem} {C E : Type} `{ZStreamWriteLaws C E} (c c' : C)
    (b : ZStreamBuf E) (threshold flags timeout : Z) (ops : list buf_op) :
  z_stream_buf_new c threshold flags timeout = Some (b, c') → ops_size ops < 2 ^ 62 →
  ∃ bs w rest, buf_run (mkBufState empty_store b c') ops = Done (bs, w) ∧
    pending_bytes w = Done rest ∧
    spec_run ops bs (mkSpec (written c) [] None)
                    (mkSpec (written (bs_child w)) rest (sb_flush_error (bs_buf w))) ∧
    written (bs_child w) ++ rest = written c ++ accepted ops bs.
Proof.
  intros Hnew Hlt. destruct (new_buf_ok _ _ _ _ _ _ Hnew) as (Hok & Hc & He & _).
  pose proof (buf_run_ok ops _ _ _ Hok Hlt) as Hr. apply returns_Done in Hr.
  destruct Hr as ([bs w] & Hrun & A & cs & Hok' & _ & Hspec).
  exists bs, w, (pending w cs). split_and!; [done|by eapply pending_bytes_ok| |].
  - unfold abs at 1 in Hspec. cbn in Hspec. rewrite Hc, He in Hspec. unfold pending in Hspec at 1.
    cbn in Hspec. by rewrite drop_nil in Hspec.
  - destruct (spec_run_fifo _ _ _ _ Hspec) as [Hf _]. cbn in Hf. rewrite Hf, Hc. f_equal.
    unfold pending. cbn. by rewrite drop_nil.
Qed.

Lemma streambuf_refines_witness :
  let _ := zero_mem in
  ∃ bs w rest,
    buf_run (new_buf 10 Z_SBF_IMMED_FLUSH [Takes 1; Fails 7])
      [OpWrite (str "ab"); OpFlush; OpWrite (str "c"); OpShutdown SHUT_WR] = Done (bs, w) ∧
    pending_bytes w = Done rest ∧
    spec_run [OpWrite (str "ab"); OpFlush; OpWrite (str "c"); OpShutdown SHUT_WR] bs
      (mkSpec [] [] None) (mkSpec (sc_out (bs_child w)) rest (sb_flush_error (bs_buf w))) ∧
    sc_out (bs_child w) ++ rest =
      [] ++ accepted [OpWrite (str "ab"); OpFlush; OpWrite (str "c"); OpShutdown SHUT_WR] bs.
Proof.
  intros fm. exact (streambuf_refines (E := nat) (mkScriptChild [] [Takes 1; Fails 7])
    (mkScriptChild [] [Takes 1; Fails 7]) (mkBuf Z_SBF_IMMED_FLUSH 10 0 None 0 [] 0) 10
    Z_SBF_IMMED_FLUSH 0 [OpWrite (str "ab"); OpFlush; OpWrite (str "c"); OpShutdown SHUT_WR]
    eq_refl ltac:(vm_compute; reflexivity)).
Defined.

(** *** Errors *)

(** Once a flush has found an error, a write returns it and changes neither the
    buffer nor what the child has; the packet that was made for it is released neither
    then nor when the stream is freed. *)
Theorem streambuf_error_spec `{FreshMem} {C E : Type} `{ZStreamWriteLaws C E}
    (w : buf_state C E) (A : gmap nat (Z * list Z)) (cs : list (list Z)) (e : E) (data : list Z) :
  buf_ok w A cs → sb_flush_error (bs_buf w) = Some e → zlen data < 2 ^ 62 →
  returns (z_stream_buf_write_method w data) (λ '(ret, n, err, w'),
    ret = G_IO_STATUS_ERROR ∧ n = None ∧ err = Some e ∧ bs_buf w' = bs_buf w ∧
    written (bs_child w') = written (bs_child w) ∧
    buf_ok w' (<[st_next (bs_store w) := (1, data)]> A) cs ∧
    returns (z_stream_buf_free_method w') (λ st,
      ∃ A', store_rep st A' ∧ A' !! st_next (bs_store w) = Some (1, data))).
Proof.
  intros Hok He Hlt. unfold z_stream_buf_write_method.
  destruct (pkt_new_copy_ok _ _ data (ok_store _ _ _ Hok)) as (st & -> & Hst & _); [lia|].
  rewrite Done_bind. destruct (buf_ok_new _ _ _ _ _ Hok Hst) as [Hok0 Hni].
  unfold z_stream_write_packet_internal. cbn [bs_buf]. rewrite He. cbn.
  split_and!; try done; [apply written_set_timeout| |].
  - by destruct Hok0.
  - unfold z_stream_buf_free_method. cbn [bs_store bs_buf]. eapply returns_mono.
    { eapply free_buffers_ok; [exact Hst| |apply (ok_nodup _ _ _ Hok)].
      apply (ok_bufs _ _ _ Hok0). }
    intros st' Hst'. eexists. split; [exact Hst'|].
    rewrite foldl_release_other by done. by rewrite lookup_insert_eq.
Qed.

Lemma streambuf_error_spec_witness : let _ := zero_mem in
  let w := mkBufState empty_store (mkBuf 0 10 0 (Some 7%nat) 0 [] 0) (mkScriptChild [] []) in
  returns (z_stream_buf_write_method w (str "x")) (λ '(ret, n, err, w'),
    ret = G_IO_STATUS_ERROR ∧ n = None ∧ err = Some 7%nat ∧ bs_buf w' = bs_buf w ∧
    written (bs_child w') = written (bs_child w) ∧
    buf_ok w' (<[0%nat := (1, str "x")]> ∅) [] ∧
    returns (z_stream_buf_free_method w') (λ st,
      ∃ A', store_rep st A' ∧ A' !! 0%nat = Some (1, str "x"))).
Proof.
  intros fm w. apply (streambuf_error_spec w ∅ [] 7%nat (str "x")); [|done|vm_compute; reflexivity].
  split; cbn; try done; [apply empty_store_rep|constructor].
Defined.

(** *** Flushing *)

(** A shutdown for writing flushes the first ten packets, and then shuts the child down. *)
Lemma shutdown_eager `{FreshMem} {C E : Type} `{ZStreamWriteLaws C E}
    (w : buf_state C E) (A : gmap nat (Z * list Z)) (cs : list (list Z)) (i : Z) :
  buf_ok w A cs → eager (C := C) (E := E) → i = SHUT_WR ∨ i = SHUT_RDWR →
  returns (z_stream_buf_shutdown_method w i) (λ '(_, _, w'),
    written (bs_child w') = written (bs_child w) ++
      drop (Z.to_nat (sb_pending_pos (bs_buf w))) (concat (take 10 cs)) ∧
    pending_bytes w' = Done (concat (drop 10 cs))).
Proof.
  intros Hok He Hi. unfold z_stream_buf_shutdown_method.
  replace (_ || _) with true by (destruct Hi as [-> | ->]; done).
  apply returns_bind. eapply returns_mono.
  { exact (flush_eager 10 _ A cs (buf_ok_child _ _ _ _ Hok) He). }
  intros w' (A' & Hok' & Hw & Hp).
  destruct (child_shutdown (bs_child w') i) as [[res err] c'] eqn:Hs. cbn. split.
  - rewrite (written_shutdown _ _ _ _ _ Hs), Hw. cbn. by rewrite written_set_nonblock, written_set_timeout.
  - rewrite (pending_bytes_ok _ A' (drop 10 cs)) by by apply buf_ok_child.
    unfold pending. cbn. by rewrite Hp by by left.
Qed.

(** A write that only adds to the buffer. *)
Lemma write_method_adds `{FreshMem} {C E : Type} `{ZStreamWriteLaws C E}
    (w : buf_state C E) (A : gmap nat (Z * list Z)) (cs : list (list Z)) (data : list Z) :
  buf_ok w A cs → zlen (concat cs) + zlen data < 2 ^ 62 →
  sb_flush_error (bs_buf w) = None → has (sb_flags (bs_buf w)) Z_SBF_IMMED_FLUSH = false →
  returns (z_stream_buf_write_method w data) (λ '(ret, _, _, w'), ret = G_IO_STATUS_NORMAL ∧
    (∃ A', buf_ok w' A' (cs ++ [data])) ∧ buf_conf (bs_buf w') = buf_conf (bs_buf w) ∧
    sb_pending_pos (bs_buf w') = sb_pending_pos (bs_buf w) ∧
    sb_flush_error (bs_buf w') = None ∧ written (bs_child w') = written (bs_child w)).
Proof.
  intros Hok Hlt He Hf. unfold z_stream_buf_write_method.
  destruct (pkt_new_copy_ok _ _ data (ok_store _ _ _ Hok)) as (st & -> & Hst & _); [lia|].
  rewrite Done_bind. destruct (buf_ok_new _ _ _ _ _ Hok Hst) as [Hok0 Hni].
  set (i := st_next (bs_store w)) in *. set (A' := <[i := _]> A) in *.
  assert (Hal : alive A' i data) by (exists 1; unfold A'; by rewrite lookup_insert_eq).
  unfold z_stream_write_packet_internal. cbn [bs_buf bs_store]. rewrite He.
  destruct (alive_get _ _ _ _ Hst Hal) as (p & -> & Hlen & _). rewrite Done_bind, Hlen.
  cbn [sb_flags sb_with]. rewrite Hf. cbn. split_and!; try done; [|apply written_set_timeout].
  exists A'. apply (buf_ok_child _ _ _ (child_set_timeout (bs_child w) (sb_timeout (bs_buf w)))
    (appended_ok (bs_with_store st w) A' cs i data Hok0 Hal Hni Hlt)).
Qed.

Lemma writes_add `{FreshMem} {C E : Type} `{ZStreamWriteLaws C E} (ds : list (list Z)) :
  ∀ (w : buf_state C E) (A : gmap nat (Z * list Z)) (cs : list (list Z)),
  buf_ok w A cs → zlen (concat (cs ++ ds)) < 2 ^ 62 →
  sb_flush_error (bs_buf w) = None → has (sb_flags (bs_buf w)) Z_SBF_IMMED_FLUSH = false →
  sb_pending_pos (bs_buf w) = 0 →
  returns (buf_run w (OpWrite <$> ds)) (λ '(_, w'), (∃ A', buf_ok w' A' (cs ++ ds)) ∧
    sb_pending_pos (bs_buf w') = 0 ∧ written (bs_child w') = written (bs_child w)).
Proof.
  induction ds as [|d ds IH]; intros w A cs Hok Hlt He Hf Hp; cbn [fmap list_fmap buf_run].
  { rewrite app_nil_r. split_and!; [by exists A|done..]. }
  rewrite concat_app in Hlt. cbn in Hlt. rewrite !length_app in Hlt.
  apply returns_bind. cbn [buf_do]. apply returns_bind.
  eapply returns_mono; [apply (write_method_adds w A cs d); try done; lia|].
  intros [[[ret n] err] w'] (-> & [A' Hok'] & Hcf & Hp' & He' & Hw). apply returns_ret, returns_bind.
  eapply returns_mono.
  { apply (IH w' A' (cs ++ [d])); try done.
    - rewrite !concat_app, !length_app. cbn. rewrite app_nil_r. lia.
    - unfold buf_conf in Hcf. simplify_eq. congruence.
    - congruence. }
  intros [bs w''] (Hok'' & Hp'' & Hw''). apply returns_ret. rewrite <- app_assoc in Hok''.
  split_and!; [done..|congruence].
Qed.

(** A shutdown for writing does not flush the whole buffer: of the packets that were
    written it passes on the first ten, and shuts the child down with the others still
    in the buffer, even if the child takes at once all that it is offered. *)
Theorem shutdown_flushes_ten `{FreshMem} {C E : Type} `{ZStreamWriteLaws C E} (c c' : C)
    (b : ZStreamBuf E) (threshold flags timeout i : Z) (ds : list (list Z)) :
  z_stream_buf_new c threshold flags timeout = Some (b, c') →
  has flags Z_SBF_IMMED_FLUSH = false → zlen (concat ds) < 2 ^ 62 →
  eager (C := C) (E := E) → i = SHUT_WR ∨ i = SHUT_RDWR →
  returns ('(_, w) ← buf_run (mkBufState empty_store b c') (OpWrite <$> ds);
           z_stream_buf_shutdown_method w i) (λ '(_, _, w),
    written (bs_child w) = written c ++ concat (take 10 ds) ∧
    pending_bytes w = Done (concat (drop 10 ds))).
Proof.
  intros Hnew Hf Hlt Heager Hi. destruct (new_buf_ok _ _ _ _ _ _ Hnew) as (Hok & Hc & He & _).
  assert (Hb : has (sb_flags b) Z_SBF_IMMED_FLUSH = false ∧ sb_pending_pos b = 0).
  { unfold z_stream_buf_new in Hnew. by destruct (_ <=? _); simplify_eq. }
  apply returns_bind. eapply returns_mono; [eapply (writes_add ds _ _ _ Hok); try done; by apply Hb|].
  intros [bs w] ([A Hok'] & Hp & Hw). eapply returns_mono; [by eapply shutdown_eager|].
  intros [[res err] w'] [Hw' Hp']. rewrite Hw', Hw, Hp. cbn. by rewrite drop_0, Hc.
Qed.

(** A child that takes everything. *)
Record taker := mkTaker { tk_out : list Z }.

#[global] Instance taker_ops : ZStreamWriteOps taker nat := {|
  child_write c l := (G_IO_STATUS_NORMAL, zlen l, None, mkTaker (tk_out c ++ l));
  child_set_timeout c _ := c;
  child_set_nonblock c _ := c;
  child_shutdown c _ := (G_IO_STATUS_NORMAL, None, c);
  written := tk_out
|}.

#[global] Instance taker_laws : ZStreamWriteLaws taker nat.
Proof.
  split; cbn; try done; intros; simplify_eq; try done. split; [lia|].
  cbn. by rewrite take_ge by lia.
Qed.

Lemma shutdown_flushes_ten_witness : let _ := zero_mem in
  returns ('(_, w) ← buf_run (mkBufState empty_store (mkBuf (E := nat) 0 4096 0 None 0 [] 0) (mkTaker []))
                       (OpWrite <$> replicate 11 (str "x"));
           z_stream_buf_shutdown_method w SHUT_WR) (λ '(_, _, w),
    tk_out (bs_child w) = str "xxxxxxxxxx" ∧ pending_bytes w = Done (str "x")).
Proof.
  intros fm. exact (shutdown_flushes_ten (E := nat) (mkTaker []) (mkTaker []) (mkBuf 0 4096 0 None 0 [] 0)
    4096 0 0 SHUT_WR (replicate 11 (str "x")) eq_refl eq_refl ltac:(vm_compute; reflexivity)
    (λ c l, ex_intro _ _ eq_refl) (or_introl eq_refl)).
Defined.

(** *** Flow control *)

(** Polling says that the stream can be written exactly if the buffer is below its
    threshold.  If it is not, the child is watched until it can take more, unless a
    flush has failed: then nothing wakes the application up, although a write would
    return the error, which is what z_stream_buf_space_avail is meant to let it do. *)
Theorem streambuf_flow_spec {E : Type} (self : ZStreamBuf E) (s : watch) :
  0 < sb_buf_threshold self →
  let '(ret, child_read, child_pri, child_out) := z_stream_buf_watch_prepare self s in
  ret = z_stream_buf_watch_check self s ∧
  (ret = true ↔ want_write s = true ∧ sb_current_size self < sb_buf_threshold self) ∧
  child_read = want_read s ∧ child_pri = want_pri s ∧
  (want_write s = true → ret = false → sb_flush_error self = None → child_out = true) ∧
  (is_Some (sb_flush_error self) →
     child_out = false ∧ z_stream_buf_space_avail self = true ∧
     (sb_buf_threshold self ≤ sb_current_size self → ret = false)).
Proof.
  intros Ht. cbn. unfold z_stream_buf_watch_check, z_stream_buf_space_avail,
    z_stream_buf_space_avail_internal. split_and!; try done.
  - rewrite andb_true_iff, Z.ltb_lt. done.
  - intros -> Hr ->. rewrite andb_true_l, Z.ltb_ge in Hr. rewrite bool_decide_true by done.
    destruct (sb_current_size self =? 0) eqn:Hz; [lia|done].
  - intros [e ->]. rewrite (bool_decide_false (Some e = None)), andb_false_r by done.
    rewrite bool_decide_true by eauto. split_and!; [done..|]. intros Hle.
    replace (_ <? _) with false by lia. by rewrite andb_false_r.
Qed.

Lemma streambuf_flow_spec_witness :
  let self := mkBuf (E := nat) 0 10 0 (Some 7%nat) 10 [] 0 in
  let '(ret, child_read, child_pri, child_out) := z_stream_buf_watch_prepare self (mkWatch true false true) in
  ret = z_stream_buf_watch_check self (mkWatch true false true) ∧
  (ret = true ↔ true = true ∧ 10 < 10) ∧ child_read = true ∧ child_pri = false ∧
  (true = true → ret = false → Some 7%nat = None → child_out = true) ∧
  (is_Some (Some 7%nat) →
     child_out = false ∧ z_stream_buf_space_avail self = true ∧ (10 ≤ 10 → ret = false)).
Proof.
  exact (streambuf_flow_spec (mkBuf (E := nat) 0 10 0 (Some 7%nat) 10 [] 0) (mkWatch true false true)
           ltac:(cbn; lia)).
Defined.

(** The write callback is given the user data of the read callback. *)
Example dispatch_wrong_data :
  z_stream_buf_watch_dispatch (mkWatch false false true) (λ _ u, bool_decide (u = "reader"%string))
    "reader"%string "writer"%string = true.
Proof. reflexivity. Qed.
