(* ===== verification/Stream.v ===== *)
(** * The base stream (src/src/stream.c, src/src/zorp/stream.h)

    Streams are reference counted objects that point to each other: a stream to its
    parent and its child, its callbacks to whoever registered them.  They live in a world
    that maps their numbers to their fields; a stream that was freed is gone from it, so
    that touching it is a [UseAfterFree].  The methods a class overrides are dispatched on
    its tag; the control messages that only one class knows, and what a class does when
    it is closed, are parameters. *)

From S2P Require Import Prelude Heap RefCount PacketBuf PacketStore StreamApi.
Open Scope Z_scope.

Inductive ZStreamClass : Set :=
| ZStreamFD__class | ZStreamBlob__class | ZStreamLine__class | ZStreamBuf__class
| ZStreamGzip__class | ZStreamSsl__class | ZStreamTee__class.

#[global] Instance ZStreamClass_eq_dec : EqDecision ZStreamClass.
Proof. solve_decision. Defined.

(** User data is a stream or something of the application; a GDestroyNotify is
    z_stream_unref or a function of the application. *)
Inductive user_data : Set := UStream (i : nat) | UApp (k : nat).
Inductive destroy_notify : Set := NUnref | NApp (k : nat).
Inductive callback : Set := CbApp (k : nat) | CbParent (cond : Z).

(** The fields want_read, user_data_read, user_data_read_notify and read_cb, and the
    same for the other two directions. *)
Record io_slot := mkSlot {
  want : bool;
  data : option user_data;
  notify : option destroy_notify;
  cb : option callback
}.

Definition no_slot : io_slot := mkSlot false None None None.

Record ZStream := mkStream {
  ref_cnt : Z;                     (* super.ref_cnt *)
  isa : ZStreamClass;
  name : list Z;
  timeout : Z;
  umbrella_state : Z;
  umbrella_flags : Z;
  ungot_bufs : list nat;           (* packets *)
  struct_ref : Z;
  parent : option nat;
  child : option nat;
  stack_depth : Z;
  source : bool;                   (* whether a source is attached *)
  bytes_recvd : Z;
  bytes_sent : Z;
  s_read : io_slot;
  s_pri : io_slot;
  s_write : io_slot;
  own : Z;                         (* what only the class knows: the flags of a ZStreamGzip *)
  tee_fork : option nat            (* fork, of a ZStreamTee *)
}.

#[global] Instance io_slot_eq_dec : EqDecision io_slot.
Proof. assert (EqDecision user_data) by solve_decision.
  assert (EqDecision destroy_notify) by solve_decision.
  assert (EqDecision callback) by solve_decision. solve_decision. Defined.

#[global] Instance ZStream_eq_dec : EqDecision ZStream.
Proof. solve_decision. Defined.

(** Changing fields. *)
Definition with_ref (n : Z) (s : ZStream) : ZStream :=
  mkStream n (isa s) (name s) (timeout s) (umbrella_state s) (umbrella_flags s) (ungot_bufs s)
    (struct_ref s) (parent s) (child s) (stack_depth s) (source s) (bytes_recvd s) (bytes_sent s)
    (s_read s) (s_pri s) (s_write s) (own s) (tee_fork s).
Definition with_name (n : list Z) (s : ZStream) : ZStream :=
  mkStream (ref_cnt s) (isa s) n (timeout s) (umbrella_state s) (umbrella_flags s) (ungot_bufs s)
    (struct_ref s) (parent s) (child s) (stack_depth s) (source s) (bytes_recvd s) (bytes_sent s)
    (s_read s) (s_pri s) (s_write s) (own s) (tee_fork s).
Definition with_timeout (t : Z) (s : ZStream) : ZStream :=
  mkStream (ref_cnt s) (isa s) (name s) t (umbrella_state s) (umbrella_flags s) (ungot_bufs s)
    (struct_ref s) (parent s) (child s) (stack_depth s) (source s) (bytes_recvd s) (bytes_sent s)
    (s_read s) (s_pri s) (s_write s) (own s) (tee_fork s).
Definition with_umbrella (u : Z) (s : ZStream) : ZStream :=
  mkStream (ref_cnt s) (isa s) (name s) (timeout s) u (umbrella_flags s) (ungot_bufs s)
    (struct_ref s) (parent s) (child s) (stack_depth s) (source s) (bytes_recvd s) (bytes_sent s)
    (s_read s) (s_pri s) (s_write s) (own s) (tee_fork s).
Definition with_ungot (l : list nat) (s : ZStream) : ZStream :=
  mkStream (ref_cnt s) (isa s) (name s) (timeout s) (umbrella_state s) (umbrella_flags s) l
    (struct_ref s) (parent s) (child s) (stack_depth s) (source s) (bytes_recvd s) (bytes_sent s)
    (s_read s) (s_pri s) (s_write s) (own s) (tee_fork s).
Definition with_struct_ref (n : Z) (s : ZStream) : ZStream :=
  mkStream (ref_cnt s) (isa s) (name s) (timeout s) (umbrella_state s) (umbrella_flags s) (ungot_bufs s)
    n (parent s) (child s) (stack_depth s) (source s) (bytes_recvd s) (bytes_sent s)
    (s_read s) (s_pri s) (s_write s) (own s) (tee_fork s).
Definition with_parent (p : option nat) (s : ZStream) : ZStream :=
  mkStream (ref_cnt s) (isa s) (name s) (timeout s) (umbrella_state s) (umbrella_flags s) (ungot_bufs s)
    (struct_ref s) p (child s) (stack_depth s) (source s) (bytes_recvd s) (bytes_sent s)
    (s_read s) (s_pri s) (s_write s) (own s) (tee_fork s).
Definition with_child (c : option nat) (s : ZStream) : ZStream :=
  mkStream (ref_cnt s) (isa s) (name s) (timeout s) (umbrella_state s) (umbrella_flags s) (ungot_bufs s)
    (struct_ref s) (parent s) c (stack_depth s) (source s) (bytes_recvd s) (bytes_sent s)
    (s_read s) (s_pri s) (s_write s) (own s) (tee_fork s).
Definition with_depth (d : Z) (s : ZStream) : ZStream :=
  mkStream (ref_cnt s) (isa s) (name s) (timeout s) (umbrella_state s) (umbrella_flags s) (ungot_bufs s)
    (struct_ref s) (parent s) (child s) d (source s) (bytes_recvd s) (bytes_sent s)
    (s_read s) (s_pri s) (s_write s) (own s) (tee_fork s).
Definition with_source (b : bool) (s : ZStream) : ZStream :=
  mkStream (ref_cnt s) (isa s) (name s) (timeout s) (umbrella_state s) (umbrella_flags s) (ungot_bufs s)
    (struct_ref s) (parent s) (child s) (stack_depth s) b (bytes_recvd s) (bytes_sent s)
    (s_read s) (s_pri s) (s_write s) (own s) (tee_fork s).
Definition with_counts (r t : Z) (s : ZStream) : ZStream :=
  mkStream (ref_cnt s) (isa s) (name s) (timeout s) (umbrella_state s) (umbrella_flags s) (ungot_bufs s)
    (struct_ref s) (parent s) (child s) (stack_depth s) (source s) r t
    (s_read s) (s_pri s) (s_write s) (own s) (tee_fork s).
Definition with_own (o : Z) (s : ZStream) : ZStream :=
  mkStream (ref_cnt s) (isa s) (name s) (timeout s) (umbrella_state s) (umbrella_flags s) (ungot_bufs s)
    (struct_ref s) (parent s) (child s) (stack_depth s) (source s) (bytes_recvd s) (bytes_sent s)
    (s_read s) (s_pri s) (s_write s) o (tee_fork s).
Definition with_slots (r p w : io_slot) (s : ZStream) : ZStream :=
  mkStream (ref_cnt s) (isa s) (name s) (timeout s) (umbrella_state s) (umbrella_flags s) (ungot_bufs s)
    (struct_ref s) (parent s) (child s) (stack_depth s) (source s) (bytes_recvd s) (bytes_sent s)
    r p w (own s) (tee_fork s).

(** The private state and the timeout. *)
Definition with_priv (e : Z * Z) (s : ZStream) : ZStream := with_timeout (snd e) (with_own (fst e) s).

(** The three directions. *)
Inductive direction : Set := DRead | DPri | DWrite.

#[global] Instance direction_eq_dec : EqDecision direction.
Proof. solve_decision. Defined.

Definition get_slot (d : direction) (s : ZStream) : io_slot :=
  match d with DRead => s_read s | DPri => s_pri s | DWrite => s_write s end.
Definition set_slot (d : direction) (x : io_slot) (s : ZStream) : ZStream :=
  match d with
  | DRead => with_slots x (s_pri s) (s_write s) s
  | DPri => with_slots (s_read s) x (s_write s) s
  | DWrite => with_slots (s_read s) (s_pri s) x s
  end.

(** ** The world *)

Record world := mkWorld {
  w_streams : gmap nat ZStream;
  w_store : store;
  w_notified : list (nat * option user_data)   (* calls of the application's functions *)
}.

Definition get_stream (w : world) (i : nat) : outcome ZStream :=
  match w_streams w !! i with Some s => Done s | None => Fault UseAfterFree end.

Definition upd (i : nat) (f : ZStream → ZStream) (w : world) : world :=
  mkWorld (alter f i (w_streams w)) (w_store w) (w_notified w).
Definition del (i : nat) (w : world) : world :=
  mkWorld (delete i (w_streams w)) (w_store w) (w_notified w).
Definition with_store (st : store) (w : world) : world :=
  mkWorld (w_streams w) st (w_notified w).
Definition log_notify (k : nat) (d : option user_data) (w : world) : world :=
  mkWorld (w_streams w) (w_store w) (w_notified w ++ [(k, d)]).

(** z_stream_new: everything else is zero. *)
Definition z_stream_new (class : ZStreamClass) (nm : list Z) (flags : Z) : ZStream :=
  mkStream 1 class nm (-2) flags flags [] (z_refcount_set 1) None None 0 false 0 0
           no_slot no_slot no_slot 0 None.

Definition z_stream_ref (w : world) (i : nat) : outcome world :=
  s ← get_stream w i; n ← z_refcount_inc (ref_cnt s); Done (upd i (with_ref n) w).

Definition z_stream_struct_ref (w : world) (i : nat) : outcome world :=
  s ← get_stream w i; n ← z_refcount_inc (struct_ref s); Done (upd i (with_struct_ref n) w).

(** ** Releasing

    Releasing the last reference frees a stream, which calls the notify functions of its
    callbacks, which release other streams. *)

Definition call_notify (unref : world → nat → outcome world) (w : world) (n : destroy_notify)
    (d : option user_data) : outcome world :=
  match n, d with
  | NUnref, None => Done w
  | NUnref, Some (UStream j) => unref w j
  | NUnref, Some (UApp _) => Fault OutOfBounds
  | NApp k, _ => Done (log_notify k d w)
  end.

Definition drop_callback (unref : world → nat → outcome world) (d : direction) (w : world) (i : nat)
    : outcome world :=
  s ← get_stream w i;
  let x := get_slot d s in
  w ← match data x, notify x with
      | Some u, Some n => call_notify unref w n (Some u)
      | _, _ => Done w
      end;
  s ← get_stream w i;
  let x := get_slot d s in
  Done (upd i (set_slot d (mkSlot (want x) None (notify x) None)) w).

Definition drop_callbacks (unref : world → nat → outcome world) (w : world) (i : nat) : outcome world :=
  w ← drop_callback unref DRead w i;
  w ← drop_callback unref DWrite w i;
  drop_callback unref DPri w i.

(** The packets that were put back are released. *)
Fixpoint free_ungot (st : store) (l : list nat) : outcome store :=
  match l with [] => Done st | i :: l => st ← pkt_unref st i; free_ungot st l end.

Definition z_stream_free_method (unref : world → nat → outcome world) (w : world) (i : nat)
    : outcome world :=
  s ← get_stream w i;
  _ ← require (child s = None) AssertFailed;
  st ← free_ungot (w_store w) (ungot_bufs s);
  let w := upd i (with_ungot []) (with_store st w) in
  w ← drop_callbacks unref w i;
  Done (del i w).

(** A ZStreamTee lets its fork go first; z_object_unref ignores NULL. *)
Definition z_stream_tee_free_method (unref : world → nat → outcome world) (w : world) (i : nat)
    : outcome world :=
  s ← get_stream w i;
  w ← match tee_fork s with Some f => unref w f | None => Done w end;
  z_stream_free_method unref w i.

(** The free functions of the classes: the others only free what is theirs, which is not in
    this world, before they call the one of ZStream. *)
Definition class_free (unref : world → nat → outcome world) (w : world) (i : nat) : outcome world :=
  s ← get_stream w i;
  match isa s with
  | ZStreamTee__class => z_stream_tee_free_method unref w i
  | _ => z_stream_free_method unref w i
  end.

Fixpoint unref_loop (fuel : nat) (w : world) (i : nat) : outcome world :=
  match fuel with
  | O => Fault OutOfFuel
  | S fuel =>
      s ← get_stream w i;
      '(zero, n) ← z_refcount_dec (ref_cnt s);
      let w := upd i (with_ref n) w in
      if zero : bool then class_free (unref_loop fuel) w i else Done w
  end.

(** Every stream is freed once at most, so that this many nested calls are enough. *)
Definition z_stream_unref (w : world) (i : nat) : outcome world :=
  unref_loop (S (size (w_streams w))) w i.

Definition z_stream_drop_callbacks : world → nat → outcome world := drop_callbacks z_stream_unref.

(** ** Control *)

(** What the value of a control call points to: a gboolean or a gint, or a ZStreamSetCb;
    its length is the size of that. *)
Inductive ctrl_value : Set :=
| ValInt (n : Z)
| ValCb (c : option callback) (d : option user_data) (n : option destroy_notify).

Definition of_bool (b : bool) : Z := if b then 1 else 0.
Definition to_bool (n : Z) : bool := negb (n =? 0).

Definition ctrl_result : Type := bool * ctrl_value * world.

Definition set_cond (d : direction) (w : world) (s : nat) (v : ctrl_value) : outcome ctrl_result :=
  match v with
  | ValInt n => Done (true, v, upd s (λ x, set_slot d
      (mkSlot (to_bool n) (data (get_slot d x)) (notify (get_slot d x)) (cb (get_slot d x))) x) w)
  | _ => Done (false, v, w)
  end.

Definition get_cond (d : direction) (w : world) (s : nat) (v : ctrl_value) : outcome ctrl_result :=
  match v with
  | ValInt _ => x ← get_stream w s; Done (true, ValInt (of_bool (want (get_slot d x))), w)
  | _ => Done (false, v, w)
  end.

Definition set_callback (d : direction) (w : world) (s : nat) (v : ctrl_value) : outcome ctrl_result :=
  match v with
  | ValCb c u n =>
      x ← get_stream w s;
      w ← match notify (get_slot d x) with
          | Some old => call_notify z_stream_unref w old (data (get_slot d x))
          | None => Done w
          end;
      x ← get_stream w s;
      Done (true, v, upd s (set_slot d (mkSlot (want (get_slot d x)) u n c)) w)
  | _ => Done (false, v, w)
  end.

Definition get_callback (d : direction) (w : world) (s : nat) (v : ctrl_value) : outcome ctrl_result :=
  match v with
  | ValCb _ _ _ =>
      x ← get_stream w s;
      Done (true, ValCb (cb (get_slot d x)) (data (get_slot d x)) (notify (get_slot d x)), w)
  | _ => Done (false, v, w)
  end.

Definition set_timeout_block (w : world) (s : nat) (v : ctrl_value) : outcome ctrl_result :=
  match v with
  | ValInt n => Done (true, v, upd s (with_timeout n) w)
  | _ => Done (false, v, w)
  end.

(** The switch of z_stream_ctrl_method: [None] is its default. *)
Definition ctrl_case (msg : Z) : option (world → nat → ctrl_value → outcome ctrl_result) :=
  if msg =? ZST_CTRL_GET_COND_READ then Some (get_cond DRead)
  else if msg =? ZST_CTRL_SET_COND_READ then Some (set_cond DRead)
  else if msg =? ZST_CTRL_GET_COND_WRITE then Some (get_cond DWrite)
  else if msg =? ZST_CTRL_SET_COND_WRITE then Some (set_cond DWrite)
  else if msg =? ZST_CTRL_GET_COND_PRI then Some (get_cond DPri)
  else if msg =? ZST_CTRL_SET_COND_PRI then Some (set_cond DPri)
  else if msg =? ZST_CTRL_GET_CALLBACK_READ then Some (get_callback DRead)
  else if msg =? ZST_CTRL_SET_CALLBACK_READ then Some (set_callback DRead)
  else if msg =? ZST_CTRL_GET_CALLBACK_WRITE then Some (get_callback DWrite)
  else if msg =? ZST_CTRL_SET_CALLBACK_WRITE then Some (set_callback DWrite)
  else if msg =? ZST_CTRL_GET_CALLBACK_PRI then Some (get_callback DPri)
  else if msg =? ZST_CTRL_SET_CALLBACK_PRI then Some (set_callback DPri)
  else if msg =? ZST_CTRL_SET_TIMEOUT_BLOCK then Some set_timeout_block
  else None.

Section ctrl.
(** The control messages that a class answers itself: the answer with the value, the new
    private state and the new timeout, or [None] for the ones it passes on. *)
Context (own_ctrl : ZStream → Z → ctrl_value → option (bool * ctrl_value * (Z * Z))).

(** [ctrl] is z_stream_ctrl, for the child. *)
Definition z_stream_ctrl_method (ctrl : world → nat → Z → ctrl_value → outcome ctrl_result)
    (w : world) (s : nat) (function : Z) (v : ctrl_value) : outcome ctrl_result :=
  match ctrl_case (ZST_CTRL_MSG function) with
  | None =>
      x ← get_stream w s;
      match child x with
      | Some c => ctrl w c function v
      | None => Done (false, v, w)
      end
  | Some action =>
      '(res, v, w) ← action w s v;
      x ← get_stream w s;
      match child x with
      | Some c =>
          if (res : bool) && has function ZST_CTRL_MSG_FORWARD then ctrl w c function v
          else Done (res, v, w)
      | None => Done (res, v, w)
      end
  end.

(** How the ctrl methods of the classes call the one of ZStream: the streams in the
    middle of a stack pass most messages on to all streams below. *)
Definition class_function (class : ZStreamClass) (function : Z) : Z :=
  let msg := ZST_CTRL_MSG function in
  let sets_callback := (msg =? ZST_CTRL_SET_CALLBACK_READ) || (msg =? ZST_CTRL_SET_CALLBACK_WRITE)
                       || (msg =? ZST_CTRL_SET_CALLBACK_PRI) in
  match class with
  | ZStreamFD__class | ZStreamBlob__class => function
  | ZStreamBuf__class =>
      if sets_callback || (msg =? ZST_CTRL_SET_COND_READ) || (msg =? ZST_CTRL_SET_COND_WRITE)
         || (msg =? ZST_CTRL_SET_COND_PRI)
      then function else Z.lor ZST_CTRL_MSG_FORWARD function
  | _ => if sets_callback then function else Z.lor ZST_CTRL_MSG_FORWARD function
  end.

(** z_stream_ctrl: the virtual call; the fuel is the height of the stack. *)
Fixpoint z_stream_ctrl (fuel : nat) (w : world) (s : nat) (function : Z) (v : ctrl_value)
    : outcome ctrl_result :=
  match fuel with
  | O => Fault OutOfFuel
  | S fuel =>
      x ← get_stream w s;
      match own_ctrl x (ZST_CTRL_MSG function) v with
      | Some (res, v, e) => Done (res, v, upd s (with_priv e) w)
      | None => z_stream_ctrl_method (z_stream_ctrl fuel) w s (class_function (isa x) function) v
      end
  end.

(** z_stream_blob_ctrl_method: a ZStreamBlob has no mode but its timeout. *)
Definition z_stream_blob_ctrl (x : ZStream) (msg : Z) (v : ctrl_value) : option (bool * ctrl_value * (Z * Z)) :=
  if msg =? ZST_CTRL_SET_NONBLOCK then
    match v with
    | ValInt n => Some (true, v, (own x, if to_bool n then 0 else -1))
    | _ => Some (false, v, (own x, timeout x))
    end
  else if msg =? ZST_CTRL_GET_NONBLOCK then
    match v with
    | ValInt _ => Some (true, ValInt (of_bool (timeout x =? 0)), (own x, timeout x))
    | _ => Some (false, v, (own x, timeout x))
    end
  else None.

Definition height (w : world) : nat := S (size (w_streams w)).

Definition z_stream_set_cond (w : world) (s : nat) (type : Z) (value : bool) : outcome ctrl_result :=
  let v := ValInt (of_bool value) in
  if type =? G_IO_IN then z_stream_ctrl (height w) w s ZST_CTRL_SET_COND_READ v
  else if type =? G_IO_OUT then z_stream_ctrl (height w) w s ZST_CTRL_SET_COND_WRITE v
  else if type =? G_IO_PRI then z_stream_ctrl (height w) w s ZST_CTRL_SET_COND_PRI v
  else Done (false, v, w).

Definition z_stream_set_callback (w : world) (s : nat) (type : Z) (c : option callback)
    (u : option user_data) (n : option destroy_notify) : outcome ctrl_result :=
  let v := ValCb c u n in
  if type =? G_IO_IN then z_stream_ctrl (height w) w s ZST_CTRL_SET_CALLBACK_READ v
  else if type =? G_IO_OUT then z_stream_ctrl (height w) w s ZST_CTRL_SET_CALLBACK_WRITE v
  else if type =? G_IO_PRI then z_stream_ctrl (height w) w s ZST_CTRL_SET_CALLBACK_PRI v
  else Done (false, v, w).

(** When no stream answers, the result is the variable that was never set. *)
Definition z_stream_get_nonblock (uninitialised : Z) (w : world) (s : nat) : outcome (bool * world) :=
  '(_, v, w) ← z_stream_ctrl (height w) w s ZST_CTRL_GET_NONBLOCK (ValInt uninitialised);
  Done (match v with ValInt n => to_bool n | _ => false end, w).

Definition z_stream_set_nonblock (w : world) (s : nat) (nonblock : bool) : outcome (bool * world) :=
  '(res, _, w) ← z_stream_ctrl (height w) w s ZST_CTRL_SET_NONBLOCK (ValInt (of_bool nonblock));
  Done (res, w).
End ctrl.

(** ** Stacking *)

Fixpoint z_stream_set_name (fuel : nat) (w : world) (s : nat) (new_name : list Z) : outcome world :=
  match fuel with
  | O => Fault OutOfFuel
  | S fuel =>
      x ← get_stream w s;
      let w := upd s (with_name new_name) w in
      match child x with
      | Some c => z_stream_set_name fuel w c new_name
      | None => Done w
      end
  end.

(** The loop that takes the directions of a new top away from all streams below. *)
Fixpoint umbrella_loop (fuel : nat) (w : world) (p : nat) (flags : Z) : outcome world :=
  match fuel with
  | O => Fault OutOfFuel
  | S fuel =>
      x ← get_stream w p;
      match child x with
      | Some c =>
          y ← get_stream w c;
          umbrella_loop fuel (upd c (with_umbrella (Z.land (umbrella_state y) (Z.lnot flags))) w) c flags
      | None => Done w
      end
  end.

(** The callbacks a class registers with its child in its set_child method. *)
Definition child_callbacks (class : ZStreamClass) : list Z :=
  match class with
  | ZStreamFD__class | ZStreamBlob__class => []
  | ZStreamGzip__class => [G_IO_IN; G_IO_OUT]
  | _ => [G_IO_IN; G_IO_OUT; G_IO_PRI]
  end.

(** Whether a class overrides set_child. *)
Definition overrides_set_child (class : ZStreamClass) : bool :=
  match class with ZStreamFD__class | ZStreamBlob__class => false | _ => true end.

Section stacking.
Context (own_ctrl : ZStream → Z → ctrl_value → option (bool * ctrl_value * (Z * Z))).

(** The detaching of the old child.  [struct_unref] is z_stream_struct_unref. *)
Definition detach_child (struct_unref : world → nat → outcome world) (w : world) (self c : nat)
    : outcome world :=
  y ← get_stream w c;
  _ ← require (parent y = Some self) AssertFailed;
  let w := upd c (with_umbrella (umbrella_flags y)) w in
  w ← z_stream_drop_callbacks w c;
  let w := upd self (with_child None) (upd c (with_parent None) w) in
  w ← struct_unref w c;
  w ← z_stream_unref w c;
  z_stream_unref w self.

(** The attaching of the new one. *)
Definition attach_child (w : world) (self n : nat) : outcome world :=
  y ← get_stream w n;
  _ ← require (parent y = None) AssertFailed;
  let w := upd self (with_depth (stack_depth y + 1)) w in
  w ← z_stream_set_name (height w) w self (name y);
  w ← z_stream_ref w self;
  let w := upd n (with_parent (Some self)) w in
  w ← z_stream_ref w n;
  let w := upd self (with_child (Some n)) w in
  w ← z_stream_struct_ref w n;
  y ← get_stream w n;
  let w := upd self (with_timeout (timeout y)) w in
  x ← get_stream w self;
  umbrella_loop (height w) w self (umbrella_flags x).

Definition z_stream_set_child_method (struct_unref : world → nat → outcome world)
    (w : world) (self : nat) (new_child : option nat) : outcome world :=
  x ← get_stream w self;
  w ← match child x with Some c => detach_child struct_unref w self c | None => Done w end;
  match new_child with Some n => attach_child w self n | None => Done w end.

(** Registering the callbacks of [s] with its new child. *)
Fixpoint register_callbacks (w : world) (s n : nat) (conds : list Z) : outcome world :=
  match conds with
  | [] => Done w
  | c :: conds =>
      w ← z_stream_ref w s;
      '(_, _, w) ← z_stream_set_callback own_ctrl w n c (Some (CbParent c)) (Some (UStream s)) (Some NUnref);
      register_callbacks w s n conds
  end.

(** The g_assert of z_stream_gzip_set_child: a stream with gzip headers wants a blocking
    child.  When no stream answers, the variable that is tested was never set. *)
Definition assert_blocking (w : world) (n : nat) : outcome world :=
  '(answered, v, w) ← z_stream_ctrl own_ctrl (height w) w n ZST_CTRL_GET_NONBLOCK (ValInt 0);
  _ ← require (answered = true) OutOfBounds;
  _ ← require (match v with ValInt n => to_bool n | _ => false end = false) AssertFailed;
  Done w.

Definition header_gzip (x : ZStream) : bool :=
  bool_decide (isa x = ZStreamGzip__class) && has (own x) Z_SGZ_GZIP_HEADER.

(** The set_child methods of the classes; a ZStreamBuf makes its child non-blocking.
    (ZStreamSsl also connects its BIO.) *)
Definition class_set_child (struct_unref : world → nat → outcome world)
    (w : world) (s : nat) (new_child : option nat) : outcome world :=
  x ← get_stream w s;
  if overrides_set_child (isa x) then
    w ← z_stream_ref w s;
    w ← z_stream_set_child_method struct_unref w s new_child;
    w ← match new_child with
        | Some n =>
            w ← register_callbacks w s n (child_callbacks (isa x));
            if bool_decide (isa x = ZStreamBuf__class)
            then '(_, w) ← z_stream_set_nonblock own_ctrl w n true; Done w
            else if header_gzip x then assert_blocking w n
            else Done w
        | None => Done w
        end;
    z_stream_unref w s
  else z_stream_set_child_method struct_unref w s new_child.

Fixpoint struct_unref_loop (fuel : nat) (w : world) (i : nat) : outcome world :=
  match fuel with
  | O => Fault OutOfFuel
  | S fuel =>
      s ← get_stream w i;
      '(zero, n) ← z_refcount_dec (struct_ref s);
      let w := upd i (with_struct_ref n) w in
      if zero : bool then
        match child s with
        | Some c =>
            w ← z_stream_ref w c;
            w ← class_set_child (struct_unref_loop fuel) w i None;
            z_stream_unref w c
        | None => Done w
        end
      else Done w
  end.

Definition z_stream_struct_unref (w : world) (i : nat) : outcome world :=
  struct_unref_loop (height w) w i.

Definition z_stream_set_child : world → nat → option nat → outcome world :=
  class_set_child z_stream_struct_unref.

Definition z_stream_destroy : world → nat → outcome world := z_stream_struct_unref.

Definition z_stream_push (w : world) (self new_top : nat) : outcome (nat * world) :=
  w ← z_stream_set_child w new_top (Some self);
  w ← z_stream_unref w self;
  Done (new_top, w).

Definition z_stream_pop (w : world) (self : nat) : outcome (option nat * world) :=
  x ← get_stream w self;
  match child x with
  | None => Done (None, w)
  | Some new_top =>
      w ← z_stream_ref w new_top;
      let w := upd self (with_umbrella (umbrella_flags x)) w in
      w ← z_stream_set_child w self None;
      y ← get_stream w new_top;
      let w := upd new_top (with_umbrella (umbrella_flags y)) w in
      w ← z_stream_unref w self;
      Done (Some new_top, w)
  end.

(** z_stream_search_stack *)
Fixpoint search_loop (fuel : nat) (w : world) (p : option nat) (direction : Z) (class : ZStreamClass)
    : outcome (option nat) :=
  match p with
  | None => Done None
  | Some i =>
      match fuel with
      | O => Fault OutOfFuel
      | S fuel =>
          x ← get_stream w i;
          if decide (isa x = class) then Done (Some i)
          else if Z.land (umbrella_flags x) direction =? direction then Done None
          else search_loop fuel w (child x) direction class
      end
  end.

Definition z_stream_search_stack (w : world) (self : nat) (direction : Z) (class : ZStreamClass)
    : outcome (option nat) := search_loop (height w) w (Some self) direction class.

(** ** Closing, and the sources of a poll loop *)

(** What closing the channel of a ZStreamFD returns, and the shutdown method of a
    ZStreamGzip (StreamGzip.v), which writes what is pending to its child. *)
Context (channel_shutdown : ZStream → GIOStatus).
Context (gzip_shutdown : world → nat → outcome (GIOStatus * world)).

Definition z_stream_close_method (close : world → nat → outcome (GIOStatus * world))
    (w : world) (i : nat) : outcome (GIOStatus * world) :=
  s ← get_stream w i;
  '(res, w) ← match child s with Some c => close w c | None => Done (G_IO_STATUS_NORMAL, w) end;
  w ← z_stream_struct_unref w i;
  Done (res, w).

(** A ZStreamFD closes its channel after its child. *)
Definition fd_close (close : world → nat → outcome (GIOStatus * world)) (w : world) (i : nat)
    : outcome (GIOStatus * world) :=
  s ← get_stream w i;
  '(res, w) ← z_stream_close_method close w i;
  Done (if decide (res = G_IO_STATUS_NORMAL) then channel_shutdown s else res, w).

(** A ZStreamGzip shuts down first; its child is closed even if that failed. *)
Definition gzip_close (close : world → nat → outcome (GIOStatus * world)) (w : world) (i : nat)
    : outcome (GIOStatus * world) :=
  '(st_shutdown, w) ← gzip_shutdown w i;
  '(st_close, w) ← z_stream_close_method close w i;
  Done (if decide (st_shutdown = G_IO_STATUS_NORMAL) then st_close else st_shutdown, w).

(** A ZStreamTee closes its fork first; its child is only closed if that succeeds. *)
Definition tee_close (close : world → nat → outcome (GIOStatus * world)) (w : world) (i : nat)
    : outcome (GIOStatus * world) :=
  s ← get_stream w i;
  '(res, w) ← match tee_fork s with Some f => close w f | None => Fault OutOfBounds end;
  if decide (res = G_IO_STATUS_NORMAL) then z_stream_close_method close w i else Done (res, w).

(** z_stream_close: the virtual call; the other classes inherit the method of ZStream. *)
Fixpoint z_stream_close (fuel : nat) (w : world) (i : nat) : outcome (GIOStatus * world) :=
  match fuel with
  | O => Fault OutOfFuel
  | S fuel =>
      s ← get_stream w i;
      match isa s with
      | ZStreamFD__class => fd_close (z_stream_close fuel) w i
      | ZStreamGzip__class => gzip_close (z_stream_close fuel) w i
      | ZStreamTee__class => tee_close (z_stream_close fuel) w i
      | _ => z_stream_close_method (z_stream_close fuel) w i
      end
  end.

(** A source holds a reference to its stream, which its finalizer releases; GLib runs
    the finalizer when the last reference to a destroyed source is dropped, which is at
    once outside of its dispatch function. *)
Fixpoint z_stream_attach_source (fuel : nat) (w : world) (i : nat) : outcome world :=
  match fuel with
  | O => Fault OutOfFuel
  | S fuel =>
      s ← get_stream w i;
      _ ← require (source s = false) AssertFailed;
      w ← z_stream_ref w i;
      w ← z_stream_struct_ref w i;
      w ← match child s with Some c => z_stream_attach_source fuel w c | None => Done w end;
      w ← z_stream_ref w i;
      let w := upd i (with_source true) w in
      z_stream_unref w i
  end.

Fixpoint z_stream_detach_source (fuel : nat) (w : world) (i : nat) : outcome world :=
  match fuel with
  | O => Fault OutOfFuel
  | S fuel =>
      s ← get_stream w i;
      w ← (if source s then z_stream_unref (upd i (with_source false) w) i else Done w);
      s' ← get_stream w i;
      w ← match child s' with Some c => z_stream_detach_source fuel w c | None => Done w end;
      if source s then z_stream_struct_unref w i else Done w
  end.

(** *** The functions of a source

    GLib says whether the source of a stream is still active and whether its dispatch
    function is running ([active], [running]); what the class does is given by
    [watch_prepare], [watch_check] and [watch_dispatch], and what the read callback of the
    application does by [call_read]. *)

Section sources.
Context (active running : nat → bool).
Context (watch_prepare : world → nat → outcome (bool * option Z * world)).
Context (watch_check watch_dispatch call_read : world → nat → outcome (bool * world)).

(** The loop of z_stream_source_grab_ref: the top of the stack, if the sources of the
    stream and of all above it are alive. *)
Fixpoint grab_loop (fuel : nat) (w : world) (in_call : bool) (p top : option nat) : outcome (option nat) :=
  match p with
  | None => Done top
  | Some i =>
      match fuel with
      | O => Fault OutOfFuel
      | S fuel =>
          s ← get_stream w i;
          if source s && active i && (in_call || negb (running i))
          then grab_loop fuel w false (parent s) (Some i) else Done None
      end
  end.

Definition z_stream_source_grab_ref (w : world) (i : nat) (in_call : bool)
    : outcome (option (nat * world)) :=
  top ← grab_loop (height w) w in_call (Some i) None;
  match top with
  | Some t => w ← z_stream_struct_ref w t; Done (Some (t, w))
  | None => Done None
  end.

Definition has_ungot (s : ZStream) : bool := want (s_read s) && bool_decide (ungot_bufs s ≠ []).

(** The timeout is only set if the source is ready or the class sets it. *)
Definition z_stream_source_prepare (w : world) (i : nat) : outcome (bool * option Z * world) :=
  g ← z_stream_source_grab_ref w i false;
  match g with
  | None => Done (false, None, w)
  | Some (top, w) =>
      s ← get_stream w i;
      '(ret, timeout, w) ← (if has_ungot s then Done (true, Some 0, w) else watch_prepare w i);
      w ← z_stream_struct_unref w top;
      Done (ret, timeout, w)
  end.

Definition z_stream_source_check (w : world) (i : nat) : outcome (bool * world) :=
  g ← z_stream_source_grab_ref w i false;
  match g with
  | None => Done (false, w)
  | Some (top, w) =>
      s ← get_stream w i;
      '(ret, w) ← (if has_ungot s then Done (true, w) else watch_check w i);
      w ← z_stream_struct_unref w top;
      Done (ret, w)
  end.

Definition z_stream_source_dispatch (w : world) (i : nat) : outcome (bool * world) :=
  g ← z_stream_source_grab_ref w i true;
  match g with
  | None => Done (true, w)
  | Some (top, w) =>
      s ← get_stream w i;
      '(ret, w) ← (if has_ungot s then call_read w i else watch_dispatch w i);
      w ← (if ret : bool then Done w else
             w ← z_stream_ref w top;
             w ← z_stream_detach_source (height w) w top;
             z_stream_unref w top);
      w ← z_stream_struct_unref w top;
      Done (ret, w)
  end.
End sources.
End stacking.

(** ** Contexts *)

Record ZStreamContext := mkContext {
  c_restored : bool;
  c_read : io_slot;
  c_pri : io_slot;
  c_write : io_slot;
  c_timeout : Z;
  c_nonblocking : bool;
  c_extra : option (list Z)        (* stream_extra: one number per stream that saves some *)
}.

(** z_stream_context_destroy: the notify functions of what was not restored are called. *)
Definition notify_saved (w : world) (x : io_slot) : outcome world :=
  match data x, notify x with
  | Some u, Some n => call_notify z_stream_unref w n (Some u)
  | _, _ => Done w
  end.

Definition z_stream_context_destroy (w : world) (c : ZStreamContext) : outcome (ZStreamContext * world) :=
  if c_restored c then Done (c, w)
  else
    w ← notify_saved w (c_read c);
    w ← notify_saved w (c_write c);
    w ← notify_saved w (c_pri c);
    Done (mkContext true (c_read c) (c_pri c) (c_write c) (c_timeout c) (c_nonblocking c) None, w).

Section context.
Context (own_ctrl : ZStream → Z → ctrl_value → option (bool * ctrl_value * (Z * Z))).
(** Which part of its private state a class saves: [extra_of] and how it is put back
    ([None]: the class saves nothing). *)
Context (extra_save : ZStream → option Z) (extra_restore : ZStream → Z → Z).

(** z_stream_extra_save: the streams below come first. *)
Fixpoint z_stream_extra_save (fuel : nat) (w : world) (i : nat) : outcome (list Z) :=
  match fuel with
  | O => Fault OutOfFuel
  | S fuel =>
      s ← get_stream w i;
      l ← match child s with Some c => z_stream_extra_save fuel w c | None => Done [] end;
      Done (l ++ match extra_save s with Some e => [e] | None => [] end)
  end.

(** The result is what is left of the extra data. *)
Fixpoint z_stream_extra_restore (fuel : nat) (w : world) (i : nat) (extra : list Z)
    : outcome (list Z * world) :=
  match fuel with
  | O => Fault OutOfFuel
  | S fuel =>
      s ← get_stream w i;
      '(extra, w) ← match child s with
                    | Some c => z_stream_extra_restore fuel w c extra
                    | None => Done (extra, w)
                    end;
      match extra_save s, extra with
      | None, _ => Done (extra, w)
      | Some _, e :: extra => Done (extra, upd i (λ s, with_own (extra_restore s e) s) w)
      | Some _, [] => Fault OutOfBounds
      end
  end.

(** g_malloc0 of no bytes is NULL. *)
Definition z_stream_save_context (uninitialised : Z) (w : world) (i : nat)
    : outcome (ZStreamContext * world) :=
  s ← get_stream w i;
  '(nonblocking, w) ← z_stream_get_nonblock own_ctrl uninitialised w i;
  let w := upd i (with_slots no_slot no_slot no_slot) w in
  extra ← z_stream_extra_save (height w) w i;
  Done (mkContext false (s_read s) (s_pri s) (s_write s) (timeout s) nonblocking
                  (match extra with [] => None | _ => Some extra end), w).

Definition z_stream_restore_context (w : world) (i : nat) (c : ZStreamContext)
    : outcome (bool * ZStreamContext * world) :=
  if c_restored c then Done (false, c, w)
  else
    w ← z_stream_drop_callbacks w i;
    let w := upd i (λ s, with_timeout (c_timeout c)
                          (with_slots (c_read c) (c_pri c) (c_write c) s)) w in
    '(_, w) ← z_stream_set_nonblock own_ctrl w i (c_nonblocking c);
    w ← match c_extra c with
        | Some extra => '(_, w) ← z_stream_extra_restore (height w) w i extra; Done w
        | None => Done w
        end;
    Done (true, mkContext true (c_read c) (c_pri c) (c_write c) (c_timeout c) (c_nonblocking c) None, w).
End context.
