(* ===== verification/StreamStack.v ===== *)
(** * Stacks of streams

    Pushing, popping, closing and destroying stacks of streams (Stream.v) keeps the
    counters of all streams equal to the references that are there, frees every stream of
    a stack that is given up, and touches none of the others. *)

From S2P Require Import Prelude RefCount PacketStore StreamApi Stream.
From stdpp Require Import fin_maps.
Open Scope Z_scope.

(** ** Two streams of a world

    Most operations touch a stream and its child; the world is written as those two
    inserted into the rest, so that each step is a rewriting. *)

Section two.
Context (m : gmap nat ZStream) (st : store).
Context (i c : nat) (Hic : i ≠ c).

Definition two (si sc : ZStream) (lg : list (nat * option user_data)) : world :=
  mkWorld (<[i := si]> (<[c := sc]> m)) st lg.

Lemma get_l si sc lg : get_stream (two si sc lg) i = Done si.
Proof. unfold get_stream. cbn. by rewrite lookup_insert_eq. Qed.

Lemma get_r si sc lg : get_stream (two si sc lg) c = Done sc.
Proof. unfold get_stream. cbn. by rewrite lookup_insert_ne, lookup_insert_eq. Qed.

Lemma upd_l f si sc lg : upd i f (two si sc lg) = two (f si) sc lg.
Proof.
  unfold upd, two. cbn. f_equal. apply map_eq. intros j.
  destruct (decide (i = j)) as [<-|]; [by rewrite lookup_alter_eq, !lookup_insert_eq|].
  by rewrite lookup_alter_ne, !(lookup_insert_ne _ i) by done.
Qed.

Lemma upd_r f si sc lg : upd c f (two si sc lg) = two si (f sc) lg.
Proof.
  unfold upd, two. cbn. f_equal. apply map_eq. intros j.
  destruct (decide (c = j)) as [<-|].
  - by rewrite lookup_alter_eq, !(lookup_insert_ne _ i), !lookup_insert_eq by done.
  - rewrite lookup_alter_ne by done. destruct (decide (i = j)) as [<-|].
    + by rewrite !lookup_insert_eq.
    + by rewrite !(lookup_insert_ne _ i), !(lookup_insert_ne _ c) by done.
Qed.

Lemma height_two si sc lg : ∃ n, height (two si sc lg) = S n.
Proof. by eexists. Qed.

Lemma ref_l si sc lg : 0 < ref_cnt si < MAX_REF →
  z_stream_ref (two si sc lg) i = Done (two (with_ref (ref_cnt si + 1) si) sc lg).
Proof.
  intros. unfold z_stream_ref, z_refcount_inc. rewrite get_l, Done_bind, require_true by lia.
  by rewrite !Done_bind, upd_l.
Qed.

Lemma ref_r si sc lg : 0 < ref_cnt sc < MAX_REF →
  z_stream_ref (two si sc lg) c = Done (two si (with_ref (ref_cnt sc + 1) sc) lg).
Proof.
  intros. unfold z_stream_ref, z_refcount_inc. rewrite get_r, Done_bind, require_true by lia.
  by rewrite !Done_bind, upd_r.
Qed.

Lemma struct_ref_r si sc lg : 0 < struct_ref sc < MAX_REF →
  z_stream_struct_ref (two si sc lg) c = Done (two si (with_struct_ref (struct_ref sc + 1) sc) lg).
Proof.
  intros. unfold z_stream_struct_ref, z_refcount_inc. rewrite get_r, Done_bind, require_true by lia.
  by rewrite !Done_bind, upd_r.
Qed.

(** A release that is not the last one. *)
Lemma unref_l si sc lg : 1 < ref_cnt si < MAX_REF →
  z_stream_unref (two si sc lg) i = Done (two (with_ref (ref_cnt si - 1) si) sc lg).
Proof.
  intros. unfold z_stream_unref. cbn [unref_loop]. unfold z_refcount_dec.
  rewrite get_l, Done_bind, require_true, !Done_bind by lia.
  by rewrite bool_decide_false, upd_l by lia.
Qed.

Lemma unref_r si sc lg : 1 < ref_cnt sc < MAX_REF →
  z_stream_unref (two si sc lg) c = Done (two si (with_ref (ref_cnt sc - 1) sc) lg).
Proof.
  intros. unfold z_stream_unref. cbn [unref_loop]. unfold z_refcount_dec.
  rewrite get_r, Done_bind, require_true, !Done_bind by lia.
  by rewrite bool_decide_false, upd_r by lia.
Qed.
End two.

(** Seeing two streams of a world. *)
Lemma as_two w i c si sc :
  i ≠ c → w_streams w !! i = Some si → w_streams w !! c = Some sc →
  w = two (w_streams w) (w_store w) i c si sc (w_notified w).
Proof.
  intros Hic Hi Hc. destruct w as [m st lg]. unfold two. cbn in *. f_equal.
  by rewrite (insert_id m c), (insert_id m i).
Qed.

(** ** Callbacks *)

(** A callback of the application, or none. *)
Definition app_slot (x : io_slot) : Prop :=
  match data x with
  | None => True
  | Some (UApp _) => notify x ≠ Some NUnref
  | Some (UStream _) => False
  end.

(** A callback that the parent [p] has registered. *)
Definition parent_slot (p : nat) (x : io_slot) : Prop :=
  data x = Some (UStream p) ∧ notify x = Some NUnref.

Definition cond_of (d : direction) : Z :=
  match d with DRead => G_IO_IN | DPri => G_IO_PRI | DWrite => G_IO_OUT end.

(** The callbacks of a stream whose parent [p] has registered those of [conds]. *)
Definition slots_of (p : nat) (conds : list Z) (s : ZStream) : Prop :=
  ∀ d, if decide (cond_of d ∈ conds) then parent_slot p (get_slot d s) else app_slot (get_slot d s).

Definition app_slots (s : ZStream) : Prop := ∀ d, app_slot (get_slot d s).

Definition drop_slot (x : io_slot) : io_slot := mkSlot (want x) None (notify x) None.
Definition drop_slots (s : ZStream) : ZStream :=
  with_slots (drop_slot (s_read s)) (drop_slot (s_pri s)) (drop_slot (s_write s)) s.

(** How many references the callbacks of a parent of this class hold. *)
Definition callbacks (class : ZStreamClass) : Z := zlen (child_callbacks class).

Lemma callbacks_bound class : 0 ≤ callbacks class ≤ 3.
Proof. by destruct class. Qed.

Lemma app_slots_None s : (∀ d, data (get_slot d s) = None) → app_slots s.
Proof. intros Hs d. unfold app_slot. by rewrite Hs. Qed.

Lemma drop_slots_None s d : data (get_slot d (drop_slots s)) = None.
Proof. by destruct d. Qed.

(** Dropping a callback of the application calls its function at most. *)
Lemma call_notify_app unref w n x :
  app_slot x → notify x = Some n → ∃ lg, call_notify unref w n (data x) =
    Done (mkWorld (w_streams w) (w_store w) lg).
Proof.
  unfold app_slot. intros Hx Hn. destruct w as [m st l]. destruct (data x) as [[j|k]|], n as [|k']; cbn; try done; eauto.
Qed.

Lemma drop_callback_app unref d w i s :
  w_streams w !! i = Some s → app_slot (get_slot d s) →
  ∃ lg, drop_callback unref d w i =
    Done (mkWorld (<[i := set_slot d (drop_slot (get_slot d s)) s]> (w_streams w)) (w_store w) lg).
Proof.
  intros Hi Hx. unfold drop_callback, get_stream. rewrite Hi, Done_bind.
  assert (Hcall : ∃ lg, match data (get_slot d s), notify (get_slot d s) with
    | Some u, Some n => call_notify unref w n (Some u) | _, _ => Done w end
    = Done (mkWorld (w_streams w) (w_store w) lg)).
  { destruct (notify (get_slot d s)) as [n|] eqn:Hn.
    - destruct (call_notify_app unref w n _ Hx Hn) as [lg Hl].
      destruct (data (get_slot d s)); [by exists lg|]. exists (w_notified w). by destruct w.
    - exists (w_notified w). by destruct (data _), w. }
  destruct Hcall as [lg ->]. rewrite Done_bind. cbn. rewrite Hi, Done_bind. exists lg.
  unfold upd. cbn. do 2 f_equal. apply map_eq. intros j. destruct (decide (i = j)) as [<-|].
  - by rewrite lookup_alter_eq, Hi, lookup_insert_eq.
  - by rewrite lookup_alter_ne, lookup_insert_ne.
Qed.

Lemma set_slots_all s :
  set_slot DPri (drop_slot (s_pri s)) (set_slot DWrite (drop_slot (s_write s))
    (set_slot DRead (drop_slot (s_read s)) s)) = drop_slots s.
Proof. by destruct s. Qed.

Lemma drop_callbacks_app unref w i s :
  w_streams w !! i = Some s → app_slots s →
  ∃ lg, drop_callbacks unref w i = Done (mkWorld (<[i := drop_slots s]> (w_streams w)) (w_store w) lg).
Proof.
  intros Hi Hs. unfold drop_callbacks.
  destruct (drop_callback_app unref DRead w i s Hi (Hs DRead)) as [lg1 ->]. rewrite Done_bind.
  edestruct drop_callback_app as [lg2 ->]; [cbn; by rewrite lookup_insert_eq|apply (Hs DWrite)|].
  rewrite Done_bind.
  edestruct drop_callback_app as [lg3 ->]; [cbn; by rewrite lookup_insert_eq|apply (Hs DPri)|].
  exists lg3. cbn. by rewrite !insert_insert_eq.
Qed.

(** A stream that holds no packets and no other streams. *)
Definition plain (s : ZStream) : Prop := ungot_bufs s = [] ∧ isa s ≠ ZStreamTee__class.

(** Freeing such a stream, when it has no child and no callbacks of a parent. *)
Lemma free_method_app unref w i s :
  w_streams w !! i = Some s → child s = None → ungot_bufs s = [] → app_slots s →
  ∃ lg, z_stream_free_method unref w i = Done (mkWorld (delete i (w_streams w)) (w_store w) lg).
Proof.
  intros Hi Hc Hu Hs. unfold z_stream_free_method, get_stream. rewrite Hi, Done_bind, Hc, Hu.
  rewrite require_true, !Done_bind by done. cbn [free_ungot]. rewrite Done_bind.
  set (w1 := upd i (with_ungot []) (with_store (w_store w) w)).
  assert (Hi1 : w_streams w1 !! i = Some s).
  { unfold w1, upd. cbn. rewrite lookup_alter_eq, Hi. cbn. f_equal. destruct s; cbn in *. by subst. }
  destruct (drop_callbacks_app unref w1 i s Hi1 Hs) as [lg ->]. rewrite Done_bind. exists lg.
  unfold del. cbn. rewrite delete_insert_eq. do 2 f_equal. apply map_eq. intros j.
  destruct (decide (i = j)) as [<-|]; [by rewrite !lookup_delete_eq|].
  by rewrite !lookup_delete_ne, lookup_alter_ne.
Qed.

Lemma class_free_app unref w i s :
  w_streams w !! i = Some s → child s = None → plain s → app_slots s →
  ∃ lg, class_free unref w i = Done (mkWorld (delete i (w_streams w)) (w_store w) lg).
Proof.
  intros Hi Hc [Hu Ht] Hs. unfold class_free, get_stream. rewrite Hi, Done_bind.
  destruct (isa s); try done; by eapply free_method_app.
Qed.

(** The last release. *)
Lemma unref_last w i s :
  w_streams w !! i = Some s → ref_cnt s = 1 → child s = None → plain s → app_slots s →
  ∃ lg, z_stream_unref w i = Done (mkWorld (delete i (w_streams w)) (w_store w) lg).
Proof.
  intros Hi Hr Hc Hu Hs. unfold z_stream_unref. cbn [unref_loop].
  unfold get_stream, z_refcount_dec. rewrite Hi, Done_bind, Hr, require_true, !Done_bind by done.
  rewrite bool_decide_true by done.
  edestruct (class_free_app (unref_loop (size (w_streams w))) (upd i (with_ref (1 - 1)) w) i) as [lg ->].
  { cbn. by rewrite lookup_alter_eq, Hi. } { done. } { done. } { exact Hs. }
  exists lg. cbn. do 2 f_equal. apply map_eq. intros j. destruct (decide (i = j)) as [<-|].
  - by rewrite !lookup_delete_eq.
  - by rewrite !lookup_delete_ne, lookup_alter_ne.
Qed.

Section drop_parent.
Context (m : gmap nat ZStream) (st : store) (i c : nat) (Hic : i ≠ c).
Abbreviation two := (two m st i c).

(** Dropping one callback of the child: the parent loses a reference if it is its own. *)
Lemma drop_callback_child d si sc lg (mine : bool) :
  (if mine then parent_slot i (get_slot d sc) else app_slot (get_slot d sc)) →
  (mine = true → 1 < ref_cnt si < MAX_REF) →
  ∃ lg', drop_callback z_stream_unref d (two si sc lg) c =
    Done (two (if mine then with_ref (ref_cnt si - 1) si else si)
              (set_slot d (drop_slot (get_slot d sc)) sc) lg').
Proof.
  intros Hx Hr. destruct mine.
  - specialize (Hr eq_refl). destruct Hx as [Hd Hn]. exists lg. unfold drop_callback.
    rewrite (get_r m st i c Hic), Done_bind, Hd, Hn. cbn [call_notify].
    rewrite (unref_l m st i c) by lia. rewrite Done_bind, (get_r m st i c Hic), Done_bind.
    by rewrite (upd_r m st i c Hic).
  - destruct (drop_callback_app z_stream_unref d (two si sc lg) c sc) as [lg' ->]; [|done|].
    { cbn. by rewrite lookup_insert_ne, lookup_insert_eq. }
    exists lg'. unfold StreamStack.two. cbn. do 2 f_equal.
    by rewrite insert_insert_ne, insert_insert_eq.
Qed.

Lemma with_ref_ref a b s : with_ref a (with_ref b s) = with_ref a s.
Proof. by destruct s. Qed.

Lemma with_ref_id s : with_ref (ref_cnt s) s = s.
Proof. by destruct s. Qed.

(** All of them. *)
Lemma drop_callbacks_child class si sc lg :
  slots_of i (child_callbacks class) sc → callbacks class + 1 ≤ ref_cnt si < MAX_REF →
  ∃ lg', z_stream_drop_callbacks (two si sc lg) c =
    Done (two (with_ref (ref_cnt si - callbacks class) si) (drop_slots sc) lg').
Proof.
  intros Hs Hr. unfold z_stream_drop_callbacks, drop_callbacks.
  assert (Hb : ∀ d, ∃ b : bool, b = bool_decide (cond_of d ∈ child_callbacks class) ∧
    if b then parent_slot i (get_slot d sc) else app_slot (get_slot d sc)).
  { intros d. eexists. split; [done|]. specialize (Hs d). case_bool_decide; by case_decide. }
  destruct (Hb DRead) as (b1 & E1 & H1), (Hb DWrite) as (b2 & E2 & H2), (Hb DPri) as (b3 & E3 & H3).
  assert (Hn : callbacks class = (if b1 then 1 else 0) + (if b2 then 1 else 0) + (if b3 then 1 else 0)).
  { subst. by destruct class. }
  destruct (drop_callback_child DRead si sc lg b1 H1) as [lg1 ->]; [intros ->; destruct b2, b3; cbn in *; lia|].
  rewrite Done_bind.
  edestruct (drop_callback_child DWrite) as [lg2 ->]; [exact H2|intros ->; destruct b1, b3; cbn in *; lia|].
  rewrite Done_bind.
  edestruct (drop_callback_child DPri) as [lg3 ->]; [exact H3|intros ->; destruct b1, b2; cbn in *; lia|].
  exists lg3. f_equal. rewrite Hn.
  assert (Hsc : ∀ x, x = drop_slots sc → ∀ y z, y = z → two y x lg3 = two z (drop_slots sc) lg3)
    by (intros; by subst).
  apply Hsc; [by destruct sc|].
  destruct b1, b2, b3; cbn; rewrite ?with_ref_ref; cbn in *; try (f_equal; lia).
  by rewrite Z.sub_0_r, with_ref_id.
Qed.
End drop_parent.

(** ** Well-formed stacks

    A stream of a stack, which is no ZStreamTee: [up] is its parent with its class,
    [below] its child.  It is
    referenced by the application or by its parent, by the child and the callbacks
    registered with it, and by its source; its structure by itself until it is closed
    ([opened]), by its parent, and by its source. *)

Definition level (up : option (nat * ZStreamClass)) (opened src : bool) (below : option nat)
    (s : ZStream) : Prop :=
  ref_cnt s = 1 + (if src then 1 else 0)
              + match below with Some _ => 1 + callbacks (isa s) | None => 0 end ∧
  struct_ref s = (if opened then 1 else 0) + (if src then 1 else 0) + (if up then 1 else 0) ∧
  source s = src ∧ plain s ∧ parent s = fst <$> up ∧ child s = below ∧
  match up with
  | None => app_slots s
  | Some (p, class) => slots_of p (child_callbacks class) s
  end.

(** The streams [l] of the map are a stack, or the lower part of one. *)
Fixpoint seg (m : gmap nat ZStream) (up : option (nat * ZStreamClass)) (opened src : bool)
    (l : list nat) : Prop :=
  match l with
  | [] => True
  | i :: rest => ∃ s, m !! i = Some s ∧ level up opened src (head rest) s ∧ i ∉ rest ∧
                      seg m (Some (i, isa s)) opened src rest
  end.

Lemma seg_frame m m' up o src l :
  (∀ j, j ∈ l → m' !! j = m !! j) → seg m up o src l → seg m' up o src l.
Proof.
  revert up. induction l as [|i l IH]; intros up Hm; [done|]. cbn.
  intros (s & Hi & Hl & Hni & Hs). exists s. rewrite Hm by left. split_and!; [done..|].
  apply IH; [|done]. intros j Hj. apply Hm. by right.
Qed.

Lemma seg_NoDup m up o src l : seg m up o src l → NoDup l.
Proof.
  revert up. induction l as [|i l IH]; intros up; [constructor|].
  cbn. intros (s & _ & _ & Hni & Hs). constructor; [done|by eapply IH].
Qed.

Lemma seg_alive m up o src l : seg m up o src l → ∀ j, j ∈ l → is_Some (m !! j).
Proof.
  revert up. induction l as [|i l IH]; intros up; [set_solver|].
  cbn. intros (s & Hi & _ & _ & Hs) j [->|Hj]%elem_of_cons; [eauto|by eapply IH].
Qed.

(** A stack is not higher than there are streams. *)
Lemma seg_length m up o src l : seg m up o src l → (length l ≤ size m)%nat.
Proof.
  intros Hs. rewrite <- size_dom, <- (size_list_to_set (C := gset nat) l) by by eapply seg_NoDup.
  apply subseteq_size. intros j Hj%elem_of_list_to_set. apply elem_of_dom. by eapply seg_alive.
Qed.

Section destruct.
Context (own_ctrl : ZStream → Z → ctrl_value → option (bool * ctrl_value * (Z * Z))).

(** What is left when the structure below [i] is gone. *)
Definition broken (w : world) (i : nat) (s' : ZStream) (l : list nat) (w' : world) : Prop :=
  w_streams w' !! i = Some s' ∧ (∀ j, j ∈ l → w_streams w' !! j = None) ∧
  (∀ j, j ≠ i → j ∉ l → w_streams w' !! j = w_streams w !! j) ∧ w_store w' = w_store w.

(** Giving up the structure of a stream that has no holder left. *)
Definition break_child (fuel : nat) (w : world) (i c : nat) : outcome world :=
  w ← z_stream_ref w c;
  w ← class_set_child own_ctrl (struct_unref_loop own_ctrl fuel) w i None;
  z_stream_unref w c.

(** A child that was cut off: no parent, no callbacks. *)
Definition cut (sc : ZStream) : ZStream :=
  with_parent None (drop_slots (with_umbrella (umbrella_flags sc) sc)).

(** Detaching the child [c] of [i], where giving up the structure of [c] is known to work. *)
Lemma detach_child_ok su m st i c s sc lg l sc2 :
  i ≠ c → i ∉ l → c ∉ l → 1 < ref_cnt sc2 < MAX_REF → parent sc = Some i → slots_of i (child_callbacks (isa s)) sc →
  child s = Some c → callbacks (isa s) + 2 ≤ ref_cnt s < MAX_REF →
  (∀ lg s', let w1 := two m st i c s' (cut sc) lg in
     returns (su w1 c) (broken w1 c sc2 l)) →
  returns (detach_child su (two m st i c s sc lg) i c) (λ w',
    broken (two m st i c s sc lg) i (with_ref (ref_cnt s - callbacks (isa s) - 1) (with_child None s))
      (c :: l) (del c w') ∧ w_streams w' !! c =
      Some (with_ref (ref_cnt sc2 - 1) sc2) ∧ w_store w' = st).
Proof.
  intros Hic Hil Hcl Hr2 Hp Hs Hch Hr Hsu. unfold detach_child.
  pose proof (callbacks_bound (isa s)) as Hk.
  rewrite (get_r m st i c Hic), Done_bind, Hp, require_true, Done_bind by done.
  rewrite (upd_r m st i c Hic).
  destruct (drop_callbacks_child m st i c Hic (isa s) s (with_umbrella (umbrella_flags sc) sc) lg) as [lg' ->];
    [exact Hs|lia|]. rewrite Done_bind, (upd_r m st i c Hic), (upd_l m st i c).
  apply returns_bind. eapply returns_mono; [apply Hsu|]. intros w1 (Hc1 & Hdel & Hfr & Hst). cbn zeta in *.
  assert (Hi1 : w_streams w1 !! i =
    Some (with_child None (with_ref (ref_cnt s - callbacks (isa s)) s))).
  { rewrite Hfr by done. cbn. by rewrite lookup_insert_eq. }
  rewrite (as_two w1 i c _ _ Hic Hi1 Hc1), Hst. cbn [w_store two].
  rewrite (unref_r _ _ _ _ Hic) by done. rewrite Done_bind.
  rewrite (unref_l _ _ _ _ ) by (cbn; lia). apply returns_ret. split; [|split].
  - unfold broken, del. cbn. split_and!.
    + rewrite lookup_delete_ne by done. rewrite lookup_insert_eq. by f_equal.
    + intros j [->|Hj]%elem_of_cons; [by rewrite lookup_delete_eq|].
      rewrite lookup_delete_ne, !lookup_insert_ne by congruence. by apply Hdel.
    + intros j Hji [Hjc Hjl]%not_elem_of_cons.
      rewrite lookup_delete_ne, !lookup_insert_ne by done. rewrite Hfr by done. cbn.
      by rewrite !lookup_insert_ne.
    + done.
  - cbn. by rewrite lookup_insert_ne, lookup_insert_eq.
  - done.
Qed.

(** The virtual call. *)
Lemma class_set_child_none_ok su m st i c s sc lg l sc2 :
  i ≠ c → i ∉ l → c ∉ l → 1 < ref_cnt sc2 < MAX_REF → parent sc = Some i → slots_of i (child_callbacks (isa s)) sc →
  child s = Some c → callbacks (isa s) + 2 ≤ ref_cnt s < MAX_REF - 1 →
  (∀ lg s', let w1 := two m st i c s' (cut sc) lg in
     returns (su w1 c) (broken w1 c sc2 l)) →
  returns (class_set_child own_ctrl su (two m st i c s sc lg) i None) (λ w',
    broken (two m st i c s sc lg) i (with_ref (ref_cnt s - callbacks (isa s) - 1) (with_child None s))
      (c :: l) (del c w') ∧ w_streams w' !! c = Some (with_ref (ref_cnt sc2 - 1) sc2) ∧ w_store w' = st).
Proof.
  intros Hic Hil Hcl Hr2 Hp Hs Hch Hr Hsu. pose proof (callbacks_bound (isa s)) as Hk.
  assert (Hmeth : ∀ s, child s = Some c → slots_of i (child_callbacks (isa s)) sc →
    callbacks (isa s) + 2 ≤ ref_cnt s < MAX_REF →
    returns (z_stream_set_child_method su (two m st i c s sc lg) i None) (λ w',
    broken (two m st i c s sc lg) i (with_ref (ref_cnt s - callbacks (isa s) - 1) (with_child None s))
      (c :: l) (del c w') ∧ w_streams w' !! c = Some (with_ref (ref_cnt sc2 - 1) sc2) ∧ w_store w' = st)).
  { intros s0 Hch0 Hs0 Hr0. unfold z_stream_set_child_method.
    rewrite (get_l m st i c), Done_bind, Hch0. apply returns_bind.
    eapply returns_mono; [by eapply detach_child_ok|]. intros w' Hw'. exact Hw'. }
  unfold class_set_child. rewrite (get_l m st i c), Done_bind. pose proof MAX_REF.
  destruct (overrides_set_child (isa s)); [|apply Hmeth; [done..|lia]].
  rewrite (ref_l m st i c) by lia. rewrite Done_bind. apply returns_bind.
  eapply returns_mono; [apply (Hmeth (with_ref (ref_cnt s + 1) s)); [done..|cbn; lia]|].
  intros w' ((Hi & Hdel & Hfr & Hst) & Hc & Hst'). rewrite Done_bind. cbn in Hi. rewrite lookup_delete_ne in Hi by done.
  rewrite (as_two w' i c _ _ Hic Hi Hc), Hst'. rewrite (unref_l _ _ _ _) by (cbn; lia).
  cbn. split_and!; [|by rewrite lookup_insert_ne, lookup_insert_eq|done].
  unfold broken, del. cbn. split_and!.
  - rewrite lookup_delete_ne, lookup_insert_eq by done. f_equal. unfold with_ref, with_child. cbn.
    f_equal. lia.
  - intros j Hj. specialize (Hdel j Hj). cbn in Hdel. destruct (decide (j = c)) as [->|Hjc].
    + by rewrite lookup_delete_eq.
    + rewrite lookup_delete_ne, !lookup_insert_ne in * by (set_solver). done.
  - intros j Hji Hj. specialize (Hfr j Hji Hj). cbn in Hfr. apply not_elem_of_cons in Hj as [Hjc Hj].
    by rewrite lookup_delete_ne, !lookup_insert_ne in * by done.
  - done.
Qed.

(** Giving up a structure frees all streams below, and the reference that they and their
    callbacks held. *)
Lemma break_child_ok fuel : ∀ rest w i c s r,
  w_streams w !! i = Some s → child s = Some c → i ∉ c :: rest →
  seg (w_streams w) (Some (i, isa s)) false false (c :: rest) → (length (c :: rest) ≤ fuel)%nat →
  ref_cnt s = r + 1 + callbacks (isa s) → 1 ≤ r < 8 →
  returns (break_child fuel w i c) (broken w i (with_ref r (with_child None s)) (c :: rest)).
Proof.
  induction fuel as [|fuel IH]; intros rest w i c s r Hi Hch Hni Hseg Hf Hr Hrb; [cbn in Hf; lia|].
  pose proof (callbacks_bound (isa s)) as Hk.
  destruct Hseg as (sc & Hc & (Hrc & Hsr & Hsrc & Hun & Hpar & Hchc & Hslots) & Hcr & Hseg).
  apply not_elem_of_cons in Hni as [Hic Hni]. cbn in Hpar, Hslots.
  unfold break_child. rewrite (as_two w i c _ _ Hic Hi Hc).
  set (m := w_streams w) in *. set (st := w_store w).
  assert (Hrcb : 0 < ref_cnt sc < 8).
  { rewrite Hrc. pose proof (callbacks_bound (isa sc)). destruct (head rest); lia. }
  assert (HM : MAX_REF = 524288) by done.
  rewrite (ref_r m st i c Hic) by lia. rewrite Done_bind. apply returns_bind.
  eapply returns_mono.
  { apply (class_set_child_none_ok (struct_unref_loop own_ctrl (S fuel)) m st i c s (with_ref (ref_cnt sc + 1) sc) _ rest
      (with_struct_ref 0 (with_ref 2 (with_child None (cut sc))))); try done; [lia|].
    intros lg s' w1. set (sc1 := cut (with_ref (ref_cnt sc + 1) sc)) in *. unfold w1. cbn [struct_unref_loop]. rewrite (get_r m st i c Hic), Done_bind.
    unfold z_refcount_dec. replace (struct_ref sc1) with 1 by (unfold sc1; cbn; by rewrite Hsr).
    rewrite require_true, !Done_bind by lia. rewrite bool_decide_true, (upd_r m st i c Hic) by done.
    replace (child sc1) with (head rest) by (unfold sc1; by cbn).
    destruct rest as [|d rest]; cbn [head] in *.
    - cbn. unfold broken. cbn. rewrite lookup_insert_ne, lookup_insert_eq by done. split_and!.
      + f_equal. unfold sc1, with_struct_ref, with_ref, with_child. cbn. rewrite Hchc, Hrc.
        cbn. by destruct (umbrella_flags sc).
      + set_solver.
      + intros j Hj _. destruct (decide (j = i)) as [->|]; [by rewrite !lookup_insert_eq|].
        by rewrite !lookup_insert_ne.
      + done.
    - fold (break_child fuel (two m st i c s' (with_struct_ref (1 - 1) sc1) lg) c d).
      eapply returns_mono.
      { eapply (IH rest _ c d (with_struct_ref (1 - 1) sc1) 2); [..|lia].
        - cbn. by rewrite lookup_insert_ne, lookup_insert_eq.
        - done.
        - done.
        - refine (seg_frame m _ _ _ _ (d :: rest) _ Hseg). intros j Hj. cbn.
          rewrite !lookup_insert_ne by set_solver. done.
        - cbn in *. lia.
        - unfold sc1. cbn. rewrite Hrc. lia. }
      intros w' (Hc' & Hdel & Hfr & Hst). split_and!; [exact Hc'|done| |done].
      intros j Hj Hjl. rewrite Hfr by done. cbn. destruct (decide (j = i)) as [->|].
      + by rewrite !lookup_insert_eq.
      + by rewrite !lookup_insert_ne. }
  intros w' ((Hi' & Hdel & Hfr & Hst) & Hc' & Hst').
  destruct (unref_last w' c _ Hc') as [lg' ->]; [done..|by apply app_slots_None; intros d; destruct d|].
  unfold broken, del in *. cbn [w_streams w_store returns] in *. split_and!.
  - rewrite Hi'. f_equal. f_equal. lia.
  - done.
  - intros j Hji Hj. rewrite (Hfr j Hji Hj). cbn. apply not_elem_of_cons in Hj as [? ?]. by rewrite !lookup_insert_ne.
  - done.
Qed.
End destruct.

(** ** Changes that no counter depends on *)

Definition keeps (f : ZStream → ZStream) : Prop := ∀ s,
  isa (f s) = isa s ∧ ref_cnt (f s) = ref_cnt s ∧ struct_ref (f s) = struct_ref s ∧
  source (f s) = source s ∧ ungot_bufs (f s) = ungot_bufs s ∧ parent (f s) = parent s ∧
  child (f s) = child s ∧ ∀ d, get_slot d (f s) = get_slot d s.

Lemma keeps_umbrella u : keeps (with_umbrella u).
Proof. intros s. by split_and!. Qed.

Lemma keeps_own e : keeps (with_priv e).
Proof. intros s. by split_and!. Qed.

Lemma level_keeps f up o src below s : keeps f → level up o src below s → level up o src below (f s).
Proof.
  intros Hf (H1 & H2 & H3 & H4 & H5 & H6 & H7).
  destruct (Hf s) as (E1 & E2 & E3 & E4 & E5 & E6 & E7 & E8).
  unfold level, plain. rewrite E1, E2, E3, E4, E5, E6, E7. split_and!; try apply H4; try done.
  destruct up as [[p cl]|]; intros d; rewrite E8; apply H7.
Qed.

(** Each stream is as before but for such a change. *)
Definition kept (m m' : gmap nat ZStream) (l : list nat) : Prop :=
  ∀ j, j ∈ l → ∃ f, keeps f ∧ m' !! j = f <$> m !! j.

Lemma seg_kept m m' up o src l : kept m m' l → seg m up o src l → seg m' up o src l.
Proof.
  revert up. induction l as [|i l IH]; intros up Hk; [done|]. cbn.
  intros (s & Hi & Hl & Hni & Hs). destruct (Hk i) as (f & Hf & Hm); [by left|].
  exists (f s). rewrite Hm, Hi. split_and!; [done|by apply level_keeps|done|].
  destruct (Hf s) as [-> _]. apply IH; [|done]. intros j Hj. apply Hk. by right.
Qed.

(** The umbrella: a direction of a stream is active if no stream above claims it. *)
Fixpoint umbrella (m : gmap nat ZStream) (above : Z) (l : list nat) : Prop :=
  match l with
  | [] => True
  | i :: rest => ∃ s, m !! i = Some s ∧
      umbrella_state s = Z.land (umbrella_flags s) (Z.lnot above) ∧
      umbrella m (Z.lor above (umbrella_flags s)) rest
  end.

Definition mask (flags : Z) (s : ZStream) : ZStream :=
  with_umbrella (Z.land (umbrella_state s) (Z.lnot flags)) s.

Lemma keeps_mask flags : keeps (mask flags).
Proof. intros s. apply keeps_umbrella. Qed.

Lemma umbrella_frame m m' above l :
  (∀ j, j ∈ l → ∃ o, m' !! j = with_priv o <$> m !! j) → umbrella m above l → umbrella m' above l.
Proof.
  revert above. induction l as [|i l IH]; intros above Hm; [done|]. cbn.
  intros (s & Hi & Hu & Hs). destruct (Hm i) as [o Ho]; [by left|].
  exists (with_priv o s). rewrite Ho, Hi. split_and!; [done..|]. apply IH; [|done].
  intros j Hj. apply Hm. by right.
Qed.

(** Masking everything below a new top. *)
Lemma umbrella_mask m m' above flags l :
  (∀ j, j ∈ l → m' !! j = mask flags <$> m !! j) → umbrella m above l →
  umbrella m' (Z.lor above flags) l.
Proof.
  revert above. induction l as [|i l IH]; intros above Hm; [done|]. cbn.
  intros (s & Hi & Hu & Hs). exists (mask flags s). rewrite Hm, Hi by left. split_and!; [done| |].
  - cbn. rewrite Hu, Z.lnot_lor. by rewrite Z.land_assoc.
  - cbn. replace (Z.lor (Z.lor above flags) (umbrella_flags s)) with
      (Z.lor (Z.lor above (umbrella_flags s)) flags).
    + apply IH; [|done]. intros j Hj. apply Hm. by right.
    + by rewrite <- !Z.lor_assoc, (Z.lor_comm flags).
Qed.

(** Streams that are linked from parent to child. *)
Fixpoint chain (m : gmap nat ZStream) (l : list nat) : Prop :=
  match l with
  | [] => True
  | i :: rest => ∃ s, m !! i = Some s ∧ child s = head rest ∧ i ∉ rest ∧ chain m rest
  end.

Lemma seg_chain m up o src l : seg m up o src l → chain m l.
Proof.
  revert up. induction l as [|i l IH]; intros up; [done|]. cbn.
  intros (s & Hi & Hl & Hni & Hs). exists s. split_and!; [done|apply Hl|done|by eapply IH].
Qed.

Lemma chain_frame m m' l : (∀ j, j ∈ l → m' !! j = m !! j) → chain m l → chain m' l.
Proof.
  induction l as [|i l IH]; intros Hm; [done|]. cbn. intros (s & Hi & Hc & Hni & Hs).
  exists s. rewrite Hm by left. split_and!; [done..|]. apply IH; [|done]. intros j Hj. apply Hm. by right.
Qed.

Lemma chain_kept m m' l : kept m m' l → chain m l → chain m' l.
Proof.
  induction l as [|i l IH]; intros Hk; [done|]. cbn. intros (s & Hi & Hc & Hni & Hs).
  destruct (Hk i) as (f & Hf & Hm); [by left|]. exists (f s). rewrite Hm, Hi.
  destruct (Hf s) as (_ & _ & _ & _ & _ & _ & -> & _). split_and!; [done..|].
  apply IH; [|done]. intros j Hj. apply Hk. by right.
Qed.

(** The loop does that. *)
Lemma umbrella_loop_ok flags l : ∀ fuel w p s,
  w_streams w !! p = Some s → child s = head l → p ∉ l → chain (w_streams w) l → (length l < fuel)%nat →
  returns (umbrella_loop fuel w p flags) (λ w',
    (∀ j, j ∈ l → w_streams w' !! j = mask flags <$> w_streams w !! j) ∧
    (∀ j, j ∉ l → w_streams w' !! j = w_streams w !! j) ∧ w_store w' = w_store w).
Proof.
  induction l as [|c l IH]; intros [|fuel] w p s Hp Hch Hni Hchain Hf; cbn [length] in Hf; try lia;
    cbn [umbrella_loop]; unfold get_stream; rewrite Hp, Done_bind, Hch; cbn [head].
  { split_and!; [set_solver|done..]. }
  destruct Hchain as (sc & Hc & Hcc & Hcl & Hchain). rewrite Hc, Done_bind.
  apply not_elem_of_cons in Hni as [Hpc Hpl].
  set (w1 := upd c _ w). assert (Hc1 : w_streams w1 !! c = Some (mask flags sc))
    by (cbn; by rewrite lookup_alter_eq, Hc).
  eapply returns_mono.
  { eapply (IH fuel w1 c _ Hc1); [done|done| |lia].
    eapply chain_frame; [|exact Hchain]. intros j Hj. cbn. rewrite lookup_alter_ne by set_solver. done. }
  intros w' (Hin & Hout & Hst). split_and!; [| |done].
  - intros j [->|Hj]%elem_of_cons.
    + by rewrite Hout, Hc1, Hc.
    + rewrite Hin by done. cbn. rewrite lookup_alter_ne by set_solver. done.
  - intros j [Hjc Hjl]%not_elem_of_cons. rewrite Hout by done. cbn. by rewrite lookup_alter_ne.
Qed.

(** ** Control calls on a stack *)

Lemma msg_forward function : ZST_CTRL_MSG (Z.lor ZST_CTRL_MSG_FORWARD function) = ZST_CTRL_MSG function.
Proof. unfold ZST_CTRL_MSG. by rewrite Z.land_lor_distr_l. Qed.

Lemma msg_class class function : ZST_CTRL_MSG (class_function class function) = ZST_CTRL_MSG function.
Proof. unfold class_function. destruct class; try done; destruct (_ || _); auto using msg_forward. Qed.

Lemma with_priv_id s : with_priv (own s, timeout s) s = s.
Proof. by destruct s. Qed.

(** Only private states and timeouts of [l] differ. *)
Definition own_only (l : list nat) (w w' : world) : Prop :=
  (∀ j, ∃ o, w_streams w' !! j = with_priv o <$> w_streams w !! j) ∧
  (∀ j, j ∉ l → w_streams w' !! j = w_streams w !! j) ∧ w_store w' = w_store w.

Lemma own_only_refl l w : own_only l w w.
Proof.
  split_and!; [|done..]. intros j. destruct (w_streams w !! j) as [s|]; [|by exists (0, 0)].
  exists (own s, timeout s). cbn. by rewrite with_priv_id.
Qed.

Lemma own_only_upd l w i o : i ∈ l → own_only l w (upd i (with_priv o) w).
Proof.
  intros Hi. split_and!; [| |done].
  - intros j. cbn. destruct (decide (i = j)) as [<-|Hij].
    + exists o. by rewrite lookup_alter_eq.
    + rewrite lookup_alter_ne by done. by apply (own_only_refl l).
  - intros j Hj. cbn. rewrite lookup_alter_ne by set_solver. done.
Qed.

(** A chain is not longer than there are streams. *)
Lemma map_length m l : chain m l → (length l ≤ size m)%nat.
Proof.
  intros Hc. assert (NoDup l ∧ ∀ j, j ∈ l → is_Some (m !! j)) as [Hnd Hin].
  { induction l as [|i l IH]; [split; [constructor|set_solver]|]. destruct Hc as (s & Hi & _ & Hni & Hc).
    destruct (IH Hc) as [Hnd Hin]. split; [by constructor|].
    intros j [->|Hj]%elem_of_cons; [eauto|by apply Hin]. }
  rewrite <- size_dom, <- (size_list_to_set (C := gset nat) l) by done.
  apply subseteq_size. intros j Hj%elem_of_list_to_set. by apply elem_of_dom, Hin.
Qed.

Section push.
Context (own_ctrl : ZStream → Z → ctrl_value → option (bool * ctrl_value * (Z * Z))).

(** A message that ZStream does not know goes down the stack until a class answers. *)
Lemma ctrl_default_ok function v fuel : ∀ l w i,
  ctrl_case (ZST_CTRL_MSG function) = None → chain (w_streams w) (i :: l) → (length l < fuel)%nat →
  returns (z_stream_ctrl own_ctrl fuel w i function v) (λ '(_, _, w'), own_only (i :: l) w w').
Proof.
  revert function v. induction fuel as [|fuel IH]; intros function v l w i Hd Hch Hf; [lia|].
  destruct Hch as (s & Hi & Hc & Hni & Hch). cbn [z_stream_ctrl]. unfold get_stream.
  rewrite Hi, Done_bind. destruct (own_ctrl s _ v) as [[[res v'] o']|].
  { cbn. apply own_only_upd. by left. }
  unfold z_stream_ctrl_method. rewrite msg_class, Hd. unfold get_stream. rewrite Hi, Done_bind.
  rewrite Hc. destruct l as [|c l]; cbn [head]; [apply own_only_refl|].
  eapply returns_mono; [eapply IH; [by rewrite msg_class|exact Hch|cbn in Hf; lia]|].
  intros [[res v'] w'] (H1 & H2 & H3). split_and!; [done| |done]. intros j Hj. apply H2. set_solver.
Qed.

(** *** The child of a stream with gzip headers *)

(** What a class answers depends on its private state and its timeout only. *)
Definition answers_by_state : Prop := ∀ s s' msg v,
  isa s = isa s' → own s = own s' → timeout s = timeout s' → own_ctrl s msg v = own_ctrl s' msg v.

(** The first stream of a stack that says whether it blocks says that it does. *)
Fixpoint blocking (m : gmap nat ZStream) (l : list nat) : Prop :=
  match l with
  | [] => False
  | i :: rest => ∃ s, m !! i = Some s ∧
      match own_ctrl s ZST_CTRL_GET_NONBLOCK (ValInt 0) with
      | Some (res, v, _) => res = true ∧ v = ValInt 0
      | None => blocking m rest
      end
  end.

Lemma blocking_like m m' l : answers_by_state →
  (∀ j, j ∈ l → ∃ f, (∀ s, isa (f s) = isa s ∧ own (f s) = own s ∧ timeout (f s) = timeout s) ∧
                     m' !! j = f <$> m !! j) →
  blocking m l → blocking m' l.
Proof.
  intros Hans. induction l as [|i l IH]; intros Hm; [done|]. cbn. intros (s & Hi & Hs).
  destruct (Hm i) as (f & Hf & Hj); [by left|]. destruct (Hf s) as (E1 & E2 & E3).
  exists (f s). rewrite Hj, Hi. split; [done|]. rewrite (Hans _ s _ _ E1 E2 E3).
  destruct (own_ctrl s _ _) as [[[res v] e]|]; [done|]. apply IH; [|done]. intros j Hjl. apply Hm. by right.
Qed.

Lemma ctrl_blocking_ok fuel : ∀ function l w i,
  ZST_CTRL_MSG function = ZST_CTRL_GET_NONBLOCK → chain (w_streams w) (i :: l) →
  blocking (w_streams w) (i :: l) → (length l < fuel)%nat →
  returns (z_stream_ctrl own_ctrl fuel w i function (ValInt 0))
    (λ '(res, v, w'), res = true ∧ v = ValInt 0 ∧ own_only (i :: l) w w').
Proof.
  induction fuel as [|fuel IH]; intros function l w i Hf Hch Hb Hl; [lia|].
  destruct Hch as (s & Hi & Hc & Hni & Hch). destruct Hb as (s' & Hi' & Hb).
  rewrite Hi in Hi'. simplify_eq. cbn [z_stream_ctrl]. unfold get_stream. rewrite Hi, Done_bind, Hf.
  destruct (own_ctrl s' _ _) as [[[res v] e]|].
  { destruct Hb as [-> ->]. cbn. split_and!; [done..|]. apply own_only_upd. by left. }
  destruct l as [|c l]; [done|].
  unfold z_stream_ctrl_method. rewrite msg_class, Hf. unfold get_stream.
  replace (ctrl_case ZST_CTRL_GET_NONBLOCK)
    with (@None (world → nat → ctrl_value → outcome ctrl_result)) by done.
  rewrite Hi, Done_bind, Hc. cbn [head].
  eapply returns_mono; [eapply IH; [by rewrite msg_class|exact Hch|exact Hb|cbn in Hl; lia]|].
  intros [[res v] w'] (Hr & Hv & H1 & H2 & H3). split; [done|]. split; [done|].
  split; [done|]. split; [|done]. intros j Hj. apply H2. set_solver.
Qed.

Lemma assert_blocking_ok l w i :
  chain (w_streams w) (i :: l) → blocking (w_streams w) (i :: l) →
  returns (assert_blocking own_ctrl w i) (own_only (i :: l) w).
Proof.
  intros Hch Hb. unfold assert_blocking. apply returns_bind. eapply returns_mono.
  { apply (ctrl_blocking_ok _ ZST_CTRL_GET_NONBLOCK l w i eq_refl Hch Hb).
    apply map_length in Hch. unfold height. cbn [length] in Hch. lia. }
  intros [[res v] w'] (-> & -> & Hw'). by rewrite !require_true, !Done_bind by done.
Qed.

(** *** Registering callbacks *)

(** No class answers the messages that set callbacks itself. *)
Definition passes_callbacks : Prop := ∀ s v d,
  own_ctrl s (match d with DRead => ZST_CTRL_SET_CALLBACK_READ | DPri => ZST_CTRL_SET_CALLBACK_PRI
              | DWrite => ZST_CTRL_SET_CALLBACK_WRITE end) v = None.
Context (Hpass : passes_callbacks).

Definition register_slot (n : nat) (d : direction) (s : ZStream) : ZStream :=
  set_slot d (mkSlot (want (get_slot d s)) (Some (UStream n)) (Some NUnref) (Some (CbParent (cond_of d)))) s.

Section two_streams.
Context (m : gmap nat ZStream) (st : store) (n i : nat) (Hni : n ≠ i).
Abbreviation two := (two m st n i).

Lemma set_callback_child d sn s lg :
  app_slot (get_slot d s) →
  ∃ lg', z_stream_set_callback own_ctrl (two sn s lg) i (cond_of d) (Some (CbParent (cond_of d)))
           (Some (UStream n)) (Some NUnref)
    = Done (true, ValCb (Some (CbParent (cond_of d))) (Some (UStream n)) (Some NUnref),
            two sn (register_slot n d s) lg').
Proof.
  intros Hx.
  assert (Hact : ∃ lg', set_callback d (two sn s lg) i
      (ValCb (Some (CbParent (cond_of d))) (Some (UStream n)) (Some NUnref))
    = Done (true, ValCb (Some (CbParent (cond_of d))) (Some (UStream n)) (Some NUnref),
            two sn (register_slot n d s) lg')).
  { unfold set_callback. rewrite (get_r m st n i Hni), Done_bind.
    assert (Hcall : ∃ lg', match notify (get_slot d s) with
      | Some old => call_notify z_stream_unref (two sn s lg) old (data (get_slot d s))
      | None => Done (two sn s lg) end = Done (two sn s lg')).
    { destruct (notify (get_slot d s)) as [old|] eqn:Hn; [|by exists lg].
      by apply (call_notify_app z_stream_unref (two sn s lg) old). }
    destruct Hcall as [lg' ->]. exists lg'.
    by rewrite Done_bind, (get_r m st n i Hni), Done_bind, (upd_r m st n i Hni). }
  destruct Hact as [lg' Hact]. exists lg'. unfold z_stream_set_callback, height.
  set (msg := match d with DRead => ZST_CTRL_SET_CALLBACK_READ | DPri => ZST_CTRL_SET_CALLBACK_PRI
              | DWrite => ZST_CTRL_SET_CALLBACK_WRITE end).
  enough (Hctrl : z_stream_ctrl own_ctrl (S (size (w_streams (two sn s lg)))) (two sn s lg) i msg
    (ValCb (Some (CbParent (cond_of d))) (Some (UStream n)) (Some NUnref))
    = Done (true, ValCb (Some (CbParent (cond_of d))) (Some (UStream n)) (Some NUnref),
            two sn (register_slot n d s) lg')) by by destruct d.
  cbn [z_stream_ctrl]. rewrite (get_r m st n i Hni), Done_bind.
  assert (Hmsg : ZST_CTRL_MSG msg = msg ∧ ctrl_case msg = Some (set_callback d) ∧
    class_function (isa s) msg = msg ∧ has msg ZST_CTRL_MSG_FORWARD = false)
    by (unfold msg; destruct d, (isa s); split_and!; reflexivity).
  destruct Hmsg as (H1 & H2 & H3 & H4). unfold z_stream_ctrl_method. rewrite H1, H3, H1, H2, H4.
  unfold msg at 1. rewrite Hpass, Hact, Done_bind, (get_r m st n i Hni), Done_bind.
  by destruct (child _).
Qed.

Lemma register_one d conds sn s lg :
  app_slot (get_slot d s) → 0 < ref_cnt sn < MAX_REF →
  ∃ lg', register_callbacks own_ctrl (two sn s lg) n i (cond_of d :: conds) =
    register_callbacks own_ctrl (two (with_ref (ref_cnt sn + 1) sn) (register_slot n d s) lg') n i conds.
Proof.
  intros Hx Hr. cbn [register_callbacks]. rewrite (ref_l m st n i), Done_bind by done.
  destruct (set_callback_child d (with_ref (ref_cnt sn + 1) sn) s lg Hx) as [lg' ->].
  exists lg'. by rewrite Done_bind.
Qed.

Lemma get_register n' d d' s :
  get_slot d (register_slot n' d' s) =
  if decide (d = d') then mkSlot (want (get_slot d s)) (Some (UStream n')) (Some NUnref)
                                 (Some (CbParent (cond_of d)))
  else get_slot d s.
Proof. by destruct d, d'. Qed.

Lemma register_list ds : ∀ sn s lg,
  NoDup ds → (∀ d, d ∈ ds → app_slot (get_slot d s)) → 0 < ref_cnt sn < MAX_REF - zlen ds →
  ∃ lg', register_callbacks own_ctrl (two sn s lg) n i (cond_of <$> ds) =
    Done (two (with_ref (ref_cnt sn + zlen ds) sn) (foldl (λ s d, register_slot n d s) s ds) lg').
Proof.
  induction ds as [|d ds IH]; intros sn s lg Hnd Hs Hr.
  { exists lg. cbn. by rewrite Z.add_0_r, with_ref_id. }
  apply NoDup_cons in Hnd as [Hd Hnd]. cbn [length] in *. rewrite fmap_cons.
  destruct (register_one d (cond_of <$> ds) sn s lg) as [lg1 ->]; [apply Hs; by left|lia|].
  destruct (IH (with_ref (ref_cnt sn + 1) sn) (register_slot n d s) lg1 Hnd) as [lg2 ->]; [|cbn; lia|].
  - intros d' Hd'. rewrite get_register, decide_False by congruence. apply Hs. by right.
  - exists lg2. cbn [foldl]. rewrite with_ref_ref. cbn [ref_cnt with_ref]. do 3 f_equal. lia.
Qed.

Lemma registered_slot ds : ∀ s d, NoDup ds →
  (d ∈ ds → parent_slot n (get_slot d (foldl (λ s d, register_slot n d s) s ds))) ∧
  (d ∉ ds → get_slot d (foldl (λ s d, register_slot n d s) s ds) = get_slot d s).
Proof.
  induction ds as [|d' ds IH]; intros s d Hnd; [set_solver|].
  apply NoDup_cons in Hnd as [Hd Hnd]. cbn [foldl]. destruct (IH (register_slot n d' s) d Hnd) as [H1 H2].
  split.
  - intros [->|Hin]%elem_of_cons; [|by apply H1]. rewrite H2, get_register, decide_True by done. done.
  - intros [Hne Hni']%not_elem_of_cons. by rewrite H2, get_register, decide_False by done.
Qed.

Lemma registered_slots ds : ∀ s,
  ∃ r p w, foldl (λ s d, register_slot n d s) s ds = with_slots r p w s.
Proof.
  induction ds as [|d ds IH]; intros s; cbn [foldl].
  - exists (s_read s), (s_pri s), (s_write s). by destruct s.
  - destruct (IH (register_slot n d s)) as (r & p & w & ->). exists r, p, w. by destruct d.
Qed.

(** The directions of the callbacks of a class. *)
Definition child_directions (class : ZStreamClass) : list direction :=
  match class with
  | ZStreamFD__class | ZStreamBlob__class => []
  | ZStreamGzip__class => [DRead; DWrite]
  | _ => [DRead; DWrite; DPri]
  end.

(** What registering does to the child: its streams and counters stay, and its callbacks
    are those of the parent. *)
Lemma register_callbacks_ok class sn s lg :
  app_slots s → 0 < ref_cnt sn < MAX_REF - 3 →
  ∃ lg' s', register_callbacks own_ctrl (two sn s lg) n i (child_callbacks class)
      = Done (two (with_ref (ref_cnt sn + callbacks class) sn) s' lg') ∧
    slots_of n (child_callbacks class) s' ∧ (∃ r p w, s' = with_slots r p w s).
Proof.
  intros Hs Hr. set (ds := child_directions class).
  assert (Hds : child_callbacks class = cond_of <$> ds) by (unfold ds; by destruct class).
  assert (Hn : callbacks class = zlen ds ∧ zlen ds ≤ 3 ∧ NoDup ds).
  { unfold callbacks. rewrite Hds, length_fmap. split_and!; [done|unfold ds; by destruct class|].
    unfold ds. destruct class; cbn; repeat constructor; set_solver. }
  destruct Hn as (Hk & Hle & Hnd). rewrite Hds, Hk.
  destruct (register_list ds sn s lg Hnd) as [lg' ->]; [intros; apply Hs|lia|].
  eexists lg', _. split; [done|]. split; [|apply registered_slots].
  intros d. destruct (registered_slot ds s d Hnd) as [H1 H2].
  assert (Hin : cond_of d ∈ cond_of <$> ds ↔ d ∈ ds).
  { rewrite list_elem_of_fmap. split; [|by eauto]. intros (d' & He & Hd'). by destruct d, d'. }
  case_decide as Hd; [by apply H1, Hin|]. rewrite H2 by by rewrite <- Hin. apply Hs.
Qed.
End two_streams.

(** *** Attaching *)

Definition as_parent (i : nat) (s sn : ZStream) : ZStream :=
  with_timeout (timeout s) (with_child (Some i) (with_ref (ref_cnt sn + 1)
    (with_name (name s) (with_depth (stack_depth s + 1) sn)))).

Definition as_child (n : nat) (s : ZStream) : ZStream :=
  with_struct_ref (struct_ref s + 1) (with_ref (ref_cnt s + 1) (with_parent (Some n) s)).

Lemma attach_child_ok m st n i sn s lg rest :
  n ≠ i → n ∉ rest → i ∉ rest → parent s = None → child sn = None → child s = head rest →
  chain m rest → 0 < ref_cnt sn < MAX_REF → 0 < ref_cnt s < MAX_REF → 0 < struct_ref s < MAX_REF →
  returns (attach_child (two m st n i sn s lg) n i) (λ w',
    w_streams w' !! n = Some (as_parent i s sn) ∧
    w_streams w' !! i = Some (mask (umbrella_flags sn) (as_child n s)) ∧
    (∀ j, j ∈ rest → w_streams w' !! j = mask (umbrella_flags sn) <$> m !! j) ∧
    (∀ j, j ∉ n :: i :: rest → w_streams w' !! j = m !! j) ∧ w_store w' = st).
Proof.
  intros Hni Hnr Hir Hp Hcn Hci Hch Hrn Hrs Hss. unfold attach_child.
  rewrite (get_r m st n i Hni), Done_bind, Hp, require_true, Done_bind by done.
  rewrite (upd_l m st n i). unfold height. cbn [z_stream_set_name].
  rewrite (get_l m st n i), Done_bind, (upd_l m st n i).
  replace (child (with_depth (stack_depth s + 1) sn)) with (@None nat) by (cbn; by rewrite Hcn).
  rewrite Done_bind, (ref_l m st n i), Done_bind, (upd_r m st n i Hni) by (cbn; lia).
  rewrite (ref_r m st n i Hni), Done_bind, (upd_l m st n i) by (cbn; lia).
  rewrite (struct_ref_r m st n i Hni), Done_bind, (get_r m st n i Hni), Done_bind by (cbn; lia).
  rewrite (upd_l m st n i), (get_l m st n i), Done_bind.
  set (w1 := two m st n i _ _ lg).
  assert (Hn1 : w_streams w1 !! n = Some (as_parent i s sn)) by (cbn; by rewrite lookup_insert_eq).
  assert (Hi1 : w_streams w1 !! i = Some (as_child n s))
    by (cbn; by rewrite lookup_insert_ne, lookup_insert_eq).
  assert (Hr1 : ∀ j, j ∉ n :: i :: [] → w_streams w1 !! j = m !! j).
  { intros j Hj. cbn. rewrite !lookup_insert_ne by set_solver. done. }
  assert (Hch1 : chain (w_streams w1) (i :: rest)).
  { exists (as_child n s). split_and!; [done..|]. eapply chain_frame; [|done].
    intros j Hj. apply Hr1. set_solver. }
  eapply returns_mono.
  { apply (umbrella_loop_ok (umbrella_flags sn) (i :: rest) _ w1 n _ Hn1); try done; [set_solver|].
    apply map_length in Hch1. fold (height w1). unfold height. lia. }
  intros w' (Hin & Hout & Hst). split_and!.
  - rewrite Hout by set_solver. done.
  - rewrite Hin, Hi1 by left. done.
  - intros j Hj. rewrite Hin by by right. rewrite Hr1 by set_solver. done.
  - intros j Hj. rewrite Hout by set_solver. apply Hr1. set_solver.
  - done.
Qed.

(** What setting the child of a stream gives, up to private states. *)
Definition adopted (w : world) (n i : nat) (sn s : ZStream) (rest : list nat) (w' : world) : Prop :=
  (∃ sn', w_streams w' !! n = Some sn' ∧ level None true false (Some i) sn' ∧ isa sn' = isa sn ∧
     umbrella_state sn' = umbrella_state sn ∧ umbrella_flags sn' = umbrella_flags sn) ∧
  (∃ s', w_streams w' !! i = Some s' ∧ ref_cnt s' = ref_cnt s + 1 ∧
     level (Some (n, isa sn)) true false (head rest) (with_ref (ref_cnt s) s') ∧ isa s' = isa s ∧
     umbrella_state s' = Z.land (umbrella_state s) (Z.lnot (umbrella_flags sn)) ∧
     umbrella_flags s' = umbrella_flags s) ∧
  (∀ j, j ∈ rest → ∃ o, w_streams w' !! j = with_priv o <$> (mask (umbrella_flags sn) <$> w_streams w !! j)) ∧
  (∀ j, j ∉ n :: i :: rest → w_streams w' !! j = w_streams w !! j) ∧ w_store w' = w_store w.

Lemma set_child_some_ok su w n i sn s rest :
  n ≠ i → n ∉ rest → i ∉ rest → w_streams w !! n = Some sn → w_streams w !! i = Some s →
  level None true false None sn → level None true false (head rest) s → chain (w_streams w) rest →
  (header_gzip sn = true → answers_by_state ∧ blocking (w_streams w) (i :: rest)) →
  returns (class_set_child own_ctrl su w n (Some i)) (adopted w n i sn s rest).
Proof.
  intros Hni Hnr Hir Hn Hi Hln Hls Hch Hblk.
  pose proof Hln as (Hrn & Hsn & Hson & Hun & Hpn & Hcn & Han).
  pose proof Hls as (Hri & Hsi & Hsoi & Hui & Hpi & Hci & Hai). cbn in *.
  pose proof (callbacks_bound (isa sn)) as Hk. pose proof (callbacks_bound (isa s)) as Hks.
  assert (HM : MAX_REF = 524288) by done.
  assert (Hrib : 0 < ref_cnt s < 8) by (destruct (head rest); lia).
  rewrite (as_two w n i sn s Hni Hn Hi). set (m := w_streams w) in *. set (st := w_store w).
  unfold class_set_child. rewrite (get_l m st n i), Done_bind.
  destruct (overrides_set_child (isa sn)) eqn:Hov.
  - rewrite (ref_l m st n i), Done_bind by lia.
    unfold z_stream_set_child_method at 1. rewrite (get_l m st n i), Done_bind.
    replace (child (with_ref (ref_cnt sn + 1) sn)) with (@None nat) by (cbn; by rewrite Hcn).
    rewrite Done_bind. apply returns_bind. eapply returns_mono.
    { apply (attach_child_ok m st n i (with_ref (ref_cnt sn + 1) sn) s _ rest); try done; cbn; lia. }
    intros w1 (Hn1 & Hi1 & Hr1 & Hf1 & Hst1). apply returns_bind.
    rewrite (as_two w1 n i _ _ Hni Hn1 Hi1), Hst1. cbn [umbrella_flags with_ref].
    destruct (register_callbacks_ok (w_streams w1) st n i Hni (isa sn)
      (as_parent i s (with_ref (ref_cnt sn + 1) sn)) (mask (umbrella_flags sn) (as_child n s))
      (w_notified w1)) as (lg2 & s2 & -> & Hsl & r & p & wr & ->); [exact Hai|cbn; lia|].
    rewrite Done_bind. set (sn2 := with_ref _ _). set (s2 := with_slots _ _ _ _).
    set (w2 := two (w_streams w1) st n i sn2 s2 lg2).
    assert (Hn2 : w_streams w2 !! n = Some sn2) by (cbn; by rewrite lookup_insert_eq).
    assert (Hi2 : w_streams w2 !! i = Some s2) by (cbn; by rewrite lookup_insert_ne, lookup_insert_eq).
    assert (Hf2 : ∀ j, j ≠ n → j ≠ i → w_streams w2 !! j = w_streams w1 !! j)
      by (intros; cbn; by rewrite !lookup_insert_ne).
    assert (Hch2 : chain (w_streams w2) (i :: rest)).
    { exists s2. split_and!; [done..|]. eapply chain_kept; [|exact Hch]. intros j Hj.
      exists (mask (umbrella_flags sn)). split; [apply keeps_mask|].
      rewrite Hf2 by (intros ->; set_solver). by apply Hr1. }
    eapply (returns_mono _ (own_only (i :: rest) w2)).
    { case_bool_decide.
      2: { destruct (header_gzip sn) eqn:Hg; [|by apply returns_ret, own_only_refl].
        destruct (Hblk eq_refl) as [Hans Hb]. apply assert_blocking_ok; [done|].
        eapply blocking_like; [exact Hans| |exact Hb]. intros j [->|Hj]%elem_of_cons.
        - exists (λ x, with_slots r p wr (mask (umbrella_flags sn) (as_child n x))).
          split; [done|]. rewrite Hi2. fold m. by rewrite Hi.
        - exists (mask (umbrella_flags sn)). rewrite Hf2 by (intros ->; set_solver). split; [done|]. by apply Hr1. }
      unfold z_stream_set_nonblock. rewrite bind_assoc. apply returns_bind.
      eapply returns_mono.
      { apply (ctrl_default_ok ZST_CTRL_SET_NONBLOCK _ _ rest w2 i); [done|done|].
        apply map_length in Hch2. unfold height. cbn [length] in Hch2. lia. }
      intros [[res v] w3] Hw3. exact Hw3. }
    intros w3 (Ho3 & Hf3 & Hst3). destruct (Ho3 i) as [o3 Hi3]. rewrite Hi2 in Hi3. cbn in Hi3.
    assert (Hn3 : w_streams w3 !! n = Some sn2) by (rewrite Hf3 by set_solver; done).
    rewrite (as_two w3 n i _ _ Hni Hn3 Hi3), (unref_l _ _ n i) by (cbn; lia).
    apply returns_ret. unfold adopted. cbn. rewrite lookup_insert_eq.
    rewrite lookup_insert_ne, lookup_insert_eq by done. split_and!; [| | | |exact Hst3].
    + eexists. split; [done|]. split_and!; try done. unfold level. cbn. rewrite Hrn. split_and!; try done; lia.
    + eexists. split; [done|]. cbn. split_and!; try done. unfold level. cbn.
      split_and!; try done; lia.
    + intros j Hj. destruct (Ho3 j) as [o Hj3]. exists o.
      rewrite !lookup_insert_ne by (intros ->; set_solver). rewrite Hj3. f_equal.
      rewrite Hf2 by (intros ->; set_solver). by apply Hr1.
    + intros j Hj. rewrite !lookup_insert_ne by set_solver. rewrite Hf3 by set_solver.
      rewrite Hf2 by set_solver. by apply Hf1.
  - assert (Hk0 : child_callbacks (isa sn) = []) by by destruct (isa sn).
    unfold z_stream_set_child_method. rewrite (get_l m st n i), Done_bind, Hcn, Done_bind.
    eapply returns_mono; [apply (attach_child_ok m st n i sn s _ rest); done || lia|].
    intros w1 (Hn1 & Hi1 & Hr1 & Hf1 & Hst1). unfold adopted. rewrite Hn1, Hi1. split_and!; [| | | |exact Hst1].
    + eexists. split; [done|]. split_and!; try done. unfold level, callbacks. cbn. rewrite Hk0. cbn.
      rewrite Hrn. split_and!; try done; lia.
    + eexists. split; [done|]. cbn. split_and!; try done. unfold level. cbn. rewrite Hk0.
      split_and!; try done; lia.
    + intros j Hj. cbn. rewrite !lookup_insert_ne by (intros ->; set_solver). rewrite Hr1 by done.
      destruct (m !! j) as [sj|]; [|by exists (0, 0)]. by exists (own sj, timeout sj).
    + intros j Hj. cbn. rewrite !lookup_insert_ne by set_solver. by apply Hf1.
Qed.

(** C23: Pushing a new stream onto a stack (of streams that are no ZStreamTee and hold nothing
    that was put back) gives a stack whose counters are exact, in which a stream is active in
    the directions that none above it claims, and changes no other stream; the reference of
    the caller moves to the new top.  A ZStreamGzip with gzip headers may only be pushed onto
    a stack that says that it blocks: on another the g_assert fails ([push_nonblocking]). *)
Theorem push_spec w n i sn rest :
  n ∉ i :: rest → seg (w_streams w) None true false (i :: rest) → w_streams w !! n = Some sn →
  level None true false None sn → umbrella (w_streams w) 0 (i :: rest) →
  umbrella_state sn = umbrella_flags sn →
  (header_gzip sn = true → answers_by_state ∧ blocking (w_streams w) (i :: rest)) →
  returns (z_stream_push own_ctrl w i n) (λ '(t, w'), t = n ∧
    seg (w_streams w') None true false (n :: i :: rest) ∧
    umbrella (w_streams w') 0 (n :: i :: rest) ∧
    (∀ j, j ∉ n :: i :: rest → w_streams w' !! j = w_streams w !! j) ∧ w_store w' = w_store w).
Proof.
  intros Hn Hseg Hsn Hln Humb Hus Hblk. destruct Hseg as (s & Hi & Hls & Hir & Hseg).
  destruct Humb as (s0 & Hi0 & Hu & Humb). rewrite Hi in Hi0. simplify_eq.
  apply not_elem_of_cons in Hn as [Hni Hnr]. unfold z_stream_push, z_stream_set_child.
  apply returns_bind. eapply returns_mono.
  { apply (set_child_some_ok _ w n i sn s0 rest); try done. by eapply seg_chain. }
  intros w1 ((sn1 & Hn1 & Hl1 & Hisa1 & Hu1 & Hfl1) & (s1 & Hi1 & Hr1 & Hl1' & Hisa1' & Hu1' & Hfl1') &
             Hrest & Hfr & Hst).
  pose proof (callbacks_bound (isa s0)) as Hks.
  assert (Hrb : 0 < ref_cnt s0 < 8) by (destruct Hls as (Hr & _); destruct (head rest); lia).
  assert (HM : MAX_REF = 524288) by done.
  rewrite (as_two w1 n i _ _ Hni Hn1 Hi1), (unref_r _ _ n i Hni), Done_bind by lia.
  set (s' := with_ref (ref_cnt s1 - 1) s1). unfold two.
  set (m' := <[n := sn1]> (<[i := s']> (w_streams w1))).
  assert (Hm'i : m' !! i = Some s') by (unfold m'; by rewrite lookup_insert_ne, lookup_insert_eq).
  assert (Hm'j : ∀ j, j ≠ n → j ≠ i → m' !! j = w_streams w1 !! j)
    by (intros; unfold m'; by rewrite !lookup_insert_ne).
  assert (Hm'r : ∀ j, j ∈ rest → ∃ o, m' !! j = with_priv o <$> (mask (umbrella_flags sn) <$> w_streams w !! j)).
  { intros j Hj. rewrite Hm'j by (intros ->; set_solver). by apply Hrest. }
  apply returns_ret. cbn [w_streams w_store]. split_and!; [done| | | |exact Hst].
  - exists sn1. unfold m' at 1. rewrite lookup_insert_eq. split_and!; [done|done|set_solver|].
    rewrite Hisa1. exists s'. split_and!; [done| |done|].
    + replace s' with (with_ref (ref_cnt s0) s1) by (unfold s'; f_equal; lia). exact Hl1'.
    + change (isa s') with (isa s1). rewrite Hisa1'. eapply seg_kept; [|exact Hseg].
      intros j Hj. destruct (Hm'r j Hj) as [o Hj']. exists (λ x, with_priv o (mask (umbrella_flags sn) x)).
      split; [intros x; by split_and!|]. rewrite Hj'. by destruct (w_streams w !! j).
  - exists sn1. unfold m' at 1. rewrite lookup_insert_eq. rewrite Hu1, Hfl1, Hus.
    split_and!; [done|by rewrite Z.land_m1_r|]. rewrite Z.lor_0_l. exists s'. rewrite Hm'i.
    change (umbrella_state s') with (umbrella_state s1). change (umbrella_flags s') with (umbrella_flags s1).
    rewrite Hu1', Hu, Hfl1', Z.land_m1_r. split_and!; [done|done|].
    eapply (umbrella_frame (mask (umbrella_flags sn) <$> w_streams w)).
    + intros j Hj. destruct (Hm'r j Hj) as [o Hj']. exists o. by rewrite Hj', lookup_fmap.
    + rewrite (Z.lor_comm (umbrella_flags sn)). eapply umbrella_mask; [|exact Humb].
      intros j Hj. by rewrite lookup_fmap.
  - intros j Hj. rewrite Hm'j by set_solver. by apply Hfr.
Qed.
End push.

(** *** Popping *)

Section pop.
Context (own_ctrl : ZStream → Z → ctrl_value → option (bool * ctrl_value * (Z * Z))).

Lemma cut_app sc : app_slots (cut sc).
Proof. apply app_slots_None. intros d. by destruct d. Qed.

Lemma cut_umbrella n k s :
  with_umbrella (umbrella_flags s) (with_ref n (with_struct_ref 1 (cut (with_ref k s)))) =
  with_struct_ref 1 (cut (with_ref n s)).
Proof. by destruct s. Qed.

(** The structure of a child that is still open outlives its parent. *)
Lemma struct_unref_open m st i c s sc lg :
  i ≠ c → 1 < struct_ref sc < MAX_REF →
  returns (z_stream_struct_unref own_ctrl (two m st i c s sc lg) c)
    (broken (two m st i c s sc lg) c (with_struct_ref (struct_ref sc - 1) sc) []).
Proof.
  intros Hic Hr. unfold z_stream_struct_unref, height. cbn [struct_unref_loop].
  rewrite (get_r m st i c Hic), Done_bind. unfold z_refcount_dec.
  rewrite require_true, !Done_bind, bool_decide_false, (upd_r m st i c Hic) by lia.
  unfold broken. cbn. rewrite lookup_insert_ne, lookup_insert_eq by done. split_and!; [done|set_solver| |done].
  intros j Hj _. destruct (decide (i = j)) as [<-|]; [by rewrite !lookup_insert_eq|].
  by rewrite !lookup_insert_ne by done.
Qed.

Lemma pop_ok w i c rest s sc :
  seg (w_streams w) None true false (i :: c :: rest) →
  w_streams w !! i = Some s → w_streams w !! c = Some sc →
  returns (z_stream_pop own_ctrl w i) (λ '(t, w'), t = Some c ∧
    w_streams w' !! i = None ∧ w_streams w' !! c = Some (with_struct_ref 1 (cut sc)) ∧
    (∀ j, j ≠ i → j ≠ c → w_streams w' !! j = w_streams w !! j) ∧ w_store w' = w_store w).
Proof.
  intros (s0 & Hi0 & (Hri & Hsi & Hsoi & Hui & Hpi & Hci & Hai) & Hni & sc0 & Hc0 & Hlc & Hcr & _) Hi Hc.
  rewrite Hi in Hi0. rewrite Hc in Hc0. simplify_eq.
  destruct Hlc as (Hrc & Hsc & Hsoc & Huc & Hpc & Hcc & Hac). cbn in *.
  apply not_elem_of_cons in Hni as [Hic Hir].
  pose proof (callbacks_bound (isa s0)) as Hk. pose proof (callbacks_bound (isa sc0)) as Hkc.
  assert (HM : MAX_REF = 524288) by done.
  assert (Hrcb : 0 < ref_cnt sc0 < 8) by (destruct (head rest); lia).
  rewrite (as_two w i c s0 sc0 Hic Hi Hc). set (m := w_streams w). set (st := w_store w).
  unfold z_stream_pop. rewrite (get_l m st i c), Done_bind, Hci.
  rewrite (ref_r m st i c Hic), Done_bind, (upd_l m st i c) by lia.
  set (s1 := with_umbrella _ s0). set (sc1 := with_ref (ref_cnt sc0 + 1) sc0).
  apply returns_bind. eapply returns_mono.
  { apply (class_set_child_none_ok own_ctrl (z_stream_struct_unref own_ctrl) m st i c s1 sc1 (w_notified w) []
      (with_struct_ref 1 (cut sc1))); try done; [set_solver|set_solver|cbn; lia|cbn; lia|].
    intros lg s' w1. eapply returns_mono; [apply struct_unref_open; [done|cbn; lia]|].
    intros w' Hw'. unfold sc1 in *. cbn [struct_ref cut with_ref with_parent with_umbrella drop_slots with_slots] in Hw'.
    by rewrite Hsc in Hw'. }
  intros w1 ((Hi1 & _ & Hf1 & _) & Hc1 & Hst1). cbn in Hi1. rewrite lookup_delete_ne in Hi1 by done.
  unfold get_stream. rewrite Hc1, Done_bind.
  set (w2 := upd c _ w1).
  assert (Hi2 : w_streams w2 !! i = Some (with_ref (ref_cnt s0 - callbacks (isa s0) - 1) (with_child None s1)))
    by (cbn; rewrite lookup_alter_ne by done; exact Hi1).
  destruct (unref_last w2 i _ Hi2) as [lg ->]; [cbn; lia|done|done|exact Hai|].
  rewrite Done_bind. apply returns_ret. split_and!; [done| | | |exact Hst1].
  - cbn. by rewrite lookup_delete_eq.
  - cbn. rewrite lookup_delete_ne, lookup_alter_eq, Hc1 by done. cbn.
    unfold sc1. rewrite cut_umbrella. cbn [ref_cnt with_struct_ref cut with_parent drop_slots with_slots
      with_umbrella with_ref]. by rewrite Z.add_simpl_r, with_ref_id.
  - intros j Hji Hjc. cbn. rewrite lookup_delete_ne, lookup_alter_ne by done.
    assert (Hj : j ∉ c :: []) by set_solver. specialize (Hf1 j Hji Hj). cbn in Hf1.
    rewrite lookup_delete_ne, !lookup_insert_ne in Hf1 by done. by rewrite !lookup_insert_ne.
Qed.
End pop.

(** C24: Popping a stack (of streams that are no ZStreamTee and hold nothing that was put back)
    frees exactly its top: the next stream loses its parent and the callbacks that the top
    registered, and is active in its directions again; no other stream changes.  So the
    umbrella is right below only if the old top claimed no direction that the new one does
    not.  (A ZStreamTee releases its fork too: [pop_frees_fork].) *)
Theorem pop_spec own_ctrl w i c rest s sc :
  seg (w_streams w) None true false (i :: c :: rest) → umbrella (w_streams w) 0 (i :: c :: rest) →
  w_streams w !! i = Some s → w_streams w !! c = Some sc →
  returns (z_stream_pop own_ctrl w i) (λ '(t, w'), t = Some c ∧
    w_streams w' !! i = None ∧ (∀ j, j ∉ [i; c] → w_streams w' !! j = w_streams w !! j) ∧
    seg (w_streams w') None true false (c :: rest) ∧
    (∃ sc', w_streams w' !! c = Some sc' ∧ umbrella_state sc' = umbrella_flags sc) ∧
    umbrella (w_streams w') (Z.lor (umbrella_flags s) (umbrella_flags sc)) rest ∧
    (Z.lor (umbrella_flags s) (umbrella_flags sc) = umbrella_flags sc →
     umbrella (w_streams w') 0 (c :: rest)) ∧ w_store w' = w_store w).
Proof.
  intros Hseg Humb Hi Hc. eapply returns_mono; [by eapply pop_ok|].
  intros [t w'] (-> & Hi' & Hc' & Hf & Hst).
  destruct Hseg as (s0 & Hi0 & _ & Hni & sc0 & Hc0 & Hlc & Hcr & Hseg).
  destruct Humb as (s1 & Hi1 & _ & sc1 & Hc1 & _ & Humb).
  assert (s1 = s ∧ sc0 = sc ∧ sc1 = sc) as (-> & -> & ->) by (split_and!; congruence). rewrite Z.lor_0_l in Humb.
  apply not_elem_of_cons in Hni as [Hic Hir].
  assert (Hrest : ∀ j, j ∈ rest → w_streams w' !! j = w_streams w !! j)
    by (intros j Hj; apply Hf; intros ->; set_solver).
  assert (Hrest' : umbrella (w_streams w') (Z.lor (umbrella_flags s) (umbrella_flags sc)) rest).
  { eapply umbrella_frame; [|exact Humb]. intros j Hj. rewrite Hrest by done.
    apply (own_only_refl rest). }
  split_and!; try done.
  - intros j Hj. apply Hf; set_solver.
  - exists (with_struct_ref 1 (cut sc)). split_and!; [done| |done|].
    + destruct Hlc as (H1 & H2 & H3 & H4 & H5 & H6 & H7). split_and!; try done. apply cut_app.
    + change (isa (with_struct_ref 1 (cut sc))) with (isa sc). eapply seg_frame; [|exact Hseg]. done.
  - by exists (with_struct_ref 1 (cut sc)).
  - intros Hsub. exists (with_struct_ref 1 (cut sc)). split_and!; [done| |].
    + cbn. by rewrite Z.land_m1_r.
    + rewrite Z.lor_0_l. change (umbrella_flags (with_struct_ref 1 (cut sc))) with (umbrella_flags sc).
      by rewrite <- Hsub.
Qed.

(** ** A stack of a ZStreamSsl, a ZStreamLine and a ZStreamFD *)

Definition no_ctrl (_ : ZStream) (_ : Z) (_ : ctrl_value) : option (bool * ctrl_value * (Z * Z)) := None.

Definition three_streams : world := mkWorld
  (list_to_map [(0%nat, z_stream_new ZStreamFD__class [] (Z.lor G_IO_IN G_IO_OUT));
                (1%nat, z_stream_new ZStreamLine__class [] G_IO_IN);
                (2%nat, z_stream_new ZStreamSsl__class [] (Z.lor G_IO_IN G_IO_OUT))])
  empty_store [].

Definition done_or (w : world) (m : outcome (nat * world)) : world :=
  match m with Done (_, w) => w | Fault _ => w end.

Definition line_stack : world :=
  done_or three_streams (z_stream_push no_ctrl three_streams 0 1).
Definition ssl_stack : world :=
  done_or three_streams (z_stream_push no_ctrl line_stack 1 2).

Ltac level_by_evaluation :=
  unfold level, plain; split_and!; try reflexivity; try (intros []; vm_compute; done); try (by vm_compute).
Ltac seg_by_evaluation :=
  repeat (eexists; split; [vm_compute; reflexivity|]; split; [level_by_evaluation|];
          split; [set_solver|]); exact I.
Ltac umbrella_by_evaluation := repeat (eexists; split_and!; [vm_compute; reflexivity..|]); exact I.

Lemma ssl_stack_seg : seg (w_streams ssl_stack) None true false [2; 1; 0]%nat.
Proof. seg_by_evaluation. Qed.

Lemma ssl_stack_umbrella : umbrella (w_streams ssl_stack) 0 [2; 1; 0]%nat.
Proof. umbrella_by_evaluation. Qed.

(** A ZStreamGzip that wants gzip headers is pushed onto a ZStreamBlob with a timeout. *)
Definition blob_ctrl (x : ZStream) (msg : Z) (v : ctrl_value) : option (bool * ctrl_value * (Z * Z)) :=
  if decide (isa x = ZStreamBlob__class) then z_stream_blob_ctrl x msg v else None.

Definition gzip_and_blob (tmout : Z) : world := mkWorld
  (list_to_map [(0%nat, with_timeout tmout (z_stream_new ZStreamBlob__class [] (Z.lor G_IO_IN G_IO_OUT)));
                (1%nat, with_own Z_SGZ_GZIP_HEADER (z_stream_new ZStreamGzip__class [] (Z.lor G_IO_IN G_IO_OUT)))])
  empty_store [].

Lemma blob_ctrl_passes : passes_callbacks blob_ctrl.
Proof. intros s v d. unfold blob_ctrl. case_decide; [|done]. by destruct d. Qed.

Lemma blob_ctrl_answers : answers_by_state blob_ctrl.
Proof. intros s s' msg v E1 E2 E3. unfold blob_ctrl, z_stream_blob_ctrl. by rewrite E1, E2, E3. Qed.

Lemma push_spec_witness :
  let w := gzip_and_blob (-2) in
  returns (z_stream_push blob_ctrl w 0 1) (λ '(t, w'), t = 1%nat ∧
    seg (w_streams w') None true false [1; 0]%nat ∧ umbrella (w_streams w') 0 [1; 0]%nat ∧
    (∀ j, j ∉ [1; 0]%nat → w_streams w' !! j = w_streams w !! j) ∧ w_store w' = w_store w).
Proof.
  intros w. apply (push_spec blob_ctrl blob_ctrl_passes w 1 0
    (with_own Z_SGZ_GZIP_HEADER (z_stream_new ZStreamGzip__class [] (Z.lor G_IO_IN G_IO_OUT))) []); try reflexivity.
  - set_solver.
  - seg_by_evaluation.
  - level_by_evaluation.
  - umbrella_by_evaluation.
  - intros _. split; [exact blob_ctrl_answers|]. eexists. split; [reflexivity|]. by vm_compute.
Defined.

(** Onto one that does not block, it cannot be pushed. *)
Example push_nonblocking :
  z_stream_push blob_ctrl (gzip_and_blob 0) 0 1 = Fault AssertFailed.
Proof. by vm_compute. Qed.

Definition stream_of (w : world) (i : nat) : ZStream :=
  default (z_stream_new ZStreamFD__class [] 0) (w_streams w !! i).

Lemma pop_spec_witness :
  let flags i := umbrella_flags (stream_of ssl_stack i) in
  returns (z_stream_pop no_ctrl ssl_stack 2) (λ '(t, w'), t = Some 1%nat ∧
    w_streams w' !! 2%nat = None ∧ (∀ j, j ∉ [2; 1]%nat → w_streams w' !! j = w_streams ssl_stack !! j) ∧
    seg (w_streams w') None true false [1; 0]%nat ∧
    (∃ sc', w_streams w' !! 1%nat = Some sc' ∧ umbrella_state sc' = flags 1%nat) ∧
    umbrella (w_streams w') (Z.lor (flags 2%nat) (flags 1%nat)) [0]%nat ∧
    (Z.lor (flags 2%nat) (flags 1%nat) = flags 1%nat → umbrella (w_streams w') 0 [1; 0]%nat) ∧
    w_store w' = w_store ssl_stack).
Proof.
  exact (pop_spec no_ctrl ssl_stack 2 1 [0%nat] (stream_of ssl_stack 2) (stream_of ssl_stack 1)
    ssl_stack_seg ssl_stack_umbrella ltac:(by vm_compute) ltac:(by vm_compute)).
Defined.

(** So the ZStreamFD under the ZStreamLine that is the top now may not write, although no
    stream above it claims that direction. *)
Example pop_leaves_shadow :
  returns (z_stream_pop no_ctrl ssl_stack 2) (λ '(_, w'),
    umbrella_state (stream_of w' 0) = 0 ∧ umbrella_flags (stream_of w' 0) = Z.lor G_IO_IN G_IO_OUT ∧
    ¬ umbrella (w_streams w') 0 [1; 0]%nat).
Proof.
  vm_compute. split_and!; [done..|]. intros (s & Hs & _ & s' & Hs' & Hu & _). simplify_eq.
Qed.

(** A ZStreamTee that is popped gives up its fork. *)
Definition teed_stack : world :=
  done_or three_streams (
    let w := upd 2 (λ _, mkStream 1 ZStreamTee__class [] (-2) 0 0 [] 1 None None 0 false 0 0
                           no_slot no_slot no_slot 0 (Some 1%nat)) three_streams in
    z_stream_push no_ctrl w 0 2).

Example pop_frees_fork :
  w_streams teed_stack !! 1%nat ≠ None ∧
  returns (z_stream_pop no_ctrl teed_stack 2) (λ '(t, w'), t = Some 0%nat ∧
    w_streams w' !! 2%nat = None ∧ w_streams w' !! 1%nat = None).
Proof. vm_compute. by split_and!. Qed.
