(* ===== verification/StreamClose.v ===== *)
(** * Taking stacks of streams apart

    Closing a stack and detaching it from its poll loop, in either order, gives up its
    structure; the release of its top frees all its streams then, and no others.
    (Stream.v has the operations, StreamStack.v the well-formed stacks.) *)

From S2P Require Import Prelude RefCount PacketStore StreamApi Stream StreamStack.
Open Scope Z_scope.

(** ** One stream of a world *)

Lemma get_some w i s : w_streams w !! i = Some s → get_stream w i = Done s.
Proof. unfold get_stream. by intros ->. Qed.

Lemma upd_eq f w i s : w_streams w !! i = Some s → w_streams (upd i f w) !! i = Some (f s).
Proof. intros Hi. cbn. by rewrite lookup_alter_eq, Hi. Qed.

Lemma upd_ne f w i j : i ≠ j → w_streams (upd i f w) !! j = w_streams w !! j.
Proof. intros. cbn. by rewrite lookup_alter_ne. Qed.

Lemma ref_ok w i s : w_streams w !! i = Some s → 0 < ref_cnt s < MAX_REF →
  z_stream_ref w i = Done (upd i (with_ref (ref_cnt s + 1)) w).
Proof.
  intros Hi Hr. unfold z_stream_ref, z_refcount_inc. rewrite (get_some _ _ _ Hi), Done_bind, require_true by lia.
  by rewrite !Done_bind.
Qed.

Lemma struct_ref_ok w i s : w_streams w !! i = Some s → 0 < struct_ref s < MAX_REF →
  z_stream_struct_ref w i = Done (upd i (with_struct_ref (struct_ref s + 1)) w).
Proof.
  intros Hi Hr. unfold z_stream_struct_ref, z_refcount_inc.
  rewrite (get_some _ _ _ Hi), Done_bind, require_true by lia. by rewrite !Done_bind.
Qed.

Lemma unref_keep w i s : w_streams w !! i = Some s → 1 < ref_cnt s < MAX_REF →
  z_stream_unref w i = Done (upd i (with_ref (ref_cnt s - 1)) w).
Proof.
  intros Hi Hr. unfold z_stream_unref. cbn [unref_loop]. unfold z_refcount_dec.
  rewrite (get_some _ _ _ Hi), Done_bind, require_true, !Done_bind by lia.
  by rewrite bool_decide_false by lia.
Qed.

(** ** Changing every stream of a stack *)

Definition mapped (f : ZStream → ZStream) (l : list nat) (w w' : world) : Prop :=
  (∀ j, j ∈ l → w_streams w' !! j = f <$> w_streams w !! j) ∧
  (∀ j, j ∉ l → w_streams w' !! j = w_streams w !! j) ∧ w_store w' = w_store w.

Lemma mapped_nil f w : mapped f [] w w.
Proof. split_and!; [set_solver|done..]. Qed.

(** The stream [i] is changed by [g] before those of [rest], and by [h] after them. *)
Lemma mapped_cons f g h i rest w w1 s :
  w_streams w !! i = Some s → i ∉ rest → h (g s) = f s →
  mapped f rest (upd i g w) w1 → mapped f (i :: rest) w (upd i h w1).
Proof.
  intros Hi Hni Hf (Hin & Hout & Hst). split_and!; [| |done].
  - intros j [->|Hj]%elem_of_cons.
    + rewrite (upd_eq _ w1 i (g s)) by (rewrite Hout by done; by rewrite (upd_eq _ _ _ s)).
      rewrite Hi. cbn. by rewrite Hf.
    + rewrite upd_ne by (intros ->; done). rewrite Hin, upd_ne by (done || (intros ->; done)). done.
  - intros j [Hji Hj]%not_elem_of_cons. by rewrite !upd_ne, Hout, upd_ne by done.
Qed.

Lemma upd_id w i : upd i id w = w.
Proof.
  destruct w as [m st lg]. unfold upd. cbn. f_equal. apply map_eq. intros j.
  destruct (decide (i = j)) as [<-|]; [rewrite lookup_alter_eq; by destruct (m !! i)|by rewrite lookup_alter_ne].
Qed.

Lemma seg_map f m m' o src o' src' l : ∀ up,
  (∀ up below s, level up o src below s → level up o' src' below (f s)) → (∀ s, isa (f s) = isa s) →
  (∀ j, j ∈ l → m' !! j = f <$> m !! j) → seg m up o src l → seg m' up o' src' l.
Proof.
  intros up Hl Hc. revert up. induction l as [|i l IH]; intros up Hm; [done|]. cbn.
  intros (s & Hi & Hls & Hni & Hs). exists (f s). rewrite Hm, Hi by left.
  split_and!; [done|by apply Hl|done|]. rewrite Hc. apply IH; [|done]. intros j Hj. apply Hm. by right.
Qed.

Section close.
Context (own_ctrl : ZStream → Z → ctrl_value → option (bool * ctrl_value * (Z * Z))).
Context (channel_shutdown : ZStream → GIOStatus) (gzip_shutdown : world → nat → outcome (GIOStatus * world)).
Abbreviation close := (z_stream_close own_ctrl channel_shutdown gzip_shutdown).

Lemma struct_unref_keep w i s : w_streams w !! i = Some s → 1 < struct_ref s < MAX_REF →
  z_stream_struct_unref own_ctrl w i = Done (upd i (with_struct_ref (struct_ref s - 1)) w).
Proof.
  intros Hi Hr. unfold z_stream_struct_unref, height. cbn [struct_unref_loop]. unfold z_refcount_dec.
  rewrite (get_some _ _ _ Hi), Done_bind, require_true, !Done_bind by lia.
  by rewrite bool_decide_false by lia.
Qed.

(** All streams of [l] are gone. *)
Definition gone (l : list nat) (w w' : world) : Prop :=
  (∀ j, j ∈ l → w_streams w' !! j = None) ∧
  (∀ j, j ∉ l → w_streams w' !! j = w_streams w !! j) ∧ w_store w' = w_store w.

(** A top whose structure was given up: nothing is below it, and one reference is left. *)
Definition bare (l : list nat) (i : nat) (w w' : world) : Prop :=
  (∃ s, w_streams w' !! i = Some s ∧ ref_cnt s = 1 ∧ child s = None ∧ plain s ∧
        source s = false ∧ app_slots s) ∧
  (∀ j, j ∈ l → w_streams w' !! j = None) ∧
  (∀ j, j ∉ i :: l → w_streams w' !! j = w_streams w !! j) ∧ w_store w' = w_store w.

Lemma bare_unref l i w w' : i ∉ l → bare l i w w' → returns (z_stream_unref w' i) (gone (i :: l) w).
Proof.
  intros Hni ((s & Hi & Hr & Hc & Hu & _ & Hs) & Hin & Hout & Hst).
  destruct (unref_last w' i s Hi Hr Hc Hu Hs) as [lg ->]. unfold gone. cbn. split_and!; [| |done].
  - intros j [->|Hj]%elem_of_cons; [by rewrite lookup_delete_eq|].
    rewrite lookup_delete_ne by (intros ->; done). by apply Hin.
  - intros j Hj. rewrite lookup_delete_ne by set_solver. by apply Hout.
Qed.

(** The last holder of the structure of a top gives it up. *)
Lemma struct_unref_top w i rest s :
  w_streams w !! i = Some s → i ∉ rest → seg (w_streams w) (Some (i, isa s)) false false rest →
  ref_cnt s = 1 + match head rest with Some _ => 1 + callbacks (isa s) | None => 0 end →
  struct_ref s = 1 → source s = false → plain s → child s = head rest → app_slots s →
  returns (z_stream_struct_unref own_ctrl w i) (bare rest i w).
Proof.
  intros Hi Hni Hseg Hr Hsr Hsrc Hu Hc Hs. unfold z_stream_struct_unref, height. cbn [struct_unref_loop].
  unfold z_refcount_dec. rewrite (get_some _ _ _ Hi), Done_bind, require_true, !Done_bind by (rewrite Hsr; done).
  rewrite bool_decide_true by lia. set (w1 := upd i _ w).
  assert (Hi1 : w_streams w1 !! i = Some (with_struct_ref (struct_ref s - 1) s)) by by apply upd_eq.
  assert (Hf1 : ∀ j, j ≠ i → w_streams w1 !! j = w_streams w !! j) by (intros; by apply upd_ne).
  rewrite Hc. destruct rest as [|c rest]; cbn [head] in *.
  - apply returns_ret. split_and!; [|set_solver| |done].
    + eexists. split; [exact Hi1|]. split_and!; try done; cbn; lia.
    + intros j Hj. apply Hf1. set_solver.
  - change (returns (break_child own_ctrl (size (w_streams w)) w1 i c) (bare (c :: rest) i w)).
    eapply returns_mono.
    { apply (break_child_ok own_ctrl _ rest w1 i c _ 1 Hi1); [done|done| | |cbn; lia|lia].
      - eapply seg_frame; [|exact Hseg]. intros j Hj. apply Hf1. intros ->. done.
      - by eapply seg_length. }
    intros w' (Hi' & Hdel & Hf & Hst). split_and!; [|done| |done].
    + eexists. split; [exact Hi'|]. by split_and!.
    + intros j [Hji Hj]%not_elem_of_cons. rewrite Hf by done. by apply Hf1.
Qed.

(** *** Closing *)

Definition closed (s : ZStream) : ZStream := with_struct_ref (struct_ref s - 1) s.

Lemma level_closed up src below s : level up true src below s → level up false src below (closed s).
Proof.
  intros (H1 & H2 & H3 & H4 & H5 & H6 & H7). split_and!; try done.
  cbn. rewrite H2. destruct src, up; lia.
Qed.

(** No stream of [l] is a ZStreamGzip. *)
Definition no_gzip (m : gmap nat ZStream) (l : list nat) : Prop :=
  ∀ j s, j ∈ l → m !! j = Some s → isa s ≠ ZStreamGzip__class.

Lemma no_gzip_cons m i l : no_gzip m (i :: l) → no_gzip m l.
Proof. intros Hg j s Hj. apply Hg. by right. Qed.

Lemma no_gzip_mapped f l w w' : (∀ s, isa (f s) = isa s) → mapped f l w w' →
  no_gzip (w_streams w) l → no_gzip (w_streams w') l.
Proof.
  intros Hf (Hin & _) Hg j s Hj. rewrite Hin by done. destruct (_ !! j) as [sj|] eqn:E; [|done].
  intros [= <-]. rewrite Hf. by eapply Hg.
Qed.

(** Closing a stream of another class is the method of ZStream; the channel of a ZStreamFD
    only matters for the result. *)
Lemma close_simple fuel w i s :
  w_streams w !! i = Some s → plain s → isa s ≠ ZStreamGzip__class →
  ∃ g : GIOStatus → GIOStatus, close (S fuel) w i =
    ('(res, w) ← z_stream_close_method own_ctrl (close fuel) w i; Done (g res, w)).
Proof.
  intros Hi [_ Ht] Hg. cbn [z_stream_close]. unfold fd_close. rewrite !(get_some _ _ _ Hi), !Done_bind.
  destruct (isa s) eqn:E; try done;
    [exists (λ res, if decide (res = G_IO_STATUS_NORMAL) then channel_shutdown s else res)|exists id..];
    by destruct (z_stream_close_method own_ctrl (close fuel) w i) as [[]|].
Qed.

(** The streams below a top are closed from the bottom up; their parents still hold
    their structures. *)
Lemma close_below src l : ∀ fuel w up i,
  seg (w_streams w) (Some up) true src (i :: l) → no_gzip (w_streams w) (i :: l) → (length l < fuel)%nat →
  returns (close fuel w i) (λ '(_, w'), mapped closed (i :: l) w w').
Proof.
  assert (HM : MAX_REF = 524288) by done.
  induction l as [|c l IH]; intros [|fuel] w up i Hseg Hg Hf; try (cbn in Hf; lia);
    destruct Hseg as (s & Hi & Hl & Hni & Hseg);
    pose proof Hl as (_ & Hsr & _ & Hpl & _ & Hc & _); cbn [head] in Hc;
    destruct (close_simple fuel w i s Hi Hpl (Hg i s ltac:(by left) Hi)) as [g ->]; unfold z_stream_close_method;
    rewrite (get_some _ _ _ Hi), !Done_bind, Hc.
  - rewrite Done_bind, (struct_unref_keep w i s Hi), !Done_bind by (rewrite Hsr, HM; destruct src; lia).
    apply returns_ret. eapply (mapped_cons closed id); [done|done|done|]. rewrite upd_id. apply mapped_nil.
  - rewrite bind_assoc. apply returns_bind. eapply returns_mono; [eapply (IH fuel w); [done|by eapply no_gzip_cons|cbn in Hf; lia]|].
    intros [res w1] Hm. destruct (Hm) as (_ & Hout & _).
    rewrite (struct_unref_keep w1 i s), !Done_bind
      by (rewrite ?Hout by done; try done; rewrite Hsr, HM; destruct src; lia).
    apply returns_ret. eapply (mapped_cons closed id); [done|done|done|]. by rewrite upd_id.
Qed.

(** The top: what is left to do after closing the streams below it. *)
Lemma close_step src w i l s Q :
  seg (w_streams w) None true src (i :: l) → no_gzip (w_streams w) (i :: l) → w_streams w !! i = Some s →
  (∀ w1, mapped closed l w w1 → returns (z_stream_struct_unref own_ctrl w1 i) Q) →
  returns (close (height w) w i) (λ '(_, w'), Q w').
Proof.
  intros Hseg Hg Hi HQ. pose proof (seg_length _ _ _ _ _ Hseg) as Hlen.
  destruct Hseg as (s' & Hi' & (_ & _ & _ & Hpl & _ & Hc & _) & Hni & Hseg).
  rewrite Hi in Hi'. simplify_eq. unfold height.
  destruct (close_simple (size (w_streams w)) w i s' Hi Hpl (Hg i s' ltac:(by left) Hi)) as [g ->].
  unfold z_stream_close_method.
  rewrite (get_some _ _ _ Hi), !Done_bind, Hc.
  assert (Hend : ∀ res w1, mapped closed l w w1 →
    returns ('(res, w) ← (w ← z_stream_struct_unref own_ctrl w1 i; Done (res, w));
             Done (g res, w)) (λ '(_, w'), Q w')).
  { intros res w1 Hm. rewrite bind_assoc. apply returns_bind. eapply returns_mono; [by apply HQ|].
    intros w2 Hw2. exact Hw2. }
  destruct l as [|c l]; cbn [head].
  - rewrite Done_bind. apply Hend, mapped_nil.
  - rewrite bind_assoc. apply returns_bind. eapply returns_mono; [eapply close_below; [done|by eapply no_gzip_cons|cbn in *; lia]|].
    intros [res w1] Hm. by apply Hend.
Qed.

Lemma mapped_seg f o src o' src' l w w' up :
  (∀ up below s, level up o src below s → level up o' src' below (f s)) → (∀ s, isa (f s) = isa s) →
  mapped f l w w' → seg (w_streams w) up o src l → seg (w_streams w') up o' src' l.
Proof. intros Hl Hc (Hin & _). by eapply seg_map. Qed.

Lemma close_attached w i l :
  seg (w_streams w) None true true (i :: l) → no_gzip (w_streams w) (i :: l) →
  returns (close (height w) w i) (λ '(_, w'), mapped closed (i :: l) w w').
Proof.
  intros Hseg Hg. assert (HM : MAX_REF = 524288) by done. pose proof Hseg as (s & Hi & Hl & Hni & _).
  eapply close_step; [exact Hseg|exact Hg|exact Hi|]. intros w1 Hm. pose proof Hm as (_ & Hout & _).
  rewrite (struct_unref_keep w1 i s) by (rewrite ?Hout by done; try done; destruct Hl as (_ & -> & _); done).
  apply returns_ret. eapply (mapped_cons closed id); [done|done|done|]. by rewrite upd_id.
Qed.

Lemma close_detached w i l :
  seg (w_streams w) None true false (i :: l) → no_gzip (w_streams w) (i :: l) →
  returns (close (height w) w i) (λ '(_, w'), bare l i w w').
Proof.
  intros Hseg Hg. pose proof Hseg as (s & Hi & (H1 & H2 & H3 & H4 & H5 & H6 & H7) & Hni & Hl).
  eapply close_step; [exact Hseg|exact Hg|exact Hi|]. intros w1 Hm.
  pose proof (mapped_seg _ true false false false _ _ _ _ (λ up, level_closed up false) (λ _, eq_refl) Hm Hl) as Hl1.
  destruct Hm as (_ & Hout & Hst).
  eapply returns_mono; [eapply (struct_unref_top w1 i l s); try done; by rewrite Hout|].
  intros w' (Hs & Hin & Hf & Hst'). split_and!; [done|done| |congruence].
  intros j Hj. rewrite Hf by done. apply Hout. set_solver.
Qed.

(** *** Attaching and detaching *)

Definition attached (s : ZStream) : ZStream :=
  with_source true (with_ref (ref_cnt s + 1) (with_struct_ref (struct_ref s + 1) s)).
Definition detached (s : ZStream) : ZStream :=
  with_source false (with_ref (ref_cnt s - 1) (with_struct_ref (struct_ref s - 1) s)).

Lemma level_attached up o below s : level up o false below s → level up o true below (attached s).
Proof.
  intros (H1 & H2 & H3 & H4 & H5 & H6 & H7). split_and!; try done; cbn; [rewrite H1; lia|].
  rewrite H2. destruct o, up; lia.
Qed.

Lemma level_detached up o below s : level up o true below s → level up o false below (detached s).
Proof.
  intros (H1 & H2 & H3 & H4 & H5 & H6 & H7). split_and!; try done; cbn; [rewrite H1; lia|].
  rewrite H2. destruct o, up; lia.
Qed.

Lemma level_bounds up o src below s :
  level up o src below s → 0 < ref_cnt s < 8 ∧ struct_ref s < 8 ∧ (src = true → 1 < ref_cnt s ∧ 0 < struct_ref s).
Proof.
  intros (H1 & H2 & _). pose proof (callbacks_bound (isa s)).
  destruct o, src, below, up; split_and!; try (intros; split_and!); lia.
Qed.

Lemma upd_upd f g w i : upd i f (upd i g w) = upd i (λ s, f (g s)) w.
Proof. unfold upd. cbn. by rewrite alter_alter_eq. Qed.

(** Attaching gives every stream of the stack a source, which holds a reference to the
    stream and its structure. *)
Lemma attach_ok l : ∀ fuel w up i,
  seg (w_streams w) up true false (i :: l) → (length l < fuel)%nat →
  returns (z_stream_attach_source fuel w i) (mapped attached (i :: l) w).
Proof.
  assert (HM : MAX_REF = 524288) by done.
  induction l as [|c l IH]; intros [|fuel] w up i Hseg Hf; try (cbn in Hf; lia);
    destruct Hseg as (s & Hi & Hl & Hni & Hseg); pose proof (level_bounds _ _ _ _ _ Hl) as (Hr & Hsr & _);
    assert (0 < struct_ref s) by (destruct Hl as (_ & -> & _); destruct up; lia);
    pose proof Hl as (_ & _ & Hsrc & _ & _ & Hc & _); cbn [z_stream_attach_source head] in *;
    rewrite (get_some _ _ _ Hi), Done_bind, Hsrc, require_true, Done_bind by done;
    rewrite (ref_ok w i s Hi), Done_bind, (struct_ref_ok _ i _ (upd_eq _ _ _ _ Hi)), Done_bind by (cbn; lia);
    rewrite upd_upd, Hc; set (g := λ x, with_struct_ref _ (with_ref _ x)).
  all: assert (Hend : ∀ l w1, i ∉ l → mapped attached l (upd i g w) w1 →
      returns (w ← z_stream_ref w1 i; z_stream_unref (upd i (with_source true) w) i)
        (mapped attached (i :: l) w)).
  1,3: intros l' w1 Hni' Hm;
    assert (Hi1 : w_streams w1 !! i = Some (g s)) by (destruct Hm as (_ & -> & _); [by apply upd_eq|done]);
    rewrite (ref_ok w1 i (g s) Hi1), Done_bind by (cbn; lia); rewrite upd_upd;
    rewrite (unref_keep _ i _ (upd_eq _ _ _ _ Hi1)), upd_upd by (cbn; lia);
    apply returns_ret; eapply mapped_cons; [exact Hi|exact Hni'| |exact Hm];
    unfold g, attached; cbn; rewrite !Z.add_simpl_r; by destruct s.
  - rewrite Done_bind. apply Hend; [done|apply mapped_nil].
  - apply returns_bind. eapply returns_mono.
    { eapply (IH fuel (upd i g w) (Some (i, isa s)) c); [|cbn in Hf; lia].
      eapply seg_frame; [|exact Hseg]. intros j Hj. apply upd_ne. intros ->. done. }
    intros w1 Hm. by apply Hend.
Qed.

(** One stream: its source goes, then the sources below, then the hold on the structure. *)
Lemma detach_step up o fuel w i l s Q :
  w_streams w !! i = Some s → level up o true (head l) s →
  (∀ c rest w0, l = c :: rest → (∀ j, j ≠ i → w_streams w0 !! j = w_streams w !! j) →
     returns (z_stream_detach_source own_ctrl fuel w0 c) (mapped detached l w0)) → i ∉ l →
  (∀ w1 g, mapped detached l (upd i g w) w1 →
     g s = with_ref (ref_cnt s - 1) (with_source false s) → returns (z_stream_struct_unref own_ctrl w1 i) Q) →
  returns (z_stream_detach_source own_ctrl (S fuel) w i) Q.
Proof.
  intros Hi Hl Hbelow Hni HQ. assert (HM : MAX_REF = 524288) by done.
  pose proof (level_bounds _ _ _ _ _ Hl) as (Hr & _ & Hr1). specialize (Hr1 eq_refl) as [Hr1 _].
  destruct Hl as (_ & _ & Hsrc & _ & _ & Hc & _).
  cbn [z_stream_detach_source]. rewrite (get_some _ _ _ Hi), Done_bind, Hsrc.
  rewrite (unref_keep _ i _ (upd_eq _ _ _ _ Hi)), Done_bind, upd_upd by (cbn; lia).
  set (g := λ x, with_ref _ (with_source false x)).
  rewrite (get_some _ _ _ (upd_eq g _ _ _ Hi)), Done_bind.
  change (child (g s)) with (child s). rewrite Hc. destruct l as [|c l]; cbn [head].
  - rewrite Done_bind. apply (HQ _ g); [apply mapped_nil|done].
  - apply returns_bind. eapply returns_mono; [by eapply Hbelow; [|intros; apply upd_ne]|].
    intros w1 Hm. by apply (HQ w1 g).
Qed.

Lemma detached_cons i l w w1 g s :
  w_streams w !! i = Some s → i ∉ l → g s = with_ref (ref_cnt s - 1) (with_source false s) →
  mapped detached l (upd i g w) w1 →
  w_streams w1 !! i = Some (g s) ∧ mapped detached (i :: l) w (upd i (with_struct_ref (struct_ref s - 1)) w1).
Proof.
  intros Hi Hni Hg Hm. split.
  - destruct Hm as (_ & -> & _); [by apply upd_eq|done].
  - eapply mapped_cons; [done|done| |exact Hm]. rewrite Hg. by destruct s.
Qed.

Lemma detach_below o l : ∀ fuel w up i,
  seg (w_streams w) (Some up) o true (i :: l) → (length l < fuel)%nat →
  returns (z_stream_detach_source own_ctrl fuel w i) (mapped detached (i :: l) w).
Proof.
  assert (HM : MAX_REF = 524288) by done.
  induction l as [|c l IH]; intros [|fuel] w up i Hseg Hf; try (cbn in Hf; lia);
    destruct Hseg as (s & Hi & Hl & Hni & Hseg); eapply detach_step; try done.
  2: { intros c' rest w0 [= <- <-] Hw0. eapply IH; [|cbn in Hf; lia]. eapply seg_frame; [|exact Hseg].
       intros j Hj. apply Hw0. intros ->. done. }
  all: intros w1 g Hm Hg; destruct (detached_cons _ _ _ _ _ _ Hi Hni Hg Hm) as [Hi1 Hm1];
    rewrite (struct_unref_keep w1 i _ Hi1); rewrite Hg; [exact Hm1|];
    destruct Hl as (_ & H2 & _); cbn; rewrite H2; destruct o; lia.
Qed.

Lemma seg_below w w0 i s o src l up :
  i ∉ l → seg (w_streams w) up o src l → (∀ j, j ≠ i → w_streams w0 !! j = w_streams w !! j) →
  w_streams w !! i = Some s → seg (w_streams w0) up o src l.
Proof. intros Hni Hseg Hw0 _. eapply seg_frame; [|exact Hseg]. intros j Hj. apply Hw0. intros ->. done. Qed.

(** Detaching a stack that is open leaves it as it was before it was attached. *)
Lemma detach_open w i l :
  seg (w_streams w) None true true (i :: l) →
  returns (z_stream_detach_source own_ctrl (height w) w i) (mapped detached (i :: l) w).
Proof.
  intros Hseg. assert (HM : MAX_REF = 524288) by done. pose proof (seg_length _ _ _ _ _ Hseg) as Hlen.
  destruct Hseg as (s & Hi & Hl & Hni & Hseg). eapply detach_step; try done.
  - intros c rest w0 -> Hw0. eapply detach_below; [by eapply seg_below|cbn in *; lia].
  - intros w1 g Hm Hg. destruct (detached_cons _ _ _ _ _ _ Hi Hni Hg Hm) as [Hi1 Hm1].
    rewrite (struct_unref_keep w1 i _ Hi1); rewrite Hg; [exact Hm1|].
    destruct Hl as (_ & H2 & _). cbn. rewrite H2. lia.
Qed.

(** Detaching one that was closed gives up its structure. *)
Lemma detach_closed w i l :
  seg (w_streams w) None false true (i :: l) →
  returns (z_stream_detach_source own_ctrl (height w) w i) (bare l i w).
Proof.
  intros Hseg. pose proof (seg_length _ _ _ _ _ Hseg) as Hlen.
  destruct Hseg as (s & Hi & Hl & Hni & Hseg). eapply detach_step; try done.
  - intros c rest w0 -> Hw0. eapply detach_below; [by eapply seg_below|cbn in *; lia].
  - intros w1 g Hm Hg. destruct (detached_cons _ _ _ _ _ _ Hi Hni Hg Hm) as [Hi1 _].
    destruct Hl as (H1 & H2 & H3 & H4 & H5 & H6 & H7). cbn in H7.
    eapply returns_mono; [eapply (struct_unref_top w1 i l _ Hi1 Hni); rewrite Hg; try done|].
    + eapply (mapped_seg _ false true); [intros; by eapply level_detached|done|exact Hm|].
      eapply seg_below; try done. intros j Hj. by apply upd_ne.
    + cbn. rewrite H1. destruct (head l); lia.
    + intros w' (Hs & Hin & Hf & Hst). destruct Hm as (_ & Hout & Hst1). cbn in Hst1.
      split_and!; [done|done| |congruence].
      intros j Hj. rewrite Hf, Hout by set_solver. apply upd_ne. set_solver.
Qed.

(** *** Taking a stack apart *)

Lemma gone_mapped f l w w1 w2 : mapped f l w w1 → gone l w1 w2 → gone l w w2.
Proof.
  intros (_ & Hout & Hst) (Hin & Hout' & Hst'). split_and!; [done| |congruence].
  intros j Hj. by rewrite Hout', Hout.
Qed.

Lemma bare_gone f i l w w1 w2 :
  i ∉ l → mapped f (i :: l) w w1 → bare l i w1 w2 → returns (z_stream_unref w2 i) (gone (i :: l) w).
Proof.
  intros Hni Hm Hb. eapply returns_mono; [by eapply bare_unref|]. intros w3. by apply gone_mapped with f.
Qed.

Definition close_unref (w : world) (i : nat) : outcome world :=
  '(_, w) ← close (height w) w i; z_stream_unref w i.

Definition close_detach_unref (w : world) (i : nat) : outcome world :=
  w ← z_stream_attach_source (height w) w i;
  '(_, w) ← close (height w) w i;
  w ← z_stream_detach_source own_ctrl (height w) w i;
  z_stream_unref w i.

Definition detach_close_unref (w : world) (i : nat) : outcome world :=
  w ← z_stream_attach_source (height w) w i;
  w ← z_stream_detach_source own_ctrl (height w) w i;
  '(_, w) ← close (height w) w i;
  z_stream_unref w i.

(** A stack whose top is closed and released is freed as a whole: whatever its height and
    its classes (no ZStreamTee and no ZStreamGzip), no stream of it is left or used after it
    was freed, and no other stream is touched. *)
Theorem close_frees_stack w i l :
  seg (w_streams w) None true false (i :: l) → no_gzip (w_streams w) (i :: l) →
  returns (close_unref w i) (gone (i :: l) w).
Proof.
  intros Hseg Hg. unfold close_unref. apply returns_bind.
  eapply returns_mono; [by eapply close_detached|]. intros [res w1] Hb. eapply bare_unref; [|done].
  by destruct Hseg as (_ & _ & _ & Hni & _).
Qed.

(** C16: The order of the first two phases of destruction is not defined: a stack of streams
    that are no ZStreamTee and no ZStreamGzip and hold nothing that was put back, attached to
    a poll loop, is freed as a whole when it is closed, detached and released, and when it is
    detached, closed and released; no other stream is touched.  (A ZStreamTee closes and releases its fork too, and a
    ZStreamGzip writes to its child first: [close_closes_fork], StreamGzip.v.) *)
Theorem teardown_orders w i l :
  seg (w_streams w) None true false (i :: l) → no_gzip (w_streams w) (i :: l) →
  returns (close_detach_unref w i) (gone (i :: l) w) ∧ returns (detach_close_unref w i) (gone (i :: l) w).
Proof.
  intros Hseg Hg. assert (Hni : i ∉ l) by by destruct Hseg as (_ & _ & _ & Hni & _).
  assert (Hatt : returns (z_stream_attach_source (height w) w i)
    (λ w1, mapped attached (i :: l) w w1 ∧ seg (w_streams w1) None true true (i :: l) ∧
           no_gzip (w_streams w1) (i :: l))).
  { eapply returns_mono; [eapply attach_ok; [exact Hseg|]|].
    - apply seg_length in Hseg. unfold height. cbn in *. lia.
    - intros w1 Hm. split; [exact Hm|]. split; [|by eapply (no_gzip_mapped attached (i :: l) w w1)].
      eapply (mapped_seg attached); [|done|exact Hm|exact Hseg]. intros. by apply level_attached. }
  split; apply returns_bind; (eapply returns_mono; [exact Hatt|]); intros w1 (Hm1 & Hs1 & Hg1).
  - apply returns_bind. eapply returns_mono; [by eapply close_attached|]. intros [res w2] Hm2.
    apply returns_bind. eapply returns_mono.
    { eapply detach_closed. eapply (mapped_seg closed); [|done|exact Hm2|exact Hs1]. intros. by apply level_closed. }
    intros w3 Hb. eapply returns_mono; [by eapply bare_gone|]. intros w4. by apply gone_mapped with attached.
  - apply returns_bind. eapply returns_mono; [by eapply detach_open|]. intros w2 Hm2.
    apply returns_bind. eapply returns_mono.
    { eapply close_detached; [|by eapply (no_gzip_mapped detached (i :: l) w1 w2)].
      eapply (mapped_seg detached); [|done|exact Hm2|exact Hs1]. intros. by apply level_detached. }
    intros [res w3] Hb. eapply returns_mono; [by eapply bare_gone|]. intros w4.
    by apply gone_mapped with attached.
Qed.
End close.

Definition no_shutdown (w : world) (_ : nat) : outcome (GIOStatus * world) := Done (G_IO_STATUS_NORMAL, w).

Lemma ssl_stack_no_gzip : no_gzip (w_streams ssl_stack) [2; 1; 0]%nat.
Proof.
  intros j s Hj. repeat (apply elem_of_cons in Hj as [->|Hj]; [vm_compute; by intros [= <-]|]). by apply not_elem_of_nil in Hj.
Qed.

Lemma close_frees_stack_witness :
  returns (close_unref no_ctrl (λ _, G_IO_STATUS_ERROR) no_shutdown ssl_stack 2) (gone [2; 1; 0]%nat ssl_stack).
Proof.
  exact (close_frees_stack no_ctrl (λ _, G_IO_STATUS_ERROR) no_shutdown ssl_stack 2 [1; 0]%nat
           ssl_stack_seg ssl_stack_no_gzip).
Defined.

Lemma teardown_orders_witness :
  returns (close_detach_unref no_ctrl (λ _, G_IO_STATUS_NORMAL) no_shutdown ssl_stack 2) (gone [2; 1; 0]%nat ssl_stack) ∧
  returns (detach_close_unref no_ctrl (λ _, G_IO_STATUS_NORMAL) no_shutdown ssl_stack 2) (gone [2; 1; 0]%nat ssl_stack).
Proof.
  exact (teardown_orders no_ctrl (λ _, G_IO_STATUS_NORMAL) no_shutdown ssl_stack 2 [1; 0]%nat
           ssl_stack_seg ssl_stack_no_gzip).
Defined.

(** Closing and releasing a ZStreamTee frees its fork too. *)
Example close_closes_fork :
  returns (close_unref no_ctrl (λ _, G_IO_STATUS_NORMAL) no_shutdown teed_stack 2)
    (λ w', w_streams w' !! 0%nat = None ∧ w_streams w' !! 1%nat = None ∧ w_streams w' !! 2%nat = None).
Proof. vm_compute. by split_and!. Qed.

(** When the fork cannot be closed, the tee is not: it keeps its child, and the release that
    was to free it leaves it alive, held by its child. *)
Definition fork_below : world :=
  done_or three_streams (
    let w := upd 2 (λ _, mkStream 1 ZStreamTee__class [] (-2) 0 0 [] 1 None None 0 false 0 0
                           no_slot no_slot no_slot 0 (Some 0%nat)) three_streams in
    z_stream_push no_ctrl w 1 2).

Example fork_not_closed :
  returns (close_unref no_ctrl (λ _, G_IO_STATUS_ERROR) no_shutdown fork_below 2)
    (λ w', child (stream_of w' 2) = Some 1%nat ∧ ref_cnt (stream_of w' 2) = 4).
Proof. vm_compute. by split_and!. Qed.

(** z_stream_destroy gives up the structure of the top only: of a stack of three, the
    lower two hold each other and are never freed. *)
Example destroy_leaks :
  returns (w ← z_stream_destroy no_ctrl ssl_stack 2; z_stream_unref w 2) (λ w',
    w_streams w' !! 2%nat = None ∧ child (stream_of w' 1) = Some 0%nat ∧ parent (stream_of w' 0) = Some 1%nat ∧
    ref_cnt (stream_of w' 1) = 4 ∧ ref_cnt (stream_of w' 0) = 1).
Proof. vm_compute. by split_and!. Qed.
