(* ===== verification/StreamIO.v ===== *)
(** * Reading, writing and putting back on the base stream (src/src/stream.c)

    What was put back is read first, packet by packet, before the class of the stream is
    asked; z_stream_read_chunk and z_stream_write_chunk repeat their calls until all is
    there.  What the class of a stream reads and writes is a parameter.  The texts of
    errors are not modelled. *)

From S2P Require Import Prelude Heap RefCount PacketBuf PacketStore StreamApi Stream StreamStack StreamClose.
Open Scope Z_scope.

Section io.
Context `{FreshMem}.

(** The read method puts bytes into the buffer, the write method says how many it took. *)
Context (class_read : world → nat → Z → outcome (GIOStatus * list Z * world)).
Context (class_write : world → nat → list Z → outcome (GIOStatus * Z * world)).
(** z_stream_line_unget_packet_method, on the streams of a world. *)
Context (line_unget : world → nat → nat → outcome (bool * world)).

(** Reading from the first packet that was put back. *)
Definition read_ungot (w : world) (i p : nat) (rest : list nat) (count : Z) : outcome (list Z * world) :=
  pack ← pkt_get (w_store w) p;
  if pb_length pack <=? count then
    data ← pkt_head (w_store w) p (pb_length pack);
    let w := upd i (with_ungot rest) w in
    st ← pkt_unref (w_store w) p;
    Done (data, with_store st w)
  else
    data ← pkt_head (w_store w) p count;
    st ← pkt_consume (w_store w) p count;
    Done (data, with_store st w).

Definition count_recvd (i : nat) (n : Z) (w : world) : world :=
  upd i (λ s, with_counts (u64 (bytes_recvd s + n)) (bytes_sent s) s) w.
Definition count_sent (i : nat) (n : Z) (w : world) : world :=
  upd i (λ s, with_counts (bytes_recvd s) (u64 (bytes_sent s + n)) s) w.

Definition z_stream_read (w : world) (i : nat) (count : Z) : outcome (GIOStatus * list Z * world) :=
  s ← get_stream w i;
  '(res, data, w) ← match ungot_bufs s with
                    | p :: rest => '(data, w) ← read_ungot w i p rest count;
                                   Done (G_IO_STATUS_NORMAL, data, w)
                    | [] => class_read w i count
                    end;
  Done (res, data, if decide (res = G_IO_STATUS_NORMAL) then count_recvd i (zlen data) w else w).

Definition z_stream_write (w : world) (i : nat) (buf : list Z) : outcome (GIOStatus * Z * world) :=
  '(res, n, w) ← class_write w i buf;
  Done (res, n, if decide (res = G_IO_STATUS_NORMAL) then count_sent i n w else w).

(** The loop of z_stream_read_chunk: [acc] is in the buffer already. *)
Fixpoint read_chunk_loop (fuel : nat) (w : world) (i : nat) (len : Z) (acc : list Z) (status : GIOStatus)
    : outcome (GIOStatus * list Z * world) :=
  match fuel with
  | O => Fault OutOfFuel
  | S fuel =>
      if decide (status = G_IO_STATUS_NORMAL ∧ 0 < len) then
        '(status, data, w) ← z_stream_read w i len;
        if decide (status = G_IO_STATUS_NORMAL)
        then read_chunk_loop fuel w i (u64 (len - zlen data)) (acc ++ data) status
        else read_chunk_loop fuel w i len acc status
      else Done (status, acc, w)
  end.

Definition z_stream_read_chunk (fuel : nat) (w : world) (i : nat) (len : Z)
    : outcome (GIOStatus * list Z * world) :=
  '(status, data, w) ← read_chunk_loop fuel w i len [] G_IO_STATUS_NORMAL;
  _ ← require (status ≠ G_IO_STATUS_AGAIN) AssertFailed;
  Done (if decide (status = G_IO_STATUS_EOF ∧ 0 < zlen data) then G_IO_STATUS_NORMAL else status, data, w).

(** The loop of z_stream_write_chunk: [n] bytes of [buf] are written. *)
Fixpoint write_chunk_loop (fuel : nat) (w : world) (i : nat) (buf : list Z) (len n : Z) (status : GIOStatus)
    : outcome (GIOStatus * Z * world) :=
  match fuel with
  | O => Fault OutOfFuel
  | S fuel =>
      if decide (status = G_IO_STATUS_NORMAL ∧ 0 < len) then
        '(status, k, w) ← z_stream_write w i (take (Z.to_nat len) (drop (Z.to_nat n) buf));
        if decide (status = G_IO_STATUS_NORMAL)
        then write_chunk_loop fuel w i buf (u64 (len - k)) (u64 (n + k)) status
        else write_chunk_loop fuel w i buf len n status
      else Done (status, n, w)
  end.

Definition z_stream_write_chunk (fuel : nat) (w : world) (i : nat) (buf : list Z)
    : outcome (GIOStatus * Z * world) :=
  '(status, n, w) ← write_chunk_loop fuel w i buf (zlen buf) 0 G_IO_STATUS_NORMAL;
  _ ← require (status ≠ G_IO_STATUS_AGAIN) AssertFailed;
  Done (status, n, w).

(** z_stream_unget_packet_method: from the stream down its stack. *)
Fixpoint unget_packet_loop (fuel : nat) (w : world) (p : option nat) (pack : nat) : outcome world :=
  match p with
  | None => Done w
  | Some i =>
      match fuel with
      | O => Fault OutOfFuel
      | S fuel =>
          s ← get_stream w i;
          let w := if has (umbrella_flags s) G_IO_IN
                   then upd i (with_ungot (pack :: ungot_bufs s)) w else w in
          unget_packet_loop fuel w (child s) pack
      end
  end.

Definition z_stream_unget_packet_method (w : world) (i pack : nat) : outcome (bool * world) :=
  w ← unget_packet_loop (height w) w (Some i) pack; Done (true, w).

(** The virtual call: a ZStreamLine has a method of its own. *)
Definition z_stream_unget_packet (w : world) (i pack : nat) : outcome (bool * world) :=
  s ← get_stream w i;
  if decide (isa s = ZStreamLine__class) then line_unget w i pack
  else z_stream_unget_packet_method w i pack.

Definition z_stream_unget (w : world) (i : nat) (buf : list Z) : outcome (bool * world) :=
  '(st, pack) ← pkt_new_copy (w_store w) buf;
  '(ok, w) ← z_stream_unget_packet (with_store st w) i pack;
  if ok : bool then Done (true, w)
  else st ← pkt_unref (w_store w) pack; Done (false, with_store st w).
End io.

(** ** The queue of what was put back

    [holding w i s A cs]: the stream [i] is [s], and [cs] are the contents of its packets,
    each of which it alone refers to. *)

Definition put_back (A : gmap nat (Z * list Z)) (s : ZStream) (cs : list (list Z)) : Prop :=
  NoDup (ungot_bufs s) ∧ Forall2 (λ p c, A !! p = Some (1, c)) (ungot_bufs s) cs.

Record holding (w : world) (i : nat) (s : ZStream) (A : gmap nat (Z * list Z)) (cs : list (list Z)) : Prop := {
  holding_rep : store_rep (w_store w) A;
  holding_stream : w_streams w !! i = Some s;
  holding_queue : put_back A s cs
}.

(** A read takes from the first packet only. *)
Definition read_queue (n : Z) (cs : list (list Z)) : list Z * list (list Z) :=
  match cs with
  | [] => ([], [])
  | c :: cs => if zlen c <=? n then (c, cs) else (take (Z.to_nat n) c, drop (Z.to_nat n) c :: cs)
  end.

Lemma read_queue_concat n cs : 0 ≤ n → concat cs = fst (read_queue n cs) ++ concat (snd (read_queue n cs)).
Proof.
  destruct cs as [|c cs]; [done|]. intros Hn. cbn. case_match; [done|]. cbn.
  by rewrite app_assoc, take_drop.
Qed.

Lemma read_queue_length n cs : 0 ≤ n → zlen (fst (read_queue n cs)) ≤ n.
Proof.
  destruct cs as [|c cs]; [done|]. intros Hn. cbn. destruct (zlen c <=? n) eqn:E; cbn; [lia|].
  rewrite length_take. lia.
Qed.

(** Every read makes progress: bytes, or a packet that was empty. *)
Lemma read_queue_progress n c cs :
  0 < n → let '(l, cs') := read_queue n (c :: cs) in
  (length (concat cs') + length cs' < length (concat (c :: cs)) + length (c :: cs))%nat.
Proof.
  intros Hn. cbn. destruct (zlen c <=? n) eqn:E; cbn; rewrite !length_app; [lia|]. rewrite length_drop. lia.
Qed.

Section io_ok.
Context `{FreshMem}.

(** Changes of a stream that leave its queue alone. *)
Lemma put_back_frame (A A' : gmap nat (Z * list Z)) s s' cs :
  ungot_bufs s' = ungot_bufs s → (∀ p, p ∈ ungot_bufs s → A' !! p = A !! p) →
  put_back A s cs → put_back A' s' cs.
Proof.
  intros Hu HA (Hnd & Hf). split; rewrite Hu; [done|]. clear Hnd Hu.
  induction Hf as [|p c l cs Hp Hf IH]; constructor; [rewrite HA by left; done|].
  apply IH. intros q Hq. apply HA. by right.
Qed.

Lemma read_ungot_ok w i s A c cs p rest n :
  holding w i s A (c :: cs) → ungot_bufs s = p :: rest → 0 ≤ n →
  returns (read_ungot w i p rest n) (λ '(data, w'), data = fst (read_queue n (c :: cs)) ∧
    ∃ A' u, holding w' i (with_ungot u s) A' (snd (read_queue n (c :: cs))) ∧
      (∀ q, q ∉ ungot_bufs s → A' !! q = A !! q) ∧
      (∀ j, j ≠ i → w_streams w' !! j = w_streams w !! j)).
Proof.
  intros [Hr Hi (Hnd & Hf)] Hu Hn. rewrite Hu in Hnd, Hf. apply NoDup_cons in Hnd as [Hp Hnd].
  apply Forall2_cons_1 in Hf as [Hc Hf].
  destruct (rep_get _ _ _ _ _ Hr Hc) as (pk & Hpk & _ & _ & _ & Hl & _).
  unfold read_ungot. rewrite Hpk, Done_bind, Hl. cbn [read_queue].
  assert (Hrest : ∀ A' : gmap nat (Z * list Z), (∀ q, q ≠ p → A' !! q = A !! q) →
    Forall2 (λ p c, A' !! p = Some (1, c)) rest cs).
  { intros A' HA. eapply (put_back_frame A A' (with_ungot rest s) (with_ungot rest s)); [done| |by split].
    cbn. intros q Hq. apply HA. intros ->. done. }
  destruct (zlen c <=? n) eqn:E.
  - rewrite (pkt_head_ok _ _ _ _ _ _ Hr Hc), Done_bind by lia.
    destruct (pkt_unref_ok _ _ _ _ _ Hr Hc ltac:(done)) as (st' & Hun & _ & Hr').
    cbn [w_store upd]. rewrite Hun, Done_bind. apply returns_ret. cbn [fst snd]. split.
    { by rewrite Nat2Z.id, firstn_all. }
    exists (delete p A), rest. split; [split; [done|by apply upd_eq|]|split].
    + split; [done|]. apply Hrest. intros q Hq. by rewrite lookup_delete_ne.
    + intros q Hq. rewrite lookup_delete_ne by (rewrite Hu in Hq; set_solver). done.
    + intros j Hj. cbn. by rewrite lookup_alter_ne.
  - rewrite (pkt_head_ok _ _ _ _ _ _ Hr Hc), Done_bind by lia.
    destruct (pkt_consume_ok _ _ _ _ _ n Hr Hc ltac:(lia)) as (st' & -> & _ & Hr'). rewrite Done_bind.
    apply returns_ret. cbn [fst snd]. split; [done|].
    exists (<[p := (1, drop (Z.to_nat n) c)]> A), (ungot_bufs s).
    assert (Hs : with_ungot (ungot_bufs s) s = s) by by destruct s.
    split; [split; [done|by rewrite Hs|]|split].
    + rewrite Hs. split; rewrite Hu; [by apply NoDup_cons|]. constructor; [by rewrite lookup_insert_eq|].
      apply Hrest. intros q Hq. by rewrite lookup_insert_ne.
    + intros q Hq. rewrite lookup_insert_ne by (rewrite Hu in Hq; set_solver). done.
    + done.
Qed.

(** *** A class that keeps what it reads in its private state *)

Context (class_read : world → nat → Z → outcome (GIOStatus * list Z * world)).
Context `{!ZStreamOps Z, !ZStreamLaws Z} (i : nat).

Definition reads_own : Prop := ∀ w s n, w_streams w !! i = Some s →
  class_read w i n = let '(st, l, o) := child_read (own s) (timeout s) n in
                     Done (st, l, upd i (with_own o) w).

(** A stream in blocking mode. *)
Definition reads_block : Prop := ∀ o t n, fst (fst (child_read o t n)) ≠ G_IO_STATUS_AGAIN.

(** All that is still to be read from the stream. *)
Definition unread (s : ZStream) (cs : list (list Z)) : list Z := concat cs ++ to_come (own s).

(** What a read that starts with the queue [cs] may give. *)
Definition read_gives (s : ZStream) (cs : list (list Z)) (n : Z) (st : GIOStatus) (l : list Z)
    (s' : ZStream) (cs' : list (list Z)) : Prop :=
  match st with
  | G_IO_STATUS_NORMAL => zlen l ≤ n ∧ unread s cs = l ++ unread s' cs' ∧
      zlen l + zlen (concat cs') >= zlen (concat cs) ∧
      (l ≠ [] ∧ (length cs' ≤ length cs)%nat ∨ (length cs' < length cs)%nat)
  | G_IO_STATUS_EOF => cs = [] ∧ unread s cs = [] ∧ unread s' cs' = []
  | G_IO_STATUS_AGAIN => cs = [] ∧ ¬ reads_block
  | G_IO_STATUS_ERROR => cs = []
  end.

Lemma holding_count w s A cs n :
  holding w i s A cs → holding (count_recvd i n w) i (with_counts (u64 (bytes_recvd s + n)) (bytes_sent s) s) A cs.
Proof.
  intros [Hr Hi Hq]. split; [done|exact (upd_eq _ _ _ _ Hi)|]. by eapply put_back_frame.
Qed.

Lemma z_stream_read_ok w s A cs n :
  reads_own → holding w i s A cs → 0 < n →
  returns (z_stream_read class_read w i n) (λ '(st, l, w'), ∃ s' A' cs',
    holding w' i s' A' cs' ∧ timeout s' = timeout s ∧ read_gives s cs n st l s' cs').
Proof.
  intros Hown Hh Hn. pose proof Hh as [Hr Hi Hq]. unfold z_stream_read.
  rewrite (get_some _ _ _ Hi), Done_bind. pose proof Hq as [_ Hf].
  destruct (ungot_bufs s) as [|p rest] eqn:Hu.
  - apply Forall2_nil_inv_l in Hf as ->. rewrite (Hown w s n Hi).
    destruct (child_read (own s) (timeout s) n) as [[st l] o] eqn:Hread. rewrite Done_bind. apply returns_ret.
    assert (Hh' : holding (upd i (with_own o) w) i (with_own o s) A []).
    { split; [done|by apply upd_eq|]. by eapply put_back_frame. }
    case_decide as Hst; [|exists (with_own o s), A, []]; [subst st|].
    + destruct (read_normal _ _ _ _ _ Hn Hread) as (Hne & Hle & Heq).
      eexists _, A, []. split; [by apply holding_count|]. split; [done|]. unfold read_gives, unread.
      cbn [concat app own with_counts with_own length]. split_and!; [done..|lia|by left].
    + split; [done|]. split; [done|]. destruct st; try done.
      * destruct (read_eof _ _ _ _ _ Hread) as [H1 H2]. by split_and!.
      * split; [done|]. intros Hb. apply (Hb (own s) (timeout s) n). by rewrite Hread.
  - destruct cs as [|c cs]; [by apply Forall2_nil_inv_r in Hf|]. rewrite bind_assoc. apply returns_bind.
    eapply returns_mono; [by apply (read_ungot_ok w i s A c cs p rest n); [| |lia]|].
    intros [l w'] (-> & A' & u & Hh' & _ & _). rewrite !Done_bind, decide_True by done. apply returns_ret.
    eexists _, A', _. split; [by apply holding_count|]. split; [done|].
    assert (Hn0 : 0 ≤ n) by lia. pose proof (read_queue_concat n (c :: cs) Hn0) as Hc.
    split; [by apply read_queue_length|]. unfold unread. split; [|split].
    + by rewrite Hc, <- app_assoc.
    + rewrite Hc, length_app. lia.
    + cbn. destruct (zlen c <=? n) eqn:E; cbn; [right; lia|]. left. split; [|lia].
      intros Hnil%(f_equal length). rewrite length_take in Hnil. cbn in Hnil. lia.
Qed.

(** The loop of z_stream_read_chunk. *)
Lemma read_chunk_loop_ok fuel : ∀ w s A cs len acc,
  reads_own → reads_block →
  holding w i s A cs → 0 ≤ len < 2 ^ 64 → (Z.to_nat len + length cs < fuel)%nat →
  returns (read_chunk_loop class_read fuel w i len acc G_IO_STATUS_NORMAL) (λ '(st, data, w'),
    ∃ l s' A' cs', data = acc ++ l ∧ holding w' i s' A' cs' ∧ (len ≤ zlen (concat cs) → st = G_IO_STATUS_NORMAL) ∧
    match st with
    | G_IO_STATUS_NORMAL => zlen l = len ∧ unread s cs = l ++ unread s' cs'
    | G_IO_STATUS_EOF => l = unread s cs ∧ zlen l < len
    | G_IO_STATUS_ERROR => l `prefix_of` unread s cs
    | G_IO_STATUS_AGAIN => False
    end).
Proof.
  induction fuel as [|fuel IH]; intros w s A cs len acc Hown Hblock Hh Hlen Hf; [lia|].
  cbn [read_chunk_loop]. case_decide as Hgo.
  2: { apply returns_ret. exists [], s, A, cs. rewrite app_nil_r.
       assert (len = 0) as -> by (destruct (decide (0 < len)); [naive_solver|lia]). by split_and!. }
  destruct Hgo as [_ Hpos]. apply returns_bind. eapply returns_mono; [by eapply z_stream_read_ok|].
  intros [[st l] w'] (s' & A' & cs' & Hh' & _ & Hgives).
  case_decide as Hst; [subst st|].
  - destruct Hgives as (Hle & Heq & Hcs & Hprog). rewrite u64_small by lia.
    eapply returns_mono; [eapply (IH w' s' A' cs'); try done; [lia|]|].
    { destruct Hprog as [[Hne Hle']|Hlt]; [|lia]. destruct l; [done|]. cbn [length] in *. lia. }
    intros [[st data] w''] (l2 & s2 & A2 & cs2 & -> & Hh2 & Hnorm & Hres).
    exists (l ++ l2), s2, A2, cs2. rewrite app_assoc, length_app, Heq. split_and!; [done|done| |].
    + intros Hl. apply Hnorm. lia.
    + destruct st; try done.
      * by apply prefix_app.
      * destruct Hres as [H1 H2]. rewrite H2, app_assoc. split; [lia|done].
      * destruct Hres as [-> ?]. split; [done|lia].
  - destruct fuel as [|fuel]; [lia|]. cbn [read_chunk_loop]. rewrite decide_False by (intros [? _]; done).
    apply returns_ret. exists [], s', A', cs'. rewrite app_nil_r.
    assert (Hnil : cs = []) by (destruct st; [done|done|by destruct Hgives as (-> & _)|by destruct Hgives as (-> & _)]).
    split_and!; [done|done| |].
    + rewrite Hnil. cbn. lia.
    + destruct st; [apply prefix_nil|done| |by destruct Hgives as [_ []]].
      destruct Hgives as (_ & -> & _). done.
Qed.

(** z_stream_read_chunk on a blocking stream reads exactly the bytes that were asked for,
    those that were put back first, and fewer only at the end of the stream; the end of
    the stream is reported when nothing at all was left; an error may lose what was read
    before it.  Data that was put back is read without asking the class. *)
Theorem read_chunk_spec fuel w s A cs len :
  reads_own → reads_block → holding w i s A cs → 0 ≤ len < 2 ^ 64 →
  (Z.to_nat len + length cs < fuel)%nat →
  returns (z_stream_read_chunk class_read fuel w i len) (λ '(st, data, w'),
    (st = G_IO_STATUS_NORMAL → data = take (Z.to_nat len) (unread s cs)) ∧
    (st = G_IO_STATUS_NORMAL → zlen data = len → ∃ s' A' cs', holding w' i s' A' cs' ∧
       unread s' cs' = drop (Z.to_nat len) (unread s cs)) ∧
    (st = G_IO_STATUS_EOF → 0 < len ∧ unread s cs = [] ∧ data = []) ∧
    (st = G_IO_STATUS_ERROR → data `prefix_of` unread s cs) ∧
    st ≠ G_IO_STATUS_AGAIN ∧ (len ≤ zlen (concat cs) → st = G_IO_STATUS_NORMAL)).
Proof.
  intros Hown Hblock Hh Hlen Hf. unfold z_stream_read_chunk. apply returns_bind.
  eapply returns_mono; [by apply (read_chunk_loop_ok fuel w s A cs len [])|].
  intros [[st data] w'] (l & s' & A' & cs' & -> & Hh' & Hnorm & Hst). cbn [app].
  rewrite require_true, Done_bind by by destruct st. apply returns_ret.
  destruct st; try done.
  - rewrite decide_False by (intros [? _]; done). destruct Hst as [Hl Hu].
    split_and!; try done.
    + intros _. rewrite Hu, take_app_le, firstn_all2 by lia. done.
    + intros _ _. exists s', A', cs'. split; [done|]. rewrite Hu.
      rewrite drop_app_ge by lia. replace (_ - _)%nat with 0%nat by lia. done.
  - destruct Hst as [-> Hl]. case_decide as Hd.
    + split_and!; try done; intros _; [symmetry; apply firstn_all2; lia|lia].
    + split_and!; try done. intros _. destruct (unread s cs); [split_and!; done || lia|].
      exfalso. apply Hd. split; [done|]. cbn. lia.
Qed.
End io_ok.

(** ** Writing *)

Section write_ok.
Context (class_write : world → nat → list Z → outcome (GIOStatus * Z * world)).
Context {E : Type} `{!ZStreamWriteOps Z E, !ZStreamWriteLaws Z E} (i : nat).

Definition writes_own : Prop := ∀ w s l, w_streams w !! i = Some s →
  class_write w i l = let '(st, n, _, o) := child_write (own s) l in Done (st, n, upd i (with_own o) w).

(** A stream in blocking mode takes something, or says why it does not. *)
Definition writes_block : Prop := ∀ o l st n (e : option E) o',
  child_write o l = (st, n, e, o') → st ≠ G_IO_STATUS_AGAIN ∧ (st = G_IO_STATUS_NORMAL → l ≠ [] → 0 < n).

Lemma z_stream_write_ok w s l :
  writes_own → w_streams w !! i = Some s →
  returns (z_stream_write class_write w i l) (λ '(st, n, w'), ∃ s', w_streams w' !! i = Some s' ∧
    (∀ j, j ≠ i → w_streams w' !! j = w_streams w !! j) ∧ w_store w' = w_store w ∧
    (writes_block → st ≠ G_IO_STATUS_AGAIN ∧ (st = G_IO_STATUS_NORMAL → l ≠ [] → 0 < n)) ∧
    if decide (st = G_IO_STATUS_NORMAL)
    then 0 ≤ n ≤ zlen l ∧ written (own s') = written (own s) ++ take (Z.to_nat n) l
    else written (own s') = written (own s)).
Proof.
  intros Hown Hi. unfold z_stream_write. rewrite (Hown w s l Hi).
  destruct (child_write (own s) l) as [[[st n] e] o] eqn:Hw. rewrite Done_bind. apply returns_ret.
  assert (Hb : writes_block → st ≠ G_IO_STATUS_AGAIN ∧ (st = G_IO_STATUS_NORMAL → l ≠ [] → 0 < n)).
  { intros Hb. by eapply Hb. }
  case_decide as Hst.
  - subst st. eexists. split; [exact (upd_eq _ _ _ _ (upd_eq _ _ _ _ Hi))|].
    split; [intros; unfold count_sent; by rewrite !upd_ne|]. split; [done|]. split; [exact Hb|].
    by eapply write_normal.
  - eexists. split; [exact (upd_eq _ _ _ _ Hi)|]. split; [intros; by rewrite upd_ne|]. split; [done|].
    split; [exact Hb|]. by eapply write_nothing.
Qed.

Lemma write_chunk_loop_ok fuel : ∀ w s buf n,
  writes_own → writes_block → w_streams w !! i = Some s → 0 ≤ n ≤ zlen buf → zlen buf < 2 ^ 64 →
  (Z.to_nat (zlen buf - n) + 1 < fuel)%nat →
  returns (write_chunk_loop class_write fuel w i buf (zlen buf - n) n G_IO_STATUS_NORMAL) (λ '(st, n', w'),
    ∃ s', w_streams w' !! i = Some s' ∧ (∀ j, j ≠ i → w_streams w' !! j = w_streams w !! j) ∧
      w_store w' = w_store w ∧ st ≠ G_IO_STATUS_AGAIN ∧ n ≤ n' ≤ zlen buf ∧
      (st = G_IO_STATUS_NORMAL → n' = zlen buf) ∧
      written (own s') = written (own s) ++ take (Z.to_nat (n' - n)) (drop (Z.to_nat n) buf)).
Proof.
  induction fuel as [|fuel IH]; intros w s buf n Hown Hblock Hi Hn Hlen Hf; [lia|].
  cbn [write_chunk_loop]. case_decide as Hgo.
  2: { apply returns_ret. exists s. assert (n = zlen buf) as -> by (destruct (decide (0 < zlen buf - n)); [naive_solver|lia]).
       split_and!; try done. by rewrite Z.sub_diag, app_nil_r. }
  rewrite firstn_all2 by (rewrite length_drop; lia). apply returns_bind.
  eapply returns_mono; [by eapply z_stream_write_ok|].
  intros [[st k] w'] (s' & Hi' & Hout & Hst' & Hb & Hres). destruct (Hb Hblock) as [Hna Hpos].
  case_decide as Hst; [subst st|].
  - destruct Hres as [Hk Hw]. rewrite length_drop in Hk.
    assert (Hk0 : 0 < k).
    { apply Hpos; [done|]. intros Hnil%(f_equal length). rewrite length_drop in Hnil. cbn in Hnil. lia. }
    rewrite !u64_small by lia. replace (zlen buf - n - k) with (zlen buf - (n + k)) by lia.
    eapply returns_mono; [eapply (IH w' s' buf (n + k)); try done; lia|].
    intros [[st n'] w''] (s2 & Hi2 & Hout2 & Hst2 & Hna2 & Hn2 & Hnorm & Hw2). exists s2.
    split; [done|]. split; [intros j Hj; by rewrite Hout2, Hout|]. split; [congruence|].
    split_and!; [done|lia|lia|done|]. rewrite Hw2, Hw, <- app_assoc. f_equal.
    replace (Z.to_nat (n + k)) with (Z.to_nat n + Z.to_nat k)%nat by lia.
    replace (Z.to_nat (n' - n)) with (Z.to_nat k + Z.to_nat (n' - (n + k)))%nat by lia.
    by rewrite <- drop_drop, take_take_drop.
  - destruct fuel as [|fuel]; [lia|]. cbn [write_chunk_loop]. rewrite decide_False by (intros [? _]; done).
    apply returns_ret. exists s'. split_and!; try done; try lia. by rewrite Z.sub_diag, app_nil_r.
Qed.

(** z_stream_write_chunk on a blocking stream writes the whole buffer in order, however
    little each write takes, and comes to an end; when a write fails, bytes_written says
    how many bytes from the start of the buffer were written before. *)
Theorem write_chunk_spec fuel w s buf :
  writes_own → writes_block → w_streams w !! i = Some s → zlen buf < 2 ^ 64 → (length buf + 1 < fuel)%nat →
  returns (z_stream_write_chunk class_write fuel w i buf) (λ '(st, n, w'),
    ∃ s', w_streams w' !! i = Some s' ∧ 0 ≤ n ≤ zlen buf ∧
      written (own s') = written (own s) ++ take (Z.to_nat n) buf ∧ st ≠ G_IO_STATUS_AGAIN ∧
      (st = G_IO_STATUS_NORMAL → n = zlen buf ∧ written (own s') = written (own s) ++ buf)).
Proof.
  intros Hown Hblock Hi Hlen Hf. unfold z_stream_write_chunk. apply returns_bind.
  pose proof (write_chunk_loop_ok fuel w s buf 0 Hown Hblock Hi ltac:(lia) Hlen ltac:(lia)) as Hloop.
  rewrite Z.sub_0_r in Hloop. eapply returns_mono; [exact Hloop|].
  intros [[st n] w'] (s' & Hi' & _ & _ & Hna & Hn & Hnorm & Hw).
  rewrite require_true, Done_bind by done. apply returns_ret. rewrite Z.sub_0_r in Hw.
  change (Z.to_nat 0) with 0%nat in Hw. rewrite drop_0 in Hw.
  exists s'. split_and!; try done; try lia. intros Hst. split; [by apply Hnorm|]. rewrite Hw. f_equal.
  rewrite (Hnorm Hst). apply firstn_all2. lia.
Qed.
End write_ok.

(** ** Putting back *)

Section unget_ok.
Context `{FreshMem} (line_unget : world → nat → nat → outcome (bool * world)).

Definition put_packet (pack : nat) (s : ZStream) : ZStream :=
  if has (umbrella_flags s) G_IO_IN then with_ungot (pack :: ungot_bufs s) s else s.

Lemma unget_packet_loop_ok pack l : ∀ fuel w,
  chain (w_streams w) l → (length l < fuel)%nat →
  returns (unget_packet_loop fuel w (head l) pack) (mapped (put_packet pack) l w).
Proof.
  induction l as [|i l IH]; intros [|fuel] w Hch Hf; cbn [length] in Hf; try lia; cbn [head unget_packet_loop].
  { apply mapped_nil. }
  destruct Hch as (s & Hi & Hc & Hni & Hch). rewrite (get_some _ _ _ Hi), Done_bind, Hc.
  set (g := λ x, if has (umbrella_flags s) G_IO_IN then with_ungot (pack :: ungot_bufs s) x else x).
  assert (Hg : (if has (umbrella_flags s) G_IO_IN then upd i (with_ungot (pack :: ungot_bufs s)) w else w)
    = upd i g w) by (unfold g; destruct (has _ _); [done|symmetry; apply upd_id]).
  rewrite Hg. eapply returns_mono.
  { apply IH; [|lia]. eapply chain_frame; [|exact Hch]. intros j Hj. apply upd_ne. intros ->. done. }
  intros w1 Hm. rewrite <- (upd_id w1 i). eapply mapped_cons; [done|done| |exact Hm]. done.
Qed.

(** z_stream_unget on a stack without a method of its own copies the data into a packet
    with one reference, and puts that packet before the data that was put back earlier on
    every stream of the stack that can be read, not only on the first of them. *)
Theorem unget_spec w A i l s buf :
  store_rep (w_store w) A → zlen buf < 2 ^ 62 → chain (w_streams w) (i :: l) →
  w_streams w !! i = Some s → isa s ≠ ZStreamLine__class →
  returns (z_stream_unget line_unget w i buf) (λ '(ok, w'), ok = true ∧
    ∃ pack, A !! pack = None ∧ store_rep (w_store w') (<[pack := (1, buf)]> A) ∧
      (∀ j, j ∈ i :: l → w_streams w' !! j = put_packet pack <$> w_streams w !! j) ∧
      (∀ j, j ∉ i :: l → w_streams w' !! j = w_streams w !! j)).
Proof.
  intros Hr Hlen Hch Hi Hcl. unfold z_stream_unget.
  destruct (pkt_new_copy_ok _ _ buf Hr Hlen) as (st' & -> & Hr' & _). rewrite Done_bind.
  unfold z_stream_unget_packet. rewrite (get_some (with_store st' w) i s Hi), Done_bind, decide_False by done.
  unfold z_stream_unget_packet_method. rewrite bind_assoc. apply returns_bind. eapply returns_mono.
  { apply (unget_packet_loop_ok (st_next (w_store w)) (i :: l) _ (with_store st' w)); [exact Hch|].
    apply map_length in Hch. unfold height. cbn in *. lia. }
  intros w1 (Hin & Hout & Hst). rewrite Done_bind. apply returns_ret. split; [done|].
  exists (st_next (w_store w)). split; [by apply rep_fresh|]. rewrite Hst. by split_and!.
Qed.

End unget_ok.

(** ** A class for concrete runs

    Its private state is the number of bytes 65 that it can still read, or the code of
    what was written, two bytes at a time. *)

#[local] Instance toy_read : ZStreamOps Z := {
  child_read o _ n := if o <=? 0 then (G_IO_STATUS_EOF, [], o)
    else (G_IO_STATUS_NORMAL, replicate (Z.to_nat (Z.min n o)) 65, o - Z.min n o);
  to_come o := replicate (Z.to_nat o) 65
}.

#[local] Instance toy_read_laws : ZStreamLaws Z.
Proof.
  split; cbn.
  - intros c t n l c' Hn. destruct (c <=? 0) eqn:E; [done|]. intros [= <- <-].
    rewrite length_replicate. split_and!; [|lia|].
    + intros Hnil%(f_equal length). rewrite length_replicate in Hnil. cbn in Hnil. lia.
    + rewrite <- replicate_add. f_equal. lia.
  - intros c t n l c'. destruct (c <=? 0) eqn:E; [|done]. intros [= <- <-].
    by replace (Z.to_nat c) with 0%nat by lia.
  - intros c t n l c'. by destruct (c <=? 0).
Qed.

Lemma toy_reads_block : reads_block.
Proof. intros o t n. cbn. by destruct (o <=? 0). Qed.

Definition toy_class_read (w : world) (i : nat) (n : Z) : outcome (GIOStatus * list Z * world) :=
  s ← get_stream w i;
  let '(st, l, o) := child_read (own s) (timeout s) n in Done (st, l, upd i (with_own o) w).

Lemma toy_reads_own i : reads_own toy_class_read i.
Proof. intros w s n Hi. unfold toy_class_read. by rewrite (get_some _ _ _ Hi), Done_bind. Qed.

Definition toy_written (o : Z) : list Z := default [] (decode (Z.to_pos o)).

#[local] Instance toy_write : ZStreamWriteOps Z unit := {
  child_write o l := (G_IO_STATUS_NORMAL, Z.min 2 (zlen l), None,
                      Z.pos (encode (toy_written o ++ take (Z.to_nat (Z.min 2 (zlen l))) l)));
  child_set_timeout o _ := o;
  child_set_nonblock o _ := o;
  child_shutdown o _ := (G_IO_STATUS_NORMAL, None, o);
  written := toy_written
}.

#[local] Instance toy_write_laws : ZStreamWriteLaws Z unit.
Proof.
  split; cbn; try done; [|by intros ?????? [= <- <- <- <-]|by intros ????? [= <- <- <-]].
  intros c l n e c' [= <- <- <-]. split; [lia|]. unfold toy_written at 1. cbn. by rewrite decode_encode.
Qed.

Lemma toy_writes_block : writes_block.
Proof.
  intros o l st n e o' [= <- <- <- <-]. split; [done|]. intros _ Hl. destruct l; [done|]. cbn [length]. lia.
Qed.

Definition toy_class_write (w : world) (i : nat) (l : list Z) : outcome (GIOStatus * Z * world) :=
  s ← get_stream w i;
  let '(st, n, _, o) := child_write (own s) l in Done (st, n, upd i (with_own o) w).

Lemma toy_writes_own i : writes_own toy_class_write i.
Proof. intros w s n Hi. unfold toy_class_write. by rewrite (get_some _ _ _ Hi), Done_bind. Qed.

(** A ZStreamBuf on a ZStreamFD that has five bytes to read. *)
Definition toy_fd : ZStream := with_own 5 (z_stream_new ZStreamFD__class [] (Z.lor G_IO_IN G_IO_OUT)).
Definition toy_buf : ZStream := with_child (Some 0%nat) (z_stream_new ZStreamBuf__class [] G_IO_OUT).
Definition toy_world : world := mkWorld {[0%nat := toy_fd; 1%nat := toy_buf]} empty_store [].

Lemma toy_holding : holding toy_world 0 toy_fd ∅ [].
Proof. split; [apply empty_store_rep|done|]. split; constructor. Qed.

Lemma read_chunk_spec_witness :
  returns (z_stream_read_chunk (H := zero_mem) toy_class_read 9 toy_world 0 8) (λ '(st, data, w'),
    (st = G_IO_STATUS_NORMAL → data = take 8 (unread toy_fd [])) ∧
    (st = G_IO_STATUS_NORMAL → zlen data = 8 → ∃ s' A' cs', holding w' 0 s' A' cs' ∧
       unread s' cs' = drop 8 (unread toy_fd [])) ∧
    (st = G_IO_STATUS_EOF → 0 < 8 ∧ unread toy_fd [] = [] ∧ data = []) ∧
    (st = G_IO_STATUS_ERROR → data `prefix_of` unread toy_fd []) ∧
    st ≠ G_IO_STATUS_AGAIN ∧ (8 ≤ zlen (concat (@nil (list Z))) → st = G_IO_STATUS_NORMAL)).
Proof.
  exact (read_chunk_spec (H := zero_mem) toy_class_read 0 9 toy_world toy_fd ∅ [] 8
    (toy_reads_own 0) toy_reads_block toy_holding ltac:(done) ltac:(cbn; lia)).
Defined.

Lemma write_chunk_spec_witness :
  returns (z_stream_write_chunk toy_class_write 7 toy_world 0 [1; 2; 3; 4; 5]) (λ '(st, n, w'),
    ∃ s', w_streams w' !! 0%nat = Some s' ∧ 0 ≤ n ≤ 5 ∧
      written (own s') = written (own toy_fd) ++ take (Z.to_nat n) [1; 2; 3; 4; 5] ∧
      st ≠ G_IO_STATUS_AGAIN ∧
      (st = G_IO_STATUS_NORMAL → n = 5 ∧ written (own s') = written (own toy_fd) ++ [1; 2; 3; 4; 5])).
Proof.
  exact (write_chunk_spec (E := unit) toy_class_write 0 7 toy_world toy_fd [1; 2; 3; 4; 5]
    (toy_writes_own 0) toy_writes_block eq_refl ltac:(done) ltac:(cbn; lia)).
Defined.

Definition no_unget (w : world) (_ _ : nat) : outcome (bool * world) := Done (false, w).

Lemma toy_chain : chain (w_streams toy_world) [1; 0]%nat.
Proof. eexists. split_and!; [done|done|set_solver|]. eexists. split_and!; [done|done|set_solver|done]. Qed.

Lemma unget_spec_witness :
  returns (z_stream_unget (H := zero_mem) no_unget toy_world 1 [7; 8]) (λ '(ok, w'), ok = true ∧
    ∃ pack, (∅ : gmap nat (Z * list Z)) !! pack = None ∧ store_rep (w_store w') (<[pack := (1, [7; 8])]> ∅) ∧
      (∀ j, j ∈ [1; 0]%nat → w_streams w' !! j = put_packet pack <$> w_streams toy_world !! j) ∧
      (∀ j, j ∉ [1; 0]%nat → w_streams w' !! j = w_streams toy_world !! j)).
Proof.
  exact (unget_spec (H := zero_mem) no_unget toy_world ∅ 1 [0%nat] toy_buf [7; 8]
    empty_store_rep ltac:(done) toy_chain eq_refl ltac:(done)).
Defined.


(** On a ZStreamSsl over a ZStreamFD the packet is put on both, with one reference; the
    stream below uses it after the one above has read and freed it. *)
Definition ssl_on_fd : world := mkWorld
  {[0%nat := toy_fd;
    1%nat := with_child (Some 0%nat) (z_stream_new ZStreamSsl__class [] (Z.lor G_IO_IN G_IO_OUT))]}
  empty_store [].

Example unget_use_after_free :
  ('(_, w) ← z_stream_unget (H := zero_mem) no_unget ssl_on_fd 1 [7; 8];
   '(_, _, w) ← z_stream_read (H := zero_mem) toy_class_read w 1 2;
   z_stream_read (H := zero_mem) toy_class_read w 0 2) = Fault UseAfterFree.
Proof. by vm_compute. Qed.
