(* ===== verification/StreamCtl.v ===== *)
(** * Control calls, sources and contexts of streams

    What the control calls on a stack reach, when the functions of a source call the
    application, and that a saved context is put back (src/src/stream.c; the operations
    are in Stream.v). *)

From S2P Require Import Prelude RefCount PacketStore StreamApi Stream StreamStack StreamClose.
Open Scope Z_scope.

(** ** Conditions *)

Definition get_cond_msg (d : direction) : Z :=
  match d with DRead => ZST_CTRL_GET_COND_READ | DWrite => ZST_CTRL_GET_COND_WRITE | DPri => ZST_CTRL_GET_COND_PRI end.
Definition set_cond_msg (d : direction) : Z :=
  match d with DRead => ZST_CTRL_SET_COND_READ | DWrite => ZST_CTRL_SET_COND_WRITE | DPri => ZST_CTRL_SET_COND_PRI end.

Definition set_want (d : direction) (b : bool) (s : ZStream) : ZStream :=
  set_slot d (mkSlot b (data (get_slot d s)) (notify (get_slot d s)) (cb (get_slot d s))) s.

(** The classes that stand at the bottom of a stack. *)
Definition is_bottom (class : ZStreamClass) : bool :=
  match class with ZStreamFD__class | ZStreamBlob__class => true | _ => false end.

(** A stack of classes that can stand there: those in the middle have a child, those at
    the bottom have none. *)
Definition well_based (m : gmap nat ZStream) (l : list nat) : Prop :=
  ∀ j s, j ∈ l → m !! j = Some s → is_bottom (isa s) = true ↔ child s = None.

(** Changes that leave the links alone. *)
Lemma chain_kept_child m m' l :
  (∀ j, j ∈ l → ∃ f, (∀ s, child (f s) = child s) ∧ m' !! j = f <$> m !! j) → chain m l → chain m' l.
Proof.
  induction l as [|i l IH]; intros Hk; [done|]. cbn. intros (s & Hi & Hc & Hni & Hs).
  destruct (Hk i) as (f & Hf & Hm); [by left|]. exists (f s). rewrite Hm, Hi, Hf.
  split_and!; [done..|]. apply IH; [|done]. intros j Hj. apply Hk. by right.
Qed.

Lemma chain_lookup m l j : chain m l → j ∈ l → is_Some (m !! j).
Proof.
  induction l as [|i l IH]; [set_solver|]. intros (s & Hi & _ & _ & Hs) [->|Hj]%elem_of_cons; [eauto|by apply IH].
Qed.

Lemma last_Some_elem_of {A} (l : list A) x : last l = Some x → x ∈ l.
Proof. intros (l' & ->)%last_Some. set_solver. Qed.

Section conds.
Context (own_ctrl : ZStream → Z → ctrl_value → option (bool * ctrl_value * (Z * Z))).

(** No class answers these messages itself. *)
Definition passes_conds : Prop := ∀ s v d,
  own_ctrl s (get_cond_msg d) v = None ∧ own_ctrl s (set_cond_msg d) v = None.
Context (Hpass : passes_conds).

(** The selector as it reaches a stream: plain, or with the flag. *)
Definition selects (msg function : Z) : Prop := function = msg ∨ function = Z.lor ZST_CTRL_MSG_FORWARD msg.

Lemma selects_cond d function :
  (selects (get_cond_msg d) function → ctrl_case (ZST_CTRL_MSG function) = Some (get_cond d) ∧
     ZST_CTRL_MSG function = get_cond_msg d) ∧
  (selects (set_cond_msg d) function → ctrl_case (ZST_CTRL_MSG function) = Some (set_cond d) ∧
     ZST_CTRL_MSG function = set_cond_msg d).
Proof. split; intros [-> | ->]; destruct d; split; reflexivity. Qed.

(** The middle of a stack forwards what it is asked; a ZStreamBuf keeps a condition that
    is set for itself. *)
Lemma class_function_get class d function :
  selects (get_cond_msg d) function → is_bottom class = false →
  class_function class function = Z.lor ZST_CTRL_MSG_FORWARD (get_cond_msg d).
Proof. intros [-> | ->]; destruct class, d; done. Qed.

Lemma class_function_set class d function :
  selects (set_cond_msg d) function → is_bottom class = false → class ≠ ZStreamBuf__class →
  class_function class function = Z.lor ZST_CTRL_MSG_FORWARD (set_cond_msg d).
Proof. intros [-> | ->]; destruct class, d; done. Qed.

Lemma class_function_bottom class function : is_bottom class = true → class_function class function = function.
Proof. by destruct class. Qed.

(** The answer to a question comes from the bottom of the stack. *)
Lemma get_cond_ok d l : ∀ fuel w i function v sb b,
  selects (get_cond_msg d) function → chain (w_streams w) (i :: l) → well_based (w_streams w) (i :: l) →
  last (i :: l) = Some b → w_streams w !! b = Some sb → (length l < fuel)%nat →
  z_stream_ctrl own_ctrl fuel w i function (ValInt v) = Done (true, ValInt (of_bool (want (get_slot d sb))), w).
Proof.
  induction l as [|c l IH]; intros [|fuel] w i function v sb b Hsel Hch Hbase Hb Hsb Hf; cbn [length] in Hf; try lia;
    destruct Hch as (s & Hi & Hc & Hni & Hch); cbn [head] in Hc; cbn [z_stream_ctrl];
    destruct (proj1 (selects_cond d function) Hsel) as [Hcase Hmsg];
    rewrite (get_some _ _ _ Hi), Done_bind, Hmsg, (proj1 (Hpass _ _ _));
    unfold z_stream_ctrl_method; rewrite msg_class, Hcase; unfold get_cond at 1;
    rewrite (get_some _ _ _ Hi), !Done_bind, (get_some _ _ _ Hi), Done_bind, Hc.
  - cbn in Hb. injection Hb as <-. rewrite Hi in Hsb. by injection Hsb as <-.
  - assert (Hmid : is_bottom (isa s) = false).
    { destruct (is_bottom (isa s)) eqn:E; [|done]. apply (Hbase i s) in E; [congruence|by left|done]. }
    rewrite (class_function_get _ d) by done.
    replace (_ && has _ _) with true by by destruct d. eapply IH; try done; [by right| |lia].
    intros j sj Hj. apply Hbase. by right.
Qed.

(** A condition that is set reaches every stream. *)
Lemma set_cond_ok d v l : ∀ fuel w i function,
  selects (set_cond_msg d) function → chain (w_streams w) (i :: l) → well_based (w_streams w) (i :: l) →
  (∀ j s, j ∈ i :: l → w_streams w !! j = Some s → isa s ≠ ZStreamBuf__class) → (length l < fuel)%nat →
  returns (z_stream_ctrl own_ctrl fuel w i function (ValInt v)) (λ '(res, _, w'), res = true ∧
    mapped (set_want d (to_bool v)) (i :: l) w w').
Proof.
  induction l as [|c l IH]; intros [|fuel] w i function Hsel Hch Hbase Hbuf Hf; cbn [length] in Hf; try lia;
    pose proof Hch as (s & Hi & Hc & Hni & Hch'); cbn [head] in Hc; cbn [z_stream_ctrl];
    destruct (proj2 (selects_cond d function) Hsel) as [Hcase Hmsg];
    rewrite (get_some _ _ _ Hi), Done_bind, Hmsg, (proj2 (Hpass _ _ _));
    unfold z_stream_ctrl_method; rewrite msg_class, Hcase; unfold set_cond at 1; rewrite Done_bind;
    fold (set_want d (to_bool v)); set (w1 := upd i _ w);
    assert (Hi1 : w_streams w1 !! i = Some (set_want d (to_bool v) s)) by (by apply upd_eq);
    rewrite (get_some _ _ _ Hi1), Done_bind;
    replace (child (set_want d (to_bool v) s)) with (child s) by (by destruct d); rewrite Hc.
  - split; [done|]. rewrite <- (upd_id w1 i). eapply mapped_cons; [done|done| |apply mapped_nil]. done.
  - assert (Hmid : is_bottom (isa s) = false).
    { destruct (is_bottom (isa s)) eqn:E; [|done]. apply (Hbase i s) in E; [congruence|by left|done]. }
    rewrite (class_function_set _ d) by (done || by apply (Hbuf i s); [left|]).
    replace (_ && has _ _) with true by by destruct d.
    assert (Hf1 : ∀ j, j ∈ c :: l → w_streams w1 !! j = w_streams w !! j)
      by (intros j Hj; apply upd_ne; intros ->; done).
    eapply returns_mono.
    { eapply (IH fuel w1 c); [by right|by eapply chain_frame| | |lia].
      - intros j sj Hj. rewrite Hf1 by done. apply Hbase. by right.
      - intros j sj Hj. rewrite Hf1 by done. apply Hbuf. by right. }
    intros [[res v'] w'] [-> Hm]. split; [done|]. rewrite <- (upd_id w' i). by eapply mapped_cons.
Qed.
End conds.

Definition dir_cond (d : direction) : Z :=
  match d with DRead => G_IO_IN | DWrite => G_IO_OUT | DPri => G_IO_PRI end.

(** A condition that is set on the top of a stack without a ZStreamBuf is set on every
    stream of it, changes nothing else, and is what a question to the top gives back. *)
Theorem set_get_cond own_ctrl w d b i l v :
  passes_conds own_ctrl → chain (w_streams w) (i :: l) → well_based (w_streams w) (i :: l) →
  (∀ j s, j ∈ i :: l → w_streams w !! j = Some s → isa s ≠ ZStreamBuf__class) →
  returns ('(res, _, w) ← z_stream_set_cond own_ctrl w i (dir_cond d) b;
           '(res', v, w) ← z_stream_ctrl own_ctrl (height w) w i (get_cond_msg d) (ValInt v);
           Done (res, res', v, w)) (λ '(res, res', v, w'),
    res = true ∧ res' = true ∧ v = ValInt (of_bool b) ∧ mapped (set_want d b) (i :: l) w w').
Proof.
  intros Hpass Hch Hbase Hbuf. apply returns_bind. eapply (returns_mono _ (λ '(res, _, w'), res = true ∧
    mapped (set_want d (to_bool (of_bool b))) (i :: l) w w')).
  { assert (Hf : (length l < height w)%nat)
      by (apply map_length in Hch; unfold height; cbn in *; lia).
    pose proof (set_cond_ok own_ctrl Hpass d (of_bool b) l (height w) w i _ (or_introl eq_refl) Hch Hbase Hbuf Hf) as Hs.
    by destruct d. }
  intros [[res v'] w1] [-> Hm]. replace (to_bool (of_bool b)) with b in Hm by by destruct b.
  assert (Hch1 : chain (w_streams w1) (i :: l)).
  { eapply chain_kept_child; [|exact Hch]. intros j Hj. exists (set_want d b). split; [by destruct d|by apply Hm]. }
  destruct (last (i :: l)) as [k|] eqn:Hlast; [|by apply last_None in Hlast].
  assert (Hk : k ∈ i :: l) by by apply last_Some_elem_of.
  destruct (chain_lookup _ _ _ Hch Hk) as [sk Hsk].
  pose proof (proj1 Hm k Hk) as Hk1. rewrite Hsk in Hk1. cbn in Hk1.
  rewrite (get_cond_ok own_ctrl Hpass d l (height w1) w1 i _ v (set_want d b sk) k (or_introl eq_refl) Hch1); [| |done|exact Hk1|].
  - rewrite Done_bind. apply returns_ret. split_and!; [done|done| |done]. by destruct d.
  - intros j s Hj Hs. rewrite (proj1 Hm j Hj) in Hs. destruct (w_streams w !! j) as [s0|] eqn:Hs0; [|done].
    cbn in Hs. injection Hs as <-. specialize (Hbase j s0 Hj Hs0). by destruct d.
  - apply map_length in Hch1. unfold height. cbn in *. lia.
Qed.

(** Checking the streams of a concrete stack. *)
Lemma each_by_check (m : gmap nat ZStream) l (P : ZStream → Prop) `{!∀ s, Decision (P s)} :
  forallb (λ j, match m !! j with Some s => bool_decide (P s) | None => true end) l = true →
  ∀ j s, j ∈ l → m !! j = Some s → P s.
Proof.
  intros Hall j s Hj Hs. rewrite forallb_forall in Hall. specialize (Hall j). rewrite Hs in Hall.
  apply (bool_decide_eq_true_1 (P s)), Hall. by apply list_elem_of_In.
Qed.

Lemma set_get_cond_witness :
  returns ('(res, _, w) ← z_stream_set_cond no_ctrl ssl_stack 2 (dir_cond DWrite) true;
           '(res', v, w) ← z_stream_ctrl no_ctrl (height w) w 2 (get_cond_msg DWrite) (ValInt 0);
           Done (res, res', v, w)) (λ '(res, res', v, w'),
    res = true ∧ res' = true ∧ v = ValInt (of_bool true) ∧ mapped (set_want DWrite true) [2; 1; 0]%nat ssl_stack w').
Proof.
  apply (set_get_cond no_ctrl ssl_stack DWrite true 2 [1; 0]%nat 0).
  - done.
  - exact (seg_chain _ _ _ _ _ ssl_stack_seg).
  - refine (each_by_check _ _ _ _); by vm_compute.
  - refine (each_by_check _ _ _ _); by vm_compute.
Defined.

(** A ZStreamBuf keeps the condition, but passes the question on to its child. *)
Example buf_cond_not_read_back :
  let fd := with_parent (Some 1%nat) (z_stream_new ZStreamFD__class [] (Z.lor G_IO_IN G_IO_OUT)) in
  let buf := with_child (Some 0%nat) (z_stream_new ZStreamBuf__class [] G_IO_OUT) in
  let w := mkWorld {[0%nat := fd; 1%nat := buf]} empty_store [] in
  returns ('(_, _, w) ← z_stream_set_cond no_ctrl w 1 G_IO_IN true;
           '(_, v, w) ← z_stream_ctrl no_ctrl (height w) w 1 ZST_CTRL_GET_COND_READ (ValInt 7);
           Done (v, w)) (λ '(v, w), v = ValInt 0 ∧ want (s_read (stream_of w 1)) = true).
Proof. by vm_compute. Qed.

(** ** Sources *)

(** The streams from one up to the top of its stack. *)
Fixpoint uplinks (m : gmap nat ZStream) (l : list nat) : Prop :=
  match l with
  | [] => True
  | i :: rest => ∃ s, m !! i = Some s ∧ parent s = head rest ∧ i ∉ rest ∧ uplinks m rest
  end.

Lemma uplinks_lookup m l j : uplinks m l → j ∈ l → is_Some (m !! j).
Proof.
  induction l as [|i l IH]; [set_solver|]. intros (s & Hi & _ & _ & Hu) [->|Hj]%elem_of_cons; [eauto|by apply IH].
Qed.

(** Two updates that agree on the stream that is there. *)
Lemma upd_at w i s f g : w_streams w !! i = Some s → f s = g s → upd i f w = upd i g w.
Proof.
  intros Hi Hf. unfold upd. f_equal. apply map_eq. intros j. destruct (decide (i = j)) as [<-|].
  - rewrite !lookup_alter_eq, Hi. cbn. by rewrite Hf.
  - by rewrite !lookup_alter_ne.
Qed.

Lemma uplinks_length m l : uplinks m l → (length l ≤ size m)%nat.
Proof.
  intros Hu. assert (NoDup l ∧ ∀ j, j ∈ l → is_Some (m !! j)) as [Hnd Hin].
  { induction l as [|i l IH]; [split; [constructor|set_solver]|]. destruct Hu as (s & Hi & _ & Hni & Hu).
    destruct (IH Hu) as [Hnd Hin]. split; [by constructor|].
    intros j [->|Hj]%elem_of_cons; [eauto|by apply Hin]. }
  rewrite <- size_dom, <- (size_list_to_set (C := gset nat) l) by done.
  apply subseteq_size. intros j Hj%elem_of_list_to_set. by apply elem_of_dom, Hin.
Qed.

Section sources.
Context (own_ctrl : ZStream → Z → ctrl_value → option (bool * ctrl_value * (Z * Z))).
Context (active running : nat → bool).
Context (watch_prepare : world → nat → outcome (bool * option Z * world)).
Context (watch_check watch_dispatch call_read : world → nat → outcome (bool * world)).

(** All sources from a stream up to the top are attached and alive, and their dispatch
    functions do not run, but for the one of the stream itself if it is called from there. *)
Fixpoint all_alive (w : world) (in_call : bool) (l : list nat) : bool :=
  match l with
  | [] => true
  | i :: rest =>
      match w_streams w !! i with
      | Some s => source s && active i && (in_call || negb (running i))
      | None => false
      end && all_alive w false rest
  end.

Lemma grab_loop_ok w l : ∀ fuel in_call top,
  uplinks (w_streams w) l → (length l < fuel)%nat →
  grab_loop active running fuel w in_call (head l) top =
  Done (if all_alive w in_call l then match last l with Some t => Some t | None => top end else None).
Proof.
  induction l as [|i l IH]; intros [|fuel] in_call top Hu Hf; cbn [length] in Hf; try lia; [done|].
  destruct Hu as (s & Hi & Hp & Hni & Hu). cbn [head grab_loop all_alive].
  rewrite (get_some _ _ _ Hi), Done_bind, Hi, Hp. destruct (source s && active i && (in_call || _)); [|done].
  cbn [andb]. rewrite IH by (done || lia). destruct (all_alive w false l); [|done].
  destruct l as [|j l]; [done|]. change (last (i :: j :: l)) with (last (j :: l)).
  destruct (last (j :: l)) eqn:Hl; [done|]. by apply last_None in Hl.
Qed.

Lemma grab_ref_ok w i l in_call :
  uplinks (w_streams w) (i :: l) →
  (∀ t st, last (i :: l) = Some t → w_streams w !! t = Some st → 0 < struct_ref st < MAX_REF - 1) →
  z_stream_source_grab_ref active running w i in_call =
  Done (if all_alive w in_call (i :: l) then
          (λ t, (t, upd t (λ s, with_struct_ref (struct_ref s + 1) s) w)) <$> last (i :: l)
        else None).
Proof.
  intros Hu Hst. unfold z_stream_source_grab_ref. pose proof (uplinks_length _ _ Hu) as Hlen.
  rewrite (grab_loop_ok w (i :: l)) by (done || (unfold height; cbn in *; lia)). rewrite Done_bind.
  destruct (all_alive w in_call (i :: l)); [|done].
  destruct (last (i :: l)) as [t|] eqn:Ht; [|by apply last_None in Ht].
  assert (Hin : t ∈ i :: l) by by apply last_Some_elem_of.
  destruct (uplinks_lookup _ _ _ Hu Hin) as [st Ht'].
  specialize (Hst t st eq_refl Ht'). rewrite (struct_ref_ok w t st Ht'), Done_bind by lia.
  by rewrite (upd_at w t st _ (λ s, with_struct_ref (struct_ref s + 1) s) Ht').
Qed.

(** What is grabbed is given back. *)
Lemma ungrab w t st : w_streams w !! t = Some st → 0 < struct_ref st < MAX_REF - 1 →
  z_stream_struct_unref own_ctrl (upd t (λ s, with_struct_ref (struct_ref s + 1) s) w) t = Done w.
Proof.
  intros Ht Hr. rewrite (struct_unref_keep own_ctrl _ t _ (upd_eq _ _ _ _ Ht)), upd_upd by (cbn; lia).
  f_equal. destruct w as [m sto lg]. unfold upd. cbn in *. f_equal. apply map_eq. intros j.
  destruct (decide (t = j)) as [<-|]; [|by rewrite lookup_alter_ne].
  rewrite lookup_alter_eq, Ht. cbn. rewrite Z.add_simpl_r. by destruct st.
Qed.

Context (w : world) (i : nat) (l : list nat) (Hu : uplinks (w_streams w) (i :: l)).
Context (Htop : ∀ t st, last (i :: l) = Some t → w_streams w !! t = Some st → 0 < struct_ref st < MAX_REF - 1).

(** A stream that waits for data and has some that was put back is ready at once, without
    asking its class, and the stack is as before. *)
Theorem source_put_back s :
  all_alive w false (i :: l) = true → w_streams w !! i = Some s → want (s_read s) = true → ungot_bufs s ≠ [] →
  z_stream_source_prepare own_ctrl active running watch_prepare w i = Done (true, Some 0, w) ∧
  z_stream_source_check own_ctrl active running watch_check w i = Done (true, w).
Proof.
  intros Hal Hi Hw Hun. unfold z_stream_source_prepare, z_stream_source_check.
  rewrite (grab_ref_ok w i l false Hu Htop), Hal, !Done_bind.
  destruct (last (i :: l)) as [t|] eqn:Ht; [|by apply last_None in Ht].
  cbv beta iota delta [fmap option_fmap option_map].
  assert (Hus : ∃ s', get_stream (upd t (λ s, with_struct_ref (struct_ref s + 1) s) w) i = Done s' ∧
    has_ungot s' = true).
  { assert (Hh : has_ungot s = true) by (unfold has_ungot; by rewrite Hw, bool_decide_true).
    destruct (decide (t = i)) as [->|Hti].
    - exists (with_struct_ref (struct_ref s + 1) s). split; [|done]. apply get_some. by rewrite (upd_eq _ _ _ s Hi).
    - exists s. split; [|done]. apply get_some. by rewrite upd_ne. }
  destruct Hus as (s' & -> & Hs'). rewrite !Done_bind, Hs', !Done_bind.
  destruct (uplinks_lookup _ _ t Hu) as [st Hst]; [by apply last_Some_elem_of|].
  rewrite (ungrab w t st Hst) by (by eapply Htop). by rewrite !Done_bind.
Qed.

(** A stream under one that is detached, or whose source is being destroyed, is silent:
    nothing is called for it, neither of the class nor of the application, and its source
    stays. *)
Theorem source_silent :
  all_alive w true (i :: l) = false →
  z_stream_source_prepare own_ctrl active running watch_prepare w i = Done (false, None, w) ∧
  z_stream_source_check own_ctrl active running watch_check w i = Done (false, w) ∧
  z_stream_source_dispatch own_ctrl active running watch_dispatch call_read w i = Done (true, w).
Proof.
  intros Hal. assert (Hal' : all_alive w false (i :: l) = false).
  { cbn in *. destruct (w_streams w !! i) as [s|]; [|done]. destruct (source s && active i); [|done].
    cbn in *. rewrite Hal. by destruct (running i). }
  unfold z_stream_source_prepare, z_stream_source_check, z_stream_source_dispatch.
  by rewrite !(grab_ref_ok w i l _ Hu Htop), Hal, Hal', !Done_bind.
Qed.
End sources.

(** A ZStreamFD with data that was put back under a ZStreamLine, both attached. *)
Definition waiting_fd : ZStream :=
  with_slots (mkSlot true None None None) no_slot no_slot (with_ungot [5%nat] (with_source true
    (with_struct_ref 3 (with_parent (Some 1%nat) (z_stream_new ZStreamFD__class [] 5))))).
Definition waiting_world : world := mkWorld
  {[0%nat := waiting_fd;
    1%nat := with_source true (with_struct_ref 2 (with_child (Some 0%nat) (z_stream_new ZStreamLine__class [] 1)))]}
  empty_store [].

Lemma waiting_uplinks : uplinks (w_streams waiting_world) [0; 1]%nat.
Proof. eexists. split_and!; [done|done|set_solver|]. eexists. split_and!; [done|done|set_solver|done]. Qed.

Lemma waiting_top t st :
  last [0; 1]%nat = Some t → w_streams waiting_world !! t = Some st → 0 < struct_ref st < MAX_REF - 1.
Proof. intros [= <-] [= <-]. done. Qed.

Definition no_prepare (w : world) (_ : nat) : outcome (bool * option Z * world) := Done (false, None, w).
Definition no_watch (w : world) (_ : nat) : outcome (bool * world) := Done (false, w).

Lemma source_put_back_witness :
  z_stream_source_prepare no_ctrl (λ _, true) (λ _, false) no_prepare waiting_world 0
    = Done (true, Some 0, waiting_world) ∧
  z_stream_source_check no_ctrl (λ _, true) (λ _, false) no_watch waiting_world 0
    = Done (true, waiting_world).
Proof.
  exact (source_put_back no_ctrl (λ _, true) (λ _, false) no_prepare no_watch waiting_world 0 [1%nat]
    waiting_uplinks waiting_top waiting_fd eq_refl eq_refl eq_refl ltac:(done)).
Defined.

Lemma source_silent_witness :
  let active j := bool_decide (j ≠ 1%nat) in
  z_stream_source_prepare no_ctrl active (λ _, false) no_prepare waiting_world 0
    = Done (false, None, waiting_world) ∧
  z_stream_source_check no_ctrl active (λ _, false) no_watch waiting_world 0 = Done (false, waiting_world) ∧
  z_stream_source_dispatch no_ctrl active (λ _, false) no_watch no_watch waiting_world 0
    = Done (true, waiting_world).
Proof.
  exact (source_silent no_ctrl (λ j, bool_decide (j ≠ 1%nat)) (λ _, false) no_prepare no_watch no_watch no_watch
    waiting_world 0 [1%nat] waiting_uplinks waiting_top eq_refl).
Defined.

(** ** Contexts *)

Section contexts.
Context (own_ctrl : ZStream → Z → ctrl_value → option (bool * ctrl_value * (Z * Z))).
Context (extra_save : ZStream → option Z) (extra_restore : ZStream → Z → Z).

(** A class saves something or not, whatever its state, and what it puts back is what it
    would save again. *)
Definition extra_laws : Prop :=
  (∀ s s', isa s = isa s' → is_Some (extra_save s) → is_Some (extra_save s')) ∧
  (∀ s e, is_Some (extra_save s) → extra_save (with_own (extra_restore s e) s) = Some e).
Context (Hlaws : extra_laws).

Definition extra_list (s : ZStream) : list Z := match extra_save s with Some e => [e] | None => [] end.

(** What a stack saves: the streams below come first. *)
Fixpoint extras (m : gmap nat ZStream) (l : list nat) : list Z :=
  match l with
  | [] => []
  | i :: rest => extras m rest ++ match m !! i with Some s => extra_list s | None => [] end
  end.

Lemma extra_save_ok w l : ∀ fuel i,
  chain (w_streams w) (i :: l) → (length l < fuel)%nat →
  z_stream_extra_save extra_save fuel w i = Done (extras (w_streams w) (i :: l)).
Proof.
  induction l as [|c l IH]; intros [|fuel] i Hch Hf; cbn [length] in Hf; try lia;
    destruct Hch as (s & Hi & Hc & Hni & Hch); cbn [head] in Hc;
    cbn [z_stream_extra_save]; rewrite (get_some _ _ _ Hi), Done_bind, Hc.
  - rewrite Done_bind. cbn. by rewrite Hi.
  - rewrite (IH fuel c) by (done || lia). rewrite Done_bind. cbn [extras]. by rewrite Hi.
Qed.

(** The streams of [l] have the classes they had. *)
Definition same_classes (m m' : gmap nat ZStream) (l : list nat) : Prop :=
  ∀ j, j ∈ l → isa <$> m' !! j = isa <$> m !! j.

Definition same_timeouts (w w' : world) : Prop :=
  ∀ j, timeout <$> w_streams w' !! j = timeout <$> w_streams w !! j.

Lemma same_timeouts_own w i f : same_timeouts w (upd i (λ s, with_own (f s) s) w).
Proof.
  intros j. cbn. destruct (decide (i = j)) as [<-|]; [|by rewrite lookup_alter_ne].
  rewrite lookup_alter_eq. by destruct (w_streams w !! i).
Qed.

(** One stream. *)
Lemma restore_step w i s s0 tail :
  w_streams w !! i = Some s → isa s = isa s0 →
  returns (match extra_save s, extra_list s0 ++ tail with
           | None, extra => Done (extra, w)
           | Some _, e :: extra => Done (extra, upd i (λ s, with_own (extra_restore s e) s) w)
           | Some _, [] => Fault OutOfBounds
           end) (λ '(tail', w'), tail' = tail ∧ own_only [i] w w' ∧ same_timeouts w w' ∧
    ∃ s', w_streams w' !! i = Some s' ∧ extra_list s' = extra_list s0).
Proof.
  destruct Hlaws as [Hclass Hput]. intros Hi Hisa. unfold extra_list.
  destruct (extra_save s) as [x|] eqn:Hs; destruct (extra_save s0) as [e|] eqn:Hs0.
  - split; [done|]. split.
    + rewrite (upd_at w i s _ (with_priv (extra_restore s e, timeout s)) Hi) by by destruct s.
      apply own_only_upd. by left.
    + split; [apply same_timeouts_own|]. eexists. split; [by apply (upd_eq _ _ _ s)|]. by rewrite Hput by by rewrite Hs.
  - destruct (Hclass s s0 Hisa) as [e He]; [by exists x|congruence].
  - destruct (Hclass s0 s) as [x He]; [done|by exists e|congruence].
  - split; [done|]. split; [apply own_only_refl|]. split; [done|]. exists s. by rewrite Hs.
Qed.

Lemma own_only_trans l1 l2 l w w1 w2 :
  (∀ j, j ∈ l1 → j ∈ l) → (∀ j, j ∈ l2 → j ∈ l) → own_only l1 w w1 → own_only l2 w1 w2 → own_only l w w2.
Proof.
  intros H1 H2 (Ho1 & Hf1 & Hs1) (Ho2 & Hf2 & Hs2). split_and!; [| |congruence].
  - intros j. destruct (Ho1 j) as [o1 E1], (Ho2 j) as [o2 E2]. exists o2. rewrite E2, E1.
    by destruct (w_streams w !! j).
  - intros j Hj. rewrite Hf2, Hf1; [done|intros Hin; apply Hj; by apply H1|intros Hin; apply Hj; by apply H2].
Qed.

(** Putting back what was saved by streams of the same classes. *)
Lemma extra_restore_ok m l : ∀ fuel w i tail,
  chain (w_streams w) (i :: l) → same_classes m (w_streams w) (i :: l) → (length l < fuel)%nat →
  returns (z_stream_extra_restore extra_save extra_restore fuel w i (extras m (i :: l) ++ tail))
    (λ '(tail', w'), tail' = tail ∧ own_only (i :: l) w w' ∧ same_timeouts w w' ∧
       ∀ j s s', j ∈ i :: l → m !! j = Some s → w_streams w' !! j = Some s' → extra_list s' = extra_list s).
Proof.
  induction l as [|c l IH]; intros [|fuel] w i tail Hch Hsame Hf; cbn [length] in Hf; try lia;
    destruct Hch as (s & Hi & Hc & Hni & Hch); cbn [head] in Hc;
    pose proof (Hsame i ltac:(by left)) as Hisa; rewrite Hi in Hisa;
    destruct (m !! i) as [s0|] eqn:Hm; try done; cbn in Hisa; injection Hisa as Hisa;
    cbn [z_stream_extra_restore extras]; rewrite (get_some _ _ _ Hi), Done_bind, Hc, Hm.
  - rewrite Done_bind. eapply returns_mono; [by apply (restore_step w i s s0 tail)|].
    intros [tail' w'] (-> & Ho & Ht & s' & Hi' & He). do 3 (split; [done|]).
    intros j sj sj' Hj%list_elem_of_singleton Hsj Hsj'. by simplify_eq.
  - rewrite <- app_assoc. apply returns_bind. eapply returns_mono.
    { apply (IH fuel w c (extra_list s0 ++ tail)); [done| |lia]. intros j Hj. apply Hsame. by right. }
    intros [tail1 w1] (-> & Ho1 & Ht1 & He1). pose proof Ho1 as (_ & Hf1 & _).
    eapply returns_mono; [apply (restore_step w1 i s s0 tail); [by rewrite Hf1|done]|].
    intros [tail' w'] (-> & Ho & Ht & s' & Hi' & He). split; [done|]. split_and!.
    + eapply own_only_trans; [| |exact Ho1|exact Ho]; set_solver.
    + intros j. by rewrite Ht, Ht1.
    + intros j sj sj' [->|Hj]%elem_of_cons Hsj Hsj'; [by simplify_eq|].
      eapply He1; [done|done|]. destruct Ho as (_ & Hfo & _). rewrite <- Hfo; [done|].
      intros ->%list_elem_of_singleton. done.
Qed.

Lemma extras_ext m m' l :
  (∀ j, j ∈ l → is_Some (m !! j) ∧ is_Some (m' !! j)) →
  (∀ j s s', j ∈ l → m !! j = Some s → m' !! j = Some s' → extra_list s' = extra_list s) →
  extras m' l = extras m l.
Proof.
  induction l as [|i l IH]; intros Hal Heq; [done|]. cbn [extras].
  destruct (Hal i ltac:(by left)) as [[s Hs] [s' Hs']]. rewrite Hs, Hs'. f_equal.
  - apply IH; intros; [apply Hal|eapply Heq]; try done; by right.
  - eapply Heq; [by left|done..].
Qed.

Lemma extras_nil m m' l :
  (∀ j, j ∈ l → is_Some (m !! j)) → same_classes m m' l → extras m l = [] → extras m' l = [].
Proof.
  induction l as [|i l IH]; intros Hal Hc; [done|]. cbn [extras]. intros [Hl Hi]%app_eq_nil.
  rewrite IH; [|intros; apply Hal; by right|intros j Hj; apply Hc; by right|done]. cbn.
  destruct (Hal i ltac:(by left)) as [s Hs]. pose proof (Hc i ltac:(by left)) as Hci. rewrite Hs in *.
  destruct (m' !! i) as [s'|]; [|done]. cbn in Hci. injection Hci as Hci.
  unfold extra_list in *. destruct (extra_save s') as [e|] eqn:He; [|done].
  destruct (proj1 Hlaws s' s Hci) as [e' He']; [by exists e|]. by rewrite He' in Hi.
Qed.

Lemma own_only_chain l l' w w' : own_only l' w w' → chain (w_streams w) l → chain (w_streams w') l.
Proof.
  intros (Ho & _). apply chain_kept. intros j _. destruct (Ho j) as [o Hj]. exists (with_priv o).
  split; [apply keeps_own|done].
Qed.

Lemma own_only_classes l l' w w' : own_only l' w w' → same_classes (w_streams w) (w_streams w') l.
Proof. intros (Ho & _) j _. destruct (Ho j) as [o ->]. by destruct (w_streams w !! j). Qed.

Lemma chain_fuel w i l : chain (w_streams w) (i :: l) → (length l < height w)%nat.
Proof. intros Hch%map_length. unfold height. cbn in *. lia. Qed.

(** Only a ZStreamBlob changes its timeout when it answers. *)
Definition timeout_law : Prop := ∀ s msg v r v' e,
  own_ctrl s msg v = Some (r, v', e) → isa s ≠ ZStreamBlob__class → snd e = timeout s.
Context (Htimeout : timeout_law).

Lemma ctrl_default_timeout function v fuel : ∀ l w i,
  ctrl_case (ZST_CTRL_MSG function) = None → chain (w_streams w) (i :: l) → (length l < fuel)%nat →
  returns (z_stream_ctrl own_ctrl fuel w i function v) (λ '(_, _, w'), ∀ j s s',
    w_streams w !! j = Some s → w_streams w' !! j = Some s' → isa s ≠ ZStreamBlob__class → timeout s' = timeout s).
Proof.
  revert function v. induction fuel as [|fuel IH]; intros function v l w i Hd Hch Hf; [lia|].
  destruct Hch as (s & Hi & Hc & Hni & Hch). cbn [z_stream_ctrl]. rewrite (get_some _ _ _ Hi), Done_bind.
  destruct (own_ctrl s _ v) as [[[res v'] e]|] eqn:Hown.
  { apply returns_ret. intros j sj sj' Hj Hj' Hcl. cbn in Hj'. destruct (decide (i = j)) as [<-|Hij].
    - rewrite lookup_alter_eq, Hj in Hj'. simplify_eq. injection Hj' as <-. exact (Htimeout _ _ _ _ _ _ Hown Hcl).
    - rewrite lookup_alter_ne in Hj' by done. congruence. }
  unfold z_stream_ctrl_method. rewrite msg_class, Hd, (get_some _ _ _ Hi), Done_bind, Hc.
  destruct l as [|c l]; cbn [head]; [apply returns_ret; intros; congruence|].
  eapply returns_mono; [eapply IH; [by rewrite msg_class|exact Hch|cbn in Hf; lia]|].
  by intros [[res v'] w'].
Qed.

Lemma ctrl_default_both function v l w i :
  ctrl_case (ZST_CTRL_MSG function) = None → chain (w_streams w) (i :: l) →
  returns (z_stream_ctrl own_ctrl (height w) w i function v) (λ '(_, _, w'), own_only (i :: l) w w' ∧
    ∀ j s s', w_streams w !! j = Some s → w_streams w' !! j = Some s' →
      isa s ≠ ZStreamBlob__class → timeout s' = timeout s).
Proof.
  intros Hd Hch. pose proof (chain_fuel _ _ _ Hch) as Hf.
  pose proof (ctrl_default_ok own_ctrl function v _ l w i Hd Hch Hf) as H1.
  pose proof (ctrl_default_timeout function v _ l w i Hd Hch Hf) as H2.
  destruct (z_stream_ctrl _ _ _ _ _ _) as [[[res v'] w']|]; [by split|done].
Qed.

(** What putting a context back does to a stream, wherever the context comes from. *)
Lemma restore_ok w i l s c m :
  chain (w_streams w) (i :: l) → w_streams w !! i = Some s → app_slots s → c_restored c = false →
  same_classes m (w_streams w) (i :: l) → (∀ j, j ∈ i :: l → is_Some (m !! j)) →
  c_extra c = match extras m (i :: l) with [] => None | e => Some e end →
  returns (z_stream_restore_context own_ctrl extra_save extra_restore w i c) (λ '(ok, c', w'), ok = true ∧
    c_restored c' = true ∧ extras (w_streams w') (i :: l) = extras m (i :: l) ∧
    ∃ s', w_streams w' !! i = Some s' ∧ s_read s' = c_read c ∧ s_pri s' = c_pri c ∧ s_write s' = c_write c ∧
          (isa s ≠ ZStreamBlob__class → timeout s' = c_timeout c)).
Proof.
  intros Hch Hi Hs Hc Hm Hal Hx. unfold z_stream_restore_context. rewrite Hc. unfold z_stream_drop_callbacks.
  destruct (drop_callbacks_app z_stream_unref w i s Hi Hs) as [lg ->]. rewrite Done_bind.
  set (w1 := upd i _ _). set (s1 := with_timeout (c_timeout c) (with_slots (c_read c) (c_pri c) (c_write c) s)).
  assert (Hi1 : w_streams w1 !! i = Some s1).
  { unfold w1. rewrite (upd_eq _ _ _ (drop_slots s)); [done|]. cbn. by rewrite lookup_insert_eq. }
  assert (Hf1 : ∀ j, j ≠ i → w_streams w1 !! j = w_streams w !! j).
  { intros j Hj. unfold w1. rewrite upd_ne by done. cbn. by rewrite lookup_insert_ne. }
  assert (Hch1 : chain (w_streams w1) (i :: l)).
  { destruct Hch as (s0 & Hi0 & Hcs & Hni & Hch). rewrite Hi in Hi0. injection Hi0 as <-.
    exists s1. split_and!; [done|done|done|]. eapply chain_frame; [|exact Hch]. intros j Hj. apply Hf1.
    intros ->. done. }
  assert (Hm1 : same_classes m (w_streams w1) (i :: l)).
  { intros j Hj. rewrite <- (Hm j Hj). destruct (decide (j = i)) as [->|Hji]; [by rewrite Hi1, Hi|by rewrite Hf1]. }
  clearbody w1. unfold z_stream_set_nonblock. rewrite bind_assoc. apply returns_bind. eapply returns_mono.
  { by apply (ctrl_default_both ZST_CTRL_SET_NONBLOCK _ l w1 i). }
  intros [[res v] w2] [Ho2 Ht2]. rewrite Done_bind.
  pose proof (own_only_chain (i :: l) _ _ _ Ho2 Hch1) as Hch2.
  assert (Hm2 : same_classes m (w_streams w2) (i :: l)).
  { intros j Hj. rewrite (own_only_classes (i :: l) _ _ _ Ho2 j Hj). by apply Hm1. }
  apply returns_bind. eapply (returns_mono _ (λ w3, own_only (i :: l) w2 w3 ∧ same_timeouts w2 w3 ∧
    extras (w_streams w3) (i :: l) = extras m (i :: l))).
  { rewrite Hx. destruct (extras m (i :: l)) as [|e es] eqn:He.
    - split; [apply own_only_refl|]. split; [done|]. by eapply extras_nil.
    - apply returns_bind. rewrite <- (app_nil_r (e :: es)), <- He. eapply returns_mono.
      { apply (extra_restore_ok m l (height w2) w2 i []); [done|done|by eapply chain_fuel]. }
      intros [tail w3] (_ & Ho3 & Ht3 & Hj3). do 2 (split; [done|]). rewrite app_nil_r. apply extras_ext; [|done].
      intros j Hj. split; [by apply Hal|]. destruct Ho3 as (Ho3 & _). destruct (Ho3 j) as [o ->].
      destruct (chain_lookup _ _ _ Hch2 Hj) as [sj ->]. by eexists. }
  intros w3 (Ho3 & Ht3 & Hex). apply returns_ret. split_and!; [done|done|done|].
  destruct Ho2 as (Ho2 & _), Ho3 as (Ho3 & _). destruct (Ho2 i) as [o2 H2], (Ho3 i) as [o3 H3].
  rewrite Hi1 in H2. rewrite H2 in H3. eexists. split; [exact H3|]. split_and!; [done..|]. intros Hcl.
  pose proof (Ht3 i) as Ht. rewrite H3, H2 in Ht. cbn in Ht. injection Ht as Ht.
  pose proof (Ht2 i s1 _ Hi1 H2 Hcl) as Ht'. cbn in Ht'. cbn. congruence.
Qed.

(** A context that was saved is put back once: after any use of the stack in between that
    leaves its streams and their order, the callbacks, conditions and extra data are what
    they were, and the timeout as well unless the stream is a ZStreamBlob; a second attempt
    is refused and changes nothing.  In between, the
    stream has no callbacks of its owner. *)
Theorem save_restore_context uninit w i l s :
  chain (w_streams w) (i :: l) → w_streams w !! i = Some s →
  returns (z_stream_save_context own_ctrl extra_save uninit w i) (λ '(c, w1),
    (∃ s1, w_streams w1 !! i = Some s1 ∧ ∀ d, get_slot d s1 = no_slot) ∧
    ∀ w2 s2, chain (w_streams w2) (i :: l) → same_classes (w_streams w1) (w_streams w2) (i :: l) →
      w_streams w2 !! i = Some s2 → app_slots s2 →
      returns (z_stream_restore_context own_ctrl extra_save extra_restore w2 i c) (λ '(ok, c', w3),
        ok = true ∧ extras (w_streams w3) (i :: l) = extras (w_streams w1) (i :: l) ∧
        (∃ s3, w_streams w3 !! i = Some s3 ∧ (isa s ≠ ZStreamBlob__class → timeout s3 = timeout s) ∧
               ∀ d, get_slot d s3 = get_slot d s) ∧
        z_stream_restore_context own_ctrl extra_save extra_restore w3 i c' = Done (false, c', w3))).
Proof.
  intros Hch Hi. unfold z_stream_save_context. rewrite (get_some _ _ _ Hi), Done_bind.
  unfold z_stream_get_nonblock. rewrite bind_assoc. apply returns_bind. eapply returns_mono.
  { apply (ctrl_default_ok own_ctrl ZST_CTRL_GET_NONBLOCK _ _ l w i); [done|done|by eapply chain_fuel]. }
  intros [[res v] w1] Ho. rewrite Done_bind. destruct (proj1 Ho i) as [o Hi1]. rewrite Hi in Hi1. cbn in Hi1.
  set (w2 := upd i _ w1). set (s2 := with_slots no_slot no_slot no_slot (with_priv o s)).
  assert (Hi2 : w_streams w2 !! i = Some s2) by exact (upd_eq _ _ _ _ Hi1).
  assert (Hch2 : chain (w_streams w2) (i :: l)).
  { eapply chain_kept_child; [|eapply own_only_chain; [exact Ho|exact Hch]]. intros j _.
    destruct (decide (j = i)) as [->|Hji].
    - exists (with_slots no_slot no_slot no_slot). split; [done|]. by rewrite Hi2, Hi1.
    - exists id. split; [done|]. unfold w2. rewrite upd_ne by done. by destruct (w_streams w1 !! j). }
  rewrite (extra_save_ok w2 l) by (done || by eapply chain_fuel). rewrite Done_bind. apply returns_ret.
  split; [exists s2; split; [done|by intros []]|].
  intros w3 s3 Hch3 Hsame Hi3 Happ. eapply returns_mono.
  { eapply (restore_ok w3 i l s3 _ (w_streams w2)); [exact Hch3|exact Hi3|exact Happ|done|exact Hsame| |].
    - intros j Hj. by eapply chain_lookup.
    - by destruct (extras (w_streams w2) (i :: l)). }
  intros [[ok c'] w4] (-> & Hc' & Hex & s4 & Hi4 & H1 & H2 & H3 & H4). split_and!; [done|done| |].
  - exists s4. split; [done|]. split; [|by intros []]. intros Hcl. apply H4. intros Hb. apply Hcl.
    specialize (Hsame i ltac:(by left)). rewrite Hi3, Hi2 in Hsame. cbn in Hsame. congruence.
  - unfold z_stream_restore_context. by rewrite Hc'.
Qed.
End contexts.

Lemma save_restore_context_witness :
  let extra s := if decide (isa s = ZStreamLine__class) then Some (own s) else None in
  returns (z_stream_save_context no_ctrl extra 0 ssl_stack 2) (λ '(c, w1),
    (∃ s1, w_streams w1 !! 2%nat = Some s1 ∧ ∀ d, get_slot d s1 = no_slot) ∧
    ∀ w2 s2, chain (w_streams w2) [2; 1; 0]%nat → same_classes (w_streams w1) (w_streams w2) [2; 1; 0]%nat →
      w_streams w2 !! 2%nat = Some s2 → app_slots s2 →
      returns (z_stream_restore_context no_ctrl extra (λ _ e, e) w2 2 c) (λ '(ok, c', w3),
        ok = true ∧ extras extra (w_streams w3) [2; 1; 0]%nat = extras extra (w_streams w1) [2; 1; 0]%nat ∧
        (∃ s3, w_streams w3 !! 2%nat = Some s3 ∧
               (isa (stream_of ssl_stack 2) ≠ ZStreamBlob__class → timeout s3 = timeout (stream_of ssl_stack 2)) ∧
               ∀ d, get_slot d s3 = get_slot d (stream_of ssl_stack 2)) ∧
        z_stream_restore_context no_ctrl extra (λ _ e, e) w3 2 c' = Done (false, c', w3))).
Proof.
  apply (save_restore_context no_ctrl (λ s, if decide (isa s = ZStreamLine__class) then Some (own s) else None)
    (λ _ e, e)).
  - split.
    + intros s s' Hisa. rewrite Hisa. by case_decide.
    + intros s e. cbn. by case_decide.
  - done.
  - exact (seg_chain _ _ _ _ _ ssl_stack_seg).
  - by vm_compute.
Defined.

(** Putting the context of a ZStreamBlob back sets its mode after its timeout, and the mode
    is kept in the timeout: that of a blob that waits for a hundred seconds is lost. *)
Example restore_loses_blob_timeout :
  let blob := with_timeout 100 (z_stream_new ZStreamBlob__class [] (Z.lor G_IO_IN G_IO_OUT)) in
  let w := mkWorld {[0%nat := blob]} empty_store [] in
  returns ('(c, w) ← z_stream_save_context z_stream_blob_ctrl (λ _, None) 0 w 0;
           '(_, _, w) ← z_stream_restore_context z_stream_blob_ctrl (λ _, None) (λ _ e, e) w 0 c;
           Done w) (λ w, timeout (stream_of w 0) = -1).
Proof. by vm_compute. Qed.
