(* ===== verification/Blob.v ===== *)
(** * Blobs (src/src/blob.c, src/src/zorp/blob.h)

    A blob is an array of bytes that grows on demand and lives in memory or in a file; a
    blob system keeps account of both and moves blobs between them.  The files are those
    that mkstemp gives, one per blob, which nobody else writes.  How many bytes a read or
    a write system call moves is a parameter, as is the time; calls that fail end the
    program (g_assert) and are not modelled, nor is the repetition of interrupted ones.
    An operation that has to wait for the management thread or for a lock is [Blocked];
    what that thread does is [z_blob_system_serve]. *)

From S2P Require Import Prelude RefCount StreamApi.
Open Scope Z_scope.

Record ZBlobStatistic := mkStat {
  req_rd : Z; req_wr : Z; swap_count : Z; alloc_count : Z;
  total_rd : Z; total_wr : Z; created : Z; last_accessed : Z
}.

Record ZBlob := mkBlob {
  zb_ref_cnt : Z;
  zb_size : Z;
  alloc_size : Z;
  is_in_file : bool;
  zb_file : list Z;                (* what the file behind fd holds *)
  zb_data : list Z;                (* the block data points to; NULL is empty *)
  mtx_locked : bool;               (* mtx_lock *)
  stat : ZBlobStatistic;
  mapped : option (Z * Z);         (* the position mapped_ptr points to, and mapped_length *)
  alloc_req : Z;
  approved : bool;
  storage_locked : bool
}.

(** What is pushed into the queue of the management thread. *)
Inductive blob_request : Set := Z_BLOB_THREAD_KILL | Z_BLOB_MEM_FREED | ReqBlob (i : nat).

Record ZBlobSystem := mkBlobSystem {
  zs_ref_cnt : Z;
  disk_max : Z; mem_max : Z; disk_used : Z; mem_used : Z;
  lowat : Z; hiwat : Z; noswap_max : Z;
  zs_blobs : list nat;
  req_queue : list blob_request;
  waiting_list : list nat;
  active : bool
}.

Record blobs := mkBlobs {
  sys : ZBlobSystem;
  objs : gmap nat ZBlob
}.

#[global] Instance ZBlobStatistic_eq_dec : EqDecision ZBlobStatistic.
Proof. solve_decision. Defined.
#[global] Instance ZBlob_eq_dec : EqDecision ZBlob.
Proof. solve_decision. Defined.

(** Changing fields. *)
Definition with_stat (x : ZBlobStatistic) (b : ZBlob) : ZBlob :=
  mkBlob (zb_ref_cnt b) (zb_size b) (alloc_size b) (is_in_file b) (zb_file b) (zb_data b) (mtx_locked b) x
         (mapped b) (alloc_req b) (approved b) (storage_locked b).
Definition with_storage (sz al : Z) (inf : bool) (f d : list Z) (b : ZBlob) : ZBlob :=
  mkBlob (zb_ref_cnt b) sz al inf f d (mtx_locked b) (stat b) (mapped b) (alloc_req b) (approved b) (storage_locked b).
Definition with_size (sz : Z) (b : ZBlob) : ZBlob :=
  with_storage sz (alloc_size b) (is_in_file b) (zb_file b) (zb_data b) b.
Definition with_locked (l : bool) (b : ZBlob) : ZBlob :=
  mkBlob (zb_ref_cnt b) (zb_size b) (alloc_size b) (is_in_file b) (zb_file b) (zb_data b) l (stat b)
         (mapped b) (alloc_req b) (approved b) (storage_locked b).
Definition with_mapped (p : option (Z * Z)) (b : ZBlob) : ZBlob :=
  mkBlob (zb_ref_cnt b) (zb_size b) (alloc_size b) (is_in_file b) (zb_file b) (zb_data b) (mtx_locked b) (stat b)
         p (alloc_req b) (approved b) (storage_locked b).
Definition with_request (r : Z) (a : bool) (b : ZBlob) : ZBlob :=
  mkBlob (zb_ref_cnt b) (zb_size b) (alloc_size b) (is_in_file b) (zb_file b) (zb_data b) (mtx_locked b) (stat b)
         (mapped b) r a (storage_locked b).
Definition with_zb_ref (n : Z) (b : ZBlob) : ZBlob :=
  mkBlob n (zb_size b) (alloc_size b) (is_in_file b) (zb_file b) (zb_data b) (mtx_locked b) (stat b)
         (mapped b) (alloc_req b) (approved b) (storage_locked b).
Definition z_blob_storage_lock (st : bool) (b : ZBlob) : ZBlob :=
  mkBlob (zb_ref_cnt b) (zb_size b) (alloc_size b) (is_in_file b) (zb_file b) (zb_data b) (mtx_locked b) (stat b)
         (mapped b) (alloc_req b) (approved b) st.

Definition with_used (d m : Z) (s : ZBlobSystem) : ZBlobSystem :=
  mkBlobSystem (zs_ref_cnt s) (disk_max s) (mem_max s) d m (lowat s) (hiwat s) (noswap_max s) (zs_blobs s)
               (req_queue s) (waiting_list s) (active s).
Definition with_queue (q : list blob_request) (wl : list nat) (s : ZBlobSystem) : ZBlobSystem :=
  mkBlobSystem (zs_ref_cnt s) (disk_max s) (mem_max s) (disk_used s) (mem_used s) (lowat s) (hiwat s)
               (noswap_max s) (zs_blobs s) q wl (active s).
Definition with_blobs (l : list nat) (s : ZBlobSystem) : ZBlobSystem :=
  mkBlobSystem (zs_ref_cnt s) (disk_max s) (mem_max s) (disk_used s) (mem_used s) (lowat s) (hiwat s)
               (noswap_max s) l (req_queue s) (waiting_list s) (active s).

Definition with_system_ref (n : Z) (a : bool) (s : ZBlobSystem) : ZBlobSystem :=
  mkBlobSystem n (disk_max s) (mem_max s) (disk_used s) (mem_used s) (lowat s) (hiwat s)
               (noswap_max s) (zs_blobs s) (req_queue s) (waiting_list s) a.

Definition get_blob (w : blobs) (i : nat) : outcome ZBlob :=
  match objs w !! i with Some b => Done b | None => Fault UseAfterFree end.
Definition put_blob (i : nat) (b : ZBlob) (w : blobs) : blobs := mkBlobs (sys w) (<[i := b]> (objs w)).
Definition set_sys (s : ZBlobSystem) (w : blobs) : blobs := mkBlobs s (objs w).
Definition push_request (r : blob_request) (w : blobs) : blobs :=
  set_sys (with_queue (req_queue (sys w) ++ [r]) (waiting_list (sys w)) (sys w)) w.

(** ** Files *)

Definition zeros (n : Z) : list Z := replicate (Z.to_nat n) 0.

(** ftruncate, and write and read at a position. *)
Definition f_truncate (f : list Z) (n : Z) : list Z := take (Z.to_nat n) (f ++ zeros (n - zlen f)).
Definition f_write (f : list Z) (off : Z) (l : list Z) : list Z :=
  take (Z.to_nat off) (f ++ zeros (off - zlen f)) ++ l ++ drop (Z.to_nat (off + zlen l)) f.
Definition f_read (f : list Z) (off n : Z) : list Z := take (Z.to_nat n) (drop (Z.to_nat off) f).

Section blob.
(** [rw n]: how many bytes a system call moves that is asked to move [n]. *)
Context (rw : Z → Z) (now : Z).

(** The loops around write: each call takes its bytes from the start of [data]. *)
Fixpoint write_loop (fuel : nat) (f : list Z) (off : Z) (data : list Z) (remain written : Z)
    : outcome (list Z * Z) :=
  match fuel with
  | O => Fault OutOfFuel
  | S fuel =>
      if 0 <? remain then
        let written := rw remain in
        write_loop fuel (f_write f off (take (Z.to_nat written) data)) (off + written) data
                   (remain - written) written
      else Done (f, written)
  end.

(** The loops around read: each call puts its bytes at the start of the buffer; the one of
    z_blob_system_swap_in stops at the end of the file. *)
Fixpoint read_loop (fuel : nat) (stop_at_eof : bool) (f : list Z) (off : Z) (buf : list Z) (remain rd : Z)
    : outcome (list Z * Z) :=
  match fuel with
  | O => Fault OutOfFuel
  | S fuel =>
      if 0 <? remain then
        let got := f_read f off (rw remain) in
        buf ← store_range buf 0 got;
        if stop_at_eof && (zlen got =? 0) then Done (buf, zlen got)
        else read_loop fuel stop_at_eof f (off + zlen got) buf (remain - zlen got) (zlen got)
      else Done (buf, rd)
  end.

Definition loop_fuel (n : Z) : nat := S (Z.to_nat n).

(** ** Accounts *)

Definition account_swap (w : blobs) (al : Z) (out : bool) : blobs :=
  let s := sys w in
  set_sys (if out then with_used (disk_used s + al) (u64 (mem_used s - al)) s
           else with_used (disk_used s - al) (u64 (mem_used s + al)) s) w.

Definition z_blob_swap_out (w : blobs) (i : nat) : outcome blobs :=
  b ← get_blob w i;
  if negb (storage_locked b) && negb (is_in_file b) then
    '(f, _) ← write_loop (loop_fuel (zb_size b)) (zb_file b) 0 (zb_data b) (zb_size b) 0;
    let st := stat b in
    let b := with_stat (mkStat (req_rd st) (req_wr st) (swap_count st + 1) (alloc_count st) (total_rd st)
                               (total_wr st) (created st) now)
                       (with_storage (zb_size b) (alloc_size b) true f [] b) in
    Done (account_swap (put_blob i b w) (alloc_size b) true)
  else Done w.

(** The request in alloc_req. *)
Definition z_blob_check_alloc (w : blobs) (i : nat) : outcome (bool * blobs) :=
  b ← get_blob w i;
  let s := sys w in
  let mem_available := u64 (mem_max s - mem_used s) in
  let disk_available := u64 (disk_max s - disk_used s) in
  let req_total := u64 (alloc_size b + alloc_req b) in
  '(success, w) ←
    (if is_in_file b then
       Done (true, set_sys (with_used (disk_used s + alloc_req b) (mem_used s) s) w)
     else if (alloc_req b <? 0) || (u64 (alloc_req b) <=? mem_available) then
       Done (true, set_sys (with_used (disk_used s) (u64 (mem_used s + alloc_req b)) s) w)
     else if negb (storage_locked b) && (req_total <=? disk_available) then
       w ← z_blob_swap_out w i;
       Done (true, set_sys (with_used (disk_used (sys w) + alloc_req b) (mem_used (sys w)) (sys w)) w)
     else Done (false, w));
  Done (success : bool, if alloc_req b <? 0 then push_request Z_BLOB_MEM_FREED w else w).

(** ** Allocating *)

(** The loops that determine the allocation size: sizes that differ by factors of two. *)
Fixpoint shrink_loop (fuel : nat) (al req : Z) : outcome Z :=
  match fuel with
  | O => Fault OutOfFuel
  | S fuel => if req <? al then shrink_loop fuel (Z.shiftr al 1) req else Done al
  end.

Fixpoint grow_loop (fuel : nat) (al req : Z) : outcome Z :=
  match fuel with
  | O => Fault OutOfFuel
  | S fuel =>
      if al <? req then
        _ ← require (2 * al < 2 ^ 63) SignedOverflow;
        grow_loop fuel (2 * al) req
      else Done al
  end.

Definition req_alloc_size (b : ZBlob) (req_size : Z) : outcome Z :=
  if (alloc_size b <=? 0) || is_in_file b then Done req_size
  else al ← shrink_loop 65 (alloc_size b) req_size; grow_loop 65 al req_size.

(** Asking for space: whether the request was granted at once; if not, it is in the queue. *)
Definition z_blob_alloc_request (w : blobs) (i : nat) (req_alloc : Z) : outcome (bool * blobs) :=
  b ← get_blob w i;
  let w := put_blob i (with_request (req_alloc - alloc_size b) (approved b) b) w in
  '(alloc_granted, w) ← z_blob_check_alloc w i;
  if alloc_granted : bool then Done (true, w)
  else
    b ← get_blob w i;
    Done (false, push_request (ReqBlob i) (put_blob i (with_request (alloc_req b) false b) w)).

(** Using the space that was granted. *)
Definition z_blob_alloc_finish (w : blobs) (i : nat) (req_alloc : Z) : outcome blobs :=
  b ← get_blob w i;
  let b := if is_in_file b
           then with_storage (zb_size b) req_alloc true (f_truncate (zb_file b) req_alloc) (zb_data b) b
           else with_storage (zb_size b) req_alloc false (zb_file b) (f_truncate (zb_data b) req_alloc) b in
  let b := if req_alloc <? zb_size b then with_size req_alloc b else b in
  let st := stat b in
  Done (put_blob i (with_stat (mkStat (req_rd st) (req_wr st) (swap_count st) (alloc_count st + 1)
                                      (total_rd st) (total_wr st) (created st) now) b) w).

(** What follows the wait for the management thread, once it has replied. *)
Definition z_blob_alloc_resume (w : blobs) (i : nat) (req_alloc : Z) : outcome blobs :=
  b ← get_blob w i;
  _ ← require (approved b = true) AssertFailed;
  z_blob_alloc_finish w i req_alloc.

Definition z_blob_alloc (w : blobs) (i : nat) (req_size : Z) : outcome blobs :=
  _ ← require (0 ≤ req_size) AssertFailed;
  b ← get_blob w i;
  req_alloc ← req_alloc_size b req_size;
  if req_alloc =? alloc_size b then Done w
  else
    '(granted, w) ← z_blob_alloc_request w i req_alloc;
    if granted : bool then z_blob_alloc_finish w i req_alloc else Fault Blocked.

(** ** Locks *)

(** A lock that is held: a limited time passes without it; without a limit it blocks. *)
Definition z_blob_lock (w : blobs) (i : nat) (timeout : Z) : outcome (bool * blobs) :=
  b ← get_blob w i;
  if mtx_locked b then (if timeout <? 0 then Fault Blocked else Done (false, w))
  else Done (true, put_blob i (with_locked true b) w).

Definition z_blob_unlock (w : blobs) (i : nat) : outcome blobs :=
  b ← get_blob w i; Done (put_blob i (with_locked false b) w).

(** ** Reading and writing *)

Definition count_write (n : Z) (b : ZBlob) : ZBlob :=
  let st := stat b in
  with_stat (mkStat (req_rd st) (req_wr st + 1) (swap_count st) (alloc_count st) (total_rd st)
                    (u64 (total_wr st + n)) (created st) now) b.
Definition count_read (n : Z) (b : ZBlob) : ZBlob :=
  let st := stat b in
  with_stat (mkStat (req_rd st + 1) (req_wr st) (swap_count st) (alloc_count st) (u64 (total_rd st + n))
                    (total_wr st) (created st) now) b.

Definition z_blob_truncate (w : blobs) (i : nat) (pos timeout : Z) : outcome (bool * blobs) :=
  _ ← require (0 ≤ pos) AssertFailed;
  '(locked, w) ← z_blob_lock w i timeout;
  if locked : bool then
    w ← z_blob_alloc w i pos;
    w ← z_blob_unlock w i;
    Done (true, w)
  else Done (false, w).

(** Putting the bytes at [pos] into the file or into the block, as [in_file] says: the
    result is the length of the last write. *)
Definition blob_store (in_file : bool) (b : ZBlob) (pos : Z) (l : list Z) : outcome (Z * ZBlob) :=
  if in_file then
    '(f, written) ← write_loop (loop_fuel (zlen l)) (zb_file b) pos l (zlen l) 0;
    Done (written, with_storage (zb_size b) (alloc_size b) (is_in_file b) f (zb_data b) b)
  else
    d ← store_range (zb_data b) pos l;
    Done (zlen l, with_storage (zb_size b) (alloc_size b) (is_in_file b) (zb_file b) d b).

Definition z_blob_add_copy (w : blobs) (i : nat) (pos : Z) (l : list Z) (timeout : Z) : outcome (Z * blobs) :=
  _ ← require (0 ≤ pos) AssertFailed;
  '(locked, w) ← z_blob_lock w i timeout;
  if locked : bool then
    b ← get_blob w i;
    w ← (if alloc_size b <? pos + zlen l then z_blob_alloc w i (pos + zlen l) else Done w);
    b ← get_blob w i;
    '(written, b) ← blob_store (is_in_file b) b pos l;
    let b := if zb_size b <? pos + written then with_size (pos + written) b else b in
    w ← z_blob_unlock (put_blob i (count_write written b) w) i;
    Done (written, w)
  else Done (0, w).

(** Getting [n] bytes from [pos] into [buf]: the result is the length of the last read. *)
Definition blob_load (b : ZBlob) (pos n : Z) (buf : list Z) : outcome (Z * list Z) :=
  if is_in_file b then
    '(buf, rd) ← read_loop (loop_fuel n) false (zb_file b) pos buf n 0; Done (rd, buf)
  else
    l ← load_range (zb_data b) pos n;
    buf ← store_range buf 0 l;
    Done (n, buf).

Definition z_blob_get_copy (w : blobs) (i : nat) (pos : Z) (buf : list Z) (req_datalen timeout : Z)
    : outcome (Z * list Z * blobs) :=
  _ ← require (0 ≤ pos) AssertFailed;
  b ← get_blob w i;
  if pos <? zb_size b then
    let req_datalen := if zb_size b - pos <? req_datalen then zb_size b - pos else req_datalen in
    '(locked, w) ← z_blob_lock w i timeout;
    if locked : bool then
      b ← get_blob w i;
      '(rd, buf) ← blob_load b pos req_datalen buf;
      w ← z_blob_unlock (put_blob i (count_read rd b) w) i;
      Done (rd, buf, w)
    else Done (0, buf, w)
  else Done (0, buf, w).

(** ** Lending the file and pointers

    Whether the owner and the mode of the file can be set is an argument. *)
Definition z_blob_get_file (w : blobs) (i : nat) (permissions : bool) (timeout : Z) : outcome (bool * blobs) :=
  '(locked, w) ← z_blob_lock w i timeout;
  if locked : bool then
    b ← get_blob w i;
    if negb (is_in_file b) && storage_locked b then w ← z_blob_unlock w i; Done (false, w)
    else
      w ← (if is_in_file b then Done w else z_blob_swap_out w i);
      if permissions then Done (true, w) else w ← z_blob_unlock w i; Done (false, w)
  else Done (false, w).

Definition z_blob_release_file (w : blobs) (i : nat) : outcome blobs :=
  b ← get_blob w i;
  let n := zlen (zb_file b) in
  z_blob_unlock (put_blob i (with_storage n n (is_in_file b) (zb_file b) (zb_data b) b) w) i.

(** The bytes that the pointer gives access to; mmap does not fail. *)
Definition z_blob_get_ptr (w : blobs) (i : nat) (pos req_datalen timeout : Z)
    : outcome (option (list Z) * blobs) :=
  _ ← require (0 ≤ pos) AssertFailed;
  b ← get_blob w i;
  _ ← require (mapped b = None) AssertFailed;
  if (pos <? zb_size b) && (0 <? zb_size b) then
    '(locked, w) ← z_blob_lock w i timeout;
    if locked : bool then
      b ← get_blob w i;
      let n := if zb_size b <? pos + req_datalen then zb_size b - pos else req_datalen in
      l ← load_range (if is_in_file b then zb_file b else zb_data b) pos n;
      Done (Some l, put_blob i (with_mapped (Some (pos, n)) b) w)
    else Done (None, w)
  else Done (None, w).

Definition z_blob_free_ptr (w : blobs) (i : nat) (pos : Z) : outcome blobs :=
  b ← get_blob w i;
  match mapped b with
  | Some (p, n) =>
      _ ← require (p = pos) AssertFailed;
      _ ← require (0 < n) AssertFailed;
      z_blob_unlock (put_blob i (with_mapped None b) w) i
  | None => Fault AssertFailed
  end.

(** ** Moving blobs into memory *)

(** Whether z_blob_system_swap_in may take a blob: its lock is free, it is in its file, and
    it fits; and how good a candidate it is. *)
Definition swap_in_candidate (space_available : Z) (b : ZBlob) : bool :=
  negb (mtx_locked b) && negb (storage_locked b) && is_in_file b && (alloc_size b <=? space_available).
Definition dec_factor (b : ZBlob) : Z :=
  let elapsed := now - last_accessed (stat b) in
  if 0 <? elapsed then Z.quot (req_rd (stat b) + req_wr (stat b)) elapsed else 0.

Fixpoint best_loop (w : blobs) (space_available : Z) (l : list nat) (best : option nat) (dec_factor_best : Z)
    : outcome (option nat) :=
  match l with
  | [] => Done best
  | i :: l =>
      b ← get_blob w i;
      if swap_in_candidate space_available b && (dec_factor_best <? dec_factor b)
      then best_loop w space_available l (Some i) (dec_factor b)
      else best_loop w space_available l best dec_factor_best
  end.

Definition swap_in_one (w : blobs) (i : nat) : outcome blobs :=
  b ← get_blob w i;
  '(d, _) ← read_loop (loop_fuel (zb_size b)) true (zb_file b) 0 (zeros (alloc_size b)) (zb_size b) 0;
  let st := stat b in
  let b := with_stat (mkStat (req_rd st) (req_wr st) (swap_count st) (alloc_count st) (total_rd st)
                             (total_wr st) (created st) now)
                     (with_storage (zb_size b) (alloc_size b) false [] d b) in
  Done (account_swap (put_blob i b w) (alloc_size b) false).

Fixpoint swap_in_loop (fuel : nat) (w : blobs) : outcome blobs :=
  match fuel with
  | O => Fault OutOfFuel
  | S fuel =>
      best ← best_loop w (hiwat (sys w) - mem_used (sys w)) (zs_blobs (sys w)) None (-1);
      match best with
      | Some i => w ← swap_in_one w i; swap_in_loop fuel w
      | None => Done w
      end
  end.

Definition z_blob_system_swap_in (w : blobs) : outcome blobs :=
  let s := sys w in
  if (lowat s <=? mem_used s) || (disk_used s <? hiwat s) then Done w
  else swap_in_loop (S (length (zs_blobs s))) w.

(** ** The management thread *)

(** Going through the waiting list: what is left of it. *)
Fixpoint serve_waiting (w : blobs) (l : list nat) : outcome (list nat * blobs) :=
  match l with
  | [] => Done ([], w)
  | i :: l =>
      '(ok, w) ← z_blob_check_alloc w i;
      b ← get_blob w i;
      let w := put_blob i (with_request (alloc_req b) ok b) w in
      '(rest, w) ← serve_waiting w l;
      Done (if ok : bool then rest else i :: rest, w)
  end.

Definition set_waiting (l : list nat) (w : blobs) : blobs :=
  set_sys (with_queue (req_queue (sys w)) l (sys w)) w.

(** One round of z_blob_system_threadproc; whether the thread goes on. *)
Definition z_blob_system_serve (w : blobs) : outcome (bool * blobs) :=
  match req_queue (sys w) with
  | [] => Done (true, w)
  | r :: q =>
      let w := set_sys (with_queue q (waiting_list (sys w)) (sys w)) w in
      match r with
      | Z_BLOB_THREAD_KILL => Done (false, w)
      | Z_BLOB_MEM_FREED =>
          '(rest, w) ← serve_waiting w (waiting_list (sys w));
          w ← z_blob_system_swap_in (set_waiting rest w);
          Done (true, w)
      | ReqBlob i =>
          '(ok, w) ← z_blob_check_alloc w i;
          b ← get_blob w i;
          let w := put_blob i (with_request (alloc_req b) ok b) w in
          Done (true, if ok : bool then w else set_waiting (waiting_list (sys w) ++ [i]) w)
      end
  end.

(** ** Creating and releasing *)

Definition z_blob_system_new (dmax mmax low hiw nosw : Z) : ZBlobSystem :=
  mkBlobSystem (z_refcount_set 1) dmax mmax 0 0 (if mmax <=? low then u64 (mmax - 1) else low)
               (if mmax <=? hiw then u64 (mmax - 1) else hiw) nosw [] [] [] true.

Definition z_blob_statistic_init : ZBlobStatistic := mkStat 0 0 0 0 0 0 now now.

(** The blob gets the number [i]; its file could be created. *)
Definition z_blob_new (w : blobs) (i : nat) (initial_size : Z) : outcome (option nat * blobs) :=
  if active (sys w) then
    let b := mkBlob (z_refcount_set 1) 0 0 false [] [] false z_blob_statistic_init None 0 false false in
    let w := mkBlobs (with_blobs (zs_blobs (sys w) ++ [i]) (sys w)) (<[i := b]> (objs w)) in
    w ← (if 0 <? initial_size then z_blob_alloc w i initial_size else Done w);
    Done (Some i, w)
  else Done (None, w).

Definition z_blob_ref (w : blobs) (i : nat) : outcome blobs :=
  b ← get_blob w i; n ← z_refcount_inc (zb_ref_cnt b); Done (put_blob i (with_zb_ref n b) w).

Definition z_blob_unref (w : blobs) (i : nat) : outcome blobs :=
  b ← get_blob w i;
  '(zero, n) ← z_refcount_dec (zb_ref_cnt b);
  let w := put_blob i (with_zb_ref n b) w in
  if zero : bool then
    let w := put_blob i (with_request (- alloc_size b) (approved b) (with_zb_ref n b)) w in
    let w := set_sys (with_blobs (filter (λ j, j ≠ i) (zs_blobs (sys w))) (sys w)) w in
    '(_, w) ← z_blob_check_alloc w i;
    Done (mkBlobs (sys w) (delete i (objs w)))
  else Done w.

Definition z_blob_system_ref (w : blobs) : outcome blobs :=
  n ← z_refcount_inc (zs_ref_cnt (sys w)); Done (set_sys (with_system_ref n (active (sys w)) (sys w)) w).

(** The management thread until it ends, as g_thread_join waits for it. *)
Fixpoint z_blob_system_threadproc (fuel : nat) (w : blobs) : outcome blobs :=
  match fuel with
  | O => Fault OutOfFuel
  | S fuel =>
      '(goes_on, w) ← z_blob_system_serve w;
      if goes_on : bool then z_blob_system_threadproc fuel w else Done w
  end.

(** Those who still wait are told that they get nothing. *)
Fixpoint deny_loop (w : blobs) (l : list nat) : outcome blobs :=
  match l with
  | [] => Done (set_waiting [] w)
  | i :: l => b ← get_blob w i; deny_loop (put_blob i (with_request (alloc_req b) false b) w) l
  end.

Fixpoint unref_blobs_loop (w : blobs) (l : list nat) : outcome blobs :=
  match l with
  | [] => Done w
  | i :: l => w ← z_blob_unref w i; unref_blobs_loop w l
  end.

(** Whether the system was destroyed. *)
Definition z_blob_system_unref (w : blobs) : outcome (bool * blobs) :=
  '(zero, n) ← z_refcount_dec (zs_ref_cnt (sys w));
  if zero : bool then
    let w := push_request Z_BLOB_THREAD_KILL (set_sys (with_system_ref n false (sys w)) w) in
    w ← z_blob_system_threadproc (length (req_queue (sys w))) w;
    w ← deny_loop w (waiting_list (sys w));
    w ← unref_blobs_loop w (zs_blobs (sys w));
    Done (true, w)
  else Done (false, set_sys (with_system_ref n (active (sys w)) (sys w)) w).

(** ** Streams

    [C] is a stream that is read and written in chunks. *)
Section streams.
Context {C : Type} `{ZStreamOps C}.
Context (write_chunk : C → list Z → GIOStatus * C).

Definition Z_BLOB_COPY_BUFSIZE : Z := 8192.

(** The two loops of z_blob_read_from_stream, for a blob that was in its file or in memory
    at the start: [left] of [count] bytes from the stream to [pos].  In memory [count]
    bytes are allocated, counted from the current position. *)
Fixpoint from_stream_loop (fuel : nat) (in_file : bool) (w : blobs) (i : nat) (c : C) (t pos count left : Z)
    : outcome (GIOStatus * blobs * C) :=
  match fuel with
  | O => Fault OutOfFuel
  | S fuel =>
      if left =? 0 then Done (G_IO_STATUS_NORMAL, w, c)
      else
        let bytes := Z.min left Z_BLOB_COPY_BUFSIZE in
        b ← get_blob w i;
        w ← (if alloc_size b <? pos + bytes
             then z_blob_alloc w i (if in_file then pos + bytes else pos + count) else Done w);
        let '(res, l, c) := child_read c t bytes in
        match res with
        | G_IO_STATUS_NORMAL =>
            b ← get_blob w i;
            '(_, b) ← blob_store in_file b pos l;
            let pos := pos + zlen l in
            let b := if zb_size b <? pos then with_size pos b else b in
            from_stream_loop fuel in_file (put_blob i b w) i c t pos count (u64 (left - zlen l))
        | _ => Done (res, w, c)
        end
  end.

Definition z_blob_read_from_stream (fuel : nat) (w : blobs) (i : nat) (pos : Z) (c : C) (t count timeout : Z)
    : outcome (GIOStatus * blobs * C) :=
  _ ← require (0 ≤ pos) AssertFailed;
  '(locked, w) ← z_blob_lock w i timeout;
  if locked : bool then
    b ← get_blob w i;
    w ← (if is_in_file b && (zb_size b <? pos) then z_blob_alloc w i pos else Done w);
    '(res, w, c) ← from_stream_loop fuel (is_in_file b) w i c t pos count (u64 count);
    b ← get_blob w i;
    w ← z_blob_unlock (put_blob i (count_write count b) w) i;
    Done (res, w, c)
  else Done (G_IO_STATUS_ERROR, w, c).

(** z_blob_write_to_stream. *)
Fixpoint to_stream_loop (fuel : nat) (w : blobs) (i : nat) (c : C) (pos end_pos timeout : Z)
    : outcome (GIOStatus * blobs * C) :=
  match fuel with
  | O => Fault OutOfFuel
  | S fuel =>
      if pos <? end_pos then
        '(d, w) ← z_blob_get_ptr w i pos (Z.min Z_BLOB_COPY_BUFSIZE (end_pos - pos)) timeout;
        match d with
        | None => Done (G_IO_STATUS_ERROR, w, c)
        | Some l =>
            let '(res, c) := write_chunk c l in
            w ← z_blob_free_ptr w i pos;
            if decide (res = G_IO_STATUS_NORMAL)
            then to_stream_loop fuel w i c (pos + zlen l) end_pos timeout
            else Done (G_IO_STATUS_ERROR, w, c)
        end
      else Done (G_IO_STATUS_NORMAL, w, c)
  end.

Definition z_blob_write_to_stream (fuel : nat) (w : blobs) (i : nat) (pos : Z) (c : C) (count timeout : Z)
    : outcome (GIOStatus * blobs * C) :=
  _ ← require (0 ≤ pos) AssertFailed;
  to_stream_loop fuel w i c pos (pos + count) timeout.
End streams.
End blob.
