(* ===== verification/BlobSpec.v ===== *)
(** * What blobs promise

    A blob is an array of bytes: writing, reading and moving it between memory and its
    file act on its contents only as [f_write] and [f_read] do, and a blob system keeps
    exact account of the space it uses and never more memory than it may.

    The theorems that name [full_io] hold as long as read(2) and write(2) move all the bytes
    that they are asked to move, up to [IO_MAX] of them, as they are documented to do for
    regular files while the disk has room; blobs hold at most [IO_MAX] bytes there.  What the
    loops around these calls do when a call is cut short is [short_write_spec] and
    [short_read_spec], without such a premise: the data are wrong then. *)

From S2P Require Import Prelude RefCount StreamApi Blob.
From stdpp Require Import fin_maps.
Open Scope Z_scope.

(** ** Arrays of bytes *)

Lemma zeros_length n : zlen (zeros n) = Z.max 0 n.
Proof. unfold zeros. rewrite length_replicate. lia. Qed.

Lemma zeros_nil n : n ≤ 0 → zeros n = [].
Proof. intros. unfold zeros. by replace (Z.to_nat n) with 0%nat by lia. Qed.

Lemma zeros_add a b : 0 ≤ a → 0 ≤ b → zeros a ++ zeros b = zeros (a + b).
Proof. intros. unfold zeros. rewrite Z2Nat.inj_add by lia. by rewrite replicate_add. Qed.

Lemma take_zeros n k : take n (zeros k) = zeros (Z.min (Z.of_nat n) k).
Proof. unfold zeros. rewrite take_replicate. f_equal. lia. Qed.

Lemma drop_zeros n k : drop n (zeros k) = zeros (k - Z.of_nat n).
Proof. unfold zeros. rewrite drop_replicate. f_equal. lia. Qed.

Lemma take_app_split {A} n (l1 l2 : list A) :
  take n (l1 ++ l2) = take n l1 ++ take (n - length l1) l2.
Proof. apply firstn_app. Qed.

Lemma drop_app_split {A} n (l1 l2 : list A) :
  drop n (l1 ++ l2) = drop n l1 ++ drop (n - length l1) l2.
Proof. apply skipn_app. Qed.

Lemma f_write_length f off l :
  0 ≤ off → zlen (f_write f off l) = Z.max (zlen f) (off + zlen l).
Proof.
  intros Ho. unfold f_write, zeros.
  rewrite !length_app, length_take, length_drop, length_app, length_replicate. lia.
Qed.

(** Zeros behind the array stay there. *)
Lemma pad_take c k n : 0 ≤ n → take (Z.to_nat n) ((c ++ zeros k) ++ zeros (n - zlen (c ++ zeros k)))
  = take (Z.to_nat n) (c ++ zeros (n - zlen c)).
Proof.
  intros Hn. destruct (decide (k ≤ 0)) as [Hk|Hk]; [by rewrite (zeros_nil k), app_nil_r|].
  rewrite <- app_assoc, (take_app_split _ c (zeros k ++ _)), (take_app_split _ c (zeros (n - zlen c))).
  f_equal.
  destruct (decide (n ≤ zlen c)) as [Hc|Hc].
  { by replace (Z.to_nat n - length c)%nat with 0%nat by lia. }
  rewrite length_app, Nat2Z.inj_add, zeros_length.
  destruct (decide (n ≤ zlen c + k)) as [Hck|Hck].
  - rewrite (zeros_nil (n - (zlen c + Z.max 0 k))) by lia. rewrite app_nil_r, !take_zeros. f_equal. lia.
  - rewrite zeros_add, !take_zeros by lia. f_equal. lia.
Qed.

Lemma f_write_pad c k pos l :
  0 ≤ pos → 0 ≤ k → f_write (c ++ zeros k) pos l = f_write c pos l ++ zeros (zlen c + k - zlen (f_write c pos l)).
Proof.
  intros Hp Hk. rewrite f_write_length by done. unfold f_write. rewrite pad_take by done.
  rewrite <- !app_assoc. do 2 f_equal. rewrite drop_app_split. f_equal. rewrite drop_zeros.
  destruct (decide (pos + zlen l ≤ zlen c)).
  - f_equal. lia.
  - f_equal. lia.
Qed.

Lemma f_truncate_pad c k n :
  0 ≤ n → 0 ≤ k → f_truncate (c ++ zeros k) n = take (Z.to_nat n) c ++ zeros (n - zlen (take (Z.to_nat n) c)).
Proof.
  intros Hn Hk. unfold f_truncate. rewrite pad_take by done. rewrite take_app_split. f_equal.
  rewrite take_zeros, length_take. unfold zeros. f_equal. lia.
Qed.

Lemma store_range_write b pos l :
  0 ≤ pos → pos + zlen l ≤ zlen b → store_range b pos l = Done (f_write b pos l).
Proof.
  intros Hp Hl. rewrite store_range_ok by lia. unfold f_write.
  rewrite (zeros_nil (pos - zlen b)), app_nil_r by lia. do 4 f_equal. lia.
Qed.

(** ** One blob *)

(** What one call of read(2) or write(2) moves at most, 0x7ffff000 bytes on Linux. *)
Definition IO_MAX : Z := 2147479552.

(** The contents [c] of a blob: behind them its block or its file holds zeros. *)
Definition blob_ok (b : ZBlob) (c : list Z) : Prop :=
  zb_size b = zlen c ∧ zlen c ≤ alloc_size b < 2 ^ 62 ∧ zlen c ≤ IO_MAX ∧
  if is_in_file b
  then zb_data b = [] ∧ zlen (zb_file b) ≤ alloc_size b ∧ zlen c ≤ zlen (zb_file b) ∧
       zb_file b = c ++ zeros (zlen (zb_file b) - zlen c)
  else zb_file b = [] ∧ zb_data b = c ++ zeros (alloc_size b - zlen c).

(** The fields that the contents and the accounts depend on. *)
Definition storage (b : ZBlob) : Z * Z * bool * list Z * list Z :=
  (zb_size b, alloc_size b, is_in_file b, zb_file b, zb_data b).

Lemma blob_ok_storage b b' c : storage b' = storage b → blob_ok b c → blob_ok b' c.
Proof. unfold storage, blob_ok. intros Hs. injection Hs as -> -> -> -> ->. done. Qed.

Section spec.
Context (rw : Z → Z) (now : Z).
(** Up to that limit a call on a regular file is complete: a read stops early only at the
    end of the file, a write only when the disk is full. *)
Definition full_io : Prop := ∀ n, 0 ≤ n ≤ IO_MAX → rw n = n.
Context (Hrw : full_io).

Lemma write_loop_ok f off data n fuel :
  0 ≤ off → 0 ≤ n ≤ IO_MAX → (0 < fuel)%nat → (0 < n → (1 < fuel)%nat) →
  write_loop rw fuel f off data n 0 = Done (if decide (n = 0) then f else f_write f off (take (Z.to_nat n) data), n).
Proof.
  intros Ho Hn Hf Hf'. destruct fuel as [|fuel]; [lia|]. cbn [write_loop]. case_decide as Hl.
  - by subst n.
  - specialize (Hf' ltac:(lia)). rewrite (proj2 (Z.ltb_lt 0 n)), (Hrw n), Z.sub_diag by lia.
    destruct fuel as [|fuel]; [lia|]. done.
Qed.

Lemma f_write_nil f off : 0 ≤ off ≤ zlen f → f_write f off [] = f.
Proof.
  intros Ho. unfold f_write. rewrite (zeros_nil (off - zlen f)), app_nil_r by lia. cbn.
  rewrite Z.add_0_r. apply take_drop.
Qed.

(** Writing where the space is allocated. *)
Lemma blob_store_ok b c pos l :
  blob_ok b c → 0 ≤ pos → pos + zlen l ≤ alloc_size b → pos + zlen l ≤ IO_MAX → (l = [] → pos ≤ zlen c) →
  ∃ f d, blob_store rw (is_in_file b) b pos l
      = Done (zlen l, with_storage (zb_size b) (alloc_size b) (is_in_file b) f d b) ∧
    ∀ b2, storage b2 = (Z.max (zlen c) (pos + zlen l), alloc_size b, is_in_file b, f, d) →
      blob_ok b2 (f_write c pos l).
Proof.
  intros (Hs & Ha & Hio & Hc) Hp Hl Hlio Hnil. unfold blob_store. pose proof (f_write_length c pos l Hp) as Hlen.
  destruct (is_in_file b) eqn:Hf.
  - destruct Hc as (Hd & Hfl & Hcf & Hfile).
    rewrite write_loop_ok by (unfold loop_fuel; lia). rewrite Nat2Z.id, firstn_all, Done_bind. eexists _, _. split; [done|]. intros b2 Hb2. unfold storage in Hb2. injection Hb2 as H1 H2 H3 H4 H5.
    unfold blob_ok. rewrite H1, H2, H3, H4, H5. case_decide as Hl0.
    + assert (l = []) as -> by (destruct l; [done|cbn [length] in Hl0; lia]). specialize (Hnil eq_refl). cbn [length] in *. rewrite (f_write_nil c) by lia.
      split_and!; try done; lia.
    + assert (Hw : f_write (zb_file b) pos l = f_write c pos l ++
        zeros (zlen c + (zlen (zb_file b) - zlen c) - zlen (f_write c pos l)))
        by (rewrite Hfile at 1; apply f_write_pad; lia).
      rewrite Hw.
      rewrite !length_app, !Nat2Z.inj_add, zeros_length.
      rewrite !Hlen. split_and!; try done; try lia. f_equal. unfold zeros. f_equal. lia.
  - destruct Hc as (Hfile & Hd).
    assert (Hdl : zlen (zb_data b) = alloc_size b)
      by (rewrite Hd, length_app, Nat2Z.inj_add, zeros_length; lia).
    rewrite store_range_write by lia. rewrite Done_bind. eexists _, _. split; [done|].
    intros b2 Hb2. unfold storage in Hb2. injection Hb2 as H1 H2 H3 H4 H5.
    unfold blob_ok. rewrite H1, H2, H3, H4, H5, Hd, f_write_pad by lia. rewrite !Hlen.
    split_and!; try done; try lia. do 2 f_equal. lia.
Qed.

(** Reading what is there. *)
Lemma read_loop_ok e f off n buf fuel :
  0 ≤ off → 0 ≤ n ≤ IO_MAX → off + n ≤ zlen f → n ≤ zlen buf → (0 < fuel)%nat → (0 < n → (1 < fuel)%nat) →
  read_loop rw fuel e f off buf n 0 = Done (f_read f off n ++ drop (Z.to_nat n) buf, n).
Proof.
  intros Ho Hn Hf Hb Hfu Hfu'. destruct fuel as [|fuel]; [lia|]. cbn [read_loop].
  destruct (0 <? n) eqn:E.
  - specialize (Hfu' ltac:(lia)). rewrite (Hrw n) by lia. set (got := f_read f off n).
    assert (Hg : zlen got = n) by (unfold got, f_read; rewrite length_take, length_drop; lia).
    rewrite store_range_ok by lia. rewrite Done_bind, Hg. replace (n =? 0) with false by lia.
    rewrite andb_false_r, Z.sub_diag. destruct fuel as [|fuel]; [lia|]. cbn [read_loop]. cbn.
    replace (length got) with (Z.to_nat n) by lia. done.
  - assert (n = 0) as -> by lia. done.
Qed.

Lemma blob_load_ok b c pos n buf :
  blob_ok b c → 0 ≤ pos → 0 ≤ n → pos + n ≤ zlen c → n ≤ zlen buf →
  blob_load rw b pos n buf = Done (n, f_read c pos n ++ drop (Z.to_nat n) buf).
Proof.
  intros (Hs & Ha & Hio & Hc) Hp Hn Hl Hb. unfold blob_load.
  assert (Hpre : ∀ k, f_read (c ++ zeros k) pos n = f_read c pos n).
  { intros k. unfold f_read. rewrite drop_app_le, take_app_le by (rewrite ?length_drop; lia). done. }
  destruct (is_in_file b).
  - destruct Hc as (_ & _ & Hcf & Hfile).
    rewrite read_loop_ok by (unfold loop_fuel; lia). rewrite Done_bind, Hfile. by rewrite Hpre.
  - destruct Hc as (_ & Hd). rewrite Hd, load_range_ok by (rewrite ?length_app; lia).
    rewrite Done_bind. fold (f_read (c ++ zeros (alloc_size b - zlen c)) pos n). rewrite Hpre.
    assert (Hr : zlen (f_read c pos n) = n) by (unfold f_read; rewrite length_take, length_drop; lia).
    rewrite store_range_ok by lia. rewrite Done_bind. change (Z.to_nat 0) with 0%nat.
    rewrite take_0. cbn [app Nat.add]. by replace (length (f_read c pos n)) with (Z.to_nat n) by lia.
Qed.

(** ** Allocation sizes *)

Lemma shrink_loop_ok fuel : ∀ al req,
  0 ≤ req → 0 ≤ al < 2 ^ Z.of_nat fuel →
  ∃ al', shrink_loop (S fuel) al req = Done al' ∧ 0 ≤ al' ≤ al ∧ al' ≤ req ∧ (0 < al → 0 < req → 0 < al').
Proof.
  induction fuel as [|fuel IH]; intros al req Hreq Hal.
  - assert (al = 0) as -> by (cbn in Hal; lia). exists 0. cbn. rewrite (proj2 (Z.ltb_ge req 0)) by lia.
    split_and!; try done; lia.
  - cbn [shrink_loop]. destruct (req <? al) eqn:E.
    + assert (Hdiv : Z.shiftr al 1 = al / 2) by (by rewrite Z.shiftr_div_pow2).
      destruct (IH (Z.shiftr al 1) req) as (al' & Heq & Hle & Hr & Hpos); [done| |].
      { rewrite Hdiv. rewrite Nat2Z.inj_succ, Z.pow_succ_r in Hal by lia.
        split; [apply Z.div_pos; lia|apply Z.div_lt_upper_bound; lia]. }
      exists al'. split; [exact Heq|]. rewrite Hdiv in *. pose proof (Z.div_le_upper_bound al 2 al ltac:(lia)).
      assert (1 ≤ al / 2 ∨ al < 2) by (destruct (decide (al < 2)); [by right|left; apply Z.div_le_lower_bound; lia]).
      split_and!; lia.
    + exists al. split_and!; try done; lia.
Qed.

Lemma grow_loop_ok fuel : ∀ al req,
  0 < al < 2 ^ 62 → req ≤ 2 ^ 61 → req ≤ al * 2 ^ Z.of_nat fuel →
  ∃ al', grow_loop (S fuel) al req = Done al' ∧ req ≤ al' ∧ al ≤ al' < 2 ^ 62 ∧ (al' = al ∨ al' < 2 * req).
Proof.
  induction fuel as [|fuel IH]; intros al req Hal Hreq Hf.
  - exists al. cbn in *. rewrite (proj2 (Z.ltb_ge al req)) by lia. split_and!; try done; lia.
  - remember (S fuel) as k eqn:Hk. cbn [grow_loop]. destruct (al <? req) eqn:E; [|exists al; split_and!; try done; lia].
    rewrite require_true, Done_bind by lia.
    rewrite Hk, Nat2Z.inj_succ, Z.pow_succ_r in Hf by lia.
    destruct (IH (2 * al) req) as (al' & Heq & Hr & Hle & Hlt); [lia|done|lia|].
    exists al'. split; [exact Heq|]. split_and!; lia.
Qed.

(** The size is enough, less than twice what is needed unless it stays, and nothing is
    kept for an empty blob. *)
Lemma req_alloc_size_ok b req :
  0 ≤ alloc_size b < 2 ^ 62 → 0 ≤ req ≤ 2 ^ 61 →
  ∃ al, req_alloc_size b req = Done al ∧ req ≤ al < 2 ^ 62 ∧ (al ≤ alloc_size b ∨ al < 2 * req ∨ al = req) ∧
    (is_in_file b = true → al = req).
Proof.
  intros Hal Hreq. unfold req_alloc_size. destruct ((alloc_size b <=? 0) || is_in_file b) eqn:E.
  { exists req. split_and!; try done; lia. }
  apply orb_false_elim in E as [E1 E2]. rewrite E2.
  destruct (shrink_loop_ok 64 (alloc_size b) req) as (al & -> & Hle & Hr & Hpos); [lia|lia|]. rewrite Done_bind.
  destruct (decide (req = 0)) as [->|Hne].
  - assert (al = 0) as -> by lia. exists 0. split_and!; try done; lia.
  - destruct (grow_loop_ok 64 al req) as (al' & -> & H1 & H2 & H3); [lia|lia| |].
    { assert (1 * 2 ^ 64 ≤ al * 2 ^ Z.of_nat 64) by (apply Z.mul_le_mono_nonneg_r; lia). lia. }
    exists al'. split_and!; try done; lia.
Qed.

(** ** The accounts of a system *)

Definition mem_of (b : ZBlob) : Z := if is_in_file b then 0 else alloc_size b.
Definition disk_of (b : ZBlob) : Z := if is_in_file b then alloc_size b else 0.

Definition account (f : ZBlob → Z) (m : gmap nat ZBlob) (l : list nat) : Z :=
  foldr (λ i n, match m !! i with Some b => f b | None => 0 end + n) 0 l.

Lemma account_cons f m i l :
  account f m (i :: l) = match m !! i with Some b => f b | None => 0 end + account f m l.
Proof using. clear Hrw now rw. done. Qed.

Lemma account_ext f m m' l : (∀ i, i ∈ l → m' !! i = m !! i) → account f m' l = account f m l.
Proof using. clear Hrw now rw.
  induction l as [|i l IH]; intros Hm; [done|]. rewrite !account_cons, Hm by left. f_equal. apply IH.
  intros j Hj. apply Hm. by right.
Qed.

Lemma account_insert f m l i b b' :
  NoDup l → i ∈ l → m !! i = Some b → account f (<[i := b']> m) l = account f m l - f b + f b'.
Proof using. clear Hrw now rw.
  induction l as [|j l IH]; intros Hnd Hi Hb; [set_solver|]. apply NoDup_cons in Hnd as [Hj Hnd]. rewrite !account_cons.
  destruct (decide (j = i)) as [->|Hji].
  - rewrite lookup_insert_eq, Hb, (account_ext f m) by (intros k Hk; apply lookup_insert_ne; intros ->; done). lia.
  - rewrite lookup_insert_ne, IH by (done || set_solver). lia.
Qed.

Lemma account_nonneg f m l : (∀ i b, m !! i = Some b → 0 ≤ f b) → 0 ≤ account f m l.
Proof using. clear Hrw now rw.
  intros Hf. induction l as [|i l IH]; [done|]. rewrite account_cons. destruct (m !! i) as [b|] eqn:Hi; [|lia].
  specialize (Hf i b Hi). lia.
Qed.

(** A blob system with the contents [A] of its blobs. *)
Record system_ok (w : blobs) (A : gmap nat (list Z)) : Prop := {
  ok_nodup : NoDup (zs_blobs (sys w));
  ok_registered i : is_Some (objs w !! i) ↔ i ∈ zs_blobs (sys w);
  ok_contents i b : objs w !! i = Some b → ∃ c, A !! i = Some c ∧ blob_ok b c;
  ok_mem : mem_used (sys w) = account mem_of (objs w) (zs_blobs (sys w));
  ok_disk : disk_used (sys w) = account disk_of (objs w) (zs_blobs (sys w));
  ok_bound : mem_used (sys w) ≤ mem_max (sys w) < 2 ^ 62;
  ok_disk_bound : 0 ≤ disk_max (sys w) < 2 ^ 62;
  ok_marks : hiwat (sys w) ≤ mem_max (sys w)
}.

Lemma blob_ok_alloc b c : blob_ok b c → 0 ≤ alloc_size b < 2 ^ 62.
Proof using. clear Hrw now rw. intros (_ & H & _). lia. Qed.

Lemma ok_mem_nonneg w A : system_ok w A → 0 ≤ mem_used (sys w).
Proof using. clear Hrw now rw.
  intros H. rewrite (ok_mem _ _ H). apply account_nonneg. intros i b Hi.
  destruct (ok_contents _ _ H i b Hi) as (c & _ & Hb). apply blob_ok_alloc in Hb. unfold mem_of. case_match; lia.
Qed.

Lemma account_le f m l i b :
  (∀ i b, m !! i = Some b → 0 ≤ f b) → i ∈ l → m !! i = Some b → f b ≤ account f m l.
Proof using. clear Hrw now rw.
  intros Hf. induction l as [|j l IH]; intros Hi Hb; [set_solver|]. rewrite account_cons.
  pose proof (account_nonneg f m l Hf). apply elem_of_cons in Hi as [->|Hi].
  - rewrite Hb. lia.
  - specialize (IH Hi Hb). destruct (m !! j) as [bj|] eqn:Hj; [|lia]. specialize (Hf j bj Hj). lia.
Qed.

Lemma mem_of_le w A i b : system_ok w A → objs w !! i = Some b → mem_of b ≤ mem_used (sys w).
Proof using. clear Hrw now rw.
  intros H Hi. rewrite (ok_mem _ _ H). apply (account_le mem_of _ _ i b); [|apply (ok_registered _ _ H); eauto|done].
  intros j bj Hj. destruct (ok_contents _ _ H j bj Hj) as (c & _ & Hb). apply blob_ok_alloc in Hb.
  unfold mem_of. case_match; lia.
Qed.

Lemma ok_disk_nonneg w A : system_ok w A → 0 ≤ disk_used (sys w).
Proof using. clear Hrw now rw.
  intros H. rewrite (ok_disk _ _ H). apply account_nonneg. intros i b Hi.
  destruct (ok_contents _ _ H i b Hi) as (c & _ & Hb). apply blob_ok_alloc in Hb. unfold disk_of. case_match; lia.
Qed.

(** Two systems that differ in their queues and in the time. *)
Definition same_limits (s s' : ZBlobSystem) : Prop :=
  zs_blobs s' = zs_blobs s ∧ mem_max s' = mem_max s ∧ disk_max s' = disk_max s ∧ hiwat s' = hiwat s ∧
  lowat s' = lowat s.

(** Changing one blob together with the accounts. *)
Lemma system_ok_put w A i b b' c' s' :
  system_ok w A → objs w !! i = Some b → blob_ok b' c' → same_limits (sys w) s' →
  mem_used s' = mem_used (sys w) - mem_of b + mem_of b' →
  disk_used s' = disk_used (sys w) - disk_of b + disk_of b' → mem_used s' ≤ mem_max (sys w) →
  system_ok (mkBlobs s' (<[i := b']> (objs w))) (<[i := c']> A).
Proof using. clear Hrw now rw.
  intros [H1 H2 H3 H4 H5 H6 H7 H8] Hi Hb' (E1 & E2 & E3 & E4 & E5) Hmem Hdisk Hle.
  assert (Hin : i ∈ zs_blobs (sys w)) by (apply H2; eauto).
  split; cbn; rewrite ?E1, ?E2, ?E3, ?E4; try done; try lia.
  - intros j. destruct (decide (j = i)) as [->|]; [by rewrite lookup_insert_eq; split; eauto|].
    rewrite lookup_insert_ne by done. apply H2.
  - intros j bj. destruct (decide (j = i)) as [->|].
    + rewrite !lookup_insert_eq. intros [= <-]. eauto.
    + rewrite !lookup_insert_ne by done. apply H3.
  - rewrite (account_insert _ _ _ _ b) by done. lia.
  - rewrite (account_insert _ _ _ _ b) by done. lia.
Qed.

(** Changing what neither the contents nor the accounts depend on. *)
Lemma system_ok_same w A i b b' s' :
  system_ok w A → objs w !! i = Some b → storage b' = storage b → same_limits (sys w) s' →
  mem_used s' = mem_used (sys w) → disk_used s' = disk_used (sys w) →
  system_ok (mkBlobs s' (<[i := b']> (objs w))) A.
Proof using. clear Hrw now rw.
  intros H Hi Hst Hl Hm Hd. destruct (ok_contents _ _ H i b Hi) as (c & Hc & Hb).
  rewrite <- (insert_id A i c Hc).
  assert (mem_of b' = mem_of b ∧ disk_of b' = disk_of b) as [E1 E2].
  { unfold storage in Hst. injection Hst as _ Ea Ef _ _. unfold mem_of, disk_of. by rewrite Ea, Ef. }
  eapply system_ok_put; try done; [by eapply blob_ok_storage|lia|lia|].
  rewrite Hm. apply (ok_bound _ _ H).
Qed.

(** ** Allocating *)

(** What no storage operation touches. *)
Definition kept_fields (b : ZBlob) : Z * bool * option (Z * Z) * bool :=
  (zb_ref_cnt b, mtx_locked b, mapped b, storage_locked b).

Lemma swap_out_ok w i b c :
  objs w !! i = Some b → blob_ok b c → is_in_file b = false → storage_locked b = false →
  ∃ b', z_blob_swap_out rw now w i = Done (account_swap (put_blob i b' w) (alloc_size b) true) ∧
    blob_ok b' c ∧ is_in_file b' = true ∧ alloc_size b' = alloc_size b ∧ alloc_req b' = alloc_req b ∧
    kept_fields b' = kept_fields b.
Proof.
  intros Hi Hb Hf Hl. pose proof Hb as (Hs & Ha & Hio & Hc). rewrite Hf in Hc. destruct Hc as [Hfile Hd].
  unfold z_blob_swap_out, get_blob. rewrite Hi, Done_bind, Hl, Hf. cbn [negb andb].
  rewrite write_loop_ok by (unfold loop_fuel; lia). rewrite Done_bind. eexists. split; [done|].
  split; [|done]. unfold blob_ok. cbn. split; [done|]. split; [lia|]. split; [done|].
  assert (Hw : (if decide (zb_size b = 0) then zb_file b
                else f_write (zb_file b) 0 (take (Z.to_nat (zb_size b)) (zb_data b))) = c).
  { rewrite Hfile, Hd, Hs, Nat2Z.id, take_app_length. case_decide as H0.
    - destruct c; [done|cbn [length] in H0; lia].
    - unfold f_write. change (Z.to_nat 0) with 0%nat. by rewrite take_0, drop_nil, app_nil_r. }
  rewrite Hw. rewrite (zeros_nil (zlen c - zlen c)), app_nil_r by lia. split_and!; done || lia.
Qed.

(** Whether a request for [al] bytes is granted at once. *)
Definition fits (w : blobs) (b : ZBlob) (al : Z) : Prop :=
  is_in_file b = true ∨ al - alloc_size b ≤ mem_max (sys w) - mem_used (sys w) ∨
  (storage_locked b = false ∧ al ≤ disk_max (sys w) - disk_used (sys w)).

Lemma same_limits_used s d m : same_limits s (with_used d m s).
Proof. done. Qed.

Lemma check_alloc_ok w A i b c al :
  system_ok w A → objs w !! i = Some b → blob_ok b c → alloc_req b = al - alloc_size b → 0 ≤ al < 2 ^ 62 →
  fits w b al →
  ∃ b' s', z_blob_check_alloc rw now w i = Done (true, mkBlobs s' (<[i := b']> (objs w))) ∧
    same_limits (sys w) s' ∧ blob_ok b' c ∧ alloc_size b' = alloc_size b ∧ kept_fields b' = kept_fields b ∧
    mem_used s' = mem_used (sys w) - mem_of b + (if is_in_file b' then 0 else al) ∧
    disk_used s' = disk_used (sys w) - disk_of b + (if is_in_file b' then al else 0) ∧
    mem_used s' ≤ mem_max (sys w).
Proof.
  intros Hok Hi Hb Hreq Hal Hfit. pose proof (ok_mem_nonneg _ _ Hok) as Hm0.
  pose proof (ok_bound _ _ Hok) as Hmb. pose proof (ok_disk_bound _ _ Hok) as Hdb.
  pose proof (blob_ok_alloc _ _ Hb) as Ha. unfold z_blob_check_alloc, get_blob. rewrite Hi, Done_bind, Hreq.
  assert (Hmof : is_in_file b = false → alloc_size b ≤ mem_used (sys w)).
  { intros Hf. replace (alloc_size b) with (mem_of b) by (unfold mem_of; by rewrite Hf).
    by apply (mem_of_le w A i b). }
  assert (Hpush : ∀ s m, ∃ s', same_limits s s' ∧ mem_used s' = mem_used s ∧ disk_used s' = disk_used s ∧
    (if al - alloc_size b <? 0 then push_request Z_BLOB_MEM_FREED (mkBlobs s m) else mkBlobs s m) = mkBlobs s' m).
  { intros s m. destruct (_ <? 0); [|by exists s].
    by exists (with_queue (req_queue s ++ [Z_BLOB_MEM_FREED]) (waiting_list s) s). }
  assert (Hsame : ∀ d m, mem_used (sys w) - mem_of b + (if is_in_file b then 0 else al) = m → m ≤ mem_max (sys w) →
    disk_used (sys w) - disk_of b + (if is_in_file b then al else 0) = d →
    ∃ b' s', (if al - alloc_size b <? 0 then push_request Z_BLOB_MEM_FREED (mkBlobs (with_used d m (sys w)) (objs w))
      else mkBlobs (with_used d m (sys w)) (objs w)) = mkBlobs s' (<[i := b']> (objs w)) ∧
    same_limits (sys w) s' ∧ blob_ok b' c ∧ alloc_size b' = alloc_size b ∧ kept_fields b' = kept_fields b ∧
    mem_used s' = mem_used (sys w) - mem_of b + (if is_in_file b' then 0 else al) ∧
    disk_used s' = disk_used (sys w) - disk_of b + (if is_in_file b' then al else 0) ∧
    mem_used s' ≤ mem_max (sys w)).
  { intros d m Hm Hle Hd. destruct (Hpush (with_used d m (sys w)) (objs w)) as (s' & Hl & E1 & E2 & ->).
    exists b, s'. rewrite (insert_id (objs w) i b Hi), E1, E2. cbn. split_and!; try done; apply Hl. }
  destruct (is_in_file b) eqn:Hf; [|destruct ((al - alloc_size b <? 0) || _) eqn:Hcond].
  - rewrite Done_bind. unfold set_sys.
    destruct (Hsame (disk_used (sys w) + (al - alloc_size b)) (mem_used (sys w))) as (b' & s' & -> & H);
      [unfold mem_of; rewrite Hf; lia|lia|unfold disk_of; rewrite Hf; lia|]. by exists b', s'.
  - rewrite Done_bind. unfold set_sys. specialize (Hmof eq_refl).
    assert (Hle : mem_used (sys w) + (al - alloc_size b) ≤ mem_max (sys w)).
    { destruct (decide (al - alloc_size b < 0)); [lia|]. rewrite !u64_small in Hcond by lia. lia. }
    rewrite (u64_small (mem_used (sys w) + _)) by lia.
    destruct (Hsame (disk_used (sys w)) (mem_used (sys w) + (al - alloc_size b))) as (b' & s' & -> & H);
      [unfold mem_of; rewrite Hf; lia|done|unfold disk_of; rewrite Hf; lia|]. by exists b', s'.
  - apply orb_false_elim in Hcond as [Hc1 Hc2]. rewrite !u64_small in Hc2 by lia.
    destruct Hfit as [?|[?|[Hsl Hdisk]]]; [congruence|lia|].
    rewrite Hsl. cbn [negb andb].
    pose proof (ok_disk_nonneg _ _ Hok). rewrite (u64_small (disk_max (sys w) - _)) by lia.
    rewrite (u64_small (alloc_size b + _)) by lia. rewrite (proj2 (Z.leb_le _ _)) by lia.
    destruct (swap_out_ok w i b c Hi Hb Hf Hsl) as (b' & -> & Hb' & Hf' & Hal' & Hr' & Hk).
    rewrite !Done_bind, Hc1. unfold account_swap, set_sys, put_blob. cbn [sys objs disk_used mem_used with_used].
    eexists b', _. split; [reflexivity|]. specialize (Hmof eq_refl). cbn. rewrite Hf', u64_small by lia.
    unfold mem_of, disk_of. rewrite Hf. split_and!; done || lia.
Qed.

(** Changing the size of the storage, which was granted. *)
Definition resized (al : Z) (b : ZBlob) : ZBlob :=
  let b := if is_in_file b
           then with_storage (zb_size b) al true (f_truncate (zb_file b) al) (zb_data b) b
           else with_storage (zb_size b) al false (zb_file b) (f_truncate (zb_data b) al) b in
  if al <? zb_size b then with_size al b else b.

Lemma resized_ok al b c :
  blob_ok b c → 0 ≤ al < 2 ^ 62 → blob_ok (resized al b) (take (Z.to_nat al) c) ∧ alloc_size (resized al b) = al ∧
    is_in_file (resized al b) = is_in_file b.
Proof.
  intros (Hs & Ha & Hio & Hc) Hal. unfold resized.
  assert (Hlen : zlen (take (Z.to_nat al) c) = Z.min al (zlen c)) by (rewrite length_take; lia).
  assert (Hsz : ∀ b1, zb_size b1 = zlen c → zb_size (if al <? zlen c then with_size al b1 else b1) = zlen (take (Z.to_nat al) c)).
  { intros b1 Hb1. rewrite Hlen. destruct (al <? zlen c) eqn:E; cbn; lia. }
  cbv zeta. rewrite Hs. destruct (is_in_file b) eqn:Hf; cbn [zb_size with_storage].
  - destruct Hc as (Hd & Hfl & Hcf & Hfile).
    assert (Hft : f_truncate (zb_file b) al = take (Z.to_nat al) c ++ zeros (al - zlen (take (Z.to_nat al) c))).
    { rewrite Hfile. apply f_truncate_pad; lia. }
    assert (Hfl2 : zlen (f_truncate (zb_file b) al) = al).
    { rewrite Hft, length_app, Nat2Z.inj_add, zeros_length. lia. }
    split; [|by destruct (al <? zlen c)].
    split; [by apply Hsz|]. destruct (al <? zlen c); cbn; rewrite Hfl2; (split; [lia|]); (split; [lia|]); split_and!; done || lia.
  - destruct Hc as (Hfile & Hd).
    assert (Hft : f_truncate (zb_data b) al = take (Z.to_nat al) c ++ zeros (al - zlen (take (Z.to_nat al) c))).
    { rewrite Hd. apply f_truncate_pad; lia. }
    split; [|by destruct (al <? zlen c)].
    split; [by apply Hsz|]. destruct (al <? zlen c); cbn; (split; [lia|]); (split; [lia|]); done.
Qed.

(** z_blob_alloc when the space can be had. *)
Lemma alloc_ok w A i b c req :
  system_ok w A → objs w !! i = Some b → blob_ok b c → 0 ≤ req ≤ 2 ^ 61 →
  (∀ al, req_alloc_size b req = Done al → al ≠ alloc_size b → fits w b al) →
  returns (z_blob_alloc rw now w i req) (λ w', ∃ b' s', w' = mkBlobs s' (<[i := b']> (objs w)) ∧
    req_alloc_size b req = Done (alloc_size b') ∧ req ≤ alloc_size b' ∧
    blob_ok b' (take (Z.to_nat (alloc_size b')) c) ∧ kept_fields b' = kept_fields b ∧
    same_limits (sys w) s' ∧ system_ok w' (<[i := take (Z.to_nat (alloc_size b')) c]> A)).
Proof.
  intros Hok Hi Hb Hreq Hfit. pose proof (blob_ok_alloc _ _ Hb) as Ha. unfold z_blob_alloc.
  rewrite require_true, Done_bind by lia. unfold get_blob. rewrite Hi, Done_bind.
  destruct (req_alloc_size_ok b req Ha Hreq) as (al & Hal & Hle & _ & _). rewrite Hal, Done_bind.
  assert (Hid : w = mkBlobs (sys w) (<[i := b]> (objs w))) by (rewrite insert_id by done; by destruct w).
  destruct (al =? alloc_size b) eqn:E.
  - apply Z.eqb_eq in E as ->. exists b, (sys w). pose proof Hb as (_ & Hbl & _).
    rewrite firstn_all2 by lia. destruct (ok_contents _ _ Hok i b Hi) as (c' & Hc' & Hb').
    split_and!; try done; [lia|].
    rewrite Hid at 1. pose proof (ok_bound _ _ Hok). eapply system_ok_put; try done; lia.
  - apply Z.eqb_neq in E. unfold z_blob_alloc_request, get_blob. rewrite Hi, Done_bind.
    set (b1 := with_request _ _ b). set (w1 := put_blob i b1 w).
    assert (Hok1 : system_ok w1 A) by by eapply system_ok_same.
    destruct (check_alloc_ok w1 A i b1 c al Hok1) as (b2 & s2 & -> & Hl2 & Hb2 & Ha2 & Hk2 & Hm2 & Hd2 & Hle2);
      [cbn; by rewrite lookup_insert_eq|by eapply blob_ok_storage|done|lia|by apply Hfit|].
    rewrite !Done_bind. unfold z_blob_alloc_finish, get_blob. cbn [objs]. rewrite lookup_insert_eq, Done_bind.
    fold (resized al b2). destruct (resized_ok al b2 c Hb2 ltac:(lia)) as (Hb3 & Ha3 & Hf3).
    apply returns_ret. set (b3 := with_stat _ (resized al b2)).
    exists b3, s2. unfold w1, put_blob. cbn [sys objs]. rewrite !insert_insert_eq.
    change (alloc_size b3) with (alloc_size (resized al b2)). rewrite Ha3.
    assert (Hb3' : blob_ok b3 (take (Z.to_nat al) c)) by by eapply blob_ok_storage.
    assert (Hl3 : same_limits (sys w) s2) by exact Hl2.
    split; [done|]. split; [done|]. split; [lia|]. split; [done|]. split; [|split; [done|]].
    + unfold b3. transitivity (kept_fields b2); [|exact Hk2]. unfold resized. destruct (is_in_file b2), (al <? _); done.
    + eapply system_ok_put; [exact Hok|exact Hi|exact Hb3'|exact Hl3| | |exact Hle2].
      * rewrite Hm2. unfold mem_of at 3. change (is_in_file b3) with (is_in_file (resized al b2)).
        rewrite Hf3. change (alloc_size b3) with (alloc_size (resized al b2)). rewrite Ha3. done.
      * rewrite Hd2. unfold disk_of at 3. change (is_in_file b3) with (is_in_file (resized al b2)).
        rewrite Hf3. change (alloc_size b3) with (alloc_size (resized al b2)). rewrite Ha3. done.
Qed.

(** ** The operations *)

Lemma get_blob_some w i b : objs w !! i = Some b → get_blob w i = Done b.
Proof. unfold get_blob. by intros ->. Qed.

Lemma get_blob_insert s i b m : get_blob (mkBlobs s (<[i := b]> m)) i = Done b.
Proof. unfold get_blob. cbn. by rewrite lookup_insert_eq. Qed.

Lemma put_eq i b w : objs (put_blob i b w) !! i = Some b.
Proof. cbn. by rewrite lookup_insert_eq. Qed.

Lemma lock_free w i b t : objs w !! i = Some b → mtx_locked b = false →
  z_blob_lock w i t = Done (true, put_blob i (with_locked true b) w).
Proof. intros Hi Hl. unfold z_blob_lock. by rewrite (get_blob_some _ _ _ Hi), Done_bind, Hl. Qed.

Lemma unlock_ok w i b : z_blob_unlock (put_blob i b w) i = Done (put_blob i (with_locked false b) w).
Proof.
  unfold z_blob_unlock. rewrite (get_blob_some _ i b) by apply put_eq. rewrite Done_bind.
  unfold put_blob. cbn. by rewrite insert_insert_eq.
Qed.

Lemma contents_of w A i b c : system_ok w A → objs w !! i = Some b → A !! i = Some c → blob_ok b c.
Proof. intros H Hi Hc. destruct (ok_contents _ _ H i b Hi) as (c' & Hc' & Hb). congruence. Qed.

(** Writing. *)
Lemma add_copy_ok w A i b c pos l t :
  system_ok w A → objs w !! i = Some b → A !! i = Some c → mtx_locked b = false →
  0 ≤ pos → pos + zlen l ≤ IO_MAX → (l = [] → pos ≤ zlen c) →
  (∀ al, req_alloc_size b (pos + zlen l) = Done al → alloc_size b < pos + zlen l → fits w b al) →
  returns (z_blob_add_copy rw now w i pos l t) (λ '(n, w'), n = zlen l ∧ ∃ b' s',
    w' = mkBlobs s' (<[i := b']> (objs w)) ∧ kept_fields b' = kept_fields b ∧ same_limits (sys w) s' ∧
    (alloc_size b' = alloc_size b ∨ req_alloc_size b (pos + zlen l) = Done (alloc_size b')) ∧
    system_ok w' (<[i := f_write c pos l]> A)).
Proof.
  intros Hok Hi Hc Hun Hp Hl Hnil Hfit. pose proof (contents_of _ _ _ _ _ Hok Hi Hc) as Hb.
  unfold z_blob_add_copy. rewrite require_true, Done_bind by done. rewrite (lock_free _ _ _ _ Hi Hun), Done_bind.
  set (b1 := with_locked true b). set (w1 := put_blob i b1 w).
  assert (Hok1 : system_ok w1 A) by by eapply system_ok_same.
  rewrite (get_blob_some w1 i b1) by apply put_eq. rewrite Done_bind.
  (* the space *)
  apply returns_bind. eapply (returns_mono _ (λ w2, ∃ b2 s2, w2 = mkBlobs s2 (<[i := b2]> (objs w)) ∧
    blob_ok b2 c ∧ pos + zlen l ≤ alloc_size b2 ∧ kept_fields b2 = kept_fields b1 ∧ same_limits (sys w) s2 ∧
    (alloc_size b2 = alloc_size b ∨ req_alloc_size b (pos + zlen l) = Done (alloc_size b2)) ∧ system_ok w2 A)).
  { destruct (alloc_size b1 <? pos + zlen l) eqn:E.
    - eapply returns_mono; [apply (alloc_ok w1 A i b1 c (pos + zlen l) Hok1)|].
      + apply put_eq. + by eapply blob_ok_storage. + unfold IO_MAX in Hl. lia.
      + intros al Hal _. apply Hfit; [exact Hal|]. change (alloc_size b1) with (alloc_size b) in E. lia.
      + intros w2 (b2 & s2 & -> & Hal & Hle & Hb2 & Hk2 & Hl2 & Hok2). exists b2, s2.
        unfold w1, put_blob in *. cbn [objs sys] in *. rewrite insert_insert_eq in *.
        assert (Ht : take (Z.to_nat (alloc_size b2)) c = c).
        { apply firstn_all2. pose proof Hb as (_ & Hbl & _). change (alloc_size b1) with (alloc_size b) in E. lia. }
        rewrite Ht in *. rewrite (insert_id A i c Hc) in Hok2. split_and!; try done; try apply Hl2. by right.
    - exists b1, (sys w). split; [done|]. split; [by eapply blob_ok_storage|].
      split_and!; try done; [lia|by left]. }
  intros w2 (b2 & s2 & -> & Hb2 & Hle & Hk2 & Hl2 & Hal & Hok2).
  assert (Hi2 : objs (mkBlobs s2 (<[i:=b2]> (objs w))) !! i = Some b2) by (cbn; by rewrite lookup_insert_eq).
  rewrite (get_blob_some _ _ _ Hi2), Done_bind.
  destruct (blob_store_ok b2 c pos l Hb2 Hp Hle Hl Hnil) as (f & d & -> & Hst). rewrite Done_bind.
  set (b3 := if zb_size (with_storage _ _ _ f d b2) <? _ then _ else _). rewrite unlock_ok, Done_bind.
  apply returns_ret. split; [done|]. set (b4 := with_locked false _).
  exists b4, s2. unfold put_blob. cbn [sys objs]. rewrite insert_insert_eq.
  assert (Hs3 : storage b3 = (Z.max (zlen c) (pos + zlen l), alloc_size b2, is_in_file b2, f, d)).
  { unfold b3. pose proof Hb2 as (Hsz & _). cbn [zb_size with_storage]. rewrite Hsz.
    unfold storage. destruct (zlen c <? pos + zlen l) eqn:E; cbn; rewrite ?Hsz; do 4 f_equal; lia. }
  assert (Hb4 : blob_ok b4 (f_write c pos l)) by by apply Hst.
  split; [done|]. split; [|split; [done|split; [|]]].
  - transitivity (zb_ref_cnt b2, false, mapped b2, storage_locked b2).
    + unfold b4, b3. by destruct (_ <? _).
    + unfold kept_fields in *. injection Hk2 as E1 _ E3 E4. by rewrite E1, E3, E4, Hun.
  - assert (alloc_size b4 = alloc_size b2) as -> by (unfold b4, b3; by destruct (_ <? _)). done.
  - assert (alloc_size b4 = alloc_size b2 ∧ is_in_file b4 = is_in_file b2) as [Ea Ef]
      by (unfold b4, b3; by destruct (_ <? _)).
    rewrite <- (insert_insert_eq (objs w) i b4 b2).
    apply (system_ok_put _ A i b2 b4 (f_write c pos l) s2 Hok2 Hi2 Hb4); [done| | |].
    + unfold mem_of. rewrite Ea, Ef. cbn. lia.
    + unfold disk_of. rewrite Ea, Ef. cbn. lia.
    + apply (ok_bound _ _ Hok2).
Qed.

(** Reading. *)
Lemma get_copy_ok w A i b c pos n buf t :
  system_ok w A → objs w !! i = Some b → A !! i = Some c → mtx_locked b = false → 0 ≤ pos → 0 ≤ n ≤ zlen buf →
  let l := f_read c pos n in
  returns (z_blob_get_copy rw now w i pos buf n t) (λ '(rd, buf', w'),
    rd = zlen l ∧ buf' = l ++ drop (length l) buf ∧ ∃ b', w' = mkBlobs (sys w) (<[i := b']> (objs w)) ∧
    kept_fields b' = kept_fields b ∧ storage b' = storage b ∧ system_ok w' A).
Proof.
  intros Hok Hi Hc Hun Hp Hn l. pose proof (contents_of _ _ _ _ _ Hok Hi Hc) as Hb. pose proof Hb as (Hsz & _).
  assert (Hid : w = mkBlobs (sys w) (<[i := b]> (objs w))) by (rewrite insert_id by done; by destruct w).
  unfold z_blob_get_copy. rewrite require_true, Done_bind by done. rewrite (get_blob_some _ _ _ Hi), Done_bind, Hsz.
  destruct (pos <? zlen c) eqn:Epos.
  2: { assert (l = []) as ->.
       { unfold l, f_read. rewrite (skipn_all2 c) by lia. by rewrite take_nil. }
       apply returns_ret. split; [done|]. split; [done|]. exists b. split_and!; done. }
  rewrite (lock_free _ _ _ _ Hi Hun), Done_bind. set (n' := if _ <? n then _ else n).
  assert (Hn' : n' = zlen l ∧ f_read c pos n' = l).
  { unfold n', l, f_read. rewrite length_take, length_drop. destruct (zlen c - pos <? n) eqn:E; (split; [lia|]); [|done].
    rewrite !firstn_all2 by (rewrite length_drop; lia). done. }
  destruct Hn' as [Hn1 Hn2].
  assert (Hln : zlen l ≤ n ∧ pos + zlen l ≤ zlen c) by (unfold l, f_read; rewrite length_take, length_drop; lia).
  rewrite (get_blob_some (put_blob i (with_locked true b) w) i _ (put_eq _ _ _)), Done_bind.
  rewrite (blob_load_ok _ c pos n' buf) by (try lia; by eapply blob_ok_storage). rewrite Done_bind, unlock_ok, Done_bind.
  apply returns_ret. rewrite Hn2, Hn1, Nat2Z.id. split; [done|]. split; [done|].
  eexists. unfold put_blob. cbn [sys objs]. rewrite insert_insert_eq. split; [done|].
  split; [unfold kept_fields; cbn; by rewrite Hun|]. split; [done|]. by eapply system_ok_same.
Qed.

(** *** Moving blobs into memory *)

Lemma swap_in_one_ok w A i b c :
  system_ok w A → objs w !! i = Some b → A !! i = Some c → is_in_file b = true →
  mem_used (sys w) + alloc_size b ≤ hiwat (sys w) →
  ∃ b' s', swap_in_one rw now w i = Done (mkBlobs s' (<[i := b']> (objs w))) ∧ is_in_file b' = false ∧
    alloc_size b' = alloc_size b ∧ kept_fields b' = kept_fields b ∧ same_limits (sys w) s' ∧
    mem_used s' = mem_used (sys w) + alloc_size b ∧ system_ok (mkBlobs s' (<[i := b']> (objs w))) A.
Proof.
  intros Hok Hi Hc Hf Hle. pose proof (contents_of _ _ _ _ _ Hok Hi Hc) as Hb. pose proof (ok_marks _ _ Hok) as Hmk.
  pose proof (ok_bound _ _ Hok) as Hmb. pose proof (ok_mem_nonneg _ _ Hok) as Hm0. pose proof (blob_ok_alloc _ _ Hb) as Ha.
  pose proof Hb as (Hs & Hal & Hio & Hcc). rewrite Hf in Hcc. destruct Hcc as (Hd & Hfl & Hcf & Hfile).
  unfold swap_in_one. rewrite (get_blob_some _ _ _ Hi), Done_bind.
  rewrite read_loop_ok by (rewrite ?zeros_length, ?Hs; unfold loop_fuel; lia). rewrite Done_bind.
  unfold account_swap, put_blob, set_sys. cbn [sys objs].
  eexists _, _. split; [reflexivity|]. split_and!; try done; [cbn; rewrite u64_small by lia; done|].
  rewrite <- (insert_id A i c Hc) at 1. eapply system_ok_put; try done.
  - split; [done|]. split; [done|]. split; [done|]. cbn. split; [done|].
    rewrite Hs, Nat2Z.id, drop_zeros. f_equal. unfold f_read. change (Z.to_nat 0) with 0%nat.
    rewrite drop_0, Nat2Z.id, Hfile. by rewrite take_app_length.
  - cbn. rewrite u64_small by lia. unfold mem_of. rewrite Hf. cbn. lia.
  - cbn. unfold disk_of. rewrite Hf. cbn. lia.
  - cbn. rewrite u64_small by lia. lia.
Qed.

Lemma best_loop_ok w sp l : ∀ best d,
  (∀ i, i ∈ l → is_Some (objs w !! i)) →
  (∀ i, best = Some i → ∃ b, objs w !! i = Some b ∧ swap_in_candidate sp b = true) →
  ∃ best', best_loop now w sp l best d = Done best' ∧
    ∀ i, best' = Some i → ∃ b, objs w !! i = Some b ∧ swap_in_candidate sp b = true.
Proof.
  induction l as [|j l IH]; intros best d Hl Hbest; [by exists best|]. cbn [best_loop].
  destruct (Hl j ltac:(by left)) as [b Hb]. rewrite (get_blob_some _ _ _ Hb), Done_bind.
  destruct (swap_in_candidate sp b && _) eqn:E; apply IH; try (intros i Hi; apply Hl; by right); [|done].
  apply andb_true_iff in E as [E _]. intros i [= <-]. eauto.
Qed.

(** The blobs that are in their files. *)
Definition in_files (m : gmap nat ZBlob) (l : list nat) : Z := account (λ b, if is_in_file b then 1 else 0) m l.

(** What swapping may change of a system. *)
Definition moved (w w' : blobs) : Prop :=
  same_limits (sys w) (sys w') ∧
  ∀ i b, objs w !! i = Some b → ∃ b', objs w' !! i = Some b' ∧ kept_fields b' = kept_fields b ∧ alloc_size b' = alloc_size b.

Lemma moved_refl w : moved w w.
Proof. split; [done|]. eauto. Qed.

Lemma moved_trans w1 w2 w3 : moved w1 w2 → moved w2 w3 → moved w1 w3.
Proof.
  intros [(E1 & E2 & E3 & E4 & E5) H1] [(F1 & F2 & F3 & F4 & F5) H2]. split; [by split_and!; etransitivity|].
  intros i b Hi. destruct (H1 i b Hi) as (b' & Hi' & Hk & Ha). destruct (H2 i b' Hi') as (b'' & ? & Hk' & Ha').
  exists b''. split_and!; [done|by etransitivity|by etransitivity].
Qed.

Lemma swap_in_loop_ok fuel : ∀ w A,
  system_ok w A → in_files (objs w) (zs_blobs (sys w)) < Z.of_nat fuel →
  returns (swap_in_loop rw now fuel w) (λ w', system_ok w' A ∧ moved w w' ∧
    mem_used (sys w') ≤ Z.max (mem_used (sys w)) (hiwat (sys w))).
Proof.
  assert (Hnn : ∀ m l, 0 ≤ in_files m l) by (intros; apply account_nonneg; intros ? b _; by destruct (is_in_file b)).
  induction fuel as [|fuel IH]; intros w A Hok Hf; [specialize (Hnn (objs w) (zs_blobs (sys w))); lia|].
  cbn [swap_in_loop].
  destruct (best_loop_ok w (hiwat (sys w) - mem_used (sys w)) (zs_blobs (sys w)) None (-1)) as (best & -> & Hbest);
    [intros i Hi; by apply (ok_registered _ _ Hok)|done|]. rewrite Done_bind.
  destruct best as [i|]; [|split; [done|split; [apply moved_refl|lia]]].
  destruct (Hbest i eq_refl) as (b & Hi & Hcand). unfold swap_in_candidate in Hcand.
  apply andb_true_iff in Hcand as [Hcand Hsz]. apply andb_true_iff in Hcand as [_ Hfile].
  destruct (ok_contents _ _ Hok i b Hi) as (c & Hc & Hb).
  destruct (swap_in_one_ok w A i b c Hok Hi Hc Hfile ltac:(lia)) as (b' & s' & -> & Hf' & Ha' & Hk' & Hl' & Hm' & Hok').
  rewrite Done_bind. eapply returns_mono; [apply (IH _ A Hok')|].
  - cbn [objs sys]. destruct Hl' as (-> & _). unfold in_files in *.
    rewrite (account_insert _ _ _ i b) by (done || apply (ok_nodup _ _ Hok) || (apply (ok_registered _ _ Hok); eauto)).
    rewrite Hf', Hfile. lia.
  - intros w' (Hok2 & Hmv & Hle). split; [done|]. split.
    + eapply moved_trans; [|exact Hmv]. split; [done|]. intros j bj Hj. cbn. destruct (decide (j = i)) as [->|].
      * assert (bj = b) as -> by congruence. rewrite lookup_insert_eq. by exists b'.
      * rewrite lookup_insert_ne by done. eauto.
    + cbn [sys] in Hle. destruct Hl' as (_ & _ & _ & Hh & _). rewrite Hh, Hm' in Hle. lia.
Qed.

Lemma account_bound f K m l : 0 ≤ K → (∀ i b, m !! i = Some b → f b ≤ K) → account f m l ≤ zlen l * K.
Proof using. clear Hrw now rw.
  intros HK Hf. induction l as [|i l IH]; [cbn; lia|]. rewrite account_cons. cbn [length].
  destruct (m !! i) as [b|] eqn:Hi; [specialize (Hf i b Hi)|]; lia.
Qed.

Lemma swap_in_ok w A :
  system_ok w A →
  returns (z_blob_system_swap_in rw now w) (λ w', system_ok w' A ∧ moved w w' ∧
    mem_used (sys w') ≤ Z.max (mem_used (sys w)) (hiwat (sys w))).
Proof.
  intros Hok. unfold z_blob_system_swap_in. destruct (_ || _).
  { apply returns_ret. split; [done|]. split; [apply moved_refl|lia]. }
  apply swap_in_loop_ok; [done|]. unfold in_files.
  pose proof (account_bound (λ b, if is_in_file b then 1 else 0) 1 (objs w) (zs_blobs (sys w))) as Hb.
  assert (∀ i b, objs w !! i = Some b → (if is_in_file b then 1 else 0) ≤ 1) as H1
    by (intros ? b _; by destruct (is_in_file b)).
  specialize (Hb ltac:(lia) H1). lia.
Qed.

(** ** Sessions *)

Inductive blob_op : Set := OpWrite (i : nat) (pos : Z) (l : list Z) | OpRead (i : nat) (pos n : Z) | OpSwapIn.

Definition run_op (w : blobs) (op : blob_op) : outcome (list Z * blobs) :=
  match op with
  | OpWrite i pos l => '(n, w) ← z_blob_add_copy rw now w i pos l (-1); Done ([n], w)
  | OpRead i pos n => '(rd, buf, w) ← z_blob_get_copy rw now w i pos (zeros n) n (-1); Done (take (Z.to_nat rd) buf, w)
  | OpSwapIn => w ← z_blob_system_swap_in rw now w; Done ([], w)
  end.

Fixpoint run_ops (w : blobs) (ops : list blob_op) : outcome (list (list Z) * blobs) :=
  match ops with
  | [] => Done ([], w)
  | op :: ops => '(out, w) ← run_op w op; '(outs, w) ← run_ops w ops; Done (out :: outs, w)
  end.

(** The specification: every blob is an array of its own. *)
Definition spec_op (A : gmap nat (list Z)) (op : blob_op) : list Z * gmap nat (list Z) :=
  match op with
  | OpWrite i pos l => ([zlen l], <[i := f_write (default [] (A !! i)) pos l]> A)
  | OpRead i pos n => (f_read (default [] (A !! i)) pos n, A)
  | OpSwapIn => ([], A)
  end.

Fixpoint spec_ops (A : gmap nat (list Z)) (ops : list blob_op) : list (list Z) * gmap nat (list Z) :=
  match ops with
  | [] => ([], A)
  | op :: ops => let '(out, A) := spec_op A op in let '(outs, A) := spec_ops A ops in (out :: outs, A)
  end.

(** A system in which no blob is locked and all blobs together, up to the size [cap] each,
    fit into memory, or into the files. *)
Record roomy (cap : Z) (w : blobs) : Prop := {
  roomy_cap : 0 < cap ≤ IO_MAX;
  roomy_blobs i b : objs w !! i = Some b → mtx_locked b = false ∧ alloc_size b ≤ 2 * cap;
  roomy_space : zlen (zs_blobs (sys w)) * (2 * cap) ≤ mem_max (sys w) ∨
    zlen (zs_blobs (sys w)) * (2 * cap) ≤ disk_max (sys w) ∧
    ∀ i b, objs w !! i = Some b → storage_locked b = false
}.

(** The sessions: writes stay in the first [cap] bytes, and an empty one is not behind the
    end of the array. *)
Definition op_in (cap : Z) (l : list nat) (A : gmap nat (list Z)) (op : blob_op) : Prop :=
  match op with
  | OpWrite i pos data =>
      i ∈ l ∧ 0 ≤ pos ∧ pos + zlen data ≤ cap ∧ (data = [] → pos ≤ zlen (default [] (A !! i)))
  | OpRead i pos n => i ∈ l ∧ 0 ≤ pos ∧ 0 ≤ n
  | OpSwapIn => True
  end.

Fixpoint ops_in (cap : Z) (l : list nat) (A : gmap nat (list Z)) (ops : list blob_op) : Prop :=
  match ops with
  | [] => True
  | op :: ops => op_in cap l A op ∧ ops_in cap l (snd (spec_op A op)) ops
  end.

Lemma mem_of_memory b : is_in_file b = false → mem_of b = alloc_size b.
Proof. unfold mem_of. by intros ->. Qed.
Lemma disk_of_memory b : is_in_file b = false → disk_of b = 0.
Proof. unfold disk_of. by intros ->. Qed.

Lemma roomy_fits cap w A i b al :
  roomy cap w → system_ok w A → objs w !! i = Some b → 0 ≤ al ≤ 2 * cap → fits w b al.
Proof.
  intros [Hcap Hbs Hsp] Hok Hi Hal. unfold fits. destruct (is_in_file b) eqn:Hf; [by left|right].
  assert (Hin : i ∈ zs_blobs (sys w)) by (apply (ok_registered _ _ Hok); eauto).
  destruct Hsp as [Hsp|[Hsp Hsl]]; [left|right; split; [by eapply Hsl|]].
  - pose proof (account_bound mem_of (2 * cap) (<[i := with_storage 0 al false [] [] b]> (objs w))
      (zs_blobs (sys w)) ltac:(lia)) as Hb.
    rewrite (account_insert _ _ _ i b) in Hb by (done || apply (ok_nodup _ _ Hok)). rewrite <- (ok_mem _ _ Hok) in Hb.
    rewrite (mem_of_memory b) in Hb by done. change (mem_of (with_storage 0 al false [] [] b)) with al in Hb.
    enough (∀ j bj,
      <[i := with_storage 0 al false [] [] b]> (objs w) !! j = Some bj → mem_of bj ≤ 2 * cap) as H by (specialize (Hb H); lia).
    intros j bj. destruct (decide (j = i)) as [->|]; [rewrite lookup_insert_eq|rewrite lookup_insert_ne by done].
    + intros [= <-]. cbn. lia.
    + intros Hj. destruct (Hbs j bj Hj) as [_ ?]. unfold mem_of. case_match; lia.
  - pose proof (account_bound disk_of (2 * cap) (<[i := with_storage 0 al true [] [] b]> (objs w))
      (zs_blobs (sys w)) ltac:(lia)) as Hb.
    rewrite (account_insert _ _ _ i b) in Hb by (done || apply (ok_nodup _ _ Hok)). rewrite <- (ok_disk _ _ Hok) in Hb.
    rewrite (disk_of_memory b) in Hb by done. change (disk_of (with_storage 0 al true [] [] b)) with al in Hb.
    enough (∀ j bj,
      <[i := with_storage 0 al true [] [] b]> (objs w) !! j = Some bj → disk_of bj ≤ 2 * cap) as H by (specialize (Hb H); lia).
    intros j bj. destruct (decide (j = i)) as [->|]; [rewrite lookup_insert_eq|rewrite lookup_insert_ne by done].
    + intros [= <-]. cbn. lia.
    + intros Hj. destruct (Hbs j bj Hj) as [_ ?]. unfold disk_of. case_match; lia.
Qed.

(** Changing one blob keeps the room. *)
Lemma roomy_put cap w i b b' s' :
  roomy cap w → objs w !! i = Some b → kept_fields b' = kept_fields b → alloc_size b' ≤ 2 * cap →
  same_limits (sys w) s' → roomy cap (mkBlobs s' (<[i := b']> (objs w))).
Proof.
  intros [Hcap Hbs Hsp] Hi Hk Ha (E1 & E2 & E3 & _). unfold kept_fields in Hk. injection Hk as _ El _ Es. split.
  - done.
  - intros j bj. cbn. destruct (decide (j = i)) as [->|]; [rewrite lookup_insert_eq|rewrite lookup_insert_ne by done; apply Hbs].
    intros [= <-]. rewrite El. split; [by eapply Hbs|done].
  - cbn. rewrite E1, E2, E3. destruct Hsp as [?|[? Hsl]]; [by left|right]. split; [done|]. intros j bj.
    destruct (decide (j = i)) as [->|]; [rewrite lookup_insert_eq|rewrite lookup_insert_ne by done; apply Hsl].
    intros [= <-]. rewrite Es. by eapply Hsl.
Qed.

Lemma roomy_moved cap w w' A : roomy cap w → moved w w' → system_ok w A → system_ok w' A → roomy cap w'.
Proof.
  intros [Hcap Hbs Hsp] [(E1 & E2 & E3 & _) Hmv] Hok Hok'.
  assert (Hback : ∀ i b', objs w' !! i = Some b' → ∃ b, objs w !! i = Some b ∧ kept_fields b' = kept_fields b ∧
    alloc_size b' = alloc_size b).
  { intros i b' Hi. assert (is_Some (objs w !! i)) as [b Hb].
    { apply (ok_registered _ _ Hok). rewrite <- E1. apply (ok_registered _ _ Hok'). eauto. }
    destruct (Hmv i b Hb) as (b2 & Hb2 & Hk & Ha). exists b.
    assert (b2 = b') as -> by congruence. done. }
  split; [done|..].
  - intros i b' Hi. destruct (Hback i b' Hi) as (b & Hb & Hk & ->). unfold kept_fields in Hk.
    injection Hk as _ -> _ _. by eapply Hbs.
  - rewrite E1, E2, E3. destruct Hsp as [?|[? Hsl]]; [by left|right]. split; [done|].
    intros i b' Hi. destruct (Hback i b' Hi) as (b & Hb & Hk & _). unfold kept_fields in Hk.
    injection Hk as _ _ _ ->. by eapply Hsl.
Qed.

(** Writing and reading in a roomy system. *)
Lemma write_roomy cap w A i pos l t :
  system_ok w A → roomy cap w → i ∈ zs_blobs (sys w) → 0 ≤ pos → pos + zlen l ≤ cap →
  (l = [] → pos ≤ zlen (default [] (A !! i))) →
  returns (z_blob_add_copy rw now w i pos l t) (λ '(n, w'), n = zlen l ∧
    system_ok w' (<[i := f_write (default [] (A !! i)) pos l]> A) ∧ roomy cap w' ∧ zs_blobs (sys w') = zs_blobs (sys w)).
Proof.
  intros Hok Hroom Hin Hp Hl Hne. apply (ok_registered _ _ Hok) in Hin as [b Hi].
  destruct (ok_contents _ _ Hok i b Hi) as (c & Hc & Hb). rewrite Hc in *. change (default [] (Some c)) with c in *.
  destruct (roomy_blobs _ _ Hroom i b Hi) as [Hun Ha]. pose proof (roomy_cap _ _ Hroom) as Hcap.
  pose proof (blob_ok_alloc _ _ Hb) as Ha'.
  assert (Hbig : ∀ al, req_alloc_size b (pos + zlen l) = Done al → 0 ≤ al ≤ 2 * cap).
  { intros al Hal. destruct (req_alloc_size_ok b (pos + zlen l)) as (al' & Hal' & ? & ? & _); [done|unfold IO_MAX in Hcap; lia|].
    rewrite Hal in Hal'. simplify_eq. lia. }
  eapply returns_mono; [apply (add_copy_ok w A i b c pos l t); try done; try lia|].
  { intros al Hal _. eapply roomy_fits; try done. by apply Hbig. }
  intros [n w'] (-> & b' & s' & -> & Hk & Hlim & Hal & Hok'). split; [done|]. split; [done|]. split; [|apply Hlim].
  eapply roomy_put; try done. destruct Hal as [->|Hal]; [done|]. by apply Hbig.
Qed.

Lemma read_roomy cap w A i pos n buf t :
  system_ok w A → roomy cap w → i ∈ zs_blobs (sys w) → 0 ≤ pos → 0 ≤ n ≤ zlen buf →
  let l := f_read (default [] (A !! i)) pos n in
  returns (z_blob_get_copy rw now w i pos buf n t) (λ '(rd, buf', w'), rd = zlen l ∧ buf' = l ++ drop (length l) buf ∧
    system_ok w' A ∧ roomy cap w' ∧ zs_blobs (sys w') = zs_blobs (sys w)).
Proof.
  intros Hok Hroom Hin Hp Hn l. apply (ok_registered _ _ Hok) in Hin as [b Hi].
  destruct (ok_contents _ _ Hok i b Hi) as (c & Hc & Hb). subst l. rewrite Hc. cbn [default].
  destruct (roomy_blobs _ _ Hroom i b Hi) as [Hun Ha].
  eapply returns_mono; [by apply (get_copy_ok w A i b c pos n buf t)|].
  intros [[rd buf'] w'] (-> & -> & b' & -> & Hk & Hst & Hok'). split_and!; try done.
  eapply roomy_put; try done. unfold storage in Hst. injection Hst as _ -> _ _ _. done.
Qed.

Lemma run_op_ok cap w A op :
  system_ok w A → roomy cap w → op_in cap (zs_blobs (sys w)) A op →
  returns (run_op w op) (λ '(out, w'), out = fst (spec_op A op) ∧ system_ok w' (snd (spec_op A op)) ∧
    roomy cap w' ∧ zs_blobs (sys w') = zs_blobs (sys w)).
Proof.
  intros Hok Hroom Hop. destruct op as [i pos l|i pos n|]; cbn [run_op spec_op fst snd]; apply returns_bind.
  - destruct Hop as (Hin & Hp & Hl & Hne). eapply returns_mono; [by apply (write_roomy cap w A)|].
    intros [n w'] (-> & Hrest). by apply returns_ret.
  - destruct Hop as (Hin & Hp & Hn).
    eapply returns_mono; [apply (read_roomy cap w A); try done; rewrite zeros_length; lia|].
    intros [[rd buf] w'] (-> & -> & Hrest). apply returns_ret. by rewrite Nat2Z.id, take_app_length.
  - eapply returns_mono; [by apply swap_in_ok|]. intros w' (Hok' & Hmv & _).
    split; [done|]. split; [done|]. split; [by eapply roomy_moved|]. by destruct Hmv as [(-> & _) _].
Qed.

Lemma run_ops_ok cap ops : ∀ w A,
  system_ok w A → roomy cap w → ops_in cap (zs_blobs (sys w)) A ops →
  returns (run_ops w ops) (λ '(outs, w'), outs = fst (spec_ops A ops) ∧ system_ok w' (snd (spec_ops A ops)) ∧
    roomy cap w').
Proof.
  induction ops as [|op ops IH]; intros w A Hok Hroom Hops; [done|].
  destruct Hops as [Hop Hops]. cbn [run_ops spec_ops]. apply returns_bind.
  eapply returns_mono; [by eapply run_op_ok|]. intros [out w1] (-> & Hok1 & Hroom1 & Hl).
  destruct (spec_op A op) as [out A1]. cbn [fst snd] in *. apply returns_bind.
  eapply returns_mono; [apply (IH w1 A1); [done|done|by rewrite Hl]|].
  intros [outs w2] (-> & Hok2 & Hroom2). apply returns_ret. by destruct (spec_ops A1 ops).
Qed.

(** ** Truncating *)


(** ** Waiting for space *)

(** A blob that waits for space gets it when the management thread hears that memory was
    freed: its contents stay, it has the size that was asked for, and nobody waits any
    more. *)
Theorem waiting_served w A i b c al q :
  system_ok w A → objs w !! i = Some b → A !! i = Some c →
  req_queue (sys w) = Z_BLOB_MEM_FREED :: q → waiting_list (sys w) = [i] →
  alloc_req b = al - alloc_size b → alloc_size b ≤ al < 2 ^ 62 → fits w b al →
  disk_used (sys w) + al < hiwat (sys w) →
  returns ('(_, w') ← z_blob_system_serve rw now w; z_blob_alloc_resume now w' i al) (λ w',
    system_ok w' A ∧ waiting_list (sys w') = [] ∧ ∃ b', objs w' !! i = Some b' ∧ alloc_size b' = al).
Proof.
  intros Hok Hi Hc Hq Hw Hr Hal Hfit Hdisk. pose proof (contents_of _ _ _ _ _ Hok Hi Hc) as Hb.
  pose proof (blob_ok_alloc _ _ Hb) as Ha. unfold z_blob_system_serve. rewrite Hq. cbv zeta.
  set (w1 := set_sys (with_queue q (waiting_list (sys w)) (sys w)) w).
  assert (Hok1 : system_ok w1 A) by (destruct Hok; by split).
  assert (Hw1 : waiting_list (sys w1) = [i]) by exact Hw. rewrite Hw1. cbn [serve_waiting].
  destruct (check_alloc_ok w1 A i b c al Hok1 Hi Hb Hr ltac:(lia) Hfit)
    as (b2 & s2 & -> & Hl2 & Hb2 & Ha2 & Hk2 & Hm2 & Hd2 & Hle2).
  rewrite Done_bind, get_blob_insert, !Done_bind.
  unfold set_waiting, put_blob, set_sys, z_blob_system_swap_in. cbn [sys objs mem_used disk_used lowat hiwat with_queue].
  destruct Hl2 as (E1 & E2 & E3 & E4 & E5). pose proof (ok_disk_nonneg _ _ Hok).
  assert (Hdisk2 : disk_used s2 < hiwat s2).
  { rewrite Hd2, E4. change (disk_used (sys w1)) with (disk_used (sys w)). change (hiwat (sys w1)) with (hiwat (sys w)).
    unfold disk_of. destruct (is_in_file b), (is_in_file b2); lia. }
  rewrite (proj2 (Z.ltb_lt _ _) Hdisk2), orb_true_r, !Done_bind.
  rewrite insert_insert_eq. unfold z_blob_alloc_resume. rewrite get_blob_insert, Done_bind.
  rewrite require_true, Done_bind by done. unfold z_blob_alloc_finish. rewrite get_blob_insert, Done_bind. set (b3 := with_request (alloc_req b2) true b2). fold (resized al b3).
  assert (Hb3 : blob_ok b3 c) by by eapply blob_ok_storage.
  destruct (resized_ok al b3 c Hb3 ltac:(lia)) as (Hb4 & Ha4 & Hf4).
  assert (Ht : take (Z.to_nat al) c = c) by (apply firstn_all2; destruct Hb as (_ & ? & _); lia). rewrite Ht in Hb4.
  apply returns_ret. unfold put_blob. cbn [sys objs]. rewrite insert_insert_eq. set (b5 := with_stat _ _).
  assert (Hst : storage b5 = storage (resized al b3)) by done.
  split; [|split; [done|exists b5; rewrite lookup_insert_eq; done]].
  rewrite <- (insert_id A i c Hc). assert (Hb5 : blob_ok b5 c) by by eapply blob_ok_storage.
  assert (is_in_file b5 = is_in_file b2 ∧ alloc_size b5 = al) as [Ef Ea] by done.
  eapply (system_ok_put w A i b); [done|done|done|done|..]; cbn [mem_used disk_used with_queue].
  - rewrite Hm2. unfold mem_of. rewrite Ef, Ea. done.
  - rewrite Hd2. unfold disk_of. rewrite Ef, Ea. done.
  - done.
Qed.

(** ** Releasing *)

Lemma account_delete f m l i b :
  NoDup l → i ∈ l → m !! i = Some b →
  account f (delete i m) (filter (λ j, j ≠ i) l) = account f m l - f b.
Proof using. clear Hrw now rw.
  assert (Hno : ∀ l, i ∉ l → account f (delete i m) l = account f m l).
  { intros l' Hl'. apply account_ext. intros j Hj. apply lookup_delete_ne. intros ->. done. }
  assert (Hid : ∀ l : list nat, i ∉ l → filter (λ j, j ≠ i) l = l).
  { intros l'. induction l' as [|j l' IH]; intros Hl'; [done|]. apply not_elem_of_cons in Hl' as [? ?].
    rewrite filter_cons_True by done. by rewrite IH. }
  induction l as [|j l IH]; intros Hnd Hi Hb; [set_solver|]. apply NoDup_cons in Hnd as [Hj Hnd].
  destruct (decide (j = i)) as [->|Hji].
  - rewrite filter_cons_False by (intros Hn; by apply Hn). rewrite Hid, Hno, account_cons, Hb by done. lia.
  - rewrite filter_cons_True, !account_cons, lookup_delete_ne, IH by (done || set_solver). lia.
Qed.

(** Giving up the last reference of a blob removes it: its space is given back, whoever
    waits for memory is served, and the other blobs stay as they are. *)
Theorem unref_spec w A i b :
  system_ok w A → objs w !! i = Some b → zb_ref_cnt b = 1 →
  returns (z_blob_unref rw now w i) (λ w', system_ok w' (delete i A) ∧ objs w' = delete i (objs w) ∧
    mem_used (sys w') = mem_used (sys w) - mem_of b ∧ disk_used (sys w') = disk_used (sys w) - disk_of b ∧
    (0 < alloc_size b → req_queue (sys w') = req_queue (sys w) ++ [Z_BLOB_MEM_FREED])).
Proof using. clear Hrw.
  intros Hok Hi Hr. destruct (ok_contents _ _ Hok i b Hi) as (c & Hc & Hb). pose proof (blob_ok_alloc _ _ Hb) as Ha.
  pose proof (ok_mem_nonneg _ _ Hok). pose proof (ok_bound _ _ Hok). pose proof (mem_of_le _ _ _ _ Hok Hi) as Hmle.
  unfold z_blob_unref. rewrite (get_blob_some _ _ _ Hi), Done_bind, Hr. unfold z_refcount_dec.
  rewrite require_true, !Done_bind by done. change (1 - 1) with 0. rewrite bool_decide_true by done. cbv zeta.
  set (b1 := with_request (- alloc_size b) _ _). unfold put_blob, set_sys. cbn [sys objs].
  rewrite insert_insert_eq. set (w1 := mkBlobs _ (<[i := b1]> (objs w))).
  assert (Hw1 : objs w1 !! i = Some b1) by (cbn; by rewrite lookup_insert_eq).
  unfold z_blob_check_alloc. rewrite (get_blob_some _ _ _ Hw1), Done_bind. cbn [alloc_req b1 with_request].
  change (is_in_file b1) with (is_in_file b).
  assert (Hend : ∀ s', same_limits (sys w1) s' → req_queue s' = req_queue (sys w) →
    mem_used s' = mem_used (sys w) - mem_of b → disk_used s' = disk_used (sys w) - disk_of b →
    returns ('(_, w2) ← Done (true, if - alloc_size b <? 0 then push_request Z_BLOB_MEM_FREED (mkBlobs s' (objs w1))
                                  else mkBlobs s' (objs w1));
      Done (mkBlobs (sys w2) (delete i (objs w2)))) (λ w', system_ok w' (delete i A) ∧ objs w' = delete i (objs w) ∧
    mem_used (sys w') = mem_used (sys w) - mem_of b ∧ disk_used (sys w') = disk_used (sys w) - disk_of b ∧
    (0 < alloc_size b → req_queue (sys w') = req_queue (sys w) ++ [Z_BLOB_MEM_FREED]))).
  { intros s' (E1 & E2 & E3 & E4 & E5) Hq Hm Hd. rewrite Done_bind. apply returns_ret.
    change (zs_blobs (sys w1)) with (filter (λ j, j ≠ i) (zs_blobs (sys w))) in E1.
    assert (Hobj : ∀ s, objs (if - alloc_size b <? 0 then push_request Z_BLOB_MEM_FREED (mkBlobs s (objs w1))
      else mkBlobs s (objs w1)) = <[i := b1]> (objs w)) by (intros; by destruct (_ <? _)).
    rewrite Hobj, delete_insert_eq. cbn [objs sys].
    assert (Hsys : ∃ q, sys (if - alloc_size b <? 0 then push_request Z_BLOB_MEM_FREED (mkBlobs s' (objs w1))
      else mkBlobs s' (objs w1)) = with_queue q (waiting_list s') s' ∧
      (0 < alloc_size b → q = req_queue (sys w) ++ [Z_BLOB_MEM_FREED])).
    { destruct (- alloc_size b <? 0) eqn:E; [exists (req_queue s' ++ [Z_BLOB_MEM_FREED])|exists (req_queue s')];
        (split; [by destruct s'|]); [by rewrite Hq|lia]. }
    destruct Hsys as (q & -> & Hpush). split; [|done].
    assert (Hin : i ∈ zs_blobs (sys w)) by (apply (ok_registered _ _ Hok); eauto).
    split; cbn [sys objs zs_blobs mem_used disk_used mem_max disk_max hiwat with_queue]; rewrite ?E1, ?E2, ?E3, ?E4.
    - apply NoDup_filter, (ok_nodup _ _ Hok).
    - intros j. cbn. rewrite list_elem_of_filter. destruct (decide (j = i)) as [->|].
      + rewrite lookup_delete_eq. split; [by intros [? [=]]|intros [Hn _]; by destruct Hn].
      + rewrite lookup_delete_ne by done. rewrite (ok_registered _ _ Hok). tauto.
    - intros j bj Hj. apply lookup_delete_Some in Hj as [? Hj].
      rewrite lookup_delete_ne by done. by apply (ok_contents _ _ Hok).
    - rewrite Hm, (account_delete _ _ _ i b), <- (ok_mem _ _ Hok) by (done || apply (ok_nodup _ _ Hok)). done.
    - rewrite Hd, (account_delete _ _ _ i b), <- (ok_disk _ _ Hok) by (done || apply (ok_nodup _ _ Hok)). done.
    - rewrite Hm. change (mem_max (sys w1)) with (mem_max (sys w)). unfold mem_of. destruct (is_in_file b); lia.
    - apply (ok_disk_bound _ _ Hok).
    - apply (ok_marks _ _ Hok). }
  destruct (is_in_file b) eqn:Hf.
  - rewrite Done_bind. apply Hend; [done|done|..]; unfold mem_of, disk_of; rewrite Hf; cbn; lia.
  - assert (Hgrant : (- alloc_size b <? 0) || (u64 (- alloc_size b) <=? u64 (mem_max (sys w1) - mem_used (sys w1))) = true).
    { destruct (decide (alloc_size b = 0)) as [->|]; [|lia]. rewrite orb_true_iff. right. apply Z.leb_le.
      change (u64 (- 0)) with 0. cbn. rewrite u64_small by lia. lia. }
    rewrite Hgrant, Done_bind. unfold set_sys. unfold mem_of in Hmle. rewrite Hf in Hmle.
    apply Hend; [done|done|..]; unfold mem_of, disk_of; rewrite Hf; cbn; [rewrite u64_small by lia|]; lia.
Qed.

(** ** Streams *)

Lemma f_read_add c pos m n : 0 ≤ pos → 0 ≤ m ≤ n → f_read c pos n = f_read c pos m ++ f_read c (pos + m) (n - m).
Proof.
  intros Hp Hm. unfold f_read. rewrite (Z2Nat.inj_add pos m) by lia. rewrite <- drop_drop.
  replace (Z.to_nat n) with (Z.to_nat m + Z.to_nat (n - m))%nat by lia.
  by rewrite take_take_drop.
Qed.

Lemma f_read_length c pos n : 0 ≤ pos → 0 ≤ n → pos + n ≤ zlen c → zlen (f_read c pos n) = n.
Proof. intros. unfold f_read. rewrite length_take, length_drop. lia. Qed.

Lemma f_write_app c pos l1 l2 :
  0 ≤ pos → f_write (f_write c pos l1) (pos + zlen l1) l2 = f_write c pos (l1 ++ l2).
Proof.
  intros Hp. unfold f_write at 2 3. set (P := take (Z.to_nat pos) (c ++ zeros (pos - zlen c))).
  assert (HP : zlen P = pos).
  { unfold P. rewrite length_take, length_app. pose proof (zeros_length (pos - zlen c)). lia. }
  set (R := drop (Z.to_nat (pos + zlen l1)) c). unfold f_write.
  rewrite (zeros_nil (pos + zlen l1 - zlen (P ++ l1 ++ R))) by (rewrite !length_app; lia).
  rewrite app_nil_r, (app_assoc P l1 R), <- (app_assoc l1 l2), (app_assoc P l1).
  rewrite take_app_le, firstn_all2 by (rewrite length_app; lia). do 2 f_equal.
  rewrite drop_app_ge by (rewrite length_app; lia). unfold R. rewrite drop_drop, !length_app. f_equal. lia.
Qed.

Section streams.
Context {C : Type} `{ZStreamLaws C}.
Context (write_chunk : C → list Z → GIOStatus * C) (put : C → list Z).
Hypothesis write_chunk_normal : ∀ c l c', write_chunk c l = (G_IO_STATUS_NORMAL, c') → put c' = put c ++ l.

Lemma get_ptr_ok w i b c pos n t :
  objs w !! i = Some b → blob_ok b c → mtx_locked b = false → mapped b = None →
  0 ≤ pos → 0 < n → pos + n ≤ zlen c →
  ∃ b1, z_blob_get_ptr w i pos n t = Done (Some (f_read c pos n), put_blob i b1 w) ∧
    z_blob_free_ptr (put_blob i b1 w) i pos = Done w.
Proof.
  intros Hi (Hs & Ha & Hio & Hb) Hun Hmap Hp Hn Hl. unfold z_blob_get_ptr. rewrite require_true, Done_bind by done.
  rewrite (get_blob_some _ _ _ Hi), Done_bind, require_true, Done_bind by done.
  rewrite (proj2 (Z.ltb_lt _ _)), (proj2 (Z.ltb_lt 0 _)) by lia. cbn [andb].
  rewrite (lock_free _ _ _ _ Hi Hun), Done_bind. rewrite (get_blob_some _ _ _ (put_eq _ _ _)), Done_bind.
  cbn [zb_size with_locked is_in_file zb_file zb_data]. rewrite Hs, (proj2 (Z.ltb_ge _ _)) by lia.
  assert (Hload : load_range (if is_in_file b then zb_file b else zb_data b) pos n = Done (f_read c pos n)).
  { assert (∃ k, (if is_in_file b then zb_file b else zb_data b) = c ++ zeros k) as [k ->].
    { destruct (is_in_file b); [destruct Hb as (_ & _ & _ & ->)|destruct Hb as (_ & ->)]; eauto. }
    rewrite load_range_ok by (rewrite ?length_app; lia). unfold f_read.
    by rewrite drop_app_le, take_app_le by (rewrite ?length_drop; lia). }
  rewrite Hload, Done_bind. eexists. unfold put_blob. cbn [sys objs]. rewrite insert_insert_eq. split; [done|].
  unfold z_blob_free_ptr. rewrite get_blob_insert, Done_bind. cbn [mapped with_mapped].
  rewrite !require_true, !Done_bind by done. rewrite unlock_ok. unfold put_blob. cbn [sys objs].
  rewrite insert_insert_eq. assert (with_locked false (with_mapped None (with_mapped (Some (pos, n)) (with_locked true b))) = b)
    as -> by (destruct b; cbn in *; by subst).
  rewrite (insert_id _ i b Hi). by destruct w.
Qed.

Lemma to_stream_loop_ok w i b c t : ∀ fuel pos n cs,
  objs w !! i = Some b → blob_ok b c → mtx_locked b = false → mapped b = None →
  0 ≤ pos → 0 ≤ n → pos + n ≤ zlen c → (Z.to_nat n < fuel)%nat →
  returns (to_stream_loop write_chunk fuel w i cs pos (pos + n) t) (λ '(res, w', cs'), w' = w ∧
    (res = G_IO_STATUS_NORMAL ∧ put cs' = put cs ++ f_read c pos n ∨
     res = G_IO_STATUS_ERROR ∧ ∃ cs0 l, fst (write_chunk cs0 l) ≠ G_IO_STATUS_NORMAL)).
Proof.
  induction fuel as [|fuel IH]; intros pos n cs Hi Hb Hun Hmap Hp Hn Hl Hf; [lia|]. cbn [to_stream_loop].
  destruct (decide (n = 0)) as [->|Hn0].
  - rewrite Z.add_0_r, Z.ltb_irrefl. apply returns_ret. split; [done|]. left. split; [done|].
    unfold f_read. change (Z.to_nat 0) with 0%nat. by rewrite take_0, app_nil_r.
  - rewrite (proj2 (Z.ltb_lt _ _)) by lia. set (m := Z.min Z_BLOB_COPY_BUFSIZE (pos + n - pos)).
    assert (Hm : 0 < m ≤ n) by (unfold m, Z_BLOB_COPY_BUFSIZE; lia).
    destruct (get_ptr_ok w i b c pos m t) as (b1 & -> & Hfree); try done; [lia..|]. rewrite Done_bind.
    destruct (write_chunk cs (f_read c pos m)) as [res cs1] eqn:Hw. rewrite Hfree, Done_bind.
    case_decide as Hres.
    + subst res. rewrite f_read_length by lia. replace (pos + n) with (pos + m + (n - m)) by lia.
      eapply returns_mono; [apply IH; try done; lia|]. intros [[res' w'] cs'] (-> & Hcase). split; [done|].
      destruct Hcase as [[-> ->]|?]; [left|by right]. split; [done|].
      rewrite (write_chunk_normal _ _ _ Hw), <- app_assoc. by rewrite <- f_read_add by lia.
    + apply returns_ret. split; [done|]. right. split; [done|]. exists cs, (f_read c pos m). by rewrite Hw.
Qed.

(** z_blob_write_to_stream writes exactly the part that it was asked for, unless the stream
    refuses a chunk, and leaves the blob as it was. *)
Theorem write_to_stream_spec w A i b c pos n cs t fuel :
  system_ok w A → objs w !! i = Some b → A !! i = Some c → mtx_locked b = false → mapped b = None →
  0 ≤ pos → 0 ≤ n → pos + n ≤ zlen c → (Z.to_nat n < fuel)%nat →
  returns (z_blob_write_to_stream write_chunk fuel w i pos cs n t) (λ '(res, w', cs'), w' = w ∧
    (res = G_IO_STATUS_NORMAL ∧ put cs' = put cs ++ f_read c pos n ∨
     res = G_IO_STATUS_ERROR ∧ ∃ cs0 l, fst (write_chunk cs0 l) ≠ G_IO_STATUS_NORMAL)).
Proof.
  intros Hok Hi Hc Hun Hmap Hp Hn Hl Hf. unfold z_blob_write_to_stream. rewrite require_true, Done_bind by done.
  apply (to_stream_loop_ok w i b c t); try done. by apply (contents_of w A i).
Qed.

(** The contents after the bytes [l] came in. *)
Definition taken (c : list Z) (pos : Z) (l : list Z) : list Z := if decide (l = []) then c else f_write c pos l.

Lemma taken_app c pos l1 l2 :
  0 ≤ pos → l1 ≠ [] → taken (f_write c pos l1) (pos + zlen l1) l2 = taken c pos (l1 ++ l2).
Proof.
  intros Hp Hl1. unfold taken. rewrite (decide_False (P := l1 ++ l2 = [])) by (by destruct l1).
  case_decide as Hl2; [by subst l2; rewrite app_nil_r|by apply f_write_app].
Qed.

Lemma from_stream_loop_ok i in_file count t : ∀ fuel w A b c cs pos left,
  system_ok w A → objs w !! i = Some b → A !! i = Some c → 0 ≤ pos → 0 ≤ left < 2 ^ 64 →
  pos + left ≤ alloc_size b → pos + left ≤ IO_MAX → (Z.to_nat left < fuel)%nat → in_file = is_in_file b →
  returns (from_stream_loop rw now fuel in_file w i cs t pos count left) (λ '(res, w', cs'), ∃ l b',
    system_ok w' (<[i := taken c pos l]> A) ∧ w' = mkBlobs (sys w) (<[i := b']> (objs w)) ∧
    kept_fields b' = kept_fields b ∧ zlen l ≤ left ∧ (res = G_IO_STATUS_NORMAL → zlen l = left) ∧
    (res ≠ G_IO_STATUS_ERROR → to_come cs = l ++ to_come cs')).
Proof.
  induction fuel as [|fuel IH]; intros w A b c cs pos left Hok Hi Hc Hp Hl Ha Hio Hf Hin; [lia|]. cbn [from_stream_loop].
  assert (Hnone : ∀ res cs', left = 0 ∨ res ≠ G_IO_STATUS_NORMAL →
    (res ≠ G_IO_STATUS_ERROR → to_come cs = to_come cs') →
    ∃ l b', system_ok w (<[i := taken c pos l]> A) ∧ w = mkBlobs (sys w) (<[i := b']> (objs w)) ∧
    kept_fields b' = kept_fields b ∧ zlen l ≤ left ∧ (res = G_IO_STATUS_NORMAL → zlen l = left) ∧
    (res ≠ G_IO_STATUS_ERROR → to_come cs = l ++ to_come cs')).
  { intros res cs' Hres Hcs. exists [], b. rewrite (insert_id A i c Hc), (insert_id _ i b Hi).
    split; [done|]. split; [by destruct w|]. split; [done|]. cbn [length]. split; [lia|]. split; [|done].
    intros ->. destruct Hres; [lia|done]. }
  destruct (left =? 0) eqn:E; [apply returns_ret, Hnone; [lia|done]|].
  pose proof (contents_of _ _ _ _ _ Hok Hi Hc) as Hb.
  rewrite (get_blob_some _ _ _ Hi), Done_bind. set (bytes := Z.min left Z_BLOB_COPY_BUFSIZE).
  assert (Hby : 0 < bytes ≤ left) by (unfold bytes, Z_BLOB_COPY_BUFSIZE; lia).
  rewrite (proj2 (Z.ltb_ge _ _)), Done_bind by lia.
  destruct (child_read cs t bytes) as [[res l] cs1] eqn:Hr.
  destruct res; try (apply returns_ret, Hnone; [by right|]).
  - done.
  - destruct (read_normal cs t bytes l cs1 ltac:(lia) Hr) as (Hne & Hlen & Hcs).
    rewrite (get_blob_some _ _ _ Hi), Done_bind, Hin.
    destruct (blob_store_ok b c pos l Hb Hp ltac:(lia) ltac:(lia)) as (f & d & -> & Hst); [done|]. rewrite Done_bind.
    set (b1 := with_storage _ _ _ f d b). set (b2 := if zb_size b1 <? pos + zlen l then _ else b1).
    assert (Hs2 : storage b2 = (Z.max (zlen c) (pos + zlen l), alloc_size b, is_in_file b, f, d)).
    { unfold b2, b1. pose proof Hb as (Hsz & _). cbn [zb_size with_storage]. rewrite Hsz.
      unfold storage. destruct (zlen c <? pos + zlen l) eqn:E2; cbn; rewrite ?Hsz; do 4 f_equal; lia. }
    pose proof (Hst b2 Hs2) as Hb2. unfold storage in Hs2. injection Hs2 as _ Ha2 Hf2 _ _.
    assert (Hok2 : system_ok (put_blob i b2 w) (<[i := f_write c pos l]> A)).
    { eapply (system_ok_put w A i b); try done; [unfold mem_of|unfold disk_of|apply (ok_bound _ _ Hok)];
        rewrite Ha2, Hf2; lia. }
    rewrite u64_small, <- Hin by lia. eapply returns_mono.
    { eapply (IH _ _ b2 (f_write c pos l)); [exact Hok2|apply put_eq|by rewrite lookup_insert_eq|lia|lia| |lia|destruct l; [done|cbn [length] in *; lia]|by rewrite Hf2].
      rewrite Ha2. lia. }
    intros [[res' w'] cs'] (l2 & b' & Hok' & -> & Hk & Hl2 & Hn2 & Hcs2). exists (l ++ l2), b'.
    unfold put_blob in *. cbn [sys objs] in *. rewrite !insert_insert_eq in *.
    rewrite taken_app in Hok' by done. split; [done|]. split; [done|].
    split; [rewrite Hk; unfold b2; by destruct (_ <? _)|]. rewrite length_app. split; [lia|].
    split; [intros Hres; specialize (Hn2 Hres); lia|]. intros Hres. rewrite Hcs, (Hcs2 Hres). by rewrite app_assoc.
  - intros _. by destruct (read_eof _ _ _ _ _ Hr) as [-> ->].
  - intros _. by rewrite (read_again _ _ _ _ _ Hr).
Qed.

(** z_blob_read_from_stream puts what comes from the stream at the position, in order and
    without losing a byte: all that was asked for, or what came before the stream ended,
    failed or had to wait.  The space for it is there. *)
Theorem read_from_stream_spec w A i b c pos n cs t tl fuel :
  system_ok w A → objs w !! i = Some b → A !! i = Some c → mtx_locked b = false →
  0 ≤ pos ≤ zlen c → 0 ≤ n → pos + n ≤ alloc_size b → pos + n ≤ IO_MAX → (Z.to_nat n < fuel)%nat →
  returns (z_blob_read_from_stream rw now fuel w i pos cs t n tl) (λ '(res, w', cs'), ∃ l,
    system_ok w' (<[i := taken c pos l]> A) ∧ (res = G_IO_STATUS_NORMAL → zlen l = n) ∧
    zlen l ≤ n ∧ (res ≠ G_IO_STATUS_ERROR → to_come cs = l ++ to_come cs')).
Proof.
  intros Hok Hi Hc Hun Hp Hn Ha Hio Hf. pose proof (contents_of _ _ _ _ _ Hok Hi Hc) as Hb. pose proof Hb as (Hs & _).
  assert (Hn64 : 0 ≤ n < 2 ^ 64) by (unfold IO_MAX in Hio; lia). unfold z_blob_read_from_stream. rewrite require_true, Done_bind by lia.
  rewrite (lock_free _ _ _ _ Hi Hun), Done_bind. set (b1 := with_locked true b).
  rewrite (get_blob_some _ _ _ (put_eq _ _ _)), Done_bind. change (zb_size b1) with (zb_size b).
  rewrite Hs, (proj2 (Z.ltb_ge _ _)), andb_false_r, Done_bind, u64_small by lia.
  assert (Hok1 : system_ok (put_blob i b1 w) A) by by eapply system_ok_same.
  apply returns_bind. eapply returns_mono.
  { apply (from_stream_loop_ok i (is_in_file b1) n t fuel _ A b1 c); try done; [apply put_eq|lia]. }
  intros [[res w'] cs'] (l & b' & Hok' & Hw' & Hk & Hl & Hnl & Hcs). cbn [sys objs put_blob] in Hw'.
  rewrite insert_insert_eq in Hw'. subst w'. rewrite get_blob_insert, Done_bind, unlock_ok, Done_bind.
  apply returns_ret. exists l. split; [|done].
  assert (Hi' : objs (mkBlobs (sys w) (<[i := b']> (objs w))) !! i = Some b') by (cbn; by rewrite lookup_insert_eq).
  pose proof (system_ok_same _ _ i b' (with_locked false (count_write now n b')) (sys w) Hok' Hi' eq_refl) as Hend.
  unfold put_blob. cbn [sys objs] in *. by apply Hend.
Qed.
End streams.
End spec.

(** ** Calls that are cut short *)

Section short.
Context (rw : Z → Z).
(** What is documented of every call on a file, whatever its size. *)
Hypothesis (Hsome : ∀ n, 0 < n → 0 < rw n ≤ n).

(** How many bytes each call moves until [n] of them have been moved. *)
Fixpoint calls (fuel : nat) (n : Z) : list Z :=
  match fuel with
  | O => []
  | S fuel => if 0 <? n then rw n :: calls fuel (n - rw n) else []
  end.

(** What the calls write of [l]: each one starts with its first byte. *)
Definition pieces (ks : list Z) (l : list Z) : list Z := concat (map (λ k, take (Z.to_nat k) l) ks).

Lemma calls_length fuel : ∀ n, 0 < n → (Z.to_nat n < fuel)%nat → calls fuel n ≠ [].
Proof using. clear. intros n Hn Hf. destruct fuel as [|fuel]; [lia|]. cbn. by rewrite (proj2 (Z.ltb_lt 0 n)) by lia. Qed.

Lemma write_loop_calls l fuel : ∀ n f off w0,
  0 ≤ off → 0 ≤ n ≤ zlen l → (Z.to_nat n < fuel)%nat →
  write_loop rw fuel f off l n w0 =
    Done (if decide (n = 0) then f else f_write f off (pieces (calls fuel n) l), default w0 (last (calls fuel n))).
Proof.
  induction fuel as [|fuel IH]; intros n f off w0 Ho Hn Hf; [lia|]. cbn [write_loop calls].
  destruct (decide (n = 0)) as [->|Hn0]; [done|]. rewrite (proj2 (Z.ltb_lt 0 n)) by lia.
  destruct (Hsome n) as [H1 H2]; [lia|]. rewrite IH by lia.
  assert (Hk : zlen (take (Z.to_nat (rw n)) l) = rw n) by (rewrite length_take; lia).
  unfold pieces. cbn [map concat]. f_equal. f_equal.
  - case_decide as Hlast.
    + replace (calls fuel (n - rw n)) with (@nil Z) by (rewrite Hlast; by destruct fuel).
      cbn. by rewrite app_nil_r.
    + rewrite <- Hk at 2. by rewrite f_write_app.
  - destruct (calls fuel (n - rw n)) as [|k ks] eqn:Hc; [done|]. rewrite last_cons_cons.
    destruct (last (k :: ks)) eqn:Hl; [done|]. by apply last_None in Hl.
Qed.

(** What is in the buffer after the calls: each piece is put at its start. *)
Fixpoint overlay (f : list Z) (off : Z) (ks : list Z) (buf : list Z) : list Z :=
  match ks with
  | [] => buf
  | k :: ks => overlay f (off + k) ks (f_read f off k ++ drop (Z.to_nat k) buf)
  end.

Lemma read_loop_calls f e fuel : ∀ n off buf w0,
  0 ≤ off → 0 ≤ n → off + n ≤ zlen f → n ≤ zlen buf → (Z.to_nat n < fuel)%nat →
  read_loop rw fuel e f off buf n w0 =
    Done (overlay f off (calls fuel n) buf, default w0 (last (calls fuel n))).
Proof.
  induction fuel as [|fuel IH]; intros n off buf w0 Ho Hn Hf Hb Hfu; [lia|]. cbn [read_loop calls].
  destruct (decide (n = 0)) as [->|Hn0]; [done|]. rewrite (proj2 (Z.ltb_lt 0 n)) by lia.
  destruct (Hsome n) as [H1 H2]; [lia|].
  assert (Hk : zlen (f_read f off (rw n)) = rw n) by (apply f_read_length; lia).
  rewrite store_range_ok by lia. rewrite Done_bind, Hk, (proj2 (Z.eqb_neq (rw n) 0)), andb_false_r by lia.
  change (Z.to_nat 0) with 0%nat. rewrite take_0. cbn [app Nat.add].
  replace (length (f_read f off (rw n))) with (Z.to_nat (rw n)) by lia.
  rewrite IH by (rewrite ?length_app, ?length_drop; lia). cbn [overlay]. do 2 f_equal.
  destruct (calls fuel (n - rw n)) as [|k ks] eqn:Hc; [done|]. rewrite last_cons_cons.
  destruct (last (k :: ks)) eqn:Hl; [done|]. by apply last_None in Hl.
Qed.

Lemma calls_last fuel : ∀ n, 0 < n → (Z.to_nat n < fuel)%nat → ∃ k, last (calls fuel n) = Some k ∧ 0 < k ≤ n.
Proof.
  induction fuel as [|fuel IH]; intros n Hn Hf; [lia|]. cbn [calls]. rewrite (proj2 (Z.ltb_lt 0 n)) by lia.
  destruct (Hsome n Hn) as [H1 H2]. destruct (decide (n - rw n = 0)) as [He|He].
  - exists (rw n). split; [|lia]. rewrite He. by destruct fuel.
  - destruct (IH (n - rw n)) as (k & Hk & Hle); [lia|lia|]. exists k. split; [|lia].
    destruct (calls fuel (n - rw n)) as [|k1 ks]; [done|]. by rewrite last_cons_cons.
Qed.

Lemma overlay_last f fuel : ∀ n off buf k,
  0 ≤ off → 0 < n → off + n ≤ zlen f → n ≤ zlen buf → (Z.to_nat n < fuel)%nat → last (calls fuel n) = Some k →
  take (Z.to_nat k) (overlay f off (calls fuel n) buf) = f_read f (off + n - k) k.
Proof.
  induction fuel as [|fuel IH]; intros n off buf k Ho Hn Hf Hb Hfu; [lia|]. cbn [calls].
  rewrite (proj2 (Z.ltb_lt 0 n)) by lia. destruct (Hsome n Hn) as [H1 H2]. cbn [overlay].
  assert (Hk : zlen (f_read f off (rw n)) = rw n) by (apply f_read_length; lia).
  destruct (decide (n - rw n = 0)) as [He|He].
  - replace (calls fuel (n - rw n)) with (@nil Z) by (rewrite He; by destruct fuel). intros [= <-]. cbn [overlay].
    rewrite take_app_le, firstn_all2 by lia. f_equal; lia.
  - pose proof (calls_length fuel (n - rw n) ltac:(lia) ltac:(lia)) as Hne.
    destruct (calls fuel (n - rw n)) as [|k1 ks] eqn:Hc; [done|]. rewrite last_cons_cons, <- Hc. intros Hl.
    rewrite IH by (rewrite ?length_app, ?length_drop; (done || lia)). f_equal. lia.
Qed.
End short.

Lemma calls_step rw fuel n : 0 < n → calls rw (S fuel) n = rw n :: calls rw fuel (n - rw n).
Proof. intros Hn. cbn [calls]. by rewrite (proj2 (Z.ltb_lt 0 n)) by lia. Qed.

Lemma calls_whole rw n : 0 < n → rw n = n → calls rw (loop_fuel n) n = [n].
Proof.
  intros Hn Hw. unfold loop_fuel. cbn [calls]. rewrite (proj2 (Z.ltb_lt 0 n)), Hw, Z.sub_diag by lia.
  by destruct (Z.to_nat n).
Qed.

Lemma pieces_short rw l :
  (∀ n, 0 < n → 0 < rw n ≤ n) → 0 < zlen l → rw (zlen l) ≠ zlen l →
  ∃ rest, pieces (calls rw (loop_fuel (zlen l)) (zlen l)) l = take (Z.to_nat (rw (zlen l))) l ++ take 1 l ++ rest.
Proof.
  intros Hsome Hl Hs. destruct (Hsome _ Hl) as [H1 H2]. unfold loop_fuel. rewrite calls_step by lia.
  assert (Hf : Z.to_nat (zlen l) = S (Z.to_nat (zlen l) - 1)) by lia. rewrite Hf, calls_step by lia. clear Hf.
  destruct (Hsome (zlen l - rw (zlen l))) as [H3 H4]; [lia|].
  unfold pieces. cbn [map concat]. destruct l as [|x l']; [done|].
  replace (Z.to_nat (rw (zlen (x :: l') - rw (zlen (x :: l'))))) with
    (S (Z.to_nat (rw (zlen (x :: l') - rw (zlen (x :: l')))) - 1)) by lia.
  cbn [take]. cbn [app]. eexists. reflexivity.
Qed.

(** * The properties *)

(** C2: A blob system refines arrays of bytes, as long as the blobs fit into memory or into the
    files, hold at most [IO_MAX] bytes each, and the system calls on the files move up to
    that many bytes at once ([full_io]): whatever is written to and read from the blobs, and
    whenever they are moved, every read returns what the arrays hold, every write changes
    the array it names and no other, every write is complete, and nothing fails or waits.
    An empty write may not be behind the end of its array, see [empty_write_hangs_reader];
    for calls that are cut short see [short_io_spec]. *)
Theorem blobs_refine rw now cap ops w A :
  full_io rw → system_ok w A → roomy cap w → ops_in cap (zs_blobs (sys w)) A ops →
  returns (run_ops rw now w ops) (λ '(outs, w'), outs = fst (spec_ops A ops) ∧
    system_ok w' (snd (spec_ops A ops)) ∧ roomy cap w').
Proof. intros Hrw. by apply run_ops_ok. Qed.

(** C27: What reading and writing a blob in its file does whatever the number of bytes is, at
    least one, that each system call moves.  A call that is cut short repeats the first byte
    of the data right behind what it has written, and a reader is given the last piece only,
    at the start of its buffer; the number of bytes reported is that of the last call.  Only
    if the first call moves everything the bytes written and read are those asked for. *)
Theorem short_io_spec rw b pos l n buf :
  (∀ n, 0 < n → 0 < rw n ≤ n) → is_in_file b = true → 0 ≤ pos → 0 < zlen l →
  0 < n ≤ zlen buf → pos + n ≤ zlen (zb_file b) →
  (let ks := calls rw (loop_fuel (zlen l)) (zlen l) in
   (∃ k, last ks = Some k ∧ blob_store rw true b pos l =
      Done (k, with_storage (zb_size b) (alloc_size b) true (f_write (zb_file b) pos (pieces ks l)) (zb_data b) b)) ∧
   (if decide (rw (zlen l) = zlen l) then ks = [zlen l] ∧ pieces ks l = l
    else ∃ rest, pieces ks l = take (Z.to_nat (rw (zlen l))) l ++ take 1 l ++ rest)) ∧
  ∃ k buf', blob_load rw b pos n buf = Done (k, buf') ∧ 0 < k ∧ (k = n ↔ rw n = n) ∧
    take (Z.to_nat k) buf' = f_read (zb_file b) (pos + n - k) k.
Proof.
  intros Hsome Hf Hp Hl Hn Hlen. split; [split|].
  - destruct (calls_last rw Hsome (loop_fuel (zlen l)) (zlen l)) as (k & Hk & _); [done|unfold loop_fuel; lia|].
    exists k. split; [done|]. unfold blob_store. rewrite (write_loop_calls rw Hsome) by (unfold loop_fuel; lia).
    rewrite decide_False by lia. by rewrite Done_bind, Hk, Hf.
  - case_decide as Hw; [|by apply pieces_short]. rewrite (calls_whole _ _ Hl Hw). split; [done|].
    unfold pieces. cbn. by rewrite app_nil_r, Nat2Z.id, firstn_all.
  - destruct (calls_last rw Hsome (loop_fuel n) n) as (k & Hk & Hle); [lia|unfold loop_fuel; lia|].
    exists k, (overlay (zb_file b) pos (calls rw (loop_fuel n) n) buf). unfold blob_load. rewrite Hf.
    rewrite (read_loop_calls rw Hsome) by (unfold loop_fuel; lia). rewrite Done_bind, Hk. split; [done|].
    split; [lia|]. split; [|apply overlay_last; first [done|unfold loop_fuel; lia]].
    destruct (Hsome n) as [H1 H2]; [lia|]. split; intros He.
    + destruct (decide (n - rw n = 0)); [lia|]. exfalso. unfold loop_fuel in Hk. rewrite calls_step in Hk by lia.
      destruct (calls_last rw Hsome (Z.to_nat n) (n - rw n)) as (k2 & Hk2 & Hle2); [lia|lia|].
      destruct (calls rw (Z.to_nat n) (n - rw n)) as [|k1 ks]; [done|]. rewrite last_cons_cons in Hk.
      assert (k = k2) by congruence. lia.
    + rewrite (calls_whole rw n ltac:(lia) He) in Hk. by injection Hk.
Qed.

(** C26: z_blob_system_swap_in comes to an end, keeps the contents of all blobs and exact
    accounts, and does not fill the memory beyond the high water mark, as long as the system
    calls on the files move up to [IO_MAX] bytes at once ([full_io]). *)
Theorem swap_in_spec rw now w A :
  full_io rw → system_ok w A →
  returns (z_blob_system_swap_in rw now w) (λ w', system_ok w' A ∧ moved w w' ∧
    mem_used (sys w') ≤ Z.max (mem_used (sys w)) (hiwat (sys w))).
Proof. intros Hrw. by apply swap_in_ok. Qed.


(** ** A small system *)

Definition all_io : Z → Z := λ n, n.

Lemma all_io_full : full_io all_io.
Proof. done. Qed.

Definition blob_at (ref al sz : Z) (inf : bool) (f d : list Z) (lck : bool) : ZBlob :=
  mkBlob ref sz al inf f d lck (mkStat 0 0 0 0 0 0 0 0) None 0 false false.

(** Blob 0 in memory with five bytes, blob 1 in its file with three. *)
Definition small_blob0 : ZBlob := blob_at 1 8 5 false [] [1; 2; 3; 4; 5; 0; 0; 0] false.
Definition small_blob1 : ZBlob := blob_at 1 10 3 true [7; 8; 9] [] false.
Definition small_system (q : list blob_request) (wl : list nat) : blobs :=
  mkBlobs (mkBlobSystem 1 100 100 10 8 50 20 0 [0%nat; 1%nat] q wl true)
          (<[0%nat := small_blob0]> (<[1%nat := small_blob1]> ∅)).
Definition small_contents : gmap nat (list Z) := <[0%nat := [1; 2; 3; 4; 5]]> (<[1%nat := [7; 8; 9]]> ∅).

Lemma small_lookup q wl i b :
  objs (small_system q wl) !! i = Some b → i = 0%nat ∧ b = small_blob0 ∨ i = 1%nat ∧ b = small_blob1.
Proof.
  unfold small_system. cbn [objs]. intros Hi. apply lookup_insert_Some in Hi as [[<- <-]|[_ Hi]]; [by left|right].
  by apply lookup_insert_Some in Hi as [[<- <-]|[_ Hi]].
Qed.

Lemma small_ok q wl : system_ok (small_system q wl) small_contents.
Proof.
  assert (Hr : ∀ i, is_Some (objs (small_system q wl) !! i) ↔ i ∈ [0%nat; 1%nat]).
  { intros i. split.
    - intros [b Hi]. destruct (small_lookup _ _ _ _ Hi) as [[-> _]|[-> _]]; [left|right; left].
    - intros Hi. apply elem_of_cons in Hi as [->|Hi]; [by exists small_blob0|].
      apply list_elem_of_singleton in Hi as ->. by exists small_blob1. }
  split; try done.
  - apply NoDup_cons; split; [|apply NoDup_singleton]. intros Hin. by apply list_elem_of_singleton in Hin.
  - intros i b Hi. destruct (small_lookup _ _ _ _ Hi) as [[-> ->]|[-> ->]].
    + exists [1; 2; 3; 4; 5]. split; [done|]. by split_and!.
    + exists [7; 8; 9]. split; [done|]. by split_and!.
Qed.

Lemma small_roomy q wl : roomy 10 (small_system q wl).
Proof.
  split; [done| |by left]. intros i b Hi. by destruct (small_lookup _ _ _ _ Hi) as [[-> ->]|[-> ->]].
Qed.

Definition small_ops : list blob_op :=
  [OpWrite 0 3 [40; 50; 60; 70; 80; 90]; OpWrite 1 5 [11]; OpWrite 1 6 []; OpSwapIn; OpRead 0 2 4; OpRead 1 0 9].

Lemma blobs_refine_witness :
  returns (run_ops all_io 0 (small_system [] []) small_ops) (λ '(outs, w'),
    outs = fst (spec_ops small_contents small_ops) ∧ system_ok w' (snd (spec_ops small_contents small_ops)) ∧
    roomy 10 w').
Proof.
  apply (blobs_refine all_io 0 10 small_ops (small_system [] []) small_contents all_io_full
    (small_ok _ _) (small_roomy _ _)).
  cbn [sys small_system zs_blobs small_ops ops_in op_in]. repeat split; try done; by repeat constructor.
Defined.

Lemma swap_in_spec_witness :
  returns (z_blob_system_swap_in all_io 0 (small_system [] [])) (λ w', system_ok w' small_contents ∧
    moved (small_system [] []) w' ∧ mem_used (sys w') ≤ Z.max 8 20).
Proof. exact (swap_in_spec all_io 0 (small_system [] []) small_contents all_io_full (small_ok _ _)). Defined.

Lemma small_get0 q wl : objs (small_system q wl) !! 0%nat = Some small_blob0.
Proof. done. Qed.
Lemma small_get1 q wl : objs (small_system q wl) !! 1%nat = Some small_blob1.
Proof. done. Qed.


Lemma unref_spec_witness :
  returns (z_blob_unref all_io 0 (small_system [] []) 1) (λ w', system_ok w' (delete 1%nat small_contents) ∧
    objs w' = delete 1%nat (objs (small_system [] [])) ∧ mem_used (sys w') = 8 - 0 ∧ disk_used (sys w') = 10 - 10 ∧
    (0 < 10 → req_queue (sys w') = [] ++ [Z_BLOB_MEM_FREED])).
Proof.
  exact (unref_spec all_io 0 (small_system [] []) small_contents 1 small_blob1 (small_ok _ _) (small_get1 _ _) eq_refl).
Defined.

(** Blob 0 waits for twenty bytes. *)
Definition waiting_blob : ZBlob := with_request 12 false (with_locked true small_blob0).
Definition waiting_system : blobs := put_blob 0 waiting_blob (small_system [Z_BLOB_MEM_FREED] [0%nat]).
Definition waiting_hiwat (w : blobs) : blobs :=
  set_sys (mkBlobSystem 1 100 100 10 8 50 80 0 [0%nat; 1%nat] [Z_BLOB_MEM_FREED] [0%nat] true) w.

Lemma waiting_ok : system_ok (waiting_hiwat waiting_system) small_contents.
Proof.
  pose proof (system_ok_same (small_system [Z_BLOB_MEM_FREED] [0%nat]) small_contents 0 small_blob0 waiting_blob
    (sys (small_system [Z_BLOB_MEM_FREED] [0%nat])) (small_ok _ _) (small_get0 _ _) eq_refl ltac:(done) eq_refl eq_refl) as [].
  by split.
Qed.

Lemma waiting_served_witness :
  returns ('(_, w') ← z_blob_system_serve all_io 0 (waiting_hiwat waiting_system); z_blob_alloc_resume 0 w' 0 20) (λ w',
    system_ok w' small_contents ∧ waiting_list (sys w') = [] ∧ ∃ b', objs w' !! 0%nat = Some b' ∧ alloc_size b' = 20).
Proof.
  refine (waiting_served all_io 0 all_io_full (waiting_hiwat waiting_system) small_contents 0 waiting_blob
    [1; 2; 3; 4; 5] 20 [] waiting_ok eq_refl eq_refl eq_refl eq_refl eq_refl _ _ _).
  - done.
  - by right; left.
  - done.
Defined.

(** A stream that hands out and takes its bytes three at a time. *)
Module Toy.
#[export] Instance chunks : ZStreamOps (list Z) := {
  child_read c t n := match c with
                      | [] => (G_IO_STATUS_EOF, [], [])
                      | _ => (G_IO_STATUS_NORMAL, take (Z.to_nat (Z.min n 3)) c, drop (Z.to_nat (Z.min n 3)) c)
                      end;
  to_come c := c
}.
#[export] Instance chunks_laws : ZStreamLaws (list Z).
Proof.
  split; cbn; intros c t n l c'; destruct c as [|x c]; try done; try (by intros [= <- <-]).
  - intros Hn [= <- <-]. set (m := Z.to_nat _). assert (0 < m)%nat as Hm by (unfold m; lia).
    split; [by destruct m; [lia|]|]. split; [|by rewrite take_drop].
    rewrite length_take. unfold m. lia.
Qed.
Definition write_chunk (c l : list Z) : GIOStatus * list Z := (G_IO_STATUS_NORMAL, c ++ l).
End Toy.
Import Toy.

Lemma write_to_stream_spec_witness :
  returns (z_blob_write_to_stream Toy.write_chunk 5 (small_system [] []) 0 1 [9] 3 0) (λ '(res, w', cs'),
    w' = small_system [] [] ∧
    (res = G_IO_STATUS_NORMAL ∧ cs' = [9] ++ f_read [1; 2; 3; 4; 5] 1 3 ∨
     res = G_IO_STATUS_ERROR ∧ ∃ cs0 l, fst (Toy.write_chunk cs0 l) ≠ G_IO_STATUS_NORMAL)).
Proof.
  refine (write_to_stream_spec Toy.write_chunk (λ c, c) _ (small_system [] []) small_contents 0
    small_blob0 [1; 2; 3; 4; 5] 1 3 [9] 0 5 (small_ok _ _) (small_get0 _ _) eq_refl eq_refl eq_refl _ _ _ _).
  - by intros c l c' [= <-].
  - lia.
  - lia.
  - by vm_compute.
  - cbn. lia.
Defined.

Lemma read_from_stream_spec_witness :
  returns (z_blob_read_from_stream all_io 0 7 (small_system [] []) 1 2 [1; 2; 3; 4] 0 6 0) (λ '(res, w', cs'), ∃ l,
    system_ok w' (<[1%nat := taken [7; 8; 9] 2 l]> small_contents) ∧ (res = G_IO_STATUS_NORMAL → zlen l = 6) ∧
    zlen l ≤ 6 ∧ (res ≠ G_IO_STATUS_ERROR → [1; 2; 3; 4] = l ++ to_come cs')).
Proof.
  refine (read_from_stream_spec all_io 0 all_io_full (small_system [] []) small_contents 1 small_blob1 [7; 8; 9] 2 6
    [1; 2; 3; 4] 0 0 7 (small_ok _ _) (small_get1 _ _) eq_refl eq_refl _ _ _ _ _); by vm_compute.
Defined.

(** ** Where the code does something else

    What a run leaves of a blob: its size, the allocated size, its file and its block. *)
Definition look (i : nat) (m : outcome blobs) : outcome (Z * Z * list Z * list Z) :=
  w ← m; b ← get_blob w i; Done (zb_size b, alloc_size b, zb_file b, zb_data b).
Definition used (m : outcome blobs) : outcome (Z * Z) := w ← m; Done (mem_used (sys w), disk_used (sys w)).

(** Truncating a blob in memory does nothing while its next size stays the same power of
    two: bytes behind the position are still there. *)
Example truncate_keeps_size :
  look 0 ('(_, w) ← z_blob_truncate all_io 0 (small_system [] []) 0 5 0; Done w) = Done (5, 8, [], [1; 2; 3; 4; 5; 0; 0; 0]) ∧
  look 0 ('(_, w) ← z_blob_add_copy all_io 0 (small_system [] []) 0 0 [1; 2; 3; 4; 5; 6; 7; 8] 0;
          '(_, w) ← z_blob_truncate all_io 0 w 0 5 0; Done w) = Done (8, 8, [], [1; 2; 3; 4; 5; 6; 7; 8]).
Proof. split; by vm_compute. Qed.

(** A blob in its file grows without regard to the space that the system may use. *)
Example file_grows_beyond_limit :
  used ('(_, w) ← z_blob_add_copy all_io 0 (small_system [] []) 1 1000 [1] 0; Done w) = Done (8, 1001).
Proof. by vm_compute. Qed.

(** A write that the system cuts short: the loop starts over with the first byte, and the
    result counts the last piece only. *)
Definition four_io : Z → Z := λ n, Z.min n 4.

Example short_write_repeats :
  ('(n, w) ← z_blob_add_copy four_io 0 (small_system [] []) 1 0 [1; 2; 3; 4; 5; 6] 0;
   b ← get_blob w 1; Done (n, zb_file b)) = Done (2, [1; 2; 3; 4; 1; 2]).
Proof. by vm_compute. Qed.

Lemma short_io_spec_witness :
  (let ks := calls four_io (loop_fuel 6) 6 in
   (∃ k, last ks = Some k ∧ blob_store four_io true small_blob1 0 [1; 2; 3; 4; 5; 6] =
      Done (k, with_storage 3 10 true (f_write [7; 8; 9] 0 (pieces ks [1; 2; 3; 4; 5; 6])) [] small_blob1)) ∧
   (if decide (four_io 6 = 6) then ks = [6] ∧ pieces ks [1; 2; 3; 4; 5; 6] = [1; 2; 3; 4; 5; 6]
    else ∃ rest, pieces ks [1; 2; 3; 4; 5; 6] = take (Z.to_nat (four_io 6)) [1; 2; 3; 4; 5; 6] ++ [1] ++ rest)) ∧
  ∃ k buf', blob_load four_io small_blob1 0 2 [0; 0] = Done (k, buf') ∧ 0 < k ∧ (k = 2 ↔ four_io 2 = 2) ∧
    take (Z.to_nat k) buf' = f_read [7; 8; 9] (0 + 2 - k) k.
Proof.
  refine (short_io_spec four_io small_blob1 0 [1; 2; 3; 4; 5; 6] 2 [0; 0] _ eq_refl _ _ _ _); try done.
  intros n Hn. unfold four_io. lia.
Defined.

Example short_read_overwrites :
  ('(_, w) ← z_blob_add_copy all_io 0 (small_system [] []) 1 0 [1; 2; 3; 4; 5; 6] 0;
   '(n, buf, _) ← z_blob_get_copy four_io 0 w 1 0 [0; 0; 0; 0; 0; 0] 6 0; Done (n, buf)) = Done (2, [5; 6; 3; 4; 0; 0]).
Proof. by vm_compute. Qed.

(** Reading behind the end of the file never ends. *)
Lemma read_loop_never f : ∀ fuel buf off remain rd,
  zlen f ≤ off → 0 < remain → read_loop all_io fuel false f off buf remain rd = Fault OutOfFuel.
Proof.
  induction fuel as [|fuel IH]; intros buf off remain rd Hoff Hr; [done|]. cbn [read_loop].
  rewrite (proj2 (Z.ltb_lt _ _)) by lia. assert (f_read f off (all_io remain) = []) as ->.
  { unfold f_read. rewrite (skipn_all2 f) by lia. by rewrite take_nil. }
  rewrite store_range_ok by (cbn; lia). rewrite Done_bind. cbn [length andb]. rewrite Z.add_0_r, Z.sub_0_r. by apply IH.
Qed.

(** Writing nothing behind the end of a blob in its file makes the size exceed the file, so
    that a reader gets there. *)
Lemma empty_write_hangs_reader :
  look 1 ('(_, w) ← z_blob_add_copy all_io 0 (small_system [] []) 1 5 [] 0; Done w) = Done (5, 10, [7; 8; 9], []) ∧
  ∀ b fuel buf rd, zb_file b = [7; 8; 9] → 3 ≤ zlen buf →
    read_loop all_io (S fuel) false (zb_file b) 0 buf 5 rd = Fault OutOfFuel.
Proof.
  split; [by vm_compute|]. intros b fuel buf rd -> Hbuf. cbn [read_loop].
  change (f_read [7; 8; 9] 0 (all_io 5)) with [7; 8; 9]. change (0 <? 5) with true. cbv iota.
  rewrite store_range_ok by (cbn; lia). rewrite Done_bind. apply read_loop_never; cbn; lia.
Qed.

(** Releasing the file of a blob changes how much is allocated for it, but not the account:
    three of the eight bytes stay accounted for ever. *)
Example release_file_loses_space :
  used ('(_, w) ← z_blob_get_file all_io 0 (small_system [] []) 0 true 0; w ← z_blob_release_file w 0;
        w ← z_blob_unref all_io 0 w 0; z_blob_unref all_io 0 w 1) = Done (0, 3).
Proof. by vm_compute. Qed.

(** A blob in memory that has to move to its file while it is filled from a stream is
    written to where its block was. *)
Definition tight_system : blobs :=
  set_sys (mkBlobSystem 1 100 50 10 8 40 20 0 [0%nat; 1%nat] [] [] true) (small_system [] []).

Example stream_into_moved_blob :
  ('(ok, w) ← z_blob_truncate all_io 0 tight_system 0 60 0; b ← get_blob w 0; Done (ok, is_in_file b))
    = Done (true, true) ∧
  z_blob_read_from_stream all_io 0 100 tight_system 0 5 [1; 2; 3] 0 55 0 = Fault OutOfBounds.
Proof. split; by vm_compute. Qed.

(** Who waits for space when the system is destroyed does not get an error: the assertion
    on the answer fails. *)
Example destroy_kills_waiters :
  ('(gone, w) ← z_blob_system_unref all_io 0 (put_blob 0 (with_zb_ref 2 (with_request 200 false small_blob0))
                                                (small_system [] [0%nat]));
   Done gone) = Done true ∧
  ('(_, w) ← z_blob_system_unref all_io 0 (put_blob 0 (with_zb_ref 2 (with_request 200 false small_blob0))
                                             (small_system [] [0%nat]));
   z_blob_alloc_resume 0 w 0 208) = Fault AssertFailed.
Proof. split; by vm_compute. Qed.
