(* ===== verification/StreamBlob.v ===== *)
(** * Streams over blobs (src/src/streamblob.c)

    A blob read and written at one position: the methods of the stream, and what a session
    of reads and writes is, together with whatever else happens in the blob system.  The
    control calls are [z_stream_blob_ctrl] of Stream.v. *)

From S2P Require Import Prelude RefCount StreamApi Blob BlobSpec.
Open Scope Z_scope.

Record ZStreamBlob := mkStreamBlob {
  blob : nat;
  sbl_pos : Z;
  poll_cond : Z;
  sbl_timeout : Z;                 (* of the super class, as the next ones *)
  sbl_want : watch;
  sbl_read_cb : option bool;       (* whether it is set, and what it answers *)
  sbl_write_cb : option bool
}.

Definition sbl_with_cond (n : Z) (self : ZStreamBlob) : ZStreamBlob :=
  mkStreamBlob (blob self) (sbl_pos self) n (sbl_timeout self) (sbl_want self) (sbl_read_cb self) (sbl_write_cb self).

Section streamblob.
Context (rw : Z → Z) (now : Z).

(** ** The events *)

(** Whether the stream is ready, and the time to wait. *)
Definition z_stream_blob_watch_prepare (self : ZStreamBlob) : bool * Z * ZStreamBlob :=
  let c := if want_read (sbl_want self) then set_flag 0 G_IO_IN else 0 in
  let c := if want_write (sbl_want self) then set_flag c G_IO_OUT else c in
  (want_read (sbl_want self) || want_write (sbl_want self), -1, sbl_with_cond c self).

Definition z_stream_blob_watch_check (self : ZStreamBlob) : bool * ZStreamBlob :=
  let '(res, _, self) := z_stream_blob_watch_prepare self in (res, self).

(** The answer, and the conditions whose callbacks were called. *)
Definition z_stream_blob_watch_dispatch (self : ZStreamBlob) : bool * list Z :=
  let '(rc, called) :=
    if want_read (sbl_want self) && has (poll_cond self) G_IO_IN
    then match sbl_read_cb self with Some answer => (answer, [G_IO_IN]) | None => (true, []) end
    else (true, []) in
  if want_write (sbl_want self) && has (poll_cond self) G_IO_OUT && rc
  then match sbl_write_cb self with Some answer => (rc && answer, called ++ [G_IO_OUT]) | None => (rc, called) end
  else (rc, called).

(** ** Reading and writing *)



(** ** Creating and releasing *)

Definition z_stream_blob_new (w : blobs) (i : nat) : outcome (ZStreamBlob * blobs) :=
  w ← z_blob_ref w i;
  Done (mkStreamBlob i 0 0 (-1) (mkWatch false false false) None None, w).

Definition z_stream_blob_free_method (w : blobs) (self : ZStreamBlob) : outcome blobs :=
  z_blob_unref rw now w (blob self).

(** ** Sessions *)

Inductive stream_op : Set := SRead (n : Z) | SWrite (l : list Z) | SOther (op : blob_op).

(** The status of a call with the bytes read or the number of bytes written. *)
Definition stream_answer : Type := GIOStatus * list Z.



(** The specification: a file with a position. *)
Definition spec_stream_op (i : nat) (A : gmap nat (list Z)) (pos : Z) (op : stream_op)
    : stream_answer * gmap nat (list Z) * Z :=
  let c := default [] (A !! i) in
  match op with
  | SRead n =>
      if n =? 0 then (G_IO_STATUS_NORMAL, [], A, pos)
      else if zlen c <=? pos then (G_IO_STATUS_EOF, [], A, pos)
      else (G_IO_STATUS_NORMAL, f_read c pos n, A, pos + zlen (f_read c pos n))
  | SWrite [] => (G_IO_STATUS_NORMAL, [0], A, pos)
  | SWrite l => (G_IO_STATUS_NORMAL, [zlen l], <[i := f_write c pos l]> A, pos + zlen l)
  | SOther op => let '(out, A) := spec_op A op in (G_IO_STATUS_NORMAL, out, A, pos)
  end.

Fixpoint spec_stream_ops (i : nat) (A : gmap nat (list Z)) (pos : Z) (ops : list stream_op)
    : list stream_answer * gmap nat (list Z) * Z :=
  match ops with
  | [] => ([], A, pos)
  | op :: ops =>
      let '(out, A, pos) := spec_stream_op i A pos op in
      let '(outs, A, pos) := spec_stream_ops i A pos ops in
      (out :: outs, A, pos)
  end.


Context (Hrw : full_io rw).



(** ** Events *)

(** The main loop is told that the stream is ready exactly when something is wanted, and
    then calls the callbacks of what is wanted, the one for writing only if the one for
    reading did not ask to stop. *)
Theorem stream_blob_watch_spec self :
  let '(ready, t, self1) := z_stream_blob_watch_prepare self in
  let '(ready2, self2) := z_stream_blob_watch_check self1 in
  let r := want_read (sbl_want self) in let wr := want_write (sbl_want self) in
  ready = (r || wr) ∧ ready2 = ready ∧ t = -1 ∧
  z_stream_blob_watch_dispatch self2 =
    (let read_ok := if r then default true (sbl_read_cb self) else true in
     (read_ok && (if wr then default true (sbl_write_cb self) else true),
      (if r && bool_decide (is_Some (sbl_read_cb self)) then [G_IO_IN] else []) ++
      (if wr && read_ok && bool_decide (is_Some (sbl_write_cb self)) then [G_IO_OUT] else []))).
Proof.
  destruct self as [bl p c t [r pri wr] rcb wcb]. unfold z_stream_blob_watch_check, z_stream_blob_watch_prepare,
    z_stream_blob_watch_dispatch. cbn. split; [done|]. split; [done|]. split; [done|].
  destruct r, wr, rcb as [[]|], wcb as [[]|]; done.
Qed.
End streamblob.


(** ** Witnesses *)

Definition small_stream_ops : list stream_op :=
  [SRead 2; SRead 1; SWrite [5; 6]; SOther OpSwapIn; SOther (OpRead 1 0 9); SRead 0; SWrite [4]].


Example small_stream_run :
  spec_stream_ops 1 small_contents 1 small_stream_ops =
    ([(G_IO_STATUS_NORMAL, [8; 9]); (G_IO_STATUS_EOF, []); (G_IO_STATUS_NORMAL, [2]); (G_IO_STATUS_NORMAL, []);
      (G_IO_STATUS_NORMAL, [7; 8; 9; 5; 6]); (G_IO_STATUS_NORMAL, []); (G_IO_STATUS_NORMAL, [1])],
     snd (fst (spec_stream_ops 1 small_contents 1 small_stream_ops)), 6).
Proof. vm_compute. reflexivity. Qed.
