(* ===== verification/StreamTee.v ===== *)
(** * Teeing streams (src/src/streamtee.c)

    A ZStreamTee passes everything on to its child, and writes a copy of what flows in one
    direction to a second stream, the fork.  The child and the fork are known by the
    classes of StreamApi.v only.  The control calls and the callbacks between a tee and its
    child are [class_function] and [class_set_child] of Stream.v. *)

From S2P Require Import Prelude StreamApi.
Open Scope Z_scope.

Section tee.
Context {C F E : Type} `{ZStreamOps C} `{ZStreamWriteOps C E} `{ZStreamWriteOps F E}.

Record ZStreamTee := mkTee {
  tee_child : C;
  fork : F;
  tee_direction : Z;
  tee_timeout : Z                  (* of the super class *)
}.

Definition tee_with_fork (f : F) (self : ZStreamTee) : ZStreamTee :=
  mkTee (tee_child self) f (tee_direction self) (tee_timeout self).
Definition tee_with_child (c : C) (self : ZStreamTee) : ZStreamTee :=
  mkTee c (fork self) (tee_direction self) (tee_timeout self).

(** Writing [left] to the fork. *)
Fixpoint write_fork_loop (fuel : nat) (f : F) (left : list Z) : outcome (GIOStatus * option E * F) :=
  match fuel with
  | O => Fault OutOfFuel
  | S fuel =>
      match left with
      | [] => Done (G_IO_STATUS_NORMAL, None, f)
      | _ =>
          let '(st, bw, error, f) := child_write f left in
          if decide (st = G_IO_STATUS_NORMAL)
          then write_fork_loop fuel f (drop (Z.to_nat bw) left)
          else Done (st, error, f)
      end
  end.

Definition z_stream_tee_write_fork (self : ZStreamTee) (buf : list Z) : outcome (GIOStatus * option E * ZStreamTee) :=
  '(st, error, f) ← write_fork_loop (S (length buf)) (fork self) buf;
  Done (st, error, tee_with_fork f self).

(** The status, the bytes read, the error of the fork, and the stream. *)
Definition z_stream_tee_read_method (self : ZStreamTee) (count : Z)
    : outcome (GIOStatus * list Z * option E * ZStreamTee) :=
  let '(res, l, c) := child_read (tee_child self) (tee_timeout self) count in
  let self := tee_with_child c self in
  if bool_decide (res = G_IO_STATUS_NORMAL) && (tee_direction self =? G_IO_IN) && negb (zlen l =? 0)
  then '(res, error, self) ← z_stream_tee_write_fork self l; Done (res, l, error, self)
  else Done (res, l, None, self).

Definition z_stream_tee_write_method (self : ZStreamTee) (buf : list Z)
    : outcome (GIOStatus * Z * option E * ZStreamTee) :=
  let '(res, n, error, c) := child_write (child_set_timeout (tee_child self) (tee_timeout self)) buf in
  let self := tee_with_child c self in
  if bool_decide (res = G_IO_STATUS_NORMAL) && (tee_direction self =? G_IO_OUT) && negb (n =? 0)
  then '(res, error, self) ← z_stream_tee_write_fork self (take (Z.to_nat n) buf); Done (res, n, error, self)
  else Done (res, n, error, self).

Definition z_stream_tee_shutdown_method (self : ZStreamTee) (shutdown_mode : Z) : GIOStatus * option E * ZStreamTee :=
  let '(res, error, self) :=
    if (shutdown_mode =? SHUT_RDWR) || ((shutdown_mode =? SHUT_WR) && (tee_direction self =? G_IO_OUT))
       || ((shutdown_mode =? SHUT_RD) && (tee_direction self =? G_IO_IN))
    then let '(res, error, f) := child_shutdown (fork self) SHUT_RDWR in (res, error, tee_with_fork f self)
    else (G_IO_STATUS_NORMAL, None, self) in
  if decide (res = G_IO_STATUS_NORMAL)
  then let '(res, error, c) := child_shutdown (tee_child self) shutdown_mode in (res, error, tee_with_child c self)
  else (res, error, self).

(** Closing both streams, whose close methods are arguments. *)
Definition z_stream_tee_close_method (close_fork : F → GIOStatus * option E * F) (close : C → GIOStatus * option E * C)
    (self : ZStreamTee) : GIOStatus * option E * ZStreamTee :=
  let '(res, error, f) := close_fork (fork self) in
  let self := tee_with_fork f self in
  if decide (res = G_IO_STATUS_NORMAL)
  then let '(res, error, c) := close (tee_child self) in (res, error, tee_with_child c self)
  else (res, error, self).

(** What the child is told to wait for, and that the tee itself is never ready. *)
Definition z_stream_tee_watch_prepare (want : watch) : bool * Z * watch :=
  (false, -1, mkWatch (want_read want) (want_pri want) (want_write want)).
Definition z_stream_tee_watch_check : bool := false.
Definition z_stream_tee_watch_dispatch : bool := true.

(** ** Sessions

    Reads and writes until one of them does not succeed: the last status, the bytes read
    and the bytes that were accepted for writing. *)
Inductive tee_op : Set := TeeRead (n : Z) | TeeWrite (l : list Z).

Fixpoint run_tee (self : ZStreamTee) (ops : list tee_op) : outcome (GIOStatus * list Z * list Z * ZStreamTee) :=
  match ops with
  | [] => Done (G_IO_STATUS_NORMAL, [], [], self)
  | op :: ops =>
      '(st, rd, wr, self) ←
        match op with
        | TeeRead n => '(st, l, _, self) ← z_stream_tee_read_method self n; Done (st, l, [], self)
        | TeeWrite l => '(st, n, _, self) ← z_stream_tee_write_method self l; Done (st, [], take (Z.to_nat n) l, self)
        end;
      if decide (st = G_IO_STATUS_NORMAL) then
        '(st, rd2, wr2, self) ← run_tee self ops;
        Done (st, rd ++ rd2, wr ++ wr2, self)
      else Done (st, rd, wr, self)
  end.

(** ** What a tee promises *)

Context `{!ZStreamLaws C} `{!ZStreamWriteLaws C E} `{!ZStreamWriteLaws F E}.
Hypothesis fork_progress : ∀ (f : F) l n err f', l ≠ [] → child_write f l = (G_IO_STATUS_NORMAL, n, err, f') → 0 < n.
Hypothesis read_only_reads : ∀ (c : C) t n st l c', child_read c t n = (st, l, c') → written c' = written c.
Hypothesis write_only_writes : ∀ (c : C) l st n err c',
  child_write (E := E) c l = (st, n, err, c') → to_come c' = to_come c.
Hypothesis timeout_only : ∀ (c : C) t, to_come (child_set_timeout (E := E) c t) = to_come c.

Lemma write_fork_loop_ok fuel : ∀ f l,
  (length l < fuel)%nat →
  returns (write_fork_loop fuel f l) (λ '(st, _, f'), ∃ k,
    written f' = written f ++ take k l ∧ (st = G_IO_STATUS_NORMAL → take k l = l)).
Proof.
  induction fuel as [|fuel IH]; intros f l Hl; [lia|]. cbn [write_fork_loop].
  destruct l as [|x l]; [apply returns_ret; exists O; by rewrite app_nil_r|].
  set (l' := x :: l) in *. destruct (child_write f l') as [[[st n] err] f1] eqn:Hw. case_decide as Hst.
  - subst st. pose proof (fork_progress f l' n err f1 ltac:(done) Hw) as Hn.
    destruct (write_normal _ _ _ _ _ Hw) as [Hn2 Hwr].
    eapply returns_mono; [apply IH; rewrite length_drop; unfold l' in *; cbn [length] in *; lia|].
    intros [[st err'] f2] (k & Hk & Hall). exists (Z.to_nat n + k)%nat.
    assert (Htk : take (Z.to_nat n + k) l' = take (Z.to_nat n) l' ++ take k (drop (Z.to_nat n) l'))
      by (by rewrite take_take_drop).
    split; [by rewrite Hk, Hwr, Htk, <- app_assoc|]. intros Hst. by rewrite Htk, (Hall Hst), take_drop.
  - apply returns_ret. exists O. rewrite app_nil_r. split; [|done]. by eapply write_nothing.
Qed.

(** What the fork gets of what flows in the two directions. *)
Definition copied (dir : Z) (rd wr : list Z) : list Z := (if dir =? G_IO_IN then rd else []) ++ (if dir =? G_IO_OUT then wr else []).

Definition tee_step_ok (self : ZStreamTee) (st : GIOStatus) (rd wr : list Z) (self' : ZStreamTee) : Prop :=
  tee_direction self' = tee_direction self ∧ tee_timeout self' = tee_timeout self ∧
  written (E := E) (tee_child self') = written (E := E) (tee_child self) ++ wr ∧
  (st = G_IO_STATUS_NORMAL → to_come (tee_child self) = rd ++ to_come (tee_child self') ∧
     written (E := E) (fork self') = written (E := E) (fork self) ++ copied (tee_direction self) rd wr) ∧
  ∃ k, written (E := E) (fork self') = written (E := E) (fork self) ++ take k (copied (tee_direction self) rd wr).

Lemma in_not_out dir : dir = G_IO_IN → (dir =? G_IO_OUT) = false.
Proof. by intros ->. Qed.

Lemma tee_read_ok self n :
  0 < n → returns (z_stream_tee_read_method self n) (λ '(st, l, _, self'), tee_step_ok self st l [] self').
Proof.
  intros Hn. unfold z_stream_tee_read_method.
  destruct (child_read (tee_child self) (tee_timeout self) n) as [[res l] c] eqn:Hr.
  pose proof (read_only_reads _ _ _ _ _ _ Hr) as Hcw. cbn [tee_direction tee_with_child].
  assert (Hno : ∀ P : bool, P = false → (res = G_IO_STATUS_NORMAL → (tee_direction self =? G_IO_IN) && negb (zlen l =? 0) = P) →
    tee_step_ok self res l [] (tee_with_child c self)).
  { intros P HP Hcond. split; [done|]. split; [done|]. split; [by rewrite app_nil_r|]. split; [|exists O; by rewrite app_nil_r].
    intros Hres. specialize (Hcond Hres). rewrite Hres in Hr. destruct (read_normal _ _ _ _ _ Hn Hr) as (Hne & _ & Htc).
    split; [done|]. assert (Hdir : (tee_direction self =? G_IO_IN) = false).
    { destruct (tee_direction self =? G_IO_IN) eqn:Ed; [|done]. rewrite HP in Hcond. cbn [andb] in Hcond.
      destruct l; [done|]. cbn [length] in Hcond. by apply negb_false_iff, Z.eqb_eq in Hcond. }
    unfold copied. rewrite Hdir. destruct (_ =? G_IO_OUT); by rewrite !app_nil_r. }
  destruct (bool_decide_reflect (res = G_IO_STATUS_NORMAL)) as [Hres|Hres]; cbn [andb].
  2: { apply returns_ret. by apply (Hno false). }
  destruct ((tee_direction self =? G_IO_IN) && negb (zlen l =? 0)) eqn:Hcond.
  2: { apply returns_ret. by apply (Hno false). }
  subst res. apply andb_true_iff in Hcond as [Hdir Hl]. destruct (read_normal _ _ _ _ _ Hn Hr) as (Hne & _ & Htc).
  unfold z_stream_tee_write_fork. apply returns_bind, returns_bind.
  eapply returns_mono; [apply write_fork_loop_ok; lia|]. intros [[st err] f'] (k & Hk & Hall).
  apply returns_ret, returns_ret. cbn [fork tee_with_child tee_with_fork] in *.
  assert (Hcp : copied (tee_direction self) l [] = l).
  { unfold copied. rewrite Hdir. apply Z.eqb_eq in Hdir. by rewrite (in_not_out _ Hdir), app_nil_r. }
  split; [done|]. split; [done|]. split; [by rewrite app_nil_r|]. rewrite Hcp. cbn [tee_child fork tee_with_child tee_with_fork].
  split; [|by exists k]. intros Hst. split; [done|]. by rewrite Hk, (Hall Hst).
Qed.

Lemma tee_write_ok self l :
  returns (z_stream_tee_write_method self l) (λ '(st, n, _, self'), tee_step_ok self st [] (take (Z.to_nat n) l) self' ∨
    st ≠ G_IO_STATUS_NORMAL ∧ tee_step_ok self st [] [] self').
Proof.
  unfold z_stream_tee_write_method. set (c0 := child_set_timeout (tee_child self) (tee_timeout self)).
  destruct (child_write c0 l) as [[[res n] err] c] eqn:Hw. cbn [tee_direction tee_with_child].
  pose proof (write_only_writes _ _ _ _ _ _ Hw) as Htc. unfold c0 in Htc. rewrite timeout_only in Htc.
  destruct (bool_decide_reflect (res = G_IO_STATUS_NORMAL)) as [Hres|Hres]; cbn [andb].
  2: { apply returns_ret. right. split; [done|]. assert (Hwr : written c = written (E := E) (tee_child self)).
       { rewrite (write_nothing _ _ _ _ _ _ Hw Hres). apply written_set_timeout. }
       split; [done|]. split; [done|]. split; [by rewrite app_nil_r|]. split; [done|]. exists O. by rewrite app_nil_r. }
  subst res. destruct (write_normal _ _ _ _ _ Hw) as [Hn Hwr]. unfold c0 in Hwr. rewrite written_set_timeout in Hwr.
  destruct ((tee_direction self =? G_IO_OUT) && negb (n =? 0)) eqn:Hcond.
  - apply andb_true_iff in Hcond as [Hdir _]. unfold z_stream_tee_write_fork. apply returns_bind, returns_bind.
    eapply returns_mono; [apply write_fork_loop_ok; lia|]. intros [[st err'] f'] (k & Hk & Hall).
    apply returns_ret, returns_ret. left. cbn [fork tee_with_child tee_with_fork] in *.
    assert (Hcp : copied (tee_direction self) [] (take (Z.to_nat n) l) = take (Z.to_nat n) l).
    { unfold copied. rewrite Hdir. by destruct (_ =? G_IO_IN). }
    split; [done|]. split; [done|]. split; [done|]. rewrite Hcp. cbn [tee_child fork tee_with_child tee_with_fork].
    split; [|by exists k]. intros Hst. split; [done|]. by rewrite Hk, (Hall Hst).
  - apply returns_ret. left. split; [done|]. split; [done|]. split; [done|].
    assert (Hcp : copied (tee_direction self) [] (take (Z.to_nat n) l) = []).
    { unfold copied. destruct (_ =? G_IO_OUT); [|by destruct (_ =? G_IO_IN)].
      cbn [andb] in Hcond. apply negb_false_iff, Z.eqb_eq in Hcond as ->. by destruct (_ =? G_IO_IN). }
    rewrite Hcp. split; [|exists O; by rewrite app_nil_r]. intros _. split; [done|]. by rewrite app_nil_r.
Qed.

Definition tee_op_ok (op : tee_op) : Prop := match op with TeeRead n => 0 < n | TeeWrite _ => True end.

(** A session over a tee is one over its child: what is read comes from it in order, what
    is written goes to it, and the fork has an exact copy of one direction, whatever the
    sizes of the reads and writes of both streams; and when a call did not succeed, the
    fork has at least nothing that did not flow. *)
Theorem tee_session_spec ops : ∀ self,
  (tee_direction self = G_IO_IN ∨ tee_direction self = G_IO_OUT) → Forall tee_op_ok ops →
  returns (run_tee self ops) (λ '(st, rd, wr, self'),
    (st = G_IO_STATUS_NORMAL →
       to_come (tee_child self) = rd ++ to_come (tee_child self') ∧
       written (E := E) (tee_child self') = written (E := E) (tee_child self) ++ wr ∧
       (tee_direction self = G_IO_IN → written (E := E) (fork self') = written (E := E) (fork self) ++ rd) ∧
       (tee_direction self = G_IO_OUT → written (E := E) (fork self') = written (E := E) (fork self) ++ wr)) ∧
    (tee_direction self = G_IO_IN → ∃ k, written (E := E) (fork self') = written (E := E) (fork self) ++ take k rd) ∧
    (tee_direction self = G_IO_OUT → ∃ k, written (E := E) (fork self') = written (E := E) (fork self) ++ take k wr)).
Proof.
  assert (Hin : ∀ rd wr, copied G_IO_IN rd wr = rd) by (intros; apply app_nil_r).
  assert (Hout : ∀ rd wr, copied G_IO_OUT rd wr = wr) by done.
  induction ops as [|op ops IH]; intros self Hd Hops.
  { apply returns_ret. split; [by rewrite !app_nil_r|]. split; intros _; exists O; by rewrite app_nil_r. }
  apply Forall_cons in Hops as [Hop Hops]. cbn [run_tee]. apply returns_bind.
  eapply (returns_mono _ (λ '(st, rd, wr, self'), (st = G_IO_STATUS_NORMAL → tee_step_ok self st rd wr self') ∧
    (st ≠ G_IO_STATUS_NORMAL → ∃ k, written (E := E) (fork self') = written (E := E) (fork self) ++
       take k (copied (tee_direction self) rd wr)))).
  { destruct op as [n|l]; apply returns_bind.
    - eapply returns_mono; [by apply tee_read_ok|]. intros [[[st l] err] self'] Hstep. apply returns_ret.
      split; [done|]. intros _. apply Hstep.
    - eapply returns_mono; [by apply tee_write_ok|]. intros [[[st n] err] self'] Hstep. apply returns_ret.
      split; [by intros ?; destruct Hstep as [?|[? ?]]|]. intros _.
      destruct Hstep as [(_ & _ & _ & _ & Hk)|(_ & _ & _ & _ & _ & k & Hk)]; [done|].
      exists O. rewrite Hk, app_nil_r. replace (copied (tee_direction self) [] []) with (@nil Z)
        by (unfold copied; by destruct (_ =? G_IO_IN), (_ =? G_IO_OUT)). by rewrite take_nil, app_nil_r. }
  intros [[[st rd] wr] self1] [Hnorm Hfail]. case_decide as Hst.
  - destruct (Hnorm Hst) as (Hd1 & _ & Hwr & Hio & _). destruct (Hio Hst) as [Hrd Hfk]. apply returns_bind.
    eapply returns_mono; [apply IH; [by rewrite Hd1|done]|]. rewrite Hd1.
    intros [[[st2 rd2] wr2] self2] (Hall & Hki & Hko). apply returns_ret. split; [|split].
    + intros Hst2. destruct (Hall Hst2) as (H1' & H2' & H3' & H4').
      split; [by rewrite Hrd, H1', app_assoc|]. split; [by rewrite H2', Hwr, app_assoc|].
      split; intros Hdir; [rewrite (H3' Hdir)|rewrite (H4' Hdir)]; rewrite Hfk, Hdir, ?Hin, ?Hout; by rewrite app_assoc.
    + intros Hdir. destruct (Hki Hdir) as [k Hk]. exists (length rd + k)%nat.
      rewrite Hk, Hfk, Hdir, Hin, take_app_add, app_assoc. done.
    + intros Hdir. destruct (Hko Hdir) as [k Hk]. exists (length wr + k)%nat.
      rewrite Hk, Hfk, Hdir, Hout, take_app_add, app_assoc. done.
  - apply returns_ret. destruct (Hfail Hst) as [k Hk]. split; [done|].
    split; intros Hdir; exists k; rewrite Hk, Hdir, ?Hin, ?Hout; done.
Qed.
End tee.

Arguments ZStreamTee : clear implicits.

(** ** Examples *)

Module ToyTee.
(** A child that has bytes to read and takes at most three at a time; a fork that takes two
    at a time and can hold a limited number. *)
Record toy_child := mkToyChild { incoming : list Z; taken : list Z }.
Record toy_fork := mkToyFork { room : Z; held : list Z }.

#[export] Instance child_read_ops : ZStreamOps toy_child := {
  child_read c t n := match incoming c with
                      | [] => (G_IO_STATUS_EOF, [], c)
                      | _ => let k := Z.to_nat (Z.min n 3) in
                             (G_IO_STATUS_NORMAL, take k (incoming c), mkToyChild (drop k (incoming c)) (taken c))
                      end;
  to_come := incoming
}.
#[export] Instance child_write_ops : ZStreamWriteOps toy_child unit := {
  child_write c l := (G_IO_STATUS_NORMAL, Z.min 3 (zlen l), None, mkToyChild (incoming c) (taken c ++ take (Z.to_nat (Z.min 3 (zlen l))) l));
  child_set_timeout c t := c;
  child_set_nonblock c b := c;
  child_shutdown c i := (G_IO_STATUS_NORMAL, None, c);
  written := taken
}.
#[export] Instance fork_write_ops : ZStreamWriteOps toy_fork unit := {
  child_write f l :=
    if room f <=? zlen (held f) then (G_IO_STATUS_AGAIN, 0, None, f)
    else let k := Z.min 2 (zlen l) in (G_IO_STATUS_NORMAL, k, None, mkToyFork (room f) (held f ++ take (Z.to_nat k) l));
  child_set_timeout c t := c;
  child_set_nonblock c b := c;
  child_shutdown c i := (G_IO_STATUS_NORMAL, None, c);
  written := held
}.

#[export] Instance child_read_laws : ZStreamLaws toy_child.
Proof.
  split; intros [inc tk] t n l c'; cbn; destruct inc as [|x inc]; try done; try (by intros [= <- <-]).
  - intros Hn [= <- <-]. set (m := Z.to_nat _). assert (0 < m)%nat as Hm by (unfold m; lia).
    split; [by destruct m; [lia|]|]. split; [|symmetry; apply (take_drop m (x :: inc))].
    rewrite length_take. unfold m. lia.
Qed.
#[export] Instance child_write_laws : ZStreamWriteLaws toy_child unit.
Proof.
  split; try done.
  - intros c l n err c' [= <- <- <-]. cbn. split; [lia|done].
  - intros c l st n err c' [= <- <- <- <-]. done.
  - by intros c i st err c' [= <- <- <-].
Qed.
#[export] Instance fork_write_laws : ZStreamWriteLaws toy_fork unit.
Proof.
  split; try done.
  - intros c l n err c'. cbn. case_match; [done|]. intros [= <- <- <-]. cbn. split; [lia|done].
  - intros c l st n err c'. cbn. case_match; intros [= <- <- <- <-]; done.
  - by intros c i st err c' [= <- <- <-].
Qed.

Definition tee (dir n : Z) : ZStreamTee toy_child toy_fork :=
  mkTee (mkToyChild [1; 2; 3; 4; 5] []) (mkToyFork n []) dir 0.
Definition session : list tee_op := [TeeRead 2; TeeWrite [7; 8; 9; 10]; TeeRead 9].
End ToyTee.
Import ToyTee.

Lemma tee_session_spec_witness :
  returns (run_tee (E := unit) (tee G_IO_IN 100) session) (λ '(st, rd, wr, self'),
    (st = G_IO_STATUS_NORMAL → [1; 2; 3; 4; 5] = rd ++ incoming (tee_child self') ∧ taken (tee_child self') = [] ++ wr ∧
       (G_IO_IN = G_IO_IN → held (fork self') = [] ++ rd) ∧ (G_IO_IN = G_IO_OUT → held (fork self') = [] ++ wr)) ∧
    (G_IO_IN = G_IO_IN → ∃ k, held (fork self') = [] ++ take k rd) ∧
    (G_IO_IN = G_IO_OUT → ∃ k, held (fork self') = [] ++ take k wr)).
Proof.
  refine (tee_session_spec (E := unit) _ _ _ _ session (tee G_IO_IN 100) _ _).
  - intros f l n err f' Hl. cbn. case_match; [done|]. intros [= <- <- <-]. destruct l; [done|cbn [length]; lia].
  - intros [inc tk] t n st l c'. cbn. destruct inc; by intros [= <- <- <-].
  - by intros c l st n err c' [= <- <- <- <-].
  - done.
  - by left.
  - by repeat constructor.
Defined.

Example toy_session : (x ← run_tee (E := unit) (tee G_IO_IN 100) session; Done (fst x, fork (snd x)))
  = Done (G_IO_STATUS_NORMAL, [1; 2; 3; 4; 5], [7; 8; 9], mkToyFork 100 [1; 2; 3; 4; 5]).
Proof. by vm_compute. Qed.

(** When the fork cannot take the copy, the call reports the status of the fork: the bytes
    read from the child are lost to a caller who takes it as nothing read, and are not in
    the fork either; bytes written are in the child, and are written again when the caller
    tries again as the status says. *)
Example fork_full_loses_bytes :
  (x ← z_stream_tee_read_method (E := unit) (tee G_IO_IN 2) 3; Done (fst (fst (fst x)), snd x))
    = Done (G_IO_STATUS_AGAIN, mkTee (mkToyChild [4; 5] []) (mkToyFork 2 [1; 2]) G_IO_IN 0).
Proof. by vm_compute. Qed.

Example fork_full_repeats_bytes :
  ('(st, _, _, self) ← z_stream_tee_write_method (E := unit) (tee G_IO_OUT 2) [7; 8; 9];
   '(st2, _, _, self) ← z_stream_tee_write_method (E := unit) self [7; 8; 9];
   Done (st, st2, taken (tee_child self), held (fork self)))
    = Done (G_IO_STATUS_AGAIN, G_IO_STATUS_AGAIN, [7; 8; 9; 7; 8; 9], [7; 8]).
Proof. by vm_compute. Qed.
