(* ===== verification/StreamFd.v ===== *)
(** * Streams over file descriptors (src/src/streamfd.c)

    The bottom of every stack of streams that talks to the network.  The descriptor is wrapped
    in a GIOChannel of GLib, which is known by its operations and their laws ([GIOChannel],
    [GIOChannelLaws]); what poll, send, shutdown, recv and fcntl answer is given call by call.
    The stream has the two interfaces of StreamApi.v, so that what is proved of the streams above
    holds for stacks that end here. *)

From S2P Require Import Prelude StreamApi Stream StreamTee.
From stdpp Require Import list_numbers.
Open Scope Z_scope.

Definition G_IO_ERR : Z := 8.
Definition G_IO_HUP : Z := 16.
Definition G_IO_FLAG_NONBLOCK : Z := 2.

(** ** GIOChannel

    An unbuffered channel on a descriptor: what it reads and writes, its flags, and closing it. *)
Class GIOChannel (K : Type) := {
  g_io_channel_get_flags : K → Z;
  g_io_channel_set_flags : K → Z → GIOStatus * K;
  g_io_channel_read_chars : K → Z → GIOStatus * list Z * K;
  g_io_channel_write_chars : K → list Z → GIOStatus * Z * K;
  g_io_channel_shutdown : K → GIOStatus * K;
  incoming : K → list Z;           (* what there is still to be read *)
  outgoing : K → list Z            (* what was written *)
}.

Class GIOChannelLaws (K : Type) `{GIOChannel K} := {
  read_chars_normal k n l k' :
    0 < n → g_io_channel_read_chars k n = (G_IO_STATUS_NORMAL, l, k') → l ≠ [] ∧ zlen l ≤ n ∧ incoming k = l ++ incoming k';
  read_chars_eof k n l k' : g_io_channel_read_chars k n = (G_IO_STATUS_EOF, l, k') → incoming k = [] ∧ incoming k' = [];
  read_chars_other k n st l k' :
    g_io_channel_read_chars k n = (st, l, k') → st = G_IO_STATUS_AGAIN ∨ st = G_IO_STATUS_ERROR → incoming k' = incoming k;
  read_chars_keeps k n st l k' :
    g_io_channel_read_chars k n = (st, l, k') →
    outgoing k' = outgoing k ∧ g_io_channel_get_flags k' = g_io_channel_get_flags k;
  (** The number of bytes written, "even if the return value is not G_IO_STATUS_NORMAL". *)
  write_chars_taken k l st n k' :
    g_io_channel_write_chars k l = (st, n, k') → 0 ≤ n ≤ zlen l ∧ outgoing k' = outgoing k ++ take (Z.to_nat n) l;
  write_chars_keeps k l st n k' :
    g_io_channel_write_chars k l = (st, n, k') →
    incoming k' = incoming k ∧ g_io_channel_get_flags k' = g_io_channel_get_flags k;
  set_flags_ok k f st k' :
    g_io_channel_set_flags k f = (st, k') →
    incoming k' = incoming k ∧ outgoing k' = outgoing k ∧
    has (g_io_channel_get_flags k') G_IO_FLAG_NONBLOCK =
      has (if bool_decide (st = G_IO_STATUS_NORMAL) then f else g_io_channel_get_flags k) G_IO_FLAG_NONBLOCK
}.

(** z_stream_fd_new turns buffering off: a write of the channel is one write of the system, which
    takes bytes or fails.  (Only for streams above that rely on it, [fd_write_laws].) *)
Class Unbuffered (K : Type) `{GIOChannel K} := {
  write_unbuffered k l st n k' :
    g_io_channel_write_chars k l = (st, n, k') → st ≠ G_IO_STATUS_NORMAL → n = 0
}.

Inductive fd_error : Set := TimedOut | ChannelError | SystemError.

(** What the calls answer: poll, and send, shutdown and recv. *)
Inductive poll_answer : Set := PollReady | PollTimeout | PollEintr | PollError.
Inductive send_answer : Set := Sent (n : Z) | SendEintr | SendEagain | SendError.
Inductive shutdown_answer : Set := ShutdownOk | ShutdownEintr | ShutdownError.
Inductive recv_answer : Set := RecvData | RecvEof | RecvEagain | RecvEnotsock | RecvError.

#[global] Instance poll_answer_eq_dec : EqDecision poll_answer.
Proof. solve_decision. Defined.

Section streamfd.
Context {K : Type} `{GIOChannel K}.

Record ZStreamFD := mkFD {
  channel : K;
  fd : Z;
  keepalive : Z;
  poll_fd : Z;                     (* pollfd *)
  poll_events : Z;
  poll_revents : Z;
  fd_timeout : Z;                  (* of the super class, as the next ones *)
  fd_umbrella_state : Z;
  fd_want : StreamApi.watch;
  fd_cb : direction → bool;        (* whether the callback is set *)
  fd_bytes_sent : Z
}.

Definition fd_with_channel (k : K) (s : ZStreamFD) : ZStreamFD :=
  mkFD k (fd s) (keepalive s) (poll_fd s) (poll_events s) (poll_revents s) (fd_timeout s) (fd_umbrella_state s) (fd_want s) (fd_cb s) (fd_bytes_sent s).
Definition fd_with_keepalive (n : Z) (s : ZStreamFD) : ZStreamFD :=
  mkFD (channel s) (fd s) n (poll_fd s) (poll_events s) (poll_revents s) (fd_timeout s) (fd_umbrella_state s) (fd_want s) (fd_cb s) (fd_bytes_sent s).
Definition fd_with_poll (d events revents : Z) (s : ZStreamFD) : ZStreamFD :=
  mkFD (channel s) (fd s) (keepalive s) d events revents (fd_timeout s) (fd_umbrella_state s) (fd_want s) (fd_cb s) (fd_bytes_sent s).
Definition fd_with_timeout (t : Z) (s : ZStreamFD) : ZStreamFD :=
  mkFD (channel s) (fd s) (keepalive s) (poll_fd s) (poll_events s) (poll_revents s) t (fd_umbrella_state s) (fd_want s) (fd_cb s) (fd_bytes_sent s).
Definition fd_with_sent (n : Z) (s : ZStreamFD) : ZStreamFD :=
  mkFD (channel s) (fd s) (keepalive s) (poll_fd s) (poll_events s) (poll_revents s) (fd_timeout s) (fd_umbrella_state s) (fd_want s) (fd_cb s) n.

(** ** The events *)

Definition wanted (d : direction) (s : ZStreamFD) : bool :=
  match d with DRead => want_read (fd_want s) | DPri => want_pri (fd_want s) | DWrite => want_write (fd_want s) end.
Definition io_cond (d : direction) : Z := match d with DRead => G_IO_IN | DPri => G_IO_PRI | DWrite => G_IO_OUT end.

(** Whether the source is ready, and the timeout. *)
Definition z_stream_fd_watch_prepare (s : ZStreamFD) : bool * Z * ZStreamFD :=
  if negb (poll_revents s =? 0) then (true, -1, s)
  else
    let e := if want_read (fd_want s) then set_flag 0 G_IO_IN else 0 in
    let e := if want_write (fd_want s) then set_flag e G_IO_OUT else e in
    let e := if want_pri (fd_want s) then set_flag e G_IO_PRI else e in
    (false, -1, fd_with_poll (poll_fd s) e (poll_revents s) s).

Definition z_stream_fd_watch_check (s : ZStreamFD) : bool := negb (poll_revents s =? 0).

Section dispatch.
(** The callbacks of the application: what they are told and answer, and what they do to the
    stream. *)
Context (callback : direction → Z → ZStreamFD → bool * ZStreamFD).

(** A call: which callback, and what it is told. *)
Definition call : Type := direction * Z.

(** One of the three parts behind the error cases. *)
Definition dispatch_part (d : direction) (poll_cond : Z) (x : bool * list call * ZStreamFD) : bool * list call * ZStreamFD :=
  let '(rc, calls, s) := x in
  if wanted d s && has poll_cond (io_cond d) && rc then
    if fd_cb s d then let '(answer, s) := callback d poll_cond s in (rc && answer, calls ++ [(d, poll_cond)], s)
    else (rc, calls, s)
  else (rc, calls, s).

(** The answer, the calls, whether the source was destroyed, and the stream. *)
Definition z_stream_fd_watch_dispatch (s : ZStreamFD) : outcome (bool * list call * bool * ZStreamFD) :=
  let poll_cond := poll_revents s in
  let s := fd_with_poll (poll_fd s) (poll_events s) 0 s in
  if has poll_cond (Z.lor G_IO_ERR G_IO_HUP) then
    if want_read (fd_want s) then
      if fd_cb s DRead then let '(rc, s) := callback DRead poll_cond s in Done (rc, [(DRead, poll_cond)], false, s)
      else Fault OutOfBounds
    else if want_write (fd_want s) then
      if fd_cb s DWrite then let '(rc, s) := callback DWrite poll_cond s in Done (rc, [(DWrite, poll_cond)], false, s)
      else Fault OutOfBounds
    else Done (true, [], true, s)
  else
    let '(rc, calls, s) := dispatch_part DPri poll_cond (dispatch_part DWrite poll_cond (dispatch_part DRead poll_cond (true, [], s))) in
    Done (rc, calls, false, s).
End dispatch.

(** ** Reading and writing *)

(** poll is called again with the same timeout when it was interrupted.  The result, the answers
    that are left. *)
Fixpoint wait_loop (polls : list poll_answer) : outcome (bool * list poll_answer) :=
  match polls with
  | [] => Fault Blocked
  | PollReady :: polls => Done (true, polls)
  | PollEintr :: polls => wait_loop polls
  | _ :: polls => Done (false, polls)
  end.

Definition z_stream_wait_fd (s : ZStreamFD) (timeout : Z) (polls : list poll_answer) : outcome (bool * list poll_answer) :=
  if has (g_io_channel_get_flags (channel s)) G_IO_FLAG_NONBLOCK || (timeout =? -2) then Done (true, polls)
  else wait_loop polls.

Definition z_stream_fd_read_method (s : ZStreamFD) (count : Z) (polls : list poll_answer)
    : outcome (GIOStatus * list Z * option fd_error * ZStreamFD * list poll_answer) :=
  '(ready, polls) ← z_stream_wait_fd s (fd_timeout s) polls;
  if negb ready then Done (G_IO_STATUS_ERROR, [], Some TimedOut, s, polls)
  else
    let '(res, l, k) := g_io_channel_read_chars (channel s) count in
    Done (res, l, if bool_decide (res = G_IO_STATUS_ERROR) then Some ChannelError else None, fd_with_channel k s, polls).

Definition z_stream_fd_write_method (s : ZStreamFD) (buf : list Z) (polls : list poll_answer)
    : outcome (GIOStatus * Z * option fd_error * ZStreamFD * list poll_answer) :=
  '(ready, polls) ← z_stream_wait_fd s (fd_timeout s) polls;
  if negb ready then Done (G_IO_STATUS_ERROR, 0, Some TimedOut, s, polls)
  else
    let '(res, n, k) := g_io_channel_write_chars (channel s) buf in
    Done (res, n, if bool_decide (res = G_IO_STATUS_ERROR) then Some ChannelError else None, fd_with_channel k s, polls).

(** Urgent data: the number of bytes on success. *)
Fixpoint send_loop (s : ZStreamFD) (sends : list send_answer) (polls : list poll_answer)
    : outcome (option send_answer * list send_answer * list poll_answer) :=
  '(ready, polls) ← z_stream_wait_fd s (fd_timeout s) polls;
  if negb ready then Done (None, sends, polls)
  else
    match sends with
    | [] => Fault Blocked
    | SendEintr :: sends => send_loop s sends polls
    | r :: sends => Done (Some r, sends, polls)
    end.

Definition z_stream_fd_write_pri_method (s : ZStreamFD) (sends : list send_answer) (polls : list poll_answer)
    : outcome (GIOStatus * option Z * option fd_error * ZStreamFD * list send_answer * list poll_answer) :=
  '(r, sends, polls) ← send_loop s sends polls;
  match r with
  | None => Done (G_IO_STATUS_ERROR, None, Some TimedOut, s, sends, polls)
  | Some (Sent n) => Done (G_IO_STATUS_NORMAL, Some n, None, fd_with_sent (u64 (fd_bytes_sent s + n)) s, sends, polls)
  | Some SendEagain => Done (G_IO_STATUS_AGAIN, None, None, s, sends, polls)
  | Some _ => Done (G_IO_STATUS_ERROR, None, Some SystemError, s, sends, polls)
  end.

Fixpoint shutdown_loop (answers : list shutdown_answer) : outcome (bool * list shutdown_answer) :=
  match answers with
  | [] => Fault Blocked
  | ShutdownEintr :: answers => shutdown_loop answers
  | ShutdownOk :: answers => Done (true, answers)
  | ShutdownError :: answers => Done (false, answers)
  end.

Definition z_stream_fd_shutdown_method (s : ZStreamFD) (answers : list shutdown_answer)
    : outcome (GIOStatus * option fd_error * list shutdown_answer) :=
  '(ok, answers) ← shutdown_loop answers;
  Done (if ok : bool then (G_IO_STATUS_NORMAL, None, answers) else (G_IO_STATUS_ERROR, Some SystemError, answers)).

(** [super]: what closing the super class gives. *)
Definition z_stream_fd_close_method (super : GIOStatus) (s : ZStreamFD) : GIOStatus * ZStreamFD :=
  if bool_decide (super = G_IO_STATUS_NORMAL)
  then let '(res, k) := g_io_channel_shutdown (channel s) in (res, fd_with_channel k s)
  else (super, s).

(** ** Control

    [fcntl]: whether fcntl succeeds; [recv]: what recv answers to a peek.  [None]: the default of
    the switch, z_stream_ctrl_method. *)
Definition z_stream_fd_ctrl_method (fcntl : bool) (recv : recv_answer) (s : ZStreamFD) (function : Z) (v : ctrl_value)
    : option (bool * ctrl_value * ZStreamFD) :=
  let msg := ZST_CTRL_MSG function in
  if msg =? ZST_CTRL_SET_CLOSEONEXEC then
    match v with ValInt _ => Some (fcntl, v, s) | _ => Some (false, v, s) end
  else if msg =? ZST_CTRL_SET_NONBLOCK then
    match v with
    | ValInt n =>
        let flags := g_io_channel_get_flags (channel s) in
        let '(ret, k) := g_io_channel_set_flags (channel s)
                           (if to_bool n then set_flag flags G_IO_FLAG_NONBLOCK else clear_flag flags G_IO_FLAG_NONBLOCK) in
        Some (bool_decide (ret = G_IO_STATUS_NORMAL), v, fd_with_channel k s)
    | _ => Some (false, v, s)
    end
  else if msg =? ZST_CTRL_GET_NONBLOCK then
    match v with
    | ValInt _ => Some (true, ValInt (of_bool (has (g_io_channel_get_flags (channel s)) G_IO_FLAG_NONBLOCK)), s)
    | _ => Some (false, v, s)
    end
  else if msg =? ZST_CTRL_GET_FD then
    match v with ValInt _ => Some (true, ValInt (fd s), s) | _ => Some (false, v, s) end
  else if msg =? ZST_CTRL_GET_BROKEN then
    match v with
    | ValInt _ =>
        Some (true, ValInt (of_bool match recv with RecvData | RecvEagain | RecvEnotsock => false | RecvEof | RecvError => true end), s)
    | _ => Some (false, v, s)
    end
  else if msg =? ZST_CTRL_GET_KEEPALIVE then
    match v with ValInt _ => Some (true, ValInt (keepalive s), s) | _ => Some (false, v, s) end
  else if msg =? ZST_CTRL_SET_KEEPALIVE then
    match v with ValInt n => Some (true, v, fd_with_keepalive n s) | _ => Some (false, v, s) end
  else None.

(** ** Sources, contexts, and the life of a stream *)

(** Behind the method of the super class. *)
Definition z_stream_fd_attach_source_method (s : ZStreamFD) : ZStreamFD :=
  fd_with_poll (fd s) (poll_events s) (poll_revents s) s.

(** [super]: what the super class saves, and the size of it; a gboolean is added. *)
Definition z_stream_fd_extra_get_size_method (super : Z) : Z := super + 4.

Definition fd_get_nonblock (s : ZStreamFD) : bool :=
  match z_stream_fd_ctrl_method true RecvEof s ZST_CTRL_GET_NONBLOCK (ValInt 0) with
  | Some (true, ValInt n, _) => to_bool n
  | _ => false
  end.
Definition fd_set_nonblock (b : bool) (s : ZStreamFD) : ZStreamFD :=
  match z_stream_fd_ctrl_method true RecvEof s ZST_CTRL_SET_NONBLOCK (ValInt (of_bool b)) with
  | Some (_, _, s) => s
  | None => s
  end.

Definition z_stream_fd_extra_save_method (super : list bool) (s : ZStreamFD) : list bool := super ++ [fd_get_nonblock s].

(** What follows the part of the super class. *)
Definition z_stream_fd_extra_restore_method (extra : list bool) (s : ZStreamFD) : outcome (list bool * ZStreamFD) :=
  match extra with
  | nonblock :: extra => Done (extra, fd_set_nonblock nonblock s)
  | [] => Fault OutOfBounds
  end.

(** z_stream_new sets the timeout to -2, which means that poll is not called; there are no events and callbacks. *)
Definition z_stream_fd_new (d : Z) (k : K) : ZStreamFD :=
  mkFD k d 0 0 0 0 (-2) 0 (StreamApi.mkWatch false false false) (λ _, false) 0.
End streamfd.
Arguments ZStreamFD K : clear implicits.

(** * What is promised *)

Section promises.
Context {K : Type} `{GIOChannelLaws K}.
Implicit Types s : ZStreamFD K.

(** ** Waiting *)

Lemma wait_loop_eq k r rest : r ≠ PollEintr → wait_loop (replicate k PollEintr ++ r :: rest) = Done (bool_decide (r = PollReady), rest).
Proof. intros Hr. induction k as [|k IH]; [by destruct r|exact IH]. Qed.

(** Whatever the answers are, waiting takes some of them and says whether the descriptor is ready. *)
Lemma wait_fd_safe s t ps : safe (z_stream_wait_fd s t ps) (λ '(_, ps'), ps' `suffix_of` ps).
Proof.
  unfold z_stream_wait_fd. case_match; [by apply safe_ret|]. induction ps as [|p ps IH]; [done|].
  cbn. assert (Hs : ps `suffix_of` p :: ps) by by eexists [_].
  destruct p; try by apply safe_ret. eapply safe_mono; [exact IH|]. intros [b ps'] Hp. by etransitivity.
Qed.

(** ** The interfaces *)

(** A stream with the answers that poll and shutdown will give; of a call that waits forever only
    an error is seen. *)
Record fd_stream := mkFdStream { stream : ZStreamFD K; polls : list poll_answer; shutdowns : list shutdown_answer }.

#[export] Instance fd_read_ops : ZStreamOps fd_stream := {
  child_read c t n :=
    match z_stream_fd_read_method (fd_with_timeout t (stream c)) n (polls c) with
    | Done (st, l, _, s, ps) => (st, l, mkFdStream s ps (shutdowns c))
    | Fault _ => (G_IO_STATUS_ERROR, [], c)
    end;
  to_come c := incoming (channel (stream c))
}.

#[export] Instance fd_write_ops : ZStreamWriteOps fd_stream fd_error := {
  child_write c l :=
    match z_stream_fd_write_method (stream c) l (polls c) with
    | Done (st, n, err, s, ps) => (st, n, err, mkFdStream s ps (shutdowns c))
    | Fault _ => (G_IO_STATUS_ERROR, 0, None, c)
    end;
  child_set_timeout c t := mkFdStream (fd_with_timeout t (stream c)) (polls c) (shutdowns c);
  child_set_nonblock c b := mkFdStream (fd_set_nonblock b (stream c)) (polls c) (shutdowns c);
  child_shutdown c i :=
    match z_stream_fd_shutdown_method (stream c) (shutdowns c) with
    | Done (st, err, answers) => (st, err, mkFdStream (stream c) (polls c) answers)
    | Fault _ => (G_IO_STATUS_ERROR, None, c)
    end;
  written c := outgoing (channel (stream c))
}.

(** What the read method may answer. *)
Lemma read_method_cases s n ps :
  safe (z_stream_fd_read_method s n ps) (λ '(st, l, err, s', _),
    (st = G_IO_STATUS_ERROR ∧ l = [] ∧ err = Some TimedOut ∧ s' = s) ∨
    ∃ k, g_io_channel_read_chars (channel s) n = (st, l, k) ∧ s' = fd_with_channel k s ∧
         err = if bool_decide (st = G_IO_STATUS_ERROR) then Some ChannelError else None).
Proof.
  unfold z_stream_fd_read_method. eapply safe_bind, safe_mono; [apply wait_fd_safe|]. intros [ready ps'] _.
  destruct ready; cbn [negb]; [|apply safe_ret; by left].
  destruct (g_io_channel_read_chars _ _) as [[st l] k] eqn:E. apply safe_ret. right. by exists k.
Qed.

Lemma write_method_cases s l ps :
  safe (z_stream_fd_write_method s l ps) (λ '(st, n, err, s', _),
    (st = G_IO_STATUS_ERROR ∧ n = 0 ∧ err = Some TimedOut ∧ s' = s) ∨
    ∃ k, g_io_channel_write_chars (channel s) l = (st, n, k) ∧ s' = fd_with_channel k s ∧
         err = if bool_decide (st = G_IO_STATUS_ERROR) then Some ChannelError else None).
Proof.
  unfold z_stream_fd_write_method. eapply safe_bind, safe_mono; [apply wait_fd_safe|]. intros [ready ps'] _.
  destruct ready; cbn [negb]; [|apply safe_ret; by left].
  destruct (g_io_channel_write_chars _ _) as [[st n] k] eqn:E. apply safe_ret. right. by exists k.
Qed.

Lemma child_read_cases c t n st l c' :
  child_read c t n = (st, l, c') →
  (st = G_IO_STATUS_ERROR ∧ l = [] ∧ channel (stream c') = channel (stream c)) ∨
  g_io_channel_read_chars (channel (stream c)) n = (st, l, channel (stream c')).
Proof.
  cbn. pose proof (read_method_cases (fd_with_timeout t (stream c)) n (polls c)) as Hc.
  destruct (z_stream_fd_read_method _ _ _) as [[[[[st' l'] err] s'] ps]|f]; cbn in Hc; intros [= <- <- <-]; [|by left].
  destruct Hc as [(-> & -> & _ & ->)|(k & E & -> & _)]; [by left|by right].
Qed.

Lemma child_write_cases c l st n err c' :
  child_write c l = (st, n, err, c') →
  (st = G_IO_STATUS_ERROR ∧ n = 0 ∧ channel (stream c') = channel (stream c)) ∨
  g_io_channel_write_chars (channel (stream c)) l = (st, n, channel (stream c')).
Proof.
  cbn. pose proof (write_method_cases (stream c) l (polls c)) as Hc.
  destruct (z_stream_fd_write_method _ _ _) as [[[[[st' n'] err'] s'] ps]|f]; cbn in Hc; intros [= <- <- <- <-]; [|by left].
  destruct Hc as [(-> & -> & _ & ->)|(k & E & -> & _)]; [by left|by right].
Qed.

Lemma child_write_taken c l st n (err : option fd_error) c' :
  child_write c l = (st, n, err, c') → written (E := fd_error) c' = written (E := fd_error) c ++ take (Z.to_nat n) l.
Proof.
  intros [(_ & -> & Hk)|E]%child_write_cases; cbn [written fd_write_ops]; [by rewrite Hk, app_nil_r|].
  by apply write_chars_taken in E as [_ ->].
Qed.

Lemma set_nonblock_channel b s :
  incoming (channel (fd_set_nonblock b s)) = incoming (channel s) ∧ outgoing (channel (fd_set_nonblock b s)) = outgoing (channel s).
Proof.
  unfold fd_set_nonblock, z_stream_fd_ctrl_method. cbn -[has set_flag clear_flag to_bool of_bool].
  set (f := if to_bool (of_bool b) then _ else _). destruct (g_io_channel_set_flags (channel s) f) as [ret k] eqn:E.
  apply set_flags_ok in E as (? & ? & _). done.
Qed.

#[export] Instance fd_read_laws : ZStreamLaws fd_stream.
Proof.
  split; intros c t n l c'; [intros Hn E|intros E|intros E]; apply child_read_cases in E as [(Hst & _ & Hk)|E]; try done; cbn [to_come fd_read_ops].
  - by eapply read_chars_normal.
  - by eapply read_chars_eof.
  - eapply read_chars_other; [done|by left].
Qed.

#[export] Instance fd_write_laws `{!Unbuffered K} : ZStreamWriteLaws fd_stream fd_error.
Proof.
  split.
  - intros c l n err c' E. apply child_write_cases in E as [(? & _)|E]; [done|]. by eapply write_chars_taken.
  - intros c l st n err c' E Hst. apply child_write_cases in E as [(_ & _ & Hk)|E]; cbn [written fd_write_ops]; [by rewrite Hk|].
    pose proof (write_unbuffered _ _ _ _ _ E Hst) as ->. apply write_chars_taken in E as [_ ->]. by rewrite app_nil_r.
  - done.
  - intros c b. cbn. by destruct (set_nonblock_channel b (stream c)).
  - intros c i st err c'. cbn. destruct (z_stream_fd_shutdown_method _ _) as [[[st' e'] a]|]; by intros [= _ _ <-].
Qed.

(** ** Sessions *)

Inductive fd_op : Set := FdRead (n timeout : Z) | FdWrite (l : list Z) | FdNonblock (b : bool) | FdTimeout (t : Z).

(** What was read, and what the writes have taken, as the lengths say, whatever the status. *)
Definition run_fd_op (c : fd_stream) (op : fd_op) : list Z * list Z * fd_stream :=
  match op with
  | FdRead n t => let '(st, l, c) := child_read c t n in (if bool_decide (st = G_IO_STATUS_NORMAL) then l else [], [], c)
  | FdWrite l => let '(st, n, _, c) := child_write (E := fd_error) c l in
                 ([], take (Z.to_nat n) l, c)
  | FdNonblock b => ([], [], child_set_nonblock (E := fd_error) c b)
  | FdTimeout t => ([], [], child_set_timeout (E := fd_error) c t)
  end.

Fixpoint run_fd_ops (c : fd_stream) (ops : list fd_op) : list Z * list Z * fd_stream :=
  match ops with
  | [] => ([], [], c)
  | op :: ops =>
      let '(r, t, c) := run_fd_op c op in
      let '(rs, ts, c) := run_fd_ops c ops in (r ++ rs, t ++ ts, c)
  end.

Definition fd_op_ok (op : fd_op) : Prop := match op with FdRead n _ => 0 < n | _ => True end.

Lemma read_keeps_written c t n st l c' : child_read c t n = (st, l, c') → written (E := fd_error) c' = written (E := fd_error) c.
Proof.
  intros E. apply child_read_cases in E as [(_ & _ & Hk)|E]; cbn [written fd_write_ops]; [by rewrite Hk|]. by apply read_chars_keeps in E as [? _].
Qed.

Lemma write_keeps_to_come c l st n (err : option fd_error) c' : child_write c l = (st, n, err, c') → to_come c' = to_come c.
Proof.
  intros E. apply child_write_cases in E as [(_ & _ & Hk)|E]; cbn [to_come fd_read_ops]; [by rewrite Hk|]. by apply write_chars_keeps in E as [? _].
Qed.

Lemma read_error_keeps c t n st l c' :
  0 < n → child_read c t n = (st, l, c') → to_come c = (if bool_decide (st = G_IO_STATUS_NORMAL) then l else []) ++ to_come c'.
Proof.
  intros Hn E. pose proof E as E'. apply child_read_cases in E' as [(-> & _ & Hk)|E']; [cbn; by rewrite Hk|].
  destruct st; cbn [bool_decide decide GIOStatus_eq_dec app].
  - cbn. symmetry. eapply read_chars_other; [exact E'|by right].
  - by apply (read_normal c t n l c' Hn E).
  - apply read_eof in E as [-> ->]. done.
  - symmetry. cbn. by apply (read_again c t n l c' E).
Qed.

(** Whatever poll answers, in whatever mode and with whatever timeouts: what a stream over a
    descriptor reads are the bytes that came in, in order and without a gap, and what went out are
    the bytes that the writes have reported, in order. *)
Theorem fd_session_spec (c : fd_stream) (ops : list fd_op) :
  Forall fd_op_ok ops →
  let '(received, sent, c') := run_fd_ops c ops in
  incoming (channel (stream c)) = received ++ incoming (channel (stream c')) ∧
  outgoing (channel (stream c')) = outgoing (channel (stream c)) ++ sent.
Proof.
  intros Hops. revert c. induction Hops as [|op ops Hop _ IH]; intros c; cbn [run_fd_ops]; [by rewrite app_nil_r|].
  assert (Hone : let '(r, t, c1) := run_fd_op c op in to_come c = r ++ to_come c1 ∧ written (E := fd_error) c1 = written (E := fd_error) c ++ t).
  { destruct op as [n t|l|b|t]; cbn [run_fd_op].
    - destruct (child_read c t n) as [[st l] c1] eqn:E. rewrite app_nil_r. split; [by eapply read_error_keeps|by eapply read_keeps_written].
    - destruct (child_write c l) as [[[st n] err] c1] eqn:E. split; [symmetry; by eapply write_keeps_to_come|].
      by apply child_write_taken in E.
    - rewrite app_nil_r. destruct (set_nonblock_channel b (stream c)) as [H1 H2]. by split.
    - by rewrite app_nil_r. }
  destruct (run_fd_op c op) as [[r t] c1]. destruct Hone as [H1 H2]. specialize (IH c1).
  destruct (run_fd_ops c1 ops) as [[rs ts] c2]. destruct IH as [IH1 IH2]. cbn [to_come fd_read_ops written fd_write_ops] in *.
  rewrite H1, IH1, IH2, H2, !app_assoc. done.
Qed.

(** Reading and writing wait with poll as often as it is interrupted.  When it does not find the
    descriptor ready the call fails without a byte; otherwise it is the channel's.  A non-blocking stream and one
    without a timeout do not wait. *)
Theorem fd_read_write_wait s k r rest n l :
  r ≠ PollEintr →
  let ps := replicate k PollEintr ++ r :: rest in
  let waits := negb (has (g_io_channel_get_flags (channel s)) G_IO_FLAG_NONBLOCK) && negb (fd_timeout s =? -2) in
  let fails := waits && negb (bool_decide (r = PollReady)) in
  let left := if waits then rest else ps in
  z_stream_fd_read_method s n ps =
    Done (if fails then (G_IO_STATUS_ERROR, [], Some TimedOut, s, left)
          else let '(st, d, k) := g_io_channel_read_chars (channel s) n in
               (st, d, if bool_decide (st = G_IO_STATUS_ERROR) then Some ChannelError else None, fd_with_channel k s, left)) ∧
  z_stream_fd_write_method s l ps =
    Done (if fails then (G_IO_STATUS_ERROR, 0, Some TimedOut, s, left)
          else let '(st, m, k) := g_io_channel_write_chars (channel s) l in
               (st, m, if bool_decide (st = G_IO_STATUS_ERROR) then Some ChannelError else None, fd_with_channel k s, left)).
Proof.
  intros Hr ps waits fails left. unfold z_stream_fd_read_method, z_stream_fd_write_method, z_stream_wait_fd.
  unfold ps, left, fails, waits. rewrite wait_loop_eq by done.
  destruct (has _ _); cbn [orb negb andb].
  - rewrite !Done_bind. cbn [negb]. destruct (g_io_channel_read_chars _ _) as [[? ?] ?], (g_io_channel_write_chars _ _) as [[? ?] ?]. done.
  - destruct (fd_timeout s =? -2); cbn [negb andb].
    + rewrite !Done_bind. cbn [negb]. destruct (g_io_channel_read_chars _ _) as [[? ?] ?], (g_io_channel_write_chars _ _) as [[? ?] ?]. done.
    + rewrite !Done_bind. destruct (bool_decide (r = PollReady)); cbn [negb]; [|done].
      destruct (g_io_channel_read_chars _ _) as [[? ?] ?], (g_io_channel_write_chars _ _) as [[? ?] ?]. done.
Qed.

(** ** Urgent data and shutdown *)

(** send is called again when it was interrupted, after waiting again. *)
Theorem fd_write_pri_spec s k r rs ps :
  r ≠ SendEintr → has (g_io_channel_get_flags (channel s)) G_IO_FLAG_NONBLOCK = false → fd_timeout s ≠ -2 →
  z_stream_fd_write_pri_method s (replicate k SendEintr ++ r :: rs) (replicate (S k) PollReady ++ ps) =
    Done (match r with
          | Sent n => (G_IO_STATUS_NORMAL, Some n, None, fd_with_sent (u64 (fd_bytes_sent s + n)) s, rs, ps)
          | SendEagain => (G_IO_STATUS_AGAIN, None, None, s, rs, ps)
          | _ => (G_IO_STATUS_ERROR, None, Some SystemError, s, rs, ps)
          end) ∧
  (∀ p, p ≠ PollReady → p ≠ PollEintr →
   z_stream_fd_write_pri_method s (replicate k SendEintr ++ r :: rs) (replicate k PollReady ++ p :: ps) =
    Done (G_IO_STATUS_ERROR, None, Some TimedOut, s, r :: rs, ps)).
Proof.
  intros Hr Hnb Ht. assert (Hw : ∀ ps, z_stream_wait_fd s (fd_timeout s) ps = wait_loop ps).
  { intros ps'. unfold z_stream_wait_fd. by rewrite Hnb, (proj2 (Z.eqb_neq _ _)). }
  assert (Hloop : send_loop s (replicate k SendEintr ++ r :: rs) (replicate (S k) PollReady ++ ps) = Done (Some r, rs, ps)).
  { induction k as [|k IH]; cbn [replicate app send_loop]; rewrite Hw; cbn [wait_loop]; rewrite Done_bind; cbn [negb]; [by destruct r|exact IH]. }
  split; unfold z_stream_fd_write_pri_method; [rewrite Hloop, Done_bind; by destruct r|].
  intros p Hp Hpe.
  assert (Hend : send_loop s (replicate k SendEintr ++ r :: rs) (replicate k PollReady ++ p :: ps) = Done (None, r :: rs, ps)).
  { clear Hloop. induction k as [|k IH]; cbn [replicate app send_loop]; rewrite Hw; cbn [wait_loop]; [|rewrite Done_bind; exact IH].
    by destruct p; try done. }
  by rewrite Hend, Done_bind.
Qed.

Theorem fd_shutdown_spec s k r rs :
  r ≠ ShutdownEintr →
  z_stream_fd_shutdown_method s (replicate k ShutdownEintr ++ r :: rs) =
    Done (match r with ShutdownOk => (G_IO_STATUS_NORMAL, None, rs) | _ => (G_IO_STATUS_ERROR, Some SystemError, rs) end).
Proof.
  intros Hr. unfold z_stream_fd_shutdown_method.
  assert (Hl : shutdown_loop (replicate k ShutdownEintr ++ r :: rs) = Done (match r with ShutdownOk => true | _ => false end, rs))
    by (induction k as [|k IH]; [by destruct r|exact IH]).
  rewrite Hl, Done_bind. by destruct r.
Qed.

(** ** A round of the main loop *)

Fixpoint until_false (answer : direction → bool) (l : list direction) : list direction :=
  match l with [] => [] | d :: l => d :: if answer d then until_false answer l else [] end.

(** The directions in which there is an event, in the order of the calls. *)
Definition events_of (r : Z) : list direction := filter (λ d, has r (io_cond d) = true) [DRead; DWrite; DPri].

Lemma events_of_eq r : events_of r =
  (if has r (io_cond DRead) then [DRead] else []) ++ (if has r (io_cond DWrite) then [DWrite] else []) ++
  (if has r (io_cond DPri) then [DPri] else []).
Proof.
  unfold events_of. rewrite !filter_cons, filter_nil.
  by destruct (has r (io_cond DRead)), (has r (io_cond DWrite)), (has r (io_cond DPri)).
Qed.

Lemma dispatch_part_passive (answer : direction → bool) d r rc calls s :
  (wanted d s = true → fd_cb s d = true) → (has r (io_cond d) = true → wanted d s = true) →
  dispatch_part (λ d _ s, (answer d, s)) d r (rc, calls, s) =
    if has r (io_cond d) && rc then (answer d, calls ++ [(d, r)], s) else (rc, calls, s).
Proof.
  intros Hcb Hsub. unfold dispatch_part. destruct (has r (io_cond d)) eqn:E; [|by rewrite andb_false_r].
  rewrite Hsub, Hcb by auto. by destruct rc.
Qed.

(** poll is asked for what the application waits for.  What it finds is given to the callbacks for
    reading, writing and urgent data in this order, until one answers FALSE; an error or hangup goes to
    the first of reading and writing that is waited for, and when there is none the source is
    destroyed.  Then the events are cleared. *)
Theorem fd_watch_round s (answer : direction → bool) (r : Z) :
  poll_revents s = 0 → (∀ d, wanted d s = true → fd_cb s d = true) → (∀ d, has r (io_cond d) = true → wanted d s = true) →
  let '(ready, timeout, s1) := z_stream_fd_watch_prepare s in
  let s2 := fd_with_poll (poll_fd s1) (poll_events s1) r s1 in
  ready = false ∧ timeout = -1 ∧ (∀ d, has (poll_events s1) (io_cond d) = wanted d s) ∧
  z_stream_fd_watch_check s2 = negb (r =? 0) ∧
  returns (z_stream_fd_watch_dispatch (λ d _ s, (answer d, s)) s2) (λ '(rc, calls, dead, s3),
    s3 = fd_with_poll (poll_fd s1) (poll_events s1) 0 s1 ∧
    if has r (Z.lor G_IO_ERR G_IO_HUP) then
      match filter (λ d, wanted d s = true) [DRead; DWrite] with
      | d :: _ => rc = answer d ∧ calls = [(d, r)] ∧ dead = false
      | [] => rc = true ∧ calls = [] ∧ dead = true
      end
    else dead = false ∧ calls = ((λ d, (d, r)) <$> until_false answer (events_of r)) ∧ rc = forallb answer (until_false answer (events_of r))).
Proof.
  intros Hr0 Hcb Hsub. unfold z_stream_fd_watch_prepare. rewrite Hr0. cbn [Z.eqb negb].
  set (e := if want_pri _ then _ else _). cbn zeta. split; [done|]. split; [done|].
  split; [|split; [done|]].
  - intros d. cbn [poll_events fd_with_poll]. unfold e. destruct d; cbn [wanted io_cond];
      destruct (want_read (fd_want s)), (want_write (fd_want s)), (want_pri (fd_want s)); rewrite ?has_set, ?has_0; reflexivity.
  - unfold z_stream_fd_watch_dispatch. cbn -[has Z.lor io_cond dispatch_part filter].
    pose proof (Hcb DRead) as HcbR. pose proof (Hcb DWrite) as HcbW. pose proof (Hcb DPri) as HcbP. cbn [wanted] in *.
    destruct (has r (Z.lor G_IO_ERR G_IO_HUP)).
    + rewrite !filter_cons, filter_nil. cbn [wanted].
      destruct (want_read (fd_want s)); [rewrite HcbR by done; by apply returns_ret|].
      destruct (want_write (fd_want s)); [rewrite HcbW by done; by apply returns_ret|]. by apply returns_ret.
    + match goal with |- context [dispatch_part _ DRead _ (_, _, ?x)] => set (s3 := x) end.
      assert (Hpart : ∀ d rc calls, dispatch_part (λ d _ s, (answer d, s)) d r (rc, calls, s3) =
        if has r (io_cond d) && rc then (answer d, calls ++ [(d, r)], s3) else (rc, calls, s3)).
      { intros d rc calls. apply dispatch_part_passive; [exact (Hcb d)|exact (Hsub d)]. }
      rewrite !Hpart. rewrite events_of_eq.
      destruct (has r (io_cond DRead)) eqn:ER, (has r (io_cond DWrite)) eqn:EW, (has r (io_cond DPri)) eqn:EP;
        destruct (answer DRead) eqn:E1, (answer DWrite) eqn:E2, (answer DPri) eqn:E3;
        cbn [andb]; rewrite ?Hpart, ?EW; cbn [andb]; rewrite ?Hpart, ?EP, ?E1, ?E2, ?E3; cbn [andb];
        apply returns_ret; (split; [done|]); (split; [done|]); cbn [app until_false fmap list_fmap forallb]; rewrite ?E1, ?E2, ?E3;
        cbn; by rewrite ?E1, ?E2, ?E3.
Qed.

(** ** Control *)

Lemma has_set_nonblock flags : has (set_flag flags G_IO_FLAG_NONBLOCK) G_IO_FLAG_NONBLOCK = true.
Proof. by apply has_set_same. Qed.

Lemma has_clear_nonblock flags : has (clear_flag flags G_IO_FLAG_NONBLOCK) G_IO_FLAG_NONBLOCK = false.
Proof. by apply has_clear_same. Qed.

(** What is set is what is got; a mode that cannot be set stays as it was, and the caller is told.  A
    value of another size is refused and changes nothing, and functions that the stream
    does not know are left to the super class. *)
Theorem fd_ctrl_spec fcntl recv s n m :
  let ctrl := z_stream_fd_ctrl_method fcntl recv in
  (∃ ok s', ctrl s ZST_CTRL_SET_NONBLOCK (ValInt n) = Some (ok, ValInt n, s') ∧
     ctrl s' ZST_CTRL_GET_NONBLOCK (ValInt m) =
       Some (true, ValInt (of_bool (if ok then to_bool n else has (g_io_channel_get_flags (channel s)) G_IO_FLAG_NONBLOCK)), s') ∧
     incoming (channel s') = incoming (channel s) ∧ outgoing (channel s') = outgoing (channel s)) ∧
  (∃ s', ctrl s ZST_CTRL_SET_KEEPALIVE (ValInt n) = Some (true, ValInt n, s') ∧
     ctrl s' ZST_CTRL_GET_KEEPALIVE (ValInt m) = Some (true, ValInt n, s') ∧ s' = fd_with_keepalive n s) ∧
  ctrl s ZST_CTRL_GET_FD (ValInt m) = Some (true, ValInt (fd s), s) ∧
  (∀ function c d x, ctrl s function (ValCb c d x) = None ∨ ctrl s function (ValCb c d x) = Some (false, ValCb c d x, s)) ∧
  (∀ function v, ZST_CTRL_MSG function ∉ [ZST_CTRL_SET_CLOSEONEXEC; ZST_CTRL_SET_NONBLOCK; ZST_CTRL_GET_NONBLOCK; ZST_CTRL_GET_FD;
     ZST_CTRL_GET_BROKEN; ZST_CTRL_GET_KEEPALIVE; ZST_CTRL_SET_KEEPALIVE] → ctrl s function v = None).
Proof.
  intros ctrl. split; [|split; [|split; [|split]]].
  - unfold ctrl, z_stream_fd_ctrl_method. cbn -[has set_flag clear_flag to_bool of_bool].
    set (f := if to_bool n then _ else _). destruct (g_io_channel_set_flags (channel s) f) as [ret k] eqn:E.
    apply set_flags_ok in E as (Hin & Hout & Hnb). eexists _, _. split; [done|]. split; [|done].
    cbn -[has of_bool to_bool]. rewrite Hnb. case_bool_decide; [|done]. unfold f.
    destruct (to_bool n); by rewrite ?has_set_nonblock, ?has_clear_nonblock.
  - by eexists.
  - done.
  - intros function c d x. unfold ctrl, z_stream_fd_ctrl_method. repeat (case_match; [by right|]). by left.
  - intros function v Hno. rewrite !not_elem_of_cons in Hno. destruct Hno as (H1 & H2 & H3 & H4 & H5 & H6 & H7 & _).
    unfold ctrl, z_stream_fd_ctrl_method. by rewrite !(proj2 (Z.eqb_neq _ _)).
Qed.

Lemma fd_get_nonblock_flag s : fd_get_nonblock s = has (g_io_channel_get_flags (channel s)) G_IO_FLAG_NONBLOCK.
Proof. unfold fd_get_nonblock, z_stream_fd_ctrl_method. cbn -[has of_bool to_bool]. by destruct (has _ _). Qed.

(** A saved context is put back: a stream that was changed since, by whatever session, blocks or does not
    block as when it was saved, if the channel lets its flags be set; and nothing is
    read or written by that.  The rest of the data is the caller's. *)
Theorem fd_extra_roundtrip s s' (super rest : list bool) :
  (∀ k f, fst (g_io_channel_set_flags k f) = G_IO_STATUS_NORMAL) →
  returns (z_stream_fd_extra_restore_method (drop (length super) (z_stream_fd_extra_save_method super s ++ rest)) s') (λ '(more, s''),
    more = rest ∧ fd_get_nonblock s'' = fd_get_nonblock s ∧
    incoming (channel s'') = incoming (channel s') ∧ outgoing (channel s'') = outgoing (channel s')).
Proof.
  intros Hset. unfold z_stream_fd_extra_save_method. rewrite <- app_assoc, drop_app_length. cbn [app z_stream_fd_extra_restore_method].
  apply returns_ret. split; [done|]. set (b := fd_get_nonblock s). destruct (set_nonblock_channel b s') as [Hin Hout]. split; [|done].
  rewrite fd_get_nonblock_flag. unfold fd_set_nonblock, z_stream_fd_ctrl_method. cbn -[has set_flag clear_flag to_bool of_bool].
  set (f := if to_bool (of_bool b) then _ else _). specialize (Hset (channel s') f).
  destruct (g_io_channel_set_flags (channel s') f) as [ret k] eqn:E. cbn in Hset. subst ret.
  apply set_flags_ok in E as (_ & _ & Hnb). change (has (g_io_channel_get_flags k) G_IO_FLAG_NONBLOCK = b). rewrite Hnb, bool_decide_true by done. unfold f. clear f Hnb.
  clearbody b. destruct b; cbn -[has set_flag clear_flag]; by rewrite ?has_set_nonblock, ?has_clear_nonblock.
Qed.
End promises.
Arguments fd_stream K : clear implicits.

(** ** A channel *)

Module ToyChannel.
(** A connection whose peer has sent some bytes and closed; at most two bytes are written at a
    time. *)
Record toy := mkToy { flags : Z; inc : list Z; out : list Z; closed : bool }.

#[export] Instance toy_channel : GIOChannel toy := {
  g_io_channel_get_flags := flags;
  g_io_channel_set_flags k f := (G_IO_STATUS_NORMAL, mkToy f (inc k) (out k) (closed k));
  g_io_channel_read_chars k n :=
    match inc k with
    | [] => (G_IO_STATUS_EOF, [], k)
    | _ => (G_IO_STATUS_NORMAL, take (Z.to_nat n) (inc k), mkToy (flags k) (drop (Z.to_nat n) (inc k)) (out k) (closed k))
    end;
  g_io_channel_write_chars k l :=
    (G_IO_STATUS_NORMAL, Z.min 2 (zlen l), mkToy (flags k) (inc k) (out k ++ take (Z.to_nat (Z.min 2 (zlen l))) l) (closed k));
  g_io_channel_shutdown k := (G_IO_STATUS_NORMAL, mkToy (flags k) (inc k) (out k) true);
  incoming := inc;
  outgoing := out
}.

#[export] Instance toy_laws : GIOChannelLaws toy.
Proof.
  split.
  - intros [f i o c] n l k' Hn. cbn. destruct i as [|x i]; [done|]. set (m := Z.to_nat n). assert (0 < m)%nat as Hm by (unfold m; lia).
    intros [= <- <-]. split; [by destruct m; [lia|]|]. split; [|symmetry; apply (take_drop m (x :: i))]. rewrite length_take. unfold m. lia.
  - intros [f i o c] n l k'. cbn. destruct i; [|done]. by intros [= _ <-].
  - intros [f i o c] n st l k'. cbn. destruct i; intros [= <- <- <-]; naive_solver.
  - intros [f i o c] n st l k'. cbn. destruct i; by intros [= <- <- <-].
  - intros [f i o c] l st n k'. cbn. intros [= _ <- <-]. cbn. split; [lia|done].
  - intros [f i o c] l st n k'. cbn. by intros [= <- <- <-].
  - intros [f i o c] g st k'. cbn. by intros [= <- <-].
Qed.

#[export] Instance toy_unbuffered : Unbuffered toy.
Proof. split. intros [f i o c] l st n k'. cbn. by intros [= <- _ _]. Qed.

Definition toy_stream : ZStreamFD toy := fd_with_timeout 1000 (z_stream_fd_new 9 (mkToy 0 [1; 2; 3; 4; 5] [] false)).
Definition toy_conn : fd_stream toy := mkFdStream toy_stream [PollEintr; PollReady; PollTimeout; PollReady; PollReady] [].

(** A timeout, a partial write, and reading without waiting. *)
Definition toy_session : list fd_op := [FdRead 2 1000; FdRead 2 1000; FdWrite [7; 8; 9]; FdNonblock true; FdRead 9 1000].

Example toy_session_run :
  let '(received, sent, c) := run_fd_ops toy_conn toy_session in (received, sent, out (channel (stream c))) = ([1; 2; 3; 4; 5], [7; 8], [7; 8]).
Proof. by vm_compute. Qed.

(** An error on a stream that waits for reading without a callback calls through NULL. *)
Definition no_callback : ZStreamFD toy :=
  mkFD (mkToy 0 [] [] false) 9 0 9 1 G_IO_HUP (-2) 0 (StreamApi.mkWatch true false false) (λ _, false) 0.
Example hup_without_callback : z_stream_fd_watch_dispatch (λ _ _ s, (true, s)) no_callback = Fault OutOfBounds.
Proof. done. Qed.

(** Freeing a stream does not close its descriptor, only closing it does. *)
Example close_closes : closed (channel (snd (z_stream_fd_close_method G_IO_STATUS_NORMAL toy_stream))) = true.
Proof. done. Qed.
End ToyChannel.
Import ToyChannel.

Lemma fd_session_spec_witness :
  Forall fd_op_ok toy_session ∧
  let '(received, sent, c') := run_fd_ops toy_conn toy_session in
  incoming (channel (stream toy_conn)) = received ++ incoming (channel (stream c')) ∧
  outgoing (channel (stream c')) = outgoing (channel (stream toy_conn)) ++ sent.
Proof.
  assert (Hok : Forall fd_op_ok toy_session) by (unfold toy_session; repeat constructor; done).
  split; [exact Hok|]. exact (fd_session_spec toy_conn toy_session Hok).
Defined.

Lemma fd_read_write_wait_witness :
  z_stream_fd_read_method toy_stream 2 [PollEintr; PollTimeout; PollReady] =
    Done (G_IO_STATUS_ERROR, [], Some TimedOut, toy_stream, [PollReady]).
Proof.
  exact (proj1 (fd_read_write_wait toy_stream 1 PollTimeout [PollReady] 2 [] ltac:(done))).
Defined.

Lemma fd_write_pri_spec_witness :
  z_stream_fd_write_pri_method toy_stream [SendEintr; Sent 1] [PollReady; PollReady] =
    Done (G_IO_STATUS_NORMAL, Some 1, None, fd_with_sent 1 toy_stream, [], []).
Proof.
  exact (proj1 (fd_write_pri_spec toy_stream 1 (Sent 1) [] [] ltac:(done) ltac:(done) ltac:(done))).
Defined.

Lemma fd_shutdown_spec_witness :
  z_stream_fd_shutdown_method toy_stream [ShutdownEintr; ShutdownOk] = Done (G_IO_STATUS_NORMAL, None, []).
Proof. exact (fd_shutdown_spec toy_stream 1 ShutdownOk [] ltac:(done)). Defined.

Definition watching : ZStreamFD toy :=
  mkFD (mkToy 0 [] [] false) 9 0 9 0 0 (-2) 0 (StreamApi.mkWatch true true true) (λ _, true) 0.

Lemma fd_watch_round_witness :
  returns (z_stream_fd_watch_dispatch (λ d _ s, (bool_decide (d ≠ DWrite), s)) (fd_with_poll 9 7 (G_IO_IN + G_IO_OUT + G_IO_PRI) (fd_with_poll 9 7 0 watching)))
    (λ '(rc, calls, dead, s3), calls = [(DRead, 7); (DWrite, 7)] ∧ rc = false).
Proof.
  pose proof (fd_watch_round watching (λ d, bool_decide (d ≠ DWrite)) 7) as Hr.
  destruct Hr as (_ & _ & _ & _ & Hd); [done|done|by intros []|].
  eapply returns_mono; [exact Hd|]. intros [[[rc calls] dead] s3] (_ & _ & Hcalls & Hrc). split; [exact Hcalls|exact Hrc].
Defined.

Lemma fd_extra_roundtrip_witness :
  returns (z_stream_fd_extra_restore_method (drop 1 (z_stream_fd_extra_save_method [true] toy_stream ++ [])) (fd_set_nonblock true toy_stream))
    (λ '(more, s''), more = [] ∧ fd_get_nonblock s'' = false).
Proof.
  eapply returns_mono; [exact (fd_extra_roundtrip toy_stream (fd_set_nonblock true toy_stream) [true] [] ltac:(done))|].
  intros [more s''] (Hl & Hn & _). split; [exact Hl|exact Hn].
Defined.

(** A tee (StreamTee.v) on one descriptor that copies what is read to another one: the copy is written
    in pieces. *)
Example tee_over_descriptors :
  let t := mkTee toy_conn (mkFdStream toy_stream [PollReady; PollReady; PollReady] []) G_IO_IN 1000 in
  ('(_, rd, _, t) ← run_tee (E := fd_error) t [TeeRead 3];
   Done (rd, incoming (channel (stream (tee_child t))), outgoing (channel (stream (fork t)))))
  = Done ([1; 2; 3], [4; 5], [1; 2; 3]).
Proof. by vm_compute. Qed.
