(* ===== verification/Zlib.v ===== *)
(** * zlib, as the gzip streams and codecs use it

    deflate and inflate with their return codes, and what zlib documents of them: deflate takes
    a prefix of its input or gives out what it had kept back, what it has given out when it
    reports the end inflates to what it took, and inflate stops exactly at the end of the
    compressed data, for good.  A small codec shows that the laws can hold. *)

From S2P Require Import Prelude.
Open Scope Z_scope.

Inductive zlib_rc : Set := Z_OK | Z_STREAM_END | Z_BUF_ERROR | Z_DATA_ERROR.
Inductive zlib_flush : Set := Z_NO_FLUSH | Z_SYNC_FLUSH | Z_FINISH.

#[global] Instance zlib_rc_eq_dec : EqDecision zlib_rc.
Proof. solve_decision. Defined.

(** [deflate d inp avail_out flush] and [inflate i inp avail_out]: the return code, the number of
    bytes taken from the input, the bytes given out, and the new state.  The first argument of
    the constructors says whether the format is the one without the zlib header. *)
Class Zlib (D I : Type) := {
  deflateInit : bool → Z → D;
  deflate : D → list Z → Z → zlib_flush → zlib_rc * Z * list Z * D;
  deflateEnd : D → zlib_rc;
  inflateInit : bool → I;
  inflate : I → list Z → Z → zlib_rc * Z * list Z * I;
  inflateEnd : I → zlib_rc;
  crc32 : Z → list Z → Z
}.

(** [deflates raw d p z]: [d] has taken [p] and given out [z].  [inflates i z p]: [i] needs [z] to
    get to the end, and will have given out [p] then. *)
Class ZlibLaws (D I : Type) `{Zlib D I} := {
  deflates : bool → D → list Z → list Z → Prop;
  pending : D → nat;
  inflates : I → list Z → list Z → Prop;
  deflate_init raw level : deflates raw (deflateInit raw level) [] [];
  deflate_run raw d p z inp n f rc k out d' :
    deflates raw d p z → inp ≠ [] → bytes inp → 0 < n → f ≠ Z_FINISH →
    deflate d inp n f = (rc, k, out, d') →
    rc = Z_OK ∧ 0 ≤ k ≤ zlen inp ∧ zlen out ≤ n ∧
    deflates raw d' (p ++ take (Z.to_nat k) inp) (z ++ out) ∧ (0 < k ∨ (pending d' < pending d)%nat);
  deflate_finish raw d p z n k out d' :
    deflates raw d p z → 0 < n → deflate d [] n Z_FINISH = (Z_STREAM_END, k, out, d') →
    zlen out ≤ n ∧ inflates (inflateInit raw) (z ++ out) p;
  inflate_run i z p t inp n rc k out i' :
    inflates i z p → 0 < n → inp `prefix_of` z ++ t → inflate i inp n = (rc, k, out, i') →
    0 ≤ k ≤ zlen inp ∧ zlen out ≤ n ∧ ∃ p', p = out ++ p' ∧
    ((rc = Z_STREAM_END ∧ p' = [] ∧ k = zlen z) ∨
     (rc = Z_OK ∧ (0 < k ∨ out ≠ []) ∧ k ≤ zlen z ∧ inflates i' (drop (Z.to_nat k) z) p') ∨
     (rc = Z_BUF_ERROR ∧ inp = [] ∧ z ≠ [] ∧ k = 0 ∧ out = [] ∧ inflates i' z p'));
  inflate_ended i inp n k out i' inp' n' :
    inflate i inp n = (Z_STREAM_END, k, out, i') → inflate i' inp' n' = (Z_STREAM_END, 0, [], i');
  crc32_app a l1 l2 : crc32 (crc32 a l1) l2 = crc32 a (l1 ++ l2);
  crc32_nil a : 0 ≤ a < 2 ^ 32 → crc32 a [] = a
}.

(** ** A codec

    A byte is written with a 1 in front of it, and the end is a 0. *)
Module ToyZlib.
Definition coded (l : list Z) : list Z := l ≫= λ b, [1; b].

(** What is not yet given out.  No more is taken than there is room for. *)
Definition toy_deflate (d : list Z) (inp : list Z) (n : Z) (f : zlib_flush) : zlib_rc * Z * list Z * list Z :=
  let k := Z.min (zlen inp) n in
  let all := d ++ coded (take (Z.to_nat k) inp) ++ match f with Z_FINISH => [0] | _ => [] end in
  let rest := drop (Z.to_nat n) all in
  (match f, rest with Z_FINISH, [] => Z_STREAM_END | _, _ => Z_OK end, k, take (Z.to_nat n) all, rest).

(** Whether a 1 was read; the end. *)
Fixpoint toy_inflate_loop (marked : bool) (inp : list Z) (n : nat) : zlib_rc * Z * list Z * bool :=
  match inp, n with
  | b :: inp, S n' =>
      if marked then
        let '(rc, k, out, m) := toy_inflate_loop false inp n' in (rc, k + 1, b :: out, m)
      else if b =? 0 then (Z_STREAM_END, 1, [], false)
      else let '(rc, k, out, m) := toy_inflate_loop true inp n in (rc, k + 1, out, m)
  | _, _ => (Z_OK, 0, [], marked)
  end.

(** [None]: it has come to the end. *)
Definition toy_inflate (i : option bool) (inp : list Z) (n : Z) : zlib_rc * Z * list Z * option bool :=
  match i with
  | None => (Z_STREAM_END, 0, [], None)
  | Some i =>
      let '(rc, k, out, m) := toy_inflate_loop i inp (Z.to_nat n) in
      (match inp with [] => Z_BUF_ERROR | _ => rc end, k, out, if bool_decide (inp ≠ [] ∧ rc = Z_STREAM_END) then None else Some m)
  end.

#[export] Instance toy_zlib : Zlib (list Z) (option bool) := {
  deflateInit _ _ := [];
  deflate := toy_deflate;
  deflateEnd _ := Z_OK;
  inflateInit _ := Some false;
  inflate := toy_inflate;
  inflateEnd _ := Z_OK;
  crc32 a l := u32 (a + foldr Z.add 0 l)
}.

Lemma coded_app l1 l2 : coded (l1 ++ l2) = coded l1 ++ coded l2.
Proof. apply bind_app. Qed.

(** What is needed to get to the end. *)
Definition toy_inflates (i : bool) (z p : list Z) : Prop :=
  z = if i then match p with [] => [] | b :: p => b :: coded p ++ [0] end else coded p ++ [0].

Lemma toy_loop_spec (inp : list Z) : ∀ (i : bool) z p t (n : nat) rc k out i',
  toy_inflates i z p → (i = true → p ≠ []) → (0 < n)%nat → inp `prefix_of` z ++ t → toy_inflate_loop i inp n = (rc, k, out, i') →
  0 ≤ k ≤ zlen inp ∧ zlen out ≤ Z.of_nat n ∧ (inp ≠ [] → 0 < k) ∧ ∃ p', p = out ++ p' ∧
  ((rc = Z_STREAM_END ∧ p' = [] ∧ k = zlen z) ∨
   (rc = Z_OK ∧ k ≤ zlen z ∧ toy_inflates i' (drop (Z.to_nat k) z) p' ∧ (i' = true → p' ≠ []))).
Proof.
  induction inp as [|b inp IH]; intros i z p t n rc k out i' Hz Hi Hn Hpre; cbn [toy_inflate_loop].
  { intros [= <- <- <- <-]. split; [cbn; lia|]. split; [cbn; lia|]. split; [done|]. exists p. split; [done|]. right. split; [done|]. split; [lia|]. by rewrite drop_0. }
  destruct n as [|n]; [lia|]. destruct i.
  - destruct p as [|x p]; [by destruct Hi|]. unfold toy_inflates in Hz. subst z. destruct Hpre as [suf Hpre]. injection Hpre as -> Hpre.
    destruct (toy_inflate_loop false inp n) as [[[rc' k'] out'] m] eqn:E. intros [= <- <- <- <-].
    destruct (decide (n = 0%nat)) as [->|Hn0].
    { destruct inp; cbn in E; injection E as <- <- <- <-; cbn [length]; (split; [lia|]); (split; [cbn [length]; lia|]); (split; [intros _; lia|]);
        exists p; (split; [done|]); right; (split; [done|]); (split; [lia|]); by split. }
    destruct (IH false (coded p ++ [0]) p t n rc' k' out' m) as (Hk & Ho & _ & p' & -> & Hc); [done|done|lia|by exists suf|done|].
    cbn [length]. split; [lia|]. split; [lia|]. split; [intros _; lia|]. exists p'. split; [done|].
    destruct Hc as [(-> & -> & ->)|(-> & Hkz & Hinf & Hm)]; [left; split; [done|]; split; [done|]; lia|right].
    split; [done|]. split; [lia|]. split; [|done]. replace (Z.to_nat (k' + 1)) with (S (Z.to_nat k')) by lia. exact Hinf.
  - destruct (Z.eqb_spec b 0) as [->|Hb].
    { intros [= <- <- <- <-]. unfold toy_inflates in Hz. subst z. split; [cbn [length]; lia|]. split; [cbn; lia|]. split; [intros _; lia|]. exists p. split; [done|].
      left. destruct p as [|x p]; [done|]. destruct Hpre as [suf Hpre]. by injection Hpre. }
    unfold toy_inflates in Hz. subst z. destruct p as [|x p]; destruct Hpre as [suf Hpre]; cbn in Hpre; injection Hpre as Hb1 Hpre; [done|].
    destruct (toy_inflate_loop true inp (S n)) as [[[rc' k'] out'] m] eqn:E. intros [= <- <- <- <-].
    destruct (IH true (x :: coded p ++ [0]) (x :: p) t (S n) rc' k' out' m) as (Hk & Ho & _ & p' & Hp & Hc); [done|done|lia|exists suf; exact Hpre|done|].
    cbn [length]. split; [lia|]. split; [lia|]. split; [intros _; lia|]. exists p'. split; [exact Hp|]. unfold coded in *.
    destruct Hc as [(-> & -> & ->)|(-> & Hkz & Hinf & Hm)]; [left; split; [done|]; split; [done|]; unfold coded; cbn [length app mbind list_bind]; lia|right].
    split; [done|]. split; [unfold coded; cbn [length app mbind list_bind] in *; lia|]. split; [|done].
    replace (Z.to_nat (k' + 1)) with (S (Z.to_nat k')) by lia. exact Hinf.
Qed.

#[export] Instance toy_zlib_laws : ZlibLaws (list Z) (option bool).
Proof.
  refine {| deflates _ d p z := z ++ d = coded p; pending d := length d;
            inflates i z p := if i is Some i then toy_inflates i z p ∧ (i = true → p ≠ []) else False |}.
  - done.
  - intros raw d p z inp n f rc k out d' Hd Hinp Hb Hn Hf. cbn. unfold toy_deflate.
    replace (match f with Z_FINISH => [0] | _ => [] end) with (@nil Z) by by destruct f.
    replace (match f, _ with Z_FINISH, [] => Z_STREAM_END | _, _ => Z_OK end) with Z_OK by by destruct f.
    rewrite app_nil_r. intros [= <- <- <- <-]. split; [done|]. split; [lia|]. rewrite length_take. split; [lia|].
    split; [by rewrite <- app_assoc, take_drop, app_assoc, Hd, coded_app|]. left. destruct inp; [done|cbn; lia].
  - intros raw d p z n k out d' Hd Hn. cbn. unfold toy_deflate. rewrite take_nil. unfold coded; cbn [mbind list_bind app].
    destruct (drop (Z.to_nat n) (d ++ [0])) as [|x r] eqn:E; [|done]. intros [= <- <- <-]. rewrite length_take. split; [lia|].
    split; [|done]. unfold toy_inflates.
    pose proof (take_drop (Z.to_nat n) (d ++ [0])) as Ht. rewrite E, app_nil_r in Ht. rewrite Ht, app_assoc, Hd. done.
  - intros [i|] z p t inp n rc k out i'; [|done]. intros [Hz Hi] Hn Hpre. cbn. unfold toy_inflate.
    destruct (toy_inflate_loop i inp (Z.to_nat n)) as [[[rc' k'] out'] m] eqn:E. intros [= <- <- <- <-].
    destruct (toy_loop_spec inp i z p t (Z.to_nat n) rc' k' out' m Hz Hi ltac:(lia) Hpre E) as (Hk & Ho & Hpos & p' & -> & Hc).
    split; [done|]. split; [lia|]. exists p'. split; [done|]. destruct inp as [|b inp].
    + right; right. cbn in E. injection E as <- <- <- <-. destruct Hc as [[? _]|(_ & _ & Hinf & Hm)]; [done|]. rewrite drop_0 in Hinf.
      rewrite bool_decide_false by naive_solver.
      split; [done|]. split; [done|]. split; [|done]. unfold toy_inflates in Hz. rewrite Hz. destruct i; [|by destruct p']. destruct p'; [by destruct Hi|done].
    + destruct Hc as [Hc|(-> & Hkz & Hinf & Hm)]; [by left|]. right; left. split; [done|]. split; [left; by apply Hpos|].
      rewrite bool_decide_false by naive_solver. done.
  - intros [i|] inp n k out i' inp' n'; cbn; [|by intros [= _ _ <-]].
    destruct (toy_inflate_loop i inp (Z.to_nat n)) as [[[rc' k'] out'] m] eqn:E. destruct inp as [|b inp]; [done|].
    intros [= -> _ _ <-]. by rewrite bool_decide_true.
  - intros a l1 l2. cbn. unfold u32. rewrite foldr_app. rewrite Zplus_mod_idemp_l. f_equal.
    induction l1 as [|x l1 IH]; cbn; [lia|]. lia.
  - intros a Ha. cbn. unfold u32. rewrite Z.add_0_r. by apply Z.mod_small.
Defined.
(** Complete data. *)
Lemma toy_complete raw p : inflates (D := list Z) (I := option bool) (inflateInit raw) (coded p ++ [0]) p.
Proof. by split. Qed.
End ToyZlib.
