(* ===== verification/CodeGzip.v ===== *)
(** * Codecs over zlib and OpenSSL (src/src/code_gzip.c, src/src/code_cipher.c)

    The codecs that compress, decompress and encrypt into the buffer of a ZCode (Code.v).  zlib is
    the class of Zlib.v; a cipher of OpenSSL is known by the class [EVP_Cipher]. *)

From S2P Require Import Prelude Code Zlib.
Open Scope Z_scope.

Section gzip.
Context {D I : Type} `{FreshMem} `{Zlib D I}.

(** The z_stream of the two directions. *)
Inductive gzip_stream : Type := Deflating (d : D) | Inflating (i : I).

Record ZCodeGzip := mkCodeGzip {
  gz_super : ZCode;
  gzip : gzip_stream;              (* and encode *)
  avail_in : Z;
  end_of_stream : bool
}.

Definition gz_set_super (z : ZCode) (self : ZCodeGzip) : ZCodeGzip := mkCodeGzip z (gzip self) (avail_in self) (end_of_stream self).

(** The call of deflate or inflate. *)
Definition gzip_call (g : gzip_stream) (inp : list Z) (avail_out : Z) : zlib_rc * Z * list Z * gzip_stream :=
  match g with
  | Deflating d => let '(rc, k, out, d) := deflate d inp avail_out Z_SYNC_FLUSH in (rc, k, out, Deflating d)
  | Inflating i => let '(rc, k, out, i) := inflate i inp avail_out in (rc, k, out, Inflating i)
  end.

(** Error codes of zlib are negative. *)
Definition rc_negative (rc : zlib_rc) : bool := match rc with Z_OK | Z_STREAM_END => false | Z_BUF_ERROR | Z_DATA_ERROR => true end.

(** The loop: [inp] is from next_in. *)
Fixpoint transform_loop (fuel : nat) (self : ZCodeGzip) (inp : list Z) : outcome (bool * ZCodeGzip) :=
  match fuel with
  | O => Fault OutOfFuel
  | S fuel =>
      let needed := match gzip self with Deflating _ => u32 (zlen inp) | Inflating _ => u32 (zlen inp * 2) end in
      let s := gz_super self in
      s ← (if u64 (zc_buf_len s - zc_buf_used s) <? needed then z_code_grow s (s32 (u64 (zc_buf_len s + needed))) else Done s);
      let '(rc, k, out, g) := gzip_call (gzip self) inp (u32 (zc_buf_len s - zc_buf_used s)) in
      b ← store_range (zc_buf s) (zc_buf_used s) out;
      let s := zc_with_buf b s in
      let rest := drop (Z.to_nat k) inp in
      if rc_negative rc then Done (false, mkCodeGzip s g (zlen rest) (end_of_stream self))
      else
        let self := mkCodeGzip (zc_with_used (zc_buf_used s + zlen out) s) g (zlen rest)
                               (if bool_decide (rc = Z_STREAM_END) then true else end_of_stream self) in
        if negb (zlen rest =? 0) then transform_loop fuel self rest else Done (true, self)
  end.

Definition z_code_gzip_transform (fuel : nat) (self : ZCodeGzip) (buf : list Z) : outcome (bool * ZCodeGzip) :=
  match buf with
  | [] => Done (true, self)
  | _ => if end_of_stream self then Done (false, self) else transform_loop fuel self buf
  end.

Definition z_code_gzip_finish (self : ZCodeGzip) : bool := avail_in self =? 0.

Definition z_code_gzip_init (bufsize : Z) (encode : bool) (compress_level : Z) : ZCodeGzip :=
  mkCodeGzip (z_code_init bufsize) (if encode then Deflating (deflateInit false compress_level) else Inflating (inflateInit false)) 0 false.

Definition z_code_gzip_encode_new (bufsize compress_level : Z) : ZCodeGzip := z_code_gzip_init bufsize true compress_level.
Definition z_code_gzip_decode_new (bufsize : Z) : ZCodeGzip := z_code_gzip_init bufsize false 0.

(** The virtual methods, as the base class calls them. *)
#[export] Instance gzip_methods (fuel : nat) : CodeMethods ZCodeGzip := {
  code_super := gz_super;
  code_set_super := gz_set_super;
  code_transform := z_code_gzip_transform fuel;
  code_finish := Some (λ self, Done (z_code_gzip_finish self, self))
}.
End gzip.
Arguments ZCodeGzip D I : clear implicits.
Arguments gzip_stream D I : clear implicits.

(** * What is promised *)

Section promises.
Context {D I : Type} `{FreshMem} `{ZlibLaws D I}.
Implicit Types self : ZCodeGzip D I.

(** The room for a round of the loop. *)
Lemma room_ok (s : ZCode) needed :
  zc_wf s → 0 < needed → zc_buf_used s + 2 * needed ≤ 2 ^ 30 →
  returns (if u64 (zc_buf_len s - zc_buf_used s) <? needed then z_code_grow s (s32 (u64 (zc_buf_len s + needed))) else Done s)
    (λ s', zc_wf s' ∧ zc_buf_used s' = zc_buf_used s ∧ zc_results s' = zc_results s ∧ needed ≤ zc_buf_len s' - zc_buf_used s' ∧
           (needed ≤ zc_buf_len s - zc_buf_used s → s' = s)).
Proof.
  intros Hwf Hn Hb. pose proof Hwf as [Hl Hr Hu]. unfold INT_MAX in Hr. rewrite u64_small by lia.
  destruct (Z.ltb_spec (zc_buf_len s - zc_buf_used s) needed) as [Hlt|Hge].
  - rewrite u64_small, s32_small by lia. destruct (z_code_grow_returns s (zc_buf_len s + needed) Hwf ltac:(lia)) as [s' Hs'].
    rewrite Hs'. apply returns_ret. destruct (z_code_grow_Done _ _ _ Hwf Hs') as (Hwf' & ? & ? & _ & Hused & _).
    destruct (z_code_grow_keeps _ _ _ Hwf Hs') as [Hres _]. split; [done|]. split; [done|]. split; [done|]. split; lia.
  - apply returns_ret. split; [done|]. split; [done|]. split; [done|]. split; [lia|done].
Qed.

(** The output behind the results. *)
Lemma append_results s out :
  zc_wf s → zlen out ≤ zc_buf_len s - zc_buf_used s →
  returns (store_range (zc_buf s) (zc_buf_used s) out) (λ b,
    let s' := zc_with_used (zc_buf_used s + zlen out) (zc_with_buf b s) in
    zc_wf s' ∧ zc_results s' = zc_results s ++ out ∧ zlen b = zlen (zc_buf s)).
Proof.
  intros [Hl Hr Hu] Hle. rewrite store_range_ok by lia. apply returns_ret. cbn.
  assert (Hlen : zlen (take (Z.to_nat (zc_buf_used s)) (zc_buf s) ++ out ++ drop (Z.to_nat (zc_buf_used s) + length out) (zc_buf s)) = zlen (zc_buf s))
    by (rewrite !length_app, length_take, length_drop; lia).
  split; [split; cbn; rewrite ?Hlen; lia|]. split; [|done]. unfold zc_results. cbn.
  replace (Z.to_nat (zc_buf_used s + zlen out)) with (Z.to_nat (zc_buf_used s) + length out)%nat by lia.
  rewrite take_app, take_ge by (rewrite length_take; lia). f_equal. rewrite length_take.
  replace (_ + length out - _)%nat with (length out) by lia. by rewrite take_app_length.
Qed.

(** ** Compressing *)

Definition compressing self (p : list Z) : Prop :=
  ∃ d, gzip self = Deflating d ∧ deflates false d p (zc_results (gz_super self)) ∧ zc_wf (gz_super self) ∧
       end_of_stream self = false ∧ avail_in self = 0.

(** One round: what deflate gives out is behind the results. *)
Lemma compress_round self d p inp :
  gzip self = Deflating d → deflates false d p (zc_results (gz_super self)) → zc_wf (gz_super self) → end_of_stream self = false →
  inp ≠ [] → bytes inp → zc_buf_used (gz_super self) + 2 * zlen inp ≤ 2 ^ 30 →
  ∃ k d' s', (k ≤ length inp)%nat ∧ (∀ fuel, transform_loop (S fuel) self inp =
     let self' := mkCodeGzip s' (Deflating d') (zlen (drop k inp)) false in
     if negb (zlen (drop k inp) =? 0) then transform_loop fuel self' (drop k inp) else Done (true, self')) ∧
  deflates false d' (p ++ take k inp) (zc_results s') ∧ zc_wf s' ∧ (0 < k ∨ pending d' < pending d)%nat.
Proof.
  intros Hg Hd Hwf Heos Hinp Hby Hb. assert (0 < zlen inp) by (destruct inp; [done|cbn; lia]). pose proof Hwf as [Hl0 Hr0 Hu0].
  pose proof (room_ok (gz_super self) (zlen inp) Hwf ltac:(lia) Hb) as Hroom. apply returns_Done in Hroom as (s1 & Hs1 & Hwf1 & Hu1 & Hres1 & Hle1 & _).
  pose proof Hwf1 as [Hl1 Hr1 _]. unfold INT_MAX in Hr1.
  destruct (deflate d inp (zc_buf_len s1 - zc_buf_used s1) Z_SYNC_FLUSH) as [[[rc k] out] d'] eqn:E1.
  assert (Hav : 0 < zc_buf_len s1 - zc_buf_used s1) by lia.
  assert (Hf : Z_SYNC_FLUSH ≠ Z_FINISH) by done.
  destruct (deflate_run _ _ _ _ _ _ _ _ _ _ _ Hd Hinp Hby Hav Hf E1) as (-> & Hk & Hlen & Hdef & Hprog).
  pose proof (append_results s1 out Hwf1 Hlen) as Happ. apply returns_Done in Happ as (b & Hst & Hwf2 & Hres2 & _).
  exists (Z.to_nat k), d', (zc_with_used (zc_buf_used s1 + zlen out) (zc_with_buf b s1)). split; [lia|]. split.
  - intros fuel. cbn [transform_loop]. rewrite Hg. assert (Hu : ∀ x, 0 ≤ x < 2 ^ 32 → u32 x = x) by (intros; by apply Z.mod_small). rewrite (Hu (zlen inp)) by lia.
    rewrite Hs1, Done_bind. unfold gzip_call. rewrite Hu by lia. rewrite E1, Hst, Done_bind. cbn [rc_negative]. rewrite bool_decide_false by done. by rewrite Heos.
  - rewrite Hres2, Hres1. split; [done|]. split; [done|]. destruct Hprog; [left; lia|by right].
Qed.

Lemma deflate_loop_ok (N : Z) : (∀ d p z, deflates false d p z → zlen p ≤ N → zlen z + 2 * N ≤ 2 ^ 30) →
  ∀ n m self d p inp,
  (length inp ≤ n)%nat → (pending d ≤ m)%nat → zlen p + zlen inp ≤ N →
  gzip self = Deflating d → deflates false d p (zc_results (gz_super self)) → zc_wf (gz_super self) → end_of_stream self = false →
  inp ≠ [] → bytes inp →
  settles (λ fuel, transform_loop fuel self inp) (λ '(ok, self'), ok = true ∧ compressing self' (p ++ inp)).
Proof.
  intros Hsmall. induction n as [n IHn] using lt_wf_ind. intros m. induction m as [m IHm] using lt_wf_ind.
  intros self d p inp Hn Hm HN Hg Hd Hwf Heos Hinp Hby.
  assert (Hb : zc_buf_used (gz_super self) + 2 * zlen inp ≤ 2 ^ 30).
  { specialize (Hsmall _ _ _ Hd ltac:(lia)). rewrite (zc_results_length _ Hwf) in Hsmall. lia. }
  destruct (compress_round self d p inp Hg Hd Hwf Heos Hinp Hby Hb) as (k & d' & s' & Hk & Hstep & Hd' & Hwf' & Hprog).
  apply settles_S. destruct (Z.eqb_spec (zlen (drop k inp)) 0) as [Hz|Hz].
  - exists 0%nat, (true, mkCodeGzip s' (Deflating d') (zlen (drop k inp)) false). split; [intros fuel _; rewrite Hstep; cbv zeta; by rewrite Hz|].
    split; [done|]. exists d'. split; [done|]. split; [|by split_and!]. cbn. rewrite <- (take_drop k inp). destruct (drop k inp); [by rewrite app_nil_r|done].
  - assert (Hrec : settles (λ fuel, transform_loop fuel (mkCodeGzip s' (Deflating d') (zlen (drop k inp)) false) (drop k inp))
      (λ '(ok, self'), ok = true ∧ compressing self' ((p ++ take k inp) ++ drop k inp))).
    { assert (Hlen : zlen (p ++ take k inp) + zlen (drop k inp) ≤ N) by (rewrite length_app, length_take, length_drop; lia).
      assert (Hne : drop k inp ≠ []) by (by intros Hnil; rewrite Hnil in Hz). assert (Hby' : bytes (drop k inp)) by by apply Forall_drop.
      destruct Hprog as [Hpos|Hless].
      - eapply (IHn (length (drop k inp))); [rewrite length_drop; destruct inp; [done|cbn [length] in *; lia]|done|reflexivity|exact Hlen|done|exact Hd'|exact Hwf'|done..].
      - eapply (IHm (pending d')); [lia|rewrite length_drop; lia|reflexivity|exact Hlen|done|exact Hd'|exact Hwf'|done..]. }
    rewrite <- app_assoc, take_drop in Hrec. destruct Hrec as (f & r & Hf & Hr). exists f, r. split; [|done]. intros fuel Hfuel. rewrite Hstep. cbv zeta.
    cbn [negb]. by apply Hf.
Qed.

(** Transforms one after the other; the flag says that all of them succeeded. *)
Fixpoint transforms (fuel : nat) self (chunks : list (list Z)) : outcome (bool * ZCodeGzip D I) :=
  match chunks with
  | [] => Done (true, self)
  | l :: chunks =>
      '(ok, self) ← z_code_gzip_transform fuel self l;
      '(ok2, self) ← transforms fuel self chunks;
      Done (ok && ok2, self)
  end.

(** The compressing codec takes every chunk, and its results are what deflate made of all
    of them, in order; [N] bounds the input, such that its compressed form fits into a gint. *)
Theorem gzip_encode_session (N bufsize level : Z) chunks :
  (∀ d p z, deflates false d p z → zlen p ≤ N → zlen z + 2 * N ≤ 2 ^ 30) →
  bufsize ≤ INT_MAX → Forall (Forall is_byte) chunks → zlen (concat chunks) ≤ N →
  settles (λ fuel, transforms fuel (z_code_gzip_encode_new bufsize level) chunks) (λ '(ok, self), ok = true ∧
    z_code_gzip_finish self = true ∧
    ∃ d, gzip self = Deflating d ∧ deflates false d (concat chunks) (zc_results (gz_super self))).
Proof.
  intros Hsmall Hbuf Hby HN.
  assert (Hgen : ∀ chunks self p, compressing self p → Forall (Forall is_byte) chunks → zlen p + zlen (concat chunks) ≤ N →
    settles (λ fuel, transforms fuel self chunks) (λ '(ok, self'), ok = true ∧ compressing self' (p ++ concat chunks))).
  { clear chunks Hby HN. induction chunks as [|l chunks IH]; intros self p Hc Hby HN; cbn [transforms concat].
    - apply settles_returns, returns_ret. by rewrite app_nil_r.
    - apply Forall_cons in Hby as [Hl Hby]. cbn [concat] in HN. rewrite length_app in HN.
      apply (settles_bind _ _ (λ '(ok, self'), ok = true ∧ compressing self' (p ++ l))).
      + unfold z_code_gzip_transform. destruct l as [|b l]; [apply settles_returns, returns_ret; by rewrite app_nil_r|].
        destruct Hc as (d & Hg & Hd & Hwf & He & _). rewrite He. by eapply (deflate_loop_ok N Hsmall); [reflexivity|reflexivity|lia|..].
      + intros [ok self1] [-> Hc1]. eapply settles_bind; [apply (IH self1 (p ++ l)); [done|done|rewrite length_app; lia]|].
        intros [ok2 self2] [-> Hc2]. apply settles_returns, returns_ret. rewrite app_assoc. done. }
  eapply settles_mono; [apply (Hgen chunks _ []); [|done|cbn; lia]|].
  - exists (deflateInit false level). split; [done|]. split; [apply deflate_init|]. split; [by apply z_code_init_wf|done].
  - intros [ok self] (-> & d & Hg & Hd & _ & _ & Ha). split; [done|]. unfold z_code_gzip_finish. rewrite Ha. split; [done|]. by exists d.
Qed.
(** ** Decompressing *)

(** One round of the loop, as inflate answers. *)
Lemma decompress_round self i inp :
  gzip self = Inflating i → zc_wf (gz_super self) → inp ≠ [] → zc_buf_used (gz_super self) + 4 * zlen inp ≤ 2 ^ 30 →
  ∃ n, 0 < n ∧ ∀ rc k out i', inflate i inp n = (rc, k, out, i') → zlen out ≤ n → rc_negative rc = false →
  ∃ s', zc_wf s' ∧ zc_results s' = zc_results (gz_super self) ++ out ∧ ∀ fuel,
    transform_loop (S fuel) self inp =
      let self' := mkCodeGzip s' (Inflating i') (zlen (drop (Z.to_nat k) inp)) (if bool_decide (rc = Z_STREAM_END) then true else end_of_stream self) in
      if negb (zlen (drop (Z.to_nat k) inp) =? 0) then transform_loop fuel self' (drop (Z.to_nat k) inp) else Done (true, self').
Proof.
  intros Hg Hwf Hinp Hb. assert (0 < zlen inp) by (destruct inp; [done|cbn; lia]). pose proof Hwf as [Hl0 Hr0 Hu0].
  pose proof (room_ok (gz_super self) (zlen inp * 2) Hwf ltac:(lia) ltac:(lia)) as Hroom. apply returns_Done in Hroom as (s1 & Hs1 & Hwf1 & Hu1 & Hres1 & Hle1 & _).
  pose proof Hwf1 as [Hl1 Hr1 _]. unfold INT_MAX in Hr1. exists (zc_buf_len s1 - zc_buf_used s1). split; [lia|].
  intros rc k out i' E1 Hlen Hrc. pose proof (append_results s1 out Hwf1 Hlen) as Happ. apply returns_Done in Happ as (b & Hst & Hwf2 & Hres2 & _).
  exists (zc_with_used (zc_buf_used s1 + zlen out) (zc_with_buf b s1)). split; [done|]. split; [by rewrite Hres2, Hres1|].
  intros fuel. cbn [transform_loop]. rewrite Hg. assert (Hu : ∀ x, 0 ≤ x < 2 ^ 32 → u32 x = x) by (intros; by apply Z.mod_small).
  rewrite (Hu (zlen inp * 2)) by lia. rewrite Hs1, Done_bind. unfold gzip_call. rewrite Hu by lia. rewrite E1, Hst, Done_bind. by rewrite Hrc.
Qed.

(** [z] is to come, and [p] to be delivered. *)
Definition decompressing self (z p : list Z) : Prop :=
  zc_wf (gz_super self) ∧ avail_in self = 0 ∧
  ((∃ i, gzip self = Inflating i ∧ inflates i z p ∧ end_of_stream self = false) ∨ (end_of_stream self = true ∧ z = [] ∧ p = [])).

Lemma decompress_loop_ok n : ∀ fuel self i inp rest p,
  (length inp + length p ≤ n)%nat → (n < fuel)%nat → inp ≠ [] →
  gzip self = Inflating i → inflates i (inp ++ rest) p → end_of_stream self = false → zc_wf (gz_super self) →
  zlen (zc_results (gz_super self)) + zlen p + 4 * zlen inp ≤ 2 ^ 30 →
  returns (transform_loop fuel self inp) (λ '(ok, self'), ok = true ∧ ∃ o p',
    p = o ++ p' ∧ zc_results (gz_super self') = zc_results (gz_super self) ++ o ∧ decompressing self' rest p').
Proof.
  induction n as [n IH] using lt_wf_ind. intros fuel self i inp rest p Hn Hf Hinp Hg Hinf Heos Hwf Hb.
  rewrite (zc_results_length _ Hwf) in Hb. destruct fuel as [|fuel]; [lia|].
  destruct (decompress_round self i inp Hg Hwf Hinp ltac:(lia)) as (m & Hm & Hround).
  destruct (inflate i inp m) as [[[rc k] out] i'] eqn:E1.
  destruct (inflate_run i (inp ++ rest) p [] inp m rc k out i' Hinf Hm ltac:(exists rest; by rewrite app_nil_r) E1) as (Hk & Ho & p' & -> & Hcase).
  assert (Hneg : rc_negative rc = false) by (destruct Hcase as [(-> & _)|[(-> & _)|(_ & ? & _)]]; done).
  destruct (Hround rc k out i' eq_refl Ho Hneg) as (s' & Hwf' & Hres & ->). cbv zeta. rewrite length_app in Hb, Hn.
  destruct Hcase as [(-> & -> & Hk2)|[(-> & Hprog & _ & Hinf')|(_ & ? & _)]]; [| |done].
  - rewrite length_app in Hk2. assert (rest = []) as -> by (destruct rest; [done|cbn in Hk2; lia]). cbn [length] in Hk2.
    rewrite drop_ge by lia. cbn [length Z.of_nat Z.eqb negb]. apply returns_ret. split; [done|]. exists out, []. split; [done|]. split; [done|].
    split; [done|]. split; [done|]. by right.
  - rewrite bool_decide_false by done. rewrite drop_app_le in Hinf' by lia. destruct (Z.eqb_spec (zlen (drop (Z.to_nat k) inp)) 0) as [Hz|Hz]; cbn [negb].
    + apply returns_ret. split; [done|]. exists out, p'. split; [done|]. split; [done|]. split; [done|]. split; [done|]. left. exists i'.
      split; [done|]. split; [|done]. destruct (drop (Z.to_nat k) inp); [exact Hinf'|done].
    + assert (Hdec : (length (drop (Z.to_nat k) inp) + length p' < n)%nat).
      { rewrite length_drop. destruct Hprog as [?|Hout]; [destruct inp; [done|cbn [length] in *; lia]|destruct out; [done|cbn [length] in *; lia]]. }
      eapply returns_mono; [eapply (IH _ Hdec fuel _ i' (drop (Z.to_nat k) inp) rest p'); [lia|lia|by intros Hnil; rewrite Hnil in Hz|done|done|done|done|]|].
      * cbn [gz_super]. pose proof (zc_results_length _ Hwf). rewrite Hres, length_app, length_drop. lia.
      * intros [ok self'] (-> & o & p'' & -> & Hp'' & Hd). split; [done|]. exists (out ++ o), p''. split; [by rewrite app_assoc|]. split; [|done].
        cbn [gz_super] in Hp''. by rewrite Hp'', Hres, <- app_assoc.
Qed.

(** However the compressed data is cut into chunks, the decompressing codec takes all of them, and its results are
    a beginning of what was compressed; all of it, when the end of the stream was seen.  The transforms end
    within as many rounds as there are bytes. *)
Theorem gzip_decode_session (bufsize : Z) (chunks : list (list Z)) (rest p : list Z) (fuel : nat) :
  inflates (inflateInit (D := D) false : I) (concat chunks ++ rest) p →
  bufsize ≤ INT_MAX → zlen p + 4 * zlen (concat chunks) ≤ 2 ^ 30 → (length (concat chunks) + length p < fuel)%nat →
  returns (transforms fuel (z_code_gzip_decode_new bufsize) chunks) (λ '(ok, self), ok = true ∧ z_code_gzip_finish self = true ∧
    ∃ more, p = zc_results (gz_super self) ++ more ∧ (end_of_stream self = true → more = [] ∧ rest = [])).
Proof.
  intros Hinf Hbuf Hb Hf.
  assert (Hgen : ∀ chunks self q, decompressing self (concat chunks ++ rest) q → zlen (zc_results (gz_super self)) + zlen q + 4 * zlen (concat chunks) ≤ 2 ^ 30 →
    (length (concat chunks) + length q < fuel)%nat →
    returns (transforms fuel self chunks) (λ '(ok, self'), ok = true ∧ ∃ o q', q = o ++ q' ∧ zc_results (gz_super self') = zc_results (gz_super self) ++ o ∧ decompressing self' rest q')).
  { clear chunks Hinf Hb Hf. induction chunks as [|l chunks IH]; intros self q Hd Hb Hf; cbn [transforms concat] in *.
    - apply returns_ret. split; [done|]. exists [], q. by rewrite app_nil_r.
    - rewrite length_app in Hb, Hf. apply returns_bind.
      apply (returns_mono _ (λ '(ok, self'), ok = true ∧ ∃ o q', q = o ++ q' ∧ zc_results (gz_super self') = zc_results (gz_super self) ++ o ∧
        decompressing self' (concat chunks ++ rest) q')).
      + unfold z_code_gzip_transform. destruct l as [|b l]; [apply returns_ret; split; [done|]; exists [], q; by rewrite app_nil_r|].
        destruct Hd as (Hwf & _ & [(i & Hg & Hinf & He)|(_ & ? & _)]); [|done]. rewrite He. rewrite <- app_assoc in Hinf.
        eapply (decompress_loop_ok (length (b :: l) + length q)); [reflexivity|lia|done|done|exact Hinf|done|done|lia].
      + intros [ok self1] (-> & o & q1 & -> & Hq1 & Hd1). apply returns_bind. rewrite length_app in Hb, Hf. pose proof (f_equal length Hq1) as Hlen. rewrite length_app in Hlen.
        eapply returns_mono; [apply (IH self1 q1 Hd1); lia|]. intros [ok2 self2] (-> & o2 & q2 & -> & Hq2 & Hd2). apply returns_ret. split; [done|].
        exists (o ++ o2), q2. split; [by rewrite app_assoc|]. split; [by rewrite Hq2, Hq1, app_assoc|done]. }
  eapply returns_mono; [apply (Hgen chunks _ p); [|exact Hb|lia]|].
  - split; [by apply z_code_init_wf|]. split; [done|]. left. by exists (inflateInit false).
  - intros [ok self] (-> & o & more & -> & Hm & _ & Ha & Hcase). split; [done|]. unfold z_code_gzip_finish. rewrite Ha. split; [done|]. exists more. split; [by rewrite Hm|].
    intros He. destruct Hcase as [(i & _ & _ & He')|(_ & -> & ->)]; [congruence|done].
Qed.

(** Behind the end of the data inflate takes nothing, and reports the end again: as long as there is input the
    loop goes on. *)
Lemma ended_loops fuel : ∀ self i inp,
  gzip self = Inflating i → (∀ inp n, inflate i inp n = (Z_STREAM_END, 0, [], i)) → zc_wf (gz_super self) → inp ≠ [] →
  zc_buf_used (gz_super self) + 4 * zlen inp ≤ 2 ^ 30 →
  transform_loop fuel self inp = Fault OutOfFuel.
Proof.
  induction fuel as [|fuel IH]; intros self i inp Hg Hi Hwf Hinp Hb; [done|].
  destruct (decompress_round self i inp Hg Hwf Hinp Hb) as (n & Hn & Hround).
  destruct (Hround Z_STREAM_END 0 [] i (Hi inp n) ltac:(cbn; lia) eq_refl) as (s' & Hwf' & Hres & ->). cbv zeta. rewrite drop_0.
  rewrite (proj2 (Z.eqb_neq _ _)) by (destruct inp; [done|cbn; lia]). cbn [negb]. eapply (IH _ i); [done|done|done|done|].
  cbn [gz_super]. pose proof (zc_results_length _ Hwf') as Hl. rewrite Hres, app_nil_r, (zc_results_length _ Hwf) in Hl. lia.
Qed.

(** C14: Data behind the end of the compressed stream, in the same call, makes the transform loop for ever. *)
Theorem gzip_decode_trailing (bufsize : Z) (z p t : list Z) (fuel : nat) :
  inflates (inflateInit (D := D) false : I) z p → z ≠ [] → t ≠ [] →
  bufsize ≤ INT_MAX → zlen p + 4 * zlen (z ++ t) ≤ 2 ^ 30 →
  z_code_gzip_transform fuel (z_code_gzip_decode_new (D := D) (I := I) bufsize) (z ++ t) = Fault OutOfFuel.
Proof.
  intros Hinf Hz Ht Hbuf Hb. unfold z_code_gzip_transform. destruct (z ++ t) as [|b l] eqn:E0; [by destruct z|]. rewrite <- E0 in *. clear E0 b l.
  cbn [end_of_stream z_code_gzip_decode_new z_code_gzip_init].
  assert (Hgen : ∀ fuel (self : ZCodeGzip D I) i z p, gzip self = Inflating i → inflates i z p → zc_wf (gz_super self) →
    zlen (zc_results (gz_super self)) + zlen p + 4 * zlen (z ++ t) ≤ 2 ^ 30 → transform_loop fuel self (z ++ t) = Fault OutOfFuel).
  2: { eapply Hgen; [done|exact Hinf|by apply z_code_init_wf|exact Hb]. }
  clear Hinf Hz Hbuf Hb bufsize z p fuel. induction fuel as [|fuel IH]; intros self i z p Hg Hinf Hwf Hb; [done|].
  rewrite (zc_results_length _ Hwf) in Hb. rewrite length_app in Hb. assert (Hne : z ++ t ≠ []) by (by destruct z, t).
  destruct (decompress_round self i (z ++ t) Hg Hwf Hne ltac:(rewrite length_app; lia)) as (n & Hn & Hround).
  destruct (inflate i (z ++ t) n) as [[[rc k] out] i'] eqn:E1.
  destruct (inflate_run i z p t (z ++ t) n rc k out i' Hinf Hn ltac:(done) E1) as (Hk & Ho & p' & -> & Hcase).
  assert (Hneg : rc_negative rc = false) by (destruct Hcase as [(-> & _)|[(-> & _)|(_ & ? & _)]]; done).
  destruct (Hround rc k out i' eq_refl Ho Hneg) as (s' & Hwf' & Hres & ->). cbv zeta. rewrite length_app in Hb.
  pose proof (zc_results_length _ Hwf') as Hl. pose proof (zc_results_length _ Hwf) as Hl0. rewrite Hres, length_app in Hl.
  assert (Hnil : drop (Z.to_nat k) (z ++ t) ≠ []).
  { assert (Hkz : k ≤ zlen z) by (destruct Hcase as [(_ & _ & ?)|[(_ & _ & ? & _)|(_ & ? & _)]]; [lia|lia|done]).
    rewrite drop_app_le by lia. by destruct (drop (Z.to_nat k) z), t. }
  rewrite (proj2 (Z.eqb_neq _ _)) by (destruct (drop (Z.to_nat k) (z ++ t)); [done|cbn; lia]). cbn [negb].
  destruct Hcase as [(-> & -> & ->)|[(-> & _ & Hkz & Hinf')|(_ & ? & _)]]; [| |done].
  - eapply (ended_loops fuel _ i'); [done|intros inp m; by eapply inflate_ended|done|done|]. cbn [gz_super]. rewrite length_drop, length_app. lia.
  - rewrite drop_app_le by lia. eapply (IH _ i' (drop (Z.to_nat k) z) p'); [done|exact Hinf'|done|]. cbn [gz_super].
    rewrite (zc_results_length _ Hwf'), length_app, length_drop. lia.
Qed.
End promises.

(** * Ciphers *)

(** The context of EVP: encrypting or decrypting a chunk, and the end of the data; whether it
    succeeds, and what was written. *)
Class EVP_Cipher (K : Type) := {
  block_size : K → Z;
  EVP_CipherUpdate : K → list Z → bool * list Z * K;
  EVP_CipherFinal : K → bool * list Z * K
}.

Class EVP_CipherLaws (K : Type) `{EVP_Cipher K} := {
  block_size_pos k : 0 < block_size k ≤ 32;
  update_length k l ok out k' :
    EVP_CipherUpdate k l = (ok, out, k') → zlen out ≤ (zlen l `div` block_size k + 1) * block_size k ∧ block_size k' = block_size k;
  final_length k ok out k' : EVP_CipherFinal k = (ok, out, k') → zlen out ≤ block_size k
}.

Section cipher.
Context {K : Type} `{FreshMem} `{EVP_Cipher K}.

Record ZCodeCipher := mkCipher { cipher_super : ZCode; cipher_ctx : K }.

Definition z_code_cipher_transform (self : ZCodeCipher) (buf : list Z) : outcome (bool * ZCodeCipher) :=
  match buf with
  | [] => Done (true, self)
  | _ =>
      let s := cipher_super self in
      let bs := block_size (cipher_ctx self) in
      s ← z_code_grow s (s32 (u64 (zc_buf_used s + (zlen buf `div` bs + 1) * bs)));
      let '(ok, out, k) := EVP_CipherUpdate (cipher_ctx self) buf in
      b ← store_range (zc_buf s) (zc_buf_used s) out;
      Done (ok, mkCipher (zc_with_used (zc_buf_used s + zlen out) (zc_with_buf b s)) k)
  end.

Definition z_code_cipher_finish (self : ZCodeCipher) : outcome (bool * ZCodeCipher) :=
  let s := cipher_super self in
  s ← z_code_grow s (s32 (u64 (zc_buf_used s + block_size (cipher_ctx self))));
  let '(ok, out, k) := EVP_CipherFinal (cipher_ctx self) in
  b ← store_range (zc_buf s) (zc_buf_used s) out;
  Done (ok, mkCipher (zc_with_used (zc_buf_used s + zlen out) (zc_with_buf b s)) k).

Definition z_code_cipher_new (k : K) : ZCodeCipher := mkCipher (z_code_init 0) k.

#[export] Instance cipher_methods : CodeMethods ZCodeCipher := {
  code_super := cipher_super;
  code_set_super z self := mkCipher z (cipher_ctx self);
  code_transform := z_code_cipher_transform;
  code_finish := Some z_code_cipher_finish
}.

(** What the cipher makes of the chunks, and of the end. *)
Fixpoint cipher_run (k : K) (chunks : list (list Z)) : bool * list Z :=
  match chunks with
  | [] => let '(ok, out, _) := EVP_CipherFinal k in (ok, out)
  | [] :: chunks => cipher_run k chunks
  | l :: chunks =>
      let '(ok, out, k) := EVP_CipherUpdate k l in
      let '(ok2, out2) := cipher_run k chunks in (ok && ok2, out ++ out2)
  end.

(** The same through the codec. *)
Fixpoint cipher_session (self : ZCodeCipher) (chunks : list (list Z)) : outcome (bool * ZCodeCipher) :=
  match chunks with
  | [] => z_code_finish self
  | l :: chunks =>
      '(ok, self) ← z_code_transform self l;
      '(ok2, self) ← cipher_session self chunks;
      Done (ok && ok2, self)
  end.

Context `{!EVP_CipherLaws K}.

(** Growing for what is going to be written, and the write. *)
Lemma cipher_append s n out :
  zc_wf s → 0 ≤ n → zlen out ≤ n → zc_buf_used s + n ≤ 2 ^ 30 →
  ∃ s1, z_code_grow s (s32 (u64 (zc_buf_used s + n))) = Done s1 ∧
  ∃ b, store_range (zc_buf s1) (zc_buf_used s1) out = Done b ∧
  let s' := zc_with_used (zc_buf_used s1 + zlen out) (zc_with_buf b s1) in
  zc_wf s' ∧ zc_results s' = zc_results s ++ out ∧ zc_buf_used s' = zc_buf_used s + zlen out.
Proof.
  intros Hwf Hn Hout Hb. pose proof Hwf as [Hl Hr Hu]. rewrite u64_small, s32_small by lia.
  destruct (z_code_grow_returns s (zc_buf_used s + n) Hwf Hb) as [s1 Hs1]. exists s1. split; [done|].
  destruct (z_code_grow_Done _ _ _ Hwf Hs1) as (Hwf1 & _ & Hle & _ & Hused & _). destruct (z_code_grow_keeps _ _ _ Hwf Hs1) as [Hres _].
  pose proof (append_results s1 out Hwf1 ltac:(lia)) as Happ. apply returns_Done in Happ as (b & Hst & Hwf2 & Hres2 & _).
  exists b. split; [done|]. split; [done|]. split; [by rewrite Hres2, Hres|]. cbn. by rewrite Hused.
Qed.

(** The codec of a cipher never leaves its buffer: a session returns, succeeds when every call of the cipher does, and
    its results are what the cipher has given out, in order. *)
Theorem cipher_session_spec (k : K) (chunks : list (list Z)) :
  zlen (concat chunks) + (zlen chunks + 1) * block_size k ≤ 2 ^ 30 →
  returns (cipher_session (z_code_cipher_new k) chunks) (λ '(ok, self), (ok, zc_results (cipher_super self)) = cipher_run k chunks).
Proof.
  assert (Hgen : ∀ chunks self, zc_wf (cipher_super self) →
    zc_buf_used (cipher_super self) + zlen (concat chunks) + (zlen chunks + 1) * block_size (cipher_ctx self) ≤ 2 ^ 30 →
    returns (cipher_session self chunks) (λ '(ok, self'),
      let '(ok2, out) := cipher_run (cipher_ctx self) chunks in ok = ok2 ∧ zc_results (cipher_super self') = zc_results (cipher_super self) ++ out)).
  2: { intros Hb. eapply returns_mono; [apply (Hgen chunks (z_code_cipher_new k)); [by apply z_code_init_wf|exact Hb]|].
       intros [ok self]. cbn [cipher_ctx z_code_cipher_new]. destruct (cipher_run k chunks) as [ok2 out]. by intros [-> ->]. }
  clear k chunks. induction chunks as [|l chunks IH]; intros self Hwf Hb; pose proof (block_size_pos (cipher_ctx self)) as Hbs.
  - cbn [cipher_session cipher_run]. unfold z_code_finish. cbn [code_finish cipher_methods]. unfold z_code_cipher_finish.
    destruct (EVP_CipherFinal (cipher_ctx self)) as [[ok out] k'] eqn:E1. apply final_length in E1. cbn [concat length] in Hb. change (Z.of_nat 0) with 0 in Hb.
    destruct (cipher_append (cipher_super self) (block_size (cipher_ctx self)) out Hwf) as (s1 & -> & b & Hst & _ & Hres & _); [lia|done|lia|].
    rewrite Done_bind. cbv beta iota zeta. rewrite Hst, Done_bind. apply returns_ret. by split.
  - assert (Hmore : (zlen (l :: chunks) + 1) * block_size (cipher_ctx self) = (zlen chunks + 1) * block_size (cipher_ctx self) + block_size (cipher_ctx self))
      by (cbn [length]; lia). rewrite Hmore in Hb. clear Hmore. cbn [cipher_session]. destruct l as [|x l].
    { cbn [z_code_transform code_transform cipher_methods z_code_cipher_transform cipher_run concat app length] in *. rewrite Done_bind. apply returns_bind.
      eapply returns_mono; [apply (IH self Hwf); lia|]. by intros [ok self']. }
    set (m := x :: l) in *. change (cipher_run (cipher_ctx self) (m :: chunks)) with
      (let '(ok, out, k) := EVP_CipherUpdate (cipher_ctx self) m in let '(ok2, out2) := cipher_run k chunks in (ok && ok2, out ++ out2)).
    change (z_code_transform self m) with
      (s ← z_code_grow (cipher_super self) (s32 (u64 (zc_buf_used (cipher_super self) + (zlen m `div` block_size (cipher_ctx self) + 1) * block_size (cipher_ctx self))));
       let '(ok, out, k) := EVP_CipherUpdate (cipher_ctx self) m in
       b ← store_range (zc_buf s) (zc_buf_used s) out;
       Done (ok, mkCipher (zc_with_used (zc_buf_used s + zlen out) (zc_with_buf b s)) k)).
    destruct (EVP_CipherUpdate (cipher_ctx self) m) as [[ok out] k'] eqn:E1. apply update_length in E1 as [Hout Hsame].
    cbn [concat length] in Hb. rewrite length_app in Hb.
    assert (Hdiv : (zlen m `div` block_size (cipher_ctx self) + 1) * block_size (cipher_ctx self) ≤ zlen m + block_size (cipher_ctx self)).
    { pose proof (Z.mul_div_le (zlen m) (block_size (cipher_ctx self))). lia. }
    assert (H0' : 0 ≤ (zlen m `div` block_size (cipher_ctx self) + 1) * block_size (cipher_ctx self)).
    { pose proof (Z.div_pos (zlen m) (block_size (cipher_ctx self))). nia. }
    destruct (cipher_append (cipher_super self) _ out Hwf H0' Hout) as (s1 & -> & b & Hst & Hwf' & Hres & Hused); [lia|].
    rewrite Done_bind. cbv beta iota zeta. rewrite Hst, Done_bind. rewrite Done_bind. apply returns_bind. set (self1 := mkCipher _ k') in *.
    eapply returns_mono; [apply (IH self1 Hwf'); cbn [cipher_super cipher_ctx self1]; rewrite Hused, Hsame; lia|].
    intros [ok2 self2]. cbn [cipher_ctx self1]. destruct (cipher_run k' chunks) as [ok3 out3]. intros [-> Hres2]. apply returns_ret.
    split; [done|]. rewrite Hres2. cbn [cipher_super self1]. by rewrite Hres, app_assoc.
Qed.
End cipher.

(** * Runs *)

Module ToyCodecs.
Import ToyZlib.
#[export] Instance codec_memory : FreshMem := zero_mem.

Definition encoder (bufsize : Z) : ZCodeGzip (list Z) (option bool) := z_code_gzip_encode_new bufsize 6.
Definition decoder (bufsize : Z) : ZCodeGzip (list Z) (option bool) := z_code_gzip_decode_new bufsize.

(** A block that is full of results cannot be read: z_code_get_result moves one byte more. *)
Example full_of_results :
  ('(ok, c) ← z_code_gzip_transform 10 (encoder 4) [5; 6]; code_read (H := gzip_methods 10) c 1) = Fault OutOfBounds.
Proof. by vm_compute. Qed.

(** Finishing does not end the compressed data: deflate is never called with Z_FINISH. *)
Example never_finished :
  ('(ok, c) ← z_code_gzip_transform 10 (encoder 100) [5; 6]; Done (ok, z_code_gzip_finish c, zc_results (gz_super c))) =
  Done (true, true, [1; 5; 1; 6]).
Proof. by vm_compute. Qed.

Lemma coded_length p : zlen (coded p) = 2 * zlen p.
Proof. unfold coded. rewrite (length_bind_const _ _ 2); [lia|done]. Qed.

(** A cipher with blocks of two bytes: pairs are swapped, and the last one is filled with 0. *)
Fixpoint swap_pairs (l : list Z) : list Z * option Z :=
  match l with
  | a :: b :: l => let '(out, rest) := swap_pairs l in (b :: a :: out, rest)
  | [a] => ([], Some a)
  | [] => ([], None)
  end.

#[export] Instance toy_cipher : EVP_Cipher (option Z) := {
  block_size _ := 2;
  EVP_CipherUpdate k l := let '(out, rest) := swap_pairs (option_list k ++ l) in (true, out, rest);
  EVP_CipherFinal k := (true, match k with Some a => [0; a] | None => [] end, None)
}.

Lemma swap_pairs_length l : zlen (swap_pairs l).1 ≤ zlen l `div` 2 * 2.
Proof.
  assert (Hgen : ∀ n l, (length l ≤ n)%nat → zlen (swap_pairs l).1 ≤ zlen l `div` 2 * 2).
  { clear l. induction n as [|n IH]; intros [|a [|b l]] Hl; cbn [swap_pairs length fst] in *; try lia; try done.
    specialize (IH l ltac:(lia)). destruct (swap_pairs l) as [out rest]. cbn [fst length] in *.
    replace (Z.of_nat (S (S (length l)))) with (zlen l + 1 * 2) by lia. rewrite Z.div_add by lia. lia. }
  by eapply Hgen.
Qed.

#[export] Instance toy_cipher_laws : EVP_CipherLaws (option Z).
Proof.
  split; [done| |].
  - intros k l ok out k'. cbn. pose proof (swap_pairs_length (option_list k ++ l)) as Hl.
    destruct (swap_pairs _) as [o r]. intros [= _ <- _]. cbn [fst] in Hl. split; [|done]. rewrite length_app in Hl.
    assert (Z.of_nat (length (option_list k) + length l) `div` 2 ≤ (zlen l + 1 * 2) `div` 2) by (apply Z.div_le_mono; destruct k; cbn; lia).
    rewrite Z.div_add in H by lia. lia.
  - intros [a|] ok out k'; cbn; intros [= _ <- _]; cbn; lia.
Qed.
End ToyCodecs.
Import ToyZlib ToyCodecs.

Lemma gzip_encode_session_witness :
  settles (λ fuel, transforms fuel (encoder 16) [[5; 6; 7]; []; [8]]) (λ '(ok, self), ok = true ∧ z_code_gzip_finish self = true ∧
    ∃ d, gzip self = Deflating d ∧ deflates (I := option bool) false d [5; 6; 7; 8] (zc_results (gz_super self))).
Proof.
  refine (gzip_encode_session 100 16 6 [[5; 6; 7]; []; [8]] _ _ _ _); [|done|repeat constructor; done|done].
  intros d p z Hd HN. cbn in Hd. apply (f_equal length) in Hd. rewrite length_app in Hd. pose proof (coded_length p). lia.
Defined.

Lemma gzip_decode_session_witness :
  returns (transforms 20 (decoder 4) [[1]; [5; 1]; [6; 0]]) (λ '(ok, self), ok = true ∧ z_code_gzip_finish self = true ∧
    ∃ more, [5; 6] = zc_results (gz_super self) ++ more ∧ (end_of_stream self = true → more = [] ∧ [] = @nil Z)).
Proof.
  exact (gzip_decode_session 4 [[1]; [5; 1]; [6; 0]] [] [5; 6] 20 (toy_complete false [5; 6]) ltac:(done) ltac:(vm_compute; congruence) ltac:(cbn; lia)).
Defined.

Lemma gzip_decode_trailing_witness : z_code_gzip_transform 1000 (decoder 4) [1; 5; 0; 10] = Fault OutOfFuel.
Proof.
  exact (gzip_decode_trailing 4 [1; 5; 0] [5] [10] 1000 (toy_complete false [5]) ltac:(done) ltac:(done) ltac:(done) ltac:(vm_compute; congruence)).
Defined.

Lemma cipher_session_spec_witness :
  returns (cipher_session (z_code_cipher_new None) [[1; 2; 3]; [4; 5]]) (λ '(ok, self),
    (ok, zc_results (cipher_super self)) = (true, [2; 1; 4; 3; 0; 5])).
Proof.
  pose proof (cipher_session_spec None [[1; 2; 3]; [4; 5]]) as Hs. specialize (Hs ltac:(vm_compute; congruence)).
  eapply returns_mono; [exact Hs|]. intros [ok self] Heq. exact Heq.
Defined.
