(* ===== verification/StreamGzip.v ===== *)
(** * Gzip streams (src/src/streamgzip.c)

    A ZStreamGzip compresses what is written to it and decompresses what is read from its child,
    with the header and the trailer of the gzip format if it is asked to.  The child is known by
    the interfaces of StreamApi.v, zlib by the class of Zlib.v.  This file has the model, and the
    header; StreamGzipSpec.v has what reading and writing promise. *)

From S2P Require Import Prelude CLib StreamApi Zlib.
Open Scope Z_scope.

Lemma u32_small x : 0 ≤ x < 2 ^ 32 → u32 x = x.
Proof. apply Z.mod_small. Qed.

(** ** Constants *)

Definition Z_SGS_EOF_RECEIVED : Z := 0x0001.
Definition Z_SGS_COMPRESS_FINISHED : Z := 0x0002.
Definition Z_SGS_HEADER_READ : Z := 0x0004.
Definition Z_SGS_HEADER_WRITTEN : Z := 0x0008.
Definition Z_SGS_READ_ERROR : Z := 0x0010.
Definition Z_SGS_WRITE_ERROR : Z := 0x0020.

Definition Z_SGZ_SYNC_FLUSH : Z := 0x0001.
Definition Z_SGZ_WRITE_EMPTY_HEADER : Z := 0x0004.

Definition Z_GZ_OS_CODE : Z := 3.
Definition Z_GZH_HEAD_CRC : Z := 0x02.
Definition Z_GZH_EXTRA_FIELD : Z := 0x04.
Definition Z_GZH_ORIG_NAME : Z := 0x08.
Definition Z_GZH_COMMENT : Z := 0x10.
Definition MAX_GZIP_HEADER_STRING : Z := 4096.

Definition GZIP_MAGIC_1 : Z := 0x1F.
Definition GZIP_MAGIC_2 : Z := 0x8B.
Definition Z_DEFLATED : Z := 8.

Definition GZIP_IS_GZIP_MAGIC (b : list Z) : bool :=
  (b !!! 0%nat =? GZIP_MAGIC_1) && (b !!! 1%nat =? GZIP_MAGIC_2) && (b !!! 2%nat =? Z_DEFLATED) && negb (has (b !!! 3%nat) 0xe0).

(** A C string in a buffer. *)
Fixpoint c_string (buf : list Z) : list Z :=
  match buf with [] => [] | c :: buf => if c =? 0 then [] else c :: c_string buf end.

(** The pointers are [None] when they are NULL; strings are without their NUL. *)
Record gzip_header := mkHeader {
  gzip_timestamp : Z;
  gzip_extra_len : Z;
  gzip_extra : option (list Z);
  gzip_origname : option (list Z);
  gzip_comment : option (list Z)
}.

Inductive gzip_error (E : Type) : Type :=
| AlreadyShutDown | StoredError | InflateError | DeflateError
| ReadFailed                        (* the child's, when it has one *)
| WriteFailed (e : option E).
Arguments AlreadyShutDown {E}.
Arguments StoredError {E}.
Arguments InflateError {E}.
Arguments DeflateError {E}.
Arguments ReadFailed {E}.
Arguments WriteFailed {E} e.

Section gzip.
Context {C E D I : Type} `{FreshMem} `{ZStreamOps C} `{ZStreamWriteOps C E} `{Zlib D I}.

(** ** The child *)

(** z_stream_read_chunk and z_stream_write_chunk over the child: the status, what was read or how
    much was written, and the child. *)
Fixpoint child_read_loop (fuel : nat) (c : C) (t len : Z) (acc : list Z) (status : GIOStatus)
    : outcome (GIOStatus * list Z * C) :=
  match fuel with
  | O => Fault OutOfFuel
  | S fuel =>
      if bool_decide (status = G_IO_STATUS_NORMAL) && (0 <? len) then
        let '(status, l, c) := child_read c t len in
        if bool_decide (status = G_IO_STATUS_NORMAL)
        then child_read_loop fuel c t (u64 (len - zlen l)) (acc ++ l) status
        else child_read_loop fuel c t len acc status
      else Done (status, acc, c)
  end.

Definition child_read_chunk (c : C) (t len : Z) : outcome (GIOStatus * list Z * C) :=
  '(status, l, c) ← child_read_loop (2 + Z.to_nat len) c t len [] G_IO_STATUS_NORMAL;
  _ ← require (status ≠ G_IO_STATUS_AGAIN) AssertFailed;
  Done (if bool_decide (status = G_IO_STATUS_EOF) && (0 <? zlen l) then G_IO_STATUS_NORMAL else status, l, c).

Fixpoint child_write_loop (fuel : nat) (c : C) (buf : list Z) (len n : Z) (err : option E) (status : GIOStatus)
    : outcome (GIOStatus * Z * option E * C) :=
  match fuel with
  | O => Fault OutOfFuel
  | S fuel =>
      if bool_decide (status = G_IO_STATUS_NORMAL) && (0 <? len) then
        l ← load_range buf n len;
        let '(status, k, err, c) := child_write c l in
        if bool_decide (status = G_IO_STATUS_NORMAL)
        then child_write_loop fuel c buf (u64 (len - k)) (u64 (n + k)) err status
        else child_write_loop fuel c buf len n err status
      else Done (status, n, err, c)
  end.

Definition child_write_chunk (c : C) (buf : list Z) : outcome (GIOStatus * Z * option E * C) :=
  '(status, n, err, c) ← child_write_loop (2 + length buf) c buf (zlen buf) 0 None G_IO_STATUS_NORMAL;
  _ ← require (status ≠ G_IO_STATUS_AGAIN) AssertFailed;
  Done (status, n, err, c).

(** ** The stream *)

Record ZStreamGzip := mkGz {
  gz_child : C;
  gz_child_timeout : Z;            (* the timeout of the child, which is not touched *)
  gz_flags : Z;
  encode : D;
  enc_out : list Z;                (* from buffer_encode_out to encode.next_out *)
  enc_p : Z;                       (* buffer_encode_out_p - buffer_encode_out *)
  decode : I;
  decode_in : list Z;              (* decode.next_in, decode.avail_in *)
  buffer_length : Z;
  gz_state : Z;
  gz_shutdown : Z;
  child_cond : Z;
  encode_crc : Z;
  encode_in : Z;
  header : gzip_header
}.

Definition gz_with_child (c : C) (s : ZStreamGzip) : ZStreamGzip :=
  mkGz c (gz_child_timeout s) (gz_flags s) (encode s) (enc_out s) (enc_p s) (decode s) (decode_in s) (buffer_length s)
       (gz_state s) (gz_shutdown s) (child_cond s) (encode_crc s) (encode_in s) (header s).
Definition gz_with_encode (d : D) (out : list Z) (p : Z) (s : ZStreamGzip) : ZStreamGzip :=
  mkGz (gz_child s) (gz_child_timeout s) (gz_flags s) d out p (decode s) (decode_in s) (buffer_length s)
       (gz_state s) (gz_shutdown s) (child_cond s) (encode_crc s) (encode_in s) (header s).
Definition gz_with_decode (i : I) (inp : list Z) (s : ZStreamGzip) : ZStreamGzip :=
  mkGz (gz_child s) (gz_child_timeout s) (gz_flags s) (encode s) (enc_out s) (enc_p s) i inp (buffer_length s)
       (gz_state s) (gz_shutdown s) (child_cond s) (encode_crc s) (encode_in s) (header s).
Definition gz_with_state (st : Z) (s : ZStreamGzip) : ZStreamGzip :=
  mkGz (gz_child s) (gz_child_timeout s) (gz_flags s) (encode s) (enc_out s) (enc_p s) (decode s) (decode_in s) (buffer_length s)
       st (gz_shutdown s) (child_cond s) (encode_crc s) (encode_in s) (header s).
Definition gz_with_shutdown (sh : Z) (s : ZStreamGzip) : ZStreamGzip :=
  mkGz (gz_child s) (gz_child_timeout s) (gz_flags s) (encode s) (enc_out s) (enc_p s) (decode s) (decode_in s) (buffer_length s)
       (gz_state s) sh (child_cond s) (encode_crc s) (encode_in s) (header s).
Definition gz_with_cond (cond : Z) (s : ZStreamGzip) : ZStreamGzip :=
  mkGz (gz_child s) (gz_child_timeout s) (gz_flags s) (encode s) (enc_out s) (enc_p s) (decode s) (decode_in s) (buffer_length s)
       (gz_state s) (gz_shutdown s) cond (encode_crc s) (encode_in s) (header s).
Definition gz_with_crc (crc n : Z) (s : ZStreamGzip) : ZStreamGzip :=
  mkGz (gz_child s) (gz_child_timeout s) (gz_flags s) (encode s) (enc_out s) (enc_p s) (decode s) (decode_in s) (buffer_length s)
       (gz_state s) (gz_shutdown s) (child_cond s) crc n (header s).
Definition gz_with_header (h : gzip_header) (s : ZStreamGzip) : ZStreamGzip :=
  mkGz (gz_child s) (gz_child_timeout s) (gz_flags s) (encode s) (enc_out s) (enc_p s) (decode s) (decode_in s) (buffer_length s)
       (gz_state s) (gz_shutdown s) (child_cond s) (encode_crc s) (encode_in s) h.
Definition gz_set_state (k : Z) (s : ZStreamGzip) : ZStreamGzip := gz_with_state (set_flag (gz_state s) k) s.

(** encode.avail_out: it changes together with next_out. *)
Definition avail_out (s : ZStreamGzip) : Z := buffer_length s - zlen (enc_out s).

(** ** The header *)

(** The first loop: the status, the buffer, rdlen and the child. *)
Fixpoint string_loop (fuel : nat) (c : C) (t : Z) (buf : list Z) (rdlen : Z) (status : GIOStatus)
    : outcome (GIOStatus * list Z * Z * C) :=
  match fuel with
  | O => Fault OutOfFuel
  | S fuel =>
      if rdlen <? MAX_GZIP_HEADER_STRING - 1 then
        let '(status, l, c) := child_read c t 1 in
        buf ← store_range buf rdlen l;
        if bool_decide (status = G_IO_STATUS_NORMAL) then
          ch ← load buf rdlen;
          if negb (ch =? 0) then string_loop fuel c t buf (rdlen + zlen l) status else Done (status, buf, rdlen, c)
        else Done (status, buf, rdlen, c)
      else Done (status, buf, rdlen, c)
  end.

(** The second one, which drops the rest of a long string. *)
Fixpoint skip_loop (fuel : nat) (c : C) (t : Z) (ch : Z) : outcome (GIOStatus * C) :=
  match fuel with
  | O => Fault OutOfFuel
  | S fuel =>
      let '(status, l, c) := child_read c t 1 in
      let ch := default ch (head l) in
      if bool_decide (status = G_IO_STATUS_NORMAL) && negb (ch =? 0) then skip_loop fuel c t ch else Done (status, c)
  end.

(** The buffer on the stack is not initialised. *)
Definition z_stream_gzip_read_gzip_string (child : C) (t : Z) : outcome (option (list Z) * C) :=
  let buf := fresh_bytes 0 (Z.to_nat MAX_GZIP_HEADER_STRING) in
  '(status, buf, rdlen, child) ← string_loop (Z.to_nat MAX_GZIP_HEADER_STRING) child t buf 0 G_IO_STATUS_NORMAL;
  ch ← load buf rdlen;
  '(status, child) ← (if negb (ch =? 0) then skip_loop (2 + length (to_come child)) child t ch else Done (status, child));
  if negb (bool_decide (status = G_IO_STATUS_NORMAL)) then Done (None, child)
  else buf ← store buf rdlen 0; Done (Some (c_string buf), child).

Definition z_stream_gzip_reset_gzip_header (s : ZStreamGzip) : ZStreamGzip :=
  gz_with_header (mkHeader (gzip_timestamp (header s)) 0 None None None) s.

(** A read of exactly [n] bytes, or the error exit. *)
Definition fetch (n : Z) (s : ZStreamGzip) : outcome (option (list Z) * list Z * ZStreamGzip) :=
  '(st, l, c) ← child_read_chunk (gz_child s) (gz_child_timeout s) n;
  Done (if bool_decide (st = G_IO_STATUS_NORMAL) && (zlen l =? n) then Some l else None, l, gz_with_child c s).

(** The optional fields, each a step that fails or goes on. *)
Definition read_extra (s : ZStreamGzip) : outcome (bool * ZStreamGzip) :=
  '(r, _, s) ← fetch 2 s;
  match r with
  | None => Done (false, s)
  | Some b =>
      let len := b !!! 0%nat + Z.shiftl (b !!! 1%nat) 8 in
      '(r, l, s) ← fetch len s;
      let h := header s in
      let extra := if len =? 0 then None else Some (l ++ replicate (Z.to_nat len - length l) 0) in
      Done (bool_decide (is_Some r), gz_with_header (mkHeader (gzip_timestamp h) len extra (gzip_origname h) (gzip_comment h)) s)
  end.

Definition read_origname (s : ZStreamGzip) : outcome (bool * ZStreamGzip) :=
  '(r, c) ← z_stream_gzip_read_gzip_string (gz_child s) (gz_child_timeout s);
  let s := gz_with_child c s in
  let h := header s in
  match r with
  | None => Done (false, s)
  | Some name => Done (true, gz_with_header (mkHeader (gzip_timestamp h) (gzip_extra_len h) (gzip_extra h) (Some name) (gzip_comment h)) s)
  end.

Definition read_comment (s : ZStreamGzip) : outcome (bool * ZStreamGzip) :=
  '(r, c) ← z_stream_gzip_read_gzip_string (gz_child s) (gz_child_timeout s);
  let s := gz_with_child c s in
  let h := header s in
  match r with
  | None => Done (false, s)
  | Some text => Done (true, gz_with_header (mkHeader (gzip_timestamp h) (gzip_extra_len h) (gzip_extra h) (gzip_origname h) (Some text)) s)
  end.

Definition read_head_crc (s : ZStreamGzip) : outcome (bool * ZStreamGzip) :=
  '(r, _, s) ← fetch 2 s; Done (bool_decide (is_Some r), s).

(** The step is taken when the flag is there, and the ones behind it when it succeeds. *)
Definition optional (present : bool) (step : ZStreamGzip → outcome (bool * ZStreamGzip))
    (next : ZStreamGzip → outcome (bool * ZStreamGzip)) (s : ZStreamGzip) : outcome (bool * ZStreamGzip) :=
  if present then '(ok, s) ← step s; if ok : bool then next s else Done (false, s) else next s.

Definition z_stream_gzip_read_gzip_header (s : ZStreamGzip) : outcome (bool * ZStreamGzip) :=
  if has (gz_flags s) Z_SGZ_GZIP_HEADER && negb (has (gz_state s) Z_SGS_HEADER_READ) then
    let s := z_stream_gzip_reset_gzip_header (gz_set_state Z_SGS_HEADER_READ s) in
    '(r, _, s) ← fetch 4 s;
    match r with
    | None => Done (false, s)
    | Some magic =>
        if negb (GZIP_IS_GZIP_MAGIC magic) then Done (false, s)
        else
          '(r, _, s) ← fetch 6 s;
          match r with
          | None => Done (false, s)
          | Some b =>
              let h := header s in
              let ts := Z.lor (Z.lor (Z.lor (Z.shiftl (b !!! 3%nat) 24) (Z.shiftl (b !!! 2%nat) 16)) (Z.shiftl (b !!! 1%nat) 8)) (b !!! 0%nat) in
              let s := gz_with_header (mkHeader ts (gzip_extra_len h) (gzip_extra h) (gzip_origname h) (gzip_comment h)) s in
              let flags := magic !!! 3%nat in
              optional (has flags Z_GZH_EXTRA_FIELD) read_extra
                (optional (has flags Z_GZH_ORIG_NAME) read_origname
                  (optional (has flags Z_GZH_COMMENT) read_comment
                    (optional (has flags Z_GZH_HEAD_CRC) read_head_crc (λ s, Done (true, s))))) s
          end
    end
  else Done (true, s).

(** The first ten bytes. *)
Definition header_flags (h : gzip_header) : Z :=
  Z.lor (Z.lor (if gzip_origname h then Z_GZH_ORIG_NAME else 0) (if gzip_comment h then Z_GZH_COMMENT else 0))
        (if gzip_extra h then Z_GZH_EXTRA_FIELD else 0).

Definition header_start (h : gzip_header) : list Z :=
  let ts := gzip_timestamp h in
  [GZIP_MAGIC_1; GZIP_MAGIC_2; Z_DEFLATED; header_flags h;
   Z.land ts 0xff; Z.land (Z.shiftr ts 8) 0xff; Z.land (Z.shiftr ts 16) 0xff; Z.land (Z.shiftr ts 24) 0xff; 0; Z_GZ_OS_CODE].

(** The writes one after the other, up to the first that fails. *)
Fixpoint write_chunks (c : C) (chunks : list (list Z)) : outcome (bool * option E * C) :=
  match chunks with
  | [] => Done (true, None, c)
  | l :: chunks =>
      '(st, _, err, c) ← child_write_chunk c l;
      if bool_decide (st = G_IO_STATUS_NORMAL) then write_chunks c chunks else Done (false, err, c)
  end.

Definition header_chunks (h : gzip_header) : list (list Z) :=
  [header_start h] ++
  match gzip_extra h with
  | Some extra => [[Z.land (gzip_extra_len h) 0xff; Z.land (Z.shiftr (gzip_extra_len h) 8) 0xff]; take (Z.to_nat (gzip_extra_len h)) extra]
  | None => []
  end ++
  match gzip_origname h with Some name => [name ++ [0]] | None => [] end ++
  match gzip_comment h with Some text => [text ++ [0]] | None => [] end.

(** [error]: the error that is set already; then nothing is written. *)
Definition z_stream_gzip_write_gzip_header (error : option E) (s : ZStreamGzip) : outcome (bool * option E * ZStreamGzip) :=
  if error then Done (false, error, s)
  else if has (gz_flags s) Z_SGZ_GZIP_HEADER && negb (has (gz_state s) Z_SGS_HEADER_WRITTEN) then
    let s := gz_set_state Z_SGS_HEADER_WRITTEN s in
    '(ok, err, c) ← write_chunks (gz_child s) (header_chunks (header s));
    Done (ok, err, gz_with_child c s)
  else Done (true, None, s).

(** Four bytes of a guint32, the low ones first. *)
Fixpoint guint32_bytes (n : nat) (x : Z) : list Z :=
  match n with O => [] | S n => Z.land x 0xff :: guint32_bytes n (Z.shiftr x 8) end.

Definition z_stream_gzip_write_gzip_trailer (error : option E) (s : ZStreamGzip) : outcome (bool * option E * ZStreamGzip) :=
  if error then Done (false, error, s)
  else if has (gz_flags s) Z_SGZ_GZIP_HEADER && has (gz_state s) Z_SGS_HEADER_WRITTEN then
    '(st, _, err, c) ← child_write_chunk (gz_child s) (guint32_bytes 4 (encode_crc s) ++ guint32_bytes 4 (encode_in s));
    Done (bool_decide (st = G_IO_STATUS_NORMAL), err, gz_with_child c s)
  else Done (true, None, s).

(** ** The callbacks of the child *)

(** Both answer TRUE. *)
Definition z_stream_gzip_read_callback (s : ZStreamGzip) : ZStreamGzip := gz_with_cond (set_flag (child_cond s) G_IO_IN) s.

(** A write of what is between buffer_encode_out_p and next_out: [length], which is computed as
    their difference, is passed as a gsize. *)
Definition write_pending (length : Z) (s : ZStreamGzip) : outcome (GIOStatus * Z * option E * C) :=
  l ← load_range (enc_out s) (enc_p s) (u64 length);
  Done (child_write (gz_child s) l).
Definition pending_length (s : ZStreamGzip) : Z := zlen (enc_out s) - enc_p s.

(** Here the length is a gint. *)
Definition z_stream_gzip_write_callback (s : ZStreamGzip) : outcome ZStreamGzip :=
  if avail_out s <? buffer_length s then
    '(res, n, _, c) ← write_pending (s32 (pending_length s)) s;
    let s := gz_with_child c s in
    if bool_decide (res = G_IO_STATUS_AGAIN) then Done s
    else if negb (bool_decide (res = G_IO_STATUS_NORMAL)) then Done (gz_set_state Z_SGS_WRITE_ERROR s)
    else
      let s := gz_with_encode (encode s) (enc_out s) (enc_p s + n) s in
      if negb (enc_p s =? zlen (enc_out s)) then Done s
      else Done (gz_with_cond (set_flag (child_cond s) G_IO_OUT) s)
  else Done (gz_with_cond (set_flag (child_cond s) G_IO_OUT) s).

(** ** Reading and writing *)

(** The call of inflate, and what follows.  avail_out is a uInt, which [count] is cut to; the
    number of bytes read is [count] less what is left of that, so that behind the bytes of
    inflate the caller may get what its buffer held before. *)
Definition inflate_step (count : Z) (s : ZStreamGzip) : GIOStatus * list Z * option (gzip_error E) * ZStreamGzip :=
  let '(rc, k, out, i) := inflate (decode s) (decode_in s) (u32 count) in
  let s := gz_with_decode i (drop (Z.to_nat k) (decode_in s)) s in
  if bool_decide (rc ≠ Z_OK ∧ rc ≠ Z_STREAM_END)
  then (G_IO_STATUS_ERROR, [], Some InflateError, gz_set_state Z_SGS_READ_ERROR s)
  else (G_IO_STATUS_NORMAL, out ++ fresh_bytes (length out) (Z.to_nat (count - u32 count)), None, if bool_decide (rc = Z_STREAM_END) then gz_set_state Z_SGS_COMPRESS_FINISHED s else s).

(** The part behind the header. *)
Definition read_body (s : ZStreamGzip) (count : Z) : GIOStatus * list Z * option (gzip_error E) * ZStreamGzip :=
  if (zlen (decode_in s) =? 0) && negb (has (gz_state s) Z_SGS_EOF_RECEIVED) then
    let '(res, l, c) := child_read (gz_child s) (gz_child_timeout s) (buffer_length s) in
    let s := gz_with_child c (gz_with_decode (decode s) l s) in
    match res with
    | G_IO_STATUS_AGAIN => (G_IO_STATUS_AGAIN, [], None, s)
    | G_IO_STATUS_EOF => inflate_step count (gz_set_state Z_SGS_EOF_RECEIVED s)
    | G_IO_STATUS_NORMAL => inflate_step count s
    | G_IO_STATUS_ERROR => (G_IO_STATUS_ERROR, [], Some ReadFailed, gz_set_state Z_SGS_READ_ERROR s)
    end
  else inflate_step count s.

Definition z_stream_gzip_read_method (s : ZStreamGzip) (count : Z)
    : outcome (GIOStatus * list Z * option (gzip_error E) * ZStreamGzip) :=
  let s := gz_with_cond (clear_flag (child_cond s) G_IO_IN) s in
  if has (gz_shutdown s) G_IO_IN then Done (G_IO_STATUS_ERROR, [], Some AlreadyShutDown, s)
  else if has (gz_state s) Z_SGS_COMPRESS_FINISHED then Done (G_IO_STATUS_EOF, [], None, s)
  else if has (gz_state s) Z_SGS_READ_ERROR then Done (G_IO_STATUS_ERROR, [], Some StoredError, s)
  else
    '(ok, s) ← z_stream_gzip_read_gzip_header s;
    if negb ok then Done (G_IO_STATUS_ERROR, [], Some ReadFailed, s) else Done (read_body s count).

(** The loop of the write method: [rest] is the input that deflate has not taken.  The result, the
    error, the input that is left, and the stream; a result of G_IO_STATUS_ERROR returns at once. *)
Fixpoint write_loop (fuel : nat) (s : ZStreamGzip) (rest : list Z) (res : GIOStatus)
    : outcome (GIOStatus * option (gzip_error E) * list Z * ZStreamGzip) :=
  match fuel with
  | O => Fault OutOfFuel
  | S fuel =>
      if bool_decide (res = G_IO_STATUS_NORMAL) && (0 <? zlen rest) then
        let '(rc, rest, s) :=
          if negb (avail_out s =? 0) then
            let '(rc, k, out, d) := deflate (encode s) rest (avail_out s) (if has (gz_flags s) Z_SGZ_SYNC_FLUSH then Z_SYNC_FLUSH else Z_NO_FLUSH) in
            (rc, drop (Z.to_nat k) rest, gz_with_encode d (enc_out s ++ out) (enc_p s) s)
          else (Z_OK, rest, s) in
        if negb (bool_decide (rc = Z_OK))
        then Done (G_IO_STATUS_ERROR, Some DeflateError, rest, gz_set_state Z_SGS_READ_ERROR s)
        else
          let '(res, n, err, c) := child_write (gz_child s) (enc_out s) in
          let s := gz_with_child c s in
          match res with
          | G_IO_STATUS_NORMAL =>
              let s := if enc_p s + n =? zlen (enc_out s) then gz_with_encode (encode s) [] 0 s
                       else gz_with_encode (encode s) (enc_out s) (enc_p s + n) s in
              write_loop fuel s rest res
          | G_IO_STATUS_AGAIN => write_loop fuel s rest res
          | _ => Done (G_IO_STATUS_ERROR, Some (WriteFailed err), rest, gz_set_state Z_SGS_WRITE_ERROR s)
          end
      else Done (res, None, rest, s)
  end.

(** The part behind the header: what is left over from the last call is written first. *)
Definition flush_pending (s : ZStreamGzip) : outcome (GIOStatus * option (gzip_error E) * ZStreamGzip) :=
  if avail_out s <? buffer_length s then
    '(res, n, err, c) ← write_pending (pending_length s) s;
    let s := gz_with_child c s in
    if bool_decide (res = G_IO_STATUS_AGAIN) then Done (G_IO_STATUS_AGAIN, None, s)
    else if negb (bool_decide (res = G_IO_STATUS_NORMAL))
    then Done (G_IO_STATUS_ERROR, Some (WriteFailed err), gz_set_state Z_SGS_WRITE_ERROR s)
    else
      let s := gz_with_encode (encode s) (enc_out s) (enc_p s + n) s in
      Done (if negb (enc_p s =? zlen (enc_out s)) then G_IO_STATUS_AGAIN else G_IO_STATUS_NORMAL, None, s)
  else Done (G_IO_STATUS_NORMAL, None, s).

(** The status, the number of bytes that were taken, the error and the stream.  avail_in is a
    uInt, which the length of [buf] is cut to, and so is the length that crc32 gets. *)
Definition z_stream_gzip_write_method (fuel : nat) (s : ZStreamGzip) (buf : list Z)
    : outcome (GIOStatus * Z * option (gzip_error E) * ZStreamGzip) :=
  let s := gz_with_cond (clear_flag (child_cond s) G_IO_OUT) s in
  if has (gz_shutdown s) G_IO_OUT then Done (G_IO_STATUS_ERROR, 0, Some AlreadyShutDown, s)
  else if has (gz_state s) Z_SGS_WRITE_ERROR then Done (G_IO_STATUS_ERROR, 0, Some StoredError, s)
  else
    '(ok, err, s) ← z_stream_gzip_write_gzip_header None s;
    if negb ok then Done (G_IO_STATUS_ERROR, 0, Some (WriteFailed err), s)
    else
      '(res, err, s) ← flush_pending s;
      if negb (bool_decide (res = G_IO_STATUS_NORMAL)) then Done (res, 0, err, s)
      else
        '(res, err, rest, s) ← write_loop fuel (gz_with_encode (encode s) [] 0 s) (take (Z.to_nat (u32 (zlen buf))) buf) res;
        if bool_decide (res = G_IO_STATUS_ERROR) then Done (G_IO_STATUS_ERROR, 0, err, s)
        else
          let n := zlen buf - zlen rest in
          if n =? 0 then Done (G_IO_STATUS_AGAIN, 0, None, s)
          else
            let s := if has (gz_flags s) Z_SGZ_GZIP_HEADER
                     then gz_with_crc (crc32 (encode_crc s) (take (Z.to_nat (u32 n)) buf)) (u32 (encode_in s + n)) s else s in
            Done (G_IO_STATUS_NORMAL, n, None, s).

(** ** Shutting down and closing *)

(** Both loops of the shutdown method: writing up to next_out. *)
Fixpoint drain_loop (fuel : nat) (s : ZStreamGzip) (ret : GIOStatus) (err : option E) : outcome (GIOStatus * option E * ZStreamGzip) :=
  match fuel with
  | O => Fault OutOfFuel
  | S fuel =>
      if negb (enc_p s =? zlen (enc_out s)) && bool_decide (ret = G_IO_STATUS_NORMAL) then
        '(ret, n, err, c) ← write_pending (pending_length s) s;
        let s := gz_with_child c s in
        drain_loop fuel (if bool_decide (ret = G_IO_STATUS_NORMAL) then gz_with_encode (encode s) (enc_out s) (enc_p s + n) s else s) ret err
      else Done (ret, err, s)
  end.

Definition drain (s : ZStreamGzip) : outcome (GIOStatus * option E * ZStreamGzip) :=
  drain_loop (2 + length (enc_out s)) s G_IO_STATUS_NORMAL None.

(** The end of the compressed data, and the trailer.  [res]: the result of the other direction. *)
Definition finish_write (res : GIOStatus) (s : ZStreamGzip) : outcome (GIOStatus * GIOStatus * option E * ZStreamGzip) :=
  let '(rc, _, out, d) := deflate (encode s) [] (buffer_length s) Z_FINISH in
  let s := gz_with_encode d out 0 s in
  if negb (bool_decide (rc = Z_STREAM_END)) then Done (res, G_IO_STATUS_NORMAL, None, s)
  else
    '(ret, err, s) ← drain s;
    '(res, err, s) ← (if has (gz_flags s) Z_SGZ_WRITE_EMPTY_HEADER then
                        '(ok, err, s) ← z_stream_gzip_write_gzip_header err s;
                        Done (if ok : bool then res else G_IO_STATUS_ERROR, err, s)
                      else Done (res, err, s));
    if bool_decide (res = G_IO_STATUS_NORMAL) then
      '(ok, err, s) ← z_stream_gzip_write_gzip_trailer err s;
      Done (if ok : bool then res else G_IO_STATUS_ERROR, ret, err, s)
    else Done (res, ret, err, s).

Definition shutdown_write (nonblock : bool) (res : GIOStatus) (s : ZStreamGzip) : outcome (GIOStatus * option E * ZStreamGzip) :=
  let s := gz_with_child (child_set_nonblock (gz_child s) false) s in
  '(ret, err, s) ← drain s;
  '(res, ret, err, s) ← (if bool_decide (ret = G_IO_STATUS_NORMAL)
                         then finish_write res s else Done (res, ret, err, s));
  let s := gz_with_child (child_set_nonblock (gz_child s) nonblock) s in
  let res := if bool_decide (ret = G_IO_STATUS_NORMAL) && bool_decide (deflateEnd (encode s) = Z_OK) then G_IO_STATUS_NORMAL else res in
  Done (res, err, gz_with_shutdown (set_flag (gz_shutdown s) G_IO_OUT) s).

(** [nonblock]: what z_stream_get_nonblock says of the child.  The error is that of the writes, or
    of the child's shutdown. *)
Definition z_stream_gzip_shutdown_method (nonblock : bool) (s : ZStreamGzip) (method : Z)
    : outcome (GIOStatus * option E * ZStreamGzip) :=
  let '(res, s) :=
    if ((method =? SHUT_RD) || (method =? SHUT_RDWR)) && negb (has (gz_shutdown s) G_IO_IN)
    then (if bool_decide (inflateEnd (decode s) = Z_OK) then G_IO_STATUS_NORMAL else G_IO_STATUS_ERROR,
          gz_with_shutdown (set_flag (gz_shutdown s) G_IO_IN) s)
    else (G_IO_STATUS_ERROR, s) in
  '(res, err, s) ← (if ((method =? SHUT_WR) || (method =? SHUT_RDWR)) && negb (has (gz_shutdown s) G_IO_OUT)
                    then shutdown_write nonblock res s else Done (res, None, s));
  let '(ret, cerr, c) := child_shutdown (gz_child s) method in
  let s := gz_with_child c s in
  Done (if bool_decide (ret = G_IO_STATUS_NORMAL) then res else ret, match err with Some e => Some e | None => cerr end, s).

(** [super]: what closing the super class gives. *)
Definition z_stream_gzip_close_method (nonblock : bool) (super : GIOStatus) (s : ZStreamGzip) : outcome (GIOStatus * ZStreamGzip) :=
  '(st, _, s) ← z_stream_gzip_shutdown_method nonblock s SHUT_RDWR;
  Done (if bool_decide (st = G_IO_STATUS_NORMAL) then super else st, s).

(** What is passed to z_stream_ctrl_method. *)
Definition z_stream_gzip_ctrl_method (function : Z) : Z :=
  let msg := ZST_CTRL_MSG function in
  if (msg =? ZST_CTRL_SET_CALLBACK_READ) || (msg =? ZST_CTRL_SET_CALLBACK_WRITE) || (msg =? ZST_CTRL_SET_CALLBACK_PRI)
  then function else Z.lor ZST_CTRL_MSG_FORWARD function.

(** ** The events *)

Definition child_readable (s : ZStreamGzip) : bool := has (child_cond s) G_IO_IN.
Definition child_writeable (s : ZStreamGzip) : bool := has (child_cond s) G_IO_OUT.

(** Whether the stream is ready, the timeout, and whether the child is to wait for reading and for
    writing. *)
Definition z_stream_gzip_watch_prepare (w : watch) (s : ZStreamGzip) : bool * Z * bool * bool :=
  let '(ret, child_enable) :=
    if want_read w then
      if (zlen (decode_in s) =? 0) && negb (child_readable s) then (false, true) else (true, false)
    else (false, false) in
  (ret || (want_write w && (avail_out s =? buffer_length s)), -1, child_enable, negb (avail_out s =? buffer_length s)).

Definition read_ready (s : ZStreamGzip) : bool := negb (zlen (decode_in s) =? 0) || child_readable s.
Definition write_ready (s : ZStreamGzip) : bool := (avail_out s =? buffer_length s) || child_writeable s.

Definition z_stream_gzip_watch_check (w : watch) (s : ZStreamGzip) : bool :=
  (want_read w && read_ready s) || (want_write w && write_ready s).

(** The callbacks of the application may use the stream; they are not tested for NULL. *)
Definition z_stream_gzip_watch_dispatch (w : watch) (read_cb write_cb : option (ZStreamGzip → bool * ZStreamGzip)) (s : ZStreamGzip)
    : outcome (bool * ZStreamGzip) :=
  let invoke (cb : option (ZStreamGzip → bool * ZStreamGzip)) s :=
    match cb with Some cb => Done (cb s) | None => Fault OutOfBounds end in
  '(rc, s) ← (if want_read w && read_ready s then invoke read_cb s else Done (true, s));
  if want_write w && rc && write_ready s then invoke write_cb s else Done (rc, s).

(** ** The life of a stream, and its header *)

(** The new child: a stream with a header needs one that blocks ([nonblock]: what it says).  The
    references and callbacks are in [class_set_child] (Stream.v). *)
Definition z_stream_gzip_set_child (c : C) (t : Z) (nonblock : bool) (s : ZStreamGzip) : outcome ZStreamGzip :=
  _ ← require (has (gz_flags s) Z_SGZ_GZIP_HEADER = false ∨ nonblock = false) AssertFailed;
  Done (mkGz c t (gz_flags s) (encode s) (enc_out s) (enc_p s) (decode s) (decode_in s) (buffer_length s)
             (gz_state s) (gz_shutdown s) (child_cond s) (encode_crc s) (encode_in s) (header s)).

(** [buflen] is a guint, so that it fits into a uInt too. *)
Definition z_stream_gzip_new (child : C) (t : Z) (nonblock : bool) (flags level buflen : Z) : outcome ZStreamGzip :=
  let raw := has flags Z_SGZ_GZIP_HEADER in
  z_stream_gzip_set_child child t nonblock
    (mkGz child t flags (deflateInit raw level) [] 0 (inflateInit raw) [] buflen 0 0 0 0 0 (mkHeader 0 0 None None None)).

(** Of the top-most gzip stream: the timestamp, the name, the comment, and the extra field with its length. *)
Definition z_stream_gzip_get_header_fields (s : ZStreamGzip) : Z * option (list Z) * option (list Z) * Z * option (list Z) :=
  (gzip_timestamp (header s), gzip_origname (header s), gzip_comment (header s), gzip_extra_len (header s), gzip_extra (header s)).

(** [now]: the time; the length is a guint.  The extra field is copied to a NULL pointer, as the old one was freed. *)
Definition z_stream_gzip_set_header_fields (now timestamp : Z) (origname comment : option (list Z)) (extra_len : Z) (s : ZStreamGzip)
    : outcome ZStreamGzip :=
  let s := z_stream_gzip_reset_gzip_header s in
  if 0 <? extra_len then Fault OutOfBounds
  else Done (gz_with_header (mkHeader (if timestamp =? 0 then now else timestamp) 0 None origname comment) s).

Definition z_stream_gzip_fetch_header (s : ZStreamGzip) : outcome (bool * ZStreamGzip) := z_stream_gzip_read_gzip_header s.

End gzip.
Arguments ZStreamGzip C D I : clear implicits.

(** * The header

    What is written by one stream is what another one reads. *)

(** A child that answers every read with data or the end, and takes something of every write. *)
Definition reliable_reads (C : Type) `{ZStreamOps C} : Prop :=
  ∀ (c c' : C) t n st l, child_read c t n = (st, l, c') → st = G_IO_STATUS_NORMAL ∨ st = G_IO_STATUS_EOF.
Definition reliable_writes (C E : Type) `{ZStreamWriteOps C E} : Prop :=
  ∀ (c c' : C) l st n (err : option E), child_write c l = (st, n, err, c') → st = G_IO_STATUS_NORMAL ∧ (l ≠ [] → 0 < n).

Section chunks.
Context {C E : Type} `{ZStreamLaws C} `{ZStreamWriteLaws C E}.

Lemma child_read_loop_ok (Hrel : reliable_reads C) fuel : ∀ (c : C) t acc l rest,
  to_come c = l ++ rest → (length l < fuel)%nat → zlen l < 2 ^ 64 →
  returns (child_read_loop fuel c t (zlen l) acc G_IO_STATUS_NORMAL) (λ '(st, l', c'),
    st = G_IO_STATUS_NORMAL ∧ l' = acc ++ l ∧ to_come c' = rest).
Proof.
  induction fuel as [|fuel IH]; intros c t acc l rest Hc Hf Hl; [lia|]. cbn [child_read_loop]. rewrite bool_decide_true by done. cbn [andb].
  destruct (Z.ltb_spec 0 (zlen l)) as [Hpos|Hz].
  - destruct (child_read c t (zlen l)) as [[st l1] c1] eqn:E1. destruct (Hrel _ _ _ _ _ _ E1) as [-> | ->].
    + rewrite bool_decide_true by done. destruct (read_normal c t (zlen l) l1 c1 Hpos E1) as (Hl1 & Hle & Hto).
      assert (length l1 ≤ length l)%nat by lia. rewrite Hto in Hc.
      assert (Hsplit : l = l1 ++ drop (length l1) l).
      { assert (Ht : take (length l1) (l1 ++ to_come c1) = take (length l1) (l ++ rest)) by by rewrite Hc.
        rewrite take_app_length, take_app_le in Ht by done. rewrite Ht at 1. by rewrite take_drop. }
      set (l2 := drop (length l1) l) in *. rewrite Hsplit in Hc. rewrite <- app_assoc in Hc. apply app_inv_head in Hc.
      assert (Hlen : length l = (length l1 + length l2)%nat) by (rewrite Hsplit; apply length_app).
      assert (0 < length l1)%nat by (destruct l1; [done|cbn; lia]).
      replace (u64 (zlen l - zlen l1)) with (zlen l2) by (rewrite u64_small; lia).
      eapply returns_mono; [apply (IH c1 t (acc ++ l1) l2 rest Hc); lia|]. intros [[st l'] c'] (-> & -> & Hr).
      split; [done|]. split; [by rewrite <- app_assoc, <- Hsplit|done].
    + apply read_eof in E1 as [E1 _]. rewrite E1 in Hc. destruct l; [cbn in Hpos; lia|done].
  - destruct l; [|cbn in Hz; lia]. apply returns_ret. by rewrite app_nil_r.
Qed.

(** Reading as much as is there, in however many pieces it comes. *)
Lemma child_read_chunk_ok (Hrel : reliable_reads C) (c : C) t n l rest :
  to_come c = l ++ rest → zlen l = n → n < 2 ^ 64 →
  returns (child_read_chunk c t n) (λ '(st, l', c'), st = G_IO_STATUS_NORMAL ∧ l' = l ∧ to_come c' = rest).
Proof.
  intros Hc <- Hl. unfold child_read_chunk. apply returns_bind. eapply returns_mono; [eapply child_read_loop_ok; [done..|lia|done]|].
  intros [[st l'] c'] (-> & -> & Hr). apply returns_bind, returns_require; [done|]. by apply returns_ret.
Qed.

Lemma child_write_loop_ok (Hrel : reliable_writes C E) fuel : ∀ (c : C) buf n err,
  0 ≤ n ≤ zlen buf → (Z.to_nat (zlen buf - n) < fuel)%nat → zlen buf < 2 ^ 64 →
  returns (child_write_loop (E := E) fuel c buf (zlen buf - n) n err G_IO_STATUS_NORMAL) (λ '(st, n', _, c'),
    st = G_IO_STATUS_NORMAL ∧ n' = zlen buf ∧ written (E := E) c' = written (E := E) c ++ drop (Z.to_nat n) buf).
Proof.
  induction fuel as [|fuel IH]; intros c buf n err Hn Hf Hb; [lia|]. cbn [child_write_loop]. rewrite bool_decide_true by done. cbn [andb].
  destruct (Z.ltb_spec 0 (zlen buf - n)) as [Hpos|Hz].
  - rewrite load_range_ok, Done_bind by lia. set (l := take _ _).
    assert (Hl : l = drop (Z.to_nat n) buf) by (unfold l; rewrite take_ge; [done|rewrite length_drop; lia]).
    assert (Hll : zlen l = zlen buf - n) by (rewrite Hl, length_drop; lia).
    destruct (child_write c l) as [[[st k] err1] c1] eqn:E1.
    destruct (Hrel c c1 l st k err1 E1) as [-> Hk]. specialize (Hk ltac:(intros Hnil; rewrite Hnil in Hll; cbn in Hll; lia)).
    rewrite bool_decide_true by done. destruct (write_normal c l k err1 c1 E1) as [Hk2 Hw].
    rewrite (u64_small (zlen buf - n - k)), (u64_small (n + k)) by lia. replace (zlen buf - n - k) with (zlen buf - (n + k)) by lia.
    eapply returns_mono; [apply IH; lia|]. intros [[[st n'] err2] c'] (-> & -> & Hr). split; [done|]. split; [done|].
    rewrite Hr, Hw, Hl, <- app_assoc. f_equal. replace (Z.to_nat (n + k)) with (Z.to_nat n + Z.to_nat k)%nat by lia.
    rewrite <- drop_drop. by rewrite take_drop.
  - apply returns_ret. split; [done|]. split; [lia|]. rewrite drop_ge by lia. by rewrite app_nil_r.
Qed.

Lemma child_write_chunk_ok (Hrel : reliable_writes C E) (c : C) buf :
  zlen buf < 2 ^ 64 →
  returns (child_write_chunk (E := E) c buf) (λ '(st, n, _, c'),
    st = G_IO_STATUS_NORMAL ∧ n = zlen buf ∧ written (E := E) c' = written (E := E) c ++ buf).
Proof.
  intros Hb. unfold child_write_chunk. apply returns_bind. pose proof (child_write_loop_ok Hrel (2 + length buf) c buf 0 None) as Hl.
  rewrite Z.sub_0_r in Hl. eapply returns_mono; [apply Hl; lia|]. intros [[[st n] err] c'] (-> & -> & Hr).
  apply returns_bind, returns_require; [done|]. by apply returns_ret.
Qed.

Lemma write_chunks_ok (Hrel : reliable_writes C E) chunks : ∀ (c : C),
  Forall (λ l : list Z, zlen l < 2 ^ 64) chunks →
  returns (write_chunks (E := E) c chunks) (λ '(ok, err, c'),
    ok = true ∧ err = None ∧ written (E := E) c' = written (E := E) c ++ concat chunks).
Proof.
  induction chunks as [|l chunks IH]; intros c Hb; cbn [write_chunks concat].
  - apply returns_ret. by rewrite app_nil_r.
  - apply Forall_cons in Hb as [Hl Hb]. apply returns_bind. eapply returns_mono; [by apply child_write_chunk_ok|].
    intros [[[st n] err] c1] (-> & -> & Hw). rewrite bool_decide_true by done. eapply returns_mono; [by apply IH|].
    intros [[ok err2] c2] (-> & -> & Hw2). by rewrite Hw2, Hw, <- app_assoc.
Qed.
End chunks.

(** ** Strings *)

Lemma c_string_prefix (s rest : list Z) : nonul s → c_string (s ++ 0 :: rest) = s.
Proof.
  induction 1 as [|c s Hc _ IH]; [done|]. cbn. rewrite (proj2 (Z.eqb_neq c 0)) by done. by rewrite IH.
Qed.

Section strings.
Context {C : Type} `{ZStreamLaws C} `{FreshMem}.

(** One byte. *)
Lemma read_byte (Hrel : reliable_reads C) (c : C) t b rest st l c' :
  to_come c = b :: rest → child_read c t 1 = (st, l, c') → st = G_IO_STATUS_NORMAL ∧ l = [b] ∧ to_come c' = rest.
Proof.
  intros Hc E1. destruct (Hrel _ _ _ _ _ _ E1) as [-> | ->].
  - apply read_normal in E1 as (Hl & Hle & Hto); [|done]. rewrite Hc in Hto. destruct l as [|x [|y l]]; [done| |cbn in Hle; lia].
    by injection Hto as -> ->.
  - apply read_eof in E1 as [E1 _]. by rewrite Hc in E1.
Qed.

(** The byte behind [acc]. *)
Lemma store_byte (acc junk : list Z) x b : store_range (acc ++ x :: junk) (zlen acc) [b] = Done (acc ++ b :: junk).
Proof.
  rewrite store_range_ok by (rewrite ?length_app; cbn [length]; lia). rewrite Nat2Z.id, take_app_length. do 2 f_equal.
  replace (length acc + length [b])%nat with (length (acc ++ [x])) by (rewrite length_app; cbn; lia).
  change (x :: junk) with ([x] ++ junk). by rewrite app_assoc, drop_app_length.
Qed.

Lemma load_byte (acc junk : list Z) b : load (acc ++ b :: junk) (zlen acc) = Done b.
Proof.
  unfold load. rewrite decide_True by (rewrite length_app; cbn [length]; lia).
  by rewrite Nat2Z.id, list_lookup_total_middle.
Qed.

(** What is in the buffer behind [acc] does not matter. *)
Lemma string_loop_ok (Hrel : reliable_reads C) name : ∀ fuel (c : C) t acc junk rest st,
  nonul name → to_come c = name ++ 0 :: rest → zlen acc + zlen name < MAX_GZIP_HEADER_STRING - 1 →
  (length name < fuel)%nat → (length name < length junk)%nat →
  returns (string_loop fuel c t (acc ++ junk) (zlen acc) st) (λ '(st, buf, rdlen, c'), ∃ junk',
    st = G_IO_STATUS_NORMAL ∧ buf = acc ++ name ++ 0 :: junk' ∧ rdlen = zlen (acc ++ name) ∧ to_come c' = rest).
Proof.
  induction name as [|b name IH]; intros fuel c t acc junk rest st Hname Hc Hlen Hf Hj;
    (destruct fuel as [|fuel]; [cbn in Hf; lia|]); (destruct junk as [|x junk]; [cbn in Hj; lia|]); cbn [string_loop];
    rewrite (proj2 (Z.ltb_lt _ _)) by (cbn [length] in Hlen; lia); destruct (child_read c t 1) as [[st1 l] c1] eqn:E1.
  - apply (read_byte Hrel c t 0 rest) in E1 as (-> & -> & Hc1); [|done]. cbn in Hlen.
    rewrite store_byte, Done_bind, bool_decide_true, load_byte, Done_bind by done. cbn [Z.eqb negb]. apply returns_ret. exists junk. by rewrite app_nil_r.
  - apply (read_byte Hrel c t b (name ++ 0 :: rest)) in E1 as (-> & -> & Hc1); [|done]. apply Forall_cons in Hname as [Hb Hname].
    rewrite store_byte, Done_bind, bool_decide_true, load_byte, Done_bind by done. rewrite (proj2 (Z.eqb_neq b 0)) by done. cbn [negb].
    cbn [length] in *. specialize (IH fuel c1 t (acc ++ [b]) junk rest G_IO_STATUS_NORMAL Hname Hc1).
    rewrite length_app in IH. cbn [length] in IH. replace (zlen acc + Z.of_nat 1) with (Z.of_nat (length acc + 1)) by lia.
    replace (acc ++ b :: junk) with ((acc ++ [b]) ++ junk) by by rewrite <- app_assoc.
    eapply returns_mono; [apply IH; lia|]. intros [[[st' buf] rdlen] c'] (junk' & -> & -> & -> & Hc'). exists junk'.
    by rewrite <- !app_assoc.
Qed.

(** A string that fits is read up to its NUL, whatever was on the stack. *)
Lemma read_gzip_string_ok (Hrel : reliable_reads C) name (c : C) t rest :
  nonul name → zlen name < MAX_GZIP_HEADER_STRING - 1 → to_come c = name ++ 0 :: rest →
  returns (z_stream_gzip_read_gzip_string c t) (λ '(r, c'), r = Some name ∧ to_come c' = rest).
Proof.
  intros Hname Hlen Hc. unfold z_stream_gzip_read_gzip_string. unfold MAX_GZIP_HEADER_STRING in *. apply returns_bind. set (junk := fresh_bytes _ _).
  assert (Hj : length junk = Z.to_nat 4096) by (unfold junk, fresh_bytes; by rewrite length_fmap, length_seq).
  eapply returns_mono; [apply (string_loop_ok Hrel name (Z.to_nat 4096) c t [] junk rest); unfold MAX_GZIP_HEADER_STRING; cbn [length]; try done; lia|].
  intros [[[st buf] rdlen] c'] (junk' & -> & -> & -> & Hc'). cbn [app].
  rewrite load_byte, Done_bind.   cbn [Z.eqb negb]. rewrite Done_bind. rewrite bool_decide_true by done. cbn [negb].
  unfold store. rewrite decide_True by (rewrite length_app; cbn [length]; lia). rewrite Done_bind. apply returns_ret. split; [|done].
  rewrite Nat2Z.id, insert_app_r_alt, Nat.sub_diag by lia. cbn. by rewrite c_string_prefix.
Qed.
End strings.

(** ** The fields *)

Lemma land_ff x : Z.land x 0xff = x `mod` 256.
Proof. change 0xff with (Z.ones 8). by rewrite Z.land_ones. Qed.

(** The bytes of the timestamp. *)
Lemma timestamp_bytes ts : 0 ≤ ts < 2 ^ 32 →
  Z.lor (Z.lor (Z.lor (Z.shiftl (Z.land (Z.shiftr ts 24) 0xff) 24) (Z.shiftl (Z.land (Z.shiftr ts 16) 0xff) 16))
    (Z.shiftl (Z.land (Z.shiftr ts 8) 0xff) 8)) (Z.land ts 0xff) = ts.
Proof.
  intros Hts. apply Z.bits_inj'. intros n Hn. change 0xff with (Z.ones 8).
  rewrite !Z.lor_spec, !Z.shiftl_spec, !Z.land_spec by done.
  assert (Hones : ∀ m, Z.testbit (Z.ones 8) m = bool_decide (0 ≤ m < 8)).
  { intros m. case_bool_decide as Hm; [by apply Z.ones_spec_low|]. destruct (Z.ltb_spec m 0); [by apply Z.testbit_neg_r|].
    apply Z.ones_spec_high. lia. }
  assert (Hhigh : 32 ≤ n → Z.testbit ts n = false).
  { intros Hn2. destruct (decide (ts = 0)) as [->|]; [apply Z.bits_0|]. apply Z.bits_above_log2; [lia|].
    apply Z.log2_lt_pow2; [lia|]. apply Z.lt_le_trans with (2 ^ 32); [lia|]. apply Z.pow_le_mono_r; lia. }
  rewrite !Hones.
  assert (Hs : ∀ k, 0 ≤ k → k ≤ n → Z.testbit (Z.shiftr ts k) (n - k) = Z.testbit ts n).
  { intros k Hk Hkn. rewrite Z.shiftr_spec by lia. f_equal. lia. }
  repeat case_bool_decide; try lia; rewrite ?andb_true_r, ?andb_false_r, ?orb_false_r; cbn [orb]; rewrite ?Hs by lia; try done.
  symmetry. apply Hhigh. lia.
Qed.

Lemma length_bytes n : 0 ≤ n < 2 ^ 16 → Z.land n 0xff + Z.shiftl (Z.land (Z.shiftr n 8) 0xff) 8 = n.
Proof.
  intros Hn. rewrite !land_ff, Z.shiftl_mul_pow2, Z.shiftr_div_pow2 by lia. change (2 ^ 8) with 256.
  rewrite (Z.mod_small (n `div` 256)) by (split; [apply Z.div_pos; lia|apply Z.div_lt_upper_bound; lia]).
  pose proof (Z.div_mod n 256). lia.
Qed.

Definition string_ok (s : option (list Z)) : Prop :=
  match s with Some s => nonul s ∧ zlen s < MAX_GZIP_HEADER_STRING - 1 | None => True end.

(** The headers that the format can hold. *)
Record header_ok (h : gzip_header) : Prop := {
  timestamp_ok : 0 ≤ gzip_timestamp h < 2 ^ 32;
  extra_ok : gzip_extra_len h = (if gzip_extra h is Some e then zlen e else 0) ∧ (gzip_extra h ≠ Some []) ∧ gzip_extra_len h < 2 ^ 16;
  origname_ok : string_ok (gzip_origname h);
  comment_ok : string_ok (gzip_comment h)
}.

Definition header_bytes (h : gzip_header) : list Z := concat (header_chunks h).

Section header.
Context {C E D I : Type} `{FreshMem} `{ZStreamLaws C} `{ZStreamWriteLaws C E} `{Zlib D I}.
Implicit Types s : ZStreamGzip C D I.

Lemma write_header_ok (Hrel : reliable_writes C E) s :
  has (gz_flags s) Z_SGZ_GZIP_HEADER = true → has (gz_state s) Z_SGS_HEADER_WRITTEN = false → header_ok (header s) →
  returns (z_stream_gzip_write_gzip_header (E := E) None s) (λ '(ok, err, s'), ∃ c',
    ok = true ∧ err = None ∧ s' = gz_with_child c' (gz_set_state Z_SGS_HEADER_WRITTEN s) ∧
    written (E := E) c' = written (E := E) (gz_child s) ++ header_bytes (header s)).
Proof.
  intros Hf Hst Hh. unfold z_stream_gzip_write_gzip_header. rewrite Hf, Hst. cbn [andb negb].
  apply returns_bind. eapply returns_mono; [apply (write_chunks_ok Hrel)|].
  - cbn [header gz_set_state gz_with_state]. destruct (header s) as [ts el ex on cm], Hh as [_ [He [_ Hl]] Ho Hc]; cbn in *.
    unfold string_ok, MAX_GZIP_HEADER_STRING in *. unfold header_chunks. cbn [gzip_extra gzip_origname gzip_comment gzip_extra_len].
    constructor; [cbn; lia|]. rewrite !Forall_app. split_and!; [destruct ex|destruct on|destruct cm]; repeat constructor; cbn; rewrite ?length_app, ?length_take; cbn [length]; lia.
  - intros [[ok err] c'] (-> & -> & Hw). apply returns_ret. exists c'. split; [done|]. split; [done|]. split; [done|]. exact Hw.
Qed.

Lemma fetch_ok (Hrel : reliable_reads C) s n l rest :
  to_come (gz_child s) = l ++ rest → zlen l = n → n < 2 ^ 64 →
  returns (fetch n s) (λ '(r, l', s'), ∃ c', r = Some l ∧ l' = l ∧ s' = gz_with_child c' s ∧ to_come c' = rest).
Proof.
  intros Hc Hn Hl. unfold fetch. apply returns_bind. eapply returns_mono; [by apply (child_read_chunk_ok Hrel _ _ n l rest)|].
  intros [[st l'] c'] (-> & -> & Hr). rewrite bool_decide_true by done. rewrite (proj2 (Z.eqb_eq _ _)) by done. apply returns_ret.
  by exists c'.
Qed.

(** Each field is read when it is there. *)
Definition with_extra (el : Z) (e : option (list Z)) (h : gzip_header) : gzip_header :=
  mkHeader (gzip_timestamp h) el e (gzip_origname h) (gzip_comment h).

Lemma read_extra_ok (Hrel : reliable_reads C) s e rest :
  e ≠ [] → zlen e < 2 ^ 16 →
  to_come (gz_child s) = [Z.land (zlen e) 0xff; Z.land (Z.shiftr (zlen e) 8) 0xff] ++ e ++ rest →
  returns (read_extra s) (λ '(ok, s'), ∃ c', ok = true ∧ to_come c' = rest ∧
    s' = gz_with_header (with_extra (zlen e) (Some e) (header s)) (gz_with_child c' s)).
Proof.
  intros He Hl Hc. unfold read_extra. apply returns_bind. eapply returns_mono; [by eapply (fetch_ok Hrel)|].
  intros [[r l'] s'] (c1 & -> & -> & -> & Hc1). change (?x !!! 0%nat) with (Z.land (zlen e) 0xff). change (_ !!! 1%nat) with (Z.land (Z.shiftr (zlen e) 8) 0xff).
  rewrite length_bytes by lia. apply returns_bind. eapply returns_mono; [apply (fetch_ok Hrel _ _ e rest); [done..|lia]|].
  intros [[r l'] s'] (c2 & -> & -> & -> & Hc2). rewrite bool_decide_true by by eexists.
  rewrite (proj2 (Z.eqb_neq _ _)) by (destruct e; [done|cbn; lia]). apply returns_ret. exists c2. split; [done|]. split; [done|].
  rewrite Nat2Z.id, Nat.sub_diag. cbn [replicate]. by rewrite app_nil_r.
Qed.

Lemma read_origname_ok (Hrel : reliable_reads C) s name rest :
  nonul name → zlen name < MAX_GZIP_HEADER_STRING - 1 → to_come (gz_child s) = (name ++ [0]) ++ rest →
  returns (read_origname s) (λ '(ok, s'), ∃ c', ok = true ∧ to_come c' = rest ∧
    s' = gz_with_header (mkHeader (gzip_timestamp (header s)) (gzip_extra_len (header s)) (gzip_extra (header s)) (Some name) (gzip_comment (header s)))
           (gz_with_child c' s)).
Proof.
  intros Hn Hl Hc. rewrite <- app_assoc in Hc. unfold read_origname. apply returns_bind.
  eapply returns_mono; [by apply (read_gzip_string_ok Hrel name _ _ rest)|]. intros [r c'] (-> & Hc'). apply returns_ret. by exists c'.
Qed.

Lemma read_comment_ok (Hrel : reliable_reads C) s text rest :
  nonul text → zlen text < MAX_GZIP_HEADER_STRING - 1 → to_come (gz_child s) = (text ++ [0]) ++ rest →
  returns (read_comment s) (λ '(ok, s'), ∃ c', ok = true ∧ to_come c' = rest ∧
    s' = gz_with_header (mkHeader (gzip_timestamp (header s)) (gzip_extra_len (header s)) (gzip_extra (header s)) (gzip_origname (header s)) (Some text))
           (gz_with_child c' s)).
Proof.
  intros Hn Hl Hc. rewrite <- app_assoc in Hc. unfold read_comment. apply returns_bind.
  eapply returns_mono; [by apply (read_gzip_string_ok Hrel text _ _ rest)|]. intros [r c'] (-> & Hc'). apply returns_ret. by exists c'.
Qed.

(** An optional field: what was written of it is there when its flag is set, and its step reads it. *)
Lemma field_ok {A} (x : option A) (enc : A → list Z) (set : A → gzip_header → gzip_header) present step next s rest
    (Q : bool * ZStreamGzip C D I → Prop) :
  present = bool_decide (is_Some x) →
  to_come (gz_child s) = match x with Some a => enc a | None => [] end ++ rest →
  (∀ a, x = Some a → to_come (gz_child s) = enc a ++ rest →
    returns (step s) (λ '(ok, s'), ∃ c', ok = true ∧ to_come c' = rest ∧ s' = gz_with_header (set a (header s)) (gz_with_child c' s))) →
  (∀ c', to_come c' = rest →
    returns (next (gz_with_header (match x with Some a => set a (header s) | None => header s end) (gz_with_child c' s))) Q) →
  returns (optional present step next s) Q.
Proof.
  intros -> Hc Hstep Hnext. unfold optional. destruct x as [a|].
  - rewrite bool_decide_true by by eexists. apply returns_bind. eapply returns_mono; [by apply Hstep|].
    intros [ok s'] (c' & -> & Hc' & ->). by apply Hnext.
  - rewrite bool_decide_false by by intros [? ?]. specialize (Hnext (gz_child s) Hc). by destruct s.
Qed.

Lemma header_flags_spec h :
  let flags := header_flags h in
  GZIP_IS_GZIP_MAGIC [GZIP_MAGIC_1; GZIP_MAGIC_2; Z_DEFLATED; flags] = true ∧
  has flags Z_GZH_EXTRA_FIELD = bool_decide (is_Some (gzip_extra h)) ∧ has flags Z_GZH_ORIG_NAME = bool_decide (is_Some (gzip_origname h)) ∧
  has flags Z_GZH_COMMENT = bool_decide (is_Some (gzip_comment h)) ∧ has flags Z_GZH_HEAD_CRC = false.
Proof. destruct h as [ts el ex on cm]. by destruct ex, on, cm. Qed.

(** What the fields are made of. *)
Lemma header_bytes_eq h :
  header_bytes h = [GZIP_MAGIC_1; GZIP_MAGIC_2; Z_DEFLATED; header_flags h] ++
    [Z.land (gzip_timestamp h) 0xff; Z.land (Z.shiftr (gzip_timestamp h) 8) 0xff; Z.land (Z.shiftr (gzip_timestamp h) 16) 0xff;
     Z.land (Z.shiftr (gzip_timestamp h) 24) 0xff; 0; Z_GZ_OS_CODE] ++
    match gzip_extra h with
    | Some e => [Z.land (gzip_extra_len h) 0xff; Z.land (Z.shiftr (gzip_extra_len h) 8) 0xff] ++ take (Z.to_nat (gzip_extra_len h)) e
    | None => [] end ++
    match gzip_origname h with Some name => name ++ [0] | None => [] end ++
    match gzip_comment h with Some text => text ++ [0] | None => [] end.
Proof.
  unfold header_bytes, header_chunks. rewrite !concat_app. cbn [concat]. rewrite app_nil_r.
  destruct (gzip_extra h), (gzip_origname h), (gzip_comment h); cbn [concat app]; rewrite ?app_nil_r; done.
Qed.

(** The header is read back, and the reading stops behind it. *)
Lemma read_header_ok (Hrel : reliable_reads C) s h rest :
  has (gz_flags s) Z_SGZ_GZIP_HEADER = true → has (gz_state s) Z_SGS_HEADER_READ = false → header_ok h →
  to_come (gz_child s) = header_bytes h ++ rest →
  returns (z_stream_gzip_read_gzip_header s) (λ '(ok, s'), ∃ c', ok = true ∧ to_come c' = rest ∧
    s' = gz_with_header h (gz_with_child c' (gz_set_state Z_SGS_HEADER_READ s))).
Proof.
  intros Hf Hst [Hts (Hel & Hnil & Hel2) Hon Hcm] Hc. unfold z_stream_gzip_read_gzip_header. rewrite Hf, Hst. cbn [andb negb].
  destruct (header_flags_spec h) as (Hmagic & Hf1 & Hf2 & Hf3 & Hf4). rewrite header_bytes_eq, <- !app_assoc in Hc.
  apply returns_bind. eapply returns_mono; [by eapply (fetch_ok Hrel)|]. intros [[r l'] s'] (c1 & -> & -> & -> & Hc1).
  rewrite Hmagic. cbn [negb]. apply returns_bind. eapply returns_mono; [by eapply (fetch_ok Hrel)|]. intros [[r l'] s'] (c2 & -> & -> & -> & Hc2).
  cbn [lookup_total list_lookup_total]. rewrite timestamp_bytes, Hf1, Hf2, Hf3, Hf4 by done.
  replace (match gzip_extra h with Some e => _ | None => [] end) with
    (match gzip_extra h with Some e => [Z.land (zlen e) 0xff; Z.land (Z.shiftr (zlen e) 8) 0xff] ++ e | None => [] end) in Hc2
    by (destruct (gzip_extra h); [rewrite Hel, take_ge by lia|]; done).
  eapply (field_ok (gzip_extra h) (λ e, [Z.land (zlen e) 0xff; Z.land (Z.shiftr (zlen e) 8) 0xff] ++ e) (λ e, with_extra (zlen e) (Some e)));
    [done|exact Hc2|intros e He Hce|intros c3 Hc3].
  { rewrite He in *. rewrite <- app_assoc in Hce. apply (read_extra_ok Hrel); [by intros ->|lia|done]. }
  eapply (field_ok (gzip_origname h) (λ name, name ++ [0])
    (λ name h, mkHeader (gzip_timestamp h) (gzip_extra_len h) (gzip_extra h) (Some name) (gzip_comment h))); [done|exact Hc3|intros name He Hce|intros c4 Hc4].
  { rewrite He in Hon. destruct Hon as [Hn Hl]. by apply (read_origname_ok Hrel). }
  eapply (field_ok (gzip_comment h) (λ text, text ++ [0])
    (λ text h, mkHeader (gzip_timestamp h) (gzip_extra_len h) (gzip_extra h) (gzip_origname h) (Some text))); [done|exact Hc4|intros text He Hce|intros c5 Hc5].
  { rewrite He in Hcm. destruct Hcm as [Hn Hl]. by apply (read_comment_ok Hrel). }
  exists c5. split; [done|]. split; [exact Hc5|]. destruct h as [ts el ex on cm]. cbn in Hel. subst el. by destruct ex, on, cm.
Qed.
End header.
