(* ===== verification/StreamGzipSpec.v ===== *)
(** * What gzip streams promise

    Reading delivers exactly what was compressed, and ends; what is written inflates to the bytes
    that were accepted, with the header in front and the trailer behind.  At the end, runs in
    which the code does something else. *)

From S2P Require Import Prelude CLib StreamApi Zlib StreamGzip.
Open Scope Z_scope.

(** ** What is asked of the child

    Besides the laws of StreamApi.v: a read that delivers nothing reports no bytes; and a write takes
    all of its bytes or none.  The second one is more than streams promise.  Without it the code sends
    bytes again ([ToyPipe.partial_writes_repeat], [ToyPipe.partial_writes_loop]). *)
Definition no_phantom_bytes (C : Type) `{ZStreamOps C} : Prop :=
  ∀ (c c' : C) t n st l, child_read c t n = (st, l, c') → st ≠ G_IO_STATUS_NORMAL → l = [].
Definition takes_all_or_nothing (C E : Type) `{ZStreamWriteOps C E} : Prop :=
  ∀ (c c' : C) l n (err : option E), child_write c l = (G_IO_STATUS_NORMAL, n, err, c') → n = zlen l.

(** * Reading *)

Section reading.
Context {C D I : Type} `{FreshMem} `{ZStreamLaws C} `{ZlibLaws D I}.
(** The errors of the child are not known to the reader. *)
Context {E : Type}.
Implicit Types s : ZStreamGzip C D I.

Hypothesis nothing_read : no_phantom_bytes C.

(** The header was read, or there is none. *)
Definition header_done s : Prop := has (gz_flags s) Z_SGZ_GZIP_HEADER && negb (has (gz_state s) Z_SGS_HEADER_READ) = false.

(** The stream is inside of the compressed data: [z] is to be read of it, [p] is to be delivered,
    and [t] follows. *)
Record inside s (z p t : list Z) : Prop := {
  in_shut : has (gz_shutdown s) G_IO_IN = false;
  in_state : has (gz_state s) Z_SGS_COMPRESS_FINISHED = false;
  in_ok : has (gz_state s) Z_SGS_READ_ERROR = false;
  in_header : header_done s;
  in_eof : has (gz_state s) Z_SGS_EOF_RECEIVED = true → to_come (gz_child s) = [];
  in_bytes : decode_in s ++ to_come (gz_child s) = z ++ t;
  in_inflates : inflates (decode s) z p;
  in_buffer : 0 < buffer_length s
}.

Definition finished s : Prop := has (gz_shutdown s) G_IO_IN = false ∧ has (gz_state s) Z_SGS_COMPRESS_FINISHED = true.
Definition broken s : Prop :=
  has (gz_shutdown s) G_IO_IN = false ∧ has (gz_state s) Z_SGS_COMPRESS_FINISHED = false ∧ has (gz_state s) Z_SGS_READ_ERROR = true.

(** In front of the compressed data there may be the header; then the child has to block. *)
Definition at_header s (h : gzip_header) (z p t : list Z) : Prop :=
  reliable_reads C ∧ header_ok h ∧ has (gz_flags s) Z_SGZ_GZIP_HEADER = true ∧ has (gz_state s) Z_SGS_HEADER_READ = false ∧
  decode_in s = [] ∧ to_come (gz_child s) = header_bytes h ++ z ++ t ∧
  has (gz_shutdown s) G_IO_IN = false ∧ has (gz_state s) Z_SGS_COMPRESS_FINISHED = false ∧ has (gz_state s) Z_SGS_READ_ERROR = false ∧
  has (gz_state s) Z_SGS_EOF_RECEIVED = false ∧ inflates (decode s) z p ∧ 0 < buffer_length s.

(** The state of a reading: what is still to be delivered, and a bound on the reads it takes. *)
Inductive reading s (p : list Z) : nat → Prop :=
| reading_inside z t n : inside s z p t → (length z + length p < n)%nat → reading s p n
| reading_header h z t n : at_header s h z p t → (length z + length p < n)%nat → reading s p n
| reading_finished n : finished s → p = [] → reading s p n
| reading_broken n : broken s → ¬ reliable_reads C → reading s p n.

(** The bits of the state are apart. *)
Lemma inside_cond s z p t cond : inside s z p t → inside (gz_with_cond cond s) z p t.
Proof. intros []. by split. Qed.

(** The call of inflate inside of the data; there is input, or there will be no more. *)
Lemma inflate_step_inside s z p t n :
  inside s z p t → 0 < n < 2 ^ 32 → decode_in s ≠ [] ∨ to_come (gz_child s) = [] →
  let '(st, l, err, s') := inflate_step (E := E) n s in
  st = G_IO_STATUS_NORMAL ∧ zlen l ≤ n ∧ ∃ p', p = l ++ p' ∧
  ((finished s' ∧ p' = []) ∨ ∃ z', inside s' z' p' t ∧ (length z' + length p' < length z + length p)%nat).
Proof.
  intros [] Hn Hin. unfold inflate_step. rewrite (u32_small n), Z.sub_diag by lia.
  destruct (inflate (decode s) (decode_in s) n) as [[[rc k] out] i] eqn:E1.
  change (fresh_bytes (length out) (Z.to_nat 0)) with (@nil Z). rewrite app_nil_r.
  destruct (inflate_run (decode s) z p t (decode_in s) n rc k out i in_inflates0 (proj1 Hn)) as (Hk & Ho & p' & -> & Hcase); [by eexists|done|].
  destruct Hcase as [(-> & -> & ->)|[(-> & Hprog & Hkz & Hinf)|(_ & Hnil & Hz & _)]].
  - rewrite bool_decide_false by naive_solver. rewrite bool_decide_true by done. split; [done|]. split; [done|]. exists []. split; [done|].
    left. split; [|done]. split; [done|]. cbn. by apply has_set_same.
  - rewrite bool_decide_false by naive_solver. rewrite bool_decide_false by done. split; [done|]. split; [done|]. exists p'. split; [done|].
    right. exists (drop (Z.to_nat k) z). split.
    + split; try done. cbn. rewrite <- (drop_app_le z t), <- in_bytes0, drop_app_le by lia. done.
    + rewrite length_drop, length_app. destruct Hprog as [?|Ho2]; [lia|]. destruct out; [done|]. cbn. lia.
  - exfalso. destruct Hin as [?|Hc]; [done|]. rewrite Hnil, Hc in in_bytes0. by destruct z.
Qed.

(** A read of the child, when there is nothing in the buffer. *)
Lemma refill_inside s z p t st l c :
  inside s z p t → decode_in s = [] → child_read (gz_child s) (gz_child_timeout s) (buffer_length s) = (st, l, c) →
  let s' := gz_with_child c (gz_with_decode (decode s) l s) in
  match st with
  | G_IO_STATUS_NORMAL => l ≠ [] ∧ (has (gz_state s) Z_SGS_EOF_RECEIVED = false → inside s' z p t)
  | G_IO_STATUS_EOF => to_come c = [] ∧ inside (gz_set_state Z_SGS_EOF_RECEIVED s') z p t
  | G_IO_STATUS_AGAIN => inside s' z p t
  | G_IO_STATUS_ERROR => True
  end.
Proof.
  intros [] Hnil E1. rewrite Hnil in in_bytes0. cbn in in_bytes0. destruct st; [done| | |].
  - apply read_normal in E1 as (Hl & _ & Hto); [|done]. split; [done|]. intros Hno. split; try done; cbn; [by rewrite Hno|by rewrite <- Hto].
  - pose proof (nothing_read _ _ _ _ _ _ E1 ltac:(done)) as ->. apply read_eof in E1 as [Hc Hc']. split; [done|]. rewrite Hc in in_bytes0.
    split; try done; cbn; rewrite ?has_set_other by done; try done; [|by rewrite Hc'].
    unfold header_done in *. cbn. by rewrite has_set_other.
  - pose proof (nothing_read _ _ _ _ _ _ E1 ltac:(done)) as ->. apply read_again in E1. split; try done; cbn; by rewrite E1.
Qed.

Definition read_result (s : ZStreamGzip C D I) (p : list Z) (n : nat) (count : Z)
    (r : GIOStatus * list Z * option (gzip_error E) * ZStreamGzip C D I) : Prop :=
  let '(st, l, _, s') := r in
  (st = G_IO_STATUS_NORMAL ∧ zlen l ≤ count ∧ ∃ p' n', p = l ++ p' ∧ (n' < n)%nat ∧ reading s' p' n') ∨
  (st = G_IO_STATUS_AGAIN ∧ l = [] ∧ ¬ reliable_reads C ∧ reading s' p n) ∨
  (st = G_IO_STATUS_EOF ∧ l = [] ∧ p = [] ∧ finished s') ∨
  (st = G_IO_STATUS_ERROR ∧ l = [] ∧ ¬ reliable_reads C ∧ broken s').

Lemma inflate_step_result s s0 z p t n count :
  inside s z p t → 0 < count < 2 ^ 32 → decode_in s ≠ [] ∨ to_come (gz_child s) = [] → (length z + length p < n)%nat →
  read_result s0 p n count (inflate_step count s).
Proof.
  intros Hin Hc Hd Hn. pose proof (inflate_step_inside s z p t count Hin Hc Hd) as Hs.
  destruct (inflate_step count s) as [[[st l] err] s']. destruct Hs as (-> & Hl & p' & -> & Hcase). left. split; [done|]. split; [done|].
  destruct Hcase as [[Hf ->]|(z' & Hin' & Hlt)].
  - exists [], 0%nat. split; [done|]. split; [lia|]. by apply reading_finished.
  - exists p', (S (length z' + length p'))%nat. split; [done|]. split; [lia|]. eapply reading_inside; [done|lia].
Qed.

Lemma read_body_inside s z p t n count :
  inside s z p t → 0 < count < 2 ^ 32 → (length z + length p < n)%nat → read_result s p n count (read_body s count).
Proof.
  intros Hin Hc Hn. unfold read_body. destruct (Z.eqb_spec (zlen (decode_in s)) 0) as [Hz|Hz]; cbn [andb].
  - assert (Hnil : decode_in s = []) by (by destruct (decode_in s)). destruct (has (gz_state s) Z_SGS_EOF_RECEIVED) eqn:Eeof; cbn [negb].
    + eapply inflate_step_result; [done..| |done]. right. by apply (in_eof _ _ _ _ Hin).
    + destruct (child_read _ _ _) as [[st l] c] eqn:E1. pose proof (refill_inside _ _ _ _ _ _ _ Hin Hnil E1) as Hr. destruct st.
      * right; right; right. split; [done|]. split; [done|]. split; [intros Hrel; by destruct (Hrel _ _ _ _ _ _ E1)|].
        destruct Hin. split; [done|]. split; [|cbn; by apply has_set_same]. cbn. by rewrite has_set_other.
      * destruct Hr as [Hl Hr]. eapply inflate_step_result; [by apply Hr|done|by left|done].
      * destruct Hr as [Hl Hr]. eapply inflate_step_result; [exact Hr|done|by right|done].
      * right; left. split; [done|]. split; [done|]. split; [intros Hrel; by destruct (Hrel _ _ _ _ _ _ E1)|]. by eapply reading_inside.
  - eapply inflate_step_result; [done..| |done]. left. by destruct (decode_in s).
Qed.

(** A read, in each of the states. *)
Lemma read_step s p n count :
  reading s p n → 0 < count < 2 ^ 32 → returns (z_stream_gzip_read_method (E := E) s count) (read_result s p n count).
Proof.
  intros Hr Hc. unfold z_stream_gzip_read_method. destruct Hr as [z t n Hin Hn|h z t n Hat Hn|n [Hs Hf] ->|n (Hs & Hf & He) Hrel].
  - pose proof Hin as []. cbn [gz_shutdown gz_with_cond gz_state]. rewrite in_shut0, in_state0, in_ok0. unfold z_stream_gzip_read_gzip_header.
    cbn [gz_flags gz_with_cond gz_state]. rewrite in_header0, Done_bind. cbn [negb]. apply returns_ret.
    pose proof (read_body_inside _ _ _ _ n count (inside_cond s z p t (clear_flag (child_cond s) G_IO_IN) Hin) Hc Hn) as Hb. exact Hb.
  - destruct Hat as (Hrel & Hh & Hfl & Hst & Hd & Hto & Hs & Hfin & Her & Heof & Hinf & Hb). cbn [gz_shutdown gz_with_cond gz_state]. rewrite Hs, Hfin, Her.
    apply returns_bind. eapply returns_mono; [by apply (read_header_ok Hrel _ h (z ++ t))|]. intros [ok s'] (c' & -> & Hc' & ->). cbn [negb]. apply returns_ret.
    apply (read_body_inside _ z p t n count); [|done|done]. split; cbn; rewrite ?has_set_other by done; try done.
    + unfold header_done. cbn. rewrite has_set_same by done. by rewrite andb_false_r.
    + by rewrite Heof.
    + by rewrite Hd, Hc'.
  - cbn [gz_shutdown gz_with_cond gz_state]. rewrite Hs, Hf. apply returns_ret. right; right; left. done.
  - cbn [gz_shutdown gz_with_cond gz_state]. rewrite Hs, Hf, He. apply returns_ret. right; right; right. done.
Qed.

(** Reads one after the other: what they delivered, and their statuses. *)
Fixpoint run_reads s (counts : list Z) : outcome (list Z * list GIOStatus * ZStreamGzip C D I) :=
  match counts with
  | [] => Done ([], [], s)
  | n :: counts =>
      '(st, l, _, s) ← z_stream_gzip_read_method (E := E) s n;
      '(data, sts, s) ← run_reads s counts;
      Done ((if bool_decide (st = G_IO_STATUS_NORMAL) then l else []) ++ data, st :: sts, s)
  end.

Lemma run_reads_ok counts : ∀ s p n,
  reading s p n → Forall (λ c, 0 < c < 2 ^ 32) counts →
  returns (run_reads s counts) (λ '(data, sts, s'), ∃ more,
    p = data ++ more ∧ (G_IO_STATUS_EOF ∈ sts → more = []) ∧
    (reliable_reads C → G_IO_STATUS_ERROR ∉ sts ∧ ((n < length counts)%nat → G_IO_STATUS_EOF ∈ sts))).
Proof.
  induction counts as [|c counts IH]; intros s p n Hr Hc; cbn [run_reads].
  { apply returns_ret. exists p. split; [done|]. split; [by intros ?%not_elem_of_nil|]. intros _. split; [by apply not_elem_of_nil|cbn; lia]. }
  apply Forall_cons in Hc as [Hc0 Hc]. apply returns_bind. eapply returns_mono; [by apply read_step|]. intros [[[st l] err] s1] Hres.
  assert (Hnext : ∃ p' n', p = (if bool_decide (st = G_IO_STATUS_NORMAL) then l else []) ++ p' ∧ reading s1 p' n' ∧
    (st = G_IO_STATUS_EOF → p' = []) ∧ (reliable_reads C → st ≠ G_IO_STATUS_ERROR ∧ (st = G_IO_STATUS_EOF ∨ (n' < n)%nat))).
  { destruct Hres as [(-> & _ & p' & n' & -> & Hn & Hr')|[(-> & -> & Hno & Hr')|[(-> & -> & -> & Hf)|(-> & -> & Hno & Hb)]]].
    - exists p', n'. split; [done|]. split; [done|]. split; [done|]. intros _. split; [done|by right].
    - exists p, n. by split_and!.
    - exists [], n. split; [done|]. split; [by apply reading_finished|]. split; [done|]. intros _. split; [done|by left].
    - exists p, n. split; [done|]. split; [by apply reading_broken|]. by split. }
  destruct Hnext as (p' & n' & -> & Hr' & Heof & Hrel). apply returns_bind. eapply returns_mono; [by apply (IH s1 p' n')|].
  intros [[data sts] s2] (more & -> & Hm & Hm2). apply returns_ret. exists more. split; [by rewrite app_assoc|]. split.
  - intros [<- |?]%elem_of_cons; [|by apply Hm]. specialize (Heof eq_refl). by destruct data.
  - intros Hre. destruct (Hrel Hre) as [He Hn], (Hm2 Hre) as [He2 Hn2]. split; [by apply not_elem_of_cons|].
    cbn [length]. intros Hlen. apply elem_of_cons. destruct Hn as [->|Hn]; [by left|right]. apply Hn2. lia.
Qed.

(** A new stream over a child that has the compressed data, behind the header when it was asked for. *)
Lemma new_reading c t nonblock flags level buflen h z p trailer s :
  let raw := has flags Z_SGZ_GZIP_HEADER in
  z_stream_gzip_new c t nonblock flags level buflen = Done s → 0 < buflen →
  inflates (inflateInit raw) z p →
  (if raw then reliable_reads C ∧ header_ok h ∧ to_come c = header_bytes h ++ z ++ trailer else to_come c = z ++ trailer) →
  reading s p (S (length z + length p)).
Proof.
  intros raw Hnew Hb Hinf Hc. unfold z_stream_gzip_new, z_stream_gzip_set_child in Hnew. outcome_inv Hnew. injection Hnew as <-. fold raw.
  destruct raw eqn:Eraw.
  - destruct Hc as (Hrel & Hh & Hc). eapply (reading_header _ _ h z trailer); [|lia]. by unfold at_header.
  - eapply (reading_inside _ _ z trailer); [|lia]. split; try done. unfold header_done. cbn. unfold raw in Eraw. by rewrite Eraw.
Qed.

End reading.

(** * Writing *)

Section writing.
Context {C E D I : Type} `{FreshMem} `{ZStreamLaws C} `{ZStreamWriteLaws C E} `{ZlibLaws D I}.
Implicit Types s : ZStreamGzip C D I.

Hypothesis all_or_nothing : takes_all_or_nothing C E.

Definition is_raw s : bool := has (gz_flags s) Z_SGZ_GZIP_HEADER.
Definition header_out s : list Z :=
  if is_raw s && has (gz_state s) Z_SGS_HEADER_WRITTEN then header_bytes (header s) else [].

(** [p] was taken, and [z] made of it; the child had [w0] before. *)
Record writing s (w0 p z : list Z) : Prop := {
  wr_shut : has (gz_shutdown s) G_IO_OUT = false;
  wr_deflates : deflates (is_raw s) (encode s) p z;
  wr_p : 0 ≤ enc_p s ≤ zlen (enc_out s);
  wr_len : zlen (enc_out s) ≤ buffer_length s;
  wr_buffer : 0 < buffer_length s < 2 ^ 31;
  wr_out : written (E := E) (gz_child s) ++ drop (Z.to_nat (enc_p s)) (enc_out s) = w0 ++ header_out s ++ z;
  wr_start : is_raw s = true → has (gz_state s) Z_SGS_HEADER_WRITTEN = false → z = [] ∧ p = [] ∧ enc_out s = [];
  wr_header : is_raw s = true → header_ok (header s) ∧ reliable_writes C E
}.

(** What the trailer is made of. *)
Definition counted s (p : list Z) : Prop := is_raw s = true → encode_crc s = crc32 0 p ∧ encode_in s = u32 (zlen p).

(** Nothing of it depends on these fields. *)
Lemma writing_cond s w0 p z cond : writing s w0 p z → writing (gz_with_cond cond s) w0 p z.
Proof. intros []. by split. Qed.

Lemma writing_crc s w0 p z a n : writing s w0 p z → writing (gz_with_crc a n s) w0 p z.
Proof. intros []. by split. Qed.

Lemma header_out_state s k : has k Z_SGS_HEADER_WRITTEN = false → header_out (gz_set_state k s) = header_out s.
Proof. intros Hk. unfold header_out, is_raw. cbn. by rewrite has_set_other. Qed.

Lemma writing_state s w0 p z k : has k Z_SGS_HEADER_WRITTEN = false → writing s w0 p z → writing (gz_set_state k s) w0 p z.
Proof.
  intros Hk []. split; try done; [by rewrite header_out_state|]. intros Hr. cbn. rewrite has_set_other by done. by apply wr_start0.
Qed.

(** A write of the pending bytes, or of a part of them. *)
Lemma load_pending s w0 p z : writing s w0 p z →
  load_range (enc_out s) (enc_p s) (u64 (zlen (enc_out s) - enc_p s)) = Done (drop (Z.to_nat (enc_p s)) (enc_out s)).
Proof.
  intros []. rewrite u64_small by lia. rewrite load_range_ok by lia. rewrite take_ge; [done|]. rewrite length_drop. lia.
Qed.

Lemma pending_written s w0 p z st n (err : option E) c :
  writing s w0 p z → child_write (gz_child s) (drop (Z.to_nat (enc_p s)) (enc_out s)) = (st, n, err, c) →
  writing (gz_with_child c s) w0 p z ∨ st = G_IO_STATUS_NORMAL.
Proof.
  intros [] E1. destruct (decide (st = G_IO_STATUS_NORMAL)) as [|Hst]; [by right|left]. apply write_nothing in E1; [|done].
  split; try done. cbn. by rewrite E1.
Qed.

Lemma pending_advanced s w0 p z n (err : option E) c :
  writing s w0 p z → child_write (gz_child s) (drop (Z.to_nat (enc_p s)) (enc_out s)) = (G_IO_STATUS_NORMAL, n, err, c) →
  writing (gz_with_encode (encode s) (enc_out s) (enc_p s + n) (gz_with_child c s)) w0 p z.
Proof.
  intros [] E1. apply write_normal in E1 as [Hn Hw]. rewrite length_drop in Hn. split; try done; cbn; [lia|].
  rewrite Hw, <- app_assoc. replace (Z.to_nat (enc_p s + n)) with (Z.to_nat (enc_p s) + Z.to_nat n)%nat by lia.
  rewrite <- drop_drop, take_drop. done.
Qed.

(** Everything that is pending was written: the buffer is empty. *)
Lemma buffer_emptied s w0 p z :
  writing s w0 p z → enc_p s = zlen (enc_out s) → writing (gz_with_encode (encode s) [] 0 s) w0 p z.
Proof.
  intros [] He. split; try done; cbn; [lia| |].
  - rewrite He, Nat2Z.id, drop_all in wr_out0. exact wr_out0.
  - intros Hr Hs. destruct (wr_start0 Hr Hs) as (? & ? & _). done.
Qed.

(** The header is written once, in front of everything. *)
Definition begun s : Prop := is_raw s = true → has (gz_state s) Z_SGS_HEADER_WRITTEN = true.

Lemma write_header_step s w0 p z :
  writing s w0 p z →
  returns (z_stream_gzip_write_gzip_header (E := E) None s) (λ '(ok, err, s'), ∃ c,
    ok = true ∧ writing s' w0 p z ∧ begun s' ∧ (begun s → s' = s) ∧
    s' = gz_with_state (gz_state s') (gz_with_child c s) ∧ has (gz_state s') Z_SGS_WRITE_ERROR = has (gz_state s) Z_SGS_WRITE_ERROR).
Proof.
  intros Hw. destruct (is_raw s) eqn:Er; [destruct (has (gz_state s) Z_SGS_HEADER_WRITTEN) eqn:Es|].
  - unfold z_stream_gzip_write_gzip_header. fold (is_raw s). rewrite Er, Es. cbn [andb negb]. apply returns_ret.
    exists (gz_child s). split; [done|]. split; [done|]. split; [by intros ?|]. split; [done|]. split; [by destruct s|done].
  - destruct (wr_header _ _ _ _ Hw Er) as [Hh Hrel]. eapply returns_mono; [by apply (write_header_ok Hrel)|].
    intros [[ok err] s'] (c & -> & -> & -> & Hc). exists c. split; [done|]. split; [|split; [intros _; cbn; by apply has_set_same|split; [intros Hb; by rewrite Hb in Es|]]].
    + destruct (wr_start _ _ _ _ Hw Er Es) as (-> & -> & Ho). destruct Hw. split; try done; cbn.
      rewrite Ho in *. rewrite drop_nil, app_nil_r in *. unfold header_out in *. cbn. unfold is_raw in *. cbn. rewrite Er, Es in wr_out0. rewrite Er, has_set_same by done.
      cbn in *. rewrite app_nil_r in *. by rewrite Hc, wr_out0.
    + split; [done|]. cbn. by apply has_set_other.
  - unfold z_stream_gzip_write_gzip_header. fold (is_raw s). rewrite Er. cbn [andb]. apply returns_ret.
    exists (gz_child s). split; [done|]. split; [done|]. split; [by intros ?; congruence|]. split; [done|]. split; [by destruct s|done].
Qed.

(** Writing on: how the loop and the flush before it leave the stream.  They leave the header, the counters, and the flags alone. *)
Definition same_stream s s' : Prop :=
  gz_flags s' = gz_flags s ∧ header s' = header s ∧ encode_crc s' = encode_crc s ∧ encode_in s' = encode_in s ∧
  decode s' = decode s ∧ gz_shutdown s' = gz_shutdown s ∧ buffer_length s' = buffer_length s ∧
  has (gz_state s') Z_SGS_HEADER_WRITTEN = has (gz_state s) Z_SGS_HEADER_WRITTEN.

Lemma flush_pending_ok s w0 p z :
  writing s w0 p z →
  returns (flush_pending s) (λ '(res, err, s'), writing s' w0 p z ∧ same_stream s s' ∧
    (res = G_IO_STATUS_NORMAL → enc_p s' = zlen (enc_out s') ∧ has (gz_state s') Z_SGS_WRITE_ERROR = has (gz_state s) Z_SGS_WRITE_ERROR) ∧
    (res = G_IO_STATUS_AGAIN → has (gz_state s') Z_SGS_WRITE_ERROR = has (gz_state s) Z_SGS_WRITE_ERROR) ∧
    res ≠ G_IO_STATUS_EOF ∧
    (reliable_writes C E → res = G_IO_STATUS_NORMAL)).
Proof.
  intros Hw. unfold flush_pending. destruct (Z.ltb_spec (avail_out s) (buffer_length s)) as [Hlt|Hge].
  - unfold write_pending, pending_length. rewrite (load_pending _ _ _ _ Hw), Done_bind. apply returns_bind, returns_ret.
    destruct (child_write _ _) as [[[st n] err] c] eqn:E1. destruct (decide (st = G_IO_STATUS_NORMAL)) as [->|Hst].
    + pose proof (pending_advanced _ _ _ _ _ _ _ Hw E1) as Hw2. cbn [bool_decide decide GIOStatus_eq_dec]. rewrite bool_decide_false by done.
      rewrite bool_decide_true by done. cbn [negb]. apply returns_ret.
      split; [exact Hw2|]. split; [done|]. cbn [enc_p enc_out gz_with_encode gz_with_child].
      pose proof (all_or_nothing _ _ _ _ _ E1) as Hn. rewrite length_drop in Hn. destruct (wr_p _ _ _ _ Hw).
      rewrite (proj2 (Z.eqb_eq _ _)) by lia. cbn [negb]. split; [intros _; split; [lia|done]|]. done.
    + destruct (pending_written _ _ _ _ _ _ _ _ Hw E1) as [Hw2|]; [|done].
      case_bool_decide as Ha; [|rewrite bool_decide_false by done; cbn [negb]]; apply returns_ret.
      * split; [exact Hw2|]. split; [done|]. split; [done|]. split; [done|]. split; [done|]. intros Hrel. by destruct (Hrel _ _ _ _ _ _ E1).
      * split; [by apply writing_state|]. split; [|split; [done|split; [done|split; [done|intros Hrel; by destruct (Hrel _ _ _ _ _ _ E1)]]]].
        do 7 (split; [done|]). cbn. by apply has_set_other.
  - apply returns_ret. destruct (wr_p _ _ _ _ Hw) as [Hp1 Hp2]. unfold avail_out in Hge.
    split; [done|]. split; [done|]. split; [intros _; split; [lia|done]|]. done.
Qed.

(** One turn of the loop: deflate, and a write of what it has given out. *)
Lemma deflated s w0 p z rest f rc k out d :
  writing s w0 p z → begun s → enc_out s = [] → enc_p s = 0 → rest ≠ [] → bytes rest → f ≠ Z_FINISH →
  deflate (encode s) rest (avail_out s) f = (rc, k, out, d) →
  rc = Z_OK ∧ 0 ≤ k ≤ zlen rest ∧ (0 < k ∨ (pending d < pending (encode s))%nat) ∧
  writing (gz_with_encode d out 0 s) w0 (p ++ take (Z.to_nat k) rest) (z ++ out).
Proof.
  intros [] Hb Ho Hp Hrest Hby Hf E1. unfold avail_out in E1. rewrite Ho in E1. cbn [length] in E1.
  assert (Hav : 0 < buffer_length s - Z.of_nat 0) by lia.
  destruct (deflate_run _ _ _ _ _ _ _ _ _ _ _ wr_deflates0 Hrest Hby Hav Hf E1) as (-> & Hk & Hlen & Hdef & Hprog).
  split; [done|]. split; [done|]. split; [done|]. split; try done; cbn; [lia|lia| |].
  - rewrite Ho, Hp in wr_out0. cbn in wr_out0. rewrite app_nil_r in wr_out0. unfold header_out in *. cbn in *. rewrite wr_out0. by rewrite <- !app_assoc.
  - intros Hr Hs. specialize (Hb Hr). congruence.
Qed.

(** What the loop leaves: it has taken the first [k] bytes. *)
Definition loop_result s (w0 p rest : list Z) (r : GIOStatus * option (gzip_error E) * list Z * ZStreamGzip C D I) : Prop :=
  let '(res, err, rest', s') := r in
  ∃ k z', rest' = drop k rest ∧ (k ≤ length rest)%nat ∧ writing s' w0 (p ++ take k rest) z' ∧ same_stream s s' ∧
  res ≠ G_IO_STATUS_EOF ∧ (res ≠ G_IO_STATUS_ERROR → has (gz_state s') Z_SGS_WRITE_ERROR = has (gz_state s) Z_SGS_WRITE_ERROR) ∧
  (res = G_IO_STATUS_NORMAL → rest' = []) ∧ (reliable_writes C E → res = G_IO_STATUS_NORMAL).

Lemma loop_result_trans s s1 w0 p rest k (r : GIOStatus * option (gzip_error E) * list Z * ZStreamGzip C D I) :
  (k ≤ length rest)%nat → same_stream s s1 → has (gz_state s1) Z_SGS_WRITE_ERROR = has (gz_state s) Z_SGS_WRITE_ERROR →
  loop_result s1 w0 (p ++ take k rest) (drop k rest) r → loop_result s w0 p rest r.
Proof.
  destruct r as [[[res err] rest'] s']. intros Hk Hs He (k' & z' & -> & Hk' & Hw & Hs' & Hrest). rewrite length_drop in Hk'.
  exists (k + k')%nat, z'. split; [by rewrite drop_drop|]. split; [lia|]. split.
  { rewrite <- app_assoc in Hw. rewrite <- (take_take_drop rest k k'). exact Hw. }
  rewrite <- He. split; [|done]. unfold same_stream in *. destruct Hs as (?&?&?&?&?&?&?&?), Hs' as (?&?&?&?&?&?&?&?). split_and!; congruence.
Qed.

Lemma gzip_write_loop_ok w0 n : ∀ m s p z rest,
  (length rest ≤ n)%nat → (pending (encode s) ≤ m)%nat → writing s w0 p z → begun s → enc_out s = [] → enc_p s = 0 → bytes rest →
  settles (λ fuel, write_loop (E := E) fuel s rest G_IO_STATUS_NORMAL) (loop_result s w0 p rest).
Proof.
  induction n as [n IHn] using lt_wf_ind. intros m. induction m as [m IHm] using lt_wf_ind. intros s p z rest Hn Hm Hw Hb Ho Hp Hby.
  apply settles_S. cbn [write_loop]. rewrite bool_decide_true by done. cbn [andb].
  destruct rest as [|b rest]; [rewrite (Z.ltb_irrefl 0 : (0 <? zlen (@nil Z)) = false); apply settles_returns, returns_ret; exists 0%nat, z; rewrite app_nil_r; split_and!; try done|].
  rewrite (proj2 (Z.ltb_lt _ _)) by (cbn [length]; lia). set (l := b :: rest) in *. assert (Hnil : l ≠ []) by done.
  assert (Hav : avail_out s =? 0 = false).
  { apply Z.eqb_neq. unfold avail_out. rewrite Ho. pose proof (wr_buffer _ _ _ _ Hw). cbn [length]. lia. }
  rewrite Hav. cbn [negb]. set (f := if has (gz_flags s) Z_SGZ_SYNC_FLUSH then _ else _).
  assert (Hf : f ≠ Z_FINISH) by (unfold f; by case_match). clearbody f.
  destruct (deflate (encode s) l (avail_out s) f) as [[[rc k] out] d] eqn:E1.
  destruct (deflated _ _ _ _ _ _ _ _ _ _ Hw Hb Ho Hp Hnil Hby Hf E1) as (-> & Hk & Hprog & Hw1).
  rewrite bool_decide_true by done. cbn [negb]. rewrite Ho, Hp. cbn [app]. set (s1 := gz_with_encode d out 0 s) in *.
  assert (Hkl : (Z.to_nat k ≤ length l)%nat) by lia.
  assert (Hs1 : same_stream s s1) by done. cbn [gz_child gz_with_encode] in *. change (gz_child s1) with (gz_child s). change (enc_out s1) with out.
  destruct (child_write (gz_child s) out) as [[[st nw] err] c] eqn:E2.
  assert (Hpend : child_write (gz_child s1) (drop (Z.to_nat (enc_p s1)) (enc_out s1)) = (st, nw, err, c)) by exact E2.
  assert (Hrel : st ≠ G_IO_STATUS_NORMAL → ¬ reliable_writes C E) by (intros Hst Hrel; by destruct (Hrel _ _ _ _ _ _ E2)).
  destruct st.
  - destruct (pending_written _ _ _ _ _ _ _ _ Hw1 Hpend) as [Hw2|]; [|done]. apply settles_returns, returns_ret.
    exists (Z.to_nat k), (z ++ out). split; [done|]. split; [done|]. split; [by apply writing_state|].
    split; [do 7 (split; [done|]); cbn; by apply has_set_other|]. split; [done|]. split; [done|]. split; [done|]. intros Hr. by apply Hrel in Hr.
  - pose proof (pending_advanced _ _ _ _ _ _ _ Hw1 Hpend) as Hw2. pose proof (all_or_nothing _ _ _ _ _ E2) as ->.
    change (enc_out (gz_with_child c s1)) with out. change (enc_p (gz_with_child c s1)) with 0. rewrite (proj2 (Z.eqb_eq _ _)) by lia.
    apply (buffer_emptied _ _ _ _) in Hw2; [|cbn; lia]. set (s2 := gz_with_encode _ [] 0 (gz_with_child c s1)).
    assert (Hw3 : writing s2 w0 (p ++ take (Z.to_nat k) l) (z ++ out)) by exact Hw2.
    eapply settles_mono; [|intros r Hr; apply (loop_result_trans s s2 w0 p l (Z.to_nat k) r Hkl); [done|done|exact Hr]].
    assert (Hby2 : bytes (drop (Z.to_nat k) l)) by by apply Forall_drop.
    destruct Hprog as [Hpos|Hless].
    + eapply (IHn (length (drop (Z.to_nat k) l))); [|done|reflexivity|exact Hw3|exact Hb|done|done|exact Hby2].
      rewrite length_drop. lia.
    + eapply (IHm (pending d)); [lia| |reflexivity|exact Hw3|exact Hb|done|done|exact Hby2]. rewrite length_drop. lia.
  - destruct (pending_written _ _ _ _ _ _ _ _ Hw1 Hpend) as [Hw2|]; [|done]. apply settles_returns, returns_ret.
    exists (Z.to_nat k), (z ++ out). split; [done|]. split; [done|]. split; [by apply writing_state|].
    split; [do 7 (split; [done|]); cbn; by apply has_set_other|]. split; [done|]. split; [done|]. split; [done|]. intros Hr. by apply Hrel in Hr.
  - destruct (pending_written _ _ _ _ _ _ _ _ Hw1 Hpend) as [Hw2|]; [|done]. apply settles_S. cbn [write_loop]. rewrite bool_decide_false by done. cbn [andb].
    apply settles_returns, returns_ret. exists (Z.to_nat k), (z ++ out). split; [done|]. split; [done|]. split; [exact Hw2|].
    split; [done|]. split; [done|]. split; [done|]. split; [done|]. intros Hr. by apply Hrel in Hr.
Qed.

(** A write as a whole.  When it fails, some of its bytes may have been taken. *)
Definition kept s s' : Prop :=
  gz_flags s' = gz_flags s ∧ header s' = header s ∧ decode s' = decode s ∧ gz_shutdown s' = gz_shutdown s ∧ buffer_length s' = buffer_length s.

Definition write_result s (w0 p buf : list Z) (r : GIOStatus * Z * option (gzip_error E) * ZStreamGzip C D I) : Prop :=
  let '(st, n, _, s') := r in
  ∃ k z', (k ≤ length buf)%nat ∧ writing s' w0 (p ++ take k buf) z' ∧ kept s s' ∧ st ≠ G_IO_STATUS_EOF ∧
  (st = G_IO_STATUS_NORMAL → n = Z.of_nat k) ∧ (st = G_IO_STATUS_AGAIN → k = 0%nat) ∧
  (st ≠ G_IO_STATUS_ERROR → begun s' ∧ (counted s p → counted s' (p ++ take k buf))) ∧
  (reliable_writes C E → buf ≠ [] → has (gz_state s) Z_SGS_WRITE_ERROR = false →
   st = G_IO_STATUS_NORMAL ∧ k = length buf ∧ has (gz_state s') Z_SGS_WRITE_ERROR = false).

Lemma counted_more s p buf k :
  counted s p → (k ≤ length buf)%nat →
  counted (gz_with_crc (crc32 (encode_crc s) (take k buf)) (u32 (encode_in s + Z.of_nat k)) s) (p ++ take k buf).
Proof.
  intros Hc Hk Hr. destruct (Hc Hr) as [-> ->]. cbn. rewrite crc32_app. split; [done|]. unfold u32.
  rewrite Zplus_mod_idemp_l, length_app, length_take. f_equal. lia.
Qed.

Lemma gzip_write_method_ok s w0 p z buf :
  writing s w0 p z → bytes buf → zlen buf < 2 ^ 32 → settles (λ fuel, z_stream_gzip_write_method (E := E) fuel s buf) (write_result s w0 p buf).
Proof.
  intros Hw Hby Hlt. unfold z_stream_gzip_write_method. rewrite (u32_small (zlen buf)), Nat2Z.id, firstn_all by lia. apply (writing_cond _ _ _ _ (clear_flag (child_cond s) G_IO_OUT)) in Hw.
  set (s0 := gz_with_cond _ s) in *. rewrite (wr_shut _ _ _ _ Hw). destruct (has (gz_state s0) Z_SGS_WRITE_ERROR) eqn:Ee.
  { apply settles_returns, returns_ret. exists 0%nat, z. rewrite app_nil_r. split; [lia|]. split; [exact Hw|]. do 5 (split; [done|]). intros _ _ Hno. change (gz_state s) with (gz_state s0) in Hno. congruence. }
  eapply settles_bind; [apply settles_returns; by eapply write_header_step|]. intros [[ok err] s1] (c & -> & Hw1 & Hb1 & _ & Hs1 & He1). cbn [negb].
  rewrite Ee in He1. assert (Hk1 : kept s s1) by (rewrite Hs1; done).
  assert (Hc1 : counted s p → counted s1 p) by (rewrite Hs1; intros Hc; exact Hc).
  eapply settles_bind; [apply settles_returns; by eapply flush_pending_ok|]. intros [[res err1] s2] (Hw2 & Hs2 & Hn2 & Ha2 & Heof2 & Hrel2).
  assert (Hk2 : kept s s2) by (destruct Hk1 as (?&?&?&?&?), Hs2 as (?&?&?&?&?&?&?&?); unfold kept; split_and!; congruence).
  assert (Hb2 : begun s2) by (destruct Hs2 as (Hf&_&_&_&_&_&_&Hst); intros Hr; rewrite Hst; apply Hb1; unfold is_raw in *; rewrite Hf in Hr; exact Hr).
  assert (Hc2 : counted s p → counted s2 p).
  { intros Hc%Hc1. destruct Hs2 as (Hf&_&Hcr&Hin&_). intros Hr. rewrite Hcr, Hin. apply Hc. unfold is_raw in *. rewrite Hf in Hr. exact Hr. }
  destruct (decide (res = G_IO_STATUS_NORMAL)) as [->|Hres].
  2: { rewrite bool_decide_false by done. cbn [negb]. apply settles_returns, returns_ret. exists 0%nat, z. rewrite app_nil_r.
       split; [lia|]. split; [exact Hw2|]. split; [done|]. split; [done|]. split; [done|]. split; [done|]. split; [by intros _|]. intros Hrel. by apply Hrel2 in Hrel. }
  rewrite bool_decide_true by done. cbn [negb]. destruct (Hn2 eq_refl) as [Hp2 He2]. apply (buffer_emptied _ _ _ _) in Hw2; [|done].
  set (s3 := gz_with_encode (encode s2) [] 0 s2) in *.
  eapply settles_bind; [eapply gzip_write_loop_ok; [reflexivity|reflexivity|exact Hw2|exact Hb2|done|done|done]|].
  intros [[[res err2] rest] s4] (k & z' & -> & Hk & Hw4 & Hs4 & Heof4 & He4 & Hn4 & Hrel4). apply settles_returns.
  assert (Hk4 : kept s s4) by (destruct Hk2 as (?&?&?&?&?), Hs4 as (?&?&?&?&?&?&?&?); unfold kept; split_and!; by etrans).
  destruct (decide (res = G_IO_STATUS_ERROR)) as [->|Hres4].
  { rewrite bool_decide_true by done. apply returns_ret. exists k, z'. do 7 (split; [done|]). intros Hrel. by apply Hrel4 in Hrel. }
  rewrite bool_decide_false by done. rewrite length_drop. replace (zlen buf - Z.of_nat (length buf - k)) with (Z.of_nat k) by lia.
  assert (Hb4 : begun s4) by (destruct Hs4 as (Hf&_&_&_&_&_&_&Hst); intros Hr; rewrite Hst; apply Hb2; unfold is_raw in *; rewrite Hf in Hr; exact Hr).
  assert (Hc4 : counted s p → counted s4 p).
  { intros Hc%Hc2. destruct Hs4 as (Hf&_&Hcr&Hin&_). intros Hr. rewrite Hcr, Hin. apply Hc. unfold is_raw in *. rewrite Hf in Hr. exact Hr. }
  assert (Hall : reliable_writes C E → buf ≠ [] → has (gz_state s) Z_SGS_WRITE_ERROR = false → k = length buf ∧ has (gz_state s4) Z_SGS_WRITE_ERROR = false).
  { intros Hrel Hne Hno. specialize (Hn4 (Hrel4 Hrel)). apply (f_equal length) in Hn4. rewrite length_drop in Hn4. cbn in Hn4. split; [lia|].
    rewrite He4 by done. change (gz_state s3) with (gz_state s2). by rewrite He2. }
  destruct (Z.eqb_spec (Z.of_nat k) 0) as [Hk0|Hk0].
  - assert (k = 0%nat) as -> by lia. apply returns_ret. exists 0%nat, z'. do 6 (split; [done|]). split; [intros _; split; [done|by rewrite app_nil_r]|].
    intros Hrel Hne Hno. destruct (Hall Hrel Hne Hno) as [Hlen _]. by destruct buf.
  - rewrite u32_small, Nat2Z.id by lia. apply returns_ret. exists k, z'. split; [done|]. destruct (has (gz_flags s4) Z_SGZ_GZIP_HEADER) eqn:Er.
    + split; [by apply writing_crc|]. do 4 (split; [done|]). split; [|intros Hrel Hne Hno; split; [done|by apply Hall]].
      intros _. split; [done|]. intros Hc. by apply counted_more; [apply Hc4|].
    + do 5 (split; [done|]). split; [|intros Hrel Hne Hno; split; [done|by apply Hall]].
      intros _. split; [done|]. intros _ Hr. unfold is_raw in Hr. congruence.
Qed.


(** Sessions: writes, and the child becoming writeable; what was accepted, and the statuses. *)
Inductive gz_op : Set := GzWrite (buf : list Z) | GzWritable.


Fixpoint run_writes (fuel : nat) s (ops : list gz_op) : outcome (list Z * list GIOStatus * ZStreamGzip C D I) :=
  match ops with
  | [] => Done ([], [], s)
  | GzWrite buf :: ops =>
      '(st, n, _, s) ← z_stream_gzip_write_method (E := E) fuel s buf;
      '(acc, sts, s) ← run_writes fuel s ops;
      Done ((if bool_decide (st = G_IO_STATUS_NORMAL) then take (Z.to_nat n) buf else []) ++ acc, st :: sts, s)
  | GzWritable :: ops =>
      s ← z_stream_gzip_write_callback (E := E) s;
      run_writes fuel s ops
  end.

Lemma kept_trans s s1 s2 : kept s s1 → kept s1 s2 → kept s s2.
Proof. intros (?&?&?&?&?) (?&?&?&?&?). unfold kept. split_and!; by etrans. Qed.


(** A new stream, whose header is set. *)
Definition new_header (now timestamp : Z) (origname comment : option (list Z)) : gzip_header :=
  mkHeader (if timestamp =? 0 then now else timestamp) 0 None origname comment.

Definition new_writer (c : C) (t : Z) (nonblock : bool) (flags level buflen now timestamp : Z) (origname comment : option (list Z)) : outcome (ZStreamGzip C D I) :=
  s ← z_stream_gzip_new c t nonblock flags level buflen;
  z_stream_gzip_set_header_fields now timestamp origname comment 0 s.

Lemma new_writing c t nonblock flags level buflen now timestamp origname comment :
  let raw := has flags Z_SGZ_GZIP_HEADER in
  raw = false ∨ nonblock = false → 0 < buflen < 2 ^ 31 →
  (raw = true → header_ok (new_header now timestamp origname comment) ∧ reliable_writes C E) →
  returns (new_writer c t nonblock flags level buflen now timestamp origname comment) (λ s,
    writing s (written (E := E) c) [] [] ∧ counted s [] ∧ gz_flags s = flags ∧ header s = new_header now timestamp origname comment ∧
    buffer_length s = buflen ∧ has (gz_state s) Z_SGS_WRITE_ERROR = false ∧ gz_shutdown s = 0 ∧ decode s = inflateInit raw).
Proof.
  intros raw Hnb Hb Hh. unfold new_writer, z_stream_gzip_new, z_stream_gzip_set_child. rewrite require_true, !Done_bind by done. apply returns_ret.
  split; [split; try done; cbn; fold raw|].
  - apply deflate_init.
  - lia.
  - unfold header_out. change (has _ Z_SGS_HEADER_WRITTEN) with false. by rewrite andb_false_r, !app_nil_r.
  - split; [intros _; cbn; split; [by rewrite crc32_nil|done]|]. done.
Qed.


(** ** Shutting down *)

(** The error of a call is only set when it fails. *)
Hypothesis no_error : ∀ (c c' : C) l n (err : option E), child_write c l = (G_IO_STATUS_NORMAL, n, err, c') → err = None.

Lemma drain_ok (Hrel : reliable_writes C E) s :
  0 ≤ enc_p s ≤ zlen (enc_out s) → zlen (enc_out s) < 2 ^ 32 →
  returns (drain (E := E) s) (λ '(ret, err, s'), ∃ c, ret = G_IO_STATUS_NORMAL ∧ err = None ∧
    s' = gz_with_encode (encode s) (enc_out s) (zlen (enc_out s)) (gz_with_child c s) ∧
    written (E := E) c = written (E := E) (gz_child s) ++ drop (Z.to_nat (enc_p s)) (enc_out s)).
Proof.
  intros Hp Hl. unfold drain. cbn [drain_loop Nat.add]. destruct (Z.eqb_spec (enc_p s) (zlen (enc_out s))) as [He|He]; cbn [negb andb].
  - apply returns_ret. exists (gz_child s). split; [done|]. split; [done|]. split; [rewrite <- He; by destruct s|].
    by rewrite He, Nat2Z.id, drop_all, app_nil_r.
  - rewrite bool_decide_true by done. unfold write_pending, pending_length. rewrite u64_small, load_range_ok, Done_bind by lia.
    rewrite take_ge by (rewrite length_drop; lia). rewrite Done_bind.
    destruct (child_write _ _) as [[[st n] err] c] eqn:E1. destruct (Hrel _ _ _ _ _ _ E1) as [-> _]. rewrite bool_decide_true by done.
    pose proof (all_or_nothing _ _ _ _ _ E1) as Hn. rewrite length_drop in Hn. pose proof (no_error _ _ _ _ _ E1) as ->.
    cbn [enc_p enc_out gz_with_encode gz_with_child encode]. rewrite (proj2 (Z.eqb_eq _ _)) by lia. cbn [negb andb]. apply returns_ret.
    exists c. split; [done|]. split; [done|]. split; [repeat f_equal; lia|]. apply write_normal in E1 as [_ ->].
    f_equal. rewrite take_ge; [done|]. rewrite length_drop. lia.
Qed.

Definition trailer s : list Z := if is_raw s then guint32_bytes 4 (encode_crc s) ++ guint32_bytes 4 (encode_in s) else [].

(** The end of the data, behind what was drained. *)
Lemma finish_write_ok (Hrel : reliable_writes C E) s w0 p z k out d :
  writing s w0 p z → begun s → enc_p s = zlen (enc_out s) →
  deflate (encode s) [] (buffer_length s) Z_FINISH = (Z_STREAM_END, k, out, d) →
  returns (finish_write (E := E) G_IO_STATUS_NORMAL s) (λ '(res, ret, err, s'), ∃ c,
    res = G_IO_STATUS_NORMAL ∧ ret = G_IO_STATUS_NORMAL ∧
    s' = gz_with_encode d out (zlen out) (gz_with_child c s) ∧
    written (E := E) c = w0 ++ header_out s ++ (z ++ out) ++ trailer s).
Proof.
  intros Hw Hb He E1. pose proof (deflate_finish _ _ _ _ _ _ _ _ (wr_deflates _ _ _ _ Hw) (proj1 (wr_buffer _ _ _ _ Hw)) E1) as [Hlen _].
  unfold finish_write. rewrite E1. rewrite bool_decide_true by done. cbn [negb]. set (s1 := gz_with_encode d out 0 s).
  pose proof (wr_buffer _ _ _ _ Hw) as Hbuf.
  apply returns_bind. eapply returns_mono; [apply (drain_ok Hrel s1); cbn; lia|]. intros [[ret err] s2] (c & -> & -> & -> & Hc).
  cbn [encode enc_out s1 gz_with_encode gz_child enc_p] in *. set (s2 := gz_with_encode d out (zlen out) (gz_with_child c s1)).
  assert (Hbody : written (E := E) c = w0 ++ header_out s ++ z ++ out).
  { rewrite Hc. pose proof (wr_out _ _ _ _ Hw) as Ho. rewrite He, Nat2Z.id, drop_all, app_nil_r in Ho. rewrite Ho. by rewrite <- !app_assoc. }
  assert (Hhead : z_stream_gzip_write_gzip_header (E := E) None s2 = Done (true, None, s2)).
  { unfold z_stream_gzip_write_gzip_header. change (has (gz_flags s2) Z_SGZ_GZIP_HEADER) with (is_raw s). change (gz_state s2) with (gz_state s).
    destruct (is_raw s) eqn:Er; [|done]. by rewrite (Hb Er). }
  apply returns_bind. apply (returns_mono _ (λ r, r = (G_IO_STATUS_NORMAL, None, s2))).
  { case_match; [rewrite Hhead, Done_bind|]; by apply returns_ret. }
  intros r ->. rewrite bool_decide_true by done. apply returns_bind.
  unfold z_stream_gzip_write_gzip_trailer. change (has (gz_flags s2) Z_SGZ_GZIP_HEADER) with (is_raw s). change (gz_state s2) with (gz_state s).
  unfold trailer. destruct (is_raw s) eqn:Er; cbn [andb].
  - rewrite (Hb Er). apply returns_bind. eapply returns_mono; [by apply (child_write_chunk_ok Hrel)|]. intros [[[st n] err] c2] (-> & -> & Hc2).
    apply returns_ret, returns_ret. exists c2. rewrite bool_decide_true by done. split; [done|]. split; [done|]. split; [by destruct s|].
    rewrite Hc2. cbn [gz_child gz_with_child gz_with_encode s2]. rewrite Hbody. by rewrite <- !app_assoc.
  - apply returns_ret, returns_ret. exists c. split; [done|]. split; [done|]. split; [done|]. rewrite Hbody. by rewrite app_nil_r.
Qed.

Lemma writing_child s w0 p z c : writing s w0 p z → written (E := E) c = written (E := E) (gz_child s) → writing (gz_with_child c s) w0 p z.
Proof. intros [] Hc. split; try done. cbn. by rewrite Hc. Qed.

(** The shutdown of both directions: the data becomes complete, and the trailer follows. *)
Lemma gzip_shutdown_ok (Hrel : reliable_writes C E) nonblock s w0 p z k out d :
  writing s w0 p z → begun s → gz_shutdown s = 0 → inflateEnd (decode s) = Z_OK →
  (∀ (c c' : C) st (err : option E), child_shutdown c SHUT_RDWR = (st, err, c') → st = G_IO_STATUS_NORMAL) →
  deflate (encode s) [] (buffer_length s) Z_FINISH = (Z_STREAM_END, k, out, d) →
  returns (z_stream_gzip_shutdown_method (E := E) nonblock s SHUT_RDWR) (λ '(res, err, s'),
    res = G_IO_STATUS_NORMAL ∧ written (E := E) (gz_child s') = w0 ++ header_out s ++ (z ++ out) ++ trailer s).
Proof.
  intros Hw Hb Hs Hend Hshut E1. unfold z_stream_gzip_shutdown_method. rewrite Hs. cbn -[has SHUT_RDWR]. rewrite Hend.
  change (has 0 G_IO_IN) with false. cbn -[has SHUT_RDWR]. rewrite bool_decide_true by done.
  set (s0 := gz_with_shutdown _ s).
  assert (Hw0 : writing s0 w0 p z) by (destruct Hw; by split). apply returns_bind. unfold shutdown_write.
  assert (Hw1 : writing (gz_with_child (child_set_nonblock (E := E) (gz_child s0) false) s0) w0 p z) by (apply writing_child; [done|by rewrite written_set_nonblock]).
  set (s1 := gz_with_child _ s0) in *. apply returns_bind. pose proof (wr_p _ _ _ _ Hw1). pose proof (wr_len _ _ _ _ Hw1). pose proof (wr_buffer _ _ _ _ Hw1).
  eapply returns_mono; [apply (drain_ok Hrel s1); lia|]. intros [[ret err] s2] (c2 & -> & -> & -> & Hc2). rewrite bool_decide_true by done.
  set (s2 := gz_with_encode _ _ _ _).
  assert (Hw2 : writing s2 w0 p z).
  { destruct Hw1. split; try done; [cbn; lia|]. unfold s2. cbn [gz_child gz_with_encode gz_with_child enc_p enc_out]. rewrite Nat2Z.id, drop_all, app_nil_r, Hc2. done. }
  apply returns_bind. eapply returns_mono; [eapply (finish_write_ok Hrel s2 w0 p z k out d Hw2); [exact Hb|done|exact E1]|].
  intros [[[res ret] err] s3] (c3 & -> & -> & -> & Hc3). rewrite bool_decide_true by done. apply returns_ret.
  match goal with |- context [child_shutdown ?x SHUT_RDWR] => destruct (child_shutdown x SHUT_RDWR) as [[st cerr] c4] eqn:E4 end.
  pose proof (Hshut _ _ _ _ E4) as ->. rewrite bool_decide_true by done. apply returns_ret. split; [by case_match|].
  cbn [gz_child gz_with_child]. apply written_shutdown in E4. rewrite E4. cbn [gz_child gz_with_child gz_with_shutdown gz_with_encode].
  rewrite written_set_nonblock. exact Hc3.
Qed.

Lemma run_writes_all (Hrel : reliable_writes C E) bufs : ∀ s w0 p z,
  writing s w0 p z → has (gz_state s) Z_SGS_WRITE_ERROR = false → Forall (λ buf, buf ≠ [] ∧ bytes buf ∧ zlen buf < 2 ^ 32) bufs →
  settles (λ fuel, run_writes fuel s (GzWrite <$> bufs)) (λ '(acc, sts, s'), ∃ z',
    acc = concat bufs ∧ Forall (λ st, st = G_IO_STATUS_NORMAL) sts ∧ writing s' w0 (p ++ concat bufs) z' ∧ kept s s' ∧
    (bufs ≠ [] ∨ begun s → begun s') ∧ (counted s p → counted s' (p ++ concat bufs))).
Proof.
  induction bufs as [|buf bufs IH]; intros s w0 p z Hw He Hbufs; cbn [fmap list_fmap run_writes concat].
  { apply settles_returns, returns_ret. exists z. rewrite app_nil_r. split_and!; try done. by intros [?|?]. }
  apply Forall_cons in Hbufs as [(Hne & Hby & Hlen) Hbufs]. eapply settles_bind; [by eapply gzip_write_method_ok|].
  intros [[[st n] err] s1] (k & z1 & Hk & Hw1 & Hk1 & Heof & Hn & Ha & Hb & Hall). destruct (Hall Hrel Hne He) as (-> & -> & He1).
  destruct (Hb ltac:(done)) as [Hb1 Hc1]. rewrite firstn_all in *. eapply settles_bind; [by apply (IH s1 w0 (p ++ buf) z1)|].
  intros [[acc sts] s2] (z2 & -> & Hsts & Hw2 & Hk2 & Hb2 & Hc2). apply settles_returns, returns_ret. exists z2.
  rewrite bool_decide_true, (Hn eq_refl), Nat2Z.id, firstn_all by done. split; [done|]. split; [by constructor|]. rewrite app_assoc.
  split; [done|]. split; [by eapply kept_trans|]. split; [|auto]. intros _. apply Hb2. by right.
Qed.
End writing.
Arguments run_reads {C D I _ _ _} E s counts.
Arguments run_writes {C E D I _ _} fuel s ops.

(** * What is promised *)

Section promised.
Context {C E D I : Type} `{FreshMem} `{ZStreamLaws C} `{ZStreamWriteLaws C E} `{ZlibLaws D I}.


End promised.

(** * There and back *)

Section roundtrip.
Context {CW CR E D I : Type} `{FreshMem} `{ZStreamLaws CW} `{ZStreamWriteLaws CW E} `{ZStreamLaws CR} `{ZlibLaws D I}.

(** A child that never fails and takes all of every write, and one that never fails to deliver. *)
Record good_writer : Prop := {
  gw_reliable : reliable_writes CW E;
  gw_all : takes_all_or_nothing CW E;
  gw_no_error : ∀ (c c' : CW) l n (err : option E), child_write c l = (G_IO_STATUS_NORMAL, n, err, c') → err = None;
  gw_shutdown : ∀ (c c' : CW) st (err : option E), child_shutdown c SHUT_RDWR = (st, err, c') → st = G_IO_STATUS_NORMAL
}.
Record good_reader : Prop := {
  gr_reliable : reliable_reads CR;
  gr_nothing : no_phantom_bytes CR
}.

(** C4: What is written to a gzip stream in any pieces, of less than 4 GB each, is what another one
    reads: after a shutdown the child of the first has got the header, compressed data and the
    trailer, in which are the checksum and the length of the data; a second stream over these
    bytes, whatever follows them, delivers the data and then the end, in reads of any sizes below 4 GB
    and without an error.  The child written to has to take all of every write ([good_writer]; with
    partial writes the code sends bytes again), and the buffer has to be large enough for the rest
    that deflate gives out at the end. *)
Theorem gzip_roundtrip (c : CW) t nonblock flags level buflen now timestamp origname comment bufs :
  let raw := has flags Z_SGZ_GZIP_HEADER in
  let h := new_header now timestamp origname comment in
  good_writer → good_reader → inflateEnd (inflateInit (D := D) raw : I) = Z_OK →
  raw = false ∨ nonblock = false → 0 < buflen < 2 ^ 31 → (raw = true → header_ok h) →
  bufs ≠ [] → Forall (λ buf, buf ≠ [] ∧ bytes buf ∧ zlen buf < 2 ^ 32) bufs →
  settles (λ fuel, s ← new_writer (D := D) (I := I) c t nonblock flags level buflen now timestamp origname comment;
                   run_writes (E := E) fuel s (GzWrite <$> bufs)) (λ '(acc, sts, s),
    acc = concat bufs ∧ Forall (λ st, st = G_IO_STATUS_NORMAL) sts ∧
    ∀ k out d, deflate (encode s) [] buflen Z_FINISH = (Z_STREAM_END, k, out, d) →
    returns (z_stream_gzip_shutdown_method (E := E) nonblock s SHUT_RDWR) (λ '(res, err, s'),
      res = G_IO_STATUS_NORMAL ∧ ∃ z,
      written (E := E) (gz_child s') = written (E := E) c ++ (if raw then header_bytes h else []) ++ z ++
        (if raw then guint32_bytes 4 (crc32 (Zlib := H6) 0 (concat bufs)) ++ guint32_bytes 4 (u32 (zlen (concat bufs))) else []) ∧
      ∀ (r : CR) t' level' buflen' rest counts,
        to_come r = (if raw then header_bytes h else []) ++ z ++ rest → 0 < buflen' → Forall (λ n, 0 < n < 2 ^ 32) counts →
        (length z + length (concat bufs) + 2 ≤ length counts)%nat →
        returns (x ← z_stream_gzip_new (D := D) (I := I) r t' false flags level' buflen'; run_reads E x counts) (λ '(data, sts, _),
          data = concat bufs ∧ G_IO_STATUS_EOF ∈ sts ∧ G_IO_STATUS_ERROR ∉ sts))).
Proof.
  intros raw' h [Hrel Hall Hne Hshut] [Hrr Hnr] Hend Hnb Hb Hh Hbne Hbufs.
  eapply settles_bind; [apply settles_returns; apply (new_writing (E := E)); [exact Hnb|exact Hb|intros Hr; split; [by apply Hh|done]]|].
  intros s0 (Hw0 & Hc0 & Hf0 & Hh0 & Hbl0 & He0 & Hs0 & Hd0).
  eapply settles_mono; [by apply (run_writes_all Hall Hrel bufs s0 (written (E := E) c) [] [])|].
  intros [[acc sts] s] (z & -> & Hsts & Hw & (Hf & Hhd & Hd & Hs & Hbl) & Hbeg & Hcnt). split; [done|]. split; [done|]. intros k out d Hfin.
  rewrite <- Hbl0, <- Hbl in Hfin. specialize (Hbeg (or_introl Hbne)). specialize (Hcnt Hc0).
  assert (Hraw : is_raw s = raw') by (unfold is_raw; by rewrite Hf, Hf0).
  eapply returns_mono; [apply (gzip_shutdown_ok Hall Hne Hrel nonblock s _ _ z k out d Hw Hbeg); [by rewrite Hs, Hs0|by rewrite Hd, Hd0|exact Hshut|exact Hfin]|].
  intros [[res err] s'] (-> & Hsent). split; [done|]. exists (z ++ out). split.
  { rewrite Hsent. f_equal. unfold header_out, trailer. rewrite Hraw. destruct raw' eqn:Er; [|done].
    rewrite (Hbeg Hraw). cbn [andb]. rewrite Hhd, Hh0. destruct (Hcnt Hraw) as [-> ->]. done. }
  intros r t' level' buflen' rest counts Hr Hb' Hcounts Hlen.
  assert (Hinf : inflates (inflateInit raw') (z ++ out) (concat bufs)).
  { rewrite <- Hraw. eapply (deflate_finish _ _ _ _ _ _ _ _ (wr_deflates _ _ _ _ Hw) (proj1 (wr_buffer _ _ _ _ Hw)) Hfin). }
  unfold z_stream_gzip_new at 1, z_stream_gzip_set_child. rewrite require_true, Done_bind by by right. rewrite Done_bind.
  eapply returns_mono; [eapply run_reads_ok; [exact Hnr| |done]|].
  { eapply (new_reading r t' false flags level' buflen' h (z ++ out) (concat bufs) rest); [|done|exact Hinf|].
    - unfold z_stream_gzip_new, z_stream_gzip_set_child. by rewrite require_true, Done_bind by by right.
    - fold raw'. destruct raw'; [|done]. split; [done|]. split; [by apply Hh|done]. }
  intros [[data sts'] x] (more & Hdata & Heof & Hok). destruct (Hok Hrr) as [Hno Hend']. specialize (Hend' ltac:(lia)).
  rewrite (Heof Hend'), app_nil_r in Hdata. by split_and!.
Qed.
End roundtrip.

(** * The header, and the events *)

Section header_events.
Context {CW CR E D I : Type} `{FreshMem} `{ZStreamLaws CW} `{ZStreamWriteLaws CW E} `{ZStreamLaws CR} `{Zlib D I}.

(** C40: The header is read back as it was written, field by field, whatever is on the stack of the
    reader: the timestamp, an extra field of up to 65535 bytes, and names and comments of less than 4095
    bytes; and the data behind it is left in the child.  This includes the timestamp 0 and
    strings that are NULL, which come back as 0 and NULL: they are not replaced by the
    current time and by empty strings, as the comment above z_stream_gzip_write_gzip_header says. *)
Theorem gzip_header_roundtrip (w : ZStreamGzip CW D I) (r : ZStreamGzip CR D I) rest :
  reliable_writes CW E → reliable_reads CR → header_ok (header w) →
  is_raw w = true → has (gz_state w) Z_SGS_HEADER_WRITTEN = false →
  is_raw r = true → has (gz_state r) Z_SGS_HEADER_READ = false →
  returns (z_stream_gzip_write_gzip_header (E := E) None w) (λ '(ok, _, w'),
    ok = true ∧ ∃ sent, written (E := E) (gz_child w') = written (E := E) (gz_child w) ++ sent ∧
    (to_come (gz_child r) = sent ++ rest →
     returns (z_stream_gzip_fetch_header r) (λ '(ok, r'),
       ok = true ∧ z_stream_gzip_get_header_fields r' = z_stream_gzip_get_header_fields w ∧ to_come (gz_child r') = rest))).
Proof.
  intros Hw Hr Hh Hfw Hsw Hfr Hsr. eapply returns_mono; [by apply (write_header_ok Hw)|].
  intros [[ok err] w'] (c & -> & _ & -> & Hc). split; [done|]. exists (header_bytes (header w)). split; [exact Hc|]. intros Hto.
  eapply returns_mono; [by apply (read_header_ok Hr r (header w) rest)|]. intros [ok r'] (c' & -> & Hc' & ->). by split.
Qed.

(** A stream that is waited for never sleeps alone: it is ready itself, or its child waits for the same
    direction; what it calls ready is still ready when it is checked, and data in the child makes it so.  The
    callbacks are called for the directions that are ready, reading first, and
    writing only if the first one answers TRUE. *)
Theorem gzip_watch_spec (w : watch) (s : ZStreamGzip CW D I) (a b : bool) :
  let '(ready, timeout, child_in, child_out) := z_stream_gzip_watch_prepare w s in
  timeout = -1 ∧
  (want_read w = true → ready = true ∨ child_in = true) ∧ (want_write w = true → ready = true ∨ child_out = true) ∧
  (ready = true → z_stream_gzip_watch_check w s = true) ∧
  (child_in = true → want_read w = true ∧ decode_in s = []) ∧
  (want_read w = true → z_stream_gzip_watch_check w (z_stream_gzip_read_callback s) = true) ∧
  returns (z_stream_gzip_watch_dispatch w (Some (λ s, (a, s))) (Some (λ s, (b, s))) s) (λ '(rc, s'), s' = s ∧
    rc = (if want_read w && read_ready s then a else true) && (if want_write w && write_ready s then b else true)).
Proof.
  assert (Hd : z_stream_gzip_watch_dispatch w (Some (λ s, (a, s))) (Some (λ s, (b, s))) s =
    Done ((if want_read w && read_ready s then a else true) && (if want_write w && write_ready s then b else true), s)).
  { unfold z_stream_gzip_watch_dispatch. destruct (want_read w && read_ready s); rewrite Done_bind; destruct (want_write w), a; cbn [andb];
      rewrite ?andb_false_r; try done; by destruct (write_ready s). }
  rewrite Hd. clear Hd. unfold z_stream_gzip_watch_prepare, z_stream_gzip_watch_check, read_ready, write_ready.
  assert (Hin : child_readable (z_stream_gzip_read_callback s) = true) by (by apply has_set_same). rewrite Hin, orb_true_r.
  assert (Hnil : zlen (decode_in s) = 0 → decode_in s = []) by (by destruct (decode_in s)). destruct w as [wr wp ww]. cbn [want_read want_write].
  destruct (Z.eqb_spec (zlen (decode_in s)) 0) as [Hz|Hz], (child_readable s), (avail_out s =? buffer_length s), wr, ww;
    cbn; split_and!; try done; auto; intros; by split_and?; auto.
Qed.
End header_events.

(** * A child, and runs *)

Module ToyPipe.
Import ToyZlib.
(** What there is to read, and what was written.  The answers to the next writes: how many bytes are
    taken, or that the pipe is full; then everything is taken. *)
Inductive answer : Set := Takes (n : Z) | Full | Breaks.
Record pipe := mkPipe { pin : list Z; pout : list Z; answers : list answer }.

#[export] Instance pipe_read : ZStreamOps pipe := {
  child_read c t n :=
    match pin c with
    | [] => (G_IO_STATUS_EOF, [], c)
    | _ => (G_IO_STATUS_NORMAL, take (Z.to_nat n) (pin c), mkPipe (drop (Z.to_nat n) (pin c)) (pout c) (answers c))
    end;
  to_come := pin
}.

#[export] Instance pipe_write : ZStreamWriteOps pipe unit := {
  child_write c l :=
    match answers c with
    | [] => (G_IO_STATUS_NORMAL, zlen l, None, mkPipe (pin c) (pout c ++ l) [])
    | Takes n :: a => (G_IO_STATUS_NORMAL, Z.min n (zlen l), None, mkPipe (pin c) (pout c ++ take (Z.to_nat n) l) a)
    | Full :: a => (G_IO_STATUS_AGAIN, 0, None, mkPipe (pin c) (pout c) a)
    | Breaks :: a => (G_IO_STATUS_ERROR, 0, Some tt, mkPipe (pin c) (pout c) a)
    end;
  child_set_timeout c _ := c;
  child_set_nonblock c _ := c;
  child_shutdown c _ := (G_IO_STATUS_NORMAL, None, c);
  written := pout
}.

#[export] Instance toy_memory : FreshMem := zero_mem.

Definition open (inp : list Z) (a : list answer) (flags buflen : Z) : outcome (ZStreamGzip pipe (list Z) (option bool)) :=
  z_stream_gzip_new (mkPipe inp [] a) 0 false flags 1 buflen.

(** A child that takes a part of a write, when there is more input than fits: the loop starts again at the
    beginning of its buffer.  When the counts add up by chance, bytes are sent twice. *)
Example partial_writes_repeat :
  (s ← open [] [Takes 1; Takes 1] 0 2;
   '(st, n, _, s) ← z_stream_gzip_write_method 10 s [5; 6; 7];
   Done (st, n, pout (gz_child s))) = Done (G_IO_STATUS_NORMAL, 3, [1; 1; 1; 6]).
Proof. by vm_compute. Qed.

(** The pointer into the buffer can get behind its end; then the length of the next write is
    negative, and passed as a gsize. *)
Example partial_writes_run_away :
  (s ← open [] [Takes 1; Takes 2; Full] 0 2;
   '(_, _, _, s) ← z_stream_gzip_write_method 10 s [5; 6; 7];
   z_stream_gzip_write_method 10 s [8]) = Fault OutOfBounds.
Proof. by vm_compute. Qed.

(** Mostly they do not add up, and the same bytes are written for ever. *)
Lemma full_buffer_loops fuel : ∀ (s : ZStreamGzip pipe (list Z) (option bool)) rest,
  rest ≠ [] → zlen (enc_out s) = buffer_length s → 0 < enc_p s → answers (gz_child s) = [] →
  write_loop (E := unit) fuel s rest G_IO_STATUS_NORMAL = Fault OutOfFuel.
Proof.
  induction fuel as [|fuel IH]; intros s rest Hr Hl Hp Ha; [done|]. cbn [write_loop]. rewrite bool_decide_true by done. cbn [andb].
  rewrite (proj2 (Z.ltb_lt _ _)) by (destruct rest; [done|cbn; lia]).
  unfold avail_out. rewrite (proj2 (Z.eqb_eq _ _)) by lia. cbn [negb]. rewrite bool_decide_true by done. cbn [negb].
  cbn [child_write pipe_write]. rewrite Ha. cbn [enc_p enc_out gz_with_child encode]. rewrite (proj2 (Z.eqb_neq _ _)) by lia.
  apply IH; cbn; [done..|lia|done].
Qed.

Definition tight : ZStreamGzip pipe (list Z) (option bool) :=
  mkGz (mkPipe [] [] [Takes 1]) 0 0 [] [] 0 (Some false) [] 2 0 0 0 0 0 (mkHeader 0 0 None None None).

Lemma first_turn fuel :
  write_loop (E := unit) (S fuel) tight [5; 6; 7] G_IO_STATUS_NORMAL =
  write_loop (E := unit) fuel (gz_with_encode [1; 6] [1; 5] 1 (gz_with_child (mkPipe [] [1] []) tight)) [7] G_IO_STATUS_NORMAL.
Proof. done. Qed.

Example partial_writes_loop fuel : z_stream_gzip_write_method (E := unit) fuel tight [5; 6; 7] = Fault OutOfFuel.
Proof.
  unfold z_stream_gzip_write_method. set (s := gz_with_cond _ _). assert (Hs : s = tight) by done. rewrite Hs. clear s Hs.
  change (z_stream_gzip_write_gzip_header None tight) with (Done (true, None (A := unit), tight)). rewrite Done_bind. cbn [negb].
  change (flush_pending tight) with (Done (G_IO_STATUS_NORMAL, None (A := gzip_error unit), tight)). rewrite Done_bind.
  rewrite bool_decide_true by done. cbn [negb]. change (gz_with_encode _ [] 0 tight) with tight.
  destruct fuel as [|fuel]; [done|]. by rewrite first_turn, full_buffer_loops.
Qed.

(** The lengths that zlib gets have 32 bits: of a write of 4 GB nothing is compressed, and all of it
    is reported as written. *)
Lemma write_of_4GB (buf : list Z) :
  zlen buf = 2 ^ 32 →
  (s ← open [] [] 0 100;
   '(st, n, _, s) ← z_stream_gzip_write_method 2 s buf;
   Done (st, n, pout (gz_child s), enc_out s, encode s)) = Done (G_IO_STATUS_NORMAL, 2 ^ 32, [], [], []).
Proof.
  intros Hl. unfold z_stream_gzip_write_method. rewrite Hl. change (u32 (2 ^ 32)) with 0. change (take (Z.to_nat 0) buf) with (@nil Z).
  by vm_compute.
Qed.

(** A read of 4 GB offers no room to inflate, but what it reports is all the room that was asked for. *)
Lemma read_of_4GB (s : ZStreamGzip pipe (list Z) (option bool)) :
  let '(rc, k, out, i) := inflate (Zlib := toy_zlib) (decode s) (decode_in s) 0 in
  rc = Z_OK → let '(st, l, _, _) := inflate_step (E := unit) (2 ^ 32) s in st = G_IO_STATUS_NORMAL ∧ zlen l = zlen out + 2 ^ 32.
Proof.
  destruct (inflate (decode s) (decode_in s) 0) as [[[rc k] out] i] eqn:E1. intros ->. unfold inflate_step.
  change (u32 (2 ^ 32)) with 0. rewrite E1, bool_decide_false by (intros [H _]; by apply H). split; [done|].
  unfold fresh_bytes. rewrite length_app, length_fmap, length_seq. lia.
Qed.

(** The rest of the data is lost when the end does not fit into the buffer, and the shutdown
    succeeds. *)
Example end_does_not_fit :
  (s ← open [] [] 0 1;
   '(st, n, _, s) ← z_stream_gzip_write_method 10 s [5];
   '(res, _, s) ← z_stream_gzip_shutdown_method false s SHUT_RDWR;
   Done (st, n, res, pout (gz_child s))) = Done (G_IO_STATUS_NORMAL, 1, G_IO_STATUS_NORMAL, [1]).
Proof. by vm_compute. Qed.

(** So it does when the child fails. *)
Example failed_flush_succeeds :
  (s ← open [] [Full; Breaks] 0 100;
   '(st, n, _, s) ← z_stream_gzip_write_method 10 s [5];
   '(res, err, s) ← z_stream_gzip_shutdown_method false s SHUT_RDWR;
   Done (st, n, res, err, pout (gz_child s))) = Done (G_IO_STATUS_NORMAL, 1, G_IO_STATUS_NORMAL, Some tt, []).
Proof. by vm_compute. Qed.

(** With Z_SGZ_SYNC_FLUSH a write may leave a part of its data in deflate, when the output fills the buffer. *)
Example sync_flush_keeps :
  (s ← open [] [] Z_SGZ_SYNC_FLUSH 1;
   '(st, n, _, s) ← z_stream_gzip_write_method 10 s [5];
   Done (st, n, pout (gz_child s), encode s)) = Done (G_IO_STATUS_NORMAL, 1, [1], [5]).
Proof. by vm_compute. Qed.

(** Shutting down the write direction alone does not write the trailer; both do. *)
Definition after_shutdown (method : Z) : outcome (list Z) :=
  s ← open [] [] Z_SGZ_GZIP_HEADER 100;
  '(_, _, _, s) ← z_stream_gzip_write_method 10 s [5];
  '(_, _, s) ← z_stream_gzip_shutdown_method false s method;
  Done (drop 10 (pout (gz_child s))).

Example trailer_of_both :
  after_shutdown SHUT_RDWR = Done [1; 5; 0; 5; 0; 0; 0; 1; 0; 0; 0] ∧ after_shutdown SHUT_WR = Done [1; 5; 0].
Proof. by vm_compute. Qed.

(** The empty header is written behind the data. *)
Example empty_header_behind :
  (s ← open [] [] (Z_SGZ_GZIP_HEADER + Z_SGZ_WRITE_EMPTY_HEADER) 100;
   '(_, _, s) ← z_stream_gzip_shutdown_method false s SHUT_RDWR;
   Done (pout (gz_child s))) = Done ([0] ++ [31; 139; 8; 0; 0; 0; 0; 0; 0; 3] ++ replicate 8 0).
Proof. by vm_compute. Qed.

(** Closing a stream that was shut down fails. *)
Example close_after_shutdown :
  (s ← open [] [] 0 100;
   '(res, _, s) ← z_stream_gzip_shutdown_method false s SHUT_RDWR;
   '(st, s) ← z_stream_gzip_close_method false G_IO_STATUS_NORMAL s;
   Done (res, st)) = Done (G_IO_STATUS_NORMAL, G_IO_STATUS_ERROR).
Proof. by vm_compute. Qed.

(** An extra field cannot be set. *)
Example no_extra_field now ts name text len (s : ZStreamGzip pipe (list Z) (option bool)) :
  0 < len → z_stream_gzip_set_header_fields now ts name text len s = Fault OutOfBounds.
Proof. intros Hl. unfold z_stream_gzip_set_header_fields. by rewrite (proj2 (Z.ltb_lt _ _)). Qed.

(** A read may succeed without a byte, in the middle of the data. *)
Example read_of_nothing :
  (s ← open [1; 5; 0] [] 0 1;
   '(st, l, _, s) ← z_stream_gzip_read_method (E := unit) s 10;
   '(st2, l2, _, s) ← z_stream_gzip_read_method (E := unit) s 10;
   Done (st, l, st2, l2)) = Done (G_IO_STATUS_NORMAL, [], G_IO_STATUS_NORMAL, [5]).
Proof. by vm_compute. Qed.

(** A name that fills the buffer: the byte behind it is not initialised.  When it happens to be 0, the rest
    of the name is taken for the comment. *)
Example long_name :
  (s ← open ([31; 139; 8; 24; 0; 0; 0; 0; 0; 3] ++ replicate 4097 65 ++ [0] ++ [66; 0]) [] Z_SGZ_GZIP_HEADER 100;
   '(ok, s) ← z_stream_gzip_fetch_header s;
   Done (ok, gzip_comment (header s), to_come (gz_child s))) = Done (true, Some [65; 65], [66; 0]).
Proof. by vm_compute. Qed.

(** When the child becomes writeable all is written, but the child is still told to wait for that,
    until the next write: the main loop does not sleep. *)
Example writes_nothing_again :
  (s ← open [] [Full] 0 100;
   '(_, _, _, s) ← z_stream_gzip_write_method 10 s [5];
   s ← z_stream_gzip_write_callback s;
   Done (pout (gz_child s), drop (Z.to_nat (enc_p s)) (enc_out s),
         z_stream_gzip_watch_prepare (mkWatch false false false) s)) = Done ([1; 5], [], (false, -1, false, true)).
Proof. by vm_compute. Qed.
End ToyPipe.

(** A child that never fails. *)
Module ToyTank.
Import ToyZlib.
Record tank := mkTank { tin : list Z; tout : list Z }.

#[export] Instance tank_read : ZStreamOps tank := {
  child_read c t n :=
    match tin c with
    | [] => (G_IO_STATUS_EOF, [], c)
    | _ => (G_IO_STATUS_NORMAL, take (Z.to_nat n) (tin c), mkTank (drop (Z.to_nat n) (tin c)) (tout c))
    end;
  to_come := tin
}.

#[export] Instance tank_laws : ZStreamLaws tank.
Proof.
  split.
  - intros [i o] t n l c' Hn. cbn. destruct i as [|x i]; [done|]. intros [= <- <-]. cbn [tin].
    split; [destruct (Z.to_nat n) eqn:E; [lia|done]|]. split; [rewrite length_take; lia|by rewrite take_drop].
  - intros [i o] t n l c'. cbn. destruct i; by intros [= _ <-].
  - intros [i o] t n l c'. cbn. by destruct i.
Qed.

#[export] Instance tank_write : ZStreamWriteOps tank unit := {
  child_write c l := (G_IO_STATUS_NORMAL, zlen l, None, mkTank (tin c) (tout c ++ l));
  child_set_timeout c _ := c;
  child_set_nonblock c _ := c;
  child_shutdown c _ := (G_IO_STATUS_NORMAL, None, c);
  written := tout
}.

#[export] Instance tank_write_laws : ZStreamWriteLaws tank unit.
Proof.
  split; try done.
  - intros c l n err c'. cbn. intros [= <- <- <-]. cbn. split; [lia|]. by rewrite Nat2Z.id, firstn_all.
  - intros c l st n err c'. cbn. by intros [= <- _ _ _].
  - intros c i st err c'. cbn. by intros [= _ _ <-].
Qed.

Lemma tank_writes : good_writer (CW := tank) (E := unit).
Proof.
  split.
  - intros c c' l st n err. cbn. intros [= <- <- _ _]. split; [done|]. destruct l; [done|cbn; lia].
  - intros c c' l n err. cbn. by intros [= <- _ _].
  - intros c c' l n err. cbn. by intros [= _ <- _].
  - intros c c' st err. cbn. by intros [= <- _ _].
Qed.

Lemma tank_reads : good_reader (CR := tank).
Proof.
  split.
  - intros c c' t n st l. cbn. destruct (tin c); intros [= <- _ _]; auto.
  - intros c c' t n st l. cbn. destruct (tin c); by intros [= <- <- _].
Qed.

(** The same with a tap, which is closed for some writes. *)
Definition tap : Type := tank * list bool.

#[export] Instance tap_read : ZStreamOps tap := {
  child_read c t n := let '(st, l, c') := child_read (fst c) t n in (st, l, (c', snd c));
  to_come c := to_come (fst c)
}.

#[export] Instance tap_laws : ZStreamLaws tap.
Proof.
  split.
  - intros [c a] t n l [c' a'] Hn. unfold child_read, to_come, tap_read. cbn [fst snd].
    destruct (child_read c t n) as [[st1 l1] c1] eqn:E. intros [= -> -> -> <-]. by apply (read_normal _ _ _ _ _ Hn E).
  - intros [c a] t n l [c' a']. unfold child_read, to_come, tap_read. cbn [fst snd].
    destruct (child_read c t n) as [[st1 l1] c1] eqn:E. intros [= -> -> -> <-]. by apply (read_eof _ _ _ _ _ E).
  - intros [c a] t n l [c' a']. unfold child_read, to_come, tap_read. cbn [fst snd].
    destruct (child_read c t n) as [[st1 l1] c1] eqn:E. intros [= -> -> -> <-]. by apply (read_again _ _ _ _ _ E).
Qed.

#[export] Instance tap_write : ZStreamWriteOps tap unit := {
  child_write c l :=
    match snd c with
    | true :: a => (G_IO_STATUS_AGAIN, 0, None, (fst c, a))
    | a => (G_IO_STATUS_NORMAL, zlen l, None, (mkTank (tin (fst c)) (tout (fst c) ++ l), tail a))
    end;
  child_set_timeout c _ := c;
  child_set_nonblock c _ := c;
  child_shutdown c _ := (G_IO_STATUS_NORMAL, None, c);
  written c := tout (fst c)
}.

#[export] Instance tap_write_laws : ZStreamWriteLaws tap unit.
Proof.
  split; try done.
  - intros [c [|[] a]] l n err c'; cbn; [|done|]; intros [= <- _ <-]; cbn; (split; [lia|]); by rewrite Nat2Z.id, firstn_all.
  - intros [c [|[] a]] l st n err c'; cbn; [by intros [= <- _ _ _]|by intros [= _ _ _ <-]|by intros [= <- _ _ _]].
  - intros c i st err c'. cbn. by intros [= _ _ <-].
Qed.

End ToyTank.
Import ToyZlib ToyTank.
#[export] Instance gzip_memory : FreshMem := zero_mem.




Definition sent_header : gzip_header := new_header 77 0 (Some (str "file")) (Some (str "a comment")).

Lemma sent_header_ok : header_ok sent_header.
Proof. split; cbn; [lia|done|split; [by repeat constructor|done]|split; [by repeat constructor|done]]. Qed.

Lemma gzip_roundtrip_witness :
  settles (λ fuel, s ← new_writer (D := list Z) (I := option bool) (mkTank [] []) 0 false Z_SGZ_GZIP_HEADER 1 4 77 0 (Some (str "file")) (Some (str "a comment"));
                   run_writes (E := unit) fuel s (GzWrite <$> [[5; 6; 7]; [8]])) (λ '(acc, sts, s),
    acc = [5; 6; 7; 8] ∧ Forall (λ st, st = G_IO_STATUS_NORMAL) sts).
Proof.
  pose proof (gzip_roundtrip (D := list Z) (I := option bool) (CR := tank) (E := unit) (mkTank [] []) 0 false Z_SGZ_GZIP_HEADER 1 4 77 0 (Some (str "file")) (Some (str "a comment")) [[5; 6; 7]; [8]]
    tank_writes tank_reads eq_refl ltac:(by right) ltac:(done) (λ _, sent_header_ok) ltac:(done) ltac:(repeat constructor; done)) as Hr.
  eapply settles_mono; [exact Hr|]. intros [[acc sts] s] (Hacc & Hsts & _). split; [exact Hacc|exact Hsts].
Defined.

(** The whole way, run: header, data and trailer, read back in small pieces. *)
Example gzip_there_and_back :
  (s ← new_writer (D := list Z) (I := option bool) (mkTank [] []) 0 false Z_SGZ_GZIP_HEADER 1 100 77 0 (Some (str "f")) None;
   '(acc, _, s) ← run_writes (E := unit) 10 s [GzWrite [5; 6]; GzWrite [7]];
   '(res, _, s) ← z_stream_gzip_shutdown_method (E := unit) false s SHUT_RDWR;
   x ← z_stream_gzip_new (D := list Z) (I := option bool) (mkTank (tout (gz_child s)) []) 0 false Z_SGZ_GZIP_HEADER 1 2;
   '(data, sts, x) ← run_reads unit x (replicate 10 1);
   Done (res, data, gzip_origname (header x), last sts, drop 12 (tout (gz_child s)))) =
  Done (G_IO_STATUS_NORMAL, [5; 6; 7], Some (str "f"), Some G_IO_STATUS_EOF, [1; 5; 1; 6; 1; 7; 0] ++ [18; 0; 0; 0; 3; 0; 0; 0]).
Proof. by vm_compute. Qed.

Definition gz_header_writer : ZStreamGzip tank (list Z) (option bool) := mkGz (mkTank [] []) 0 Z_SGZ_GZIP_HEADER [] [] 0 (Some false) [] 4 0 0 0 0 0 sent_header.
Definition gz_header_reader : ZStreamGzip tank (list Z) (option bool) :=
  mkGz (mkTank (header_bytes sent_header ++ [1; 2]) []) 0 Z_SGZ_GZIP_HEADER [] [] 0 (Some false) [] 4 0 0 0 0 0 (mkHeader 0 0 None None None).

Lemma gzip_header_roundtrip_witness :
  returns (z_stream_gzip_write_gzip_header (E := unit) None gz_header_writer) (λ '(ok, _, w'),
    ok = true ∧ ∃ sent, written (E := unit) (gz_child w') = [] ++ sent ∧
    (to_come (gz_child gz_header_reader) = sent ++ [1; 2] → returns (z_stream_gzip_fetch_header gz_header_reader) (λ '(ok, r'),
       ok = true ∧ z_stream_gzip_get_header_fields r' = z_stream_gzip_get_header_fields gz_header_writer ∧ to_come (gz_child r') = [1; 2]))).
Proof.
  exact (gzip_header_roundtrip gz_header_writer gz_header_reader [1; 2] (gw_reliable tank_writes) (gr_reliable tank_reads) sent_header_ok
    eq_refl eq_refl eq_refl eq_refl).
Defined.
