(* ===== verification/SockAddr.v ===== *)
(** * Socket addresses (src/src/sockaddr.c, src/src/zorp/sockaddr.h)

    Addresses of the three families and the ones that stand for a range of ports.  The
    numbers of an address and of a port are kept in host order, as ntohl and ntohs give
    them.  The functions of the C library that read and print addresses, and the random
    number for a range, are arguments. *)

From S2P Require Import Prelude RefCount CLib.
Open Scope Z_scope.

(** struct sockaddr, sockaddr_in, sockaddr_in6 and sockaddr_un; sun_path has 108 bytes. *)
Inductive sockaddr : Type :=
| AF_INET (sin_addr sin_port : Z)
| AF_INET6 (sin6_addr : list Z) (sin6_port : Z)
| AF_UNIX (sun_path : list Z)
| AF_OTHER (sa_family : Z).

#[global] Instance sockaddr_eq_dec : EqDecision sockaddr.
Proof. solve_decision. Defined.

Definition SUN_PATH_LEN : Z := 108.

(** The tables of methods. *)
Inductive ZSockAddrFuncs : Set :=
| inet_sockaddr_funcs | inet_range_sockaddr_funcs | inet6_sockaddr_funcs | unix_sockaddr_funcs.

#[global] Instance ZSockAddrFuncs_eq_dec : EqDecision ZSockAddrFuncs.
Proof. solve_decision. Defined.

(** All classes have the fields of ZSockAddr; the ports are those of a ZSockAddrInetRange. *)
Record ZSockAddr := mkSockAddr {
  refcnt : Z; flags : Z; sa_funcs : ZSockAddrFuncs; salen : Z; sa : sockaddr;
  min_port : Z; max_port : Z; last_port : Z
}.

Definition with_sa (x : sockaddr) (a : ZSockAddr) : ZSockAddr :=
  mkSockAddr (refcnt a) (flags a) (sa_funcs a) (salen a) x (min_port a) (max_port a) (last_port a).
Definition with_last (p : Z) (a : ZSockAddr) : ZSockAddr :=
  mkSockAddr (refcnt a) (flags a) (sa_funcs a) (salen a) (sa a) (min_port a) (max_port a) p.
Definition with_refcnt (n : Z) (a : ZSockAddr) : ZSockAddr :=
  mkSockAddr n (flags a) (sa_funcs a) (salen a) (sa a) (min_port a) (max_port a) (last_port a).

Definition sockaddr_family (x : sockaddr) : Z :=
  match x with AF_UNIX _ => 1 | AF_INET _ _ => 2 | AF_INET6 _ _ => 10 | AF_OTHER f => f end.

(** The string in an array of bytes, and a string in an array of [n] bytes (g_strlcpy). *)
Fixpoint c_string (l : list Z) : list Z :=
  match l with [] => [] | c :: r => if c =? 0 then [] else c :: c_string r end.
Definition pad_to (n : Z) (l : list Z) : list Z := l ++ replicate (Z.to_nat (n - zlen l)) 0.
Definition strlcpy (n : Z) (s : list Z) : list Z := pad_to n (take (Z.to_nat (n - 1)) s).

(** What g_snprintf leaves in a buffer of [n] bytes. *)
Definition printed (n : Z) (s : list Z) : list Z := take (Z.to_nat (n - 1)) s.

Section sockaddr.
Context (inet_aton : list Z → option Z) (inet_pton : list Z → option (list Z)) (inet_ntop : list Z → list Z).

Definition octet (ip k : Z) : list Z := print_dec (Z.land (Z.shiftr ip k) 255).

Definition z_inet_ntoa (bufsize ip : Z) : list Z :=
  printed bufsize (octet ip 24 ++ str "." ++ octet ip 16 ++ str "." ++ octet ip 8 ++ str "." ++ octet ip 0).

Definition z_inet_aton (buf : list Z) : option Z := inet_aton buf.

(** ** AF_INET *)

Definition z_sockaddr_inet_new2 (sinaddr : sockaddr) : ZSockAddr :=
  mkSockAddr 1 0 inet_sockaddr_funcs 16 sinaddr 0 0 0.

Definition z_sockaddr_inet_new (ip : list Z) (port : Z) : option ZSockAddr :=
  match z_inet_aton ip with
  | None => None
  | Some netaddr => Some (mkSockAddr 1 0 inet_sockaddr_funcs 16 (AF_INET netaddr port) 0 0 0)
  end.

(** [resolved]: the first address that gethostbyname_r finds. *)
Definition z_sockaddr_inet_new_hostname (resolved : option Z) (port : Z) : option ZSockAddr :=
  match resolved with
  | None => None
  | Some a => z_sockaddr_inet_new (z_inet_ntoa 32 a) port
  end.

Definition z_sockaddr_inet_clone (addr : ZSockAddr) (wildcard : bool) : ZSockAddr :=
  let self := with_refcnt 1 addr in
  match sa self with
  | AF_INET a p => if wildcard then with_sa (AF_INET a 0) self else self
  | _ => self
  end.

Definition z_sockaddr_inet_format (addr : ZSockAddr) (n : Z) : list Z :=
  match sa addr with
  | AF_INET a p => printed n (str "AF_INET(" ++ z_inet_ntoa 32 a ++ str ":" ++ print_dec p ++ str ")")
  | _ => []
  end.

Definition z_sockaddr_inet_equal (self other : ZSockAddr) : outcome bool :=
  match sa self, sa other with
  | AF_INET a p, AF_INET a' p' => Done ((a =? a') && (p =? p'))
  | _, _ => Fault AssertFailed
  end.

Definition z_sockaddr_inet_check (s : ZSockAddr) : bool :=
  bool_decide (sa_funcs s = inet_sockaddr_funcs) || bool_decide (sa_funcs s = inet_range_sockaddr_funcs).

Definition z_sockaddr_inet_get_address (s : ZSockAddr) : outcome Z :=
  _ ← require (z_sockaddr_inet_check s = true) AssertFailed;
  match sa s with AF_INET a _ => Done a | _ => Fault AssertFailed end.
Definition z_sockaddr_inet_set_address (s : ZSockAddr) (addr : Z) : outcome ZSockAddr :=
  _ ← require (z_sockaddr_inet_check s = true) AssertFailed;
  match sa s with AF_INET _ p => Done (with_sa (AF_INET addr p) s) | _ => Fault AssertFailed end.
Definition z_sockaddr_inet_get_port (s : ZSockAddr) : outcome Z :=
  _ ← require (z_sockaddr_inet_check s = true) AssertFailed;
  match sa s with AF_INET _ p => Done p | _ => Fault AssertFailed end.
Definition z_sockaddr_inet_set_port (s : ZSockAddr) (port : Z) : outcome ZSockAddr :=
  _ ← require (z_sockaddr_inet_check s = true) AssertFailed;
  match sa s with AF_INET a _ => Done (with_sa (AF_INET a port) s) | _ => Fault AssertFailed end.

(** ** Ranges of ports *)

(** [rand]: what rand() returns. *)
Definition z_sockaddr_inet_range_new_inaddr (rand addr minp maxp : Z) : ZSockAddr :=
  let last := if minp <? maxp then u16 (u16 (rand `mod` (maxp - minp)) + minp)
              else if maxp =? minp then minp else 0 in
  mkSockAddr 1 0 inet_range_sockaddr_funcs 16 (AF_INET addr 0) minp maxp last.

Definition z_sockaddr_inet_range_new (rand : Z) (ip : list Z) (minp maxp : Z) : option ZSockAddr :=
  match z_inet_aton ip with
  | None => None
  | Some netaddr => Some (z_sockaddr_inet_range_new_inaddr rand netaddr minp maxp)
  end.

Definition z_sockaddr_inet_range_clone (rand : Z) (addr : ZSockAddr) (wildcard : bool) : ZSockAddr :=
  let self := with_refcnt 1 addr in
  if min_port self <? max_port self
  then with_last (u16 (u16 rand `mod` (max_port self - min_port self) + min_port self)) self
  else if max_port self =? min_port self then with_last (min_port self) self
  else self.

(** ** AF_INET6 *)

(** An address that cannot be read leaves the zeros of the new structure. *)
Definition z_sockaddr_inet6_new (ip : list Z) (port : Z) : ZSockAddr :=
  mkSockAddr 1 0 inet6_sockaddr_funcs 28 (AF_INET6 (default (replicate 16 0) (inet_pton ip)) port) 0 0 0.

Definition z_sockaddr_inet6_new2 (sin6 : sockaddr) : ZSockAddr :=
  mkSockAddr 1 0 inet6_sockaddr_funcs 28 sin6 0 0 0.

Definition z_sockaddr_inet6_clone (addr : ZSockAddr) (wildcard : bool) : ZSockAddr :=
  let self := with_refcnt 1 addr in
  match sa self with
  | AF_INET6 a p => if wildcard then with_sa (AF_INET6 a 0) self else self
  | _ => self
  end.

Definition z_sockaddr_inet6_format (addr : ZSockAddr) (n : Z) : list Z :=
  match sa addr with
  | AF_INET6 a p => printed n (str "AF_INET6(" ++ printed 64 (inet_ntop a) ++ str ":" ++ print_dec p ++ str ")")
  | _ => []
  end.

Definition z_sockaddr_inet6_equal (self other : ZSockAddr) : outcome bool :=
  match sa self, sa other with
  | AF_INET6 a p, AF_INET6 a' p' => Done (bool_decide (a = a') && (p =? p'))
  | _, _ => Fault AssertFailed
  end.

(** ** AF_UNIX *)

Definition z_sockaddr_unix_new (name : option (list Z)) : ZSockAddr :=
  match name with
  | Some name =>
      let path := strlcpy SUN_PATH_LEN name in
      mkSockAddr 1 0 unix_sockaddr_funcs (2 + zlen (c_string path) + 1) (AF_UNIX path) 0 0 0
  | None => mkSockAddr 1 0 unix_sockaddr_funcs 2 (AF_UNIX (pad_to SUN_PATH_LEN [])) 0 0 0
  end.

(** [path]: the bytes behind the family in a structure of [sunlen] bytes, which is copied
    into one of 110 bytes. *)
Definition z_sockaddr_unix_new2 (path : list Z) (sunlen : Z) : outcome ZSockAddr :=
  _ ← require (sunlen ≤ 2 + SUN_PATH_LEN) OutOfBounds;
  Done (mkSockAddr 1 0 unix_sockaddr_funcs (2 + SUN_PATH_LEN)
          (AF_UNIX (pad_to SUN_PATH_LEN (take (Z.to_nat (sunlen - 2)) path))) 0 0 0).

Definition z_sockaddr_unix_clone (addr : ZSockAddr) (wildcard : bool) : ZSockAddr := with_refcnt 1 addr.

Definition z_sockaddr_unix_format (addr : ZSockAddr) (n : Z) : list Z :=
  match sa addr with
  | AF_UNIX path =>
      printed n (str "AF_UNIX(" ++ (if (2 <? salen addr) && negb (cur path =? 0) then c_string path else str "anonymous")
                 ++ str ")")
  | _ => []
  end.

Definition z_sockaddr_unix_equal (self other : ZSockAddr) : outcome bool :=
  match sa self, sa other with
  | AF_UNIX p, AF_UNIX p' => Done (bool_decide (c_string p = c_string p'))
  | _, _ => Fault AssertFailed
  end.

Definition z_sockaddr_unix_check (s : ZSockAddr) : bool := bool_decide (sa_funcs s = unix_sockaddr_funcs).

(** ** The virtual calls *)

Definition z_sockaddr_new (x : sockaddr) (len : Z) : outcome (option ZSockAddr) :=
  match x with
  | AF_INET6 _ _ => Done (if 28 <=? len then Some (z_sockaddr_inet6_new2 x) else None)
  | AF_INET _ _ => Done (if len =? 16 then Some (z_sockaddr_inet_new2 x) else None)
  | AF_UNIX path => a ← z_sockaddr_unix_new2 path len; Done (Some a)
  | AF_OTHER _ => Done None
  end.

Definition z_sockaddr_format (a : ZSockAddr) (n : Z) : list Z :=
  match sa_funcs a with
  | inet_sockaddr_funcs | inet_range_sockaddr_funcs => z_sockaddr_inet_format a n
  | inet6_sockaddr_funcs => z_sockaddr_inet6_format a n
  | unix_sockaddr_funcs => z_sockaddr_unix_format a n
  end.

Definition z_sockaddr_equal (a b : ZSockAddr) : outcome bool :=
  if sockaddr_family (sa a) =? sockaddr_family (sa b) then
    match sa_funcs a with
    | inet_sockaddr_funcs | inet_range_sockaddr_funcs => z_sockaddr_inet_equal a b
    | inet6_sockaddr_funcs => z_sockaddr_inet6_equal a b
    | unix_sockaddr_funcs => z_sockaddr_unix_equal a b
    end
  else Done false.

Definition z_sockaddr_clone (rand : Z) (a : ZSockAddr) (wildcard : bool) : ZSockAddr :=
  match sa_funcs a with
  | inet_sockaddr_funcs => z_sockaddr_inet_clone a wildcard
  | inet_range_sockaddr_funcs => z_sockaddr_inet_range_clone rand a wildcard
  | inet6_sockaddr_funcs => z_sockaddr_inet6_clone a wildcard
  | unix_sockaddr_funcs => z_sockaddr_unix_clone a wildcard
  end.

Definition z_sockaddr_ref (a : option ZSockAddr) : outcome (option ZSockAddr) :=
  match a with
  | Some a => n ← z_refcount_inc (refcnt a); Done (Some (with_refcnt n a))
  | None => Done None
  end.

(** [None]: the address was freed. *)
Definition z_sockaddr_unref (a : option ZSockAddr) : outcome (option ZSockAddr) :=
  match a with
  | Some a => '(zero, n) ← z_refcount_dec (refcnt a); Done (if zero : bool then None else Some (with_refcnt n a))
  | None => Done None
  end.
End sockaddr.

(** ** Well-formed addresses *)

Definition sa_ok (x : sockaddr) : Prop :=
  match x with
  | AF_INET a p => 0 ≤ a < 2 ^ 32 ∧ 0 ≤ p < 2 ^ 16
  | AF_INET6 a p => zlen a = 16 ∧ 0 ≤ p < 2 ^ 16
  | AF_UNIX path => zlen path = SUN_PATH_LEN
  | AF_OTHER f => f ∉ [1; 2; 10]
  end.

(** The methods fit the family, and a range has its last port where binding may start. *)
Definition addr_ok (a : ZSockAddr) : Prop :=
  sa_ok (sa a) ∧
  match sa_funcs a, sa a with
  | inet_sockaddr_funcs, AF_INET _ _ => True
  | inet_range_sockaddr_funcs, AF_INET _ _ =>
      0 ≤ min_port a < 2 ^ 16 ∧ 0 ≤ max_port a < 2 ^ 16 ∧
      (min_port a ≤ max_port a → min_port a ≤ last_port a ≤ max_port a + 1)
  | inet6_sockaddr_funcs, AF_INET6 _ _ => True
  | unix_sockaddr_funcs, AF_UNIX _ => True
  | _, _ => False
  end.

Lemma pad_to_length n l : zlen l ≤ n → zlen (pad_to n l) = n.
Proof. intros. unfold pad_to. rewrite length_app, length_replicate. lia. Qed.

Lemma strlcpy_length n s : 0 < n → zlen (strlcpy n s) = n.
Proof. intros. apply pad_to_length. rewrite length_take. lia. Qed.

Lemma mod_between r lo hi : 0 ≤ lo → lo < hi < 2 ^ 16 → lo ≤ u16 (u16 (r `mod` (hi - lo)) + lo) < hi.
Proof.
  intros. pose proof (Z.mod_pos_bound r (hi - lo) ltac:(lia)). unfold u16.
  rewrite (Z.mod_small (r `mod` (hi - lo))) by lia. rewrite Z.mod_small by lia. lia.
Qed.

Lemma range_last r lo hi :
  0 ≤ lo < 2 ^ 16 → 0 ≤ hi < 2 ^ 16 → lo ≤ hi →
  lo ≤ (if lo <? hi then u16 (u16 (r `mod` (hi - lo)) + lo) else if hi =? lo then lo else 0) ≤ hi + 1.
Proof.
  intros Hlo Hhi Hle. destruct (lo <? hi) eqn:E; [pose proof (mod_between r lo hi); lia|].
  destruct (hi =? lo) eqn:E2; lia.
Qed.

Lemma range_last_clone r lo hi d :
  0 ≤ lo < 2 ^ 16 → 0 ≤ hi < 2 ^ 16 → lo ≤ hi →
  lo ≤ (if lo <? hi then u16 (u16 r `mod` (hi - lo) + lo) else if hi =? lo then lo else d) ≤ hi + 1.
Proof.
  intros Hlo Hhi Hle. destruct (lo <? hi) eqn:E; [|destruct (hi =? lo) eqn:E2; lia].
  pose proof (Z.mod_pos_bound (u16 r) (hi - lo) ltac:(lia)). set (m := u16 r `mod` (hi - lo)) in *.
  unfold u16. rewrite Z.mod_small by lia. lia.
Qed.

(** Every address that is made is well formed and has one reference, whichever way it is
    made, as long as the structures of the system and the ports are. *)
Theorem sockaddr_new_ok inet_aton inet_pton x len path rand ip minp maxp name port :
  sa_ok x → (∀ s a, inet_aton s = Some a → 0 ≤ a < 2 ^ 32) → (∀ s l, inet_pton s = Some l → zlen l = 16) →
  0 ≤ port < 2 ^ 16 → 0 ≤ minp < 2 ^ 16 → 0 ≤ maxp < 2 ^ 16 → zlen path ≤ SUN_PATH_LEN →
  let made a := addr_ok a ∧ refcnt a = 1 in
  match z_sockaddr_new x len with Done (Some a) => made a | Done None => True | Fault _ => 110 < len end ∧
  match z_sockaddr_unix_new2 path len with Done a => made a | Fault _ => 110 < len end ∧
  (∀ a, z_sockaddr_inet_new inet_aton ip port = Some a → made a) ∧
  (∀ a, z_sockaddr_inet_range_new inet_aton rand ip minp maxp = Some a → made a) ∧
  made (z_sockaddr_inet6_new inet_pton ip port) ∧ made (z_sockaddr_unix_new name).
Proof.
  intros Hx Hat Hpt Hp Hmin Hmax Hpath made.
  assert (Hunix : ∀ path l, match z_sockaddr_unix_new2 path l with Done a => made a | Fault _ => 110 < l end).
  { intros q l. unfold z_sockaddr_unix_new2, SUN_PATH_LEN. destruct (decide (l ≤ 2 + 108)) as [Hl|Hl].
    - rewrite require_true, Done_bind by done. split; [|done]. split; [|done]. cbn. apply pad_to_length.
      unfold SUN_PATH_LEN. rewrite length_take. lia.
    - unfold require. rewrite decide_False by done. cbn. lia. }
  split; [|split; [apply Hunix|split; [|split; [|split]]]].
  - destruct x as [a p|a p|q|f]; cbn [z_sockaddr_new].
    + destruct (len =? 16); [|done]. by split.
    + destruct (28 <=? len); [|done]. by split.
    + specialize (Hunix q len). destruct (z_sockaddr_unix_new2 q len); [|done]. done.
    + done.
  - unfold z_sockaddr_inet_new, z_inet_aton. intros a. destruct (inet_aton ip) as [v|] eqn:E; [|done]. intros [= <-].
    split; [|done]. split; [|done]. split; [by eapply Hat|done].
  - unfold z_sockaddr_inet_range_new, z_inet_aton. intros a. destruct (inet_aton ip) as [v|] eqn:E; [|done]. intros [= <-].
    split; [|done]. split; [split; [by eapply Hat|done]|]. cbn. split; [done|]. split; [done|]. by apply range_last.
  - split; [|done]. split; [|done]. cbn. split; [|done].
    destruct (inet_pton ip) as [l|] eqn:E; [by eapply Hpt|done].
  - split; [|by destruct name]. destruct name as [s|]; (split; [|done]); [by apply strlcpy_length|by apply pad_to_length].
Qed.

(** A clone is another address with one reference; it is equal to the original, unless the
    port was to be left open, and then it has the same host; a range may start anywhere
    between its ports. *)
Theorem sockaddr_clone_spec rand a wildcard :
  addr_ok a →
  let c := z_sockaddr_clone rand a wildcard in
  addr_ok c ∧ refcnt c = 1 ∧ sa_funcs c = sa_funcs a ∧ min_port c = min_port a ∧ max_port c = max_port a ∧
  (wildcard = false ∨ sa_funcs a = inet_range_sockaddr_funcs → z_sockaddr_equal a c = Done true) ∧
  (wildcard = true → match sa_funcs a, sa a, sa c with
     | inet_sockaddr_funcs, AF_INET h _, AF_INET h' p' => h' = h ∧ p' = 0
     | inet6_sockaddr_funcs, AF_INET6 h _, AF_INET6 h' p' => h' = h ∧ p' = 0
     | _, x, x' => x' = x
     end).
Proof.
  destruct a as [n fl fn sl x lo hi last]. intros [Hx Hfn]. cbn in Hx, Hfn.
  assert (Heq : ∀ A (x : A) `{EqDecision A}, bool_decide (x = x) = true) by (intros; by apply bool_decide_true).
  destruct fn, x as [h p|h p|q|f]; try done; unfold z_sockaddr_clone, z_sockaddr_inet_clone, z_sockaddr_inet6_clone,
    z_sockaddr_unix_clone, z_sockaddr_inet_range_clone; cbn [sa_funcs sa with_refcnt min_port max_port last_port].
  - destruct wildcard; (split; [split; [|done]; cbn; destruct Hx; split; lia|]); (split; [done|]); (split; [done|]);
      (split; [done|]); (split; [done|]); (split; [intros [?|?]; try done|intros; try done]).
    unfold z_sockaddr_equal, z_sockaddr_inet_equal. cbn. by rewrite !Z.eqb_refl.
  - destruct Hfn as (Hlo & Hhi & Hl).
    assert (Hsplit : ∀ l, (lo ≤ hi → lo ≤ l ≤ hi + 1) →
      let c := mkSockAddr 1 fl inet_range_sockaddr_funcs sl (AF_INET h p) lo hi l in
      addr_ok c ∧ refcnt c = 1 ∧ sa_funcs c = inet_range_sockaddr_funcs ∧ min_port c = lo ∧ max_port c = hi ∧
      (wildcard = false ∨ inet_range_sockaddr_funcs = inet_range_sockaddr_funcs →
         z_sockaddr_equal (mkSockAddr n fl inet_range_sockaddr_funcs sl (AF_INET h p) lo hi last) c = Done true) ∧
      (wildcard = true → sa c = AF_INET h p)).
    { intros l Hl2. split; [exact (conj Hx (conj Hlo (conj Hhi Hl2)))|]. do 4 (split; [done|]). split; [|done]. intros _.
      unfold z_sockaddr_equal, z_sockaddr_inet_equal. cbn. by rewrite !Z.eqb_refl. }
    pose proof (range_last_clone rand lo hi last Hlo Hhi) as Hr.
    destruct (lo <? hi) eqn:E; [apply Hsplit; intros; by apply Hr|].
    destruct (hi =? lo) eqn:E2; apply Hsplit; intros; [apply Hr|apply Hl]; done.
  - destruct wildcard; (split; [split; [|done]; cbn; destruct Hx; split; lia|]); (split; [done|]); (split; [done|]);
      (split; [done|]); (split; [done|]); (split; [intros [?|?]; try done|intros; try done]).
    unfold z_sockaddr_equal, z_sockaddr_inet6_equal. cbn. by rewrite Z.eqb_refl, Heq.
  - split; [done|]. do 4 (split; [done|]). split; [|done]. intros _.
    unfold z_sockaddr_equal, z_sockaddr_unix_equal. cbn. by rewrite Heq.
Qed.

(** ** Texts *)

Lemma print_dec_inj v w : 0 ≤ v < 10 ^ 20 → 0 ≤ w < 10 ^ 20 → print_dec v = print_dec w → v = w.
Proof. intros Hv Hw E. unfold print_dec in E. rewrite <- (dec_digits_value 20 v), <- (dec_digits_value 20 w), E by done. done. Qed.

Lemma dec_digits_length fuel : ∀ k v, 0 ≤ v < 10 ^ Z.of_nat (S k) → (length (dec_digits fuel v) ≤ S k)%nat.
Proof.
  induction fuel as [|fuel IH]; intros k v Hv; [cbn; lia|]. cbn [dec_digits]. rewrite length_app. cbn [length].
  case_decide; [cbn; lia|]. destruct k as [|k]; [cbn in Hv; lia|].
  enough (length (dec_digits fuel (v / 10)) ≤ S k)%nat by lia. apply IH.
  rewrite (Nat2Z.inj_succ (S k)), Z.pow_succ_r in Hv by lia. split; [apply Z.div_pos; lia|apply Z.div_lt_upper_bound; lia].
Qed.

Lemma print_dec_length k v : 0 ≤ v < 10 ^ Z.of_nat (S k) → (length (print_dec v) ≤ S k)%nat.
Proof. apply dec_digits_length. Qed.

Lemma print_dec_no v c : isdigit c = false → c ∉ print_dec v.
Proof.
  intros Hc Hin. pose proof (dec_digits_digits 20 v) as H. rewrite Forall_forall in H. unfold print_dec in Hin.
  rewrite (H c Hin) in Hc. done.
Qed.

(** A text ends where its first delimiter is, and starts behind its last. *)
Lemma delim_inj (c : Z) s1 s2 : ∀ r1 r2, c ∉ s1 → c ∉ s2 → s1 ++ c :: r1 = s2 ++ c :: r2 → s1 = s2 ∧ r1 = r2.
Proof.
  revert s2. induction s1 as [|x s1 IH]; intros [|y s2] r1 r2 H1 H2; cbn [app].
  - by intros [= ->].
  - intros [= -> _]. destruct H2. by left.
  - intros [= -> _]. destruct H1. by left.
  - intros [= -> E]. apply not_elem_of_cons in H1 as [_ H1], H2 as [_ H2]. by destruct (IH s2 r1 r2 H1 H2 E) as [-> ->].
Qed.

Lemma delim_inj_last (c : Z) s1 s2 r1 r2 : c ∉ r1 → c ∉ r2 → s1 ++ c :: r1 = s2 ++ c :: r2 → s1 = s2 ∧ r1 = r2.
Proof.
  intros H1 H2 E. apply (f_equal reverse) in E. rewrite !reverse_app, !reverse_cons, <- !app_assoc in E. cbn [app] in E.
  apply delim_inj in E as [E1 E2]; [|by rewrite elem_of_reverse..].
  split; [by apply (inj reverse)|by apply (inj reverse)].
Qed.

Definition octet_value (ip k : Z) : Z := Z.land (Z.shiftr ip k) 255.

Lemma octet_value_mod ip k : 0 ≤ k → octet_value ip k = (ip / 2 ^ k) `mod` 256.
Proof. intros. unfold octet_value. rewrite Z.shiftr_div_pow2 by done. by rewrite (Z.land_ones _ 8). Qed.

Lemma octet_value_range ip k : 0 ≤ k → 0 ≤ octet_value ip k < 256.
Proof. intros. rewrite octet_value_mod by done. apply Z.mod_pos_bound. lia. Qed.

Lemma octets_inj a b :
  0 ≤ a < 2 ^ 32 → 0 ≤ b < 2 ^ 32 → (∀ k, k ∈ [24; 16; 8; 0] → octet_value a k = octet_value b k) → a = b.
Proof.
  intros Ha Hb Heq. assert (Hk : ∀ k, k ∈ [24; 16; 8; 0] → (a / 2 ^ k) `mod` 256 = (b / 2 ^ k) `mod` 256).
  { intros k Hk. rewrite <- !octet_value_mod by (set_unfold; lia). by apply Heq. }
  pose proof (Hk 24 ltac:(set_solver)) as H3. pose proof (Hk 16 ltac:(set_solver)) as H2.
  pose proof (Hk 8 ltac:(set_solver)) as H1. pose proof (Hk 0 ltac:(set_solver)) as H0.
  assert (Hdm : ∀ x k, 0 ≤ k → x / 2 ^ k = 256 * (x / 2 ^ (k + 8)) + (x / 2 ^ k) `mod` 256).
  { intros x k Hk0. rewrite Z.pow_add_r, <- Z.div_div by lia. change (2 ^ 8) with 256. apply Z.div_mod. lia. }
  assert (Htop : a / 2 ^ 32 = b / 2 ^ 32) by (by rewrite !Z.div_small).
  pose proof (Hdm a 24) as A3. pose proof (Hdm b 24) as B3. pose proof (Hdm a 16) as A2. pose proof (Hdm b 16) as B2.
  pose proof (Hdm a 8) as A1. pose proof (Hdm b 8) as B1. pose proof (Hdm a 0) as A0. pose proof (Hdm b 0) as B0.
  change (24 + 8) with 32 in *. change (16 + 8) with 24 in *. change (8 + 8) with 16 in *. change (0 + 8) with 8 in *.
  rewrite Z.pow_0_r, !Z.div_1_r in *. lia.
Qed.

Lemma inet_ntoa_full ip : 0 ≤ ip → z_inet_ntoa 32 ip =
  print_dec (octet_value ip 24) ++ 46 :: print_dec (octet_value ip 16) ++ 46 ::
  print_dec (octet_value ip 8) ++ 46 :: print_dec (octet_value ip 0) ∧ zlen (z_inet_ntoa 32 ip) ≤ 15.
Proof.
  intros Hip. unfold z_inet_ntoa, printed, octet. fold (octet_value ip 24) (octet_value ip 16) (octet_value ip 8) (octet_value ip 0).
  assert (Hl : ∀ k, 0 ≤ k → (length (print_dec (octet_value ip k)) ≤ 3)%nat).
  { intros k Hk. apply print_dec_length. pose proof (octet_value_range ip k Hk). cbn. lia. }
  pose proof (Hl 24). pose proof (Hl 16). pose proof (Hl 8). pose proof (Hl 0). change (str ".") with [46].
  rewrite firstn_all2 by (rewrite !length_app; cbn [length]; lia).
  split; [done|]. rewrite !length_app. cbn [length]. lia.
Qed.

(** The dotted form determines the address. *)
Lemma inet_ntoa_inj a b :
  0 ≤ a < 2 ^ 32 → 0 ≤ b < 2 ^ 32 → z_inet_ntoa 32 a = z_inet_ntoa 32 b → a = b.
Proof.
  intros Ha Hb E. rewrite (proj1 (inet_ntoa_full a ltac:(lia))), (proj1 (inet_ntoa_full b ltac:(lia))) in E.
  assert (Hno : ∀ x, 46 ∉ print_dec x) by (intros; by apply print_dec_no).
  apply delim_inj in E as [E3 E]; [|done..]. apply delim_inj in E as [E2 E]; [|done..].
  apply delim_inj in E as [E1 E0]; [|done..].
  apply octets_inj; [done|done|]. intros k Hk.
  assert (0 ≤ k) as Hk0 by (set_unfold; lia). pose proof (octet_value_range a k Hk0). pose proof (octet_value_range b k Hk0).
  apply print_dec_inj; [lia..|]. set_unfold. by destruct Hk as [-> | [-> | [-> | [-> | []]]]].
Qed.

Section format.
Context (inet_ntop : list Z → list Z).
Hypothesis inet_ntop_inj : ∀ a b, zlen a = 16 → zlen b = 16 → inet_ntop a = inet_ntop b → a = b.
Hypothesis inet_ntop_length : ∀ a, zlen a = 16 → zlen (inet_ntop a) ≤ 45.

Definition internet (a : ZSockAddr) : Prop := match sa a with AF_INET _ _ | AF_INET6 _ _ => True | _ => False end.

Lemma format_inet a h p n :
  addr_ok a → sa a = AF_INET h p → 62 ≤ n →
  z_sockaddr_format inet_ntop a n = str "AF_INET(" ++ z_inet_ntoa 32 h ++ 58 :: print_dec p ++ [41] ∧
  (sa_funcs a = inet_sockaddr_funcs ∨ sa_funcs a = inet_range_sockaddr_funcs).
Proof.
  intros [Hx Hf] Ha Hn. rewrite Ha in *. destruct Hx as [Hh Hp].
  assert (Hfn : sa_funcs a = inet_sockaddr_funcs ∨ sa_funcs a = inet_range_sockaddr_funcs)
    by (destruct (sa_funcs a); (by left) || (by right) || done).
  split; [|done].
  assert (z_sockaddr_format inet_ntop a n = z_sockaddr_inet_format a n) as ->
    by (unfold z_sockaddr_format; by destruct Hfn as [-> | ->]).
  unfold z_sockaddr_inet_format, printed. rewrite Ha. pose proof (proj2 (inet_ntoa_full h ltac:(lia))).
  pose proof (print_dec_length 4 p ltac:(cbn; lia)). apply firstn_all2. change (str ")") with [41]. cbn [app]. rewrite !length_app. cbn [length]. rewrite !length_app. cbn [length].
  change (length (str "AF_INET(")) with 8%nat. lia.
Qed.

Lemma format_inet6 a h p n :
  addr_ok a → sa a = AF_INET6 h p → 62 ≤ n →
  z_sockaddr_format inet_ntop a n = str "AF_INET6(" ++ inet_ntop h ++ 58 :: print_dec p ++ [41] ∧
  sa_funcs a = inet6_sockaddr_funcs.
Proof.
  intros [Hx Hf] Ha Hn. rewrite Ha in *. destruct Hx as [Hh Hp].
  assert (Hfn : sa_funcs a = inet6_sockaddr_funcs) by (by destruct (sa_funcs a)).
  split; [|done]. unfold z_sockaddr_format. rewrite Hfn. unfold z_sockaddr_inet6_format, printed. rewrite Ha.
  pose proof (inet_ntop_length h Hh). pose proof (print_dec_length 4 p ltac:(cbn; lia)).
  rewrite (firstn_all2 (inet_ntop h)) by lia. apply firstn_all2. change (str ")") with [41]. cbn [app]. rewrite !length_app. cbn [length]. rewrite !length_app. cbn [length].
  change (length (str "AF_INET6(")) with 9%nat. lia.
Qed.

Lemma tail_inj p q s1 s2 : 0 ≤ p < 2 ^ 16 → 0 ≤ q < 2 ^ 16 →
  s1 ++ 58 :: print_dec p ++ [41] = s2 ++ 58 :: print_dec q ++ [41] → s1 = s2 ∧ p = q.
Proof.
  intros Hp Hq E. assert (Hno : ∀ x, 58 ∉ print_dec x ++ [41]).
  { intros x Hin. apply elem_of_app in Hin as [Hin|Hin]; [by apply (print_dec_no x 58)|set_solver]. }
  apply delim_inj_last in E as [-> E]; [|done..]. split; [done|].
  apply app_inj_tail in E as [E _]. apply print_dec_inj in E; [done|lia..].
Qed.

(** Two internet addresses have the same text exactly when they are equal: the same host and
    port, whatever their classes. *)
Theorem format_equal a b n :
  addr_ok a → addr_ok b → internet a → internet b → 62 ≤ n →
  (z_sockaddr_format inet_ntop a n = z_sockaddr_format inet_ntop b n ↔ z_sockaddr_equal a b = Done true).
Proof.
  intros Ha Hb Hia Hib Hn. pose proof Ha as [Hxa _]. pose proof Hb as [Hxb _]. unfold internet in Hia, Hib.
  destruct (sa a) as [h p|h p|q|f] eqn:Ea; try done; destruct (sa b) as [h' p'|h' p'|q'|f'] eqn:Eb; try done.
  - destruct (format_inet a h p n Ha Ea Hn) as [-> Hfa]. destruct (format_inet b h' p' n Hb Eb Hn) as [-> _].
    destruct Hxa, Hxb. unfold z_sockaddr_equal. rewrite Ea, Eb. cbn [sockaddr_family].
    assert (Hd : z_sockaddr_inet_equal a b = Done ((h =? h') && (p =? p'))) by (unfold z_sockaddr_inet_equal; by rewrite Ea, Eb).
    split.
    + intros E. apply app_inv_head, tail_inj in E as [E ->]; [|done..]. apply inet_ntoa_inj in E as ->; [|done..].
      rewrite !Z.eqb_refl in *. by destruct Hfa as [-> | ->].
    + intros E. assert ((h =? h') && (p =? p') = true) as Hand by (destruct Hfa as [Hf|Hf]; rewrite Hf in E; cbn in E; congruence).
      apply andb_true_iff in Hand as [?%Z.eqb_eq ?%Z.eqb_eq]. by subst.
  - destruct (format_inet a h p n Ha Ea Hn) as [-> _]. destruct (format_inet6 b h' p' n Hb Eb Hn) as [-> _].
    unfold z_sockaddr_equal. rewrite Ea, Eb. cbn [sockaddr_family]. by split; intros [=].
  - destruct (format_inet6 a h p n Ha Ea Hn) as [-> _]. destruct (format_inet b h' p' n Hb Eb Hn) as [-> _].
    unfold z_sockaddr_equal. rewrite Ea, Eb. cbn [sockaddr_family]. by split; intros [=].
  - destruct (format_inet6 a h p n Ha Ea Hn) as [-> Hfa]. destruct (format_inet6 b h' p' n Hb Eb Hn) as [-> _].
    destruct Hxa, Hxb. unfold z_sockaddr_equal. rewrite Ea, Eb, Hfa. cbn [sockaddr_family].
    unfold z_sockaddr_inet6_equal. rewrite Ea, Eb. split.
    + intros E. apply app_inv_head, tail_inj in E as [E ->]; [|done..]. apply inet_ntop_inj in E as ->; [|done..].
      by rewrite bool_decide_true, !Z.eqb_refl by reflexivity.
    + intros [= Hand]. apply andb_true_iff in Hand as [?%bool_decide_eq_true_1 ?%Z.eqb_eq]. by subst.
Qed.
End format.

(** ** Witnesses *)

Lemma sockaddr_new_ok_witness :
  let made a := addr_ok a ∧ refcnt a = 1 in
  match z_sockaddr_new (AF_INET 0x7F000001 8080) 16 with Done (Some a) => made a | Done None => True | Fault _ => 110 < 16 end ∧
  match z_sockaddr_unix_new2 (str "/tmp/x") 16 with Done a => made a | Fault _ => 110 < 16 end ∧
  (∀ a, z_sockaddr_inet_new (λ _, Some 5) (str "0.0.0.5") 80 = Some a → made a) ∧
  (∀ a, z_sockaddr_inet_range_new (λ _, Some 5) 77 (str "0.0.0.5") 1024 2000 = Some a → made a) ∧
  made (z_sockaddr_inet6_new (λ _, None) (str "::") 80) ∧ made (z_sockaddr_unix_new (Some (str "/tmp/y"))).
Proof.
  apply (sockaddr_new_ok (λ _, Some 5) (λ _, None) (AF_INET 0x7F000001 8080) 16 (str "/tmp/x") 77 (str "0.0.0.5") 1024 2000
    (Some (str "/tmp/y")) 80); try (by split); try done.
  intros s a [= <-]. lia.
Defined.

Definition some_range : ZSockAddr := z_sockaddr_inet_range_new_inaddr 77 5 1024 2000.

Lemma some_range_ok : addr_ok some_range.
Proof. split; [by repeat split|]. split; [done|]. split; [done|]. intros _. by vm_compute. Qed.

Lemma sockaddr_clone_spec_witness :
  let c := z_sockaddr_clone 1234 some_range true in
  addr_ok c ∧ refcnt c = 1 ∧ sa_funcs c = inet_range_sockaddr_funcs ∧ min_port c = 1024 ∧ max_port c = 2000 ∧
  (true = false ∨ sa_funcs some_range = inet_range_sockaddr_funcs → z_sockaddr_equal some_range c = Done true) ∧
  (true = true → match sa_funcs some_range, sa some_range, sa c with
     | inet_sockaddr_funcs, AF_INET h _, AF_INET h' p' => h' = h ∧ p' = 0
     | inet6_sockaddr_funcs, AF_INET6 h _, AF_INET6 h' p' => h' = h ∧ p' = 0
     | _, x, x' => x' = x
     end).
Proof. exact (sockaddr_clone_spec 1234 some_range true some_range_ok). Defined.

Definition local_addr (p : Z) : ZSockAddr := z_sockaddr_inet_new2 (AF_INET 0x7F000001 p).

Lemma format_equal_witness :
  (z_sockaddr_format (λ a, a) (local_addr 80) 128 = z_sockaddr_format (λ a, a) (local_addr 81) 128 ↔
   z_sockaddr_equal (local_addr 80) (local_addr 81) = Done true) ∧
  z_sockaddr_format (λ a, a) (local_addr 80) 128 = str "AF_INET(127.0.0.1:80)".
Proof.
  split; [|by vm_compute]. apply (format_equal (λ a, a)).
  - done.
  - intros a ->. done.
  - by repeat split.
  - by repeat split.
  - done.
  - done.
  - done.
Defined.

(** An address that is none is taken for the unspecified one. *)
Example inet6_new_takes_anything :
  sa (z_sockaddr_inet6_new (λ _, None) (str "not an address") 80) = AF_INET6 (replicate 16 0) 80.
Proof. done. Qed.

(** A structure of the system that is longer than a sockaddr_un is copied as a whole. *)
Example unix_new2_overflow : z_sockaddr_new (AF_UNIX (replicate 200 47)) 202 = Fault OutOfBounds.
Proof. done. Qed.
