(* ===== verification/Socket.v ===== *)
(** * Sockets (src/src/socket.c, src/src/cap.c, and binding to ranges in src/src/sockaddr.c)

    What the wrappers of the socket calls do around them.  The system is known by what it
    answers: whether an address can be bound, what accept and connect return, one answer per
    call.  Two-byte random numbers are a list that is used up. *)

From S2P Require Import Prelude StreamApi CLib SockAddr.
From stdpp Require Import list_numbers.
Open Scope Z_scope.

Definition ZSF_LOOSE_BIND : Z := 0x0001.
Definition ZSF_RANDOM_BIND : Z := 0x0010.

(** ** Capabilities (cap.c)

    The effective set of the process, and whether capabilities are used at all. *)
Record cap_state := mkCaps { zorp_caps : bool; effective : gset Z }.

Definition CAP_NET_BIND_SERVICE : Z := 10.
Definition CAP_NET_ADMIN : Z := 12.

Definition cap_modify (c : cap_state) (capability : Z) (onoff : bool) : bool * cap_state :=
  if zorp_caps c
  then (true, mkCaps true (if onoff then {[capability]} ∪ effective c else effective c ∖ {[capability]}))
  else (true, c).
Definition cap_enable (c : cap_state) (capability : Z) : cap_state := snd (cap_modify c capability true).

(** The set that cap_restore takes; NULL when capabilities are not used. *)
Definition cap_save (c : cap_state) : option (gset Z) := if zorp_caps c then Some (effective c) else None.
Definition cap_restore (c : cap_state) (r : option (gset Z)) : bool * cap_state :=
  if zorp_caps c then match r with Some e => (true, mkCaps true e) | None => (false, c) end else (true, c).

(** ** Binding to a port *)

(** bind() = 0, EADDRINUSE, or another error. *)
Inductive bind_result : Set := BindOk | BindInUse | BindError.

#[global] Instance bind_result_eq_dec : EqDecision bind_result.
Proof. solve_decision. Defined.

Section bind.
Context (bind : sockaddr → bind_result).

(** A group of ports: the first, the last, and the mask for random numbers. *)
Definition port_group (port : Z) : Z * Z * Z :=
  if port <? 512 then (1, 511, 0x01ff) else if port <? 1024 then (512, 1023, 0x01ff) else (1024, 65535, 0xffff).

(** Whether a port was bound, the address, and whether the search is over. *)
Fixpoint sequential_loop (range : nat) (addr port port_min port_max last : Z) : bool * Z :=
  match range with
  | O => (false, last)
  | S range =>
      let port := if port_max <? port then port_min else port in
      match bind (AF_INET addr port) with
      | BindOk => (true, port)
      | BindInUse => sequential_loop range addr (u16 (port + 1)) port_min port_max port
      | BindError => (false, port)
      end
  end.

(** A random port of the group: numbers are drawn until one fits. *)
Fixpoint draw_port (port_min port_max port_mask : Z) (rs : list Z) : outcome (Z * list Z) :=
  match rs with
  | [] => Fault OutOfFuel
  | r :: rs =>
      let port := u16 (Z.land (u16 r) port_mask + port_min) in
      if (port <? port_min) || (port_max <? port) then draw_port port_min port_max port_mask rs
      else Done (port, rs)
  end.

(** The random attempts: whether one succeeded, the last port, and the numbers left. *)
Fixpoint random_loop (limit : nat) (addr port port_min port_max port_mask : Z) (rs : list Z)
    : outcome (bool * Z * list Z) :=
  match limit with
  | O => Done (false, port, rs)
  | S limit =>
      '(port, rs) ← draw_port port_min port_max port_mask rs;
      match bind (AF_INET addr port) with
      | BindOk => Done (true, port, rs)
      | BindInUse => random_loop limit addr port port_min port_max port_mask rs
      | BindError => Done (false, port, rs)
      end
  end.

(** z_do_ll_bind: whether it succeeded, the address, and the random numbers left. *)
Definition z_do_ll_bind (rs : list Z) (x : sockaddr) (sock_flags : Z) : outcome (bool * sockaddr * list Z) :=
  match x with
  | AF_INET addr port0 =>
      if negb (has sock_flags ZSF_LOOSE_BIND) || (port0 =? 0)
      then Done (bool_decide (bind x = BindOk), x, rs)
      else
        let random := has sock_flags ZSF_RANDOM_BIND in
        let rc := bind x in
        if random || bool_decide (rc = BindInUse) then
          let '(port_min, port_max, port_mask) := port_group port0 in
          let range := port_max - port_min + 1 in
          '(found, port, rs) ←
            (if random then random_loop (Z.to_nat (range / 8)) addr (u16 (port0 + 1)) port_min port_max port_mask rs
             else Done (false, u16 (port0 + 1), rs));
          if found : bool then Done (true, AF_INET addr port, rs)
          else
            let '(found, port) := sequential_loop (Z.to_nat range) addr port port_min port_max port0 in
            Done (found, AF_INET addr port, rs)
        else Done (bool_decide (rc = BindOk), x, rs)
  | _ => Done (bool_decide (bind x = BindOk), x, rs)
  end.

(** ** Ranges

    The loops of z_sockaddr_inet_range_bind: from [port] up to max_port, in two bytes.  The
    port the socket was bound to is the one of the counter. *)
Fixpoint range_loop (fuel : nat) (rs : list Z) (self : ZSockAddr) (port sock_flags : Z)
    : outcome (bool * ZSockAddr * list Z) :=
  match fuel with
  | O => Fault OutOfFuel
  | S fuel =>
      if port <=? max_port self then
        match sa self with
        | AF_INET addr _ =>
            '(ok, x, rs) ← z_do_ll_bind rs (AF_INET addr port) sock_flags;
            let self := with_sa x self in
            if ok : bool then Done (true, with_last (u16 (port + 1)) self, rs)
            else range_loop fuel rs self (u16 (port + 1)) sock_flags
        | _ => Fault AssertFailed
        end
      else Done (false, self, rs)
  end.

Definition range_fuel : nat := Z.to_nat (2 ^ 16 + 1).

Definition z_sockaddr_inet_range_bind (rs : list Z) (self : ZSockAddr) (sock_flags : Z)
    : outcome (GIOStatus * ZSockAddr * list Z) :=
  if max_port self <? min_port self then Done (G_IO_STATUS_ERROR, self, rs)
  else
    '(ok, self, rs) ← range_loop range_fuel rs self (last_port self) sock_flags;
    if ok : bool then Done (G_IO_STATUS_NORMAL, self, rs)
    else
      '(ok, self, rs) ← range_loop range_fuel rs self (min_port self) sock_flags;
      if ok : bool then Done (G_IO_STATUS_NORMAL, self, rs)
      else Done (G_IO_STATUS_ERROR, with_last (min_port self) self, rs).
End bind.

(** ** z_bind

    [bind] is told the capabilities; [setsockopt] and [is_socket] are the answers to
    setsockopt and to stat. *)
Section z_bind.
Context (bind : gset Z → sockaddr → bind_result) (setsockopt : bool) (is_socket : list Z → bool).

(** The status, and the file that was removed. *)
Definition z_sockaddr_inet_bind_prepare (sock_flags : Z) : GIOStatus :=
  if negb (has sock_flags ZSF_LOOSE_BIND) && negb setsockopt then G_IO_STATUS_ERROR else G_IO_STATUS_NORMAL.

Definition z_sockaddr_unix_bind_prepare (path : list Z) : GIOStatus * option (list Z) :=
  if cur path =? 0 then (G_IO_STATUS_ERROR, None)
  else if is_socket (c_string path) then (G_IO_STATUS_NORMAL, Some (c_string path)) else (G_IO_STATUS_ERROR, None).

(** The prepare method of the class; its status is not used. *)
Definition bind_prepare (addr : ZSockAddr) (sock_flags : Z) : GIOStatus * option (list Z) :=
  match sa_funcs addr, sa addr with
  | inet_range_sockaddr_funcs, _ => (G_IO_STATUS_NORMAL, None)
  | unix_sockaddr_funcs, AF_UNIX path => z_sockaddr_unix_bind_prepare path
  | _, _ => (z_sockaddr_inet_bind_prepare sock_flags, None)
  end.

(** The status, the address, the file that was removed, and the capabilities. *)
Definition z_bind (c : cap_state) (rs : list Z) (addr : ZSockAddr) (sock_flags : Z)
    : outcome (GIOStatus * ZSockAddr * option (list Z) * cap_state) :=
  let saved_caps := cap_save c in
  let c := cap_enable c CAP_NET_BIND_SERVICE in
  let c := cap_enable c CAP_NET_ADMIN in
  let '(_, removed) := bind_prepare addr sock_flags in
  '(rc, addr) ←
    (if bool_decide (sa_funcs addr = inet_range_sockaddr_funcs) then
       '(rc, addr, _) ← z_sockaddr_inet_range_bind (bind (effective c)) rs addr sock_flags; Done (rc, addr)
     else
       '(ok, x, _) ← z_do_ll_bind (bind (effective c)) rs (sa addr) sock_flags;
       Done (if ok : bool then G_IO_STATUS_NORMAL else G_IO_STATUS_ERROR, with_sa x addr));
  Done (rc, addr, removed, snd (cap_restore c saved_caps)).
End z_bind.

(** ** Accepting and connecting *)

Inductive errno_value : Set := EINTR | EAGAIN | EINPROGRESS | EOTHER.

#[global] Instance errno_value_eq_dec : EqDecision errno_value.
Proof. solve_decision. Defined.

Definition MAGIC_FAMILY_NUMBER : Z := 111.
Definition SABUF_SIZE : Z := 1024.

(** What accept returns: a descriptor with the buffer and its length, or an error.  An
    address that the system did not fill in has the family that was put there before. *)
Inductive accept_result : Type := Accepted (newfd : Z) (x : sockaddr) (len : Z) | AcceptFailed (e : errno_value).

Fixpoint accept_loop (rs : list accept_result) : outcome (accept_result * list accept_result) :=
  match rs with
  | [] => Fault Blocked
  | AcceptFailed EINTR :: rs => accept_loop rs
  | r :: rs => Done (r, rs)
  end.

(** The status, and the descriptor and the address. *)
Definition z_accept (rs : list accept_result) : outcome (GIOStatus * option (Z * option ZSockAddr) * list accept_result) :=
  '(r, rs) ← accept_loop rs;
  match r with
  | Accepted newfd x len =>
      let '(x, len) := if (sockaddr_family x =? MAGIC_FAMILY_NUMBER) && (len =? SABUF_SIZE) then (AF_UNIX [], 2) else (x, len) in
      a ← z_sockaddr_new x len;
      Done (G_IO_STATUS_NORMAL, Some (newfd, a), rs)
  | AcceptFailed EAGAIN => Done (G_IO_STATUS_AGAIN, None, rs)
  | AcceptFailed _ => Done (G_IO_STATUS_ERROR, None, rs)
  end.

(** connect() = 0 or an error; the status and the errno that is left. *)
Fixpoint z_connect (rs : list (option errno_value)) : outcome (GIOStatus * option errno_value * list (option errno_value)) :=
  match rs with
  | [] => Fault Blocked
  | Some EINTR :: rs => z_connect rs
  | Some e :: rs => Done (G_IO_STATUS_ERROR, Some e, rs)
  | None :: rs => Done (G_IO_STATUS_NORMAL, None, rs)
  end.

Fixpoint z_disconnect (rs : list (option errno_value)) : outcome (GIOStatus * list (option errno_value)) :=
  match rs with
  | [] => Fault Blocked
  | Some EINTR :: rs => z_disconnect rs
  | Some e :: rs => Done (G_IO_STATUS_ERROR, rs)
  | None :: rs => Done (G_IO_STATUS_NORMAL, rs)
  end.

Definition z_listen (listen : option errno_value) : GIOStatus :=
  match listen with Some _ => G_IO_STATUS_ERROR | None => G_IO_STATUS_NORMAL end.

(** z_getsockname and its two relatives: [r] is what the system call gave. *)
Definition z_getsockname (r : option (sockaddr * Z)) : outcome (GIOStatus * option ZSockAddr) :=
  match r with
  | None => Done (G_IO_STATUS_ERROR, None)
  | Some (x, len) => a ← z_sockaddr_new x len; Done (G_IO_STATUS_NORMAL, a)
  end.

(** * What is promised *)

Lemma u16_small x : 0 ≤ x < 2 ^ 16 → u16 x = x.
Proof. apply Z.mod_small. Qed.

Section bind_spec.
Context (bind : sockaddr → bind_result) (a : Z).

(** Trying the ports of a list: until one is bound or an error is met that is not a busy
    port. *)
Fixpoint try_ports (l : list Z) (last : Z) : bool * Z :=
  match l with
  | [] => (false, last)
  | p :: l =>
      match bind (AF_INET a p) with
      | BindOk => (true, p)
      | BindInUse => try_ports l p
      | BindError => (false, p)
      end
  end.

Lemma try_ports_sound l : ∀ last p, try_ports l last = (true, p) → p ∈ l ∧ bind (AF_INET a p) = BindOk.
Proof.
  induction l as [|q l IH]; intros last p; cbn; [done|]. destruct (bind (AF_INET a q)) eqn:Hb; intros E.
  - injection E as ->. split; [by left|done].
  - destruct (IH _ _ E) as [? ?]. split; [by right|done].
  - done.
Qed.

Lemma try_ports_complete l : ∀ last q,
  q ∈ l → bind (AF_INET a q) = BindOk → (∀ p, p ∈ l → bind (AF_INET a p) ≠ BindError) → fst (try_ports l last) = true.
Proof.
  induction l as [|p l IH]; intros last q Hin Hq Hne; [set_solver|]. cbn. destruct (bind (AF_INET a p)) eqn:Hb; [done| |].
  - apply elem_of_cons in Hin as [->|Hin]; [congruence|]. eapply IH; [done|done|]. intros. apply Hne. by right.
  - by destruct (Hne p ltac:(by left)).
Qed.

Lemma try_ports_first l1 q l2 : ∀ last,
  (∀ p, p ∈ l1 → bind (AF_INET a p) = BindInUse) → bind (AF_INET a q) = BindOk → try_ports (l1 ++ q :: l2) last = (true, q).
Proof.
  induction l1 as [|p l1 IH]; intros lst Hin Hq; cbn [app try_ports]; [by rewrite Hq|].
  rewrite (Hin p) by left. apply IH; [|done]. intros. apply Hin. by right.
Qed.

(** The ports that sequential_loop tries. *)
Fixpoint port_seq (n : nat) (p lo hi : Z) : list Z :=
  match n with
  | O => []
  | S n => let p := if hi <? p then lo else p in p :: port_seq n (u16 (p + 1)) lo hi
  end.

Lemma sequential_loop_seq n : ∀ p lo hi last, sequential_loop bind n a p lo hi last = try_ports (port_seq n p lo hi) last.
Proof.
  induction n as [|n IH]; intros p lo hi last; [done|]. cbn. set (p' := if hi <? p then lo else p).
  destruct (bind (AF_INET a p')); [done|apply IH|done].
Qed.

(** Up to the last port of the group they are consecutive. *)
Lemma port_seq_up k : ∀ n p lo hi,
  0 ≤ p < 2 ^ 16 → p + Z.of_nat k ≤ hi + 1 → hi < 2 ^ 16 →
  port_seq (k + n) p lo hi = seqZ p (Z.of_nat k) ++ port_seq n (u16 (p + Z.of_nat k)) lo hi.
Proof.
  induction k as [|k IH]; intros n p lo hi Hp Hk Hhi; [by rewrite Z.add_0_r, u16_small|].
  cbn [Nat.add port_seq]. rewrite (proj2 (Z.ltb_ge _ _)) by lia.
  rewrite seqZ_cons by lia. cbn [app]. f_equal.
  replace (Z.pred (Z.of_nat (S k))) with (Z.of_nat k) by lia. replace (Z.succ p) with (p + 1) by lia.
  destruct k as [|k]; [cbn; by rewrite Z.add_1_r|].
  rewrite (u16_small (p + 1)) by lia. rewrite IH by lia. do 3 f_equal. lia.
Qed.

(** Behind it they go on with the first one, but the port behind 65535 is 0. *)
Lemma port_seq_group lo hi p :
  0 ≤ lo → lo ≤ p ≤ hi + 1 → hi < 2 ^ 16 → p < 2 ^ 16 →
  port_seq (Z.to_nat (hi - lo + 1)) p lo hi =
    seqZ p (hi - p + 1) ++ seqZ (if hi =? 65535 then 0 else lo) (p - lo).
Proof.
  intros Hlo Hp Hhi Hp16. replace (Z.to_nat (hi - lo + 1)) with (Z.to_nat (hi - p + 1) + Z.to_nat (p - lo))%nat by lia.
  rewrite port_seq_up by lia. rewrite Z2Nat.id by lia. f_equal. replace (p + (hi - p + 1)) with (hi + 1) by lia.
  destruct (decide (p = lo)) as [->|Hne]; [by rewrite Z.sub_diag|].
  destruct (Z.eqb_spec hi 65535) as [->|Hh].
  - change (u16 (65535 + 1)) with 0. rewrite <- (Nat.add_0_r (Z.to_nat (p - lo))), port_seq_up by lia.
    cbn [port_seq]. by rewrite app_nil_r, Z2Nat.id by lia.
  - rewrite u16_small by lia. assert (Hstart : ∀ n, port_seq n (hi + 1) lo hi = port_seq n lo lo hi).
    { intros [|n]; [done|]. cbn. by rewrite (proj2 (Z.ltb_lt hi (hi + 1))), (proj2 (Z.ltb_ge hi lo)) by lia. }
    rewrite Hstart, <- (Nat.add_0_r (Z.to_nat (p - lo))), port_seq_up by lia.
    cbn [port_seq]. by rewrite app_nil_r, Z2Nat.id by lia.
Qed.

Lemma port_seq_in lo hi p q :
  0 ≤ lo → lo ≤ p ≤ hi + 1 → hi < 65535 → q ∈ port_seq (Z.to_nat (hi - lo + 1)) p lo hi ↔ lo ≤ q ≤ hi.
Proof.
  intros. rewrite port_seq_group by lia. rewrite (proj2 (Z.eqb_neq hi 65535)) by lia.
  rewrite elem_of_app, !elem_of_seqZ. lia.
Qed.

(** ** The next port of a group *)

Definition group_ok (p lo hi : Z) : Prop := 1 ≤ lo ∧ lo ≤ p ≤ hi ∧ hi < 2 ^ 16.

Lemma port_group_ok p lo hi mask :
  1 ≤ p < 2 ^ 16 → port_group p = (lo, hi, mask) → group_ok p lo hi ∧ (hi = 65535 ↔ 1024 ≤ p).
Proof.
  intros Hp. unfold port_group, group_ok. destruct (p <? 512) eqn:E1; [|destruct (p <? 1024) eqn:E2]; intros [= <- <- <-]; lia.
Qed.

(** With ZSF_LOOSE_BIND alone, the port itself is tried, then the ones behind it up to the
    end of its group, then the ones from the start of the group; but in the last group
    those from port 0 on. *)
Lemma loose_bind_tries rs p flags lo hi mask :
  1 ≤ p < 2 ^ 16 → port_group p = (lo, hi, mask) →
  has flags ZSF_LOOSE_BIND = true → has flags ZSF_RANDOM_BIND = false →
  z_do_ll_bind bind rs (AF_INET a p) flags =
    let '(ok, q) := try_ports (p :: seqZ (p + 1) (hi - p) ++ seqZ (if hi =? 65535 then 0 else lo) (p - lo + 1)) p in
    Done (ok, AF_INET a q, rs).
Proof.
  intros Hp Hg Hl Hr. destruct (port_group_ok p lo hi mask Hp Hg) as [(H1 & H2 & H3) _].
  unfold z_do_ll_bind. rewrite Hl, Hr, (proj2 (Z.eqb_neq p 0)), Hg by lia. cbn [negb orb].
  cbn [try_ports]. destruct (bind (AF_INET a p)) eqn:Hb; [done| |done].
  rewrite bool_decide_true, Done_bind, sequential_loop_seq by done.
  assert (Heq : port_seq (Z.to_nat (hi - lo + 1)) (u16 (p + 1)) lo hi =
    seqZ (p + 1) (hi - p) ++ seqZ (if hi =? 65535 then 0 else lo) (p - lo + 1)).
  { destruct (decide (p = 65535)) as [->|Hne].
    - assert (hi = 65535) as -> by lia. change (u16 (65535 + 1)) with 0.
      rewrite <- (Nat.add_0_r (Z.to_nat _)), port_seq_up by lia. cbn [port_seq]. rewrite app_nil_r.
      rewrite Z2Nat.id by lia. done.
    - rewrite u16_small, port_seq_group by lia. f_equal; f_equal; lia. }
  rewrite Heq. by destruct (try_ports _ p).
Qed.

(** In the two groups of the reserved ports, a loose bind ends in the group of the port: with
    the port itself when it is free, and it fails only if every port of the group is in use
    or the system refuses one for another reason. *)
Theorem loose_bind_spec rs p flags lo hi mask :
  1 ≤ p < 1024 → port_group p = (lo, hi, mask) →
  has flags ZSF_LOOSE_BIND = true → has flags ZSF_RANDOM_BIND = false →
  returns (z_do_ll_bind bind rs (AF_INET a p) flags) (λ '(ok, x, rs'), rs' = rs ∧ ∃ q, x = AF_INET a q ∧ lo ≤ q ≤ hi ∧
    (bind (AF_INET a p) = BindOk → ok = true ∧ q = p) ∧ (ok = true → bind x = BindOk) ∧
    (ok = false → ∀ f, lo ≤ f ≤ hi → bind (AF_INET a f) = BindOk →
       ∃ e, lo ≤ e ≤ hi ∧ bind (AF_INET a e) = BindError)).
Proof.
  intros Hp Hg Hl Hr. destruct (port_group_ok p lo hi mask ltac:(lia) Hg) as [(H1 & H2 & H3) Hhi].
  rewrite (loose_bind_tries rs p flags lo hi mask) by (done || lia).
  rewrite (proj2 (Z.eqb_neq hi 65535)) by lia. set (l := p :: _).
  assert (Hin : ∀ q, q ∈ l ↔ lo ≤ q ≤ hi).
  { intros q. unfold l. rewrite elem_of_cons, elem_of_app, !elem_of_seqZ. lia. }
  assert (Hlast : ∀ l last, (∀ q, q ∈ l → lo ≤ q ≤ hi) → lo ≤ last ≤ hi → lo ≤ snd (try_ports l last) ≤ hi).
  { clear. induction l as [|q l IH]; intros last Hl Hlast; [done|]. cbn. specialize (Hl q ltac:(by left)) as Hq.
    destruct (bind (AF_INET a q)); [done| |done]. apply IH; [|done]. intros. apply Hl. by right. }
  pose proof (Hlast l p (λ q, proj1 (Hin q)) H2) as Hq. destruct (try_ports l p) as [ok q] eqn:Ht. cbn [snd] in Hq.
  apply returns_ret. split; [done|]. exists q. split; [done|]. split; [done|]. split; [|split].
  - intros Hb. unfold l in Ht. cbn [try_ports] in Ht. rewrite Hb in Ht. by injection Ht as <- <-.
  - intros ->. by apply try_ports_sound in Ht as [_ ?].
  - intros -> f Hf Hb. destruct (decide (Exists (λ e, bind (AF_INET a e) = BindError) l)) as [He|He].
    + apply Exists_exists in He as (e & He & Hbe). exists e. by rewrite <- Hin.
    + apply not_Exists_Forall in He; [|apply _]. rewrite Forall_forall in He.
      pose proof (try_ports_complete l p f (proj2 (Hin f) Hf) Hb He) as Hc. by rewrite Ht in Hc.
Qed.

(** In the last group, when the port and all behind it are in use, the next one tried is port
    0, which leaves the choice to the system, instead of the first of the group. *)
Lemma loose_bind_wraps rs p flags :
  1024 ≤ p < 2 ^ 16 → has flags ZSF_LOOSE_BIND = true → has flags ZSF_RANDOM_BIND = false →
  (∀ q, p ≤ q ≤ 65535 → bind (AF_INET a q) = BindInUse) → bind (AF_INET a 0) = BindOk →
  z_do_ll_bind bind rs (AF_INET a p) flags = Done (true, AF_INET a 0, rs).
Proof.
  intros Hp Hl Hr Hbusy H0.
  assert (Hg : port_group p = (1024, 65535, 0xffff)).
  { unfold port_group. by rewrite (proj2 (Z.ltb_ge p 512)), (proj2 (Z.ltb_ge p 1024)) by lia. }
  rewrite (loose_bind_tries rs p flags 1024 65535 0xffff) by (done || lia). change (65535 =? 65535) with true. cbv iota.
  rewrite (seqZ_cons 0) by lia. rewrite app_comm_cons, try_ports_first; [done| |done].
  intros q Hq. apply Hbusy. rewrite elem_of_cons, elem_of_seqZ in Hq. lia.
Qed.

(** ** Random ports *)

Definition accepted_draw (lo hi mask r : Z) : bool := let q := u16 (Z.land (u16 r) mask + lo) in (lo <=? q) && (q <=? hi).
Definition draws (lo hi mask : Z) (rs : list Z) : nat := length (filter (λ r, accepted_draw lo hi mask r = true) rs).

Lemma draw_port_ok lo hi mask rs :
  (0 < draws lo hi mask rs)%nat →
  ∃ q rs', draw_port lo hi mask rs = Done (q, rs') ∧ lo ≤ q ≤ hi ∧ draws lo hi mask rs = S (draws lo hi mask rs').
Proof.
  induction rs as [|r rs IH]; intros Hd; [unfold draws in Hd; cbn in Hd; lia|]. cbn [draw_port]. unfold draws in *.
  destruct (accepted_draw lo hi mask r) eqn:Hacc.
  - rewrite filter_cons_True by done. unfold accepted_draw in Hacc. cbv zeta in Hacc.
    set (q := u16 _) in *. apply andb_true_iff in Hacc as [?%Z.leb_le ?%Z.leb_le].
    rewrite (proj2 (Z.ltb_ge _ _)), (proj2 (Z.ltb_ge _ _)) by lia. exists q, rs. split; [done|]. split; [lia|done].
  - rewrite filter_cons_False in Hd by congruence. rewrite filter_cons_False by congruence.
    unfold accepted_draw in Hacc. cbv zeta in Hacc. set (q := u16 _) in *.
    assert ((q <? lo) || (hi <? q) = true) as -> by (destruct (q <? lo) eqn:?, (hi <? q) eqn:?; try done; lia).
    by apply IH.
Qed.

Lemma random_loop_ok lo hi mask : ∀ limit rs p,
  lo ≤ p ≤ hi → (limit ≤ draws lo hi mask rs)%nat →
  ∃ ok q rs', random_loop bind limit a p lo hi mask rs = Done (ok, q, rs') ∧ lo ≤ q ≤ hi ∧
    (ok = true → bind (AF_INET a q) = BindOk).
Proof.
  induction limit as [|limit IH]; intros rs p Hp Hd; [by exists false, p, rs|]. cbn [random_loop].
  destruct (draw_port_ok lo hi mask rs) as (q & rs' & -> & Hq & Hd'); [lia|]. rewrite Done_bind.
  destruct (bind (AF_INET a q)) eqn:Hb; [by exists true, q, rs'|apply IH; [done|lia]|by exists false, q, rs'].
Qed.

(** With ZSF_RANDOM_BIND a port of the reserved groups is bound inside its group whenever one
    is free and the system refuses none for another reason, as long as the generator gives
    enough numbers that fit. *)
Theorem random_bind_spec rs p flags lo hi mask :
  1 ≤ p < 1024 → p ≠ hi → port_group p = (lo, hi, mask) →
  has flags ZSF_LOOSE_BIND = true → has flags ZSF_RANDOM_BIND = true →
  (Z.to_nat ((hi - lo + 1) / 8) ≤ draws lo hi mask rs)%nat →
  returns (z_do_ll_bind bind rs (AF_INET a p) flags) (λ '(ok, x, rs'), 
    (ok = true → ∃ q, x = AF_INET a q ∧ lo ≤ q ≤ hi ∧ bind x = BindOk) ∧
    ((∀ e, lo ≤ e ≤ hi → bind (AF_INET a e) ≠ BindError) → (∃ f, lo ≤ f ≤ hi ∧ bind (AF_INET a f) = BindOk) → ok = true)).
Proof.
  intros Hp Hne Hg Hl Hr Hd. destruct (port_group_ok p lo hi mask ltac:(lia) Hg) as [(H1 & H2 & H3) Hhi].
  unfold z_do_ll_bind. rewrite Hl, Hr, (proj2 (Z.eqb_neq p 0)), Hg by lia. cbn [negb orb].
  rewrite u16_small by lia.
  destruct (random_loop_ok lo hi mask (Z.to_nat ((hi - lo + 1) / 8)) rs (p + 1)) as (ok & q & rs' & -> & Hq & Hok); [lia|done|].
  rewrite Done_bind. destruct ok; [apply returns_ret; split; [intros _; exists q; by auto|done]|].
  rewrite sequential_loop_seq. set (l := port_seq _ q lo hi).
  assert (Hin : ∀ x, x ∈ l ↔ lo ≤ x ≤ hi) by (intros; apply port_seq_in; lia).
  destruct (try_ports l p) as [ok x] eqn:Ht. apply returns_ret. split.
  - intros ->. apply try_ports_sound in Ht as [Hx Hb]. exists x. split; [done|]. split; [by apply Hin|done].
  - intros Herr (f & Hf & Hb). pose proof (try_ports_complete l p f (proj2 (Hin f) Hf) Hb) as Hc. rewrite Ht in Hc.
    apply Hc. intros e He. apply Herr. by apply Hin.
Qed.

(** ** Ranges of ports *)

(** The first port of a list that can be bound. *)
Fixpoint first_free (l : list Z) : option Z :=
  match l with
  | [] => None
  | p :: l => if decide (bind (AF_INET a p) = BindOk) then Some p else first_free l
  end.

Lemma first_free_app l1 l2 :
  first_free (l1 ++ l2) = match first_free l1 with Some p => Some p | None => first_free l2 end.
Proof. induction l1 as [|p l1 IH]; [done|]. cbn. by case_decide. Qed.

Lemma first_free_some l p : first_free l = Some p → p ∈ l ∧ bind (AF_INET a p) = BindOk.
Proof.
  induction l as [|q l IH]; [done|]. cbn. case_decide; [intros [= ->]; split; [by left|done]|].
  intros E. destruct (IH E). split; [by right|done].
Qed.

Lemma range_loop_ok flags rs fuel : ∀ self p q,
  has flags ZSF_LOOSE_BIND = false → sa self = AF_INET a q → 0 ≤ p ≤ max_port self + 1 → max_port self < 65535 →
  max_port self + 1 - p < Z.of_nat fuel →
  range_loop bind fuel rs self p flags = Done match first_free (seqZ p (max_port self + 1 - p)) with
    | Some f => (true, with_last (f + 1) (with_sa (AF_INET a f) self), rs)
    | None => (false, if p <=? max_port self then with_sa (AF_INET a (max_port self)) self else self, rs)
    end.
Proof.
  induction fuel as [|fuel IH]; intros self p q Hl Hsa Hp Hm Hf; [lia|]. cbn [range_loop].
  destruct (p <=? max_port self) eqn:E.
  2: { rewrite (seqZ_nil p) by lia. done. }
  rewrite Hsa. unfold z_do_ll_bind. rewrite Hl. cbn [negb orb]. rewrite Done_bind, u16_small by lia.
  rewrite (seqZ_cons p) by lia. cbn [first_free].
  destruct (bool_decide_reflect (bind (AF_INET a p) = BindOk)) as [Hb|Hb]; [by rewrite decide_True|].
  rewrite decide_False by done. rewrite (IH (with_sa (AF_INET a p) self) (p + 1) p) by (done || (cbn [max_port with_sa]; lia)).
  cbn [max_port with_sa]. replace (Z.pred (max_port self + 1 - p)) with (max_port self + 1 - (p + 1)) by lia.
  replace (Z.succ p) with (p + 1) by lia. destruct (first_free _); [done|].
  destruct (p + 1 <=? max_port self) eqn:E2; [done|]. by replace p with (max_port self) by lia.
Qed.

(** Binding to a range takes the first free port from where the last search ended up to the
    end of the range, and then from its start; it fails exactly when no port of the range
    is free.  The next search starts behind the port.  The range ends below 65535. *)
Theorem range_bind_spec rs self flags q :
  has flags ZSF_LOOSE_BIND = false → sa self = AF_INET a q → sa_funcs self = inet_range_sockaddr_funcs →
  addr_ok self → min_port self ≤ max_port self < 65535 →
  z_sockaddr_inet_range_bind bind rs self flags =
    Done match first_free (seqZ (last_port self) (max_port self + 1 - last_port self) ++
                           seqZ (min_port self) (max_port self + 1 - min_port self)) with
         | Some p => (G_IO_STATUS_NORMAL, with_last (p + 1) (with_sa (AF_INET a p) self), rs)
         | None => (G_IO_STATUS_ERROR, with_last (min_port self) (with_sa (AF_INET a (max_port self)) self), rs)
         end.
Proof.
  intros Hl Hsa Hfn [_ Hok] Hr. rewrite Hfn, Hsa in Hok. destruct Hok as (Hmin & Hmax & Hlast).
  specialize (Hlast ltac:(lia)). unfold z_sockaddr_inet_range_bind. rewrite (proj2 (Z.ltb_ge _ _)) by lia.
  assert (Hfuel : max_port self + 1 < Z.of_nat range_fuel) by (unfold range_fuel; rewrite Z2Nat.id by lia; lia).
  rewrite (range_loop_ok flags rs range_fuel self (last_port self) q) by (done || lia). rewrite Done_bind, first_free_app.
  destruct (first_free (seqZ (last_port self) _)) as [p|]; [done|].
  set (self1 := if last_port self <=? max_port self then with_sa _ self else self).
  assert (Hs1 : max_port self1 = max_port self ∧ min_port self1 = min_port self ∧ (∃ q1, sa self1 = AF_INET a q1) ∧
    ∀ x, with_sa x self1 = with_sa x self).
  { unfold self1. destruct (_ <=? _); (split; [done|]); (split; [done|]); (split; [by eexists|done]). }
  destruct Hs1 as (E1 & E2 & [q1 E3] & E4).
  rewrite (range_loop_ok flags rs range_fuel self1 (min_port self1) q1) by (done || lia). rewrite Done_bind, E1, E2, E4.
  rewrite (proj2 (Z.leb_le (min_port self) (max_port self))) by lia. rewrite ?E4.
  destruct (first_free _); [by rewrite E4|done].
Qed.

(** A range that ends with the last port: the counter of two bytes never passes it. *)
Theorem range_bind_endless rs flags fuel : ∀ self p q,
  has flags ZSF_LOOSE_BIND = false → sa self = AF_INET a q → max_port self = 65535 →
  (∀ x, bind (AF_INET a x) ≠ BindOk) →
  range_loop bind fuel rs self (u16 p) flags = Fault OutOfFuel.
Proof.
  induction fuel as [|fuel IH]; intros self p q Hl Hsa Hm Hbusy; [done|]. cbn [range_loop]. rewrite Hm.
  assert (0 ≤ u16 p < 2 ^ 16) by (unfold u16; apply Z.mod_pos_bound; lia).
  rewrite (proj2 (Z.leb_le _ _)) by lia. rewrite Hsa. unfold z_do_ll_bind. rewrite Hl. cbn [negb orb].
  rewrite Done_bind, bool_decide_false by apply Hbusy. by apply (IH _ _ (u16 p)).
Qed.
End bind_spec.

(** ** z_bind and z_accept *)

Lemma with_sa_same x : with_sa (sa x) x = x.
Proof. by destruct x. Qed.

(** Binding does not count references. *)
Lemma range_loop_refcnt bind fuel : ∀ rs a port flags ok a' rs',
  range_loop bind fuel rs a port flags = Done (ok, a', rs') → refcnt a' = refcnt a.
Proof.
  induction fuel as [|fuel IH]; intros rs a port flags ok a' rs'; [done|]. cbn [range_loop].
  case_match; [|by intros [= _ <- _]]. destruct (sa a); try done.
  destruct (z_do_ll_bind _ _ _ _) as [[[k x] r]|]; [|done]. rewrite Done_bind. destruct k; [by intros [= _ <- _]|].
  intros E. by apply IH in E.
Qed.

Lemma z_bind_refcnt bind so is_socket c rs a flags st a' rm c' :
  z_bind bind so is_socket c rs a flags = Done (st, a', rm, c') → refcnt a' = refcnt a.
Proof.
  unfold z_bind. destruct (bind_prepare _ _ _ _) as [p r]. cbv zeta. case_bool_decide.
  - unfold z_sockaddr_inet_range_bind. destruct (max_port a <? min_port a); [by intros [= _ <- _]|].
    destruct (range_loop _ _ _ _ _ _) as [[[k x] r1]|] eqn:E1; [|done]. rewrite !Done_bind. apply range_loop_refcnt in E1.
    destruct k; rewrite ?Done_bind; [by intros [= _ <- _ _]|].
    destruct (range_loop _ _ _ x _ _) as [[[k x2] r2]|] eqn:E2; [|done]. rewrite !Done_bind. apply range_loop_refcnt in E2.
    destruct k; rewrite !Done_bind; intros [= _ <- _ _]; cbn; congruence.
  - destruct (z_do_ll_bind _ _ _ _) as [[[k x] r1]|]; [|done]. rewrite !Done_bind. by intros [= _ <- _ _].
Qed.

(** Whatever binding does, the process has the capabilities afterwards that it had before;
    and an address that is not a range is bound as it is, with the right to bind to reserved
    ports, after the socket file of a UNIX address was removed if there was one. *)
Theorem z_bind_spec bind setsockopt is_socket c rs addr flags :
  (∀ res, z_bind bind setsockopt is_socket c rs addr flags = Done res → snd res = c) ∧
  (sa_funcs addr ≠ inet_range_sockaddr_funcs → has flags ZSF_LOOSE_BIND = false →
   let e := if zorp_caps c then {[CAP_NET_ADMIN]} ∪ ({[CAP_NET_BIND_SERVICE]} ∪ effective c) else effective c in
   z_bind bind setsockopt is_socket c rs addr flags =
     Done (if decide (bind e (sa addr) = BindOk) then G_IO_STATUS_NORMAL else G_IO_STATUS_ERROR, addr,
           snd (bind_prepare setsockopt is_socket addr flags), c)).
Proof.
  assert (Hrestore : ∀ c, snd (cap_restore (cap_enable (cap_enable c CAP_NET_BIND_SERVICE) CAP_NET_ADMIN) (cap_save c)) = c).
  { intros [[] e]; done. }
  split.
  - intros [[[rc ad] rm] c']. unfold z_bind. destruct (bind_prepare _ _ _ _) as [st removed]. cbv zeta.
    set (m := if bool_decide _ then _ else _). destruct m as [[rc1 ad1]|f]; [|done]. rewrite Done_bind, Hrestore.
    by intros [= _ _ _ <-].
  - intros Hfn Hl e. unfold z_bind. destruct (bind_prepare _ _ _ _) as [st removed]. cbv zeta.
    rewrite (bool_decide_false (sa_funcs addr = _)) by done.
    assert (He : effective (cap_enable (cap_enable c CAP_NET_BIND_SERVICE) CAP_NET_ADMIN) = e) by (by destruct c as [[] ?]).
    rewrite He. assert (Hll : z_do_ll_bind (bind e) rs (sa addr) flags = Done (bool_decide (bind e (sa addr) = BindOk), sa addr, rs)).
    { unfold z_do_ll_bind. rewrite Hl. by destruct (sa addr). }
    rewrite Hll, !Done_bind, with_sa_same, Hrestore. by destruct (decide (bind e (sa addr) = BindOk)) as [->|Hn];
      [rewrite bool_decide_true|rewrite bool_decide_false].
Qed.

(** z_accept tries again as often as it is interrupted, and gives a well-formed address of
    the client, also for a system that gives none; it does not wait on a socket without a
    connection. *)
Theorem z_accept_spec k r rs :
  r ≠ AcceptFailed EINTR →
  match r with Accepted _ x len => (sa_ok x ∨ sockaddr_family x = 111 ∨ ∃ path, x = AF_UNIX path) ∧ (len = SABUF_SIZE ∨ len ≤ 110) | _ => True end →
  (∀ path len newfd, r = Accepted newfd (AF_UNIX path) len → len ≤ 110) →
  returns (z_accept (replicate k (AcceptFailed EINTR) ++ r :: rs)) (λ '(st, res, rest), rest = rs ∧
    match r with
    | Accepted newfd x len => st = G_IO_STATUS_NORMAL ∧ ∃ ad, res = Some (newfd, ad) ∧ (∀ y, ad = Some y → addr_ok y ∧ refcnt y = 1) ∧
        (x = AF_OTHER MAGIC_FAMILY_NUMBER → len = SABUF_SIZE → ∃ y, ad = Some y ∧ z_sockaddr_unix_format y 128 = str "AF_UNIX(anonymous)")
    | AcceptFailed EAGAIN => st = G_IO_STATUS_AGAIN ∧ res = None
    | AcceptFailed _ => st = G_IO_STATUS_ERROR ∧ res = None
    end).
Proof.
  intros Hr Hx Hun. assert (Hloop : accept_loop (replicate k (AcceptFailed EINTR) ++ r :: rs) = Done (r, rs)).
  { induction k as [|k IH]; [|exact IH]. cbn. by destruct r as [|[]]. }
  unfold z_accept. rewrite Hloop, Done_bind. destruct r as [newfd x len|e]; [|destruct e; try done].
  destruct Hx as [Hx Hlen].
  assert (Hanon : ∃ y, z_sockaddr_new (AF_UNIX []) 2 = Done (Some y) ∧ (addr_ok y ∧ refcnt y = 1) ∧
    z_sockaddr_unix_format y 128 = str "AF_UNIX(anonymous)") by (eexists; split; [done|]; by split; [repeat split|vm_compute]).
  destruct ((sockaddr_family x =? MAGIC_FAMILY_NUMBER) && (len =? SABUF_SIZE)) eqn:Emag.
  - destruct Hanon as (y & -> & Hy & Hfmt). rewrite Done_bind. apply returns_ret. split; [done|]. split; [done|].
    exists (Some y). split; [done|]. split; [by intros ? [= <-]|]. intros _ _. by exists y.
  - assert (Hnew : returns (z_sockaddr_new x len) (λ ad, ∀ y, ad = Some y → addr_ok y ∧ refcnt y = 1)).
    { destruct x as [h p|h p|path|f]; cbn [z_sockaddr_new].
      - destruct Hx as [Hx|[Hx|[? [=]]]]; [|done]. apply returns_ret. intros y. case_match; [|done]. intros [= <-].
        split; [|done]. by split.
      - destruct Hx as [Hx|[Hx|[? [=]]]]; [|done]. apply returns_ret. intros y. case_match; [|done]. intros [= <-].
        split; [|done]. by split.
      - unfold z_sockaddr_unix_new2. specialize (Hun path len newfd eq_refl).
        rewrite require_true, Done_bind by (unfold SUN_PATH_LEN; lia). apply returns_ret. intros y [= <-].
        split; [|done]. split; [|done]. apply pad_to_length. unfold SUN_PATH_LEN. rewrite length_take. lia.
      - by apply returns_ret. }
    apply returns_bind. eapply returns_mono; [exact Hnew|]. intros ad Had. apply returns_ret.
    split; [done|]. split; [done|]. exists ad. split; [done|]. split; [done|]. intros -> ->. done.
Qed.

(** ** Witnesses and examples *)

(** A host on which the ports of a list are in use. *)
Definition busy (l : list Z) (x : sockaddr) : bind_result :=
  match x with AF_INET _ p => if decide (p ∈ l) then BindInUse else BindOk | _ => BindOk end.

Lemma loose_bind_spec_witness :
  returns (z_do_ll_bind (busy [510; 511; 1]) [] (AF_INET 7 510) 1) (λ '(ok, x, rs'), rs' = [] ∧ ∃ q, x = AF_INET 7 q ∧ 1 ≤ q ≤ 511 ∧
    (busy [510; 511; 1] (AF_INET 7 510) = BindOk → ok = true ∧ q = 510) ∧ (ok = true → busy [510; 511; 1] x = BindOk) ∧
    (ok = false → ∀ f, 1 ≤ f ≤ 511 → busy [510; 511; 1] (AF_INET 7 f) = BindOk →
       ∃ e, 1 ≤ e ≤ 511 ∧ busy [510; 511; 1] (AF_INET 7 e) = BindError)).
Proof. apply (loose_bind_spec (busy [510; 511; 1]) 7 [] 510 1 1 511 511); [lia|done|done|done]. Defined.

Example loose_bind_run : z_do_ll_bind (busy [510; 511; 1]) [] (AF_INET 7 510) 1 = Done (true, AF_INET 7 2, []).
Proof. by vm_compute. Qed.

Example loose_bind_wraps_run : z_do_ll_bind (busy [65534; 65535]) [] (AF_INET 7 65534) 1 = Done (true, AF_INET 7 0, []).
Proof. by vm_compute. Qed.

Definition some_draws : list Z := replicate 64 77.

Lemma random_bind_spec_witness :
  returns (z_do_ll_bind (busy [78; 300]) some_draws (AF_INET 7 300) 17) (λ '(ok, x, rs'),
    (ok = true → ∃ q, x = AF_INET 7 q ∧ 1 ≤ q ≤ 511 ∧ busy [78; 300] x = BindOk) ∧
    ((∀ e, 1 ≤ e ≤ 511 → busy [78; 300] (AF_INET 7 e) ≠ BindError) →
     (∃ f, 1 ≤ f ≤ 511 ∧ busy [78; 300] (AF_INET 7 f) = BindOk) → ok = true)).
Proof.
  refine (random_bind_spec (busy [78; 300]) 7 some_draws 300 17 1 511 511 _ _ eq_refl eq_refl eq_refl _); [lia|done|].
  vm_compute. lia.
Defined.

Lemma range_bind_spec_witness :
  z_sockaddr_inet_range_bind (busy [1999; 1024]) [] (with_last 1999 some_range) 0 =
    Done match first_free (busy [1999; 1024]) 5 (seqZ 1999 (2000 + 1 - 1999) ++ seqZ 1024 (2000 + 1 - 1024)) with
         | Some p => (G_IO_STATUS_NORMAL, with_last (p + 1) (with_sa (AF_INET 5 p) (with_last 1999 some_range)), [])
         | None => (G_IO_STATUS_ERROR, with_last 1024 (with_sa (AF_INET 5 2000) (with_last 1999 some_range)), [])
         end.
Proof.
  refine (range_bind_spec (busy [1999; 1024]) 5 [] (with_last 1999 some_range) 0 0 eq_refl eq_refl eq_refl _ _).
  - split; [by repeat split|]. split; [done|]. split; [done|]. intros _. by vm_compute.
  - by vm_compute.
Defined.

(** A range that ends with 65535: when that port was taken, the next search starts with port
    0, which is not in the range. *)
Definition last_range : ZSockAddr := with_last 65535 (z_sockaddr_inet_range_new_inaddr 0 5 65530 65535).

Example range_bind_leaves_range :
  ('(st, self, _) ← z_sockaddr_inet_range_bind (busy []) [] last_range 0;
   '(st2, self, _) ← z_sockaddr_inet_range_bind (busy [65535]) [] self 0; Done (st, st2, sa self))
  = Done (G_IO_STATUS_NORMAL, G_IO_STATUS_NORMAL, AF_INET 5 0).
Proof. by vm_compute. Qed.

Lemma range_bind_endless_witness :
  range_loop (λ _, BindInUse) range_fuel [] last_range (u16 65530) 0 = Fault OutOfFuel.
Proof. exact (range_bind_endless (λ _, BindInUse) 5 [] 0 range_fuel last_range 65530 0 eq_refl eq_refl eq_refl (λ _ E, ltac:(discriminate E))). Defined.

(** With ZSF_LOOSE_BIND a range is left for any port of the group. *)
Example range_bind_loose :
  ('(st, self, _) ← z_sockaddr_inet_range_bind (busy [600; 601]) []
      (with_last 600 (z_sockaddr_inet_range_new_inaddr 0 5 600 601)) 1;
   Done (st, sa self, last_port self)) = Done (G_IO_STATUS_NORMAL, AF_INET 5 602, 601).
Proof. by vm_compute. Qed.

Lemma z_bind_spec_witness :
  let c := mkCaps true {[7]} in
  (∀ res, z_bind (λ _ _, BindOk) true (λ _, true) c [] (z_sockaddr_unix_new (Some (str "/tmp/s"))) 0 = Done res → snd res = c) ∧
  (sa_funcs (z_sockaddr_unix_new (Some (str "/tmp/s"))) ≠ inet_range_sockaddr_funcs → has 0 ZSF_LOOSE_BIND = false →
   let e := if zorp_caps c then {[CAP_NET_ADMIN]} ∪ ({[CAP_NET_BIND_SERVICE]} ∪ effective c) else effective c in
   z_bind (λ _ _, BindOk) true (λ _, true) c [] (z_sockaddr_unix_new (Some (str "/tmp/s"))) 0 =
     Done (G_IO_STATUS_NORMAL, z_sockaddr_unix_new (Some (str "/tmp/s")),
           snd (bind_prepare true (λ _, true) (z_sockaddr_unix_new (Some (str "/tmp/s"))) 0), c)).
Proof. exact (z_bind_spec (λ _ _, BindOk) true (λ _, true) (mkCaps true {[7]}) [] (z_sockaddr_unix_new (Some (str "/tmp/s"))) 0). Defined.

Lemma z_accept_spec_witness :
  returns (z_accept (replicate 2 (AcceptFailed EINTR) ++ [Accepted 9 (AF_OTHER 111) 1024])) (λ '(st, res, rest), rest = [] ∧
    st = G_IO_STATUS_NORMAL ∧ ∃ ad, res = Some (9, ad) ∧ (∀ y, ad = Some y → addr_ok y ∧ refcnt y = 1) ∧
        (AF_OTHER 111 = AF_OTHER MAGIC_FAMILY_NUMBER → 1024 = SABUF_SIZE →
         ∃ y, ad = Some y ∧ z_sockaddr_unix_format y 128 = str "AF_UNIX(anonymous)")).
Proof.
  refine (z_accept_spec 2 (Accepted 9 (AF_OTHER 111) 1024) [] _ _ _); [done| |done].
  split; [right; by left|by left].
Defined.
