(* ===== verification/Registry.v ===== *)
(** * Registry (src/src/registry.c)

    One hash table per entry type, from names to values.  The functions for the
    Windows registry at the end of the file are not part of the model. *)

From S2P Require Import Prelude.
Open Scope Z_scope.

Definition MAX_REGISTRY_TYPE : Z := 16.
Definition MAX_REGISTRY_NAME : Z := 32.

Record ZRegistryEntry := mkEntry { e_type : Z; e_name : list Z; e_value : Z }.

(** The array of tables. *)
Abbreviation registry := (list (gmap (list Z) ZRegistryEntry)).

Definition z_registry_init : registry := replicate (Z.to_nat MAX_REGISTRY_TYPE) ∅.

(** [registry[type]]. *)
Definition table (reg : registry) (type : Z) : outcome (gmap (list Z) ZRegistryEntry) :=
  if decide (0 ≤ type < zlen reg) then Done (reg !!! Z.to_nat type) else Fault OutOfBounds.

(** The name is copied with g_strlcpy. *)
Definition z_registry_add (reg : registry) (name : list Z) (type value : Z) : outcome registry :=
  if (type <? 0) || (MAX_REGISTRY_TYPE <? type) then Done reg
  else
    let ze := mkEntry type (take (Z.to_nat (MAX_REGISTRY_NAME - 1)) name) value in
    t ← table reg type;
    Done (<[Z.to_nat type := <[e_name ze := ze]> t]> reg).

Definition z_registry_get_one (reg : registry) (name : list Z) (type : Z) : outcome (option ZRegistryEntry) :=
  t ← table reg type; Done (t !! name).

(** [for (i = 0; i < MAX_REGISTRY_TYPE && ze == NULL; i++)]: [ze] and [i] at the end. *)
Fixpoint probe (fuel : nat) (reg : registry) (name : list Z) (i : Z) (ze : option ZRegistryEntry)
    : outcome (option ZRegistryEntry * Z) :=
  if (i <? MAX_REGISTRY_TYPE) && bool_decide (ze = None) then
    match fuel with
    | O => Fault OutOfFuel
    | S fuel => ze ← z_registry_get_one reg name i; probe fuel reg name (i + 1) ze
    end
  else Done (ze, i).

(** [type] is what a non-NULL pointer points to, before and after; NULL is 0. *)
Definition z_registry_get (reg : registry) (name : list Z) (type : option Z) : outcome (Z * option Z) :=
  let bad := match type with Some t => (MAX_REGISTRY_TYPE <? t) || (t <? 0) | None => false end in
  if bad then Done (0, type)
  else
    ze ← match type with
         | None | Some 0 => '(ze, _) ← probe 16 reg name 0 None; Done ze
         | Some t => z_registry_get_one reg name t
         end;
    match ze with
    | Some ze => Done (e_value ze, match type with Some _ => Some (e_type ze) | None => None end)
    | None => Done (0, type)
    end.

Definition z_registry_has_key (reg : registry) (name : list Z) : outcome Z :=
  '(ze, i) ← probe 16 reg name 0 None;
  Done (if bool_decide (ze = None) then 0 else i).

(** [func] is called with each entry, in no particular order. *)
Definition z_registry_foreach {A : Type} (reg : registry) (type : Z)
    (func : list Z → ZRegistryEntry → A → A) (user_data : A) : outcome A :=
  t ← table reg type; Done (map_fold func user_data t).

(** ** What is registered *)

Definition registered (reg : registry) (type : Z) (name : list Z) : option Z :=
  t ← reg !! Z.to_nat type; e_value <$> (t !! name).

Record registry_wf (reg : registry) : Prop := {
  wf_tables : length reg = 16%nat;
  wf_entries (i : nat) t name ze : reg !! i = Some t → t !! name = Some ze →
    e_type ze = Z.of_nat i ∧ e_name ze = name ∧ (length name < 32)%nat
}.

Lemma type_table_ok reg type :
  registry_wf reg → 0 ≤ type < 16 → ∃ t, reg !! Z.to_nat type = Some t ∧ table reg type = Done t.
Proof.
  intros [Hl _] Ht. destruct (lookup_lt_is_Some_2 reg (Z.to_nat type)) as [t Hlk]; [lia|].
  exists t. split; [done|]. unfold table. rewrite decide_True by lia.
  by rewrite (list_lookup_total_correct _ _ _ Hlk).
Qed.

Lemma get_one_ok reg name type :
  registry_wf reg → 0 ≤ type < 16 →
  ∃ r, z_registry_get_one reg name type = Done r ∧ e_value <$> r = registered reg type name ∧
    match r with Some ze => e_type ze = type ∧ e_name ze = name ∧ (length name < 32)%nat | None => True end.
Proof.
  intros Hw Ht. destruct (type_table_ok reg type Hw Ht) as (t & Hlk & Hok).
  unfold z_registry_get_one, registered. rewrite Hok, Done_bind, Hlk. cbn.
  exists (t !! name). split; [done|]. split; [done|].
  destruct (t !! name) as [ze|] eqn:E; [|done].
  destruct (wf_entries reg Hw _ _ _ _ Hlk E) as (H1 & H2 & H3). split_and!; (done || lia).
Qed.

(** The first type from [i] on under which the name is registered. *)
Definition first_type (reg : registry) (name : list Z) (i t : Z) : Prop :=
  i ≤ t < 16 ∧ registered reg t name ≠ None ∧ ∀ u, i ≤ u < t → registered reg u name = None.

Lemma probe_some fuel reg name i ze : probe fuel reg name i (Some ze) = Done (Some ze, i).
Proof. destruct fuel; cbn [probe]; by rewrite bool_decide_false, andb_false_r by done. Qed.

Lemma probe_ok fuel reg name : ∀ i,
  registry_wf reg → 0 ≤ i ≤ 16 → 16 - i ≤ Z.of_nat fuel →
  (∃ ze t, probe fuel reg name i None = Done (Some ze, t + 1) ∧ first_type reg name i t ∧
     registered reg t name = Some (e_value ze) ∧ e_type ze = t) ∨
  (probe fuel reg name i None = Done (None, 16) ∧ ∀ u, i ≤ u < 16 → registered reg u name = None).
Proof.
  induction fuel as [|fuel IH]; intros i Hw Hi Hf; cbn [probe]; unfold MAX_REGISTRY_TYPE.
  - right. rewrite (proj2 (Z.ltb_ge i 16)) by lia. cbn [andb]. split; [do 2 f_equal; lia|lia].
  - rewrite bool_decide_true, andb_true_r by done. destruct (Z.ltb_spec i 16) as [Hlt|Hge].
    2: { right. split; [do 2 f_equal; lia|lia]. }
    destruct (get_one_ok reg name i Hw) as (r & Hr & Hv & Ht); [lia|]. rewrite Hr, Done_bind.
    destruct r as [ze|].
    + left. exists ze, i. rewrite probe_some. split; [done|]. cbn in Hv. split; [|split; [done|apply Ht]].
      split; [lia|]. split; [by rewrite <- Hv|lia].
    + cbn in Hv. destruct (IH (i + 1) Hw) as [(ze & t & Hp & Hft & Hz)|[Hp Hn]]; [lia|lia| |].
      * left. exists ze, t. split; [done|]. split; [|done]. destruct Hft as (H1 & H2 & H3).
        split; [lia|]. split; [done|]. intros u Hu. destruct (decide (u = i)) as [->|]; [done|]. apply H3. lia.
      * right. split; [done|]. intros u Hu. destruct (decide (u = i)) as [->|]; [done|]. apply Hn. lia.
Qed.

Lemma add_wf reg name type value reg' :
  registry_wf reg → z_registry_add reg name type value = Done reg' → registry_wf reg'.
Proof.
  intros Hw H. unfold z_registry_add, MAX_REGISTRY_TYPE in H.
  destruct ((type <? 0) || (16 <? type)) eqn:E; [by injection H as <-|].
  apply bind_Done in H as (t & Ht & [= <-]). unfold table in Ht.
  case_decide as Hd; [|done]. injection Ht as Ht. split.
  - rewrite length_insert. apply wf_tables, Hw.
  - intros i t' n ze. rewrite list_lookup_insert. case_decide as Hi.
    + intros [= <-]. rewrite lookup_insert. case_decide as Hn.
      * intros [= <-]. cbn. split; [lia|]. split; [done|]. subst n. rewrite length_take.
        unfold MAX_REGISTRY_NAME. lia.
      * apply (wf_entries reg Hw). destruct Hi as [<- Hi]. rewrite <- Ht.
        by apply list_lookup_lookup_total_lt.
    + apply (wf_entries reg Hw).
Qed.

Lemma init_wf : registry_wf z_registry_init.
Proof.
  split; [done|]. intros i t n ze [-> _]%lookup_replicate. by rewrite lookup_empty.
Qed.

(** The registry is a map from types and names: adding a value under a type from 0
    to 15 makes the first 31 characters of the name mean it and changes no other name
    or type; getting a value by type or, with type 0, by probing every type returns
    what was added last, and the lowest type; z_registry_has_key returns one more than
    the lowest type. *)
Theorem registry_spec (reg : registry) :
  registry_wf reg →
  (∀ name type value, 0 ≤ type < 16 →
     ∃ reg', z_registry_add reg name type value = Done reg' ∧ registry_wf reg' ∧
       ∀ t n, 0 ≤ t < 16 → registered reg' t n =
         if decide (t = type ∧ n = take 31 name) then Some value else registered reg t n) ∧
  (∀ name t, 0 < t < 16 →
     z_registry_get reg name (Some t) = Done (default 0 (registered reg t name), Some t)) ∧
  (∀ name t, first_type reg name 0 t →
     z_registry_get reg name None = Done (default 0 (registered reg t name), None) ∧
     z_registry_get reg name (Some 0) = Done (default 0 (registered reg t name), Some t) ∧
     z_registry_has_key reg name = Done (t + 1)) ∧
  (∀ name, (∀ t, 0 ≤ t < 16 → registered reg t name = None) →
     z_registry_get reg name None = Done (0, None) ∧ z_registry_get reg name (Some 0) = Done (0, Some 0) ∧
     z_registry_has_key reg name = Done 0) ∧
  (∀ name t, t < 0 ∨ 16 < t →
     z_registry_add reg name t 0 = Done reg ∧ z_registry_get reg name (Some t) = Done (0, Some t)).
Proof.
  intros Hw. split_and!.
  - intros name type value Ht. destruct (type_table_ok reg type Hw Ht) as (t & Hlk & Hok).
    assert (Hadd : ∃ reg', z_registry_add reg name type value = Done reg').
    { unfold z_registry_add, MAX_REGISTRY_TYPE. rewrite (proj2 (Z.ltb_ge type 0)), (proj2 (Z.ltb_ge 16 type)) by lia.
      cbn [orb]. rewrite Hok, Done_bind. by eexists. }
    destruct Hadd as [reg' Hadd]. exists reg'. split; [done|]. split; [by eapply add_wf|].
    intros t' n Ht'. unfold z_registry_add, MAX_REGISTRY_TYPE in Hadd.
    rewrite (proj2 (Z.ltb_ge type 0)), (proj2 (Z.ltb_ge 16 type)) in Hadd by lia. cbn [orb] in Hadd.
    rewrite Hok, Done_bind in Hadd. injection Hadd as <-. unfold registered.
    rewrite list_lookup_insert. destruct (decide (t' = type)) as [->|Hne].
    + rewrite decide_True by (split; [done|]; pose proof (wf_tables reg Hw); lia). cbn.
      rewrite lookup_insert. change (Z.to_nat (MAX_REGISTRY_NAME - 1)) with 31%nat.
      destruct (decide (take 31 name = n)) as [<-|Hn].
      * by rewrite decide_True.
      * rewrite decide_False by naive_solver. by rewrite Hlk.
    + rewrite decide_False by (intros [? _]; lia). by rewrite decide_False by naive_solver.
  - intros name t Ht. destruct (get_one_ok reg name t Hw) as (r & Hr & Hv & Hty); [lia|].
    unfold z_registry_get, MAX_REGISTRY_TYPE.
    rewrite (proj2 (Z.ltb_ge t 0)), (proj2 (Z.ltb_ge 16 t)) by lia. cbn [orb].
    destruct t as [|p|p]; try lia. rewrite Hr, Done_bind, <- Hv. destruct r as [ze|]; [|done].
    cbn. by destruct Hty as (-> & _).
  - intros name t Hft. destruct (probe_ok 16 reg name 0 Hw) as [(ze & t' & Hp & Hft' & Hv & Hty)|[_ Hn]]; [lia|lia| |].
    + assert (t' = t) as ->.
      { destruct Hft as (H1 & H2 & H3), Hft' as (H1' & H2' & H3').
        destruct (Z.lt_trichotomy t t') as [Hlt|[->|Hlt]]; [|done|].
        - exfalso. apply H2, H3'. lia.
        - exfalso. apply H2', H3. lia. }
      unfold z_registry_get, z_registry_has_key. cbn [orb]. change (MAX_REGISTRY_TYPE <? 0) with false.
      change (0 <? 0) with false. cbn [orb]. rewrite Hp, !Done_bind, Hv, Hty. cbn. done.
    + destruct Hft as (H1 & H2 & _). exfalso. apply H2, Hn. lia.
  - intros name Hn. destruct (probe_ok 16 reg name 0 Hw) as [(ze & t' & Hp & Hft' & Hv & Hty)|[Hp _]]; [lia|lia| |].
    + destruct Hft' as (H1 & H2 & _). exfalso. apply H2, Hn. lia.
    + unfold z_registry_get, z_registry_has_key. change (MAX_REGISTRY_TYPE <? 0) with false.
      change (0 <? 0) with false. cbn [orb]. rewrite Hp, !Done_bind. done.
  - intros name t Ht. unfold z_registry_add, z_registry_get, MAX_REGISTRY_TYPE.
    destruct Ht; [rewrite (proj2 (Z.ltb_lt t 0)) by lia|rewrite (proj2 (Z.ltb_lt 16 t)) by lia];
      rewrite ?orb_true_r; done.
Qed.

Lemma registry_spec_witness :
  z_registry_get z_registry_init (str "http") (Some 1) = Done (0, Some 1).
Proof. apply (proj1 (proj2 (registry_spec z_registry_init init_wf))). lia. Defined.

(** The type 16 passes the checks and is outside the array. *)
Example registry_type_16 :
  z_registry_add z_registry_init (str "x") 16 1 = Fault OutOfBounds ∧
  z_registry_get z_registry_init (str "x") (Some 16) = Fault OutOfBounds.
Proof. by vm_compute. Qed.

(** Names of 32 and more characters are not found by their own name. *)
Example registry_long_name :
  let name := replicate 32 97 in
  (reg ← z_registry_add z_registry_init name 1 7; z_registry_get reg name (Some 1)) = Done (0, Some 1).
Proof. by vm_compute. Qed.
