(* ===== verification/Log.v ===== *)
(** * Log levels (src/src/log.c)

    The logspec (which messages are logged, by tag), its parser, the caches of the
    levels of tags, and the operations on this global state.  Sending messages, and
    the locks, are not part of the model: the operations run one after the other. *)

From S2P Require Import Prelude CLib.
Open Scope Z_scope.

(** ** Log specifications *)

Record ZLogSpecItem := mkItem { pattern : list Z; item_level : Z }.

Record ZLogSpec := mkSpec { items : list ZLogSpecItem; verbose_level : Z }.

(** The text in front of the first dot, and the text behind it if there is one. *)
Fixpoint strchr_dot (s : list Z) : list Z * option (list Z) :=
  match s with
  | [] => ([], None)
  | c :: s => if c =? chr "." then ([], Some s) else let '(a, r) := strchr_dot s in (c :: a, r)
  end.

(** Components that differ: [(len1 != 1 || memcmp(glob, "*", 1)) && (len1 != len2 || memcmp)]. *)
Definition differ (g t : list Z) : bool := negb (str_eq g (str "*")) && negb (str_eq g t).

Fixpoint glob_loop (fuel : nat) (glob tag : list Z) : outcome bool :=
  let '(g, p1) := strchr_dot glob in
  let '(t, p2) := strchr_dot tag in
  match p1, p2 with
  | Some glob, Some tag =>
      if differ g t then Done false
      else match fuel with O => Fault OutOfFuel | S fuel => glob_loop fuel glob tag end
  | _, _ =>
      if differ g t then Done false
      else
        let glob := drop (length g) glob in
        let tag := drop (length t) tag in
        Done (negb (bool_decide (length tag < length glob)%nat))
  end.

Definition z_log_spec_glob_match (glob tag : list Z) : outcome bool := glob_loop (length glob) glob tag.

Fixpoint eval_items (l : list ZLogSpecItem) (default : Z) (tag : list Z) : outcome Z :=
  match l with
  | lsi :: l =>
      m ← z_log_spec_glob_match (pattern lsi) tag;
      if m : bool then Done (item_level lsi) else eval_items l default tag
  | [] => Done default
  end.

Definition z_log_spec_eval (self : ZLogSpec) (tag : list Z) : outcome Z :=
  eval_items (items self) (verbose_level self) tag.

Definition z_log_spec_destroy (self : ZLogSpec) : ZLogSpec := mkSpec [] (verbose_level self).

(** ** Parsing *)

Definition isalnum (c : Z) : bool := isdigit c || islower c || isupper c.

(** [while (p(c)) src++], and what was stepped over. *)
Fixpoint span (p : Z → bool) (s : list Z) : list Z * list Z :=
  match s with
  | c :: r => if p c then let '(a, r) := span p r in (c :: a, r) else ([], s)
  | [] => ([], [])
  end.

Definition glob_char (c : Z) : bool := isalnum c || (c =? chr ".") || (c =? chr "*").

(** The items are prepended, and reversed at the end. *)
Fixpoint spec_loop (fuel : nat) (src : list Z) (l : list ZLogSpecItem) : outcome (option (list ZLogSpecItem)) :=
  match src with
  | [] => Done (Some (reverse l))
  | _ =>
      match fuel with
      | O => Fault OutOfFuel
      | S fuel =>
          let src := snd (span (λ c, (c =? chr ",") || (c =? chr " ")) src) in
          let '(glob, src) := span glob_char src in
          if negb (cur src =? chr ":") then Done None
          else
            let '(level, end_) := strtoul (drop 1 src) in
            let src := snd (span (λ c, negb (c =? chr ",")) end_) in
            spec_loop fuel src (mkItem glob (s32 level) :: l)
      end
  end.

Definition z_log_spec_init (logspec_str : option (list Z)) (default_verbosity : Z)
    : outcome (bool * ZLogSpec) :=
  let tmp := default [] logspec_str in
  r ← spec_loop (length tmp) tmp [];
  match r with
  | Some l => Done (true, mkSpec l default_verbosity)
  | None => Done (false, z_log_spec_destroy (mkSpec [] default_verbosity))
  end.

(** ** Global state *)

Record ZLogTagCache := mkCache {
  empty_hash : bool;
  used : bool;
  tag_hash : gmap (list Z) Z       (* the level plus one *)
}.

Record log_state := mkLog {
  log_spec : ZLogSpec;
  log_spec_str : option (list Z);
  logtag_caches : list ZLogTagCache;
  current_logtag_cache : gmap Z nat;         (* per thread: index of its cache *)
  log_map_tag : option (list Z → Z → Z);
  log_mapped_tags_verb : list Z              (* guchar, the level plus one *)
}.

Definition set_spec (st : log_state) (s : ZLogSpec) (text : option (list Z)) : log_state :=
  mkLog s text (logtag_caches st) (current_logtag_cache st) (log_map_tag st) (log_mapped_tags_verb st).
Definition set_caches (st : log_state) (l : list ZLogTagCache) (cur : gmap Z nat) : log_state :=
  mkLog (log_spec st) (log_spec_str st) l cur (log_map_tag st) (log_mapped_tags_verb st).
Definition set_verbs (st : log_state) (f : option (list Z → Z → Z)) (v : list Z) : log_state :=
  mkLog (log_spec st) (log_spec_str st) (logtag_caches st) (current_logtag_cache st) f v.

Definition z_log_clear_caches (st : log_state) : log_state :=
  let l := (λ lc, mkCache true (used lc) (tag_hash lc)) <$> logtag_caches st in
  let st := set_caches st l (current_logtag_cache st) in
  set_verbs st (log_map_tag st) ((λ _, 0) <$> log_mapped_tags_verb st).

(** The first cache that is not used, or a new one. *)
Definition z_log_grab_cache (st : log_state) (thread : Z) : log_state :=
  let '(i, l) := match list_find (λ lc, used lc = false) (logtag_caches st) with
                 | Some (i, lc) => (i, logtag_caches st)
                 | None => (length (logtag_caches st), logtag_caches st ++ [mkCache false false ∅])
                 end in
  set_caches st (alter (λ lc, mkCache (empty_hash lc) true (tag_hash lc)) i l)
    (<[thread := i]> (current_logtag_cache st)).

Definition z_log_release_cache (st : log_state) (thread : Z) : log_state :=
  match current_logtag_cache st !! thread with
  | Some i => set_caches st (alter (λ lc, mkCache (empty_hash lc) false (tag_hash lc)) i (logtag_caches st))
                (current_logtag_cache st)
  | None => st
  end.

Definition sint (x : Z) : outcome Z := _ ← require (- 2 ^ 31 ≤ x < 2 ^ 31) SignedOverflow; Done x.

(** The new state and the new level. *)
Definition z_log_change_verbose_level (st : log_state) (direction value : Z) : outcome (Z * log_state) :=
  let old := verbose_level (log_spec st) in
  v ← (if direction <? 0 then sint (old - value)
       else if direction =? 0 then Done value
       else sint (old + value));
  let v := if v <? 0 then 0 else v in
  let v := if 10 <? v then 10 else v in
  let st := set_spec st (mkSpec (items (log_spec st)) v) (log_spec_str st) in
  Done (v, if old =? v then st else z_log_clear_caches st).

(** The result, the new state, and the value returned through the second argument on
    success. *)
Definition z_log_change_logspec (st : log_state) (new_log_spec_str : option (list Z))
    : outcome (bool * log_state * option (list Z)) :=
  match new_log_spec_str with
  | Some s =>
      '(ok, new_spec) ← z_log_spec_init (Some s) (verbose_level (log_spec st));
      if ok : bool
      then let st := z_log_clear_caches (set_spec st new_spec (Some s)) in Done (true, st, log_spec_str st)
      else Done (false, st, None)
  | None => Done (true, st, log_spec_str st)
  end.

Definition z_log_enable_tag_map_cache (st : log_state) (map_tags : list Z → Z → Z) (max_tag : Z)
    : outcome log_state :=
  _ ← require (log_map_tag st = None) AssertFailed;
  Done (set_verbs st (Some map_tags) (replicate (Z.to_nat max_tag) 0)).

(** The slow path, with the hash table of the thread. *)
Definition enabled_hash (st : log_state) (thread : Z) (tag : list Z) (level : Z) : outcome (bool * log_state) :=
  match current_logtag_cache st !! thread with
  | None => Done (level <=? verbose_level (log_spec st), st)
  | Some i =>
      match logtag_caches st !! i with
      | None => Fault OutOfBounds
      | Some lc =>
          let lc := if empty_hash lc then mkCache false (used lc) ∅ else lc in
          let verbose := default 0 (tag_hash lc !! tag) in
          '(verbose, lc) ←
            (if verbose =? 0 then
               verbose ← z_log_spec_eval (log_spec st) tag;
               v1 ← sint (verbose + 1);
               Done (verbose, mkCache (empty_hash lc) (used lc) (<[tag := v1]> (tag_hash lc)))
             else Done (verbose - 1, lc));
          Done (level <=? verbose, set_caches st (<[i := lc]> (logtag_caches st)) (current_logtag_cache st))
      end
  end.

(** [thread] is the caller. *)
Definition z_log_enabled_len (st : log_state) (thread : Z) (tag : list Z) (tag_len level : Z)
    : outcome (bool * log_state) :=
  match items (log_spec st) with
  | [] => Done (level <=? verbose_level (log_spec st), st)
  | _ =>
      match log_map_tag st with
      | None => enabled_hash st thread tag level
      | Some map_tag =>
          let tag_ndx := map_tag tag tag_len in
          if tag_ndx =? -1 then enabled_hash st thread tag level
          else
            verbose ← load (log_mapped_tags_verb st) tag_ndx;
            if verbose =? 0 then
              verbose ← z_log_spec_eval (log_spec st) tag;
              verbs ← store (log_mapped_tags_verb st) tag_ndx (u8 (Z.land verbose 255 + 1));
              Done (level <=? verbose, set_verbs st (log_map_tag st) verbs)
            else Done (level <=? verbose - 1, st)
      end
  end.

(** ** Matching *)

(** The components of a tag or pattern. *)
Fixpoint components (s : list Z) : list (list Z) :=
  match s with
  | [] => [[]]
  | c :: s =>
      if c =? chr "." then [] :: components s
      else match components s with w :: ws => (c :: w) :: ws | [] => [[c]] end
  end.

(** A pattern matches the tags it is a prefix of, component by component; a star
    matches every component. *)
Fixpoint prefix_match (gs ts : list (list Z)) : bool :=
  match gs, ts with
  | [], _ => true
  | g :: gs, t :: ts => (bool_decide (g = str "*") || bool_decide (g = t)) && prefix_match gs ts
  | _ :: _, [] => false
  end.

Lemma strchr_dot_spec s :
  let '(a, r) := strchr_dot s in
  s = a ++ match r with Some r => chr "." :: r | None => [] end ∧
  components s = a :: match r with Some r => components r | None => [] end.
Proof.
  induction s as [|c s IH]; [done|]. cbn [strchr_dot components].
  destruct (Z.eqb_spec c (chr ".")) as [->|Hc]; [done|].
  destruct (strchr_dot s) as [a r]. destruct IH as [Hs Hcs]. rewrite Hcs. split; [|done].
  rewrite Hs at 1. done.
Qed.

Lemma components_nonempty s : components s ≠ [].
Proof.
  pose proof (strchr_dot_spec s) as H. destruct (strchr_dot s) as [a r]. by destruct H as [_ ->].
Qed.

Lemma differ_spec g t : differ g t = negb (bool_decide (g = str "*") || bool_decide (g = t)).
Proof. unfold differ, str_eq. by rewrite negb_orb. Qed.

Lemma strchr_dot_drop s :
  let '(a, r) := strchr_dot s in
  drop (length a) s = match r with Some r => chr "." :: r | None => [] end.
Proof.
  pose proof (strchr_dot_spec s) as H. destruct (strchr_dot s) as [a r]. destruct H as [-> _].
  apply drop_app_length.
Qed.

Lemma glob_loop_ok fuel : ∀ glob tag,
  (length glob ≤ fuel)%nat → glob_loop fuel glob tag = Done (prefix_match (components glob) (components tag)).
Proof.
  induction fuel as [|fuel IH]; intros glob tag Hf; cbn [glob_loop];
    pose proof (strchr_dot_spec glob) as Hg; pose proof (strchr_dot_spec tag) as Ht;
    pose proof (strchr_dot_drop glob) as Hdg; pose proof (strchr_dot_drop tag) as Hdt;
    destruct (strchr_dot glob) as [g p1], (strchr_dot tag) as [t p2];
    destruct Hg as [Hg ->], Ht as [Ht ->]; cbn [prefix_match]; rewrite differ_spec;
    (destruct p1 as [glob1|], p2 as [tag1|];
     destruct (bool_decide (g = str "*") || bool_decide (g = t)); cbn [negb andb]; try done).
  all: try (subst glob; rewrite length_app in Hf; cbn in Hf; lia).
  all: rewrite ?Hdg, ?Hdt; cbn [length].
  all: try (apply IH; subst glob; rewrite length_app in Hf; cbn in Hf; lia).
  all: try (by rewrite bool_decide_false by lia).
  rewrite bool_decide_true by lia. pose proof (components_nonempty glob1).
  by destruct (components glob1).
Qed.

(** A pattern of a logspec matches a tag if its components are, one by one, a star or
    equal to the first components of the tag. *)
Theorem z_log_spec_glob_match_spec (glob tag : list Z) :
  z_log_spec_glob_match glob tag = Done (prefix_match (components glob) (components tag)).
Proof. by apply glob_loop_ok. Qed.

Example glob_examples :
  (λ p, z_log_spec_glob_match (str p) (str "http.request.error")) <$>
    ["http"; "http.request"; "*.request"; "http.*.error"; "*"; ""; "http.req"; "http.request.error.x"; "h*"]%string =
  Done <$> [true; true; true; true; true; false; false; false; false].
Proof. by vm_compute. Qed.

(** The level of the first item that matches. *)
Definition level_of (s : ZLogSpec) (tag : list Z) : Z :=
  default (verbose_level s)
    (item_level <$> (head (filter (λ it, prefix_match (components (pattern it)) (components tag) = true) (items s)))).

Lemma z_log_spec_eval_ok s tag : z_log_spec_eval s tag = Done (level_of s tag).
Proof.
  unfold z_log_spec_eval, level_of. destruct s as [l v]. cbn. induction l as [|it l IH]; [done|].
  cbn [eval_items]. unfold z_log_spec_glob_match. rewrite glob_loop_ok, Done_bind by done.
  rewrite filter_cons.
  destruct (prefix_match (components (pattern it)) (components tag)) eqn:E.
  - by rewrite decide_True by done.
  - by rewrite decide_False by done.
Qed.

(** ** Parsing of printed specifications *)

Definition print_spec_item (it : ZLogSpecItem) : list Z := pattern it ++ chr ":" :: print_dec (item_level it).

Fixpoint print_spec_items (its : list ZLogSpecItem) : list Z :=
  match its with
  | [] => []
  | [it] => print_spec_item it
  | it :: its => print_spec_item it ++ chr "," :: print_spec_items its
  end.

Definition spec_item_ok (it : ZLogSpecItem) : Prop :=
  Forall (λ c, glob_char c = true) (pattern it) ∧ 0 ≤ item_level it < 2 ^ 31.

Lemma span_app p a r :
  Forall (λ c, p c = true) a → (r = [] ∨ p (cur r) = false) → span p (a ++ r) = (a, r).
Proof.
  intros Ha Hr. induction Ha as [|c a Hc _ IH]; cbn [app span].
  - destruct r as [|c r]; [done|]. destruct Hr as [|Hr]; [done|]. cbn in *. by rewrite Hr.
  - by rewrite Hc, IH.
Qed.

Lemma span_snd_suffix p s : (span p s).2 `suffix_of` s.
Proof.
  induction s as [|c s IH]; cbn; [done|]. destruct (p c); [|done]. destruct (span p s) as [a r].
  cbn in *. by apply suffix_cons_r.
Qed.

Definition separator (c : Z) : bool := (c =? chr ",") || (c =? chr " ").

Lemma glob_char_facts c : glob_char c = true → separator c = false.
Proof.
  unfold glob_char, separator, isalnum, isdigit, islower, isupper.
  change (chr ".") with 46. change (chr "*") with 42. change (chr ",") with 44. change (chr " ") with 32. lia.
Qed.

(** One item, in front of the end or of a comma. *)
Lemma spec_loop_item fuel lead it r l :
  spec_item_ok it → lead = [] ∨ lead = [chr ","] → r = [] ∨ (∃ r', r = chr "," :: r') →
  spec_loop (S fuel) (lead ++ print_spec_item it ++ r) l = spec_loop fuel r (it :: l).
Proof.
  destruct it as [pat v]. unfold spec_item_ok, print_spec_item. cbn [pattern item_level]. intros [Hp Hv] Hlead Hr.
  assert (Hne : ∃ c s, lead ++ (pat ++ chr ":" :: print_dec v) ++ r = c :: s).
  { destruct Hlead as [->| ->]; cbn [app]; [|by eexists _, _]. destruct pat; by eexists _, _. }
  destruct Hne as (c & s & E). cbn [spec_loop]. rewrite E, <- E.
  set (txt := chr ":" :: print_dec v ++ r).
  replace ((pat ++ chr ":" :: print_dec v) ++ r) with (pat ++ txt) by (unfold txt; by rewrite <- app_assoc).
  change (λ c, (c =? chr ",") || (c =? chr " ")) with separator.
  assert (Hs1 : span separator (lead ++ pat ++ txt) = (lead, pat ++ txt)).
  { apply span_app; [destruct Hlead as [->| ->]; repeat constructor|]. right.
    destruct Hp as [|x pat Hx _]; [done|]. cbn. by apply glob_char_facts. }
  assert (Hs2 : span glob_char (pat ++ txt) = (pat, txt)) by (apply span_app; [done|by right]).
  rewrite Hs1. cbn [snd]. rewrite Hs2. unfold txt. cbn [cur drop].
  rewrite Z.eqb_refl. cbn [negb]. rewrite drop_0.
  assert (Hd : isdigit (cur r) = false) by (by destruct Hr as [->|[? ->]]).
  rewrite strtoul_print by (done || lia).
  assert (Hs3 : span (λ c, negb (c =? chr ",")) r = ([], r)) by (by destruct Hr as [->|[? ->]]).
  rewrite Hs3. cbn [snd]. by rewrite s32_small by lia.
Qed.

Lemma spec_loop_items its : ∀ fuel lead l,
  Forall spec_item_ok its → its ≠ [] → lead = [] ∨ lead = [chr ","] → (length its ≤ fuel)%nat →
  spec_loop fuel (lead ++ print_spec_items its) l = Done (Some (reverse l ++ its)).
Proof.
  induction its as [|it its IH]; intros fuel lead l Hok Hne Hlead Hf; [done|].
  inversion_clear Hok as [|? ? Hit Hits]. destruct fuel as [|fuel]; [cbn in Hf; lia|].
  destruct its as [|it2 its].
  - cbn [print_spec_items]. rewrite <- (app_nil_r (print_spec_item it)), spec_loop_item by auto.
    destruct fuel; cbn [spec_loop]; by rewrite reverse_cons.
  - change (print_spec_items (it :: it2 :: its)) with (print_spec_item it ++ chr "," :: print_spec_items (it2 :: its)).
    rewrite spec_loop_item by eauto. change (chr "," :: ?x) with ([chr ","] ++ x).
    rewrite IH; [|done|done|by right|cbn in *; lia]. by rewrite reverse_cons, <- app_assoc.
Qed.

Lemma spec_loop_ends fuel : ∀ src l, (length src ≤ fuel)%nat → ∃ r, spec_loop fuel src l = Done r.
Proof.
  induction fuel as [|fuel IH]; intros src l Hf.
  - destruct src; [by eexists|cbn in Hf; lia].
  - destruct src as [|c s]; [by eexists|]. cbn [spec_loop]. set (src := c :: s) in *.
    pose proof (span_snd_suffix (λ c, (c =? chr ",") || (c =? chr " ")) src) as H1.
    destruct (span _ src) as [a1 s1]. cbn [snd] in *.
    pose proof (span_snd_suffix glob_char s1) as H2.
    destruct (span glob_char s1) as [glob s2]. cbn [snd] in *.
    destruct (Z.eqb_spec (cur s2) (chr ":")) as [E|]; cbn [negb]; [|by eexists].
    destruct s2 as [|c2 s2]; [done|]. cbn [drop]. rewrite drop_0.
    pose proof (strtoul_suffix s2) as H3. destruct (strtoul s2) as [v s3]. cbn [snd] in *.
    pose proof (span_snd_suffix (λ c, negb (c =? chr ",")) s3) as H4.
    apply IH. apply suffix_length in H1, H2, H3, H4. cbn [length] in H2. lia.
Qed.

Lemma print_spec_items_length its : (length its ≤ length (print_spec_items its))%nat.
Proof.
  induction its as [|it its IH]; [done|]. destruct its as [|it2 its].
  - cbn [print_spec_items]. unfold print_spec_item. rewrite length_app. cbn [length]. lia.
  - change (print_spec_items (it :: it2 :: its)) with (print_spec_item it ++ chr "," :: print_spec_items (it2 :: its)).
    rewrite length_app. cbn [length] in *. lia.
Qed.

(** Every text is accepted or rejected as a logspec, a rejected one leaves no item;
    and the text of a list of patterns and levels, separated by commas, is accepted
    as these items in this order. *)
Theorem z_log_spec_init_spec (default_verbosity : Z) :
  (∀ s, ∃ ok spec, z_log_spec_init s default_verbosity = Done (ok, spec) ∧
     verbose_level spec = default_verbosity ∧ (ok = false → items spec = [])) ∧
  (∀ its, Forall spec_item_ok its →
     z_log_spec_init (Some (print_spec_items its)) default_verbosity = Done (true, mkSpec its default_verbosity)).
Proof.
  unfold z_log_spec_init. split.
  - intros s. destruct (spec_loop_ends (length (default [] s)) (default [] s) [] ltac:(done)) as [r Hr].
    rewrite Hr, Done_bind. by destruct r; eexists _, _.
  - intros its Hok. change (default [] (Some ?x)) with x. destruct its as [|it its]; [done|].
    pose proof (spec_loop_items (it :: its) (length (print_spec_items (it :: its))) [] []) as Hs.
    cbn [app] in Hs. rewrite Hs, Done_bind; [done|done|done|by left|apply print_spec_items_length].
Qed.

Lemma z_log_spec_init_spec_witness :
  z_log_spec_init (Some (str "core.*:3,http:6")) 4 =
  Done (true, mkSpec [mkItem (str "core.*") 3; mkItem (str "http") 6] 4).
Proof.
  apply (proj2 (z_log_spec_init_spec 4) [mkItem (str "core.*") 3; mkItem (str "http") 6]).
  repeat constructor; cbn; lia.
Defined.

(** A comma at the end makes a logspec invalid; levels are cut to a gint. *)
Example spec_comma_level :
  fst <$> z_log_spec_init (Some (str "core:3,")) 0 = Done false ∧
  z_log_spec_init (Some (str "core:4294967295x,")) 0 = Done (false, mkSpec [] 0) ∧
  z_log_spec_init (Some (str "core:4294967295")) 0 = Done (true, mkSpec [mkItem (str "core") (-1)] 0).
Proof. by vm_compute. Qed.

(** ** Caches *)

Definition levels_ok (s : ZLogSpec) : Prop :=
  Forall (λ it, 0 ≤ item_level it < 256) (items s) ∧ 0 ≤ verbose_level s < 256.

Lemma level_of_range s tag : levels_ok s → 0 ≤ level_of s tag < 256.
Proof.
  intros [Hi Hv]. unfold level_of. destruct (filter _ (items s)) as [|it l] eqn:E; [done|]. cbn.
  rewrite Forall_forall in Hi. apply Hi.
  assert (Hin : it ∈ filter (λ it, prefix_match (components (pattern it)) (components tag) = true) (items s))
    by (rewrite E; left).
  by apply list_elem_of_filter in Hin as [_ ?].
Qed.

Definition cache_coherent (s : ZLogSpec) (lc : ZLogTagCache) : Prop :=
  empty_hash lc = false → ∀ tag v, tag_hash lc !! tag = Some v → v = level_of s tag + 1.

Definition verbs_coherent (s : ZLogSpec) (f : list Z → Z → Z) (verbs : list Z) : Prop :=
  ∀ tag len, f tag len ≠ -1 →
    ∃ v, 0 ≤ f tag len ∧ verbs !! Z.to_nat (f tag len) = Some v ∧ (v = 0 ∨ v = level_of s tag + 1).

(** Everything that is remembered is the level by the current logspec. *)
Record coherent (st : log_state) : Prop := {
  co_caches : Forall (cache_coherent (log_spec st)) (logtag_caches st);
  co_verbs f : log_map_tag st = Some f → verbs_coherent (log_spec st) f (log_mapped_tags_verb st);
  co_threads th i : current_logtag_cache st !! th = Some i → (i < length (logtag_caches st))%nat
}.

(** A tag map gives different tags different numbers; -1 stands for an unknown tag. *)
Definition injective_map (f : list Z → Z → Z) : Prop :=
  ∀ t1 l1 t2 l2, f t1 l1 = f t2 l2 → f t1 l1 ≠ -1 → t1 = t2.

Lemma clear_coherent st s text :
  (∀ th i, current_logtag_cache st !! th = Some i → (i < length (logtag_caches st))%nat) →
  (∀ f, log_map_tag st = Some f → verbs_coherent (log_spec st) f (log_mapped_tags_verb st)) →
  coherent (z_log_clear_caches (set_spec st s text)).
Proof.
  intros Ht Hv. split; cbn.
  - apply Forall_fmap, Forall_true. intros lc Hc. done.
  - intros f Hf tag len Hne. destruct (Hv f Hf tag len Hne) as (v & Hpos & Hlk & _).
    exists 0. rewrite list_lookup_fmap, Hlk. auto.
  - intros th i Hi. rewrite length_fmap. by eapply Ht.
Qed.

Lemma enabled_hash_ok st thread tag level :
  coherent st → levels_ok (log_spec st) → is_Some (current_logtag_cache st !! thread) →
  ∃ st', enabled_hash st thread tag level = Done (level <=? level_of (log_spec st) tag, st') ∧
    coherent st' ∧ log_spec st' = log_spec st.
Proof.
  intros [Hc Hv Ht] Hl [i Hi]. unfold enabled_hash. rewrite Hi.
  destruct (lookup_lt_is_Some_2 _ _ (Ht _ _ Hi)) as [lc Hlc]. rewrite Hlc.
  pose proof (level_of_range (log_spec st) tag Hl) as Hr.
  assert (Hok : ∀ lc', cache_coherent (log_spec st) lc' →
            coherent (set_caches st (<[i := lc']> (logtag_caches st)) (current_logtag_cache st))).
  { intros lc' Hlc'. split; cbn; [by apply Forall_insert|done|].
    intros th j Hj. rewrite length_insert. by eapply Ht. }
  rewrite Forall_forall in Hc. apply list_elem_of_lookup_2 in Hlc. specialize (Hc _ Hlc).
  set (lc1 := if empty_hash lc then _ else lc).
  assert (Hc1 : cache_coherent (log_spec st) lc1 ∧ empty_hash lc1 = false).
  { unfold lc1. destruct (empty_hash lc) eqn:E; [|done]. split; [|done]. intros _ t v. cbn. by rewrite lookup_empty. }
  destruct Hc1 as [Hc1 He1]. clearbody lc1.
  destruct (tag_hash lc1 !! tag) as [v|] eqn:Ev; cbn [default].
  - pose proof (Hc1 He1 _ _ Ev) as ->. unfold id. rewrite (proj2 (Z.eqb_neq _ 0)) by lia. rewrite Done_bind.
    replace (level_of (log_spec st) tag + 1 - 1) with (level_of (log_spec st) tag) by lia.
    eexists. split; [done|]. split; [by apply Hok|done].
  - rewrite Z.eqb_refl, z_log_spec_eval_ok, Done_bind. unfold sint.
    rewrite require_true, !Done_bind by lia. eexists. split; [done|]. split; [|done]. apply Hok.
    intros _ t v. cbn. rewrite lookup_insert. case_decide as Htt; [subst; by intros [= <-]|]. by apply Hc1.
Qed.

(** As long as the levels fit a byte and the tag map gives different tags different
    numbers, what is remembered never differs from the logspec: every check answers
    by the first matching item of the current logspec, whatever was checked before,
    and every change of the logspec or of the verbosity, every new thread and every
    check keep it so. *)
Theorem log_caches_coherent (st : log_state) :
  coherent st →
  (∀ thread tag tag_len level, levels_ok (log_spec st) → is_Some (current_logtag_cache st !! thread) →
     (∀ f, log_map_tag st = Some f → injective_map f) →
     ∃ st', z_log_enabled_len st thread tag tag_len level =
       Done (level <=? level_of (log_spec st) tag, st') ∧ coherent st' ∧ log_spec st' = log_spec st) ∧
  (∀ direction value v st', z_log_change_verbose_level st direction value = Done (v, st') →
     coherent st' ∧ v = verbose_level (log_spec st') ∧ 0 ≤ v ≤ 10 ∧ items (log_spec st') = items (log_spec st)) ∧
  (∀ text, ∃ ok st' out, z_log_change_logspec st text = Done (ok, st', out) ∧ coherent st' ∧
     (ok = false → st' = st)) ∧
  (∀ thread, coherent (z_log_grab_cache st thread) ∧ coherent (z_log_release_cache st thread)).
Proof.
  intros Hco. pose proof Hco as [Hc Hv Ht]. split_and!.
  - intros thread tag tag_len level Hl Hth Hinj. unfold z_log_enabled_len.
    destruct (items (log_spec st)) as [|it its] eqn:Eits.
    { exists st. split; [|done]. unfold level_of. by rewrite Eits. }
    destruct (log_map_tag st) as [f|] eqn:Ef; [|by apply enabled_hash_ok].
    destruct (Z.eqb_spec (f tag tag_len) (-1)) as [|Hne]; [by apply enabled_hash_ok|].
    destruct (Hv f eq_refl tag tag_len Hne) as (v & Hpos & Hlk & Hcase).
    rewrite (proj2 (load_Done _ _ v)), Done_bind by done.
    pose proof (level_of_range (log_spec st) tag Hl) as Hr.
    destruct (Z.eqb_spec v 0) as [->|Hnz].
    + rewrite z_log_spec_eval_ok, Done_bind. pose proof (lookup_lt_Some _ _ _ Hlk).
      rewrite (proj2 (store_Done _ _ _ _)) by (split; [lia|done]). rewrite Done_bind.
      eexists. split; [done|]. split; [|done]. split; cbn; [done| |done].
      intros f' Hf' tag' len' Hne'. injection Hf' as <-.
      destruct (Hv f eq_refl tag' len' Hne') as (v' & Hpos' & Hlk' & Hcase').
      destruct (decide (f tag' len' = f tag tag_len)) as [E|E].
      * pose proof (Hinj f eq_refl _ _ _ _ E Hne') as ->. rewrite E.
        rewrite list_lookup_insert_eq by lia. eexists. split; [lia|]. split; [done|].
        change 255 with (Z.ones 8). rewrite Z.land_ones, Z.mod_small by lia. unfold u8.
        destruct (decide (level_of (log_spec st) tag = 255)) as [->|]; [by left|]. right.
        rewrite Z.mod_small; lia.
      * exists v'. rewrite list_lookup_insert_ne by lia. done.
    + destruct Hcase as [| ->]; [done|]. exists st. split; [|done].
      do 2 f_equal. lia.
  - intros direction value v st' H. unfold z_log_change_verbose_level in H.
    apply bind_Done in H as (v0 & _ & H). injection H as <- <-.
    set (v1 := if v0 <? 0 then 0 else v0). set (v2 := if 10 <? v1 then 10 else v1).
    assert (Hv2 : 0 ≤ v2 ≤ 10).
    { unfold v2, v1. repeat case_match; lia. }
    destruct (Z.eqb_spec (verbose_level (log_spec st)) v2) as [E|E].
    + split; [|done]. rewrite <- E. by destruct st as [[]].
    + split; [by apply clear_coherent|done].
  - intros [text|]; cbn [z_log_change_logspec].
    + destruct (proj1 (z_log_spec_init_spec (verbose_level (log_spec st))) (Some text)) as (ok & spec & Hs & _).
      rewrite Hs, Done_bind. destruct ok.
      * eexists _, _, _. split; [done|]. split; [by apply clear_coherent|done].
      * by eexists _, _, _.
    + by eexists _, _, _.
  - intros thread. unfold z_log_grab_cache. split.
    + destruct (list_find _ _) as [[i lc]|] eqn:Ef.
      * apply list_find_Some in Ef as (Hlk & _ & _). split; cbn; [|done|].
        -- apply Forall_alter; [done|]. by intros x Hx Hcx.
        -- intros th j Hj. rewrite length_alter. apply lookup_insert_Some in Hj as [[<- <-]|[_ Hj]];
             [by eapply lookup_lt_Some|by eapply Ht].
      * split; cbn; [|done|].
        -- apply Forall_alter; [|by intros x Hx Hcx].
           apply Forall_app_2; [done|]. repeat constructor. intros _ t v. cbn. by rewrite lookup_empty.
        -- intros th j Hj. rewrite length_alter, length_app. cbn [length].
           apply lookup_insert_Some in Hj as [[<- <-]|[_ Hj]]; [lia|]. apply Ht in Hj. lia.
    + unfold z_log_release_cache. destruct (current_logtag_cache st !! thread) as [i|] eqn:Ei; [|done].
      split; cbn; [|done|].
      * apply Forall_alter; [done|]. by intros x Hx Hcx.
      * intros th j Hj. rewrite length_alter. by eapply Ht.
Qed.

Lemma log_caches_coherent_witness :
  let st := mkLog (mkSpec [mkItem (str "http") 6] 3) None [mkCache false true {[str "http.a" := 7]}]
              {[1 := 0%nat]} None [] in
  ∃ st', z_log_enabled_len st 1 (str "http.a") 6 5 = Done (true, st').
Proof.
  intros st. assert (Hco : coherent st).
  { split.
    - apply Forall_singleton. intros _ t v Ht. cbn [tag_hash] in Ht; apply lookup_singleton_Some in Ht as [<- <-]. by vm_compute.
    - done.
    - intros th i Hi. cbn [st current_logtag_cache] in Hi; apply lookup_singleton_Some in Hi as [_ <-]. cbn. lia. }
  destruct (proj1 (log_caches_coherent st Hco)
    1 (str "http.a") 6 5) as (st' & H & _).
  - split; [repeat constructor|]; cbn; lia.
  - by eexists.
  - done.
  - exists st'. exact H.
Defined.

(** A level that does not fit a byte is remembered cut to eight bits: the second check
    of the same tag answers differently. *)
Example level_300 :
  let st := mkLog (mkSpec [mkItem (str "http") 300] 3) None [] ∅ (Some (λ _ _, 0)) [0] in
  ('(a, st) ← z_log_enabled_len st 1 (str "http") 4 100;
   '(b, _) ← z_log_enabled_len st 1 (str "http") 4 100; Done (a, b)) = Done (true, false).
Proof. by vm_compute. Qed.

(** A thread without a cache ignores the logspec. *)
Example no_cache_no_logspec :
  let st := mkLog (mkSpec [mkItem (str "http") 6] 3) None [] ∅ None [] in
  fst <$> z_log_enabled_len st 1 (str "http") 4 5 = Done false.
Proof. by vm_compute. Qed.

(** Running threads, and their caches: each has one of its own that is marked used. *)
Definition exclusive (st : log_state) (running : gset Z) : Prop :=
  ∀ th, th ∈ running → ∃ i lc, current_logtag_cache st !! th = Some i ∧
    logtag_caches st !! i = Some lc ∧ used lc = true ∧
    ∀ th', th' ∈ running → current_logtag_cache st !! th' = Some i → th' = th.

(** No two running threads share a cache, so that the caches need no locks: starting
    a thread gives it a cache that no running thread has, and a thread that stops
    gives its own back. *)
Theorem log_caches_exclusive (st : log_state) (running : gset Z) (thread : Z) :
  exclusive st running →
  (thread ∉ running → exclusive (z_log_grab_cache st thread) ({[thread]} ∪ running)) ∧
  (thread ∈ running → exclusive (z_log_release_cache st thread) (running ∖ {[thread]})) ∧
  exclusive (z_log_clear_caches st) running.
Proof.
  intros Hex. split_and!.
  - intros Hnew. unfold z_log_grab_cache.
    set (f := λ lc, mkCache (empty_hash lc) true (tag_hash lc)).
    assert (Hgrab : ∀ i l, (∃ lc, l !! i = Some lc ∧ used lc = false) →
      (∀ j lc, logtag_caches st !! j = Some lc → l !! j = Some lc) →
      exclusive (set_caches st (alter f i l) (<[thread := i]> (current_logtag_cache st))) ({[thread]} ∪ running)).
    { intros i l (lc & Hi & Hu) Hl.
      assert (Hold : ∀ th j, th ∈ running → current_logtag_cache st !! th = Some j → j ≠ i).
      { intros th j Hth Hj ->. destruct (Hex th Hth) as (i' & lc' & Hi' & Hlc' & Hu' & _).
        rewrite Hj in Hi'. injection Hi' as <-. apply Hl in Hlc'. congruence. }
      intros th [->%elem_of_singleton|Hth]%elem_of_union; cbn.
      - exists i, (f lc). rewrite lookup_insert_eq. split; [done|].
        split; [by rewrite list_lookup_alter_eq, Hi|]. split; [done|].
        intros th' [->%elem_of_singleton|Hth']%elem_of_union; [done|].
        rewrite lookup_insert_ne by set_solver. intros Hj. by destruct (Hold _ _ Hth' Hj).
      - destruct (Hex th Hth) as (j & lc' & Hj & Hlc' & Hu' & Huniq).
        exists j, lc'. pose proof (Hold _ _ Hth Hj). rewrite lookup_insert_ne by set_solver.
        split; [done|]. split; [rewrite list_lookup_alter_ne by done; by apply Hl|]. split; [done|].
        intros th' [->%elem_of_singleton|Hth']%elem_of_union.
        + rewrite lookup_insert_eq. naive_solver.
        + rewrite lookup_insert_ne by set_solver. by apply Huniq. }
    destruct (list_find _ _) as [[i lc]|] eqn:Ef.
    + apply list_find_Some in Ef as (Hlk & Hu & _). apply Hgrab; eauto.
    + apply Hgrab; [|intros j lc Hj; by apply lookup_app_l_Some].
      exists (mkCache false false ∅). by rewrite list_lookup_middle.
  - intros Hin. destruct (Hex thread Hin) as (i & lc & Hi & Hlc & Hu & Huniq).
    unfold z_log_release_cache. rewrite Hi.
    intros th [Hth Hne%not_elem_of_singleton]%elem_of_difference. cbn.
    destruct (Hex th Hth) as (j & lc' & Hj & Hlc' & Hu' & Huniq').
    exists j, lc'. split; [done|]. split; [|split; [done|set_solver]].
    rewrite list_lookup_alter_ne; [done|]. intros ->. by apply Hne, Huniq.
  - intros th Hth. destruct (Hex th Hth) as (j & lc' & Hj & Hlc' & Hu' & Huniq').
    eexists j, _. split; [done|]. cbn. split; [by rewrite list_lookup_fmap, Hlc'|done].
Qed.

Lemma log_caches_exclusive_witness :
  let st := mkLog (mkSpec [] 3) None [] ∅ None [] in
  exclusive (z_log_grab_cache st 1) ({[1]} ∪ ∅).
Proof.
  intros st. apply (log_caches_exclusive st ∅ 1); [|set_solver].
  intros th Hth. set_solver.
Defined.
