(* ===== verification/Source.v ===== *)
(** * Event sources (src/src/source.c, src/src/socketsource.c)

    The prepare, check and dispatch functions of the threshold, timeout and socket
    sources, between which the main loop waits.  The time is an argument. *)

From S2P Require Import Prelude Misc.
Open Scope Z_scope.

(** time_t arithmetic is that of a long. *)
Definition time_ok (t : Z) : Prop := 0 ≤ t < 2 ^ 40.

(** ** Threshold source *)

Record ZThresholdSource := mkThreshold {
  idle_threshold : Z;      (* guint *)
  busy_threshold : Z;      (* guint *)
  last_call : Z;           (* time_t *)
  start_time : Z           (* time_t *)
}.

(** g_source_new clears the structure. *)
Definition z_threshold_source_new (idle busy : Z) : ZThresholdSource := mkThreshold idle busy 0 0.

Definition z_threshold_source_set_threshold (self : ZThresholdSource) (idle busy : Z) : ZThresholdSource :=
  mkThreshold idle busy (last_call self) (start_time self).

(** The poll timeout, and the new state; the result is always FALSE. *)
Definition z_threshold_source_prepare (self : ZThresholdSource) (now : Z) : outcome (Z * ZThresholdSource) :=
  let self := mkThreshold (idle_threshold self) (busy_threshold self) (last_call self) now in
  busy ← slong (busy_threshold self + last_call self);
  busy ← slong (busy - now);
  let m := if idle_threshold self <? busy then idle_threshold self else busy in
  t ← slong (m * 1000);
  Done (s32 t, self).

Definition z_threshold_source_check (self : ZThresholdSource) (now : Z) : outcome bool :=
  idle ← slong (start_time self + idle_threshold self);
  if idle <=? now then Done true
  else busy ← slong (last_call self + busy_threshold self); Done (busy <=? now).

(** [callback] is what the callback returns, if there is one; [now] the time after it. *)
Definition z_threshold_source_dispatch (self : ZThresholdSource) (callback : option bool) (now : Z)
    : bool * ZThresholdSource :=
  match callback with
  | Some rc => (rc, mkThreshold (idle_threshold self) (busy_threshold self) now (start_time self))
  | None => (false, self)
  end.

Definition threshold_ok (self : ZThresholdSource) : Prop :=
  0 ≤ idle_threshold self < 2 ^ 32 ∧ 0 ≤ busy_threshold self < 2 ^ 32 ∧ time_ok (last_call self).

(** Before its thresholds have passed, a threshold source lets the main loop sleep
    exactly until it becomes ready: check answers TRUE if and only if the timeout that
    prepare returned has elapsed; and a dispatch puts the next busy deadline
    [busy_threshold] seconds after it. *)
Theorem threshold_source_spec (self : ZThresholdSource) (now later : Z) :
  threshold_ok self → time_ok now → time_ok later →
  now ≤ busy_threshold self + last_call self →
  Z.min (idle_threshold self) (busy_threshold self + last_call self - now) < 2 ^ 31 / 1000 →
  ∃ timeout self', z_threshold_source_prepare self now = Done (timeout, self') ∧
    0 ≤ timeout ∧
    z_threshold_source_check self' later = Done (bool_decide (timeout ≤ 1000 * (later - now))) ∧
    (∀ rc t, z_threshold_source_dispatch self' (Some rc) t =
       (rc, mkThreshold (idle_threshold self) (busy_threshold self) t now)) ∧
    (∀ t, z_threshold_source_dispatch self' None t = (false, self')).
Proof.
  intros (Hi & Hb & Hl) Hn Hlt Hfut Hsmall. unfold time_ok in *.
  unfold z_threshold_source_prepare. cbn [busy_threshold last_call idle_threshold].
  rewrite !slong_ok, Done_bind, slong_ok, Done_bind by lia.
  set (busy := busy_threshold self + last_call self - now) in *.
  assert (Hm : (if idle_threshold self <? busy then idle_threshold self else busy) =
               Z.min (idle_threshold self) busy) by (case_match; lia).
  rewrite Hm, slong_ok, Done_bind by (Z.to_euclidean_division_equations; lia).
  rewrite s32_small by (Z.to_euclidean_division_equations; lia).
  eexists _, _. split; [done|]. split; [lia|].
  unfold z_threshold_source_check. cbn [busy_threshold last_call idle_threshold start_time].
  split; [|done]. rewrite (slong_ok (now + idle_threshold self)), Done_bind by lia.
  destruct (Z.leb_spec (now + idle_threshold self) later) as [Hidle|Hidle].
  - rewrite bool_decide_true; [done|lia].
  - rewrite slong_ok, Done_bind by lia. f_equal.
    destruct (Z.leb_spec (last_call self + busy_threshold self) later).
    + rewrite bool_decide_true; [done|lia].
    + rewrite bool_decide_false; [done|lia].
Qed.

Lemma threshold_source_spec_witness :
  ∃ timeout self', z_threshold_source_prepare (mkThreshold 60 10 1000000 0) 1000004 = Done (timeout, self') ∧
    0 ≤ timeout ∧
    z_threshold_source_check self' 1000009 = Done (bool_decide (timeout ≤ 1000 * (1000009 - 1000004))).
Proof.
  destruct (threshold_source_spec (mkThreshold 60 10 1000000 0) 1000004 1000009) as (t & s & H1 & H2 & H3 & _).
  - unfold threshold_ok, time_ok. cbn. lia.
  - unfold time_ok. lia.
  - unfold time_ok. lia.
  - cbn. lia.
  - cbn. vm_compute. done.
  - exists t, s. auto.
Defined.

(** A source that was never called, or whose busy deadline has passed, is ready at once,
    but gives the main loop a negative or arbitrary timeout. *)
Example threshold_late :
  fst <$> z_threshold_source_prepare (mkThreshold 60 10 1000000 0) 1000020 = Done (-10000) ∧
  fst <$> z_threshold_source_prepare (z_threshold_source_new 60 10) 1100000003 = Done (-488365224) ∧
  z_threshold_source_check (mkThreshold 60 10 0 1100000003) 1100000003 = Done true.
Proof. by vm_compute. Qed.

(** ** Timeout source *)

Record ZTimeoutSource := mkTimeout { timeout_target : GTimeVal }.

Definition z_timeout_source_enabled (self : ZTimeoutSource) : bool :=
  if 0 <? tv_sec (timeout_target self) then true
  else if tv_sec (timeout_target self) <? 0 then false
  else 0 <? tv_usec (timeout_target self).

(** The result, and the timeout if it was set. *)
Definition z_timeout_source_prepare (self : ZTimeoutSource) (now : GTimeVal) : outcome (bool * option Z) :=
  if negb (z_timeout_source_enabled self) then Done (false, None)
  else if g_time_val_compare (timeout_target self) now <=? 0 then Done (true, None)
  else d ← g_time_val_diff (timeout_target self) now; Done (false, Some (s32 (Z.quot d 1000))).

Definition z_timeout_source_check (self : ZTimeoutSource) (now : GTimeVal) : bool :=
  if negb (z_timeout_source_enabled self) then false
  else g_time_val_compare (timeout_target self) now <=? 0.

Definition z_timeout_source_set_time (self : ZTimeoutSource) (nexttime : GTimeVal) : ZTimeoutSource :=
  mkTimeout nexttime.

Definition z_timeout_source_disable (self : ZTimeoutSource) : ZTimeoutSource :=
  mkTimeout (mkTimeVal (-1) (tv_usec (timeout_target self))).

Section Timeout.
(** GLib's addition of microseconds to a time. *)
Context (g_time_val_add : GTimeVal → Z → GTimeVal).
Context (g_time_val_add_ok : ∀ t us, tv_ok t → 0 ≤ us < G_USEC_PER_SEC →
  tv_micros (g_time_val_add t us) = tv_micros t + us ∧ 0 ≤ tv_usec (g_time_val_add t us) < G_USEC_PER_SEC).

(** [new_timeout] is a gulong; the result is defined if tv_sec does not overflow. *)
Definition z_timeout_source_set_timeout (self : ZTimeoutSource) (now : GTimeVal) (new_timeout : Z)
    : outcome ZTimeoutSource :=
  sec ← slong (tv_sec now + new_timeout / 1000);
  Done (mkTimeout (g_time_val_add (mkTimeVal sec (tv_usec now)) (new_timeout `mod` 1000 * 1000))).

Definition z_timeout_source_new (now : GTimeVal) (initial_timeout : Z) : outcome ZTimeoutSource :=
  z_timeout_source_set_timeout (mkTimeout (mkTimeVal 0 0)) now initial_timeout.

Lemma set_timeout_micros self now ms :
  tv_ok now → 0 < tv_sec now < 2 ^ 39 → 0 ≤ ms < 2 ^ 39 →
  ∃ self', z_timeout_source_set_timeout self now ms = Done self' ∧
    tv_micros (timeout_target self') = tv_micros now + ms * 1000 ∧ tv_ok (timeout_target self').
Proof using g_time_val_add_ok.
  intros [Hu Hs] Hp Hms. unfold z_timeout_source_set_timeout.
  pose proof (Z.div_mod ms 1000 ltac:(lia)) as Hdm. pose proof (Z.mod_pos_bound ms 1000 ltac:(lia)) as Hmod.
  assert (Hq : 0 ≤ ms / 1000 < 2 ^ 39) by (Z.to_euclidean_division_equations; lia).
  rewrite slong_ok, Done_bind by lia. eexists. split; [done|]. cbn [timeout_target].
  destruct (g_time_val_add_ok (mkTimeVal (tv_sec now + ms / 1000) (tv_usec now)) (ms `mod` 1000 * 1000)) as [Hm Hus].
  - split; [done|]. cbn. lia.
  - unfold G_USEC_PER_SEC. lia.
  - split.
    + rewrite Hm. unfold tv_micros, G_USEC_PER_SEC. cbn. lia.
    + split; [done|]. unfold tv_micros, G_USEC_PER_SEC in *. cbn in Hm. lia.
Qed.

(** A timeout source that is set to [ms] milliseconds is ready from that moment on
    and not before; until then prepare makes the main loop sleep, never past that
    moment and less than a millisecond too short; a disabled source is never ready. *)
Theorem timeout_source_spec (self : ZTimeoutSource) (set now : GTimeVal) (ms : Z) :
  tv_ok set → 0 < tv_sec set < 2 ^ 39 → 0 ≤ ms < 2 ^ 31 → tv_ok now → tv_micros set ≤ tv_micros now →
  ∃ self', z_timeout_source_set_timeout self set ms = Done self' ∧
    let left := tv_micros set + 1000 * ms - tv_micros now in
    z_timeout_source_check self' now = bool_decide (left ≤ 0) ∧
    (left ≤ 0 → z_timeout_source_prepare self' now = Done (true, None)) ∧
    (0 < left → ∃ t, z_timeout_source_prepare self' now = Done (false, Some t) ∧
       0 ≤ t ∧ 1000 * t ≤ left < 1000 * (t + 1)) ∧
    (∀ now, z_timeout_source_check (z_timeout_source_disable self') now = false ∧
            z_timeout_source_prepare (z_timeout_source_disable self') now = Done (false, None)).
Proof using g_time_val_add_ok.
  intros Hset Hpos Hms Hnow Hle.
  destruct (set_timeout_micros self set ms Hset Hpos) as (self' & Hs & Hm & Hok); [lia|].
  exists self'. split; [done|]. intros left.
  assert (Hen : z_timeout_source_enabled self' = true).
  { unfold z_timeout_source_enabled. destruct Hset, Hok. unfold tv_micros, G_USEC_PER_SEC in *.
    by rewrite (proj2 (Z.ltb_lt 0 _)) by lia. }
  unfold z_timeout_source_check, z_timeout_source_prepare. rewrite Hen. cbn [negb].
  rewrite compare_micros, diff_micros, Done_bind by done. rewrite Hm.
  split; [|split; [|split]].
  - case_bool_decide; repeat case_decide; try done; lia.
  - intros Hl. repeat case_decide; [done|lia|done].
  - intros Hl. rewrite decide_False, decide_True by lia. change (1 <=? 0) with false.
    assert (Hq : Z.quot left 1000 = left / 1000) by (apply Z.quot_div_nonneg; lia).
    replace (tv_micros set + ms * 1000 - tv_micros now) with left by lia. rewrite Hq.
    exists (left / 1000). rewrite s32_small by (Z.to_euclidean_division_equations; lia).
    split; [done|]. Z.to_euclidean_division_equations; lia.
  - intros t. done.
Qed.
End Timeout.

(** An addition of microseconds as GLib documents it. *)
Definition time_add (t : GTimeVal) (us : Z) : GTimeVal :=
  mkTimeVal (tv_sec t + (tv_usec t + us) / G_USEC_PER_SEC) ((tv_usec t + us) `mod` G_USEC_PER_SEC).

Lemma time_add_ok t us : tv_ok t → 0 ≤ us < G_USEC_PER_SEC →
  tv_micros (time_add t us) = tv_micros t + us ∧ 0 ≤ tv_usec (time_add t us) < G_USEC_PER_SEC.
Proof.
  intros _ _. unfold tv_micros, time_add, G_USEC_PER_SEC. cbn -[Z.div Z.modulo Z.mul].
  Z.to_euclidean_division_equations; lia.
Qed.

Lemma timeout_source_spec_witness :
  ∃ self', z_timeout_source_set_timeout time_add (mkTimeout (mkTimeVal 0 0)) (mkTimeVal 100 999000) 1500 = Done self' ∧
    z_timeout_source_check self' (mkTimeVal 102 498999) = false.
Proof.
  destruct (timeout_source_spec time_add time_add_ok (mkTimeout (mkTimeVal 0 0)) (mkTimeVal 100 999000)
    (mkTimeVal 102 498999) 1500) as (self' & H1 & H2 & _).
  - by repeat split.
  - cbn. lia.
  - lia.
  - by repeat split.
  - by vm_compute.
  - exists self'. split; [exact H1|]. rewrite H2. by vm_compute.
Defined.

(** ** Socket source *)

Record ZSocketSource := mkSocket {
  poll_events : Z; poll_revents : Z;
  cond : Z;
  suspended : bool;
  timeout_time : Z;        (* gint, -1 for none *)
  timed_out : bool
}.

Definition z_socket_source_new (c timeout now : Z) : ZSocketSource :=
  mkSocket 0 0 c false (if timeout =? -1 then -1 else s32 (now + timeout)) false.

Definition z_socket_source_suspend (s : ZSocketSource) : ZSocketSource :=
  mkSocket (poll_events s) (poll_revents s) (cond s) true (timeout_time s) (timed_out s).
Definition z_socket_source_resume (s : ZSocketSource) : ZSocketSource :=
  mkSocket (poll_events s) (poll_revents s) (cond s) false (timeout_time s) (timed_out s).

(** The poll timeout; the result is always FALSE. *)
Definition z_socket_source_prepare (s : ZSocketSource) (now : Z) : outcome (Z * ZSocketSource) :=
  if suspended s then Done (-1, mkSocket 0 0 (cond s) true (timeout_time s) (timed_out s))
  else
    let s := mkSocket (cond s) (poll_revents s) (cond s) false (timeout_time s) (timed_out s) in
    if timeout_time s =? -1 then Done (-1, s)
    else
      d ← slong (timeout_time s - now);
      t ← slong (d * 1000);
      Done (if s32 t <? 0 then 0 else s32 t, s).

Definition z_socket_source_check (s : ZSocketSource) (now : Z) : bool * ZSocketSource :=
  let set b := mkSocket (poll_events s) (poll_revents s) (cond s) (suspended s) (timeout_time s) b in
  if (0 <? timeout_time s) && (timeout_time s <=? now) then (true, set true)
  else (negb (poll_revents s =? 0), set false).

(** [callback] gets [timed_out]; whether it is called, and the result. *)
Definition z_socket_source_dispatch (s : ZSocketSource) (callback : bool → bool) : option bool * bool :=
  if suspended s then (None, true) else (Some (timed_out s), callback (timed_out s)).

(** What the poll call of the main loop does to a source. *)
Definition polled (s : ZSocketSource) (revents : Z) : ZSocketSource :=
  mkSocket (poll_events s) revents (cond s) (suspended s) (timeout_time s) (timed_out s).

(** A round of the main loop on a socket source: it polls for the conditions of the
    source, no longer than its deadline; the callback is called if and only if an
    event came or the deadline passed, and is told which; and a suspended source polls
    for nothing and calls nothing. *)
Theorem socket_source_spec (s : ZSocketSource) (now later revents : Z) (callback : bool → bool) :
  time_ok now → time_ok later → 0 < timeout_time s ∨ timeout_time s = -1 →
  timeout_time s = -1 ∨ now - 2 ^ 31 / 1000 < timeout_time s < now + 2 ^ 31 / 1000 →
  ∃ timeout s1, z_socket_source_prepare s now = Done (timeout, s1) ∧
    let '(ready, s2) := z_socket_source_check (polled s1 revents) later in
    let '(called, ret) := z_socket_source_dispatch s2 callback in
    let expired := bool_decide (timeout_time s ≠ -1 ∧ timeout_time s ≤ later) in
    (suspended s = true → poll_events s1 = 0 ∧ timeout = -1 ∧ called = None ∧ ret = true) ∧
    (suspended s = false →
       poll_events s1 = cond s ∧
       timeout = (if decide (timeout_time s = -1) then -1 else 1000 * Z.max 0 (timeout_time s - now)) ∧
       ready = expired || bool_decide (revents ≠ 0) ∧
       called = Some expired ∧ ret = callback expired).
Proof.
  intros Hn Hl Ht Hsmall. change (2 ^ 31 / 1000) with 2147483 in Hsmall.
  unfold time_ok in *. unfold z_socket_source_prepare.
  assert (Hexp : ((0 <? timeout_time s) && (timeout_time s <=? later))
                 = bool_decide (timeout_time s ≠ -1 ∧ timeout_time s ≤ later)).
  { destruct (Z.ltb_spec 0 (timeout_time s)), (Z.leb_spec (timeout_time s) later); cbn [andb];
      symmetry; (apply bool_decide_eq_true_2 || apply bool_decide_eq_false_2); lia. }
  assert (Hrev : negb (revents =? 0) = bool_decide (revents ≠ 0)).
  { destruct (Z.eqb_spec revents 0); [by rewrite bool_decide_false by naive_solver|by rewrite bool_decide_true]. }
  destruct (suspended s) eqn:Es.
  { eexists _, _. split; [done|]. unfold z_socket_source_check. cbn [timeout_time polled].
    rewrite Hexp. destruct (bool_decide _); cbn; by split. }
  cbn [timeout_time].
  set (s1 := mkSocket (cond s) (poll_revents s) (cond s) false (timeout_time s) (timed_out s)).
  set (t := if decide (timeout_time s = -1) then -1 else 1000 * Z.max 0 (timeout_time s - now)).
  exists t, s1. split.
  - unfold t. destruct (Z.eqb_spec (timeout_time s) (-1)) as [E|E]; [by rewrite decide_True|].
    rewrite decide_False by done. rewrite slong_ok, Done_bind by lia.
    rewrite slong_ok, Done_bind by (Z.to_euclidean_division_equations; lia).
    rewrite s32_small by (Z.to_euclidean_division_equations; lia). do 2 f_equal. case_match; lia.
  - unfold z_socket_source_check, s1. cbn [polled timeout_time poll_revents]. rewrite Hexp.
    destruct (bool_decide (timeout_time s ≠ -1 ∧ _)); cbn -[t]; [|rewrite Hrev]; by split_and!.
Qed.

Lemma socket_source_spec_witness :
  let s := z_socket_source_new 1 30 1000000 in
  ∃ timeout s1, z_socket_source_prepare s 1000010 = Done (timeout, s1) ∧ timeout = 20000.
Proof.
  intros s. destruct (socket_source_spec s 1000010 1000020 0 (λ b, b)) as (t & s1 & H & Hr).
  - unfold time_ok. lia.
  - unfold time_ok. lia.
  - by left.
  - right. cbn. by vm_compute.
  - exists t, s1. split; [exact H|]. vm_compute in H. by injection H as <- _.
Defined.

(** A deadline that passed more than 24 days ago makes the timeout wrap around. *)
Example socket_old_deadline :
  fst <$> z_socket_source_prepare (mkSocket 0 0 1 false 1000000 false) 4000000 = Done 1294967296.
Proof. by vm_compute. Qed.

(** The deadline is a gint: behind the year 2038 it is negative, and the main loop polls
    without waiting for a timeout that never comes. *)
Example socket_2038 :
  let s := z_socket_source_new 1 30 2147483640 in
  fst <$> z_socket_source_prepare s 2147483680 = Done 0 ∧
  fst (z_socket_source_check s 2147483680) = false.
Proof. by vm_compute. Qed.
