(* ===== verification/Connect.v ===== *)
(** * Connectors (src/src/connect.c, src/src/zorp/connect.h)

    A connector owns a socket until the connection is made or has failed.  It is used by
    its owner and by the main loop, in two threads, and both may be in the middle of a
    function: z_connector_connected is a step up to its lock and a step under it.  What the
    code does to descriptors, user data and callbacks is kept in a trace.  The main loop
    itself is GLib's: a source is dispatched while it is not destroyed, one that returns
    FALSE is destroyed, and the destroy notification of its callback is called when the
    source was destroyed and is not being dispatched. *)

From S2P Require Import Prelude RefCount StreamApi SockAddr Socket Misc Source.
Open Scope Z_scope.

Definition ETIMEDOUT : Z := 110.
Definition Z_SOCKEVENT_CONNECT : Z := 4. (* G_IO_OUT *)

(** What happens outside: sockets are opened and closed, a descriptor is given to a new
    stream, the callback is called with a descriptor that was wrapped or an error, user data
    is destroyed, and poll is called with a timeout. *)
Inductive event : Set :=
| Opened (fd : Z) | Closed (fd : Z) | Wrapped (fd : Z)
| Called (stream : option Z) (err : option Z) (data : option Z)
| Destroyed (data : Z) | Polled (fd timeout : Z) | SetTos (fd tos : Z).

#[global] Instance event_eq_dec : EqDecision event.
Proof. solve_decision. Defined.

Record ZConnector := mkConnector {
  refs : Z;                          (* the reference count of the object *)
  local : option ZSockAddr;
  fd : Z;                            (* -1 for none *)
  remote : ZSockAddr;
  watch : option ZSocketSource;
  timeout : Z;
  callback : bool;                   (* whether it is not NULL *)
  user_data : option Z;
  destroy_data : bool;               (* whether it is not NULL *)
  context : bool;
  tos : Z;
  socket_type : Z;
  sock_flags : Z
}.

(** Where the main loop is with the source of a connector: it waits, it has checked the
    connection and goes for the lock, or the callback of the source has returned. *)
Inductive phase : Set := Waiting | Checked (fd error_num : Z) | Returned.
Record gsource := mkSource { destroyed : bool; at_phase : phase }.

(** A connector that was freed is [None], and so is a source whose notification was called. *)
Record world := mkWorld { conn : option ZConnector; source : option gsource; trace : list event }.

Definition set_conn (c : option ZConnector) (w : world) : world := mkWorld c (source w) (trace w).
Definition set_source (s : option gsource) (w : world) : world := mkWorld (conn w) s (trace w).
Definition emit (e : list event) (w : world) : world := mkWorld (conn w) (source w) (trace w ++ e).

Definition with_refs (n : Z) (c : ZConnector) : ZConnector :=
  mkConnector n (local c) (fd c) (remote c) (watch c) (timeout c) (callback c) (user_data c) (destroy_data c) (context c) (tos c) (socket_type c) (sock_flags c).
Definition with_local (l : option ZSockAddr) (c : ZConnector) : ZConnector :=
  mkConnector (refs c) l (fd c) (remote c) (watch c) (timeout c) (callback c) (user_data c) (destroy_data c) (context c) (tos c) (socket_type c) (sock_flags c).
Definition with_fd (d : Z) (c : ZConnector) : ZConnector :=
  mkConnector (refs c) (local c) d (remote c) (watch c) (timeout c) (callback c) (user_data c) (destroy_data c) (context c) (tos c) (socket_type c) (sock_flags c).
Definition with_watch (s : option ZSocketSource) (c : ZConnector) : ZConnector :=
  mkConnector (refs c) (local c) (fd c) (remote c) s (timeout c) (callback c) (user_data c) (destroy_data c) (context c) (tos c) (socket_type c) (sock_flags c).
Definition with_timeout (t : Z) (c : ZConnector) : ZConnector :=
  mkConnector (refs c) (local c) (fd c) (remote c) (watch c) t (callback c) (user_data c) (destroy_data c) (context c) (tos c) (socket_type c) (sock_flags c).
Definition with_callback (b : bool) (c : ZConnector) : ZConnector :=
  mkConnector (refs c) (local c) (fd c) (remote c) (watch c) (timeout c) b (user_data c) (destroy_data c) (context c) (tos c) (socket_type c) (sock_flags c).
Definition with_user_data (d : option Z) (c : ZConnector) : ZConnector :=
  mkConnector (refs c) (local c) (fd c) (remote c) (watch c) (timeout c) (callback c) d (destroy_data c) (context c) (tos c) (socket_type c) (sock_flags c).
Definition with_context (b : bool) (c : ZConnector) : ZConnector :=
  mkConnector (refs c) (local c) (fd c) (remote c) (watch c) (timeout c) (callback c) (user_data c) (destroy_data c) b (tos c) (socket_type c) (sock_flags c).
Definition with_tos (t : Z) (c : ZConnector) : ZConnector :=
  mkConnector (refs c) (local c) (fd c) (remote c) (watch c) (timeout c) (callback c) (user_data c) (destroy_data c) (context c) t (socket_type c) (sock_flags c).

(** Every access to the connector goes through [self]. *)
Definition self (w : world) : outcome ZConnector :=
  match conn w with Some c => Done c | None => Fault UseAfterFree end.

Lemma self_set c w : self (set_conn (Some c) w) = Done c.
Proof. done. Qed.

Lemma connector_emit_nil w : emit [] w = w.
Proof. unfold emit. rewrite app_nil_r. by destruct w. Qed.

(** ** References *)

(** The user data is destroyed once: the pointer is cleared behind it. *)
Definition destroy_user_data (c : ZConnector) : ZConnector * list event :=
  match user_data c with
  | Some d => if destroy_data c then (with_user_data None c, [Destroyed d]) else (c, [])
  | None => (c, [])
  end.

(** A watch that is still there is destroyed.  If its notification were called now it would
    release a connector that has no references. *)
Definition z_connector_free (w : world) : outcome world :=
  c ← self w;
  let '(c, ev) := destroy_user_data (with_callback false c) in
  let ev := ev ++ (if fd c =? -1 then [] else [Closed (fd c)]) in
  w ← match watch c, source w with
      | None, _ | _, None => Done w
      | Some _, Some (mkSource _ Waiting) => Fault AssertFailed
      | Some _, Some s => Done (set_source (Some (mkSource true (at_phase s))) w)
      end;
  _ ← z_sockaddr_unref (local c);
  _ ← z_sockaddr_unref (Some (remote c));
  Done (emit ev (set_conn None w)).

Definition z_connector_ref (w : world) : outcome world :=
  c ← self w; n ← z_refcount_inc (refs c); Done (set_conn (Some (with_refs n c)) w).

Definition z_connector_unref (w : world) : outcome world :=
  c ← self w;
  '(zero, n) ← z_refcount_dec (refs c);
  let w := set_conn (Some (with_refs n c)) w in
  if zero : bool then z_connector_free w else Done w.

Definition z_connector_source_destroy_cb (w : world) : outcome world :=
  c ← self w;
  let '(c, ev) := destroy_user_data c in
  z_connector_unref (emit ev (set_conn (Some c) w)).

(** g_source_destroy: while the source is dispatched, its notification has to wait. *)
Definition g_source_destroy (w : world) : outcome world :=
  match source w with
  | None => Done w
  | Some (mkSource _ Waiting) => z_connector_source_destroy_cb (set_source None w)
  | Some s => Done (set_source (Some (mkSource true (at_phase s))) w)
  end.

(** ** Creation *)
Section socket.
Context (bind : gset Z → sockaddr → bind_result) (setsockopt : bool) (is_socket : list Z → bool) (c : cap_state) (rs : list Z).
(** What socket() returns, and whether the socket can be made non-blocking. *)
Context (socket : Z) (nonblock : bool).

(** The descriptor, the local address after binding, and what happened. *)
Definition z_connector_open_socket (local : option ZSockAddr) (flags : Z) : outcome (Z * option ZSockAddr * list event) :=
  if socket =? -1 then Done (-1, local, [])
  else
    '(bound, local) ←
      match local with
      | None => Done (true, None)
      | Some l => '(st, l, _, _) ← z_bind bind setsockopt is_socket c rs l flags;
                  Done (bool_decide (st = G_IO_STATUS_NORMAL), Some l)
      end;
    Done (if (bound : bool) && nonblock then socket else -1, local, [Opened socket]).

(** The world of a new connector; when the socket could not be opened the connector is freed
    again, and NULL is returned. *)
Definition z_connector_new (type : Z) (local : option ZSockAddr) (remote : ZSockAddr) (flags : Z)
    (cb : bool) (data : option Z) (destroy : bool) : outcome world :=
  local ← z_sockaddr_ref local;
  remote ← z_sockaddr_ref (Some remote);
  match remote with
  | None => Fault AssertFailed
  | Some remote =>
      '(d, local, ev) ← z_connector_open_socket local flags;
      let self := mkConnector 1 local d remote None 30 cb data destroy false (-1) type flags in
      let w := mkWorld (Some self) None ev in
      if d <? 0 then z_connector_unref w else Done w
  end.
End socket.

(** ** Starting *)

(** connect: what connect() answers, call by call; name: what getsockname() answers.  The
    result, the connector, and the address for the caller, if [want] says that there is a place
    for it. *)
Definition z_connector_start_internal (want : bool) (connect : list (option errno_value)) (name : option (sockaddr * Z)) (w : world)
    : outcome (bool * world * option ZSockAddr) :=
  c ← self w;
  '(st, e, _) ← z_connect connect;
  if negb (bool_decide (st = G_IO_STATUS_NORMAL)) && negb (bool_decide (e = Some EINPROGRESS)) then Done (false, w, None)
  else
    '(st, l) ← z_getsockname name;
    if bool_decide (st = G_IO_STATUS_NORMAL) then
      _ ← z_sockaddr_unref (local c);
      l ← z_sockaddr_ref l;
      l ← (if want : bool then Done l else z_sockaddr_unref l);
      Done (true, set_conn (Some (with_local l c)) w, if want : bool then l else None)
    else Done (true, w, None).

Definition z_connector_start (want : bool) (connect : list (option errno_value)) (name : option (sockaddr * Z)) (now : Z) (w : world)
    : outcome (bool * world * option ZSockAddr) :=
  c ← self w;
  if watch c then Done (false, w, None)
  else
    '(ok, w, l) ← z_connector_start_internal want connect name w;
    if ok : bool then
      c ← self w;
      let c := with_watch (Some (z_socket_source_new Z_SOCKEVENT_CONNECT (timeout c) now)) c in
      w ← z_connector_ref (set_conn (Some c) w);
      Done (true, set_source (Some (mkSource false Waiting)) w, l)
    else Done (false, w, l).

Definition z_connector_start_in_context (context want : bool) (connect : list (option errno_value))
    (name : option (sockaddr * Z)) (now : Z) (w : world) : outcome (bool * world * option ZSockAddr) :=
  c ← self w;
  z_connector_start want connect name now (if context then set_conn (Some (with_context true c)) w else w).

(** What poll answers, and the time before it is called. *)
Inductive poll_answer : Set := PollReady | PollTimeout | PollEintr | PollError.

Fixpoint poll_loop (answers : list (Z * poll_answer)) (d timeout_target : Z) : outcome (list event) :=
  match answers with
  | [] => Fault Blocked
  | (now, r) :: answers =>
      let timeout_left := timeout_target - now in
      let e := Polled d (if timeout_left <? 0 then 0 else s32 (timeout_left * 1000)) in
      match r with
      | PollEintr => ev ← poll_loop answers d timeout_target; Done (e :: ev)
      | _ => Done [e]
      end
  end.

(** [stream]: whether the caller wants the stream. *)
Definition z_connector_start_block (want : bool) (connect : list (option errno_value)) (name : option (sockaddr * Z)) (now : Z)
    (answers : list (Z * poll_answer)) (stream : bool) (w : world) : outcome (bool * world * option ZSockAddr) :=
  '(ok, w, l) ← z_connector_start_internal want connect name w;
  if ok : bool then
    w ← z_connector_ref w;
    c ← self w;
    ev ← poll_loop answers (fd c) (now + timeout c);
    if stream then
      w ← z_connector_source_destroy_cb (emit (ev ++ [Wrapped (fd c)]) w);
      c ← self w;
      Done (true, set_conn (Some (with_fd (-1) c)) w, l)
    else Fault OutOfBounds
  else Done (false, w, l).

(** ** The connection is made, or not *)

(** Up to the lock.  [so_error]: what getsockopt(SO_ERROR) gives, if it does not fail. *)
Definition z_connector_connected_1 (timed_out : bool) (so_error : option Z) (w : world) : outcome world :=
  c ← self w;
  match source w with
  | Some s =>
      if negb (callback c) then Done (set_source (Some (mkSource (destroyed s) Returned)) w)
      else
        let error_num := if timed_out then ETIMEDOUT else default 0 so_error in
        let '(d, c) := if error_num =? 0 then (fd c, with_fd (-1) c) else (-1, c) in
        Done (set_source (Some (mkSource (destroyed s) (Checked d error_num))) (set_conn (Some c) w))
  | None => Fault UseAfterFree
  end.

(** Under the lock.  close(-1) does nothing. *)
Definition z_connector_connected_2 (w : world) : outcome world :=
  c ← self w;
  match source w with
  | Some (mkSource dead (Checked d error_num)) =>
      let w := set_source (Some (mkSource dead Returned)) w in
      match watch c with
      | Some _ =>
          let err := if error_num =? 0 then None else Some error_num in
          let stream := if 0 <=? d then Some d else None in
          Done (emit ((if 0 <=? d then [Wrapped d] else []) ++ [Called stream err (user_data c)])
                     (set_conn (Some (with_callback false c)) w))
      | None => Done (emit (if d =? -1 then [] else [Closed d]) w)
      end
  | _ => Fault UseAfterFree
  end.

(** The callback of the source, when nothing comes between its parts. *)
Definition z_connector_connected (timed_out : bool) (so_error : option Z) (w : world) : outcome world :=
  w ← z_connector_connected_1 timed_out so_error w;
  match source w with
  | Some (mkSource _ (Checked _ _)) => z_connector_connected_2 w
  | _ => Done w
  end.

(** The main loop behind a callback that returned FALSE. *)
Definition dispatch_end (w : world) : outcome world := z_connector_source_destroy_cb (set_source None w).

(** ** The other calls of the owner *)

(** Cancelling is a step under the lock and one behind it: the second is made if there was a
    watch. *)
Definition z_connector_cancel_1 (w : world) : outcome (bool * world) :=
  c ← self w;
  match watch c with
  | Some _ => Done (true, set_conn (Some (with_watch None c)) w)
  | None => Done (false, w)
  end.

Definition z_connector_cancel (w : world) : outcome world :=
  '(watched, w) ← z_connector_cancel_1 w;
  if watched : bool then g_source_destroy w else Done w.

Definition z_connector_set_timeout (t : Z) (w : world) : outcome world :=
  c ← self w; Done (set_conn (Some (with_timeout t c)) w).

(** The value goes into one byte. *)
Definition z_connector_set_tos (t : Z) (w : world) : outcome world :=
  c ← self w;
  Done (emit (if negb (fd c =? -1) && (0 <? t) then [SetTos (fd c) (u8 t)] else []) (set_conn (Some (with_tos t c)) w)).

(** ** Steps

    What the owner and the main loop may do, in any order.  The owner starts a connector at
    most once, and uses it while it holds a reference; the main loop dispatches a source that
    is not destroyed.  [cancelling]: the owner is between the two steps of cancelling. *)
Record system := mkSystem { the : world; user_refs : Z; started : bool; cancelling : bool }.

Definition set_world (w : world) (s : system) : system := mkSystem w (user_refs s) (started s) (cancelling s).
Definition set_started (w : world) (s : system) : system := mkSystem w (user_refs s) true (cancelling s).

(** A name of a socket fits into the structures for it. *)
Definition name_ok (name : option (sockaddr * Z)) : Prop := ∀ x len, name = Some (x, len) → len ≤ 110.

Inductive step (s : system) : outcome system → Prop :=
| step_start context want connect name now :
    0 < user_refs s → started s = false → name_ok name →
    step s ('(_, w, _) ← z_connector_start_in_context context want connect name now (the s); Done (set_started w s))
| step_start_block want connect name now answers :
    0 < user_refs s → started s = false → name_ok name →
    step s ('(_, w, _) ← z_connector_start_block want connect name now answers true (the s); Done (set_started w s))
| step_cancel_1 :
    0 < user_refs s → cancelling s = false →
    step s ('(watched, w) ← z_connector_cancel_1 (the s); Done (mkSystem w (user_refs s) (started s) watched))
| step_cancel_2 :
    cancelling s = true →
    step s (w ← g_source_destroy (the s); Done (mkSystem w (user_refs s) (started s) false))
| step_set_timeout t :
    0 < user_refs s → step s (w ← z_connector_set_timeout t (the s); Done (set_world w s))
| step_set_tos t :
    0 < user_refs s → step s (w ← z_connector_set_tos t (the s); Done (set_world w s))
| step_ref :
    0 < user_refs s → user_refs s + 4 < MAX_REF →
    step s (w ← z_connector_ref (the s); Done (mkSystem w (user_refs s + 1) (started s) (cancelling s)))
| step_unref :
    0 < user_refs s → (cancelling s = true → 1 < user_refs s) →
    step s (w ← z_connector_unref (the s); Done (mkSystem w (user_refs s - 1) (started s) (cancelling s)))
| step_dispatch timed_out so_error :
    source (the s) = Some (mkSource false Waiting) →
    step s (w ← z_connector_connected_1 timed_out so_error (the s); Done (set_world w s))
| step_locked dead d e :
    source (the s) = Some (mkSource dead (Checked d e)) →
    step s (w ← z_connector_connected_2 (the s); Done (set_world w s))
| step_dispatch_end dead :
    source (the s) = Some (mkSource dead Returned) →
    step s (w ← dispatch_end (the s); Done (set_world w s)).

(** The states that a new connector gets into. *)
Inductive reachable (s0 : system) : system → Prop :=
| reachable_refl : reachable s0 s0
| reachable_step s s' : reachable s0 s → step s (Done s') → reachable s0 s'.

Definition new_system (w : world) : system := mkSystem w 1 false false.

(** * What is promised *)

(** ** Counting what happened *)

Definition count (P : event → bool) (tr : list event) : Z := zlen (filter (λ e, P e = true) tr).

(** The descriptor was closed, or given to a stream. *)
Definition takes (d : Z) (e : event) : bool := match e with Closed x | Wrapped x => x =? d | _ => false end.
Definition calls (e : event) : bool := match e with Called _ _ _ => true | _ => false end.
Definition destroys (e : event) : bool := match e with Destroyed _ => true | _ => false end.

Lemma count_app P l1 l2 : count P (l1 ++ l2) = count P l1 + count P l2.
Proof. unfold count. rewrite filter_app, length_app. lia. Qed.

Lemma count_cons P e l : count P (e :: l) = (if P e then 1 else 0) + count P l.
Proof. unfold count. rewrite filter_cons. destruct (P e); case_decide; (done || cbn [length]; lia). Qed.

Lemma count_nonneg P l : 0 ≤ count P l.
Proof. unfold count. lia. Qed.

(** No callback behind the destruction of its data, and every callback gets either a stream
    for the descriptor of the connector or an error, and the user data. *)
Fixpoint calls_ok (d : Z) (data : option Z) (dead : bool) (tr : list event) : Prop :=
  match tr with
  | [] => True
  | Destroyed _ :: tr => calls_ok d data true tr
  | Called stream err x :: tr =>
      dead = false ∧ x = data ∧ (stream = Some d ∧ err = None ∨ stream = None ∧ is_Some err) ∧ calls_ok d data dead tr
  | _ :: tr => calls_ok d data dead tr
  end.

Lemma calls_ok_app d data tr2 : ∀ tr1 dead,
  calls_ok d data dead tr1 → calls_ok d data (dead || (0 <? count destroys tr1)) tr2 → calls_ok d data dead (tr1 ++ tr2).
Proof.
  induction tr1 as [|e tr1 IH]; intros dead H1 H2; [by rewrite orb_false_r in H2|].
  rewrite count_cons in H2. pose proof (count_nonneg destroys tr1). destruct e; cbn [calls_ok app destroys] in *; try by apply IH.
  - destruct H1 as (-> & -> & Hs & H1). split_and!; [done..|]. by apply IH.
  - apply IH; [done|]. rewrite (proj2 (Z.ltb_lt 0 _)), orb_true_r in H2 by lia. done.
Qed.

(** ** The invariant

    Of a connector that was made with descriptor [d0] and the given user data and callback. *)
Section invariant.
Context (d0 : Z) (data : option Z) (destroy cb : bool).

Definition given (x : option Z) : bool := match x with Some _ => true | None => false end.
Definition addr_held (a : ZSockAddr) : Prop := 0 < refcnt a < MAX_REF.

(** The descriptor that is neither the connector's nor gone. *)
Definition pending (src : option gsource) : Z :=
  match src with Some (mkSource _ (Checked d _)) => if d =? d0 then 1 else 0 | _ => 0 end.

Definition gone_inv (tr : list event) : Prop :=
  calls_ok d0 data false tr ∧ ∀ d, d ≠ d0 → count (takes d) tr = 0.

Record core_inv (c : ZConnector) (src : option gsource) (tr : list event) (st : bool) : Prop := {
  ci_fd : fd c = d0 ∨ fd c = -1;
  ci_takes : count (takes d0) tr + (if fd c =? d0 then 1 else 0) + pending src = 1;
  ci_calls : count calls tr + Z.b2z (callback c) = Z.b2z cb;
  ci_destroy : destroy_data c = destroy;
  ci_data : user_data c = data ∨ user_data c = None ∧ src = None ∧ st = true;
  ci_destroys : count destroys tr + Z.b2z (destroy && given (user_data c)) = Z.b2z (destroy && given data);
  ci_gone : gone_inv tr;
  ci_source : match src with
              | Some (mkSource dead Waiting) => dead = false ∧ fd c = d0
              | Some (mkSource _ (Checked d e)) =>
                  callback c = true ∧ (d = d0 ∧ e = 0 ∧ fd c = -1 ∨ d = -1 ∧ e ≠ 0 ∧ fd c = d0)
              | _ => True
              end;
  ci_start : st = false → src = None ∧ watch c = None ∧ fd c = d0 ∧ callback c = cb;
  ci_local : ∀ l, local c = Some l → addr_held l;
  ci_remote : addr_held (remote c)
}.

(** A connector that was freed has no source, and nothing is left of it. *)
Record freed_inv (tr : list event) : Prop := {
  fi_takes : count (takes d0) tr = 1;
  fi_calls : 0 ≤ count calls tr ≤ Z.b2z cb;
  fi_destroys : count destroys tr = Z.b2z (destroy && given data);
  fi_gone : gone_inv tr
}.

Definition world_inv (w : world) (n : Z) (st canc : bool) : Prop :=
  0 ≤ n ∧ n + 4 ≤ MAX_REF ∧ (canc = true → 0 < n ∧ st = true) ∧
  match conn w with
  | Some c => core_inv c (source w) (trace w) st ∧ refs c = n + (if source w then 1 else 0) ∧ 0 < refs c
  | None => freed_inv (trace w) ∧ n = 0 ∧ source w = None
  end.

Definition inv (s : system) : Prop := world_inv (the s) (user_refs s) (started s) (cancelling s).

Lemma connector_unref_addr a : (∀ l, a = Some l → addr_held l) → returns (z_sockaddr_unref a) (λ a', ∀ l, a = Some l → a' = None ∨ ∃ n, a' = Some (with_refcnt n l) ∧ n = refcnt l - 1 ∧ 0 < n).
Proof.
  intros Ha. destruct a as [l|]; [|by apply returns_ret]. specialize (Ha l eq_refl) as [H1 H2]. unfold z_sockaddr_unref, z_refcount_dec.
  rewrite require_true, !Done_bind by lia. apply returns_ret. intros ? [= <-]. case_bool_decide; [by left|right]. eexists. split; [done|lia].
Qed.

Lemma gone_app tr ev :
  gone_inv tr → calls_ok d0 data (0 <? count destroys tr) ev → (∀ d, d ≠ d0 → count (takes d) ev = 0) → gone_inv (tr ++ ev).
Proof.
  intros [Hok Hd] Hev Hev2. split; [by apply calls_ok_app|]. intros d Hne. rewrite count_app, Hd, Hev2 by done. done.
Qed.

Hypothesis Hd0 : 0 ≤ d0.

Definition data_events (destroy : bool) (x : option Z) : list event :=
  match x with Some d => if destroy then [Destroyed d] else [] | None => [] end.

Lemma destroy_user_data_eq c :
  destroy_user_data c =
    (if destroy_data c && given (user_data c) then with_user_data None c else c, data_events (destroy_data c) (user_data c)).
Proof. unfold destroy_user_data. by destruct (user_data c), (destroy_data c). Qed.

Lemma data_events_counts des x :
  (∀ d, count (takes d) (data_events des x) = 0) ∧ count calls (data_events des x) = 0 ∧
  count destroys (data_events des x) = Z.b2z (des && given x) ∧ ∀ dead, calls_ok d0 data dead (data_events des x).
Proof. by destruct x, des. Qed.

Lemma close_takes d x : x = d0 ∨ x = -1 → count (takes d) (if x =? -1 then [] else [Closed x]) = if d =? d0 then (if x =? d0 then 1 else 0) else 0.
Proof.
  intros [-> | ->].
  - rewrite (proj2 (Z.eqb_neq d0 (-1))) by lia. rewrite count_cons. cbn [takes]. rewrite (Z.eqb_sym d0 d), Z.eqb_refl. by destruct (d =? d0).
  - rewrite (proj2 (Z.eqb_neq (-1) d0)) by lia. by destruct (d =? d0).
Qed.

Lemma connector_unref_inv w c n st canc :
  conn w = Some c → core_inv c (source w) (trace w) st →
  refs c - 1 = n + (if source w then 1 else 0) → 0 ≤ n → n + 4 ≤ MAX_REF → (canc = true → 0 < n ∧ st = true) →
  returns (z_connector_unref w) (λ w', world_inv w' n st canc).
Proof.
  intros Hc Hi Hr Hn Hmax Hcanc. unfold z_connector_unref, self. rewrite Hc, Done_bind.
  assert (Hrefs : 0 ≤ refs c - 1) by (destruct (source w); lia). unfold z_refcount_dec.
  rewrite require_true, !Done_bind by (destruct (source w); lia). case_bool_decide as Hz.
  - assert (n = 0 ∧ source w = None) as [-> Hs] by (destruct (source w); [lia|split; [lia|done]]).
    rewrite Hs in Hi. destruct Hi. unfold z_connector_free. cbn [self conn set_conn]. rewrite Done_bind.
    rewrite destroy_user_data_eq. cbn [with_callback user_data destroy_data with_refs]. rewrite ci_destroy0.
    set (c' := if _ && _ then _ else _).
    assert (fd c' = fd c ∧ local c' = local c ∧ remote c' = remote c ∧ watch c' = watch c) as (-> & -> & -> & ->)
      by (unfold c'; by destruct (destroy && _)).
    cbn [source set_conn]. rewrite Hs. set (ev := data_events _ _).
    destruct (data_events_counts destroy (user_data c)) as (He1 & He2 & He3 & He4).
    match goal with |- returns (mbind _ ?m) _ =>
      replace m with (Done (set_conn (Some (with_refs (refs c - 1) c)) w)) by (by destruct (watch c)) end.
    rewrite Done_bind.
    eapply returns_bind, returns_mono; [by apply connector_unref_addr|]. intros _ _.
    eapply returns_bind, returns_mono; [apply connector_unref_addr; by intros ? [= <-]|]. intros _ _. apply returns_ret.
    split; [done|]. split; [done|]. split; [done|]. cbn [conn emit set_conn source trace]. split; [|by rewrite Hs].
    assert (Hcl : count calls (if fd c =? -1 then [] else [Closed (fd c)]) = 0 ∧ count destroys (if fd c =? -1 then [] else [Closed (fd c)]) = 0)
      by (by destruct (fd c =? -1)).
    destruct Hcl as [Hcl1 Hcl2]. pose proof (close_takes d0 (fd c) ci_fd0) as Ht. rewrite Z.eqb_refl in Ht.
    constructor; unfold ev; rewrite ?count_app, ?He1, ?He2, ?He3, ?Hcl1, ?Hcl2, ?Ht.
    + cbn [pending] in ci_takes0. lia.
    + pose proof (count_nonneg calls (trace w)). destruct (callback c); cbn in *; lia.
    + lia.
    + apply gone_app; [done| |].
      * apply calls_ok_app; [done|]. by destruct (fd c =? -1).
      * intros d Hne. rewrite count_app, He1, close_takes by done. by rewrite (proj2 (Z.eqb_neq d d0)).
  - apply returns_ret. split; [done|]. split; [done|]. split; [done|]. cbn [conn set_conn source trace].
    split; [by destruct Hi; constructor|]. cbn. lia.
Qed.

(** The notification of the source releases what it held. *)
Lemma destroy_cb_inv w c n st canc :
  conn w = Some c → source w = None → core_inv c None (trace w) st → st = true → refs c = n + 1 →
  0 ≤ n → n + 4 ≤ MAX_REF → (canc = true → 0 < n ∧ st = true) →
  returns (z_connector_source_destroy_cb w) (λ w', world_inv w' n st canc).
Proof.
  intros Hc Hs Hi -> Hr Hn Hmax Hcanc. unfold z_connector_source_destroy_cb, self. rewrite Hc, Done_bind, destroy_user_data_eq.
  pose proof Hi as Hi'. destruct Hi'. rewrite ci_destroy0. destruct (data_events_counts destroy (user_data c)) as (He1 & He2 & He3 & He4).
  set (c' := if _ && _ then _ else _).
  assert (Hc' : fd c' = fd c ∧ local c' = local c ∧ remote c' = remote c ∧ callback c' = callback c ∧ refs c' = refs c ∧
    destroy_data c' = destroy_data c ∧ (user_data c' = None ∨ user_data c' = data) ∧
    Z.b2z (destroy && given (user_data c')) = 0).
  { unfold c'. destruct destroy, (user_data c) as [u|] eqn:Hu; cbn; try rewrite Hu; split_and!; try done; (by left) || (right; naive_solver). }
  destruct Hc' as (Hf & Hl & Hrem & Hcb & Hrefs & Hdes & Hu & Hu0).
  eapply connector_unref_inv; [done| |cbn; rewrite Hs; lia|done..]. cbn [source emit set_conn trace]. rewrite Hs.
  constructor; rewrite ?Hf, ?Hl, ?Hrem, ?Hcb, ?Hdes, ?count_app, ?He1, ?He2, ?He3; try done; try lia.
  - destruct Hu as [->|Hu]; [right; done|by left].
  - apply gone_app; [done|done|]. intros. apply He1.
Qed.

Lemma source_destroy_inv w n canc :
  world_inv w n true canc → 0 < n →
  returns (g_source_destroy w) (λ w', world_inv w' n true false).
Proof.
  intros (Hn & Hmax & Hcanc & Hw) Hpos. unfold g_source_destroy. destruct (source w) as [[dead ph]|] eqn:Hs.
  - destruct (conn w) as [c|] eqn:Hc; [|by destruct Hw as (_ & _ & ?)]. destruct Hw as (Hi & Hr & Hr0). pose proof Hi as [].
    assert (Hkeep : ∀ src, src = Some (mkSource true ph) → (ph ≠ Waiting) → returns (Done (set_source src w)) (λ w', world_inv w' n true false)).
    { intros ? -> Hph. apply returns_ret. split; [done|]. split; [done|]. split; [done|]. cbn [conn set_source source trace]. rewrite Hc.
      split; [constructor; try done; [naive_solver|by destruct ph]|done]. }
    destruct ph; [|by apply Hkeep..].
    eapply destroy_cb_inv; [by cbn|done| |done|lia|done..]. cbn [trace set_source]. constructor; try done. naive_solver.
  - apply returns_ret. split; [done|]. split; [done|]. split; [done|]. rewrite Hs. destruct (conn w); [|naive_solver]. done.
Qed.

(** Calls that change a field of no interest. *)
Lemma connector_update_inv w c c' ev n st canc :
  world_inv w n st canc → conn w = Some c →
  refs c' = refs c → fd c' = fd c → callback c' = callback c → destroy_data c' = destroy_data c → user_data c' = user_data c →
  (watch c' = watch c ∨ st = true) → (∀ l, local c' = Some l → addr_held l) → remote c' = remote c →
  (∀ e, e ∈ ev → ∃ d t, e = SetTos d t ∨ e = Polled d t) →
  world_inv (emit ev (set_conn (Some c') w)) n st canc.
Proof.
  intros (Hn & Hmax & Hcanc & Hw) Hc Hr Hf Hcb Hdes Hu Hwatch Hl Hrem Hev. rewrite Hc in Hw. destruct Hw as (Hi & Hrefs & Hpos).
  assert (H0 : ∀ P, (∀ d t, P (SetTos d t) = false ∧ P (Polled d t) = false) → count P ev = 0).
  { intros P HP. induction ev as [|e ev IH]; [done|]. rewrite count_cons, IH by (intros; apply Hev; by right).
    destruct (Hev e ltac:(by left)) as (d & t & [-> | ->]); destruct (HP d t) as [H1 H2]; (by rewrite H1) || (by rewrite H2). }
  assert (Hok : ∀ dead, calls_ok d0 data dead ev).
  { clear -Hev. induction ev as [|e ev IH]; intros dead; [done|].
    destruct (Hev e ltac:(by left)) as (d & t & [-> | ->]); apply IH; intros; apply Hev; by right. }
  destruct Hi. split; [done|]. split; [done|]. split; [done|]. cbn [conn emit set_conn source trace]. rewrite Hr. split; [|done].
  constructor; rewrite ?Hf, ?Hcb, ?Hdes, ?Hu, ?Hrem, ?count_app, ?(H0 (takes d0)), ?(H0 calls), ?(H0 destroys), ?Z.add_0_r by done; try done.
  - apply gone_app; [done|done|]. intros. by apply H0.
  - destruct Hwatch as [-> |Hst]; [done|]. by rewrite Hst.
Qed.

Lemma core_started c src tr st : core_inv c src tr st → core_inv c src tr true.
Proof. intros []. constructor; try done. naive_solver. Qed.

Lemma world_started w n st canc : world_inv w n st canc → world_inv w n true canc.
Proof.
  intros (? & ? & ? & H). split; [done|]. split; [done|]. split; [naive_solver|]. destruct (conn w); [|done].
  destruct H as [Hi Hr]. split; [by eapply core_started|done].
Qed.

Lemma ref_returns w c : conn w = Some c → 0 < refs c < MAX_REF → z_connector_ref w = Done (set_conn (Some (with_refs (refs c + 1) c)) w).
Proof.
  intros Hc Hr. unfold z_connector_ref, self. rewrite Hc, Done_bind. unfold z_refcount_inc. by rewrite require_true, !Done_bind by lia.
Qed.

Lemma connect_safe answers :
  safe (z_connect answers) (λ '(st, e, _), st = G_IO_STATUS_NORMAL ∧ e = None ∨ st = G_IO_STATUS_ERROR ∧ is_Some e).
Proof. induction answers as [|[[]|] l IH]; cbn; naive_solver. Qed.

Lemma getsockname_returns name : name_ok name →
  returns (z_getsockname name) (λ '(_, a), ∀ l, a = Some l → refcnt l = 1).
Proof.
  intros Hn. destruct name as [[x len]|]; [|by apply returns_ret]. specialize (Hn _ _ eq_refl). unfold z_getsockname.
  destruct x; cbn [z_sockaddr_new]; rewrite ?Done_bind; try (apply returns_ret; intros l; try case_match; try done; by intros [= <-]).
  unfold z_sockaddr_unix_new2. rewrite require_true, !Done_bind by (unfold SUN_PATH_LEN; lia). apply returns_ret. by intros l [= <-].
Qed.

Lemma start_internal_safe want connect name w c :
  conn w = Some c → (∀ l, local c = Some l → addr_held l) → name_ok name →
  safe (z_connector_start_internal want connect name w) (λ '(_, w', _),
    ∃ l, (∀ a, l = Some a → addr_held a) ∧ w' = set_conn (Some (with_local l c)) w).
Proof.
  intros Hc Hl Hn. unfold z_connector_start_internal, self. rewrite Hc, Done_bind.
  assert (Hsame : ∃ l, (∀ a, l = Some a → addr_held a) ∧ w = set_conn (Some (with_local l c)) w).
  { exists (local c). split; [done|]. destruct w, c; cbn in *. by rewrite Hc. }
  eapply safe_bind, safe_mono; [apply connect_safe|]. intros [[st e] rest] _. case_match; [by apply safe_ret|].
  eapply safe_bind, returns_safe, returns_mono; [by apply getsockname_returns|]. intros [st' l] Hnew.
  clear H. destruct (bool_decide (st' = _)); [|exact Hsame].
  eapply safe_bind, returns_safe, returns_mono; [by apply connector_unref_addr|]. intros _ _.
  destruct l as [l|]; [|destruct want; by apply safe_ret; exists None].
  specialize (Hnew l eq_refl). unfold z_sockaddr_ref, z_sockaddr_unref, z_refcount_inc, z_refcount_dec, addr_held, MAX_REF.
  rewrite Hnew, require_true, !Done_bind by lia. destruct want; rewrite ?Done_bind.
  - apply safe_ret. eexists. split; [|done]. intros a [= <-]. cbn. lia.
  - cbn [refcnt with_refcnt]. rewrite require_true, !Done_bind by lia. apply safe_ret. eexists. split; [|done].
    intros a [= <-]. cbn. lia.
Qed.

Lemma connector_start_inv ctx want connect name now w n canc :
  world_inv w n false canc → 0 < n → name_ok name →
  safe (z_connector_start_in_context ctx want connect name now w) (λ '(_, w', _), world_inv w' n true canc).
Proof.
  intros Hw Hn Hname. pose proof Hw as (_ & Hmax & Hcanc & Hconn). destruct (conn w) as [c|] eqn:Hc; [|lia].
  destruct Hconn as (Hi & Hr & Hpos). pose proof (ci_start _ _ _ _ Hi eq_refl) as (Hs & Hwatch & Hf & Hcb). rewrite Hs in Hr.
  assert (Hu : user_data c = data) by (destruct (ci_data _ _ _ _ Hi) as [?|(_ & _ & [=])]; done).
  unfold z_connector_start_in_context, self. rewrite Hc, Done_bind.
  assert (∃ c1, (if ctx then set_conn (Some (with_context true c)) w else w) = set_conn (Some c1) w ∧
    (c1 = c ∨ c1 = with_context true c)) as (c1 & -> & Hc1).
  { destruct ctx; [exists (with_context true c); auto|exists c; split; [|by left]]. destruct w; cbn in *. by rewrite Hc. }
  unfold z_connector_start, self. cbn [conn set_conn]. rewrite Done_bind.
  assert (Hw1 : watch c1 = None ∧ local c1 = local c ∧ remote c1 = remote c ∧ refs c1 = refs c ∧ fd c1 = fd c ∧ callback c1 = callback c ∧
    destroy_data c1 = destroy_data c ∧ user_data c1 = user_data c) by (by destruct Hc1 as [-> | ->]).
  destruct Hw1 as (-> & Hl1 & Hrem1 & Hr1 & Hf1 & Hcb1 & Hd1 & Hu1).
  eapply safe_bind, safe_mono; [by apply (start_internal_safe _ _ _ _ c1); [|rewrite Hl1; apply Hi|]|].
  intros [[ok w'] l] (l' & Hl' & ->). destruct ok.
  - unfold self. cbn [conn set_conn]. rewrite Done_bind. set (c2 := with_watch _ _).
    set (w2 := set_conn (Some c2) _). assert (Hw2 : conn w2 = Some c2) by done.
    rewrite (ref_returns w2 c2 Hw2) by (change (refs c2) with (refs c1); lia). rewrite Done_bind. apply safe_ret.
    split; [lia|]. split; [done|]. split; [naive_solver|]. split; [|change (refs c2) with (refs c1); cbn; lia].
    apply core_started in Hi as []. rewrite Hs in *. cbn [pending] in *. constructor; cbn; rewrite ?Hf1, ?Hcb1, ?Hd1, ?Hu1, ?Hrem1; try done. by left.
  - apply safe_ret. apply world_started in Hw. replace (set_conn (Some (with_local l' c1)) (set_conn (Some c1) w)) with (emit [] (set_conn (Some (with_local l' c1)) w))
      by (unfold emit, set_conn; cbn [conn source trace]; by rewrite app_nil_r).
    eapply (connector_update_inv w c); try done; [by right|]. intros e. set_solver.
Qed.

Lemma destroy_cb_alive w c : conn w = Some c → 1 < refs c < MAX_REF →
  z_connector_source_destroy_cb w =
    Done (emit (data_events (destroy_data c) (user_data c))
      (set_conn (Some (with_refs (refs c - 1) (if destroy_data c && given (user_data c) then with_user_data None c else c))) w)).
Proof.
  intros Hc Hr. unfold z_connector_source_destroy_cb, self. rewrite Hc, Done_bind, destroy_user_data_eq.
  set (c' := if _ && _ then _ else _). assert (Hr' : refs c' = refs c) by (unfold c'; by case_match).
  unfold z_connector_unref, self, z_refcount_dec. cbn [conn emit set_conn]. rewrite Done_bind, Hr', require_true, !Done_bind by lia.
  rewrite bool_decide_false by lia. done.
Qed.

Lemma poll_loop_safe answers d t : safe (poll_loop answers d t) (λ ev, ∀ e, e ∈ ev → ∃ t, e = Polled d t).
Proof.
  induction answers as [|[now r] answers IH]; [done|]. cbn [poll_loop].
  assert (Hone : ∀ x, safe (Done [Polled d x]) (λ ev, ∀ e, e ∈ ev → ∃ t, e = Polled d t))
    by (intros x; apply safe_ret; intros e ->%list_elem_of_singleton; by eexists).
  destruct r; [apply Hone|apply Hone| |apply Hone]. eapply safe_bind, safe_mono; [exact IH|]. intros ev Hev. apply safe_ret.
  intros e [-> |He]%elem_of_cons; [by eexists|by apply Hev].
Qed.

Lemma start_block_inv want connect name now answers w n canc :
  world_inv w n false canc → 0 < n → name_ok name →
  safe (z_connector_start_block want connect name now answers true w) (λ '(_, w', _), world_inv w' n true canc).
Proof.
  intros Hw Hn Hname. pose proof Hw as (_ & Hmax & Hcanc & Hconn). destruct (conn w) as [c|] eqn:Hc; [|lia].
  destruct Hconn as (Hi & Hr & Hpos). pose proof (ci_start _ _ _ _ Hi eq_refl) as (Hs & Hwatch & Hf & Hcb). rewrite Hs in Hr.
  eapply safe_bind, safe_mono; [by apply (start_internal_safe _ _ _ _ c); [|apply Hi|]|]. intros [[ok w'] l] (l' & Hl' & ->).
  assert (Hinv1 : ∀ ev, (∀ e, e ∈ ev → ∃ t, e = Polled (fd c) t) → world_inv (emit ev (set_conn (Some (with_local l' c)) w)) n true canc).
  { intros ev Hev. apply world_started in Hw. eapply (connector_update_inv w c); try done; [by left|]. intros e He. naive_solver. }
  destruct ok; [|specialize (Hinv1 [] ltac:(set_solver)); rewrite connector_emit_nil in Hinv1; exact Hinv1].
  rewrite (ref_returns (set_conn (Some (with_local l' c)) w) (with_local l' c) eq_refl) by (cbn; lia). rewrite Done_bind.
  rewrite self_set, Done_bind. cbn [fd with_refs with_local timeout].
  eapply safe_bind, safe_mono; [apply poll_loop_safe|]. intros ev Hev. specialize (Hinv1 ev Hev).
  cbn -[world_inv z_connector_source_destroy_cb]. set (wA := emit _ _). set (cA := with_refs _ _) in wA.
  set (wB := set_conn (Some (with_fd (-1) cA)) wA).
  assert (HB : returns (z_connector_source_destroy_cb wB) (λ w', world_inv w' n true canc)).
  { destruct Hinv1 as (_ & _ & _ & (Hi1 & _)). refine (destroy_cb_inv wB (with_fd (-1) cA) n true canc eq_refl Hs _ eq_refl _ _ Hmax _);
      [|cbn; lia|lia|naive_solver]. destruct Hi1. cbn in *. rewrite Hs in *.
    rewrite app_assoc. constructor; try done.
    - by right.
    - change (count (takes d0) ((trace w ++ ev) ++ [Wrapped (fd c)]) + (if -1 =? d0 then 1 else 0) + 0 = 1).
      rewrite count_app, (count_cons _ (Wrapped _)). cbn [takes]. rewrite Hf, Z.eqb_refl, (proj2 (Z.eqb_neq (-1) d0)) by lia.
      rewrite Hf, Z.eqb_refl in ci_takes0. cbn [pending] in ci_takes0. change (count (takes d0) []) with 0. lia.
    - rewrite count_app. change (count calls [Wrapped (fd c)]) with 0. cbn. lia.
    - rewrite count_app. change (count destroys [Wrapped (fd c)]) with 0. cbn. lia.
    - apply gone_app; [done|done|]. intros d Hne. rewrite count_cons. cbn [takes]. by rewrite Hf, (proj2 (Z.eqb_neq d0 d)).
  }
  rewrite (destroy_cb_alive wB (with_fd (-1) cA) eq_refl) in HB by (cbn; lia).
  rewrite (destroy_cb_alive wA cA eq_refl), Done_bind by (cbn; lia). unfold self. cbn -[world_inv]. revert HB. cbn -[world_inv].
  by destruct (destroy_data c && given (user_data c)).
Qed.

Lemma connected_1_inv timed_out so_error w n st canc :
  world_inv w n st canc → source w = Some (mkSource false Waiting) →
  returns (z_connector_connected_1 timed_out so_error w) (λ w', world_inv w' n st canc).
Proof.
  intros (Hn & Hmax & Hcanc & Hw) Hs. destruct (conn w) as [c|] eqn:Hc; [|naive_solver].
  destruct Hw as (Hi & Hr & Hpos). rewrite Hs in *. unfold z_connector_connected_1, self. rewrite Hc, Hs, Done_bind.
  pose proof Hi as []. cbn [pending destroyed] in *. destruct ci_source0 as [_ Hf].
  assert (Hu : user_data c = data) by (by destruct ci_data0 as [?|(_ & [=] & _)]).
  assert (Hst : st = false → False) by (intros H; by destruct (ci_start0 H) as ([=] & _)).
  destruct (callback c) eqn:Hcb; cbn [negb].
  - set (e := if timed_out then _ else _). destruct (Z.eqb_spec e 0) as [He|He]; apply returns_ret;
      (split; [done|]); (split; [done|]); (split; [done|]); cbn [conn set_source set_conn source trace]; (split; [|done]).
    + constructor; try done; cbn [fd with_fd callback]; rewrite ?Hcb; try done; [by right| |by left|split; [done|by left]]. cbn [pending].
      rewrite Hf, Z.eqb_refl, (proj2 (Z.eqb_neq (-1) d0)) by lia. rewrite Hf, Z.eqb_refl in ci_takes0. lia.
    + constructor; rewrite ?Hcb; try done; [|by left|split; [done|by right]]. cbn [pending].
      rewrite (proj2 (Z.eqb_neq (-1) d0)) by lia. done.
  - apply returns_ret. split; [done|]. split; [done|]. split; [done|]. cbn [conn set_source source trace]. rewrite Hc.
    split; [|done]. constructor; rewrite ?Hcb; try done. by left.
Qed.

Lemma connected_2_inv w n st canc dead d e :
  world_inv w n st canc → source w = Some (mkSource dead (Checked d e)) →
  returns (z_connector_connected_2 w) (λ w', world_inv w' n st canc).
Proof.
  intros (Hn & Hmax & Hcanc & Hw) Hs. destruct (conn w) as [c|] eqn:Hc; [|naive_solver].
  destruct Hw as (Hi & Hr & Hpos). rewrite Hs in *. unfold z_connector_connected_2, self. rewrite Hc, Hs, Done_bind.
  pose proof Hi as []. cbn [pending] in *. destruct ci_source0 as [Hcb Hde]. rewrite Hcb in ci_calls0. cbn in ci_calls0.
  assert (Hu : user_data c = data) by (by destruct ci_data0 as [?|(_ & [=] & _)]).
  assert (Hst : st = false → False) by (intros H; by destruct (ci_start0 H) as ([=] & _)).
  assert (Hdes : count destroys (trace w) = 0) by (rewrite Hu in ci_destroys0; lia).
  assert (Hneg : (-1 =? d0) = false) by (apply Z.eqb_neq; lia).
  destruct (watch c) eqn:Hwatch; apply returns_ret; (split; [done|]); (split; [done|]); (split; [done|]); cbn [conn emit set_source set_conn source trace].
  - split; [|done]. destruct Hde as [(-> & -> & Hf)|(-> & He & Hf)].
    + rewrite (proj2 (Z.leb_le 0 d0)) by done. rewrite Hf, Hneg, Z.eqb_refl in ci_takes0.
      constructor; try done; cbn [fd with_callback callback user_data pending app].
      * rewrite Hf, Hneg, count_app, !count_cons. cbn [takes]. rewrite Z.eqb_refl. change (count _ []) with 0. lia.
      * rewrite count_app, !count_cons. cbn. change (count _ []) with 0. lia.
      * by left.
      * rewrite count_app, !count_cons. cbn [destroys]. change (count _ []) with 0. lia.
      * apply gone_app; [done| |].
        -- cbn. rewrite Hdes. split_and!; try done. by left.
        -- intros d Hd. rewrite !count_cons. cbn [takes]. by rewrite (proj2 (Z.eqb_neq d0 d)).
    + rewrite (proj2 (Z.eqb_neq e 0)) by done. rewrite Hf, Z.eqb_refl, Hneg in ci_takes0.
      change (0 <=? -1) with false. cbv iota. constructor; try done; cbn [fd with_callback callback user_data pending app].
      * rewrite Hf, Z.eqb_refl, count_app, !count_cons. cbn [takes]. change (count _ []) with 0. lia.
      * rewrite count_app, !count_cons. cbn. change (count _ []) with 0. lia.
      * by left.
      * rewrite count_app, !count_cons. cbn [destroys]. change (count _ []) with 0. lia.
      * apply gone_app; [done| |done]. cbn. rewrite Hdes. split_and!; try done. right. by eexists.
  - rewrite Hc. split; [|done]. assert (Hd : d = d0 ∨ d = -1) by naive_solver.
    assert (Hcl : count calls (if d =? -1 then [] else [Closed d]) = 0 ∧ count destroys (if d =? -1 then [] else [Closed d]) = 0 ∧
      ∀ b, calls_ok d0 data b (if d =? -1 then [] else [Closed d])) by (by destruct (d =? -1)).
    destruct Hcl as (Hc1 & Hc2 & Hc3). pose proof (close_takes d0 d Hd) as Ht. rewrite Z.eqb_refl in Ht.
    constructor; rewrite ?count_app, ?Hc1, ?Hc2, ?Ht, ?Hcb; try done; cbn [pending]; try (cbn; lia); [by left|].
    apply gone_app; [done|done|]. intros d' Hne. rewrite close_takes by done. by rewrite (proj2 (Z.eqb_neq d' d0)).
Qed.

Lemma dispatch_end_inv w n st canc dead :
  world_inv w n st canc → source w = Some (mkSource dead Returned) →
  returns (dispatch_end w) (λ w', world_inv w' n st canc).
Proof.
  intros (Hn & Hmax & Hcanc & Hw) Hs. destruct (conn w) as [c|] eqn:Hc; [|naive_solver].
  destruct Hw as (Hi & Hr & Hpos). rewrite Hs in *.
  assert (Hst : st = true) by (destruct st; [done|]; by destruct (ci_start _ _ _ _ Hi eq_refl) as ([=] & _)).
  eapply destroy_cb_inv; [done|done| |done..]. pose proof Hi as []. constructor; try done; [by destruct ci_data0 as [?|(_ & [=] & _)]; left|].
  by rewrite Hst.
Qed.

(** Every step that a step may come to keeps the invariant, or waits. *)
Lemma connector_step_inv s o : inv s → step s o → safe o inv.
Proof.
  intros Hs Hstep. pose proof Hs as (Hn & Hmax & Hcanc & Hw). destruct Hstep.
  - eapply safe_bind, safe_mono; [by eapply connector_start_inv; [destruct s; cbn in *; subst|..]|]. intros [[ok w] l] Hw'. by apply safe_ret.
  - eapply safe_bind, safe_mono; [by eapply start_block_inv; [destruct s; cbn in *; subst|..]|]. intros [[ok w] l] Hw'. by apply safe_ret.
  - destruct (conn (the s)) as [c|] eqn:Hc; [|lia]. unfold z_connector_cancel_1, self. rewrite Hc, Done_bind.
    destruct (watch c) eqn:Hwatch; rewrite Done_bind; apply safe_ret.
    + assert (Hst : started s = true).
      { destruct (started s) eqn:E; [done|]. destruct Hw as [Hi _]. destruct (ci_start _ _ _ _ Hi eq_refl) as (_ & ? & _). congruence. }
      rewrite <- (connector_emit_nil (set_conn _ _)). destruct Hw as [Hi Hr].
      apply (connector_update_inv (the s) c) with (ev := []); try done; [|by right|apply Hi|intros e; set_solver].
      split; [done|]. split; [done|]. split; [done|]. by rewrite Hc.
    + split; [done|]. split; [done|]. split; [done|]. cbn. by rewrite Hc.
  - destruct s as [w n st canc]; cbn in *; subst. destruct (Hcanc eq_refl) as [Hpos ->].
    eapply safe_bind, returns_safe, returns_mono; [by eapply source_destroy_inv|]. intros w' Hw'. by apply safe_ret.
  - destruct (conn (the s)) as [c|] eqn:Hc; [|lia]. unfold z_connector_set_timeout, self. rewrite Hc, Done_bind, Done_bind.
    apply safe_ret. rewrite <- (connector_emit_nil (set_conn _ _)). destruct Hw as [Hi Hr].
    apply (connector_update_inv (the s) c) with (ev := []); try done; [by left|apply Hi|intros e; set_solver].
  - destruct (conn (the s)) as [c|] eqn:Hc; [|lia]. unfold z_connector_set_tos, self. rewrite Hc, Done_bind, Done_bind.
    apply safe_ret. destruct Hw as [Hi Hr]. apply (connector_update_inv (the s) c); try done; [by left|apply Hi|].
    intros e He. case_match; [|set_solver]. apply list_elem_of_singleton in He as ->. eauto.
  - destruct (conn (the s)) as [c|] eqn:Hc; [|lia]. destruct Hw as (Hi & Hr & Hpos).
    rewrite (ref_returns _ c Hc) by (destruct (source (the s)); lia). rewrite Done_bind. apply safe_ret.
    split; [cbn; lia|]. split; [cbn; lia|]. split; [cbn; naive_solver lia|]. cbn. split; [|lia]. by destruct Hi.
  - destruct (conn (the s)) as [c|] eqn:Hc; [|lia]. destruct Hw as (Hi & Hr & Hpos).
    eapply safe_bind, returns_safe, returns_mono; [eapply (connector_unref_inv _ c (user_refs s - 1) (started s) (cancelling s)); try done; [lia..|]|].
    + intros E. split; [specialize (H0 E); lia|naive_solver].
    + intros w Hw'. by apply safe_ret.
  - eapply safe_bind, returns_safe, returns_mono; [by eapply connected_1_inv|]. intros w Hw'. by apply safe_ret.
  - eapply safe_bind, returns_safe, returns_mono; [by eapply connected_2_inv|]. intros w Hw'. by apply safe_ret.
  - eapply safe_bind, returns_safe, returns_mono; [by eapply dispatch_end_inv|]. intros w Hw'. by apply safe_ret.
Qed.

Lemma connector_reachable_inv s0 s : inv s0 → reachable s0 s → inv s.
Proof. intros H0. induction 1 as [|s s' _ IH Hstep]; [done|]. exact (connector_step_inv s _ IH Hstep). Qed.
End invariant.

(** ** A new connector satisfies the invariant *)

Definition may_hold (a : ZSockAddr) : Prop := 0 < refcnt a < MAX_REF - 1.

Lemma ref_addr_inv a a' : (∀ l, a = Some l → may_hold l) → z_sockaddr_ref a = Done a' →
  (∀ l, a' = Some l → addr_held l) ∧ (is_Some a → is_Some a').
Proof.
  intros Ha. destruct a as [l|]; cbn; [|by intros [= <-]]. specialize (Ha l eq_refl). unfold may_hold in Ha. unfold z_refcount_inc.
  rewrite require_true, !Done_bind by lia. intros [= <-]. split; [|done]. intros ? [= <-]. unfold addr_held. cbn. lia.
Qed.

Lemma free_conn w w' : z_connector_free w = Done w' → conn w' = None.
Proof.
  unfold z_connector_free. destruct (self w) as [c|]; [|done]. rewrite Done_bind. destruct (destroy_user_data _).
  intros (w1 & _ & (? & _ & (? & _ & [= <-])%bind_Done)%bind_Done)%bind_Done. done.
Qed.

Lemma connector_new_inv bind so is_socket c rs socket nonblock type local remote flags cb data destroy w :
  0 ≤ socket → (∀ l, local = Some l → may_hold l) → may_hold remote →
  z_connector_new bind so is_socket c rs socket nonblock type local remote flags cb data destroy = Done w → is_Some (conn w) →
  inv socket data destroy cb (new_system w).
Proof.
  intros Hsock Hl Hr. unfold z_connector_new.
  destruct (z_sockaddr_ref local) as [l1|] eqn:E1; [|done]. destruct (z_sockaddr_ref (Some remote)) as [r1|] eqn:E2; [|done].
  rewrite !Done_bind. apply ref_addr_inv in E1 as [Hl1 _]; [|done].
  destruct (ref_addr_inv (Some remote) r1) as [Hr1 Hsome]; [by intros ? [= <-]|done|]. destruct (Hsome ltac:(by eexists)) as [r ->]. specialize (Hr1 r eq_refl).
  unfold z_connector_open_socket. rewrite (proj2 (Z.eqb_neq socket (-1))) by lia.
  set (m := match l1 with None => _ | Some l => _ end). destruct m as [[bound l2]|] eqn:Em; [|done]. rewrite !Done_bind.
  assert (Hl2 : ∀ l, l2 = Some l → addr_held l).
  { unfold m in Em. destruct l1 as [l|]; [|by injection Em as _ <-].
    destruct (z_bind _ _ _ _ _ _ _) as [[[[st l'] rm] c']|] eqn:Eb; [|done]. injection Em as _ <-. intros ? [= <-].
    apply z_bind_refcnt in Eb. unfold addr_held. rewrite Eb. by apply Hl1. }
  destruct (bound && nonblock) eqn:Eok.
  - rewrite (proj2 (Z.ltb_ge socket 0)) by done. intros [= <-] _. split; [done|]. split; [done|]. split; [done|]. cbn [conn the new_system source trace].
    split; [|done]. constructor; try done; try by left. 
    + cbn. by rewrite Z.eqb_refl.
  - intros E [x Hx]. exfalso.
    assert (E' : z_connector_free (mkWorld (Some (mkConnector 0 l2 (-1) r None 30 cb data destroy false (-1) type flags)) None [Opened socket])
                 = Done w) by exact E.
    apply free_conn in E'. congruence.
Qed.

(** C8: Whatever its owner and the main loop do with a connector, in any order that the rules
    of use allow and with the steps of z_connector_connected and z_connector_cancel
    interleaved in any way: no freed connector is touched and no assertion fails; the callback is
    called at most once, with a stream for the socket or an error and with the user data, and
    never after these were destroyed; the socket is either closed or given to a stream, at most once, and
    no other descriptor is touched; and once the connector is freed, the socket is no longer its
    own, and the user data was destroyed if there is a function for it. *)
Theorem connector_safe bind so is_socket c rs socket nonblock type local remote flags cb data destroy w s :
  0 ≤ socket → (∀ l, local = Some l → may_hold l) → may_hold remote →
  z_connector_new bind so is_socket c rs socket nonblock type local remote flags cb data destroy = Done w → is_Some (conn w) →
  reachable (new_system w) s →
  (∀ o, step s o → safe o (λ _, True)) ∧
  let tr := trace (the s) in
  count calls tr ≤ Z.b2z cb ∧ calls_ok socket data false tr ∧
  count (takes socket) tr ≤ 1 ∧ (∀ d, d ≠ socket → count (takes d) tr = 0) ∧
  count destroys tr ≤ Z.b2z (destroy && given data) ∧
  (conn (the s) = None → user_refs s = 0 ∧ source (the s) = None ∧
     count (takes socket) tr = 1 ∧ count destroys tr = Z.b2z (destroy && given data)).
Proof.
  intros Hsock Hl Hr Hnew Hc Hreach. assert (Hinv : inv socket data destroy cb s).
  { eapply connector_reachable_inv; [done| |exact Hreach]. by eapply connector_new_inv. }
  split. { intros o Ho. eapply safe_mono; [by eapply connector_step_inv|]. done. }
  destruct Hinv as (_ & _ & _ & Hw). cbv zeta. destruct (conn (the s)) as [c'|].
  - destruct Hw as ([_ Ht Hca _ _ Hd [Hok Ho] _ _ _ _] & _). destruct (callback c'), (destroy && given (user_data c')); cbn in *;
      (split_and!; [lia|done| |done|lia|done]); (assert (0 ≤ pending socket (source (the s))) by (unfold pending; repeat case_match; lia));
      destruct (fd c' =? socket); lia.
  - destruct Hw as ([Ht Hca Hd [Hok Ho]] & Hn & Hs). split_and!; try done; lia.
Qed.

(** ** Cancelling *)

(** The callback is not called when there is no watch, and only starting makes one. *)
Definition silent (n : Z) (s : system) : Prop :=
  started s = true ∧ (∀ c, conn (the s) = Some c → watch c = None) ∧ count calls (trace (the s)) = n.

(** A call that leaves the watch and the number of callbacks as they are. *)
Definition keeps (w w' : world) : Prop :=
  (∀ c', conn w' = Some c' → ∃ c, conn w = Some c ∧ (watch c' = watch c ∨ watch c' = None)) ∧
  count calls (trace w') = count calls (trace w).

Lemma keeps_refl w : keeps w w.
Proof. split; eauto. Qed.

Lemma keeps_trans w1 w2 w3 : keeps w1 w2 → keeps w2 w3 → keeps w1 w3.
Proof.
  intros [H1 E1] [H2 E2]. split; [|congruence]. intros c3 Hc3. destruct (H2 _ Hc3) as (c2 & Hc2 & Hw2).
  destruct (H1 _ Hc2) as (c1 & Hc1 & Hw1). exists c1. split; [done|]. destruct Hw1, Hw2; (by right) || (left; congruence) || (right; congruence).
Qed.

Lemma silent_keeps n s w u c : silent n s → keeps (the s) w → silent n (mkSystem w u true c).
Proof.
  intros (Hst & Hw & Hn) [Hk Hc]. split; [done|]. split; [|cbn; congruence]. intros c' Hc'. destruct (Hk _ Hc') as (c0 & Hc0 & [-> | ->]); [by apply Hw|done].
Qed.

Lemma close_calls x : count calls (if x =? -1 then [] else [Closed x]) = 0.
Proof. by destruct (x =? -1). Qed.

Lemma free_keeps w w' : z_connector_free w = Done w' → keeps w w'.
Proof.
  unfold z_connector_free. destruct (self w) as [c|]; [|done]. rewrite Done_bind, destroy_user_data_eq.
  intros (w1 & Hw1 & (? & _ & (? & _ & [= <-])%bind_Done)%bind_Done)%bind_Done. split; [done|]. cbn.
  assert (Ht : trace w1 = trace w) by (destruct (watch _), (source w) as [[? []]|]; try done; by injection Hw1 as <-).
  rewrite Ht, !count_app. destruct (data_events_counts 0 None (destroy_data c) (user_data c)) as (_ & -> & _).
  rewrite close_calls. lia.
Qed.

Lemma unref_keeps w w' : z_connector_unref w = Done w' → keeps w w'.
Proof.
  unfold z_connector_unref, self. destruct (conn w) as [c|] eqn:Hc; [|done]. rewrite Done_bind.
  intros ([zero n] & _ & H)%bind_Done.
  assert (Hk : keeps w (set_conn (Some (with_refs n c)) w)).
  { split; [|done]. intros ? [= <-]. exists c. split; [done|]. by left. }
  destruct zero; [by eapply keeps_trans; [|apply free_keeps]|by injection H as <-].
Qed.

Lemma destroy_cb_keeps w w' : z_connector_source_destroy_cb w = Done w' → keeps w w'.
Proof.
  unfold z_connector_source_destroy_cb, self. destruct (conn w) as [c|] eqn:Hc; [|done]. rewrite Done_bind, destroy_user_data_eq.
  intros H%unref_keeps. eapply keeps_trans; [|exact H]. split.
  - intros ? [= <-]. exists c. split; [done|]. left. by case_match.
  - cbn. rewrite count_app. destruct (data_events_counts 0 None (destroy_data c) (user_data c)) as (_ & -> & _). lia.
Qed.

Lemma emit_keeps ev c c' w : conn w = Some c → (watch c' = watch c ∨ watch c' = None) → count calls ev = 0 → keeps w (emit ev (set_conn (Some c') w)).
Proof.
  intros Hc Hw Hev. split; [|cbn; rewrite count_app; lia]. intros ? [= <-]. by exists c.
Qed.

Lemma set_keeps c c' w : conn w = Some c → (watch c' = watch c ∨ watch c' = None) → keeps w (set_conn (Some c') w).
Proof. intros Hc Hw. rewrite <- (connector_emit_nil (set_conn (Some c') w)). by eapply emit_keeps. Qed.

Lemma silent_step n s s' : silent n s → step s (Done s') → silent n s'.
Proof.
  intros Hs Hstep. pose proof Hs as (Hst & Hwatch & Hn). remember (Done s') as o eqn:Ho in Hstep.
  destruct Hstep; try congruence; rewrite ?Hst in Ho.
  - unfold z_connector_cancel_1, self in Ho. destruct (conn (the s)) as [c|] eqn:Hc; [|done]. rewrite Done_bind, (Hwatch c eq_refl) in Ho.
    injection Ho as <-. apply (silent_keeps n s); [done|apply keeps_refl].
  - apply bind_Done in Ho as (w & Hw & [= <-]). apply (silent_keeps n s); [done|]. unfold g_source_destroy in Hw.
    destruct (source (the s)) as [[dead []]|]; [apply destroy_cb_keeps in Hw; exact Hw| | |injection Hw as <-; apply keeps_refl].
    all: injection Hw as <-; split; [by eauto|done].
  - apply bind_Done in Ho as (w & Hw & [= <-]). unfold set_world. rewrite Hst. apply (silent_keeps n s); [done|].
    unfold z_connector_set_timeout, self in Hw. destruct (conn (the s)) as [c|] eqn:Hc; [|done]. injection Hw as <-.
    by apply (set_keeps c); [|left].
  - apply bind_Done in Ho as (w & Hw & [= <-]). unfold set_world. rewrite Hst. apply (silent_keeps n s); [done|].
    unfold z_connector_set_tos, self in Hw. destruct (conn (the s)) as [c|] eqn:Hc; [|done]. injection Hw as <-.
    eapply emit_keeps; [done|by left|by case_match].
  - apply bind_Done in Ho as (w & Hw & [= <-]). apply (silent_keeps n s); [done|]. unfold z_connector_ref, self in Hw.
    destruct (conn (the s)) as [c|] eqn:Hc; [|done]. rewrite Done_bind in Hw. apply bind_Done in Hw as (m & _ & [= <-]).
    by apply (set_keeps c); [|left].
  - apply bind_Done in Ho as (w & Hw & [= <-]). apply (silent_keeps n s); [done|]. by apply unref_keeps.
  - apply bind_Done in Ho as (w & Hw & [= <-]). unfold set_world. rewrite Hst. apply (silent_keeps n s); [done|].
    unfold z_connector_connected_1, self in Hw. destruct (conn (the s)) as [c|] eqn:Hc; [|done]. rewrite H, Done_bind in Hw.
    destruct (callback c); cbn [negb] in Hw; [|injection Hw as <-; split; [by eauto|done]].
    set (e := if timed_out then _ else _) in Hw. destruct (e =? 0); injection Hw as <-; (split; [|done]); intros ? [= <-]; exists c; split; eauto.
  - apply bind_Done in Ho as (w & Hw & [= <-]). unfold set_world. rewrite Hst. apply (silent_keeps n s); [done|].
    unfold z_connector_connected_2, self in Hw. destruct (conn (the s)) as [c|] eqn:Hc; [|done].
    rewrite H, Done_bind, (Hwatch c eq_refl) in Hw. injection Hw as <-. split; [by eauto|]. cbn. rewrite count_app, close_calls. lia.
  - apply bind_Done in Ho as (w & Hw & [= <-]). unfold set_world. rewrite Hst. apply (silent_keeps n s); [done|].
    apply destroy_cb_keeps in Hw. exact Hw.
Qed.

Lemma reachable_silent n s0 s : reachable s0 s → silent n s0 → silent n s.
Proof. intros Hr H0. induction Hr as [|s s' _ IH Hstep]; [done|]. by eapply silent_step. Qed.

(** The promise of z_connector_cancel: from the moment it has had the lock, whatever was under
    way, the callback of a started connector is not called any more. *)
Theorem connector_cancel s watched w s' :
  started s = true → z_connector_cancel_1 (the s) = Done (watched, w) →
  reachable (mkSystem w (user_refs s) true watched) s' →
  count calls (trace (the s')) = count calls (trace (the s)).
Proof.
  intros Hst Hc Hreach. assert (Hs : silent (count calls (trace (the s))) (mkSystem w (user_refs s) true watched)).
  { unfold z_connector_cancel_1, self in Hc. destruct (conn (the s)) as [c|] eqn:Ec; [|done]. rewrite Done_bind in Hc.
    destruct (watch c) eqn:Ew; injection Hc as <- <-; (split; [done|]); (split; [|done]).
    - by intros ? [= <-].
    - cbn. rewrite Ec. by intros ? [= <-]. }
  by apply (reachable_silent _ _ _ Hreach).
Qed.

(** ** The end of a connection *)

(** When the connection was made, the callback gets a stream for the socket, which is no longer the
    connector's; when it failed or its time was over, it gets the error, and the socket stays
    until the connector is freed; when it was cancelled, the callback is not called, and a socket
    that was connected is closed.  If getsockopt fails, the connection counts as made.  A
    connector whose callback was called does nothing any more. *)
Theorem connected_spec (timed_out : bool) (so_error : option Z) w c :
  conn w = Some c → source w = Some (mkSource false Waiting) → 0 ≤ fd c →
  let e := if timed_out then ETIMEDOUT else default 0 so_error in
  ∃ c', z_connector_connected timed_out so_error w =
    Done (mkWorld (Some c') (Some (mkSource false Returned)) (trace w ++
      if negb (callback c) then []
      else match watch c with
           | Some _ => if e =? 0 then [Wrapped (fd c); Called (Some (fd c)) None (user_data c)] else [Called None (Some e) (user_data c)]
           | None => if e =? 0 then [Closed (fd c)] else []
           end)) ∧
  fd c' = (if callback c && (e =? 0) then -1 else fd c) ∧
  callback c' = callback c && bool_decide (watch c = None).
Proof.
  intros Hc Hs Hfd e.
  assert (Hleb : (0 <=? fd c) = true) by lia. assert (Hneg : (fd c =? -1) = false) by lia.
  unfold z_connector_connected, z_connector_connected_1, self. rewrite Hc, Hs, Done_bind. cbn [destroyed].
  destruct (callback c) eqn:Hcb; cbn [negb].
  - fold e. destruct (e =? 0) eqn:He; rewrite Done_bind; cbn [source set_source set_conn];
      unfold z_connector_connected_2, self; cbn [conn set_source set_conn source]; rewrite Done_bind; cbn [watch with_fd];
      destruct (watch c) eqn:Hw; eexists; (split; [unfold emit; cbn; rewrite ?He, ?Hleb, ?Hneg; reflexivity|]);
      cbn; by rewrite ?Hcb.
  - rewrite Done_bind. cbn [source set_source]. exists c. rewrite app_nil_r. split; [|done]. unfold set_source. by rewrite Hc.
Qed.

(** Waiting for a connection, the poll calls are told the time that is left of the timeout, also
    after an interruption, and never more than the timeout; any answer but an interruption ends
    the loop. *)
Theorem poll_loop_times (times : list Z) (t : Z) (r : poll_answer) answers d start timeout :
  r ≠ PollEintr → 0 ≤ timeout < 2 ^ 31 / 1000 → Forall (λ t, start ≤ t) (times ++ [t]) →
  poll_loop (((λ t, (t, PollEintr)) <$> times) ++ (t, r) :: answers) d (start + timeout) =
    Done ((λ t, Polled d (1000 * Z.max 0 (start + timeout - t))) <$> (times ++ [t])) ∧
  Forall (λ t, 0 ≤ 1000 * Z.max 0 (start + timeout - t) ≤ 1000 * timeout) (times ++ [t]).
Proof.
  intros Hr Ht Hle. change (2 ^ 31 / 1000) with 2147483 in Ht. split; [|eapply Forall_impl; [exact Hle|]; cbn; lia].
  assert (Hone : ∀ t, start ≤ t → (if start + timeout - t <? 0 then 0 else s32 ((start + timeout - t) * 1000)) = 1000 * Z.max 0 (start + timeout - t)).
  { intros t' Ht'. destruct (Z.ltb_spec (start + timeout - t') 0); [lia|]. rewrite s32_small by lia. lia. }
  induction times as [|t0 times IH]; [cbn; rewrite Hone by (by apply Forall_inv in Hle); by destruct r|].
  rewrite fmap_cons, <- !app_comm_cons in *. apply Forall_cons in Hle as [Hle0 Hle]. cbn [poll_loop].
  by rewrite Hone, (IH Hle), Done_bind, fmap_cons.
Qed.

(** ** Concrete runs *)

Definition some_remote : ZSockAddr := z_sockaddr_inet_new2 (AF_INET 0x0A000001 80).
Definition bind_ok (_ : gset Z) (_ : sockaddr) : bind_result := BindOk.

(** A connector with socket 9, user data 5 and a function to destroy it. *)
Definition some_connector : outcome world :=
  z_connector_new bind_ok true (λ _, true) (mkCaps false ∅) [] 9 true 1 None some_remote 0 true (Some 5) true.
Definition some_name : option (sockaddr * Z) := Some (AF_INET 0x0A000002 4711, 16).

(** The connection is made, and the owner releases the connector: the stream has the socket. *)
Example connect_run :
  trace <$> (w ← some_connector;
    '(_, w, _) ← z_connector_start true [Some EINTR; Some EINPROGRESS] some_name 1000 w;
    w ← z_connector_connected false (Some 0) w; w ← dispatch_end w; z_connector_unref w)
  = Done [Opened 9; Wrapped 9; Called (Some 9) None (Some 5); Destroyed 5].
Proof. by vm_compute. Qed.

(** The owner cancels between the two parts of z_connector_connected: the socket is closed. *)
Example cancel_race :
  trace <$> (w ← some_connector;
    '(_, w, _) ← z_connector_start true [Some EINPROGRESS] some_name 1000 w;
    w ← z_connector_connected_1 false (Some 0) w; w ← z_connector_cancel w;
    w ← z_connector_connected_2 w; w ← dispatch_end w; z_connector_unref w)
  = Done [Opened 9; Closed 9; Destroyed 5].
Proof. by vm_compute. Qed.

(** When binding fails, the socket is opened and never closed, and there is no connector; the
    user data is destroyed all the same. *)
Example open_socket_leaks :
  (λ w, (conn w, trace w)) <$> z_connector_new (λ _ _, BindInUse) true (λ _, true) (mkCaps false ∅) [] 9 true 1
    (Some some_remote) some_remote 0 true (Some 5) true
  = Done (None, [Opened 9; Destroyed 5]).
Proof. by vm_compute. Qed.

(** Starting with blocking reports success when the time was over and nothing was connected. *)
Example start_block_timeout :
  ('(ok, w, _) ← (w ← some_connector; z_connector_start_block true [Some EINPROGRESS] some_name 1000 [(1000, PollTimeout)] true w);
   Done (ok, trace w)) = Done (true, [Opened 9; Polled 9 30000; Wrapped 9; Destroyed 5]).
Proof. by vm_compute. Qed.

(** It needs a place for the stream, although its comment says that there need not be one. *)
Example start_block_no_stream :
  (w ← some_connector; z_connector_start_block true [None] some_name 1000 [(1000, PollReady)] false w) = Fault OutOfBounds.
Proof. by vm_compute. Qed.

(** A connector that was cancelled can be started again. *)
Example start_twice :
  ('(ok, _, _) ← (w ← some_connector;
     '(_, w, _) ← z_connector_start true [Some EINPROGRESS] some_name 1000 w;
     w ← z_connector_cancel w; z_connector_start true [Some EINPROGRESS] some_name 1000 w); Done ok) = Done true.
Proof. by vm_compute. Qed.

(** ** Witnesses *)

Definition after (s : system) (o : outcome system) : system := match o with Done s' => s' | Fault _ => s end.

Lemma connector_reachable_after s0 s o : reachable s0 s → step s o → reachable s0 (after s o).
Proof. intros Hr Hs. destruct o; [by eapply reachable_step|done]. Qed.

Definition the_world (o : outcome world) : world := match o with Done w => w | Fault _ => mkWorld None None [] end.
Definition some_world : world := the_world some_connector.

Lemma some_world_new : some_connector = Done some_world.
Proof. by vm_compute. Qed.

Lemma connector_some_name_ok : name_ok some_name.
Proof. by intros ? ? [= <- <-]. Qed.

(** The owner starts the connector, and releases it while the connection is made. *)
Lemma connected_reachable : ∃ s, reachable (new_system some_world) s ∧
  conn (the s) = None ∧ trace (the s) = [Opened 9; Wrapped 9; Called (Some 9) None (Some 5); Destroyed 5].
Proof.
  pose proof (reachable_refl (new_system some_world)) as H.
  eapply connector_reachable_after in H; [|apply (step_start _ false true [Some EINPROGRESS] some_name 1000); [done|done|apply connector_some_name_ok]].
  eapply connector_reachable_after in H; [|by apply (step_dispatch _ false (Some 0)); vm_compute].
  eapply connector_reachable_after in H; [|by apply (step_locked _ false 9 0); vm_compute].
  eapply connector_reachable_after in H; [|by apply (step_unref); vm_compute].
  eapply connector_reachable_after in H; [|by apply (step_dispatch_end _ false); vm_compute].
  eexists. split; [exact H|]. split; by vm_compute.
Qed.

Lemma connector_safe_witness : ∃ s, reachable (new_system some_world) s ∧
  conn (the s) = None ∧ calls_ok 9 (Some 5) false (trace (the s)) ∧ count (takes 9) (trace (the s)) = 1.
Proof.
  destruct connected_reachable as (s & Hs & Hfreed & _).
  destruct (connector_safe bind_ok true (λ _, true) (mkCaps false ∅) [] 9 true 1 None some_remote 0 true (Some 5) true some_world s)
    as (_ & _ & Hok & _ & _ & _ & Hend).
  - lia.
  - done.
  - unfold may_hold, MAX_REF. cbn. lia.
  - exact some_world_new.
  - eexists. by vm_compute.
  - exact Hs.
  - exists s. split; [exact Hs|]. split; [exact Hfreed|]. split; [exact Hok|]. by apply Hend.
Defined.

Definition started_world : world :=
  the_world ('(_, w, _) ← z_connector_start_in_context false true [Some EINPROGRESS] some_name 1000 some_world;
             z_connector_connected_1 false (Some 0) w).
Definition cancelled_world : world := the_world (snd <$> z_connector_cancel_1 started_world).

Lemma connector_cancel_witness :
  let s := mkSystem cancelled_world 1 true true in
  let s' := after s (w ← z_connector_connected_2 cancelled_world; Done (set_world w s)) in
  trace (the s') = [Opened 9; Closed 9] ∧ count calls (trace (the s')) = 0.
Proof.
  intros s s'. split; [by vm_compute|].
  apply (connector_cancel (mkSystem started_world 1 true false) true cancelled_world s').
  - reflexivity.
  - by vm_compute.
  - eapply connector_reachable_after; [apply reachable_refl|]. apply (step_locked s false 9 0). by vm_compute.
Defined.

Lemma connected_spec_witness :
  let w := the_world ('(_, w, _) ← z_connector_start true [None] some_name 1000 some_world; Done w) in
  ∃ c', z_connector_connected true None w =
    Done (mkWorld (Some c') (Some (mkSource false Returned)) [Opened 9; Called None (Some ETIMEDOUT) (Some 5)]).
Proof.
  intros w. destruct (conn w) as [c|] eqn:Hc; [|by vm_compute in Hc].
  destruct (connected_spec true None w c) as (c' & H & _); [exact Hc|by vm_compute|by vm_compute in Hc; injection Hc as <-|].
  exists c'. rewrite H. vm_compute in Hc. injection Hc as <-. by vm_compute.
Defined.

Lemma poll_loop_times_witness :
  poll_loop [(1000, PollEintr); (1010, PollTimeout)] 9 (1000 + 30) = Done [Polled 9 30000; Polled 9 20000].
Proof.
  refine (proj1 (poll_loop_times [1000] 1010 PollTimeout [] 9 1000 30 _ _ _)); [done|done|]. by repeat constructor.
Defined.
