(* ===== verification/Listen.v ===== *)
(** * Listeners (src/src/listen.c, src/src/zorp/listen.h)

    A listener waits for connections on a socket and hands each of them to a callback, which may
    suspend, resume, cancel or release the listener.  The lock makes z_listener_accept and
    the inside of z_listener_cancel single steps.  What is done to descriptors and
    callbacks is kept in a trace.  Of the main loop only this is used: a source is dispatched
    while it is not destroyed and not suspended, one whose callback returns FALSE is destroyed, and the
    notification of a destroyed source is called once, when it is not being dispatched. *)

From S2P Require Import Prelude RefCount StreamApi SockAddr Socket Misc Source.
Open Scope Z_scope.

Definition ZSF_ACCEPT_ONE : Z := 0x0004.
Definition MAX_ACCEPTS_AT_A_TIME : nat := 50.
Definition Z_SOCKEVENT_ACCEPT : Z := 1. (* G_IO_IN *)

(** The addresses that a callback gets; the destination is [None] if the variable was not set. *)
Inductive event : Type :=
| Opened (fd : Z) | Closed (fd : Z)
| Started (fd : Z)                   (* the log message of z_listener_start *)
| Wrapped (fd : Z)                   (* a stream was made for the descriptor, and set to block *)
| Called (stream : option Z) (client : option ZSockAddr) (dest : option (option ZSockAddr)).

Record ZListener := mkListener {
  refs : Z;                          (* the reference count of the object *)
  bind_addr : option ZSockAddr;
  local : option ZSockAddr;
  fd : Z;                            (* -1 for none *)
  watch : bool;                      (* whether it points to the source *)
  sock_flags : Z;
  context : bool;
  backlog : Z
}.

(** The source: whether it was destroyed, whether its notification was called, and whether it is being dispatched. *)
Record gsource := mkSource { destroyed : bool; notified : bool; dispatching : bool; socket_source : ZSocketSource }.

(** A listener that was freed is [None]; there is a source as long as there is a pointer to it. *)
Record world := mkWorld { listener : option ZListener; source : option gsource; trace : list event }.

Definition set_listener (l : option ZListener) (w : world) : world := mkWorld l (source w) (trace w).
Definition set_source (s : option gsource) (w : world) : world := mkWorld (listener w) s (trace w).
Definition emit (e : list event) (w : world) : world := mkWorld (listener w) (source w) (trace w ++ e).

Definition with_refs (n : Z) (l : ZListener) : ZListener :=
  mkListener n (bind_addr l) (local l) (fd l) (watch l) (sock_flags l) (context l) (backlog l).
Definition with_addrs (b a : option ZSockAddr) (l : ZListener) : ZListener :=
  mkListener (refs l) b a (fd l) (watch l) (sock_flags l) (context l) (backlog l).
Definition with_fd (d : Z) (l : ZListener) : ZListener :=
  mkListener (refs l) (bind_addr l) (local l) d (watch l) (sock_flags l) (context l) (backlog l).
Definition with_watch (b : bool) (l : ZListener) : ZListener :=
  mkListener (refs l) (bind_addr l) (local l) (fd l) b (sock_flags l) (context l) (backlog l).
Definition with_context (b : bool) (l : ZListener) : ZListener :=
  mkListener (refs l) (bind_addr l) (local l) (fd l) (watch l) (sock_flags l) b (backlog l).

Definition self (w : world) : outcome ZListener :=
  match listener w with Some l => Done l | None => Fault UseAfterFree end.

(** The source through the watch. *)
Definition the_source (w : world) : outcome gsource :=
  match source w with Some s => Done s | None => Fault UseAfterFree end.

(** ** Creation and references *)

Definition z_listener_new (bind_addr : option ZSockAddr) (sock_flags backlog : Z) : outcome world :=
  b ← z_sockaddr_ref bind_addr;
  Done (mkWorld (Some (mkListener 1 b None (-1) false sock_flags false backlog)) None []).

Definition z_stream_listener_new (local : option ZSockAddr) (sock_flags backlog : Z) : outcome world :=
  z_listener_new local sock_flags backlog.

(** The watch is left as it is. *)
Definition z_listener_free (w : world) : outcome world :=
  l ← self w;
  _ ← z_sockaddr_unref (bind_addr l);
  _ ← z_sockaddr_unref (local l);
  Done (emit (if fd l =? -1 then [] else [Closed (fd l)]) (set_listener None w)).

Definition z_listener_ref (w : world) : outcome world :=
  l ← self w; n ← z_refcount_inc (refs l); Done (set_listener (Some (with_refs n l)) w).

Definition z_listener_unref (w : world) : outcome world :=
  l ← self w;
  '(zero, n) ← z_refcount_dec (refs l);
  let w := set_listener (Some (with_refs n l)) w in
  if zero : bool then z_listener_free w else Done w.

(** g_source_destroy: the notification, z_listener_unref, is called now, at the end of the
    dispatch, or was called already. *)
Definition g_source_destroy (w : world) : outcome world :=
  s ← the_source w;
  let w := set_source (Some (mkSource true (notified s || negb (dispatching s)) (dispatching s) (socket_source s))) w in
  if notified s || dispatching s then Done w else z_listener_unref w.

(** ** Opening and starting *)
Section socket.
Context (bind : gset Z → sockaddr → bind_result) (setsockopt : bool) (is_socket : list Z → bool) (c : cap_state) (rs : list Z).
(** What socket(), listen() and getsockname() answer. *)
Context (socket : Z) (listen : option errno_value) (name : option (sockaddr * Z)).

(** The descriptor; the family of the address is read before it is tested. *)
Definition z_stream_listener_open_listener (w : world) : outcome (Z * world) :=
  l ← self w;
  match bind_addr l with
  | None => Fault OutOfBounds
  | Some b =>
      if socket =? -1 then Done (-1, w)
      else
        '(st, b, _, _) ← z_bind bind setsockopt is_socket c rs b (sock_flags l);
        let w := emit [Opened socket] (set_listener (Some (with_addrs (Some b) (local l) l)) w) in
        if bool_decide (st = G_IO_STATUS_NORMAL) then
          if bool_decide (z_listen listen = G_IO_STATUS_NORMAL) then
            '(st, a) ← z_getsockname name;
            if bool_decide (st = G_IO_STATUS_NORMAL)
            then Done (socket, set_listener (Some (with_addrs (Some b) a l)) w)
            else Done (-1, emit [Closed socket] w)
          else Done (-1, emit [Closed socket] w)
        else Done (-1, emit [Closed socket] w)
  end.

Definition z_listener_open (w : world) : outcome (bool * world) :=
  '(d, w) ← z_stream_listener_open_listener w;
  if d =? -1 then Done (false, w)
  else l ← self w; Done (true, set_listener (Some (with_fd d l)) w).

Definition z_listener_start (now : Z) (w : world) : outcome (bool * world) :=
  l ← self w;
  if watch l then Done (false, w)
  else
    '(ok, w) ← (if fd l =? -1 then z_listener_open w else Done (true, w));
    if ok : bool then
      l ← self w;
      w ← z_listener_ref (emit [Started (fd l)] w);
      l ← self w;
      Done (true, set_source (Some (mkSource false false false (z_socket_source_new Z_SOCKEVENT_ACCEPT (-1) now)))
                    (set_listener (Some (with_watch true l)) w))
    else Done (false, w).

Definition z_listener_start_in_context (now : Z) (w : world) : outcome (bool * world) :=
  l ← self w; z_listener_start now (set_listener (Some (with_context true l)) w).
End socket.

(** ** Suspending, resuming and cancelling *)

Definition on_watch (f : ZSocketSource → ZSocketSource) (w : world) : outcome world :=
  l ← self w;
  if watch l then
    s ← the_source w; Done (set_source (Some (mkSource (destroyed s) (notified s) (dispatching s) (f (socket_source s)))) w)
  else Done w.

Definition z_listener_suspend (w : world) : outcome world := on_watch z_socket_source_suspend w.
Definition z_listener_resume (w : world) : outcome world := on_watch z_socket_source_resume w.

(** Under the lock; there may be no watch any more, and GLib refuses to destroy NULL. *)
Definition z_listener_cancel_locked (w : world) : outcome world :=
  l ← self w;
  let w' := set_listener (Some (with_watch false l)) w in
  if watch l then g_source_destroy w' else Done w'.

Definition z_listener_cancel (w : world) : outcome world :=
  l ← self w; if watch l then z_listener_cancel_locked w else Done w.

(** ** Accepting *)

(** What the callback does with the listener before it returns. *)
Inductive action : Set := Suspend | Resume | Cancel | Release.

Definition act (a : action) (w : world) : outcome world :=
  match a with
  | Suspend => z_listener_suspend w
  | Resume => z_listener_resume w
  | Cancel => z_listener_cancel w
  | Release => z_listener_unref w
  end.

Fixpoint acts (l : list action) (w : world) : outcome world :=
  match l with [] => Done w | a :: l => w ← act a w; acts l w end.

(** [rs]: what accept() answers; [dests]: the answers of getsockname for the
    destination; [callbacks]: what the callback does and returns. *)
Record answers := mkAnswers { rs : list accept_result; dests : list (option (sockaddr * Z)); callbacks : list (list action * bool) }.

(** The status; on success the stream, the client and the destination. *)
Definition z_stream_listener_accept_connection (a : answers)
    : outcome (GIOStatus * option (Z * option ZSockAddr * option ZSockAddr) * answers) :=
  '(st, r, rs) ← z_accept (rs a);
  match r, dests a with
  | Some (newfd, client), d :: ds => '(_, dest) ← z_getsockname d; Done (st, Some (newfd, client, dest), mkAnswers rs ds (callbacks a))
  | Some _, [] => Fault Blocked
  | None, _ => Done (st, None, mkAnswers rs (dests a) (callbacks a))
  end.

Definition z_socket_source_is_suspended (s : gsource) : bool := suspended (socket_source s).

(** The callback, and what it makes of rc. *)
Definition deliver (stream : option Z) (client : option ZSockAddr) (dest : option (option ZSockAddr)) (a : answers) (w : world)
    : outcome (bool * answers * world) :=
  match callbacks a with
  | [] => Fault Blocked
  | (l, rc) :: cs =>
      w ← acts l (emit [Called stream client dest] w);
      s ← self w;
      Done (rc && negb (has (sock_flags s) ZSF_ACCEPT_ONE), mkAnswers (rs a) (dests a) cs, w)
  end.

(** The loop: [left] accepts may still be made; time() is called when all other conditions hold. *)
Fixpoint accept_iter (left : nat) (start : Z) (times : list Z) (rc : bool) (dest : option (option ZSockAddr)) (a : answers) (w : world)
    : outcome (bool * nat * answers * world) :=
  s ← the_source w;
  if z_socket_source_is_suspended s || negb rc then Done (rc, left, a, w)
  else
    match left, times with
    | O, _ => Done (rc, left, a, w)
    | S _, [] => Fault Blocked
    | S left', now :: times =>
        if negb (start =? now) then Done (rc, left, a, w)
        else
          '(st, r, a) ← z_stream_listener_accept_connection a;
          match r with
          | None =>
              if bool_decide (st = G_IO_STATUS_AGAIN) then Done (rc, left, a, w)
              else
                '(rc, a, w) ← deliver None None dest a w;
                l ← self w;
                if watch l then accept_iter left' start times rc dest a w else Done (rc, left', a, w)
          | Some (newfd, client, d) =>
              '(rc, a, w) ← deliver (Some newfd) client (Some d) a (emit [Wrapped newfd] w);
              l ← self w;
              if watch l then accept_iter left' start times rc (Some d) a w else Done (rc, left', a, w)
          end
    end.

(** rc, and what the system has left. *)
Definition z_listener_accept (start : Z) (times : list Z) (a : answers) (w : world) : outcome (bool * answers * world) :=
  l ← self w;
  if negb (watch l) then Done (true, a, w)
  else
    w ← z_listener_ref w;
    '(rc, _, a, w) ← accept_iter MAX_ACCEPTS_AT_A_TIME start times true None a w;
    w ← z_listener_unref w;
    Done (rc, a, w).

(** ** The main loop *)

Definition set_dispatching (b : bool) (s : gsource) : gsource := mkSource (destroyed s) (notified s) b (socket_source s).

Definition dispatch_begin (w : world) : outcome world := s ← the_source w; Done (set_source (Some (set_dispatching true s)) w).

(** Behind the callback: FALSE destroys the source, and a source that was destroyed is notified. *)
Definition dispatch_end (rc : bool) (w : world) : outcome world :=
  s ← the_source w;
  let dead := destroyed s || negb rc in
  let w := set_source (Some (mkSource dead (notified s || dead) false (socket_source s))) w in
  if dead && negb (notified s) then z_listener_unref w else Done w.

(** ** Steps

    What the owner and the main loop may do, in any order.  [loop]: the main loop is not in
    the source, before the lock of z_listener_accept, or behind it.  [cancelling]: the owner has seen the
    watch in z_listener_cancel, and goes for the lock.

    The rules that the owner has to keep: the listener has an address, to which binding comes
    to an end; z_listener_open is called only while there is no socket and no watch, which it
    does not test ([open_twice_leaks]); the listener is not started again before its old
    source was notified; whoever calls has a reference, and the owner has those that a
    callback releases. *)
Inductive phase : Set := Idle | Begun | Returned (rc : bool).
Record system := mkSystem { the : world; user_refs : Z; cancelling : bool; loop : phase }.

Definition set_world (w : world) (s : system) : system := mkSystem w (user_refs s) (cancelling s) (loop s).

Definition name_ok (name : option (sockaddr * Z)) : Prop := ∀ x len, name = Some (x, len) → len ≤ 110.
Definition accept_ok (r : accept_result) : Prop :=
  match r with Accepted _ x len => len ≤ 110 ∨ x = AF_OTHER MAGIC_FAMILY_NUMBER ∧ len = SABUF_SIZE | AcceptFailed _ => True end.

(** The references that callbacks release. *)
Fixpoint released (l : list action) : Z :=
  match l with [] => 0 | a :: l => (match a with Release => 1 | _ => 0 end) + released l end.
Fixpoint releases (cs : list (list action * bool)) : Z :=
  match cs with [] => 0 | c :: cs => released (fst c) + releases cs end.

Record answers_ok (n : Z) (a : answers) : Prop := {
  ao_rs : Forall accept_ok (rs a); ao_dests : Forall name_ok (dests a); ao_releases : releases (callbacks a) ≤ n
}.

Definition held (s : system) : Z := if cancelling s then 1 else 0.

(** The listener has an address, and binding to it ends. *)
Definition binds bind setsockopt is_socket c rs (w : world) : Prop :=
  ∀ l, listener w = Some l → ∃ b, bind_addr l = Some b ∧ returns (z_bind bind setsockopt is_socket c rs b (sock_flags l)) (λ _, True).

Definition idle_source (w : world) : Prop := ∀ s, source w = Some s → notified s = true ∧ dispatching s = false.

Inductive step (s : system) : outcome system → Prop :=
| step_open bind setsockopt is_socket c rs socket listen name :
    0 < user_refs s → 0 ≤ socket → name_ok name → binds bind setsockopt is_socket c rs (the s) → (∀ l, listener (the s) = Some l → fd l = -1 ∧ watch l = false) →
    step s ('(_, w) ← z_listener_open bind setsockopt is_socket c rs socket listen name (the s); Done (set_world w s))
| step_start bind setsockopt is_socket c rs socket listen name now :
    0 < user_refs s → 0 ≤ socket → name_ok name → binds bind setsockopt is_socket c rs (the s) → idle_source (the s) →
    step s ('(_, w) ← z_listener_start_in_context bind setsockopt is_socket c rs socket listen name now (the s); Done (set_world w s))
| step_suspend : 0 < user_refs s → step s (w ← z_listener_suspend (the s); Done (set_world w s))
| step_resume : 0 < user_refs s → step s (w ← z_listener_resume (the s); Done (set_world w s))
| step_cancel l :
    0 < user_refs s → listener (the s) = Some l → watch l = true →
    step s (Done (mkSystem (the s) (user_refs s) true (loop s)))
| step_cancel_locked :
    cancelling s = true →
    step s (w ← z_listener_cancel_locked (the s); Done (mkSystem w (user_refs s) false (loop s)))
| step_ref :
    0 < user_refs s → user_refs s + 8 < MAX_REF →
    step s (w ← z_listener_ref (the s); Done (mkSystem w (user_refs s + 1) (cancelling s) (loop s)))
| step_unref :
    held s < user_refs s →
    step s (w ← z_listener_unref (the s); Done (mkSystem w (user_refs s - 1) (cancelling s) (loop s)))
| step_dispatch g :
    loop s = Idle → source (the s) = Some g → destroyed g = false → suspended (socket_source g) = false →
    step s (w ← dispatch_begin (the s); Done (mkSystem w (user_refs s) (cancelling s) Begun))
| step_accept start times a :
    loop s = Begun → answers_ok (user_refs s - held s) a →
    step s ('(rc, a', w) ← z_listener_accept start times a (the s);
            Done (mkSystem w (user_refs s - (releases (callbacks a) - releases (callbacks a'))) (cancelling s) (Returned rc)))
| step_dispatch_end rc :
    loop s = Returned rc →
    step s (w ← dispatch_end rc (the s); Done (mkSystem w (user_refs s) (cancelling s) Idle)).

Inductive reachable (s0 : system) : system → Prop :=
| reachable_refl : reachable s0 s0
| reachable_step s s' : reachable s0 s → step s (Done s') → reachable s0 s'.

Definition new_system (w : world) : system := mkSystem w 1 false Idle.

(** * What is promised *)

(** ** What happened *)

(** The sockets that are open: each is closed as often as it was opened, except that of the listener. *)
Fixpoint open_count (d : Z) (tr : list event) : Z :=
  match tr with
  | [] => 0
  | Opened x :: tr => (if x =? d then 1 else 0) + open_count d tr
  | Closed x :: tr => (if x =? d then -1 else 0) + open_count d tr
  | _ :: tr => open_count d tr
  end.

(** Every connection that was accepted is handed to the callback at once, and only such a one. *)
Fixpoint handed_over (tr : list event) : Prop :=
  match tr with
  | [] => True
  | Wrapped d :: tr => match tr with Called (Some x) _ (Some _) :: tr => x = d ∧ handed_over tr | _ => False end
  | Called (Some _) _ _ :: _ => False
  | Called None client _ :: tr => client = None ∧ handed_over tr
  | _ :: tr => handed_over tr
  end.

Definition is_call (e : event) : bool := match e with Called _ _ _ => true | _ => false end.
Fixpoint call_count (tr : list event) : Z := match tr with [] => 0 | e :: tr => (if is_call e then 1 else 0) + call_count tr end.

Lemma open_count_app d l1 l2 : open_count d (l1 ++ l2) = open_count d l1 + open_count d l2.
Proof. induction l1 as [|[] l1 IH]; cbn; lia. Qed.

Lemma call_count_app l1 l2 : call_count (l1 ++ l2) = call_count l1 + call_count l2.
Proof. induction l1 as [|e l1 IH]; cbn; lia. Qed.

Lemma handed_over_app l1 l2 : handed_over l1 → handed_over l2 → handed_over (l1 ++ l2).
Proof.
  remember (length l1) as n eqn:Hn. revert l1 Hn. induction n as [n IH] using lt_wf_ind. intros l1 -> H1 H2.
  destruct l1 as [|[x|x|x|x|[x|] c o] l1]; cbn in *; try done.
  - eapply (IH (length l1)); [cbn; lia|done|done|done].
  - eapply (IH (length l1)); [cbn; lia|done|done|done].
  - eapply (IH (length l1)); [cbn; lia|done|done|done].
  - destruct l1 as [|[| | | |[y|] c [o|]] l1]; try done. destruct H1 as [-> H1]. split; [done|]. eapply (IH (length l1)); [cbn; lia|done|done|done].
  - destruct H1 as [-> H1]. split; [done|]. eapply (IH (length l1)); [cbn; lia|done|done|done].
Qed.

(** ** The invariant *)

Definition addr_held (a : option ZSockAddr) : Prop := ∀ x, a = Some x → 0 < refcnt x < MAX_REF.

Definition source_ref (w : world) : Z := match source w with Some s => if notified s then 0 else 1 | None => 0 end.

(** [m]: the references that are not the source's. *)
Definition inv (m : Z) (w : world) : Prop :=
  0 ≤ m ∧ m + 4 ≤ MAX_REF ∧ handed_over (trace w) ∧
  match listener w with
  | Some l => refs l = m + source_ref w ∧ 0 < refs l ∧ (watch l = true → is_Some (source w)) ∧
              (∀ d, 0 ≤ d → open_count d (trace w) = if fd l =? d then 1 else 0) ∧ (fd l = -1 ∨ 0 ≤ fd l) ∧
              addr_held (bind_addr l) ∧ addr_held (local l)
  | None => m = 0 ∧ source_ref w = 0 ∧ ∀ d, 0 ≤ d → open_count d (trace w) = 0
  end.

Lemma inv_listener m w : inv m w → 0 < m + source_ref w → ∃ l, listener w = Some l.
Proof. intros (_ & _ & _ & H) Hm. destruct (listener w) as [l|]; [by exists l|lia]. Qed.

Lemma source_ref_range w : 0 ≤ source_ref w ≤ 1.
Proof. unfold source_ref. destruct (source w) as [[? [] ? ?]|]; cbn; lia. Qed.

Lemma unref_addr a : addr_held a → returns (z_sockaddr_unref a) (λ _, True).
Proof.
  intros Ha. destruct a as [l|]; [|by apply returns_ret]. specialize (Ha l eq_refl) as [H1 H2]. unfold z_sockaddr_unref, z_refcount_dec.
  by rewrite require_true, !Done_bind by lia.
Qed.

(** Releasing one of the references [m + 1]: the listener's may have been the source's. *)
Lemma unref_inv m w l :
  listener w = Some l → refs l = m + 1 + source_ref w → 0 ≤ m → m + 4 ≤ MAX_REF → handed_over (trace w) →
  (watch l = true → is_Some (source w)) → (∀ d, 0 ≤ d → open_count d (trace w) = if fd l =? d then 1 else 0) → (fd l = -1 ∨ 0 ≤ fd l) →
  addr_held (bind_addr l) → addr_held (local l) →
  returns (z_listener_unref w) (λ w', inv m w' ∧ source w' = source w).
Proof.
  intros Hl Hr Hm Hmax Hho Hw Hopen Hfd Hb Ha. pose proof (source_ref_range w). unfold z_listener_unref, self. rewrite Hl, Done_bind.
  unfold z_refcount_dec. rewrite require_true, !Done_bind by lia. case_bool_decide as Hz.
  - unfold z_listener_free, self. cbn [listener set_listener]. rewrite Done_bind. cbn [bind_addr local with_refs fd].
    eapply returns_bind, returns_mono; [by apply unref_addr|]. intros _ _.
    eapply returns_bind, returns_mono; [by apply unref_addr|]. intros _ _. apply returns_ret.
    split; [|done]. split; [done|]. split; [done|]. cbn [trace emit set_listener listener]. split; [apply handed_over_app; [done|by case_match]|].
    assert (source_ref w = 0 ∧ m = 0) as [Hs ->] by lia. split; [done|]. split; [exact Hs|]. intros d Hd. rewrite open_count_app, Hopen by done.
    destruct Hfd as [-> | Hfd]; [by rewrite (proj2 (Z.eqb_neq (-1) d)) by lia|].
    rewrite (proj2 (Z.eqb_neq (fd l) (-1))) by lia. cbn. by destruct (fd l =? d).
  - apply returns_ret. split; [|done]. split; [done|]. split; [done|]. split; [done|]. cbn [listener set_listener refs with_refs].
    change (source_ref (set_listener (Some (with_refs (refs l - 1) l)) w)) with (source_ref w). split_and!; try done; lia.
Qed.

Lemma release_inv m w : inv m w → 0 < m → returns (z_listener_unref w) (λ w', inv (m - 1) w' ∧ source w' = source w).
Proof.
  intros (Hm & Hmax & Hho & H) Hpos. destruct (listener w) as [l|] eqn:Hl; [|lia]. destruct H as (Hr & Hr0 & Hw & Ho & Hf & Hb & Ha).
  by eapply unref_inv; try done; try lia.
Qed.

Lemma ref_inv m w : inv m w → 0 < m + source_ref w → m + 1 + 4 ≤ MAX_REF →
  returns (z_listener_ref w) (λ w', inv (m + 1) w' ∧ source w' = source w ∧
    ∃ l, listener w = Some l ∧ listener w' = Some (with_refs (refs l + 1) l) ∧ trace w' = trace w).
Proof.
  intros Hi Hpos Hmax. destruct (inv_listener m w Hi Hpos) as [l Hl]. pose proof (source_ref_range w).
  destruct Hi as (Hm & _ & Hho & H'). rewrite Hl in H'. destruct H' as (Hr & Hr0 & Hw & Ho & Hf & Hb & Ha).
  unfold z_listener_ref, self, z_refcount_inc. rewrite Hl, Done_bind, require_true, !Done_bind by lia. apply returns_ret.
  split; [|split; [done|by exists l]]. split; [lia|]. split; [lia|]. split; [done|]. cbn [listener set_listener refs with_refs trace].
  change (source_ref (set_listener (Some (with_refs (refs l + 1) l)) w)) with (source_ref w). split_and!; try done; lia.
Qed.

(** The source loses its reference when it is notified. *)
Lemma notify_inv m w s s' :
  inv m w → source w = Some s → notified s = false → notified s' = true → returns (z_listener_unref (set_source (Some s') w))
    (λ w', inv m w' ∧ source w' = Some s').
Proof.
  intros (Hm & Hmax & Hho & H) Hs Hn Hn'. assert (Hsr : source_ref w = 1) by (unfold source_ref; by rewrite Hs, Hn).
  destruct (listener w) as [l|] eqn:Hl; [|lia]. destruct H as (Hr & Hr0 & Hw & Ho & Hf & Hb & Ha).
  eapply returns_mono; [eapply (unref_inv m _ l); try done|].
  - unfold source_ref. cbn. rewrite Hn'. lia.
  - by intros w' [? ?].
Qed.

Lemma set_source_inv m w s s' : inv m w → source w = Some s → notified s' = notified s → inv m (set_source (Some s') w).
Proof.
  intros (Hm & Hmax & Hho & H) Hs Hn. split; [done|]. split; [done|]. split; [done|]. cbn [listener set_source].
  assert (Hsr : source_ref (set_source (Some s') w) = source_ref w) by (unfold source_ref; cbn; by rewrite Hs, Hn).
  rewrite Hsr. destruct (listener w); [|done]. naive_solver.
Qed.

(** A source is notified when it was destroyed and is not being dispatched. *)
Definition source_ok (s : gsource) : Prop := notified s = true → destroyed s = true ∧ dispatching s = false.

Lemma destroy_inv m w s : inv m w → source w = Some s →
  returns (g_source_destroy w) (λ w', inv m w' ∧ ∃ s', source w' = Some s' ∧ dispatching s' = dispatching s ∧ (source_ok s → source_ok s')).
Proof.
  intros Hi Hs. unfold g_source_destroy, the_source. rewrite Hs, Done_bind. destruct (notified s) eqn:Hn; cbn [orb].
  - apply returns_ret. split; [eapply set_source_inv; [done..|]; by rewrite Hn|]. eexists. split; [done|]. split; [done|].
    intros Hok _. by destruct (Hok Hn).
  - destruct (dispatching s) eqn:Hd; cbn [negb].
    + apply returns_ret. split; [eapply set_source_inv; [done..|]; by rewrite Hn|]. by eexists.
    + eapply returns_mono; [by eapply notify_inv|]. intros w' [? Hw']. split; [done|]. eexists. split; [exact Hw'|]. done.
Qed.

(** The source stays, and is dispatched as before. *)
Definition same_dispatch (w w' : world) : Prop :=
  (source w = None → source w' = None) ∧
  ∀ s, source w = Some s → ∃ s', source w' = Some s' ∧ dispatching s' = dispatching s ∧ (source_ok s → source_ok s').

Lemma same_dispatch_refl w : same_dispatch w w.
Proof. split; [done|]. intros s Hs. by exists s. Qed.

Lemma same_dispatch_eq w w' : source w' = source w → same_dispatch w w'.
Proof. intros E. unfold same_dispatch. rewrite E. split; [done|]. intros s Hs. by exists s. Qed.

Lemma same_dispatch_trans w1 w2 w3 : same_dispatch w1 w2 → same_dispatch w2 w3 → same_dispatch w1 w3.
Proof.
  intros [N1 H1] [N2 H2]. split; [auto|]. intros s Hs. destruct (H1 s Hs) as (s2 & Hs2 & E2 & O2). destruct (H2 s2 Hs2) as (s3 & Hs3 & E3 & O3). exists s3. split; [done|]. split; [congruence|auto].
Qed.

(** Fields of a listener that the invariant does not look at. *)
Lemma update_inv m w l l' ev :
  inv m w → listener w = Some l → refs l' = refs l → fd l' = fd l → (watch l' = true → watch l = true) →
  addr_held (bind_addr l') → addr_held (local l') → handed_over ev → (∀ d, open_count d ev = 0) →
  inv m (emit ev (set_listener (Some l') w)).
Proof.
  intros (Hm & Hmax & Hho & H) Hl Hr Hf Hw Hb Ha Hev Hopen. rewrite Hl in H. destruct H as (Hr0 & Hpos & Hw0 & Ho & Hf0 & _ & _).
  split; [done|]. split; [done|]. split; [by apply handed_over_app|]. cbn [listener emit set_listener].
  change (source_ref (emit ev (set_listener (Some l') w))) with (source_ref w). rewrite Hr, Hf. split_and!; try done.
  - intros E. apply Hw0. by apply Hw.
  - intros d Hd. cbn. by rewrite open_count_app, Hopen, Z.add_0_r, Ho.
Qed.

Lemma emit_inv m w l ev :
  inv m w → listener w = Some l → handed_over ev → (∀ d, open_count d ev = 0) → inv m (emit ev w).
Proof.
  intros Hi Hl Hev Ho. pose proof Hi as (_ & _ & _ & H). rewrite Hl in H. destruct H as (_ & _ & _ & _ & _ & Hb & Ha).
  replace (emit ev w) with (emit ev (set_listener (Some l) w)); [by eapply update_inv|]. unfold emit, set_listener. cbn. by rewrite <- Hl.
Qed.

Lemma emit_nil w : emit [] w = w.
Proof. unfold emit. rewrite app_nil_r. by destruct w. Qed.

Lemma cancel_locked_inv m w l : inv m w → listener w = Some l →
  returns (z_listener_cancel_locked w) (λ w', inv m w' ∧ same_dispatch w w').
Proof.
  intros Hi Hl. unfold z_listener_cancel_locked, self. rewrite Hl, Done_bind.
  assert (Hi' : inv m (set_listener (Some (with_watch false l)) w)).
  { rewrite <- (emit_nil (set_listener _ w)). pose proof Hi as (_ & _ & _ & H). rewrite Hl in H. destruct H as (_ & _ & _ & _ & _ & Hb & Ha).
    by eapply update_inv. }
  destruct (watch l) eqn:Hw; [|apply returns_ret; split; [done|by apply same_dispatch_eq]].
  pose proof Hi as (_ & _ & _ & H). rewrite Hl in H. destruct H as (_ & _ & Hsome & _). destruct (Hsome Hw) as [s Hs].
  eapply returns_mono; [by eapply destroy_inv|]. intros w' (Hw' & s' & Hs' & Hd). split; [done|].
  split; [congruence|]. intros s0 Hs0. rewrite Hs in Hs0. injection Hs0 as <-. by exists s'.
Qed.

Lemma cancel_inv m w l : inv m w → listener w = Some l → returns (z_listener_cancel w) (λ w', inv m w' ∧ same_dispatch w w').
Proof.
  intros Hi Hl. unfold z_listener_cancel, self. rewrite Hl, Done_bind. destruct (watch l); [by eapply cancel_locked_inv|].
  apply returns_ret. split; [done|apply same_dispatch_refl].
Qed.

Lemma on_watch_inv f m w l : inv m w → listener w = Some l → returns (on_watch f w) (λ w', inv m w' ∧ same_dispatch w w').
Proof.
  intros Hi Hl. unfold on_watch, self. rewrite Hl, Done_bind. destruct (watch l) eqn:Hw.
  - pose proof Hi as (_ & _ & _ & H). rewrite Hl in H. destruct H as (_ & _ & Hsome & _). destruct (Hsome Hw) as [s Hs].
    unfold the_source. rewrite Hs, Done_bind. apply returns_ret. split; [by eapply set_source_inv|].
    split; [by rewrite Hs|]. intros s0 Hs0. rewrite Hs in Hs0. injection Hs0 as <-. by eexists.
  - apply returns_ret. split; [done|apply same_dispatch_refl].
Qed.

Lemma released_nonneg l : 0 ≤ released l.
Proof. induction l as [|[] l IH]; cbn; lia. Qed.

Lemma releases_nonneg cs : 0 ≤ releases cs.
Proof. induction cs as [|[l b] cs IH]; cbn; [lia|]. pose proof (released_nonneg l). lia. Qed.

Lemma acts_inv l : ∀ m w, inv m w → released l < m → returns (acts l w) (λ w', inv (m - released l) w' ∧ same_dispatch w w').
Proof.
  induction l as [|a l IH]; intros m w Hi Hm; cbn [acts released].
  - apply returns_ret. rewrite Z.sub_0_r. split; [done|apply same_dispatch_refl].
  - pose proof (released_nonneg l). cbn [released] in Hm. pose proof (source_ref_range w).
    assert (Hm1 : 0 < m + source_ref w) by (destruct a; lia).
    destruct (inv_listener m w Hi Hm1) as [x Hx].
    assert (Hact : returns (act a w) (λ w', inv (m - match a with Release => 1 | _ => 0 end) w' ∧ same_dispatch w w')).
    { destruct a; cbn [act]; rewrite ?Z.sub_0_r; [by eapply on_watch_inv|by eapply on_watch_inv|by eapply cancel_inv|].
      eapply returns_mono; [apply release_inv; [done|lia]|]. intros w' [? ?]. split; [done|by apply same_dispatch_eq]. }
    eapply returns_bind, returns_mono; [exact Hact|]. intros w' [Hi' Hd']. eapply returns_mono; [apply IH; [exact Hi'|destruct a; lia]|].
    intros w'' [Hi'' Hd'']. split; [|by eapply same_dispatch_trans].
    replace (m - (match a with Release => 1 | _ => 0 end + released l)) with (m - match a with Release => 1 | _ => 0 end - released l) by lia. done.
Qed.

Lemma deliver_inv ev stream client dest a w m l :
  inv m w → listener w = Some l → releases (callbacks a) < m →
  handed_over (ev ++ [Called stream client dest]) → (∀ d, open_count d ev = 0) →
  safe (deliver stream client dest a (emit ev w)) (λ '(rc, a', w'),
    inv (m - (releases (callbacks a) - releases (callbacks a'))) w' ∧ same_dispatch w w' ∧
    rs a' = rs a ∧ dests a' = dests a ∧ releases (callbacks a') ≤ releases (callbacks a)).
Proof.
  intros Hi Hl Hrel Hev Ho. unfold deliver. destruct (callbacks a) as [|[x rc] cs]; [done|]. cbn [releases fst] in *.
  pose proof (releases_nonneg cs). pose proof (released_nonneg x).
  assert (Hi' : inv m (emit [Called stream client dest] (emit ev w))).
  { replace (emit _ (emit ev w)) with (emit (ev ++ [Called stream client dest]) w) by (unfold emit; cbn; by rewrite app_assoc).
    eapply emit_inv; [done|done|done|]. intros d. rewrite open_count_app, Ho. done. }
  eapply safe_bind, returns_safe, returns_mono; [apply acts_inv; [exact Hi'|lia]|]. intros w' [Hw' Hd].
  destruct (inv_listener _ _ Hw') as [l' Hl']; [pose proof (source_ref_range w'); lia|]. unfold self. rewrite Hl', Done_bind. apply safe_ret.
  cbn [callbacks rs dests]. split_and!; try done; [|lia]. by replace (m - (released x + releases cs - releases cs)) with (m - released x) by lia.
Qed.

Lemma sockaddr_new_safe x len : len ≤ 110 → returns (z_sockaddr_new x len) (λ _, True).
Proof.
  intros Hlen. destruct x; try by apply returns_ret. cbn [z_sockaddr_new]. unfold z_sockaddr_unix_new2.
  by rewrite require_true, !Done_bind by (unfold SUN_PATH_LEN; lia).
Qed.

Lemma accept_safe rs : Forall accept_ok rs → safe (z_accept rs) (λ '(_, _, rs'), Forall accept_ok rs').
Proof.
  intros Hrs. unfold z_accept.
  assert (Hloop : safe (accept_loop rs) (λ '(r, rs'), accept_ok r ∧ Forall accept_ok rs')).
  { induction Hrs as [|r rs Hr Hrs IH]; [done|]. cbn. destruct r as [|[]]; try by split. exact IH. }
  eapply safe_bind, safe_mono; [exact Hloop|]. intros [r rs'] [Hr Hrs']. destruct r as [newfd x len|e]; [|by destruct e; apply safe_ret].
  assert (Hnew : ∀ y n, n ≤ 110 → safe (a ← z_sockaddr_new y n; Done (G_IO_STATUS_NORMAL, Some (newfd, a), rs')) (λ '(_, _, rs'), Forall accept_ok rs')).
  { intros y n Hn. eapply safe_bind, returns_safe, returns_mono; [by apply sockaddr_new_safe|]. intros o _. by apply safe_ret. }
  destruct ((sockaddr_family x =? MAGIC_FAMILY_NUMBER) && (len =? SABUF_SIZE)) eqn:E; [by apply Hnew|].
  destruct Hr as [Hr|[-> ->]]; [by apply Hnew|]. done.
Qed.

Lemma accept_connection_safe a n : answers_ok n a →
  safe (z_stream_listener_accept_connection a) (λ '(_, _, a'), callbacks a' = callbacks a ∧ answers_ok n a').
Proof.
  intros [Hrs Hds Hrel]. unfold z_stream_listener_accept_connection. eapply safe_bind, safe_mono; [by apply accept_safe|].
  intros [[st r] rs'] Hrs'. destruct r as [[newfd client]|]; [|by apply safe_ret].
  destruct (dests a) as [|d ds]; [done|]. apply Forall_cons in Hds as [Hd Hds].
  assert (Hname : returns (z_getsockname d) (λ _, True)).
  { destruct d as [[x len]|]; [|by apply returns_ret]. unfold z_getsockname.
    eapply returns_bind, returns_mono; [apply sockaddr_new_safe; by eapply Hd|]. intros o _. by apply returns_ret. }
  eapply safe_bind, returns_safe, returns_mono; [exact Hname|]. intros [st' dest] _. by apply safe_ret.
Qed.

Lemma accept_iter_inv left : ∀ start times rc dest a w m,
  inv m w → answers_ok (m - 1) a → 0 < m → is_Some (source w) →
  safe (accept_iter left start times rc dest a w) (λ '(_, _, a', w'),
    inv (m - (releases (callbacks a) - releases (callbacks a'))) w' ∧ same_dispatch w w' ∧ releases (callbacks a') ≤ releases (callbacks a)).
Proof.
  induction left as [|left IH]; intros start times rc dest a w m Hi Ha Hm [s Hs].
  all: assert (Hstop : inv (m - (releases (callbacks a) - releases (callbacks a))) w ∧ same_dispatch w w ∧ releases (callbacks a) ≤ releases (callbacks a))
    by (replace (m - (releases (callbacks a) - releases (callbacks a))) with m by lia; split; [done|]; split; [apply same_dispatch_refl|done]).
  all: cbn [accept_iter]; unfold the_source; rewrite Hs, Done_bind; case_match; [exact Hstop|].
  { exact Hstop. }
  destruct times as [|now times]; [done|]. destruct (negb (start =? now)); [exact Hstop|].
  eapply safe_bind, safe_mono; [by apply accept_connection_safe|]. intros [[st r] a1] [Hcb Ha1].
  pose proof (source_ref_range w). destruct (inv_listener m w Hi) as [l Hl]; [lia|].
  assert (Hgo : ∀ ev stream client dest dest', handed_over (ev ++ [Called stream client dest]) → (∀ d, open_count d ev = 0) →
    safe ('(rc, a, w) ← deliver stream client dest a1 (emit ev w); l ← self w;
          if watch l then accept_iter left start times rc dest' a w else Done (rc, left, a, w)) (λ '(_, _, a', w'),
    inv (m - (releases (callbacks a) - releases (callbacks a'))) w' ∧ same_dispatch w w' ∧ releases (callbacks a') ≤ releases (callbacks a))).
  { intros ev stream client dest1 dest2 Hev Ho. rewrite <- Hcb. pose proof (ao_releases _ _ Ha1) as Hr1.
    eapply safe_bind, safe_mono; [eapply deliver_inv; [done|done|lia|done|done]|]. intros [[rc2 a2] w2] (Hi2 & Hd2 & Hrs2 & Hds2 & Hr2).
    set (m2 := m - _) in Hi2. assert (Hm2 : 0 < m2) by (pose proof (releases_nonneg (callbacks a2)); lia).
    pose proof (source_ref_range w2). destruct (inv_listener m2 w2 Hi2) as [l2 Hl2]; [lia|]. unfold self at 1. rewrite Hl2, Done_bind.
    destruct (proj2 Hd2 s Hs) as (s2 & Hs2 & _ & _). destruct (watch l2); [|by apply safe_ret].
    eapply safe_mono; [apply IH; [exact Hi2| |done|by exists s2]|].
    - destruct Ha1. constructor; [by rewrite Hrs2|by rewrite Hds2|lia].
    - intros [[[rc3 left3] a3] w3] (Hi3 & Hd3 & Hr3). split; [|split; [by eapply same_dispatch_trans|lia]].
      replace (m - (releases (callbacks a1) - releases (callbacks a3))) with (m2 - (releases (callbacks a2) - releases (callbacks a3))) by lia. done. }
  destruct r as [[[newfd client] d]|].
  - by apply (Hgo [Wrapped newfd]).
  - case_bool_decide; [apply safe_ret; by rewrite Hcb|]. rewrite <- (emit_nil w) at 1. by apply (Hgo []).
Qed.

Lemma accept_inv start times a w n l :
  inv n w → answers_ok n a → listener w = Some l → is_Some (source w) → n + 5 ≤ MAX_REF →
  safe (z_listener_accept start times a w) (λ '(_, a', w'),
    inv (n - (releases (callbacks a) - releases (callbacks a'))) w' ∧ same_dispatch w w' ∧ 0 ≤ releases (callbacks a') ≤ releases (callbacks a)).
Proof.
  intros Hi Ha Hl Hs Hmax. unfold z_listener_accept, self. rewrite Hl, Done_bind. destruct (watch l) eqn:Hw; cbn [negb].
  - assert (Hpos : 0 < n + source_ref w).
    { destruct Hi as (_ & _ & _ & H). rewrite Hl in H. lia. }
    eapply safe_bind, returns_safe, returns_mono; [apply ref_inv; [done|done|lia]|]. intros w1 (Hi1 & Hs1 & _).
    assert (Hn : 0 ≤ n) by apply Hi.
    eapply safe_bind, safe_mono; [eapply (accept_iter_inv _ _ _ _ _ _ _ (n + 1)); [exact Hi1| |lia|by rewrite Hs1]|].
    { destruct Ha. constructor; try done. lia. }
    intros [[[rc left] a'] w2] (Hi2 & Hd2 & Hr2). destruct Ha as [_ _ Hrel]. pose proof (releases_nonneg (callbacks a')).
    eapply safe_bind, returns_safe, returns_mono; [eapply release_inv; [exact Hi2|lia]|]. intros w3 [Hi3 Hs3]. apply safe_ret. split.
    + replace (n - (releases (callbacks a) - releases (callbacks a'))) with (n + 1 - (releases (callbacks a) - releases (callbacks a')) - 1) by lia. done.
    + split; [|done]. eapply same_dispatch_trans; [by apply (same_dispatch_eq w w1)|]. eapply same_dispatch_trans; [exact Hd2|]. by apply same_dispatch_eq.
  - apply safe_ret. split; [|split; [apply same_dispatch_refl|pose proof (releases_nonneg (callbacks a)); lia]]. by replace (n - (releases (callbacks a) - releases (callbacks a))) with n by lia.
Qed.

Lemma getsockname_held name : name_ok name → returns (z_getsockname name) (λ '(_, a), addr_held a).
Proof.
  intros Hn. destruct name as [[x len]|]; [|by apply returns_ret]. specialize (Hn _ _ eq_refl). unfold z_getsockname.
  assert (Hone : ∀ y, refcnt y = 1 → addr_held (Some y)) by (intros y Hy z [= <-]; unfold MAX_REF; lia).
  destruct x; cbn [z_sockaddr_new]; rewrite ?Done_bind; try (apply returns_ret; try case_match; (done || by apply Hone)).
  unfold z_sockaddr_unix_new2. rewrite require_true, !Done_bind by (unfold SUN_PATH_LEN; lia). apply returns_ret. by apply Hone.
Qed.

(** The socket is opened, and the listener's, or closed again. *)
Lemma open_inv bind setsockopt is_socket c rs socket listen name m w l :
  inv m w → listener w = Some l → fd l = -1 → watch l = false → 0 ≤ socket → name_ok name → binds bind setsockopt is_socket c rs w →
  returns (z_listener_open bind setsockopt is_socket c rs socket listen name w) (λ '(ok, w'),
    inv m w' ∧ source w' = source w ∧ ∃ l', listener w' = Some l' ∧ watch l' = false ∧ refs l' = refs l).
Proof.
  intros (Hm & Hmax & Hho & H) Hl Hf Hwatch Hsock Hname Hb. rewrite Hl in H. destruct H as (Hr & Hr0 & Hw & Ho & _ & Hbh & Hlh).
  destruct (Hb l Hl) as (b & Hba & Hret). unfold z_listener_open, z_stream_listener_open_listener, self. rewrite Hl, Done_bind, Hba.
  rewrite (proj2 (Z.eqb_neq socket (-1))) by lia. apply returns_Done in Hret as ([[[st b'] rm] c'] & Hbind & _). rewrite Hbind, Done_bind.
  apply z_bind_refcnt in Hbind. assert (Hb' : addr_held (Some b')) by (intros x [= <-]; rewrite Hbind; by apply Hbh).
  set (w1 := emit [Opened socket] _). assert (Hho1 : handed_over (trace w1)) by (by apply handed_over_app).
  assert (Hinv : ∀ ev d a, addr_held a → (∀ x, 0 ≤ x → open_count x ev + (if socket =? x then 1 else 0) = if d =? x then 1 else 0) → handed_over ev → d = -1 ∨ 0 ≤ d →
    inv m (emit ev (set_listener (Some (with_fd d (with_addrs (Some b') a l))) w1))).
  { intros ev d a Ha Hev Hh Hd. split; [done|]. split; [done|]. split; [by apply handed_over_app|].
    cbn [listener emit set_listener refs with_fd with_addrs]. split_and!; try done.
    intros x Hx. cbn. rewrite !open_count_app, Ho by done. rewrite Hf, (proj2 (Z.eqb_neq (-1) x)) by lia. cbn. rewrite <- Hev by done. lia. }
  assert (Hclose : ∃ l', (emit [Closed socket] w1) = emit [Closed socket] (set_listener (Some (with_fd (-1) (with_addrs (Some b') (local l) l))) w1) ∧
     l' = with_addrs (Some b') (local l) l ∧ listener (emit [Closed socket] w1) = Some l').
  { eexists. split; [|done]. unfold w1, emit, set_listener, with_fd, with_addrs. cbn. by rewrite Hf. }
  destruct Hclose as (l' & Hcl & -> & Hll).
  assert (Hfail : returns (Done (-1, emit [Closed socket] w1) ≫= λ '(d, w), if d =? -1 then Done (false, w) else l ← self w; Done (true, set_listener (Some (with_fd d l)) w))
    (λ '(ok, w'), inv m w' ∧ source w' = source w ∧ ∃ l', listener w' = Some l' ∧ watch l' = false ∧ refs l' = refs l)).
  { apply returns_ret. split; [rewrite Hcl; apply Hinv; try done; [|by left]|].
    - intros x Hx. rewrite (proj2 (Z.eqb_neq (-1) x)) by lia. cbn. destruct (socket =? x); lia.
    - split; [done|]. by eexists. }
  repeat case_bool_decide; try exact Hfail.
  pose proof (getsockname_held name Hname) as Hg. destruct (z_getsockname name) as [[st' a]|]; [|done]. cbn in Hg. rewrite Done_bind.
  case_bool_decide; [|exact Hfail]. rewrite Done_bind, (proj2 (Z.eqb_neq socket (-1))) by lia. unfold self. cbn [listener set_listener].
  rewrite Done_bind. apply returns_ret. split; [|split; [done|by eexists]].
  rewrite <- (emit_nil (set_listener _ _)). apply (Hinv [] socket a); try done. by right.
Qed.

Lemma start_inv bind setsockopt is_socket c rs socket listen name now n w :
  inv n w → 0 < n → n + 5 ≤ MAX_REF → 0 ≤ socket → name_ok name → binds bind setsockopt is_socket c rs w → idle_source w →
  (∀ g, source w = Some g → source_ok g) →
  returns (z_listener_start_in_context bind setsockopt is_socket c rs socket listen name now w) (λ '(_, w'),
    inv n w' ∧ ∀ g, source w' = Some g → dispatching g = false ∧ source_ok g).
Proof.
  intros Hi Hn Hmax Hsock Hname Hb Hidle Hok. destruct (inv_listener n w Hi) as [l Hl]; [pose proof (source_ref_range w); lia|].
  unfold z_listener_start_in_context, self. rewrite Hl, Done_bind. pose proof Hi as (_ & _ & _ & H). rewrite Hl in H.
  destruct H as (Hr & _ & Hw & _ & Hf & Hbh & Hlh). set (w1 := set_listener (Some (with_context true l)) w).
  assert (Hi1 : inv n w1) by (rewrite <- (emit_nil w1); by eapply update_inv).
  assert (Hsr : source_ref w = 0) by (unfold source_ref; destruct (source w) as [g|] eqn:Eg; [destruct (Hidle g Eg) as [-> _]|]; done).
  assert (Hold : ∀ g, source w = Some g → dispatching g = false ∧ source_ok g) by (intros g Hg; split; [by apply Hidle|by apply Hok]).
  unfold z_listener_start, self. change (listener w1) with (Some (with_context true l)). cbv iota. rewrite Done_bind. cbn [watch with_context fd].
  destruct (watch l) eqn:Hwl; [by apply returns_ret|].
  assert (Hopen : returns (if fd l =? -1 then z_listener_open bind setsockopt is_socket c rs socket listen name w1 else Done (true, w1))
    (λ '(ok, w'), inv n w' ∧ source w' = source w ∧ ∃ l', listener w' = Some l' ∧ watch l' = false ∧ refs l' = refs l)).
  { destruct (Z.eqb_spec (fd l) (-1)) as [E|E]; [|apply returns_ret; split; [done|split; [done|by eexists]]].
    eapply returns_mono; [eapply (open_inv _ _ _ _ _ _ _ _ n w1 (with_context true l)); try done|].
    - intros l0 [= <-]. exact (Hb l Hl).
    - by intros [ok w']. }
  eapply returns_bind, returns_mono; [exact Hopen|]. intros [[] w2] (Hi2 & Hs2 & l2 & Hl2 & Hwl2 & Hr2); [|apply returns_ret; by rewrite Hs2].
  pose proof Hi2 as (Hn0 & Hmax0 & Hho2 & H2). rewrite Hl2 in H2. destruct H2 as (Hr2' & _ & _ & Ho2 & Hf2 & Hb2 & Ha2).
  rewrite Hl2, Done_bind. unfold z_listener_ref, self. cbn [listener emit]. rewrite Hl2, Done_bind.
  unfold z_refcount_inc. rewrite require_true, !Done_bind by lia.
  cbn [listener set_listener]. rewrite Done_bind. apply returns_ret. split; [|by intros g [= <-]].
  split; [done|]. split; [done|]. split; [by apply handed_over_app|].
  cbn [listener set_source set_listener refs with_watch with_refs]. split_and!; try done.
  - change (source_ref _) with 1. lia.
  - lia.
  - intros d Hd. cbn. by rewrite open_count_app, Ho2, Z.add_0_r.
Qed.

(** ** All steps *)

Definition system_inv (s : system) : Prop :=
  inv (user_refs s) (the s) ∧ user_refs s + 8 ≤ MAX_REF ∧ (cancelling s = true → 0 < user_refs s) ∧
  (∀ g, source (the s) = Some g → source_ok g) ∧
  match loop s with
  | Idle => ∀ g, source (the s) = Some g → dispatching g = false
  | _ => ∃ g, source (the s) = Some g ∧ dispatching g = true
  end.

(** A step in which the source stays. *)
Lemma kept_inv s w n b :
  system_inv s → inv n w → same_dispatch (the s) w →
  n + 8 ≤ MAX_REF → (b = true → 0 < n) → system_inv (mkSystem w n b (loop s)).
Proof.
  intros (_ & _ & _ & Hok & Hloop) Hi [Hnone Hd] Hmax Hb. split; [done|]. split; [done|]. split; [done|]. cbn [the loop].
  destruct (source (the s)) as [g|] eqn:Hg; [|rewrite (Hnone eq_refl); split; [done|]; by destruct (loop s)].
  - destruct (Hd g eq_refl) as (g' & Hg' & Hdd & Ho). rewrite Hg'. split; [intros ? [= <-]; by apply Ho, Hok|].
    destruct (loop s); [intros ? [= <-]; rewrite Hdd; by apply Hloop|..];
      (destruct Hloop as (g0 & Hg0 & Hd0); injection Hg0 as <-; exists g'; split; [done|congruence]).
Qed.

Lemma kept_world s w : system_inv s → inv (user_refs s) w → same_dispatch (the s) w → system_inv (set_world w s).
Proof. intros Hs Hi Hd. pose proof Hs as (_ & Hmax & Hc & _). by apply kept_inv. Qed.

Lemma step_inv s o : system_inv s → step s o → safe o system_inv.
Proof.
  intros Hs Hstep. pose proof Hs as (Hi & Hmax & Hcanc & Hok & Hloop). assert (Hn0 : 0 ≤ user_refs s) by apply Hi. pose proof (source_ref_range (the s)).
  destruct Hstep as [bind so is_socket c rs socket listen name Hn Hsock Hname Hb Hfd|bind so is_socket c rs socket listen name now Hn Hsock Hname Hb Hidle
    |Hn|Hn|l Hn Hl Hw|Hc|Hn Hm|Hn|g Hph Hg Hdead Hsusp|start times a Hph Ha|rc Hph].
  - destruct (inv_listener _ _ Hi) as [l Hl]; [lia|]. destruct (Hfd l Hl) as [Hf Hwl].
    eapply safe_bind, returns_safe, returns_mono; [by eapply open_inv|]. intros [ok w] (Hw & Hsw & _). apply safe_ret.
    apply kept_world; [done|done|by apply same_dispatch_eq].
  - eapply safe_bind, returns_safe, returns_mono; [eapply start_inv; try done; lia|]. intros [ok w] [Hw Hg]. apply safe_ret.
    assert (loop s = Idle) as Hl. { destruct (loop s); [done|..]; destruct Hloop as (g & Hg0 & Hd); destruct (Hidle g Hg0); congruence. }
    split; [done|]. split; [done|]. split; [done|]. cbn. rewrite Hl. split; intros g Hg'; by destruct (Hg g Hg').
  - destruct (inv_listener _ _ Hi) as [l Hl]; [lia|].
    eapply safe_bind, returns_safe, returns_mono; [by eapply on_watch_inv|]. intros w [Hw Hd]. apply safe_ret. by apply kept_world.
  - destruct (inv_listener _ _ Hi) as [l Hl]; [lia|].
    eapply safe_bind, returns_safe, returns_mono; [by eapply on_watch_inv|]. intros w [Hw Hd]. apply safe_ret. by apply kept_world.
  - apply safe_ret. apply kept_inv; [done|done|apply same_dispatch_refl|done|done].
  - destruct (inv_listener _ _ Hi) as [l Hl]; [specialize (Hcanc Hc); lia|].
    eapply safe_bind, returns_safe, returns_mono; [by eapply cancel_locked_inv|]. intros w [Hw Hd]. apply safe_ret. by apply kept_inv.
  - eapply safe_bind, returns_safe, returns_mono; [apply ref_inv; [done|lia..]|]. intros w (Hw & Hsw & _). apply safe_ret.
    apply kept_inv; [done|done|by apply same_dispatch_eq|lia|lia].
  - eapply safe_bind, returns_safe, returns_mono; [apply release_inv; [done|unfold held in Hn; destruct (cancelling s); lia]|].
    intros w (Hw & Hsw). apply safe_ret.
    apply kept_inv; [done|done|by apply same_dispatch_eq|lia|intros E; unfold held in Hn; rewrite E in Hn; lia].
  - unfold dispatch_begin, the_source. rewrite Hg, !Done_bind. apply safe_ret.
    split; [by eapply set_source_inv|]. split; [done|]. split; [done|]. cbn. split; [|by eexists].
    intros ? [= <-] Hnot. destruct (Hok g Hg Hnot). congruence.
  - destruct (loop s) eqn:Hls; try done. destruct Hloop as (g & Hg & Hd).
    assert (Hsr : source_ref (the s) = 1).
    { unfold source_ref. rewrite Hg. destruct (notified g) eqn:E; [|done]. destruct (Hok g Hg E). congruence. }
    destruct (inv_listener _ _ Hi) as [l Hl]; [lia|]. assert (Ha' : answers_ok (user_refs s) a).
    { destruct Ha. constructor; try done. unfold held in *. destruct (cancelling s); lia. }
    eapply safe_bind, safe_mono; [eapply accept_inv; [done|done|done|by eexists|lia]|]. intros [[rc a'] w] (Hw & Hsd & Hrel). apply safe_ret.
    pose proof (ao_releases _ _ Ha) as Hmost. destruct (proj2 Hsd g Hg) as (g' & Hg' & Hd' & Ho').
    split; [done|]. split; [cbn; lia|]. split; [cbn; intros E; unfold held in Hmost; rewrite E in Hmost; lia|].
    cbn [the loop]. rewrite Hg'. split; [intros ? [= <-]; by apply Ho', Hok|]. exists g'. split; [done|]. by rewrite Hd'.
  - destruct (loop s) eqn:Hls; try done. destruct Hloop as (g & Hg & Hd). unfold dispatch_end, the_source. rewrite Hg, Done_bind.
    assert (Hnot : notified g = false). { destruct (notified g) eqn:E; [|done]. destruct (Hok g Hg E). congruence. }
    rewrite Hnot. cbn [orb negb]. rewrite andb_true_r. destruct (destroyed g || negb rc) eqn:Hdead.
    + eapply safe_bind, returns_safe, returns_mono; [by eapply notify_inv|]. intros w [Hw Hs']. apply safe_ret.
      split; [done|]. split; [done|]. split; [done|]. cbn. rewrite Hs'. split; by intros ? [= <-].
    + rewrite Done_bind. apply safe_ret. split; [eapply set_source_inv; [done..|by rewrite Hnot]|]. split; [done|]. split; [done|].
      cbn. split; by intros ? [= <-].
Qed.

(** ** What a listener promises *)

Lemma reachable_inv s0 s : system_inv s0 → reachable s0 s → system_inv s.
Proof. intros H0. induction 1 as [|s s' _ IH Hstep]; [done|]. exact (step_inv s _ IH Hstep). Qed.

Lemma new_inv addr flags backlog w :
  (∀ b, addr = Some b → 0 < refcnt b < MAX_REF - 1) → z_stream_listener_new addr flags backlog = Done w → system_inv (new_system w).
Proof.
  intros Ha. unfold z_stream_listener_new, z_listener_new. destruct addr as [b|]; cbn.
  - specialize (Ha b eq_refl). unfold z_refcount_inc. rewrite require_true, !Done_bind by lia. cbn. intros [= <-].
    split; [|by repeat split]. split; [done|]. split; [done|]. split; [done|]. cbn. split_and!; try done; try by left.
    + intros d Hd. by destruct d.
    + intros x [= <-]. cbn. lia.
  - intros [= <-]. split; [|by repeat split]. split; [done|]. split; [done|]. split; [done|]. cbn. split_and!; try done; try by left.
    intros d Hd. by destruct d.
Qed.

(** C9: Whatever its owner, its callback and the main loop do with a listener, in any order, as
    long as the owner keeps the rules of [step] (it has the references it gives up, opens the
    listener only while it has no socket, and starts it again only when its old source was
    notified): no freed listener or source is touched and no assertion fails; every
    connection that was accepted is given to the callback, at once and only once; the sockets
    that were opened are closed again except the one it listens on; and when the listener
    is freed no socket is left. *)
Theorem listener_safe addr flags backlog w s :
  (∀ b, addr = Some b → 0 < refcnt b < MAX_REF - 1) → z_stream_listener_new addr flags backlog = Done w →
  reachable (new_system w) s →
  (∀ o, step s o → safe o (λ _, True)) ∧
  handed_over (trace (the s)) ∧
  match listener (the s) with
  | Some l => ∀ d, 0 ≤ d → open_count d (trace (the s)) = if fd l =? d then 1 else 0
  | None => user_refs s = 0 ∧ ∀ d, 0 ≤ d → open_count d (trace (the s)) = 0
  end.
Proof.
  intros Ha Hnew Hreach. assert (Hinv : system_inv s) by (eapply reachable_inv; [by eapply new_inv|done]).
  split. { intros o Ho. eapply safe_mono; [by eapply step_inv|]. done. }
  destruct Hinv as ((_ & _ & Hho & H) & _). split; [done|]. destruct (listener (the s)); naive_solver.
Qed.

(** ** Cancelling *)

Definition unwatched (w : world) : Prop := ∀ l, listener w = Some l → watch l = false.
Definition starts (e : event) : bool := match e with Started _ => true | _ => false end.

(** A call that neither starts the listener nor calls the callback. *)
Definition calm (w w' : world) : Prop :=
  (∃ ev, trace w' = trace w ++ ev ∧ Forall (λ e, is_call e = false ∧ starts e = false) ev) ∧ (unwatched w → unwatched w').

Lemma calm_refl w : calm w w.
Proof. split; [|done]. exists []. by rewrite app_nil_r. Qed.

Lemma calm_trans w1 w2 w3 : calm w1 w2 → calm w2 w3 → calm w1 w3.
Proof.
  intros [(e1 & E1 & F1) U1] [(e2 & E2 & F2) U2]. split; [|auto]. exists (e1 ++ e2). rewrite E2, E1, app_assoc. split; [done|by apply Forall_app].
Qed.

Lemma calm_emit w ev : Forall (λ e, is_call e = false ∧ starts e = false) ev → calm w (emit ev w).
Proof. intros H. split; [by exists ev|done]. Qed.

Lemma calm_set w l l' : listener w = Some l → (watch l = false → watch l' = false) → calm w (set_listener (Some l') w).
Proof. intros Hl Hw. split; [exists []; by rewrite app_nil_r|]. intros Hu ? [= <-]. apply Hw, Hu, Hl. Qed.

Lemma calm_source w s : calm w (set_source s w).
Proof. split; [exists []; by rewrite app_nil_r|done]. Qed.

Lemma self_Done w l : self w = Done l → listener w = Some l.
Proof. unfold self. destruct (listener w); [|done]. by intros [= ->]. Qed.

Lemma free_calm w w' : z_listener_free w = Done w' → calm w w'.
Proof.
  intros (l & _ & (? & _ & (? & _ & [= <-])%bind_Done)%bind_Done)%bind_Done. split; [|done].
  eexists. split; [done|]. case_match; by repeat constructor.
Qed.

Lemma unref_calm w w' : z_listener_unref w = Done w' → calm w w'.
Proof.
  intros (l & Hl%self_Done & ([zero n] & _ & H)%bind_Done)%bind_Done.
  assert (Hc : calm w (set_listener (Some (with_refs n l)) w)) by by eapply calm_set.
  destruct zero; [eapply calm_trans; [exact Hc|by apply free_calm]|by injection H as <-].
Qed.

Lemma ref_calm w w' : z_listener_ref w = Done w' → calm w w'.
Proof. intros (l & Hl%self_Done & (n & _ & [= <-])%bind_Done)%bind_Done. by eapply calm_set. Qed.

Lemma destroy_calm w w' : g_source_destroy w = Done w' → calm w w'.
Proof.
  intros (s & _ & H)%bind_Done. destruct (notified s || dispatching s); [injection H as <-; apply calm_source|].
  eapply calm_trans; [apply calm_source|by apply unref_calm in H].
Qed.

Lemma on_watch_calm f w w' : on_watch f w = Done w' → calm w w'.
Proof.
  intros (l & _ & H)%bind_Done. destruct (watch l); [|injection H as <-; apply calm_refl].
  apply bind_Done in H as (s & _ & [= <-]). apply calm_source.
Qed.

Lemma cancel_locked_calm w w' : z_listener_cancel_locked w = Done w' → calm w w' ∧ unwatched w'.
Proof.
  intros (l & Hl%self_Done & H)%bind_Done.
  assert (Hc : calm w (set_listener (Some (with_watch false l)) w)) by by eapply calm_set.
  assert (Hu : unwatched (set_listener (Some (with_watch false l)) w)) by by intros ? [= <-].
  destruct (watch l); [|by injection H as <-]. apply destroy_calm in H. split; [by eapply calm_trans|]. by apply H.
Qed.

Lemma act_calm a w w' : act a w = Done w' → calm w w'.
Proof.
  destruct a; cbn [act]; [apply on_watch_calm|apply on_watch_calm| |apply unref_calm].
  intros (l & _ & H)%bind_Done. destruct (watch l); [by apply cancel_locked_calm|injection H as <-; apply calm_refl].
Qed.

Lemma acts_calm l : ∀ w w', acts l w = Done w' → calm w w'.
Proof.
  induction l as [|a l IH]; intros w w'; cbn [acts]; [intros [= <-]; apply calm_refl|].
  intros (w1 & H1 & H2)%bind_Done. eapply calm_trans; [by eapply act_calm|by apply IH].
Qed.

(** Every call adds to the trace. *)
Definition extends (w w' : world) : Prop := ∃ ev, trace w' = trace w ++ ev.

Lemma calm_extends w w' : calm w w' → extends w w'.
Proof. intros [(ev & H & _) _]. by exists ev. Qed.

Lemma extends_trans w1 w2 w3 : extends w1 w2 → extends w2 w3 → extends w1 w3.
Proof. intros [e1 E1] [e2 E2]. exists (e1 ++ e2). by rewrite E2, E1, app_assoc. Qed.

Lemma emit_extends ev w : extends w (emit ev w).
Proof. by exists ev. Qed.

Lemma deliver_extends stream client dest a w rc a' w' : deliver stream client dest a w = Done (rc, a', w') → extends w w'.
Proof.
  unfold deliver. destruct (callbacks a) as [|[l b] cs]; [done|].
  intros (w1 & H1%acts_calm%calm_extends & (s & _ & [= _ _ <-])%bind_Done)%bind_Done. eapply extends_trans; [apply emit_extends|exact H1].
Qed.

Lemma accept_iter_extends left : ∀ start times rc dest a w rc' left' a' w',
  accept_iter left start times rc dest a w = Done (rc', left', a', w') → extends w w'.
Proof.
  assert (Hrefl : ∀ w, extends w w) by (intros w; exists []; by rewrite app_nil_r).
  induction left as [|left IH]; intros start times rc dest a w rc' left' a' w'; cbn [accept_iter]; intros (s & _ & H)%bind_Done;
    (destruct (_ || _); [by injection H as _ _ _ <-|]); [by injection H as _ _ _ <-|].
  destruct times as [|now times]; [done|]. destruct (negb _); [by injection H as _ _ _ <-|].
  apply bind_Done in H as ([[st r] a1] & _ & H).
  assert (Hgo : ∀ ev st cl d d', ('(rc, a, w) ← deliver st cl d a1 (emit ev w); l ← self w;
    if watch l then accept_iter left start times rc d' a w else Done (rc, left, a, w)) = Done (rc', left', a', w') → extends w w').
  { intros ev st' cl d d' ([[rc2 a2] w2] & H2%deliver_extends & (l & _ & H3)%bind_Done)%bind_Done.
    eapply extends_trans; [eapply extends_trans; [apply emit_extends|exact H2]|]. destruct (watch l); [by eapply IH|by injection H3 as _ _ _ <-]. }
  destruct r as [[[newfd client] d]|]; [by apply (Hgo _ _ _ _ _ H)|].
  case_bool_decide; [by injection H as _ _ _ <-|]. rewrite <- (emit_nil w) in H at 1. by apply (Hgo _ _ _ _ _ H).
Qed.

(** No callback before the listener is started again. *)
Fixpoint quiet (tr : list event) : Prop :=
  match tr with
  | [] => True
  | Started _ :: _ => True
  | Called _ _ _ :: _ => False
  | _ :: tr => quiet tr
  end.

Lemma quiet_app l1 l2 : quiet l1 → Exists (λ e, starts e = true) l1 ∨ quiet l2 → quiet (l1 ++ l2).
Proof.
  induction l1 as [|e l1 IH]; intros H1 H2; [destruct H2 as [H2|]; [by inversion H2|done]|].
  destruct e; cbn in *; try done; apply IH; try done; (destruct H2 as [H2|H2]; [left; by inversion H2|by right]).
Qed.

Lemma quiet_calm ev : Forall (λ e, is_call e = false ∧ starts e = false) ev → quiet ev.
Proof. induction 1 as [|e ev [H1 H2] _ IH]; [done|]. by destruct e. Qed.

(** A step without a watch is calm, or starts the listener. *)
Definition quiet_step (w w' : world) : Prop :=
  calm w w' ∨ ∃ ev d, trace w' = trace w ++ ev ++ [Started d] ∧ Forall (λ e, is_call e = false ∧ starts e = false) ev.

Lemma open_calm bind setsockopt is_socket c rs socket listen name w r w' :
  z_listener_open bind setsockopt is_socket c rs socket listen name w = Done (r, w') → calm w w'.
Proof.
  intros ([d w1] & H & Hr)%bind_Done.
  assert (Hc : calm w w1).
  { apply bind_Done in H as (l & Hl%self_Done & H). destruct (bind_addr l) as [b|]; [|done].
    destruct (socket =? -1); [injection H as _ <-; apply calm_refl|]. apply bind_Done in H as ([[[st b'] rm] c'] & _ & H).
    set (w0 := emit _ _) in H.
    assert (Hc0 : calm w w0) by (eapply calm_trans; [by apply (calm_set w l (with_addrs (Some b') (local l) l))|by apply calm_emit; repeat constructor]).
    assert (Hfail : calm w (emit [Closed socket] w0)) by (eapply calm_trans; [exact Hc0|by apply calm_emit; repeat constructor]).
    repeat case_bool_decide; try (injection H as _ <-; exact Hfail).
    apply bind_Done in H as ([st' a] & _ & H). case_bool_decide; injection H as _ <-; [|exact Hfail].
    eapply calm_trans; [exact Hc0|]. by eapply (calm_set w0 (with_addrs (Some b') (local l) l)). }
  destruct (d =? -1); [by injection Hr as _ <-|]. apply bind_Done in Hr as (l & Hl%self_Done & [= _ <-]).
  eapply calm_trans; [exact Hc|]. by eapply calm_set.
Qed.

Lemma start_quiet bind setsockopt is_socket c rs socket listen name now w r w' :
  z_listener_start_in_context bind setsockopt is_socket c rs socket listen name now w = Done (r, w') → quiet_step w w'.
Proof.
  intros (l & Hl%self_Done & H)%bind_Done. set (w1 := set_listener _ w) in H. assert (H1 : calm w w1) by by eapply calm_set.
  apply bind_Done in H as (l1 & _ & H). destruct (watch l1); [left; by injection H as _ <-|].
  apply bind_Done in H as ([ok w2] & Ho & H).
  assert (H2 : calm w1 w2) by (destruct (fd l1 =? -1); [by eapply open_calm|injection Ho as _ <-; apply calm_refl]).
  destruct ok; [|left; injection H as _ <-; by eapply calm_trans].
  apply bind_Done in H as (l2 & _ & (w3 & (l3 & _ & (n & _ & [= <-])%bind_Done)%bind_Done & (l4 & _ & [= _ <-])%bind_Done)%bind_Done).
  right. destruct (calm_trans _ _ _ H1 H2) as [(ev & E & F) _]. exists ev, (fd l2). split; [|done]. cbn. by rewrite E, app_assoc.
Qed.

Lemma step_quiet s s' : step s (Done s') → extends (the s) (the s') ∧ (unwatched (the s) → quiet_step (the s) (the s')).
Proof.
  intros Hstep. remember (Done s') as o eqn:Ho in Hstep.
  assert (Hcalm : calm (the s) (the s') → extends (the s) (the s') ∧ (unwatched (the s) → quiet_step (the s) (the s')))
    by (intros H; split; [by apply calm_extends|by left]).
  destruct Hstep as [bind so is_socket c rs socket listen name Hn Hsock Hname Hb Hfd|bind so is_socket c rs socket listen name now Hn Hsock Hname Hb Hidle
    |Hn|Hn|l Hn Hl Hw|Hc|Hn Hm|Hn|g Hph Hg Hdead Hsusp|start times a Hph Ha|rc Hph].
  - apply bind_Done in Ho as ([r w] & H & [= <-]). apply Hcalm. by eapply open_calm.
  - apply bind_Done in Ho as ([r w] & H & [= <-]). apply start_quiet in H. split; [|done]. destruct H as [H|(ev & d & H & _)]; [by apply calm_extends|by eexists].
  - apply bind_Done in Ho as (w & H & [= <-]). apply Hcalm. by eapply on_watch_calm.
  - apply bind_Done in Ho as (w & H & [= <-]). apply Hcalm. by eapply on_watch_calm.
  - injection Ho as <-. apply Hcalm, calm_refl.
  - apply bind_Done in Ho as (w & H & [= <-]). apply Hcalm. by apply cancel_locked_calm.
  - apply bind_Done in Ho as (w & H & [= <-]). apply Hcalm. by eapply ref_calm.
  - apply bind_Done in Ho as (w & H & [= <-]). apply Hcalm. by eapply unref_calm.
  - apply bind_Done in Ho as (w & (g0 & _ & [= <-])%bind_Done & [= <-]). apply Hcalm, calm_source.
  - apply bind_Done in Ho as ([[rc a'] w] & H & [= <-]). apply bind_Done in H as (l & Hl%self_Done & H). cbn [the].
    destruct (watch l) eqn:Hw; cbn [negb] in H.
    + split; [|intros Hu; specialize (Hu l Hl); congruence].
      apply bind_Done in H as (w1 & H1%ref_calm%calm_extends & ([[[rc2 left] a2] w2] & H2%accept_iter_extends & (w3 & H3%unref_calm%calm_extends & [= _ _ <-])%bind_Done)%bind_Done).
      eapply extends_trans; [exact H1|eapply extends_trans; [exact H2|exact H3]].
    + injection H as _ _ <-. split; [by apply calm_extends, calm_refl|]. intros _. left. apply calm_refl.
  - apply bind_Done in Ho as (w & (g & _ & H)%bind_Done & [= <-]). apply Hcalm. cbn [the]. cbv zeta in H.
    destruct (_ && _); [eapply calm_trans; [apply calm_source|by apply unref_calm in H]|injection H as <-; apply calm_source].
Qed.

(** The promise of z_listener_cancel: from the moment it has had the lock, whatever the owner and the main loop
    do, the callback is not called, unless the listener is started again. *)
Theorem listener_cancel s w s' :
  z_listener_cancel_locked (the s) = Done w →
  reachable (mkSystem w (user_refs s) false (loop s)) s' →
  call_count (trace w) = call_count (trace (the s)) ∧ ∃ tr, trace (the s') = trace w ++ tr ∧ quiet tr.
Proof.
  intros Hc Hr. apply cancel_locked_calm in Hc as [[(ev & E & F) _] Hu]. split.
  { rewrite E, call_count_app. clear -F. induction F as [|e l [H _] _ IH]; cbn; [lia|]. rewrite H. lia. }
  assert (H : ∃ tr, trace (the s') = trace w ++ tr ∧ quiet tr ∧ (unwatched (the s') ∨ Exists (λ e, starts e = true) tr)).
  { induction Hr as [|s1 s2 _ (tr & Etr & Hq & Hs) Hstep].
    - exists []. rewrite app_nil_r. split; [done|]. split; [done|]. by left.
    - apply step_quiet in Hstep as [[ev2 Hext] Hqs]. destruct Hs as [Hun|Hst].
      + destruct (Hqs Hun) as [[(ev3 & E3 & F3) Hu3]|(ev3 & d & E3 & F3)]; rewrite E3, Etr, <- app_assoc.
        * eexists. split; [done|]. split; [apply quiet_app; [done|right; by apply quiet_calm]|]. left. by apply Hu3.
        * eexists. split; [done|]. split; [apply quiet_app; [done|right; apply quiet_app; [by apply quiet_calm|by right]]|].
          right. apply Exists_app. right. apply Exists_app. right. by constructor.
      + rewrite Hext, Etr, <- app_assoc. eexists. split; [done|]. split; [apply quiet_app; [done|by left]|].
        right. apply Exists_app. by left. }
  destruct H as (tr & H1 & H2 & _). by exists tr.
Qed.

(** ** Accepting what there is *)

(** A connection: the descriptor, the client and the destination. *)
Record connection := mkConnection { c_fd : Z; c_ip : Z; c_port : Z; c_dest_ip : Z; c_dest_port : Z }.

Definition c_accept (c : connection) : accept_result := Accepted (c_fd c) (AF_INET (c_ip c) (c_port c)) 16.
Definition c_name (c : connection) : option (sockaddr * Z) := Some (AF_INET (c_dest_ip c) (c_dest_port c), 16).
Definition c_events (c : connection) : list event :=
  [Wrapped (c_fd c);
   Called (Some (c_fd c)) (Some (z_sockaddr_inet_new2 (AF_INET (c_ip c) (c_port c))))
     (Some (Some (z_sockaddr_inet_new2 (AF_INET (c_dest_ip c) (c_dest_port c)))))].

(** A listener that waits, whose callback does nothing but to return TRUE. *)
Definition listening (w : world) : Prop :=
  (∃ l, listener w = Some l ∧ watch l = true ∧ has (sock_flags l) ZSF_ACCEPT_ONE = false) ∧
  ∃ s, source w = Some s ∧ suspended (socket_source s) = false.

Lemma accept_one c r ds cs :
  z_stream_listener_accept_connection (mkAnswers (c_accept c :: r) (c_name c :: ds) cs) =
    Done (G_IO_STATUS_NORMAL, Some (c_fd c, Some (z_sockaddr_inet_new2 (AF_INET (c_ip c) (c_port c))),
                                    Some (z_sockaddr_inet_new2 (AF_INET (c_dest_ip c) (c_dest_port c)))), mkAnswers r ds cs).
Proof. done. Qed.

Lemma accept_iter_drain start times r ds cs (conns : list connection) : ∀ left dest w,
  listening w →
  ∃ dest', accept_iter (length conns + left) start (replicate (length conns) start ++ times) true dest
    (mkAnswers ((c_accept <$> conns) ++ r) ((c_name <$> conns) ++ ds) (replicate (length conns) ([], true) ++ cs)) w =
  accept_iter left start times true dest' (mkAnswers r ds cs) (emit (concat (c_events <$> conns)) w).
Proof.
  induction conns as [|c conns IH]; intros left dest w Hw; [exists dest; by rewrite emit_nil|].
  destruct Hw as [(l & Hl & Hwl & Hone) (s & Hs & Hsusp)].
  destruct (IH left (Some (Some (z_sockaddr_inet_new2 (AF_INET (c_dest_ip c) (c_dest_port c))))) (emit (c_events c) w)) as [dest' Heq].
  { split; [by exists l|by exists s]. }
  exists dest'. transitivity (accept_iter left start times true dest' (mkAnswers r ds cs) (emit (concat (c_events <$> conns)) (emit (c_events c) w)));
    [rewrite <- Heq|unfold emit; cbn; by rewrite <- app_assoc].
  change (length (c :: conns) + left)%nat with (S (length conns + left)). cbn [accept_iter]. unfold the_source. rewrite Hs, Done_bind.
  unfold z_socket_source_is_suspended. rewrite Hsusp. cbn [orb negb length replicate app]. rewrite Z.eqb_refl. cbn [negb].
  rewrite !fmap_cons, <- !app_comm_cons, accept_one, Done_bind.
  unfold deliver. cbn [callbacks acts]. rewrite Done_bind. unfold self. cbn [listener emit]. rewrite Hl, Done_bind, Hone. cbn [andb negb].
  rewrite Done_bind. cbn [listener emit]. rewrite Hl, Done_bind, Hwl.
  unfold emit at 1. cbn. by rewrite <- app_assoc.
Qed.

(** A dispatch takes the connections that are there, in the order in which they came, and
    gives each of them to the callback with its addresses; it takes no more than fifty, and leaves the others
    for the next dispatch.  The source stays. *)
Theorem accept_drain start times r ds cs (conns : list connection) w :
  listening w → (∀ l, listener w = Some l → 0 < refs l < MAX_REF - 1) →
  (length conns < MAX_ACCEPTS_AT_A_TIME)%nat ∧ (∃ times', times = start :: times') ∧ (∃ r', r = AcceptFailed EAGAIN :: r') ∨
  length conns = MAX_ACCEPTS_AT_A_TIME →
  ∃ a', z_listener_accept start (replicate (length conns) start ++ times)
    (mkAnswers ((c_accept <$> conns) ++ r) ((c_name <$> conns) ++ ds) (replicate (length conns) ([], true) ++ cs)) w =
    Done (true, a', emit (concat (c_events <$> conns)) w) ∧
  dests a' = ds ∧ callbacks a' = cs ∧ (length conns = MAX_ACCEPTS_AT_A_TIME → rs a' = r).
Proof.
  intros [(l & Hl & Hwl & Hone) (s & Hs & Hsusp)] Hr Hcase. specialize (Hr l Hl).
  unfold z_listener_accept, self. rewrite Hl, Done_bind, Hwl. cbn [negb].
  unfold z_listener_ref, self. rewrite Hl, Done_bind. unfold z_refcount_inc. rewrite require_true, !Done_bind by lia.
  set (w1 := set_listener _ w). set (left := (MAX_ACCEPTS_AT_A_TIME - length conns)%nat).
  assert (Hleft : MAX_ACCEPTS_AT_A_TIME = (length conns + left)%nat) by (unfold left; lia).
  assert (Hw1 : listening w1) by (split; [by exists (with_refs (refs l + 1) l)|by exists s]).
  destruct (accept_iter_drain start times r ds cs conns left None w1) as [dest' Heq]; [done|].
  rewrite <- Hleft in Heq. rewrite Heq. clear Heq. set (w2 := emit _ w1).
  assert (Hend : ∃ a', accept_iter left start times true dest' (mkAnswers r ds cs) w2 = Done (true, left, a', w2) ∧
    dests a' = ds ∧ callbacks a' = cs ∧ (length conns = MAX_ACCEPTS_AT_A_TIME → rs a' = r)).
  { assert (Hgo : the_source w2 = Done s) by (unfold the_source; change (source w2) with (source w); by rewrite Hs).
    destruct Hcase as [(Hlt & [times' ->] & [r' ->])|Hfull].
    - destruct left as [|left'] eqn:El; [lia|]. cbn [accept_iter]. rewrite Hgo, Done_bind.
      unfold z_socket_source_is_suspended. rewrite Hsusp. cbn [orb negb]. rewrite Z.eqb_refl. cbn [negb].
      exists (mkAnswers r' ds cs). split; [done|]. split; [done|]. split; [done|]. lia.
    - exists (mkAnswers r ds cs). assert (left = 0%nat) as -> by lia. cbn [accept_iter]. rewrite Hgo, Done_bind. by case_match. }
  destruct Hend as (a' & -> & Ha'). rewrite Done_bind. exists a'. split; [|done].
  unfold z_listener_unref, self. cbn [w2 w1 listener emit set_listener]. rewrite Done_bind. unfold z_refcount_dec. cbn [refs with_refs].
  rewrite require_true, !Done_bind by lia. rewrite bool_decide_false by lia. rewrite Done_bind. do 2 f_equal.
  unfold w2, w1, emit, set_listener. cbn. rewrite Hl. do 2 f_equal. destruct l. unfold with_refs. cbn. f_equal. lia.
Qed.

(** ** Concrete runs *)

Definition bind_ok (_ : gset Z) (_ : sockaddr) : bind_result := BindOk.
Definition some_addr : ZSockAddr := z_sockaddr_inet_new2 (AF_INET 0 80).
Definition some_name : option (sockaddr * Z) := Some (AF_INET 0x0A000002 80, 16).

Definition start_it (w : world) : outcome (bool * world) :=
  z_listener_start_in_context bind_ok true (λ _, true) (mkCaps false ∅) [] 7 None some_name 1000 w.

(** A listener on socket 7 that was started. *)
Definition some_listener (flags : Z) : outcome world :=
  w ← z_stream_listener_new (Some some_addr) flags 5; snd <$> start_it w.

Definition conn_1 : connection := mkConnection 10 0x0A000001 1024 0x0A000002 80.
Definition conn_2 : connection := mkConnection 11 0x0A000003 1025 0x0A000002 80.

(** When accept fails, the callback gets the destination of the connection before, or what was
    on the stack. *)
Example accept_error_dest :
  ('(_, _, w) ← (w ← some_listener 0; w ← dispatch_begin w;
     z_listener_accept 1000 (replicate 4 1000)
       (mkAnswers [AcceptFailed EOTHER; c_accept conn_1; AcceptFailed EOTHER; AcceptFailed EAGAIN] [c_name conn_1] (replicate 3 ([], true))) w);
   Done (drop 2 (trace w))) =
  Done ([Called None None None] ++ c_events conn_1 ++ [Called None None (Some (Some (z_sockaddr_inet_new2 (AF_INET 0x0A000002 80))))]).
Proof. by vm_compute. Qed.

(** The callback cancels the listener: the second connection is not accepted, although the
    callback returns TRUE, and the source is notified at the end. *)
Example cancel_in_callback :
  ('(rc, a, w) ← (w ← some_listener 0; w ← dispatch_begin w;
     z_listener_accept 1000 (replicate 4 1000)
       (mkAnswers [c_accept conn_1; c_accept conn_2] [c_name conn_1; c_name conn_2] [([Cancel; Release], true)]) w);
   w ← dispatch_end rc w; Done (listener w, trace w)) =
  Done (None, [Opened 7; Started 7] ++ c_events conn_1 ++ [Closed 7]).
Proof. by vm_compute. Qed.

(** A listener that has accepted its one connection can be started again only after it was cancelled. *)
Example accept_one_restart :
  (w ← (w ← some_listener ZSF_ACCEPT_ONE; w ← dispatch_begin w;
     '(rc, _, w) ← z_listener_accept 1000 [1000] (mkAnswers [c_accept conn_1] [c_name conn_1] [([], true)]) w; dispatch_end rc w);
   '(again, w) ← start_it w; w ← z_listener_cancel w; '(third, w) ← start_it w; Done (again, third)) = Done (false, true).
Proof. by vm_compute. Qed.

(** Opening a listener that is open forgets its socket, which is never closed. *)
Example open_twice_leaks :
  (w ← z_stream_listener_new (Some some_addr) 0 5;
   '(_, w) ← z_listener_open bind_ok true (λ _, true) (mkCaps false ∅) [] 7 None some_name w;
   '(again, w) ← z_listener_open bind_ok true (λ _, true) (mkCaps false ∅) [] 8 None some_name w;
   w ← z_listener_unref w; Done (again, listener w, trace w)) = Done (true, None, [Opened 7; Opened 8; Closed 8]).
Proof. by vm_compute. Qed.

(** Opening a listener without an address reads through the NULL pointer, although the code behind it expects one. *)
Example open_without_address :
  (w ← z_stream_listener_new None 0 5; start_it w) = Fault OutOfBounds.
Proof. done. Qed.

(** ** Witnesses *)

Definition after (s : system) (o : outcome system) : system := match o with Done s' => s' | Fault _ => s end.

Lemma reachable_after s0 s o : reachable s0 s → step s o → reachable s0 (after s o).
Proof. intros Hr Hs. destruct o; [by eapply reachable_step|done]. Qed.

Definition the_world (o : outcome world) : world := match o with Done w => w | Fault _ => mkWorld None None [] end.
Definition new_world : world := the_world (z_stream_listener_new (Some some_addr) 0 5).

Lemma some_name_ok : name_ok some_name.
Proof. by intros ? ? [= <- <-]. Qed.

(** Started, one connection accepted, and released by the callback, which ends the listening. *)
Lemma ended_reachable : ∃ s, reachable (new_system new_world) s ∧ listener (the s) = None ∧
  trace (the s) = [Opened 7; Started 7] ++ c_events conn_1 ++ [Closed 7].
Proof.
  pose proof (reachable_refl (new_system new_world)) as H.
  eapply reachable_after in H; [|apply (step_start _ bind_ok true (λ _, true) (mkCaps false ∅) [] 7 None some_name 1000); [done|done|apply some_name_ok| |by intros ?]].
  2: { intros l [= <-]. eexists. split; [done|]. by vm_compute. }
  eapply reachable_after in H; [|by eapply step_dispatch; [done|by vm_compute|done|done]].
  eapply reachable_after in H; [|apply (step_accept _ 1000 [1000; 1000] (mkAnswers [c_accept conn_1] [c_name conn_1] [([Release], false)])); [by vm_compute|]].
  2: { constructor; [by repeat constructor| |by vm_compute]. constructor; [|constructor]. by intros ? ? [= <- <-]. }
  eapply reachable_after in H; [|by apply (step_dispatch_end _ false); vm_compute].
  eexists. split; [exact H|]. split; by vm_compute.
Qed.

Lemma listener_safe_witness : ∃ s, reachable (new_system new_world) s ∧ listener (the s) = None ∧
  handed_over (trace (the s)) ∧ user_refs s = 0 ∧ open_count 7 (trace (the s)) = 0.
Proof.
  destruct ended_reachable as (s & Hs & Hend & _).
  destruct (listener_safe (Some some_addr) 0 5 new_world s) as (_ & Hho & H).
  - intros b [= <-]. unfold MAX_REF. cbn. lia.
  - by vm_compute.
  - exact Hs.
  - exists s. rewrite Hend in H. destruct H as [Hu Ho]. split; [exact Hs|]. split; [exact Hend|]. split; [exact Hho|].
    split; [exact Hu|]. by apply Ho.
Defined.

Definition dispatched_world : world := the_world (w ← some_listener 0; dispatch_begin w).

Lemma listener_cancel_witness :
  let s := mkSystem dispatched_world 1 true Begun in
  let w := the_world (z_listener_cancel_locked dispatched_world) in
  let s1 := mkSystem w 1 false Begun in
  let s2 := after s1 ('(rc, a', w) ← z_listener_accept 1000 [1000] (mkAnswers [c_accept conn_1] [c_name conn_1] [([], true)]) w;
                      Done (mkSystem w (1 - (0 - releases (callbacks a'))) false (Returned rc))) in
  loop s2 = Returned true ∧ ∃ tr, trace (the s2) = trace w ++ tr ∧ quiet tr.
Proof.
  intros s w s1 s2. split; [by vm_compute|].
  refine (proj2 (listener_cancel s w s2 _ _)); [by vm_compute|].
  eapply reachable_after; [apply reachable_refl|].
  apply (step_accept s1 1000 [1000] (mkAnswers [c_accept conn_1] [c_name conn_1] [([], true)])); [done|].
  constructor; [by repeat constructor| |by vm_compute]. constructor; [|constructor]. by intros ? ? [= <- <-].
Defined.

Lemma accept_drain_witness :
  let a := mkAnswers [c_accept conn_1; c_accept conn_2; AcceptFailed EAGAIN] [c_name conn_1; c_name conn_2] [([], true); ([], true)] in
  ∃ a', z_listener_accept 1000 [1000; 1000; 1000] a dispatched_world =
    Done (true, a', emit (c_events conn_1 ++ c_events conn_2) dispatched_world) ∧ dests a' = [].
Proof.
  intros a. destruct (accept_drain 1000 [1000] [AcceptFailed EAGAIN] [] [] [conn_1; conn_2] dispatched_world) as (a' & H & Hd & _).
  - split; [by eexists|by eexists].
  - by intros l [= <-].
  - left. split; [unfold MAX_ACCEPTS_AT_A_TIME; cbn; lia|]. split; by eexists.
  - exists a'. split; [exact H|exact Hd].
Defined.
