(* ===== verification/Random.v ===== *)
(** * Bounded random sequences (src/src/random.c)

    RAND_bytes of OpenSSL is a parameter: the bytes it gives for a length, or none if
    it fails. *)

From S2P Require Import Prelude.
Open Scope Z_scope.

Inductive ZRandomStrength := Z_RANDOM_STRONG | Z_RANDOM_BASIC | Z_RANDOM_WEAK.

Definition MASK_FOR_N_BITS (n : Z) : Z := Z.shiftl 1 n - 1.

Section Random.
Context (RAND_bytes : Z → option (list Z)).
Context (RAND_bytes_ok : ∀ n l, 0 ≤ n → RAND_bytes n = Some l → zlen l = n ∧ bytes l).

(** The strength is checked and otherwise not used. *)
Definition z_random_sequence_get (strength : ZRandomStrength) (target_len : Z) : option (list Z) :=
  RAND_bytes target_len.

(** [while (bound) { num_bits++; bound >>= 1; }] *)
Fixpoint count_bits (fuel : nat) (bound num_bits : Z) : outcome Z :=
  if bound =? 0 then Done num_bits
  else match fuel with
       | O => Fault OutOfFuel
       | S fuel => count_bits fuel (Z.shiftr bound 1) (u8 (num_bits + 1))
       end.

(** The bits of the last byte that were not used yet. *)
Record bit_state := mkBits { unused_bit_count : Z; bit_buffer : Z; next_byte : Z }.

(** The next [num_bits] bits as a target byte. *)
Definition next_bits (buf : list Z) (num_bits : Z) (b : bit_state) : outcome (Z * bit_state) :=
  if num_bits <=? unused_bit_count b then
    Done (u8 (Z.land (bit_buffer b) (MASK_FOR_N_BITS num_bits)),
          mkBits (u8 (unused_bit_count b - num_bits)) (Z.shiftr (bit_buffer b) num_bits) (next_byte b))
  else
    let offset := u8 (num_bits - unused_bit_count b) in
    let hi := u8 (Z.shiftl (bit_buffer b) offset) in
    c ← load buf (next_byte b);
    Done (u8 (Z.lor hi (Z.land c (MASK_FOR_N_BITS offset))),
          mkBits (u8 (8 - offset)) (Z.shiftr c offset) (u32 (next_byte b + 1))).

(** The loop over the target, from index [i]. *)
Fixpoint fill_target (fuel : nat) (buf target : list Z) (target_len num_bits min max i : Z) (b : bit_state)
    : outcome (list Z) :=
  if i <? target_len then
    match fuel with
    | O => Fault OutOfFuel
    | S fuel =>
        '(v, b) ← next_bits buf num_bits b;
        let v := Z.land (v * (max - min) / MASK_FOR_N_BITS num_bits + min) 255 in
        target ← store target i v;
        _ ← require (min ≤ v ≤ max) AssertFailed;
        fill_target fuel buf target target_len num_bits min max (u32 (i + 1)) b
    end
  else Done target.

(** [None] is the failure of RAND_bytes, or of the check of the bounds. *)
Definition z_random_sequence_get_bounded (strength : ZRandomStrength) (target : list Z)
    (target_len min max : Z) : outcome (option (list Z)) :=
  if negb (min <? max) then Done None
  else
    num_bits ← count_bits 32 (max - min) 0;
    let needed_bytes := u32 ((num_bits * target_len - 0 + 7) / 8) in
    match z_random_sequence_get strength needed_bytes with
    | None => Done None
    | Some buf => t ← fill_target (Z.to_nat target_len) buf target target_len num_bits min max 0 (mkBits 0 0 0);
                  Done (Some t)
    end.

(** ** Proofs *)

Lemma count_bits_ok bound :
  0 < bound < 256 → ∃ n, count_bits 32 bound 0 = Done n ∧ 1 ≤ n ≤ 8 ∧ bound < 2 ^ n.
Proof.
  intros Hb.
  assert (Hall : ∀ b, is_byte b → (if b =? 0 then true else
     match count_bits 32 b 0 with Done n => (1 <=? n) && (n <=? 8) && (b <? 2 ^ n) | _ => false end) = true).
  { apply (all_bytes_1 (λ b, if b =? 0 then true else
     match count_bits 32 b 0 with Done n => (1 <=? n) && (n <=? 8) && (b <? 2 ^ n) | _ => false end)).
    by vm_compute. }
  specialize (Hall bound). rewrite (proj2 (Z.eqb_neq bound 0)) in Hall by lia.
  destruct (count_bits 32 bound 0) as [n|]; [|by specialize (Hall ltac:(unfold is_byte; lia))].
  exists n. split; [done|]. specialize (Hall ltac:(unfold is_byte; lia)). lia.
Qed.

Lemma mask_ones n : 0 ≤ n → MASK_FOR_N_BITS n = Z.ones n.
Proof. intros. unfold MASK_FOR_N_BITS. rewrite Z.shiftl_1_l, Z.ones_equiv. lia. Qed.

Lemma land_mask x n : 0 ≤ n → Z.land x (MASK_FOR_N_BITS n) = x `mod` 2 ^ n.
Proof. intros. by rewrite mask_ones, Z.land_ones. Qed.

(** The bits left over are the high bits of a byte. *)
Definition bits_ok (num_bits i : Z) (b : bit_state) : Prop :=
  0 ≤ unused_bit_count b < 8 ∧ 0 ≤ bit_buffer b < 2 ^ unused_bit_count b ∧
  unused_bit_count b = 8 * next_byte b - num_bits * i ∧ 0 ≤ next_byte b.

Lemma pow_le_256 n : 0 ≤ n ≤ 8 → 1 ≤ 2 ^ n ≤ 256.
Proof. intros. split; [apply (Z.pow_le_mono_r 2 0 n); lia|apply (Z.pow_le_mono_r 2 n 8); lia]. Qed.

Lemma next_bits_ok buf num_bits target_len i b :
  1 ≤ num_bits ≤ 8 → bits_ok num_bits i b → bytes buf →
  zlen buf = (num_bits * target_len + 7) / 8 → 0 ≤ i < target_len → num_bits * target_len < 2 ^ 32 →
  ∃ v b', next_bits buf num_bits b = Done (v, b') ∧ 0 ≤ v < 2 ^ num_bits ∧ bits_ok num_bits (i + 1) b'.
Proof.
  intros Hn ([Hu0 Hu8] & [Hb0 Hb] & Hu & Hnb) Hbuf Hlen Hi Hsmall. unfold next_bits.
  destruct b as [u bb j]. cbn [unused_bit_count bit_buffer next_byte] in *.
  assert (Hnn := pow_le_256 num_bits ltac:(lia)). assert (Huu := pow_le_256 u ltac:(lia)).
  destruct (Z.leb_spec num_bits u) as [Hle|Hgt].
  - rewrite land_mask by lia. pose proof (Z.mod_pos_bound bb (2 ^ num_bits) ltac:(lia)).
    rewrite u8_small by (unfold is_byte; lia). eexists _, _. split; [done|]. split; [done|].
    unfold bits_ok. cbn [unused_bit_count bit_buffer next_byte].
    rewrite u8_small by (unfold is_byte; lia). split; [lia|]. split; [|lia].
    rewrite Z.shiftr_div_pow2 by lia. split; [by apply Z.div_pos; lia|].
    apply Z.div_lt_upper_bound; [lia|]. rewrite <- Z.pow_add_r by lia.
    by replace (num_bits + (u - num_bits)) with u by lia.
  - set (o := num_bits - u). assert (Ho : 1 ≤ o ≤ 8) by (unfold o; lia).
    rewrite (u8_small o) by (unfold is_byte; lia).
    assert (Hoo := pow_le_256 o ltac:(lia)).
    assert (Hpow : 2 ^ u * 2 ^ o = 2 ^ num_bits)
      by (rewrite <- Z.pow_add_r by lia; f_equal; unfold o; lia).
    assert (Hhi : 0 ≤ bb * 2 ^ o ≤ 2 ^ num_bits - 2 ^ o) by nia.
    rewrite Z.shiftl_mul_pow2 by lia. rewrite (u8_small (bb * 2 ^ o)) by (unfold is_byte; lia).
    assert (Hj : j < zlen buf).
    { rewrite Hlen. assert (8 * j < num_bits * target_len) by nia.
      Z.to_euclidean_division_equations; lia. }
    destruct (lookup_lt_is_Some_2 buf (Z.to_nat j)) as [c Hc]; [lia|].
    rewrite (proj2 (load_Done _ _ c)), Done_bind by (split; [lia|done]).
    assert (Hcb : is_byte c) by (rewrite Forall_lookup in Hbuf; by eapply Hbuf).
    rewrite land_mask by lia. pose proof (Z.mod_pos_bound c (2 ^ o) ltac:(lia)) as Hmod.
    assert (Hor : Z.lor (bb * 2 ^ o) (c `mod` 2 ^ o) = bb * 2 ^ o + c `mod` 2 ^ o).
    { rewrite <- Z.shiftl_mul_pow2 by lia. rewrite <- (Z.add_lor_land (Z.shiftl bb o)).
      assert (Hand : Z.land (Z.shiftl bb o) (c `mod` 2 ^ o) = 0); [|by rewrite Hand, Z.add_0_r].
      apply Z.bits_inj'. intros k Hk. rewrite Z.land_spec, Z.bits_0.
      destruct (decide (k < o)); [by rewrite Z.shiftl_spec_low|].
      rewrite (Z.mod_pow2_bits_high c o k) by lia. by rewrite andb_false_r. }
    rewrite Hor, u8_small by (unfold is_byte; lia). eexists _, _. split; [done|]. split; [lia|].
    unfold bits_ok. cbn [unused_bit_count bit_buffer next_byte].
    rewrite u8_small by (unfold is_byte; lia).
    assert (Hj32 : j + 1 < 2 ^ 32) by (rewrite Hlen in Hj; Z.to_euclidean_division_equations; nia).
    unfold u32. rewrite Z.mod_small by lia.
    split; [lia|]. split; [|unfold o in *; nia].
    rewrite Z.shiftr_div_pow2 by lia. unfold is_byte in Hcb. split; [by apply Z.div_pos; lia|].
    apply Z.div_lt_upper_bound; [lia|]. rewrite <- Z.pow_add_r by lia.
    replace (o + (8 - o)) with 8 by lia. lia.
Qed.

(** Scaling into the bounds. *)
Lemma scaled_bounds v min max num_bits :
  0 ≤ min → min < max → max < 256 → 1 ≤ num_bits ≤ 8 → 0 ≤ v < 2 ^ num_bits →
  let r := Z.land (v * (max - min) / MASK_FOR_N_BITS num_bits + min) 255 in min ≤ r ≤ max.
Proof.
  intros H0 Hlt H256 Hn Hv. cbn zeta.
  assert (Hm : MASK_FOR_N_BITS num_bits = 2 ^ num_bits - 1) by (rewrite mask_ones, Z.ones_equiv by lia; lia).
  assert (2 ≤ 2 ^ num_bits) by (apply (Z.pow_le_mono_r 2 1 num_bits); lia).
  rewrite Hm.
  assert (0 ≤ v * (max - min) / (2 ^ num_bits - 1) ≤ max - min).
  { split; [apply Z.div_pos; nia|]. apply Z.div_le_upper_bound; nia. }
  change 255 with (Z.ones 8). rewrite Z.land_ones, Z.mod_small by lia. lia.
Qed.

Lemma fill_target_ok fuel buf target_len num_bits min max : ∀ done rest i b,
  1 ≤ num_bits ≤ 8 → 0 ≤ min → min < max → max < 256 → bytes buf →
  zlen buf = (num_bits * target_len + 7) / 8 → num_bits * target_len < 2 ^ 32 →
  i = zlen done → target_len = zlen (done ++ rest) → (length rest ≤ fuel)%nat →
  bits_ok num_bits i b → Forall (λ v, min ≤ v ≤ max) done →
  ∃ t, fill_target fuel buf (done ++ rest) target_len num_bits min max i b = Done t ∧
    zlen t = target_len ∧ Forall (λ v, min ≤ v ≤ max) t.
Proof.
  induction fuel as [|fuel IH]; intros done rest i b Hn H0 Hlt H256 Hbuf Hlen Hsmall Hi Htl Hf Hb Hd;
    rewrite length_app in Htl; cbn [fill_target].
  - destruct rest; [|cbn in Hf; lia]. rewrite (proj2 (Z.ltb_ge i target_len)) by (cbn in Htl; lia).
    rewrite app_nil_r. exists done. split; [done|]. cbn in Htl. split; [lia|done].
  - destruct rest as [|x rest].
    { rewrite (proj2 (Z.ltb_ge i target_len)) by (cbn in Htl; lia).
      rewrite app_nil_r. exists done. split; [done|]. cbn in Htl. split; [lia|done]. }
    cbn [length] in *. rewrite (proj2 (Z.ltb_lt i target_len)) by lia.
    destruct (next_bits_ok buf num_bits target_len i b) as (v & b' & Hnb & Hv & Hb'); try done; [lia|].
    rewrite Hnb, Done_bind. pose proof (scaled_bounds v min max num_bits H0 Hlt H256 Hn Hv) as Hr.
    set (w := Z.land _ 255) in *. unfold store.
    rewrite decide_True by (rewrite length_app; cbn; lia). rewrite Done_bind, require_true, Done_bind by done.
    replace (Z.to_nat i) with (length done) by lia.
    rewrite insert_app_r_alt, Nat.sub_diag by lia. cbn [insert list_insert].
    replace (done ++ w :: rest) with ((done ++ [w]) ++ rest) by by rewrite <- app_assoc.
    assert (Hu : u32 (i + 1) = i + 1) by (unfold u32; rewrite Z.mod_small; nia).
    rewrite Hu. apply IH; try done; rewrite ?length_app; cbn [length]; try lia.
    apply Forall_app_2; [done|]. by apply Forall_singleton.
Qed.

(** The sequence has the requested length and every byte of it lies in the bounds;
    the random bits asked for are enough, and the assertion never fails. *)
Theorem z_random_sequence_get_bounded_spec (strength : ZRandomStrength) (target : list Z) (min max : Z) :
  0 ≤ min < 256 → 0 ≤ max < 256 → zlen target < 2 ^ 28 →
  z_random_sequence_get_bounded strength target (zlen target) min max = Done None ∨
  min < max ∧ ∃ t, z_random_sequence_get_bounded strength target (zlen target) min max = Done (Some t) ∧
    zlen t = zlen target ∧ Forall (λ v, min ≤ v ≤ max) t.
Proof using RAND_bytes_ok.
  intros Hmin Hmax Hlen. unfold z_random_sequence_get_bounded.
  destruct (Z.ltb_spec min max) as [Hlt|]; cbn [negb]; [|by left].
  destruct (count_bits_ok (max - min)) as (n & Hc & Hn & _); [lia|]. rewrite Hc, Done_bind.
  rewrite Z.sub_0_r. unfold z_random_sequence_get.
  assert (Hprod : 0 ≤ n * zlen target ≤ 8 * zlen target) by nia.
  assert (Hu : u32 ((n * zlen target + 7) / 8) = (n * zlen target + 7) / 8).
  { unfold u32. apply Z.mod_small. Z.to_euclidean_division_equations; lia. }
  rewrite Hu. destruct (RAND_bytes _) as [buf|] eqn:Hr; [|by left]. right. split; [done|].
  destruct (RAND_bytes_ok ((n * zlen target + 7) / 8) buf ltac:(apply Z.div_pos; lia) Hr) as [Hbl Hbb].
  destruct (fill_target_ok (Z.to_nat (zlen target)) buf (zlen target) n min max [] target 0 (mkBits 0 0 0))
    as (t & Ht & Htl & Hf); try done; try lia.
  - unfold bits_ok. cbn. lia.
  - cbn [app] in Ht. rewrite Ht, Done_bind. eauto.
Qed.
End Random.

Definition counting_bytes (n : Z) : option (list Z) :=
  Some ((λ k, (Z.of_nat k * 37) `mod` 256) <$> seq 0 (Z.to_nat n)).

Lemma counting_bytes_ok n l : 0 ≤ n → counting_bytes n = Some l → zlen l = n ∧ bytes l.
Proof.
  intros Hn [= <-]. rewrite length_fmap, length_seq. split; [lia|].
  apply Forall_fmap, Forall_true. intros k. unfold is_byte. cbn. apply Z.mod_pos_bound. lia.
Qed.

Lemma z_random_sequence_get_bounded_spec_witness :
  ∃ t, z_random_sequence_get_bounded counting_bytes Z_RANDOM_BASIC (replicate 5 0) 5 97 122 = Done (Some t) ∧
    zlen t = 5 ∧ Forall (λ v, 97 ≤ v ≤ 122) t.
Proof.
  destruct (z_random_sequence_get_bounded_spec counting_bytes counting_bytes_ok Z_RANDOM_BASIC
    (replicate 5 0) 97 122) as [H|[_ H]]; [lia|lia|by vm_compute|by vm_compute in H|exact H].
Defined.
