(* ===== verification/MemTrace.v ===== *)
(** * Memory tracing (memtrace.c)

    The wrappers of malloc, free, realloc and calloc that keep a table of the blocks that
    are in use, surround them with canaries, and abort the program when something is
    wrong; as compiled with ZORPLIB_ENABLE_MEM_TRACE on x86-64.  Addresses are integers and
    the memory of the process maps them to bytes.  What the functions of the C library
    answer (the address of a new block, or 0) is an argument of the wrappers.  The log
    file is left out, except for the lines of the dump. *)

From S2P Require Import Prelude PacketBuf Dump.
Open Scope Z_scope.

Definition MEMTRACE_BACKTRACE_LEN : Z := 64.
Definition MEMTRACE_BACKTRACE_BUF_LEN : Z := MEMTRACE_BACKTRACE_LEN * (8 * 2 + 2 + 1) + 1.
Definition MEMTRACE_CANARY_SIZE : Z := 2.
Definition MEMTRACE_CANARY_FILL : Z := 0xcd.
Definition MEMTRACE_CANARY_CHECK : Z := 0xcdcdcdcd.

(** Two sizes of 8 bytes, and the canaries of 4. *)
Definition sizeof_canary : Z := 8 + 8 + 4 * MEMTRACE_CANARY_SIZE.
Definition MEMTRACE_CANARY_OVERHEAD : Z := sizeof_canary * 2.

Definition MEMTRACE_HASH_SIZE : Z := 32768.
Definition MEMTRACE_HASH_SHIFT : Z := 3.
Definition MEMTRACE_HASH_MASK : Z := Z.shiftl 32767 3.
Definition MEMTRACE_HEAP_SIZE : Z := 300000.
Definition MEMTRACE_TEMP_HEAP_SIZE : Z := 65536.
Definition MEMTRACE_EOL : Z := u32 (-1).

(** ** The table *)

Record ZMemTraceEntry := Entry {
  te_next : Z;
  te_ptr : Z;
  te_size : Z;
  te_backtrace : list Z;
  te_deleted : bool
}.

(** [mem_trace_hash] holds the lists of the heads; an index that is not in the map holds
    [MEMTRACE_EOL], which the initialisation stores everywhere. *)
Record table := Table {
  mem_trace_hash : gmap Z Z;
  mem_trace_heap : gmap Z ZMemTraceEntry;
  mem_trace_free_list : Z;
  mem_block_count : Z;
  mem_allocated_size : Z;
  mem_alloc_count : Z
}.

Definition with_next (n : Z) (e : ZMemTraceEntry) : ZMemTraceEntry :=
  Entry n (te_ptr e) (te_size e) (te_backtrace e) (te_deleted e).

Definition with_deleted (d : bool) (e : ZMemTraceEntry) : ZMemTraceEntry :=
  Entry (te_next e) (te_ptr e) (te_size e) (te_backtrace e) d.

Definition with_hash (h : gmap Z Z) (t : table) : table :=
  Table h (mem_trace_heap t) (mem_trace_free_list t) (mem_block_count t) (mem_allocated_size t) (mem_alloc_count t).

Definition with_heap (h : gmap Z ZMemTraceEntry) (t : table) : table :=
  Table (mem_trace_hash t) h (mem_trace_free_list t) (mem_block_count t) (mem_allocated_size t) (mem_alloc_count t).

Definition with_free_list (f : Z) (t : table) : table :=
  Table (mem_trace_hash t) (mem_trace_heap t) f (mem_block_count t) (mem_allocated_size t) (mem_alloc_count t).

Definition with_counts (b s a : Z) (t : table) : table :=
  Table (mem_trace_hash t) (mem_trace_heap t) (mem_trace_free_list t) b s a.

(** The part of the initialisation that links all [n] entries into the free list. *)
Definition init_table (n : Z) : table :=
  let heap := foldl (λ h i, <[i := Entry (u32 (i + 1)) 0 0 (replicate (Z.to_nat MEMTRACE_BACKTRACE_LEN) 0) false]> h) ∅ (seqZ 0 n) in
  let heap := alter (with_next MEMTRACE_EOL) (n - 1) heap in
  Table ∅ heap 0 0 0 0.

Definition z_mem_trace_hash (ptr : Z) : Z :=
  Z.shiftr (u32 (Z.land (u64 ptr) MEMTRACE_HASH_MASK)) MEMTRACE_HASH_SHIFT.

Definition head_list (t : table) (hash : Z) : Z := default MEMTRACE_EOL (mem_trace_hash t !! hash).

Definition entry_at (t : table) (i : Z) : outcome ZMemTraceEntry :=
  match mem_trace_heap t !! i with Some e => Done e | None => Fault OutOfBounds end.

(** [size] is a gint here and a gsize in the entry. *)
Definition z_mem_trace_add (ptr size : Z) (backt : list Z) (t : table) : outcome (table * bool) :=
  let hash := z_mem_trace_hash ptr in
  if decide (mem_trace_free_list t = MEMTRACE_EOL) then Done (t, false)
  else
    let t := with_counts (u32 (mem_block_count t + 1)) (u32 (mem_allocated_size t + size))
                         (u32 (mem_alloc_count t + 1)) t in
    let new_ndx := mem_trace_free_list t in
    new ← entry_at t new_ndx;
    let t := with_free_list (te_next new) t in
    let new := Entry (head_list t hash) ptr (u64 size) backt (te_deleted new) in
    Done (with_hash (<[hash := new_ndx]> (mem_trace_hash t)) (with_heap (<[new_ndx := new]> (mem_trace_heap t)) t), true).

(** The loop of z_mem_trace_del: [prev] is the place that holds [cur], the list of the
    head ([None]) or the next field of an entry. *)
Fixpoint find_loop (fuel : nat) (t : table) (ptr : Z) (prev : option Z) (cur : Z) : outcome (option Z * Z) :=
  if decide (cur = MEMTRACE_EOL) then Done (prev, cur)
  else match fuel with
  | O => Fault OutOfFuel
  | S fuel =>
      e ← entry_at t cur;
      if decide (te_ptr e = ptr) then Done (prev, cur) else find_loop fuel t ptr (Some cur) (te_next e)
  end.

(** More iterations than there are entries. *)
Definition find_fuel (t : table) : nat := S (size (mem_trace_heap t)).

(** [*prev = next] *)
Definition unlink (hash : Z) (prev : option Z) (next : Z) (t : table) : table :=
  match prev with
  | None => with_hash (<[hash := next]> (mem_trace_hash t)) t
  | Some i => with_heap (alter (with_next next) i (mem_trace_heap t)) t
  end.

Definition z_mem_trace_del (hard : bool) (ptr : Z) (t : table) : outcome (table * bool) :=
  let hash := z_mem_trace_hash ptr in
  '(prev, cur) ← find_loop (find_fuel t) t ptr None (head_list t hash);
  if decide (cur = MEMTRACE_EOL) then Done (t, false)
  else
    e ← entry_at t cur;
    let t := if hard then t else unlink hash prev (te_next e) t in
    if hard then
      Done (with_heap (alter (with_deleted true) cur (mem_trace_heap t)) t, true)
    else
      let t := with_free_list cur (with_heap (alter (with_next (mem_trace_free_list t)) cur (mem_trace_heap t)) t) in
      Done (with_counts (u32 (mem_block_count t - 1)) (u32 (mem_allocated_size t - te_size e)) (mem_alloc_count t) t, true).

Fixpoint lookup_loop (fuel : nat) (t : table) (ptr cur : Z) : outcome Z :=
  if decide (cur = MEMTRACE_EOL) then Done cur
  else match fuel with
  | O => Fault OutOfFuel
  | S fuel =>
      e ← entry_at t cur;
      if decide (te_ptr e = ptr) then Done cur else lookup_loop fuel t ptr (te_next e)
  end.

Definition z_mem_trace_lookup_chain (ptr hash : Z) (t : table) : outcome Z :=
  lookup_loop (find_fuel t) t ptr (head_list t hash).

Definition z_mem_trace_getsize (ptr : Z) (t : table) : outcome Z :=
  let hash := z_mem_trace_hash ptr in
  cur ← z_mem_trace_lookup_chain ptr hash t;
  if decide (cur = MEMTRACE_EOL) then Done (-1)
  else e ← entry_at t cur; Done (s32 (te_size e)).

(** ** The memory of the process

    [cm_bytes] are the bytes that may be accessed, [cm_blocks] the blocks that the C library
    has handed out, by their addresses, with their lengths. *)
Record cmem := CMem { cm_bytes : gmap Z Z; cm_blocks : gmap Z Z }.

Fixpoint put (bs : gmap Z Z) (a : Z) (l : list Z) : gmap Z Z :=
  match l with [] => bs | v :: l => <[a := v]> (put bs (a + 1) l) end.

Fixpoint cut (bs : gmap Z Z) (a : Z) (n : nat) : gmap Z Z :=
  match n with O => bs | S n => delete a (cut bs (a + 1) n) end.

Definition mem_read (m : cmem) (a n : Z) : outcome (list Z) :=
  match mapM (λ i, cm_bytes m !! i) (seqZ a n) with Some l => Done l | None => Fault OutOfBounds end.

Definition mem_write (m : cmem) (a : Z) (l : list Z) : outcome cmem :=
  _ ← mem_read m a (zlen l);
  Done (CMem (put (cm_bytes m) a l) (cm_blocks m)).

(** memmove *)
Definition mem_move (m : cmem) (dst src n : Z) : outcome cmem :=
  l ← mem_read m src n; mem_write m dst l.

(** malloc, calloc, free and realloc of the C library; [a] is the address that they answer. *)
Definition libc_new (m : cmem) (a : Z) (l : list Z) : cmem :=
  if decide (a = 0) then m else CMem (put (cm_bytes m) a l) (<[a := zlen l]> (cm_blocks m)).

Definition libc_malloc `{FreshMem} (m : cmem) (n a : Z) : cmem := libc_new m a (fresh_bytes 0 (Z.to_nat n)).

Definition libc_calloc (m : cmem) (nmemb n a : Z) : cmem := libc_new m a (replicate (Z.to_nat (nmemb * n)) 0).

Definition libc_free (m : cmem) (a : Z) : outcome cmem :=
  if decide (a = 0) then Done m
  else match cm_blocks m !! a with
  | Some n => Done (CMem (cut (cm_bytes m) a (Z.to_nat n)) (delete a (cm_blocks m)))
  | None => Fault BadFree
  end.

Definition libc_realloc `{FreshMem} (m : cmem) (p n a : Z) : outcome cmem :=
  if decide (p = 0) then Done (libc_malloc m n a)
  else match cm_blocks m !! p with
  | None => Fault BadFree
  | Some old =>
      if decide (a = 0) then Done m
      else
        l ← mem_read m p (n `min` old);
        m ← libc_free m p;
        Done (libc_new m a (l ++ fresh_bytes (length l) (Z.to_nat n - length l)))
  end.

(** ** The tracer *)

Record tracer := Tracer {
  tr_table : table;
  tr_mem : cmem;
  mem_trace : bool;
  mem_trace_canaries : bool;
  mem_trace_hard : bool;
  mem_trace_initialized : bool;
  old_pointers : bool;      (* old_malloc, old_free, old_realloc and old_calloc are set *)
  temp_brk : Z
}.

Definition with_table (t : table) (s : tracer) : tracer :=
  Tracer t (tr_mem s) (mem_trace s) (mem_trace_canaries s) (mem_trace_hard s) (mem_trace_initialized s) (old_pointers s) (temp_brk s).

Definition with_mem (m : cmem) (s : tracer) : tracer :=
  Tracer (tr_table s) m (mem_trace s) (mem_trace_canaries s) (mem_trace_hard s) (mem_trace_initialized s) (old_pointers s) (temp_brk s).

Definition with_temp_brk (b : Z) (s : tracer) : tracer :=
  Tracer (tr_table s) (tr_mem s) (mem_trace s) (mem_trace_canaries s) (mem_trace_hard s) (mem_trace_initialized s) (old_pointers s) b.

(** Which of ZORP_MEMTRACE, ZORP_MEMTRACE_CANARIES and ZORP_MEMTRACE_HARD are set. *)
Record environment := Environment { env_memtrace : bool; env_canaries : bool; env_hard : bool }.

(** A process that has not allocated anything; the temporary heap is static. *)
Definition start (temp_heap : Z) : tracer :=
  Tracer (Table ∅ ∅ MEMTRACE_EOL 0 0 0)
         (CMem (put ∅ temp_heap (replicate (Z.to_nat MEMTRACE_TEMP_HEAP_SIZE) 0)) ∅)
         false false false false false 0.

(** The wrappers call this first.  While it looks up the old functions the state is the one
    of [begin_init]: what the dynamic linker allocates then comes from the temporary heap. *)
Definition begin_init (s : tracer) : tracer :=
  Tracer (tr_table s) (tr_mem s) (mem_trace s) (mem_trace_canaries s) (mem_trace_hard s) true (old_pointers s) (temp_brk s).

Definition z_mem_trace_init_pointers (s : tracer) : tracer :=
  Tracer (tr_table s) (tr_mem s) (mem_trace s) (mem_trace_canaries s) (mem_trace_hard s) (mem_trace_initialized s) true (temp_brk s).

Definition z_mem_trace_init_internal (env : environment) (s : tracer) : tracer :=
  if mem_trace_initialized s then s
  else
    let s := z_mem_trace_init_pointers (begin_init s) in
    if env_memtrace env then
      Tracer (init_table MEMTRACE_HEAP_SIZE) (tr_mem s) true (mem_trace_canaries s || env_canaries env)
             (mem_trace_hard s || env_hard env) (mem_trace_initialized s) (old_pointers s) (temp_brk s)
    else s.

(** A ZMemTraceCanary has its size at 0, its neg_size at 8 and the canaries at 16.  [size] is a
    gint. *)
Definition z_mem_trace_fill_canaries (ptr size : Z) (s : tracer) : outcome (tracer * Z) :=
  if decide (ptr = 0) then Done (s, ptr)
  else if mem_trace_canaries s then
    let size := s32 size in
    let p_before := ptr in
    let p_after := u64 (ptr + sizeof_canary + size) in
    let fill := replicate (Z.to_nat (4 * MEMTRACE_CANARY_SIZE)) MEMTRACE_CANARY_FILL in
    m ← mem_write (tr_mem s) (p_before + 16) fill;
    m ← mem_write m (p_after + 16) fill;
    m ← mem_write m p_after (le_bytes 8 (u64 size));
    m ← mem_write m p_before (le_bytes 8 (u64 size));
    m ← mem_write m (p_after + 8) (le_bytes 8 (u64 (- size)));
    m ← mem_write m (p_before + 8) (le_bytes 8 (u64 (- size)));
    Done (with_mem m s, p_before + sizeof_canary)
  else Done (s, ptr).

Definition read_u64 (m : cmem) (a : Z) : outcome Z := le_value <$> mem_read m a 8.
Definition read_u32 (m : cmem) (a : Z) : outcome Z := le_value <$> mem_read m a 4.

(** The loop over the canaries. *)
Fixpoint canary_loop (n : nat) (m : cmem) (p_before p_after i : Z) : outcome unit :=
  match n with
  | O => Done tt
  | S n =>
      b ← read_u32 m (p_before + 16 + 4 * i);
      a ← read_u32 m (p_after + 16 + 4 * i);
      _ ← require (b = a ∧ b = MEMTRACE_CANARY_CHECK) AssertFailed;
      canary_loop n m p_before p_after (i + 1)
  end.

(** abort() is [AssertFailed]. *)
Definition z_mem_trace_check_canaries (ptr : Z) (s : tracer) : outcome Z :=
  if decide (ptr = 0) then Done ptr
  else if mem_trace_canaries s then
    let m := tr_mem s in
    let p_before := ptr - sizeof_canary in
    size ← read_u64 m p_before;
    neg_size ← read_u64 m (p_before + 8);
    _ ← require (size = u64 (- neg_size)) AssertFailed;
    let p_after := u64 (ptr + size) in
    size' ← read_u64 m p_after;
    _ ← require (size' = size) AssertFailed;
    neg_size' ← read_u64 m (p_after + 8);
    _ ← require (neg_size' = neg_size) AssertFailed;
    _ ← canary_loop (Z.to_nat MEMTRACE_CANARY_SIZE) m p_before p_after 0;
    Done p_before
  else Done ptr.

(** ** The dump

    A line for each block, and one for each byte of a deleted block that was changed. *)
Inductive dump_line : Type :=
| DumpBlock (ptr size : Z) (deleted : bool)
| UsingFreed (ptr : Z).

(** The counter of the loop over the bytes is a guint. *)
Definition freed_lines (m : cmem) (ptr size : Z) : outcome (list dump_line) :=
  _ ← require (size < 2 ^ 32) OutOfFuel;
  l ← mem_read m ptr size;
  Done ((λ _ : Z, UsingFreed ptr) <$> filter (λ v : Z, v ≠ MEMTRACE_CANARY_FILL) (l : list Z)).

Fixpoint dump_chain (fuel : nat) (s : tracer) (cur : Z) : outcome (list dump_line) :=
  if decide (cur = MEMTRACE_EOL) then Done []
  else match fuel with
  | O => Fault OutOfFuel
  | S fuel =>
      e ← entry_at (tr_table s) cur;
      _ ← (if mem_trace_canaries s then z_mem_trace_check_canaries (te_ptr e) s else Done 0);
      used ← (if mem_trace_hard s && te_deleted e then freed_lines (tr_mem s) (te_ptr e) (te_size e) else Done []);
      rest ← dump_chain fuel s (te_next e);
      Done (DumpBlock (te_ptr e) (te_size e) (te_deleted e) :: used ++ rest)
  end.

Fixpoint dump_loop (n : nat) (s : tracer) (i : Z) : outcome (list dump_line) :=
  match n with
  | O => Done []
  | S n =>
      l ← dump_chain (find_fuel (tr_table s)) s (head_list (tr_table s) i);
      rest ← dump_loop n s (i + 1);
      Done (l ++ rest)
  end.

Definition z_mem_trace_dump (s : tracer) : outcome (list dump_line) :=
  if mem_trace s then dump_loop (Z.to_nat MEMTRACE_HASH_SIZE) s 0 else Done [].

(** ** The wrappers

    [a] is the address that the C library answers when it is asked for a block, and
    [temp_heap] the address of the temporary heap. *)
Section wrappers.
Context `{FreshMem} (temp_heap : Z) (env : environment).

Definition TMP_ALLOCATED (ptr : Z) : Prop := u32 (ptr - temp_heap) < MEMTRACE_TEMP_HEAP_SIZE.

(** The size of a block with its canaries. *)
Definition with_overhead (s : tracer) (size : Z) : Z :=
  u64 (size + Z.b2z (mem_trace_canaries s) * MEMTRACE_CANARY_OVERHEAD).

(** Space on the temporary heap; [limit] is the assertion. *)
Definition temp_alloc (size limit : Z) (s : tracer) : outcome (tracer * Z) :=
  let p := temp_heap + temp_brk s in
  let brk := s32 (temp_brk s + with_overhead s size) in
  _ ← require (brk ≤ limit) AssertFailed;
  Done (with_temp_brk brk s, p).

Definition z_malloc (size : Z) (backt : list Z) (a : Z) (s : tracer) : outcome (tracer * Z) :=
  let s := z_mem_trace_init_internal env s in
  '(s, raw_ptr) ← (if old_pointers s then Done (with_mem (libc_malloc (tr_mem s) (with_overhead s size) a) s, a)
                   else temp_alloc size MEMTRACE_TEMP_HEAP_SIZE s);
  if mem_trace s then
    '(s, user_ptr) ← z_mem_trace_fill_canaries raw_ptr size s;
    _ ← (if mem_trace_hard s then
           n ← z_mem_trace_getsize user_ptr (tr_table s);
           require (n = -1) AssertFailed
         else Done tt);
    if decide (user_ptr = 0) then Done (s, user_ptr)
    else
      '(t, ok) ← z_mem_trace_add user_ptr (s32 size) backt (tr_table s);
      if (ok : bool) then Done (with_table t s, user_ptr)
      else
        m ← libc_free (tr_mem s) raw_ptr;
        let s := with_mem m s in
        _ ← z_mem_trace_dump s;
        Done (s, 0)
  else Done (s, raw_ptr).

Definition z_free (user_ptr : Z) (s : tracer) : outcome tracer :=
  let s := z_mem_trace_init_internal env s in
  '(s, raw_ptr) ←
    (if mem_trace s then
       size ← z_mem_trace_getsize user_ptr (tr_table s);
       s ← (if decide (user_ptr = 0) then Done s
            else
              '(t, ok) ← z_mem_trace_del (mem_trace_hard s) user_ptr (tr_table s);
              _ ← require (ok = true) AssertFailed;
              Done (with_table t s));
       raw_ptr ← z_mem_trace_check_canaries user_ptr s;
       s ← (if decide (size = -1) then Done s
            else m ← mem_write (tr_mem s) user_ptr (replicate (Z.to_nat (u64 size)) MEMTRACE_CANARY_FILL);
                 Done (with_mem m s));
       Done (s, raw_ptr)
     else Done (s, user_ptr));
  if decide (TMP_ALLOCATED raw_ptr) then Done s
  else if mem_trace_hard s then Done s
  else m ← libc_free (tr_mem s) raw_ptr; Done (with_mem m s).

Definition z_realloc (user_ptr size : Z) (backt : list Z) (a : Z) (s : tracer) : outcome (tracer * Z) :=
  let s := z_mem_trace_init_internal env s in
  '(s, raw_ptr, old_size) ←
    (if mem_trace s then
       if decide (user_ptr = 0) then Done (s, 0, 0)
       else
         n ← z_mem_trace_getsize user_ptr (tr_table s);
         let old_size := u64 n in
         _ ← require (old_size ≠ u64 (-1)) AssertFailed;
         '(t, ok) ← z_mem_trace_del (mem_trace_hard s) user_ptr (tr_table s);
         _ ← require (ok = true) AssertFailed;
         let s := with_table t s in
         raw_ptr ← z_mem_trace_check_canaries user_ptr s;
         Done (s, raw_ptr, old_size)
     else Done (s, user_ptr, 0));
  '(s, new_ptr) ←
    (if old_pointers s then
       if decide (TMP_ALLOCATED raw_ptr) then
         let s := with_mem (libc_malloc (tr_mem s) (with_overhead s size) a) s in
         if decide (a = 0) then Done (s, a)
         else
           '(s, new_ptr) ← z_mem_trace_fill_canaries a size s;
           m ← mem_move (tr_mem s) new_ptr user_ptr old_size;
           Done (with_mem m s, new_ptr)
       else if mem_trace_hard s then
         let s := with_mem (libc_malloc (tr_mem s) (with_overhead s size) a) s in
         '(s, new_ptr) ← z_mem_trace_fill_canaries a size s;
         m ← mem_move (tr_mem s) new_ptr user_ptr (size `min` old_size);
         m ← (if decide (old_size = u64 (-1)) then Done m
              else mem_write m user_ptr (replicate (Z.to_nat old_size) MEMTRACE_CANARY_FILL));
         Done (with_mem m s, new_ptr)
       else
         m ← libc_realloc (tr_mem s) raw_ptr (with_overhead s size) a;
         z_mem_trace_fill_canaries a size (with_mem m s)
     else
       '(s, new_ptr) ← temp_alloc size (MEMTRACE_TEMP_HEAP_SIZE - 1) s;
       '(s, new_ptr) ← z_mem_trace_fill_canaries new_ptr size s;
       m ← mem_move (tr_mem s) new_ptr user_ptr old_size;
       Done (with_mem m s, new_ptr));
  if decide (new_ptr = 0) then Done (s, new_ptr)
  else
    '(t, _) ← z_mem_trace_add new_ptr (s32 size) backt (tr_table s);
    Done (with_table t s, new_ptr).

(** What is asked for is [size] and the overhead for each of the [nmemb] members. *)
Definition z_calloc (nmemb size : Z) (backt : list Z) (a : Z) (s : tracer) : outcome (tracer * Z) :=
  let s := z_mem_trace_init_internal env s in
  '(s, raw_ptr) ← (if old_pointers s then Done (with_mem (libc_calloc (tr_mem s) nmemb (with_overhead s size) a) s, a)
                   else temp_alloc (u64 (nmemb * size)) (MEMTRACE_TEMP_HEAP_SIZE - 1) s);
  if mem_trace s then
    '(s, user_ptr) ← z_mem_trace_fill_canaries raw_ptr (u64 (nmemb * size)) s;
    '(t, _) ← z_mem_trace_add user_ptr (s32 (nmemb * size)) backt (tr_table s);
    Done (with_table t s, user_ptr)
  else Done (s, raw_ptr).
End wrappers.

(** ** Backtraces

    [length] addresses that backtrace() answers, up to the first NULL; the 63 that fit are
    copied, and NULL.  What is behind the NULL is not used. *)
Fixpoint bt_loop (n : nat) (btrace : list Z) : list Z :=
  match n, btrace with
  | S n, v :: btrace => if decide (v = 0) then [] else v :: bt_loop n btrace
  | _, _ => []
  end.

Definition z_mem_trace_bt (btrace : list Z) : list Z :=
  bt_loop (Z.to_nat (MEMTRACE_BACKTRACE_LEN - 1)) btrace ++ [0].

(** "%p," of an address: 0x and its hexadecimal digits. *)
Definition hex_digit (d : Z) : Z := if decide (d < 10) then chr "0" + d else chr "a" + d - 10.

Fixpoint hex_digits (fuel : nat) (v : Z) : list Z :=
  match fuel with
  | O => []
  | S fuel => (if decide (v < 16) then [] else hex_digits fuel (v / 16)) ++ [hex_digit (v `mod` 16)]
  end.

Definition print_ptr (v : Z) : list Z := str "0x" ++ hex_digits 16 v ++ str ",".

(** [i] counts the addresses that are left of the 64; [pos] is [buf - p]. *)
Fixpoint format_loop (i : nat) (backt : list Z) (p : list Z) (pos buflen : Z) : outcome (list Z) :=
  match i with
  | O => Done p
  | S i =>
      if decide (8 * 2 + 3 ≤ buflen) then
        match backt with
        | [] => Fault OutOfBounds
        | v :: backt =>
            if decide (v = 0) then Done p
            else
              p ← snprintf p pos buflen (print_ptr v);
              let len := zlen (print_ptr v) in
              format_loop i backt p (pos + len) (u32 (buflen - len))
        end
      else Done p
  end.

Definition z_mem_trace_format_bt (backt : list Z) (buf : list Z) (buflen : Z) : outcome (list Z) :=
  buf ← store buf 0 0;
  format_loop (Z.to_nat MEMTRACE_BACKTRACE_LEN) backt buf 0 buflen.

(** ** The functions that replace those of the C library

    [btrace] is what backtrace() answers. *)
Section replacements.
Context `{FreshMem} (temp_heap : Z) (env : environment) (btrace : list Z).

Definition backt_of (s : tracer) : list Z := if mem_trace s then z_mem_trace_bt btrace else [0].

Definition malloc (size a : Z) (s : tracer) : outcome (tracer * Z) := z_malloc temp_heap env size (backt_of s) a s.
Definition free (ptr : Z) (s : tracer) : outcome tracer := z_free temp_heap env ptr s.
Definition realloc (ptr size a : Z) (s : tracer) : outcome (tracer * Z) := z_realloc temp_heap env ptr size (backt_of s) a s.
Definition calloc (nmemb size a : Z) (s : tracer) : outcome (tracer * Z) := z_calloc temp_heap env nmemb size (backt_of s) a s.
End replacements.
