(* ===== verification/MemTraceTable.v ===== *)
(** * The table of the memory tracer

    The chained hash table and the free list of memtrace.c against a list of the tracked
    blocks, the newest first. *)

From S2P Require Import Prelude PacketBuf MemTrace.
Open Scope Z_scope.

(** ** The abstract table *)

Record tracked := Tracked { tk_ptr : Z; tk_size : Z; tk_backtrace : list Z; tk_deleted : bool }.

Definition block_of (e : ZMemTraceEntry) : tracked := Tracked (te_ptr e) (te_size e) (te_backtrace e) (te_deleted e).

(** The first block with a pointer; taking it out; marking it. *)
Fixpoint tk_find (p : Z) (bs : list tracked) : option tracked :=
  match bs with [] => None | b :: bs => if decide (tk_ptr b = p) then Some b else tk_find p bs end.

Fixpoint tk_adjust (f : tracked → list tracked) (p : Z) (bs : list tracked) : list tracked :=
  match bs with [] => [] | b :: bs => if decide (tk_ptr b = p) then f b ++ bs else b :: tk_adjust f p bs end.

Definition tk_remove : Z → list tracked → list tracked := tk_adjust (λ _, []).
Definition tk_mark : Z → list tracked → list tracked :=
  tk_adjust (λ b, [Tracked (tk_ptr b) (tk_size b) (tk_backtrace b) true]).

Definition tk_total (bs : list tracked) : Z := foldr (λ b n, tk_size b + n) 0 bs.

Lemma tk_find_split p bs :
  match tk_find p bs with
  | None => ∀ b, b ∈ bs → tk_ptr b ≠ p
  | Some b => tk_ptr b = p ∧ ∃ bs1 bs2, bs = bs1 ++ b :: bs2 ∧ (∀ b', b' ∈ bs1 → tk_ptr b' ≠ p) ∧
                ∀ f, tk_adjust f p bs = bs1 ++ f b ++ bs2
  end.
Proof.
  induction bs as [|b bs IH]; cbn; [by intros ? ?%elem_of_nil|].
  case_decide as Hb.
  - split; [done|]. exists [], bs. cbn. split; [done|]. split; [by intros ? ?%elem_of_nil|done].
  - destruct (tk_find p bs) as [b'|].
    + destruct IH as (Hp & bs1 & bs2 & -> & Hne & Hadj). split; [done|]. exists (b :: bs1), bs2. cbn.
      split; [done|]. split; [|intros f; by rewrite Hadj]. intros b'' [->|]%elem_of_cons; auto.
    + intros b'' [->|]%elem_of_cons; auto.
Qed.

Lemma tk_total_app bs bs' : tk_total (bs ++ bs') = tk_total bs + tk_total bs'.
Proof. induction bs as [|b bs IH]; cbn; [done|]. unfold tk_total in *. lia. Qed.

(** ** Segments of the linked entries *)

Fixpoint linked (heap : gmap Z ZMemTraceEntry) (cur : Z) (l : list Z) (tail : Z) : Prop :=
  match l with
  | [] => cur = tail
  | i :: l => cur = i ∧ i ≠ MEMTRACE_EOL ∧ ∃ e, heap !! i = Some e ∧ linked heap (te_next e) l tail
  end.

Lemma linked_app heap cur l1 l2 tail :
  linked heap cur (l1 ++ l2) tail ↔ ∃ mid, linked heap cur l1 mid ∧ linked heap mid l2 tail.
Proof.
  revert cur. induction l1 as [|i l1 IH]; intros cur; cbn; [naive_solver|].
  split.
  - intros (-> & Hi & e & He & Hl). apply IH in Hl as (mid & ? & ?). exists mid. split; [|done]. eauto.
  - intros (mid & (-> & Hi & e & He & Hl) & ?). do 2 (split; [done|]). exists e. split; [done|]. apply IH. eauto.
Qed.

(** What is not in a segment may change, and what is there as long as it keeps its place. *)
Lemma linked_frame heap heap' cur l tail :
  (∀ i, i ∈ l → te_next <$> heap' !! i = te_next <$> heap !! i) → linked heap cur l tail → linked heap' cur l tail.
Proof.
  revert cur. induction l as [|i l IH]; intros cur Hag; cbn; [done|].
  intros (-> & Hi & e & He & Hl). do 2 (split; [done|]).
  pose proof (Hag i ltac:(left)) as Hn. rewrite He in Hn. cbn in Hn.
  destruct (heap' !! i) as [e'|] eqn:He'; [|done]. cbn in Hn. exists e'. split; [done|].
  replace (te_next e') with (te_next e) by congruence. apply IH; [|done]. intros j Hj. apply Hag. by right.
Qed.

Lemma linked_frame_ne heap i e cur l tail : i ∉ l → linked heap cur l tail → linked (<[i := e]> heap) cur l tail.
Proof. intros Hi. apply linked_frame. intros j Hj. rewrite lookup_insert_ne; [done|set_solver]. Qed.

Lemma linked_frame_alter_ne heap i f cur l tail : i ∉ l → linked heap cur l tail → linked (alter f i heap) cur l tail.
Proof. intros Hi. apply linked_frame. intros j Hj. rewrite lookup_alter_ne; [done|set_solver]. Qed.

(** ** The invariant *)

Definition in_chain (h : Z) (x : Z * tracked) : Prop := z_mem_trace_hash (tk_ptr x.2) = h.

#[global] Instance in_chain_dec h x : Decision (in_chain h x).
Proof. unfold in_chain. apply _. Defined.

(** [L] are the entries in use with what they hold, the newest first, [F] the free ones. *)
Record table_inv (t : table) (L : list (Z * tracked)) (F : list Z) : Prop := {
  ti_nodup : NoDup (L.*1 ++ F);
  ti_dom : ∀ i, is_Some (mem_trace_heap t !! i) ↔ i ∈ L.*1 ++ F;
  ti_range : ∀ i, is_Some (mem_trace_heap t !! i) → 0 ≤ i < MEMTRACE_EOL;
  ti_free : linked (mem_trace_heap t) (mem_trace_free_list t) F MEMTRACE_EOL;
  ti_fresh : ∀ i e, i ∈ F → mem_trace_heap t !! i = Some e → te_deleted e = false;
  ti_chain : ∀ h, linked (mem_trace_heap t) (head_list t h) (filter (in_chain h) L).*1 MEMTRACE_EOL;
  ti_entry : ∀ i b, (i, b) ∈ L → block_of <$> mem_trace_heap t !! i = Some b;
  ti_count : mem_block_count t = u32 (zlen L);
  ti_size : mem_allocated_size t = u32 (tk_total L.*2)
}.

(** A table that holds these blocks, with room for [room] more. *)
Definition table_holds (t : table) (bs : list tracked) (room : nat) : Prop :=
  ∃ L F, table_inv t L F ∧ L.*2 = bs ∧ length F = room.

Lemma ti_length t L F : table_inv t L F → (length L ≤ size (mem_trace_heap t))%nat.
Proof.
  intros Ht. rewrite <- size_dom. rewrite <- (length_fmap fst L).
  pose proof (ti_nodup _ _ _ Ht) as Hnd. apply NoDup_app in Hnd as (Hnd & _ & _).
  rewrite <- (size_list_to_set (C := gset Z) L.*1) by done. apply subseteq_size.
  intros j Hj%elem_of_list_to_set. apply elem_of_dom, (ti_dom _ _ _ Ht). apply elem_of_app. by left.
Qed.

(** ** Walking a chain *)

Lemma find_loop_miss fuel t p prev cur l :
  linked (mem_trace_heap t) cur l MEMTRACE_EOL →
  (∀ i e, i ∈ l → mem_trace_heap t !! i = Some e → te_ptr e ≠ p) → (length l ≤ fuel)%nat →
  ∃ prev', find_loop fuel t p prev cur = Done (prev', MEMTRACE_EOL).
Proof.
  revert fuel prev cur. induction l as [|i l IH]; intros fuel prev cur.
  - cbn. intros -> _ _. destruct fuel; cbn; rewrite decide_True by done; eauto.
  - cbn. intros (-> & Hi & e & He & Hl) Hne Hlen. destruct fuel as [|fuel]; [lia|]. cbn.
    rewrite decide_False by done. unfold entry_at. rewrite He. cbn. rewrite decide_False.
    + apply IH; [done| |lia]. intros j e' Hj. apply Hne. by right.
    + apply (Hne i); [by left|done].
Qed.

Lemma find_loop_hit fuel t p prev cur l1 i l2 e :
  linked (mem_trace_heap t) cur (l1 ++ i :: l2) MEMTRACE_EOL →
  (∀ j e', j ∈ l1 → mem_trace_heap t !! j = Some e' → te_ptr e' ≠ p) →
  mem_trace_heap t !! i = Some e → te_ptr e = p → (length l1 < fuel)%nat →
  find_loop fuel t p prev cur = Done (match last l1 with Some j => Some j | None => prev end, i).
Proof.
  intros Hs Hne Hi Hp. revert fuel prev cur Hs. induction l1 as [|j l1 IH]; intros fuel prev cur; cbn -[last].
  - intros (-> & Hi' & _) Hlen. destruct fuel as [|fuel]; [lia|]. cbn. rewrite decide_False by done.
    unfold entry_at. rewrite Hi. cbn. by rewrite decide_True.
  - intros (-> & Hj & e' & He' & Hl) Hlen. destruct fuel as [|fuel]; [lia|]. cbn -[last].
    rewrite decide_False by done. unfold entry_at. rewrite He'. cbn -[last].
    rewrite decide_False by (apply (Hne j); [by left|done]). rewrite IH; [|by intros; eapply Hne; [right|]|done|lia].
    rewrite last_cons. by destruct (last l1).
Qed.

Lemma lookup_loop_find fuel t p prev cur : lookup_loop fuel t p cur = snd <$> find_loop fuel t p prev cur.
Proof.
  revert prev cur. induction fuel as [|fuel IH]; intros prev cur; cbn; case_decide; try done.
  destruct (entry_at t cur) as [e|]; [|done]. cbn. case_decide; [done|]. apply IH.
Qed.

(** Where the walk of z_mem_trace_del ends. *)
Lemma table_find t L F p :
  table_inv t L F →
  match tk_find p L.*2 with
  | None => ∃ prev, find_loop (find_fuel t) t p None (head_list t (z_mem_trace_hash p)) = Done (prev, MEMTRACE_EOL)
  | Some b =>
      ∃ L1 i L2, L = L1 ++ (i, b) :: L2 ∧ tk_ptr b = p ∧ (∀ f, tk_adjust f p L.*2 = L1.*2 ++ f b ++ L2.*2) ∧
        find_loop (find_fuel t) t p None (head_list t (z_mem_trace_hash p))
        = Done (last (filter (in_chain (z_mem_trace_hash p)) L1).*1, i)
  end.
Proof.
  intros Ht. pose proof (ti_chain _ _ _ Ht (z_mem_trace_hash p)) as Hs.
  assert (Hptr : ∀ M i e, M ⊆ L → i ∈ (filter (in_chain (z_mem_trace_hash p)) M).*1 → mem_trace_heap t !! i = Some e →
            ∃ b, b ∈ M.*2 ∧ te_ptr e = tk_ptr b).
  { intros M i e HM ((i' & b) & -> & (_ & Hin)%list_elem_of_filter)%list_elem_of_fmap He.
    pose proof (ti_entry _ _ _ Ht i' b (HM _ Hin)) as Hb. cbn in He. rewrite He in Hb. cbn in Hb.
    exists b. split; [|by injection Hb as <-]. apply list_elem_of_fmap. by exists (i', b). }
  pose proof (tk_find_split p L.*2) as Hf. destruct (tk_find p L.*2) as [b|].
  - destruct Hf as (Hp & bs1 & bs2 & Hbs & Hne & Hadj).
    apply fmap_app_inv in Hbs as (L1 & L2' & Hb1 & Hb2 & HL). symmetry in Hb2. 
    apply fmap_cons_inv in Hb2 as ((i & b0) & L2 & Hb & Hb2 & ->). cbn in Hb. subst b0 bs1 bs2 L.
    exists L1, i, L2. split; [done|]. split; [done|]. split; [done|].
    rewrite filter_app, filter_cons_True, fmap_app in Hs by (by unfold in_chain; cbn; rewrite Hp).
    pose proof (ti_entry _ _ _ Ht i b ltac:(apply elem_of_app; right; left)) as Hi.
    destruct (mem_trace_heap t !! i) as [e|] eqn:He; [|done]. injection Hi as Hi.
    rewrite (find_loop_hit _ _ _ _ _ _ _ _ e Hs).
    + by destruct (last _).
    + intros j e' Hj He'. destruct (Hptr L1 j e') as (b' & Hb' & ->); [intros x Hx; apply elem_of_app; by left|done|done|].
      by apply Hne.
    + done.
    + by rewrite <- Hp, <- Hi.
    + unfold find_fuel. rewrite length_fmap. pose proof (length_filter (in_chain (z_mem_trace_hash p)) L1).
      pose proof (ti_length _ _ _ Ht) as Hl. rewrite length_app in Hl. cbn in Hl. lia.
  - eapply find_loop_miss; [exact Hs| |].
    + intros i e Hi He. destruct (Hptr L i e) as (b & Hb & ->); [done..|]. by apply Hf.
    + unfold find_fuel. rewrite length_fmap. pose proof (length_filter (in_chain (z_mem_trace_hash p)) L).
      pose proof (ti_length _ _ _ Ht). lia.
Qed.

(** ** The operations *)

Lemma head_list_insert t h i h' :
  head_list (with_hash (<[h := i]> (mem_trace_hash t)) t) h' = if decide (h' = h) then i else head_list t h'.
Proof.
  unfold head_list. cbn. case_decide; [subst; by rewrite lookup_insert_eq|by rewrite lookup_insert_ne].
Qed.

Lemma u32_add_l a b : u32 (u32 a + b) = u32 (a + b).
Proof. unfold u32. by rewrite Zplus_mod_idemp_l. Qed.

Lemma u32_u64 a : u32 (u64 a) = u32 a.
Proof. unfold u32, u64. symmetry. apply Znumtheory.Zmod_div_mod; [lia..|]. by exists (2 ^ 32). Qed.

Lemma table_add_inv t L F p n bt :
  table_inv t L F →
  match F with
  | [] => z_mem_trace_add p n bt t = Done (t, false)
  | i :: F' => ∃ t', z_mem_trace_add p n bt t = Done (t', true) ∧ table_inv t' ((i, Tracked p (u64 n) bt false) :: L) F'
  end.
Proof.
  intros Ht. pose proof (ti_free _ _ _ Ht) as Hf. destruct F as [|i F'].
  { unfold z_mem_trace_add. by rewrite decide_True. }
  destruct Hf as (Hfl & Hi & e & He & Hf).
  pose proof (ti_nodup _ _ _ Ht) as (HndL & Hdis & HndF)%NoDup_app.
  assert (HiL : i ∉ L.*1) by (intros ?; eapply Hdis; [done|left]).
  apply NoDup_cons in HndF as (HiF & HndF).
  eexists. split.
  { unfold z_mem_trace_add. rewrite decide_False by congruence. unfold entry_at. cbn. rewrite Hfl, He. cbn. done. }
  set (h := z_mem_trace_hash p).
  split; cbn -[u32 filter].
  - apply NoDup_cons. split; [set_solver|]. apply NoDup_app. split; [done|]. split; [|done].
    intros x Hx. specialize (Hdis x Hx). set_solver.
  - intros j. pose proof (ti_dom _ _ _ Ht j) as Hd. rewrite lookup_insert_is_Some'. set_solver.
  - intros j. rewrite lookup_insert_is_Some'. intros [<-|Hj]; [|by apply (ti_range _ _ _ Ht)].
    apply (ti_range _ _ _ Ht). eauto.
  - by apply linked_frame_ne.
  - intros j e' Hj. rewrite lookup_insert_ne by set_solver. apply (ti_fresh _ _ _ Ht). by right.
  - intros h'. unfold head_list. cbn -[filter]. pose proof (ti_chain _ _ _ Ht h') as Hs.
    assert (Hne : i ∉ (filter (in_chain h') L).*1).
    { intros ((i' & b) & -> & (_ & Hin)%list_elem_of_filter)%list_elem_of_fmap. apply HiL.
      apply list_elem_of_fmap. by exists (i', b). }
    destruct (decide (h' = h)) as [->|Hh].
    + rewrite lookup_insert_eq. rewrite filter_cons_True by done. cbn -[filter]. do 2 (split; [done|]).
      eexists. rewrite lookup_insert_eq. split; [done|]. by apply linked_frame_ne.
    + rewrite lookup_insert_ne by done. rewrite filter_cons_False by (intros Hin; by apply Hh).
      by apply linked_frame_ne.
  - intros j b [[= -> ->]|Hj]%elem_of_cons.
    + rewrite lookup_insert_eq. cbn. unfold block_of. cbn. f_equal. f_equal.
      apply (ti_fresh _ _ _ Ht i); [left|done].
    + rewrite lookup_insert_ne; [by apply (ti_entry _ _ _ Ht)|]. intros ->. apply HiL.
      apply list_elem_of_fmap. by exists (j, b).
  - rewrite (ti_count _ _ _ Ht), u32_add_l. f_equal. cbn. lia.
  - rewrite (ti_size _ _ _ Ht), u32_add_l. rewrite <- (u32_add_l (u64 n)), u32_u64, u32_add_l. f_equal. unfold tk_total. lia.
Qed.

(** Taking [i] out of the chain after [l1]. *)
Lemma linked_unlink t L F h l1 i l2 e :
  table_inv t L F → linked (mem_trace_heap t) (head_list t h) (l1 ++ i :: l2) MEMTRACE_EOL → NoDup (l1 ++ i :: l2) →
  mem_trace_heap t !! i = Some e →
  let t' := unlink h (last l1) (te_next e) t in
  linked (mem_trace_heap t') (head_list t' h) (l1 ++ l2) MEMTRACE_EOL ∧
  (∀ h', h' ≠ h → head_list t' h' = head_list t h') ∧
  (∀ j, j ∉ l1 → mem_trace_heap t' !! j = mem_trace_heap t !! j) ∧
  (∀ j, block_of <$> mem_trace_heap t' !! j = block_of <$> mem_trace_heap t !! j).
Proof.
  intros Ht Hs Hnd Hi. destruct l1 as [|j l1 _] using rev_ind; cbn zeta.
  - cbn in Hs. destruct Hs as (Hh & Hne & e' & He' & Hs). simplify_eq. cbn -[head_list].
    rewrite head_list_insert, decide_True by done. split; [done|]. split; [|done].
    intros h' Hh'. by rewrite head_list_insert, decide_False.
  - rewrite last_snoc. cbn -[head_list]. rewrite <- app_assoc in Hs, Hnd. cbn in Hs, Hnd.
    apply linked_app in Hs as (mid & Hs1 & -> & Hj & ej & Hej & _ & Hne & e' & He' & Hs2). assert (e' = e) as -> by congruence.
    apply NoDup_app in Hnd as (Hnd1 & Hdis & Hnd2). apply NoDup_cons in Hnd2 as (Hj2 & Hnd2).
    assert (Hj1 : j ∉ l1) by (intros Hin; apply (Hdis _ Hin); left).
    split; [|split; [done|split]].
    + rewrite <- app_assoc. apply linked_app. exists j. split; [by apply linked_frame_alter_ne|].
      cbn. do 2 (split; [done|]). exists (with_next (te_next e) ej). split; [by rewrite lookup_alter_eq, Hej|].
      apply linked_frame_alter_ne; [set_solver|]. done.
    + intros k Hk. apply lookup_alter_ne. set_solver.
    + intros k. destruct (decide (k = j)) as [->|Hk]; [by rewrite lookup_alter_eq, Hej|by rewrite lookup_alter_ne].
Qed.

Lemma filter_split_ne h (L1 L2 : list (Z * tracked)) i b :
  filter (in_chain h) (L1 ++ (i, b) :: L2) =
  filter (in_chain h) L1 ++ (if decide (in_chain h (i, b)) then [(i, b)] else []) ++ filter (in_chain h) L2.
Proof. rewrite filter_app. f_equal. case_decide; [by rewrite filter_cons_True|by rewrite filter_cons_False]. Qed.

Lemma nodup_middle (L1 L2 : list (Z * tracked)) i b F :
  NoDup ((L1 ++ (i, b) :: L2).*1 ++ F) →
  i ∉ L1.*1 ∧ i ∉ L2.*1 ∧ i ∉ F ∧ NoDup ((L1 ++ L2).*1 ++ F) ∧ NoDup ((L1 ++ L2).*1 ++ i :: F).
Proof.
  intros Hnd. rewrite fmap_app, fmap_cons, <- app_assoc in Hnd. cbn in Hnd.
  assert (Hp : L1.*1 ++ i :: L2.*1 ++ F ≡ₚ i :: ((L1 ++ L2).*1 ++ F)).
  { rewrite fmap_app, <- app_assoc. symmetry. apply Permutation_middle. }
  rewrite Hp in Hnd. pose proof Hnd as (Hi & Hnd')%NoDup_cons. rewrite fmap_app in Hi.
  split_and!; [set_solver..|done|]. by rewrite <- Permutation_middle.
Qed.

Lemma in_filter_fst h (L : list (Z * tracked)) i : i ∈ (filter (in_chain h) L).*1 → i ∈ L.*1.
Proof.
  intros (x & -> & (_ & Hin)%list_elem_of_filter)%list_elem_of_fmap. apply list_elem_of_fmap. by exists x.
Qed.

Lemma filter_fst_NoDup h (L : list (Z * tracked)) : NoDup L.*1 → NoDup (filter (in_chain h) L).*1.
Proof.
  induction L as [|x L IH]; [done|]. rewrite fmap_cons. intros (Hx & HL)%NoDup_cons.
  destruct (decide (in_chain h x)); [rewrite filter_cons_True by done|rewrite filter_cons_False by done; auto].
  rewrite fmap_cons. apply NoDup_cons. split; [|auto]. intros ?%in_filter_fst. done.
Qed.

Lemma in_one_chain t L F h h' i :
  table_inv t L F → i ∈ (filter (in_chain h) L).*1 → i ∈ (filter (in_chain h') L).*1 → h = h'.
Proof.
  intros Ht ((i1 & b1) & -> & (Hb1 & Hin1)%list_elem_of_filter)%list_elem_of_fmap
            ((i2 & b2) & Heq & (Hb2 & Hin2)%list_elem_of_filter)%list_elem_of_fmap.
  cbn in Heq. subst i2. pose proof (ti_entry _ _ _ Ht _ _ Hin1) as He. rewrite (ti_entry _ _ _ Ht _ _ Hin2) in He.
  injection He as ->. by rewrite <- Hb1, <- Hb2.
Qed.

(** Freeing in the normal mode: the entry goes to the free list. *)
Lemma table_del_soft t L1 i b L2 F p :
  table_inv t (L1 ++ (i, b) :: L2) F → tk_ptr b = p →
  find_loop (find_fuel t) t p None (head_list t (z_mem_trace_hash p))
  = Done (last (filter (in_chain (z_mem_trace_hash p)) L1).*1, i) → tk_deleted b = false →
  ∃ t', z_mem_trace_del false p t = Done (t', true) ∧ table_inv t' (L1 ++ L2) (i :: F).
Proof.
  intros Ht Hp Hfind Hdel. set (h := z_mem_trace_hash p) in *.
  pose proof (ti_entry _ _ _ Ht i b ltac:(apply elem_of_app; right; left)) as Hi.
  destruct (mem_trace_heap t !! i) as [e|] eqn:He; [|done]. injection Hi as Hi.
  pose proof (ti_range _ _ _ Ht i ltac:(eauto)) as Hrng.
  pose proof (ti_nodup _ _ _ Ht) as Hnd. apply nodup_middle in Hnd as (Hi1 & Hi2 & HiF & Hnd & Hnd').
  pose proof (ti_chain _ _ _ Ht h) as Hs.
  assert (HC : (filter (in_chain h) (L1 ++ (i, b) :: L2)).*1 = (filter (in_chain h) L1).*1 ++ i :: (filter (in_chain h) L2).*1).
  { rewrite filter_split_ne, decide_True by (unfold in_chain; cbn; by rewrite Hp). by rewrite fmap_app. }
  rewrite HC in Hs. pose proof (ti_nodup _ _ _ Ht) as (HndL & Hdis & _)%NoDup_app.
  pose proof (filter_fst_NoDup h _ HndL) as HndC. rewrite HC in HndC.
  destruct (linked_unlink _ _ _ _ _ _ _ _ Ht Hs HndC He) as (Hseg & Hheads & Hheap & Hblk).
  set (t1 := unlink h (last (filter (in_chain h) L1).*1) (te_next e) t) in *.
  assert (Hcnt : mem_block_count t1 = mem_block_count t ∧ mem_allocated_size t1 = mem_allocated_size t ∧
                 mem_trace_free_list t1 = mem_trace_free_list t).
  { unfold t1, unlink. by destruct (last _). }
  destruct Hcnt as (Hc1 & Hc2 & Hc3).
  assert (Hdom : ∀ j, is_Some (mem_trace_heap t1 !! j) ↔ is_Some (mem_trace_heap t !! j)).
  { intros j. specialize (Hblk j). destruct (mem_trace_heap t1 !! j), (mem_trace_heap t !! j); naive_solver. }
  assert (Hout : ∀ j, j ∉ L1.*1 → mem_trace_heap t1 !! j = mem_trace_heap t !! j).
  { intros j Hj. apply Hheap. by intros ?%in_filter_fst. }
  assert (Hi' : mem_trace_heap t1 !! i = Some e) by (rewrite Hout; done).
  eexists. split.
  { unfold z_mem_trace_del. fold h. rewrite Hfind. cbn. rewrite decide_False by lia.
    unfold entry_at at 1. rewrite He. cbn. fold t1. done. }
  split; cbn -[u32 filter head_list].
  - done.
  - intros j. rewrite lookup_alter_is_Some, Hdom, (ti_dom _ _ _ Ht j), !fmap_app. cbn. set_solver.
  - intros j. rewrite lookup_alter_is_Some, Hdom. apply (ti_range _ _ _ Ht).
  - do 2 (split; [lia|]). exists (with_next (mem_trace_free_list t1) e). split; [by rewrite lookup_alter_eq, Hi'|].
    apply linked_frame_alter_ne; [done|]. cbn. rewrite Hc3. eapply linked_frame; [|exact (ti_free _ _ _ Ht)].
    intros j Hj. rewrite Hout; [done|]. intros Hj'. eapply Hdis; [|done]. rewrite fmap_app. set_solver.
  - intros j e' [->|Hj]%elem_of_cons.
    + rewrite lookup_alter_eq, Hi'. intros [= <-]. cbn. by rewrite <- Hi in Hdel.
    + rewrite lookup_alter_ne by congruence. rewrite Hout; [by apply (ti_fresh _ _ _ Ht)|].
      intros Hj'. eapply Hdis; [|done]. rewrite fmap_app. set_solver.
  - intros h'. change (head_list _ h') with (head_list t1 h').
    apply linked_frame_alter_ne; [intros ?%in_filter_fst; rewrite fmap_app in *; set_solver|].
    destruct (decide (h' = h)) as [->|Hh]; [by rewrite filter_app, fmap_app|].
    rewrite Hheads by done. pose proof (ti_chain _ _ _ Ht h') as Hs'. rewrite filter_split_ne, decide_False in Hs' by
      (unfold in_chain; cbn; rewrite Hp; by intros <-).
    rewrite filter_app. eapply linked_frame; [|exact Hs']. intros j Hj.
    destruct (decide (j ∈ (filter (in_chain h) L1).*1)) as [Hj1|]; [|by rewrite Hheap].
    exfalso. apply Hh. rewrite <- filter_app in Hj.
    eapply (in_one_chain _ _ _ _ _ j Ht); rewrite filter_split_ne, !fmap_app, !elem_of_app; [|auto].
    rewrite filter_app, fmap_app in Hj. set_solver.
  - intros j b' Hj. rewrite lookup_alter_ne.
    + rewrite Hblk. apply (ti_entry _ _ _ Ht). set_solver.
    + intros <-. assert (Hj' : i ∈ (L1 ++ L2).*1) by (apply list_elem_of_fmap; by exists (i, b')).
      rewrite fmap_app in Hj'. set_solver.
  - rewrite Hc1, (ti_count _ _ _ Ht). unfold Z.sub. rewrite u32_add_l. f_equal. rewrite !length_app. cbn. lia.
  - rewrite Hc2, (ti_size _ _ _ Ht). unfold Z.sub. rewrite u32_add_l. f_equal. rewrite !fmap_app, !tk_total_app. cbn. subst b. cbn. unfold tk_total. lia.
Qed.

(** Freeing in the hard mode: the entry is marked and stays where it is. *)
Definition marked (b : tracked) : tracked := Tracked (tk_ptr b) (tk_size b) (tk_backtrace b) true.

Lemma table_del_hard t L1 i b L2 F p :
  table_inv t (L1 ++ (i, b) :: L2) F → tk_ptr b = p →
  find_loop (find_fuel t) t p None (head_list t (z_mem_trace_hash p))
  = Done (last (filter (in_chain (z_mem_trace_hash p)) L1).*1, i) →
  ∃ t', z_mem_trace_del true p t = Done (t', true) ∧ table_inv t' (L1 ++ (i, marked b) :: L2) F.
Proof.
  intros Ht Hp Hfind.
  pose proof (ti_entry _ _ _ Ht i b ltac:(apply elem_of_app; right; left)) as Hi.
  destruct (mem_trace_heap t !! i) as [e|] eqn:He; [|done]. injection Hi as Hi.
  pose proof (ti_range _ _ _ Ht i ltac:(eauto)) as Hrng.
  pose proof (ti_nodup _ _ _ Ht) as Hnd. apply nodup_middle in Hnd as (Hi1 & Hi2 & HiF & _).
  assert (Hfst : (L1 ++ (i, marked b) :: L2).*1 = (L1 ++ (i, b) :: L2).*1) by (by rewrite !fmap_app).
  assert (Hnext : ∀ j, te_next <$> alter (with_deleted true) i (mem_trace_heap t) !! j = te_next <$> mem_trace_heap t !! j).
  { intros j. destruct (decide (j = i)) as [->|]; [by rewrite lookup_alter_eq, He|by rewrite lookup_alter_ne]. }
  eexists. split.
  { unfold z_mem_trace_del. rewrite Hfind. cbn. rewrite decide_False by lia. unfold entry_at. rewrite He. cbn. done. }
  split; cbn -[u32 filter head_list].
  - rewrite Hfst. apply (ti_nodup _ _ _ Ht).
  - intros j. rewrite lookup_alter_is_Some, Hfst. apply (ti_dom _ _ _ Ht).
  - intros j. rewrite lookup_alter_is_Some. apply (ti_range _ _ _ Ht).
  - apply (linked_frame (mem_trace_heap t)); [intros j _; apply Hnext|apply (ti_free _ _ _ Ht)].
  - intros j e' Hj. rewrite lookup_alter_ne by congruence. by apply (ti_fresh _ _ _ Ht).
  - intros h. apply (linked_frame (mem_trace_heap t)); [intros j _; apply Hnext|]. change (head_list _ h) with (head_list t h).
    pose proof (ti_chain _ _ _ Ht h) as Hs. rewrite filter_split_ne in *.
    destruct (decide (in_chain h (i, b))) as [Hc|Hc]; destruct (decide (in_chain h (i, marked b))) as [Hc'|Hc'];
      try (by exfalso); rewrite !fmap_app in *; done.
  - intros j b' Hj. destruct (decide (j = i)) as [->|Hji].
    + rewrite lookup_alter_eq, He. cbn. apply elem_of_app in Hj as [Hj|Hj].
      { exfalso. apply Hi1, list_elem_of_fmap. by exists (i, b'). }
      apply elem_of_cons in Hj as [[= ->]|Hj]; [by rewrite <- Hi|].
      exfalso. apply Hi2, list_elem_of_fmap. by exists (i, b').
    + rewrite lookup_alter_ne by done. apply (ti_entry _ _ _ Ht). set_solver.
  - rewrite (ti_count _ _ _ Ht), !length_app. done.
  - rewrite (ti_size _ _ _ Ht), !fmap_app, !tk_total_app. done.
Qed.

(** ** The table as a whole *)

(** The initialised table is empty and has room for every entry. *)
Lemma init_heap_lookup n i (h : gmap Z ZMemTraceEntry) (f : Z → ZMemTraceEntry) a :
  foldl (λ h i, <[i := f i]> h) h (seqZ a n) !! i = if decide (a ≤ i < a + n) then Some (f i) else h !! i.
Proof.
  destruct (decide (0 ≤ n)) as [Hn|].
  2: { rewrite seqZ_nil by lia. cbn. by rewrite decide_False by lia. }
  revert a h. pattern n. apply natlike_ind; [| |done].
  - intros a h. cbn. by rewrite decide_False by lia.
  - intros k Hk IH a h. rewrite seqZ_cons by lia. cbn. rewrite Z.pred_succ, IH.
    destruct (decide (i = a)) as [->|].
    + rewrite decide_False, decide_True by lia. by rewrite lookup_insert_eq.
    + rewrite lookup_insert_ne by done. repeat case_decide; try done; lia.
Qed.

Lemma init_table_inv n : 0 < n < MEMTRACE_EOL → table_inv (init_table n) [] (seqZ 0 n).
Proof.
  intros Hn. set (f i := Entry (u32 (i + 1)) 0 0 (replicate (Z.to_nat MEMTRACE_BACKTRACE_LEN) 0) false).
  assert (Hl : ∀ i, mem_trace_heap (init_table n) !! i =
            if decide (0 ≤ i < n) then Some (if decide (i = n - 1) then with_next MEMTRACE_EOL (f i) else f i) else None).
  { intros i. cbn. destruct (decide (i = n - 1)) as [->|].
    - rewrite lookup_alter_eq, (init_heap_lookup _ _ _ f). by rewrite !decide_True by lia.
    - rewrite lookup_alter_ne, (init_heap_lookup _ _ _ f) by done. by repeat case_decide. }
  assert (Hsome : ∀ i, is_Some (mem_trace_heap (init_table n) !! i) ↔ 0 ≤ i < n).
  { intros i. rewrite Hl. case_decide; split; eauto; try lia. by intros []. }
  split; cbn [fmap list_fmap app].
  - apply NoDup_seqZ.
  - intros i. rewrite Hsome, elem_of_seqZ. lia.
  - intros i. rewrite Hsome. lia.
  - assert (Hs : ∀ k, 0 ≤ k → k ≤ n → linked (mem_trace_heap (init_table n)) (if decide (k = 0) then MEMTRACE_EOL else n - k) (seqZ (n - k) k) MEMTRACE_EOL).
    { pose proof (eq_refl : MEMTRACE_EOL = 2 ^ 32 - 1) as HE. intros k Hk. pattern k. apply natlike_ind; [| |done]; clear k Hk.
      - by intros _.
      - intros k Hk IH Hkn. rewrite decide_False, seqZ_cons by lia. cbn [linked]. do 2 (split; [lia|]).
        rewrite Hl, decide_True by lia. eexists. split; [done|].
        replace (Z.succ (n - Z.succ k)) with (n - k) by lia. rewrite Z.pred_succ. specialize (IH ltac:(lia)).
        case_decide; case_decide; try lia; cbn -[u32]; [done|].
        replace (u32 (n - Z.succ k + 1)) with (n - k); [done|]. unfold u32. rewrite Z.mod_small; lia. }
    specialize (Hs n ltac:(lia) ltac:(lia)). rewrite decide_False in Hs by lia. by rewrite Z.sub_diag in Hs.
  - intros i e Hi. rewrite Hl. repeat case_decide; try done; by intros [= <-].
  - intros h. done.
  - by intros i b ?%elem_of_nil.
  - done.
  - done.
Qed.

Lemma table_add t bs room p n bt :
  table_holds t bs room →
  match room with
  | O => z_mem_trace_add p n bt t = Done (t, false)
  | S room => ∃ t', z_mem_trace_add p n bt t = Done (t', true) ∧ table_holds t' (Tracked p (u64 n) bt false :: bs) room
  end.
Proof.
  intros (L & F & Ht & <- & <-). pose proof (table_add_inv t L F p n bt Ht) as Ha. destruct F as [|i F]; [done|].
  destruct Ha as (t' & -> & Ht'). exists t'. split; [done|]. by exists ((i, Tracked p (u64 n) bt false) :: L), F.
Qed.

Lemma table_getsize t bs room p :
  table_holds t bs room →
  z_mem_trace_getsize p t = Done (match tk_find p bs with Some b => s32 (tk_size b) | None => -1 end).
Proof.
  intros (L & F & Ht & <- & <-). unfold z_mem_trace_getsize, z_mem_trace_lookup_chain.
  rewrite (lookup_loop_find _ _ _ None). pose proof (table_find t L F p Ht) as Hf.
  destruct (tk_find p L.*2) as [b|].
  - destruct Hf as (L1 & i & L2 & -> & Hp & _ & ->). cbn.
    pose proof (ti_entry _ _ _ Ht i b ltac:(apply elem_of_app; right; left)) as Hi.
    destruct (mem_trace_heap t !! i) as [e|] eqn:He; [|done]. injection Hi as <-.
    pose proof (ti_range _ _ _ Ht i ltac:(eauto)). rewrite decide_False by lia. unfold entry_at. by rewrite He.
  - destruct Hf as (prev & ->). cbn. done.
Qed.

Lemma table_del hard t bs room p :
  table_holds t bs room → (hard = false → ∀ b, b ∈ bs → tk_deleted b = false) →
  match tk_find p bs with
  | None => z_mem_trace_del hard p t = Done (t, false)
  | Some b => ∃ t', z_mem_trace_del hard p t = Done (t', true) ∧
      table_holds t' (if hard then tk_mark p bs else tk_remove p bs) (if hard then room else S room)
  end.
Proof.
  intros (L & F & Ht & <- & <-) Hlive. pose proof (table_find t L F p Ht) as Hf.
  destruct (tk_find p L.*2) as [b|].
  - destruct Hf as (L1 & i & L2 & -> & Hp & Hadj & Hfind). destruct hard.
    + destruct (table_del_hard _ _ _ _ _ _ _ Ht Hp Hfind) as (t' & -> & Ht'). exists t'. split; [done|].
      eexists _, F. split; [done|]. split; [|done]. unfold tk_mark. by rewrite Hadj, fmap_app.
    + destruct (table_del_soft _ _ _ _ _ _ _ Ht Hp Hfind) as (t' & -> & Ht').
      { apply Hlive; [done|]. rewrite fmap_app. set_solver. }
      exists t'. split; [done|]. eexists _, (i :: F). split; [done|]. split; [|done].
      unfold tk_remove. by rewrite Hadj, fmap_app.
  - destruct Hf as (prev & Hfind). unfold z_mem_trace_del. rewrite Hfind. cbn. by rewrite decide_True.
Qed.

Lemma table_counts t bs room :
  table_holds t bs room → mem_block_count t = u32 (zlen bs) ∧ mem_allocated_size t = u32 (tk_total bs).
Proof.
  intros (L & F & Ht & <- & _). rewrite length_fmap. split; [apply (ti_count _ _ _ Ht)|apply (ti_size _ _ _ Ht)].
Qed.

(** ** Sessions with the table *)

Inductive table_op : Type :=
| OpAdd (p n : Z) (bt : list Z)
| OpDel (p : Z)
| OpSize (p : Z).

Definition table_call (hard : bool) (o : table_op) (t : table) : outcome (table * Z) :=
  match o with
  | OpAdd p n bt => '(t, r) ← z_mem_trace_add p n bt t; Done (t, Z.b2z r)
  | OpDel p => '(t, r) ← z_mem_trace_del hard p t; Done (t, Z.b2z r)
  | OpSize p => n ← z_mem_trace_getsize p t; Done (t, n)
  end.

Definition table_spec (hard : bool) (o : table_op) (bs : list tracked) (room : nat) : list tracked * nat * Z :=
  match o with
  | OpAdd p n bt =>
      match room with O => (bs, O, 0) | S room => (Tracked p (u64 n) bt false :: bs, room, 1) end
  | OpDel p =>
      match tk_find p bs with
      | None => (bs, room, 0)
      | Some _ => if hard then (tk_mark p bs, room, 1) else (tk_remove p bs, S room, 1)
      end
  | OpSize p => (bs, room, match tk_find p bs with Some b => s32 (tk_size b) | None => -1 end)
  end.

Fixpoint table_session (hard : bool) (os : list table_op) (t : table) : outcome (table * list Z) :=
  match os with
  | [] => Done (t, [])
  | o :: os => '(t, r) ← table_call hard o t; '(t, rs) ← table_session hard os t; Done (t, r :: rs)
  end.

Fixpoint table_spec_session (hard : bool) (os : list table_op) (bs : list tracked) (room : nat) : list tracked * list Z :=
  match os with
  | [] => (bs, [])
  | o :: os =>
      let '(bs, room, r) := table_spec hard o bs room in
      let '(bs, rs) := table_spec_session hard os bs room in (bs, r :: rs)
  end.

Definition all_live (hard : bool) (bs : list tracked) : Prop := hard = false → ∀ b, b ∈ bs → tk_deleted b = false.

Lemma tk_remove_incl p bs : tk_remove p bs ⊆ bs.
Proof.
  induction bs as [|b bs IH]; cbn; [done|]. case_decide; intros x Hx; [by right|].
  apply elem_of_cons in Hx as [->|]; [left|right; by apply IH].
Qed.

Lemma table_call_spec hard o t bs room :
  table_holds t bs room → all_live hard bs →
  let '(bs', room', r) := table_spec hard o bs room in
  returns (table_call hard o t) (λ '(t', r'), r' = r ∧ table_holds t' bs' room') ∧ all_live hard bs'.
Proof.
  intros Ht Hl. destruct o as [p n bt|p|p]; cbn [table_call table_spec].
  - pose proof (table_add t bs room p n bt Ht) as Ha. destruct room as [|room].
    + by rewrite Ha.
    + destruct Ha as (t' & -> & Ht'). split; [done|]. intros Hh b [->|Hb]%elem_of_cons; [done|by apply Hl].
  - pose proof (table_del hard t bs room p Ht Hl) as Hd. destruct (tk_find p bs) as [b|]; [|by rewrite Hd].
    destruct Hd as (t' & Hd & Ht'). destruct hard; rewrite Hd; (split; [done|]); [done|].
    intros Hh b' Hb'%tk_remove_incl. by apply Hl.
  - by rewrite (table_getsize _ _ _ _ Ht).
Qed.

(** C28: The chained hash table and its free list of [n] entries behave like a list of the
    blocks, the newest first: adding fails when there are [n] of them; deleting and asking for
    the size find the newest block with the pointer; in the hard mode deleted blocks stay.
    The counters are the number of the blocks and the sum of their sizes. *)
Theorem table_session_spec n hard os :
  0 < n < MEMTRACE_EOL →
  let '(bs, rs) := table_spec_session hard os [] (Z.to_nat n) in
  returns (table_session hard os (init_table n)) (λ '(t, rs'),
    rs' = rs ∧ mem_block_count t = u32 (zlen bs) ∧ mem_allocated_size t = u32 (tk_total bs)).
Proof.
  intros Hn. assert (Ht : table_holds (init_table n) [] (Z.to_nat n)).
  { exists [], (seqZ 0 n). split; [by apply init_table_inv|]. split; [done|]. apply length_seqZ. }
  assert (Hl : all_live hard []) by (by intros _ b ?%elem_of_nil).
  revert Ht Hl. generalize (init_table n) ([] : list tracked) (Z.to_nat n). clear n Hn.
  induction os as [|o os IH]; intros t bs room Ht Hl; cbn.
  - split; [done|]. by eapply table_counts.
  - pose proof (table_call_spec hard o t bs room Ht Hl) as Hc.
    destruct (table_spec hard o bs room) as [[bs' room'] r]. destruct Hc as (Hc & Hl').
    apply returns_Done in Hc as ([t' r'] & -> & -> & Ht'). cbn. specialize (IH t' bs' room' Ht' Hl').
    destruct (table_spec_session hard os bs' room') as [bs'' rs]. apply returns_bind.
    eapply returns_mono; [exact IH|]. by intros [t'' rs'] (-> & ?).
Qed.

Lemma table_session_spec_witness :
  0 < 2 < MEMTRACE_EOL ∧
  returns (table_session false [OpAdd 16 5 [1]; OpAdd 262160 7 []; OpAdd 32 1 []; OpSize 16; OpDel 16; OpSize 16; OpAdd 32 1 []]
                         (init_table 2)) (λ '(t, rs'),
    rs' = [1; 1; 0; 5; 1; -1; 1] ∧ mem_block_count t = 2 ∧ mem_allocated_size t = 8).
Proof.
  split; [by vm_compute|].
  exact (table_session_spec 2 false [OpAdd 16 5 [1]; OpAdd 262160 7 []; OpAdd 32 1 []; OpSize 16; OpDel 16; OpSize 16; OpAdd 32 1 []]
           ltac:(by vm_compute)).
Defined.
