(* ===== verification/MemTraceSpec.v ===== *)
(** * The memory tracer is transparent

    The wrappers of memtrace.c against an allocator of blocks that knows nothing of tables
    and canaries; what they detect; and runs in which they do something else. *)

From S2P Require Import Prelude Heap PacketBuf PacketSpec Dump MemTrace MemTraceTable.
Open Scope Z_scope.

(** ** Memory as disjoint blocks *)

Definition bytes_at (m : cmem) (a : Z) (l : list Z) : Prop :=
  ∀ i v, l !! i = Some v → cm_bytes m !! (a + Z.of_nat i) = Some v.

Lemma put_lookup bs a l i :
  put bs a l !! i = if decide (a ≤ i < a + zlen l) then l !! Z.to_nat (i - a) else bs !! i.
Proof.
  revert a. induction l as [|v l IH]; intros a; cbn [put length].
  - by rewrite decide_False by lia.
  - destruct (decide (i = a)) as [->|Hi].
    + rewrite lookup_insert_eq, decide_True by lia. by rewrite Z.sub_diag.
    + rewrite lookup_insert_ne, IH by done. destruct (decide (a + 1 ≤ i < a + 1 + zlen l)).
      * rewrite decide_True by lia. replace (Z.to_nat (i - a)) with (S (Z.to_nat (i - (a + 1)))) by lia. done.
      * by rewrite decide_False by lia.
Qed.

Lemma cut_lookup bs a n i : cut bs a n !! i = if decide (a ≤ i < a + Z.of_nat n) then None else bs !! i.
Proof.
  revert a. induction n as [|n IH]; intros a; cbn [cut].
  - by rewrite decide_False by lia.
  - destruct (decide (i = a)) as [->|Hi].
    + by rewrite lookup_delete_eq, decide_True by lia.
    + rewrite lookup_delete_ne, IH by done. repeat case_decide; done || lia.
Qed.

Lemma bytes_at_put_same bs cb a l : bytes_at (CMem (put bs a l) cb) a l.
Proof.
  intros i v Hi. cbn. pose proof (lookup_lt_Some _ _ _ Hi). rewrite put_lookup, decide_True by lia.
  by replace (Z.to_nat (a + Z.of_nat i - a)) with i by lia.
Qed.

Lemma bytes_at_put_other bs cb cb' a l b k :
  a + zlen l ≤ b ∨ b + zlen k ≤ a → bytes_at (CMem bs cb) b k → bytes_at (CMem (put bs a l) cb') b k.
Proof.
  intros Hd Hk i v Hi. cbn. pose proof (lookup_lt_Some _ _ _ Hi). rewrite put_lookup, decide_False by lia. by apply Hk.
Qed.

Lemma bytes_at_cut_other bs cb cb' a n b k :
  a + Z.of_nat n ≤ b ∨ b + zlen k ≤ a → bytes_at (CMem bs cb) b k → bytes_at (CMem (cut bs a n) cb') b k.
Proof.
  intros Hd Hk i v Hi. cbn. pose proof (lookup_lt_Some _ _ _ Hi). rewrite cut_lookup, decide_False by lia. by apply Hk.
Qed.

Lemma bytes_at_app m a l k : bytes_at m a (l ++ k) ↔ bytes_at m a l ∧ bytes_at m (a + zlen l) k.
Proof.
  split.
  - intros H. split; intros i v Hi; [apply H; by apply lookup_app_l_Some|].
    replace (a + zlen l + Z.of_nat i) with (a + Z.of_nat (length l + i)) by lia. apply H.
    rewrite lookup_app_r by lia. by replace (length l + i - length l)%nat with i by lia.
  - intros [Hl Hk] i v [Hi|[Hle Hi]]%lookup_app_Some; [by apply Hl|].
    replace (a + Z.of_nat i) with (a + zlen l + Z.of_nat (i - length l)) by lia. by apply Hk.
Qed.

Lemma mem_read_bytes m a l : bytes_at m a l → mem_read m a (zlen l) = Done l.
Proof.
  intros H. unfold mem_read.
  replace (mapM (λ i, cm_bytes m !! i) (seqZ a (zlen l))) with (Some l); [done|].
  symmetry. revert a H. induction l as [|v l IH]; intros a H; [done|].
  cbn [length]. rewrite seqZ_cons by lia. cbn. pose proof (H 0%nat v eq_refl) as Hv. rewrite Z.add_0_r in Hv.
  rewrite Hv. cbn. replace (Z.pred (Z.of_nat (S (length l)))) with (zlen l) by lia. rewrite IH; [done|].
  intros i w Hi. replace (Z.succ a + Z.of_nat i) with (a + Z.of_nat (S i)) by lia. by apply H.
Qed.

(** The blocks of the C library with their contents. *)
Record mem_holds (m : cmem) (B : gmap Z (list Z)) : Prop := {
  mh_blocks : ∀ a, cm_blocks m !! a = (λ l, zlen l) <$> B !! a;
  mh_bytes : ∀ a l, B !! a = Some l → bytes_at m a l;
  mh_disjoint : ∀ a b l k, a ≠ b → B !! a = Some l → B !! b = Some k → a + zlen l ≤ b ∨ b + zlen k ≤ a;
  mh_range : ∀ a l, B !! a = Some l → 0 < a ∧ a + zlen l ≤ 2 ^ 64
}.

(** An address that the C library may answer when it is asked for [n] bytes. *)
Definition libc_fresh (blocks : gmap Z Z) (a n : Z) : Prop :=
  blocks !! a = None ∧ 0 < a ∧ a + n ≤ 2 ^ 64 ∧ ∀ b k, blocks !! b = Some k → a + n ≤ b ∨ b + k ≤ a.

(** A part of a block is read, and written. *)
Lemma holds_read m B a x y z off n :
  mem_holds m B → B !! a = Some (x ++ y ++ z) → off = a + zlen x → n = zlen y → mem_read m off n = Done y.
Proof.
  intros Hm Ha -> ->. apply mem_read_bytes. pose proof (mh_bytes _ _ Hm _ _ Ha) as H.
  apply bytes_at_app in H as (_ & H). by apply bytes_at_app in H as (H & _).
Qed.

Lemma holds_update m B a l l' bs :
  mem_holds m B → B !! a = Some l → length l' = length l →
  (∀ b k, b ≠ a → B !! b = Some k → bytes_at (CMem bs (cm_blocks m)) b k) → bytes_at (CMem bs (cm_blocks m)) a l' →
  mem_holds (CMem bs (cm_blocks m)) (<[a := l']> B).
Proof.
  intros Hm Ha Hlen Hoth Hnew. split.
  - intros b. cbn. rewrite (mh_blocks _ _ Hm). destruct (decide (b = a)) as [->|].
    + rewrite lookup_insert_eq, Ha. cbn. by rewrite Hlen.
    + by rewrite lookup_insert_ne.
  - intros b k Hb. destruct (decide (b = a)) as [->|].
    + rewrite lookup_insert_eq in Hb. by simplify_eq.
    + rewrite lookup_insert_ne in Hb by done. by apply Hoth.
  - intros b c k1 k2 Hne Hb Hc. rewrite lookup_insert_Some in Hb, Hc.
    assert (Hget : ∀ d k, a = d ∧ l' = k ∨ a ≠ d ∧ B !! d = Some k → ∃ k', B !! d = Some k' ∧ zlen k' = zlen k).
    { intros d k [[-> ->]|[_ Hd]]; eauto. }
    destruct (Hget _ _ Hb) as (k1' & Hb' & <-), (Hget _ _ Hc) as (k2' & Hc' & <-). by eapply (mh_disjoint _ _ Hm).
  - intros b k. rewrite lookup_insert_Some. intros [[-> <-]|[_ Hb]]; [|by eapply (mh_range _ _ Hm)].
    rewrite Hlen. by eapply (mh_range _ _ Hm).
Qed.

Lemma holds_write m B a x y z off l :
  mem_holds m B → B !! a = Some (x ++ y ++ z) → off = a + zlen x → length l = length y →
  returns (mem_write m off l) (λ m', mem_holds m' (<[a := x ++ l ++ z]> B)).
Proof.
  intros Hm Ha -> Hlen. unfold mem_write.
  rewrite (holds_read m B a x y z) by (done || lia). cbn.
  pose proof (mh_bytes _ _ Hm _ _ Ha) as H. apply bytes_at_app in H as (Hx & H). apply bytes_at_app in H as (_ & Hz).
  apply (holds_update m B a (x ++ y ++ z)); [done..| | |].
  - rewrite !length_app. lia.
  - intros b k Hb Hk. apply bytes_at_put_other with (cb := cm_blocks m); [|by destruct m; apply (mh_bytes _ _ Hm)].
    pose proof (mh_disjoint _ _ Hm a b _ _ ltac:(done) Ha Hk) as Hd. rewrite !length_app in Hd. lia.
  - apply bytes_at_app. split; [|apply bytes_at_app; split].
    + apply bytes_at_put_other with (cb := cm_blocks m); [lia|by destruct m].
    + apply bytes_at_put_same.
    + apply bytes_at_put_other with (cb := cm_blocks m); [lia|]. rewrite Hlen. by destruct m.
Qed.

(** The same for a block that is a sequence of parts. *)
Lemma holds_write_seg m B a segs k y off l :
  mem_holds m B → B !! a = Some (concat segs) → segs !! k = Some y → off = a + zlen (concat (take k segs)) →
  length l = length y → returns (mem_write m off l) (λ m', mem_holds m' (<[a := concat (<[k := l]> segs)]> B)).
Proof.
  intros Hm Ha Hk Hoff Hlen. pose proof (lookup_lt_Some _ _ _ Hk).
  rewrite insert_take_drop by done. rewrite concat_app. cbn [concat].
  apply (holds_write m B a _ y); [done| |done..]. by rewrite <- (take_drop_middle _ _ _ Hk), concat_app in Ha.
Qed.

Lemma holds_read_seg m B a segs k y off n :
  mem_holds m B → B !! a = Some (concat segs) → segs !! k = Some y → off = a + zlen (concat (take k segs)) →
  n = zlen y → mem_read m off n = Done y.
Proof.
  intros Hm Ha Hk Hoff Hn. apply (holds_read m B a (concat (take k segs)) y (concat (drop (S k) segs))); try done.
  by rewrite <- (take_drop_middle _ _ _ Hk), concat_app in Ha.
Qed.

Lemma holds_new m B a l :
  mem_holds m B → libc_fresh (cm_blocks m) a (zlen l) → mem_holds (libc_new m a l) (<[a := l]> B).
Proof.
  intros Hm (Hnone & Hpos & Htop & Hdis). unfold libc_new. rewrite decide_False by lia.
  assert (HB : B !! a = None). { rewrite (mh_blocks _ _ Hm) in Hnone. by destruct (B !! a). }
  assert (Hd : ∀ b k, B !! b = Some k → a + zlen l ≤ b ∨ b + zlen k ≤ a).
  { intros b k Hb. apply Hdis. by rewrite (mh_blocks _ _ Hm), Hb. }
  split.
  - intros b. cbn. destruct (decide (b = a)) as [->|]; [by rewrite !lookup_insert_eq|].
    rewrite !lookup_insert_ne by done. apply (mh_blocks _ _ Hm).
  - intros b k. rewrite lookup_insert_Some. intros [[-> <-]|[_ Hb]]; [apply bytes_at_put_same|].
    apply bytes_at_put_other with (cb := cm_blocks m); [by apply Hd|]. destruct m. by apply (mh_bytes _ _ Hm).
  - intros b c k1 k2 Hne. rewrite !lookup_insert_Some. intros [[-> <-]|[_ Hb]] [[-> <-]|[_ Hc]]; [done| | |].
    + by apply Hd.
    + destruct (Hd _ _ Hb); auto.
    + by eapply (mh_disjoint _ _ Hm).
  - intros b k. rewrite lookup_insert_Some. intros [[-> <-]|[_ Hb]]; [done|by eapply (mh_range _ _ Hm)].
Qed.

Lemma holds_free m B a l :
  mem_holds m B → B !! a = Some l → returns (libc_free m a) (λ m', mem_holds m' (delete a B)).
Proof.
  intros Hm Ha. unfold libc_free. pose proof (mh_range _ _ Hm _ _ Ha). rewrite decide_False by lia.
  rewrite (mh_blocks _ _ Hm), Ha. cbn. split.
  - intros b. cbn. destruct (decide (b = a)) as [->|]; [by rewrite !lookup_delete_eq|].
    rewrite !lookup_delete_ne by done. apply (mh_blocks _ _ Hm).
  - intros b k. rewrite lookup_delete_Some. intros [Hne Hb]. rewrite Nat2Z.id.
    apply bytes_at_cut_other with (cb := cm_blocks m); [by eapply (mh_disjoint _ _ Hm)|].
    destruct m. by apply (mh_bytes _ _ Hm).
  - intros b c k1 k2 Hne. rewrite !lookup_delete_Some. intros [_ Hb] [_ Hc]. by eapply (mh_disjoint _ _ Hm).
  - intros b k. rewrite lookup_delete_Some. intros [_ Hb]. by eapply (mh_range _ _ Hm).
Qed.

Lemma holds_realloc `{FreshMem} m B p l n a :
  mem_holds m B → B !! p = Some l → 0 ≤ n → libc_fresh (delete p (cm_blocks m)) a n →
  returns (libc_realloc m p n a) (λ m', mem_holds m' (<[a := Prelude.realloc l n]> (delete p B))).
Proof.
  intros Hm Hp Hn Hfr. pose proof (mh_range _ _ Hm _ _ Hp). unfold libc_realloc. rewrite decide_False by lia.
  rewrite (mh_blocks _ _ Hm), Hp. cbn [fmap option_fmap option_map]. destruct Hfr as (Ha & Hpos & Hfr). rewrite decide_False by lia.
  rewrite (holds_read m B p [] (take (Z.to_nat n) l) (drop (Z.to_nat n) l)); [|done| |cbn; lia|rewrite length_take; lia].
  2: { cbn. by rewrite take_drop. }
  rewrite Done_bind. apply returns_bind. eapply returns_mono; [by eapply holds_free|]. cbv beta. intros m' Hm'.
  replace (take (Z.to_nat n) l ++ _) with (Prelude.realloc l n).
  2: { unfold Prelude.realloc. f_equal. rewrite length_take. destruct (decide (length l ≤ Z.to_nat n)%nat).
       - by rewrite Nat.min_r by lia.
       - replace (Z.to_nat n - length l)%nat with 0%nat by lia.
         by replace (Z.to_nat n - Z.to_nat n `min` length l)%nat with 0%nat by lia. }
  apply returns_ret, holds_new; [done|]. rewrite realloc_length by lia.
  assert (Hb : ∀ b, cm_blocks m' !! b = delete p (cm_blocks m) !! b).
  { intros b. rewrite (mh_blocks _ _ Hm'). destruct (decide (b = p)) as [->|]; [by rewrite !lookup_delete_eq|].
    rewrite !lookup_delete_ne by done. by rewrite (mh_blocks _ _ Hm). }
  split; [by rewrite Hb|]. split; [done|]. split; [tauto|]. intros b k. rewrite Hb. apply Hfr.
Qed.

(** ** Blocks with canaries *)

Definition shift (can : bool) : Z := if can then sizeof_canary else 0.

Definition fill4 : list Z := replicate 4 MEMTRACE_CANARY_FILL.

Definition canary (n : Z) : list (list Z) := [le_bytes 8 (u64 n); le_bytes 8 (u64 (- n)); fill4; fill4].

(** The contents of a block of the C library for the contents [l] that the user sees. *)
Definition image (can : bool) (l rest : list Z) : list Z :=
  if can then concat (canary (zlen l) ++ [l] ++ canary (zlen l) ++ [rest]) else l ++ rest.

Lemma canary_length n : zlen (concat (canary n)) = 24.
Proof. cbn -[le_bytes]. by rewrite !length_app, !le_bytes_length. Qed.

Lemma image_length can l rest : zlen (image can l rest) = zlen l + 2 * shift can + zlen rest.
Proof.
  unfold image. destruct can; cbn [shift].
  - rewrite !concat_app, !length_app. pose proof (canary_length (zlen l)). cbn [concat]. rewrite !length_app. cbn.
    unfold sizeof_canary, MEMTRACE_CANARY_SIZE. lia.
  - rewrite length_app. lia.
Qed.

Lemma split_list {A} (l : list A) n : 0 ≤ n ≤ zlen l → ∃ x y, l = x ++ y ∧ zlen x = n.
Proof.
  intros Hn. exists (take (Z.to_nat n) l), (drop (Z.to_nat n) l). rewrite take_drop, length_take. split; [done|lia].
Qed.

(** Lengths of the parts that the addresses are computed from. *)
Ltac lens :=
  cbn [take concat app length insert list_insert]; rewrite ?length_app, ?le_bytes_length; cbn [length] in *; unfold sizeof_canary, MEMTRACE_CANARY_SIZE in *; rewrite ?length_app in *;
  change (length fill4) with 4%nat in *; lia.

(** The next write to a block that is a sequence of parts. *)
Ltac write_next Hm k y :=
  apply returns_bind; eapply returns_mono;
    [eapply (holds_write_seg _ _ _ _ k y _ _ Hm); [apply lookup_insert_eq|done|lens|lens]|];
  clear Hm; cbv beta; rewrite insert_insert_eq; intros ? Hm.

(** What z_mem_trace_fill_canaries does to a block that has room for the canaries. *)
Lemma fill_canaries_ok s B a l n :
  mem_holds (tr_mem s) B → B !! a = Some l → 0 ≤ n < 2 ^ 31 → n + 2 * shift (mem_trace_canaries s) ≤ zlen l →
  let k := Z.to_nat (shift (mem_trace_canaries s)) in
  returns (z_mem_trace_fill_canaries a n s) (λ '(s', p), ∃ m', s' = with_mem m' s ∧ p = a + shift (mem_trace_canaries s) ∧
    mem_holds m' (<[a := image (mem_trace_canaries s) (take (Z.to_nat n) (drop k l)) (drop (Z.to_nat n + 2 * k) l)]> B)).
Proof.
  intros Hm Ha Hn Hlen. cbn zeta. pose proof (mh_range _ _ Hm _ _ Ha) as Hr. unfold z_mem_trace_fill_canaries.
  rewrite decide_False by lia. destruct (mem_trace_canaries s); cbn [shift] in *.
  2: { cbn. exists (tr_mem s). split; [by destruct s|]. split; [lia|]. unfold image.
       rewrite Nat.add_0_r, take_drop, insert_id; done. }
  rewrite s32_small by lia.
  destruct (split_list l 24) as (x & l' & -> & Hx); [lens|].
  destruct (split_list l' n) as (mid & l'' & -> & Hmid); [rewrite length_app in Hlen; lens|].
  destruct (split_list l'' 24) as (y & rest & -> & Hy); [rewrite !length_app in Hlen; lens|].
  assert (Hx' : ∃ x1 x2 x3, x = x1 ++ x2 ++ x3 ∧ zlen x1 = 8 ∧ zlen x2 = 8 ∧ zlen x3 = 8).
  { destruct (split_list x 8) as (x1 & x' & -> & ?); [lia|]. rewrite length_app in Hx.
    destruct (split_list x' 8) as (x2 & x3 & -> & ?); [lia|]. rewrite length_app in Hx. exists x1, x2, x3. split; [done|lia]. }
  assert (Hy' : ∃ y1 y2 y3, y = y1 ++ y2 ++ y3 ∧ zlen y1 = 8 ∧ zlen y2 = 8 ∧ zlen y3 = 8).
  { destruct (split_list y 8) as (y1 & y' & -> & ?); [lia|]. rewrite length_app in Hy.
    destruct (split_list y' 8) as (y2 & y3 & -> & ?); [lia|]. rewrite length_app in Hy. exists y1, y2, y3. split; [done|lia]. }
  destruct Hx' as (x1 & x2 & x3 & -> & Hx1 & Hx2 & Hx3), Hy' as (y1 & y2 & y3 & -> & Hy1 & Hy2 & Hy3).
  rewrite !length_app in Hr. replace (u64 (a + sizeof_canary + n)) with (a + 24 + n) by (rewrite u64_small; lens).
  assert (Hsegs : B !! a = Some (concat [x1; x2; x3; mid; y1; y2; y3; rest])).
  { rewrite Ha. cbn. by rewrite app_nil_r, <- !app_assoc. }
  change (replicate (Z.to_nat (4 * MEMTRACE_CANARY_SIZE)) MEMTRACE_CANARY_FILL) with (fill4 ++ fill4).
  apply returns_bind. eapply returns_mono; [apply (holds_write_seg _ _ _ _ 2%nat x3 _ _ Hm Hsegs); [done|lens|lens]|].
  cbv beta. intros m1 Hm1. write_next Hm1 6%nat y3. write_next Hm1 4%nat y1. write_next Hm1 0%nat x1.
  write_next Hm1 5%nat y2. write_next Hm1 1%nat x2. apply returns_ret. eexists. split; [done|]. split; [lens|].
  replace (image _ _ _) with (concat (<[1%nat:=le_bytes 8 (u64 (- n))]> (<[5%nat:=le_bytes 8 (u64 (- n))]>
    (<[0%nat:=le_bytes 8 (u64 n)]> (<[4%nat:=le_bytes 8 (u64 n)]> (<[6%nat:=fill4 ++ fill4]> (<[2%nat:=fill4 ++ fill4]> [x1; x2; x3; mid; y1; y2; y3; rest]))))))); [done|].
  assert (Hu : take (Z.to_nat n) (drop (Z.to_nat sizeof_canary) ((x1 ++ x2 ++ x3) ++ mid ++ (y1 ++ y2 ++ y3) ++ rest)) = mid).
  { rewrite drop_app_length' by lens. by rewrite take_app_length' by lia. }
  assert (Hr' : drop (Z.to_nat n + 2 * Z.to_nat sizeof_canary) ((x1 ++ x2 ++ x3) ++ mid ++ (y1 ++ y2 ++ y3) ++ rest) = rest).
  { rewrite (app_assoc mid), (app_assoc (x1 ++ x2 ++ x3)). apply drop_app_length'. lens. }
  rewrite Hu, Hr'. unfold image, canary. rewrite Hmid. cbn -[le_bytes fill4]. by rewrite app_nil_r, <- !app_assoc.
Qed.

(** What z_mem_trace_check_canaries does with a block whose first size is intact. *)
Lemma check_canaries_eq s B a b2 b3 b4 l a1 a2 a3 a4 rest :
  mem_trace_canaries s = true → mem_holds (tr_mem s) B →
  B !! a = Some (concat [le_bytes 8 (u64 (zlen l)); b2; b3; b4; l; a1; a2; a3; a4; rest]) →
  length b2 = 8%nat → length b3 = 4%nat → length b4 = 4%nat →
  length a1 = 8%nat → length a2 = 8%nat → length a3 = 4%nat → length a4 = 4%nat →
  z_mem_trace_check_canaries (a + sizeof_canary) s =
  (_ ← require (zlen l = u64 (- le_value b2)) AssertFailed;
   _ ← require (le_value a1 = zlen l) AssertFailed;
   _ ← require (le_value a2 = le_value b2) AssertFailed;
   _ ← require (le_value b3 = le_value a3 ∧ le_value b3 = MEMTRACE_CANARY_CHECK) AssertFailed;
   _ ← require (le_value b4 = le_value a4 ∧ le_value b4 = MEMTRACE_CANARY_CHECK) AssertFailed;
   Done a).
Proof.
  intros Hcan Hm Ha Hb2 Hb3 Hb4 Ha1 Ha2 Ha3 Ha4. pose proof (mh_range _ _ Hm _ _ Ha) as Hr.
  cbn [concat] in Hr. rewrite !length_app, le_bytes_length in Hr.
  assert (Hr8 : ∀ k y off, [le_bytes 8 (u64 (zlen l)); b2; b3; b4; l; a1; a2; a3; a4; rest] !! k = Some y →
            off = a + zlen (concat (take k [le_bytes 8 (u64 (zlen l)); b2; b3; b4; l; a1; a2; a3; a4; rest])) →
            zlen y = 8 → read_u64 (tr_mem s) off = Done (le_value y)).
  { intros k y off Hk Hoff Hy. unfold read_u64. by erewrite (holds_read_seg _ _ _ _ k y off 8) by done. }
  assert (Hr4 : ∀ k y off, [le_bytes 8 (u64 (zlen l)); b2; b3; b4; l; a1; a2; a3; a4; rest] !! k = Some y →
            off = a + zlen (concat (take k [le_bytes 8 (u64 (zlen l)); b2; b3; b4; l; a1; a2; a3; a4; rest])) →
            zlen y = 4 → read_u32 (tr_mem s) off = Done (le_value y)).
  { intros k y off Hk Hoff Hy. unfold read_u32. by erewrite (holds_read_seg _ _ _ _ k y off 4) by done. }
  unfold z_mem_trace_check_canaries. rewrite decide_False by lens. rewrite Hcan.
  rewrite (Hr8 0%nat (le_bytes 8 (u64 (zlen l))) (a + sizeof_canary - sizeof_canary)); [|done|lens|lens]. cbn [mbind outcome_bind].
  replace (le_value (le_bytes 8 (u64 (zlen l)))) with (zlen l).
  2: { rewrite le_value_le_bytes. unfold u64. rewrite Z.mod_mod by lia. rewrite Z.mod_small; [done|lia]. }
  rewrite (Hr8 1%nat b2 (a + sizeof_canary - sizeof_canary + 8)); [|done|lens|lia]. cbn [mbind outcome_bind].
  destruct (require (zlen l = u64 (- le_value b2)) AssertFailed); [|done]. cbn [mbind outcome_bind].
  assert (Hpa : u64 (a + sizeof_canary + zlen l) = a + 24 + zlen l) by (rewrite u64_small; lens). rewrite Hpa.
  rewrite (Hr8 5%nat a1 (a + 24 + zlen l)); [|done|lens|lia]. cbn [mbind outcome_bind].
  destruct (require (le_value a1 = zlen l) AssertFailed); [|done]. cbn [mbind outcome_bind].
  rewrite (Hr8 6%nat a2 (a + 24 + zlen l + 8)); [|done|lens|lia]. cbn [mbind outcome_bind].
  destruct (require (le_value a2 = le_value b2) AssertFailed); [|done]. cbn [mbind outcome_bind].
  change (Z.to_nat MEMTRACE_CANARY_SIZE) with 2%nat. cbn [canary_loop].
  rewrite (Hr4 2%nat b3 (a + sizeof_canary - sizeof_canary + 16 + 4 * 0)); [|done|lens|lia]. cbn [mbind outcome_bind].
  rewrite (Hr4 7%nat a3 (a + 24 + zlen l + 16 + 4 * 0)); [|done|lens|lia]. cbn [mbind outcome_bind].
  destruct (require (le_value b3 = le_value a3 ∧ _) AssertFailed); [|done]. cbn [mbind outcome_bind].
  rewrite (Hr4 3%nat b4 (a + sizeof_canary - sizeof_canary + 16 + 4 * (0 + 1))); [|done|lens|lia]. cbn [mbind outcome_bind].
  rewrite (Hr4 8%nat a4 (a + 24 + zlen l + 16 + 4 * (0 + 1))); [|done|lens|lia]. cbn [mbind outcome_bind].
  destruct (require (le_value b4 = le_value a4 ∧ _) AssertFailed); [|done]. cbn. f_equal. lens.
Qed.

Lemma u64_neg_value n : 0 ≤ n < 2 ^ 31 → n = u64 (- le_value (le_bytes 8 (u64 (- n)))).
Proof.
  intros Hn. rewrite le_value_le_bytes. unfold u64. change (256 ^ Z.of_nat 8) with (2 ^ 64). rewrite Z.mod_mod by lia.
  destruct (decide (n = 0)) as [->|]; [done|]. rewrite (Z.mod_opp_l_nz n) by (rewrite ?Z.mod_small; lia).
  rewrite (Z.mod_small n) by lia. symmetry. rewrite Z.mod_opp_l_nz; rewrite ?Z.mod_small; lia.
Qed.

Lemma check_canaries_ok s B a l rest :
  mem_holds (tr_mem s) B → B !! a = Some (image (mem_trace_canaries s) l rest) → zlen l < 2 ^ 31 →
  z_mem_trace_check_canaries (a + shift (mem_trace_canaries s)) s = Done a.
Proof.
  intros Hm Ha Hl. destruct (mem_trace_canaries s) eqn:Hcan; cbn [shift].
  - cbn [image canary app] in Ha. rewrite (check_canaries_eq _ _ _ _ _ _ _ _ _ _ _ _ Hcan Hm Ha) by (by rewrite ?le_bytes_length).
    assert (H1 : zlen l = u64 (- le_value (le_bytes 8 (u64 (- zlen l))))) by (apply u64_neg_value; lia).
    assert (H2 : le_value (le_bytes 8 (u64 (zlen l))) = zlen l).
    { rewrite le_value_le_bytes. unfold u64. rewrite Z.mod_mod by lia. apply Z.mod_small. lia. }
    by rewrite (require_true _ _ H1), (require_true _ _ H2), !require_true.
  - pose proof (mh_range _ _ Hm _ _ Ha). unfold z_mem_trace_check_canaries. rewrite decide_False, Hcan by lia. f_equal. lia.
Qed.

(** ** The specification

    An allocator that maps the addresses of the live blocks to their contents.  Malloc and
    realloc may fail; new bytes are arbitrary. *)
Inductive request : Type :=
| Malloc (n : Z)
| Calloc (nmemb n : Z)
| Realloc (p n : Z)
| Free (p : Z)
| Load (p i : Z)
| Store (p i v : Z).

Inductive alloc_step (h : gmap Z (list Z)) : request → Z → gmap Z (list Z) → Prop :=
| step_malloc n p l : p ≠ 0 → h !! p = None → zlen l = n → alloc_step h (Malloc n) p (<[p := l]> h)
| step_malloc_fails n : alloc_step h (Malloc n) 0 h
| step_calloc nmemb n p :
    p ≠ 0 → h !! p = None → alloc_step h (Calloc nmemb n) p (<[p := replicate (Z.to_nat (nmemb * n)) 0]> h)
| step_realloc p n l q l' :
    h !! p = Some l → q ≠ 0 → delete p h !! q = None → zlen l' = n → take (Z.to_nat n) l `prefix_of` l' →
    alloc_step h (Realloc p n) q (<[q := l']> (delete p h))
| step_realloc_null n q h' : alloc_step h (Malloc n) q h' → alloc_step h (Realloc 0 n) q h'
| step_free p l : h !! p = Some l → alloc_step h (Free p) 0 (delete p h)
| step_free_null : alloc_step h (Free 0) 0 h
| step_load p i l v : 0 ≤ i → h !! p = Some l → l !! Z.to_nat i = Some v → alloc_step h (Load p i) v h
| step_store p i v l :
    0 ≤ i < zlen l → h !! p = Some l → alloc_step h (Store p i v) 0 (<[p := <[Z.to_nat i := v]> l]> h).

Section transparent.
Context `{FreshMem} (temp_heap : Z) (env : environment).

(** A request to the traced program; reads and writes go to the memory directly. *)
Definition serve (rq : request) (bt : list Z) (a : Z) (s : tracer) : outcome (tracer * Z) :=
  match rq with
  | Malloc n => z_malloc temp_heap env n bt a s
  | Calloc nmemb n => z_calloc temp_heap env nmemb n bt a s
  | Realloc p n => z_realloc temp_heap env p n bt a s
  | Free p => s ← z_free temp_heap env p s; Done (s, 0)
  | Load p i => l ← mem_read (tr_mem s) (p + i) 1; Done (s, default 0 (head l))
  | Store p i v => m ← mem_write (tr_mem s) (p + i) [v]; Done (with_mem m s, 0)
  end.

Definition has_room (s : tracer) : Prop := mem_trace_free_list (tr_table s) ≠ MEMTRACE_EOL.

Definition overhead (s : tracer) : Z := 2 * shift (mem_trace_canaries s).

(** The requests of a program that uses its blocks properly: it asks for less than 2 GB (the
    sizes are gints), for arrays of one member at least (an empty one has no room for its
    canaries, [Runs.calloc_empty]), and uses what it has and no other memory. *)
Definition proper (h : gmap Z (list Z)) (rq : request) : Prop :=
  match rq with
  | Malloc n => 0 ≤ n < 2 ^ 31
  | Calloc nmemb n => 0 < nmemb ∧ 0 ≤ n ∧ nmemb * n < 2 ^ 31
  | Realloc p n => 0 ≤ n < 2 ^ 31 ∧ (p = 0 ∨ is_Some (h !! p))
  | Free p => p = 0 ∨ is_Some (h !! p)
  | Load p i | Store p i _ => ∃ l, h !! p = Some l ∧ 0 ≤ i < zlen l
  end.

(** Only the wrapper of malloc is prepared for a C library that has no memory left and for a
    table that is full; calloc and realloc are not ([Runs.failed_calloc_free],
    [Runs.failed_realloc_free], [Runs.calloc_table_full]). *)
Definition never_short (s : tracer) (rq : request) (a : Z) : Prop :=
  match rq with
  | Calloc _ _ => a ≠ 0 ∧ has_room s
  | Realloc p _ => if decide (p = 0) then has_room s else a ≠ 0 ∧ (mem_trace_hard s = true → has_room s)
  | _ => True
  end.

(** What the C library may answer: nothing, or space that is not in use, and at no distance to
    the temporary heap that TMP_ALLOCATED takes for it. *)
Definition answers (s : tracer) (rq : request) (a : Z) : Prop :=
  let blocks := cm_blocks (tr_mem s) in
  let fresh blocks n := a = 0 ∨ libc_fresh blocks a n ∧ ¬ TMP_ALLOCATED temp_heap a in
  match rq with
  | Malloc n => fresh blocks (n + overhead s)
  | Calloc nmemb n => fresh blocks (nmemb * (n + overhead s))
  | Realloc p n =>
      fresh (if decide (p = 0 ∨ mem_trace_hard s = true) then blocks else delete (p - shift (mem_trace_canaries s)) blocks)
            (n + overhead s)
  | _ => True
  end.

(** [A] are the blocks in the table with what the program sees of them, and whether they were
    freed (and kept, in the hard mode); each is in the middle of a block of the C library. *)
Record traced_with (s : tracer) (A : gmap Z (list Z * bool)) (B : gmap Z (list Z)) (bs : list tracked) (room : nat) : Prop := {
  tw_on : mem_trace s = true ∧ mem_trace_initialized s = true ∧ old_pointers s = true;
  tw_holds : mem_holds (tr_mem s) B;
  tw_table : table_holds (tr_table s) bs room;
  tw_nodup : NoDup (tk_ptr <$> bs);
  tw_tracked : ∀ p n d, (∃ bt, Tracked p n bt d ∈ bs) ↔ ∃ l, A !! p = Some (l, d) ∧ zlen l = n;
  tw_image : ∀ p l d, A !! p = Some (l, d) →
    zlen l < 2 ^ 31 ∧ ¬ TMP_ALLOCATED temp_heap (p - shift (mem_trace_canaries s)) ∧
    ∃ rest, B !! (p - shift (mem_trace_canaries s)) = Some (image (mem_trace_canaries s) l rest);
  tw_soft : mem_trace_hard s = false → ∀ p l d, A !! p = Some (l, d) → d = false
}.

Definition live (A : gmap Z (list Z * bool)) : gmap Z (list Z) :=
  omap (λ x : list Z * bool, if x.2 then None else Some x.1) A.

Definition filled (A : gmap Z (list Z * bool)) : Prop :=
  ∀ p l, A !! p = Some (l, true) → l = replicate (length l) MEMTRACE_CANARY_FILL.

(** The tracer [s] implements the allocator [h]; deleted blocks have the value of the canaries. *)
Definition traced (s : tracer) (h : gmap Z (list Z)) : Prop :=
  ∃ A B bs room, traced_with s A B bs room ∧ live A = h ∧ filled A.

Lemma live_lookup A p l : live A !! p = Some l ↔ A !! p = Some (l, false).
Proof.
  unfold live. rewrite lookup_omap. destruct (A !! p) as [[k []]|]; cbn; naive_solver.
Qed.

Lemma live_none A p : A !! p = None → live A !! p = None.
Proof. intros Hp. unfold live. by rewrite lookup_omap, Hp. Qed.

Lemma live_insert A p l : live (<[p := (l, false)]> A) = <[p := l]> (live A).
Proof. unfold live. by apply omap_insert_Some. Qed.

Lemma live_delete A p : live (delete p A) = delete p (live A).
Proof. unfold live. apply omap_delete. Qed.

Lemma live_mark A p l : live (<[p := (l, true)]> A) = delete p (live A).
Proof. unfold live. by apply omap_insert_None. Qed.

Lemma filled_insert A p l : filled A → filled (<[p := (l, false)]> A).
Proof. intros Hf q k. rewrite lookup_insert_Some. intros [[_ [=]]|[_ Hk]]. by eapply Hf. Qed.

Lemma filled_delete A p : filled A → filled (delete p A).
Proof. intros Hf q k. rewrite lookup_delete_Some. intros [_ Hk]. by eapply Hf. Qed.

Lemma filled_mark A p n : filled A → filled (<[p := (replicate n MEMTRACE_CANARY_FILL, true)]> A).
Proof.
  intros Hf q k. rewrite lookup_insert_Some. intros [[_ [= <-]]|[_ Hk]]; [by rewrite length_replicate|by eapply Hf].
Qed.

Lemma traced_new s A B bs room p l :
  traced_with s (<[p := (l, false)]> A) B bs room → filled A → traced s (<[p := l]> (live A)).
Proof. intros Ht Hf. eexists _, _, _, _. split; [done|]. split; [apply live_insert|by apply filled_insert]. Qed.

Lemma tk_find_elem b bs : NoDup (tk_ptr <$> bs) → b ∈ bs → tk_find (tk_ptr b) bs = Some b.
Proof.
  induction bs as [|b' bs IH]; intros Hnd Hb; [by apply elem_of_nil in Hb|].
  apply NoDup_cons in Hnd as (Hb' & Hnd). cbn. case_decide as Hp.
  - apply elem_of_cons in Hb as [->|Hb]; [done|]. exfalso. apply Hb'. rewrite Hp. apply list_elem_of_fmap. eauto.
  - apply elem_of_cons in Hb as [->|Hb]; [done|auto].
Qed.

Lemma tw_find s A B bs room p :
  traced_with s A B bs room →
  match A !! p with
  | Some (l, d) => ∃ bt, tk_find p bs = Some (Tracked p (zlen l) bt d)
  | None => tk_find p bs = None
  end.
Proof.
  intros Ht. destruct (A !! p) as [[l d]|] eqn:Hp.
  - destruct (proj2 (tw_tracked _ _ _ _ _ Ht p (zlen l) d)) as (bt & Hbt); [eauto|].
    exists bt. apply (tk_find_elem (Tracked p (zlen l) bt d)); [apply (tw_nodup _ _ _ _ _ Ht)|done].
  - pose proof (tk_find_split p bs) as Hf. destruct (tk_find p bs) as [b|]; [|done].
    destruct Hf as (<- & bs1 & bs2 & -> & _). exfalso. destruct b as [p n bt d]. cbn in Hp.
    destruct (proj1 (tw_tracked _ _ _ _ _ Ht p n d)) as (l & Hl & _); [|by rewrite Hl in Hp].
    exists bt. apply elem_of_app. right. left.
Qed.

Lemma tw_getsize s A B bs room p :
  traced_with s A B bs room →
  z_mem_trace_getsize p (tr_table s) = Done (match A !! p with Some (l, _) => zlen l | None => -1 end).
Proof.
  intros Ht. rewrite (table_getsize _ _ _ _ (tw_table _ _ _ _ _ Ht)). pose proof (tw_find _ _ _ _ _ p Ht) as Hf.
  destruct (A !! p) as [[l d]|] eqn:Hp; [|by rewrite Hf]. destruct Hf as (bt & ->). cbn.
  pose proof (tw_image _ _ _ _ _ Ht _ _ _ Hp) as (Hl & _). rewrite s32_small; [done|lia].
Qed.

Lemma tw_pos s A B bs room p l d : traced_with s A B bs room → A !! p = Some (l, d) → 0 < p.
Proof.
  intros Ht Hp. pose proof (tw_image _ _ _ _ _ Ht _ _ _ Hp) as (_ & _ & rest & HB).
  pose proof (mh_range _ _ (tw_holds _ _ _ _ _ Ht) _ _ HB). destruct (mem_trace_canaries s); lens || (cbn [shift] in *; lens).
Qed.

Lemma has_room_spec s A B bs room : traced_with s A B bs room → has_room s ↔ room ≠ 0%nat.
Proof.
  intros Ht. pose proof (tw_table _ _ _ _ _ Ht) as (L & F & Hinv & _ & <-). pose proof (ti_free _ _ _ Hinv) as Hf.
  unfold has_room. destruct F as [|i F]; cbn in *; [naive_solver|]. split; [done|]. by destruct Hf as (-> & ? & _).
Qed.

(** Changes of the memory that do not touch the blocks in the table. *)
Lemma tw_frame s A B B' bs room m :
  traced_with s A B bs room → mem_holds m B' →
  (∀ p l d, A !! p = Some (l, d) →
     B' !! (p - shift (mem_trace_canaries s)) = B !! (p - shift (mem_trace_canaries s))) →
  traced_with (with_mem m s) A B' bs room.
Proof.
  intros Ht Hm Hag. destruct Ht as [Hon _ Htab Hnd Htr Himg Hsoft]. split; try done.
  intros p l d Hp. cbn. rewrite (Hag _ _ _ Hp). by eapply Himg.
Qed.

Definition front (can : bool) (n : Z) : list Z := if can then concat (canary n) else [].
Definition behind (can : bool) (n : Z) (rest : list Z) : list Z := if can then concat (canary n) ++ rest else rest.

Lemma image_eq can l rest : image can l rest = front can (zlen l) ++ l ++ behind can (zlen l) rest.
Proof. destruct can; [|done]. unfold image, front, behind. rewrite !concat_app. cbn [concat]. by rewrite !app_nil_r. Qed.

Lemma front_length can n : zlen (front can n) = shift can.
Proof. destruct can; [apply canary_length|done]. Qed.

(** Reading and writing what the program sees of a block. *)
Lemma user_read s A B bs room p x y z d off n :
  traced_with s A B bs room → A !! p = Some (x ++ y ++ z, d) → off = p + zlen x → n = zlen y →
  mem_read (tr_mem s) off n = Done y.
Proof.
  intros Ht Hp -> ->. pose proof (tw_image _ _ _ _ _ Ht _ _ _ Hp) as (_ & _ & rest & HB).
  rewrite image_eq in HB. set (f := front _ _) in HB. set (b := behind _ _ _) in HB.
  apply (holds_read _ B (p - shift (mem_trace_canaries s)) (f ++ x) y (z ++ b)); [apply (tw_holds _ _ _ _ _ Ht)| | |done].
  - by rewrite HB, <- !app_assoc.
  - rewrite length_app. pose proof (front_length (mem_trace_canaries s) (zlen (x ++ y ++ z))). unfold f. lia.
Qed.

Lemma user_read_all s A B bs room p l d n :
  traced_with s A B bs room → A !! p = Some (l, d) → zlen l = n → mem_read (tr_mem s) p n = Done l.
Proof.
  intros Ht Hp Hn. apply (user_read s A B bs room p [] l [] d); [done|by rewrite app_nil_r|cbn; lia|done].
Qed.

Lemma user_write s A B bs room p x y z d off l :
  traced_with s A B bs room → A !! p = Some (x ++ y ++ z, d) → off = p + zlen x → length l = length y →
  returns (mem_write (tr_mem s) off l) (λ m,
    ∃ B', traced_with (with_mem m s) (<[p := (x ++ l ++ z, d)]> A) B' bs room ∧
      ∀ b, b ≠ p - shift (mem_trace_canaries s) → B' !! b = B !! b).
Proof.
  intros Ht Hp Hoff Hlen. pose proof (tw_image _ _ _ _ _ Ht _ _ _ Hp) as (Hsz & Htmp & rest & HB). rewrite image_eq in HB.
  assert (Hlen' : zlen (x ++ l ++ z) = zlen (x ++ y ++ z)) by (rewrite !length_app; lia).
  set (can := mem_trace_canaries s) in *.
  eapply returns_mono; [apply (holds_write _ B (p - shift can) (front can (zlen (x ++ y ++ z)) ++ x) y
    (z ++ behind can (zlen (x ++ y ++ z)) rest)); [apply (tw_holds _ _ _ _ _ Ht)| | |exact Hlen]|].
  - by rewrite HB, <- !app_assoc.
  - rewrite length_app, Nat2Z.inj_add, front_length. lia.
  - cbv beta. intros m Hm.
    assert (Himg : (front can (zlen (x ++ y ++ z)) ++ x) ++ l ++ z ++ behind can (zlen (x ++ y ++ z)) rest
                   = image can (x ++ l ++ z) rest) by (by rewrite image_eq, Hlen', <- !app_assoc).
    rewrite Himg in Hm.
    exists (<[p - shift can := image can (x ++ l ++ z) rest]> B). split; [|intros b Hb; by rewrite lookup_insert_ne].
    destruct Ht as [Hon _ Htab Hnd Htr Himgs Hsoft]. split; try done.
    + intros q n e. rewrite Htr. destruct (decide (q = p)) as [->|Hq].
      * rewrite lookup_insert_eq, Hp. split; intros (k & [= <- <-] & <-); eauto.
      * by rewrite lookup_insert_ne.
    + intros q k e. rewrite lookup_insert_Some. cbn. fold can. intros [[-> [= <- <-]]|[Hq Hk]].
      * rewrite Hlen'. split; [done|]. split; [done|]. exists rest. by rewrite lookup_insert_eq.
      * rewrite lookup_insert_ne by lia. by eapply Himgs.
    + intros Hh q k e. rewrite lookup_insert_Some. intros [[-> [= <- <-]]|[Hq Hk]]; eauto.
Qed.

Lemma tw_none s A B bs room raw :
  traced_with s A B bs room → B !! raw = None → A !! (raw + shift (mem_trace_canaries s)) = None.
Proof.
  intros Ht Hraw. destruct (A !! _) as [[k d]|] eqn:Hk; [|done]. exfalso.
  pose proof (tw_image _ _ _ _ _ Ht _ _ _ Hk) as (_ & _ & rest' & HB). by rewrite Z.add_simpl_r, Hraw in HB.
Qed.

(** Adding a block to the table. *)
Lemma tw_new s A B bs room raw l rest bt m :
  traced_with s A B bs (S room) → B !! raw = None → ¬ TMP_ALLOCATED temp_heap raw → zlen l < 2 ^ 31 →
  mem_holds m (<[raw := image (mem_trace_canaries s) l rest]> B) →
  returns (z_mem_trace_add (raw + shift (mem_trace_canaries s)) (zlen l) bt (tr_table s)) (λ '(t, ok), ok = true ∧
    ∃ B' bs', traced_with (with_table t (with_mem m s)) (<[raw + shift (mem_trace_canaries s) := (l, false)]> A) B' bs' room ∧
    A !! (raw + shift (mem_trace_canaries s)) = None ∧ 0 < raw).
Proof.
  intros Ht Hraw Htmp Hl Hm. set (can := mem_trace_canaries s) in *.
  pose proof (table_add _ _ _ (raw + shift can) (zlen l) bt (tw_table _ _ _ _ _ Ht)) as (t & -> & Htab').
  pose proof (tw_none _ _ _ _ _ _ Ht Hraw) as HA. fold can in HA.
  rewrite u64_small in Htab' by lia.
  split; [done|]. exists (<[raw := image can l rest]> B), (Tracked (raw + shift can) (zlen l) bt false :: bs).
  split; [|split; [done|]].
  2: { by eapply (mh_range _ _ Hm), lookup_insert_eq. }
  destruct Ht as [Hon _ Htab Hnd Htr Himgs Hsoft]. split; try done; cbn.
  - apply NoDup_cons. split; [|done]. intros ([q n e d] & Heq & Hin)%list_elem_of_fmap. cbn in Heq. subst q.
    destruct (proj1 (Htr (raw + shift can) n d)) as (k & Hk & _); [eauto|]. congruence.
  - intros q n d. destruct (decide (q = raw + shift can)) as [->|Hq].
    + rewrite lookup_insert_eq. split.
      * intros (e & [[= -> -> ->]|Hin]%elem_of_cons); [eauto|].
        destruct (proj1 (Htr (raw + shift can) n d)) as (k & Hk & _); [eauto|]. congruence.
      * intros (k & [= <- <-] & <-). exists bt. left.
    + rewrite lookup_insert_ne by done. rewrite <- Htr. split.
      * intros (e & [[= -> -> ->]|Hin]%elem_of_cons); [done|eauto].
      * intros (e & Hin). exists e. by right.
  - intros q k d. rewrite lookup_insert_Some. fold can. intros [[<- [= <- <-]]|[Hq Hk]].
    + replace (raw + shift can - shift can) with raw by lia. split; [done|]. split; [done|]. exists rest. apply lookup_insert_eq.
    + rewrite lookup_insert_ne by lia. by eapply Himgs.
  - intros Hh q k d. rewrite lookup_insert_Some. intros [[<- [= <- <-]]|[Hq Hk]]; eauto.
Qed.

(** Deleting a block from the table. *)
Lemma tw_del s A B bs room p l d :
  traced_with s A B bs room → A !! p = Some (l, d) →
  returns (z_mem_trace_del (mem_trace_hard s) p (tr_table s)) (λ '(t, ok), ok = true ∧ ∃ bs',
    traced_with (with_table t s) (if mem_trace_hard s then <[p := (l, true)]> A else delete p A) B bs'
                (if mem_trace_hard s then room else S room)).
Proof.
  intros Ht Hp. pose proof (tw_find _ _ _ _ _ p Ht) as Hf. rewrite Hp in Hf. destruct Hf as (bt & Hf).
  assert (Hsoft : mem_trace_hard s = false → ∀ b, b ∈ bs → tk_deleted b = false).
  { intros Hh [q n e f] Hb. destruct (proj1 (tw_tracked _ _ _ _ _ Ht q n f)) as (k & Hk & _); [eauto|].
    by apply (tw_soft _ _ _ _ _ Ht Hh) in Hk. }
  pose proof (table_del _ _ _ _ p (tw_table _ _ _ _ _ Ht) Hsoft) as Hd. rewrite Hf in Hd. destruct Hd as (t & -> & Htab').
  pose proof (tk_find_split p bs) as Hs. rewrite Hf in Hs. destruct Hs as (_ & bs1 & bs2 & Hbs & _ & Hadj).
  split; [done|]. exists (if mem_trace_hard s then tk_mark p bs else tk_remove p bs).
  destruct Ht as [Hon Hm _ Hnd Htr Himgs Hs0].
  assert (Hne : ∀ b, b ∈ bs1 ∨ b ∈ bs2 → tk_ptr b ≠ p).
  { rewrite Hbs, fmap_app in Hnd. apply NoDup_app in Hnd as (_ & Hdis & Hnd). apply NoDup_cons in Hnd as (Hnin & _).
    intros b [Hb|Hb] Heq.
    - apply (Hdis p); [apply list_elem_of_fmap; eauto|left].
    - apply Hnin. cbn. rewrite <- Heq. apply list_elem_of_fmap. eauto. }
  assert (Hoth : ∀ q n f e, q ≠ p → Tracked q n e f ∈ bs ↔ Tracked q n e f ∈ bs1 ++ bs2).
  { intros q n f e Hq. rewrite Hbs, !elem_of_app, elem_of_cons. split; [|tauto]. intros [?|[[= -> -> -> ->]|?]]; tauto. }
  destruct (mem_trace_hard s) eqn:Hhard; (split; try done; cbn).
  - unfold tk_mark. rewrite Hadj. rewrite Hbs, fmap_app in Hnd. by rewrite fmap_app.
  - intros q n f. unfold tk_mark. rewrite Hadj. cbn [app]. destruct (decide (q = p)) as [->|Hq].
    + rewrite lookup_insert_eq. split.
      * intros (e & Hin). rewrite elem_of_app, elem_of_cons in Hin.
        destruct Hin as [Hin|[[= -> -> ->]|Hin]]; [by destruct (Hne _ (or_introl Hin))|eauto|by destruct (Hne _ (or_intror Hin))].
      * intros (k & [= <- <-] & <-). exists bt. apply elem_of_app. right. left.
    + rewrite lookup_insert_ne, <- Htr by done. f_equiv. intros e. rewrite Hoth by done.
      rewrite !elem_of_app, elem_of_cons. split; [|tauto]. intros [?|[[= -> -> -> ->]|?]]; tauto.
  - intros q k f. rewrite lookup_insert_Some. intros [[-> [= <- <-]]|[Hq Hk]]; by eapply Himgs.
  - by rewrite Hhard.
  - unfold tk_remove. rewrite Hadj. rewrite Hbs, fmap_app in Hnd. apply NoDup_app in Hnd as (Hn1 & Hdis & Hn2).
    apply NoDup_cons in Hn2 as (_ & Hn2). cbn. rewrite fmap_app. apply NoDup_app. split; [done|]. split; [|done].
    intros x Hx Hx'. apply (Hdis x Hx). by right.
  - intros q n f. unfold tk_remove. rewrite Hadj. cbn. destruct (decide (q = p)) as [->|Hq].
    + rewrite lookup_delete_eq. split; [|by intros (k & ? & _)].
      intros (e & Hin). apply elem_of_app in Hin. by destruct (Hne _ Hin).
    + rewrite lookup_delete_ne, <- Htr by done. f_equiv. intros e. by rewrite Hoth.
  - intros q k f. rewrite lookup_delete_Some. intros [Hq Hk]. by eapply Himgs.
  - intros Hh q k f. rewrite lookup_delete_Some. intros [Hq Hk]. by eapply Hs0.
Qed.

Lemma tw_init s A B bs room : traced_with s A B bs room → z_mem_trace_init_internal env s = s.
Proof. intros Ht. pose proof (tw_on _ _ _ _ _ Ht) as (_ & Hi & _). unfold z_mem_trace_init_internal. by rewrite Hi. Qed.

Lemma tw_check s A B bs room p l d m :
  traced_with s A B bs room → A !! p = Some (l, d) → tr_mem m = tr_mem s → mem_trace_canaries m = mem_trace_canaries s →
  z_mem_trace_check_canaries p m = Done (p - shift (mem_trace_canaries s)).
Proof.
  intros Ht Hp Hmem Hcan. pose proof (tw_image _ _ _ _ _ Ht _ _ _ Hp) as (Hl & _ & rest & HB).
  replace p with (p - shift (mem_trace_canaries m) + shift (mem_trace_canaries m)) at 1 by lia.
  rewrite <- Hcan in *. eapply check_canaries_ok; [rewrite Hmem; apply (tw_holds _ _ _ _ _ Ht)|exact HB|done].
Qed.

(** The dump goes through. *)
Lemma dump_chain_ok s A B bs room fuel l cur :
  traced_with s A B bs room → linked (mem_trace_heap (tr_table s)) cur l MEMTRACE_EOL → (length l ≤ fuel)%nat →
  (∀ i, i ∈ l → ∃ e, mem_trace_heap (tr_table s) !! i = Some e ∧ block_of e ∈ bs) →
  returns (dump_chain fuel s cur) (λ _, True).
Proof.
  intros Ht. revert fuel cur. induction l as [|i l IH]; intros fuel cur; cbn [linked].
  - intros -> _ _. destruct fuel; cbn [dump_chain]; by rewrite decide_True.
  - intros (-> & Hi & e & He & Hl) Hlen Hin. destruct fuel as [|fuel]; [cbn in Hlen; lia|]. cbn [dump_chain].
    rewrite decide_False by done. unfold entry_at. rewrite He, Done_bind.
    destruct (Hin i) as (e' & He' & Hb); [left|]. assert (e' = e) as -> by congruence.
    destruct (proj1 (tw_tracked _ _ _ _ _ Ht (te_ptr e) (te_size e) (te_deleted e))) as (k & Hk & Hsz); [by exists (te_backtrace e)|].
    rewrite (tw_check _ _ _ _ _ _ _ _ s Ht Hk) by done.
    replace (if mem_trace_canaries s then _ else Done 0) with (Done (if mem_trace_canaries s then te_ptr e - shift (mem_trace_canaries s) else 0))
      by (by destruct (mem_trace_canaries s)).
    rewrite Done_bind. apply returns_bind. eapply returns_mono with (P := λ _, True).
    + destruct (mem_trace_hard s && te_deleted e); [|done]. unfold freed_lines.
      pose proof (tw_image _ _ _ _ _ Ht _ _ _ Hk) as (Hlt & _).
      rewrite require_true, Done_bind by lia. by rewrite (user_read_all _ _ _ _ _ _ _ _ _ Ht Hk).
    + intros used _. apply returns_bind. eapply returns_mono; [apply (IH fuel (te_next e)); [done|cbn in Hlen; lia|]|done].
      intros j Hj. apply Hin. by right.
Qed.

Lemma dump_buckets_ok s A B bs room n i : traced_with s A B bs room → returns (dump_loop n s i) (λ _, True).
Proof.
  intros Ht. revert i. induction n as [|n IH]; intros i; [done|]. cbn [dump_loop]. apply returns_bind.
  pose proof (tw_table _ _ _ _ _ Ht) as (L & F & Hinv & HL & _).
  eapply returns_mono; [eapply (dump_chain_ok s A B bs room _ (filter (in_chain i) L).*1 _ Ht (ti_chain _ _ _ Hinv i))|].
  - pose proof (ti_length _ _ _ Hinv). pose proof (length_filter (in_chain i) L). rewrite length_fmap. unfold find_fuel. lia.
  - intros j ((j' & b) & -> & (_ & Hin)%list_elem_of_filter)%list_elem_of_fmap.
    pose proof (ti_entry _ _ _ Hinv _ _ Hin) as He. cbn. destruct (mem_trace_heap _ !! j') as [e|]; [|done].
    exists e. split; [done|]. injection He as ->. rewrite <- HL. apply list_elem_of_fmap. by exists (j', b).
  - intros l _. apply returns_bind. eapply returns_mono; [apply IH|done].
Qed.

Lemma dump_ok s A B bs room : traced_with s A B bs room → returns (z_mem_trace_dump s) (λ _, True).
Proof. intros Ht. unfold z_mem_trace_dump. destruct (mem_trace s); [by eapply dump_buckets_ok|done]. Qed.

(** A new block of the C library gets its canaries. *)
Lemma new_block_filled s A B bs room m l n a :
  traced_with s A B bs room → mem_holds m (<[a := l]> B) → n + overhead s ≤ zlen l → 0 ≤ n < 2 ^ 31 →
  returns (z_mem_trace_fill_canaries a n (with_mem m s)) (λ '(s', p), p = a + shift (mem_trace_canaries s) ∧
    ∃ m' rest, s' = with_mem m' s ∧
      mem_holds m' (<[a := image (mem_trace_canaries s)
                             (take (Z.to_nat n) (drop (Z.to_nat (shift (mem_trace_canaries s))) l)) rest]> B)).
Proof.
  intros Ht Hm Hlen Hn.
  eapply returns_mono; [apply (fill_canaries_ok (with_mem m s) (<[a := l]> B) a l n Hm (lookup_insert_eq _ _ _) Hn Hlen)|].
  intros [s' p] (m' & -> & -> & Hm'). split; [done|]. rewrite insert_insert_eq in Hm'. by eexists m', _.
Qed.

Lemma user_part_length (l : list Z) n k : 0 ≤ k → 0 ≤ n → n + 2 * k ≤ zlen l → zlen (take (Z.to_nat n) (drop (Z.to_nat k) l)) = n.
Proof. intros. rewrite length_take, length_drop. lia. Qed.

Lemma fresh_none s A B bs room a n : traced_with s A B bs room → libc_fresh (cm_blocks (tr_mem s)) a n → B !! a = None.
Proof.
  intros Ht (Hn & _). rewrite (mh_blocks _ _ (tw_holds _ _ _ _ _ Ht)) in Hn. by destruct (B !! a).
Qed.

Lemma shift_nonneg can : 0 ≤ shift can.
Proof. by destruct can. Qed.

Lemma with_overhead_eq s n : 0 ≤ n < 2 ^ 31 → with_overhead s n = n + overhead s.
Proof.
  intros Hn. unfold with_overhead, overhead, shift, MEMTRACE_CANARY_OVERHEAD.
  destruct (mem_trace_canaries s); cbn [Z.b2z]; rewrite u64_small; lens.
Qed.

Lemma fresh_bytes_length n : length (fresh_bytes 0 n) = n.
Proof. unfold fresh_bytes. by rewrite length_fmap, length_seq. Qed.

Lemma malloc_ok s h n bt a :
  traced s h → proper h (Malloc n) → answers s (Malloc n) a →
  returns (z_malloc temp_heap env n bt a s) (λ '(s', r), ∃ h', alloc_step h (Malloc n) r h' ∧ traced s' h').
Proof.
  intros (A & B & bs & room & Ht & <- & Hfill) Hn Hans. cbn in Hn, Hans. unfold z_malloc. rewrite (tw_init _ _ _ _ _ Ht).
  pose proof (tw_on _ _ _ _ _ Ht) as (Hon & Hini & Hold). rewrite Hold, Done_bind. cbn [mem_trace with_mem]. rewrite Hon.
  rewrite with_overhead_eq by done. pose proof (shift_nonneg (mem_trace_canaries s)) as Hsh.
  destruct Hans as [->|[Hfr Htmp]].
  - unfold libc_malloc, libc_new. rewrite decide_True by done. unfold z_mem_trace_fill_canaries. rewrite decide_True, Done_bind by done.
    assert (HA : A !! 0 = None) by (destruct (A !! 0) as [[k d]|] eqn:Hk; [apply (tw_pos _ _ _ _ _ _ _ _ Ht) in Hk; lia|done]).
    cbn [mem_trace_hard with_mem tr_table]. rewrite (tw_getsize _ _ _ _ _ 0 Ht), HA. cbn [mbind outcome_bind].
    rewrite (require_true (-1 = -1)) by done.
    replace (if mem_trace_hard s then Done () else Done ()) with (Done ()) by (by destruct (mem_trace_hard s)).
    cbn [mbind outcome_bind]. rewrite decide_True by done. exists (live A). split; [constructor|].
    replace (with_mem (tr_mem s) s) with s by (by destruct s). by exists A, B, bs, room.
  - assert (HB : B !! a = None) by (by eapply fresh_none).
    pose proof (holds_new (tr_mem s) B a (fresh_bytes 0 (Z.to_nat (n + overhead s))) (tw_holds _ _ _ _ _ Ht)) as Hm.
    rewrite fresh_bytes_length, Z2Nat.id in Hm by (unfold overhead; lia). specialize (Hm Hfr).
    apply returns_bind. eapply returns_mono; [apply (new_block_filled s A B bs room _ _ n a Ht Hm); [|done]|].
    { rewrite fresh_bytes_length. unfold overhead. lia. }
    intros [s' p] (-> & m' & rest & -> & Hm'). set (u := take _ _) in Hm'.
    assert (Hu : zlen u = n) by (apply user_part_length; [done|lia|rewrite fresh_bytes_length; unfold overhead; lia]).
    pose proof (tw_none _ _ _ _ _ _ Ht HB) as HA. pose proof (mh_range _ _ Hm' a _ (lookup_insert_eq _ _ _)) as [Ha _].
    cbn [mem_trace_hard with_mem tr_table]. rewrite (tw_getsize _ _ _ _ _ _ Ht), HA. cbn [mbind outcome_bind].
    rewrite (require_true (-1 = -1)) by done.
    replace (if mem_trace_hard s then Done () else Done ()) with (Done ()) by (by destruct (mem_trace_hard s)).
    cbn [mbind outcome_bind]. rewrite decide_False by lia. rewrite s32_small by lia. destruct room as [|room].
    + rewrite (table_add _ _ _ _ _ _ (tw_table _ _ _ _ _ Ht)), Done_bind. apply returns_bind.
      eapply returns_mono; [eapply (holds_free _ _ a _ Hm'), lookup_insert_eq|]. cbv beta. intros m'' Hm''.
      rewrite delete_insert_id in Hm'' by done.
      assert (Ht' : traced_with (with_mem m'' s) A B bs 0) by (by eapply tw_frame).
      apply returns_bind. eapply returns_mono; [by eapply dump_ok|]. intros l _. exists (live A).
      split; [constructor|]. by exists A, B, bs, 0%nat.
    + apply returns_bind. rewrite <- Hu. eapply returns_mono; [apply (tw_new s A B bs room a u rest bt m'); [done|done|done|lia|done]|].
      intros [t ok] (-> & B' & bs' & Ht' & _ & _). eexists. split; [|by eapply traced_new].
      constructor; [lia|by apply live_none|done].
Qed.

Lemma calloc_ok s h nmemb n bt a :
  traced s h → proper h (Calloc nmemb n) → answers s (Calloc nmemb n) a → never_short s (Calloc nmemb n) a →
  returns (z_calloc temp_heap env nmemb n bt a s) (λ '(s', r), ∃ h', alloc_step h (Calloc nmemb n) r h' ∧ traced s' h').
Proof.
  intros (A & B & bs & room & Ht & <- & Hfill) (Hk & Hn & Hkn) Hans [Ha0 Hroom].
  destruct Hans as [|[Hfr Htmp]]; [done|]. apply (has_room_spec _ _ _ _ _ Ht) in Hroom. destruct room as [|room]; [done|].
  unfold z_calloc. rewrite (tw_init _ _ _ _ _ Ht).
  pose proof (tw_on _ _ _ _ _ Ht) as (Hon & Hini & Hold). rewrite Hold, Done_bind. cbn [mem_trace with_mem]. rewrite Hon.
  assert (Hn' : n ≤ nmemb * n) by nia. assert (Hkn0 : 0 ≤ nmemb * n) by nia. rewrite with_overhead_eq by lia.
  pose proof (shift_nonneg (mem_trace_canaries s)) as Hsh.
  assert (Hov : nmemb * n + overhead s ≤ nmemb * (n + overhead s)) by (unfold overhead; nia).
  assert (HB : B !! a = None) by (by eapply fresh_none).
  pose proof (holds_new (tr_mem s) B a (replicate (Z.to_nat (nmemb * (n + overhead s))) 0) (tw_holds _ _ _ _ _ Ht)) as Hm.
  rewrite length_replicate, Z2Nat.id in Hm by (unfold overhead in *; lia). specialize (Hm Hfr).
  rewrite (u64_small (nmemb * n)) by lia.
  apply returns_bind. eapply returns_mono; [apply (new_block_filled s A B bs (S room) _ _ (nmemb * n) a Ht Hm)|].
  { rewrite length_replicate. unfold overhead in *. lia. }
  { lia. }
  intros [s' p] (-> & m' & rest & -> & Hm'). rewrite drop_replicate, take_replicate in Hm'.
  replace (Z.to_nat (nmemb * n) `min` _)%nat with (Z.to_nat (nmemb * n)) in Hm' by (unfold overhead in *; lia).
  rewrite s32_small by lia.
  replace (nmemb * n) with (zlen (replicate (Z.to_nat (nmemb * n)) 0)) at 1 by (rewrite length_replicate; lia).
  apply returns_bind. cbn [tr_table with_mem].
  eapply returns_mono; [apply (tw_new s A B bs room a _ rest bt m' Ht HB Htmp); [rewrite length_replicate; lia|exact Hm']|].
  intros [t ok] (-> & B' & bs' & Ht' & HA & Ha). eexists. split; [|by eapply traced_new].
  constructor; [lia|by apply live_none].
Qed.

(** The first part of free and realloc: the block leaves the table, and its canaries are right. *)
Lemma free_null s A B bs room : traced_with s A B bs room → A !! 0 = None.
Proof.
  intros Ht. destruct (A !! 0) as [[k d]|] eqn:Hk; [|done]. apply (tw_pos _ _ _ _ _ _ _ _ Ht) in Hk. lia.
Qed.

Lemma free_ok s h p :
  traced s h → p = 0 ∨ is_Some (h !! p) →
  returns (z_free temp_heap env p s) (λ s', ∃ h', alloc_step h (Free p) 0 h' ∧ traced s' h').
Proof.
  intros (A & B & bs & room & Ht & <- & Hfill) Hp. unfold z_free. rewrite (tw_init _ _ _ _ _ Ht).
  pose proof (tw_on _ _ _ _ _ Ht) as (Hon & _). rewrite Hon, (tw_getsize _ _ _ _ _ p Ht).
  destruct (decide (p = 0)) as [->|Hp0].
  - rewrite (free_null _ _ _ _ _ Ht). cbn [mbind outcome_bind]. rewrite decide_True by done. cbn [mbind outcome_bind].
    unfold z_mem_trace_check_canaries, libc_free. rewrite !decide_True by done. cbn [mbind outcome_bind].
    assert (Hd : ∃ h', alloc_step (live A) (Free 0) 0 h' ∧ traced s h').
    { exists (live A). split; [constructor|]. by exists A, B, bs, room. }
    rewrite (decide_True (P := 0 = 0)) by done. cbn [mbind outcome_bind].
    replace (with_mem (tr_mem s) s) with s by (by destruct s). case_decide; [done|]. by destruct (mem_trace_hard s).
  - destruct Hp as [|[l Hl]]; [done|]. apply live_lookup in Hl. rewrite Hl. cbn [mbind outcome_bind].
    pose proof (tw_image _ _ _ _ _ Ht _ _ _ Hl) as (Hlen & Htmp & rest & HB).
    apply returns_bind, returns_bind, returns_bind. eapply returns_mono; [by eapply tw_del|]. intros [t ok] (-> & bs' & Ht').
    apply returns_bind, returns_require; [done|]. cbv beta. apply returns_ret.
    rewrite (tw_check _ _ _ _ _ _ _ _ (with_table t s) Ht Hl), Done_bind by done.
    rewrite (decide_False (P := zlen l = -1)) by lia. rewrite u64_small by lia. rewrite Nat2Z.id. apply returns_bind, returns_bind.
    destruct (mem_trace_hard s) eqn:Hhard.
    + eapply returns_mono; [apply (user_write (with_table t s) _ _ _ _ p [] l [] true _ _ Ht')|].
      * by rewrite app_nil_r, lookup_insert_eq.
      * cbn. lia.
      * apply length_replicate.
      * cbv beta. intros m (B' & Ht'' & _). cbn [returns]. rewrite decide_False by done. cbn [mem_trace_hard with_mem with_table].
        rewrite Hhard. exists (delete p (live A)). split; [by eapply step_free, live_lookup|]. rewrite insert_insert_eq in Ht''. cbn [app] in Ht''.
        rewrite app_nil_r in Ht''. eexists _, _, _, _. split; [done|]. split; [apply live_mark|by apply filled_mark].
    + pose proof HB as HB'. rewrite image_eq in HB'.
      eapply returns_mono; [apply (holds_write _ _ _ _ _ _ p (replicate (length l) MEMTRACE_CANARY_FILL) (tw_holds _ _ _ _ _ Ht') HB')|].
      { rewrite front_length. lia. }
      { apply length_replicate. }
      cbv beta. intros m Hm. cbn [returns]. rewrite decide_False by done. cbn [mem_trace_hard with_mem with_table]. rewrite Hhard.
      apply returns_bind. cbn [tr_mem]. eapply returns_mono; [by eapply (holds_free _ _ _ _ Hm), lookup_insert_eq|].
      cbv beta. intros m' Hm'. apply returns_ret. exists (delete p (live A)). split; [by eapply step_free, live_lookup|].
      eexists _, _, _, _. split; [|split; [apply live_delete|by apply filled_delete]].
      eapply (tw_frame (with_table t s)); [exact Ht'|exact Hm'|]. intros q k d. rewrite lookup_delete_Some. intros [Hq _]. cbn.
      rewrite lookup_delete_ne, lookup_insert_ne; [done|lia..].
Qed.

Lemma mem_move_nothing m d x : mem_move m d x 0 = Done m.
Proof. unfold mem_move, mem_write, mem_read. cbn. by destruct m. Qed.

Lemma mem_write_nothing m d : mem_write m d [] = Done m.
Proof. unfold mem_write, mem_read. cbn. by destruct m. Qed.

(** Allocating, filling in the canaries and tracking, as in the end of realloc. *)
Lemma fill_and_track s A B bs room n bt a :
  traced_with s A B bs (S room) → filled A → 0 ≤ n < 2 ^ 31 →
  a = 0 ∨ libc_fresh (cm_blocks (tr_mem s)) a (n + overhead s) ∧ ¬ TMP_ALLOCATED temp_heap a →
  returns ('(s, p) ← z_mem_trace_fill_canaries a n (with_mem (libc_malloc (tr_mem s) (n + overhead s) a) s);
           if decide (p = 0) then Done (s, p)
           else '(t, _) ← z_mem_trace_add p (s32 n) bt (tr_table s); Done (with_table t s, p))
    (λ '(s', r), ∃ h', alloc_step (live A) (Malloc n) r h' ∧ traced s' h').
Proof.
  intros Ht Hfill Hn Hans. pose proof (shift_nonneg (mem_trace_canaries s)) as Hsh. destruct Hans as [->|[Hfr Htmp]].
  - unfold libc_malloc, libc_new. rewrite decide_True by done. unfold z_mem_trace_fill_canaries. rewrite decide_True, Done_bind by done.
    rewrite decide_True by done. exists (live A). split; [constructor|].
    replace (with_mem (tr_mem s) s) with s by (by destruct s). by exists A, B, bs, (S room).
  - assert (HB : B !! a = None) by (by eapply fresh_none).
    pose proof (holds_new (tr_mem s) B a (fresh_bytes 0 (Z.to_nat (n + overhead s))) (tw_holds _ _ _ _ _ Ht)) as Hm.
    rewrite fresh_bytes_length, Z2Nat.id in Hm by (unfold overhead; lia). specialize (Hm Hfr).
    apply returns_bind. eapply returns_mono; [apply (new_block_filled s A B bs (S room) _ _ n a Ht Hm); [|done]|].
    { rewrite fresh_bytes_length. unfold overhead. lia. }
    intros [s' p] (-> & m' & rest & -> & Hm'). set (u := take _ _) in Hm'.
    assert (Hu : zlen u = n) by (apply user_part_length; [done|lia|rewrite fresh_bytes_length; unfold overhead; lia]).
    pose proof (mh_range _ _ Hm' a _ (lookup_insert_eq _ _ _)) as [Ha _]. rewrite decide_False, s32_small by lia.
    apply returns_bind. rewrite <- Hu at 1. cbn [tr_table with_mem].
    eapply returns_mono; [apply (tw_new s A B bs room a u rest bt m'); [done|done|done|lia|done]|].
    intros [t ok] (-> & B' & bs' & Ht' & HA & _). eexists. split; [|by eapply traced_new].
    apply step_malloc; [lia|by apply live_none|done].
Qed.

(** The reallocated contents start with the old ones. *)
Lemma realloc_prefix can l rest n :
  0 ≤ n → take (Z.to_nat n) l `prefix_of`
    take (Z.to_nat n) (drop (Z.to_nat (shift can)) (Prelude.realloc (image can l rest) (n + 2 * shift can))).
Proof.
  intros Hn. pose proof (shift_nonneg can). rewrite image_eq. pose proof (front_length can (zlen l)) as Hf.
  generalize dependent (front can (zlen l)). generalize (behind can (zlen l) rest). intros b f Hf.
  unfold Prelude.realloc. generalize (fresh_bytes (length (f ++ l ++ b)) (Z.to_nat (n + 2 * shift can) - length (f ++ l ++ b))).
  intros fr. rewrite take_app_ge by lia. rewrite <- app_assoc, drop_app_length' by lia.
  set (k := (Z.to_nat (n + 2 * shift can) - length f)%nat). assert (Hk : (Z.to_nat n ≤ k)%nat) by lia.
  destruct (decide (Z.to_nat n ≤ length l)%nat).
  - rewrite take_app_le by (rewrite length_take, length_app; lia). rewrite take_take, Nat.min_l by done.
    by rewrite take_app_le by lia.
  - rewrite (take_ge l) by lia. rewrite (take_app_ge l b) by lia. rewrite <- app_assoc, take_app_ge by lia. by apply prefix_app_r.
Qed.

Lemma realloc_null_ok s A B bs room n bt a :
  traced_with s A B bs room → filled A → 0 ≤ n < 2 ^ 31 → has_room s → answers s (Realloc 0 n) a →
  returns (z_realloc temp_heap env 0 n bt a s) (λ '(s', r), ∃ h', alloc_step (live A) (Realloc 0 n) r h' ∧ traced s' h').
Proof.
  intros Ht Hfill Hn Hroom Hans. apply (has_room_spec _ _ _ _ _ Ht) in Hroom. destruct room as [|room]; [done|].
  unfold answers in Hans. rewrite (decide_True (P := 0 = 0 ∨ _)) in Hans by auto.
  pose proof (fill_and_track s A B bs room n bt a Ht Hfill Hn Hans) as Hgo.
  unfold z_realloc. rewrite (tw_init _ _ _ _ _ Ht). pose proof (tw_on _ _ _ _ _ Ht) as (Hon & _ & Hold). rewrite Hon.
  rewrite (decide_True (P := 0 = 0)), Done_bind, Hold by done. rewrite with_overhead_eq by done.
  set (s1 := with_mem (libc_malloc (tr_mem s) (n + overhead s) a) s) in *.
  match goal with |- returns (?c ≫= _) _ => assert (Hc : c = z_mem_trace_fill_canaries a n s1) end.
  { destruct (z_mem_trace_fill_canaries a n s1) as [[s2 p]|f] eqn:Hfc; rewrite ?Hfc.
    - case_decide; [case_decide as Ha|destruct (mem_trace_hard s)]; cbn [mbind outcome_bind].
      + subst a. unfold z_mem_trace_fill_canaries in Hfc. rewrite decide_True in Hfc by done. done.
      + rewrite mem_move_nothing. cbn [mbind outcome_bind]. by destruct s2.
      + replace (n `min` 0) with 0 by lia. rewrite mem_move_nothing. cbn [mbind outcome_bind].
        rewrite decide_False by done. rewrite mem_write_nothing. cbn [mbind outcome_bind]. by destruct s2.
      + unfold libc_realloc. rewrite decide_True by done. done.
    - case_decide; [case_decide as Ha|destruct (mem_trace_hard s)]; cbn [mbind outcome_bind]; try done. }
  rewrite Hc. eapply returns_mono; [exact Hgo|]. intros [s' r] (h' & Hst & Htr). exists h'. split; [by constructor|done].
Qed.

(** The start of realloc: the block leaves the table. *)
Lemma realloc_start s A B bs room p l (K : tracer * Z * Z → outcome (tracer * Z)) Q :
  traced_with s A B bs room → A !! p = Some (l, false) →
  (∀ t bs',
     traced_with (with_table t s) (if mem_trace_hard s then <[p := (l, true)]> A else delete p A) B bs'
                 (if mem_trace_hard s then room else S room) →
     returns (K (with_table t s, p - shift (mem_trace_canaries s), zlen l)) Q) →
  returns
    ((n ← z_mem_trace_getsize p (tr_table s);
      let old_size := u64 n in
      _ ← require (old_size ≠ u64 (-1)) AssertFailed;
      '(t, ok) ← z_mem_trace_del (mem_trace_hard s) p (tr_table s);
      _ ← require (ok = true) AssertFailed;
      let s := with_table t s in
      raw_ptr ← z_mem_trace_check_canaries p s;
      Done (s, raw_ptr, old_size)) ≫= K) Q.
Proof.
  intros Ht Hl HK. pose proof (tw_image _ _ _ _ _ Ht _ _ _ Hl) as (Hlen & _).
  rewrite (tw_getsize _ _ _ _ _ p Ht), Hl, Done_bind. cbn zeta. rewrite u64_small by lia.
  change (u64 (-1)) with (2 ^ 64 - 1). rewrite require_true, Done_bind by lia. apply returns_bind, returns_bind.
  eapply returns_mono; [by eapply tw_del|]. intros [t ok] (-> & bs' & Ht'). rewrite require_true, Done_bind by done.
  rewrite (tw_check _ _ _ _ _ _ _ _ (with_table t s) Ht Hl), Done_bind by done. apply returns_ret. by eapply HK.
Qed.

Lemma realloc_soft_ok s A B bs room p l n bt a :
  traced_with s A B bs room → filled A → mem_trace_hard s = false → A !! p = Some (l, false) → 0 ≤ n < 2 ^ 31 → a ≠ 0 →
  answers s (Realloc p n) a →
  returns (z_realloc temp_heap env p n bt a s) (λ '(s', r), ∃ h', alloc_step (live A) (Realloc p n) r h' ∧ traced s' h').
Proof.
  intros Ht Hfill Hhard Hl Hn Ha0 Hans. pose proof (tw_pos _ _ _ _ _ _ _ _ Ht Hl) as Hp.
  unfold answers in Hans. rewrite decide_False in Hans by (rewrite Hhard; lia || naive_solver lia).
  destruct Hans as [|[Hfr Htmp]]; [done|]. pose proof (tw_image _ _ _ _ _ Ht _ _ _ Hl) as (Hlen & Htmp' & rest & HB).
  unfold z_realloc. rewrite (tw_init _ _ _ _ _ Ht). pose proof (tw_on _ _ _ _ _ Ht) as (Hon & _ & Hold). rewrite Hon.
  rewrite (decide_False (P := p = 0)) by lia. apply (realloc_start s A B bs room p l _ _ Ht Hl). intros t bs' Ht'.
  cbn [old_pointers with_table mem_trace_hard tr_mem]. rewrite Hold, (decide_False (P := TMP_ALLOCATED _ _)), Hhard by done.
  rewrite Hhard in Ht'. change (with_overhead (with_table t s) n) with (with_overhead s n). rewrite with_overhead_eq by done.
  pose proof (shift_nonneg (mem_trace_canaries s)) as Hsh. set (raw := p - shift (mem_trace_canaries s)) in *.
  pose proof (tw_holds _ _ _ _ _ Ht) as Hm. apply returns_bind, returns_bind.
  eapply returns_mono; [apply (holds_realloc _ _ raw _ (n + overhead s) a Hm HB); [unfold overhead; lia|done]|].
  cbv beta. intros m1 Hm1. destruct (proj1 (returns_Done _ _) (holds_free _ _ raw _ Hm HB)) as (m0 & _ & Hm0).
  assert (Ht0 : traced_with (with_mem m0 (with_table t s)) (delete p A) (delete raw B) bs' (S room)).
  { eapply tw_frame; [done|done|]. intros q k d. rewrite lookup_delete_Some. intros [Hq _]. cbn.
    rewrite lookup_delete_ne; [done|]. unfold raw. lia. }
  assert (HBa : delete raw B !! a = None).
  { destruct Hfr as (Hnone & _). destruct (delete raw B !! a) as [k|] eqn:Hk; [|done].
    rewrite lookup_delete_Some in Hk. destruct Hk as [Hne Hk]. rewrite lookup_delete_ne in Hnone by done.
    by rewrite (mh_blocks _ _ Hm), Hk in Hnone. }
  assert (Hsz : zlen (Prelude.realloc (image (mem_trace_canaries s) l rest) (n + overhead s)) = n + overhead s)
    by (apply realloc_length; unfold overhead; lia).
  eapply returns_mono; [apply (new_block_filled _ _ _ _ _ m1 _ n a Ht0 Hm1); [rewrite Hsz; unfold overhead; cbn; lia|done]|].
  intros [s' q] (-> & m2 & rest' & -> & Hm2). cbn [mem_trace_canaries with_mem with_table] in *.
  pose proof (realloc_prefix (mem_trace_canaries s) l rest n ltac:(lia)) as Hpre. change (2 * shift (mem_trace_canaries s)) with (overhead s) in Hpre.
  set (u := take (Z.to_nat n) (drop _ _)) in *.
  assert (Hu : zlen u = n) by (apply user_part_length; [done|lia|rewrite Hsz; unfold overhead; lia]).
  pose proof (mh_range _ _ Hm2 a _ (lookup_insert_eq _ _ _)) as [Ha _]. rewrite decide_False, s32_small by lia.
  apply returns_bind. rewrite <- Hu at 1. cbn [tr_table with_mem with_table].
  eapply returns_mono; [apply (tw_new (with_mem m0 (with_table t s)) _ _ bs' room a u rest' bt m2 Ht0 HBa Htmp); [lia|done]|].
  intros [t' ok] (-> & B' & bs'' & Ht'' & HA & _). cbn [mem_trace_canaries with_mem with_table] in *. eexists. split; [|eapply traced_new; [exact Ht''|by apply filled_delete]].
  rewrite live_delete. eapply step_realloc; [by apply live_lookup|lia| |done|done].
  rewrite <- live_delete. by apply live_none.
Qed.

Lemma take_min_length (l : list Z) n : take (Z.to_nat (n `min` zlen l)) l = take (Z.to_nat n) l.
Proof.
  destruct (decide (n ≤ zlen l)); [by rewrite Z.min_l by lia|]. rewrite Z.min_r by lia. rewrite !take_ge by lia. done.
Qed.

(** What realloc does to the contents in the hard mode: they are copied, and overwritten. *)
Lemma copy_and_overwrite s A B bs room p l a u rest n (K : cmem → outcome (tracer * Z)) Q :
  traced_with s A B bs room → A !! p = Some (l, true) → B !! a = Some (image (mem_trace_canaries s) u rest) →
  (∀ q k d, A !! q = Some (k, d) → q - shift (mem_trace_canaries s) ≠ a) → zlen u = n →
  (∀ m B' w,
     traced_with (with_mem m s) (<[p := (replicate (length l) MEMTRACE_CANARY_FILL, true)]> A) B' bs room →
     B' !! a = Some (image (mem_trace_canaries s) w rest) → zlen w = n → take (Z.to_nat n) l `prefix_of` w →
     returns (K m) Q) →
  returns (m ← mem_move (tr_mem s) (a + shift (mem_trace_canaries s)) p (n `min` zlen l);
           m ← (if decide (zlen l = u64 (-1)) then Done m
                else mem_write m p (replicate (Z.to_nat (zlen l)) MEMTRACE_CANARY_FILL));
           K m) Q.
Proof.
  intros Ht Hl HB Hraw Hu HK. pose proof (tw_image _ _ _ _ _ Ht _ _ _ Hl) as (Hlen & _). set (can := mem_trace_canaries s) in *. set (k := n `min` zlen l).
  assert (Hrd : mem_read (tr_mem s) p k = Done (take (Z.to_nat k) l)).
  { apply (user_read s A B bs room p [] _ (drop (Z.to_nat k) l) true); [done| |cbn; lia|rewrite length_take; lia].
    by rewrite app_nil_l, take_drop. }
  apply returns_bind. unfold mem_move. rewrite Hrd, Done_bind. set (w := take (Z.to_nat k) l ++ drop (Z.to_nat k) u).
  assert (Hk : length (take (Z.to_nat k) l) = length (take (Z.to_nat k) u)) by (rewrite !length_take; lia).
  assert (Hw : zlen w = n) by (unfold w; rewrite length_app, Hk, <- length_app, take_drop; done).
  pose proof HB as Hi. rewrite image_eq, Hu, <- (take_drop (Z.to_nat k) u), <- app_assoc in Hi.
  eapply returns_mono; [apply (holds_write _ _ _ _ _ _ (a + shift can) (take (Z.to_nat k) l) (tw_holds _ _ _ _ _ Ht) Hi); [by rewrite front_length|done]|].
  cbv beta. intros m3 Hm3.
  replace (front can n ++ _) with (image can w rest) in Hm3 by (by rewrite image_eq, Hw; unfold w; rewrite <- !app_assoc).
  assert (Ht3 : traced_with (with_mem m3 s) A (<[a := image can w rest]> B) bs room).
  { eapply tw_frame; [done|exact Hm3|]. intros q j d Hq. rewrite lookup_insert_ne; [done|]. apply not_eq_sym. by eapply Hraw. }
  change (u64 (-1)) with (2 ^ 64 - 1). rewrite (decide_False (P := zlen l = 2 ^ 64 - 1)), Nat2Z.id by lia. apply returns_bind.
  eapply returns_mono; [apply (user_write _ _ _ _ _ p [] l [] true p (replicate (length l) MEMTRACE_CANARY_FILL) Ht3)|].
  { by rewrite app_nil_l, app_nil_r. }
  { cbn. lia. }
  { apply length_replicate. }
  cbv beta. intros m4 (B4 & Ht4 & Hoth). rewrite app_nil_l, app_nil_r in Ht4. apply (HK m4 B4 w Ht4); [|done|].
  - rewrite Hoth; [apply lookup_insert_eq|]. apply not_eq_sym. by eapply Hraw.
  - rewrite <- take_min_length. fold k. by apply prefix_app_r.
Qed.

(** A block that is in the memory but not yet in the table. *)
Lemma track_present s A B bs room a w rest bt :
  traced_with s A B bs (S room) → B !! a = Some (image (mem_trace_canaries s) w rest) → ¬ TMP_ALLOCATED temp_heap a →
  (∀ q k d, A !! q = Some (k, d) → q - shift (mem_trace_canaries s) ≠ a) → zlen w < 2 ^ 31 →
  returns (z_mem_trace_add (a + shift (mem_trace_canaries s)) (zlen w) bt (tr_table s)) (λ '(t, ok), ok = true ∧
    ∃ B' bs', traced_with (with_table t s) (<[a + shift (mem_trace_canaries s) := (w, false)]> A) B' bs' room ∧
    A !! (a + shift (mem_trace_canaries s)) = None ∧ 0 < a).
Proof.
  intros Ht HB Htmp Hraw Hw. pose proof (tw_holds _ _ _ _ _ Ht) as Hm.
  destruct (proj1 (returns_Done _ _) (holds_free _ _ a _ Hm HB)) as (m5 & _ & Hm5).
  assert (Ht5 : traced_with (with_mem m5 s) A (delete a B) bs (S room)).
  { apply (tw_frame _ A B (delete a B) bs (S room) m5 Ht Hm5). intros q j d Hq.
    rewrite lookup_delete_ne; [done|]. apply not_eq_sym. by eapply Hraw. }
  eapply returns_mono; [apply (tw_new (with_mem m5 s) A (delete a B) bs room a w rest bt (tr_mem s) Ht5); [apply lookup_delete_eq|done|lia|]|].
  { by rewrite insert_delete_id. }
  intros [t ok] (-> & B' & bs' & Ht6 & HA & Ha). split; [done|]. exists B', bs'. split; [|done].
  by destruct s.
Qed.

Lemma realloc_hard_ok s A B bs room p l n bt a :
  traced_with s A B bs (S room) → filled A → mem_trace_hard s = true → A !! p = Some (l, false) → 0 ≤ n < 2 ^ 31 → a ≠ 0 →
  answers s (Realloc p n) a →
  returns (z_realloc temp_heap env p n bt a s) (λ '(s', r), ∃ h', alloc_step (live A) (Realloc p n) r h' ∧ traced s' h').
Proof.
  intros Ht Hfill Hhard Hl Hn Ha0 Hans. pose proof (tw_pos _ _ _ _ _ _ _ _ Ht Hl) as Hp.
  unfold answers in Hans. rewrite decide_True in Hans by auto.
  destruct Hans as [|[Hfr Htmp]]; [done|]. pose proof (tw_image _ _ _ _ _ Ht _ _ _ Hl) as (Hlen & Htmp' & _).
  unfold z_realloc. rewrite (tw_init _ _ _ _ _ Ht). pose proof (tw_on _ _ _ _ _ Ht) as (Hon & _ & Hold). rewrite Hon.
  rewrite (decide_False (P := p = 0)) by lia. apply (realloc_start s A B bs (S room) p l _ _ Ht Hl). intros t bs' Ht'.
  cbn [old_pointers with_table mem_trace_hard tr_mem]. rewrite Hold, (decide_False (P := TMP_ALLOCATED _ _)), Hhard by done.
  rewrite Hhard in Ht'. change (with_overhead (with_table t s) n) with (with_overhead s n). rewrite with_overhead_eq by done.
  pose proof (shift_nonneg (mem_trace_canaries s)) as Hsh.
  assert (HBa : B !! a = None) by (by eapply fresh_none).
  pose proof (tw_none _ _ _ _ _ _ Ht HBa) as HA. set (fr := fresh_bytes 0 (Z.to_nat (n + overhead s))).
  assert (Hfrl : zlen fr = n + overhead s) by (unfold fr; rewrite fresh_bytes_length; unfold overhead; lia).
  pose proof (holds_new (tr_mem s) B a fr (tw_holds _ _ _ _ _ Ht)) as Hm1. rewrite Hfrl in Hm1. specialize (Hm1 Hfr).
  change (libc_new (tr_mem s) a fr) with (libc_malloc (tr_mem s) (n + overhead s) a) in Hm1.
  apply returns_bind, returns_bind.
  eapply returns_mono; [apply (new_block_filled (with_table t s) _ B bs' _ _ fr n a Ht' Hm1); [rewrite Hfrl; unfold overhead; cbn; lia|done]|].
  intros [s' q] (-> & m2 & rest' & -> & Hm2). cbn [mem_trace_canaries with_mem with_table tr_mem] in *.
  set (can := mem_trace_canaries s) in *. set (u := take _ (drop _ fr)) in *.
  assert (Hu : zlen u = n) by (apply user_part_length; [done|lia|rewrite Hfrl; unfold overhead; fold can; lia]).
  assert (Hraw : ∀ q k d, <[p := (l, true)]> A !! q = Some (k, d) → q - shift can ≠ a).
  { intros q k d. rewrite lookup_insert_Some. intros [[<- _]|[_ Hq]] Heq;
      apply (f_equal (λ x, x + shift can)) in Heq; rewrite Z.sub_add in Heq; congruence. }
  assert (Ht2 : traced_with (with_mem m2 (with_table t s)) (<[p := (l, true)]> A) (<[a := image can u rest']> B) bs' (S room)).
  { eapply tw_frame; [done|exact Hm2|]. intros q k d Hq. cbn. rewrite lookup_insert_ne; [done|]. apply not_eq_sym. by eapply Hraw. }
  apply (copy_and_overwrite _ _ _ _ _ p l a u rest' n _ _ Ht2 (lookup_insert_eq _ _ _) (lookup_insert_eq _ _ _) Hraw Hu).
  intros m B' w Ht3 HB' Hw Hpre. rewrite insert_insert_eq in Ht3. apply returns_ret. cbn [mem_trace_canaries with_mem with_table] in HB'.
  fold can in HB'. pose proof (mh_range _ _ (tw_holds _ _ _ _ _ Ht3) _ _ HB') as [Ha _].
  rewrite (decide_False (P := a + shift can = 0)), s32_small by lia. apply returns_bind. rewrite <- Hw at 1.
  eapply returns_mono; [apply (track_present _ _ _ _ _ a w rest' bt Ht3 HB' Htmp); [|lia]|].
  { intros q k d. rewrite lookup_insert_Some. intros [[<- _]|[Hne Hq]]; cbn; fold can.
    - eapply (Hraw p l true), lookup_insert_eq.
    - eapply (Hraw q k d). by rewrite lookup_insert_ne. }
  intros [t' ok] (-> & B'' & bs'' & Ht6 & HA6 & _). cbn [mem_trace_canaries with_mem with_table] in *. fold can in HA6, Ht6.
  eexists. split; [|eapply traced_new; [exact Ht6|by apply filled_mark]].
  rewrite live_mark. eapply step_realloc; [by apply live_lookup|lia| |done|done].
  rewrite <- (live_mark A p (replicate (length l) MEMTRACE_CANARY_FILL)). by apply live_none.
Qed.

Lemma list_at (l : list Z) i : 0 ≤ i < zlen l →
  ∃ x v z, l = x ++ [v] ++ z ∧ zlen x = i ∧ l !! Z.to_nat i = Some v ∧ ∀ w, <[Z.to_nat i := w]> l = x ++ [w] ++ z.
Proof.
  intros Hi. destruct (lookup_lt_is_Some_2 l (Z.to_nat i)) as [v Hv]; [lia|].
  exists (take (Z.to_nat i) l), v, (drop (S (Z.to_nat i)) l). split; [symmetry; by apply (take_drop_middle l _ v)|].
  split; [rewrite length_take; lia|]. split; [done|]. intros w. apply (insert_take_drop l _ w). lia.
Qed.

Lemma load_store_ok s h rq bt a :
  traced s h → (∃ p i l, h !! p = Some l ∧ 0 ≤ i < zlen l ∧ (rq = Load p i ∨ ∃ v, rq = Store p i v)) →
  returns (serve rq bt a s) (λ '(s', r), ∃ h', alloc_step h rq r h' ∧ traced s' h').
Proof.
  intros (A & B & bs & room & Ht & <- & Hfill) (p & i & l & Hl & Hi & Hrq). pose proof Hl as Hl'. apply live_lookup in Hl'.
  destruct (list_at l i Hi) as (x & v & z & Hx & Hlen & Hv & Hins). rewrite Hx in Hl'. destruct Hrq as [->|[w ->]]; cbn [serve].
  - rewrite (user_read s A B bs room p x [v] z false _ _ Ht Hl') by (done || lia). cbn. exists (live A).
    split; [by eapply step_load; [lia| |]|by exists A, B, bs, room].
  - apply returns_bind. eapply returns_mono; [apply (user_write s A B bs room p x [v] z false (p + i) [w] Ht Hl'); [lia|done]|].
    cbv beta. intros m (B' & Ht' & _). rewrite <- Hins in Ht'. apply returns_ret. eexists. split; [by apply step_store|].
    by eapply traced_new.
Qed.

Lemma serve_ok s h rq bt a :
  traced s h → proper h rq → answers s rq a → never_short s rq a →
  returns (serve rq bt a s) (λ '(s', r), ∃ h', alloc_step h rq r h' ∧ traced s' h').
Proof.
  intros Htr Hp Ha Hns. destruct rq as [n|k n|p n|p|p i|p i v].
  - by apply malloc_ok.
  - by apply calloc_ok.
  - cbn [proper never_short] in Hp, Hns. destruct Hp as (Hn & Hp). destruct Htr as (A & B & bs & room & Ht & <- & Hfill). case_decide as Hp0.
    + subst p. by eapply realloc_null_ok.
    + destruct Hp as [|[l Hl]]; [done|]. destruct Hns as (Ha0 & Hroom). apply live_lookup in Hl. destruct (mem_trace_hard s) eqn:Hhard.
      * apply (has_room_spec _ _ _ _ _ Ht) in Hroom; [|done]. destruct room as [|room]; [done|]. by eapply realloc_hard_ok.
      * by eapply realloc_soft_ok.
  - cbn [serve]. apply returns_bind. eapply returns_mono; [by eapply free_ok|]. done.
  - destruct Hp as (l & Hl & Hi). apply load_store_ok; [done|]. exists p, i, l. auto.
  - destruct Hp as (l & Hl & Hi). apply load_store_ok; [done|]. exists p, i, l. eauto.
Qed.

(** ** Whole runs *)

Fixpoint serve_all (rqs : list (request * list Z * Z)) (s : tracer) : outcome (tracer * list Z) :=
  match rqs with
  | [] => Done (s, [])
  | (rq, bt, a) :: rqs => '(s, r) ← serve rq bt a s; '(s, rs) ← serve_all rqs s; Done (s, r :: rs)
  end.

(** A run in which the program uses its blocks properly, the C library answers what it may,
    and calloc and realloc do not run short, each after what was answered before. *)
Fixpoint behaves (rqs : list (request * list Z * Z)) (s : tracer) (h : gmap Z (list Z)) : Prop :=
  match rqs with
  | [] => True
  | (rq, bt, a) :: rqs =>
      proper h rq ∧ answers s rq a ∧ never_short s rq a ∧
      ∀ s' r h', serve rq bt a s = Done (s', r) → alloc_step h rq r h' → behaves rqs s' h'
  end.

Inductive alloc_steps : gmap Z (list Z) → list request → list Z → gmap Z (list Z) → Prop :=
| alloc_steps_nil h : alloc_steps h [] [] h
| alloc_steps_cons h rq r h' rqs rs h'' :
    alloc_step h rq r h' → alloc_steps h' rqs rs h'' → alloc_steps h (rq :: rqs) (r :: rs) h''.

(** The state after the initialisation with a table of [n] entries. *)
Definition tracing (n : Z) (can hard : bool) (m : cmem) : tracer := Tracer (init_table n) m true can hard true true 0.

Lemma tracing_traced n can hard m :
  0 < n < MEMTRACE_EOL → cm_blocks m = ∅ → traced (tracing n can hard m) ∅.
Proof.
  intros Hn Hm. exists ∅, ∅, [], (Z.to_nat n). split; [|split; [done|by intros p l]]. split; cbn.
  - done.
  - split; [intros a; by rewrite Hm|done..].
  - exists [], (seqZ 0 n). split; [by apply init_table_inv|]. split; [done|apply length_seqZ].
  - constructor.
  - intros p k d. split; [by intros (bt & ?%elem_of_nil)|by intros (l & ? & _)].
  - done.
  - done.
Qed.

Lemma run_ok rqs s h :
  traced s h → behaves rqs s h →
  returns (serve_all rqs s) (λ '(s', rs), ∃ h', alloc_steps h rqs.*1.*1 rs h' ∧ traced s' h').
Proof.
  revert s h. induction rqs as [|[[rq bt] a] rqs IH]; intros s h Ht Hb; cbn.
  - exists h. split; [constructor|done].
  - destruct Hb as (Hp & Ha & Hns & Hb). pose proof (serve_ok s h rq bt a Ht Hp Ha Hns) as Hs.
    apply returns_Done in Hs as ([s' r] & Hs & h' & Hst & Ht'). rewrite Hs, Done_bind. apply returns_bind.
    eapply returns_mono; [apply (IH s' h' Ht' (Hb _ _ _ Hs Hst))|]. intros [s'' rs] (h'' & Hsts & Ht''). cbn.
    exists h''. split; [by econstructor|done].
Qed.

(** The number of the bytes that are allocated. *)
Definition total (h : gmap Z (list Z)) : Z := foldr (λ x n, zlen x.2 + n) 0 (map_to_list h).

Lemma sum_permutation {A} (f : A → Z) l k : l ≡ₚ k → foldr (λ x n, f x + n) 0 l = foldr (λ x n, f x + n) 0 k.
Proof. induction 1; cbn; lia. Qed.

Lemma traced_counts s h :
  traced s h → mem_trace_hard s = false →
  mem_block_count (tr_table s) = u32 (Z.of_nat (size h)) ∧ mem_allocated_size (tr_table s) = u32 (total h).
Proof.
  intros (A & B & bs & room & Ht & <- & _) Hhard. destruct (table_counts _ _ _ (tw_table _ _ _ _ _ Ht)) as [-> ->].
  assert (Hp : (λ b, (tk_ptr b, tk_size b)) <$> bs ≡ₚ (λ x, (x.1, zlen x.2)) <$> map_to_list (live A)).
  { apply NoDup_Permutation.
    - apply (NoDup_fmap_1 fst). rewrite <- list_fmap_compose. apply (tw_nodup _ _ _ _ _ Ht).
    - apply (NoDup_fmap_1 fst). rewrite <- list_fmap_compose. apply NoDup_fst_map_to_list.
    - intros [p n]. rewrite !list_elem_of_fmap. split.
      + intros ([q k bt d] & [= -> ->] & Hb).
        destruct (proj1 (tw_tracked _ _ _ _ _ Ht q k d)) as (l & Hl & Hlen); [eauto|].
        rewrite (tw_soft _ _ _ _ _ Ht Hhard _ _ _ Hl) in Hl. exists (q, l). cbn. split; [by rewrite Hlen|].
        by apply elem_of_map_to_list, live_lookup.
      + intros ([q l] & [= -> ->] & Hl%elem_of_map_to_list%live_lookup).
        destruct (proj2 (tw_tracked _ _ _ _ _ Ht q (zlen l) false)) as (bt & Hb); [eauto|]. by exists (Tracked q (zlen l) bt false). }
  split; f_equal.
  - apply (f_equal Z.of_nat). apply Permutation_length in Hp. rewrite !length_fmap in Hp. by rewrite Hp, length_map_to_list.
  - apply (sum_permutation snd) in Hp. unfold tk_total, total. rewrite !foldr_fmap in Hp. exact Hp.
Qed.

(** C3: The wrappers are transparent when the tracing is on, with and without canaries and in
    both modes: after the initialisation, a program gets from malloc, calloc, realloc and
    free, and from the memory, what an allocator of disjoint blocks gives it, and nothing
    aborts; without the hard mode the counters are the number of its blocks and the sum of
    their sizes, modulo 2^32.  This takes a program that uses its blocks [proper]ly, a C
    library that answers unused addresses which TMP_ALLOCATED does not take for the
    temporary heap ([answers]), and calloc and realloc that do not run short of memory or of
    entries of the table ([never_short]); malloc may. *)
Theorem memtrace_transparent n can hard m rqs :
  0 < n < MEMTRACE_EOL → cm_blocks m = ∅ → behaves rqs (tracing n can hard m) ∅ →
  returns (serve_all rqs (tracing n can hard m)) (λ '(s, rs), ∃ h, alloc_steps ∅ rqs.*1.*1 rs h ∧
    (mem_trace_hard s = false →
     mem_block_count (tr_table s) = u32 (Z.of_nat (size h)) ∧ mem_allocated_size (tr_table s) = u32 (total h))).
Proof.
  intros Hn Hm Hb. eapply returns_mono; [apply run_ok; [by apply tracing_traced|exact Hb]|].
  intros [s rs] (h & Hst & Htr). exists h. split; [done|]. by apply traced_counts.
Qed.

(** ** What is detected *)

Lemma require_or {B} P `{Decision P} f (k : unit → outcome B) : (P → k tt = Fault f) → (require P f ≫= k) = Fault f.
Proof. intros Hk. unfold require. case_decide; [by apply Hk|done]. Qed.

Lemma canary_word_eq b : bytes b → length b = 4%nat → le_value b = MEMTRACE_CANARY_CHECK → b = fill4.
Proof. intros Hb Hl Hv. rewrite <- (le_bytes_le_value b Hb), Hl, Hv. reflexivity. Qed.

Lemma size_word_eq b n : bytes b → length b = 8%nat → 0 ≤ n < 2 ^ 64 → le_value b = n → b = le_bytes 8 (u64 n).
Proof. intros Hb Hl Hn Hv. rewrite <- (le_bytes_le_value b Hb), Hl, Hv, u64_small by done. done. Qed.

Lemma neg_word_eq b n : bytes b → length b = 8%nat → 0 ≤ n < 2 ^ 31 → n = u64 (- le_value b) → b = le_bytes 8 (u64 (- n)).
Proof.
  intros Hb Hl Hn Hv. rewrite <- (le_bytes_le_value b Hb), Hl. f_equal. pose proof (le_value_range b Hb) as Hr. rewrite Hl in Hr.
  change (256 ^ Z.of_nat 8) with (2 ^ 64) in Hr. rewrite Hv. unfold u64. apply (Zmod_unique _ _ ((- le_value b) / 2 ^ 64)); [lia|].
  pose proof (Z.div_mod (- le_value b) (2 ^ 64)). lia.
Qed.

(** Changed canaries make z_mem_trace_check_canaries abort. *)
Lemma damaged_check s B a l c1 c2 rest :
  mem_trace_canaries s = true → mem_holds (tr_mem s) B →
  B !! a = Some (le_bytes 8 (u64 (zlen l)) ++ c1 ++ l ++ c2 ++ rest) → bytes c1 → bytes c2 →
  length c1 = 16%nat → length c2 = 24%nat → zlen l < 2 ^ 31 →
  c1 ≠ drop 8 (concat (canary (zlen l))) ∨ c2 ≠ concat (canary (zlen l)) →
  z_mem_trace_check_canaries (a + sizeof_canary) s = Fault AssertFailed.
Proof.
  intros Hcan Hm Ha Hb1 Hb2 Hl1 Hl2 Hl Hne.
  destruct (split_list c1 8) as (b2 & c1' & -> & ?); [lia|]. destruct (split_list c1' 4) as (b3 & b4 & -> & ?); [lens|].
  destruct (split_list c2 8) as (a1 & c2' & -> & ?); [lia|]. destruct (split_list c2' 8) as (a2 & c2'' & -> & ?); [lens|].
  destruct (split_list c2'' 4) as (a3 & a4 & -> & ?); [lens|]. rewrite !length_app in Hl1. rewrite !length_app in Hl2.
  apply Forall_app in Hb1 as (Hb1 & (Hb3 & Hb4)%Forall_app).
  apply Forall_app in Hb2 as (Hc1 & (Hc2 & (Hc3 & Hc4)%Forall_app)%Forall_app).
  assert (Ha' : B !! a = Some (concat [le_bytes 8 (u64 (zlen l)); b2; b3; b4; l; a1; a2; a3; a4; rest])).
  { rewrite Ha. cbn [concat]. by rewrite app_nil_r, <- !app_assoc. }
  rewrite (check_canaries_eq _ _ _ _ _ _ _ _ _ _ _ _ Hcan Hm Ha') by lia.
  do 5 (apply require_or; intros ?). exfalso.
  assert (b2 = le_bytes 8 (u64 (- zlen l))) as -> by (apply neg_word_eq; [done|lia|lia|done]).
  assert (b3 = fill4) as -> by (apply canary_word_eq; [done|lia|tauto || (destruct_and?; congruence)]).
  assert (b4 = fill4) as -> by (apply canary_word_eq; [done|lia|tauto || (destruct_and?; congruence)]).
  assert (a1 = le_bytes 8 (u64 (zlen l))) as -> by (apply size_word_eq; [done|lia|lia|done]).
  assert (a3 = fill4) as -> by (apply canary_word_eq; [done|lia|tauto || (destruct_and?; congruence)]).
  assert (a4 = fill4) as -> by (apply canary_word_eq; [done|lia|tauto || (destruct_and?; congruence)]).
  assert (a2 = le_bytes 8 (u64 (- zlen l))) as ->.
  { rewrite <- (le_bytes_le_value a2) by done. replace (length a2) with 8%nat by lia.
    match goal with Hv : le_value a2 = _ |- _ => rewrite Hv end. rewrite le_value_le_bytes. f_equal. unfold u64. apply Z.mod_mod. lia. }
  destruct Hne as [Hne|Hne]; by apply Hne.
Qed.

(** The two sizes in front of a block do not agree. *)
Definition sizes_clash (c1 : list Z) : Prop := le_value (take 8 c1) ≠ u64 (- le_value (take 8 (drop 8 c1))).

Lemma clash_check s B a l c1 rest :
  mem_trace_canaries s = true → mem_holds (tr_mem s) B → B !! a = Some (c1 ++ l ++ rest) →
  length c1 = 24%nat → sizes_clash c1 → z_mem_trace_check_canaries (a + sizeof_canary) s = Fault AssertFailed.
Proof.
  intros Hcan Hm Ha Hl1 Hne. pose proof (mh_range _ _ Hm _ _ Ha) as Hr. unfold sizes_clash in Hne.
  destruct (split_list c1 8) as (b1 & c1' & -> & ?); [lia|]. rewrite length_app in Hl1.
  destruct (split_list c1' 8) as (b2 & b3 & -> & ?); [lia|].
  rewrite (drop_app_length' b1), (take_app_length' b1), (take_app_length' b2) in Hne by lia.
  unfold z_mem_trace_check_canaries, read_u64. rewrite decide_False by lens. rewrite Hcan.
  rewrite (holds_read _ _ a [] b1 (b2 ++ b3 ++ l ++ rest) (a + sizeof_canary - sizeof_canary) 8 Hm);
    [|by rewrite Ha; cbn [app]; rewrite <- !app_assoc|lens|lia].
  cbn [fmap outcome_fmap mbind outcome_bind].
  rewrite (holds_read _ _ a b1 b2 (b3 ++ l ++ rest) (a + sizeof_canary - sizeof_canary + 8) 8 Hm);
    [|by rewrite Ha, <- !app_assoc|lens|lia].
  cbn [fmap outcome_fmap mbind outcome_bind]. by apply require_or.
Qed.

(** The program writes over the canaries of a block. *)
Definition overwrite (s : tracer) (p : Z) (l c1 c2 : list Z) : outcome tracer :=
  m ← mem_write (tr_mem s) (p - 24) c1; m ← mem_write m (p + zlen l) c2; Done (with_mem m s).

Lemma overwrite_ok s A B bs room p l d c1 c2 :
  traced_with s A B bs room → mem_trace_canaries s = true → A !! p = Some (l, d) → length c1 = 24%nat → length c2 = 24%nat →
  returns (overwrite s p l c1 c2) (λ s', ∃ m rest, s' = with_mem m s ∧
    mem_holds m (<[p - sizeof_canary := c1 ++ l ++ c2 ++ rest]> B)).
Proof.
  intros Ht Hcan Hl H1 H2. pose proof (tw_image _ _ _ _ _ Ht _ _ _ Hl) as (_ & _ & rest & HB). rewrite Hcan in HB. cbn [shift] in HB.
  assert (HB' : B !! (p - sizeof_canary) = Some ([] ++ concat (canary (zlen l)) ++ l ++ concat (canary (zlen l)) ++ rest)).
  { rewrite HB. unfold image. rewrite !concat_app. cbn [app concat]. by rewrite !app_nil_r, <- ?app_assoc. }
  pose proof (canary_length (zlen l)) as Hc. unfold overwrite. apply returns_bind.
  eapply returns_mono; [apply (holds_write _ _ _ _ _ _ (p - 24) c1 (tw_holds _ _ _ _ _ Ht) HB'); [lens|lia]|].
  cbv beta. intros m1 Hm1. apply returns_bind.
  eapply returns_mono; [apply (holds_write _ _ (p - sizeof_canary) (c1 ++ l) (concat (canary (zlen l))) rest (p + zlen l) c2 Hm1)|].
  { by rewrite lookup_insert_eq, <- !app_assoc. }
  { lens. }
  { lia. }
  cbv beta. intros m2 Hm2. exists m2, rest. split; [done|]. by rewrite insert_insert_eq, <- !app_assoc in Hm2.
Qed.

(** Freeing and reallocating abort when the pointer is not one of the blocks, ... *)
Lemma unknown_aborts s h p :
  traced s h → mem_trace_hard s = false → p ≠ 0 → h !! p = None →
  z_free temp_heap env p s = Fault AssertFailed ∧ ∀ n bt a, z_realloc temp_heap env p n bt a s = Fault AssertFailed.
Proof.
  intros (A & B & bs & room & Ht & <- & _) Hhard Hp Hnone. pose proof (tw_on _ _ _ _ _ Ht) as (Hon & _).
  assert (HA : A !! p = None).
  { destruct (A !! p) as [[l d]|] eqn:Hl; [|done]. rewrite (tw_soft _ _ _ _ _ Ht Hhard _ _ _ Hl) in Hl.
    by rewrite (proj2 (live_lookup A p l) Hl) in Hnone. }
  assert (Hdel : z_mem_trace_del (mem_trace_hard s) p (tr_table s) = Done (tr_table s, false)).
  { pose proof (table_del (mem_trace_hard s) _ _ _ p (tw_table _ _ _ _ _ Ht)) as Hd.
    pose proof (tw_find _ _ _ _ _ p Ht) as Hf. rewrite HA in Hf. rewrite Hf in Hd. apply Hd. intros _ [q n e f] Hb.
    destruct (proj1 (tw_tracked _ _ _ _ _ Ht q n f)) as (k & Hk & _); [eauto|]. by apply (tw_soft _ _ _ _ _ Ht Hhard) in Hk. }
  split; [|intros n bt a].
  - unfold z_free. rewrite (tw_init _ _ _ _ _ Ht), Hon, (tw_getsize _ _ _ _ _ p Ht), HA, Done_bind, (decide_False (P := p = 0)) by done.
    by rewrite Hdel.
  - unfold z_realloc. rewrite (tw_init _ _ _ _ _ Ht), Hon, (decide_False (P := p = 0)), (tw_getsize _ _ _ _ _ p Ht), HA, Done_bind by done.
    done.
Qed.

Lemma damage_aborts s h p l c1 c2 :
  traced s h → mem_trace_canaries s = true → h !! p = Some l → bytes c1 → bytes c2 → length c1 = 24%nat → length c2 = 24%nat →
  take 8 c1 = le_bytes 8 (u64 (zlen l)) ∨ sizes_clash c1 →
  (c1, c2) ≠ (concat (canary (zlen l)), concat (canary (zlen l))) →
  returns (overwrite s p l c1 c2) (λ s', z_free temp_heap env p s' = Fault AssertFailed ∧
    ∀ n bt a, z_realloc temp_heap env p n bt a s' = Fault AssertFailed).
Proof.
  intros (A & B & bs & room & Ht & <- & _) Hcan Hl Hb1 Hb2 H1 H2 Hsz Hne. apply live_lookup in Hl.
  pose proof (tw_on _ _ _ _ _ Ht) as (Hon & Hini & _). pose proof (tw_pos _ _ _ _ _ _ _ _ Ht Hl) as Hp.
  pose proof (tw_image _ _ _ _ _ Ht _ _ _ Hl) as (Hlen & _).
  eapply returns_mono; [by apply (overwrite_ok s A B bs room p l false c1 c2)|]. intros s' (m & rest & -> & Hm).
  pose proof (tw_del _ _ _ _ _ _ _ _ Ht Hl) as Hd. apply returns_Done in Hd as ([t ok] & Hd & -> & _).
  assert (Hchk : z_mem_trace_check_canaries p (with_table t (with_mem m s)) = Fault AssertFailed).
  { replace p with (p - sizeof_canary + sizeof_canary) at 1 by lia.
    destruct Hsz as [Hsz|Hsz];
      [|eapply (clash_check (with_table t (with_mem m s)) _ (p - sizeof_canary) l c1 (c2 ++ rest) Hcan Hm); [apply lookup_insert_eq|done..]].
    apply (damaged_check (with_table t (with_mem m s)) _ (p - sizeof_canary) l (drop 8 c1) c2 rest Hcan Hm);
      [rewrite lookup_insert_eq, <- Hsz; by rewrite (app_assoc (take 8 c1)), take_drop|by apply Forall_drop|done|rewrite length_drop; lia|done..|].
    destruct (decide (c2 = concat (canary (zlen l)))) as [->|]; [left|by right]. intros Hc. apply Hne. f_equal.
    rewrite <- (take_drop 8 c1), Hsz, Hc. unfold canary. cbn [concat]. by rewrite drop_app_length' by (by rewrite le_bytes_length). }
  assert (Hi : z_mem_trace_init_internal env (with_mem m s) = with_mem m s).
  { unfold z_mem_trace_init_internal. cbn. by rewrite Hini. }
  split; [|intros n bt a].
  - unfold z_free. rewrite Hi. cbn [mem_trace tr_table mem_trace_hard with_mem].
    rewrite Hon, (tw_getsize _ _ _ _ _ p Ht), Hl, Done_bind, (decide_False (P := p = 0)), Hd by lia. cbn [mbind outcome_bind].
    rewrite require_true by done. cbn [mbind outcome_bind]. by rewrite Hchk.
  - unfold z_realloc. rewrite Hi. cbn [mem_trace tr_table mem_trace_hard with_mem].
    rewrite Hon, (decide_False (P := p = 0)), (tw_getsize _ _ _ _ _ p Ht), Hl, Done_bind by lia. cbn zeta. rewrite (u64_small (zlen l)) by lia.
    change (u64 (-1)) with (2 ^ 64 - 1). rewrite (require_true (zlen l ≠ _)) by lia. cbn [mbind outcome_bind]. rewrite Hd. cbn [mbind outcome_bind].
    rewrite require_true by done. cbn [mbind outcome_bind]. by rewrite Hchk.
Qed.

(** C11: Misuse is detected in every state that a program reaches by proper use (as in
    [memtrace_transparent], with the tracing on).  In the normal mode, freeing or
    reallocating a pointer other than NULL that is not one of its blocks aborts; in the hard
    mode it does not, [Runs.hard_double_free].  With canaries, in both modes, freeing or
    reallocating a block aborts after the program wrote over the 24 bytes in front of it and
    the 24 behind it, be it that only one byte differs from the canaries; except when it
    replaced both sizes in front by another size and its negative, which are then believed. *)
Theorem memtrace_detects n can hard m rqs p c1 c2 :
  0 < n < MEMTRACE_EOL → cm_blocks m = ∅ → behaves rqs (tracing n can hard m) ∅ → p ≠ 0 →
  bytes c1 → bytes c2 → length c1 = 24%nat → length c2 = 24%nat →
  returns (serve_all rqs (tracing n can hard m)) (λ '(s, rs), ∃ h, alloc_steps ∅ rqs.*1.*1 rs h ∧
    match h !! p with
    | None =>
        mem_trace_hard s = false →
        z_free temp_heap env p s = Fault AssertFailed ∧ ∀ n bt a, z_realloc temp_heap env p n bt a s = Fault AssertFailed
    | Some l =>
        mem_trace_canaries s = true → take 8 c1 = le_bytes 8 (u64 (zlen l)) ∨ sizes_clash c1 →
        (c1, c2) ≠ (concat (canary (zlen l)), concat (canary (zlen l))) →
        returns (overwrite s p l c1 c2) (λ s, z_free temp_heap env p s = Fault AssertFailed ∧
          ∀ n bt a, z_realloc temp_heap env p n bt a s = Fault AssertFailed)
    end).
Proof.
  intros Hn Hm Hb Hp Hb1 Hb2 H1 H2. eapply returns_mono; [apply run_ok; [by apply tracing_traced|exact Hb]|].
  intros [s rs] (h & Hst & Htr). exists h. split; [done|]. destruct (h !! p) as [l|] eqn:Hl.
  - intros Hcan Hsz Hne. by eapply damage_aborts.
  - intros Hhard. by apply (unknown_aborts s h).
Qed.
End transparent.

(** The first call of a wrapper starts the tracing when ZORP_MEMTRACE is set. *)
Lemma init_tracing temp_heap can hard :
  z_mem_trace_init_internal (Environment true can hard) (start temp_heap)
  = tracing MEMTRACE_HEAP_SIZE can hard (tr_mem (start temp_heap)).
Proof. unfold z_mem_trace_init_internal. reflexivity. Qed.

(** ** Backtraces *)

Lemma hex_digits_length f v : (1 ≤ f)%nat → (1 ≤ length (hex_digits f v) ≤ f)%nat.
Proof.
  revert v. induction f as [|f IH]; intros v Hf; [lia|]. cbn. rewrite length_app. cbn. case_decide; [cbn; lia|].
  destruct f; [cbn; lia|]. specialize (IH (v / 16)). lia.
Qed.

Lemma print_ptr_length v : 4 ≤ zlen (print_ptr v) ≤ 19.
Proof. unfold print_ptr. rewrite !length_app. pose proof (hex_digits_length 16 v). cbn -[hex_digits]. lia. Qed.

(** The loop with [out] in front of [room] bytes. *)
Lemma format_loop_ok vs i more out room :
  Forall (λ v, v ≠ 0) vs → (length vs < i)%nat → 0 < zlen room < 2 ^ 32 → head room = Some 0 →
  returns (format_loop i (vs ++ 0 :: more) (out ++ room) (zlen out) (zlen room)) (λ p,
    length p = length (out ++ room) ∧
    (19 * zlen vs < zlen room → ∃ tail, p = out ++ concat (print_ptr <$> vs) ++ 0 :: tail)).
Proof.
  revert i out room. induction vs as [|v vs IH]; intros i out room Hvs Hi Hroom Hhead.
  - destruct i as [|i]; [cbn in Hi; lia|]. assert (Hd : length (out ++ room) = length (out ++ room) ∧ (19 * zlen (@nil Z) < zlen room →
      ∃ tail, out ++ room = out ++ concat (print_ptr <$> []) ++ 0 :: tail)).
    { split; [done|]. intros _. destruct room as [|c room]; [done|]. injection Hhead as ->. by exists room. }
    cbn [format_loop app]. case_decide; [rewrite decide_True by done|]; done.
  - destruct i as [|i]; [cbn in Hi; lia|]. apply Forall_cons in Hvs as [Hv Hvs]. cbn [format_loop app]. pose proof (print_ptr_length v) as Hlen.
    case_decide as Hfit; [|split; [done|cbn; lia]]. rewrite decide_False by done. unfold snprintf. rewrite !decide_False by lia.
    set (t := take (Z.to_nat (zlen room - 1)) (print_ptr v) ++ [0]).
    assert (Ht : (length t ≤ length room)%nat) by (unfold t; rewrite length_app, length_take; cbn; lia).
    rewrite store_range_splice by (rewrite ?length_app; lia). rewrite Done_bind, Nat2Z.id.
    replace (splice (out ++ room) (length out) t) with (out ++ t ++ drop (length t) room)
      by (unfold splice; by rewrite take_app_length, drop_app_add).
    destruct (decide (zlen (print_ptr v) < zlen room)) as [Hmore|Hfull].
    + assert (Htt : t = print_ptr v ++ [0]) by (unfold t; rewrite take_ge by lia; done).
      rewrite Htt. set (room' := 0 :: drop (length (print_ptr v ++ [0])) room).
      assert (Hr : zlen room' = zlen room - zlen (print_ptr v)) by (unfold room'; cbn [length]; rewrite length_drop, length_app; cbn [length]; lia).
      replace (out ++ (print_ptr v ++ [0]) ++ _) with ((out ++ print_ptr v) ++ room') by (unfold room'; by rewrite <- !app_assoc).
      replace (u32 (zlen room - zlen (print_ptr v))) with (zlen room') by (unfold u32; rewrite Z.mod_small; lia).
      replace (zlen out + zlen (print_ptr v)) with (zlen (out ++ print_ptr v)) by (rewrite length_app; lia).
      pose proof (IH i (out ++ print_ptr v) room' Hvs ltac:(cbn in Hi; lia) ltac:(lia) eq_refl) as Hgo.
      eapply returns_mono; [exact Hgo|].
      intros p (Hp & Htail). split; [rewrite Hp, !length_app; lia|]. intros Hbig. destruct Htail as [tail ->]; [cbn in Hbig; lia|].
      exists tail. rewrite fmap_cons. cbn [concat]. by rewrite <- !app_assoc.
    + replace (u32 (zlen room - zlen (print_ptr v))) with 0 by (unfold u32; rewrite Z.mod_small; lia).
      destruct i as [|i]; [cbn in Hi; lia|]. cbn [format_loop]. rewrite decide_False by lia. cbn [returns].
      split; [rewrite !length_app, length_drop; lia|cbn; lia].
Qed.

Lemma bt_loop_spec n btrace : (length (bt_loop n btrace) ≤ n)%nat ∧ Forall (λ v, v ≠ 0) (bt_loop n btrace).
Proof.
  revert btrace. induction n as [|n IH]; intros [|v btrace]; cbn; try (split; [lia|constructor]).
  case_decide; [cbn; split; [lia|constructor]|]. destruct (IH btrace). split; [cbn; lia|by constructor].
Qed.

(** A backtrace is printed without leaving the buffer, whatever its size; a buffer of
    MEMTRACE_BACKTRACE_BUF_LEN bytes has room for all of it. *)
Theorem format_bt_spec btrace buf :
  0 < zlen buf < 2 ^ 32 →
  let vs := bt_loop (Z.to_nat (MEMTRACE_BACKTRACE_LEN - 1)) btrace in
  returns (z_mem_trace_format_bt (z_mem_trace_bt btrace) buf (zlen buf)) (λ p,
    length p = length buf ∧
    (MEMTRACE_BACKTRACE_BUF_LEN ≤ zlen buf → ∃ tail, p = concat (print_ptr <$> vs) ++ 0 :: tail)).
Proof.
  intros Hbuf vs. unfold z_mem_trace_format_bt, z_mem_trace_bt. fold vs.
  destruct (bt_loop_spec (Z.to_nat (MEMTRACE_BACKTRACE_LEN - 1)) btrace) as [Hlen Hnz]. fold vs in Hlen, Hnz.
  change (Z.to_nat (MEMTRACE_BACKTRACE_LEN - 1)) with 63%nat in Hlen.
  unfold store. rewrite decide_True, Done_bind by lia. destruct buf as [|c buf]; [cbn in Hbuf; lia|].
  change (<[Z.to_nat 0 := 0]> (c :: buf)) with (0 :: buf).
  pose proof (format_loop_ok vs 64 [] [] (0 :: buf) Hnz ltac:(lia) Hbuf eq_refl) as Hgo. cbn [app length] in *.
  eapply returns_mono; [exact Hgo|]. intros p (Hp & Htail). split; [done|]. intros Hbig. apply Htail.
  unfold MEMTRACE_BACKTRACE_BUF_LEN, MEMTRACE_BACKTRACE_LEN in Hbig. cbn [length]. lia.
Qed.

(** ** Runs in which the code does something else *)
Module Runs.
#[local] Instance runs_mem : FreshMem := zero_mem.

Definition temp_heap : Z := 2 ^ 20.
Definition env : environment := Environment true true false.
Definition nothing : cmem := CMem ∅ ∅.

Definition run (rqs : list (request * list Z * Z)) (s : tracer) : outcome (tracer * list Z) := serve_all temp_heap env rqs s.

(** The blocks that are counted, and the answers. *)
Definition counted (o : outcome (tracer * list Z)) : outcome (Z * list Z) :=
  '(s, rs) ← o; Done (mem_block_count (tr_table s), rs).

(** A proper run. *)
Example proper_run :
  counted (run [(Malloc 2, [7], 4096); (Store 4120 1 65, [], 0); (Realloc 4120 3, [7], 8192); (Load 8216 1, [], 0);
                (Free 8216, [], 0)] (tracing 2 true false nothing)) = Done (0, [4120; 0; 8216; 65; 0]).
Proof. vm_compute. reflexivity. Qed.

(** A calloc that fails is counted as a block at NULL, and freeing NULL then writes there. *)
Example failed_calloc : counted (run [(Calloc 1 8, [], 0)] (tracing 2 false false nothing)) = Done (1, [0]).
Proof. vm_compute. reflexivity. Qed.

Example failed_calloc_free :
  counted (run [(Calloc 1 8, [], 0); (Free 0, [], 0)] (tracing 2 false false nothing)) = Fault OutOfBounds.
Proof. vm_compute. reflexivity. Qed.

(** After a realloc that fails the old block, which is still there, cannot be freed. *)
Example failed_realloc_free :
  counted (run [(Malloc 4, [], 4096); (Realloc 4096 8, [], 0); (Free 4096, [], 0)] (tracing 2 false false nothing))
  = Fault AssertFailed.
Proof. vm_compute. reflexivity. Qed.

(** Calloc does not notice that the table is full: the block cannot be freed. *)
Example calloc_table_full :
  counted (run [(Malloc 4, [], 4096); (Calloc 1 4, [], 8192); (Free 8192, [], 0)] (tracing 1 false false nothing))
  = Fault AssertFailed.
Proof. vm_compute. reflexivity. Qed.

(** The canaries of an empty array do not fit. *)
Example calloc_empty : counted (run [(Calloc 0 8, [], 4096)] (tracing 1 true false nothing)) = Fault OutOfBounds.
Proof. vm_compute. reflexivity. Qed.

(** In the hard mode freeing a block twice goes unnoticed. *)
Example hard_double_free :
  counted (run [(Malloc 4, [], 4096); (Free 4120, [], 0); (Free 4120, [], 0)] (tracing 2 true true nothing))
  = Done (1, [4120; 0; 0]).
Proof. vm_compute. reflexivity. Qed.

(** A block whose distance to the temporary heap is a multiple of 2^32 is never freed. *)
Example far_block_leaks :
  ('(s, _) ← run [(Malloc 4, [], temp_heap + 2 ^ 32); (Free (temp_heap + 2 ^ 32), [], 0)] (tracing 2 false false nothing);
   Done (mem_block_count (tr_table s), cm_blocks (tr_mem s) !! (temp_heap + 2 ^ 32))) = Done (0, Some 4).
Proof. vm_compute. reflexivity. Qed.

(** What was allocated before the old functions were found is not in the table: freeing it aborts. *)
Definition before_init : tracer :=
  begin_init (Tracer (Table ∅ ∅ MEMTRACE_EOL 0 0 0) (CMem (put ∅ temp_heap (replicate 64 0)) ∅) false false false false false 0).

Example temp_block : (r ← z_malloc temp_heap env 8 [] 0 before_init; Done (r.2, temp_brk r.1)) = Done (temp_heap, 8).
Proof. vm_compute. reflexivity. Qed.

Example temp_block_free :
  counted (run [(Free temp_heap, [], 0)] (tracing 2 false false (tr_mem before_init))) = Fault AssertFailed.
Proof. vm_compute. reflexivity. Qed.

(** Without tracing such a block loses its contents when it is reallocated. *)
Example temp_block_realloc :
  (let s := z_mem_trace_init_pointers before_init in
   '(s, rs) ← run [(Store temp_heap 0 65, [], 0); (Realloc temp_heap 16, [], 4096); (Load 4096 0, [], 0)] s; Done rs)
  = Done [0; 4096; 0].
Proof. vm_compute. reflexivity. Qed.

(** A size of 2^31 bytes is negative for the canaries. *)
Example big_block_canaries :
  match z_mem_trace_fill_canaries 4096 (2 ^ 31)
          (tracing 1 true false (libc_new nothing 4096 (replicate 100 0))) with Fault f => f = OutOfBounds | Done _ => False end.
Proof. vm_compute. reflexivity. Qed.
End Runs.

Lemma memtrace_first_answer : answers Runs.temp_heap (tracing 2 true false Runs.nothing) (Malloc 2) 4096.
Proof. right. split; [|by vm_compute]. split; [done|]. split; [by vm_compute|]. split; [by vm_compute|]. intros b k. done. Qed.

Lemma memtrace_malloc_behaves :
  @behaves Runs.runs_mem Runs.temp_heap Runs.env [(Malloc 2, [7], 4096)] (tracing 2 true false Runs.nothing) ∅.
Proof. split; [done|]. split; [exact memtrace_first_answer|done]. Qed.

Lemma memtrace_run_behaves :
  @behaves Runs.runs_mem Runs.temp_heap Runs.env
    [(Malloc 2, [7], 4096); (Store 4120 1 65, [], 0); (Free 4120, [], 0)] (tracing 2 true false Runs.nothing) ∅.
Proof.
  split; [done|]. split; [exact memtrace_first_answer|]. split; [done|]. intros s' r h' Hs Hst.
  assert (Hr : r = 4120).
  { apply (f_equal (λ o : outcome (tracer * Z), snd <$> o)) in Hs. vm_compute in Hs. by injection Hs as <-. }
  clear Hs. subst r. inversion Hst as [n p l Hp Hn Hl| | | | | | | |]; subst.
  split; [exists l; split; [apply lookup_insert_eq|lia]|]. do 2 (split; [done|]). intros s2 r2 h2 _ Hst2.
  split; [|by split]. right. inversion Hst2; subst. rewrite lookup_insert_eq. by eexists.
Qed.

Lemma memtrace_transparent_witness :
  0 < 2 < MEMTRACE_EOL ∧
  returns (@serve_all Runs.runs_mem Runs.temp_heap Runs.env [(Malloc 2, [7], 4096); (Store 4120 1 65, [], 0); (Free 4120, [], 0)]
             (tracing 2 true false Runs.nothing)) (λ '(s, rs),
    ∃ h, alloc_steps ∅ [Malloc 2; Store 4120 1 65; Free 4120] rs h ∧
    (mem_trace_hard s = false →
     mem_block_count (tr_table s) = u32 (Z.of_nat (size h)) ∧ mem_allocated_size (tr_table s) = u32 (total h))).
Proof.
  split; [by vm_compute|].
  pose proof (memtrace_transparent (H := Runs.runs_mem) Runs.temp_heap Runs.env 2 true false Runs.nothing _ ltac:(by vm_compute) eq_refl
                memtrace_run_behaves) as Hw.
  exact Hw.
Defined.

Lemma memtrace_detects_witness :
  0 < 2 < MEMTRACE_EOL ∧
  returns (@serve_all Runs.runs_mem Runs.temp_heap Runs.env [(Malloc 2, [7], 4096)] (tracing 2 true false Runs.nothing)) (λ '(s, rs),
    rs = [4120] ∧ ∃ l, zlen l = 2 ∧ (mem_trace_canaries s = true →
      returns (overwrite s 4120 l (replicate 8 0 ++ [1] ++ replicate 15 0) (replicate 24 0)) (λ s, z_free Runs.temp_heap Runs.env 4120 s = Fault AssertFailed))).
Proof.
  split; [by vm_compute|].
  pose proof (memtrace_detects (H := Runs.runs_mem) Runs.temp_heap Runs.env 2 true false Runs.nothing _ 4120
                (replicate 8 0 ++ [1] ++ replicate 15 0) (replicate 24 0) ltac:(by vm_compute) eq_refl memtrace_malloc_behaves ltac:(done)
                ltac:(by repeat constructor) ltac:(by apply Forall_replicate) eq_refl eq_refl) as Hw.
  destruct (proj1 (returns_Done _ _) Hw) as ([s rs] & Hs & h & Hst & Hd). clear Hw. rewrite Hs. cbn [returns].
  assert (Hrs : rs = [4120]).
  { apply (f_equal (λ o : outcome (tracer * list Z), snd <$> o)) in Hs. vm_compute in Hs. by injection Hs as <-. }
  clear Hs. split; [done|]. subst rs. inversion Hst as [|h0 rq r h1 rqs rs h2 H1 H2]; subst. inversion H2; subst.
  inversion H1; subst. exists l. split; [done|]. intros Hcan. rewrite lookup_insert_eq in Hd.
  eapply returns_mono; [apply (Hd Hcan)|].
  - right. by vm_compute.
  - match goal with Hl : zlen l = 2 |- _ => rewrite Hl end. by vm_compute.
  - intros s' (Hf & _). exact Hf.
Defined.

Lemma format_bt_spec_witness :
  0 < zlen (replicate 30 9) < 2 ^ 32 ∧
  returns (z_mem_trace_format_bt (z_mem_trace_bt [0xab; 0x1234; 0; 5]) (replicate 30 9) (zlen (replicate 30 9))) (λ p, length p = 30%nat) ∧
  (p ← z_mem_trace_format_bt (z_mem_trace_bt [0xab; 0x1234; 0; 5]) (replicate 30 9) 30; Done (take 13 p)) = Done (str "0xab,0x1234," ++ [0]).
Proof.
  split; [by vm_compute|]. split; [|by vm_compute].
  pose proof (format_bt_spec [0xab; 0x1234; 0; 5] (replicate 30 9) ltac:(by vm_compute)) as Hw.
  cbv zeta in Hw. refine (returns_mono _ _ _ Hw _). intros p (Hp & _). exact Hp.
Defined.
