(* ===== verification/Crypt.v ===== *)
(** * Password hashes (crypt.c)

    crypt(3) with MD5, and z_crypt in the three ways it can be compiled.  MD5 itself and the
    crypt() of the C library are parameters; a context of MD5 is the bytes it was given.
    The code computes the published algorithm ([hash_text]), and the text tells digests
    apart. *)

From S2P Require Import Prelude Heap CLib Dump.
Open Scope Z_scope.

(** The digest of a sequence of bytes. *)
Class MD5 := md5 : list Z → list Z.

Class MD5Laws `{MD5} : Prop := {
  md5_length l : length (md5 l) = 16%nat;
  md5_bytes l : bytes (md5 l)
}.

Definition CRYPT_MD5_MAGIC : list Z := str "$1$".
Definition CRYPT_MD5_MAGIC_LEN : Z := 3.

Definition md5_crypt_b64t : list Z := str "./0123456789ABCDEFGHIJKLMNOPQRSTUVWXYZabcdefghijklmnopqrstuvwxyz".

(** Writes [n] characters of [v] at [p]. *)
Fixpoint md5_crypt_to64 (n : nat) (s : list Z) (p v : Z) : outcome (list Z) :=
  match n with
  | O => Done s
  | S n => s ← store s p (md5_crypt_b64t !!! Z.to_nat (Z.land v 0x3f)); md5_crypt_to64 n s (p + 1) (Z.shiftr v 6)
  end.

(** The search for the end of the salt. *)
Fixpoint salt_loop (n : nat) (s : list Z) : list Z :=
  match n, s with
  | S n, c :: s => if decide (c = chr "$") then [] else c :: salt_loop n s
  | _, _ => []
  end.

Definition refined_salt (salt : list Z) : list Z :=
  salt_loop 8 (if decide (take 3 salt = CRYPT_MD5_MAGIC) then drop 3 salt else salt).

Section md5_crypt.
Context `{MD5}.

(** The digest of the password is fed as often as the password is long; [i] counts down. *)
Fixpoint digest_loop (fuel : nat) (ctx final : list Z) (i : Z) : outcome (list Z) :=
  if decide (i ≤ 0) then Done ctx
  else match fuel with
  | O => Fault OutOfFuel
  | S fuel => digest_loop fuel (ctx ++ take (Z.to_nat (if decide (16 < i) then 16 else i)) final) final (i - 16)
  end.

(** "Then something really weird..." *)
Fixpoint weird_loop (fuel : nat) (ctx pw : list Z) (i : Z) : outcome (list Z) :=
  if decide (i = 0) then Done ctx
  else match fuel with
  | O => Fault OutOfFuel
  | S fuel => weird_loop fuel (ctx ++ [if decide (Z.land i 1 = 0) then cur pw else 0]) pw (Z.shiftr i 1)
  end.

Definition md5_round (pw sp final : list Z) (i : Z) : list Z :=
  md5 ((if decide (Z.land i 1 = 0) then final else pw) ++
       (if decide (i `mod` 3 = 0) then [] else sp) ++
       (if decide (i `mod` 7 = 0) then [] else pw) ++
       (if decide (Z.land i 1 = 0) then pw else final)).

(** Three bytes of the digest as a number. *)
Definition three (final : list Z) (a b c : nat) : Z :=
  Z.lor (Z.lor (Z.shiftl (final !!! a) 16) (Z.shiftl (final !!! b) 8)) (final !!! c).

Definition write_digest (result : list Z) (p : Z) (final : list Z) : outcome (list Z) :=
  s ← md5_crypt_to64 4 result p (three final 0 6 12);
  s ← md5_crypt_to64 4 s (p + 4) (three final 1 7 13);
  s ← md5_crypt_to64 4 s (p + 8) (three final 2 8 14);
  s ← md5_crypt_to64 4 s (p + 12) (three final 3 9 15);
  s ← md5_crypt_to64 4 s (p + 16) (three final 4 10 5);
  s ← md5_crypt_to64 2 s (p + 20) (final !!! 11%nat);
  store s (p + 22) 0.

(** The bits of an int are more than the password needs. *)
Definition int_fuel : nat := 32.

Definition md5_crypt (pw salt result : list Z) (result_len : Z) : outcome (list Z) :=
  let sp := refined_salt salt in
  let pwl := s32 (zlen pw) in
  let ctx := pw ++ CRYPT_MD5_MAGIC ++ sp in
  let final := md5 (pw ++ sp ++ pw) in
  ctx ← digest_loop (S (length pw)) ctx final pwl;
  ctx ← weird_loop int_fuel ctx pw pwl;
  let final := foldl (md5_round pw sp) (md5 ctx) (seqZ 0 1000) in
  let text := CRYPT_MD5_MAGIC ++ sp ++ str "$" in
  result ← snprintf result 0 result_len text;
  let i := zlen text in
  if decide (i < result_len) then
    if decide (23 < result_len) then write_digest result i final else Done result
  else Done result.

(** ** z_crypt

    [crypt] and [DES_fcrypt] are those of the system; [None] is NULL. *)
Inductive crypt_support := CryptWithMD5 | CryptWithoutMD5 | NoCrypt.

Context (support : crypt_support) (crypt : list Z → list Z → option (list Z)) (DES_fcrypt : list Z → list Z → list Z).

(** g_strlcpy, which refuses a NULL. *)
Definition copy_crypt (key salt result : list Z) (result_len : Z) : outcome (list Z) :=
  match crypt key salt with
  | Some s => if decide (result_len = 0) then Done result else store_range result 0 (take (Z.to_nat (result_len - 1)) s ++ [0])
  | None => Done result
  end.

Definition z_crypt (key salt result : list Z) (result_len : Z) : outcome (list Z) :=
  match support with
  | CryptWithMD5 => copy_crypt key salt result result_len
  | CryptWithoutMD5 =>
      if decide (take 3 salt = CRYPT_MD5_MAGIC) then md5_crypt key salt result result_len
      else copy_crypt key salt result result_len
  | NoCrypt =>
      if decide (take 3 salt = CRYPT_MD5_MAGIC) then md5_crypt key salt result result_len
      else
        _ ← require (14 ≤ result_len) AssertFailed;
        store_range result 0 (DES_fcrypt key salt ++ [0])
  end.

(** ** The reference: the published description of the algorithm *)

(** The bits of [n], the lowest first. *)
Definition bits (n : Z) : list bool := Z.testbit n <$> seqZ 0 (if decide (n = 0) then 0 else Z.log2 n + 1).

Definition first_digest (pw sp : list Z) : list Z :=
  md5 (pw ++ str "$1$" ++ sp ++
       take (length pw) (concat (replicate (length pw) (md5 (pw ++ sp ++ pw)))) ++
       ((λ b : bool, if b then 0 else cur pw) <$> bits (zlen pw))).

Definition reference_round (pw sp final : list Z) (i : Z) : list Z :=
  md5 ((if Z.odd i then pw else final) ++ (if i `mod` 3 =? 0 then [] else sp) ++ (if i `mod` 7 =? 0 then [] else pw) ++
       (if Z.odd i then final else pw)).

Definition last_digest (pw sp : list Z) : list Z := foldl (reference_round pw sp) (first_digest pw sp) (seqZ 0 1000).

(** [n] digits of [v] to the base 64, the lowest first. *)
Definition base64_digits (n : nat) (v : Z) : list Z :=
  (λ k, md5_crypt_b64t !!! Z.to_nat ((v / 64 ^ k) `mod` 64)) <$> seqZ 0 (Z.of_nat n).

(** The number of three bytes of a digest. *)
Definition number (d : list Z) (a b c : nat) : Z := (d !!! a) * 65536 + (d !!! b) * 256 + d !!! c.

Definition digest_text (d : list Z) : list Z :=
  base64_digits 4 (number d 0 6 12) ++ base64_digits 4 (number d 1 7 13) ++ base64_digits 4 (number d 2 8 14) ++
  base64_digits 4 (number d 3 9 15) ++ base64_digits 4 (number d 4 10 5) ++ base64_digits 2 (d !!! 11%nat).

Definition salt_text (salt : list Z) : list Z := str "$1$" ++ refined_salt salt ++ str "$".

Definition hash_text (pw salt : list Z) : list Z := salt_text salt ++ digest_text (last_digest pw (refined_salt salt)).
End md5_crypt.

(** ** The code computes the reference *)
Section reference.
Context `{MD5} `{!MD5Laws}.

Lemma digest_loop_ok fuel m ctx final i :
  length final = 16%nat → i ≤ Z.of_nat fuel → i ≤ 16 * Z.of_nat m →
  digest_loop fuel ctx final i = Done (ctx ++ take (Z.to_nat i) (concat (replicate m final))).
Proof.
  intros Hf. revert m ctx i. induction fuel as [|fuel IH]; intros m ctx i Hfuel Hm; cbn.
  - rewrite decide_True by lia. replace (Z.to_nat i) with 0%nat by lia. by rewrite take_0, app_nil_r.
  - case_decide; [replace (Z.to_nat i) with 0%nat by lia; by rewrite take_0, app_nil_r|].
    destruct m as [|m]; [lia|]. cbn [replicate concat]. rewrite (IH m) by lia. f_equal. rewrite <- app_assoc. f_equal. case_decide.
    + rewrite (take_app_ge final) by lia. rewrite (take_ge final) by lia. f_equal. f_equal. lia.
    + replace (Z.to_nat (i - 16)) with 0%nat by lia. rewrite take_0, app_nil_r. by rewrite take_app_le by lia.
Qed.

Lemma low_bit i : Z.land i 1 = Z.b2z (Z.odd i).
Proof.
  change (Z.land i 1) with (Z.land i (Z.ones 1)). rewrite Z.land_ones by lia. change (2 ^ 1) with 2. rewrite Zmod_odd. by destruct (Z.odd i).
Qed.

Lemma decide_odd {A} i (x y : A) : (if decide (Z.land i 1 = 0) then x else y) = if Z.odd i then y else x.
Proof. rewrite low_bit. by destruct (Z.odd i). Qed.

Lemma round_ok pw sp final i : md5_round pw sp final i = reference_round pw sp final i.
Proof.
  unfold md5_round, reference_round. rewrite !decide_odd.
  destruct (Z.eqb_spec (i `mod` 3) 0); destruct (Z.eqb_spec (i `mod` 7) 0);
    rewrite ?(decide_True (P := i `mod` 3 = 0)), ?(decide_False (P := i `mod` 3 = 0)), ?(decide_True (P := i `mod` 7 = 0)),
      ?(decide_False (P := i `mod` 7 = 0)) by done; done.
Qed.

Lemma rounds_ok pw sp final l : foldl (md5_round pw sp) final l = foldl (reference_round pw sp) final l.
Proof. revert final. induction l as [|i l IH]; intros final; cbn; [done|]. by rewrite round_ok, IH. Qed.

Lemma bits_step n : 0 < n → bits n = Z.odd n :: bits (Z.shiftr n 1).
Proof.
  intros Hn. unfold bits. rewrite decide_False by lia. rewrite Z.shiftr_div_pow2 by lia. change (2 ^ 1) with 2.
  rewrite seqZ_cons by (pose proof (Z.log2_nonneg n); lia). rewrite fmap_cons, Z.bit0_odd. f_equal.
  replace (Z.pred (Z.log2 n + 1)) with (Z.log2 n) by lia.
  assert (Hlen : (if decide (n / 2 = 0) then 0 else Z.log2 (n / 2) + 1) = Z.log2 n).
  { case_decide as Hz.
    - assert (n = 1) as -> by (pose proof (Z.div_mod n 2); pose proof (Z.mod_pos_bound n 2); lia). done.
    - pose proof (Z.log2_shiftr n 1). rewrite Z.shiftr_div_pow2 in * by lia. change (2 ^ 1) with 2 in *.
      assert (1 < n) by (destruct (decide (n = 1)) as [->|]; [done|lia]). pose proof (Z.log2_pos n). lia. }
  rewrite Hlen. change (Z.succ 0) with (1 + 0). rewrite <- fmap_add_seqZ, <- list_fmap_compose. apply list_fmap_ext.
  intros j k [-> _]%lookup_seqZ. cbn -[Z.add]. rewrite (Z.add_comm 1), <- (Z.shiftr_spec n 1) by lia. by rewrite Z.shiftr_div_pow2 by lia.
Qed.

Lemma weird_loop_ok fuel ctx pw i :
  0 ≤ i < 2 ^ Z.of_nat fuel →
  weird_loop fuel ctx pw i = Done (ctx ++ ((λ b : bool, if b then 0 else cur pw) <$> bits i)).
Proof.
  revert ctx i. induction fuel as [|fuel IH]; intros ctx i Hi; cbn [weird_loop]; case_decide as Hz.
  - subst i. by rewrite app_nil_r.
  - change (2 ^ Z.of_nat 0) with 1 in Hi. lia.
  - subst i. by rewrite app_nil_r.
  - rewrite decide_odd, (bits_step i) by lia. rewrite IH.
    + f_equal. rewrite <- app_assoc. done.
    + rewrite Z.shiftr_div_pow2 by lia. change (2 ^ 1) with 2. rewrite Nat2Z.inj_succ, Z.pow_succ_r in Hi by lia.
      split; [apply Z.div_pos; lia|apply Z.div_lt_upper_bound; lia].
Qed.

Lemma base64_digits_S n v : base64_digits (S n) v = (md5_crypt_b64t !!! Z.to_nat (v `mod` 64)) :: base64_digits n (v / 64).
Proof.
  unfold base64_digits. rewrite (seqZ_cons 0 (Z.of_nat (S n))) by lia. rewrite fmap_cons. f_equal; [by rewrite Z.div_1_r|].
  replace (Z.pred (Z.of_nat (S n))) with (Z.of_nat n) by lia. change (Z.succ 0) with (1 + 0).
  rewrite <- fmap_add_seqZ, <- list_fmap_compose. apply list_fmap_ext. intros j k [-> _]%lookup_seqZ. cbn -[Z.add Z.pow].
  f_equal. f_equal. f_equal. rewrite Z.div_div by (try apply Z.pow_pos_nonneg; lia). by rewrite (Z.pow_add_r 64 1) by lia.
Qed.

Lemma to64_ok n out room v :
  (n ≤ length room)%nat → 0 ≤ v →
  md5_crypt_to64 n (out ++ room) (zlen out) v = Done (out ++ base64_digits n v ++ drop n room).
Proof.
  revert out room v. induction n as [|n IH]; intros out room v Hn Hv; cbn [md5_crypt_to64]; [done|].
  destruct room as [|c room]; [cbn in Hn; lia|]. unfold store. rewrite decide_True by (rewrite length_app; cbn; lia).
  rewrite Done_bind, Nat2Z.id, insert_app_r_alt, Nat.sub_diag by lia. cbn [insert list_insert].
  set (d := md5_crypt_b64t !!! _). replace (out ++ d :: room) with ((out ++ [d]) ++ room) by (by rewrite <- app_assoc).
  replace (zlen out + 1) with (zlen (out ++ [d])) by (rewrite length_app; cbn; lia).
  rewrite IH; [|cbn in Hn; lia|rewrite Z.shiftr_div_pow2 by lia; apply Z.div_pos; lia]. f_equal. rewrite <- app_assoc. f_equal.
  rewrite base64_digits_S. cbn [app drop]. rewrite Z.shiftr_div_pow2 by lia. f_equal.
  unfold d. change 63 with (Z.ones 6). by rewrite Z.land_ones by lia.
Qed.

Lemma base64_digits_length n v : length (base64_digits n v) = n.
Proof. unfold base64_digits. rewrite length_fmap, length_seqZ. lia. Qed.

(** A room that is too short. *)
Lemma to64_short n out room v :
  (length room < n)%nat → md5_crypt_to64 n (out ++ room) (zlen out) v = Fault OutOfBounds.
Proof.
  revert out room v. induction n as [|n IH]; intros out room v Hn; [lia|]. cbn [md5_crypt_to64]. unfold store.
  destruct room as [|c room]; [rewrite decide_False by (rewrite length_app; cbn; lia); done|].
  rewrite decide_True by (rewrite length_app; cbn; lia).
  rewrite Done_bind, Nat2Z.id, insert_app_r_alt, Nat.sub_diag by lia. cbn [insert list_insert].
  set (d := md5_crypt_b64t !!! _). replace (out ++ d :: room) with ((out ++ [d]) ++ room) by (by rewrite <- app_assoc).
  replace (zlen out + 1) with (zlen (out ++ [d])) by (rewrite length_app; cbn; lia). apply IH. cbn in Hn. lia.
Qed.

Lemma lor_add a c n : 0 ≤ n → 0 ≤ c < 2 ^ n → Z.lor (Z.shiftl a n) c = a * 2 ^ n + c.
Proof.
  intros Hn Hc. rewrite <- Z.shiftl_mul_pow2 by lia. rewrite Z.add_nocarry_lxor; [symmetry; apply Z.lxor_lor|]; apply Z.bits_inj';
    intros k Hk; rewrite Z.land_spec, Z.bits_0; (destruct (decide (k < n)); [rewrite Z.shiftl_spec_low by lia; done|]);
    rewrite <- (Z.mod_small c (2 ^ n)) by lia; rewrite Z.mod_pow2_bits_high by lia; by rewrite andb_false_r.
Qed.

Lemma digest_byte l k : bytes l → 0 ≤ l !!! k < 256.
Proof.
  intros Hb. destruct (l !! k) as [x|] eqn:Hk; [|by rewrite list_lookup_total_alt, Hk].
  rewrite (list_lookup_total_correct _ _ _ Hk). by eapply (Forall_lookup_1 _ _ _ _ Hb Hk).
Qed.

Lemma three_ok final a b c :
  bytes final → three final a b c = number final a b c.
Proof.
  intros Hb. pose proof (λ k, digest_byte final k Hb) as Hr.
  pose proof (Hr a). pose proof (Hr b). pose proof (Hr c). unfold three, number. rewrite <- Z.lor_assoc.
  rewrite (lor_add (final !!! b) (final !!! c) 8) by lia. rewrite lor_add by lia. lia.
Qed.

(** A number of characters is written, or the buffer ends. *)
Lemma to64_then {A} n out room v (K : list Z → outcome A) :
  0 ≤ v →
  (md5_crypt_to64 n (out ++ room) (zlen out) v ≫= K) =
  if decide (n ≤ length room)%nat then K (out ++ base64_digits n v ++ drop n room) else Fault OutOfBounds.
Proof.
  intros Hv. case_decide; [by rewrite to64_ok|]. by rewrite to64_short by lia.
Qed.

Lemma three_nonneg final a b c : bytes final → 0 ≤ three final a b c.
Proof.
  intros Hb. rewrite three_ok by done. unfold number. pose proof (λ k, digest_byte final k Hb) as Hr.
  pose proof (Hr a). pose proof (Hr b). pose proof (Hr c). lia.
Qed.

(** Several numbers in a row, from the offset [k]. *)
Fixpoint write_parts (parts : list (nat * Z)) (s : list Z) (p k : Z) : outcome (list Z) :=
  match parts with
  | [] => Done s
  | (n, v) :: parts => s ← md5_crypt_to64 n s (p + k) v; write_parts parts s p (k + Z.of_nat n)
  end.

Lemma write_parts_ok parts out room p k :
  Forall (λ x : nat * Z, 0 ≤ x.2) parts → p + k = zlen out →
  let n := sum_list_with fst parts in
  write_parts parts (out ++ room) p k =
  if decide (n ≤ length room)%nat
  then Done (out ++ concat ((λ x : nat * Z, base64_digits x.1 x.2) <$> parts) ++ drop n room) else Fault OutOfBounds.
Proof.
  intros Hv Hp. cbn zeta. revert out room k Hp. induction parts as [|[n v] parts IH]; intros out room k Hp; cbn [write_parts sum_list_with].
  - by rewrite decide_True by lia.
  - apply Forall_cons in Hv as [Hv Hvs]. rewrite Hp, to64_then by done. cbn [fst].
    case_decide; [|by rewrite decide_False by lia]. rewrite app_assoc.
    rewrite IH; [|done|rewrite length_app, base64_digits_length; lia].
    rewrite length_drop. repeat case_decide; try lia; [|done]. rewrite fmap_cons. cbn [concat fst snd].
    by rewrite drop_drop, <- !app_assoc.
Qed.

Lemma write_digest_ok out room final :
  bytes final → write_digest (out ++ room) (zlen out) final =
  if decide (23 ≤ length room)%nat then Done (out ++ digest_text final ++ 0 :: drop 23 room) else Fault OutOfBounds.
Proof.
  intros Hb. set (parts := [(4%nat, three final 0 6 12); (4%nat, three final 1 7 13); (4%nat, three final 2 8 14);
    (4%nat, three final 3 9 15); (4%nat, three final 4 10 5); (2%nat, final !!! 11%nat)]).
  assert (Hparts : Forall (λ x : nat * Z, 0 ≤ x.2) parts).
  { assert (H11 : 0 ≤ final !!! 11%nat) by (pose proof (three_nonneg final 11 11 11 Hb) as Hz; rewrite three_ok in Hz by done; unfold number in Hz; lia).
    unfold parts. repeat constructor; cbn; try by apply three_nonneg. done. }
  replace (write_digest (out ++ room) (zlen out) final) with (s ← write_parts parts (out ++ room) (zlen out) 0; store s (zlen out + 22) 0).
  2: { unfold parts, write_digest. cbn [write_parts]. rewrite Z.add_0_r, <- !Z.add_assoc.
       repeat (destruct (md5_crypt_to64 _ _ _ _); cbn [mbind outcome_bind]; [|done]). done. }
  rewrite write_parts_ok by (done || lia). change (sum_list_with fst parts) with 22%nat.
  replace (concat _) with (digest_text final).
  2: { unfold parts, digest_text. cbn [fmap list_fmap concat fst snd]. rewrite app_nil_r, !three_ok by done. by rewrite <- ?app_assoc. }
  assert (Hdig : length (digest_text final) = 22%nat) by (unfold digest_text; rewrite !length_app, !base64_digits_length; done).
  case_decide; [|by rewrite decide_False by lia]. cbn [mbind outcome_bind]. unfold store.
  rewrite !length_app, Hdig, length_drop. case_decide; [|by rewrite decide_False by lia]. rewrite decide_True by lia. f_equal.
  rewrite insert_app_r_alt by lia. f_equal. rewrite insert_app_r_alt by lia. f_equal.
  replace (Z.to_nat (zlen out + 22) - length out - length (digest_text final))%nat with 0%nat by lia.
  rewrite (drop_S room (room !!! 22%nat) 22); [done|]. apply list_lookup_lookup_total_lt. lia.
Qed.

Lemma salt_loop_facts n s : (length (salt_loop n s) ≤ n)%nat ∧ Forall (λ c, c ≠ chr "$") (salt_loop n s).
Proof.
  revert s. induction n as [|n IH]; intros [|c s]; cbn [salt_loop]; try (split; [cbn; lia|constructor]).
  case_decide; [split; [cbn; lia|constructor]|]. destruct (IH s). split; [cbn; lia|by constructor].
Qed.

Lemma salt_loop_again n sp more :
  (length sp ≤ n)%nat → Forall (λ c, c ≠ chr "$") sp → salt_loop n (sp ++ chr "$" :: more) = sp.
Proof.
  revert n. induction sp as [|c sp IH]; intros n Hn Hsp.
  - destruct n; cbn [salt_loop app]; [done|by rewrite decide_True].
  - destruct n as [|n]; [cbn in Hn; lia|]. apply Forall_cons in Hsp as [Hc Hsp]. cbn [salt_loop app]. rewrite decide_False by done.
    f_equal. apply IH; [cbn in Hn; lia|done].
Qed.

(** A hash is a salt for the same hash. *)
Lemma refined_hash pw salt : refined_salt (hash_text pw salt) = refined_salt salt.
Proof.
  unfold hash_text, salt_text. unfold refined_salt at 1. rewrite <- !app_assoc. rewrite decide_True by done.
  change (drop 3 (str "$1$" ++ ?x)) with x. apply salt_loop_again; apply salt_loop_facts.
Qed.

Lemma salt_text_hash pw salt : salt_text (hash_text pw salt) = salt_text salt.
Proof. unfold salt_text at 1. by rewrite refined_hash. Qed.

Lemma hash_text_hash pw pw' salt : hash_text pw' (hash_text pw salt) = hash_text pw' salt.
Proof. unfold hash_text at 1. by rewrite refined_hash, salt_text_hash. Qed.

Lemma last_digest_ok pw sp :
  zlen pw < 2 ^ 31 →
  (ctx ← digest_loop (S (length pw)) (pw ++ CRYPT_MD5_MAGIC ++ sp) (md5 (pw ++ sp ++ pw)) (s32 (zlen pw));
   weird_loop int_fuel ctx pw (s32 (zlen pw))) = Done (pw ++ str "$1$" ++ sp ++
       take (length pw) (concat (replicate (length pw) (md5 (pw ++ sp ++ pw)))) ++
       ((λ b : bool, if b then 0 else cur pw) <$> bits (zlen pw))).
Proof.
  intros Hpw. rewrite s32_small by lia. rewrite (digest_loop_ok _ (length pw)) by (try apply md5_length; lia). rewrite Done_bind.
  rewrite weird_loop_ok by (unfold int_fuel; cbn; lia). rewrite Nat2Z.id. by rewrite <- !app_assoc.
Qed.

Lemma last_digest_eq pw sp :
  foldl (reference_round pw sp) (md5 (pw ++ str "$1$" ++ sp ++
       take (length pw) (concat (replicate (length pw) (md5 (pw ++ sp ++ pw)))) ++
       ((λ b : bool, if b then 0 else cur pw) <$> bits (zlen pw)))) (seqZ 0 1000) = last_digest pw sp.
Proof. unfold last_digest, first_digest. done. Qed.

(** ** The text tells digests apart *)
Lemma b64t_inj i j : 0 ≤ i < 64 → 0 ≤ j < 64 → md5_crypt_b64t !!! Z.to_nat i = md5_crypt_b64t !!! Z.to_nat j → i = j.
Proof.
  intros Hi Hj He. assert (Hnd : NoDup md5_crypt_b64t) by (by apply (bool_decide_unpack _); vm_compute).
  assert (Hlen : length md5_crypt_b64t = 64%nat) by done.
  assert (Z.to_nat i = Z.to_nat j); [|lia].
  apply (NoDup_lookup md5_crypt_b64t _ _ (md5_crypt_b64t !!! Z.to_nat j) Hnd); [rewrite <- He|]; apply list_lookup_lookup_total_lt; lia.
Qed.

Lemma base64_digits_inj n v w : 0 ≤ v < 64 ^ Z.of_nat n → 0 ≤ w < 64 ^ Z.of_nat n → base64_digits n v = base64_digits n w → v = w.
Proof.
  revert v w. induction n as [|n IH]; intros v w Hv Hw He; [change (64 ^ Z.of_nat 0) with 1 in *; lia|].
  rewrite !base64_digits_S in He. injection He as Hd Hr. rewrite Nat2Z.inj_succ, Z.pow_succ_r in * by lia.
  apply b64t_inj in Hd; [|apply Z.mod_pos_bound; lia..].
  apply IH in Hr; [|split; [apply Z.div_pos; lia|apply Z.div_lt_upper_bound; lia]..].
  rewrite (Z.div_mod v 64), (Z.div_mod w 64) by lia. lia.
Qed.

Lemma digit_app_inj n v w l m :
  0 ≤ v < 64 ^ Z.of_nat n → 0 ≤ w < 64 ^ Z.of_nat n → base64_digits n v ++ l = base64_digits n w ++ m → v = w ∧ l = m.
Proof.
  intros Hv Hw [He ->]%app_inj_1; [|by rewrite !base64_digits_length]. split; [|done]. by eapply base64_digits_inj.
Qed.

Lemma number_inj d e a b c l m :
  bytes d → bytes e → base64_digits 4 (number d a b c) ++ l = base64_digits 4 (number e a b c) ++ m →
  ((d !!! a = e !!! a ∧ d !!! b = e !!! b) ∧ d !!! c = e !!! c) ∧ l = m.
Proof.
  intros Hd He Ht. unfold number in Ht.
  pose proof (digest_byte _ a Hd). pose proof (digest_byte _ b Hd). pose proof (digest_byte _ c Hd).
  pose proof (digest_byte _ a He). pose proof (digest_byte _ b He). pose proof (digest_byte _ c He).
  apply digit_app_inj in Ht as [Hn ->]; [|change (64 ^ Z.of_nat 4) with 16777216; lia..]. split; [lia|done].
Qed.

Lemma digest_text_length d : length (digest_text d) = 22%nat.
Proof. unfold digest_text. by rewrite !length_app, !base64_digits_length. Qed.

Lemma digest_text_inj d e :
  length d = 16%nat → length e = 16%nat → bytes d → bytes e → digest_text d = digest_text e → d = e.
Proof.
  intros Hd He Hbd Hbe Ht. assert (Hk : ∀ k, In k (seq 0 16) → d !!! k = e !!! k).
  { unfold digest_text in Ht. do 5 (apply (number_inj d e) in Ht as [? Ht]; [|done..]).
    apply base64_digits_inj in Ht;
      [|change (64 ^ Z.of_nat 2) with 4096; pose proof (digest_byte _ 11 Hbd); pose proof (digest_byte _ 11 Hbe); lia..].
    intros k Hk. cbn in Hk. repeat (destruct Hk as [<-|Hk]; [naive_solver|]). done. }
  apply (list_eq_same_length _ _ 16); [done..|]. intros i x y Hi Hx Hy. apply list_lookup_total_correct in Hx, Hy. subst.
  apply Hk. apply in_seq. lia.
Qed.

Lemma last_digest_facts pw sp : length (last_digest pw sp) = 16%nat ∧ bytes (last_digest pw sp).
Proof.
  unfold last_digest. change 1000 with (999 + 1). rewrite seqZ_app by lia. rewrite foldl_app. cbn [foldl seqZ].
  change (seqZ (0 + 999) 1) with [999]. cbn [foldl]. unfold reference_round. split; [apply md5_length|apply md5_bytes].
Qed.

(** ** What the caller gets *)

(** C31: The text of the hash and a NUL, when there is room for both; the prefix of the text
    alone when the buffer holds 23 bytes or less or not more than the prefix; in between,
    the digits are written past the end of the buffer. *)
Theorem md5_crypt_spec pw salt result :
  zlen pw < 2 ^ 31 → 0 < zlen result →
  let n := zlen result in
  let k := zlen (salt_text salt) in
  md5_crypt pw salt result n =
  if decide (k + 23 ≤ n) then Done (hash_text pw salt ++ 0 :: drop (Z.to_nat (k + 23)) result)
  else if decide (23 < n ∧ k < n) then Fault OutOfBounds
  else let prefix := take (Z.to_nat (n - 1)) (salt_text salt) in Done (prefix ++ 0 :: drop (S (length prefix)) result).
Proof.
  intros Hpw Hn n k. unfold md5_crypt. rewrite <- bind_assoc, last_digest_ok by done. rewrite Done_bind.
  change (CRYPT_MD5_MAGIC ++ refined_salt salt ++ str "$") with (salt_text salt). fold k.
  rewrite rounds_ok, last_digest_eq. destruct (last_digest_facts pw (refined_salt salt)) as [Hl Hb].
  set (d := last_digest _ _) in *. unfold snprintf. rewrite decide_False, decide_False by lia.
  set (prefix := take (Z.to_nat (n - 1)) (salt_text salt)).
  assert (Hp : length prefix = (Z.to_nat (n - 1) `min` length (salt_text salt))%nat) by apply length_take.
  rewrite store_range_ok by (rewrite ?length_app; cbn [length]; lia). rewrite Done_bind. change (take (Z.to_nat 0) result) with (@nil Z).
  cbn [app]. rewrite <- app_assoc. rewrite length_app. cbn [length app]. replace (Z.to_nat 0 + (length prefix + 1))%nat with (S (length prefix)) by lia.
  assert (Hk4 : 4 ≤ zlen (salt_text salt)) by (unfold salt_text; rewrite !length_app; cbn; lia). destruct (decide (k < n)) as [Hk|Hk].
  - assert (Hprefix : prefix = salt_text salt) by (apply take_ge; lia). clearbody prefix. subst prefix. unfold k. case_decide as H23.
    + rewrite write_digest_ok by done. cbn [length]. rewrite length_drop. repeat case_decide; try lia; [|done].
      f_equal. unfold hash_text. fold d. rewrite <- app_assoc. do 3 f_equal. cbn [drop]. rewrite drop_drop. f_equal. lia.
    + repeat case_decide; try lia. done.
  - repeat case_decide; try lia. done.
Qed.

(** ** A hash verifies passwords *)

Lemma z_crypt_md5 support crypt DES_fcrypt key salt result n :
  support ≠ CryptWithMD5 → take 3 salt = CRYPT_MD5_MAGIC →
  z_crypt support crypt DES_fcrypt key salt result n = md5_crypt key salt result n.
Proof. intros Hs Hsalt. unfold z_crypt. destruct support; [done|..]; by rewrite decide_True by done. Qed.

(** C32: Hashed with its own hash for a salt, a password gives a text of the same salt, and the
    same text exactly when it has the same digest. *)
Theorem crypt_verifies support crypt DES_fcrypt pw pw' salt result :
  support ≠ CryptWithMD5 → zlen pw < 2 ^ 31 → zlen pw' < 2 ^ 31 → take 3 salt = CRYPT_MD5_MAGIC →
  zlen (salt_text salt) + 23 ≤ zlen result →
  let n := zlen result in
  let sp := refined_salt salt in
  ∃ h rest rest',
    z_crypt support crypt DES_fcrypt pw salt result n = Done (h ++ 0 :: rest) ∧
    z_crypt support crypt DES_fcrypt pw' h result n = Done (hash_text pw' salt ++ 0 :: rest') ∧
    (hash_text pw' salt = h ↔ last_digest pw' sp = last_digest pw sp).
Proof.
  intros Hs Hpw Hpw' Hsalt Hn n sp. exists (hash_text pw salt). do 2 eexists. split; [|split].
  - rewrite z_crypt_md5 by done. rewrite md5_crypt_spec by lia. by rewrite decide_True by done.
  - rewrite z_crypt_md5 by done. rewrite md5_crypt_spec by lia. rewrite salt_text_hash, hash_text_hash. by rewrite decide_True by done.
  - unfold hash_text. fold sp. split; [|by intros ->]. intros He%app_inv_head. destruct (last_digest_facts pw sp), (last_digest_facts pw' sp).
    by apply digest_text_inj.
Qed.
End reference.

(** ** Runs with a simple digest *)
Module Runs.
Local Instance toy : MD5 := λ l, (λ k, foldl (λ a c, (a * 31 + c) `mod` 256) k l) <$> seqZ 0 16.

Local Instance toy_laws : MD5Laws.
Proof.
  split; intros l; unfold md5, toy.
  - by rewrite length_fmap, length_seqZ.
  - apply Forall_fmap, Forall_forall. intros k Hk%elem_of_seqZ. cbn. assert (Hb : 0 ≤ k < 256) by lia. clear Hk. revert k Hb.
    induction l as [|c l IH]; intros k Hb; cbn; [done|]. apply IH. apply Z.mod_pos_bound. lia.
Defined.

Definition room (n : nat) : list Z := replicate n 255.

(** 27 bytes are more than 23, and too few for a hash with a salt of five characters. *)
Lemma md5_crypt_spec_witness :
  md5_crypt (str "secret") (str "$1$salty") (room 40) 40 =
    Done (hash_text (str "secret") (str "$1$salty") ++ 0 :: room 8) ∧
  md5_crypt (str "secret") (str "$1$salty") (room 27) 27 = Fault OutOfBounds ∧
  md5_crypt (str "secret") (str "$1$salty") (room 23) 23 = Done (str "$1$salty$" ++ 0 :: room 13) ∧
  md5_crypt (str "secret") (str "$1$salty") (room 6) 6 = Done (str "$1$sa" ++ [0]).
Proof.
  split; [|split; [|split]].
  - pose proof (md5_crypt_spec (str "secret") (str "$1$salty") (room 40) ltac:(cbn; lia) ltac:(cbn; lia)) as Hw. exact Hw.
  - pose proof (md5_crypt_spec (str "secret") (str "$1$salty") (room 27) ltac:(cbn; lia) ltac:(cbn; lia)) as Hw. exact Hw.
  - pose proof (md5_crypt_spec (str "secret") (str "$1$salty") (room 23) ltac:(cbn; lia) ltac:(cbn; lia)) as Hw. exact Hw.
  - pose proof (md5_crypt_spec (str "secret") (str "$1$salty") (room 6) ltac:(cbn; lia) ltac:(cbn; lia)) as Hw. exact Hw.
Defined.

Definition crypt (key salt : list Z) : option (list Z) := None.
Definition DES_fcrypt (key salt : list Z) : list Z := key.

Lemma crypt_verifies_witness : ∃ h rest rest',
  z_crypt CryptWithoutMD5 crypt DES_fcrypt (str "secret") (str "$1$salty") (room 40) 40 = Done (h ++ 0 :: rest) ∧
  z_crypt CryptWithoutMD5 crypt DES_fcrypt (str "guess") h (room 40) 40 = Done (hash_text (str "guess") (str "$1$salty") ++ 0 :: rest') ∧
  (hash_text (str "guess") (str "$1$salty") = h ↔ last_digest (str "guess") (str "salty") = last_digest (str "secret") (str "salty")).
Proof. by apply (crypt_verifies CryptWithoutMD5 crypt DES_fcrypt (str "secret") (str "guess") (str "$1$salty") (room 40)). Defined.

Example other_password : bool_decide (hash_text (str "guess") (str "$1$salty") = hash_text (str "secret") (str "$1$salty")) = false.
Proof. vm_compute. done. Qed.

End Runs.
