(* ===== verification/Thread.v ===== *)
(** * Threads (thread.c)

    The pool of threads: [z_thread_new] starts a thread or queues the job, a thread runs
    jobs until the queue is empty.  Callers and threads are interleaved: what one does
    between two locks is one step.  GAsyncQueue is an interface, with what is documented of
    it as laws; whether g_thread_create_full succeeds is an input.  ThreadSpec.v holds the
    theorems. *)

From S2P Require Import Prelude CLib.
Open Scope Z_scope.

Definition MAX_THREAD_NAME : Z := 128.

(** [self] is the address; a job that was freed does not lend its address to another. *)
Record ZThread := mkThread { self : nat; thread_id : Z; name : list Z; func : nat; arg : Z }.

(** A callback and its user_data. *)
Definition ZThreadCallback : Type := nat * Z.

#[global] Instance ZThread_eq_dec : EqDecision ZThread.
Proof. solve_decision. Defined.

Class AsyncQueue := {
  queue_t : Type;
  async_new : queue_t;
  async_push : queue_t → ZThread → queue_t;
  async_try_pop : queue_t → option (ZThread * queue_t)
}.

Class AsyncQueueLaws `{AsyncQueue} := {
  items : queue_t → list ZThread;
  items_new : items async_new = [];
  items_push q t : items (async_push q t) = items q ++ [t];
  items_pop q : match async_try_pop q with Some (t, q') => items q = t :: items q' | None => items q = [] end
}.

(** What a thread does next. *)
Inductive running :=
| TBegin (t : ZThread)
| TStart (t : ZThread) (p : list ZThreadCallback)
| TFunc (t : ZThread)
| TStop (t : ZThread) (p : list ZThreadCallback)
| TNext.

(** What a call of z_thread_new does next: it has read thread_id, it has written it, it has
    left the first lock. *)
Inductive calling :=
| CLoaded (t : ZThread)
| CReady (t : ZThread)
| CCreating (t : ZThread).

(** What can be seen of a job. *)
Inductive event :=
| Created
| Queued
| Rejected
| Popped
| StartCallback (cb : ZThreadCallback)
| Entered
| Returned
| StopCallback (cb : ZThreadCallback)
| Freed.

#[global] Instance event_eq_dec : EqDecision event.
Proof. solve_decision. Defined.

Section pool.
Context `{AsyncQueue}.

(** The statics of thread.c, the threads that run and the calls that have not returned;
    [destroyed], [next_self] and [trace] are the history. *)
Record pool := mkPool {
  max_threads : Z;
  num_threads : Z;
  next_id : Z;
  queue : queue_t;
  queue_refs : Z;
  start_callbacks : list ZThreadCallback;
  stop_callbacks : list ZThreadCallback;
  callers : list calling;
  threads : list running;
  destroyed : bool;
  next_self : nat;
  trace : list (nat * event)
}.

Definition with_num n w := mkPool (max_threads w) n (next_id w) (queue w) (queue_refs w) (start_callbacks w) (stop_callbacks w) (callers w) (threads w) (destroyed w) (next_self w) (trace w).
Definition with_id n w := mkPool (max_threads w) (num_threads w) n (queue w) (queue_refs w) (start_callbacks w) (stop_callbacks w) (callers w) (threads w) (destroyed w) (next_self w) (trace w).
Definition with_queue q w := mkPool (max_threads w) (num_threads w) (next_id w) q (queue_refs w) (start_callbacks w) (stop_callbacks w) (callers w) (threads w) (destroyed w) (next_self w) (trace w).
Definition with_refs n w := mkPool (max_threads w) (num_threads w) (next_id w) (queue w) n (start_callbacks w) (stop_callbacks w) (callers w) (threads w) (destroyed w) (next_self w) (trace w).
Definition with_start l w := mkPool (max_threads w) (num_threads w) (next_id w) (queue w) (queue_refs w) l (stop_callbacks w) (callers w) (threads w) (destroyed w) (next_self w) (trace w).
Definition with_stop l w := mkPool (max_threads w) (num_threads w) (next_id w) (queue w) (queue_refs w) (start_callbacks w) l (callers w) (threads w) (destroyed w) (next_self w) (trace w).
Definition with_callers l w := mkPool (max_threads w) (num_threads w) (next_id w) (queue w) (queue_refs w) (start_callbacks w) (stop_callbacks w) l (threads w) (destroyed w) (next_self w) (trace w).
Definition with_threads l w := mkPool (max_threads w) (num_threads w) (next_id w) (queue w) (queue_refs w) (start_callbacks w) (stop_callbacks w) (callers w) l (destroyed w) (next_self w) (trace w).
Definition with_destroyed b w := mkPool (max_threads w) (num_threads w) (next_id w) (queue w) (queue_refs w) (start_callbacks w) (stop_callbacks w) (callers w) (threads w) b (next_self w) (trace w).
Definition with_self n w := mkPool (max_threads w) (num_threads w) (next_id w) (queue w) (queue_refs w) (start_callbacks w) (stop_callbacks w) (callers w) (threads w) (destroyed w) n (trace w).
Definition log t e w := mkPool (max_threads w) (num_threads w) (next_id w) (queue w) (queue_refs w) (start_callbacks w) (stop_callbacks w) (callers w) (threads w) (destroyed w) (next_self w) (trace w ++ [(self t, e)]).

(** The queue is locked, and so it has to exist. *)
Definition g_async_queue_lock (w : pool) : outcome unit := require (0 < queue_refs w) UseAfterFree.

Definition z_thread_register_start_callback (cb : ZThreadCallback) (w : pool) : pool := with_start (cb :: start_callbacks w) w.
Definition z_thread_register_stop_callback (cb : ZThreadCallback) (w : pool) : pool := with_stop (cb :: stop_callbacks w) w.

(** After [z_thread_set_max_threads max] and the registration of callbacks. *)
Definition z_thread_init (max : Z) (start stop : list ZThreadCallback) : pool :=
  mkPool max 0 1 async_new 1 start stop [] [] false 0 [].

Definition z_thread_destroy (w : pool) : outcome pool :=
  _ ← require (0 < queue_refs w) UseAfterFree; Done (with_destroyed true (with_refs (queue_refs w - 1) w)).

(** ** z_thread_new *)

(** The allocation, and reading thread_id. *)
Definition new_job (nm : list Z) (f : nat) (a : Z) (w : pool) : pool :=
  let t := mkThread (next_self w) (next_id w) (take (Z.to_nat (MAX_THREAD_NAME - 1)) nm) f a in
  with_self (S (next_self w)) (with_callers (callers w ++ [CLoaded t]) w).

Definition number_job (i : nat) (t : ZThread) (w : pool) : pool :=
  with_id (s32 (thread_id t + 1)) (with_callers (<[i := CReady t]> (callers w)) w).

Definition queue_or_start (i : nat) (t : ZThread) (w : pool) : outcome pool :=
  _ ← g_async_queue_lock w;
  if decide (max_threads w ≤ num_threads w)
  then Done (log t Queued (with_queue (async_push (queue w) t) (with_callers (delete i (callers w)) w)))
  else Done (with_num (num_threads w + 1) (with_refs (queue_refs w + 1) (with_callers (<[i := CCreating t]> (callers w)) w))).

Definition create_thread (i : nat) (t : ZThread) (created : bool) (w : pool) : outcome pool :=
  if created then Done (log t Created (with_threads (threads w ++ [TBegin t]) (with_callers (delete i (callers w)) w)))
  else
    _ ← g_async_queue_lock w;
    Done (log t Rejected (with_num (num_threads w - 1) (with_callers (delete i (callers w)) w))).

(** ** z_thread_func *)

(** The part between taking the lock and giving it back. *)
Definition next_job (i : nat) (w : pool) : outcome pool :=
  _ ← g_async_queue_lock w;
  match async_try_pop (queue w) with
  | Some (t, q) => Done (log t Popped (with_threads (<[i := TBegin t]> (threads w)) (with_queue q w)))
  | None => Done (with_threads (delete i (threads w)) (with_refs (queue_refs w - 1) (with_num (num_threads w - 1) w)))
  end.

(** One step of z_thread_func_core, or of the loop around it. *)
Definition thread_step (i : nat) (r : running) (w : pool) : outcome pool :=
  let go r w := with_threads (<[i := r]> (threads w)) w in
  match r with
  | TBegin t => Done (go (TStart t (start_callbacks w)) w)
  | TStart t (cb :: p) => Done (log t (StartCallback cb) (go (TStart t p) w))
  | TStart t [] => Done (log t Entered (go (TFunc t) w))
  | TFunc t => Done (log t Returned (go (TStop t (stop_callbacks w)) w))
  | TStop t (cb :: p) => Done (log t (StopCallback cb) (go (TStop t p) w))
  | TStop t [] => Done (log t Freed (go TNext w))
  | TNext => next_job i w
  end.

(** ** The steps of the program *)
Inductive move :=
| RegisterStart (cb : ZThreadCallback)
| RegisterStop (cb : ZThreadCallback)
| New (nm : list Z) (f : nat) (a : Z)
| Number (i : nat)
| Lock (i : nat)
| Create (i : nat) (created : bool)
| Run (i : nat)
| Destroy.

(** A move that nobody can make is [Blocked]; the pool is destroyed once. *)
Definition exec (m : move) (w : pool) : outcome pool :=
  match m with
  | RegisterStart cb => Done (z_thread_register_start_callback cb w)
  | RegisterStop cb => Done (z_thread_register_stop_callback cb w)
  | New nm f a => Done (new_job nm f a w)
  | Number i => match callers w !! i with Some (CLoaded t) => Done (number_job i t w) | _ => Fault Blocked end
  | Lock i => match callers w !! i with Some (CReady t) => queue_or_start i t w | _ => Fault Blocked end
  | Create i created => match callers w !! i with Some (CCreating t) => create_thread i t created w | _ => Fault Blocked end
  | Run i => match threads w !! i with Some r => thread_step i r w | None => Fault Blocked end
  | Destroy => if destroyed w then Fault Blocked else z_thread_destroy w
  end.

Definition step (w w' : pool) : Prop := ∃ m, exec m w = Done w'.

Definition reachable (w : pool) : Prop := ∃ max start stop, rtc step (z_thread_init max start stop) w.

Fixpoint exec_all (ms : list move) (w : pool) : outcome pool :=
  match ms with
  | [] => Done w
  | m :: ms => w ← exec m w; exec_all ms w
  end.

(** ** The steps that lead to the end: no call fails and nothing new begins *)
Definition is_progress (m : move) : bool :=
  match m with Number _ | Lock _ | Create _ true | Run _ => true | _ => false end.

Definition progress (w w' : pool) : Prop := ∃ m, is_progress m = true ∧ exec m w = Done w'.
End pool.

(** ** The size of the stack from the command line

    [max_stack_size] is a gint; the callback gives what it returns and the new value. *)
Definition z_thread_stack_size_arg (value : list Z) : outcome (bool * Z) :=
  let '(v, end_) := strtol value in
  _ ← require (- 2 ^ 63 ≤ v * 1024 < 2 ^ 63) SignedOverflow;
  let max_stack_size := s32 (v * 1024) in
  if decide (cur end_ ≠ 0) then Done (false, max_stack_size)
  else if decide (256 * 1024 < max_stack_size) then Done (true, 256 * 1024)
  else Done (true, max_stack_size).
