(* ===== verification/ThreadSpec.v ===== *)
(** * Threads: what the pool guarantees

    For every interleaving: the bounds of the counters and the lifetime of the queue
    ([pool_safe]), that every job is in one place and what happens to it, in which order
    ([pool_lifecycle]), and that every job is done when no creation of a thread fails
    ([pool_drains]); with runs that show what goes wrong when one does. *)

From S2P Require Import Prelude CLib Thread.
Open Scope Z_scope.

Section spec.
Context `{AsyncQueueLaws}.

Definition job_of (c : calling) : ZThread := match c with CLoaded t | CReady t | CCreating t => t end.
Definition creating (c : calling) : nat := match c with CCreating _ => 1 | _ => 0 end.

Definition rejections (w : pool) : nat := length (filter (λ x, x.2 = Rejected) (trace w)).

(** The keys of an event, and the events of a key. *)
Definition keys_of (e : event) (tr : list (nat * event)) : list nat := fst <$> filter (λ x, x.2 = e) tr.
Definition events (tr : list (nat * event)) (k : nat) : list event := snd <$> filter (λ x, x.1 = k) tr.

Record counts_ok (w : pool) : Prop := {
  count_num : num_threads w = zlen (threads w) + Z.of_nat (sum_list_with creating (callers w));
  count_refs : queue_refs w = (if destroyed w then 0 else 1) + num_threads w + Z.of_nat (rejections w);
  count_max : num_threads w ≤ Z.max 0 (max_threads w);
  count_queue : rejections w = 0%nat → items (queue w) ≠ [] → max_threads w ≤ num_threads w
}.

Definition fifo_ok (w : pool) : Prop := keys_of Popped (trace w) ++ (self <$> items (queue w)) = keys_of Queued (trace w).

(** Where a job is. *)
Inductive place := PNew | PQueued | PRunning (r : running) | PDone | PRejected.

Definition thread_place (r : running) : list (nat * place) :=
  match r with
  | TBegin t | TStart t _ | TFunc t | TStop t _ => [(self t, PRunning r)]
  | TNext => []
  end.

Definition ended (x : nat * event) : list (nat * place) :=
  match x.2 with Freed => [(x.1, PDone)] | Rejected => [(x.1, PRejected)] | _ => [] end.

Definition places (w : pool) : list (nat * place) :=
  ((λ c, (self (job_of c), PNew)) <$> callers w) ++ ((λ t, (self t, PQueued)) <$> items (queue w)) ++
  (threads w ≫= thread_place) ++ (trace w ≫= ended).

(** How a job begins to run. *)
Inductive begun : list event → Prop :=
| begun_created : begun [Created]
| begun_popped : begun [Queued; Popped].

(** Between two states of a list that grows at its head. *)
Definition between (old l new : list ZThreadCallback) : Prop := old `suffix_of` l ∧ l `suffix_of` new.

Definition started (b : list event) (ss : list ZThreadCallback) : list event := b ++ (StartCallback <$> ss).
Definition stopped (b : list event) (ss ps : list ZThreadCallback) : list event :=
  started b ss ++ [Entered; Returned] ++ (StopCallback <$> ps).

(** What happened to a job that is in a place: [start] and [stop] are the callbacks at first,
    [S] and [P] those of now. *)
Definition shape (start stop S P : list ZThreadCallback) (p : place) (es : list event) : Prop :=
  match p with
  | PNew => es = []
  | PQueued => es = [Queued]
  | PRejected => es = [Rejected]
  | PRunning (TBegin _) => begun es
  | PRunning (TStart _ p) => ∃ b l, begun b ∧ between start (l ++ p) S ∧ es = started b l
  | PRunning (TFunc _) => ∃ b l, begun b ∧ between start l S ∧ es = started b l ++ [Entered]
  | PRunning (TStop _ p) => ∃ b l k, begun b ∧ between start l S ∧ between stop (k ++ p) P ∧ es = stopped b l k
  | PRunning TNext => False
  | PDone => ∃ b l k, begun b ∧ between start l S ∧ between stop k P ∧ es = stopped b l k ++ [Freed]
  end.

Record jobs_ok (start stop : list ZThreadCallback) (w : pool) : Prop := {
  jobs_places : fst <$> places w ≡ₚ seq 0 (next_self w);
  jobs_shapes : Forall (λ x, shape start stop (start_callbacks w) (stop_callbacks w) x.2 (events (trace w) x.1)) (places w);
  jobs_keys : Forall (λ x, (x.1 < next_self w)%nat) (trace w);
  jobs_start : start `suffix_of` start_callbacks w;
  jobs_stop : stop `suffix_of` stop_callbacks w
}.

(** ** Lemmas on traces and lists *)
Lemma events_app tr tr' k : events (tr ++ tr') k = events tr k ++ events tr' k.
Proof. unfold events. by rewrite filter_app, fmap_app. Qed.

Lemma events_cons x tr k : events (x :: tr) k = if decide (x.1 = k) then x.2 :: events tr k else events tr k.
Proof. unfold events. rewrite filter_cons. by case_decide. Qed.

Lemma events_same new k : events ((k,.) <$> new) k = new.
Proof. induction new as [|e new IH]; [done|]. by rewrite fmap_cons, events_cons, decide_True, IH. Qed.

Lemma events_other new k k' : k ≠ k' → events ((k,.) <$> new) k' = [].
Proof. intros Hk. induction new as [|e new IH]; [done|]. by rewrite fmap_cons, events_cons, decide_False. Qed.

Lemma events_fresh tr k : Forall (λ x, (x.1 < k)%nat) tr → events tr k = [].
Proof. induction 1 as [|x tr Hk _ IH]; [done|]. by rewrite events_cons, decide_False by lia. Qed.

Lemma keys_of_app e tr tr' : keys_of e (tr ++ tr') = keys_of e tr ++ keys_of e tr'.
Proof. unfold keys_of. by rewrite filter_app, fmap_app. Qed.

Lemma insert_Permutation {A} (l : list A) i x y : l !! i = Some x → <[i := y]> l ≡ₚ y :: delete i l.
Proof.
  intros Hi. rewrite (delete_Permutation (<[i := y]> l) i y) by (apply list_lookup_insert_eq; by eapply lookup_lt_Some).
  by rewrite !delete_take_drop, take_insert_ge, drop_insert_lt by lia.
Qed.

Lemma shape_mono start stop S P S' P' p es :
  S `suffix_of` S' → P `suffix_of` P' → shape start stop S P p es → shape start stop S' P' p es.
Proof.
  intros HS HP. assert (Hb : ∀ old l new new' : list ZThreadCallback, new `suffix_of` new' → between old l new → between old l new').
  { intros old l new new' Hn [? ?]. split; [done|]. by etrans. }
  destruct p as [| |[]| |]; cbn; naive_solver.
Qed.

(** ** Where the jobs are *)

(** One job moves on, the others stay. *)
Lemma jobs_advance start stop w w' k p p' rest new :
  jobs_ok start stop w → places w ≡ₚ (k, p) :: rest → places w' ≡ₚ (k, p') :: rest →
  next_self w' = next_self w → start_callbacks w' = start_callbacks w → stop_callbacks w' = stop_callbacks w →
  trace w' = trace w ++ ((k,.) <$> new) →
  (∀ es, shape start stop (start_callbacks w) (stop_callbacks w) p es → shape start stop (start_callbacks w) (stop_callbacks w) p' (es ++ new)) →
  jobs_ok start stop w'.
Proof.
  intros [Hpl Hsh Hkeys Hs Hp] H1 H2 Hn Hst Hsp Htr Hstep. rewrite H1 in Hpl, Hsh. apply Forall_cons in Hsh as [Hk Hsh]. cbn in Hk.
  assert (Hnd : NoDup (k :: (fst <$> rest))).
  { change (k :: (fst <$> rest)) with (fst <$> (k, p) :: rest). rewrite Hpl. apply NoDup_seq. }
  apply NoDup_cons in Hnd as [Hnot _]. split; rewrite ?Hn, ?Hst, ?Hsp; [| | |done|done].
  - rewrite H2. done.
  - rewrite H2. constructor; cbn.
    + rewrite Htr, events_app, events_same. by apply Hstep.
    + eapply Forall_impl; [apply Forall_and; split; [exact Hsh|apply Forall_forall; intros x Hx; exact Hx]|].
      intros [k' q] [Hq Hin]. cbn in *. rewrite Htr, events_app, events_other, app_nil_r; [done|].
      intros ->. apply Hnot. by apply (list_elem_of_fmap_2 fst _ (k', q)).
  - rewrite Htr. apply Forall_app. split; [done|]. apply Forall_fmap, Forall_forall. intros e _. cbn.
    assert (Hin : k ∈ seq 0 (next_self w)) by (rewrite <- Hpl; cbn; left). apply elem_of_seq in Hin. lia.
Qed.

(** No job moves. *)
Lemma jobs_stay start stop w w' :
  jobs_ok start stop w → places w' ≡ₚ places w → next_self w' = next_self w → trace w' = trace w →
  start_callbacks w `suffix_of` start_callbacks w' → stop_callbacks w `suffix_of` stop_callbacks w' → jobs_ok start stop w'.
Proof.
  intros [Hpl Hsh Hkeys Hs Hp] Hpl' Hn Htr Hst Hsp. split; rewrite ?Hpl', ?Hn, ?Htr; try done; try by etrans.
  eapply Forall_impl; [exact Hsh|]. intros x. by apply shape_mono.
Qed.

Lemma jobs_new start stop w nm f a : jobs_ok start stop w → jobs_ok start stop (new_job nm f a w).
Proof.
  intros [Hpl Hsh Hkeys Hs Hp]. set (w' := new_job nm f a w).
  assert (Hpl' : places w' ≡ₚ (next_self w, PNew) :: places w).
  { unfold places, w', new_job. cbn. rewrite fmap_app. cbn. solve_Permutation. }
  split; cbn [next_self new_job w' with_self with_callers start_callbacks stop_callbacks trace]; [| | |done|done].
  - rewrite Hpl'. rewrite fmap_cons, Hpl, seq_S. cbn. by rewrite Permutation_cons_append.
  - rewrite Hpl'. constructor; [|done]. cbn. by apply events_fresh.
  - eapply Forall_impl; [exact Hkeys|]. cbn. lia.
Qed.

(** The places after the changes that steps make. *)
Lemma places_caller w i c :
  callers w !! i = Some c → places w ≡ₚ (self (job_of c), PNew) :: places (with_callers (delete i (callers w)) w).
Proof. intros Hi. unfold places. by rewrite (delete_Permutation (callers w) i c Hi) at 1. Qed.

Lemma places_call w i c c' :
  callers w !! i = Some c → job_of c' = job_of c → places (with_callers (<[i := c']> (callers w)) w) ≡ₚ places w.
Proof.
  intros Hi Hc. rewrite (places_caller w i c Hi). unfold places at 1. cbn. by rewrite (insert_Permutation _ _ _ c' Hi), fmap_cons, Hc.
Qed.

Lemma places_thread w i r :
  threads w !! i = Some r → places w ≡ₚ thread_place r ++ places (with_threads (delete i (threads w)) w).
Proof.
  intros Hi. unfold places. rewrite (delete_Permutation (threads w) i r Hi) at 1. rewrite bind_cons. cbn. solve_Permutation.
Qed.

Lemma places_go w i r r' :
  threads w !! i = Some r →
  places (with_threads (<[i := r']> (threads w)) w) ≡ₚ thread_place r' ++ places (with_threads (delete i (threads w)) w).
Proof. intros Hi. unfold places. cbn. rewrite (insert_Permutation _ _ _ r' Hi), bind_cons. solve_Permutation. Qed.

Lemma places_log w t e : places (log t e w) ≡ₚ ended (self t, e) ++ places w.
Proof. unfold places. cbn. rewrite bind_app, bind_singleton. solve_Permutation. Qed.

Lemma jobs_queue_or_start start stop w w' i t :
  jobs_ok start stop w → callers w !! i = Some (CReady t) → queue_or_start i t w = Done w' → jobs_ok start stop w'.
Proof.
  intros Hok Hi Hw. unfold queue_or_start in Hw. outcome_inv Hw. case_decide; injection Hw as <-.
  - eapply (jobs_advance start stop w _ (self t) PNew PQueued _ [Queued]); try done.
    + by rewrite (places_caller _ _ _ Hi).
    + rewrite places_log. unfold places. cbn. rewrite items_push, fmap_app. cbn. solve_Permutation.
    + by intros es ->.
  - apply (jobs_stay start stop w); try done. by apply (places_call w i (CReady t)).
Qed.

Lemma jobs_create start stop w w' i t created :
  jobs_ok start stop w → callers w !! i = Some (CCreating t) → create_thread i t created w = Done w' → jobs_ok start stop w'.
Proof.
  intros Hok Hi Hw. destruct created; cbn in Hw; [|outcome_inv Hw]; injection Hw as <-.
  - eapply (jobs_advance start stop w _ (self t) PNew (PRunning (TBegin t)) _ [Created]); try done.
    + by rewrite (places_caller _ _ _ Hi).
    + rewrite places_log. unfold places. cbn. rewrite bind_app. cbn. solve_Permutation.
    + intros es ->. constructor.
  - eapply (jobs_advance start stop w _ (self t) PNew PRejected _ [Rejected]); try done.
    + by rewrite (places_caller _ _ _ Hi).
    + by rewrite places_log.
    + by intros es ->.
Qed.

Lemma jobs_next start stop w w' i : jobs_ok start stop w → threads w !! i = Some TNext → next_job i w = Done w' → jobs_ok start stop w'.
Proof.
  intros Hok Hi Hw. unfold next_job in Hw. outcome_inv Hw. pose proof (items_pop (queue w)) as Hpop.
  destruct (async_try_pop (queue w)) as [[t q]|]; injection Hw as <-.
  - eapply (jobs_advance start stop w _ (self t) PQueued (PRunning (TBegin t)) (places (with_threads (delete i (threads w)) (with_queue q w))) [Popped]); try done.
    + rewrite (places_thread w i _ Hi). unfold places. cbn. rewrite Hpop. cbn. solve_Permutation.
    + rewrite places_log. cbn [ended snd app]. by rewrite (places_go (with_queue q w) i TNext).
    + intros es ->. constructor.
  - apply (jobs_stay start stop w); try done. by rewrite (places_thread w i _ Hi).
Qed.

(** A thread goes on with its job. *)
Lemma jobs_go start stop w i r r' t :
  jobs_ok start stop w → threads w !! i = Some r → thread_place r = [(self t, PRunning r)] → thread_place r' = [(self t, PRunning r')] →
  (∀ es, shape start stop (start_callbacks w) (stop_callbacks w) (PRunning r) es →
         shape start stop (start_callbacks w) (stop_callbacks w) (PRunning r') es) →
  jobs_ok start stop (with_threads (<[i := r']> (threads w)) w).
Proof.
  intros Hok Hi Hr Hr' Hsh. eapply (jobs_advance start stop w _ (self t) (PRunning r) (PRunning r') (places (with_threads (delete i (threads w)) w)) []); try done.
  - by rewrite (places_thread w i r Hi), Hr.
  - by rewrite (places_go w i r r' Hi), Hr'.
  - cbn. by rewrite app_nil_r.
  - intros es. rewrite app_nil_r. apply Hsh.
Qed.

Lemma jobs_go_log start stop w i r r' t e p :
  jobs_ok start stop w → threads w !! i = Some r → thread_place r = [(self t, PRunning r)] →
  ended (self t, e) ++ thread_place r' = [(self t, p)] →
  (∀ es, shape start stop (start_callbacks w) (stop_callbacks w) (PRunning r) es →
         shape start stop (start_callbacks w) (stop_callbacks w) p (es ++ [e])) →
  jobs_ok start stop (log t e (with_threads (<[i := r']> (threads w)) w)).
Proof.
  intros Hok Hi Hr Hp Hsh. eapply (jobs_advance start stop w _ (self t) (PRunning r) p (places (with_threads (delete i (threads w)) w)) [e]); try done.
  - by rewrite (places_thread w i r Hi), Hr.
  - rewrite places_log, (places_go w i r r' Hi), app_assoc, Hp. done.
Qed.

Lemma between_all start S : start `suffix_of` S → between start S S.
Proof. by split. Qed.

Lemma jobs_thread start stop w w' i r :
  jobs_ok start stop w → threads w !! i = Some r → thread_step i r w = Done w' → jobs_ok start stop w'.
Proof.
  intros Hok Hi Hw. pose proof (between_all _ _ (jobs_start _ _ _ Hok)) as HS. pose proof (between_all _ _ (jobs_stop _ _ _ Hok)) as HP.
  destruct r as [t|t [|cb p]|t|t [|cb p]|]; cbn [thread_step] in Hw; [injection Hw as <-..|by eapply jobs_next].
  - eapply (jobs_go start stop w i (TBegin t) _ t); try done. intros es Hb. exists es, []. unfold started. by rewrite app_nil_r.
  - eapply (jobs_go_log start stop w i (TStart t []) _ t); try done. intros es (b & l & Hb & Hl & ->). rewrite app_nil_r in Hl. by exists b, l.
  - eapply (jobs_go_log start stop w i (TStart t (cb :: p)) _ t); try done. intros es (b & l & Hb & Hl & ->).
    exists b, (l ++ [cb]). unfold started. rewrite fmap_app, <- !app_assoc. done.
  - eapply (jobs_go_log start stop w i (TFunc t) _ t); try done. intros es (b & l & Hb & Hl & ->). exists b, l, [].
    unfold stopped. cbn. rewrite <- app_assoc. done.
  - eapply (jobs_go_log start stop w i (TStop t []) _ t); try done. intros es (b & l & k & Hb & Hl & Hk & ->).
    rewrite app_nil_r in Hk. by exists b, l, k.
  - eapply (jobs_go_log start stop w i (TStop t (cb :: p)) _ t); try done. intros es (b & l & k & Hb & Hl & Hk & ->).
    exists b, l, (k ++ [cb]). unfold stopped. rewrite fmap_app, <- !app_assoc. done.
Qed.

Lemma jobs_step start stop w w' : jobs_ok start stop w → step w w' → jobs_ok start stop w'.
Proof.
  intros Hok [m Hm]. destruct m as [cb|cb|nm f a|i|i|i created|i|]; cbn [exec] in Hm.
  - injection Hm as <-. apply (jobs_stay start stop w); try done. by exists [cb].
  - injection Hm as <-. apply (jobs_stay start stop w); try done. by exists [cb].
  - injection Hm as <-. by apply jobs_new.
  - destruct (callers w !! i) as [[t|t|t]|] eqn:Hi; try done. injection Hm as <-. apply (jobs_stay start stop w); try done.
    by apply (places_call w i (CLoaded t)).
  - destruct (callers w !! i) as [[t|t|t]|] eqn:Hi; try done. by eapply jobs_queue_or_start.
  - destruct (callers w !! i) as [[t|t|t]|] eqn:Hi; try done. by eapply jobs_create.
  - destruct (threads w !! i) as [r|] eqn:Hi; [|done]. by eapply jobs_thread.
  - destruct (destroyed w); [done|]. unfold z_thread_destroy in Hm. outcome_inv Hm. injection Hm as <-.
    by apply (jobs_stay start stop w).
Qed.

(** ** The counters *)
Lemma sum_delete {A} (f : A → nat) l i x : l !! i = Some x → sum_list_with f l = (f x + sum_list_with f (delete i l))%nat.
Proof. intros Hi. by rewrite (delete_Permutation l i x Hi) at 1. Qed.

Lemma sum_insert {A} (f : A → nat) l i x y : l !! i = Some x → sum_list_with f (<[i := y]> l) = (f y + sum_list_with f (delete i l))%nat.
Proof. intros Hi. by rewrite (insert_Permutation l i x y Hi). Qed.

Lemma rejections_log t e w : rejections (log t e w) = (rejections w + if decide (e = Rejected) then 1 else 0)%nat.
Proof. unfold rejections. cbn -[filter]. rewrite filter_app, length_app, filter_cons, filter_nil. cbn. by case_decide. Qed.

Lemma delete_length {A} (l : list A) i x : l !! i = Some x → length l = S (length (delete i l)).
Proof. intros Hi. by rewrite (delete_Permutation l i x Hi) at 1. Qed.

Lemma counts_keep w w' :
  counts_ok w → num_threads w' = num_threads w → length (threads w') = length (threads w) →
  sum_list_with creating (callers w') = sum_list_with creating (callers w) → queue_refs w' = queue_refs w →
  destroyed w' = destroyed w → max_threads w' = max_threads w → rejections w' = rejections w →
  (items (queue w') ≠ [] → items (queue w) ≠ [] ∨ max_threads w ≤ num_threads w) → counts_ok w'.
Proof.
  intros [H1 H2 H3 H4] E1 E2 E3 E4 E5 E6 E7 Hq. split; rewrite ?E1, ?E2, ?E3, ?E4, ?E5, ?E6, ?E7; try done.
  intros Hr [Hi|Hi]%Hq; auto.
Qed.

Ltac split_counts w :=
  split; rewrite ?rejections_log, ?(decide_False (P := _ = Rejected)), ?(decide_True (P := Rejected = Rejected)) by done;
  repeat match goal with |- context [rejections ?x] => assert_fails (constr_eq x w); change (rejections x) with (rejections w) end;
  cbn -[rejections sum_list_with]; rewrite ?length_app; cbn -[rejections sum_list_with].

Lemma counts_calling w w' i m :
  counts_ok w → exec m w = Done w' → (m = Number i ∨ m = Lock i ∨ ∃ b, m = Create i b) → counts_ok w'.
Proof.
  intros Hok Hw Hm. pose proof Hok as [H1 H2 H3 H4]. destruct Hm as [->|[->|[b ->]]]; cbn [exec] in Hw;
    destruct (callers w !! i) as [[t|t|t]|] eqn:Hi; try done; pose proof (sum_delete creating _ _ _ Hi) as Hd; cbn in Hd.
  - injection Hw as <-. apply (counts_keep w); try done; [|by left]. cbn [callers with_id with_callers number_job]. by rewrite (sum_insert creating _ _ _ _ Hi).
  - unfold queue_or_start in Hw. outcome_inv Hw. case_decide; injection Hw as <-.
    + apply (counts_keep w); try done; [by rewrite rejections_log, decide_False, Nat.add_0_r by done|by right].
    + split_counts w; rewrite ?(sum_insert creating _ _ _ _ Hi); cbn -[rejections]; try lia. intros Hr Hq. specialize (H4 Hr Hq). lia.
  - destruct b; cbn in Hw; [|outcome_inv Hw]; injection Hw as <-.
    + split_counts w; try lia. intros Hr Hq. apply H4; [lia|done].
    + split_counts w; lia.
Qed.

Lemma counts_thread w w' i r : counts_ok w → threads w !! i = Some r → thread_step i r w = Done w' → counts_ok w'.
Proof.
  intros Hok Hi Hw. assert (Hlen : ∀ r', length (<[i := r']> (threads w)) = length (threads w)) by (intros; apply length_insert).
  assert (Hone : ∀ t e r', e ≠ Rejected → counts_ok (log t e (with_threads (<[i := r']> (threads w)) w))).
  { intros t e r' He. apply (counts_keep w); try done; [apply Hlen| |by left]. rewrite rejections_log, decide_False by done. by rewrite Nat.add_0_r. }
  destruct r as [t|t [|cb p]|t|t [|cb p]|]; cbn [thread_step] in Hw; 
    [injection Hw as <-; first [by apply Hone|apply (counts_keep w); try done; [apply Hlen|by left]]..|].
  unfold next_job in Hw. outcome_inv Hw. pose proof (items_pop (queue w)) as Hpop. destruct (async_try_pop (queue w)) as [[t q]|]; injection Hw as <-.
  - apply (counts_keep w); try done; [apply Hlen|by rewrite rejections_log, decide_False, Nat.add_0_r by done|]. intros _. left. by rewrite Hpop.
  - pose proof Hok as [H1 H2 H3 H4]. pose proof (delete_length _ _ _ Hi) as Hd.
    split_counts w; try lia. by rewrite Hpop.
Qed.

Lemma counts_step w w' : counts_ok w → step w w' → counts_ok w'.
Proof.
  intros Hok [m Hm]. destruct m as [cb|cb|nm f a|i|i|i b|i|] eqn:Em;
    try (eapply (counts_calling w w' i m); subst m; by eauto); subst m; cbn [exec] in Hm.
  - injection Hm as <-. apply (counts_keep w); try done. by left.
  - injection Hm as <-. apply (counts_keep w); try done. by left.
  - injection Hm as <-. apply (counts_keep w); try done; [|by left]. cbn. rewrite sum_list_with_app. cbn. lia.
  - destruct (threads w !! i) as [r|] eqn:Hi; [|done]. by eapply counts_thread.
  - destruct (destroyed w) eqn:Hd; [done|]. unfold z_thread_destroy in Hm. outcome_inv Hm. injection Hm as <-.
    destruct Hok as [H1 H2 H3 H4]. rewrite Hd in H2. split_counts w; try done; lia.
Qed.

(** ** The order of the queue *)
Lemma keys_log t e e' w : keys_of e' (trace (log t e w)) = keys_of e' (trace w) ++ (if decide (e = e') then [self t] else []).
Proof. cbn -[keys_of]. rewrite keys_of_app. f_equal. unfold keys_of. rewrite filter_cons, filter_nil. cbn. by case_decide. Qed.

Lemma fifo_step w w' : fifo_ok w → step w w' → fifo_ok w'.
Proof.
  unfold fifo_ok. intros Hok [m Hm]. destruct m as [cb|cb|nm f a|i|i|i b|i|]; cbn [exec] in Hm; try by injection Hm as <-.
  - destruct (callers w !! i) as [[t|t|t]|] eqn:Hi; try done. by injection Hm as <-.
  - destruct (callers w !! i) as [[t|t|t]|] eqn:Hi; try done. unfold queue_or_start in Hm. outcome_inv Hm.
    case_decide; injection Hm as <-; [|done]. rewrite !keys_log. cbn -[keys_of]. rewrite items_push, fmap_app, app_nil_r, app_assoc. cbn -[keys_of].
    by rewrite Hok.
  - destruct (callers w !! i) as [[t|t|t]|] eqn:Hi; try done. destruct b; cbn in Hm; [|outcome_inv Hm]; injection Hm as <-;
      rewrite !keys_log; cbn -[keys_of]; by rewrite !app_nil_r.
  - destruct (threads w !! i) as [r|] eqn:Hi; [|done].
    destruct r as [t|t [|cb p]|t|t [|cb p]|]; cbn [thread_step] in Hm; [injection Hm as <-; try done; rewrite !keys_log; cbn -[keys_of]; by rewrite !app_nil_r..|].
    unfold next_job in Hm. outcome_inv Hm. pose proof (items_pop (queue w)) as Hpop. destruct (async_try_pop (queue w)) as [[t q]|]; injection Hm as <-; [|done].
    rewrite !keys_log. cbn -[keys_of]. rewrite app_nil_r, <- app_assoc. rewrite <- Hok, Hpop. done.
  - destruct (destroyed w); [done|]. unfold z_thread_destroy in Hm. outcome_inv Hm. by injection Hm as <-.
Qed.

(** ** What holds in every reachable state *)
Lemma max_step w w' : step w w' → max_threads w' = max_threads w.
Proof.
  intros [m Hm]. destruct m as [cb|cb|nm f a|i|i|i b|i|]; cbn [exec] in Hm; repeat case_match; try done; try by injection Hm as <-.
  - unfold queue_or_start in Hm. outcome_inv Hm. case_decide; by injection Hm as <-.
  - unfold create_thread in Hm. destruct b; [|outcome_inv Hm]; by injection Hm as <-.
  - unfold thread_step, next_job in Hm. repeat case_match; try (outcome_inv Hm; repeat case_match); by injection Hm as <-.
  - unfold z_thread_destroy in Hm. outcome_inv Hm. by injection Hm as <-.
Qed.

Record pool_ok (max : Z) (start stop : list ZThreadCallback) (w : pool) : Prop := {
  pool_counts : counts_ok w;
  pool_fifo : fifo_ok w;
  pool_jobs : jobs_ok start stop w;
  pool_max : max_threads w = max
}.

Lemma pool_ok_init max start stop : pool_ok max start stop (z_thread_init max start stop).
Proof.
  split; [| | |done].
  - split; cbn; try lia. by rewrite items_new.
  - unfold fifo_ok. cbn. by rewrite items_new.
  - split; cbn; try done; unfold places; cbn; by rewrite items_new.
Qed.

Lemma pool_ok_step max start stop w w' : pool_ok max start stop w → step w w' → pool_ok max start stop w'.
Proof.
  intros [Hc Hf Hj Hm] Hs. split; [by eapply counts_step|by eapply fifo_step|by eapply jobs_step|]. by rewrite (max_step _ _ Hs).
Qed.

Lemma pool_ok_reach max start stop w w' : pool_ok max start stop w → rtc step w w' → pool_ok max start stop w'.
Proof. intros Hok. induction 1 as [|w w1 w' Hs _ IH]; [done|]. by apply IH, (pool_ok_step _ _ _ w). Qed.

Lemma creating_one (l : list calling) i t : l !! i = Some (CCreating t) → (0 < sum_list_with creating l)%nat.
Proof. intros Hi. rewrite (sum_delete creating _ _ _ Hi). cbn. lia. Qed.

Lemma lock_ok w : 0 < queue_refs w → g_async_queue_lock w = Done tt.
Proof. intros. by apply require_true. Qed.

Lemma lock_fault w : queue_refs w ≤ 0 → g_async_queue_lock w = Fault UseAfterFree.
Proof. intros. unfold g_async_queue_lock, require. by rewrite decide_False by lia. Qed.

Lemma exec_alive w m f : 0 < queue_refs w → exec m w = Fault f → f = Blocked.
Proof.
  intros Hr Hf. destruct m as [cb|cb|nm g a|i|i|i b|i|]; cbn [exec] in Hf; try done; repeat case_match; try congruence.
  - unfold queue_or_start in Hf. rewrite lock_ok in Hf by done. cbn in Hf. by case_decide.
  - unfold create_thread in Hf. rewrite lock_ok in Hf by done. by destruct b.
  - unfold thread_step, next_job in Hf. rewrite lock_ok in Hf by done. cbn in Hf. by repeat case_match.
  - unfold z_thread_destroy in Hf. by rewrite require_true in Hf by done.
Qed.

Lemma exec_gone w m f : queue_refs w ≤ 0 → exec m w = Fault f →
  f = Blocked ∨ f = UseAfterFree ∧
    ((∃ i, m = Lock i) ∨ (∃ i t, callers w !! i = Some (CCreating t)) ∨ threads w ≠ [] ∨ destroyed w = false).
Proof.
  intros Hr Hf. assert (Hl := lock_fault w Hr). destruct m as [cb|cb|nm g a|i|i|i b|i|]; cbn [exec] in Hf; try done.
  - left. repeat case_match; congruence.
  - case_match; [case_match|]; try (left; congruence). right. unfold queue_or_start in Hf. rewrite Hl in Hf. injection Hf as <-.
    split; [done|]. left. by eexists.
  - destruct (callers w !! i) as [[t|t|t]|] eqn:Hi; try (left; congruence). right. destruct b; [done|]. unfold create_thread in Hf.
    rewrite Hl in Hf. injection Hf as <-. split; [done|]. right. left. by exists i, t.
  - destruct (threads w !! i) as [r|] eqn:Hi; [|left; congruence]. right. split.
    + unfold thread_step, next_job in Hf. destruct r as [t|t [|cb p]|t|t [|cb p]|]; try done. rewrite Hl in Hf. by injection Hf as <-.
    + right. right. left. intros He. by rewrite He in Hi.
  - destruct (destroyed w); [left; congruence|]. right. unfold z_thread_destroy, require in Hf. rewrite decide_False in Hf by lia.
    injection Hf as <-. split; [done|]. by do 3 right.
Qed.

(** C5: For every interleaving of calls, threads, failures and the end of the program: there are
    never more threads than allowed; the queue has a reference for each thread, one of the
    program until it is destroyed, and one that is lost with each thread that could not be
    created; and only a call of z_thread_new that comes after the queue was destroyed and the
    last thread has ended uses it when it is gone. *)
Theorem pool_safe max start stop w :
  rtc step (z_thread_init max start stop) w →
  (zlen (threads w) ≤ num_threads w ∧ num_threads w ≤ Z.max 0 max) ∧
  queue_refs w = (if destroyed w then 0 else 1) + num_threads w + Z.of_nat (rejections w) ∧
  ∀ m f, exec m w = Fault f →
    f = Blocked ∨ f = UseAfterFree ∧ (∃ i, m = Lock i) ∧ destroyed w = true ∧ num_threads w = 0 ∧ rejections w = 0%nat.
Proof.
  intros Hw. destruct (pool_ok_reach _ _ _ _ _ (pool_ok_init max start stop) Hw) as [[H1 H2 H3 H4] _ _ Hmax]. rewrite Hmax in H3.
  split; [lia|]. split; [done|]. intros m f Hf. destruct (decide (0 < queue_refs w)) as [Hr|Hr]; [left; by eapply exec_alive|].
  assert (Hd : destroyed w = true) by (destruct (destroyed w); [done|lia]).
  destruct (exec_gone w m f ltac:(lia) Hf) as [->|(-> & [Hm|[(i & t & Hi)|[Hi|Hi]]])]; [by left|right|..].
  - rewrite Hd in H2. repeat split; try done; lia.
  - apply creating_one in Hi. rewrite Hd in H2. lia.
  - rewrite Hd in H2. destruct (threads w); [done|cbn in H1; lia].
  - congruence.
Qed.

(** C12: Every job is in exactly one place, and has gone the way that leads there: created or
    queued, with the callbacks that start it, the newest first, its function once, and the
    callbacks that stop it; what was queued leaves the queue in the order in which it came. *)
Theorem pool_lifecycle max start stop w :
  rtc step (z_thread_init max start stop) w →
  fst <$> places w ≡ₚ seq 0 (next_self w) ∧
  (∀ k p, (k, p) ∈ places w → shape start stop (start_callbacks w) (stop_callbacks w) p (events (trace w) k)) ∧
  keys_of Popped (trace w) ++ (self <$> items (queue w)) = keys_of Queued (trace w).
Proof.
  intros Hw. destruct (pool_ok_reach _ _ _ _ _ (pool_ok_init max start stop) Hw) as [_ Hf [H1 H2 _ _ _] _].
  split; [done|]. split; [|done]. intros k p Hin. by apply (proj1 (Forall_forall _ _) H2) in Hin.
Qed.

(** ** Every job is done in the end *)
Definition job_weight (w : pool) : nat := 5 + length (start_callbacks w) + length (stop_callbacks w).

Definition thread_weight (w : pool) (r : running) : nat :=
  match r with
  | TBegin _ => job_weight w
  | TStart _ p => 4 + length p + length (stop_callbacks w)
  | TFunc _ => 3 + length (stop_callbacks w)
  | TStop _ p => 2 + length p
  | TNext => 1
  end.

Definition call_weight (w : pool) (c : calling) : nat :=
  match c with CLoaded _ => 3 + job_weight w | CReady _ => 2 + job_weight w | CCreating _ => 1 + job_weight w end.

(** The steps that are left. *)
Definition work (w : pool) : nat :=
  sum_list_with (thread_weight w) (threads w) + length (items (queue w)) * job_weight w + sum_list_with (call_weight w) (callers w).


Lemma work_eq w w' :
  length (start_callbacks w') = length (start_callbacks w) → length (stop_callbacks w') = length (stop_callbacks w) →
  work w' = (sum_list_with (thread_weight w) (threads w') + length (items (queue w')) * job_weight w + sum_list_with (call_weight w) (callers w'))%nat.
Proof.
  intros H1 H2. assert (Hj : job_weight w' = job_weight w) by (unfold job_weight; lia). unfold work. rewrite Hj. f_equal; [f_equal|].
  - induction (threads w') as [|r l IH]; [done|]. cbn. rewrite IH. f_equal. destruct r; cbn; lia.
  - induction (callers w') as [|c l IH]; [done|]. cbn. rewrite IH. f_equal. destruct c; cbn; lia.
Qed.

Lemma work_calling w w' m i : exec m w = Done w' → (m = Number i ∨ m = Lock i ∨ m = Create i true) → (work w' < work w)%nat.
Proof.
  intros Hw Hm. unfold work at 2. destruct Hm as [->|[->| ->]]; cbn [exec] in Hw; destruct (callers w !! i) as [[t|t|t]|] eqn:Hi; try done;
    rewrite (sum_delete (call_weight w) _ _ _ Hi); cbn [call_weight].
  - injection Hw as <-. rewrite (work_eq w) by done. cbn [callers number_job with_id with_callers threads queue].
    rewrite (sum_insert (call_weight w) _ _ _ (CReady t) Hi). cbn [call_weight]. lia.
  - unfold queue_or_start in Hw. outcome_inv Hw. case_decide; injection Hw as <-; rewrite (work_eq w) by done; cbn [callers log with_queue with_num with_refs with_callers threads queue].
    + rewrite items_push, length_app. cbn [length]. lia.
    + rewrite (sum_insert (call_weight w) _ _ _ (CCreating t) Hi). cbn [call_weight]. lia.
  - injection Hw as <-. rewrite (work_eq w) by done. cbn [callers log with_threads with_callers threads queue].
    rewrite sum_list_with_app. cbn [sum_list_with thread_weight]. lia.
Qed.

Lemma work_thread w w' i r : threads w !! i = Some r → thread_step i r w = Done w' → (work w' < work w)%nat.
Proof.
  intros Hi Hw. unfold work at 2. rewrite (sum_delete (thread_weight w) _ _ _ Hi).
  assert (Hgo : ∀ r' l, (thread_weight w r' < thread_weight w r)%nat →
    (work (foldr (λ x w, log x.1 x.2 w) (with_threads (<[i := r']> (threads w)) w) l) < 
     thread_weight w r + sum_list_with (thread_weight w) (delete i (threads w)) + length (items (queue w)) * job_weight w + sum_list_with (call_weight w) (callers w))%nat).
  { intros r' l Hr. assert (Hl : work (foldr (λ x w, log x.1 x.2 w) (with_threads (<[i := r']> (threads w)) w) l) = work (with_threads (<[i := r']> (threads w)) w)).
    { induction l as [|x l IH]; [done|]. by rewrite <- IH. }
    rewrite Hl, (work_eq w) by done. cbn [callers with_threads threads queue]. rewrite (sum_insert (thread_weight w) _ _ _ r' Hi). lia. }
  destruct r as [t|t [|cb p]|t|t [|cb p]|]; cbn [thread_step] in Hw.
  - injection Hw as <-. apply (Hgo _ []). cbn. unfold job_weight. lia.
  - injection Hw as <-. apply (Hgo _ [(t, Entered)]). cbn. lia.
  - injection Hw as <-. apply (Hgo _ [(t, StartCallback cb)]). cbn. lia.
  - injection Hw as <-. apply (Hgo _ [(t, Returned)]). cbn. lia.
  - injection Hw as <-. apply (Hgo _ [(t, Freed)]). cbn. lia.
  - injection Hw as <-. apply (Hgo _ [(t, StopCallback cb)]). cbn. lia.
  - unfold next_job in Hw. outcome_inv Hw. pose proof (items_pop (queue w)) as Hpop. destruct (async_try_pop (queue w)) as [[t q]|]; injection Hw as <-; rewrite (work_eq w) by done.
    + cbn [callers log with_threads with_queue threads queue]. rewrite (sum_insert (thread_weight w) _ _ _ (TBegin t) Hi), Hpop. cbn [length thread_weight]. lia.
    + cbn [callers with_num with_refs with_threads threads queue thread_weight]. lia.
Qed.

Lemma work_progress w w' : progress w w' → (work w' < work w)%nat.
Proof.
  intros [m [Hm Hw]]. destruct m as [cb|cb|nm f a|i|i|i [|]|i|]; try done; [eapply work_calling; eauto..|].
  cbn [exec] in Hw. destruct (threads w !! i) as [r|] eqn:Hi; [|done]. by eapply work_thread.
Qed.

Lemma progress_keeps w w' : progress w w' → destroyed w' = destroyed w ∧ rejections w' = rejections w ∧ next_self w' = next_self w.
Proof.
  intros [m [Hm Hw]]. destruct m as [cb|cb|nm f a|i|i|i [|]|i|]; try done; cbn [exec] in Hw; repeat case_match; try done.
  - by injection Hw as <-.
  - unfold queue_or_start in Hw. outcome_inv Hw. case_decide; injection Hw as <-; [|done]. by rewrite rejections_log, Nat.add_0_r.
  - injection Hw as <-. by rewrite rejections_log, Nat.add_0_r.
  - destruct r as [t|t [|cb p]|t|t [|cb p]|]; cbn [thread_step] in Hw; [injection Hw as <-; rewrite ?rejections_log, ?Nat.add_0_r; done..|].
    unfold next_job in Hw. outcome_inv Hw. case_match; [case_match|]; injection Hw as <-; rewrite ?rejections_log, ?Nat.add_0_r; done.
Qed.

(** Nothing is left to do. *)
Definition finished (w : pool) : Prop :=
  threads w = [] ∧ callers w = [] ∧ items (queue w) = [] ∧ num_threads w = 0 ∧ queue_refs w = 1 ∧ keys_of Freed (trace w) ≡ₚ seq 0 (next_self w).

Lemma idle_or_progress w : 0 < queue_refs w → threads w = [] ∧ callers w = [] ∨ ∃ w', progress w w'.
Proof.
  intros Hr. pose proof (lock_ok w Hr) as Hl. destruct (threads w) as [|r l] eqn:Ht; [destruct (callers w) as [|c l] eqn:Hc; [by left|right]|right].
  - destruct c as [t|t|t].
    + eexists. exists (Number 0). by cbn [exec is_progress]; rewrite Hc.
    + destruct (queue_or_start 0 t w) as [w'|] eqn:Hw; [|unfold queue_or_start in Hw; rewrite Hl in Hw; cbn in Hw; by case_decide].
      exists w', (Lock 0). by cbn [exec is_progress]; rewrite Hc.
    + eexists. exists (Create 0 true). by cbn [exec is_progress]; rewrite Hc.
  - destruct (thread_step 0 r w) as [w'|] eqn:Hw.
    + exists w', (Run 0). by cbn [exec is_progress]; rewrite Ht.
    + destruct r as [t|t [|cb p]|t|t [|cb p]|]; try done. cbn in Hw. unfold next_job in Hw. rewrite Hl in Hw. cbn in Hw. by repeat case_match.
Qed.

Lemma ended_done tr : length (filter (λ x, x.2 = Rejected) tr) = 0%nat → fst <$> (tr ≫= ended) = keys_of Freed tr.
Proof.
  unfold keys_of. induction tr as [|[k e] tr IH]; intros Hr; [done|]. rewrite bind_cons, fmap_app. rewrite filter_cons in *. cbn [snd] in *.
  destruct (decide (e = Rejected)) as [->|]; [cbn in Hr; lia|]. rewrite IH by done. unfold ended. cbn [snd fst].
  destruct e; try done; by rewrite ?decide_True, ?decide_False by done.
Qed.

Lemma idle_finished max start stop w :
  pool_ok max start stop w → rejections w = 0%nat → destroyed w = false → 0 < max → threads w = [] → callers w = [] → finished w.
Proof.
  intros [[H1 H2 H3 H4] _ [Hpl _ _ _ _] Hmax] Hr Hd Hpos Ht Hc. rewrite Ht, Hc in H1. cbn in H1. rewrite Hd in H2.
  assert (Hq : items (queue w) = []) by (destruct (items (queue w)); [done|]; specialize (H4 Hr ltac:(done)); lia).
  unfold places in Hpl. rewrite Ht, Hc, Hq in Hpl. cbn [fmap list_fmap app mbind list_bind] in Hpl. rewrite ended_done in Hpl by done.
  repeat split; try done; lia.
Qed.

Lemma nsteps_work n w w' : nsteps progress n w w' → (n + work w' ≤ work w)%nat.
Proof. induction 1 as [|n w w1 w' Hs _ IH]; [lia|]. apply work_progress in Hs. lia. Qed.

(** C6: As long as creating threads does not fail and the queue is not destroyed, the calls and
    the threads come to an end after a bounded number of steps, whatever their order, and they
    stop only when every job that was ever given to the pool is done, no thread is left and
    the program holds the only reference to the queue. *)
Theorem pool_drains max start stop w :
  rtc step (z_thread_init max start stop) w → 0 < max → rejections w = 0%nat → destroyed w = false →
  (∀ n w', nsteps progress n w w' → (n ≤ work w)%nat) ∧
  ∀ w', rtc progress w w' → (∃ w'', progress w' w'') ∨ finished w' ∧ next_self w' = next_self w.
Proof.
  intros Hw Hmax Hr Hd. split; [intros n w' Hn%nsteps_work; lia|]. intros w' Hp.
  pose proof (pool_ok_reach _ _ _ _ _ (pool_ok_init max start stop) Hw) as Hok. clear Hw.
  assert (Hall : pool_ok max start stop w' ∧ rejections w' = 0%nat ∧ destroyed w' = false ∧ next_self w' = next_self w).
  { induction Hp as [|w w1 w' Hs Hp IH]; [done|]. destruct (progress_keeps _ _ Hs) as (E1 & E2 & E3). rewrite <- E3. apply IH; [congruence..|].
    destruct Hs as [m [_ Hm]]. eapply pool_ok_step; [done|]. by exists m. }
  destruct Hall as (Hok' & Hr' & Hd' & Hn'). destruct (idle_or_progress w') as [[Ht Hc]|]; [|right; split; [|done]|by left].
  - destruct Hok' as [[H1 H2 _ _] _ _ _]. rewrite Hd' in H2. lia.
  - by eapply idle_finished.
Qed.
End spec.

Lemma exec_all_rtc `{AsyncQueue} ms w w' : exec_all ms w = Done w' → rtc step w w'.
Proof.
  revert w. induction ms as [|m ms IH]; intros w Hw; cbn in Hw; [injection Hw as <-; done|]. outcome_inv Hw.
  eapply rtc_l; [by exists m|]. by apply IH.
Qed.

(** ** The size of the stack *)

(** A number of kilobytes gives that many, and at most 256; with something behind the number
    the argument is refused. *)
Theorem stack_size_arg_spec k rest :
  0 ≤ k < 2 ^ 21 → isdigit (cur rest) = false →
  z_thread_stack_size_arg (print_dec k ++ rest) =
  if decide (cur rest = 0) then Done (true, Z.min (k * 1024) (256 * 1024)) else Done (false, k * 1024).
Proof.
  intros Hk Hr. unfold z_thread_stack_size_arg. rewrite strtol_print by (done || lia). rewrite require_true by lia. rewrite Done_bind.
  rewrite s32_small by lia. repeat case_decide; try done; do 2 f_equal; lia.
Qed.

(** ** Runs *)
Module Runs.
Local Instance fifo : AsyncQueue := {|
  queue_t := list ZThread;
  async_new := [];
  async_push q t := q ++ [t];
  async_try_pop q := match q with [] => None | t :: q => Some (t, q) end
|}.

Local Instance fifo_laws : AsyncQueueLaws.
Proof. refine {| items := (λ q : @queue_t fifo, q) |}; [done|done|]. by intros [|t q]. Defined.

Definition start : list ZThreadCallback := [(2%nat, 0); (1%nat, 0)].
Definition stop : list ZThreadCallback := [(3%nat, 0)].
Definition after (max : Z) (ms : list move) : pool :=
  match exec_all ms (z_thread_init max start stop) with Done w => w | Fault _ => z_thread_init max start stop end.

Lemma reached max ms :
  match exec_all ms (z_thread_init max start stop) with Done _ => True | Fault _ => False end →
  rtc step (z_thread_init max start stop) (after max ms).
Proof. unfold after. destruct (exec_all _ _) as [w|] eqn:Hw; [|done]. intros _. by eapply exec_all_rtc. Qed.

(** A second job, which has to wait for the only thread. *)
Definition two_calls : list move := [New (str "a") 7 70; Number 0; Lock 0; New (str "b") 8 80; Number 1; Lock 1; Create 0 true].
Definition two_jobs : list move := two_calls ++ replicate 16 (Run 0).

Example second_job :
  events (trace (after 1 two_jobs)) 1 =
  [Queued; Popped; StartCallback (2%nat, 0); StartCallback (1%nat, 0); Entered; Returned; StopCallback (3%nat, 0); Freed].
Proof. vm_compute. done. Qed.

Lemma pool_safe_witness :
  let w := after 1 two_calls in
  (zlen (threads w) ≤ num_threads w ∧ num_threads w ≤ 1) ∧ queue_refs w = 1 + num_threads w + Z.of_nat (rejections w).
Proof.
  destruct (pool_safe 1 start stop (after 1 two_calls)) as (H1 & H2 & _); [|by split].
  apply (reached 1 two_calls); by vm_compute.
Defined.

Lemma pool_lifecycle_witness :
  let w := after 1 two_jobs in
  fst <$> places w ≡ₚ [0; 1]%nat ∧ shape start stop start stop PDone (events (trace w) 1).
Proof.
  destruct (pool_lifecycle 1 start stop (after 1 two_jobs)) as (H1 & H2 & _); [apply (reached 1 two_jobs); by vm_compute|].
  split; [exact H1|]. apply (H2 1%nat PDone). vm_compute. right. left.
Defined.

Lemma pool_drains_witness :
  let w := after 1 two_calls in
  (∀ n w', nsteps progress n w w' → (n ≤ work w)%nat) ∧
  ∀ w', rtc progress w w' → (∃ w'', progress w' w'') ∨ finished w' ∧ next_self w' = 2%nat.
Proof.
  apply (pool_drains 1 start stop (after 1 two_calls)); [apply (reached 1 two_calls); by vm_compute|done..].
Defined.

Lemma stack_size_arg_spec_witness : z_thread_stack_size_arg (str "300") = Done (true, 262144).
Proof. apply (stack_size_arg_spec 300 []); [lia|done]. Defined.

(** A job is queued while a thread is being created, and the creation fails: no thread is
    there to run it, although its caller was told that all is well. *)
Definition stranded : list move := [New (str "a") 7 70; Number 0; Lock 0; New (str "b") 8 80; Number 1; Lock 1; Create 0 false].

Example stranded_job :
  let w := after 1 stranded in
  trace w = [(1%nat, Queued); (0%nat, Rejected)] ∧ threads w = [] ∧ callers w = [] ∧ length (items (queue w)) = 1%nat ∧ num_threads w = 0.
Proof. vm_compute. done. Qed.

Example stranded_for_good m w' : is_progress m = true → exec m (after 1 stranded) ≠ Done w'.
Proof. destruct m as [cb|cb|nm f a|i|i|i [|]|i|]; try done; intros _; by destruct i. Qed.

(** A failed creation keeps its reference, and the queue is never freed. *)
Example leaked_reference : queue_refs (after 1 (stranded ++ [Destroy])) = 1.
Proof. vm_compute. done. Qed.

(** With no threads allowed every job waits for ever. *)
Example no_threads : let w := after 0 [New (str "a") 7 70; Number 0; Lock 0] in trace w = [(0%nat, Queued)] ∧ num_threads w = 0.
Proof. vm_compute. done. Qed.

(** Two calls at a time give their threads the same number. *)
Example same_number :
  (thread_id ∘ job_of) <$> callers (after 2 [New (str "a") 7 70; New (str "b") 8 80; Number 0; Number 1]) = [1; 1].
Proof. vm_compute. done. Qed.

(** A call after the end uses the queue that was freed. *)
Example too_late : exec (Lock 0) (after 1 [Destroy; New (str "a") 7 70; Number 0]) = Fault UseAfterFree.
Proof. vm_compute. done. Qed.

(** The number is cut to 32 bits before it is compared with the limit; a negative one passes, and
    an argument that is refused changes the size all the same. *)
Example huge_stack : z_thread_stack_size_arg (str "2097152") = Done (true, - 2 ^ 31).
Proof. vm_compute. done. Qed.

Example negative_stack : z_thread_stack_size_arg (str "-1") = Done (true, -1024).
Proof. vm_compute. done. Qed.

Example refused_stack : z_thread_stack_size_arg (str "64k") = Done (false, 65536).
Proof. vm_compute. done. Qed.
End Runs.
