(* ===== verification/Process.v ===== *)
(** * Processes (process.c), without the supervisor

    The settings, the users and groups by name or number, the result that a process hands to
    the one that waits for it, the pid file, and the change of the root directory and of the
    credentials.  The system calls and the user database are arguments; Supervise.v holds the
    processes themselves. *)

From S2P Require Import Prelude CLib Dump.
From stdpp Require Import gmap.
Open Scope Z_scope.

(** [%d] of an int. *)
Definition print_int (v : Z) : list Z := if decide (v < 0) then chr "-" :: print_dec (- v) else print_dec v.

(** ** The settings *)
Inductive ZProcessMode := Z_PM_FOREGROUND | Z_PM_BACKGROUND | Z_PM_SAFE_BACKGROUND.

#[global] Instance ZProcessMode_eq_dec : EqDecision ZProcessMode.
Proof. solve_decision. Defined.

(** [None] is NULL; the check function is a flag, its answers come with the run. *)
Record process_opts := mkOpts {
  mode : ZProcessMode;
  name : option (list Z);
  user : option (list Z);
  group : option (list Z);
  chroot_dir : option (list Z);
  pidfile : option (list Z);
  pidfile_dir : option (list Z);
  cwd : option (list Z);
  caps : option (list Z);
  core : bool;
  use_fdlimit_settings : bool;
  check_period : Z;
  check_fn : bool;
  restart_max : Z;
  restart_interval : Z;
  notify_interval : Z;
  pid_removed : bool;
  old_value : Z
}.

Definition default_opts : process_opts :=
  mkOpts Z_PM_SAFE_BACKGROUND None None None None None None None None false false (-1) false 5 60 600 false (-1).

Definition z_process_set_mode m o := mkOpts m (name o) (user o) (group o) (chroot_dir o) (pidfile o) (pidfile_dir o) (cwd o) (caps o) (core o) (use_fdlimit_settings o) (check_period o) (check_fn o) (restart_max o) (restart_interval o) (notify_interval o) (pid_removed o) (old_value o).
Definition z_process_set_name s o := mkOpts (mode o) s (user o) (group o) (chroot_dir o) (pidfile o) (pidfile_dir o) (cwd o) (caps o) (core o) (use_fdlimit_settings o) (check_period o) (check_fn o) (restart_max o) (restart_interval o) (notify_interval o) (pid_removed o) (old_value o).

(** [if (!x) x = v;] *)
Definition first_wins {A} (x v : option A) : option A := match x with None => v | Some _ => x end.

Definition z_process_set_user s o := mkOpts (mode o) (name o) (first_wins (user o) s) (group o) (chroot_dir o) (pidfile o) (pidfile_dir o) (cwd o) (caps o) (core o) (use_fdlimit_settings o) (check_period o) (check_fn o) (restart_max o) (restart_interval o) (notify_interval o) (pid_removed o) (old_value o).
Definition z_process_set_group s o := mkOpts (mode o) (name o) (user o) (first_wins (group o) s) (chroot_dir o) (pidfile o) (pidfile_dir o) (cwd o) (caps o) (core o) (use_fdlimit_settings o) (check_period o) (check_fn o) (restart_max o) (restart_interval o) (notify_interval o) (pid_removed o) (old_value o).
Definition z_process_set_chroot s o := mkOpts (mode o) (name o) (user o) (group o) (first_wins (chroot_dir o) s) (pidfile o) (pidfile_dir o) (cwd o) (caps o) (core o) (use_fdlimit_settings o) (check_period o) (check_fn o) (restart_max o) (restart_interval o) (notify_interval o) (pid_removed o) (old_value o).
Definition z_process_set_pidfile s o := mkOpts (mode o) (name o) (user o) (group o) (chroot_dir o) (first_wins (pidfile o) s) (pidfile_dir o) (cwd o) (caps o) (core o) (use_fdlimit_settings o) (check_period o) (check_fn o) (restart_max o) (restart_interval o) (notify_interval o) (pid_removed o) (old_value o).
Definition z_process_set_pidfile_dir s o := mkOpts (mode o) (name o) (user o) (group o) (chroot_dir o) (pidfile o) (first_wins (pidfile_dir o) s) (cwd o) (caps o) (core o) (use_fdlimit_settings o) (check_period o) (check_fn o) (restart_max o) (restart_interval o) (notify_interval o) (pid_removed o) (old_value o).
Definition z_process_set_working_dir s o := mkOpts (mode o) (name o) (user o) (group o) (chroot_dir o) (pidfile o) (pidfile_dir o) (first_wins (cwd o) s) (caps o) (core o) (use_fdlimit_settings o) (check_period o) (check_fn o) (restart_max o) (restart_interval o) (notify_interval o) (pid_removed o) (old_value o).
Definition z_process_set_caps s o := mkOpts (mode o) (name o) (user o) (group o) (chroot_dir o) (pidfile o) (pidfile_dir o) (cwd o) (first_wins (caps o) s) (core o) (use_fdlimit_settings o) (check_period o) (check_fn o) (restart_max o) (restart_interval o) (notify_interval o) (pid_removed o) (old_value o).
Definition z_process_set_use_fdlimit b o := mkOpts (mode o) (name o) (user o) (group o) (chroot_dir o) (pidfile o) (pidfile_dir o) (cwd o) (caps o) (core o) b (check_period o) (check_fn o) (restart_max o) (restart_interval o) (notify_interval o) (pid_removed o) (old_value o).
Definition z_process_set_check period fn o := mkOpts (mode o) (name o) (user o) (group o) (chroot_dir o) (pidfile o) (pidfile_dir o) (cwd o) (caps o) (core o) (use_fdlimit_settings o) period fn (restart_max o) (restart_interval o) (notify_interval o) (pid_removed o) (old_value o).
Definition with_periods period old o := mkOpts (mode o) (name o) (user o) (group o) (chroot_dir o) (pidfile o) (pidfile_dir o) (cwd o) (caps o) (core o) (use_fdlimit_settings o) period (check_fn o) (restart_max o) (restart_interval o) (notify_interval o) (pid_removed o) old.
Definition with_restarts max interval o := mkOpts (mode o) (name o) (user o) (group o) (chroot_dir o) (pidfile o) (pidfile_dir o) (cwd o) (caps o) (core o) (use_fdlimit_settings o) (check_period o) (check_fn o) max interval (notify_interval o) (pid_removed o) (old_value o).
Definition with_pid_removed b o := mkOpts (mode o) (name o) (user o) (group o) (chroot_dir o) (pidfile o) (pidfile_dir o) (cwd o) (caps o) (core o) (use_fdlimit_settings o) (check_period o) (check_fn o) (restart_max o) (restart_interval o) (notify_interval o) b (old_value o).

Definition z_process_set_check_enable (new_state : bool) (o : process_opts) : process_opts :=
  if decide (0 ≤ check_period o) then if new_state then o else with_periods (old_value o) (check_period o) o
  else if new_state then with_periods (old_value o) (check_period o) o else o.

Definition z_process_get_check_enable (o : process_opts) : bool := bool_decide (0 ≤ check_period o).

(** The mode by its name; FALSE for another one. *)
Definition z_process_process_mode_arg (value : list Z) (o : process_opts) : bool * process_opts :=
  if str_eq value (str "foreground") then (true, z_process_set_mode Z_PM_FOREGROUND o)
  else if str_eq value (str "background") then (true, z_process_set_mode Z_PM_BACKGROUND o)
  else if str_eq value (str "safe-background") then (true, z_process_set_mode Z_PM_SAFE_BACKGROUND o)
  else (false, o).

(** ** Users and groups *)

(** The value of a digit to a base up to 36. *)
Definition digit_value (c : Z) : Z :=
  if isdigit c then c - 48 else if islower c then c - 87 else if isupper c then c - 55 else 36.

Fixpoint digits_base (base acc : Z) (s : list Z) : Z * list Z :=
  match s with
  | c :: r => if digit_value c <? base then digits_base base (acc * base + digit_value c) r else (acc, s)
  | [] => (acc, [])
  end.

(** [strtol(s, &end, 0)]: the prefix tells the base. *)
Definition strtol_0 (s : list Z) : Z * list Z :=
  let '(neg, r) := sign (skip_spaces s) in
  let '(base, r) :=
    match r with
    | 48 :: x :: d :: _ => if (tolower x =? chr "x") && (digit_value d <? 16) then (16, drop 2 r) else (8, r)
    | 48 :: _ => (8, r)
    | _ => (10, r)
    end in
  if digit_value (cur r) <? base then
    let '(v, r) := digits_base base 0 r in
    (Z.max LONG_MIN (Z.min LONG_MAX (if neg then - v else v)), r)
  else (0, s).

Section users.
(** getpwnam_r and getgrnam_r with a buffer of 1024 bytes: the number, or nothing when there is
    no such name, or the call fails. *)
Context (getpwnam getgrnam : list Z → option Z).

Definition z_resolve (lookup : list Z → option Z) (s : list Z) : bool * Z :=
  match lookup s with
  | Some id => (true, id)
  | None => let '(v, err) := strtol_0 s in if decide (cur err ≠ 0) then (false, 0) else (true, u32 v)
  end.

Definition z_resolve_user : list Z → bool * Z := z_resolve getpwnam.
Definition z_resolve_group : list Z → bool * Z := z_resolve getgrnam.

(** ** The credentials

    The numbers of the process and its supplementary groups; [permitted] tells whether the
    system allows a change. *)
Record credentials := mkCred { cred_uid : Z; cred_gid : Z; cred_groups : list Z }.

Context (permitted : credentials → credentials → bool) (groups_of : list Z → list Z).

(** A call that changes the credentials: 0 or -1. *)
Definition change (c c' : credentials) : bool * credentials := if permitted c c' then (true, c') else (false, c).

(** The three calls; a failure ends the change for root only. *)
Definition change_gid (gid : Z) (c : credentials) : option credentials :=
  let '(ok, c) := change c (mkCred (cred_uid c) gid (cred_groups c)) in
  if negb ok && (cred_uid c =? 0) then None else Some c.

Definition change_groups (name : option (list Z)) (gid : Z) (c : credentials) : option credentials :=
  match name with
  | None => Some c
  | Some name =>
      let '(ok, c) := change c (mkCred (cred_uid c) (cred_gid c) (gid :: groups_of name)) in
      if negb ok && (cred_uid c =? 0) then None else Some c
  end.

Definition change_uid (uid : Z) (c : credentials) : option credentials :=
  let '(ok, c) := change c (mkCred uid (cred_gid c) (cred_groups c)) in
  if negb ok && (cred_uid c =? 0) then None else Some c.

(** -1 as a uid_t, with which the variables start. *)
Definition no_id : Z := 2 ^ 32 - 1.

Definition resolved (resolve : list Z → bool * Z) (name : option (list Z)) : option Z :=
  match name with
  | None => Some no_id
  | Some s => let '(ok, id) := resolve s in if ok then Some id else None
  end.

(** [None]: FALSE is returned. *)
Definition z_process_change_user (o : process_opts) (c : credentials) : option credentials :=
  uid ← resolved z_resolve_user (user o);
  gid ← resolved z_resolve_group (group o);
  c ← (if decide (gid ≠ no_id) then c ← change_gid gid c; change_groups (user o) gid c else Some c);
  if decide (uid ≠ no_id) then change_uid uid c else Some c.
End users.

(** ** The result of the startup *)

(** The number is formatted into ten bytes, and as many are written as it has characters. *)
Definition z_process_send_result `{FreshMem} (ret_num : Z) : outcome (list Z) :=
  let text := print_int (s32 ret_num) ++ [10] in
  buf ← snprintf (fresh_bytes 0 10) 0 10 text;
  load_range buf 0 (zlen text).

(** atoi of a buffer that may have no terminator. *)
Definition atoi (b : list Z) : outcome Z :=
  let '(neg, r) := sign (skip_spaces b) in
  let '(v, rest) := digits 0 r in
  match rest with
  | [] => Fault OutOfBounds
  | _ => Done (s32 (Z.max LONG_MIN (Z.min LONG_MAX (if neg then - v else v))))
  end.

(** What comes through the pipe; nothing when the other side has closed it without a result. *)
Definition z_process_recv_result (sent : list Z) : outcome Z :=
  let got := take 6 sent in
  match got with
  | [] => Done 1
  | _ => atoi (got ++ replicate (6 - length got) 0)
  end.

(** ** The pid file *)

(** The directory comes from the configuration; [allowed] tells whether the system lets the
    process change a file. *)
Abbreviation files := (gmap (list Z) (list Z)).

Section files.
Context (ZORPLIB_PIDFILE_DIR : list Z) (allowed : list Z → bool).

(** What g_snprintf leaves in the buffer, or the setting itself. *)
Definition z_process_format_pidfile_name (o : process_opts) (buflen : Z) : list Z :=
  let dir := default ZORPLIB_PIDFILE_DIR (pidfile_dir o) in
  match pidfile o with
  | None => take (Z.to_nat (buflen - 1)) (dir ++ str "/" ++ default (str "(null)") (name o) ++ str ".pid")
  | Some p => if decide (cur p = chr "/") then p else take (Z.to_nat (buflen - 1)) (dir ++ str "/" ++ p)
  end.



Definition z_process_write_pidfile (pid : Z) (o : process_opts) (fs : files) : process_opts * files :=
  let p := z_process_format_pidfile_name o 256 in
  (with_pid_removed false o, if allowed p then <[p := print_int pid ++ [10]]> fs else fs).

(** fscanf with [%d]: a number in front, or -1. *)
Definition z_process_read_pidfile (p : list Z) (fs : files) : Z :=
  match fs !! p with
  | None => -1
  | Some text =>
      let '(neg, r) := sign (skip_spaces text) in
      if isdigit (cur r) then let v := (digits 0 r).1 in s32 (if (neg : bool) then - v else v) else -1
  end.

Definition z_process_remove_pidfile (getpid : Z) (o : process_opts) (fs : files) : process_opts * files :=
  if pid_removed o then (o, fs)
  else
    let p := z_process_format_pidfile_name o 256 in
    let fpid := z_process_read_pidfile p fs in
    if decide (fpid = -1) then (o, fs)
    else if decide (fpid = getpid) then
      if allowed p then (with_pid_removed true o, delete p fs) else (o, fs)
    else (o, fs).
End files.
