(* ===== verification/ProcessSpec.v ===== *)
(** * Processes: the properties of the parts without the supervisor

    The check is switched on and off ([check_toggles]), results arrive as they were sent
    ([result_roundtrip]), privileges are given up ([change_user_spec]) and a pid file is only
    removed by the process it names ([pidfile_session_spec]); with runs that show the limits. *)

From S2P Require Import Prelude CLib Dump SockAddr Process.
From stdpp Require Import gmap.
Open Scope Z_scope.

(** ** Switching the check *)
Lemma toggle_step p q o b :
  0 ≤ p → q < 0 → (check_period o, old_value o) = (p, q) ∨ (check_period o, old_value o) = (q, p) →
  let o' := z_process_set_check_enable b o in
  (check_period o', old_value o') = if b then (p, q) else (q, p).
Proof.
  intros Hp Hq [[= H1 H2]|[= H1 H2]]; unfold z_process_set_check_enable; rewrite ?H1, ?H2;
    repeat case_decide; destruct b; cbn; rewrite ?H1, ?H2; done || lia.
Qed.

(** From a state in which the check runs with a period, or was switched off from it, any
    sequence of calls leaves the check as the last call says, with the same period. *)
Theorem check_toggles p q o bs b :
  0 ≤ p → q < 0 → (check_period o, old_value o) = (p, q) ∨ (check_period o, old_value o) = (q, p) →
  let o' := z_process_set_check_enable b (foldl (λ o b, z_process_set_check_enable b o) o bs) in
  z_process_get_check_enable o' = b ∧ check_period o' = (if b then p else q).
Proof.
  intros Hp Hq Ho. cbn zeta. assert (Hall : ∀ o, (check_period o, old_value o) = (p, q) ∨ (check_period o, old_value o) = (q, p) →
    let o' := z_process_set_check_enable b (foldl (λ o b, z_process_set_check_enable b o) o bs) in (check_period o', old_value o') = if b then (p, q) else (q, p)).
  { clear o Ho. induction bs as [|b' bs IH]; intros o Ho; cbn [foldl]; [by apply toggle_step|]. apply IH.
    pose proof (toggle_step p q o b' Hp Hq Ho) as Hs. cbn zeta in Hs. rewrite Hs. destruct b'; auto. }
  specialize (Hall o Ho). unfold z_process_get_check_enable. cbn zeta in Hall. destruct b; injection Hall as -> _; split; try done;
    [by apply bool_decide_eq_true|apply bool_decide_eq_false; lia].
Qed.

(** ** Results *)
Lemma digits_all s : Forall (λ c, isdigit c = true) s → (digits 0 s).2 = [].
Proof. intros Hs. pose proof (digits_app 0 s [] Hs) as Hd. rewrite app_nil_r in Hd. by rewrite Hd. Qed.

Lemma digits_print v r : 0 ≤ v < 10 ^ 18 → isdigit (cur r) = false → digits 0 (print_dec v ++ r) = (v, r).
Proof.
  intros Hv Hr. unfold print_dec. rewrite digits_app by apply dec_digits_digits. by rewrite dec_digits_value, digits_stop by (done || lia).
Qed.

Lemma number_front s r : s ≠ [] → Forall (λ c, isdigit c = true) s → sign (skip_spaces (s ++ r)) = (false, s ++ r).
Proof.
  intros Hs Hd. destruct s as [|c s]; [done|]. apply Forall_cons in Hd as [Hc _]. destruct (digit_facts c Hc) as (H1 & H2 & H3).
  cbn [app skip_spaces]. rewrite H1. cbn [sign]. by rewrite H2, H3.
Qed.

Lemma dec_digits_long fuel k v : (k < fuel)%nat → 10 ^ Z.of_nat k ≤ v → (S k ≤ length (dec_digits fuel v))%nat.
Proof.
  revert k v. induction fuel as [|fuel IH]; intros k v Hk Hv; [lia|]. cbn [dec_digits]. rewrite length_app. cbn [length].
  destruct k as [|k]; [lia|]. rewrite Nat2Z.inj_succ, Z.pow_succ_r in Hv by lia.
  assert (0 < 10 ^ Z.of_nat k) by (apply Z.pow_pos_nonneg; lia). rewrite decide_False by lia.
  assert (S k ≤ length (dec_digits fuel (v / 10)))%nat; [|lia]. apply IH; [lia|]. apply Z.div_le_lower_bound; lia.
Qed.

Section results.
Context `{FreshMem}.

Lemma fresh_length n : length (fresh_bytes 0 n) = n.
Proof. unfold fresh_bytes. by rewrite length_fmap, length_seq. Qed.

(** What is sent, when it fits. *)
Lemma send_result_text r :
  0 ≤ r < 10 ^ 8 → z_process_send_result r = Done (print_dec r ++ [10]).
Proof.
  intros Hr. unfold z_process_send_result. rewrite s32_small by lia. unfold print_int. rewrite decide_False by lia.
  pose proof (print_dec_length 7 r ltac:(cbn; lia)) as Hl. set (text := print_dec r ++ [10]).
  assert (Ht : (length text ≤ 9)%nat) by (unfold text; rewrite length_app; cbn [length]; lia).
  unfold snprintf. rewrite decide_False, decide_False by lia. rewrite take_ge by lia.
  rewrite store_range_ok by (rewrite ?length_app, ?fresh_length; cbn [length]; lia). rewrite Done_bind.
  unfold load_range. rewrite decide_True by (rewrite ?length_app, ?length_drop, ?fresh_length; cbn [length]; lia).
  rewrite Nat2Z.id, <- app_assoc. change (take (Z.to_nat 0) (fresh_bytes 0 10)) with (@nil Z). change (Z.to_nat 0) with 0%nat.
  rewrite app_nil_l, drop_0. by rewrite take_app_length.
Qed.

(** Six digits leave no room for a terminator. *)
Lemma recv_full s r : (6 ≤ length s)%nat → Forall (λ c, isdigit c = true) s → z_process_recv_result (s ++ r) = Fault OutOfBounds.
Proof.
  intros Hl Hd. unfold z_process_recv_result. rewrite take_app_le by done. assert (Ht : Forall (λ c, isdigit c = true) (take 6 s)) by by apply Forall_take.
  assert (Hlen : length (take 6 s) = 6%nat) by (rewrite length_take; lia). rewrite Hlen. cbn [Nat.sub replicate]. rewrite app_nil_r.
  destruct (take 6 s) as [|c l] eqn:E; [done|]. unfold atoi. pose proof (number_front (c :: l) [] ltac:(done) Ht) as Hf. rewrite app_nil_r in Hf.
  rewrite Hf. pose proof (digits_all _ Ht) as Ha. by destruct (digits 0 (c :: l)) as [v rest]; cbn in Ha; subst rest.
Qed.

(** More digits than the writer has room for. *)
Lemma send_result_long r :
  10 ^ 8 ≤ r < 2 ^ 31 →
  (r < 10 ^ 9 ∧ z_process_send_result r = Done (print_dec r ++ [0])) ∨ z_process_send_result r = Fault OutOfBounds.
Proof.
  intros Hr. unfold z_process_send_result. rewrite s32_small by lia. unfold print_int. rewrite decide_False by lia.
  pose proof (dec_digits_long 20 8 r ltac:(lia) ltac:(cbn; lia)) as Hl. fold (print_dec r) in Hl.
  unfold snprintf. rewrite decide_False, decide_False by lia. set (shown := take (Z.to_nat (10 - 1)) (print_dec r ++ [10])).
  assert (Hs : length shown = 9%nat) by (unfold shown; rewrite length_take, length_app; cbn [length]; lia).
  rewrite store_range_ok by (rewrite ?length_app, ?fresh_length; cbn [length]; lia). rewrite Done_bind.
  change (take (Z.to_nat 0) (fresh_bytes 0 10)) with (@nil Z). rewrite app_nil_l.
  rewrite (drop_ge (fresh_bytes 0 10)) by (rewrite length_app, fresh_length; cbn [length]; lia). rewrite app_nil_r.
  unfold load_range. rewrite !length_app, Hs. cbn [length]. case_decide as Hd; [left|by right].
  pose proof (dec_digits_long 20 9 r ltac:(lia)) as H9. fold (print_dec r) in H9.
  split; [destruct (decide (r < 10 ^ 9)); [done|]; specialize (H9 ltac:(cbn; lia)); lia|].
  f_equal. unfold shown. change (Z.to_nat (10 - 1)) with 9%nat. rewrite take_app_le by lia. rewrite (take_ge (print_dec r)) by lia.
  change (Z.to_nat 0) with 0%nat. rewrite drop_0. apply take_ge. rewrite length_app. cbn [length]. lia.
Qed.

(** A number of up to five digits arrives as it was sent; one of six to nine digits fills the
    buffer of the reader without a terminator, so that it reads behind it; one of ten digits
    makes the writer read behind its own. *)
Theorem result_roundtrip r :
  0 ≤ r < 2 ^ 31 →
  (sent ← z_process_send_result r; z_process_recv_result sent) =
  if decide (r < 10 ^ 5) then Done r else Fault OutOfBounds.
Proof.
  intros Hr. destruct (decide (r < 10 ^ 8)) as [H8|H8].
  - rewrite send_result_text by lia. rewrite Done_bind. pose proof (dec_digits_digits 20 r) as Hd. fold (print_dec r) in Hd.
    unfold z_process_recv_result. case_decide as H5.
    + pose proof (print_dec_length 4 r ltac:(cbn; lia)) as Hl. rewrite take_ge by (rewrite length_app; cbn [length]; lia).
      destruct (print_dec r ++ [10]) as [|c l] eqn:E; [by apply app_eq_nil in E as [_ ?]|]. rewrite <- E. clear E c l.
      unfold atoi. rewrite <- app_assoc, number_front by (done || apply dec_digits_nonempty).
      rewrite digits_print by (done || lia). cbn [app]. f_equal. unfold LONG_MAX, LONG_MIN. rewrite s32_small; lia.
    + pose proof (dec_digits_long 20 5 r ltac:(lia) ltac:(cbn; lia)) as Hl. fold (print_dec r) in Hl. by apply recv_full.
  - rewrite decide_False by lia. destruct (send_result_long r) as [(H9 & ->)| ->]; [lia| |done]. rewrite Done_bind.
    pose proof (dec_digits_long 20 8 r ltac:(lia) ltac:(cbn; lia)) as Hl. fold (print_dec r) in Hl.
    apply recv_full; [lia|]. apply dec_digits_digits.
Qed.
End results.

(** ** Users and groups *)
Lemma digit_value_dec c : (digit_value c <? 10) = isdigit c.
Proof.
  unfold digit_value. destruct (isdigit c) eqn:Hd; [unfold isdigit in Hd; lia|].
  destruct (islower c) eqn:Hl; [unfold islower in Hl; lia|]. destruct (isupper c) eqn:Hu; [unfold isupper in Hu; lia|done].
Qed.

Lemma digits_base_dec acc s : digits_base 10 acc s = digits acc s.
Proof.
  revert acc. induction s as [|c s IH]; intros acc; cbn; [done|]. rewrite digit_value_dec. destruct (isdigit c) eqn:Hd; [|done].
  unfold digit_value. rewrite Hd. apply IH.
Qed.

Lemma dec_digits_front fuel v : 0 < v → v < 10 ^ Z.of_nat fuel → ∃ c s, dec_digits fuel v = c :: s ∧ c ≠ 48 ∧ isdigit c = true.
Proof.
  revert v. induction fuel as [|fuel IH]; intros v Hv Hf; [cbn in Hf; lia|]. cbn [dec_digits]. case_decide.
  - exists (48 + v `mod` 10), []. rewrite Z.mod_small by lia. split; [done|]. unfold isdigit. lia.
  - rewrite Nat2Z.inj_succ, Z.pow_succ_r in Hf by lia. destruct (IH (v / 10)) as (c & s & E & Hc);
      [apply Z.div_str_pos; lia|apply Z.div_lt_upper_bound; lia|]. rewrite E. by exists c, (s ++ [48 + v `mod` 10]).
Qed.

Lemma strtol_0_print v : 0 ≤ v < 10 ^ 18 → strtol_0 (print_dec v) = (v, []).
Proof.
  intros Hv. destruct (decide (v = 0)) as [->|Hn]; [done|]. destruct (dec_digits_front 20 v) as (c & s & E & Hc & Hd); [lia|cbn; lia|].
  fold (print_dec v) in E. pose proof (number_front (print_dec v) [] ltac:(by rewrite E) ltac:(apply dec_digits_digits)) as Hf.
  rewrite app_nil_r in Hf. unfold strtol_0. rewrite Hf. pose proof (digits_print v [] Hv eq_refl) as Hp. rewrite app_nil_r in Hp.
  rewrite E in *. assert (Hb : match c :: s with 48 :: x :: d :: _ => if (tolower x =? chr "x") && (digit_value d <? 16) then (16, drop 2 (c :: s)) else (8, c :: s) | 48 :: _ => (8, c :: s) | _ => (10, c :: s) end = (10, c :: s)).
  { destruct c as [|c|c]; try done. do 6 (destruct c as [c|c|]; try done). }
  rewrite Hb. cbn [cur]. rewrite digit_value_dec, Hd, digits_base_dec, Hp. f_equal. unfold LONG_MAX, LONG_MIN. lia.
Qed.

(** A name that is known gives its number, and a numeral that is no name gives itself. *)
Theorem resolve_spec lookup :
  (∀ s id, lookup s = Some id → z_resolve lookup s = (true, id)) ∧
  (∀ k, 0 ≤ k < 2 ^ 32 → lookup (print_dec k) = None → z_resolve lookup (print_dec k) = (true, k)) ∧
  (∀ s, lookup s = None → cur (strtol_0 s).2 ≠ 0 → z_resolve lookup s = (false, 0)).
Proof.
  unfold z_resolve. split; [by intros s id ->|]. split.
  - intros k Hk ->. rewrite strtol_0_print by lia. cbn. unfold u32. by rewrite Z.mod_small by lia.
  - intros s -> Hs. destruct (strtol_0 s) as [v err]. cbn in Hs. by rewrite decide_True.
Qed.

(** A number that was asked for, or what is there when none was. *)
Definition asked_for (id old : Z) : Z := if decide (id = no_id) then old else id.

Section privileges.
Context (getpwnam getgrnam : list Z → option Z) (permitted : credentials → credentials → bool) (groups_of : list Z → list Z).

Lemma change_gid_root gid c c' : cred_uid c = 0 → change_gid permitted gid c = Some c' → c' = mkCred 0 gid (cred_groups c).
Proof.
  intros Hu. unfold change_gid, change. rewrite Hu. destruct (permitted _ _); cbn; [by intros [= <-]|]. by rewrite Hu.
Qed.

Lemma change_groups_root u gid c c' :
  cred_uid c = 0 → change_groups permitted groups_of (Some u) gid c = Some c' → c' = mkCred 0 (cred_gid c) (gid :: groups_of u).
Proof.
  intros Hu. unfold change_groups, change. rewrite Hu. destruct (permitted _ _); cbn; [by intros [= <-]|]. by rewrite Hu.
Qed.

Lemma change_uid_root uid c c' : cred_uid c = 0 → change_uid permitted uid c = Some c' → c' = mkCred uid (cred_gid c) (cred_groups c).
Proof.
  intros Hu. unfold change_uid, change. destruct (permitted _ _); cbn; [by intros [= <-]|]. by rewrite Hu.
Qed.

(** C29: What root has become when TRUE is returned.  The user is the one that was asked for; it
    is still root when none was asked for, or the user -1.  The group is the one that was asked
    for; without one (or with -1) it is still that of root.  The supplementary groups are those
    of the user with the group only when both were asked for; in every other case root's
    supplementary groups stay, also those of a user that was changed to without a group
    ([Runs.groups_of_root], [Runs.user_minus_one]). *)
Theorem change_user_spec o c c' :
  cred_uid c = 0 → z_process_change_user getpwnam getgrnam permitted groups_of o c = Some c' →
  ∃ uid gid,
    resolved (z_resolve_user getpwnam) (user o) = Some uid ∧ resolved (z_resolve_group getgrnam) (group o) = Some gid ∧
    cred_uid c' = asked_for uid 0 ∧ cred_gid c' = asked_for gid (cred_gid c) ∧
    cred_groups c' = (if decide (gid = no_id) then cred_groups c else match user o with Some u => gid :: groups_of u | None => cred_groups c end).
Proof.
  unfold asked_for.
  intros Hu. unfold z_process_change_user. destruct (resolved (z_resolve_user getpwnam) (user o)) as [uid|]; [|done].
  destruct (resolved (z_resolve_group getgrnam) (group o)) as [gid|]; [|done]. cbn [mbind option_bind]. intros Hc. exists uid, gid. do 2 (split; [done|]).
  assert (Hg : ∀ c1, (if decide (gid ≠ no_id) then c ← change_gid permitted gid c; change_groups permitted groups_of (user o) gid c else Some c) = Some c1 →
    cred_uid c1 = 0 ∧ cred_gid c1 = (if decide (gid = no_id) then cred_gid c else gid) ∧
    cred_groups c1 = (if decide (gid = no_id) then cred_groups c else match user o with Some u => gid :: groups_of u | None => cred_groups c end)).
  { intros c1. destruct (decide (gid = no_id)) as [->|Hn]; [rewrite decide_False by (by intros []); by intros [= <-]|]. rewrite decide_True by done.
    destruct (change_gid permitted gid c) as [c2|] eqn:E; [|done]. cbn. apply change_gid_root in E; [|done]. subst c2.
    destruct (user o) as [u|]; [|by intros [= <-]]. intros E. by apply change_groups_root in E as ->. }
  destruct (if decide (gid ≠ no_id) then _ else _) as [c1|]; [|done]. cbn in Hc. destruct (Hg c1 eq_refl) as (H1 & H2 & H3).
  destruct (decide (uid = no_id)) as [->|Hn]; [rewrite decide_False in Hc by (by intros []); by injection Hc as <-|].
  rewrite decide_True in Hc by done. apply change_uid_root in Hc; [|done]. by subst c'.
Qed.
End privileges.

(** ** The pid file *)
Section pidfile.
Context (dir : list Z) (allowed : list Z → bool).

Lemma read_written p pid fs : 0 ≤ pid < 2 ^ 31 → z_process_read_pidfile p (<[p := print_int pid ++ [10]]> fs) = pid.
Proof.
  intros Hp. unfold z_process_read_pidfile. rewrite lookup_insert_eq. unfold print_int. rewrite decide_False by lia.
  rewrite number_front by (apply dec_digits_digits || apply dec_digits_nonempty).
  destruct (print_dec_cons pid) as (c & s & E & Hc). rewrite digits_print by (done || lia). rewrite E. cbn [app cur fst]. rewrite Hc. by apply s32_small; lia.
Qed.

(** The process reads the number that it has written, and removes the file once; a file that
    another process has written in the meantime stays, and so does every other file. *)
Theorem pidfile_session_spec pid o fs :
  let p := z_process_format_pidfile_name dir o 256 in
  let '(o1, fs1) := z_process_write_pidfile dir allowed pid o fs in
  0 ≤ pid < 2 ^ 31 → allowed p = true →
  z_process_read_pidfile p fs1 = pid ∧
  (let '(o2, fs2) := z_process_remove_pidfile dir allowed pid o1 fs1 in
   fs2 = delete p fs ∧ ∀ other fs', z_process_remove_pidfile dir allowed other o2 fs' = (o2, fs')) ∧
  (∀ other, 0 ≤ other < 2 ^ 31 → other ≠ pid →
   let fs' := (z_process_write_pidfile dir allowed other o fs1).2 in z_process_remove_pidfile dir allowed pid o1 fs' = (o1, fs')).
Proof.
  cbn zeta. unfold z_process_write_pidfile. intros Hpid Ha. rewrite !Ha. set (p := z_process_format_pidfile_name dir o 256) in *.
  assert (Hp : z_process_format_pidfile_name dir (with_pid_removed false o) 256 = p) by done.
  split; [by apply read_written|]. split.
  - unfold z_process_remove_pidfile. cbn [pid_removed with_pid_removed]. rewrite Hp, read_written by done.
    rewrite decide_False, decide_True, Ha by lia. split; [apply delete_insert_eq|]. done.
  - intros other Ho Hne. unfold z_process_remove_pidfile. cbn [pid_removed with_pid_removed snd]. rewrite Hp, read_written by done.
    by rewrite decide_False, decide_False by lia.
Qed.
End pidfile.

(** ** Runs *)
Module Runs.
Local Existing Instance zero_mem.

Lemma check_toggles_witness :
  let o := z_process_set_check_enable true (z_process_set_check_enable false (z_process_set_check 7 true default_opts)) in
  z_process_get_check_enable o = true ∧ check_period o = 7.
Proof. apply (check_toggles 7 (-1) (z_process_set_check 7 true default_opts) [false] true); [lia|lia|by left]. Defined.

(** A check that is installed while it is switched off: switching it off brings the old one back. *)
Example off_is_on :
  let o := z_process_set_check 10 true (z_process_set_check_enable false (z_process_set_check 7 true default_opts)) in
  let o' := z_process_set_check_enable false o in z_process_get_check_enable o' = true ∧ check_period o' = 7.
Proof. done. Qed.

Lemma result_roundtrip_witness :
  (sent ← z_process_send_result 42; z_process_recv_result sent) = Done 42 ∧
  (sent ← z_process_send_result 100000; z_process_recv_result sent) = Fault OutOfBounds.
Proof. split; [apply (result_roundtrip 42)|apply (result_roundtrip 100000)]; lia. Defined.

Definition nobody (s : list Z) : option Z := if decide (s = str "nobody") then Some 65534 else None.
Definition always (c c' : credentials) : bool := true.
Definition own_groups (s : list Z) : list Z := [100].
Definition root : credentials := mkCred 0 0 [0; 1].
Definition as_user (u : option (list Z)) (g : option (list Z)) : process_opts := z_process_set_group g (z_process_set_user u default_opts).

Lemma resolve_spec_witness : z_resolve nobody (str "nobody") = (true, 65534) ∧ z_resolve nobody (str "1000") = (true, 1000) ∧ z_resolve nobody (str "anybody") = (false, 0).
Proof. destruct (resolve_spec nobody) as (H1 & H2 & H3). split; [by apply H1|split; [by apply (H2 1000)|by apply H3]]. Defined.

Lemma change_user_spec_witness :
  ∃ c', z_process_change_user nobody nobody always own_groups (as_user (Some (str "nobody")) (Some (str "nobody"))) root = Some c' ∧
  cred_uid c' = 65534 ∧ cred_gid c' = 65534 ∧ cred_groups c' = [65534; 100].
Proof.
  eexists. split; [reflexivity|]. destruct (change_user_spec nobody nobody always own_groups (as_user (Some (str "nobody")) (Some (str "nobody"))) root _ eq_refl eq_refl)
    as (uid & gid & [= <-] & [= <-] & H1 & H2 & H3). by split.
Defined.

(** Without a group the groups of root are kept. *)
Example groups_of_root : z_process_change_user nobody nobody always own_groups (as_user (Some (str "nobody")) None) root = Some (mkCred 65534 0 [0; 1]).
Proof. vm_compute. done. Qed.

(** The user -1 is taken for no user, and an empty name for root. *)
Example user_minus_one : z_process_change_user nobody nobody always own_groups (as_user (Some (str "-1")) None) root = Some root.
Proof. vm_compute. done. Qed.

Example empty_user : z_resolve nobody [] = (true, 0).
Proof. vm_compute. done. Qed.

(** The numeral is cut to 32 bits. *)
Example long_user : z_resolve nobody (str "4294967296") = (true, 0).
Proof. vm_compute. done. Qed.

(** Somebody who is not root and is refused goes on. *)
Example refused : z_process_change_user nobody nobody (λ _ _, false) own_groups (as_user (Some (str "nobody")) None) (mkCred 1000 1000 []) = Some (mkCred 1000 1000 []).
Proof. vm_compute. done. Qed.

Definition named : process_opts := z_process_set_name (Some (str "zorp")) default_opts.

Lemma pidfile_session_spec_witness :
  z_process_read_pidfile (str "/run/zorp.pid") (z_process_write_pidfile (str "/run") (λ _, true) 4711 named ∅).2 = 4711.
Proof. apply (pidfile_session_spec (str "/run") (λ _, true) 4711 named ∅); [lia|done]. Defined.
End Runs.
