(* ===== verification/Supervise.v ===== *)
(** * Starting and supervising processes (process.c)

    z_process_start in the startup process, the supervisor and the daemon, and the loop that
    starts the daemon again.  A process is a computation over the answers of the system: each
    call takes the next answer, or waits for ever when there is none; [calls] collects what the
    process has done.  SuperviseSpec.v holds the theorems. *)

From S2P Require Import Prelude CLib Process.
Open Scope Z_scope.

Definition PROC_RESTART_MAX : Z := 30.
Definition sizeof_time_t : Z := 8.

Definition SIGABRT : Z := 6.
Definition SIGKILL : Z := 9.
Definition SIGTERM : Z := 15.

(** A status of wait(2). *)
Definition WTERMSIG (s : Z) : Z := Z.land s 127.
Definition WIFEXITED (s : Z) : bool := WTERMSIG s =? 0.
Definition WEXITSTATUS (s : Z) : Z := Z.shiftr (Z.land s 65280) 8.
Definition WIFSIGNALED (s : Z) : bool := negb (WIFEXITED s) && negb (WTERMSIG s =? 127).

(** ** The answers of the system *)
Inductive fork_answer := ForkFailed | ForkParent (pid : Z) | ForkChild.

(** waitpid: the process runs, it has ended, or the call has failed. *)
Inductive wait_answer := WNone | WStatus (s : Z) | WError.

Inductive call :=
| CStart (t pid : Z)
| CReport (sent : list Z)
| CKill (pid signal : Z)
| CSleep
| CNotify (reason arg : list Z) (restarting : bool).

#[global] Instance call_eq_dec : EqDecision call.
Proof. solve_decision. Defined.

(** [results] is what comes through a result pipe, [oks] the answers of the calls that work or
    fail: pipe, access, execlp (which comes back only when it fails), chroot, and parsing the
    capabilities. *)
Record sys := mkSys {
  times : list Z;
  forks : list fork_answer;
  results : list (list Z);
  waits : list wait_answer;
  checks : list bool;
  oks : list bool;
  cred : credentials;
  calls : list call
}.

Definition M (A : Type) : Type := sys → outcome (A * sys).
#[global] Instance M_ret : MRet M := λ A a s, Done (a, s).
#[global] Instance M_bind : MBind M := λ A B k m s, '(a, s) ← m s; k a s.

Definition lift {A} (m : outcome A) : M A := λ s, a ← m; Done (a, s).

Definition time : M Z := λ s,
  match times s with [] => Fault Blocked | t :: l => Done (t, mkSys l (forks s) (results s) (waits s) (checks s) (oks s) (cred s) (calls s)) end.
Definition fork : M fork_answer := λ s,
  match forks s with [] => Fault Blocked | f :: l => Done (f, mkSys (times s) l (results s) (waits s) (checks s) (oks s) (cred s) (calls s)) end.
Definition read_result : M (list Z) := λ s,
  match results s with [] => Fault Blocked | r :: l => Done (r, mkSys (times s) (forks s) l (waits s) (checks s) (oks s) (cred s) (calls s)) end.
Definition waitpid : M wait_answer := λ s,
  match waits s with [] => Fault Blocked | w :: l => Done (w, mkSys (times s) (forks s) (results s) l (checks s) (oks s) (cred s) (calls s)) end.
Definition check : M bool := λ s,
  match checks s with [] => Fault Blocked | b :: l => Done (b, mkSys (times s) (forks s) (results s) (waits s) l (oks s) (cred s) (calls s)) end.
Definition works : M bool := λ s,
  match oks s with [] => Fault Blocked | b :: l => Done (b, mkSys (times s) (forks s) (results s) (waits s) (checks s) l (cred s) (calls s)) end.
Definition does (c : call) : M unit := λ s,
  Done (tt, mkSys (times s) (forks s) (results s) (waits s) (checks s) (oks s) (cred s) (calls s ++ [c])).
Definition get_cred : M credentials := λ s, Done (cred s, s).
Definition set_cred (c : credentials) : M unit := λ s,
  Done (tt, mkSys (times s) (forks s) (results s) (waits s) (checks s) (oks s) c (calls s)).

(** How a process ends, or that it returns as the daemon; [Replaced] runs another program. *)
Inductive ending := Exit (code : Z) | Daemon | Replaced.

(** ** The supervisor *)

(** The variables of z_process_perform_supervise, and whether startup_result_pipe is open. *)
Record supervisor := mkSup {
  restart_time : list Z;
  restart_time_count : Z;
  last_notification_time : Z;
  notify_count : Z;
  first : bool;
  startup_open : bool
}.

Section supervise.
Context `{FreshMem}.

Definition initial_supervisor : supervisor := mkSup (fresh_bytes 0 (Z.to_nat PROC_RESTART_MAX)) 0 0 0 true true.

(** The limits that the settings are moved to. *)
Definition clamp_opts (o : process_opts) : process_opts :=
  let max := if PROC_RESTART_MAX <? restart_max o then PROC_RESTART_MAX else restart_max o in
  let max := if max <? 2 then 5 else max in
  let restart_interval_min := Z.max 5 (3 * max) in
  with_restarts max (if restart_interval o <? restart_interval_min then 5 else restart_interval o) o.

(** The times from the end of the array that are not before [from]. *)
Fixpoint recent (rt : list Z) (i : nat) (from : Z) : Z :=
  match i with
  | O => 0
  | S i => if from <=? rt !!! i then 1 + recent rt i from else 0
  end.

(** The start that comes is recorded: its time, and the count for the check. *)
Definition note_restart (o : process_opts) (v : supervisor) : M (Z * Z * supervisor) :=
  now ← time;
  let from := now - restart_interval o in
  '(rt, n) ← (if decide (restart_time_count v = PROC_RESTART_MAX)
              then rt ← lift (memmove (restart_time v) 0 sizeof_time_t (PROC_RESTART_MAX - 1)); mret (rt, restart_time_count v - 1)
              else mret (restart_time v, restart_time_count v));
  t ← time;
  rt ← lift (store rt n t);
  mret (t, 1 + recent rt (Z.to_nat (n + 1)) from, mkSup rt (n + 1) (last_notification_time v) (notify_count v) (first v) (startup_open v)).

(** z_process_send_result in the supervisor. *)
Definition report (ret_num : Z) (v : supervisor) : M supervisor :=
  if startup_open v then
    sent ← lift (z_process_send_result ret_num);
    _ ← does (CReport sent);
    mret (mkSup (restart_time v) (restart_time_count v) (last_notification_time v) (notify_count v) (first v) false)
  else mret v.

Definition z_process_startup_failed (ret_num : Z) (v : supervisor) : M ending := _ ← report ret_num v; mret (Exit ret_num).

(** Waiting for a process that should end: a second each time, with a soft signal and then
    SIGKILL in the end. *)
Fixpoint reap_loop (n : nat) (i pid soft rc : Z) : M (Z * Z) :=
  match n with
  | O => mret (i, rc)
  | S n =>
      w ← waitpid;
      match w with
      | WNone =>
          _ ← (if decide (3 < i) then does (CKill pid (if decide (4 < i) then SIGKILL else soft)) else mret tt);
          _ ← does CSleep;
          reap_loop n (i + 1) pid soft rc
      | WStatus s => mret (i, s)
      | WError => mret (i, rc)
      end
  end.

Definition reap (pid soft rc : Z) : M Z :=
  '(i, rc) ← reap_loop 6 0 pid soft rc;
  if decide (i = 6) then w ← waitpid; mret (match w with WStatus s => s | _ => rc end) else mret rc.

(** The check function is called every [check_period] seconds; [fuel] are the answers of
    waitpid. *)
Fixpoint check_loop (fuel : nat) (period i rc : Z) : M (bool * Z) :=
  match fuel with
  | O => lift (Fault OutOfFuel)
  | S fuel =>
      w ← waitpid;
      match w with
      | WStatus s => mret (true, s)
      | WError => mret (true, rc)
      | WNone =>
          if decide (period ≤ i) then
            ok ← check;
            if (ok : bool) then _ ← does CSleep; check_loop fuel period 1 rc else mret (false, rc)
          else _ ← does CSleep; check_loop fuel period (i + 1) rc
      end
  end.

(** The end of a daemon: whether it had to be killed because the check failed, and the status. *)
Definition await (o : process_opts) (pid rc : Z) : M (bool * Z) :=
  if check_fn o && (0 <=? check_period o) then
    '(exited, rc) ← (λ s, check_loop (S (length (waits s))) (check_period o) 1 rc s);
    if (exited : bool) then mret (false, rc) else rc ← reap pid SIGABRT rc; mret (true, rc)
  else
    w ← waitpid;
    match w with
    | WStatus s => mret (false, s)
    | WError => mret (false, rc)
    | WNone => lift (Fault Blocked)
    end.

Definition failed (deadlock : bool) (rc : Z) : bool := deadlock || WIFSIGNALED rc || WIFEXITED rc && negb (WEXITSTATUS rc =? 0).
Definition to_restart (deadlock : bool) (rc : Z) : bool := deadlock || negb (WIFSIGNALED rc) || negb (WTERMSIG rc =? SIGKILL).

(** What the notification is told. *)
Definition notify_args (deadlock : bool) (rc : Z) (v : supervisor) : call :=
  if deadlock then CNotify (str "deadlock detected") [] (to_restart deadlock rc)
  else
    CNotify (if WIFSIGNALED rc then str "signalled" else str "non-zero exit code")
      (print_int (if WIFSIGNALED rc then WTERMSIG rc else WEXITSTATUS rc) ++ str "; supressed_notifications=" ++ print_int (notify_count v))
      (to_restart deadlock rc).

(** The external notification, from a process of a process; when the program cannot be run
    its process goes on like the supervisor. *)
Definition notify (o : process_opts) (deadlock : bool) (rc : Z) (v : supervisor) : M (ending + supervisor) :=
  ok ← works;
  if negb ok then mret (inr v)
  else
    now ← time;
    if decide (notify_interval o < now - last_notification_time v) then
      let done := mkSup (restart_time v) (restart_time_count v) now 0 (first v) (startup_open v) in
      npid ← fork;
      match npid with
      | ForkFailed => mret (inr done)
      | ForkParent _ => _ ← waitpid; mret (inr done)
      | ForkChild =>
          child ← fork;
          match child with
          | ForkFailed => mret (inl (Exit 1))
          | ForkParent _ => mret (inl (Exit 0))
          | ForkChild =>
              _ ← does (notify_args deadlock rc v);
              replaced ← works;
              if (replaced : bool) then mret (inl Replaced) else _ ← waitpid; mret (inr done)
          end
      end
    else mret (inr (mkSup (restart_time v) (restart_time_count v) (last_notification_time v) (notify_count v + 1) (first v) (startup_open v))).

(** A daemon that was initialised. *)
Definition supervise_daemon (o : process_opts) (pid restart_count : Z) (v : supervisor) : M (ending + supervisor) :=
  '(deadlock, rc) ← await o pid 0;
  if failed deadlock rc then
    n ← notify o deadlock rc v;
    match n with
    | inl e => mret (inl e)
    | inr v =>
        if to_restart deadlock rc then
          if decide (restart_max o < restart_count) then mret (inl (Exit 0)) else _ ← does CSleep; mret (inr v)
        else mret (inl (Exit 0))
    end
  else mret (inl (Exit 0)).

Definition with_first (b : bool) (v : supervisor) : supervisor :=
  mkSup (restart_time v) (restart_time_count v) (last_notification_time v) (notify_count v) b (startup_open v).

(** One turn of the loop in the supervisor, after the fork. *)
Definition supervise_start (o : process_opts) (pid restart_count : Z) (v : supervisor) : M (ending + supervisor) :=
  sent ← read_result;
  rc ← lift (z_process_recv_result sent);
  v ← (if first v then report rc v else mret v);
  if first v && negb (rc =? 0) then mret (inl (Exit 0))
  else
    let v := with_first false v in
    if decide (rc ≠ 0) then
      _ ← reap pid SIGTERM rc;
      if decide (restart_max o < restart_count) then mret (inl (Exit 0)) else mret (inr v)
    else supervise_daemon o pid restart_count v.

Definition supervise_turn (o : process_opts) (v : supervisor) : M (ending + supervisor) :=
  '(t, restart_count, v) ← note_restart o v;
  piped ← works;
  if negb piped then e ← z_process_startup_failed 1 v; mret (inl e)
  else
    f ← fork;
    match f with
    | ForkFailed => e ← z_process_startup_failed 1 v; mret (inl e)
    | ForkChild => mret (inl Daemon)
    | ForkParent pid => _ ← does (CStart t pid); supervise_start o pid restart_count v
    end.

(** [fuel] are the answers of fork: each turn takes one. *)
Fixpoint supervise_loop (fuel : nat) (o : process_opts) (v : supervisor) : M ending :=
  match fuel with
  | O => lift (Fault OutOfFuel)
  | S fuel => r ← supervise_turn o v; match r with inl e => mret e | inr v => supervise_loop fuel o v end
  end.

(** [argv_set]: z_process_set_argv_space was called, without which the title cannot be set. *)
Definition z_process_perform_supervise (argv_set : bool) (o : process_opts) : M ending :=
  _ ← lift (require (argv_set = true) AssertFailed);
  ((λ s, supervise_loop (S (length (forks s))) (clamp_opts o) initial_supervisor s) : M ending).

(** ** z_process_start *)

Definition z_process_perform_startup : M ending :=
  sent ← read_result; rc ← lift (z_process_recv_result sent); mret (Exit rc).

Definition z_process_change_root (o : process_opts) : M bool := match chroot_dir o with None => mret true | Some _ => works end.
Definition z_process_change_caps (o : process_opts) : M bool := match caps o with None => mret true | Some _ => works end.

Context (getpwnam getgrnam : list Z → option Z) (permitted : credentials → credentials → bool) (groups_of : list Z → list Z).

(** The part of the daemon; [notified] tells whether there is a process to report to. *)
Definition start_daemon (notified : bool) (o : process_opts) : M ending :=
  let failure := _ ← (if notified then sent ← lift (z_process_send_result 1); does (CReport sent) else mret tt); mret (Exit 1) in
  root ← z_process_change_root o;
  if negb root then failure
  else
    c ← get_cred;
    match z_process_change_user getpwnam getgrnam permitted groups_of o c with
    | None => failure
    | Some c =>
        _ ← set_cred c;
        ok ← z_process_change_caps o;
        if (ok : bool) then mret Daemon else failure
    end.

Definition z_process_start (argv_set : bool) (o : process_opts) : M ending :=
  match mode o with
  | Z_PM_FOREGROUND => start_daemon false o
  | _ =>
      piped ← works;
      if negb piped then mret (Exit 1)
      else
        f ← fork;
        match f with
        | ForkFailed => mret (Exit 1)
        | ForkParent _ => z_process_perform_startup
        | ForkChild =>
            if decide (mode o = Z_PM_BACKGROUND) then start_daemon true o
            else
              e ← z_process_perform_supervise argv_set o;
              match e with Daemon => start_daemon true o | _ => mret e end
        end
  end.
End supervise.
