(* ===== verification/SuperviseSpec.v ===== *)
(** * The supervisor: what it guarantees

    A daemon is not started more often than allowed within the interval, as long as the array
    of times has room ([restarts_limited]) - and then the array is left ([times_overflow]);
    the first result arrives at the caller ([startup_code]); and how a process that does not
    end is killed ([reap_spec]); with runs. *)

From S2P Require Import Prelude CLib SockAddr Process ProcessSpec Supervise.
From stdpp Require Import sorting.
Open Scope Z_scope.

(** ** Computations that start no daemon *)
Definition start_time (c : call) : option Z := match c with CStart t _ => Some t | _ => None end.
Definition starts (s : sys) : list Z := omap start_time (calls s).

Lemma bind_run {A B} (m : M A) (k : A → M B) s r : (m ≫= k) s = Done r → ∃ a s1, m s = Done (a, s1) ∧ k a s1 = Done r.
Proof. intros Hr. unfold mbind, M_bind in Hr. outcome_inv Hr. destruct x as [a s1]. by exists a, s1. Qed.

Section keeps.
(** Only calls that are allowed are made, and the clock goes on. *)
Context (ok : call → Prop).

Definition quiet (s s' : sys) : Prop := (∃ more, calls s' = calls s ++ more ∧ Forall ok more) ∧ times s' `suffix_of` times s.

Lemma quiet_refl s : quiet s s.
Proof. split; [exists []; by rewrite app_nil_r|done]. Qed.

Lemma quiet_trans s1 s2 s3 : quiet s1 s2 → quiet s2 s3 → quiet s1 s3.
Proof.
  intros [(l & H1 & H2) H3] [(k & H4 & H5) H6]. split; [|by etrans]. exists (l ++ k). split; [by rewrite H4, H1, app_assoc|by apply Forall_app].
Qed.

Definition keeps {A} (m : M A) (P : A → Prop) : Prop := ∀ s a s', m s = Done (a, s') → quiet s s' ∧ P a.

Lemma keeps_ret {A} (a : A) (P : A → Prop) : P a → keeps (mret a) P.
Proof. intros Ha s a' s' [= <- <-]. split; [apply quiet_refl|done]. Qed.

Lemma keeps_bind {A B} (m : M A) (k : A → M B) P Q : keeps m P → (∀ a, P a → keeps (k a) Q) → keeps (m ≫= k) Q.
Proof.
  intros Hm Hk s b s' Hr. apply bind_run in Hr as (a & s1 & Hx & Hr). destruct (Hm _ _ _ Hx) as [Hq Ha].
  destruct (Hk a Ha _ _ _ Hr) as [Hq' Hb]. split; [by eapply quiet_trans|done].
Qed.

Lemma keeps_mono {A} (m : M A) (P Q : A → Prop) : keeps m P → (∀ a, P a → Q a) → keeps m Q.
Proof. intros Hm HPQ s a s' Hs. destruct (Hm _ _ _ Hs). auto. Qed.

Lemma keeps_lift {A} (m : outcome A) : keeps (lift m) (λ _, True).
Proof. intros s a s' Hs. unfold lift in Hs. outcome_inv Hs. injection Hs as _ <-. split; [apply quiet_refl|done]. Qed.

Lemma keeps_time : keeps time (λ _, True).
Proof.
  intros s a s' Hs. unfold time in Hs. destruct (times s) as [|t l] eqn:E; [done|]. injection Hs as <- <-. split; [|done].
  split; [exists []; by rewrite app_nil_r|]. cbn. rewrite E. by exists [t].
Qed.

(** The other calls take an answer and leave the rest. *)
Lemma keeps_answer {A B} (get : sys → list B) (f : B → list B → sys → sys) (g : B → A) :
  (∀ b l s, calls (f b l s) = calls s ∧ times (f b l s) = times s) →
  keeps (λ s, match get s with [] => Fault Blocked | b :: l => Done (g b, f b l s) end) (λ _, True).
Proof.
  intros Hf s a s' Hs. destruct (get s) as [|b l]; [done|]. injection Hs as <- <-. destruct (Hf b l s) as [H1 H2].
  split; [|done]. split; [exists []; by rewrite H1, app_nil_r|by rewrite H2].
Qed.

Lemma keeps_fork : keeps fork (λ _, True).
Proof. apply (keeps_answer forks (λ _ l s, mkSys (times s) l (results s) (waits s) (checks s) (oks s) (cred s) (calls s)) id). done. Qed.

Lemma keeps_read_result : keeps read_result (λ _, True).
Proof. apply (keeps_answer results (λ _ l s, mkSys (times s) (forks s) l (waits s) (checks s) (oks s) (cred s) (calls s)) id). done. Qed.

Lemma keeps_waitpid : keeps waitpid (λ _, True).
Proof. apply (keeps_answer waits (λ _ l s, mkSys (times s) (forks s) (results s) l (checks s) (oks s) (cred s) (calls s)) id). done. Qed.

Lemma keeps_check : keeps check (λ _, True).
Proof. apply (keeps_answer checks (λ _ l s, mkSys (times s) (forks s) (results s) (waits s) l (oks s) (cred s) (calls s)) id). done. Qed.

Lemma keeps_works : keeps works (λ _, True).
Proof. apply (keeps_answer oks (λ _ l s, mkSys (times s) (forks s) (results s) (waits s) (checks s) l (cred s) (calls s)) id). done. Qed.

Lemma keeps_does c : ok c → keeps (does c) (λ _, True).
Proof. intros Hc s a s' Hs. injection Hs as <- <-. split; [|done]. split; [|done]. exists [c]. split; [done|by constructor]. Qed.
End keeps.

Create HintDb keeps.
#[export] Hint Resolve keeps_lift keeps_time keeps_fork keeps_read_result keeps_waitpid keeps_check keeps_works keeps_does : keeps.

(** Goes through a computation; what is left are the results that matter. *)
Ltac keeps_step :=
  lazymatch goal with
  | |- keeps _ (mret _) _ => apply keeps_ret
  | |- keeps _ (mbind _ _) _ => eapply keeps_bind; [|intros ? ?]
  | |- keeps _ (match ?x with _ => _ end) _ => destruct x
  | |- keeps _ _ _ => solve [eauto with keeps]
  end.

Section spec.
Context `{FreshMem}.

(** The times of the starts are not changed. *)
Definition same_times (v v' : supervisor) : Prop := restart_time v' = restart_time v ∧ restart_time_count v' = restart_time_count v.

Section calls.
Context (ok : call → Prop) (ok_kill : ∀ pid signal, ok (CKill pid signal)) (ok_sleep : ok CSleep) (ok_notify : ∀ r a b, ok (CNotify r a b)).

Lemma keeps_reap_loop n i pid soft rc : keeps ok (reap_loop n i pid soft rc) (λ _, True).
Proof.
  revert i rc. induction n as [|n IH]; intros i rc; cbn [reap_loop]; repeat (keeps_step || done || apply IH).
Qed.

Lemma keeps_reap pid soft rc : keeps ok (reap pid soft rc) (λ _, True).
Proof. unfold reap. eapply keeps_bind; [apply keeps_reap_loop|]. intros [i rc'] _. repeat (keeps_step || done). Qed.

Lemma keeps_check_loop fuel period i rc : keeps ok (check_loop fuel period i rc) (λ _, True).
Proof.
  revert i rc. induction fuel as [|fuel IH]; intros i rc; cbn [check_loop]; repeat (keeps_step || done || apply IH).
Qed.

Lemma keeps_await o pid rc : keeps ok (await o pid rc) (λ _, True).
Proof.
  unfold await. case_match.
  - eapply (keeps_bind ok _ _ (λ _, True)); [intros s a s' Hs; by eapply keeps_check_loop in Hs|]. intros [exited rc'] _.
    destruct exited; [by apply keeps_ret|]. eapply keeps_bind; [apply keeps_reap|]. intros. by apply keeps_ret.
  - repeat (keeps_step || done).
Qed.

Lemma keeps_notify o deadlock rc v : keeps ok (notify o deadlock rc v) (λ r, match r with inl _ => True | inr v' => same_times v v' ∧ startup_open v' = startup_open v end).
Proof.
  unfold notify. repeat (keeps_step || done). apply keeps_does. unfold notify_args. by destruct deadlock.
Qed.

Definition next_ok (v : supervisor) (o : process_opts) (count : Z) (r : ending + supervisor) : Prop :=
  match r with inl _ => True | inr v' => (same_times v v' ∧ count ≤ restart_max o) ∧ startup_open v' = startup_open v end.

Definition next_times (v : supervisor) (o : process_opts) (count : Z) (r : ending + supervisor) : Prop :=
  match r with inl _ => True | inr v' => same_times v v' ∧ count ≤ restart_max o end.

Lemma keeps_supervise_daemon o pid count v : keeps ok (supervise_daemon o pid count v) (next_ok v o count).
Proof.
  unfold supervise_daemon. eapply keeps_bind; [apply keeps_await|]. intros [deadlock rc] _. destruct (failed deadlock rc); [|by apply keeps_ret].
  eapply keeps_bind; [apply keeps_notify|]. intros [e|v'] Hv; [by apply keeps_ret|]. destruct (to_restart deadlock rc); [|by apply keeps_ret].
  destruct Hv as [Hv Ho]. case_decide; repeat (keeps_step || done). split; [|done]. split; [done|lia].
Qed.

Lemma keeps_report rc v : (∀ sent, ok (CReport sent)) → keeps ok (report rc v) (same_times v).
Proof. intros Hok. unfold report. repeat (keeps_step || done). Qed.

Lemma keeps_supervise_start o pid count v : (∀ sent, ok (CReport sent)) → keeps ok (supervise_start o pid count v) (next_times v o count).
Proof.
  intros Hok. unfold supervise_start. do 2 (eapply keeps_bind; [eauto with keeps|intros ? _]).
  eapply (keeps_bind ok _ _ (same_times v)); [destruct (first v); [by apply keeps_report|by apply keeps_ret]|]. intros v' Hv'.
  case_match; [by apply keeps_ret|]. case_decide.
  - eapply keeps_bind; [apply keeps_reap|]. intros _ _. case_decide; apply keeps_ret; [done|]. split; [done|lia].
  - eapply keeps_mono; [apply keeps_supervise_daemon|]. intros [e|v2]; [done|]. intros [[Hs Hc] _]. split; [|done].
    destruct Hv' as [E1 E2], Hs as [E3 E4]. split; cbn in *; congruence.
Qed.

End calls.

(** A call that starts no daemon. *)
Definition other (c : call) : Prop := start_time c = None.

Lemma quiet_starts s s' : quiet other s s' → starts s' = starts s ∧ times s' `suffix_of` times s.
Proof.
  intros [(more & H1 & H2) H3]. split; [|done]. unfold starts. rewrite H1, omap_app. enough (omap start_time more = []) as -> by by rewrite app_nil_r.
  clear H1. induction H2 as [|c more Hc _ IH]; [done|]. cbn. by rewrite Hc.
Qed.

(** ** Counting recent starts *)
Definition count_since (from : Z) (l : list Z) : nat := length (filter (λ t, from ≤ t) l).

Lemma count_since_app from l l' : count_since from (l ++ l') = (count_since from l + count_since from l')%nat.
Proof. unfold count_since. by rewrite filter_app, length_app. Qed.

Lemma count_since_one from t : count_since from [t] = if decide (from ≤ t) then 1%nat else 0%nat.
Proof. unfold count_since. rewrite filter_cons, filter_nil. by case_decide. Qed.

Lemma count_since_none from l : Forall (λ t, t < from) l → count_since from l = 0%nat.
Proof.
  intros Hl. unfold count_since. induction Hl as [|t l Ht _ IH]; [done|]. rewrite filter_cons, decide_False by lia. done.
Qed.

Lemma count_since_mono from from' l : from ≤ from' → (count_since from' l ≤ count_since from l)%nat.
Proof.
  intros Hf. unfold count_since. induction l as [|t l IH]; [done|]. rewrite !filter_cons. repeat case_decide; cbn; lia.
Qed.

(** Sorted times: the scan from the end counts all that are not before [from]. *)
Lemma recent_count rt ts from :
  StronglySorted Z.le ts → take (length ts) rt = ts → recent rt (length ts) from = Z.of_nat (count_since from ts).
Proof.
  induction ts as [|t ts IH] using rev_ind; intros Hs Ht; [done|]. rewrite length_app in *. cbn [length] in *.
  rewrite Nat.add_1_r in *. apply StronglySorted_app in Hs as (Hle & Hs & _). rewrite count_since_app, count_since_one. cbn [recent].
  assert (Hlen : (length ts < length rt)%nat).
  { pose proof (f_equal length Ht) as Hl. rewrite length_take, length_app in Hl. cbn [length] in Hl. lia. }
  destruct (lookup_lt_is_Some_2 rt (length ts) Hlen) as [u Hu]. rewrite (take_S_r _ _ _ Hu) in Ht.
  apply app_inj_tail in Ht as [Ht ->]. rewrite (list_lookup_total_correct _ _ _ Hu). destruct (Z.leb_spec from t).
  - rewrite decide_True, (IH Hs Ht) by done. lia.
  - rewrite decide_False by lia. rewrite count_since_none; [lia|]. apply Forall_forall. intros u' Hu'.
    specialize (Hle u' t Hu' ltac:(left)). lia.
Qed.

(** At every start, those within the interval are not more than allowed. *)
Definition limited (interval : Z) (max : nat) (ts : list Z) : Prop :=
  ∀ l t more, ts = l ++ t :: more → (count_since (t - interval) (l ++ [t]) ≤ max)%nat.

Lemma limited_snoc interval max ts t :
  limited interval max ts → (count_since (t - interval) (ts ++ [t]) ≤ max)%nat → limited interval max (ts ++ [t]).
Proof.
  intros Hl Ht l u more E. destruct more as [|x more _] using rev_ind.
  - by apply app_inj_tail in E as [-> ->].
  - rewrite app_comm_cons, app_assoc in E. apply app_inj_tail in E as [-> _]. by eapply Hl.
Qed.

(** ** The invariant of the loop *)
Record times_ok (o : process_opts) (v : supervisor) (s : sys) : Prop := {
  ok_count : restart_time_count v = zlen (starts s);
  ok_room : length (restart_time v) = Z.to_nat PROC_RESTART_MAX;
  ok_fits : zlen (starts s) ≤ PROC_RESTART_MAX;
  ok_array : take (length (starts s)) (restart_time v) = starts s;
  ok_sorted : StronglySorted Z.le (starts s);
  ok_clock : StronglySorted Z.le (times s);
  ok_past : Forall (λ t, Forall (Z.le t) (times s)) (starts s);
  ok_limited : limited (restart_interval o) (Z.to_nat (restart_max o)) (starts s);
  ok_last : ∀ l t, starts s = l ++ [t] → Z.of_nat (count_since (t - restart_interval o) (starts s)) < restart_max o
}.

Lemma suffix_sorted (l l' : list Z) : l `suffix_of` l' → StronglySorted Z.le l' → StronglySorted Z.le l.
Proof. intros [k ->]. by intros (_ & _ & ?)%StronglySorted_app. Qed.

(** What note_restart leaves, as long as there is room. *)
Lemma note_restart_ok o v s t count v1 s1 :
  times_ok o v s → zlen (starts s) < PROC_RESTART_MAX → note_restart o v s = Done ((t, count, v1), s1) →
  starts s1 = starts s ∧ times s1 `suffix_of` times s ∧
  StronglySorted Z.le (starts s ++ [t]) ∧ Forall (Z.le t) (times s1) ∧
  restart_time_count v1 = zlen (starts s ++ [t]) ∧ length (restart_time v1) = Z.to_nat PROC_RESTART_MAX ∧
  take (length (starts s ++ [t])) (restart_time v1) = starts s ++ [t] ∧
  (∀ l u, starts s = l ++ [u] → u ≤ t) ∧ Z.of_nat (count_since (t - restart_interval o) (starts s ++ [t])) < count.
Proof.
  intros [Hn Hroom Hfits Harr Hso Hcl Hpast _ _] Hlt Hr. unfold note_restart in Hr. unfold PROC_RESTART_MAX in *.
  unfold mbind, M_bind in Hr. unfold time in Hr. destruct (times s) as [|now tl] eqn:Et; [done|]. cbn in Hr.
  rewrite decide_False in Hr by lia. cbn in Hr. destruct tl as [|t' tl]; [done|]. cbn in Hr.
  unfold lift in Hr. rewrite Hn in Hr. unfold store in Hr. rewrite decide_True in Hr by lia. cbn in Hr. injection Hr as <- <- <- <-.
  unfold starts. cbn [calls times restart_time restart_time_count]. fold (starts s).
  apply StronglySorted_inv in Hcl as [Hcl Hnow]. apply Forall_cons in Hnow as [Hnow _]. apply StronglySorted_inv in Hcl as [Hcl Ht'].
  assert (Hall : Forall (λ u, u ≤ t') (starts s)).
  { eapply Forall_impl; [exact Hpast|]. intros u Hu. cbn in Hu. apply Forall_cons in Hu as [_ Hu]. by apply Forall_cons in Hu as [Hu _]. }
  assert (Hsorted : StronglySorted Z.le (starts s ++ [t'])).
  { apply StronglySorted_app. split; [|split; [done|repeat constructor]]. intros x y Hx Hy. apply list_elem_of_singleton in Hy as ->.
    by apply (proj1 (Forall_forall _ _) Hall). }
  assert (Harr' : take (length (starts s ++ [t'])) (<[length (starts s):=t']> (restart_time v)) = starts s ++ [t']).
  { rewrite length_app. cbn [length]. rewrite Nat.add_1_r, (take_S_r _ _ t') by (apply list_lookup_insert_eq; lia).
    rewrite take_insert_ge by lia. by rewrite Harr. }
  rewrite Nat2Z.id in *. split; [done|]. split; [by exists [now; t']|]. split; [done|]. split; [done|].
  split; [rewrite length_app; cbn; lia|]. split; [by rewrite length_insert|]. split; [done|]. split.
  - intros l u E. rewrite E in Hall. apply Forall_app in Hall as [_ Hall]. by apply Forall_cons in Hall as [Hall _].
  - replace (Z.to_nat (zlen (starts s) + 1)) with (length (starts s ++ [t'])) by (rewrite length_app; cbn; lia).
    rewrite (recent_count _ (starts s ++ [t'])) by done.
    pose proof (count_since_mono (now - restart_interval o) (t' - restart_interval o) (starts s ++ [t']) ltac:(lia)). lia.
Qed.

Lemma note_restart_full o v s :
  restart_time_count v = PROC_RESTART_MAX → length (restart_time v) = Z.to_nat PROC_RESTART_MAX →
  note_restart o v s = Fault (match times s with [] => Blocked | _ => OutOfBounds end).
Proof.
  intros Hn Hl. unfold note_restart, mbind, M_bind, time. destruct (times s) as [|now tl]; [done|]. cbn. rewrite decide_True by done.
  unfold lift. rewrite memmove_Fault; [done|]. rewrite Hl. unfold sizeof_time_t, PROC_RESTART_MAX. lia.
Qed.

Lemma start_limited o v s t :
  times_ok o v s → 2 ≤ restart_max o → (∀ l u, starts s = l ++ [u] → u ≤ t) →
  limited (restart_interval o) (Z.to_nat (restart_max o)) (starts s ++ [t]).
Proof.
  intros Hok Hmax Hle. apply limited_snoc; [by apply Hok|]. rewrite count_since_app, count_since_one.
  assert (Hs : Z.of_nat (count_since (t - restart_interval o) (starts s)) < restart_max o); [|case_decide; lia].
  destruct (starts s) as [|u l _] eqn:E using rev_ind; [cbn; lia|]. specialize (Hle l u eq_refl). pose proof (ok_last _ _ _ Hok l u E) as Hl.
  rewrite E in Hl. pose proof (count_since_mono (u - restart_interval o) (t - restart_interval o) (l ++ [u]) ltac:(lia)). lia.
Qed.

Lemma starts_start s t pid :
  starts (mkSys (times s) (forks s) (results s) (waits s) (checks s) (oks s) (cred s) (calls s ++ [CStart t pid])) = starts s ++ [t].
Proof. unfold starts. cbn [calls]. by rewrite omap_app. Qed.

(** A turn of the loop. *)
Lemma turn_ok o v s r s' :
  times_ok o v s → 2 ≤ restart_max o → supervise_turn o v s = Done (r, s') →
  (limited (restart_interval o) (Z.to_nat (restart_max o)) (starts s') ∧ zlen (starts s') ≤ PROC_RESTART_MAX) ∧
  match r with inl _ => True | inr v' => times_ok o v' s' end.
Proof.
  intros Hok Hmax Hr. unfold supervise_turn in Hr. apply bind_run in Hr as ([[t count] v1] & s1 & Hx & Hr).
  destruct (decide (zlen (starts s) = PROC_RESTART_MAX)) as [Hfull|Hroom].
  { rewrite note_restart_full in Hx by (rewrite ?(ok_count _ _ _ Hok); try apply Hok; done). by destruct (times s). }
  pose proof (ok_fits _ _ _ Hok) as Hfits.
  destruct (note_restart_ok o v s t count v1 s1 Hok ltac:(lia) Hx) as (E1 & Htl & Hso & Hpast & Hn & Hl & Harr & Hle & Hcount).
  apply bind_run in Hr as (piped & s2 & Hx0 & Hr). destruct (keeps_works other _ _ _ Hx0) as [[E2 Ht2]%quiet_starts _].
  assert (Hsame : ∀ s2 e, starts s2 = starts s → z_process_startup_failed 1 v1 s2 = Done (e, s') →
    limited (restart_interval o) (Z.to_nat (restart_max o)) (starts s') ∧ zlen (starts s') ≤ PROC_RESTART_MAX).
  { intros s2' e E He. unfold z_process_startup_failed in He. apply bind_run in He as (v2 & s3 & Hx1 & He). injection He as <- <-.
    destruct (keeps_report other _ _ (λ _, eq_refl) _ _ _ Hx1) as [[E3 _]%quiet_starts _]. rewrite E3, E. split; [apply Hok|done]. }
  destruct piped; cbn in Hr.
  2: { apply bind_run in Hr as (e & s3 & Hx1 & Hr). injection Hr as <- <-. split; [|done]. apply (Hsame s2 e); [congruence|done]. }
  apply bind_run in Hr as (f & s3 & Hx1 & Hr). destruct (keeps_fork other _ _ _ Hx1) as [[E3 Ht3]%quiet_starts _].
  destruct f as [|pid|].
  - apply bind_run in Hr as (e & s4 & Hx2 & Hr). injection Hr as <- <-. split; [|done]. apply (Hsame s3 e); [congruence|done].
  - apply bind_run in Hr as (u & s4 & Hx2 & Hr). injection Hx2 as _ E4.
    assert (Es4 : starts s4 = starts s ++ [t]) by (subst s4; rewrite starts_start; congruence).
    assert (Et4 : times s4 = times s3) by by subst s4.
    destruct (keeps_supervise_start other (λ _ _, eq_refl) eq_refl (λ _ _ _, eq_refl) _ _ _ _ (λ _, eq_refl) _ _ _ Hr) as [[E5 Ht5]%quiet_starts Hnext]. rewrite Et4 in Ht5.
    assert (Hsuf : times s' `suffix_of` times s1) by (etrans; [exact Ht5|]; by etrans).
    assert (Hlim := start_limited o v s t Hok Hmax Hle). rewrite E5, Es4. split; [split; [done|rewrite length_app; cbn; lia]|].
    destruct r as [e|v']; [done|]. destruct Hnext as [[Hs1 Hs2] Hc]. split; rewrite ?E5, ?Es4, ?Hs1, ?Hs2; try done.
    + rewrite length_app. cbn. lia.
    + eapply suffix_sorted; [|apply (ok_clock _ _ _ Hok)]. by etrans.
    + apply Forall_app. split; [|constructor; [|done]; by eapply suffix_Forall].
      eapply Forall_impl; [apply (ok_past _ _ _ Hok)|]. intros x Hxx. cbn in Hxx. eapply suffix_Forall; [|done]. by etrans.
    + intros l u' E. apply app_inj_tail in E as [<- <-]. lia.
  - injection Hr as <- <-. split; [|done]. rewrite E3, E2, E1. split; [apply Hok|done].
Qed.

(** Going round the loop. *)
Definition turn (o : process_opts) (x y : supervisor * sys) : Prop := supervise_turn o x.1 x.2 = Done (inr y.1, y.2).

Lemma times_ok_init o s : 2 ≤ restart_max o → calls s = [] → StronglySorted Z.le (times s) → times_ok o initial_supervisor s.
Proof.
  intros Hm Hc Ht. assert (Hs : starts s = []) by (unfold starts; by rewrite Hc). split; rewrite ?Hs;
    first [done|by constructor|by intros [|? ?] ? ? ?|by intros [|? ?] ? ?].
Qed.

Lemma times_ok_turns o x y : 2 ≤ restart_max o → times_ok o x.1 x.2 → rtc (turn o) x y → times_ok o y.1 y.2.
Proof.
  intros Hm Hok. induction 1 as [|x x' y Hs _ IH]; [done|]. apply IH. by destruct (turn_ok o _ _ _ _ Hok Hm Hs).
Qed.

Lemma clamped o : 2 ≤ restart_max (clamp_opts o) ≤ PROC_RESTART_MAX.
Proof. unfold clamp_opts, PROC_RESTART_MAX. cbn. repeat case_match; lia. Qed.

(** C7: Among the starts that the supervisor gets to make, which are thirty at most, because the
    next one leaves the array of times (see [times_overflow]): while the clock does not go
    back, each time the daemon is started, it and the starts within the interval before it
    are not more than the limit, which is between 2 and 30. *)
Theorem restarts_limited o s v s1 r s2 :
  calls s = [] → StronglySorted Z.le (times s) →
  rtc (turn (clamp_opts o)) (initial_supervisor, s) (v, s1) → supervise_turn (clamp_opts o) v s1 = Done (r, s2) →
  limited (restart_interval (clamp_opts o)) (Z.to_nat (restart_max (clamp_opts o))) (starts s2) ∧
  zlen (starts s2) ≤ 30 ∧ 2 ≤ restart_max (clamp_opts o) ≤ 30.
Proof.
  intros Hc Ht Hs Hr. pose proof (clamped o) as Hm. apply and_assoc. split; [|exact Hm].
  pose proof (times_ok_turns (clamp_opts o) (initial_supervisor, s) (v, s1) (proj1 Hm) (times_ok_init (clamp_opts o) s (proj1 Hm) Hc Ht) Hs) as Hok.
  by destruct (turn_ok _ _ _ _ _ Hok (proj1 Hm) Hr).
Qed.

(** C37: After thirty starts the next one moves the array by sizeof(time_t) elements instead of one,
    and reads behind its end. *)
Theorem times_overflow o s v s1 :
  calls s = [] → StronglySorted Z.le (times s) →
  rtc (turn (clamp_opts o)) (initial_supervisor, s) (v, s1) → length (starts s1) = 30%nat → times s1 ≠ [] →
  supervise_turn (clamp_opts o) v s1 = Fault OutOfBounds.
Proof.
  intros Hc Ht Hs Hn Hne. pose proof (clamped o) as Hm.
  pose proof (times_ok_turns (clamp_opts o) (initial_supervisor, s) (v, s1) (proj1 Hm) (times_ok_init (clamp_opts o) s (proj1 Hm) Hc Ht) Hs) as Hok. cbn in Hok.
  unfold supervise_turn. unfold mbind at 1, M_bind at 1. rewrite note_restart_full; [by destruct (times s1)| |apply Hok].
  rewrite (ok_count _ _ _ Hok), Hn. done.
Qed.

(** ** The result of the first start *)

(** Neither a start nor a report. *)
Definition silent (c : call) : Prop := match c with CStart _ _ | CReport _ => False | _ => True end.

Lemma keeps_silent_reap pid soft rc : keeps silent (reap pid soft rc) (λ _, True).
Proof. by apply keeps_reap. Qed.

Lemma keeps_silent_daemon o pid count v : keeps silent (supervise_daemon o pid count v) (next_ok v o count).
Proof. by apply keeps_supervise_daemon. Qed.

(** C13: What the first daemon sends is passed on, once; when it is a failure the supervisor ends
    and starts no other; and the startup process exits with the number that the daemon gave. *)
Theorem startup_code o pid count v s a s' r sent more_results :
  0 ≤ r < 10 ^ 5 → z_process_send_result r = Done sent → results s = sent :: more_results → first v = true → startup_open v = true →
  supervise_start o pid count v s = Done (a, s') →
  (∃ more, calls s' = calls s ++ CReport sent :: more ∧ Forall silent more) ∧
  (match a with inl _ => r ≠ 0 → a = inl (Exit 0) | inr v' => r = 0 ∧ startup_open v' = false end) ∧
  ∀ su, results su = [sent] → ∃ su', z_process_perform_startup su = Done (Exit r, su').
Proof.
  intros Hr Hsend Hres Hfirst Hopen Hs. assert (Hrecv : z_process_recv_result sent = Done r).
  { pose proof (result_roundtrip r ltac:(lia)) as Hrt. rewrite Hsend, Done_bind, decide_True in Hrt by lia. done. }
  assert (Hstart : ∀ su, results su = [sent] → ∃ su', z_process_perform_startup su = Done (Exit r, su')).
  { intros su Hsu. unfold z_process_perform_startup, mbind, M_bind, read_result. rewrite Hsu. cbn. unfold lift. rewrite Hrecv. by eexists. }
  unfold supervise_start in Hs. apply bind_run in Hs as (sent' & s0 & Hread & Hs). unfold read_result in Hread. rewrite Hres in Hread.
  injection Hread as <- Hs0. apply bind_run in Hs as (rc & s0' & Hrc & Hs). unfold lift in Hrc. rewrite Hrecv in Hrc. injection Hrc as <- <-.
  rewrite Hfirst in Hs. apply bind_run in Hs as (v1 & s1 & Hrep & Hs). unfold report in Hrep. rewrite Hopen in Hrep.
  apply bind_run in Hrep as (sent' & s2 & Hl & Hrep). unfold lift in Hl. rewrite Hsend in Hl. injection Hl as <- <-. injection Hrep as Hv1 Hs1.
  assert (Hc1 : calls s1 = calls s ++ [CReport sent]) by by subst s1 s0.
  assert (Hf1 : first v1 = true) by by subst v1. rewrite Hf1 in Hs.
  assert (Hmore : ∀ s2, quiet silent s1 s2 → ∃ more, calls s2 = calls s ++ CReport sent :: more ∧ Forall silent more).
  { intros s2 [(more & H1 & H2) _]. exists more. split; [|done]. by rewrite H1, Hc1, <- app_assoc. }
  destruct (Z.eqb_spec r 0) as [->|Hn]; cbn [negb andb] in Hs.
  - rewrite decide_False in Hs by lia. destruct (keeps_silent_daemon _ _ _ _ _ _ _ Hs) as [Hq Hnext]. split; [by apply Hmore|]. split; [|done].
    destruct a as [e|v']; [done|]. destruct Hnext as [_ ->]. by subst v1.
  - injection Hs as <- <-. split; [apply Hmore, quiet_refl|]. split; [|done]. done.
Qed.
End spec.

(** ** Ending a process that does not end *)

(** What is done in a second, and in the seconds while the process is there. *)
Definition second (pid soft : Z) (i : nat) : list call :=
  (if (3 <? i)%nat then [CKill pid (if (4 <? i)%nat then SIGKILL else soft)] else []) ++ [CSleep].

Definition reap_calls (k : nat) (pid soft : Z) : list call := concat (second pid soft <$> seq 0 k).

Definition after_waits (l : list wait_answer) (more : list call) (s : sys) : sys :=
  mkSys (times s) (forks s) (results s) l (checks s) (oks s) (cred s) (calls s ++ more).

Lemma run_bind {A B} (m : M A) (k : A → M B) s a s1 : m s = Done (a, s1) → (m ≫= k) s = k a s1.
Proof. intros Hm. unfold mbind, M_bind. by rewrite Hm. Qed.

Lemma waitpid_run w l s : waits s = w :: l → waitpid s = Done (w, mkSys (times s) (forks s) (results s) l (checks s) (oks s) (cred s) (calls s)).
Proof. intros Hw. unfold waitpid. by rewrite Hw. Qed.

Lemma reap_loop_wait m n i pid soft rc s rest :
  waits s = replicate m WNone ++ rest →
  reap_loop (m + n) (Z.of_nat i) pid soft rc s =
  reap_loop n (Z.of_nat (i + m)) pid soft rc (after_waits rest (concat (second pid soft <$> seq i m)) s).
Proof.
  revert i s. induction m as [|m IH]; intros i s Hw.
  - cbn in Hw. destruct s as [ts fs rs ws cs ok cr cl]. cbn in Hw. subst ws. rewrite Nat.add_0_r. unfold after_waits. cbn. by rewrite app_nil_r.
  - cbn [Nat.add reap_loop]. erewrite run_bind by (apply waitpid_run; exact Hw).
    replace (Z.of_nat i + 1) with (Z.of_nat (S i)) by lia.
    replace (i + S m)%nat with (S i + m)%nat by lia.
    cbn [seq]. rewrite fmap_cons. cbn [concat].
    transitivity (reap_loop (m + n) (Z.of_nat (S i)) pid soft rc (after_waits (replicate m WNone ++ rest) (second pid soft i) s)).
    + unfold second. destruct (Nat.ltb_spec 3 i); [rewrite decide_True by lia|rewrite decide_False by lia].
      * destruct (Nat.ltb_spec 4 i); [rewrite decide_True by lia|rewrite decide_False by lia];
          unfold mbind, M_bind, does; cbn; unfold after_waits; by rewrite <- app_assoc.
      * unfold mbind, M_bind, does. cbn. by unfold after_waits.
    + rewrite IH by done. unfold after_waits. cbn. by rewrite <- app_assoc.
Qed.

(** A process that ends within six seconds gives its status; after four seconds it gets the soft
    signal, after five SIGKILL; and one that is still there is given up after six. *)
Theorem reap_spec pid soft rc s k rest :
  (∀ status, (k < 6)%nat → waits s = replicate k WNone ++ WStatus status :: rest →
     reap pid soft rc s = Done (status, after_waits rest (reap_calls k pid soft) s)) ∧
  (waits s = replicate 7 WNone ++ rest → reap pid soft rc s = Done (rc, after_waits rest (reap_calls 6 pid soft) s)).
Proof.
  split.
  - intros status Hk Hw. unfold reap. replace 6%nat with (k + S (5 - k))%nat at 1 by lia. erewrite run_bind.
    2: { change 0 with (Z.of_nat 0). rewrite (reap_loop_wait k _ 0 _ _ _ _ _ Hw). cbn [reap_loop Nat.add].
         erewrite run_bind by (apply waitpid_run; reflexivity). reflexivity. }
    cbn. by rewrite decide_False by lia.
  - intros Hw. unfold reap. change 6%nat with (6 + 0)%nat at 1. erewrite run_bind.
    2: { change 0 with (Z.of_nat 0). rewrite (reap_loop_wait 6 0 0 _ _ _ _ (WNone :: rest)) by done. reflexivity. }
    cbv beta iota zeta. rewrite decide_True by done. erewrite run_bind by (apply waitpid_run; reflexivity). done.
Qed.

Fixpoint ascending (l : list Z) : bool :=
  match l with
  | x :: l => match l with y :: _ => (x <=? y) && ascending l | [] => true end
  | [] => true
  end.

Lemma ascending_sorted l : ascending l = true → StronglySorted Z.le l.
Proof.
  intros Ha. apply Sorted_StronglySorted; [intros x y z; lia|]. induction l as [|x l IH]; [constructor|].
  destruct l as [|y l]; [by repeat constructor|]. cbn [ascending] in Ha. apply andb_true_iff in Ha as [Hxy Ha].
  constructor; [by apply IH|]. constructor. lia.
Qed.

(** ** Runs *)
Module Runs.
Local Existing Instance zero_mem.

(** The answers for daemons that are started, work, and are killed by a signal, at given times. *)
Definition crashes (signal : Z) (at_ : list Z) : sys :=
  mkSys (at_ ≫= λ t, [t; t]) ((λ t, ForkParent (1000 + t)) <$> at_) ((λ _, str "0" ++ [10]) <$> at_) ((λ _, WStatus signal) <$> at_) []
    (at_ ≫= λ _, [true; false]) (mkCred 0 0 []) [].

Fixpoint turns (n : nat) (o : process_opts) (v : supervisor) (s : sys) : outcome (supervisor * sys) :=
  match n with
  | O => Done (v, s)
  | S n => '(r, s) ← supervise_turn o v s; match r with inr v => turns n o v s | inl _ => Fault Blocked end
  end.

Lemma turns_rtc n o v s x : turns n o v s = Done x → rtc (turn o) (v, s) x.
Proof.
  revert v s. induction n as [|n IH]; intros v s Hn; cbn in Hn; [by injection Hn as <-|]. outcome_inv Hn. destruct x0 as [[e|v'] s']; [done|].
  apply (rtc_l _ _ (v', s')); [exact Hx|]. by apply IH.
Qed.

Definition named : process_opts := z_process_set_name (Some (str "zorp")) default_opts.
Definition after (n : nat) (s : sys) : supervisor * sys :=
  match turns n (clamp_opts named) initial_supervisor s with Done x => x | Fault _ => (initial_supervisor, s) end.

Lemma after_turns n s :
  match turns n (clamp_opts named) initial_supervisor s with Done _ => True | Fault _ => False end →
  rtc (turn (clamp_opts named)) (initial_supervisor, s) ((after n s).1, (after n s).2).
Proof. unfold after. destruct (turns n _ _ _) as [[v s']|] eqn:E; [|done]. intros _. by apply (turns_rtc n). Qed.

Definition result_of {A} (m : outcome (A * sys)) : option (A * list Z) := match m with Done (a, s) => Some (a, starts s) | Fault _ => None end.

(** With the default limits a daemon that crashes at once is started five times, that is, restarted four times. *)
Example storm : result_of (z_process_perform_supervise true named (crashes 11 (replicate 9 7))) = Some (Exit 0, [7; 7; 7; 7; 7]).
Proof. vm_compute. done. Qed.

Lemma restarts_limited_witness :
  ∃ r s2, supervise_turn (clamp_opts named) (after 3 (crashes 11 (replicate 9 7))).1 (after 3 (crashes 11 (replicate 9 7))).2 = Done (r, s2) ∧
  starts s2 = [7; 7; 7; 7] ∧ limited 60 5 (starts s2).
Proof.
  do 2 eexists. split; [vm_compute; reflexivity|]. split; [reflexivity|].
  refine (proj1 (restarts_limited named (crashes 11 (replicate 9 7)) _ _ _ _ _ _ (after_turns 3 (crashes 11 (replicate 9 7)) _) _));
    [done|by apply ascending_sorted|by vm_compute|by vm_compute].
Defined.

Definition hourly (n : Z) : list Z := (Z.mul 3600) <$> seqZ 1 n.

Lemma times_overflow_witness :
  let x := after 30 (crashes 11 (hourly 31)) in supervise_turn (clamp_opts named) x.1 x.2 = Fault OutOfBounds.
Proof.
  apply (times_overflow named (crashes 11 (hourly 31)) _ _); [done|by apply ascending_sorted; vm_compute|apply after_turns; by vm_compute|by vm_compute|by vm_compute].
Defined.

Lemma startup_code_witness :
  ∃ a s', supervise_start named 1000 2 initial_supervisor (mkSys [] [] [str "3" ++ [10]] [] [] [] (mkCred 0 0 []) []) = Done (a, s') ∧
  a = inl (Exit 0) ∧ ∃ more, calls s' = CReport (str "3" ++ [10]) :: more ∧ Forall silent more.
Proof.
  do 2 eexists. split; [vm_compute; reflexivity|].
  destruct (startup_code named 1000 2 initial_supervisor (mkSys [] [] [str "3" ++ [10]] [] [] [] (mkCred 0 0 []) []) _ _ 3 (str "3" ++ [10]) []
    ltac:(lia) ltac:(by vm_compute) eq_refl eq_refl eq_refl ltac:(vm_compute; reflexivity)) as (H1 & H2 & _). split; [by apply H2|exact H1].
Defined.

Lemma reap_spec_witness :
  reap 1000 SIGTERM 0 (mkSys [] [] [] [WNone; WNone; WNone; WNone; WNone; WStatus 15] [] [] (mkCred 0 0 []) []) =
  Done (15, mkSys [] [] [] [] [] [] (mkCred 0 0 []) [CSleep; CSleep; CSleep; CSleep; CKill 1000 SIGTERM; CSleep]).
Proof.
  apply (proj1 (reap_spec 1000 SIGTERM 0 (mkSys [] [] [] [WNone; WNone; WNone; WNone; WNone; WStatus 15] [] [] (mkCred 0 0 []) []) 5 []) 15); [lia|reflexivity].
Defined.

(** waitpid is interrupted by a signal: the supervisor takes the old value for the status of a daemon that
    has ended well, and leaves while the daemon runs. *)
Example interrupted_wait :
  result_of (z_process_perform_supervise true named (mkSys [7; 7] [ForkParent 1000] [str "0" ++ [10]] [WError] [] [true] (mkCred 0 0 []) [])) = Some (Exit 0, [7]).
Proof. vm_compute. done. Qed.

(** The notification cannot be run: its process goes round the loop of the supervisor and
    starts a daemon of its own. *)
Example second_supervisor :
  let s := mkSys [7; 7; 700; 701; 701] [ForkParent 1000; ForkChild; ForkChild; ForkParent 1001] [str "0" ++ [10]; str "0" ++ [10]] [WStatus 11; WError; WStatus 0] []
             [true; true; false; true] (mkCred 0 0 []) [] in
  match z_process_perform_supervise true named s with
  | Done (e, s') => e = Exit 0 ∧ calls s' = [CStart 7 1000; CReport (str "0" ++ [10]); CNotify (str "signalled") (str "11; supressed_notifications=0") true; CSleep; CStart 701 1001]
  | Fault _ => False
  end.
Proof. vm_compute. done. Qed.

(** A short interval is moved to five seconds, and not to the minimum that the message names. *)
Example short_interval : restart_interval (clamp_opts (with_restarts 5 10 named)) = 5.
Proof. done. Qed.

Example no_title : z_process_perform_supervise false named (crashes 11 [7]) = Fault AssertFailed.
Proof. done. Qed.

(** A daemon that gives 256 as its result has failed, and the caller gets it as the exit code,
    of which the system keeps eight bits. *)
Example result_256 :
  match z_process_perform_startup (mkSys [] [] [str "256" ++ [10]] [] [] [] (mkCred 0 0 []) []) with Done (Exit code, _) => code `mod` 256 = 0 | _ => False end.
Proof. vm_compute. done. Qed.
End Runs.
