(* ===== verification/Ssl.v ===== *)
(** * SSL sessions (ssl.c)

    The decisions that ssl.c makes itself: the verification callback and the revocation lists,
    the verification mode of a session, the cache of the trusted authorities, the text of an
    error, and the BIO that lets OpenSSL work over a stream.  Certificates, revocation lists
    and their signatures are those of OpenSSL ([X509Ops]). *)

From S2P Require Import Prelude CLib Process StreamApi.
From stdpp Require Import gmap.
Open Scope Z_scope.

(** ** Certificates *)

(** What the code asks OpenSSL about a certificate and a revocation list; names are texts, keys
    and serial numbers are numbers. *)
Class X509Ops (X509 X509_CRL : Type) := {
  X509_get_subject_name : X509 → list Z;
  X509_get_issuer_name : X509 → list Z;
  X509_get_serialNumber : X509 → Z;
  X509_get_pubkey : X509 → Z;
  X509_CRL_verify : X509_CRL → Z → Z;
  X509_cmp_nextUpdate : X509_CRL → Z → Z;
  X509_CRL_get_REVOKED : X509_CRL → list Z
}.

Definition Z_SSL_VERIFY_NONE : Z := 0.
Definition Z_SSL_VERIFY_OPTIONAL : Z := 1.
Definition Z_SSL_VERIFY_REQUIRED_UNTRUSTED : Z := 2.
Definition Z_SSL_VERIFY_REQUIRED_TRUSTED : Z := 3.

Definition X509_V_OK : Z := 0.
Definition X509_V_ERR_UNABLE_TO_GET_ISSUER_CERT : Z := 2.
Definition X509_V_ERR_CRL_SIGNATURE_FAILURE : Z := 8.
Definition X509_V_ERR_CERT_HAS_EXPIRED : Z := 10.
Definition X509_V_ERR_CRL_HAS_EXPIRED : Z := 12.
Definition X509_V_ERR_ERROR_IN_CRL_NEXT_UPDATE_FIELD : Z := 16.
Definition X509_V_ERR_DEPTH_ZERO_SELF_SIGNED_CERT : Z := 18.
Definition X509_V_ERR_SELF_SIGNED_CERT_IN_CHAIN : Z := 19.
Definition X509_V_ERR_UNABLE_TO_GET_ISSUER_CERT_LOCALLY : Z := 20.
Definition X509_V_ERR_UNABLE_TO_VERIFY_LEAF_SIGNATURE : Z := 21.
Definition X509_V_ERR_CERT_UNTRUSTED : Z := 27.

Section verify.
Context {X509 X509_CRL : Type} `{!X509Ops X509 X509_CRL}.

(** The list of a name in the store, which X509_STORE_get_by_subject finds. *)
Definition X509_STORE : Type := list Z → option X509_CRL.

Record ZSSLSession := mkSession {
  ref_cnt : Z;
  verify_type : Z;
  verify_depth : Z;
  crl_store : option X509_STORE
}.

(** The list that the authority [xs] has issued: the error for which it is refused. *)
Definition check_own_crl (now : Z) (xs : X509) (store : X509_STORE) : option Z :=
  match store (X509_get_subject_name xs) with
  | None => None
  | Some crl =>
      if decide (X509_CRL_verify crl (X509_get_pubkey xs) ≤ 0) then Some X509_V_ERR_CRL_SIGNATURE_FAILURE
      else
        let i := X509_cmp_nextUpdate crl now in
        if decide (i = 0) then Some X509_V_ERR_ERROR_IN_CRL_NEXT_UPDATE_FIELD
        else if decide (i < 0) then Some X509_V_ERR_CRL_HAS_EXPIRED
        else None
  end.

(** The loop over the entries of a list. *)
Fixpoint revoked_loop (serial : Z) (l : list Z) : bool :=
  match l with
  | [] => false
  | r :: l => if decide (r = serial) then true else revoked_loop serial l
  end.

(** The verdict and the error that is set in the context. *)
Definition z_ssl_verify_crl (now : Z) (ok : bool) (xs : X509) (errnum : Z) (store : X509_STORE) : bool * Z :=
  match check_own_crl now xs store with
  | Some e => (false, e)
  | None =>
      match store (X509_get_issuer_name xs) with
      | None => (ok, errnum)
      | Some crl => if revoked_loop (X509_get_serialNumber xs) (X509_CRL_get_REVOKED crl) then (false, errnum) else (ok, errnum)
      end
  end.

Definition untrusted_error (errnum : Z) : bool :=
  (errnum =? X509_V_ERR_DEPTH_ZERO_SELF_SIGNED_CERT) || (errnum =? X509_V_ERR_SELF_SIGNED_CERT_IN_CHAIN) ||
  (errnum =? X509_V_ERR_UNABLE_TO_GET_ISSUER_CERT_LOCALLY) || (errnum =? X509_V_ERR_UNABLE_TO_GET_ISSUER_CERT) ||
  (errnum =? X509_V_ERR_CERT_UNTRUSTED) || (errnum =? X509_V_ERR_UNABLE_TO_VERIFY_LEAF_SIGNATURE).

Definition z_ssl_verify_callback (now : Z) (self : ZSSLSession) (ok : bool) (xs : X509) (errnum errdepth : Z) : bool :=
  let forced_ok :=
    ((verify_type self =? Z_SSL_VERIFY_REQUIRED_UNTRUSTED) || (verify_type self =? Z_SSL_VERIFY_OPTIONAL)) && untrusted_error errnum in
  let ok := ok || forced_ok in
  let ok := match crl_store self with
            | Some store => if ok then (z_ssl_verify_crl now ok xs errnum store).1 else ok
            | None => ok
            end in
  let ok := if ok && negb (verify_depth self =? -1) && (verify_depth self <? errdepth) then false else ok in
  ok || forced_ok.

(** ** Sessions *)
Definition SSL_VERIFY_PEER : Z := 1.
Definition SSL_VERIFY_FAIL_IF_NO_PEER_CERT : Z := 2.

Definition verify_mode (verify_type : Z) : Z :=
  let mode := if (verify_type =? Z_SSL_VERIFY_OPTIONAL) || (verify_type =? Z_SSL_VERIFY_REQUIRED_UNTRUSTED) then SSL_VERIFY_PEER else 0 in
  if verify_type =? Z_SSL_VERIFY_REQUIRED_TRUSTED then Z.lor SSL_VERIFY_PEER SSL_VERIFY_FAIL_IF_NO_PEER_CERT else mode.

(** The session, and the mode that SSL_set_verify gets, if it is called. *)
Definition z_ssl_session_new_from_context (depth type : Z) (store : option X509_STORE) : ZSSLSession * option Z :=
  (mkSession 1 type depth store, if decide (verify_mode type ≠ 0) then Some (verify_mode type) else None).

Definition z_ssl_session_ref (self : ZSSLSession) : ZSSLSession :=
  mkSession (u32 (ref_cnt self + 1)) (verify_type self) (verify_depth self) (crl_store self).

(** [None]: the session was freed. *)
Definition z_ssl_session_unref (self : ZSSLSession) : option ZSSLSession :=
  let n := u32 (ref_cnt self - 1) in
  if decide (n = 0) then None else Some (mkSession n (verify_type self) (verify_depth self) (crl_store self)).
End verify.
Arguments X509_STORE : clear implicits.
Arguments ZSSLSession : clear implicits.

(** ** The cache of trusted authorities

    A directory has a time of modification and files with names of authorities. *)
Record directory := mkDir { st_mtime : Z; files : list (list Z) }.

(** [modtime] and [contents]. *)
Definition ZSSLCADirectory : Type := Z * list (list Z).
Abbreviation ca_cache := (gmap (list Z) ZSSLCADirectory).

(** A name is added when the stack does not hold it yet.  (In which order OpenSSL keeps the names of a
    stack that is searched is up to OpenSSL.) *)
Fixpoint add_names (contents ca_file : list (list Z)) : list (list Z) :=
  match ca_file with
  | [] => contents
  | n :: ca_file => add_names (if decide (n ∈ contents) then contents else contents ++ [n]) ca_file
  end.

Section ca_list.
(** SSL_load_client_CA_file; [None] when it cannot be read. *)
Context (SSL_load_client_CA_file : list Z → option (list (list Z))).

Fixpoint load_files (ca_path : list Z) (contents : list (list Z)) (names : list (list Z)) : list (list Z) :=
  match names with
  | [] => contents
  | direntname :: names =>
      let file_name := take 255 (ca_path ++ str "/" ++ direntname) in
      load_files ca_path (match SSL_load_client_CA_file file_name with Some ca_file => add_names contents ca_file | None => contents end) names
  end.

(** [stat]: the directory, which can be read unless [opened] is false.  The list that the
    context gets, if any; FALSE when there is none. *)
Definition z_ssl_set_trusted_ca_list (cache : ca_cache) (ca_path : list Z) (stat : option directory) (opened : bool)
    : option (list (list Z)) * ca_cache :=
  let hit := match cache !! ca_path, stat with Some (modtime, contents), Some d => if decide (modtime = st_mtime d) then Some contents else None | _, _ => None end in
  match hit with
  | Some contents => (Some contents, cache)
  | None =>
      let cache := delete ca_path cache in
      match stat with
      | None => (None, cache)
      | Some d =>
          let contents := if opened then load_files ca_path [] (files d) else [] in
          (Some contents, <[ca_path := (st_mtime d, contents)]> cache)
      end
  end.
End ca_list.

(** ** Setting up a session

    What OpenSSL holds in a context: the private key, the key that the certificate is for, the
    names that the peer is told, and the directory of the trusted authorities.  [None] stands
    for NULL. *)
Record SSL_CTX := mkCtx {
  ctx_key : option Z;
  ctx_cert : option Z;
  ctx_client_ca : option (list (list Z));
  ctx_verify_dir : option (list Z)
}.

Definition new_ctx : SSL_CTX := mkCtx None None None None.

(** What the system and OpenSSL answer: whether there is memory, the keys in files and texts
    (0 from OpenSSL is [None]), the rights to a directory, and what it holds. *)
Record ssl_env (X509_CRL : Type) := mkEnv {
  SSL_CTX_new : bool;
  SSL_new : bool;
  SSL_CTX_use_PrivateKey_file : list Z → option Z;
  SSL_CTX_use_certificate_file : option (list Z) → option Z;
  PEM_read_bio_RSAPrivateKey : list Z → option Z;
  PEM_read_bio_X509 : list Z → option Z;
  readable : list Z → bool;
  SSL_CTX_load_verify_locations : list Z → bool;
  z_ssl_crl_store_create : list Z → option (X509_STORE X509_CRL);
  load_client_CA_file : list Z → option (list (list Z));
  stat_dir : list Z → option directory;
  can_open : list Z → bool
}.
Arguments SSL_CTX_new {_}. Arguments SSL_new {_}. Arguments SSL_CTX_use_PrivateKey_file {_}. Arguments SSL_CTX_use_certificate_file {_}.
Arguments PEM_read_bio_RSAPrivateKey {_}. Arguments PEM_read_bio_X509 {_}. Arguments readable {_}. Arguments SSL_CTX_load_verify_locations {_}.
Arguments z_ssl_crl_store_create {_}. Arguments load_client_CA_file {_}. Arguments stat_dir {_}. Arguments can_open {_}.

Definition Z_SSL_MODE_CLIENT : Z := 0.
Definition Z_SSL_MODE_SERVER : Z := 1.

(** A pointer to a text that is there and not empty. *)
Definition given (s : option (list Z)) : option (list Z) := match s with Some (_ :: _) => s | _ => None end.

Section setup.
Context {X509_CRL : Type} (env : ssl_env X509_CRL).

Definition use_pair (ctx : SSL_CTX) (key cert : option Z) : option SSL_CTX :=
  match key, cert with
  | Some k, Some c => if decide (k = c) then Some (mkCtx key cert (ctx_client_ca ctx) (ctx_verify_dir ctx)) else None
  | _, _ => None
  end.

(** [None] is FALSE: the caller frees the context. *)
Definition z_ssl_load_privkey_and_cert (ctx : SSL_CTX) (key_file cert_file : option (list Z)) : option SSL_CTX :=
  match given key_file with
  | None => Some ctx
  | Some f => use_pair ctx (SSL_CTX_use_PrivateKey_file env f) (SSL_CTX_use_certificate_file env cert_file)
  end.

Definition z_ssl_set_privkey_and_cert (ctx : SSL_CTX) (key_pem cert_pem : option (list Z)) : outcome (option SSL_CTX) :=
  match given key_pem with
  | None => Done (Some ctx)
  | Some k =>
      match PEM_read_bio_RSAPrivateKey env k with
      | None => Done None
      | Some key =>
          match cert_pem with
          | None => Fault OutOfBounds
          | Some c => Done (use_pair ctx (Some key) (PEM_read_bio_X509 env c))
          end
      end
  end.

Definition tell_peer (mode : Z) (ca_dir : list Z) (ctx : SSL_CTX) (cache : ca_cache) : option SSL_CTX * ca_cache :=
  if decide (mode = Z_SSL_MODE_SERVER) then
    match z_ssl_set_trusted_ca_list (load_client_CA_file env) cache ca_dir (stat_dir env ca_dir) (can_open env ca_dir) with
    | (None, cache) => (None, cache)
    | (Some l, cache) => (Some (mkCtx (ctx_key ctx) (ctx_cert ctx) (Some l) (ctx_verify_dir ctx)), cache)
    end
  else (Some ctx, cache).

Definition z_ssl_load_ca_list (mode : Z) (ca_dir crl_dir : option (list Z)) (ctx : SSL_CTX) (cache : ca_cache)
    : option (SSL_CTX * option (X509_STORE X509_CRL)) * ca_cache :=
  match given ca_dir with
  | None => (Some (ctx, None), cache)
  | Some d =>
      let '(ctx, cache) := tell_peer mode d ctx cache in
      match ctx with
      | None => (None, cache)
      | Some ctx =>
          if negb (readable env d && SSL_CTX_load_verify_locations env d) then (None, cache)
          else
            let ctx := mkCtx (ctx_key ctx) (ctx_cert ctx) (ctx_client_ca ctx) (Some d) in
            match given crl_dir with
            | None => (Some (ctx, None), cache)
            | Some r => if readable env r then (Some (ctx, z_ssl_crl_store_create env r), cache) else (None, cache)
            end
      end
  end.

(** The context, the session and the mode for SSL_set_verify. *)
Definition ssl_session : Type := SSL_CTX * ZSSLSession X509_CRL * option Z.

Definition with_pair (mode : Z) (pair : option SSL_CTX) (ca_dir crl_dir : option (list Z)) (verify_depth verify_type : Z) (cache : ca_cache)
    : option ssl_session * ca_cache :=
  match pair with
  | None => (None, cache)
  | Some ctx =>
      match z_ssl_load_ca_list mode ca_dir crl_dir ctx cache with
      | (None, cache) => (None, cache)
      | (Some (ctx, store), cache) =>
          if SSL_new env then let '(self, m) := z_ssl_session_new_from_context verify_depth verify_type store in (Some (ctx, self, m), cache)
          else (None, cache)
      end
  end.

Definition z_ssl_session_new (mode : Z) (key_file cert_file ca_dir crl_dir : option (list Z)) (verify_depth verify_type : Z) (cache : ca_cache)
    : option ssl_session * ca_cache :=
  if SSL_CTX_new env then with_pair mode (z_ssl_load_privkey_and_cert new_ctx key_file cert_file) ca_dir crl_dir verify_depth verify_type cache
  else (None, cache).

Definition z_ssl_session_new_inline (mode : Z) (key_pem cert_pem ca_dir crl_dir : option (list Z)) (verify_depth verify_type : Z) (cache : ca_cache)
    : outcome (option ssl_session * ca_cache) :=
  if SSL_CTX_new env then
    pair ← z_ssl_set_privkey_and_cert new_ctx key_pem cert_pem;
    Done (with_pair mode pair ca_dir crl_dir verify_depth verify_type cache)
  else Done (None, cache).
End setup.

(** ** The text of an error

    [errors] is the queue of the thread, the oldest first. *)
Fixpoint error_loop (errors : list Z) (e count : Z) : Z * Z :=
  match errors with
  | [] => (e, count + 1)
  | new_error :: errors => if decide (new_error = 0) then (e, count + 1) else error_loop errors new_error (count + 1)
  end.

(** The error that is reported, and the number of suppressed ones that is printed, when it is
    not 0. *)
Definition z_ssl_get_error_str (errors : list Z) : Z * option Z :=
  let '(e, count) := error_loop errors 0 (-1) in (e, if decide (count = 0) then None else Some count).

(** ** The BIO over a stream *)
Inductive retry := NoRetry | RetryRead | RetryWrite.

Section bio.
Context {C E : Type} `{!ZStreamOps C} `{!ZStreamWriteOps C E}.

Definition z_stream_bio_write (c : C) (buf : list Z) : Z * retry * C :=
  let '(ret, n, _, c) := child_write c buf in
  match ret with
  | G_IO_STATUS_AGAIN => (-1, RetryWrite, c)
  | G_IO_STATUS_NORMAL => (s32 n, NoRetry, c)
  | _ => (-1, NoRetry, c)
  end.

Definition z_stream_bio_read (c : C) (timeout buflen : Z) : Z * list Z * retry * C :=
  let '(ret, l, c) := child_read c timeout buflen in
  match ret with
  | G_IO_STATUS_AGAIN => (-1, [], RetryRead, c)
  | G_IO_STATUS_EOF => (0, [], NoRetry, c)
  | G_IO_STATUS_NORMAL => (s32 (zlen l), l, NoRetry, c)
  | _ => (-1, [], NoRetry, c)
  end.

Definition z_stream_bio_puts (c : C) (str : list Z) : Z * retry * C := z_stream_bio_write c str.
End bio.

Definition BIO_CTRL_GET_CLOSE : Z := 8.
Definition BIO_CTRL_SET_CLOSE : Z := 9.
Definition BIO_CTRL_FLUSH : Z := 11.
Definition BIO_CTRL_DUP : Z := 12.

(** The answer and the flag [shutdown]. *)
Definition z_stream_bio_ctrl (shutdown cmd num : Z) : Z * Z :=
  if decide (cmd = BIO_CTRL_GET_CLOSE) then (shutdown, shutdown)
  else if decide (cmd = BIO_CTRL_SET_CLOSE) then (1, s32 num)
  else if decide (cmd = BIO_CTRL_DUP ∨ cmd = BIO_CTRL_FLUSH) then (1, shutdown)
  else (0, shutdown).
