(* ===== verification/SslSpec.v ===== *)
(** * SSL sessions: what is accepted

    When a certificate is accepted ([verify_policy]), what OpenSSL is told to ask of the peer
    ([peer_policy]), that the cache of the trusted authorities gives what the
    directory holds ([ca_list_spec]), when a session can be made ([session_new_spec], [session_inline_equiv]), how errors are counted ([error_str_spec]), and that the
    BIO loses no byte ([bio_reads_spec]). *)

From S2P Require Import Prelude CLib Process StreamApi Ssl.
From stdpp Require Import gmap.
Open Scope Z_scope.

Section verify.
Context {X509 X509_CRL : Type} `{!X509Ops X509 X509_CRL}.
Implicit Types (self : ZSSLSession X509_CRL) (xs : X509).

(** A list that the certificate has issued is signed by it and not out of date, and its issuer
    has not revoked it. *)
Definition not_revoked (now : Z) (store : X509_STORE X509_CRL) xs : Prop :=
  (∀ crl, store (X509_get_subject_name xs) = Some crl → 0 < X509_CRL_verify crl (X509_get_pubkey xs) ∧ 0 < X509_cmp_nextUpdate crl now) ∧
  (∀ crl, store (X509_get_issuer_name xs) = Some crl → X509_get_serialNumber xs ∉ X509_CRL_get_REVOKED crl).

Definition good (now : Z) self xs (errdepth : Z) : Prop :=
  (∀ store, crl_store self = Some store → not_revoked now store xs) ∧ (verify_depth self = -1 ∨ errdepth ≤ verify_depth self).

(** The errors that are ignored when the peer need not be trusted. *)
Definition tolerated self (errnum : Z) : Prop :=
  (verify_type self = Z_SSL_VERIFY_OPTIONAL ∨ verify_type self = Z_SSL_VERIFY_REQUIRED_UNTRUSTED) ∧ untrusted_error errnum = true.

Lemma revoked_loop_spec serial l : revoked_loop serial l = true ↔ serial ∈ l.
Proof.
  induction l as [|r l IH]; cbn; [split; [done|by intros ?%elem_of_nil]|]. rewrite elem_of_cons. case_decide; naive_solver.
Qed.

Lemma check_own_crl_spec now xs store :
  check_own_crl now xs store = None ↔
  ∀ crl, store (X509_get_subject_name xs) = Some crl → 0 < X509_CRL_verify crl (X509_get_pubkey xs) ∧ 0 < X509_cmp_nextUpdate crl now.
Proof.
  unfold check_own_crl. destruct (store (X509_get_subject_name xs)) as [crl|]; [|naive_solver]. split.
  - intros Hc crl' [= <-]. repeat case_decide; try done. lia.
  - intros Hc. specialize (Hc crl eq_refl). by rewrite !decide_False by lia.
Qed.

Lemma verify_crl_spec now ok xs errnum store :
  (z_ssl_verify_crl now ok xs errnum store).1 = true ↔ ok = true ∧ not_revoked now store xs.
Proof.
  unfold z_ssl_verify_crl, not_revoked. rewrite <- check_own_crl_spec. destruct (check_own_crl now xs store); [naive_solver|].
  destruct (store (X509_get_issuer_name xs)) as [crl|]; cbn; [|naive_solver].
  pose proof (revoked_loop_spec (X509_get_serialNumber xs) (X509_CRL_get_REVOKED crl)) as Hr.
  destruct (revoked_loop _ _); cbn; naive_solver.
Qed.

(** C30: The callback accepts a certificate exactly when the error that OpenSSL reports is one that is
    ignored for peers that need not be trusted, or there is no error, the revocation lists do
    not speak against the certificate, and it is not too deep. *)
Theorem verify_policy now self ok xs errnum errdepth :
  z_ssl_verify_callback now self ok xs errnum errdepth = true ↔ tolerated self errnum ∨ (ok = true ∧ good now self xs errdepth).
Proof.
  unfold z_ssl_verify_callback. set (forced := (_ || _) && untrusted_error errnum).
  assert (Hf : forced = true ↔ tolerated self errnum) by (unfold forced, tolerated; rewrite andb_true_iff, orb_true_iff, !Z.eqb_eq; tauto).
  destruct forced; [rewrite orb_true_r; naive_solver|]. rewrite !orb_false_r. assert (Hn : ¬ tolerated self errnum) by naive_solver.
  unfold good. set (ok1 := match crl_store self with Some _ => _ | None => ok end).
  assert (H1 : ok1 = true ↔ ok = true ∧ ∀ store, crl_store self = Some store → not_revoked now store xs).
  { unfold ok1. destruct (crl_store self) as [store|]; [|naive_solver]. destruct ok; [|naive_solver]. rewrite verify_crl_spec. naive_solver. }
  assert (Hd : (if ok1 && negb (verify_depth self =? -1) && (verify_depth self <? errdepth) then false else ok1) = true ↔
               ok1 = true ∧ (verify_depth self = -1 ∨ errdepth ≤ verify_depth self)).
  { destruct ok1; cbn; [|naive_solver].
    destruct (Z.eqb_spec (verify_depth self) (-1)) as [He|He]; destruct (Z.ltb_spec (verify_depth self) errdepth) as [Hl|Hl]; cbn;
      (split; [intros Hx; first [discriminate Hx|split; [done|first [by left|right; lia]]]|intros [_ [?|?]]; first [done|lia]]). }
  rewrite Hd, H1. tauto.
Qed.

(** The callback is asked unless verification is off, and OpenSSL is told to refuse a peer without a
    certificate only when trusted ones are required. *)
Theorem peer_policy depth type store :
  0 ≤ type ≤ 3 →
  let '(self, mode) := z_ssl_session_new_from_context (X509_CRL := X509_CRL) depth type store in
  verify_type self = type ∧ verify_depth self = depth ∧ crl_store self = store ∧ ref_cnt self = 1 ∧
  (mode = None ↔ type = Z_SSL_VERIFY_NONE) ∧
  (∀ m, mode = Some m → has m SSL_VERIFY_PEER = true ∧ (has m SSL_VERIFY_FAIL_IF_NO_PEER_CERT = true ↔ type = Z_SSL_VERIFY_REQUIRED_TRUSTED)).
Proof.
  intros Ht. unfold z_ssl_session_new_from_context. assert (type = 0 ∨ type = 1 ∨ type = 2 ∨ type = 3) as [->|[->|[->| ->]]] by lia;
    cbn; (split_and!; [done..|split; intros; done|]); intros m; intros [= <-] || intros [=]; by split.
Qed.
End verify.

(** ** The trusted authorities *)
Section ca_list.
Context (load : list Z → option (list (list Z))).

Lemma add_names_spec contents l : NoDup contents → NoDup (add_names contents l) ∧ ∀ n, n ∈ add_names contents l ↔ n ∈ contents ∨ n ∈ l.
Proof.
  revert contents. induction l as [|n l IH]; intros contents Hnd; cbn [add_names].
  - split; [done|]. intros n. set_solver.
  - case_decide as Hn.
    + destruct (IH contents Hnd) as [H1 H2]. split; [done|]. intros m. rewrite H2. set_solver.
    + destruct (IH (contents ++ [n])) as [H1 H2]; [apply NoDup_app; split; [done|split; [set_solver|apply NoDup_singleton]]|].
      split; [done|]. intros m. rewrite H2. set_solver.
Qed.

(** The names in the files of a directory. *)
Definition named_in (ca_path n : list Z) (fs : list (list Z)) : Prop :=
  ∃ f names, f ∈ fs ∧ load (take 255 (ca_path ++ str "/" ++ f)) = Some names ∧ n ∈ names.

Lemma load_files_spec ca_path contents fs :
  NoDup contents → NoDup (load_files load ca_path contents fs) ∧
  ∀ n, n ∈ load_files load ca_path contents fs ↔ n ∈ contents ∨ named_in ca_path n fs.
Proof.
  unfold named_in. revert contents. induction fs as [|f fs IH]; intros contents Hnd; cbn [load_files].
  - split; [done|]. intros n. set_solver.
  - destruct (load (take 255 (ca_path ++ str "/" ++ f))) as [names|] eqn:E.
    + destruct (add_names_spec contents names Hnd) as [Ha1 Ha2]. destruct (IH _ Ha1) as [H1 H2]. split; [done|]. intros n. rewrite H2, Ha2.
      setoid_rewrite elem_of_cons. naive_solver.
    + destruct (IH _ Hnd) as [H1 H2]. split; [done|]. intros n. rewrite H2. setoid_rewrite elem_of_cons. naive_solver.
Qed.

(** The calls so far, the latest first. *)
Fixpoint ca_session (calls : list (list Z * option directory)) : list (option (list (list Z))) * ca_cache :=
  match calls with
  | [] => ([], ∅)
  | (p, d) :: calls =>
      let '(rs, cache) := ca_session calls in
      let '(r, cache) := z_ssl_set_trusted_ca_list load cache p d true in (r :: rs, cache)
  end.

Lemma ca_cached calls p t contents :
  (ca_session calls).2 !! p = Some (t, contents) → ∃ d, (p, Some d) ∈ calls ∧ st_mtime d = t ∧ contents = load_files load p [] (files d).
Proof.
  revert p t contents. induction calls as [|[q d] calls IH]; intros p t contents; cbn [ca_session]; [done|].
  destruct (ca_session calls) as [rs cache] eqn:E. cbn [snd] in IH.
  assert (Hold : ∀ p t contents, cache !! p = Some (t, contents) → ∃ d', (p, Some d') ∈ (q, d) :: calls ∧ st_mtime d' = t ∧ contents = load_files load p [] (files d')).
  { intros p' t' c' Hp. destruct (IH _ _ _ Hp) as (d' & H1 & H2). exists d'. split; [by right|done]. }
  unfold z_ssl_set_trusted_ca_list. destruct d as [d|].
  - destruct (cache !! q) as [[mt c]|] eqn:Eq; [case_decide|]; cbn [snd]; [by apply Hold|..];
      (rewrite lookup_insert; case_decide as Hqp; [intros [= <- <-]; subst q; exists d; split; [by left|done]|];
       rewrite lookup_delete_ne by done; apply Hold).
  - destruct (cache !! q) as [[mt c]|]; cbn [snd]; rewrite lookup_delete_Some; intros [_ Hp]; by apply Hold.
Qed.

(** When the time of modification tells what a directory holds, a call gives the names in the
    files that are there now, each once, whatever was asked before; and it fails when there is
    no directory. *)
Theorem ca_list_spec calls p stat :
  (∀ d d', (p, Some d) ∈ (p, stat) :: calls → (p, Some d') ∈ (p, stat) :: calls → st_mtime d = st_mtime d' → files d = files d') →
  match (z_ssl_set_trusted_ca_list load (ca_session calls).2 p stat true).1 with
  | None => stat = None
  | Some l => ∃ d, stat = Some d ∧ NoDup l ∧ ∀ n, n ∈ l ↔ named_in p n (files d)
  end.
Proof.
  intros Hfs. assert (Hload : ∀ d, NoDup (load_files load p [] (files d)) ∧ ∀ n, n ∈ load_files load p [] (files d) ↔ named_in p n (files d)).
  { intros d. destruct (load_files_spec p [] (files d)) as [H1 H2]; [constructor|]. split; [done|]. intros n. rewrite H2. set_solver. }
  unfold z_ssl_set_trusted_ca_list. destruct stat as [d|]; [|by destruct ((ca_session calls).2 !! p) as [[? ?]|]].
  destruct ((ca_session calls).2 !! p) as [[mt c]|] eqn:E; [|exists d; split; [done|apply Hload]].
  case_decide as Hm; cbn [fst]; [|exists d; split; [done|apply Hload]].
  destruct (ca_cached _ _ _ _ E) as (d' & Hin & Ht & ->). exists d. split; [done|].
  rewrite (Hfs d d'); [apply Hload|by left|by right|congruence].
Qed.
End ca_list.

(** ** Set-up *)
Section setup.
Context {X509_CRL : Type} (env : ssl_env X509_CRL).

(** The list that is used for the revocation of certificates. *)
Definition revocation (ca_dir crl_dir : option (list Z)) : option (X509_STORE X509_CRL) :=
  match given ca_dir, given crl_dir with Some _, Some r => z_ssl_crl_store_create env r | _, _ => None end.

(** What a key and a certificate must be. *)
Definition key_usable (key_file cert_file : option (list Z)) : Prop :=
  ∀ f, given key_file = Some f → ∃ k, SSL_CTX_use_PrivateKey_file env f = Some k ∧ SSL_CTX_use_certificate_file env cert_file = Some k.

Definition directories_usable (mode : Z) (ca_dir crl_dir : option (list Z)) (cache : ca_cache) : Prop :=
  ∀ d, given ca_dir = Some d →
    readable env d = true ∧ SSL_CTX_load_verify_locations env d = true ∧ (∀ r, given crl_dir = Some r → readable env r = true) ∧
    (mode = Z_SSL_MODE_SERVER → ∃ l, (z_ssl_set_trusted_ca_list (load_client_CA_file env) cache d (stat_dir env d) (can_open env d)).1 = Some l).

Lemma use_pair_spec ctx key cert ctx' :
  use_pair ctx key cert = Some ctx' ↔ (∃ k, key = Some k ∧ cert = Some k) ∧ ctx' = mkCtx key cert (ctx_client_ca ctx) (ctx_verify_dir ctx).
Proof. unfold use_pair. destruct key as [k|], cert as [c|]; try case_decide; naive_solver. Qed.

Lemma load_pair_spec key_file cert_file :
  match z_ssl_load_privkey_and_cert env new_ctx key_file cert_file with
  | Some ctx => key_usable key_file cert_file ∧ ctx_key ctx = ctx_cert ctx ∧ ctx_key ctx = given key_file ≫= SSL_CTX_use_PrivateKey_file env ∧ ctx_client_ca ctx = None ∧ ctx_verify_dir ctx = None
  | None => ¬ key_usable key_file cert_file
  end.
Proof.
  unfold z_ssl_load_privkey_and_cert, key_usable. destruct (given key_file) as [f|]; [|by repeat split].
  destruct (use_pair _ _ _) as [ctx|] eqn:E.
  - apply use_pair_spec in E as [(k & E1 & E2) ->]. cbn. rewrite E1, E2. repeat split; try done. intros f' [= <-]. by exists k.
  - intros Hu. destruct (Hu f eq_refl) as (k & E1 & E2).
    assert (Hs : use_pair new_ctx (SSL_CTX_use_PrivateKey_file env f) (SSL_CTX_use_certificate_file env cert_file) = Some (mkCtx (Some k) (Some k) None None))
      by (apply use_pair_spec; rewrite E1, E2; naive_solver).
    congruence.
Qed.

Lemma load_ca_list_spec mode ca_dir crl_dir ctx cache :
  match (z_ssl_load_ca_list env mode ca_dir crl_dir ctx cache).1 with
  | Some (ctx', store) =>
      directories_usable mode ca_dir crl_dir cache ∧ store = revocation ca_dir crl_dir ∧ ctx_key ctx' = ctx_key ctx ∧ ctx_cert ctx' = ctx_cert ctx ∧
      ctx_verify_dir ctx' = match given ca_dir with Some d => Some d | None => ctx_verify_dir ctx end
  | None => ¬ directories_usable mode ca_dir crl_dir cache
  end.
Proof.
  unfold z_ssl_load_ca_list, directories_usable, revocation. destruct (given ca_dir) as [d|]; [|by repeat split].
  unfold tell_peer.
  case_decide as Hm; [destruct (z_ssl_set_trusted_ca_list _ _ _ _ _) as [[l|] cache1] eqn:El|];
    cbn [fst]; [|intros Hu; destruct (Hu d eq_refl) as (_ & _ & _ & Hl); destruct (Hl Hm) as [l' Hl']; rewrite El in Hl'; discriminate|];
    (destruct (readable env d) eqn:E1; [|intros Hu; destruct (Hu d eq_refl); congruence];
     destruct (SSL_CTX_load_verify_locations env d) eqn:E2; [|intros Hu; destruct (Hu d eq_refl) as (_ & ? & _); congruence];
     cbn [negb andb]; destruct (given crl_dir) as [r|];
     [destruct (readable env r) eqn:E3; [|intros Hu; destruct (Hu d eq_refl) as (_ & _ & Hr & _); specialize (Hr r eq_refl); congruence]|];
     (split; [|done]); (intros d' [= <-]; split_and!; [done|done|intros r' ?; congruence|intros ?; first [by exists l; rewrite El|congruence]])).
Qed.

(** A session is made exactly when there is memory, the key and the certificate belong together and the directories
    can be used; it then has that key, trusts that directory, asks the peer as its type
    says, and checks revocation only when both directories are given. *)
Theorem session_new_spec mode key_file cert_file ca_dir crl_dir depth type cache :
  match (z_ssl_session_new env mode key_file cert_file ca_dir crl_dir depth type cache).1 with
  | Some (ctx, self, m) =>
      ctx_key ctx = ctx_cert ctx ∧ ctx_key ctx = given key_file ≫= SSL_CTX_use_PrivateKey_file env ∧ ctx_verify_dir ctx = given ca_dir ∧
      (self, m) = z_ssl_session_new_from_context depth type (revocation ca_dir crl_dir)
  | None => ¬ (SSL_CTX_new env = true ∧ SSL_new env = true ∧ key_usable key_file cert_file ∧ directories_usable mode ca_dir crl_dir cache)
  end.
Proof.
  unfold z_ssl_session_new, with_pair. destruct (SSL_CTX_new env) eqn:E1; [|naive_solver].
  pose proof (load_pair_spec key_file cert_file) as Hp. destruct (z_ssl_load_privkey_and_cert _ _ _ _) as [ctx|]; cbn [fst]; [|naive_solver].
  pose proof (load_ca_list_spec mode ca_dir crl_dir ctx cache) as Hl. destruct (z_ssl_load_ca_list _ _ _ _ _ _) as [[[ctx' store]|] cache']; cbn [fst] in *; [|naive_solver].
  destruct (SSL_new env) eqn:E2; cbn; [|naive_solver].
  destruct Hp as (_ & H1 & H2 & _ & H4), Hl as (_ & H5 & H6 & H7 & H8). repeat split; [congruence..| |by rewrite H5].
  rewrite H8, H4. by destruct (given ca_dir).
Qed.

(** Keys and certificates that are given as texts are used like the ones in files that hold them. *)
Theorem session_inline_equiv mode key_file cert_file key_pem cert_pem ca_dir crl_dir depth type cache :
  (given key_file = None ↔ given key_pem = None) →
  (∀ f k, given key_file = Some f → given key_pem = Some k → SSL_CTX_use_PrivateKey_file env f = PEM_read_bio_RSAPrivateKey env k) →
  SSL_CTX_use_certificate_file env cert_file = PEM_read_bio_X509 env cert_pem →
  z_ssl_session_new_inline env mode key_pem (Some cert_pem) ca_dir crl_dir depth type cache =
  Done (z_ssl_session_new env mode key_file cert_file ca_dir crl_dir depth type cache).
Proof.
  intros Hg Hk Hc. unfold z_ssl_session_new_inline, z_ssl_session_new. destruct (SSL_CTX_new env); [|done].
  unfold z_ssl_set_privkey_and_cert, z_ssl_load_privkey_and_cert. destruct (given key_file) as [f|], (given key_pem) as [k|]; [|naive_solver..|done].
  rewrite (Hk f k) by done. destruct (PEM_read_bio_RSAPrivateKey env k) as [key|]; cbn; [by rewrite Hc|done].
Qed.
End setup.

(** ** Errors *)

(** The last error is the one that is reported; the number that is printed for the suppressed
    ones counts it as well. *)
Theorem error_str_spec errors e :
  Forall (λ x, x ≠ 0) (errors ++ [e]) → z_ssl_get_error_str (errors ++ [e]) = (e, Some (zlen errors + 1)).
Proof.
  intros Hne. assert (Hloop : ∀ errors e0 count, Forall (λ x, x ≠ 0) (errors ++ [e]) → error_loop (errors ++ [e]) e0 count = (e, count + zlen errors + 2)).
  { clear errors Hne. induction errors as [|x errors IH]; intros e0 count Hall; apply Forall_cons in Hall as [Hx Hall]; cbn [app error_loop].
    - rewrite decide_False by done. cbn. f_equal. lia.
    - rewrite decide_False by done. rewrite IH by done. f_equal. cbn [length]. lia. }
  unfold z_ssl_get_error_str. rewrite Hloop by done. rewrite decide_False by lia. do 2 f_equal. lia.
Qed.

(** ** The BIO *)
Section bio.
Context {C : Type} `{!ZStreamOps C, !ZStreamLaws C}.

Fixpoint bio_reads (c : C) (ns : list Z) : list Z * C :=
  match ns with
  | [] => ([], c)
  | n :: ns => let '(_, l, _, c) := z_stream_bio_read c (-1) n in let '(more, c) := bio_reads c ns in (l ++ more, c)
  end.

(** What OpenSSL reads, with buffers of any sizes, is what the stream has to deliver, as long as the
    stream does not fail; and 0 is only returned at the end. *)
Theorem bio_reads_spec c ns :
  Forall (λ n, 0 < n) ns → (∀ c t n, (child_read c t n).1.1 ≠ G_IO_STATUS_ERROR) →
  let '(l, c') := bio_reads c ns in to_come c = l ++ to_come c'.
Proof.
  intros Hns Herr. revert c. induction Hns as [|n ns Hn _ IH]; intros c; cbn [bio_reads]; [done|].
  unfold z_stream_bio_read. specialize (Herr c (-1) n). destruct (child_read c (-1) n) as [[st l] c1] eqn:E. cbn in Herr.
  destruct st; [done|..]; specialize (IH c1); destruct (bio_reads c1 ns) as [more c']; cbn.
  - destruct (read_normal _ _ _ _ _ Hn E) as (_ & _ & ->). by rewrite IH, app_assoc.
  - destruct (read_eof _ _ _ _ _ E) as [E1 E2]. by rewrite E1, <- IH.
  - by rewrite <- (read_again _ _ _ _ _ E).
Qed.
End bio.

(** ** Runs *)
Module Runs.
(** A certificate: whose it is, who issued it, its number and key; a list: the key that signed it, until when it
    is good, and the numbers it revokes. *)
Definition cert : Type := list Z * list Z * Z * Z.
Definition crl : Type := Z * Z * list Z.

#[export] Instance toy_x509 : X509Ops cert crl := {
  X509_get_subject_name := λ c, c.1.1.1;
  X509_get_issuer_name := λ c, c.1.1.2;
  X509_get_serialNumber := λ c, c.1.2;
  X509_get_pubkey := λ c, c.2;
  X509_CRL_verify := λ l k, if decide (l.1.1 = k) then 1 else 0;
  X509_cmp_nextUpdate := λ l now, if decide (now ≤ l.1.2) then 1 else -1;
  X509_CRL_get_REVOKED := λ l, l.2
}.

Definition ca : cert := (str "ca", str "ca", 1, 77).
Definition host : cert := (str "host", str "ca", 5, 78).
Definition revoking : X509_STORE crl := λ n, if decide (n = str "ca") then Some (77, 2000, [5; 6]) else None.
Definition session (type depth : Z) : ZSSLSession crl := (z_ssl_session_new_from_context depth type (Some revoking)).1.

(** The host is revoked. *)
Example revoked_refused : z_ssl_verify_callback 1000 (session Z_SSL_VERIFY_REQUIRED_TRUSTED (-1)) true host X509_V_OK 0 = false.
Proof. vm_compute. done. Qed.

Example ca_accepted : z_ssl_verify_callback 1000 (session Z_SSL_VERIFY_REQUIRED_TRUSTED (-1)) true ca X509_V_OK 1 = true.
Proof. vm_compute. done. Qed.

(** A list that is out of date. *)
Example old_list : z_ssl_verify_callback 3000 (session Z_SSL_VERIFY_REQUIRED_TRUSTED (-1)) true ca X509_V_OK 1 = false.
Proof. vm_compute. done. Qed.

(** When the peer need not be trusted, a chain whose authority is not known is accepted although the
    host is revoked, and however deep it is. *)
Example revoked_accepted :
  z_ssl_verify_callback 1000 (session Z_SSL_VERIFY_REQUIRED_UNTRUSTED (-1)) false host X509_V_ERR_UNABLE_TO_GET_ISSUER_CERT_LOCALLY 0 = true ∧
  (z_ssl_verify_crl 1000 true host X509_V_OK revoking).1 = false.
Proof. split; vm_compute; done. Qed.

Example too_deep_accepted : z_ssl_verify_callback 1000 (session Z_SSL_VERIFY_OPTIONAL 2) false ca X509_V_ERR_SELF_SIGNED_CERT_IN_CHAIN 9 = true.
Proof. vm_compute. done. Qed.

Lemma peer_policy_witness :
  let '(self, mode) := z_ssl_session_new_from_context (X509_CRL := crl) 4 Z_SSL_VERIFY_REQUIRED_TRUSTED None in verify_type self = 3 ∧ mode ≠ None.
Proof.
  destruct (peer_policy (X509_CRL := crl) 4 Z_SSL_VERIFY_REQUIRED_TRUSTED None) as (H1 & _ & _ & _ & H2 & _); [split; vm_compute; done|].
  split; [exact H1|]. intros H. by apply H2 in H.
Defined.

(** A certificate that is said to be required: OpenSSL is not told so. *)
Example required_untrusted :
  (z_ssl_session_new_from_context (X509_CRL := crl) 4 Z_SSL_VERIFY_REQUIRED_UNTRUSTED None).2 = Some SSL_VERIFY_PEER.
Proof. vm_compute. done. Qed.

Definition load_bundle (f : list Z) : option (list (list Z)) :=
  if decide (f = str "/ca/a.pem") then Some [str "X"; str "Y"; str "X"] else if decide (f = str "/ca/b.pem") then Some [str "Y"; str "Z"] else None.
Definition dir1 : directory := mkDir 10 [str "a.pem"; str "README"; str "b.pem"].

Example ca_names : (z_ssl_set_trusted_ca_list load_bundle ∅ (str "/ca") (Some dir1) true).1 = Some [str "X"; str "Y"; str "Z"].
Proof. vm_compute. done. Qed.

Lemma ca_list_spec_witness :
  ∃ l, (z_ssl_set_trusted_ca_list load_bundle (ca_session load_bundle [(str "/ca", Some dir1)]).2 (str "/ca") (Some dir1) true).1 = Some l ∧ NoDup l.
Proof.
  pose proof (ca_list_spec load_bundle [(str "/ca", Some dir1)] (str "/ca") (Some dir1)) as H. eexists. split; [vm_compute; reflexivity|].
  destruct H as (d & _ & Hnd & _); [|exact Hnd].
  intros d d' Hd Hd'. assert (He : ∀ d, (str "/ca", Some d) ∈ [(str "/ca", Some dir1); (str "/ca", Some dir1)] → d = dir1).
  { intros d0 H0. rewrite !elem_of_cons, elem_of_nil in H0. naive_solver. }
  by rewrite (He d Hd), (He d' Hd').
Defined.

(** A bundle that is replaced within the second, or in place, goes unnoticed. *)
Example stale_names :
  (z_ssl_set_trusted_ca_list load_bundle (ca_session load_bundle [(str "/ca", Some dir1)]).2 (str "/ca") (Some (mkDir 10 [str "b.pem"])) true).1 =
  Some [str "X"; str "Y"; str "Z"].
Proof. vm_compute. done. Qed.

Definition env : ssl_env crl :=
  mkEnv _ true true (λ f, if decide (f = str "k1") then Some 7 else Some 8) (λ f, match f with Some _ => Some 7 | None => None end)
    (λ k, if decide (k = str "K1") then Some 7 else None) (λ _, Some 7) (λ _, true) (λ _, true) (λ _, Some revoking) load_bundle (λ _, Some dir1) (λ _, true).

Example matching : (z_ssl_session_new env Z_SSL_MODE_SERVER (Some (str "k1")) (Some (str "c1")) (Some (str "/ca")) None 3 3 ∅).1 =
  Some (mkCtx (Some 7) (Some 7) (Some [str "X"; str "Y"; str "Z"]) (Some (str "/ca")), mkSession 1 3 3 None, Some 3).
Proof. vm_compute. done. Qed.

Example mismatch : (z_ssl_session_new env Z_SSL_MODE_SERVER (Some (str "k2")) (Some (str "c1")) None None 3 3 ∅).1 = None.
Proof. vm_compute. done. Qed.

(** Without authorities the directory of the revocation lists is not looked at. *)
Example no_revocation : (z_ssl_session_new env Z_SSL_MODE_CLIENT None None None (Some (str "/crl")) 3 2 ∅).1 = Some (new_ctx, mkSession 1 2 3 None, Some 1).
Proof. vm_compute. done. Qed.

(** A key without a certificate. *)
Example key_only : z_ssl_session_new_inline env Z_SSL_MODE_SERVER (Some (str "K1")) None None None 3 3 ∅ = Fault OutOfBounds.
Proof. vm_compute. done. Qed.

Lemma session_inline_equiv_witness :
  z_ssl_session_new_inline env Z_SSL_MODE_CLIENT (Some (str "K1")) (Some (str "C1")) None None 3 3 ∅ =
  Done (z_ssl_session_new env Z_SSL_MODE_CLIENT (Some (str "k1")) (Some (str "c1")) None None 3 3 ∅).
Proof. apply session_inline_equiv; [done| |done]. by intros f k [= <-] [= <-]. Defined.

(** Two errors are said to be followed by two more. *)
Lemma error_str_spec_witness : z_ssl_get_error_str [11; 12] = (12, Some 2).
Proof. apply (error_str_spec [11] 12). repeat constructor; done. Defined.

#[export] Instance bytes_ops : ZStreamOps (list Z) := {
  child_read := λ c _ n, match c with [] => (G_IO_STATUS_EOF, [], []) | _ => (G_IO_STATUS_NORMAL, take (Z.to_nat n) c, drop (Z.to_nat n) c) end;
  to_come := id
}.

#[export] Instance bytes_laws : ZStreamLaws (list Z).
Proof.
  split; cbn [child_read to_come bytes_ops]; intros c t n l c'; [intros Hn|..]; destruct c as [|x c]; intros [= <- <-] || intros [=]; try done.
  split; [|split].
  - destruct (Z.to_nat n) eqn:E; [lia|done].
  - rewrite length_take. lia.
  - unfold id. by rewrite take_drop.
Defined.

Lemma bio_reads_spec_witness : let '(l, c') := bio_reads [1; 2; 3; 4; 5] [2; 2] in to_come [1; 2; 3; 4; 5] = l ++ to_come c'.
Proof. apply (bio_reads_spec [1; 2; 3; 4; 5] [2; 2]); [repeat constructor; lia|]. intros c t n. by destruct c. Defined.
End Runs.
