(* ===== verification/StreamSsl.v ===== *)
(** * SSL streams (streamssl.c)

    A stream over a child that encrypts what it passes on, or passes it on as it is while there
    is no session.  The SSL object is that of OpenSSL ([SslOps]): it does its I/O on the child.
    Because a read may have to write and a write may have to read, the stream keeps a note of whom to call when the
    child is ready ([what_if_called]). *)

From S2P Require Import Prelude StreamApi Ssl.
Open Scope Z_scope.

Definition DO_AS_USUAL : Z := 0.
Definition CALL_READ_WHEN_WRITE : Z := 1.
Definition CALL_WRITE_WHEN_READ : Z := 2.

Definition EINTR : Z := 4.
Definition EAGAIN : Z := 11.

(** SSL_get_error, with errno where it counts. *)
Inductive ssl_error :=
| SSL_ERROR_ZERO_RETURN
| SSL_ERROR_WANT_READ
| SSL_ERROR_WANT_WRITE
| SSL_ERROR_SYSCALL (errno : Z)
| SSL_ERROR_SSL.

#[export] Instance ssl_error_eq_dec : EqDecision ssl_error.
Proof. solve_decision. Defined.

Inductive stream_error (E : Type) :=
| SyscallFailed (errno : Z)
| SslFailed
| NotConnected
| ChildFailed (err : option E).
Arguments SyscallFailed {E}. Arguments SslFailed {E}. Arguments NotConnected {E}. Arguments ChildFailed {E}.

(** The SSL object [S] over a child [C].  A call gives the result and the error that goes with a negative one;
    [plain] and [sent] are the texts that the object still has to deliver and has taken. *)
Class SslOps (S C : Type) := {
  SSL_read : S → C → Z → Z * ssl_error * list Z * S * C;
  SSL_write : S → C → list Z → Z * ssl_error * S * C;
  SSL_pending : S → Z;
  SSL_shutdown : S → C → Z * S * C;
  plain : S → C → list Z;
  sent : S → C → list Z
}.

Definition ended (r : Z) (e : ssl_error) : Prop := r = 0 ∨ r < 0 ∧ (e = SSL_ERROR_ZERO_RETURN ∨ e = SSL_ERROR_SYSCALL 0).
Definition waits (r : Z) (e : ssl_error) : Prop :=
  r < 0 ∧ (e = SSL_ERROR_WANT_READ ∨ e = SSL_ERROR_WANT_WRITE ∨ e = SSL_ERROR_SYSCALL EAGAIN ∨ e = SSL_ERROR_SYSCALL EINTR).

(** What OpenSSL promises: a positive result is the number of bytes; the two directions do not
    disturb each other; what is pending can be read. *)
Class SslLaws (S C E : Type) `{SslOps S C, ZStreamOps C, ZStreamWriteOps C E} := {
  ssl_read_some s c n r e l s' c' : 0 < n → SSL_read s c n = (r, e, l, s', c') → 0 < r → l ≠ [] ∧ zlen l ≤ n ∧ plain s c = l ++ plain s' c';
  ssl_read_end s c n r e l s' c' : 0 < n → SSL_read s c n = (r, e, l, s', c') → ended r e → plain s c = [] ∧ plain s' c' = [];
  ssl_read_wait s c n r e l s' c' : SSL_read s c n = (r, e, l, s', c') → waits r e → plain s' c' = plain s c;
  ssl_read_sent s c n r e l s' c' : SSL_read s c n = (r, e, l, s', c') → sent s' c' = sent s c;
  ssl_read_pending s c n r e l s' c' : 0 < n → 0 < SSL_pending s → SSL_read s c n = (r, e, l, s', c') → 0 < r;
  ssl_pending_nonneg (s : S) : 0 ≤ SSL_pending s;
  ssl_write_some s c b r e s' c' : SSL_write s c b = (r, e, s', c') → 0 ≤ r → r ≤ zlen b ∧ sent s' c' = sent s c ++ take (Z.to_nat r) b;
  ssl_write_none s c b r e s' c' : SSL_write s c b = (r, e, s', c') → r < 0 → sent s' c' = sent s c;
  ssl_write_plain s c b r e s' c' : SSL_write s c b = (r, e, s', c') → plain s' c' = plain s c;
  plain_set_timeout s (c : C) t : plain s (child_set_timeout c t) = plain s c;
  sent_set_timeout s (c : C) t : sent s (child_set_timeout c t) = sent s c;
  to_come_set_timeout (c : C) t : to_come (child_set_timeout c t) = to_come c;
  child_read_written (c : C) t n st l c' : child_read c t n = (st, l, c') → written c' = written c;
  child_write_to_come (c : C) b st n err c' : child_write c b = (st, n, err, c') → to_come c' = to_come c
}.

(** Whom a callback of the child calls. *)
Inductive called := CallRead | CallWrite | CallPri.

Section stream_ssl.
Context {S C E : Type} `{!SslOps S C, !ZStreamOps C, !ZStreamWriteOps C E}.

(** [super_want] and [child_want] are the conditions of the stream and of the child. *)
Record ZStreamSsl := mkStream {
  super_timeout : Z;
  super_want : watch;
  child : C;
  child_want : watch;
  what_if_called : Z;
  shutdown : bool;
  ssl : option S
}.

Definition with_timeout (t : Z) (s : ZStreamSsl) : ZStreamSsl :=
  mkStream t (super_want s) (child s) (child_want s) (what_if_called s) (shutdown s) (ssl s).
Definition with_child (c : C) (s : ZStreamSsl) : ZStreamSsl :=
  mkStream (super_timeout s) (super_want s) c (child_want s) (what_if_called s) (shutdown s) (ssl s).
Definition with_ssl (x : S) (c : C) (s : ZStreamSsl) : ZStreamSsl :=
  mkStream (super_timeout s) (super_want s) c (child_want s) (what_if_called s) (shutdown s) (Some x).
Definition with_what (w : Z) (s : ZStreamSsl) : ZStreamSsl :=
  mkStream (super_timeout s) (super_want s) (child s) (child_want s) w (shutdown s) (ssl s).
Definition with_shutdown (s : ZStreamSsl) : ZStreamSsl :=
  mkStream (super_timeout s) (super_want s) (child s) (child_want s) (what_if_called s) true (ssl s).
Definition with_child_want (w : watch) (s : ZStreamSsl) : ZStreamSsl :=
  mkStream (super_timeout s) (super_want s) (child s) w (what_if_called s) (shutdown s) (ssl s).

(** z_stream_set_cond on the child. *)
Definition child_set_cond (cond : Z) (b : bool) (s : ZStreamSsl) : ZStreamSsl :=
  let w := child_want s in
  with_child_want
    (if cond =? G_IO_IN then mkWatch b (want_pri w) (want_write w)
     else if cond =? G_IO_OUT then mkWatch (want_read w) (want_pri w) b
     else if cond =? G_IO_PRI then mkWatch (want_read w) b (want_write w)
     else w) s.

(** ** Callbacks of the child *)
Definition z_stream_ssl_read_callback (s : ZStreamSsl) : called := if what_if_called s =? CALL_WRITE_WHEN_READ then CallWrite else CallRead.
Definition z_stream_ssl_write_callback (s : ZStreamSsl) : called := if what_if_called s =? CALL_READ_WHEN_WRITE then CallRead else CallWrite.
Definition z_stream_ssl_pri_callback (s : ZStreamSsl) : called := CallPri.

(** ** Reading *)

(** The opposite direction is needed: the child is made to wait for it, unless it waits already. *)
Definition need (what cond : Z) (s : ZStreamSsl) : ZStreamSsl :=
  with_what what (if what_if_called s =? DO_AS_USUAL then child_set_cond cond true s else s).
Definition back_to_usual (cond : Z) (s : ZStreamSsl) : ZStreamSsl :=
  if negb (what_if_called s =? DO_AS_USUAL) then with_what DO_AS_USUAL (child_set_cond cond false s) else s.

Definition z_stream_ssl_read_method_impl (x : S) (s : ZStreamSsl) (count : Z) : GIOStatus * list Z * option (stream_error E) * ZStreamSsl :=
  let '(result, ssl_err, l, x, c) := SSL_read x (child s) count in
  let s := with_ssl x c s in
  if result <? 0 then
    match ssl_err with
    | SSL_ERROR_ZERO_RETURN => (G_IO_STATUS_EOF, [], None, s)
    | SSL_ERROR_WANT_READ => (G_IO_STATUS_AGAIN, [], None, s)
    | SSL_ERROR_WANT_WRITE => (G_IO_STATUS_AGAIN, [], None, need CALL_READ_WHEN_WRITE G_IO_OUT s)
    | SSL_ERROR_SYSCALL errno =>
        if (errno =? EAGAIN) || (errno =? EINTR) then (G_IO_STATUS_AGAIN, [], None, s)
        else if errno =? 0 then (G_IO_STATUS_EOF, [], None, s)
        else (G_IO_STATUS_ERROR, [], Some (SyscallFailed errno), s)
    | SSL_ERROR_SSL => (G_IO_STATUS_ERROR, [], Some SslFailed, s)
    end
  else if result =? 0 then (G_IO_STATUS_EOF, [], None, s)
  else (G_IO_STATUS_NORMAL, l, None, back_to_usual G_IO_OUT s).

Definition z_stream_ssl_read_method (s : ZStreamSsl) (count : Z) : GIOStatus * list Z * option (stream_error E) * ZStreamSsl :=
  if shutdown s then (G_IO_STATUS_EOF, [], None, s)
  else
    let s := with_child (child_set_timeout (child s) (super_timeout s)) s in
    match ssl s with
    | Some x => z_stream_ssl_read_method_impl x s count
    | None =>
        let '(st, l, c) := child_read (child s) (super_timeout s) count in
        (st, l, match st with G_IO_STATUS_ERROR => Some (ChildFailed None) | _ => None end, with_child c s)
    end.

(** ** Writing *)
Definition z_stream_ssl_write_method_impl (x : S) (s : ZStreamSsl) (buf : list Z) : GIOStatus * Z * option (stream_error E) * ZStreamSsl :=
  let '(result, ssl_err, x, c) := SSL_write x (child s) buf in
  let s := with_ssl x c s in
  if result <? 0 then
    match ssl_err with
    | SSL_ERROR_ZERO_RETURN => (G_IO_STATUS_EOF, 0, None, s)
    | SSL_ERROR_WANT_READ => (G_IO_STATUS_AGAIN, 0, None, need CALL_WRITE_WHEN_READ G_IO_IN s)
    | SSL_ERROR_WANT_WRITE => (G_IO_STATUS_AGAIN, 0, None, s)
    | SSL_ERROR_SYSCALL errno =>
        if (errno =? EAGAIN) || (errno =? EINTR) then (G_IO_STATUS_AGAIN, 0, None, s)
        else (G_IO_STATUS_ERROR, 0, Some (SyscallFailed errno), s)
    | SSL_ERROR_SSL => (G_IO_STATUS_ERROR, 0, Some SslFailed, s)
    end
  else (G_IO_STATUS_NORMAL, result, None, back_to_usual G_IO_IN s).

Definition z_stream_ssl_write_method (s : ZStreamSsl) (buf : list Z) : GIOStatus * Z * option (stream_error E) * ZStreamSsl :=
  if shutdown s then (G_IO_STATUS_ERROR, 0, Some NotConnected, s)
  else
    let s := with_child (child_set_timeout (child s) (super_timeout s)) s in
    match ssl s with
    | Some x => z_stream_ssl_write_method_impl x s buf
    | None =>
        let '(st, n, err, c) := child_write (child s) buf in
        (st, n, match st with G_IO_STATUS_ERROR => Some (ChildFailed err) | _ => None end, with_child c s)
    end.

(** ** Shutting down

    [get_nonblock]: what the stack answers to the question for its mode. *)
Context (get_nonblock : C → bool).

Definition ssl_goodbye (s : ZStreamSsl) : ZStreamSsl :=
  match ssl s with
  | None => s
  | Some x =>
      let '(rc, x, c) := SSL_shutdown x (child s) in
      if rc =? 0 then let '(_, x, c) := SSL_shutdown x c in with_ssl x c s else with_ssl x c s
  end.

Definition z_stream_ssl_shutdown_method (s : ZStreamSsl) (how : Z) : GIOStatus * option E * ZStreamSsl :=
  let s :=
    if negb (shutdown s) then
      let nonblock := get_nonblock (child s) in
      let s := with_child (child_set_timeout (child s) 1000) s in
      let s := with_child (child_set_nonblock (child s) false) s in
      let s := ssl_goodbye s in
      let s := with_child (child_set_nonblock (child s) nonblock) s in
      with_shutdown (with_timeout (super_timeout s) s)
    else s in
  let '(res, err, c) := child_shutdown (child s) how in (res, err, with_child c s).

(** ** The source *)

(** Ready, the timeout, and the stream. *)
Definition z_stream_ssl_watch_prepare (s : ZStreamSsl) : bool * Z * ZStreamSsl :=
  if want_read (super_want s) then
    if shutdown s then (true, 0, s)
    else
      match ssl s with
      | Some x => if negb (SSL_pending x =? 0) then (true, 0, s) else (false, -1, s)
      | None =>
          let s := child_set_cond G_IO_IN (want_read (super_want s)) s in
          let s := child_set_cond G_IO_PRI (want_pri (super_want s)) s in
          if want_write (super_want s) then (true, -1, child_set_cond G_IO_OUT true s)
          else (false, -1, child_set_cond G_IO_OUT false s)
      end
  else (false, -1, s).

Definition z_stream_ssl_watch_check (s : ZStreamSsl) : bool :=
  if want_read (super_want s) then
    match ssl s with
    | Some x => negb (SSL_pending x =? 0)
    | None => want_pri (super_want s)
    end
  else false.

Definition z_stream_ssl_watch_dispatch (s : ZStreamSsl) : option called := if want_read (super_want s) then Some CallRead else None.

(** ** Sessions and children *)

(** The answer FALSE to ZST_CTRL_SSL_SET_SESSION, the session that is left behind, and the stream. *)
Definition set_session (x : S) (s : ZStreamSsl) : bool * option S * ZStreamSsl := (false, ssl s, with_ssl x (child s) s).

(** The timeout is that of the child. *)
Definition z_stream_ssl_new (c : C) (child_timeout : Z) (child_want : watch) (x : option S) : ZStreamSsl :=
  mkStream child_timeout (mkWatch false false false) c child_want DO_AS_USUAL false x.
End stream_ssl.
Arguments ZStreamSsl : clear implicits.
