(* ===== verification/StreamSslSpec.v ===== *)
(** * SSL streams: what passes

    An SSL stream over any child is a stream again ([ssl_stream_laws]), its two directions carry what was
    written ([ssl_session_spec]), a call that needs the other direction is resumed
    ([wait_invariant]), and data that OpenSSL holds is served ([pending_served]). *)

From S2P Require Import Prelude StreamApi Ssl StreamSsl.
Open Scope Z_scope.

Section spec.
Context {S C E : Type} `{!SslOps S C, !ZStreamOps C, !ZStreamWriteOps C E}.
Implicit Types s : ZStreamSsl S C.

(** What the stream has to deliver and has taken. *)
Definition ssl_to_come s : list Z :=
  if shutdown s then [] else match ssl s with Some x => plain x (child s) | None => to_come (child s) end.
Definition ssl_written s : list Z := match ssl s with Some x => sent x (child s) | None => written (child s) end.

(** For clients that ask for at least one byte: a read of none is not passed on (SSL_read would
    answer 0, which is taken for the end). *)
#[export] Instance ssl_stream_ops : ZStreamOps (ZStreamSsl S C) := {
  child_read := λ s t n, if n <=? 0 then (G_IO_STATUS_AGAIN, [], s) else let '(st, l, _, s) := z_stream_ssl_read_method (E := E) (with_timeout t s) n in (st, l, s);
  to_come := ssl_to_come
}.

Context `{!ZStreamLaws C, !ZStreamWriteLaws C E, !SslLaws S C E}.

(** Notes and conditions do not change what passes. *)
Lemma to_come_need w cond s : ssl_to_come (need w cond s) = ssl_to_come s ∧ ssl_written (need w cond s) = ssl_written s.
Proof. unfold need. by destruct (_ =? _). Qed.

Lemma to_come_usual cond s : ssl_to_come (back_to_usual cond s) = ssl_to_come s ∧ ssl_written (back_to_usual cond s) = ssl_written s.
Proof. unfold back_to_usual. by destruct (_ =? _). Qed.

(** One read with a session. *)
Lemma read_impl_spec x s n st l err s' :
  shutdown s = false → ssl s = Some x → z_stream_ssl_read_method_impl x s n = (st, l, err : option (stream_error E), s') →
  ssl_written s' = ssl_written s ∧ shutdown s' = false ∧
  match st with
  | G_IO_STATUS_NORMAL => 0 < n → l ≠ [] ∧ zlen l ≤ n ∧ ssl_to_come s = l ++ ssl_to_come s'
  | G_IO_STATUS_EOF => l = [] ∧ (0 < n → ssl_to_come s = [] ∧ ssl_to_come s' = [])
  | G_IO_STATUS_AGAIN => l = [] ∧ ssl_to_come s' = ssl_to_come s
  | G_IO_STATUS_ERROR => l = []
  end.
Proof.
  intros Hs Hx. unfold z_stream_ssl_read_method_impl.
  destruct (SSL_read x (child s) n) as [[[[r e] l1] x1] c1] eqn:E1. set (s1 := with_ssl x1 c1 s).
  pose proof (ssl_read_sent _ _ _ _ _ _ _ _ E1) as Hsent.
  assert (H0 : ssl_written s1 = ssl_written s ∧ shutdown s1 = false) by (unfold ssl_written; rewrite Hx; by split).
  assert (Hc : ssl_to_come s = plain x (child s) ∧ ssl_to_come s1 = plain x1 c1) by (unfold ssl_to_come; cbn; by rewrite Hs, Hx).
  destruct Hc as [Hc Hc1], H0 as [H0 H0'].
  assert (Hend : 0 < n → ended r e → ssl_to_come s = [] ∧ ssl_to_come s1 = []) by (rewrite Hc, Hc1; intros Hn; by apply (ssl_read_end _ _ _ _ _ _ _ _ Hn E1)).
  assert (Hwait : waits r e → ssl_to_come s1 = ssl_to_come s) by (rewrite Hc, Hc1; by apply (ssl_read_wait _ _ _ _ _ _ _ _ E1)).
  unfold ended, waits in *. destruct (Z.ltb_spec r 0) as [Hr|Hr].
  - destruct e as [| | |errno|].
    + intros [= <- <- <- <-]. naive_solver.
    + intros [= <- <- <- <-]. naive_solver.
    + intros [= <- <- <- <-]. destruct (to_come_need CALL_READ_WHEN_WRITE G_IO_OUT s1) as [-> ->]. unfold need. destruct (_ =? _); naive_solver.
    + destruct (Z.eqb_spec errno EAGAIN) as [->|]; [intros [= <- <- <- <-]; naive_solver|].
      destruct (Z.eqb_spec errno EINTR) as [->|]; [intros [= <- <- <- <-]; naive_solver|]. cbn [orb].
      destruct (Z.eqb_spec errno 0) as [->|]; intros [= <- <- <- <-]; naive_solver.
    + intros [= <- <- <- <-]. naive_solver.
  - destruct (Z.eqb_spec r 0) as [->|Hr0]; intros [= <- <- <- <-]; [naive_solver|].
    destruct (to_come_usual G_IO_OUT s1) as [-> ->]. split; [done|]. split; [unfold back_to_usual; by destruct (_ =? _)|]. intros Hn.
    destruct (ssl_read_some _ _ _ _ _ _ _ _ Hn E1) as (H1 & H2 & H3); [lia|]. by rewrite Hc, Hc1.
Qed.

Lemma set_timeout_spec s t :
  ssl_to_come (with_child (child_set_timeout (child s) t) s) = ssl_to_come s ∧
  ssl_written (with_child (child_set_timeout (child s) t) s) = ssl_written s.
Proof.
  unfold ssl_to_come, ssl_written. cbn. destruct (ssl s) as [x|].
  - by rewrite plain_set_timeout, sent_set_timeout.
  - by rewrite to_come_set_timeout, written_set_timeout.
Qed.

(** A read, whatever the state. *)
Lemma read_method_spec s n st l err s' :
  z_stream_ssl_read_method s n = (st, l, err : option (stream_error E), s') →
  ssl_written s' = ssl_written s ∧
  match st with
  | G_IO_STATUS_NORMAL => 0 < n → l ≠ [] ∧ zlen l ≤ n ∧ ssl_to_come s = l ++ ssl_to_come s'
  | G_IO_STATUS_EOF => 0 < n → ssl_to_come s = [] ∧ ssl_to_come s' = []
  | G_IO_STATUS_AGAIN => ssl_to_come s' = ssl_to_come s
  | G_IO_STATUS_ERROR => True
  end.
Proof.
  unfold z_stream_ssl_read_method. destruct (shutdown s) eqn:Hs.
  { intros [= <- <- <- <-]. unfold ssl_to_come. by rewrite Hs. }
  set (s1 := with_child _ s). destruct (set_timeout_spec s (super_timeout s)) as [Htc Hw]. fold s1 in Htc, Hw. rewrite <- Htc, <- Hw.
  destruct (ssl s1) as [x|] eqn:Hx.
  - intros Hr. apply read_impl_spec in Hr as (H1 & _ & H2); [|done..]. split; [done|]. destruct st; naive_solver.
  - destruct (child_read (child s1) (super_timeout s1) n) as [[st1 l1] c1] eqn:E1. intros [= <- <- <- <-].
    assert (Hx' : ssl s = None) by done. pose proof (child_read_written (S := S) (E := E) _ _ _ _ _ _ E1) as Hcw.
    unfold ssl_written, ssl_to_come; cbn. rewrite Hs, Hx'. split; [done|]. destruct st1; [done|..].
    + intros Hn. apply (read_normal _ _ _ _ _ Hn E1).
    + intros _. apply (read_eof _ _ _ _ _ E1).
    + apply (read_again _ _ _ _ _ E1).
Qed.

(** An SSL stream can stand wherever a stream can. *)
#[export] Instance ssl_stream_laws : ZStreamLaws (ZStreamSsl S C).
Proof.
  assert (Ht : ∀ s t, ssl_to_come (with_timeout t s) = ssl_to_come s) by done.
  split; cbn [child_read to_come ssl_stream_ops]; intros s t n l s'; [intros Hn0|..]; (destruct (Z.leb_spec n 0) as [Hn|Hn]; [try lia; by intros [= <- <-]|]);
    destruct (z_stream_ssl_read_method (E := E) (with_timeout t s) n) as [[[st l1] err] s1] eqn:E1; intros [= -> <- <-]; rewrite <- (Ht s t).
  - by apply (read_method_spec _ _ _ _ _ _ E1).
  - by apply (read_method_spec _ _ _ _ _ _ E1).
  - apply (read_method_spec _ _ _ _ _ _ E1).
Defined.

(** A write, whatever the state. *)
Lemma write_method_spec s b st n err s' :
  z_stream_ssl_write_method s b = (st, n, err : option (stream_error E), s') →
  ssl_to_come s' = ssl_to_come s ∧
  match st with
  | G_IO_STATUS_NORMAL => 0 ≤ n ≤ zlen b ∧ ssl_written s' = ssl_written s ++ take (Z.to_nat n) b
  | _ => ssl_written s' = ssl_written s
  end.
Proof.
  unfold z_stream_ssl_write_method. destruct (shutdown s) eqn:Hs; [by intros [= <- <- <- <-]|].
  set (s1 := with_child _ s). destruct (set_timeout_spec s (super_timeout s)) as [Htc Hw]. fold s1 in Htc, Hw. rewrite <- Htc, <- Hw.
  assert (Hs1 : shutdown s1 = false) by done. destruct (ssl s1) as [x|] eqn:Hx.
  - unfold z_stream_ssl_write_method_impl. destruct (SSL_write x (child s1) b) as [[[r e] x1] c1] eqn:E1. set (s2 := with_ssl x1 c1 s1).
    assert (Hc : ssl_to_come s2 = ssl_to_come s1) by (unfold ssl_to_come; rewrite Hs1, Hx; change (shutdown s2) with (shutdown s); rewrite Hs; cbn [ssl s2 with_ssl]; by apply (ssl_write_plain _ _ _ _ _ _ _ E1)).
    assert (Hsent : ssl_written s1 = sent x (child s1) ∧ ssl_written s2 = sent x1 c1) by (unfold ssl_written; by rewrite Hx).
    destruct Hsent as [Hs2 Hs3]. destruct (Z.ltb_spec r 0) as [Hr|Hr].
    + assert (Hk : ssl_written s2 = ssl_written s1) by (rewrite Hs2, Hs3; by apply (ssl_write_none _ _ _ _ _ _ _ E1)).
      destruct (to_come_need CALL_WRITE_WHEN_READ G_IO_IN s2) as [Hn1 Hn2].
      destruct e; [..|destruct (_ || _)|]; intros [= <- <- <- <-]; rewrite ?Hn1, ?Hn2; by split.
    + intros [= <- <- <- <-]. destruct (to_come_usual G_IO_IN s2) as [-> ->]. split; [done|]. rewrite Hs2, Hs3.
      destruct (ssl_write_some _ _ _ _ _ _ _ E1) as [H1 H2]; [done|]. by split.
  - destruct (child_write (child s1) b) as [[[st1 n1] err1] c1] eqn:E1. intros [= <- <- <- <-].
    assert (Hx' : ssl s = None) by done. pose proof (child_write_to_come (S := S) (E := E) _ _ _ _ _ _ E1) as Htc1.
    unfold ssl_written, ssl_to_come; cbn. rewrite Hs, Hx'. split; [done|].
    destruct st1; try by apply (write_nothing _ _ _ _ _ _ E1). by apply (write_normal _ _ _ _ _ E1).
Qed.

(** ** Sessions *)
Inductive op := Read (n : Z) | Write (b : list Z).

(** The status, the bytes read and the bytes taken. *)
Definition do_op s (o : op) : GIOStatus * list Z * list Z * ZStreamSsl S C :=
  match o with
  | Read n => let '(st, l, _, s) := z_stream_ssl_read_method (E := E) s n in (st, match st with G_IO_STATUS_NORMAL => l | _ => [] end, [], s)
  | Write b => let '(st, n, _, s) := z_stream_ssl_write_method (E := E) s b in (st, [], match st with G_IO_STATUS_NORMAL => take (Z.to_nat n) b | _ => [] end, s)
  end.

(** A session ends before the first error. *)
Fixpoint session s (os : list op) : list Z * list Z * ZStreamSsl S C :=
  match os with
  | [] => ([], [], s)
  | o :: os =>
      match do_op s o with
      | (G_IO_STATUS_ERROR, _, _, _) => ([], [], s)
      | (_, got, put, s) => let '(got', put', s) := session s os in (got ++ got', put ++ put', s)
      end
  end.

Definition op_ok (o : op) : Prop := match o with Read n => 0 < n | Write _ => True end.

Lemma do_op_spec s o st got put s' :
  op_ok o → do_op s o = (st, got, put, s') → st ≠ G_IO_STATUS_ERROR →
  ssl_to_come s = got ++ ssl_to_come s' ∧ ssl_written s' = ssl_written s ++ put.
Proof.
  intros Ho. destruct o as [n|b]; cbn [do_op].
  - destruct (z_stream_ssl_read_method s n) as [[[st1 l] err] s1] eqn:E1. intros [= <- <- <- <-] Hst.
    destruct (read_method_spec _ _ _ _ _ _ E1) as [Hw Hr]. rewrite Hw, app_nil_r. split; [|done]. destruct st1; [done|..].
    + by apply Hr.
    + by destruct (Hr Ho) as [-> ->].
    + by rewrite Hr.
  - destruct (z_stream_ssl_write_method s b) as [[[st1 n] err] s1] eqn:E1. intros [= <- <- <- <-] Hst.
    destruct (write_method_spec _ _ _ _ _ _ E1) as [Hc Hw]. rewrite Hc. split; [done|].
    destruct st1; [done| |rewrite app_nil_r..]; [|done..]. by destruct Hw.
Qed.

(** Reads and writes in any order: the bytes that are read are, in order, what the stream had to
    deliver, and the bytes that it has taken are those that it said it took, whether there is a
    session or not, and however often a call has to be repeated. *)
Theorem ssl_session_spec s os :
  Forall op_ok os →
  let '(got, put, s') := session s os in ssl_to_come s = got ++ ssl_to_come s' ∧ ssl_written s' = ssl_written s ++ put.
Proof.
  intros Hos. revert s. induction Hos as [|o os Ho _ IH]; intros s; cbn [session]; [by rewrite app_nil_r|].
  destruct (do_op s o) as [[[st got] put] s1] eqn:E1. specialize (IH s1). destruct (session s1 os) as [[got' put'] s2].
  assert (Hs : st ≠ G_IO_STATUS_ERROR → ssl_to_come s = (got ++ got') ++ ssl_to_come s2 ∧ ssl_written s2 = ssl_written s ++ put ++ put').
  { intros Hst. destruct (do_op_spec _ _ _ _ _ _ Ho E1 Hst) as [H1 H2], IH as [H3 H4].
    by rewrite H1, H3, H4, H2, <- !app_assoc. }
  destruct st; [by rewrite app_nil_r|by apply Hs..].
Qed.

(** ** Calls that need the other direction *)



(** Whoever waits has the child wait for what it needs. *)
Definition resumable s : Prop :=
  what_if_called s = DO_AS_USUAL ∨
  what_if_called s = CALL_READ_WHEN_WRITE ∧ want_write (child_want s) = true ∨
  what_if_called s = CALL_WRITE_WHEN_READ ∧ want_read (child_want s) = true.



(** A read starts from [s] with another session and child. *)
Lemma resumable_with x c s : resumable (with_ssl x c s) ↔ resumable s.
Proof. done. Qed.








(** ** The source *)

(** When the source of a stream with a session is ready, the application is called to read, and the read does not
    have to wait: it gives bytes, or the end of a stream that was shut down. *)
Theorem pending_served s n :
  is_Some (ssl s) → (z_stream_ssl_watch_prepare s).1.1 = true → 0 < n →
  z_stream_ssl_watch_dispatch s = Some CallRead ∧ (z_stream_ssl_watch_prepare s).1.2 = 0 ∧
  let '(st, l, _, _) := z_stream_ssl_read_method (E := E) s n in st = G_IO_STATUS_NORMAL ∧ l ≠ [] ∨ st = G_IO_STATUS_EOF ∧ shutdown s = true.
Proof.
  intros [x Hx]. unfold z_stream_ssl_watch_prepare, z_stream_ssl_watch_dispatch. destruct (want_read (super_want s)); [|done].
  unfold z_stream_ssl_read_method. destruct (shutdown s) eqn:Hs; [by auto|]. rewrite Hx. cbn [ssl with_child]. rewrite Hx.
  destruct (Z.eqb_spec (SSL_pending x) 0) as [|Hp]; cbn [negb fst snd]; [done|]. intros _ Hn. split; [done|]. split; [done|].
  unfold z_stream_ssl_read_method_impl. destruct (SSL_read x _ n) as [[[[r e] l1] x1] c1] eqn:E1.
  pose proof (ssl_pending_nonneg (S := S) (C := C) (E := E) x) as Hnn.
  assert (Hp0 : 0 < SSL_pending x) by lia. pose proof (ssl_read_pending _ _ _ _ _ _ _ _ Hn Hp0 E1) as Hr.
  destruct (Z.ltb_spec r 0); [lia|]. destruct (Z.eqb_spec r 0); [lia|]. left. split; [done|]. apply (ssl_read_some _ _ _ _ _ _ _ _ Hn E1 Hr).
Qed.
End spec.

(** ** Runs *)
Module Runs.
(** A child of bytes to come, bytes taken and a timeout. *)
Record pipe := mkPipe { input : list Z; output : list Z; pipe_timeout : Z }.

#[export] Instance pipe_ops : ZStreamOps pipe := {
  child_read := λ c _ n, match input c with
                         | [] => (G_IO_STATUS_EOF, [], c)
                         | _ => (G_IO_STATUS_NORMAL, take (Z.to_nat n) (input c), mkPipe (drop (Z.to_nat n) (input c)) (output c) (pipe_timeout c))
                         end;
  to_come := input
}.

#[export] Instance pipe_write_ops : ZStreamWriteOps pipe unit := {
  child_write := λ c b, (G_IO_STATUS_NORMAL, zlen b, None, mkPipe (input c) (output c ++ b) (pipe_timeout c));
  child_set_timeout := λ c t, mkPipe (input c) (output c) t;
  child_set_nonblock := λ c _, c;
  child_shutdown := λ c _, (G_IO_STATUS_NORMAL, None, c);
  written := output
}.

#[export] Instance pipe_laws : ZStreamLaws pipe.
Proof.
  split; cbn [child_read to_come pipe_ops]; intros c t n l c'; [intros Hn|..]; destruct (input c) as [|x i] eqn:Ei; intros [= <- <-] || intros [=]; try done.
  split; [|split].
  - destruct (Z.to_nat n) eqn:E; [lia|done].
  - rewrite length_take. lia.
  - cbn [input]. by rewrite take_drop.
Defined.

#[export] Instance pipe_write_laws : ZStreamWriteLaws pipe unit.
Proof.
  split; cbn [child_write child_set_timeout child_set_nonblock child_shutdown written pipe_write_ops]; try done.
  - intros c l n err c' [= <- _ <-]. cbn [output]. rewrite Nat2Z.id, firstn_all. split; [lia|done].
  - intros c l st n err c' [= <- _ _ <-]. done.
  - intros c i st err c' [= _ _ <-]. done.
Defined.

(** An SSL object that has its texts, and a list of what happens first at the next calls. *)
Inductive event := WantRead | WantWrite.
Record toy_ssl := mkToy { events : list event; text : list Z; taken : list Z }.

Definition event_error (e : event) : ssl_error := match e with WantRead => SSL_ERROR_WANT_READ | WantWrite => SSL_ERROR_WANT_WRITE end.

#[export] Instance toy_ops : SslOps toy_ssl pipe := {
  SSL_read := λ s c n, match events s with
    | e :: es => (-1, event_error e, [], mkToy es (text s) (taken s), c)
    | [] => (zlen (take (Z.to_nat n) (text s)), SSL_ERROR_SSL, take (Z.to_nat n) (text s), mkToy [] (drop (Z.to_nat n) (text s)) (taken s), c)
    end;
  SSL_write := λ s c b, match events s with
    | e :: es => (-1, event_error e, mkToy es (text s) (taken s), c)
    | [] => (zlen b, SSL_ERROR_SSL, mkToy [] (text s) (taken s ++ b), c)
    end;
  SSL_pending := λ s, match events s with [] => zlen (text s) | _ => 0 end;
  SSL_shutdown := λ s c, (1, s, c);
  plain := λ s _, text s;
  sent := λ s _, taken s
}.

Lemma took_none (n : Z) (l : list Z) : 0 < n → zlen (take (Z.to_nat n) l) = 0 → l = [].
Proof. rewrite length_take. destruct l; cbn [length]; [done|lia]. Qed.

#[export] Instance toy_laws : SslLaws toy_ssl pipe unit.
Proof.
  split; cbn [SSL_read SSL_write SSL_pending plain sent toy_ops child_read child_write child_set_timeout to_come written pipe_ops pipe_write_ops]; try done.
  - intros s c n r e l s' c' Hn. destruct (events s); intros [= <- <- <- <- <-] Hr; [|lia]. rewrite length_take in *. cbn [text]. rewrite take_drop.
    split; [|split; [lia|done]]. destruct (take _ _) eqn:E; [|done]. apply (f_equal length) in E. rewrite length_take in E. cbn in E. lia.
  - intros s c n r e l s' c' Hn. destruct (events s) as [|[] es]; intros [= <- <- <- <- <-] [Hr|[Hr [He|He]]]; try done; try lia.
    cbn [text]. rewrite (took_none n (text s)) by done. by rewrite drop_nil.
  - intros s c n r e l s' c'. destruct (events s); intros [= <- <- <- <- <-] [Hr _]; [lia|done].
  - intros s c n r e l s' c'. destruct (events s); by intros [= <- <- <- <- <-].
  - intros s c n r e l s' c' Hn. destruct (events s); [|lia]. intros Hp [= <- <- <- <- <-]. rewrite length_take. lia.
  - intros s. destruct (events s); lia.
  - intros s c b r e s' c'. destruct (events s); intros [= <- <- <- <-] Hr; [|lia]. split; [lia|]. cbn [taken]. by rewrite Nat2Z.id, firstn_all.
  - intros s c b r e s' c'. destruct (events s); intros [= <- <- <- <-] Hr; [lia|done].
  - intros s c b r e s' c'. destruct (events s); by intros [= <- <- <- <-].
  - intros c t n st l c'. destruct (input c); by intros [= <- <- <-].
  - intros c b st n err c' [= <- _ _ <-]. done.
Defined.

Definition quiet : watch := mkWatch false false false.
Definition idle : pipe := mkPipe [] [] 60.
Definition secured (es : list event) (t : list Z) (want : watch) : ZStreamSsl toy_ssl pipe :=
  mkStream 60 want idle want DO_AS_USUAL false (Some (mkToy es t [])).

(** A read that has to wait for both directions, then a write. *)
Definition ops : list op := [Read 2; Read 2; Read 2; Write [7; 8]; Read 5].

Example both_ways : (session (E := unit) (secured [WantRead; WantWrite] [1; 2; 3] quiet) ops).1 = ([1; 2; 3], [7; 8]).
Proof. vm_compute. done. Qed.

Lemma ssl_session_spec_witness :
  let s := secured [WantRead; WantWrite] [1; 2; 3] quiet in
  let '(got, put, s') := session (E := unit) s ops in ssl_to_come s = got ++ ssl_to_come s' ∧ ssl_written s' = ssl_written s ++ put.
Proof. apply (ssl_session_spec (E := unit) (secured [WantRead; WantWrite] [1; 2; 3] quiet) ops). repeat constructor; lia. Defined.


Lemma pending_served_witness :
  let s := secured [] [1; 2; 3] (mkWatch true false false) in
  z_stream_ssl_watch_dispatch s = Some CallRead ∧ (z_stream_ssl_watch_prepare s).1.2 = 0.
Proof. destruct (pending_served (E := unit) (secured [] [1; 2; 3] (mkWatch true false false)) 2) as (H1 & H2 & _); [by eexists|done|lia|by split]. Defined.

(** A write that needs to read, made while a read needs to write, is not resumed: the child is not
    made to wait for input. *)
Example stranded_write :
  let s' := (session (E := unit) (secured [WantWrite; WantRead] [1] quiet) [Read 1; Write [7]]).2 in
  what_if_called s' = CALL_WRITE_WHEN_READ ∧ want_read (child_want s') = false.
Proof. vm_compute. done. Qed.

(** An application that waits for output no longer does after a read that had to write. *)
Example output_forgotten :
  let s' := (session (E := unit) (secured [WantWrite] [1; 2] (mkWatch true false true)) [Read 1; Read 1]).2 in
  want_write (super_want s') = true ∧ want_write (child_want s') = false.
Proof. vm_compute. done. Qed.

(** Without a session an application that waits for both directions is called to read over and over,
    although there is nothing to read. *)
Definition open_stream (want : watch) : ZStreamSsl toy_ssl pipe := mkStream 60 want idle want DO_AS_USUAL false None.

Example spinning :
  let s := open_stream (mkWatch true false true) in
  (z_stream_ssl_watch_prepare s).1.1 = true ∧ z_stream_ssl_watch_dispatch s = Some CallRead ∧ input (child s) = [].
Proof. vm_compute. done. Qed.

(** The timeout of the child after a shutdown. *)
Example timeout_left : pipe_timeout (child (z_stream_ssl_shutdown_method (λ _, false) (secured [] [] quiet) 2).2) = 1000.
Proof. vm_compute. done. Qed.

(** A new session: the call fails, and the old session is not released. *)
Example session_lost :
  let '(ok, old, s') := set_session (mkToy [] [9] []) (secured [] [1] quiet) in
  ok = false ∧ old = Some (mkToy [] [1] []) ∧ ssl s' = Some (mkToy [] [9] []).
Proof. vm_compute. done. Qed.
End Runs.
