(* ===== verification/Poll.v ===== *)
(** * The poll loop (poll.c)

    A ZPoll drives the main context of GLib by hand: it asks which descriptors to watch, polls them and
    lets the context dispatch.  The context with the sources of the application is a parameter
    ([MainContext]), with what GLib documents of it as laws ([MainContextLaws]); so is what other
    threads call meanwhile.  The source that wakes the loop is that of the code. *)

From S2P Require Import Prelude.
Open Scope Z_scope.

Definition EINTR : Z := 4.
Definition ETIMEDOUT : Z := 110.
Definition G_MAXINT : Z := 2 ^ 31 - 1.
Definition G_PRIORITY_DEFAULT : Z := 0.

(** What others do to the ZPoll while it is in poll or calls them back. *)
Inductive call := CallWakeup | CallQuit.

#[export] Instance call_eq_dec : EqDecision call.
Proof. solve_decision. Defined.

(** What happens while the context dispatches: the source of the ZPoll is dispatched, or
    somebody (a callback, or another thread since poll returned) calls. *)
Inductive event := EvOwn | EvCall (c : call).

#[export] Instance event_eq_dec : EqDecision event.
Proof. solve_decision. Defined.

(** The main context.  The source of the ZPoll has the default priority 0; those of stacked
    streams have a higher one (a smaller number, stream.c). *)
Class MainContext (W : Type) := {
  (** What can be said of its state: g_main_context_wakeup was called and the context has not
      noticed yet; the source of the ZPoll was found ready and not dispatched since; a source
      of a higher priority is ready. *)
  signalled : W → bool;
  own_ready : W → bool;
  higher_ready : W → bool;
  (** g_main_context_prepare, with the answer of the prepare function of the ZPoll's source:
      the highest priority that is ready, G_MAXINT for none. *)
  context_prepare : bool * Z → W → Z * W;
  (** g_main_context_query for sources up to a priority: how many descriptors, and the timeout. *)
  context_query : Z → W → Z * Z;
  context_wakeup : W → W;
  (** What others call until poll returns. *)
  arrivals : W → list call * W;
  (** The function that polls the descriptors of the sources up to a priority, and the one of
      the wakeup when the default priority is among them: the result and errno, or nothing
      when it never returns. *)
  poll : Z → Z → W → option (Z * Z) * W;
  (** g_main_context_check, with the answer of the check function of the ZPoll's source:
      whether there is something to dispatch. *)
  context_check : bool → Z → W → bool * W;
  (** g_main_context_dispatch: what happened, and the errno that is left. *)
  context_dispatch : Z → W → list event * Z * W
}.

(** What the documentation of GLib says of these functions. *)
Class MainContextLaws (W : Type) `{!MainContext W} := {
  (** A wakeup is noticed by the next poll, or the one at hand. *)
  wakeup_signals w : signalled (context_wakeup w) = true;
  poll_returns prio t w :
    0 ≤ t ∨ signalled w = true ∧ G_PRIORITY_DEFAULT ≤ prio → (poll prio t w).1 ≠ None;
  (** It stays pending until it is noticed. *)
  prepare_signal mine w : signalled (context_prepare mine w).2 = signalled w;
  arrivals_signal w : signalled (arrivals w).2 = signalled w;
  dispatch_signal e w : signalled (context_dispatch e w).2 = signalled w;
  check_signal prio b w : G_PRIORITY_DEFAULT ≤ prio → signalled (context_check b prio w).2 = false;
  (** A source that is ready need not be prepared again, and nobody waits when one is ready; the
      sources of a lower priority than one that is ready are not asked. *)
  prepare_ready mine w : own_ready w = true ∨ mine.1 = true → (context_prepare mine w).1 ≤ G_PRIORITY_DEFAULT;
  query_ready mine w : (context_prepare mine w).1 < G_MAXINT →
    (context_query (context_prepare mine w).1 (context_prepare mine w).2).2 = 0;
  (** Only the sources of the highest priority that is ready are dispatched. *)
  dispatch_own e w : EvOwn ∈ (context_dispatch e w).1.1 → own_ready w = true ∧ higher_ready w = false
}.

Record ZPoll := mkPoll {
  ref_count : Z;
  pollfd_num : Z;
  quit : bool;
  wakeup : bool
}.

Definition set_quit (s : ZPoll) : ZPoll := mkPoll (ref_count s) (pollfd_num s) true (wakeup s).
Definition set_wakeup (b : bool) (s : ZPoll) : ZPoll := mkPoll (ref_count s) (pollfd_num s) (quit s) b.
Definition set_pollfd_num (n : Z) (s : ZPoll) : ZPoll := mkPoll (ref_count s) n (quit s) (wakeup s).

Definition z_poll_new : ZPoll := mkPoll 1 4 false false.

Definition z_poll_ref (s : ZPoll) : ZPoll := mkPoll (u32 (ref_count s + 1)) (pollfd_num s) (quit s) (wakeup s).

(** [None]: the ZPoll was destroyed. *)
Definition z_poll_unref (s : ZPoll) : outcome (option ZPoll) :=
  _ ← require (0 < ref_count s) AssertFailed;
  let n := ref_count s - 1 in
  Done (if decide (n = 0) then None else Some (mkPoll n (pollfd_num s) (quit s) (wakeup s))).

Definition z_poll_is_running (s : ZPoll) : bool := negb (quit s).

(** The flag of the source, and the descriptor of the context. *)
Definition z_poll_wakeup {W} `{!MainContext W} (s : ZPoll) (w : W) : ZPoll * W :=
  (set_wakeup true s, context_wakeup w).

Definition z_poll_quit {W} `{!MainContext W} (s : ZPoll) (w : W) : ZPoll * W :=
  z_poll_wakeup (set_quit s) w.

(** ** The source *)

(** Ready, and the timeout. *)
Definition z_poll_source_prepare (s : ZPoll) : bool * Z := if wakeup s then (true, 0) else (false, -1).
Definition z_poll_source_check (s : ZPoll) : bool := false.
Definition z_poll_source_dispatch (s : ZPoll) : ZPoll := set_wakeup false s.

(** ** An iteration *)

(** The loop that makes room for the descriptors: [pollfd_num] is a guint that is compared as a gint. *)
Fixpoint grow_pollfd (fuel : nat) (fdnum num : Z) : outcome Z :=
  match fuel with
  | O => Fault OutOfFuel
  | S fuel => if decide (s32 num < fdnum) then grow_pollfd fuel fdnum (u32 (num * 2)) else Done num
  end.

Definition poll_timeout (query timeout : Z) : Z :=
  if decide (query ≤ -1) then timeout else if decide (-1 < timeout) then query `min` timeout else query.

Section iter.
Context {W : Type} `{!MainContext W}.

Definition do_call (c : call) (s : ZPoll) (w : W) : ZPoll * W :=
  match c with CallWakeup => z_poll_wakeup s w | CallQuit => z_poll_quit s w end.

Fixpoint do_calls (cs : list call) (s : ZPoll) (w : W) : ZPoll * W :=
  match cs with [] => (s, w) | c :: cs => let '(s, w) := do_call c s w in do_calls cs s w end.

Fixpoint do_events (evs : list event) (s : ZPoll) (w : W) : ZPoll * W :=
  match evs with
  | [] => (s, w)
  | EvOwn :: evs => do_events evs (z_poll_source_dispatch s) w
  | EvCall c :: evs => let '(s, w) := do_call c s w in do_events evs s w
  end.

(** The first half of an iteration, until poll returns: its result, errno and timeout, and the
    priority. *)
Definition poll_part (fuel : nat) (s : ZPoll) (w : W) (timeout : Z) : outcome (Z * Z * Z * Z * ZPoll * W) :=
  let '(max_priority, w) := context_prepare (z_poll_source_prepare s) w in
  let '(fdnum, query) := context_query max_priority w in
  num ← grow_pollfd fuel fdnum (pollfd_num s);
  let s := set_pollfd_num num s in
  let polltimeout := poll_timeout query timeout in
  let '(calls, w) := arrivals w in
  let '(s, w) := do_calls calls s w in
  let '(answer, w) := poll max_priority polltimeout w in
  match answer with
  | Some (rc, errno) => Done (rc, errno, polltimeout, max_priority, s, w)
  | None => Fault Blocked
  end.

(** The second half: what happened, and errno. *)
Definition dispatch_part (max_priority errno : Z) (s : ZPoll) (w : W) : list event * Z * ZPoll * W :=
  let '(ready, w) := context_check (z_poll_source_check s) max_priority w in
  if (ready : bool) then
    let '(evs, errno, w) := context_dispatch errno w in
    let '(s, w) := do_events evs s w in (evs, errno, s, w)
  else ([], errno, s, w).

(** The result, errno, the ZPoll and the context. *)
Definition z_poll_iter_timeout (fuel : nat) (s : ZPoll) (w : W) (timeout : Z) : outcome (Z * Z * ZPoll * W) :=
  if quit s then Done (0, 0, s, w)
  else
    '(rc, errno, polltimeout, max_priority, s, w) ← poll_part fuel s w timeout;
    let '(_, errno, s, w) := dispatch_part max_priority errno s w in
    if decide (rc = -1 ∧ errno ≠ EINTR) then Done (0, errno, s, w)
    else if decide (rc = 0 ∧ polltimeout = timeout) then Done (0, ETIMEDOUT, s, w)
    else Done (1, errno, s, w).

(** How an application uses it: the loop ends at the first 0.  32 rounds are enough to make room. *)
Fixpoint poll_loop (fuel : nat) (s : ZPoll) (w : W) (timeout : Z) : outcome (Z * ZPoll * W) :=
  match fuel with
  | O => Fault OutOfFuel
  | S fuel =>
      '(rc, errno, s, w) ← z_poll_iter_timeout 32 s w timeout;
      if decide (rc = 0) then Done (errno, s, w) else poll_loop fuel s w timeout
  end.
End iter.

(** ** What holds *)

(** The room for descriptors is 4, 8, 16, and so on. *)
Definition room (num : Z) : Prop := ∃ k, (k ≤ 28)%nat ∧ num = 4 * 2 ^ Z.of_nat k.

Lemma room_new : room (pollfd_num z_poll_new).
Proof. exists O. split; [lia|done]. Qed.

Lemma room_bounds num : room num → 4 ≤ num ≤ 2 ^ 30.
Proof.
  intros (k & Hk & ->). assert (2 ^ 0 ≤ 2 ^ Z.of_nat k ≤ 2 ^ 28) by (split; apply Z.pow_le_mono_r; lia). lia.
Qed.

(** Room for up to 2^30 descriptors is made, in at most 28 rounds. *)
Lemma grow_pollfd_ok fdnum k fuel :
  fdnum ≤ 2 ^ 30 → (k ≤ 28)%nat → (28 - k < fuel)%nat →
  ∃ k', (k ≤ k' ≤ 28)%nat ∧ grow_pollfd fuel fdnum (4 * 2 ^ Z.of_nat k) = Done (4 * 2 ^ Z.of_nat k') ∧ fdnum ≤ 4 * 2 ^ Z.of_nat k'.
Proof.
  intros Hf. revert k. induction fuel as [|fuel IH]; intros k Hk Hfuel; [lia|]. cbn [grow_pollfd].
  assert (Hb : 4 ≤ 4 * 2 ^ Z.of_nat k ≤ 2 ^ 30) by (apply room_bounds; by exists k).
  assert (Hs : s32 (4 * 2 ^ Z.of_nat k) = 4 * 2 ^ Z.of_nat k) by (unfold s32; rewrite Z.mod_small; lia). rewrite Hs.
  case_decide as Hd; [|exists k; split; [lia|split; [done|lia]]].
  assert (Hk' : (S k ≤ 28)%nat) by (destruct (decide (k = 28%nat)) as [->|]; [cbn in *; lia|lia]).
  assert (Hn : u32 (4 * 2 ^ Z.of_nat k * 2) = 4 * 2 ^ Z.of_nat (S k)).
  { rewrite Nat2Z.inj_succ, Z.pow_succ_r by lia. unfold u32. rewrite Z.mod_small; lia. }
  rewrite Hn. destruct (IH (S k)) as (k' & H1 & H2 & H3); [done|lia|]. exists k'. split; [lia|done].
Qed.

(** The calls among what happens. *)
Definition calls_of (evs : list event) : list call :=
  omap (λ e, match e with EvCall c => Some c | EvOwn => None end) evs.

Section spec.
Context {W : Type} `{!MainContext W} `{!MainContextLaws W}.

(** Calls set flags, and signal the context. *)
Lemma do_calls_spec cs (s : ZPoll) (w : W) :
  ref_count (do_calls cs s w).1 = ref_count s ∧ pollfd_num (do_calls cs s w).1 = pollfd_num s ∧
  quit (do_calls cs s w).1 = quit s || bool_decide (CallQuit ∈ cs) ∧
  wakeup (do_calls cs s w).1 = wakeup s || bool_decide (cs ≠ []) ∧
  signalled (do_calls cs s w).2 = signalled w || bool_decide (cs ≠ []).
Proof.
  revert s w. induction cs as [|c cs IH]; intros s w; cbn.
  - rewrite (bool_decide_eq_false_2 (CallQuit ∈ [])), !orb_false_r by apply not_elem_of_nil. done.
  - assert (Hc : ∃ s1, do_call c s w = (s1, context_wakeup w) ∧ ref_count s1 = ref_count s ∧
      pollfd_num s1 = pollfd_num s ∧ quit s1 = quit s || bool_decide (c = CallQuit) ∧ wakeup s1 = true).
    { destruct c; (eexists; split; [reflexivity|]); cbn; split_and!; try done; by destruct (quit s). }
    destruct Hc as (s1 & -> & E1 & E2 & E3 & E4). destruct (IH s1 (context_wakeup w)) as (H1 & H2 & H3 & H4 & H5).
    rewrite H1, H2, H3, H4, H5, E1, E2, E3, E4, wakeup_signals, !orb_true_r. split_and!; try done.
    rewrite <- orb_assoc, <- bool_decide_or. f_equal. apply bool_decide_ext. rewrite elem_of_cons. naive_solver.
Qed.

Lemma do_events_spec evs (s : ZPoll) (w : W) :
  ref_count (do_events evs s w).1 = ref_count s ∧ pollfd_num (do_events evs s w).1 = pollfd_num s ∧
  quit (do_events evs s w).1 = quit s || bool_decide (CallQuit ∈ calls_of evs) ∧
  (calls_of evs = [] → wakeup (do_events evs s w).1 = wakeup s && negb (bool_decide (EvOwn ∈ evs))) ∧
  signalled (do_events evs s w).2 = signalled w || bool_decide (calls_of evs ≠ []).
Proof.
  revert s w. induction evs as [|[|c] evs IH]; intros s w.
  - cbn. rewrite !orb_false_r, (bool_decide_eq_false_2 (EvOwn ∈ [])) by apply not_elem_of_nil.
    cbn. by rewrite andb_true_r.
  - cbn [do_events calls_of omap list_omap]. destruct (IH (z_poll_source_dispatch s) w) as (H1 & H2 & H3 & H4 & H5).
    fold (calls_of evs). split_and!; try done. intros Hc. rewrite H4 by done. cbn.
    by rewrite (bool_decide_eq_true_2 (EvOwn ∈ EvOwn :: evs)), andb_false_r by left.
  - cbn [do_events calls_of omap list_omap]. fold (calls_of evs).
    destruct (do_calls_spec [c] s w) as (E1 & E2 & E3 & _ & E5). cbn [do_calls] in *.
    destruct (do_call c s w) as [s1 w1]. cbn [fst snd] in *. destruct (IH s1 w1) as (H1 & H2 & H3 & _ & H5).
    rewrite H1, H2, H3, H5, E1, E2, E3, E5, !orb_true_r. split_and!; try done.
    rewrite <- orb_assoc, <- bool_decide_or. f_equal. apply bool_decide_ext. set_solver.
Qed.

Definition few_fds : Prop := ∀ prio (w : W), (context_query prio w).1 ≤ 2 ^ 30.

(** What others call while the loop polls. *)
Definition heard (s : ZPoll) (w : W) : list call := (arrivals (context_prepare (z_poll_source_prepare s) w).2).1.

(** Why poll does not wait for ever. *)
Definition awake (s : ZPoll) (w : W) (timeout : Z) : Prop :=
  wakeup s = true ∨ own_ready w = true ∨ signalled w = true ∨ heard s w ≠ [] ∨ 0 ≤ timeout.

Lemma poll_part_state s w timeout rc errno pt prio s1 w1 :
  few_fds → room (pollfd_num s) → poll_part 32 s w timeout = Done (rc, errno, pt, prio, s1, w1) →
  room (pollfd_num s1) ∧ ref_count s1 = ref_count s ∧ quit s1 = quit s || bool_decide (CallQuit ∈ heard s w) ∧
  wakeup s1 = wakeup s || bool_decide (heard s w ≠ []).
Proof.
  intros Hfew (k & Hk & Hnum). unfold poll_part, heard. destruct (context_prepare _ w) as [p w2]. cbn [snd].
  pose proof (Hfew p w2) as Hfd. destruct (context_query p w2) as [fdnum query]. cbn [fst] in Hfd.
  destruct (grow_pollfd_ok fdnum k 32) as (k' & Hk' & Hg & _); [done|done|lia|]. rewrite Hnum, Hg, Done_bind.
  destruct (arrivals w2) as [cs w3]. cbn [fst].
  destruct (do_calls_spec cs (set_pollfd_num (4 * 2 ^ Z.of_nat k') s) w3) as (H1 & H2 & H3 & H4 & _).
  destruct (do_calls cs _ w3) as [s2 w4]. destruct (poll _ _ w4) as [[[rc' e']|] w5]; intros [= <- <- <- <- <- <-].
  cbn [fst] in *. rewrite H1, H2, H3, H4. split_and!; try done. exists k'. split; [lia|done].
Qed.

Lemma poll_part_returns s w timeout :
  few_fds → room (pollfd_num s) → awake s w timeout → ∃ r, poll_part 32 s w timeout = Done r.
Proof.
  intros Hfew (k & Hk & Hnum) Haw. unfold poll_part, awake, heard in *.
  pose proof (prepare_ready (z_poll_source_prepare s) w) as Hready. pose proof (query_ready (z_poll_source_prepare s) w) as Hquery.
  pose proof (prepare_signal (z_poll_source_prepare s) w) as Hsig.
  destruct (context_prepare _ w) as [p w2]. cbn [fst snd] in *.
  pose proof (Hfew p w2) as Hfd. destruct (context_query p w2) as [fdnum query]. cbn [fst snd] in *.
  destruct (grow_pollfd_ok fdnum k 32) as (k' & Hk' & Hg & _); [done|done|lia|]. rewrite Hnum, Hg, Done_bind.
  pose proof (arrivals_signal w2) as Hsig2. destruct (arrivals w2) as [cs w3]. cbn [fst snd] in *.
  destruct (do_calls_spec cs (set_pollfd_num (4 * 2 ^ Z.of_nat k') s) w3) as (_ & _ & _ & _ & H5).
  destruct (do_calls cs _ w3) as [s2 w4]. cbn [fst snd] in *.
  assert (Hret : 0 ≤ poll_timeout query timeout ∨ signalled w4 = true ∧ G_PRIORITY_DEFAULT ≤ p).
  { assert (Hz : query = 0 → 0 ≤ poll_timeout query timeout).
    { intros ->. unfold poll_timeout. rewrite decide_False by lia. case_decide; lia. }
    destruct (decide (p < G_PRIORITY_DEFAULT)) as [Hp|Hp]; [left; apply Hz, Hquery; unfold G_PRIORITY_DEFAULT, G_MAXINT in *; lia|].
    destruct Haw as [Hw|[Ho|[Hs|[Hh|Ht]]]].
    - left. apply Hz, Hquery. unfold z_poll_source_prepare in Hready. rewrite Hw in Hready. cbn in Hready.
      assert (p ≤ G_PRIORITY_DEFAULT) by (apply Hready; by right). unfold G_PRIORITY_DEFAULT, G_MAXINT in *. lia.
    - left. apply Hz, Hquery. assert (p ≤ G_PRIORITY_DEFAULT) by (apply Hready; by left). unfold G_PRIORITY_DEFAULT, G_MAXINT in *. lia.
    - right. rewrite H5, Hsig2, Hsig, Hs. split; [done|lia].
    - right. rewrite H5, (bool_decide_eq_true_2 _ Hh), orb_true_r. split; [done|lia].
    - left. unfold poll_timeout. case_decide; [done|]. case_decide; lia. }
  pose proof (poll_returns p _ w4 Hret) as Hsome. destruct (poll p _ w4) as [[[rc e]|] w5]; [|done]. by eexists.
Qed.

Lemma dispatch_part_state prio errno s w :
  let '(evs, _, s', w') := dispatch_part prio errno s w in
  pollfd_num s' = pollfd_num s ∧ ref_count s' = ref_count s ∧
  quit s' = quit s || bool_decide (CallQuit ∈ calls_of evs) ∧
  (calls_of evs = [] → wakeup s' = wakeup s && negb (bool_decide (EvOwn ∈ evs))) ∧
  (calls_of evs ≠ [] → signalled w' = true) ∧
  (G_PRIORITY_DEFAULT ≤ prio → calls_of evs = [] → signalled w' = false) ∧
  (EvOwn ∈ evs → own_ready (context_check (z_poll_source_check s) prio w).2 = true ∧
                 higher_ready (context_check (z_poll_source_check s) prio w).2 = false).
Proof.
  unfold dispatch_part. pose proof (check_signal prio (z_poll_source_check s) w) as Hchk.
  destruct (context_check _ prio w) as [[] w2]; cbn [fst snd] in *.
  - pose proof (dispatch_own errno w2) as Hown. pose proof (dispatch_signal errno w2) as Hsig.
    destruct (context_dispatch errno w2) as [[evs e] w3]. cbn [fst snd] in *.
    destruct (do_events_spec evs s w3) as (H1 & H2 & H3 & H4 & H5). destruct (do_events evs s w3) as [s' w'].
    cbn [fst snd] in *. rewrite H1, H2, H3, H5, Hsig. split_and!; try done.
    + intros Hc. by rewrite (bool_decide_eq_true_2 _ Hc), orb_true_r.
    + intros Hp Hc. rewrite Hchk, bool_decide_eq_false_2 by (done || by intros Hn). done.
  - cbn. rewrite orb_false_r, (bool_decide_eq_false_2 (EvOwn ∈ [])), andb_true_r by apply not_elem_of_nil. split_and!; try done.
    + intros Hp _. by apply Hchk.
    + by intros ?%not_elem_of_nil.
Qed.

(** An iteration of a loop that was not told to quit. *)
Lemma iter_ok s w timeout :
  few_fds → room (pollfd_num s) → quit s = false →
  match poll_part 32 s w timeout with
  | Fault f => z_poll_iter_timeout 32 s w timeout = Fault f
  | Done (rc, errno, pt, prio, s1, w1) =>
      let '(evs, errno', s', w') := dispatch_part prio errno s1 w1 in
      (∃ rc' e', z_poll_iter_timeout 32 s w timeout = Done (rc', e', s', w') ∧ (rc' = 0 → e' ≠ EINTR)) ∧
      room (pollfd_num s') ∧ ref_count s' = ref_count s ∧
      quit s' = bool_decide (CallQuit ∈ heard s w ++ calls_of evs)
  end.
Proof.
  intros Hfew Hroom Hq. unfold z_poll_iter_timeout. rewrite Hq.
  destruct (poll_part 32 s w timeout) as [[[[[[rc errno] pt] prio] s1] w1]|f] eqn:E; [|done]. rewrite Done_bind.
  destruct (poll_part_state _ _ _ _ _ _ _ _ _ Hfew Hroom E) as (Hr1 & Hc1 & Hq1 & _).
  pose proof (dispatch_part_state prio errno s1 w1) as Hd.
  destruct (dispatch_part prio errno s1 w1) as [[[evs errno'] s'] w']. destruct Hd as (E1 & E2 & E3 & _).
  split_and!; [|by rewrite E1|congruence|].
  - destruct (decide (rc = -1 ∧ errno' ≠ EINTR)) as [[_ Hne]|]; [by eexists _, _|].
    destruct (decide (rc = 0 ∧ pt = timeout)); by eexists _, _.
  - rewrite E3, Hq1, Hq, orb_false_l, <- bool_decide_or. apply bool_decide_ext. by rewrite elem_of_app.
Qed.

Lemma iter_returns s w timeout :
  few_fds → room (pollfd_num s) → quit s = true ∨ awake s w timeout →
  ∃ r, z_poll_iter_timeout 32 s w timeout = Done r.
Proof.
  intros Hfew Hroom Haw. destruct (quit s) eqn:Hq; [unfold z_poll_iter_timeout; rewrite Hq; eauto|].
  destruct Haw as [|Haw]; [done|]. pose proof (iter_ok s w timeout Hfew Hroom Hq) as Hi.
  destruct (poll_part_returns s w timeout Hfew Hroom Haw) as [[[[[[rc errno] pt] prio] s1] w1] E]. rewrite E in Hi.
  destruct (dispatch_part prio errno s1 w1) as [[[evs e] s'] w']. destruct Hi as ((rc' & e' & Hi & _) & _). eauto.
Qed.

(** C33: Whoever wakes the loop or tells it to quit, from a callback or another thread, is heard.
    A loop that was woken before (its flag is set, its source was not dispatched yet, or the
    context is signalled), or that is woken while it polls, comes back from poll, whatever the
    timeout; a call from then on, or a flag that stays set because the sources of a stacked
    stream go first, makes the next iteration come back, too.  The flag is reset exactly when
    the source is dispatched, which only happens when no source of a higher priority is
    ready; after that, if nobody called, the loop waits again. *)
Theorem wakeup_not_lost s w timeout :
  few_fds → room (pollfd_num s) → quit s = false →
  wakeup s = true ∨ own_ready w = true ∨ signalled w = true ∨ heard s w ≠ [] ∨ 0 ≤ timeout →
  ∃ rc errno pt prio s1 w1 evs errno' s' w' rc' e',
    poll_part 32 s w timeout = Done (rc, errno, pt, prio, s1, w1) ∧
    dispatch_part prio errno s1 w1 = (evs, errno', s', w') ∧
    z_poll_iter_timeout 32 s w timeout = Done (rc', e', s', w') ∧
    (calls_of evs ≠ [] ∨ wakeup s' = true →
     ∀ timeout', ∃ r, z_poll_iter_timeout 32 s' w' timeout' = Done r) ∧
    (calls_of evs = [] →
     wakeup s' = (wakeup s || bool_decide (heard s w ≠ [])) && negb (bool_decide (EvOwn ∈ evs)) ∧
     (G_PRIORITY_DEFAULT ≤ prio → signalled w' = false)) ∧
    (EvOwn ∈ evs → higher_ready (context_check false prio w1).2 = false).
Proof.
  intros Hfew Hroom Hq Haw. pose proof (iter_ok s w timeout Hfew Hroom Hq) as Hi.
  destruct (poll_part_returns s w timeout Hfew Hroom Haw) as [[[[[[rc errno] pt] prio] s1] w1] E]. rewrite E in Hi.
  destruct (poll_part_state _ _ _ _ _ _ _ _ _ Hfew Hroom E) as (_ & _ & _ & Hw1).
  pose proof (dispatch_part_state prio errno s1 w1) as Hd.
  destruct (dispatch_part prio errno s1 w1) as [[[evs errno'] s'] w'] eqn:Ed.
  destruct Hi as ((rc' & e' & Hi & _) & Hroom' & _). destruct Hd as (_ & _ & _ & H4 & H5 & H6 & H7).
  exists rc, errno, pt, prio, s1, w1, evs, errno', s', w', rc', e'. split_and!; [done..| | |].
  - intros Hc timeout'. apply iter_returns; [done|done|]. right. destruct Hc as [Hc|Hc]; [|by left].
    right. right. left. by apply H5.
  - intros Hc. rewrite H4, Hw1 by done. split; [done|]. intros Hp. by apply H6.
  - intros He. by apply H7.
Qed.




(** The answer is 0 exactly for an error of poll that is not EINTR when the callbacks are done,
    and for the timeout of the caller. *)
Theorem poll_iter_result s w timeout rc errno pt prio s1 w1 :
  quit s = false → poll_part 32 s w timeout = Done (rc, errno, pt, prio, s1, w1) →
  let errno' := (dispatch_part prio errno s1 w1).1.1.2 in
  ∃ rc' e' s' w', z_poll_iter_timeout 32 s w timeout = Done (rc', e', s', w') ∧
    (rc' = 0 ∧ (rc = -1 ∧ e' = errno' ∧ errno' ≠ EINTR ∨ rc = 0 ∧ pt = timeout ∧ e' = ETIMEDOUT) ∨
     rc' = 1 ∧ (rc = -1 → errno' = EINTR) ∧ (rc = 0 → pt ≠ timeout)).
Proof.
  unfold z_poll_iter_timeout. intros -> ->. rewrite Done_bind.
  destruct (dispatch_part prio errno s1 w1) as [[[evs e] s'] w']. cbn.
  case_decide as H1; [eexists _, _, _, _; split; [reflexivity|left; naive_solver]|].
  case_decide as H2; eexists _, _, _, _; (split; [reflexivity|]); [left; naive_solver|right].
  split; [done|]. split; [|naive_solver]. intros ->. destruct (decide (e = EINTR)); [done|naive_solver].
Qed.
End spec.

(** More than 2^30 descriptors: room is made for ever, first for 2^31 and then for none. *)
Lemma grow_pollfd_stuck fuel : grow_pollfd fuel (2 ^ 30 + 1) (2 ^ 30) = Fault OutOfFuel.
Proof.
  assert (H0 : ∀ fuel, grow_pollfd fuel (2 ^ 30 + 1) 0 = Fault OutOfFuel) by (intros f; induction f as [|f IH]; [done|exact IH]).
  destruct fuel as [|[|fuel]]; [done|done|]. exact (H0 fuel).
Qed.

(** ** Runs *)
Module Runs.
(** What happens in the iterations to come: the highest priority of the other sources that are
    ready, what others call until poll returns, the answer of poll (none: it waits), what is
    called before and after the source of the ZPoll, and the errno that the callbacks leave. *)
Record turn := mkTurn {
  others : option Z; meanwhile : list call; answer : option (Z * Z);
  before : list call; after : list call; left_errno : option Z
}.
Definition no_turn : turn := mkTurn None [] None [] [] None.

Record main := mkMain { sig : bool; flagged : bool; turns : list turn }.
Definition now (w : main) : turn := default no_turn (head (turns w)).
Definition above (w : main) : bool := match others (now w) with Some p => p <? 0 | None => false end.

#[export] Instance script : MainContext main := {
  signalled := sig;
  own_ready := flagged;
  higher_ready := above;
  context_prepare := λ mine w,
    let own := flagged w || (mine.1 && negb (above w)) in
    (match others (now w) with Some p => if own then p `min` 0 else p | None => if own then 0 else G_MAXINT end,
     mkMain (sig w) own (turns w));
  context_query := λ prio w, (5, if prio <? G_MAXINT then 0 else -1);
  context_wakeup := λ w, mkMain true (flagged w) (turns w);
  arrivals := λ w, (meanwhile (now w), w);
  poll := λ prio t w,
    (if sig w && (0 <=? prio) then Some (1, 0)
     else match answer (now w) with Some r => Some r | None => if 0 <=? t then Some (0, 0) else None end, w);
  context_check := λ b prio w, (true, mkMain (if 0 <=? prio then false else sig w) (flagged w) (turns w));
  context_dispatch := λ e w,
    let own := flagged w && negb (above w) in
    ((EvCall <$> before (now w)) ++ (if own then [EvOwn] else []) ++ (EvCall <$> after (now w)),
     default e (left_errno (now w)), mkMain (sig w) (flagged w && above w) (tail (turns w)))
}.

#[export] Instance script_laws : MainContextLaws main.
Proof.
  split; try done.
  - intros prio t w Ht. cbn. destruct (sig w && (0 <=? prio)) eqn:E; [done|]. destruct (answer (now w)); [done|].
    destruct Ht as [Ht|[Hs Hp]]; [by rewrite (proj2 (Z.leb_le 0 t) Ht)|].
    cbn in Hs. rewrite Hs in E. cbn in E. apply Z.leb_gt in E. unfold G_PRIORITY_DEFAULT in Hp. lia.
  - intros prio b w Hp. cbn. by rewrite (proj2 (Z.leb_le 0 prio) Hp).
  - intros mine w Hr. cbn in *. unfold above, G_PRIORITY_DEFAULT.
    destruct (others (now w)) as [p|]; [destruct (Z.ltb_spec p 0)|];
      destruct (flagged w), (mine.1); cbn in *; try lia; by destruct Hr.
  - intros mine w Hp. cbn in *. by rewrite (proj2 (Z.ltb_lt _ _) Hp).
  - intros e w. cbn. rewrite !elem_of_app, !list_elem_of_fmap. intros [(c & [=] & _)|[He|(c & [=] & _)]].
    destruct (flagged w && negb (above w)) eqn:E; [|by apply not_elem_of_nil in He].
    apply andb_true_iff in E as [-> E]. by apply negb_true_iff in E as ->.
Qed.

Lemma script_fds : few_fds (W := main).
Proof. intros prio w. cbn. lia. Qed.

(** A loop that polls for ever, woken by another thread, then told to quit by a callback. *)
Definition busy : main := mkMain false false
  [mkTurn None [CallWakeup] None [] [] None; mkTurn None [] None [] [CallQuit] None].

Example busy_run : ∃ w, poll_loop 5 z_poll_new busy (-1) = Done (0, mkPoll 1 8 true true, w).
Proof. eexists. vm_compute. reflexivity. Qed.

(** Without the calls it waits for ever. *)
Example idle_run : poll_loop 5 z_poll_new (mkMain false false []) (-1) = Fault Blocked.
Proof. vm_compute. reflexivity. Qed.

Lemma wakeup_not_lost_witness :
  ∃ rc e s' w', z_poll_iter_timeout 32 z_poll_new busy (-1) = Done (rc, e, s', w') ∧
    (wakeup s' = true → ∀ timeout', ∃ r, z_poll_iter_timeout 32 s' w' timeout' = Done r).
Proof.
  destruct (wakeup_not_lost z_poll_new busy (-1) script_fds room_new eq_refl)
    as (rc & errno & pt & prio & s1 & w1 & evs & errno' & s' & w' & rc' & e' & _ & _ & Hi & Hn & _);
    [right; right; right; left; by vm_compute|].
  exists rc', e', s', w'. split; [done|]. intros Hw. apply Hn. by right.
Defined.


Lemma poll_iter_result_witness :
  let w := mkMain false false [] in
  ∃ rc errno pt prio s1 w1, poll_part 32 z_poll_new w 0 = Done (rc, errno, pt, prio, s1, w1) ∧
  ∃ rc' e' s' w', z_poll_iter_timeout 32 z_poll_new w 0 = Done (rc', e', s', w') ∧ rc' = 0.
Proof.
  eexists _, _, _, _, _, _. split; [vm_compute; reflexivity|].
  destruct (poll_iter_result (W := main) z_poll_new (mkMain false false []) 0 0 0 0 G_MAXINT (mkPoll 1 8 false false)
              (mkMain false false []) eq_refl ltac:(by vm_compute)) as (rc' & e' & s' & w' & Hi & Hr).
  exists rc', e', s', w'. split; [done|]. destruct Hr as [[-> _]|(_ & _ & Hr)]; [done|]. by destruct (Hr eq_refl).
Defined.

(** When the source of a stacked stream is ready, the flag stays set until the next iteration. *)
Example stacked_first :
  match z_poll_iter_timeout 32 (set_wakeup true z_poll_new) (mkMain true false [mkTurn (Some (-1)) [] None [] [] None]) (-1) with
  | Done (_, _, s', w') => wakeup s' = true ∧ signalled w' = true
  | Fault _ => False
  end.
Proof. vm_compute. done. Qed.

(** A loop that is woken, or whose sources are ready, is said to have timed out when it need not wait. *)
Example woken_timeout :
  z_poll_iter_timeout 32 (set_wakeup true z_poll_new) (mkMain false false []) 0
  = Done (0, ETIMEDOUT, mkPoll 1 8 false false, mkMain false false []).
Proof. vm_compute. done. Qed.

Example ready_timeout :
  z_poll_iter_timeout 32 z_poll_new (mkMain false false [mkTurn (Some 0) [] None [] [] None]) 0
  = Done (0, ETIMEDOUT, mkPoll 1 8 false false, mkMain false false []).
Proof. vm_compute. done. Qed.

(** A poll that was interrupted ends the loop when a callback leaves another errno. *)
Example errno_overwritten :
  z_poll_iter_timeout 32 z_poll_new (mkMain false false [mkTurn (Some 0) [] (Some (-1, EINTR)) [] [] (Some 11)]) (-1)
  = Done (0, 11, mkPoll 1 8 false false, mkMain false false []).
Proof. vm_compute. done. Qed.

(** A wakeup from a callback that runs before the source of the ZPoll leaves no flag, but the
    context is signalled: the next poll does not wait, and reports one descriptor. *)
Example flag_lost :
  match z_poll_iter_timeout 32 (set_wakeup true z_poll_new) (mkMain false false [mkTurn (Some 0) [] None [CallWakeup] [] None]) (-1) with
  | Done (_, _, s', w') => wakeup s' = false ∧ signalled w' = true ∧
      ∃ r, z_poll_iter_timeout 32 s' w' (-1) = Done r
  | Fault _ => False
  end.
Proof. vm_compute. split; [done|]. split; [done|]. by eexists. Qed.
End Runs.
