(* ===== verification/LogSend.v ===== *)
(** * Delivery of log messages (log.c)

    The text that goes to the system log, the connection to it, the redirection of the standard
    error, the settings, and the indentation of traces.  Which messages are
    logged is in Log.v.  Of the two ways to the system log this is the one of the code
    (HAVE_BUGGY_SYSLOG_IN_LIBC); the other calls the C library. *)

From S2P Require Import Prelude CLib Process Log.
From stdpp Require Import gmap.
Open Scope Z_scope.

(** ** The text *)
Definition BUF_SIZE : Z := 8192.

(** g_snprintf and g_strlcat leave room for the zero. *)
Definition snprintf_size (size : Z) (l : list Z) : list Z := take (Z.to_nat (size - 1)) l.
Definition g_strlcat (buf l : list Z) (size : Z) : list Z :=
  if decide (size ≤ zlen buf) then buf else take (Z.to_nat (size - 1)) (buf ++ l).

Definition escaped (c : Z) : list Z :=
  if decide (0x20 ≤ c ∧ c ≤ 0x7F) then [c] else [chr "<"] ++ hex2 c ++ [chr ">"].

Fixpoint escape_loop (buf msg : list Z) : list Z :=
  match msg with
  | [] => buf
  | c :: msg => if decide (zlen buf < BUF_SIZE - 5) then escape_loop (buf ++ escaped c) msg else buf
  end.

Definition message_header (pri : Z) (timestamp tag : list Z) (pid : Z) : list Z :=
  str "<" ++ print_int pri ++ str ">" ++ timestamp ++ str " " ++ tag ++ str "[" ++ print_int pid ++ str "]: ".

(** The bytes that are written: the buffer and a newline; the zero behind it must fit. *)
Definition format_message (log_escape_nonprintable_chars : bool) (header msg : list Z) : outcome (list Z) :=
  let buf := snprintf_size BUF_SIZE header in
  let buf := if log_escape_nonprintable_chars then escape_loop buf msg else g_strlcat buf msg (BUF_SIZE - 1) in
  _ ← require (zlen buf + 1 < BUF_SIZE) OutOfBounds;
  Done (buf ++ [10]).

(** ** The connection

    The calls of the system, the latest first; [answer] says how each is answered: the
    result and errno. *)
Inductive syscall :=
| SysSocket (stream : bool)
| SysConnect (fd : Z)
| SysClose (fd : Z)
| SysWrite (fd : Z) (buf : list Z).

Record log_conn := mkConn { syslog_tag : list Z; syslog_fd : Z }.

Definition EINTR : Z := 4.
Definition EAGAIN : Z := 11.

Section syslog.
Context (answer : list syscall → syscall → Z * Z).

Definition z_open_syslog (tag : list Z) (t : list syscall) : bool * log_conn * list syscall :=
  let fd := (answer t (SysSocket true)).1 in
  let t := SysSocket true :: t in
  if decide (fd = -1) then (false, mkConn tag fd, t)
  else
    let rc := (answer t (SysConnect fd)).1 in
    let t := SysConnect fd :: t in
    if decide (rc = -1) then
      let t := SysClose fd :: t in
      let fd := (answer t (SysSocket false)).1 in
      let t := SysSocket false :: t in
      let rc := (answer t (SysConnect fd)).1 in
      let t := SysConnect fd :: t in
      if decide (rc = -1) then (false, mkConn tag (-1), SysClose fd :: t) else (true, mkConn tag fd, t)
    else (true, mkConn tag fd, t).

Definition z_close_syslog_internal (fd : Z) (t : list syscall) : bool * list syscall :=
  if decide (fd ≠ -1) then (true, SysClose fd :: t) else (false, t).

Definition z_close_syslog (c : log_conn) (t : list syscall) : bool * list syscall := z_close_syslog_internal (syslog_fd c) t.

(** The do loop: [attempts] is the number of rounds that are left. *)
Fixpoint send_loop (attempts : nat) (buf : list Z) (sfd rc : Z) (c : log_conn) (t : list syscall) : log_conn * list syscall :=
  match attempts with
  | O => (c, t)
  | S attempts =>
      let '(rc, errno, t) :=
        if decide (sfd ≠ -1) then let a := answer t (SysWrite sfd buf) in (a.1, a.2, SysWrite sfd buf :: t) else (rc, 0, t) in
      let '(sfd, c, t) :=
        if decide (sfd = -1 ∨ (rc = -1 ∧ errno ≠ EINTR ∧ errno ≠ EAGAIN)) then
          let '(c, t) :=
            if decide (sfd = syslog_fd c) then
              let '(_, c, t) := z_open_syslog (syslog_tag c) t in (c, (z_close_syslog_internal sfd t).2)
            else (c, t) in
          (syslog_fd c, c, t)
        else (sfd, c, t) in
      if decide (rc = -1) then send_loop attempts buf sfd rc c t else (c, t)
  end.

(** [timestamp]: what strftime prints.  The answer is TRUE. *)
Definition z_send_syslog (escape : bool) (timestamp : list Z) (pid : Z) (pri : Z) (msg : list Z) (c : log_conn) (t : list syscall)
    : outcome (bool * log_conn * list syscall) :=
  buf ← format_message escape (message_header pri timestamp (syslog_tag c) pid) msg;
  let '(c, t) := send_loop 2 buf (syslog_fd c) 0 c t in Done (true, c, t).
End syslog.

(** ** What is logged *)
Definition LOG_ERR : Z := 3.
Definition LOG_WARNING : Z := 4.
Definition LOG_INFO : Z := 6.
Definition LOG_DEBUG : Z := 7.
Definition ZORP_SYSLOG_FACILITY : Z := 22 * 8.
Definition G_LOG_LEVEL_ERROR : Z := 4.
Definition G_LOG_LEVEL_CRITICAL : Z := 8.
Definition G_LOG_LEVEL_WARNING : Z := 16.
Definition G_LOG_LEVEL_MESSAGE : Z := 32.
Definition G_LOG_LEVEL_INFO : Z := 64.
Definition G_LOG_LEVEL_DEBUG : Z := 128.

(** The priority that z_log_func gives to a message. *)
Definition z_log_func (log_flags : Z) : Z :=
  let pri := if negb (Z.land log_flags G_LOG_LEVEL_DEBUG =? 0) then LOG_DEBUG
             else if negb (Z.land log_flags G_LOG_LEVEL_WARNING =? 0) then LOG_WARNING
             else if negb (Z.land log_flags G_LOG_LEVEL_ERROR =? 0) then LOG_ERR
             else LOG_INFO in
  Z.lor pri ZORP_SYSLOG_FACILITY.

(** [text] is what the format prints. *)
Definition z_logv (log_tags : bool) (class : list Z) (level : Z) (text : list Z) : list Z :=
  if log_tags then class ++ str "(" ++ print_int level ++ str "): " ++ text else text.

(** [thread_name]: that of the current thread, if it is one of the library. *)
Definition z_log_session_id (thread_name : option (list Z)) (session_id : option (list Z)) : list Z :=
  match session_id with
  | Some (c :: s) => c :: s
  | _ => default (str "nosession") thread_name
  end.

(** ** The standard error *)
Inductive line_status := LineNormal (line : list Z) | LineAgain | LineEof | LineError (msg : option (list Z)).

(** Whether the source stays, and the message and its level, if any. *)
Definition z_fetch_stderr (st : line_status) : bool * option (Z * list Z) :=
  match st with
  | LineNormal line => (true, Some (3, line))
  | LineAgain => (true, None)
  | LineEof => (false, Some (4, str "The program closed its stderr. No further stderr logging is possible."))
  | LineError msg => (false, Some (3, str "Can not read from stderr; result='" ++ default (str "Unknown error") msg ++ str "'"))
  end.

(** Where the source of the pipe went. *)
Inductive stderr_reader := NoReader | ReaderThread | ReaderSource (attached : bool).

Definition has_reader (r : stderr_reader) : bool := match r with ReaderThread | ReaderSource true => true | _ => false end.

(** Whether 1 and 2 are the pipe now, and who reads it. *)
Definition z_log_enable_stderr_redirect (pipe_ok thread_ok threaded : bool) : bool * stderr_reader :=
  if pipe_ok then
    if threaded && thread_ok then (true, ReaderThread) else (true, ReaderSource false)
  else (false, NoReader).

(** ** Settings *)
Record ZLogOpts := mkLogOpts { o_verbose_level : Z; o_use_syslog : Z; o_log_tags : Z; o_log_spec : option (list Z) }.

Definition Z_EXTREMAL_BOOLEAN : Z := 7 * 1 + 1.

Definition log_opts_initial : ZLogOpts := mkLogOpts 0 0 0 None.

(** z_log_add_option_group resets the ones of the command line. *)
Definition log_opts_cmdline_initial : ZLogOpts := mkLogOpts (-1) Z_EXTREMAL_BOOLEAN Z_EXTREMAL_BOOLEAN None.

Definition z_log_set_defaults (verbose_level use_syslog log_tags : Z) (spec : option (list Z)) : ZLogOpts := mkLogOpts verbose_level use_syslog log_tags spec.
Definition z_log_set_use_syslog (use_syslog : Z) (o : ZLogOpts) : ZLogOpts := mkLogOpts (o_verbose_level o) use_syslog (o_log_tags o) (o_log_spec o).

Definition z_log_get_verbose_level (o cmdline : ZLogOpts) : Z := if decide (o_verbose_level cmdline = -1) then o_verbose_level o else o_verbose_level cmdline.
Definition z_log_get_use_syslog (o cmdline : ZLogOpts) : Z := if decide (o_use_syslog cmdline = Z_EXTREMAL_BOOLEAN) then o_use_syslog o else o_use_syslog cmdline.
Definition z_log_get_log_tags (o cmdline : ZLogOpts) : Z := if decide (o_log_tags cmdline = Z_EXTREMAL_BOOLEAN) then o_log_tags o else o_log_tags cmdline.
Definition z_log_get_log_spec (o cmdline : ZLogOpts) : option (list Z) := match o_log_spec cmdline with None => o_log_spec o | Some s => Some s end.

Definition ZLF_THREAD : Z := 4.
Definition ZLF_STDERR : Z := 8.
Definition ZLF_ESCAPE : Z := 0x20.

(** What z_log_init sets up: the state of Log.v, where the messages go, who reads the standard
    error, and the connection to the system log. *)
Record logging := mkLogging { core : log_state; tags : bool; to_syslog : option log_conn; stderr_to : stderr_reader; escape_chars : bool }.

Section init.
Context (answer : list syscall → syscall → Z * Z).

Definition z_log_enable_syslog (syslog_name : list Z) (t : list syscall) : log_conn * list syscall :=
  let '(_, c, t) := z_open_syslog answer syslog_name t in (c, t).

(** [None] is FALSE.  The thread that calls it is [thread]. *)
Definition z_log_init (syslog_name : list Z) (flags : Z) (o cmdline : ZLogOpts) (pipe_ok thread_ok : bool) (thread : Z) (t : list syscall)
    : outcome (option logging * list syscall) :=
  '(ok, spec) ← z_log_spec_init (z_log_get_log_spec o cmdline) (z_log_get_verbose_level o cmdline);
  if negb ok then Done (None, t)
  else
    let st := z_log_grab_cache (mkLog spec (z_log_get_log_spec o cmdline) [] ∅ None []) thread in
    let tags := negb (z_log_get_log_tags o cmdline =? 0) in
    let esc := negb (Z.land flags ZLF_ESCAPE =? 0) in
    if negb (z_log_get_use_syslog o cmdline =? 0) then
      let '(c, t) := z_log_enable_syslog syslog_name t in
      let r := if negb (Z.land flags ZLF_STDERR =? 0)
               then (z_log_enable_stderr_redirect pipe_ok thread_ok (negb (Z.land flags ZLF_THREAD =? 0))).2 else NoReader in
      Done (Some (mkLogging st tags (Some c) r esc), t)
    else Done (Some (mkLogging st tags None NoReader esc), t).
End init.

(** ** Traces *)

(** The indentation of the thread, 128 spaces at most: the number of spaces, and the new indentation. *)
Definition z_log_trace_indent (dir current_indent : Z) : outcome (Z * Z) :=
  if decide (0 < dir) then
    Done (current_indent, if decide (current_indent < 128 - dir) then current_indent + dir else current_indent)
  else
    _ ← require (- 2 ^ 31 < dir) SignedOverflow;
    let cur := if decide (- dir ≤ current_indent) then current_indent + dir else current_indent in
    Done (cur, cur).

(** ** What holds *)

Lemma escaped_length c : (length (escaped c) ≤ 4)%nat ∧ (1 ≤ length (escaped c))%nat.
Proof. unfold escaped. case_decide; cbn [length app hex2]; lia. Qed.

(** Bytes that a terminal shows, and DEL. *)
Definition shown (c : Z) : Prop := 0x20 ≤ c ≤ 0x7F.

Lemma escaped_shown c : is_byte c → Forall shown (escaped c).
Proof.
  unfold is_byte, escaped, shown. intros Hc. case_decide; [by apply Forall_singleton|]. assert (0 ≤ c / 16 < 16) by (split; [apply Z.div_pos|apply Z.div_lt_upper_bound]; lia).
  assert (0 ≤ c mod 16 < 16) by (apply Z.mod_pos_bound; lia). unfold hex2.
  assert (Hd : ∀ d, 0 ≤ d < 16 → 32 ≤ hexdigit d ≤ 127) by (intros d ?; unfold hexdigit; case_decide; lia).
  assert (Hb : 32 ≤ chr "<" ≤ 127 ∧ 32 ≤ chr ">" ≤ 127) by (by vm_compute).
  cbn [app]. rewrite !Forall_cons, Forall_nil. split_and!; solve [done|by apply Hd|apply Hb].
Qed.

(** The escaped message: the characters that are taken while there is room for one more. *)
Lemma escape_loop_spec msg : ∀ buf, zlen buf ≤ BUF_SIZE - 2 →
  ∃ k, (k ≤ length msg)%nat ∧ escape_loop buf msg = buf ++ concat (escaped <$> take k msg) ∧
  zlen (escape_loop buf msg) ≤ BUF_SIZE - 2 ∧
  (k = length msg ∨ BUF_SIZE - 5 ≤ zlen (escape_loop buf msg)) ∧
  (∀ j, (j < k)%nat → zlen buf + zlen (concat (escaped <$> take j msg)) < BUF_SIZE - 5).
Proof.
  unfold BUF_SIZE. induction msg as [|c msg IH]; intros buf Hb; cbn [escape_loop].
  - exists O. cbn. rewrite app_nil_r. split_and!; [lia|done|lia|by left|lia].
  - destruct (escaped_length c) as [Hc Hc1]. unfold BUF_SIZE. case_decide as Hd.
    + destruct (IH (buf ++ escaped c)) as (k & H0 & H1 & H2 & H3 & H4); [rewrite length_app; lia|].
      exists (S k). cbn [take length]. rewrite fmap_cons. cbn [concat]. split_and!; [lia|by rewrite H1, <- app_assoc|done|destruct H3; [left; lia|by right]|].
      intros [|j] Hj; [cbn; lia|]. cbn [take]. rewrite fmap_cons. cbn [concat]. specialize (H4 j ltac:(lia)).
      rewrite length_app in H4 |- *. lia.
    + exists O. cbn [take fmap list_fmap concat length]. rewrite app_nil_r. split_and!; [lia|done|lia|right; lia|lia].
Qed.

(** C36: A message with a header that fits is never written behind the buffer.  What is written is
    the header, the message and a newline: without escaping the message up to 8190 bytes with
    the header, cut there; with escaping the escapes of its characters, all of them or as many
    as it takes to reach 8187 bytes with the header, and only characters that a terminal
    shows.  A header that fills the buffer is written behind it. *)
Theorem format_message_spec escape header msg :
  Forall is_byte msg →
  (zlen header ≤ 8190 → ∃ body, format_message escape header msg = Done (header ++ body ++ [10]) ∧ zlen (header ++ body ++ [10]) < BUF_SIZE ∧
     match escape with
     | false => body = take (Z.to_nat (8190 - zlen header)) msg
     | true => Forall shown body ∧ ∃ k, (k ≤ length msg)%nat ∧ body = concat (escaped <$> take k msg) ∧
         (k = length msg ∨ 8187 ≤ zlen header + zlen body) ∧
         (∀ j, (j < k)%nat → zlen header + zlen (concat (escaped <$> take j msg)) < 8187)
     end) ∧
  (8191 ≤ zlen header → format_message escape header msg = Fault OutOfBounds).
Proof.
  intros Hmsg. unfold format_message, snprintf_size. split.
  - intros Hh. assert (Hb : take (Z.to_nat (BUF_SIZE - 1)) header = header) by (apply take_ge; unfold BUF_SIZE; lia). rewrite Hb. destruct escape.
    + destruct (escape_loop_spec msg header) as (k & H0 & H1 & H2 & H3 & H4); [unfold BUF_SIZE; lia|]. rewrite require_true by (unfold BUF_SIZE in *; lia).
      rewrite Done_bind, H1. exists (concat (escaped <$> take k msg)). rewrite <- app_assoc. split; [done|]. rewrite H1 in H2, H3. split.
      * rewrite !length_app in *. cbn [length]. unfold BUF_SIZE in *. lia.
      * split; [apply Forall_concat, Forall_fmap, Forall_take; eapply Forall_impl; [done|]; intros c; apply escaped_shown|].
        exists k. split_and!; [done|done| |done]. rewrite length_app in H3. unfold BUF_SIZE in H3. destruct H3; [by left|right; lia].
    + unfold g_strlcat. rewrite decide_False by (unfold BUF_SIZE; lia). rewrite take_app. rewrite take_ge by (unfold BUF_SIZE; lia).
      replace (Z.to_nat (BUF_SIZE - 1 - 1) - length header)%nat with (Z.to_nat (8190 - zlen header)) by (unfold BUF_SIZE; lia).
      set (body := take _ msg). assert (Hl : zlen header + zlen body ≤ 8190) by (unfold body; rewrite length_take; unfold BUF_SIZE; lia).
      rewrite require_true by (rewrite length_app; unfold BUF_SIZE; lia). rewrite Done_bind. exists body. rewrite <- app_assoc. split; [done|]. split; [|done].
      rewrite !length_app. cbn [length]. unfold BUF_SIZE. lia.
  - intros Hh. assert (Hl : zlen (take (Z.to_nat (BUF_SIZE - 1)) header) = 8191) by (rewrite length_take; unfold BUF_SIZE; lia).
    set (buf := take _ header) in *. assert (Hf : zlen (if escape then escape_loop buf msg else g_strlcat buf msg (BUF_SIZE - 1)) = 8191).
    { destruct escape.
      - destruct msg as [|c msg]; cbn [escape_loop]; [done|]. by rewrite decide_False by (unfold BUF_SIZE; lia).
      - unfold g_strlcat. by rewrite decide_True by (unfold BUF_SIZE; lia). }
    unfold require. by rewrite decide_False by (rewrite Hf; unfold BUF_SIZE; lia).
Qed.

Section delivery.
Context (answer : list syscall → syscall → Z * Z).

(** The writes among the calls. *)
Definition writes (t : list syscall) : list (Z * list Z) := omap (λ c, match c with SysWrite fd b => Some (fd, b) | _ => None end) t.

(** Opening and closing write nothing. *)
Lemma open_writes tag t : ∃ new, (z_open_syslog answer tag t).2 = new ++ t ∧ writes new = [].
Proof.
  unfold z_open_syslog. case_decide; [by exists [SysSocket true]|]. case_decide; [|by exists [SysConnect (answer t (SysSocket true)).1; SysSocket true]].
  case_decide; [by eexists [SysClose _; SysConnect _; SysSocket false; SysClose _; SysConnect _; SysSocket true]|
                by eexists [SysConnect _; SysSocket false; SysClose _; SysConnect _; SysSocket true]].
Qed.

Lemma close_writes fd t : ∃ new, (z_close_syslog_internal fd t).2 = new ++ t ∧ writes new = [].
Proof. unfold z_close_syslog_internal. case_decide; [by exists [SysClose fd]|by exists []]. Qed.

Lemma writes_app t t' : writes (t ++ t') = writes t ++ writes t'.
Proof. unfold writes. induction t as [|c t IH]; cbn; [done|]. destruct c; cbn; by rewrite IH. Qed.

Lemma reopened_writes sfd c t :
  let '(c', t') := (if decide (sfd = syslog_fd c) then let '(_, c, t) := z_open_syslog answer (syslog_tag c) t in (c, (z_close_syslog_internal sfd t).2) else (c, t)) in
  ∃ new, t' = new ++ t ∧ writes new = [].
Proof.
  case_decide; [|by exists []]. destruct (open_writes (syslog_tag c) t) as (n1 & H1 & H2).
  destruct (z_open_syslog answer (syslog_tag c) t) as [[ok c1] t1]. cbn [snd] in H1. subst t1.
  destruct (close_writes sfd (n1 ++ t)) as (n2 & H3 & H4). exists (n2 ++ n1). by rewrite H3, app_assoc, writes_app, H2, H4.
Qed.

(** A round on a descriptor writes the message once, a round without writes nothing. *)
Lemma send_loop_writes attempts : ∀ buf sfd rc c t,
  ∃ new, (send_loop answer attempts buf sfd rc c t).2 = new ++ t ∧ Forall (λ w, w.2 = buf) (writes new) ∧ (length (writes new) ≤ attempts)%nat.
Proof.
  induction attempts as [|n IH]; intros buf sfd rc c t; cbn [send_loop];
    [exists []; split; [done|split; [constructor|cbn; lia]]|].
  set (r := if decide (sfd ≠ -1) then _ else _).
  assert (Hr : ∃ n1, r.2 = n1 ++ t ∧ Forall (λ w, w.2 = buf) (writes n1) ∧ (length (writes n1) ≤ 1)%nat).
  { unfold r. case_decide; [exists [SysWrite sfd buf]; split; [done|split; [by apply Forall_singleton|cbn; lia]]|exists []; split; [done|split; [constructor|cbn; lia]]]. }
  destruct r as [[rc1 errno] t1]. cbn [snd] in Hr. destruct Hr as (n1 & -> & Hf1 & Hl1).
  set (q := if decide (sfd = -1 ∨ _) then _ else _).
  assert (Hq : ∃ n2, q.2 = n2 ++ n1 ++ t ∧ writes n2 = []).
  { unfold q. case_decide; [|by exists []]. pose proof (reopened_writes sfd c (n1 ++ t)) as Hw.
    destruct (if decide (sfd = syslog_fd c) then _ else _) as [c' t']. destruct Hw as (n2 & -> & Hw2). by exists n2. }
  destruct q as [[sfd1 c1] t1]. cbn [snd] in Hq. destruct Hq as (n2 & -> & Hw2).
  case_decide; [|cbn [snd]; exists (n2 ++ n1); rewrite writes_app, Hw2, app_assoc; split; [done|split; [done|cbn; lia]]].
  destruct (IH buf sfd1 rc1 c1 (n2 ++ n1 ++ t)) as (n3 & -> & Hf3 & Hl3). exists (n3 ++ n2 ++ n1).
  rewrite !writes_app, Hw2, !app_assoc, <- !app_assoc. split; [done|]. split; [by apply Forall_app|]. rewrite length_app. cbn. lia.
Qed.

(** A message is written at most twice; once, when the connection takes it, which is then kept; and over a connection that is
    not open it is not written at all, although one is opened. *)
Theorem send_spec escape timestamp pid pri msg c t ok c' t' :
  z_send_syslog answer escape timestamp pid pri msg c t = Done (ok, c', t') →
  ∃ buf new, format_message escape (message_header pri timestamp (syslog_tag c) pid) msg = Done buf ∧ ok = true ∧ t' = new ++ t ∧
    Forall (λ w, w.2 = buf) (writes new) ∧ (length (writes new) ≤ 2)%nat ∧
    (syslog_fd c ≠ -1 → (answer t (SysWrite (syslog_fd c) buf)).1 ≠ -1 → new = [SysWrite (syslog_fd c) buf] ∧ c' = c) ∧
    (syslog_fd c = -1 → writes new = []).
Proof.
  unfold z_send_syslog. destruct (format_message _ _ _) as [buf|f]; [rewrite Done_bind|done].
  destruct (send_loop_writes 2 buf (syslog_fd c) 0 c t) as (new & Hn & Hf & Hl). destruct (send_loop _ _ _ _ _ _ _) as [c1 t1] eqn:E.
  cbn [snd] in Hn. intros [= <- <- <-]. exists buf, new. split_and!; [done|done|done|done|done| |].
  - intros Hfd Ha. cbn [send_loop] in E. rewrite decide_True in E by done. rewrite decide_False in E by (intros [?|[? _]]; done).
    rewrite decide_False in E by done. injection E as <- <-. change (SysWrite (syslog_fd c) buf :: t) with ([SysWrite (syslog_fd c) buf] ++ t) in Hn.
    by apply app_inv_tail in Hn as <-.
  - intros Hfd. cbn [send_loop] in E. rewrite decide_False in E by (by intros ?). rewrite decide_True in E by by left.
    pose proof (reopened_writes (syslog_fd c) c t) as Hw. destruct (if decide (syslog_fd c = syslog_fd c) then _ else _) as [c2 t2].
    rewrite decide_False in E by done. injection E as <- <-. destruct Hw as (n & H1 & H2). rewrite H1 in Hn. by apply app_inv_tail in Hn as <-.
Qed.

(** Logging is set up by the settings of the command line where there are any, and by the defaults elsewhere: the
    thread gets a cache of its own, nothing is remembered wrongly, and a logspec that cannot be read is refused. *)
Theorem log_init_spec name flags o cmdline pipe_ok thread_ok thread t :
  ∃ r t', z_log_init answer name flags o cmdline pipe_ok thread_ok thread t = Done (r, t') ∧
  match r with
  | None => fst <$> z_log_spec_init (z_log_get_log_spec o cmdline) (z_log_get_verbose_level o cmdline) = Done false
  | Some lg =>
      coherent (core lg) ∧ exclusive (core lg) {[thread]} ∧ verbose_level (log_spec (core lg)) = z_log_get_verbose_level o cmdline ∧
      z_log_spec_init (z_log_get_log_spec o cmdline) (z_log_get_verbose_level o cmdline) = Done (true, log_spec (core lg)) ∧
      (is_Some (to_syslog lg) ↔ z_log_get_use_syslog o cmdline ≠ 0) ∧ (tags lg = true ↔ z_log_get_log_tags o cmdline ≠ 0)
  end.
Proof.
  unfold z_log_init. set (sp := z_log_get_log_spec o cmdline). set (v := z_log_get_verbose_level o cmdline).
  assert (Hs : ∃ ok spec, z_log_spec_init sp v = Done (ok, spec) ∧ verbose_level spec = v).
  { unfold z_log_spec_init. destruct (spec_loop_ends (length (default [] sp)) (default [] sp) [] ltac:(done)) as [r Hr].
    rewrite Hr, Done_bind. by destruct r; eexists _, _. }
  destruct Hs as (ok & spec & Hs & Hv). rewrite Hs, Done_bind. destruct ok; cbn [negb]; [|exists None, t; by split].
  assert (Hlg : ∀ lg, core lg = z_log_grab_cache (mkLog spec sp [] ∅ None []) thread → tags lg = negb (z_log_get_log_tags o cmdline =? 0) →
    (is_Some (to_syslog lg) ↔ z_log_get_use_syslog o cmdline ≠ 0) →
    coherent (core lg) ∧ exclusive (core lg) {[thread]} ∧ verbose_level (log_spec (core lg)) = v ∧ Done (true, spec) = Done (true, log_spec (core lg)) ∧
    (is_Some (to_syslog lg) ↔ z_log_get_use_syslog o cmdline ≠ 0) ∧ (tags lg = true ↔ z_log_get_log_tags o cmdline ≠ 0)).
  { intros lg -> -> Hto. cbn. split_and!; [|..|done|].
    - split; cbn; [by repeat constructor|done|]. intros th i. rewrite lookup_insert, lookup_empty. case_decide; [intros [= <-]; lia|done].
    - intros th ->%elem_of_singleton. exists O, (mkCache false true ∅). cbn. rewrite lookup_insert, decide_True by done.
      split_and!; [done..|]. by intros th' ->%elem_of_singleton.
    - done.
    - done.
    - destruct (Z.eqb_spec (z_log_get_log_tags o cmdline) 0); cbn; naive_solver. }
  destruct (Z.eqb_spec (z_log_get_use_syslog o cmdline) 0) as [Hu|Hu]; cbn [negb].
  - eexists (Some _), t. split; [reflexivity|]. apply Hlg; [done|done|]. cbn. split; [by intros [? ?]|done].
  - unfold z_log_enable_syslog. destruct (z_open_syslog _ _ _) as [[ok c] t1]. eexists (Some _), t1. split; [reflexivity|]. apply Hlg; [done|done|]. cbn. split; [done|by eexists].
Qed.
End delivery.

(** ** Indentation *)

(** The calls of a thread. *)
Fixpoint indents (cur : Z) (dirs : list Z) : outcome (list Z * Z) :=
  match dirs with
  | [] => Done ([], cur)
  | d :: dirs => '(n, cur) ← z_log_trace_indent d cur; '(ns, cur) ← indents cur dirs; Done (n :: ns, cur)
  end.

(** The depth stays between 0 and 127. *)
Fixpoint shallow (depth : Z) (dirs : list Z) : Prop :=
  0 ≤ depth < 128 ∧ match dirs with [] => True | d :: dirs => shallow (depth + d) dirs end.

(** The indentation is always within the 128 spaces, and is the depth of the calls as long
    as that stays between 0 and 127. *)
Theorem trace_indent_spec dirs cur :
  0 ≤ cur < 128 → Forall (λ d, - 2 ^ 31 < d) dirs →
  returns (indents cur dirs) (λ '(ns, cur'), Forall (λ n, 0 ≤ n < 128) ns ∧ 0 ≤ cur' < 128 ∧ (shallow cur dirs → cur' = cur + foldr Z.add 0 dirs)).
Proof.
  intros Hcur Hdirs. revert cur Hcur. induction Hdirs as [|d dirs Hd _ IH]; intros cur Hcur; cbn [indents].
  - cbn. split; [constructor|]. split; [done|lia].
  - assert (Hstep : ∃ n cur', z_log_trace_indent d cur = Done (n, cur') ∧ 0 ≤ n < 128 ∧ 0 ≤ cur' < 128 ∧ (0 ≤ cur + d < 128 → cur' = cur + d)).
    { unfold z_log_trace_indent. case_decide; [|rewrite require_true, Done_bind by done]; eexists _, _; (split; [reflexivity|]); case_decide; lia. }
    destruct Hstep as (n & cur1 & -> & Hn & Hc1 & Hsh). rewrite Done_bind. apply returns_bind.
    eapply returns_mono; [by apply IH|]. intros [ns cur2] (H1 & H2 & H3). cbn. split; [by apply Forall_cons|]. split; [done|].
    intros [_ Hs]. assert (Hr : 0 ≤ cur + d < 128) by (destruct dirs; apply Hs). rewrite (Hsh Hr) in H3. rewrite H3 by done. lia.
Qed.

(** ** Runs *)
Module Runs.
Definition header : list Z := message_header (LOG_INFO + ZORP_SYSLOG_FACILITY) (str "Jan  1 00:00:00") (str "zorp") 42.

Example formatted : format_message true header (str "a" ++ [10]) = Done (str "<182>Jan  1 00:00:00 zorp[42]: a<0A>" ++ [10]).
Proof. vm_compute. done. Qed.

Lemma format_message_spec_witness : ∃ body, format_message false header (str "hello") = Done (header ++ body ++ [10]) ∧ body = str "hello".
Proof.
  destruct (format_message_spec false header (str "hello")) as [H _]; [repeat constructor; done|].
  destruct H as (body & H1 & _ & H2); [by vm_compute|]. exists body. split; [done|]. rewrite H2. by vm_compute.
Defined.

(** A name of the program that fills the buffer. *)
Example long_tag : format_message true (message_header 182 (str "Jan  1 00:00:00") (replicate 8192 65) 42) (str "hello") = Fault OutOfBounds.
Proof. vm_compute. done. Qed.

(** Two messages that are the same when escaped; and DEL is not escaped. *)
Example same_escape : concat (escaped <$> [1]) = concat (escaped <$> str "<01>") ∧ escaped 127 = [127].
Proof. by vm_compute. Qed.

(** Descriptors count from 3; writes to 3 fail, or all are told to try again, or all is well. *)
Definition numbered (t : list syscall) : Z := 3 + Z.of_nat (length (omap (λ c, match c with SysSocket b => Some b | _ => None end) t)).
Definition broken (t : list syscall) (c : syscall) : Z * Z :=
  match c with SysSocket _ => (1 + numbered t, 0) | SysWrite 3 _ => (-1, 32) | SysWrite _ b => (zlen b, 0) | _ => (0, 0) end.
Definition busy (t : list syscall) (c : syscall) : Z * Z := match c with SysSocket _ => (numbered t, 0) | SysWrite _ _ => (-1, EAGAIN) | _ => (0, 0) end.
Definition fine (t : list syscall) (c : syscall) : Z * Z := match c with SysSocket _ => (numbered t, 0) | SysWrite _ b => (zlen b, 0) | _ => (0, 0) end.

Definition hello : list Z := header ++ str "hello" ++ [10].
Definition send (answer : list syscall → syscall → Z * Z) (fd : Z) : outcome (bool * log_conn * list syscall) :=
  z_send_syslog answer false (str "Jan  1 00:00:00") 42 182 (str "hello") (mkConn (str "zorp") fd) [].

Lemma send_spec_witness : (send fine 3) = Done (true, mkConn (str "zorp") 3, [SysWrite 3 hello]).
Proof.
  destruct (send fine 3) as [[[ok c'] t']|f] eqn:E; [|by vm_compute in E].
  destruct (send_spec fine false (str "Jan  1 00:00:00") 42 182 (str "hello") (mkConn (str "zorp") 3) [] ok c' t' E) as (buf & new & Hb & -> & -> & _ & _ & H & _).
  assert (Hbuf : buf = hello) by (vm_compute in Hb; injection Hb as <-; by vm_compute). subst buf.
  destruct H as [-> ->]; [done|by vm_compute|]. by rewrite app_nil_r.
Defined.

(** After a failure the message is sent again over a new connection. *)
Example resent : (send broken 3) = Done (true, mkConn (str "zorp") 4, [SysWrite 4 hello; SysClose 3; SysConnect 4; SysSocket true; SysWrite 3 hello]).
Proof. vm_compute. done. Qed.

(** When there is no connection one is opened, but the message is not sent over it. *)
Example lost : (send fine (-1)) = Done (true, mkConn (str "zorp") 3, [SysConnect 3; SysSocket true]).
Proof. vm_compute. done. Qed.

(** A message that cannot be taken now is lost after the second attempt; the answer is TRUE. *)
Example lost_busy : (send busy 3) = Done (true, mkConn (str "zorp") 3, [SysWrite 3 hello; SysWrite 3 hello]).
Proof. vm_compute. done. Qed.

(** Critical messages are of the priority of information. *)
Example critical_is_info : z_log_func G_LOG_LEVEL_CRITICAL = z_log_func G_LOG_LEVEL_INFO.
Proof. done. Qed.

(** Without a thread nobody reads what is written to the standard error. *)
Example unread_stderr : z_log_enable_stderr_redirect true true false = (true, ReaderSource false) ∧ has_reader (ReaderSource false) = false.
Proof. done. Qed.

(** A verbosity of -1 on the command line is not seen. *)
Example verbosity_unseen : z_log_get_verbose_level (z_log_set_defaults 3 0 0 None) (mkLogOpts (-1) Z_EXTREMAL_BOOLEAN Z_EXTREMAL_BOOLEAN None) = 3.
Proof. done. Qed.

Lemma trace_indent_spec_witness : returns (indents 0 [1; 1; -1; -1]) (λ '(ns, cur), cur = 0).
Proof.
  eapply returns_mono; [apply (trace_indent_spec [1; 1; -1; -1] 0); [lia|repeat constructor; lia]|].
  intros [ns cur] (_ & _ & H). rewrite H; [done|]. repeat split; lia.
Defined.

(** Behind 127 levels the indentation comes back to less than it was. *)
Example too_deep : (indents 0 (replicate 130 1 ++ replicate 127 (-1))) ≫= (λ '(_, cur), Done cur) = Done 0.
Proof. vm_compute. done. Qed.
End Runs.
