(* ===== verification/Io.v ===== *)
(** * Settings of descriptors (io.c)

    The modes of a descriptor and its type of service, over the answers of the system
    calls: a call that is refused leaves everything as it was. *)

From S2P Require Import Prelude Socket.
From stdpp Require Import gmap.
Open Scope Z_scope.

Definition O_NONBLOCK : Z := 2048.
Definition SOL_IP : Z := 0.
Definition IP_TOS : Z := 1.

(** The flags and the options of a descriptor in the kernel; [received] are the control messages of the
    packets that have arrived: level, type, first byte. *)
Record fd_state := mkFd {
  fd_flags : Z;
  so_keepalive : Z;
  so_oobinline : Z;
  ip_tos : Z;
  received : list (Z * Z * Z)
}.

Definition with_flags (n : Z) (s : fd_state) : fd_state := mkFd n (so_keepalive s) (so_oobinline s) (ip_tos s) (received s).

Definition of_bool (b : bool) : Z := if b then 1 else 0.

(** [get] and [set]: whether the system carries out the two calls of fcntl. *)
Definition z_fd_set_nonblock (get set enable : bool) (s : fd_state) : bool * fd_state :=
  if get then
    let flags := if enable then Z.lor (fd_flags s) O_NONBLOCK else Z.land (fd_flags s) (Z.lnot O_NONBLOCK) in
    if set then (true, with_flags flags s) else (false, s)
  else (false, s).

Definition z_fd_set_keepalive (set enable : bool) (s : fd_state) : bool * fd_state :=
  if set then (true, mkFd (fd_flags s) (of_bool enable) (so_oobinline s) (ip_tos s) (received s)) else (false, s).

Definition z_fd_set_oobinline (set enable : bool) (s : fd_state) : bool * fd_state :=
  if set then (true, mkFd (fd_flags s) (so_keepalive s) (of_bool enable) (ip_tos s) (received s)) else (false, s).

(** The loop over the control messages. *)
Fixpoint find_tos (msgs : list (Z * Z * Z)) : option Z :=
  match msgs with
  | [] => None
  | (level, type, data) :: msgs => if (level =? SOL_IP) && (type =? IP_TOS) then Some data else find_tos msgs
  end.

(** [recv], [pktoptions] and [get]: whether IP_RECVTOS can be set, the messages can be had, and the own type of
    service can be asked for. *)
Definition z_fd_get_peer_tos (recv pktoptions get : bool) (s : fd_state) : Z :=
  if recv then
    match (if pktoptions then find_tos (received s) else None) with
    | Some tos => tos
    | None => if get then ip_tos s else 0
    end
  else 0.

Definition z_fd_get_our_tos (get : bool) (s : fd_state) : Z := if get then ip_tos s else 0.

(** [set]: whether the system lets a process with these capabilities set it. *)
Definition z_fd_set_our_tos (set : cap_state → bool) (tos : Z) (c : cap_state) (s : fd_state) : cap_state * fd_state :=
  let saved_caps := cap_save c in
  let c := cap_enable c CAP_NET_ADMIN in
  let s := if set c then mkFd (fd_flags s) (so_keepalive s) (so_oobinline s) tos (received s) else s in
  (snd (cap_restore c saved_caps), s).

(** ** What holds *)

Lemma nonblock_bit (flags i : Z) : 0 ≤ i →
  Z.testbit (Z.lor flags O_NONBLOCK) i = (Z.testbit flags i || (i =? 11)) ∧
  Z.testbit (Z.land flags (Z.lnot O_NONBLOCK)) i = (Z.testbit flags i && negb (i =? 11)).
Proof.
  intros Hi. rewrite Z.lor_spec, Z.land_spec, Z.lnot_spec by done. change O_NONBLOCK with (2 ^ 11). rewrite Z.pow2_bits_eqb by done.
  by rewrite (Z.eqb_sym 11 i).
Qed.

(** The mode is set and nothing else: a call that succeeds changes only its bit of the flags, one that fails
    changes nothing, and switching the mode off again after it was switched on gives the flags back, if
    it was off before. *)
Theorem nonblock_spec get set enable s :
  let '(ok, s') := z_fd_set_nonblock get set enable s in
  ok = get && set ∧ (ok = false → s' = s) ∧ (ok = true → Z.testbit (fd_flags s') 11 = enable) ∧
  (∀ i, 0 ≤ i → i ≠ 11 → Z.testbit (fd_flags s') i = Z.testbit (fd_flags s) i) ∧
  (so_keepalive s', so_oobinline s', ip_tos s') = (so_keepalive s, so_oobinline s, ip_tos s) ∧
  (Z.testbit (fd_flags s) 11 = false → (z_fd_set_nonblock true true false s').2 = s).
Proof.
  assert (Hback : ∀ f, Z.testbit (fd_flags s) 11 = false → (∀ i, 0 ≤ i → i ≠ 11 → Z.testbit f i = Z.testbit (fd_flags s) i) →
    (z_fd_set_nonblock true true false (with_flags f s)).2 = s).
  { intros f H11 Hf. cbn. destruct s as [fl ka oo tos rc]. unfold with_flags. cbn in *. f_equal. apply Z.bits_inj'. intros i Hi.
    rewrite (proj2 (nonblock_bit f i Hi)). destruct (Z.eqb_spec i 11) as [->|Hne]; [by rewrite andb_false_r|]. by rewrite andb_true_r, Hf. }
  assert (Hs : with_flags (fd_flags s) s = s) by by destruct s.
  unfold z_fd_set_nonblock at 1. destruct get, set; cbn [andb]; [|split_and!; try done; intros H11; rewrite <- Hs at 1; by apply Hback..].
  set (f := if enable then _ else _).
  assert (Hbits : ∀ i, 0 ≤ i → Z.testbit f i = if i =? 11 then enable else Z.testbit (fd_flags s) i).
  { intros i Hi. destruct (nonblock_bit (fd_flags s) i Hi) as [H1 H2]. unfold f. destruct enable; [rewrite H1|rewrite H2];
      destruct (i =? 11); cbn [negb]; by rewrite ?orb_true_r, ?orb_false_r, ?andb_true_r, ?andb_false_r. }
  assert (Hother : ∀ i, 0 ≤ i → i ≠ 11 → Z.testbit f i = Z.testbit (fd_flags s) i).
  { intros i Hi Hne. rewrite Hbits by done. by destruct (Z.eqb_spec i 11). }
  split_and!; [done|done| |exact Hother|done|].
  - intros _. cbn [fd_flags with_flags]. by rewrite Hbits.
  - intros H11. by apply Hback.
Qed.

(** The type of service is set with the capability, and the process has the capabilities that it
    had before, whether the call succeeds or not. *)
Theorem our_tos_spec set tos c s :
  let '(c', s') := z_fd_set_our_tos set tos c s in
  c' = c ∧ (set (cap_enable c CAP_NET_ADMIN) = true → z_fd_get_our_tos true s' = tos) ∧ (set (cap_enable c CAP_NET_ADMIN) = false → s' = s).
Proof.
  unfold z_fd_set_our_tos. split; [by destruct c as [[] e]|]. destruct (set _); by split.
Qed.

(** The type of service of the peer is that of the first message that tells it, and the own one if there is none. *)
Theorem peer_tos_spec s pre tos post :
  Forall (λ '(level, type, _), (level, type) ≠ (SOL_IP, IP_TOS)) pre →
  z_fd_get_peer_tos true true true (mkFd (fd_flags s) (so_keepalive s) (so_oobinline s) (ip_tos s) (pre ++ (SOL_IP, IP_TOS, tos) :: post)) = tos ∧
  z_fd_get_peer_tos true true true (mkFd (fd_flags s) (so_keepalive s) (so_oobinline s) (ip_tos s) pre) = ip_tos s.
Proof.
  intros Hpre. unfold z_fd_get_peer_tos. cbn [received ip_tos].
  assert (Hf : ∀ rest, find_tos (pre ++ rest) = find_tos rest).
  { intros rest. induction Hpre as [|[[level type] data] pre Hne _ IH]; cbn [app find_tos]; [done|].
    destruct (Z.eqb_spec level SOL_IP) as [->|]; [|exact IH]. destruct (Z.eqb_spec type IP_TOS) as [->|]; [by destruct Hne|exact IH]. }
  split; [by rewrite Hf|]. by rewrite <- (app_nil_r pre), Hf.
Qed.

(** ** Runs *)
Module Runs.
Definition plain_fd : fd_state := mkFd 2 0 0 0 [(1, 1, 9); (SOL_IP, IP_TOS, 16); (SOL_IP, IP_TOS, 8)].

Example set_nonblock : z_fd_set_nonblock true true true plain_fd = (true, with_flags 2050 plain_fd).
Proof. vm_compute. done. Qed.

Lemma peer_tos_spec_witness : z_fd_get_peer_tos true true true plain_fd = 16.
Proof. apply (peer_tos_spec plain_fd [(1, 1, 9)] 16 [(SOL_IP, IP_TOS, 8)]). repeat constructor. intros [=]. Defined.
End Runs.
